(* ===== verification/_CoqProject ===== *)
-Q . S2P
Prelude.v
Sample.v
Timeval.v
Text.v
TextProps.v
Utf8.v
Channelmap.v
Volume.v
Mix.v
MixProps.v
Dll.v
Idxset.v
IdxsetProps.v
Hashmap.v
HashmapProps.v
Memblock.v
MemblockBusy.v
Proplist.v
ProplistText.v
Modargs.v
ModargsProps.v
Json.v
JsonText.v
JsonProps.v
Tagstruct.v
TagstructProps.v
Fdsem.v
Asyncq.v
AsyncqProps.v
Aupdate.v
Flist.v
FlistProps.v
Asyncmsgq.v
AsyncmsgqInv.v
AsyncmsgqFree.v
AsyncmsgqProps.v
Rtpoll.v
RtpollProps.v
RtpollRun.v
Mcalign.v
Pstream.v
PstreamSend.v
PstreamRecv.v
PstreamProps.v
Memblockq.v
MemblockqSpec.v
MemblockqPush.v
MemblockqWrite.v
MemblockqRead.v
MemblockqFixed.v
MemblockqAttr.v
MemblockqInv.v
MemblockqAlign.v
MemblockqFrames.v
MemblockqProps.v
MemblockqOps.v
MemblockqFifo.v
SinkInput.v
SinkInputProps.v
Sink.v
SinkMix.v
Source.v
SinkDrop.v
SinkRender.v
SourceProps.v
SinkProps.v
SinkRewind.v
IwabNet.v
IwabInput.v
IwabInputProps.v
IwabReceive.v
IwabPlay.v
IwabSink.v
IwabSinkProps.v
