(* ===== verification/Prelude.v ===== *)
(** * Verification of the iwab audio path of this PulseAudio tree

    The repository is PulseAudio with two modules of its own, [module-iwab-sink]
    and [module-iwab-input] (src/src/modules/iwab), which send audio in raw
    802.11 frames and play it on another machine.  This development models
    these modules completely, and below them the parts of PulseAudio that
    carry their data and that every other module uses as well.  Names of
    definitions are those of the C code.

    ** The parts, and how they interact

    The sender's I/O thread ([thread_iter] in IwabSink, from iwab-sink.c) takes
    rendered chunks, stamps them and gives them to [iwab_send] (IwabNet, from
    net.c and net.h), twice.  The receiver's work callback ([rtpoll_work_cb] in
    IwabInput, from iwab-input.c) lets [iwab_read] parse what a socket delivers
    into a memory block ([pa_memblock], Memblock), fills gaps in the sequence
    with copies of the packet that follows, and pushes the chunk to an audio queue ([pa_memblockq],
    Memblockq and the files named after it), from which the sink input's pop
    callback peeks and drops.

    That callback is called by [pa_sink_input_peek] (SinkInput, from
    sink-input.c), which fills a queue of its own in the thread of the sink.  The
    sink ([pa_sink_render] in Sink, from sink.c) asks all its streams, mixes what
    they have with their volumes (Volume, for the channels of a map of Channelmap),
    and moves all of them on; when the device goes back, it rewinds them.  What it
    played it posts to its monitor source ([pa_source_post] in Source, from source.c).
    The streams of a sink and their implementors meet in two interfaces: the class
    [ImplementorOk] says what the code behind a stream promises ([RewindOk], what it
    promises when it is taken back), and [sink_ready] what a sink needs of its
    streams.  What it needs of its monitor is the class [MonitorOk], of which the
    source is an instance whenever its outputs keep to [OutputOk] (SourceProps).  The receiver is an instance of the class (IwabPlay), so that the
    theorems on streams and sinks hold of the audio that comes from the air.

    The queue keeps references on blocks of one shared pool, and puts an aligner
    ([pa_mcalign], Mcalign) in front of itself for chunks that do not end on a
    frame.  Threads of the server hand messages to each other through
    [pa_asyncmsgq] (Asyncmsgq), whose senders go one at a time to a [pa_asyncq]
    (Asyncq), which sleeps and wakes on two [pa_fdsem] (Fdsem); a thread that plays
    spends its life in the loop of [pa_rtpoll_run] (Rtpoll), which sleeps until one of these
    queues, a socket or its timer (a point in time, Timeval) has something for it;
    lock-free reading of data that changes rarely goes through [pa_aupdate]
    (Aupdate), and structures that are used again and again are kept in free
    lists ([pa_flist], Flist).  Clients talk to the server in packets and blocks of audio
    ([pa_pstream], Pstream); the packets are tag structs ([pa_tagstruct],
    Tagstruct), which carry sample specs (Sample) and property lists
    ([pa_proplist], Proplist); these are hash maps (Hashmap), and the objects
    of the server live in index sets (Idxset); both are linked lists threaded
    through the entries of hash tables (Dll).

    A module is loaded with a string of arguments (Modargs), which it reads with
    the help of the parsers for numbers (Text), UTF-8 (Utf8), property lists
    (ProplistText), formats and channel maps; [pa__init] and [sink_pa__init] start
    from that string.

    ** The files

    - Prelude: outcomes of C code, machine integers, tactics, hint databases and
      lemmas on lists and sums.
    - Sample: pulse/sample.c, parts of pulsecore/sample-util.c.
    - Timeval: the arithmetic of pulse/timeval.c.
    - Text, TextProps: the parsing helpers of pulsecore/core-util.c.
    - Utf8: pulse/utf8.c.
    - Channelmap: pulse/channelmap.c, pulsecore/bitset.c.
    - Volume: pulse/volume.c, its integer part.
    - Mix, MixProps: the routines of pulsecore/mix.c and pulsecore/svolume_c.c that
      add and scale samples, for integer formats.
    - Dll: the list manipulations hashmap.c and idxset.c share.
    - Idxset, IdxsetProps: pulsecore/idxset.c.
    - Hashmap, HashmapProps: pulsecore/hashmap.c.
    - Memblock: pulsecore/memblock.c (less the shared-memory import and export),
      pulsecore/memchunk.c.
    - MemblockBusy: stores while the data of some blocks is in use.
    - Proplist: pulse/proplist.c; ProplistText: property lists as text.
    - Modargs, ModargsProps: pulsecore/modargs.c.
    - Json: pulse/json.c; JsonText (the grammar), JsonProps (the claims).
    - Tagstruct, TagstructProps: pulsecore/tagstruct.c.
    - Fdsem: pulsecore/fdsem.c.
    - Asyncq, AsyncqProps: pulsecore/asyncq.c.
    - Aupdate: pulsecore/aupdate.c.
    - Flist, FlistProps: pulsecore/flist.c.
    - Asyncmsgq: pulsecore/asyncmsgq.c, on the queue of Asyncq; AsyncmsgqInv (the
      invariant), AsyncmsgqFree (freeing a queue with messages in it) and
      AsyncmsgqProps (the claims).
    - Rtpoll: pulsecore/rtpoll.c; RtpollProps (the array of descriptors), RtpollRun
      (a run of the loop).
    - Mcalign: pulsecore/mcalign.c.
    - Pstream: pulsecore/pstream.c, without shared memory; PstreamSend (writing),
      PstreamRecv (reading), PstreamProps (the two together).
    - Memblockq: pulsecore/memblockq.c, all of it; MemblockqSpec (the stream a
      queue stores, the invariant), MemblockqPush, MemblockqWrite (a push),
      MemblockqRead (peek, drop, rewind), MemblockqFixed (peeks of a fixed size),
      MemblockqAttr (buffer attributes), MemblockqInv (what each operation keeps),
      MemblockqAlign (a push through the aligner), MemblockqFrames (positions at
      whole frames), MemblockqProps (the claims on single operations), MemblockqOps
      (any sequence of operations, with the range of [int64_t]) and MemblockqFifo
      (the queue as a line of bytes).
    - SinkInput, SinkInputProps: pulsecore/sink-input.c, what runs in the thread of
      the sink.
    - Sink: pulsecore/sink.c, rendering and rewinding, with pa_mix of mix.c and the
      cache of silent blocks of sample-util.c; SinkMix (asking the streams),
      SinkDrop (moving them on), SinkRender (the chunk made of their answers),
      SinkProps and SinkRewind (the claims).
    - Source, SourceProps: pulsecore/source.c, what a sink does with its monitor.
    - IwabNet: modules/iwab/net.h and net.c.
    - IwabInput, IwabInputProps: modules/iwab/iwab-input.c; IwabReceive: what becomes
      of any packet; IwabPlay: the receiver together with the stream it feeds.
    - IwabSink, IwabSinkProps: modules/iwab/iwab-sink.c.

    ** How the code is modelled

    A function of the C code is a function that returns an [outcome]: [Ok] of
    its result and the new state, [Abort] when a [pa_assert] fails, [UB] for an
    access outside an object, to a freed object or through a null pointer.  An
    error code of the C code is part of the result.  Integers are [Z], wrapped to
    their width where the code computes ([u8], [u32], [u64], [s32]).  A position in
    the stream of a queue is an unbounded [Z] where the code has an [int64_t];
    [exec] in MemblockqOps is [UB] when a value of that type that an operation
    computes or stores does not fit.  Pointers are
    keys of a map or positions in a list; freeing removes the key, so a stale
    pointer is found out.

    Threads that share memory without a lock (Fdsem, Asyncq, Aupdate, Flist), and
    those that exchange messages on top of that (Asyncmsgq), are
    program counters: one access to an atomic variable, a cell of the ring or a
    descriptor is one step, and a step relation interleaves the threads in
    every order.  Memory is sequentially consistent, as the atomic operations of
    atomic.h, which are full barriers, make it.

    What lies outside is a parameter: the answers of the kernel ([recv],
    [writev], [socket], [bind]), the clock, the audio the iwab sink gets, the
    code behind a stream and its resampler, the outputs of a monitor source, the
    callbacks of a loop (the class [CallbacksOk], which callbacks that only use the
    loop's own operations satisfy), and the
    hash and compare functions of the containers' users (the class [KeyOps],
    with the laws they have to satisfy in [KeyLaws]).

    ** What the theorems show

    - Queue (MemblockqOps, MemblockqProps): in every state a queue can reach by any
      operation but [pa_memblockq_splice], while other parts of the server use the
      same pool and positions stay within 2^60 of zero, no operation fails an
      assertion, touches freed memory or overflows a signed integer; its nodes are disjoint, ordered slices
      of live blocks, its counters agree; a push writes, a peek reads and a drop
      keeps the stream as an array of bytes would.  The places where the code
      does otherwise are stated as they are: the shifted tail of a split node,
      the length check behind the reader, [pa_memblockq_splice], the chunks the
      aligner cuts inside a frame, the position that a seek of a client overflows.
    - Aligner (Mcalign): what goes in comes out, in whole frames, and at most
      three pops empty it.
    - Streams (SinkInputProps): a stream always has something to play, what its
      implementor handed over in order and silence where it had nothing; a rewind
      never fails, replays what was played and asks for no more than it should.
    - Sinks (SinkProps, SinkRewind): a sink plays the mix of what its streams have,
      moves all of them on by the same length, gives it to its monitor source, gives
      every reference back, and takes them back together.
    - Channel maps and volumes (Channelmap, Volume): maps survive being printed and
      parsed; scaling, remapping and multiplying volumes do what they say.
    - Samples (MixProps): every routine that mixes streams or applies a volume
      computes the exact sum or product, rounded down and cut to the range of the
      format, without overflow.
    - iwab (IwabNet, IwabInputProps, IwabReceive, IwabPlay, IwabSinkProps): a frame
      sent is a frame read; received packets end up in the queue as far as it has
      room, in sequence and with copies of the next one for those lost, and all others
      are ignored; every byte queued is handed to the sink
      once and in order, and heard once the receiver has as much as it waits for;
      packets are sent in sequence, at most twice, with time
      stamps that follow the audio; and the inputs that make a module abort,
      read outside the packet or close a descriptor it does not own.
    - Threads (Fdsem, AsyncqProps, Aupdate, FlistProps): no post is lost, the queue
      is a FIFO, its two ends never sleep both, a writer never touches the copy a
      reader uses, a free list loses no pointer and hands none out twice while its
      tags do not meet again.
    - Messages (AsyncmsgqProps): messages are received in order and once, a sender
      gets the answer to its own, what a posted one holds is released once; and
      freeing a queue leaks the messages in its overflow list.
    - Loops (RtpollProps, RtpollRun): every item of a loop has its own descriptors, and
      the kernel gets all of them, however the array moves; a run returns, sleeps
      only when everybody agreed, and tells those that did.
    - Containers (IdxsetProps, HashmapProps, Proplist): each refines an abstract
      specification, a list of pairs in the order of insertion, under every
      sequence of calls.
    - Text (TextProps, Utf8, ProplistText, ModargsProps): numbers are read as
      written, UTF-8 is what the standard says, property lists and module arguments
      survive being written and parsed, no text makes the parser touch memory it
      should not ([modargs_parse_safe]), and a module gets a valid specification from its arguments; with
      the places where the code loses backslashes, lets signs through, or reads a
      key it has freed.
    - JSON (JsonProps): the parser accepts the texts of a grammar and no others, always
      returns, and frees what it does not return; numbers wrap around, repeated keys
      leak, and the empty object is refused.
    - Wire format (TagstructProps): what is put is what is got, and no input makes
      a getter read outside the message.
    - Packet streams (PstreamProps): what one end sends the other gets, however the
      bytes are cut, and strange bytes do no harm, but where a [size_t] is short.
    - Arithmetic (Sample, Timeval): conversion between bytes and time; times are
      added, subtracted and compared as numbers of microseconds, and stop at the
      largest one and at zero.

    ** Bounds and fuel

    A loop of the code is structural recursion where it walks a list, and has
    fuel otherwise.  The fuel is the length of the list for loops that unlink
    their head (running out is impossible, and is [UB] or keeps the state so
    that a theorem about the result would fail), 3 and 4 for draining the
    aligner ([mcalign_stream] shows that it suffices), [missing / length + 1]
    for filling a gap, one round per byte the writer lags behind, and one more,
    for filling a stream, the bytes that are left for reading a property list, three rounds per character for
    a JSON text ([parse_total]),
    the seven steps of a pop nobody interferes with ([pop_alone_spec]), the number of
    items for the loops of a run ([rtpoll_run_pairs] shows that it suffices), and 2^32 for
    counting up an index.  [pa_memblockq_splice] loops for ever on most
    inputs; its fuel is an argument and running out is a result.

    The contracts of the queue bound a stream's lengths by [len_max] and the
    number of nodes by 2^32, and those of the pool the sum of all block lengths
    by 2^31, the range in which the C code's sums do not wrap.

    ** Not modelled

    The object graph of the server in its main thread (core, sources, clients, how
    streams are created and moved), the outputs of a source, the commands of the native protocol and the client library,
    the main loops, the arithmetic of resampling and of decibels, and the factors and samples
    that are floating point,
    latencies and deferred hardware volumes of a sink, the
    hardware back ends, and the wrappers of the operating system.  Of the files
    modelled in part: import and export of blocks over shared memory, credentials, printing
    for people, numbers that are not integers, and functions that only release
    memory.  [malloc] never fails, as in [pa_xmalloc], which exits
    the process when it does.

    ** Next

    Polling on the writing side of a message queue and the items of a loop that
    stand for such queues, the routines of Mix inside the rendering of Sink. *)
From stdpp Require Import base tactics numbers list gmap strings.
#[global] Open Scope Z_scope.
#[export] Set Warnings "-clear-no-such-hyp".

(** ** Outcomes of C code

    A call returns a value, runs into a failed [pa_assert] (the process calls
    abort()), or has undefined behaviour: an access outside an object, to a
    freed object or through a null pointer. *)
Inductive outcome (A : Type) : Type :=
| Ok (a : A)
| Abort
| UB.
Arguments Ok {A} _.
Arguments Abort {A}.
Arguments UB {A}.

#[export] Instance outcome_ret : MRet outcome := fun A a => Ok a.
#[export] Instance outcome_bind : MBind outcome := fun A B f m =>
  match m with Ok a => f a | Abort => Abort | UB => UB end.

(** [pa_assert(b)]: go on when [b] holds, abort() otherwise. *)
Definition pa_assert (b : bool) : outcome unit := if b then Ok tt else Abort.

(** A dereference: the object, or undefined behaviour when there is none. *)
Definition deref {A} (o : option A) : outcome A :=
  match o with Some a => Ok a | None => UB end.

Definition is_ok {A} (m : outcome A) : bool :=
  match m with Ok _ => true | _ => false end.

Lemma Ok_inj {A} (a b : A) : Ok a = Ok b -> a = b.
Proof. congruence. Qed.

Lemma outcome_bind_Ok {A B} (m : outcome A) (f : A -> outcome B) b :
  m ≫= f = Ok b <-> exists a, m = Ok a /\ f a = Ok b.
Proof. destruct m; split; cbn; intros H; try destruct H as (?&?&?); simplify_eq; eauto. Qed.

Lemma bind_ok {A B} (a : A) (f : A -> outcome B) : Ok a ≫= f = f a.
Proof. done. Qed.

Lemma outcome_bind_assoc {A B C} (m : outcome A) (f : A -> outcome B) (g : B -> outcome C) :
  (m ≫= f) ≫= g = m ≫= (fun a => f a ≫= g).
Proof. by destruct m. Qed.

Lemma pa_assert_true b : b = true -> pa_assert b = Ok tt.
Proof. by intros ->. Qed.

Lemma pa_assert_Ok b u : pa_assert b = Ok u <-> b = true.
Proof. destruct b, u; simpl; naive_solver. Qed.

Lemma deref_Ok {A} (o : option A) a : deref o = Ok a <-> o = Some a.
Proof. destruct o; simpl; naive_solver. Qed.

(** ** Machine integers

    A w-bit unsigned value is a [Z] in [0, 2^w); [u8] ... [u64] write out the
    wrap-around of the C operation they are put around.  [s32] and [s64]
    reinterpret a word as a two's complement value. *)
Definition u8 (x : Z) : Z := x mod 2 ^ 8.
Definition u16 (x : Z) : Z := x mod 2 ^ 16.
Definition u32 (x : Z) : Z := x mod 2 ^ 32.
Definition u64 (x : Z) : Z := x mod 2 ^ 64.
Definition s32 (x : Z) : Z := let y := u32 x in if y <? 2 ^ 31 then y else y - 2 ^ 32.
Definition s64 (x : Z) : Z := let y := u64 x in if y <? 2 ^ 63 then y else y - 2 ^ 64.

(** [(size_t) -1] and [(uint32_t) -1]. *)
Definition SIZE_MAX : Z := 18446744073709551615.
Definition UINT32_MAX : Z := 4294967295.
Definition INT_MAX : Z := 2 ^ 31 - 1.

Lemma u8_small x : 0 <= x < 256 -> u8 x = x.
Proof. intros. unfold u8. apply Z.mod_small. lia. Qed.
Lemma u16_small x : 0 <= x < 65536 -> u16 x = x.
Proof. intros. unfold u16. apply Z.mod_small. lia. Qed.
Lemma u32_small x : 0 <= x < 4294967296 -> u32 x = x.
Proof. intros. unfold u32. apply Z.mod_small. lia. Qed.
Lemma u64_small x : 0 <= x < 18446744073709551616 -> u64 x = x.
Proof. intros. unfold u64. apply Z.mod_small. lia. Qed.
Lemma u8_bound x : 0 <= u8 x < 256.
Proof. apply Z.mod_pos_bound. lia. Qed.
Lemma u16_bound x : 0 <= u16 x < 65536.
Proof. apply Z.mod_pos_bound. lia. Qed.
Lemma u32_bound x : 0 <= u32 x < 4294967296.
Proof. apply Z.mod_pos_bound. lia. Qed.
Lemma u64_bound x : 0 <= u64 x < 18446744073709551616.
Proof. apply Z.mod_pos_bound. lia. Qed.
Lemma u32_idem x : u32 (u32 x) = u32 x.
Proof. apply u32_small, u32_bound. Qed.
Lemma u64_idem x : u64 (u64 x) = u64 x.
Proof. apply u64_small, u64_bound. Qed.

(** A negative number wraps to the top of the range: this is what a [size_t]
    subtraction yields when the right operand is larger. *)
Lemma u64_neg x : -18446744073709551616 <= x < 0 -> u64 x = x + 18446744073709551616.
Proof.
  intros. unfold u64. symmetry. apply (Z.mod_unique_pos _ _ (-1)); lia.
Qed.

Lemma s64_small x : -9223372036854775808 <= x < 9223372036854775808 -> s64 x = x.
Proof.
  intros. unfold s64. destruct (decide (0 <= x)).
  - rewrite u64_small by lia. cbn zeta. case (Z.ltb_spec x (2^63)); lia.
  - rewrite u64_neg by lia. cbn zeta.
    case (Z.ltb_spec (x + 18446744073709551616) (2^63)); lia.
Qed.

Lemma s32_small x : -2147483648 <= x < 2147483648 -> s32 x = x.
Proof.
  intros. unfold s32, u32. destruct (decide (0 <= x)).
  - rewrite Z.mod_small by lia. cbn zeta. case (Z.ltb_spec x (2^31)); lia.
  - replace (x mod 2 ^ 32) with (x + 2 ^ 32)
      by (apply (Z.mod_unique_pos _ _ (-1)); lia). cbn zeta.
    case (Z.ltb_spec (x + 2 ^ 32) (2^31)); lia.
Qed.

#[global] Arguments u8 : simpl never.
#[global] Arguments u16 : simpl never.
#[global] Arguments u32 : simpl never.
#[global] Arguments u64 : simpl never.
#[global] Arguments s32 : simpl never.
#[global] Arguments s64 : simpl never.

Create HintDb words.
#[export] Hint Resolve u8_bound u16_bound u32_bound u64_bound : words.
Create Rewrite HintDb words.
#[export] Hint Rewrite u8_small u16_small u32_small u64_small s32_small s64_small using lia : words.

(** A number put together from its high and its low bits. *)
Lemma lor_add a b n : 0 <= n -> 0 <= b < 2 ^ n -> Z.lor (Z.shiftl a n) b = a * 2 ^ n + b.
Proof.
  intros Hn Hb. rewrite <- Z.shiftl_mul_pow2 by done. symmetry. apply Z.add_nocarry_lor. apply Z.bits_inj'. intros i Hi.
  rewrite Z.land_spec, Z.bits_0, Z.shiftl_spec by done. destruct (Z.ltb_spec i n).
  - by rewrite Z.testbit_neg_r by lia.
  - rewrite <- (Z.mod_small b (2 ^ n)), Z.mod_pow2_bits_high by lia. apply andb_false_r.
Qed.

(** ** Tactics *)

(** Case split on the boolean comparisons of the goal and the hypotheses. *)
Ltac bdestruct_one :=
  match goal with
  | |- context [Z.ltb ?a ?b] => destruct (Z.ltb_spec a b)
  | |- context [Z.leb ?a ?b] => destruct (Z.leb_spec a b)
  | |- context [Z.eqb ?a ?b] => destruct (Z.eqb_spec a b)
  | H : context [Z.ltb ?a ?b] |- _ => destruct (Z.ltb_spec a b)
  | H : context [Z.leb ?a ?b] |- _ => destruct (Z.leb_spec a b)
  | H : context [Z.eqb ?a ?b] |- _ => destruct (Z.eqb_spec a b)
  end.
Ltac bsplit := repeat (bdestruct_one; simpl in *; try lia; try congruence).

(** Run the monadic code of a hypothesis [m = Ok _] backwards. *)
Ltac inv_bind :=
  repeat match goal with
  | H : _ ≫= _ = Ok _ |- _ =>
      let E := fresh "E" in
      apply outcome_bind_Ok in H; destruct H as (? & E & H)
  | H : pa_assert _ = Ok _ |- _ => apply pa_assert_Ok in H
  | H : deref _ = Ok _ |- _ => apply deref_Ok in H
  | H : mret _ = Ok _ |- _ => injection H as H
  | H : Ok _ = Ok _ |- _ => injection H as H
  | H : Abort = Ok _ |- _ => discriminate H
  | H : UB = Ok _ |- _ => discriminate H
  | x : _ * _ |- _ => destruct x
  | x : unit |- _ => destruct x
  end; simplify_eq.

(** Linear arithmetic with the boolean tests reflected. *)
Ltac blia := repeat rewrite ?andb_true_iff, ?orb_true_iff, ?negb_true_iff in *;
  rewrite ?Z.ltb_lt, ?Z.leb_le, ?Z.eqb_eq, ?Z.ltb_ge, ?Z.leb_gt, ?Z.eqb_neq in *; lia.

(** ** Rounding to a multiple of a base

    [(x / b) * b] rounds down and [((x + b - 1) / b) * b] rounds up: the idiom
    the sources use to align byte counts to frames. *)
Lemma round_down_le x b : 0 <= x -> 0 < b -> 0 <= x / b * b <= x.
Proof.
  intros. pose proof (Z.div_mod x b). pose proof (Z.mod_pos_bound x b).
  pose proof (Z.div_pos x b). nia.
Qed.

Lemma round_down_mod x b : 0 < b -> (x / b * b) mod b = 0.
Proof. intros. apply Z.mod_mul. lia. Qed.

Lemma round_down_lt x b : 0 < b -> x < x / b * b + b.
Proof. intros. pose proof (Z.div_mod x b). pose proof (Z.mod_pos_bound x b). nia. Qed.

Lemma round_down_id x b : 0 < b -> x mod b = 0 -> x / b * b = x.
Proof. intros. pose proof (Z.div_mod x b). nia. Qed.

Lemma round_up_ge x b : 0 < b -> x <= (x + b - 1) / b * b.
Proof. intros. pose proof (round_down_lt (x + b - 1) b). lia. Qed.

Lemma round_up_lt x b : 0 < b -> (x + b - 1) / b * b < x + b.
Proof.
  intros. pose proof (Z.div_mod (x + b - 1) b). pose proof (Z.mod_pos_bound (x+b-1) b). nia.
Qed.

Lemma round_up_id x b : 0 < b -> x mod b = 0 -> (x + b - 1) / b * b = x.
Proof.
  intros Hb Hx. pose proof (Z.div_mod x b ltac:(lia)) as E. rewrite Hx, Z.add_0_r in E.
  replace (x + b - 1) with (b - 1 + x / b * b) by lia.
  rewrite Z.div_add, Z.div_small by lia. lia.
Qed.

Lemma mod_sub_0 a c b : 0 < b -> a mod b = 0 -> c mod b = 0 -> (a - c) mod b = 0.
Proof. intros. rewrite Zminus_mod, H0, H1. by rewrite Z.mod_0_l by lia. Qed.

Lemma mod_add_0 a c b : 0 < b -> a mod b = 0 -> c mod b = 0 -> (a + c) mod b = 0.
Proof. intros. rewrite Zplus_mod, H0, H1. by rewrite Z.mod_0_l by lia. Qed.

#[export] Hint Resolve mod_sub_0 mod_add_0 round_down_mod : words.

(** ** Slices of byte arrays, indexed by [Z] *)
Definition sub_list {A} (off len : Z) (l : list A) : list A :=
  take (Z.to_nat len) (drop (Z.to_nat off) l).

Lemma sub_list_length {A} off len (l : list A) :
  0 <= off -> 0 <= len -> off + len <= Z.of_nat (length l) ->
  length (sub_list off len l) = Z.to_nat len.
Proof. intros. unfold sub_list. rewrite length_take, length_drop. lia. Qed.

Lemma sub_list_lookup {A} off len (l : list A) (i : nat) :
  0 <= off -> (i < Z.to_nat len)%nat ->
  sub_list off len l !! i = l !! (Z.to_nat off + i)%nat.
Proof. intros. unfold sub_list. rewrite lookup_take_lt by lia. apply lookup_drop. Qed.

Lemma sub_list_app {A} off n1 n2 (l : list A) :
  0 <= off -> 0 <= n1 -> 0 <= n2 ->
  sub_list off (n1 + n2) l = sub_list off n1 l ++ sub_list (off + n1) n2 l.
Proof.
  intros. unfold sub_list. rewrite !Z2Nat.inj_add by lia.
  by rewrite <- drop_drop, take_take_drop.
Qed.

(** A relation between two lists, with a fact on each element of the first. *)
Lemma Forall2_with {A B} (P : A -> B -> Prop) (Q : A -> Prop) l k :
  Forall2 P l k -> Forall Q l -> Forall2 (fun x y => P x y /\ Q x) l k.
Proof. induction 1; intros Hq; constructor; apply Forall_cons in Hq as [? ?]; auto. Qed.

(** [memcpy] into an array: [src] written over [dst] from [off]; [None] when
    it does not fit, where C would write outside the object. *)
Definition splice {A} (off : Z) (src dst : list A) : option (list A) :=
  if (0 <=? off) && (off + Z.of_nat (length src) <=? Z.of_nat (length dst))
  then Some (take (Z.to_nat off) dst ++ src ++ drop (Z.to_nat off + length src) dst)
  else None.

Lemma splice_length {A} off (src dst r : list A) :
  splice off src dst = Some r -> length r = length dst.
Proof.
  unfold splice. destruct (_ && _) eqn:E; [|done]. intros [= <-].
  rewrite !length_app, length_take, length_drop. blia.
Qed.

Lemma splice_some {A} off (src dst : list A) :
  0 <= off -> off + Z.of_nat (length src) <= Z.of_nat (length dst) ->
  exists r, splice off src dst = Some r.
Proof.
  intros. unfold splice. rewrite (proj2 (andb_true_iff _ _)); [eauto|]. blia.
Qed.

(** A [memcpy] over the middle of an array. *)
Lemma splice_eq {A} (e : Z) (src pre mid post : list A) : Z.of_nat (length pre) = e -> length mid = length src ->
  splice e src (pre ++ mid ++ post) = Some (pre ++ src ++ post).
Proof.
  intros He Hm. unfold splice. rewrite (proj2 (andb_true_iff _ _)) by (rewrite !length_app; blia).
  replace (Z.to_nat e) with (length pre) by lia. rewrite take_app_length. f_equal. f_equal. f_equal.
  rewrite app_assoc, <- Hm, <- length_app, drop_app_length. done.
Qed.

(** What is read back after a [memcpy]: the slice up to the copy, the copy,
    and the rest. *)
Lemma splice_prefix {A} off n (src dst r : list A) :
  splice off src dst = Some r -> 0 <= n <= off ->
  sub_list n (off - n + Z.of_nat (length src)) r
  = sub_list n (off - n) dst ++ src.
Proof.
  unfold splice. destruct (_ && _) eqn:E; [|done]. intros [= <-] Hn.
  assert (0 <= off /\ off + Z.of_nat (length src) <= Z.of_nat (length dst)) as [H1 H2] by blia.
  unfold sub_list. rewrite drop_app_le by (rewrite length_take; lia).
  rewrite take_app_ge by (rewrite length_drop, length_take; lia).
  rewrite take_drop_commute.
  replace (Z.to_nat n + Z.to_nat (off - n))%nat with (Z.to_nat off) by lia. f_equal.
  rewrite length_drop, length_take, take_app_le by lia.
  apply take_ge. lia.
Qed.

(** ** Sums over lists and finite maps *)
Definition sumZ (l : list Z) : Z := foldr Z.add 0 l.

Lemma sumZ_app l k : sumZ (l ++ k) = sumZ l + sumZ k.
Proof. induction l; simpl; [done|]. unfold sumZ in *. simpl. lia. Qed.

#[export] Instance sumZ_proper : Proper ((≡ₚ) ==> (=)) sumZ.
Proof. intros l k H. induction H; unfold sumZ in *; simpl; lia. Qed.

Lemma sumZ_nonneg l : Forall (fun x => 0 <= x) l -> 0 <= sumZ l.
Proof. induction 1; unfold sumZ in *; simpl; lia. Qed.

Section msum.
Context `{Countable K} {A : Type} (f : A -> Z).
Implicit Types m : gmap K A.

Definition msum m : Z := sumZ (f ∘ snd <$> map_to_list m).

Lemma msum_insert_new m i x : m !! i = None -> msum (<[i := x]> m) = f x + msum m.
Proof. intros Hi. unfold msum. by rewrite map_to_list_insert by done. Qed.

Lemma msum_delete m i x : m !! i = Some x -> msum (delete i m) = msum m - f x.
Proof.
  intros Hi. rewrite <- (insert_delete_id m i x Hi) at 2.
  rewrite msum_insert_new by apply lookup_delete_eq. lia.
Qed.

Lemma msum_insert_old m i x y : m !! i = Some x -> msum (<[i := y]> m) = msum m - f x + f y.
Proof.
  intros Hi. rewrite <- insert_delete_eq, msum_insert_new by apply lookup_delete_eq.
  rewrite (msum_delete m i x) by done. lia.
Qed.

Lemma msum_nonneg m : map_Forall (fun _ x => 0 <= f x) m -> 0 <= msum m.
Proof.
  intros Hm. apply sumZ_nonneg, Forall_fmap, Forall_forall. intros [i x] Hx.
  apply elem_of_map_to_list in Hx. by apply (Hm i).
Qed.

Lemma msum_ge m i x : map_Forall (fun _ x => 0 <= f x) m -> m !! i = Some x -> f x <= msum m.
Proof.
  intros Hm Hi. pose proof (msum_delete m i x Hi).
  pose proof (msum_nonneg (delete i m) (map_Forall_delete _ _ _ Hm)). lia.
Qed.
End msum.

Lemma msum_size `{Countable K} {A} (f : A -> Z) (m : gmap K A) :
  map_Forall (fun _ x => 1 <= f x) m -> Z.of_nat (size m) <= msum f m.
Proof.
  induction m as [|i x m Hi IH] using map_ind; intros Hm.
  - rewrite map_size_empty. unfold msum. by rewrite map_to_list_empty.
  - apply map_Forall_insert in Hm as [Hx Hm]; [|done]. specialize (IH Hm).
    rewrite map_size_insert_None, msum_insert_new by done. lia.
Qed.

(** ** Threads

    The threads of a system are a list; a step replaces one of them.  [bag] is what
    all of them have together. *)
Definition bag {T A} (f : T -> list A) (ts : list T) : list A := concat (f <$> ts).

Lemma other_thread {T} (ts : list T) j t' t2 : t2 ∈ <[j := t']> ts -> t2 = t' \/ exists j2, j2 <> j /\ ts !! j2 = Some t2.
Proof.
  intros (j2 & E)%list_elem_of_lookup. apply list_lookup_insert_Some in E as [(-> & -> & _)|[Hne E]]; [by left|right]. by exists j2.
Qed.

Lemma bag_move {T A} (f g : T -> list A) ts j t t' : ts !! j = Some t ->
  (forall j2 t2, j2 <> j -> ts !! j2 = Some t2 -> g t2 = f t2) ->
  exists r, bag f ts ≡ₚ f t ++ r /\ bag g (<[j := t']> ts) ≡ₚ g t' ++ r /\
    forall j2 t2 x, j2 <> j -> ts !! j2 = Some t2 -> x ∈ f t2 -> x ∈ r.
Proof.
  intros Ej Hg. pose proof (lookup_lt_Some _ _ _ Ej) as Hj.
  assert (forall us, (forall t2, t2 ∈ us -> g t2 = f t2) -> bag g us = bag f us) as Hb.
  { intros us H. unfold bag. f_equal. apply list_fmap_ext. intros k t2 E. apply H. by apply list_elem_of_lookup_2 in E. }
  assert (forall us vs, bag f (us ++ vs) = bag f us ++ bag f vs) as Ha by (intros; unfold bag; by rewrite fmap_app, concat_app).
  assert (forall us vs, bag g (us ++ vs) = bag g us ++ bag g vs) as Ha' by (intros; unfold bag; by rewrite fmap_app, concat_app).
  exists (bag f (take j ts) ++ bag f (drop (S j) ts)). split_and!.
  - rewrite <- (take_drop_middle ts j t Ej) at 1. rewrite Ha. change (bag f (t :: drop (S j) ts)) with (f t ++ bag f (drop (S j) ts)). solve_Permutation.
  - rewrite insert_take_drop by done. rewrite Ha'. change (bag g (t' :: drop (S j) ts)) with (g t' ++ bag g (drop (S j) ts)).
    rewrite (Hb (take j ts)), (Hb (drop (S j) ts)); [solve_Permutation|..].
    + intros t2 (k & E)%list_elem_of_lookup. rewrite lookup_drop in E. apply (Hg (S j + k)%nat); [lia|done].
    + intros t2 (k & E)%list_elem_of_lookup. apply lookup_take_Some in E as [E Hk]. apply (Hg k); [lia|done].
  - intros j2 t2 x Hne E Hx. apply elem_of_app. destruct (decide (j2 < j)%nat).
    + left. unfold bag. apply list_elem_of_In, in_concat. exists (f t2). rewrite <- !list_elem_of_In. split; [|done].
      apply list_elem_of_fmap. exists t2. split; [done|]. apply list_elem_of_lookup. exists j2. by rewrite lookup_take_lt.
    + right. unfold bag. apply list_elem_of_In, in_concat. exists (f t2). rewrite <- !list_elem_of_In. split; [|done].
      apply list_elem_of_fmap. exists t2. split; [done|]. apply list_elem_of_lookup. exists (j2 - S j)%nat. rewrite lookup_drop.
      by replace (S j + (j2 - S j))%nat with j2 by lia.
Qed.

Lemma bag_replicate {T A} (f : T -> list A) t n : f t = [] -> bag f (replicate n t) = [].
Proof. intros E. unfold bag. induction n as [|n IH]; [done|]. simpl. by rewrite E. Qed.

Lemma filter_keeps {A} (P : A -> Prop) `{!forall x, Decision (P x)} l : Forall P l -> filter P l = l.
Proof. induction 1 as [|x l Hx _ IH]; [done|]. by rewrite filter_cons_True, IH. Qed.

(** ** Little-endian words *)
Fixpoint le_split (n : nat) (x : Z) : list Z :=
  match n with
  | O => []
  | S n => x mod 256 :: le_split n (x / 256)
  end.

Fixpoint le_combine (l : list Z) : Z :=
  match l with
  | [] => 0
  | b :: l => b + 256 * le_combine l
  end.

Lemma le_split_length n x : length (le_split n x) = n.
Proof. revert x. induction n; simpl; auto. Qed.

Lemma le_combine_split n x : le_combine (le_split n x) = x mod 256 ^ Z.of_nat n.
Proof.
  revert x. induction n as [|n IH]; intros x.
  - simpl. by rewrite Z.mod_1_r.
  - cbn [le_split le_combine]. rewrite IH, Nat2Z.inj_succ, Z.pow_succ_r by lia.
    rewrite Z.rem_mul_r by lia. lia.
Qed.

Lemma le_split_bytes n x : Forall (fun b => 0 <= b < 256) (le_split n x).
Proof.
  revert x. induction n; intros x; simpl; constructor; auto. apply Z.mod_pos_bound. lia.
Qed.

Lemma le_combine_bound l : Forall (fun b => 0 <= b < 256) l -> 0 <= le_combine l < 256 ^ Z.of_nat (length l).
Proof.
  induction 1 as [|b l Hb _ IH]; simpl length; cbn [le_combine]; [simpl; lia|].
  rewrite Nat2Z.inj_succ, Z.pow_succ_r by lia. lia.
Qed.

Lemma le_split_combine l : Forall (fun b => 0 <= b < 256) l -> le_split (length l) (le_combine l) = l.
Proof.
  induction 1 as [|b l Hb _ IH]; [done|]. simpl length. cbn [le_combine le_split].
  rewrite Z.mul_comm, Z.mod_add, Z.mod_small, Z.div_add, Z.div_small, Z.add_0_l by lia. by rewrite IH.
Qed.

(** Only the low bytes matter. *)
Lemma le_split_mod n x : le_split n (x mod 256 ^ Z.of_nat n) = le_split n x.
Proof.
  rewrite <- le_combine_split. rewrite <- (le_split_length n x) at 1. apply le_split_combine, le_split_bytes.
Qed.

(** ** Strings

    A C string is the list of its bytes before the terminating null byte. *)
Abbreviation cstring := (list Z).
