(* ===== verification/Sample.v ===== *)
(** * Sample: sample formats, sample specs and byte/time conversion

    Models [src/pulse/sample.c], the types and constants of
    [src/pulse/sample.h] and the frame arithmetic of
    [src/pulsecore/sample-util.c].  A [pa_sample_format_t] is the C enum's
    integer, because the code stores integers from the wire in it and checks
    them with [pa_sample_format_valid]. *)
From stdpp Require Import base tactics numbers list strings.
From Stdlib Require Import Ascii.
From S2P Require Import Prelude.

(** ** Types and constants *)

Definition PA_CHANNELS_MAX : Z := 32.
Definition PA_RATE_MAX : Z := 48000 * 8.
Definition PA_USEC_PER_SEC : Z := 1000000.

Definition PA_SAMPLE_U8 : Z := 0.
Definition PA_SAMPLE_ALAW : Z := 1.
Definition PA_SAMPLE_ULAW : Z := 2.
Definition PA_SAMPLE_S16LE : Z := 3.
Definition PA_SAMPLE_S16BE : Z := 4.
Definition PA_SAMPLE_FLOAT32LE : Z := 5.
Definition PA_SAMPLE_FLOAT32BE : Z := 6.
Definition PA_SAMPLE_S32LE : Z := 7.
Definition PA_SAMPLE_S32BE : Z := 8.
Definition PA_SAMPLE_S24LE : Z := 9.
Definition PA_SAMPLE_S24BE : Z := 10.
Definition PA_SAMPLE_S24_32LE : Z := 11.
Definition PA_SAMPLE_S24_32BE : Z := 12.
Definition PA_SAMPLE_MAX : Z := 13.
Definition PA_SAMPLE_INVALID : Z := -1.

(** Native- and reverse-endian names, on a little-endian machine. *)
Definition PA_SAMPLE_S16NE : Z := PA_SAMPLE_S16LE.
Definition PA_SAMPLE_FLOAT32NE : Z := PA_SAMPLE_FLOAT32LE.
Definition PA_SAMPLE_S32NE : Z := PA_SAMPLE_S32LE.
Definition PA_SAMPLE_S24NE : Z := PA_SAMPLE_S24LE.
Definition PA_SAMPLE_S24_32NE : Z := PA_SAMPLE_S24_32LE.
Definition PA_SAMPLE_S16RE : Z := PA_SAMPLE_S16BE.
Definition PA_SAMPLE_FLOAT32RE : Z := PA_SAMPLE_FLOAT32BE.
Definition PA_SAMPLE_S32RE : Z := PA_SAMPLE_S32BE.
Definition PA_SAMPLE_S24RE : Z := PA_SAMPLE_S24BE.
Definition PA_SAMPLE_S24_32RE : Z := PA_SAMPLE_S24_32BE.

Record pa_sample_spec := mk_sample_spec {
  ss_format : Z;    (* pa_sample_format_t *)
  ss_rate : Z;      (* uint32_t *)
  ss_channels : Z   (* uint8_t *)
}.

#[export] Instance pa_sample_spec_eq_dec : EqDecision pa_sample_spec.
Proof. solve_decision. Defined.

(** ** Operations *)

Definition size_table : list Z := [1; 1; 1; 2; 2; 4; 4; 4; 4; 3; 3; 4; 4].

(** [size_table[f]]: reading past the table is undefined behaviour. *)
Definition size_table_at (f : Z) : outcome Z :=
  if f <? 0 then UB else deref (size_table !! Z.to_nat f).

Definition pa_sample_format_valid (format : Z) : bool := u32 format <? PA_SAMPLE_MAX.

Definition pa_sample_rate_valid (rate : Z) : bool :=
  (0 <? rate) && (rate <=? PA_RATE_MAX * 101 / 100).

Definition pa_channels_valid (channels : Z) : bool :=
  (0 <? channels) && (channels <=? PA_CHANNELS_MAX).

Definition pa_sample_spec_valid (spec : pa_sample_spec) : bool :=
  if negb (pa_sample_rate_valid (ss_rate spec))
     || negb (pa_channels_valid (ss_channels spec))
     || negb (pa_sample_format_valid (ss_format spec))
  then false else true.

Definition pa_sample_size_of_format (f : Z) : outcome Z :=
  _ ← pa_assert (pa_sample_format_valid f);
  size_table_at f.

Definition pa_sample_size (spec : pa_sample_spec) : outcome Z :=
  _ ← pa_assert (pa_sample_spec_valid spec);
  size_table_at (ss_format spec).

Definition pa_frame_size (spec : pa_sample_spec) : outcome Z :=
  _ ← pa_assert (pa_sample_spec_valid spec);
  sz ← size_table_at (ss_format spec);
  Ok (u64 (sz * ss_channels spec)).

Definition pa_bytes_per_second (spec : pa_sample_spec) : outcome Z :=
  _ ← pa_assert (pa_sample_spec_valid spec);
  sz ← size_table_at (ss_format spec);
  Ok (u64 (u64 (ss_rate spec * sz) * ss_channels spec)).

Definition pa_bytes_to_usec (length : Z) (spec : pa_sample_spec) : outcome Z :=
  _ ← pa_assert (pa_sample_spec_valid spec);
  sz ← size_table_at (ss_format spec);
  Ok (u64 (length / u64 (sz * ss_channels spec) * PA_USEC_PER_SEC) / ss_rate spec).

Definition pa_usec_to_bytes (t : Z) (spec : pa_sample_spec) : outcome Z :=
  _ ← pa_assert (pa_sample_spec_valid spec);
  sz ← size_table_at (ss_format spec);
  Ok (u64 (u64 (t * ss_rate spec) / PA_USEC_PER_SEC * u64 (sz * ss_channels spec))).

Definition pa_sample_spec_init : pa_sample_spec := mk_sample_spec PA_SAMPLE_INVALID 0 0.

(** [a == b] on the pointers implies equal contents, so the shortcut of the
    source returns what the field comparison returns. *)
Definition pa_sample_spec_equal (same_pointer : bool) (a b : pa_sample_spec) : bool :=
  if negb (pa_sample_spec_valid a) then false
  else if same_pointer then true
  else if negb (pa_sample_spec_valid b) then false
  else (ss_format a =? ss_format b) && (ss_rate a =? ss_rate b)
       && (ss_channels a =? ss_channels b).

(** The designated initialisers of the C table, in the order of the enum. *)
Definition format_names : list string :=
  ["u8"; "aLaw"; "uLaw"; "s16le"; "s16be"; "float32le"; "float32be"; "s32le"; "s32be";
   "s24le"; "s24be"; "s24-32le"; "s24-32be"]%string.

Definition pa_sample_format_to_string (f : Z) : option string :=
  if negb (pa_sample_format_valid f) then None
  else format_names !! Z.to_nat f.

(** [strcasecmp] in the C locale: only A-Z and a-z are folded. *)
Definition tolower (c : ascii) : ascii :=
  let n := nat_of_ascii c in
  if (65 <=? n)%nat && (n <=? 90)%nat then ascii_of_nat (n + 32) else c.

Fixpoint strcasecmp_eq (a b : string) : bool :=
  match a, b with
  | EmptyString, EmptyString => true
  | String x a, String y b => Ascii.eqb (tolower x) (tolower y) && strcasecmp_eq a b
  | _, _ => false
  end.

Definition pa_parse_sample_format (format : string) : Z :=
  let same s := strcasecmp_eq format s in
  if same "s16le"%string then PA_SAMPLE_S16LE
  else if same "s16be"%string then PA_SAMPLE_S16BE
  else if same "s16ne"%string || same "s16"%string || same "16"%string then PA_SAMPLE_S16NE
  else if same "s16re"%string then PA_SAMPLE_S16RE
  else if same "u8"%string || same "8"%string then PA_SAMPLE_U8
  else if same "float32"%string || same "float32ne"%string || same "float"%string then PA_SAMPLE_FLOAT32NE
  else if same "float32re"%string then PA_SAMPLE_FLOAT32RE
  else if same "float32le"%string then PA_SAMPLE_FLOAT32LE
  else if same "float32be"%string then PA_SAMPLE_FLOAT32BE
  else if same "ulaw"%string || same "mulaw"%string then PA_SAMPLE_ULAW
  else if same "alaw"%string then PA_SAMPLE_ALAW
  else if same "s32le"%string then PA_SAMPLE_S32LE
  else if same "s32be"%string then PA_SAMPLE_S32BE
  else if same "s32ne"%string || same "s32"%string || same "32"%string then PA_SAMPLE_S32NE
  else if same "s32re"%string then PA_SAMPLE_S24RE
  else if same "s24le"%string then PA_SAMPLE_S24LE
  else if same "s24be"%string then PA_SAMPLE_S24BE
  else if same "s24ne"%string || same "s24"%string || same "24"%string then PA_SAMPLE_S24NE
  else if same "s24re"%string then PA_SAMPLE_S24RE
  else if same "s24-32le"%string then PA_SAMPLE_S24_32LE
  else if same "s24-32be"%string then PA_SAMPLE_S24_32BE
  else if same "s24-32ne"%string || same "s24-32"%string then PA_SAMPLE_S24_32NE
  else if same "s24-32re"%string then PA_SAMPLE_S24_32RE
  else PA_SAMPLE_INVALID.

Definition pa_sample_format_is_le (f : Z) : outcome Z :=
  _ ← pa_assert (pa_sample_format_valid f);
  Ok (if bool_decide (f ∈ [PA_SAMPLE_S16LE; PA_SAMPLE_S24LE; PA_SAMPLE_S32LE;
                           PA_SAMPLE_S24_32LE; PA_SAMPLE_FLOAT32LE]) then 1
      else if bool_decide (f ∈ [PA_SAMPLE_S16BE; PA_SAMPLE_S24BE; PA_SAMPLE_S32BE;
                                PA_SAMPLE_S24_32BE; PA_SAMPLE_FLOAT32BE]) then 0
      else -1).

Definition pa_sample_format_is_be (f : Z) : outcome Z :=
  r ← pa_sample_format_is_le f;
  Ok (if r <? 0 then r else if r =? 0 then 1 else 0).

(** *** sample-util.c *)

Definition silence_byte (format : Z) : outcome Z :=
  if format =? PA_SAMPLE_U8 then Ok 128
  else if bool_decide (format ∈ [PA_SAMPLE_S16LE; PA_SAMPLE_S16BE; PA_SAMPLE_S32LE;
            PA_SAMPLE_S32BE; PA_SAMPLE_FLOAT32LE; PA_SAMPLE_FLOAT32BE; PA_SAMPLE_S24LE;
            PA_SAMPLE_S24BE; PA_SAMPLE_S24_32LE; PA_SAMPLE_S24_32BE]) then Ok 0
  else if format =? PA_SAMPLE_ALAW then Ok 213
  else if format =? PA_SAMPLE_ULAW then Ok 255
  else Abort.

Definition pa_silence_memory (length : Z) (spec : pa_sample_spec) : outcome (list Z) :=
  _ ← pa_assert (0 <? length);
  b ← silence_byte (ss_format spec);
  Ok (replicate (Z.to_nat length) b).

Definition pa_frame_align (l : Z) (ss : pa_sample_spec) : outcome Z :=
  fs ← pa_frame_size ss;
  Ok (u64 (l / fs * fs)).

Definition pa_frame_aligned (l : Z) (ss : pa_sample_spec) : outcome bool :=
  fs ← pa_frame_size ss;
  Ok (l mod fs =? 0).

Definition pa_bytes_to_usec_round_up (length : Z) (spec : pa_sample_spec) : outcome Z :=
  fs ← pa_frame_size spec;
  let length := u64 (u64 (length + fs) - 1) / fs in
  let usec := u64 (length * PA_USEC_PER_SEC) in
  Ok (u64 (u64 (usec + ss_rate spec) - 1) / ss_rate spec).

Definition pa_usec_to_bytes_round_up (t : Z) (spec : pa_sample_spec) : outcome Z :=
  let u := u64 (t * ss_rate spec) in
  let u := u64 (u64 (u + PA_USEC_PER_SEC) - 1) / PA_USEC_PER_SEC in
  fs ← pa_frame_size spec;
  Ok (u64 (u * fs)).

Definition pa_convert_size (size : Z) (from to : pa_sample_spec) : outcome Z :=
  usec ← pa_bytes_to_usec_round_up size from;
  pa_usec_to_bytes_round_up usec to.

(** ** The frame size as a number *)

(** A valid sample spec whose format is a value of the (32-bit) enum type. *)
Definition spec_ok (spec : pa_sample_spec) : Prop :=
  pa_sample_spec_valid spec = true /\ -2147483648 <= ss_format spec < 2147483648.

(** [frame_size spec]: sample size times channels, 0 for an invalid format. *)
Definition frame_size (spec : pa_sample_spec) : Z :=
  default 0 (size_table !! Z.to_nat (ss_format spec)) * ss_channels spec.

Lemma spec_ok_inv spec : spec_ok spec ->
  0 < ss_rate spec <= 387840 /\ 0 < ss_channels spec <= 32 /\ 0 <= ss_format spec < 13.
Proof.
  unfold spec_ok, pa_sample_spec_valid, pa_sample_rate_valid, pa_channels_valid,
    pa_sample_format_valid, PA_CHANNELS_MAX, PA_SAMPLE_MAX.
  change (PA_RATE_MAX * 101 / 100) with 387840. intros [Hv Hf].
  destruct (decide (0 <= ss_format spec)).
  - rewrite u32_small in Hv by lia. bsplit.
  - assert (u32 (ss_format spec) = ss_format spec + 4294967296) as E.
    { unfold u32. symmetry. apply (Z.mod_unique_pos _ _ (-1)); lia. }
    rewrite E in Hv. bsplit.
Qed.

Lemma size_table_ok f : 0 <= f < 13 -> exists sz, size_table_at f = Ok sz /\
  size_table !! Z.to_nat f = Some sz /\ 1 <= sz <= 4.
Proof.
  intros Hf. assert (f ∈ seqZ 0 13) as Hin by (apply elem_of_seqZ; lia).
  repeat (apply elem_of_cons in Hin as [->|Hin]; [by eexists; split_and!|]).
  by apply elem_of_nil in Hin.
Qed.

Section with_spec.
Context (spec : pa_sample_spec) (Hspec : spec_ok spec).

Lemma spec_valid : pa_sample_spec_valid spec = true.
Proof. apply Hspec. Qed.

Lemma frame_size_bound : 1 <= frame_size spec <= 128.
Proof.
  destruct (spec_ok_inv _ Hspec) as (_ & Hc & Hf).
  destruct (size_table_ok _ Hf) as (sz & _ & E & ?).
  unfold frame_size. rewrite E. simpl. nia.
Qed.

Lemma size_table_frame : exists sz,
  size_table_at (ss_format spec) = Ok sz /\ u64 (sz * ss_channels spec) = frame_size spec.
Proof.
  destruct (spec_ok_inv _ Hspec) as (_ & Hc & Hf).
  destruct (size_table_ok _ Hf) as (sz & E1 & E & ?).
  exists sz. split; [done|]. pose proof frame_size_bound as B. revert B.
  unfold frame_size. rewrite E. simpl. intros. apply u64_small. lia.
Qed.

Lemma pa_frame_size_ok : pa_frame_size spec = Ok (frame_size spec).
Proof.
  unfold pa_frame_size. rewrite spec_valid. simpl.
  destruct size_table_frame as (sz & -> & <-). done.
Qed.

Lemma pa_bytes_to_usec_ok n :
  pa_bytes_to_usec n spec
  = Ok (u64 (n / frame_size spec * PA_USEC_PER_SEC) / ss_rate spec).
Proof.
  unfold pa_bytes_to_usec. rewrite spec_valid. simpl.
  destruct size_table_frame as (sz & -> & <-). done.
Qed.

Lemma pa_usec_to_bytes_ok t :
  pa_usec_to_bytes t spec
  = Ok (u64 (u64 (t * ss_rate spec) / PA_USEC_PER_SEC * frame_size spec)).
Proof.
  unfold pa_usec_to_bytes. rewrite spec_valid. simpl.
  destruct size_table_frame as (sz & -> & <-). done.
Qed.

Lemma pa_frame_aligned_ok l : pa_frame_aligned l spec = Ok (l mod frame_size spec =? 0).
Proof. unfold pa_frame_aligned. by rewrite pa_frame_size_ok. Qed.

Lemma pa_frame_align_ok l : 0 <= l < 2 ^ 64 ->
  pa_frame_align l spec = Ok (l / frame_size spec * frame_size spec).
Proof.
  intros. unfold pa_frame_align. rewrite pa_frame_size_ok. simpl.
  pose proof frame_size_bound.
  pose proof (round_down_le l (frame_size spec) ltac:(lia) ltac:(lia)).
  rewrite u64_small by lia. done.
Qed.
End with_spec.

(** ** Arithmetic of the conversions, on frame counts *)

(** From frames to microseconds and back, rounding down twice, at most one
    frame is lost: the sample rate is below one million. *)
Lemma frames_usec_frames f r :
  0 <= f -> 0 < r < 1000000 ->
  f - 1 <= f * 1000000 / r * r / 1000000 <= f.
Proof.
  intros Hf Hr.
  pose proof (Z.div_mod (f * 1000000) r ltac:(lia)) as E1.
  pose proof (Z.mod_pos_bound (f * 1000000) r ltac:(lia)).
  set (u := f * 1000000 / r) in *.
  split.
  - apply Z.div_le_lower_bound; nia.
  - apply Z.lt_succ_r, Z.div_lt_upper_bound; nia.
Qed.

(** Rounding the time up instead, none is lost. *)
Lemma frames_usec_up_frames f r :
  0 <= f -> 0 < r < 1000000 ->
  (f * 1000000 + r - 1) / r * r / 1000000 = f.
Proof.
  intros Hf Hr.
  pose proof (round_up_ge (f * 1000000) r ltac:(lia)).
  pose proof (round_up_lt (f * 1000000) r ltac:(lia)).
  symmetry. apply (Z.div_unique_pos _ _ _ ((f * 1000000 + r - 1) / r * r - f * 1000000)); lia.
Qed.

(** ** Properties *)

(** Converting a byte count to microseconds and back with
    [pa_bytes_to_usec] and [pa_usec_to_bytes] never yields more than the
    frame-aligned byte count and loses at most one frame, for every valid
    sample spec and every byte count below 2^43 (over a day of any format),
    so neither 64-bit multiplication wraps. *)
Theorem bytes_usec_roundtrip spec n :
  spec_ok spec -> 0 <= n < 2 ^ 43 ->
  exists t m, pa_bytes_to_usec n spec = Ok t /\ pa_usec_to_bytes t spec = Ok m /\
    m mod frame_size spec = 0 /\
    n / frame_size spec * frame_size spec - frame_size spec <= m
      <= n / frame_size spec * frame_size spec.
Proof.
  intros Hs Hn. pose proof (frame_size_bound _ Hs) as Hfs.
  destruct (spec_ok_inv _ Hs) as (Hr & _).
  set (fs := frame_size spec) in *. set (f := n / fs).
  assert (0 <= f < 2 ^ 43) as Hf.
  { subst f. split; [apply Z.div_pos; lia|]. apply Z.div_lt_upper_bound; nia. }
  set (t := f * 1000000 / ss_rate spec).
  assert (0 <= t * ss_rate spec <= f * 1000000) as Ht.
  { subst t. apply round_down_le; lia. }
  pose proof (frames_usec_frames f (ss_rate spec) ltac:(lia) ltac:(lia)) as Hround.
  fold t in Hround.
  assert (0 <= t * ss_rate spec / 1000000) by (apply Z.div_pos; lia).
  exists t, (t * ss_rate spec / 1000000 * fs).
  rewrite pa_bytes_to_usec_ok, pa_usec_to_bytes_ok by done. fold fs f.
  unfold PA_USEC_PER_SEC. rewrite (u64_small (f * _)), (u64_small (t * _)) by lia. fold t.
  rewrite u64_small by nia.
  split_and!; try done; [apply Z.mod_mul; lia|nia..].
Qed.

Lemma bytes_usec_roundtrip_witness :
  exists t m, pa_bytes_to_usec 1400 (mk_sample_spec PA_SAMPLE_S16LE 44100 2) = Ok t /\
    pa_usec_to_bytes t (mk_sample_spec PA_SAMPLE_S16LE 44100 2) = Ok m /\
    m mod 4 = 0 /\ 1396 <= m <= 1400.
Proof.
  destruct (bytes_usec_roundtrip (mk_sample_spec PA_SAMPLE_S16LE 44100 2) 1400) as (t & m & H).
  - by split.
  - lia.
  - exists t, m. exact H.
Defined.

(** Rounding the time up is lossless: for a frame-aligned byte count,
    [pa_usec_to_bytes] applied to [pa_bytes_to_usec_round_up] gives the count
    back exactly, for every valid sample spec. *)
Theorem bytes_usec_round_up_exact spec n :
  spec_ok spec -> 0 <= n < 2 ^ 43 -> n mod frame_size spec = 0 ->
  exists t, pa_bytes_to_usec_round_up n spec = Ok t /\ pa_usec_to_bytes t spec = Ok n.
Proof.
  intros Hs Hn Hal. pose proof (frame_size_bound _ Hs) as Hfs.
  destruct (spec_ok_inv _ Hs) as (Hr & _).
  unfold pa_bytes_to_usec_round_up. rewrite pa_frame_size_ok by done. simpl.
  set (fs := frame_size spec) in *.
  rewrite (u64_small (n + fs)), (u64_small (n + fs - 1)) by lia.
  set (f := n / fs). pose proof (round_down_id n fs ltac:(lia) Hal) as En. fold f in En.
  replace ((n + fs - 1) / fs) with f
    by (pose proof (round_up_id n fs ltac:(lia) Hal); nia).
  assert (0 <= f < 2 ^ 43) as Hf by nia.
  unfold PA_USEC_PER_SEC. rewrite (u64_small (f * 1000000)) by lia.
  rewrite (u64_small (f * 1000000 + _)), (u64_small (f * 1000000 + _ - 1)) by lia.
  eexists; split; [done|]. rewrite pa_usec_to_bytes_ok by done. fold fs.
  set (t := (f * 1000000 + ss_rate spec - 1) / ss_rate spec).
  pose proof (round_up_ge (f * 1000000) (ss_rate spec) ltac:(lia)).
  pose proof (round_up_lt (f * 1000000) (ss_rate spec) ltac:(lia)).
  rewrite (u64_small (t * _)) by (subst t; lia).
  unfold PA_USEC_PER_SEC. subst t. rewrite frames_usec_up_frames by lia.
  rewrite En, u64_small by lia. done.
Qed.

Lemma bytes_usec_round_up_exact_witness :
  exists t, pa_bytes_to_usec_round_up 1400 (mk_sample_spec PA_SAMPLE_S16LE 44100 2) = Ok t /\
    pa_usec_to_bytes t (mk_sample_spec PA_SAMPLE_S16LE 44100 2) = Ok 1400.
Proof. apply bytes_usec_round_up_exact; [by split|lia|reflexivity]. Defined.

(** [pa_parse_sample_format] inverts [pa_sample_format_to_string], as the
    header promises: every valid format prints to a name that parses back to
    it, and nothing else has a name. *)
Theorem sample_format_name_roundtrip f :
  -2147483648 <= f < 2147483648 ->
  match pa_sample_format_to_string f with
  | Some s => 0 <= f < PA_SAMPLE_MAX /\ pa_parse_sample_format s = f
  | None => ~ (0 <= f < PA_SAMPLE_MAX)
  end.
Proof.
  intros Hf. unfold pa_sample_format_to_string, PA_SAMPLE_MAX.
  destruct (decide (0 <= f < 13)) as [Hin|Hout].
  - assert (f ∈ seqZ 0 13) as He by (apply elem_of_seqZ; lia). clear Hin Hf.
    repeat (apply elem_of_cons in He as [->|He]; [by vm_compute|]). by apply elem_of_nil in He.
  - replace (pa_sample_format_valid f) with false; [done|].
    unfold pa_sample_format_valid, PA_SAMPLE_MAX. symmetry. apply Z.ltb_ge.
    destruct (decide (0 <= f)); [rewrite u32_small; lia|].
    replace f with (f + 4294967296 + (-1) * 2 ^ 32) by lia.
    unfold u32. rewrite Z.mod_add, Z.mod_small by lia. lia.
Qed.

Lemma sample_format_name_roundtrip_witness :
  0 <= 11 < PA_SAMPLE_MAX /\ pa_parse_sample_format "s24-32le" = 11.
Proof. exact (sample_format_name_roundtrip 11 ltac:(lia)). Defined.

(** The text "s32re" names the reverse-endian 32-bit format, yet
    [pa_parse_sample_format] returns the 24-bit one: the branch at line 233 of
    sample.c returns the constant of the branch below it. *)
Theorem parse_s32re_is_s24 :
  pa_parse_sample_format "s32re" = PA_SAMPLE_S24RE /\ PA_SAMPLE_S24RE <> PA_SAMPLE_S32RE /\
  pa_parse_sample_format "s24re" = PA_SAMPLE_S24RE /\
  pa_sample_size_of_format (pa_parse_sample_format "s32re") = Ok 3 /\
  pa_sample_size_of_format PA_SAMPLE_S32RE = Ok 4.
Proof. by vm_compute. Qed.
