(* ===== verification/Timeval.v ===== *)
(** * Timeval: points in time as seconds and microseconds

    Models the arithmetic of [src/pulse/timeval.c].  A [time_t] and a [suseconds_t]
    have 64 bits, a [pa_usec_t] is unsigned and has 64. *)
From stdpp Require Import base tactics numbers list.
From S2P Require Import Prelude Sample.

Definition PA_USEC_INVALID : Z := 2 ^ 64 - 1.
Definition TIME_MAX : Z := 2 ^ 63 - 1.

Record timeval := mk_tv { tv_sec : Z; tv_usec : Z }.

Definition pa_timeval_cmp (a b : timeval) : Z :=
  if tv_sec a <? tv_sec b then -1
  else if tv_sec b <? tv_sec a then 1
  else if tv_usec a <? tv_usec b then -1
  else if tv_usec b <? tv_usec a then 1
  else 0.

Definition pa_timeval_diff (a b : timeval) : Z :=
  let '(a, b) := if pa_timeval_cmp a b <? 0 then (b, a) else (a, b) in
  let r := u64 (u64 (u64 (tv_sec a) - u64 (tv_sec b)) * PA_USEC_PER_SEC) in
  if tv_usec b <? tv_usec a then u64 (r + u64 (u64 (tv_usec a) - u64 (tv_usec b)))
  else if tv_usec a <? tv_usec b then u64 (r - u64 (u64 (tv_usec b) - u64 (tv_usec a)))
  else r.

(** [now]: what [pa_gettimeofday] gives. *)
Definition pa_timeval_age (now tv : timeval) : Z := pa_timeval_diff now tv.

(** The largest time, where [pa_timeval_add] ends up when it overflows. *)
Definition time_limit : timeval := mk_tv TIME_MAX (PA_USEC_PER_SEC - 1).

(** The loop that carries microseconds into seconds. *)
Fixpoint normalize (fuel : nat) (tv : timeval) : outcome timeval :=
  if PA_USEC_PER_SEC <=? u64 (tv_usec tv) then
    match fuel with
    | O => UB
    | S fuel =>
        if TIME_MAX <=? tv_sec tv then Ok time_limit
        else normalize fuel (mk_tv (tv_sec tv + 1) (tv_usec tv - PA_USEC_PER_SEC))
    end
  else Ok tv.

Definition pa_timeval_add (tv : timeval) (v : Z) : outcome timeval :=
  let secs := v / PA_USEC_PER_SEC in
  if TIME_MAX - secs <? tv_sec tv then Ok time_limit
  else
    let usec := tv_usec tv + u64 (v - u64 (secs * PA_USEC_PER_SEC)) in
    normalize (Z.to_nat (u64 usec / PA_USEC_PER_SEC) + 1) (mk_tv (tv_sec tv + secs) usec).

Definition pa_timeval_sub (tv : timeval) (v : Z) : timeval :=
  let secs := v / PA_USEC_PER_SEC in
  if tv_sec tv <? secs then mk_tv 0 0
  else
    let sec := tv_sec tv - secs in
    let v := u64 (v - u64 (secs * PA_USEC_PER_SEC)) in
    if v <=? tv_usec tv then mk_tv sec (tv_usec tv - v)
    else if sec <=? 0 then mk_tv 0 0
    else mk_tv (sec - 1) (tv_usec tv + (PA_USEC_PER_SEC - v)).

Definition pa_timeval_store (v : Z) : timeval :=
  if v =? PA_USEC_INVALID then time_limit
  else mk_tv (v / PA_USEC_PER_SEC) (v mod PA_USEC_PER_SEC).

(** [None]: a null pointer. *)
Definition pa_timeval_load (tv : option timeval) : Z :=
  match tv with
  | None => PA_USEC_INVALID
  | Some tv => u64 (u64 (u64 (tv_sec tv) * PA_USEC_PER_SEC) + u64 (tv_usec tv))
  end.

(** ** What they compute *)

Definition tv_ok (tv : timeval) : Prop := 0 <= tv_sec tv <= TIME_MAX /\ 0 <= tv_usec tv < PA_USEC_PER_SEC.

(** A time as a number of microseconds. *)
Definition usecs (tv : timeval) : Z := tv_sec tv * PA_USEC_PER_SEC + tv_usec tv.

Lemma tv_eq a b : tv_ok a -> tv_ok b -> usecs a = usecs b -> a = b.
Proof. destruct a, b. unfold tv_ok, usecs, PA_USEC_PER_SEC. simpl. intros. f_equal; lia. Qed.

Lemma cmp_spec a b : tv_ok a -> tv_ok b ->
  (pa_timeval_cmp a b < 0 <-> usecs a < usecs b) /\ (0 < pa_timeval_cmp a b <-> usecs b < usecs a).
Proof. unfold tv_ok, usecs, pa_timeval_cmp, PA_USEC_PER_SEC. intros. bsplit. Qed.

(** Differences are exact when 64 bits hold them. *)
Lemma diff_spec a b : tv_ok a -> tv_ok b -> Z.abs (usecs a - usecs b) < 2 ^ 64 -> pa_timeval_diff a b = Z.abs (usecs a - usecs b).
Proof.
  intros Ha Hb Hd. pose proof (cmp_spec a b Ha Hb) as [Hc _]. unfold pa_timeval_diff.
  assert (forall a b, tv_ok a -> tv_ok b -> 0 <= usecs a - usecs b < 2 ^ 64 ->
    (let r := u64 (u64 (u64 (tv_sec a) - u64 (tv_sec b)) * PA_USEC_PER_SEC) in
     if tv_usec b <? tv_usec a then u64 (r + u64 (u64 (tv_usec a) - u64 (tv_usec b)))
     else if tv_usec a <? tv_usec b then u64 (r - u64 (u64 (tv_usec b) - u64 (tv_usec a)))
     else r) = usecs a - usecs b) as H.
  { clear. intros a b [Ha Ha'] [Hb Hb'] Hd. unfold usecs, TIME_MAX, PA_USEC_PER_SEC in *. cbn zeta.
    rewrite !(u64_small (tv_sec _)), !(u64_small (tv_usec _)) by lia.
    rewrite (u64_small (tv_sec a - tv_sec b)) by lia.
    assert (u64 ((tv_sec a - tv_sec b) * 1000000) = (tv_sec a - tv_sec b) * 1000000 \/
      2 ^ 64 <= (tv_sec a - tv_sec b) * 1000000 /\ u64 ((tv_sec a - tv_sec b) * 1000000) = (tv_sec a - tv_sec b) * 1000000 - 2 ^ 64) as Hr.
    { destruct (Z.lt_ge_cases ((tv_sec a - tv_sec b) * 1000000) (2 ^ 64)); [left; apply u64_small; lia|right; split; [done|]].
      unfold u64. symmetry. apply (Z.mod_unique_pos _ _ 1); lia. }
    bsplit; rewrite ?(u64_small (tv_usec a - tv_usec b)), ?(u64_small (tv_usec b - tv_usec a)) by lia;
      destruct Hr as [-> |[? ->]]; rewrite ?u64_small by lia; try lia.
    rewrite u64_neg by lia. lia. }
  destruct (Z.ltb_spec (pa_timeval_cmp a b) 0).
  - rewrite H by (done || lia). lia.
  - rewrite H by (done || lia). lia.
Qed.

(** Adding saturates at the largest time. *)
Lemma add_spec tv v : tv_ok tv -> 0 <= v < 2 ^ 64 ->
  exists tv', pa_timeval_add tv v = Ok tv' /\ tv_ok tv' /\ usecs tv' = Z.min (usecs tv + v) (usecs time_limit).
Proof.
  intros [Hs Hu] Hv. unfold pa_timeval_add, time_limit, usecs, tv_ok, TIME_MAX, PA_USEC_PER_SEC in *.
  pose proof (Z.div_mod v 1000000 ltac:(lia)) as Ed. pose proof (Z.mod_pos_bound v 1000000 ltac:(lia)) as Hm.
  set (secs := v / 1000000) in *. set (rest := v mod 1000000) in *.
  assert (u64 (v - u64 (secs * 1000000)) = rest) as ->.
  { rewrite (u64_small (secs * 1000000)) by lia. rewrite u64_small by lia. lia. }
  destruct (Z.ltb_spec (2 ^ 63 - 1 - secs) (tv_sec tv)) as [Ho|Ho].
  { eexists. split; [done|]. simpl. lia. }
  rewrite Nat.add_1_r. cbn [normalize]. unfold PA_USEC_PER_SEC, TIME_MAX, time_limit. cbn [tv_usec tv_sec].
  rewrite (u64_small (tv_usec tv + rest)) by lia.
  destruct (Z.leb_spec 1000000 (tv_usec tv + rest)) as [Hc|Hc]; [|eexists; split; [done|]; simpl; lia].
  destruct (Z.leb_spec (2 ^ 63 - 1) (tv_sec tv + secs)) as [Hx|Hx]; [eexists; split; [done|]; simpl; unfold TIME_MAX, PA_USEC_PER_SEC; lia|].
  assert (forall fuel t, 0 <= tv_usec t < 1000000 -> normalize fuel t = Ok t) as Hn.
  { intros fuel t Ht. destruct fuel; simpl; unfold PA_USEC_PER_SEC; rewrite u64_small by lia; destruct (Z.leb_spec 1000000 (tv_usec t)); done || lia. }
  rewrite Hn by (simpl; lia). eexists. split; [done|]. simpl. lia.
Qed.

(** Subtracting stops at zero. *)
Lemma sub_spec tv v : tv_ok tv -> 0 <= v < 2 ^ 64 -> tv_ok (pa_timeval_sub tv v) /\ usecs (pa_timeval_sub tv v) = Z.max (usecs tv - v) 0.
Proof.
  intros [Hs Hu] Hv. unfold pa_timeval_sub, usecs, tv_ok, TIME_MAX, PA_USEC_PER_SEC in *.
  pose proof (Z.div_mod v 1000000 ltac:(lia)) as Ed. pose proof (Z.mod_pos_bound v 1000000 ltac:(lia)) as Hm.
  set (secs := v / 1000000) in *. set (rest := v mod 1000000) in *.
  assert (u64 (v - u64 (secs * 1000000)) = rest) as ->.
  { rewrite (u64_small (secs * 1000000)) by lia. rewrite u64_small by lia. lia. }
  bsplit.
Qed.

Lemma store_spec v : 0 <= v < 2 ^ 64 -> tv_ok (pa_timeval_store v) /\ (v <> PA_USEC_INVALID -> usecs (pa_timeval_store v) = v).
Proof.
  intros Hv. unfold pa_timeval_store, tv_ok, usecs, time_limit, TIME_MAX, PA_USEC_INVALID, PA_USEC_PER_SEC.
  pose proof (Z.div_mod v 1000000 ltac:(lia)). pose proof (Z.mod_pos_bound v 1000000 ltac:(lia)). bsplit.
Qed.

(** A point in time survives being stored as seconds and microseconds, and the invalid
    time as well; with times as numbers of microseconds, comparing orders them,
    differences that 64 bits can hold are exact, and adding and subtracting stop at
    the largest time and at zero instead of overflowing. *)
Theorem timeval_arithmetic a b v : tv_ok a -> tv_ok b -> 0 <= v < 2 ^ 64 ->
  pa_timeval_load (Some (pa_timeval_store v)) = v /\
  (pa_timeval_cmp a b < 0 <-> usecs a < usecs b) /\
  (Z.abs (usecs a - usecs b) < 2 ^ 64 -> pa_timeval_diff a b = Z.abs (usecs a - usecs b)) /\
  (exists tv, pa_timeval_add a v = Ok tv /\ tv_ok tv /\ usecs tv = Z.min (usecs a + v) (usecs time_limit)) /\
  usecs (pa_timeval_sub a v) = Z.max (usecs a - v) 0.
Proof.
  intros Ha Hb Hv. split_and!.
  - destruct (store_spec v Hv) as [[Hs Hu] He]. unfold pa_timeval_load. destruct (decide (v = PA_USEC_INVALID)) as [->|Hne]; [by vm_compute|].
    rewrite <- (He Hne) at 3. unfold usecs, TIME_MAX, PA_USEC_PER_SEC in *. set (t := pa_timeval_store v) in *.
    specialize (He Hne). rewrite !(u64_small (tv_sec t)), (u64_small (tv_usec t)) by lia. rewrite (u64_small (tv_sec t * _)) by lia. apply u64_small. lia.
  - by apply cmp_spec.
  - by apply diff_spec.
  - by apply add_spec.
  - by apply sub_spec.
Qed.

Lemma timeval_arithmetic_witness : pa_timeval_load (Some (pa_timeval_store 1500000)) = 1500000 /\
  exists tv, pa_timeval_add (mk_tv 3 700000) 1500000 = Ok tv /\ usecs tv = 5200000.
Proof.
  destruct (timeval_arithmetic (mk_tv 3 700000) (mk_tv 1 0) 1500000) as (H1 & _ & _ & (tv & E & _ & H2) & _);
    [vm_compute; repeat split; discriminate..|lia|]. split; [exact H1|]. exists tv. split; [exact E|]. rewrite H2. vm_compute. reflexivity.
Defined.
