(* ===== verification/Text.v ===== *)
(** * Text: the parsing helpers of core-util.c

    Hexadecimal strings, escaping, numbers and truth values, from
    [src/pulsecore/core-util.c].  A string is the list of its bytes without the
    final zero.  [isspace], [strtoul] and [strtol] are modelled as the C standard
    defines them, in the "C" locale. *)
From stdpp Require Import base tactics numbers list strings.
From S2P Require Import Prelude.

(** ** Characters *)

Definition byte_of_Z (c : Z) : option Byte.byte := if (0 <=? c) && (c <? 256) then Byte.of_N (Z.to_N c) else None.
Definition Z_of_byte (b : Byte.byte) : Z := Z.of_N (Byte.to_N b).
Declare Scope char_lit_scope.
Delimit Scope char_lit_scope with ch.
String Notation Z Z_of_byte byte_of_Z : char_lit_scope.

Definition str (s : string) : cstring := (fun a => Z.of_N (Ascii.N_of_ascii a)) <$> String.list_ascii_of_string s.

Definition isspace (c : Z) : bool := (c =? " "%ch) || ((9 <=? c) && (c <=? 13)).
Definition isdigit (c : Z) : bool := ("0"%ch <=? c) && (c <=? "9"%ch).

(** [tolower], for [strcasecmp]. *)
Definition to_lower (c : Z) : Z := if ("A"%ch <=? c) && (c <=? "Z"%ch) then c + 32 else c.
Definition strcaseeq (a b : cstring) : bool := bool_decide (to_lower <$> a = to_lower <$> b).

(** ** Hexadecimal *)

Definition hex : cstring := Eval vm_compute in str "0123456789abcdef".

Fixpoint hexstr_loop (d : list Z) (j slength : Z) : cstring :=
  match d with
  | [] => []
  | b :: d =>
      if j + 2 <? slength
      then default 0 (hex !! Z.to_nat (Z.shiftr b 4)) :: default 0 (hex !! Z.to_nat (Z.land b 15)) :: hexstr_loop d (j + 2) slength
      else []
  end.

Definition pa_hexstr (d : list Z) (slength : Z) : outcome cstring :=
  _ ← pa_assert (0 <? slength); Ok (hexstr_loop d 0 slength).

Definition hexc (c : Z) : option Z :=
  if ("0"%ch <=? c) && (c <=? "9"%ch) then Some (c - "0"%ch)
  else if ("A"%ch <=? c) && (c <=? "F"%ch) then Some (c - "A"%ch + 10)
  else if ("a"%ch <=? c) && (c <=? "f"%ch) then Some (c - "a"%ch + 10)
  else None.

Fixpoint parsehex_loop (p : cstring) (j dlength : Z) : option (list Z) :=
  match p with
  | [] => Some []
  | c :: p =>
      if j <? dlength then
        b ← hexc c;
        match p with
        | [] => None
        | c' :: p =>
            b' ← hexc c';
            d ← parsehex_loop p (j + 1) dlength;
            Some (Z.lor (u8 (Z.shiftl b 4)) b' :: d)
        end
      else Some []
  end.

Definition pa_parsehex (p : cstring) (dlength : Z) : option (list Z) := parsehex_loop p 0 dlength.

(** ** Escaping *)

Fixpoint pa_escape (p : cstring) (chars : option cstring) : cstring :=
  match p with
  | [] => []
  | c :: p =>
      if c =? "\"%ch then "\"%ch :: c :: pa_escape p chars
      else if bool_decide (c ∈ default [] chars) then "\"%ch :: c :: pa_escape p chars
      else c :: pa_escape p chars
  end.

Fixpoint unescape_loop (escaped : bool) (s : cstring) : cstring :=
  match s with
  | [] => []
  | c :: s => if negb escaped && (c =? "\"%ch) then unescape_loop true s else c :: unescape_loop false s
  end.
Definition pa_unescape (p : cstring) : cstring := unescape_loop false p.

(** ** Numbers *)

(** The digits of a number to one of the bases 8, 10 and 16, with what follows
    them. *)
Definition digit (base c : Z) : option Z := d ← hexc c; if d <? base then Some d else None.

Fixpoint digits (base : Z) (s : cstring) : list Z * cstring :=
  match s with
  | [] => ([], [])
  | c :: r => match digit base c with Some d => let '(ds, r) := digits base r in (d :: ds, r) | None => ([], s) end
  end.

Definition number (base : Z) (ds : list Z) : Z := foldl (fun n d => n * base + d) 0 ds.

Fixpoint skip_spaces (s : cstring) : cstring :=
  match s with c :: r => if isspace c then skip_spaces r else s | [] => [] end.

(** The base 0 of [strtoul]: the prefix of the number says which. *)
Definition split_base (s : cstring) : Z * cstring :=
  match s with
  | c0 :: c1 :: c2 :: r =>
      if (c0 =? "0"%ch) && ((c1 =? "x"%ch) || (c1 =? "X"%ch)) && bool_decide (is_Some (hexc c2)) then (16, c2 :: r)
      else if c0 =? "0"%ch then (8, s) else (10, s)
  | c0 :: _ => if c0 =? "0"%ch then (8, s) else (10, s)
  | [] => (10, s)
  end.

(** The sign, the number and what follows it; nothing when there is no number,
    where the end pointer is set to the start of the string. *)
Definition strto (s : cstring) : option (bool * Z * cstring) :=
  let s := skip_spaces s in
  let '(negative, s) := match s with
    | c :: r => if c =? "-"%ch then (true, r) else if c =? "+"%ch then (false, r) else (false, s)
    | [] => (false, []) end in
  let '(base, s) := split_base s in
  match digits base s with
  | ([], _) => None
  | (ds, rest) => Some (negative, number base ds, rest)
  end.

(** [strtoul] and [strtol] with [errno]: [None] in the first place is ERANGE. *)
Definition strtoul (s : cstring) : option (option Z * cstring) :=
  '(negative, n, rest) ← strto s;
  Some ((if n <? 2 ^ 64 then Some (if negative : bool then u64 (- n) else n) else None), rest).
Definition strtol (s : cstring) : option (option Z * cstring) :=
  '(negative, n, rest) ← strto s;
  let n := if negative : bool then - n else n in
  Some ((if (- 2 ^ 63 <=? n) && (n <? 2 ^ 63) then Some n else None), rest).

(** The [numtype]s that are integers. *)
Inductive numtype := NUMTYPE_UINT | NUMTYPE_INT.

Fixpoint skip_zeros (s : cstring) : cstring :=
  match s with
  | c :: r => match r with [] => s | _ => if c =? "0"%ch then skip_zeros r else s end
  | [] => s
  end.

Definition char_at (s : cstring) (n : nat) : Z := default 0 (s !! n).

Definition prepare_number_string (s : cstring) (type : numtype) : option cstring :=
  if isspace (char_at s 0) then None
  else if char_at s 0 =? "+"%ch then None
  else if match type with NUMTYPE_UINT => char_at s 0 =? "-"%ch | NUMTYPE_INT => false end then None
  else
    let negative := char_at s 0 =? "-"%ch in
    let s := if negative then drop 1 s else s in
    let s := if (char_at s 0 =? "0"%ch) && negb (char_at s 1 =? "x"%ch) then skip_zeros s else s in
    Some (if negative then "-"%ch :: s else s).

(** What [pa_atou] and its relatives make of the result of [strtoul] or [strtol]. *)
Definition consumed {A} (r : option (option A * cstring)) : option A :=
  match r with Some (Some n, []) => Some n | _ => None end.

Definition pa_atou (s : cstring) : option Z :=
  s ← prepare_number_string s NUMTYPE_UINT;
  l ← consumed (strtoul s);
  if UINT32_MAX <? l then None else Some l.

Definition pa_atou64 (s : cstring) : option Z :=
  s ← prepare_number_string s NUMTYPE_UINT;
  consumed (strtoul s).

Definition pa_atol (s : cstring) : option Z :=
  s ← prepare_number_string s NUMTYPE_INT;
  consumed (strtol s).

Definition pa_atoi64 (s : cstring) : option Z :=
  s ← prepare_number_string s NUMTYPE_INT;
  consumed (strtol s).

Definition pa_atoi (s : cstring) : option Z :=
  l ← pa_atol s;
  if (l <? - 2 ^ 31) || (2 ^ 31 - 1 <? l) then None else Some l.

(** ** Truth values *)

(** [locale] stands for the words of the user's language. *)
Definition pa_parse_boolean (locale : cstring -> option bool) (v : cstring) : option bool :=
  if bool_decide (v = str "1") || strcaseeq v (str "y") || strcaseeq v (str "t")
    || strcaseeq v (str "yes") || strcaseeq v (str "true") || strcaseeq v (str "on") then Some true
  else if bool_decide (v = str "0") || strcaseeq v (str "n") || strcaseeq v (str "f")
    || strcaseeq v (str "no") || strcaseeq v (str "false") || strcaseeq v (str "off") then Some false
  else locale v.
