(* ===== verification/TextProps.v ===== *)
(** * TextProps: what the parsing helpers accept

    Hexadecimal strings and escaping are undone by their inverses, and the
    numbers [pa_atou] and its relatives accept are the ones written as such. *)
From stdpp Require Import base tactics numbers list strings.
From S2P Require Import Prelude Text.

(** ** Hexadecimal *)

Lemma hexc_hex n : 0 <= n < 16 -> hexc (default 0 (hex !! Z.to_nat n)) = Some n.
Proof.
  intros H. assert (Z.to_nat n < 16)%nat as Hn by lia. rewrite <- (Z2Nat.id n) at 2 by lia.
  generalize dependent (Z.to_nat n). intros k Hk. do 16 (destruct k as [|k]; [reflexivity|]). lia.
Qed.

Lemma half_range b : 0 <= b < 256 -> 0 <= Z.shiftr b 4 < 16 /\ 0 <= Z.land b 15 < 16.
Proof.
  intros H. rewrite Z.shiftr_div_pow2 by lia. change 15 with (Z.ones 4). rewrite Z.land_ones by lia. change (2 ^ 4) with 16.
  split; [split; [apply Z.div_pos|apply Z.div_lt_upper_bound]; lia|apply Z.mod_pos_bound; lia].
Qed.

Lemma byte_halves b : 0 <= b < 256 -> Z.lor (u8 (Z.shiftl (Z.shiftr b 4) 4)) (Z.land b 15) = b.
Proof.
  intros H. rewrite u8_small.
  - apply Z.bits_inj'. intros n Hn. rewrite Z.lor_spec, Z.land_spec. change 15 with (Z.ones 4). rewrite Z.testbit_ones_nonneg by lia.
    destruct (Z.ltb_spec n 4).
    + rewrite Z.shiftl_spec_low by lia. by rewrite andb_true_r.
    + rewrite Z.shiftl_spec, Z.shiftr_spec, andb_false_r, orb_false_r by lia. f_equal. lia.
  - rewrite Z.shiftl_mul_pow2, Z.shiftr_div_pow2 by lia. change (2 ^ 4) with 16. pose proof (Z.mul_div_le b 16 ltac:(lia)).
    pose proof (Z.div_pos b 16 ltac:(lia) ltac:(lia)). lia.
Qed.

Lemma hex_parse d : Forall (fun b => 0 <= b < 256) d -> forall j slength i dlength,
  j + 2 * Z.of_nat (length d) < slength -> i + Z.of_nat (length d) <= dlength ->
  parsehex_loop (hexstr_loop d j slength) i dlength = Some d.
Proof.
  induction 1 as [|b d Hb _ IH]; intros j slength i dlength Hj Hi; [done|]. cbn [length] in *.
  cbn [hexstr_loop]. rewrite (proj2 (Z.ltb_lt _ _)) by lia. cbn [parsehex_loop]. rewrite (proj2 (Z.ltb_lt _ _)) by lia.
  destruct (half_range b Hb). rewrite (hexc_hex (Z.shiftr b 4)) by done. cbn [mbind option_bind].
  rewrite (hexc_hex (Z.land b 15)) by done. cbn [mbind option_bind]. rewrite IH by lia. cbn [mbind option_bind]. by rewrite byte_halves.
Qed.

Lemma hexstr_digits d j slength : Forall (fun b => 0 <= b < 256) d -> Forall (fun c => is_Some (hexc c)) (hexstr_loop d j slength).
Proof.
  intros H. revert j. induction H as [|b d Hb _ IH]; intros j; cbn [hexstr_loop]; [constructor|].
  destruct (j + 2 <? slength); [|constructor].
  destruct (half_range b Hb). repeat constructor; [| |apply IH]; rewrite hexc_hex by done; eauto.
Qed.

(** Printing bytes in hexadecimal and parsing them gives them back, when both
    buffers are large enough. *)
Lemma hex_roundtrip d slength dlength s : Forall (fun b => 0 <= b < 256) d -> 2 * Z.of_nat (length d) < slength ->
  Z.of_nat (length d) <= dlength -> pa_hexstr d slength = Ok s -> pa_parsehex s dlength = Some d.
Proof.
  intros Hd Hs Hl E. unfold pa_hexstr in E. inv_bind. by apply hex_parse.
Qed.

(** ** Escaping *)

Lemma unescape_escape p chars : pa_unescape (pa_escape p chars) = p.
Proof.
  unfold pa_unescape. induction p as [|c p IH]; [done|]. cbn [pa_escape].
  destruct (Z.eqb_spec c 92) as [->|Hc]; [cbn; by rewrite IH|].
  assert ((c =? 92) = false) as E by (by apply Z.eqb_neq).
  case_bool_decide; cbn; rewrite ?E; by rewrite IH.
Qed.

(** ** Numbers *)

(** A string of digits to a base, all of it. *)
Definition all_number (base : Z) (s : cstring) : option Z :=
  match s with [] => None | _ => number base <$> mapM (digit base) s end.

(** The number a string is the usual way to write: decimal, or hexadecimal with
    the prefix [0x]. *)
Definition literal (t : cstring) : option Z :=
  if bool_decide (take 2 t = str "0x") then all_number 16 (drop 2 t) else all_number 10 t.

(** No space and no sign. *)
Definition plain (c : Z) : bool := negb (isspace c || (c =? "+"%ch) || (c =? "-"%ch)).

(** The part of [strto] behind the sign, for strings that are consumed. *)
Definition magnitude (t : cstring) : option Z :=
  let '(base, s) := split_base t in
  match digits base s with (d :: ds, []) => Some (number base (d :: ds)) | _ => None end.

Lemma digits_all base s : match digits base s with (ds, []) => Some ds | _ => None end = mapM (digit base) s.
Proof.
  induction s as [|c s IH]; [done|]. cbn [digits mapM]. destruct (digit base c) as [d|]; [|done]. simpl.
  destruct (digits base s) as [ds [|r0 r]]; rewrite <- IH; done.
Qed.

Lemma all_number_digits base s : match digits base s with (d :: ds, []) => Some (number base (d :: ds)) | _ => None end = all_number base s.
Proof.
  unfold all_number. rewrite <- digits_all. destruct s as [|c s]; [done|]. cbn [digits].
  destruct (digit base c) as [d|]; [|done]. by destruct (digits base s) as [ds [|]].
Qed.

Lemma split_base_10 t : char_at t 0 <> "0"%ch -> split_base t = (10, t).
Proof.
  intros H. destruct t as [|c0 r]; [done|]. unfold char_at in H. simpl in H. unfold split_base.
  rewrite (proj2 (Z.eqb_neq _ _) H). cbn [andb]. by destruct r as [|? [|]].
Qed.

Lemma magnitude_10 t : char_at t 0 <> "0"%ch -> magnitude t = all_number 10 t.
Proof. intros H. unfold magnitude. rewrite split_base_10 by done. apply all_number_digits. Qed.

Lemma all_number_zero s : s <> [] -> all_number 10 ("0"%ch :: s) = all_number 10 s.
Proof. intros H. destruct s as [|c s]; [done|]. unfold all_number. cbn [mapM]. simpl. by destruct (digit 10 c), (mapM (digit 10) s). Qed.

Lemma magnitude_zeros t : magnitude (skip_zeros t) = all_number 10 t.
Proof.
  induction t as [|c [|c1 r] IH]; [done| |].
  - cbn [skip_zeros]. destruct (decide (c = "0"%ch)) as [->|Hc]; [reflexivity|]. by apply magnitude_10.
  - change (skip_zeros (c :: c1 :: r)) with (if c =? 48 then skip_zeros (c1 :: r) else c :: c1 :: r).
    destruct (Z.eqb_spec c 48) as [->|Hc]; [|by apply magnitude_10]. by rewrite IH, all_number_zero.
Qed.

Lemma magnitude_hex h : magnitude ("0"%ch :: "x"%ch :: h) = all_number 16 h.
Proof.
  destruct h as [|c h]; [reflexivity|]. unfold magnitude. cbn [split_base]. change ((48 =? 48) && ((120 =? 120) || (120 =? 88))) with true. cbn [andb].
  case_bool_decide as Hx.
  - apply all_number_digits.
  - transitivity (@None Z); [done|]. unfold all_number. cbn [mapM].
    assert (digit 16 c = None) as -> by (unfold digit; destruct (hexc c); [exfalso; eauto|done]). done.
Qed.

(** Without its sign the string handed to [strtoul] *)
Definition stripped (t : cstring) : cstring :=
  if (char_at t 0 =? "0"%ch) && negb (char_at t 1 =? "x"%ch) then skip_zeros t else t.

Lemma magnitude_stripped t : magnitude (stripped t) = literal t.
Proof.
  unfold stripped, literal. destruct (Z.eqb_spec (char_at t 0) 48) as [E0|E0]; cbn [andb].
  - destruct (Z.eqb_spec (char_at t 1) 120) as [E1|E1]; cbn [negb].
    + destruct t as [|c0 [|c1 h]]; try done. unfold char_at in *. simpl in E0, E1. subst. rewrite bool_decide_true by done. apply magnitude_hex.
    + rewrite bool_decide_false; [apply magnitude_zeros|]. intros E. destruct t as [|c0 [|c1 h]]; try done. unfold char_at in E1. simpl in *. by injection E.
  - rewrite bool_decide_false; [by apply magnitude_10|]. intros E. destruct t as [|c0 [|c1 h]]; try done. unfold char_at in E0. simpl in *. by injection E.
Qed.

Lemma number_nonneg base ds : 0 <= base -> Forall (fun d => 0 <= d) ds -> 0 <= number base ds.
Proof.
  intros Hb H. unfold number. assert (forall n, 0 <= n -> 0 <= foldl (fun n d => n * base + d) n ds) as G; [|by apply G].
  induction H as [|d ds Hd _ IH]; intros n Hn; [done|]. simpl. apply IH. nia.
Qed.

Lemma digit_nonneg base c d : digit base c = Some d -> 0 <= d.
Proof. unfold digit, hexc. repeat case_match; simpl; intros E; simplify_eq; case_match; simplify_eq; blia. Qed.

Lemma literal_nonneg t n : literal t = Some n -> 0 <= n.
Proof.
  assert (forall base s, 0 <= base -> all_number base s = Some n -> 0 <= n) as A.
  { intros base s Hb E. unfold all_number in E. destruct s as [|c s]; [done|]. apply fmap_Some in E as (ds & E & ->). apply number_nonneg; [done|].
    apply mapM_Some in E. clear -E. induction E; constructor; [by eapply digit_nonneg|done]. }
  unfold literal. case_bool_decide; by apply A.
Qed.

Lemma skip_zeros_suffix t : exists z, t = z ++ skip_zeros t.
Proof.
  induction t as [|c [|c1 r] [z IH]]; [by exists []|by exists []|]. change (skip_zeros (c :: c1 :: r)) with (if c =? 48 then skip_zeros (c1 :: r) else c :: c1 :: r).
  destruct (c =? 48); [|by exists []]. exists (c :: z). simpl. by f_equal.
Qed.

Lemma plain_stripped t : Forall plain t -> Forall plain (stripped t).
Proof.
  intros H. unfold stripped. case_match; [|done]. destruct (skip_zeros_suffix t) as [z E]. rewrite E in H. by apply Forall_app in H as [_ H].
Qed.

(** [strto] on a string without spaces and signs, and behind a minus sign. *)
Lemma strto_magnitude (neg : bool) t : Forall plain t ->
  match strto (if neg then "-"%ch :: t else t) with Some (b, n, []) => Some (b, n) | _ => None end = (neg,.) <$> magnitude t.
Proof.
  intros H. assert (skip_spaces t = t /\ match t with c :: r => if c =? 45 then (true, r) else if c =? 43 then (false, r) else (false, t) | [] => (false, []) end = (false, t)) as [Es Eg].
  { destruct H as [|c t Hc _]; [done|]. unfold plain in Hc. destruct (isspace c) eqn:Ec, (Z.eqb_spec c 43), (Z.eqb_spec c 45); try done. cbn [skip_spaces]. by rewrite Ec. }
  unfold magnitude. destruct neg.
  - change (strto (45 :: t)) with (let '(base, s) := split_base t in match digits base s with ([], _) => None | (ds, rest) => Some (true, number base ds, rest) end).
    destruct (split_base t) as [base s].
    destruct (digits base s) as [[|d ds] [|]]; done.
  - unfold strto. rewrite Es, Eg. destruct (split_base t) as [base s]. destruct (digits base s) as [[|d ds] [|]]; done.
Qed.

Lemma plain_head t : Forall plain t -> isspace (char_at t 0) = false /\ char_at t 0 <> "+"%ch /\ char_at t 0 <> "-"%ch.
Proof.
  intros H. destruct H as [|c t Hc _]; [done|]. unfold char_at. simpl. unfold plain in Hc.
  destruct (isspace c), (Z.eqb_spec c 43), (Z.eqb_spec c 45); done.
Qed.

Lemma prepare_plain t type : Forall plain t -> prepare_number_string t type = Some (stripped t).
Proof.
  intros H. destruct (plain_head t H) as (E1 & E2 & E3). unfold prepare_number_string. rewrite E1.
  rewrite (proj2 (Z.eqb_neq _ _) E2), (proj2 (Z.eqb_neq _ _) E3). by destruct type.
Qed.

Lemma prepare_minus t : prepare_number_string ("-"%ch :: t) NUMTYPE_INT = Some ("-"%ch :: stripped t).
Proof. done. Qed.

Lemma consumed_ul t : Forall plain t ->
  consumed (strtoul t) = (n ← magnitude t; if n <? 2 ^ 64 then Some n else None).
Proof.
  intros H. pose proof (strto_magnitude false t H) as E. generalize dependent (magnitude t). intros m E. unfold strtoul, consumed. destruct (strto t) as [[[b n] [|r0 r]]|]; simpl in E |- *.
  - destruct m; simplify_eq/=. by case_match.
  - destruct m; [done|by case_match].
  - by destruct m.
Qed.

Lemma consumed_l (neg : bool) t : Forall plain t ->
  consumed (strtol (if neg then "-"%ch :: t else t)) =
    (n ← magnitude t; let n := if neg then - n else n in if (- 2 ^ 63 <=? n) && (n <? 2 ^ 63) then Some n else None).
Proof.
  intros H. pose proof (strto_magnitude neg t H) as E. generalize dependent (magnitude t). intros m E. unfold strtol, consumed. destruct (strto _) as [[[b n] [|r0 r]]|]; simpl in E |- *.
  - destruct m; simplify_eq/=. by case_match.
  - destruct m; [done|by case_match].
  - by destruct m.
Qed.

(** Numbers are read as they are written.  A string without spaces and
    signs is accepted exactly when it is a decimal number, leading zeros allowed,
    or a hexadecimal one behind [0x], within the range of the type; with a minus
    sign in front it is its negation for the signed functions and refused by the
    unsigned ones. *)
Theorem numbers_are_literals t : Forall plain t ->
  pa_atou t = (n ← literal t; if n <=? UINT32_MAX then Some n else None) /\
  pa_atou64 t = (n ← literal t; if n <? 2 ^ 64 then Some n else None) /\
  pa_atoi t = (n ← literal t; if n <? 2 ^ 31 then Some n else None) /\
  pa_atoi ("-"%ch :: t) = (n ← literal t; if n <=? 2 ^ 31 then Some (- n) else None) /\
  pa_atou ("-"%ch :: t) = None.
Proof.
  intros H. pose proof (plain_stripped t H) as Hs. pose proof (magnitude_stripped t) as El.
  pose proof (consumed_ul _ Hs) as Eu. pose proof (consumed_l false _ Hs) as Ei. pose proof (consumed_l true _ Hs) as En. rewrite El in Eu, Ei, En.
  unfold pa_atou, pa_atou64, pa_atoi, pa_atol. rewrite prepare_minus, !prepare_plain by done. cbn [mbind option_bind].
  rewrite Eu, Ei, En. unfold UINT32_MAX. pose proof (literal_nonneg t) as Hn. destruct (literal t) as [n|]; [|done]. cbn [mbind option_bind]. specialize (Hn n eq_refl).
  split_and!; [| | | |done]; repeat (case_match; simpl); try blia; try done; f_equal; lia.
Qed.

(** The leading zeros are removed before the rest is looked at: a space or a sign
    behind them, which the code means to refuse, gets through to [strtoul]. *)
Lemma zeros_hide_signs :
  pa_atou (str "0 5") = Some 5 /\ pa_atoi (str "00+7") = Some 7 /\ pa_atou64 (str "0-5") = Some 18446744073709551611.
Proof. vm_compute. done. Qed.

(** ** Witnesses *)

Lemma numbers_are_literals_witness : pa_atou (str "0070") = Some 70 /\ pa_atoi (str "-0x1f") = Some (-31) /\ pa_atou (str "4294967296") = None.
Proof.
  assert (forall s, forallb plain (str s) = true -> Forall plain (str s)) as P by (intros s H; apply forallb_True; by rewrite H).
  destruct (numbers_are_literals (str "0070") ltac:(by apply P)) as (E1 & _).
  destruct (numbers_are_literals (str "0x1f") ltac:(by apply P)) as (_ & _ & _ & E2 & _).
  destruct (numbers_are_literals (str "4294967296") ltac:(by apply P)) as (E3 & _).
  split; [|split]; [refine (eq_trans E1 _)|refine (eq_trans E2 _)|refine (eq_trans E3 _)]; vm_compute; reflexivity.
Defined.
