(* ===== verification/Utf8.v ===== *)
(** * Utf8: which strings are text

    Models [src/pulse/utf8.c], less the conversions that call iconv, and shows
    that [pa_utf8_valid] accepts exactly the encodings of sequences of Unicode
    characters. *)
From stdpp Require Import base tactics numbers list.
From S2P Require Import Prelude.

(** ** The code *)

Definition FILTER_CHAR : Z := 95.

Definition is_unicode_valid (ch : Z) : bool :=
  if 0x110000 <=? ch then false
  else if Z.land ch 0xFFFFF800 =? 0xD800 then false
  else if (0xFDD0 <=? ch) && (ch <=? 0xFDEF) then false
  else if Z.land ch 0xFFFE =? 0xFFFE then false
  else true.

Definition is_continuation_char (ch : Z) : bool := Z.land ch 0xc0 =? 0x80.

Definition merge_continuation_char (u_ch ch : Z) : Z := Z.lor (u32 (Z.shiftl u_ch 6)) (Z.land ch 0x3f).

(** What the first byte of a sequence says: how many bytes follow, the smallest
    value such a sequence is for, and the first bits of the value. *)
Definition lead (c : Z) : option (nat * Z * Z) :=
  if Z.land c 0xe0 =? 0xc0 then Some (1%nat, 128, Z.land c 0x1e)
  else if Z.land c 0xf0 =? 0xe0 then Some (2%nat, Z.shiftl 1 11, Z.land c 0x0f)
  else if Z.land c 0xf8 =? 0xf0 then Some (3%nat, Z.shiftl 1 16, Z.land c 0x07)
  else None.

(** The remaining bytes, three, two or one of them; the zero at the end of the
    string is none. *)
Fixpoint remaining (n : nat) (val : Z) (p : cstring) : option Z :=
  match n with
  | O => Some val
  | S n =>
      match p with
      | c :: p => if is_continuation_char c then remaining n (merge_continuation_char val c) p else None
      | [] => None
      end
  end.

(** The size of the sequence a string starts with, unless there is an error. *)
Definition sequence (p : cstring) : option nat :=
  match p with
  | [] => None
  | c :: r =>
      '(n, min, val) ← lead c;
      val ← remaining n val r;
      if val <? min then None else if negb (is_unicode_valid val) then None else Some (S n)
  end.

(** The loop of [utf8_validate]; with [filter] there is an output buffer.  Every
    round takes a byte off. *)
Fixpoint validate_loop (fuel : nat) (filter : bool) (p : cstring) : option cstring :=
  match fuel, p with
  | _, [] => Some []
  | O, _ => None
  | S fuel, c :: r =>
      if c <? 128 then cons c <$> validate_loop fuel filter r
      else match sequence p with
           | Some size => app (take size p) <$> validate_loop fuel filter (drop size p)
           | None => if filter then cons FILTER_CHAR <$> validate_loop fuel filter r else None
           end
  end.

Definition utf8_validate (filter : bool) (str : cstring) : option cstring :=
  o ← validate_loop (length str) filter str;
  Some (if filter then o else str).

Definition pa_utf8_valid (str : cstring) : option cstring := utf8_validate false str.
Definition pa_utf8_filter (str : cstring) : option cstring := utf8_validate true str.

Definition pa_ascii_filter (str : cstring) : cstring := filter (fun c => c < 128) str.

(** ** Unicode *)

(** The characters the code means to accept: not zero, which ends a string, no
    surrogates and no non-characters. *)
Definition char_ok (ch : Z) : Prop :=
  0 < ch < 0x110000 /\ ~ (0xD800 <= ch < 0xE000) /\ ~ (0xFDD0 <= ch <= 0xFDEF) /\ ch mod 65536 < 0xFFFE.

(** UTF-8, by the ranges of the standard. *)
Definition encode (ch : Z) : cstring :=
  if ch <? 0x80 then [ch]
  else if ch <? 0x800 then [0xC0 + ch / 64; 0x80 + ch mod 64]
  else if ch <? 0x10000 then [0xE0 + ch / 4096; 0x80 + ch / 64 mod 64; 0x80 + ch mod 64]
  else [0xF0 + ch / 262144; 0x80 + ch / 4096 mod 64; 0x80 + ch / 64 mod 64; 0x80 + ch mod 64].

(** ** Bits *)

Lemma land_mask ch a b : 0 <= b -> 0 <= a ->
  Z.land ch (Z.ldiff (Z.ones a) (Z.ones b)) = ch mod 2 ^ a / 2 ^ b * 2 ^ b.
Proof.
  intros Hb Ha. rewrite <- Z.land_ones, <- Z.shiftr_div_pow2, <- Z.shiftl_mul_pow2, <- Z.ldiff_ones_r by lia.
  apply Z.bits_inj'. intros n Hn. rewrite !Z.land_spec, !Z.ldiff_spec, !Z.land_spec. by rewrite andb_assoc.
Qed.

Lemma is_unicode_valid_spec ch : 0 < ch < 2 ^ 32 -> is_unicode_valid ch = true <-> char_ok ch.
Proof.
  intros H. unfold is_unicode_valid, char_ok. change 0xFFFFF800 with (Z.ldiff (Z.ones 32) (Z.ones 11)).
  change (Z.land ch 0xFFFE) with (Z.land ch (Z.ldiff (Z.ones 16) (Z.ones 1))). rewrite !land_mask by lia.
  change (2 ^ 11) with 2048. change (2 ^ 1) with 2. change (2 ^ 16) with 65536. rewrite (Z.mod_small ch (2 ^ 32)) by lia.
  pose proof (Z.div_mod ch 2048 ltac:(lia)). pose proof (Z.mod_pos_bound ch 2048 ltac:(lia)).
  pose proof (Z.mod_pos_bound ch 65536 ltac:(lia)). pose proof (Z.div_mod (ch mod 65536) 2 ltac:(lia)). pose proof (Z.mod_pos_bound (ch mod 65536) 2 ltac:(lia)).
  repeat case_match; blia.
Qed.

(** A statement about all bytes. *)
Lemma all_bytes (P : Z -> bool) : forallb P (seqZ 0 256) = true -> forall c, 0 <= c < 256 -> P c = true.
Proof. intros H c Hc. apply (proj1 (forallb_forall _ _) H), list_elem_of_In, elem_of_seqZ. lia. Qed.

Lemma lead_spec c : 0 <= c < 256 -> lead c =
  if (192 <=? c) && (c <? 224) then Some (1%nat, 128, (c - 192) / 2 * 2)
  else if (224 <=? c) && (c <? 240) then Some (2%nat, 2048, c - 224)
  else if (240 <=? c) && (c <? 248) then Some (3%nat, 65536, c - 240)
  else None.
Proof.
  intros Hc. match goal with |- ?a = ?b => enough (bool_decide (a = b) = true) as E by (by apply bool_decide_eq_true in E) end.
  revert c Hc. apply (all_bytes (fun c => bool_decide (lead c = _))). vm_compute. reflexivity.
Qed.

Lemma continuation_spec c : 0 <= c < 256 -> is_continuation_char c = (128 <=? c) && (c <? 192).
Proof. intros Hc. apply eqb_prop. revert c Hc. apply all_bytes. vm_compute. reflexivity. Qed.

Lemma merge_spec v c : 0 <= v < 2 ^ 26 -> 128 <= c < 192 -> merge_continuation_char v c = v * 64 + (c - 128).
Proof.
  intros Hv Hc. unfold merge_continuation_char. rewrite u32_small by (rewrite Z.shiftl_mul_pow2; lia).
  change 63 with (Z.ones 6). rewrite Z.land_ones by lia.
  replace (c mod 2 ^ 6) with (c - 128) by (apply (Z.mod_unique_pos _ _ 2); lia). apply lor_add; lia.
Qed.

(** ** Sequences *)

Abbreviation string_ok s := (Forall (fun b => 0 < b < 256) s).

Lemma remaining_cons n v c p : 0 <= v < 2 ^ 26 -> 128 <= c < 192 -> remaining (S n) v (c :: p) = remaining n (v * 64 + (c - 128)) p.
Proof. intros Hv Hc. cbn [remaining]. rewrite continuation_spec, merge_spec by lia. by rewrite (proj2 (andb_true_iff _ _)) by blia. Qed.

Lemma remaining_inv n v p w : 0 <= v < 2 ^ 26 -> string_ok p -> remaining (S n) v p = Some w ->
  exists c p', p = c :: p' /\ 128 <= c < 192 /\ string_ok p' /\ remaining n (v * 64 + (c - 128)) p' = Some w.
Proof.
  intros Hv Hp E. destruct Hp as [|c p Hc Hp]; [done|]. cbn [remaining] in E. rewrite continuation_spec in E by lia.
  destruct ((128 <=? c) && (c <? 192)) eqn:Er; [|done]. exists c, p. rewrite merge_spec in E by blia. split_and!; try done; blia.
Qed.

Lemma valid_small v : 0 < v < 2048 -> is_unicode_valid v = true.
Proof. intros H. apply is_unicode_valid_spec; [lia|]. unfold char_ok. rewrite Z.mod_small by lia. lia. Qed.

Lemma sequence_encode ch p : char_ok ch -> 128 <= ch -> sequence (encode ch ++ p) = Some (length (encode ch)).
Proof.
  intros Hok Hch. pose proof Hok as ((_ & Hlt) & _). unfold encode. rewrite (proj2 (Z.ltb_ge ch 128)) by done.
  pose proof (Z.div_mod ch 64 ltac:(lia)) as E1. pose proof (Z.mod_pos_bound ch 64 ltac:(lia)) as B1.
  pose proof (Z.div_mod (ch / 64) 64 ltac:(lia)) as E2. pose proof (Z.mod_pos_bound (ch / 64) 64 ltac:(lia)) as B2.
  pose proof (Z.div_mod (ch / 64 / 64) 64 ltac:(lia)) as E3. pose proof (Z.mod_pos_bound (ch / 64 / 64) 64 ltac:(lia)) as B3.
  change 4096 with (64 * 64). change 262144 with (64 * 64 * 64). rewrite <- !Z.div_div by lia.
  set (x := ch / 64) in *. set (y := x / 64) in *. set (z := y / 64) in *.
  destruct (Z.ltb_spec ch 2048).
  - cbn [app sequence]. rewrite lead_spec by lia. rewrite (proj2 (andb_true_iff _ _)) by blia. cbn [mbind option_bind].
    pose proof (Z.div_mod x 2 ltac:(lia)) as E4. pose proof (Z.mod_pos_bound x 2 ltac:(lia)) as B4. replace (192 + x - 192) with x by lia.
    rewrite remaining_cons by lia. cbn [remaining mbind option_bind]. rewrite (proj2 (Z.ltb_ge _ _)) by lia. by rewrite valid_small by lia.
  - destruct (Z.ltb_spec ch 65536); cbn [app sequence]; rewrite lead_spec by lia.
    + rewrite (proj2 (andb_false_iff _ _)) by blia. rewrite (proj2 (andb_true_iff _ _)) by blia. cbn [mbind option_bind].
      rewrite !remaining_cons by lia. cbn [remaining mbind option_bind].
      match goal with |- context [?v <? 2048] => replace v with ch by lia end. rewrite (proj2 (Z.ltb_ge _ _)) by lia.
      by rewrite (proj2 (is_unicode_valid_spec ch ltac:(lia)) Hok).
    + rewrite (proj2 (andb_false_iff _ _)) by blia. rewrite (proj2 (andb_false_iff _ _)) by blia. rewrite (proj2 (andb_true_iff _ _)) by blia.
      cbn [mbind option_bind]. rewrite !remaining_cons by lia. cbn [remaining mbind option_bind].
      match goal with |- context [?v <? 65536] => replace v with ch by lia end. rewrite (proj2 (Z.ltb_ge _ _)) by lia.
      by rewrite (proj2 (is_unicode_valid_spec ch ltac:(lia)) Hok).
Qed.

(** Lists of numbers, one by one. *)
Ltac list_lia := repeat first [reflexivity|apply (f_equal2 cons); [lia|]].

Lemma encode_2 c c1 : 194 <= c < 224 -> 128 <= c1 < 192 -> encode ((c - 192) * 64 + (c1 - 128)) = [c; c1].
Proof.
  intros. unfold encode. rewrite (proj2 (Z.ltb_ge _ _)), (proj2 (Z.ltb_lt _ _)) by lia.
  rewrite (Z.add_comm (_ * 64) (c1 - 128)), Z.div_add, Z.div_small, Z.mod_add, Z.mod_small by lia. list_lia.
Qed.

Lemma encode_3 c c1 c2 : 224 <= c < 240 -> 128 <= c1 < 192 -> 128 <= c2 < 192 -> 2048 <= ((c - 224) * 64 + (c1 - 128)) * 64 + (c2 - 128) ->
  encode (((c - 224) * 64 + (c1 - 128)) * 64 + (c2 - 128)) = [c; c1; c2].
Proof.
  intros. unfold encode. rewrite (proj2 (Z.ltb_ge _ _)), (proj2 (Z.ltb_ge _ _)), (proj2 (Z.ltb_lt _ _)) by lia.
  change 4096 with (64 * 64). rewrite <- !Z.div_div by lia. rewrite (Z.add_comm (_ * 64) (c2 - 128)).
  rewrite !(Z.div_add (c2 - 128)), !(Z.div_small (c2 - 128)), (Z.mod_add (c2 - 128)), (Z.mod_small (c2 - 128)), !Z.add_0_l by lia.
  rewrite (Z.add_comm (_ * 64) (c1 - 128)), Z.div_add, Z.div_small, Z.mod_add, Z.mod_small by lia. list_lia.
Qed.

Lemma encode_4 c c1 c2 c3 : 240 <= c < 248 -> 128 <= c1 < 192 -> 128 <= c2 < 192 -> 128 <= c3 < 192 ->
  65536 <= (((c - 240) * 64 + (c1 - 128)) * 64 + (c2 - 128)) * 64 + (c3 - 128) ->
  encode ((((c - 240) * 64 + (c1 - 128)) * 64 + (c2 - 128)) * 64 + (c3 - 128)) = [c; c1; c2; c3].
Proof.
  intros. unfold encode. rewrite !(proj2 (Z.ltb_ge _ _)) by lia.
  change 262144 with (64 * 64 * 64). change 4096 with (64 * 64). rewrite <- !Z.div_div by lia. rewrite (Z.add_comm (_ * 64) (c3 - 128)).
  rewrite !(Z.div_add (c3 - 128)), !(Z.div_small (c3 - 128)), (Z.mod_add (c3 - 128)), (Z.mod_small (c3 - 128)), !Z.add_0_l by lia.
  rewrite (Z.add_comm (_ * 64) (c2 - 128)), !(Z.div_add (c2 - 128)), !(Z.div_small (c2 - 128)), (Z.mod_add (c2 - 128)), (Z.mod_small (c2 - 128)), !Z.add_0_l by lia.
  rewrite (Z.add_comm (_ * 64) (c1 - 128)), Z.div_add, Z.div_small, Z.mod_add, Z.mod_small by lia. list_lia.
Qed.

Lemma sequence_decode p size : string_ok p -> sequence p = Some size ->
  exists ch, char_ok ch /\ 128 <= ch /\ take size p = encode ch /\ size = length (encode ch).
Proof.
  intros Hp E. destruct Hp as [|c p Hc Hp]; [done|]. cbn [sequence] in E. rewrite lead_spec in E by lia.
  destruct ((192 <=? c) && (c <? 224)) eqn:R1; [|destruct ((224 <=? c) && (c <? 240)) eqn:R2; [|destruct ((240 <=? c) && (c <? 248)) eqn:R3; [|done]]];
    cbn [mbind option_bind] in E; apply bind_Some in E as (v & Ev & E); case_match eqn:Hmin; [done| |done| |done|];
    (destruct (is_unicode_valid v) eqn:Hval; [|done]); injection E as <-.
  - pose proof (Z.div_mod (c - 192) 2 ltac:(lia)) as E4. pose proof (Z.mod_pos_bound (c - 192) 2 ltac:(lia)) as B4.
    apply remaining_inv in Ev as (c1 & p1 & -> & H1 & Hp1 & Ev); [|blia|done]. injection Ev as <-.
    exists ((c - 192) * 64 + (c1 - 128)). rewrite encode_2 by blia. split_and!; try done; [|blia].
    apply is_unicode_valid_spec; [blia|]. apply valid_small. blia.
  - apply remaining_inv in Ev as (c1 & p1 & -> & H1 & Hp1 & Ev); [|blia|done].
    apply remaining_inv in Ev as (c2 & p2 & -> & H2 & Hp2 & Ev); [|blia|done]. injection Ev as <-.
    eexists. split_and!; [apply is_unicode_valid_spec; [|exact Hval]| |rewrite encode_3; [done|..]|rewrite encode_3; [done|..]]; blia.
  - apply remaining_inv in Ev as (c1 & p1 & -> & H1 & Hp1 & Ev); [|blia|done].
    apply remaining_inv in Ev as (c2 & p2 & -> & H2 & Hp2 & Ev); [|blia|done].
    apply remaining_inv in Ev as (c3 & p3 & -> & H3 & Hp3 & Ev); [|blia|done]. injection Ev as <-.
    eexists. split_and!; [apply is_unicode_valid_spec; [|exact Hval]| |rewrite encode_4; [done|..]|rewrite encode_4; [done|..]]; blia.
Qed.

(** ** Strings *)

Definition text (chs : list Z) : cstring := concat (encode <$> chs).

Lemma encode_nonempty ch : (0 < length (encode ch))%nat.
Proof. unfold encode. repeat case_match; simpl; lia. Qed.

Lemma encode_ascii ch : ch < 128 -> encode ch = [ch].
Proof. intros H. unfold encode. by rewrite (proj2 (Z.ltb_lt _ _)). Qed.

Lemma encode_head ch : char_ok ch -> 128 <= ch -> exists c r, encode ch = c :: r /\ 128 <= c.
Proof.
  intros ((H & _) & _) Hc. unfold encode. rewrite (proj2 (Z.ltb_ge _ _)) by done.
  repeat case_match; do 2 eexists; (split; [done|]); match goal with |- _ <= _ + ?x / ?y => pose proof (Z.div_pos x y ltac:(lia) ltac:(lia)); lia end.
Qed.

(** The encoding of characters goes through unchanged. *)
Lemma validate_text filter chs : Forall char_ok chs -> forall fuel, (length (text chs) <= fuel)%nat ->
  validate_loop fuel filter (text chs) = Some (text chs).
Proof.
  induction 1 as [|ch chs Hch Hchs IH]; intros fuel Hf; [by destruct fuel|].
  change (text (ch :: chs)) with (encode ch ++ text chs) in *. rewrite length_app in Hf. pose proof (encode_nonempty ch).
  destruct fuel as [|fuel]; [lia|]. destruct (Z.ltb_spec ch 128) as [Ha|Ha].
  - rewrite encode_ascii in * by done. cbn [app validate_loop length] in *. rewrite (proj2 (Z.ltb_lt _ _)) by done. by rewrite IH by lia.
  - destruct (encode_head ch Hch Ha) as (c & r & E & Hc). pose proof (sequence_encode ch (text chs) Hch Ha) as Es. rewrite E in *.
    cbn [app] in *. cbn [validate_loop]. rewrite (proj2 (Z.ltb_ge _ _)), Es by done. change (c :: r ++ text chs) with ((c :: r) ++ text chs).
    rewrite take_app_length, drop_app_length. rewrite IH by (simpl in Hf; lia). done.
Qed.

(** What comes out is text; without a filter it is what went in. *)
Lemma validate_inv filter fuel p o : string_ok p -> validate_loop fuel filter p = Some o ->
  exists chs, Forall char_ok chs /\ o = text chs /\ (length o <= length p)%nat /\ (filter = false -> o = p).
Proof.
  revert p o. induction fuel as [|fuel IH]; intros p o Hp E; (destruct Hp as [|c p Hc Hp]; [injection E as <-; exists []; done|]); [done|].
  cbn [validate_loop] in E. destruct (Z.ltb_spec c 128).
  - apply fmap_Some in E as (o' & E & ->). destruct (IH _ _ Hp E) as (chs & H1 & -> & H2 & H3). exists (c :: chs). split_and!.
    + constructor; [|done]. unfold char_ok. rewrite Z.mod_small by lia. lia.
    + change (text (c :: chs)) with (encode c ++ text chs). by rewrite encode_ascii.
    + simpl. lia.
    + intros Hf. by rewrite H3.
  - destruct (sequence (c :: p)) as [size|] eqn:Es.
    + destruct (sequence_decode _ _ (Forall_cons_2 _ _ _ Hc Hp) Es) as (ch & Hok & Hge & Et & El).
      apply fmap_Some in E as (o' & E & ->). destruct (IH _ _ (Forall_drop _ _ _ (Forall_cons_2 _ _ _ Hc Hp)) E) as (chs & H1 & -> & H2 & H3).
      exists (ch :: chs). split_and!; [by constructor|by rewrite Et|..].
      * pose proof (f_equal length (take_drop size (c :: p))) as Hl. rewrite length_app in Hl |- *. lia.
      * intros Hf. rewrite H3 by done. apply take_drop.
    + destruct filter; [|done]. apply fmap_Some in E as (o' & E & ->). destruct (IH _ _ Hp E) as (chs & H1 & -> & H2 & H3).
      exists (FILTER_CHAR :: chs). split_and!; [constructor; [|done]; unfold char_ok, FILTER_CHAR; rewrite Z.mod_small by lia; lia|done|simpl; lia|done].
Qed.

Lemma filter_total fuel p : (length p <= fuel)%nat -> is_Some (validate_loop fuel true p).
Proof.
  revert p. induction fuel as [|fuel IH]; intros [|c p] Hl; simpl in Hl; try done; [lia|]. cbn [validate_loop].
  assert (forall q, (length q <= length p)%nat -> is_Some (validate_loop fuel true q)) as G by (intros q Hq; apply IH; lia).
  destruct (c <? 128); [apply fmap_is_Some, G; lia|]. destruct (sequence (c :: p)) as [size|] eqn:Es; [|apply fmap_is_Some, G; lia].
  apply fmap_is_Some, G. assert (0 < size)%nat; [|rewrite length_drop; simpl; lia].
  cbn [sequence] in Es. destruct (lead c) as [[[n min] v]|]; [|done]. cbn [mbind option_bind] in Es.
  destruct (remaining n v p); [|done]. cbn [mbind option_bind] in Es. repeat (case_match; [done|]). injection Es as <-. lia.
Qed.

(** C33: a string is accepted as text exactly when it is the encoding of a
    sequence of Unicode characters, the shortest one for each, without surrogates
    and non-characters; filtering always gives such a string, no longer than
    before, and leaves one that is text alone. *)
Theorem utf8_valid_iff s : string_ok s ->
  (pa_utf8_valid s = Some s <-> exists chs, Forall char_ok chs /\ s = text chs) /\
  exists o chs, pa_utf8_filter s = Some o /\ Forall char_ok chs /\ o = text chs /\ (length o <= length s)%nat /\
    (pa_utf8_valid s = Some s -> o = s).
Proof.
  intros Hs. assert (pa_utf8_valid s = Some s <-> exists chs, Forall char_ok chs /\ s = text chs) as Hv.
  { unfold pa_utf8_valid, utf8_validate. split.
    - intros E. apply bind_Some in E as (o & E & _). destruct (validate_inv _ _ _ _ Hs E) as (chs & H1 & -> & _ & H3). exists chs. by rewrite <- H3.
    - intros (chs & H & ->). by rewrite validate_text. }
  split; [exact Hv|]. destruct (filter_total (length s) s) as [o Eo]; [done|]. destruct (validate_inv _ _ _ _ Hs Eo) as (chs & H1 & E1 & H2 & _).
  exists o, chs. unfold pa_utf8_filter, utf8_validate. rewrite Eo. split_and!; try done.
  intros E. apply Hv in E as (chs' & H' & ->). rewrite validate_text in Eo by done. by injection Eo.
Qed.

(** ** Witnesses *)

(** Two characters of two and three bytes, and a surrogate. *)
Lemma utf8_valid_iff_witness :
  pa_utf8_valid [195; 169; 226; 130; 172] = Some [195; 169; 226; 130; 172] /\
  exists o, pa_utf8_filter [97; 237; 160; 128] = Some o /\ (length o <= 4)%nat.
Proof.
  assert (forall s, forallb (fun b => (0 <? b) && (b <? 256)) s = true -> string_ok s) as P.
  { intros s H. apply Forall_forall. intros b Hb. apply list_elem_of_In in Hb. apply (proj1 (forallb_forall _ _) H) in Hb. blia. }
  destruct (utf8_valid_iff [195; 169; 226; 130; 172] ltac:(by apply P)) as ([_ H] & _).
  destruct (utf8_valid_iff [97; 237; 160; 128] ltac:(by apply P)) as (_ & o & chs & Eo & _ & _ & Hl & _).
  split; [|by exists o]. apply H. exists [233; 8364]. split; [|reflexivity]. repeat constructor; vm_compute; intuition discriminate.
Defined.
