(* ===== verification/Channelmap.v ===== *)
(** * Channelmap: which speaker a channel belongs to

    Models [src/pulse/channelmap.c] and [src/pulsecore/bitset.c]: maps from
    channels to speaker positions, their default layouts, and their names.

    A [pa_channel_map] is the list of the positions of its channels: the code
    never looks at entries of the array [map] from [channels] on.  A function
    that returns a null pointer when it fails returns [None]. *)
From Stdlib Require Import Ascii String.
From stdpp Require Import base tactics numbers list strings sets.
From S2P Require Import Prelude Sample.

Abbreviation pa_channel_position_t := Z (only parsing).
Abbreviation pa_channel_map := (list Z) (only parsing).

(** ** Positions *)

Definition PA_CHANNEL_POSITION_INVALID : Z := -1.
Definition PA_CHANNEL_POSITION_MONO : Z := 0.
Definition PA_CHANNEL_POSITION_FRONT_LEFT : Z := 1.
Definition PA_CHANNEL_POSITION_FRONT_RIGHT : Z := 2.
Definition PA_CHANNEL_POSITION_FRONT_CENTER : Z := 3.
Definition PA_CHANNEL_POSITION_LEFT : Z := PA_CHANNEL_POSITION_FRONT_LEFT.
Definition PA_CHANNEL_POSITION_RIGHT : Z := PA_CHANNEL_POSITION_FRONT_RIGHT.
Definition PA_CHANNEL_POSITION_CENTER : Z := PA_CHANNEL_POSITION_FRONT_CENTER.
Definition PA_CHANNEL_POSITION_REAR_CENTER : Z := 4.
Definition PA_CHANNEL_POSITION_REAR_LEFT : Z := 5.
Definition PA_CHANNEL_POSITION_REAR_RIGHT : Z := 6.
Definition PA_CHANNEL_POSITION_LFE : Z := 7.
Definition PA_CHANNEL_POSITION_SUBWOOFER : Z := PA_CHANNEL_POSITION_LFE.
Definition PA_CHANNEL_POSITION_FRONT_LEFT_OF_CENTER : Z := 8.
Definition PA_CHANNEL_POSITION_FRONT_RIGHT_OF_CENTER : Z := 9.
Definition PA_CHANNEL_POSITION_SIDE_LEFT : Z := 10.
Definition PA_CHANNEL_POSITION_SIDE_RIGHT : Z := 11.
(** [PA_CHANNEL_POSITION_AUX1] to [PA_CHANNEL_POSITION_AUX31] follow. *)
Definition PA_CHANNEL_POSITION_AUX0 : Z := 12.
Definition PA_CHANNEL_POSITION_TOP_CENTER : Z := 44.
Definition PA_CHANNEL_POSITION_TOP_FRONT_LEFT : Z := 45.
Definition PA_CHANNEL_POSITION_TOP_FRONT_RIGHT : Z := 46.
Definition PA_CHANNEL_POSITION_TOP_FRONT_CENTER : Z := 47.
Definition PA_CHANNEL_POSITION_TOP_REAR_LEFT : Z := 48.
Definition PA_CHANNEL_POSITION_TOP_REAR_RIGHT : Z := 49.
Definition PA_CHANNEL_POSITION_TOP_REAR_CENTER : Z := 50.
Definition PA_CHANNEL_POSITION_MAX : Z := 51.

(** [PA_CHANNEL_POSITION_MASK], for [0 <= f < 64]. *)
Definition PA_CHANNEL_POSITION_MASK (f : pa_channel_position_t) : Z := u64 (Z.shiftl 1 f).

(** ** Groups of positions, from sample-util.h *)

Definition mask_of (ps : list pa_channel_position_t) : Z :=
  fold_left (fun r p => Z.lor r (PA_CHANNEL_POSITION_MASK p)) ps 0.

Definition PA_CHANNEL_POSITION_MASK_LEFT : Z := mask_of
  [PA_CHANNEL_POSITION_FRONT_LEFT; PA_CHANNEL_POSITION_REAR_LEFT; PA_CHANNEL_POSITION_FRONT_LEFT_OF_CENTER;
   PA_CHANNEL_POSITION_SIDE_LEFT; PA_CHANNEL_POSITION_TOP_FRONT_LEFT; PA_CHANNEL_POSITION_TOP_REAR_LEFT].
Definition PA_CHANNEL_POSITION_MASK_RIGHT : Z := mask_of
  [PA_CHANNEL_POSITION_FRONT_RIGHT; PA_CHANNEL_POSITION_REAR_RIGHT; PA_CHANNEL_POSITION_FRONT_RIGHT_OF_CENTER;
   PA_CHANNEL_POSITION_SIDE_RIGHT; PA_CHANNEL_POSITION_TOP_FRONT_RIGHT; PA_CHANNEL_POSITION_TOP_REAR_RIGHT].
Definition PA_CHANNEL_POSITION_MASK_CENTER : Z := mask_of
  [PA_CHANNEL_POSITION_FRONT_CENTER; PA_CHANNEL_POSITION_REAR_CENTER; PA_CHANNEL_POSITION_TOP_CENTER;
   PA_CHANNEL_POSITION_TOP_FRONT_CENTER; PA_CHANNEL_POSITION_TOP_REAR_CENTER].
Definition PA_CHANNEL_POSITION_MASK_FRONT : Z := mask_of
  [PA_CHANNEL_POSITION_FRONT_LEFT; PA_CHANNEL_POSITION_FRONT_RIGHT; PA_CHANNEL_POSITION_FRONT_CENTER;
   PA_CHANNEL_POSITION_FRONT_LEFT_OF_CENTER; PA_CHANNEL_POSITION_FRONT_RIGHT_OF_CENTER;
   PA_CHANNEL_POSITION_TOP_FRONT_LEFT; PA_CHANNEL_POSITION_TOP_FRONT_RIGHT; PA_CHANNEL_POSITION_TOP_FRONT_CENTER].
Definition PA_CHANNEL_POSITION_MASK_REAR : Z := mask_of
  [PA_CHANNEL_POSITION_REAR_LEFT; PA_CHANNEL_POSITION_REAR_RIGHT; PA_CHANNEL_POSITION_REAR_CENTER;
   PA_CHANNEL_POSITION_TOP_REAR_LEFT; PA_CHANNEL_POSITION_TOP_REAR_RIGHT; PA_CHANNEL_POSITION_TOP_REAR_CENTER].
Definition PA_CHANNEL_POSITION_MASK_LFE : Z := PA_CHANNEL_POSITION_MASK PA_CHANNEL_POSITION_LFE.
Definition PA_CHANNEL_POSITION_MASK_HFE : Z :=
  Z.lor (Z.lor (Z.lor (Z.lor PA_CHANNEL_POSITION_MASK_REAR PA_CHANNEL_POSITION_MASK_FRONT)
    PA_CHANNEL_POSITION_MASK_LEFT) PA_CHANNEL_POSITION_MASK_RIGHT) PA_CHANNEL_POSITION_MASK_CENTER.

(** [table], in the order of the enum. *)
Definition table : list string :=
  ["mono"; "front-left"; "front-right"; "front-center"; "rear-center"; "rear-left"; "rear-right"; "lfe";
   "front-left-of-center"; "front-right-of-center"; "side-left"; "side-right";
   "aux0"; "aux1"; "aux2"; "aux3"; "aux4"; "aux5"; "aux6"; "aux7"; "aux8"; "aux9"; "aux10"; "aux11"; "aux12";
   "aux13"; "aux14"; "aux15"; "aux16"; "aux17"; "aux18"; "aux19"; "aux20"; "aux21"; "aux22"; "aux23"; "aux24";
   "aux25"; "aux26"; "aux27"; "aux28"; "aux29"; "aux30"; "aux31"; "top-center"; "top-front-left";
   "top-front-right"; "top-front-center"; "top-rear-left"; "top-rear-right"; "top-rear-center"]%string.

(** ** Validity and comparison *)

Definition channels (map : pa_channel_map) : Z := Z.of_nat (length map).

Definition pa_channel_map_valid (map : pa_channel_map) : bool :=
  if negb (pa_channels_valid (channels map)) then false
  else forallb (fun p => negb ((p <? 0) || (PA_CHANNEL_POSITION_MAX <=? p))) map.

(** [same]: the two pointers are equal. *)
Definition pa_channel_map_equal (same : bool) (a b : pa_channel_map) : bool :=
  if negb (pa_channel_map_valid a) then false
  else if same then true
  else if negb (pa_channel_map_valid b) then false
  else if negb (channels a =? channels b) then false
  else forallb (fun '(p, q) => p =? q) (combine a b).

Definition pa_channel_map_compatible (map : pa_channel_map) (ss : pa_sample_spec) : bool :=
  if negb (pa_channel_map_valid map) then false
  else if negb (pa_sample_spec_valid ss) then false
  else channels map =? ss_channels ss.

Definition pa_channel_map_has_position (map : pa_channel_map) (p : pa_channel_position_t) : bool :=
  if negb (pa_channel_map_valid map) then false
  else if negb (p <? PA_CHANNEL_POSITION_MAX) then false
  else existsb (fun q => q =? p) map.

Definition pa_channel_map_mask (map : pa_channel_map) : Z :=
  if negb (pa_channel_map_valid map) then 0
  else fold_left (fun r p => Z.lor r (PA_CHANNEL_POSITION_MASK p)) map 0.

Definition pa_channel_map_superset (same : bool) (a b : pa_channel_map) : bool :=
  if negb (pa_channel_map_valid a) then false
  else if same then true
  else if negb (pa_channel_map_valid b) then false
  else
    let am := pa_channel_map_mask a in
    let bm := pa_channel_map_mask b in
    Z.land bm am =? bm.

Definition can (f g : Z) (map : pa_channel_map) : bool :=
  if negb (pa_channel_map_valid map) then false
  else
    let m := pa_channel_map_mask map in
    negb (Z.land f m =? 0) && negb (Z.land g m =? 0).

Definition pa_channel_map_can_balance : pa_channel_map -> bool :=
  can PA_CHANNEL_POSITION_MASK_LEFT PA_CHANNEL_POSITION_MASK_RIGHT.
Definition pa_channel_map_can_fade : pa_channel_map -> bool :=
  can PA_CHANNEL_POSITION_MASK_FRONT PA_CHANNEL_POSITION_MASK_REAR.
Definition pa_channel_map_can_lfe_balance : pa_channel_map -> bool :=
  can PA_CHANNEL_POSITION_MASK_LFE PA_CHANNEL_POSITION_MASK_HFE.

(** ** Default layouts *)

Inductive pa_channel_map_def := PA_CHANNEL_MAP_AIFF | PA_CHANNEL_MAP_ALSA | PA_CHANNEL_MAP_AUX
  | PA_CHANNEL_MAP_WAVEEX | PA_CHANNEL_MAP_OSS.

(** A [switch] on the number of channels: the assignments of the case that
    matches and of all that follow it, up to the [return m] of the last. *)
Fixpoint fall_through (cases : list (Z * list (nat * Z))) (n : Z) (matched : bool) (m : pa_channel_map)
    : option pa_channel_map :=
  match cases with
  | [] => if matched then Some m else None
  | (k, sets) :: cases =>
      if matched || (k =? n)
      then fall_through cases n true (fold_left (fun m '(i, p) => <[i := p]> m) sets m)
      else fall_through cases n false m
  end.

Definition mono_case : list (Z * list (nat * Z)) := [(1, [(0%nat, PA_CHANNEL_POSITION_MONO)])].

Definition stereo_case : Z * list (nat * Z) :=
  (2, [(0%nat, PA_CHANNEL_POSITION_FRONT_LEFT); (1%nat, PA_CHANNEL_POSITION_FRONT_RIGHT)]).

Definition aiff_6 : list (Z * list (nat * Z)) :=
  [(6, [(0%nat, PA_CHANNEL_POSITION_FRONT_LEFT); (1%nat, PA_CHANNEL_POSITION_FRONT_LEFT_OF_CENTER);
        (2%nat, PA_CHANNEL_POSITION_FRONT_CENTER); (3%nat, PA_CHANNEL_POSITION_FRONT_RIGHT);
        (4%nat, PA_CHANNEL_POSITION_FRONT_RIGHT_OF_CENTER); (5%nat, PA_CHANNEL_POSITION_REAR_CENTER)])].

Definition aiff_5 : list (Z * list (nat * Z)) :=
  [(5, [(2%nat, PA_CHANNEL_POSITION_FRONT_CENTER); (3%nat, PA_CHANNEL_POSITION_REAR_LEFT);
        (4%nat, PA_CHANNEL_POSITION_REAR_RIGHT)]);
   stereo_case].

Definition aiff_3 : list (Z * list (nat * Z)) :=
  [(3, [(0%nat, PA_CHANNEL_POSITION_LEFT); (1%nat, PA_CHANNEL_POSITION_RIGHT); (2%nat, PA_CHANNEL_POSITION_CENTER)])].

Definition aiff_4 : list (Z * list (nat * Z)) :=
  [(4, [(0%nat, PA_CHANNEL_POSITION_LEFT); (1%nat, PA_CHANNEL_POSITION_CENTER); (2%nat, PA_CHANNEL_POSITION_RIGHT);
        (3%nat, PA_CHANNEL_POSITION_REAR_CENTER)])].

Definition alsa_8 : list (Z * list (nat * Z)) :=
  [(8, [(6%nat, PA_CHANNEL_POSITION_SIDE_LEFT); (7%nat, PA_CHANNEL_POSITION_SIDE_RIGHT)]);
   (6, [(5%nat, PA_CHANNEL_POSITION_LFE)]);
   (5, [(4%nat, PA_CHANNEL_POSITION_FRONT_CENTER)]);
   (4, [(2%nat, PA_CHANNEL_POSITION_REAR_LEFT); (3%nat, PA_CHANNEL_POSITION_REAR_RIGHT)]);
   stereo_case].

Definition waveex_18 : list (Z * list (nat * Z)) :=
  [(18, [(15%nat, PA_CHANNEL_POSITION_TOP_REAR_LEFT); (16%nat, PA_CHANNEL_POSITION_TOP_REAR_CENTER);
         (17%nat, PA_CHANNEL_POSITION_TOP_REAR_RIGHT)]);
   (15, [(12%nat, PA_CHANNEL_POSITION_TOP_FRONT_LEFT); (13%nat, PA_CHANNEL_POSITION_TOP_FRONT_CENTER);
         (14%nat, PA_CHANNEL_POSITION_TOP_FRONT_RIGHT)]);
   (12, [(11%nat, PA_CHANNEL_POSITION_TOP_CENTER)]);
   (11, [(9%nat, PA_CHANNEL_POSITION_SIDE_LEFT); (10%nat, PA_CHANNEL_POSITION_SIDE_RIGHT)]);
   (9, [(8%nat, PA_CHANNEL_POSITION_REAR_CENTER)]);
   (8, [(6%nat, PA_CHANNEL_POSITION_FRONT_LEFT_OF_CENTER); (7%nat, PA_CHANNEL_POSITION_FRONT_RIGHT_OF_CENTER)]);
   (6, [(4%nat, PA_CHANNEL_POSITION_REAR_LEFT); (5%nat, PA_CHANNEL_POSITION_REAR_RIGHT)]);
   (4, [(3%nat, PA_CHANNEL_POSITION_LFE)]);
   (3, [(2%nat, PA_CHANNEL_POSITION_FRONT_CENTER)]);
   stereo_case].

Definition oss_8 : list (Z * list (nat * Z)) :=
  [(8, [(6%nat, PA_CHANNEL_POSITION_REAR_LEFT); (7%nat, PA_CHANNEL_POSITION_REAR_RIGHT)]);
   (6, [(4%nat, PA_CHANNEL_POSITION_SIDE_LEFT); (5%nat, PA_CHANNEL_POSITION_SIDE_RIGHT)]);
   (4, [(3%nat, PA_CHANNEL_POSITION_LFE)]);
   (3, [(2%nat, PA_CHANNEL_POSITION_FRONT_CENTER)]);
   stereo_case].

(** The first of several groups of cases, each ending in a [return m], that
    has one for [n] channels. *)
Fixpoint switch (groups : list (list (Z * list (nat * Z)))) (n : Z) (m : pa_channel_map) : option pa_channel_map :=
  match groups with
  | [] => None
  | g :: groups => match fall_through g n false m with Some m => Some m | None => switch groups n m end
  end.

Definition pa_channel_map_init_auto (n : Z) (def : pa_channel_map_def) : outcome (option pa_channel_map) :=
  _ ← pa_assert (pa_channels_valid n);
  let m := replicate (Z.to_nat n) PA_CHANNEL_POSITION_INVALID in
  Ok (match def with
      | PA_CHANNEL_MAP_AIFF => switch [mono_case; aiff_6; aiff_5; aiff_3; aiff_4] n m
      | PA_CHANNEL_MAP_ALSA => switch [mono_case; alsa_8] n m
      | PA_CHANNEL_MAP_AUX => Some ((fun i => PA_CHANNEL_POSITION_AUX0 + Z.of_nat i) <$> seq 0 (Z.to_nat n))
      | PA_CHANNEL_MAP_WAVEEX => switch [mono_case; waveex_18] n m
      | PA_CHANNEL_MAP_OSS => switch [mono_case; oss_8] n m
      end).

(** [for (c = channels; c > 0; c--)]. *)
Fixpoint init_extend_loop (c : nat) (n : Z) (def : pa_channel_map_def) : outcome (option pa_channel_map) :=
  match c with
  | O => Ok None
  | S c' =>
      r ← pa_channel_map_init_auto (Z.of_nat c) def;
      match r with
      | Some m => Ok (Some (m ++ ((fun i => PA_CHANNEL_POSITION_AUX0 + Z.of_nat i) <$> seq 0 (Z.to_nat n - c))))
      | None => init_extend_loop c' n def
      end
  end.

Definition pa_channel_map_init_extend (n : Z) (def : pa_channel_map_def) : outcome (option pa_channel_map) :=
  _ ← pa_assert (pa_channels_valid n);
  init_extend_loop (Z.to_nat n) n def.

Definition pa_channel_map_init_mono : pa_channel_map := [PA_CHANNEL_POSITION_MONO].
Definition pa_channel_map_init_stereo : pa_channel_map := [PA_CHANNEL_POSITION_LEFT; PA_CHANNEL_POSITION_RIGHT].

(** ** Text *)

Definition pa_channel_position_to_string (pos : pa_channel_position_t) : option string :=
  if (pos <? 0) || (PA_CHANNEL_POSITION_MAX <=? pos) then None else table !! Z.to_nat pos.

(** The [for] loop over the table. *)
Fixpoint find_name (p : string) (names : list string) (i : Z) : pa_channel_position_t :=
  match names with
  | [] => PA_CHANNEL_POSITION_INVALID
  | t :: names => if String.eqb p t then i else find_name p names (i + 1)
  end.

Definition pa_channel_position_from_string (p : string) : pa_channel_position_t :=
  if String.eqb p "left" then PA_CHANNEL_POSITION_LEFT
  else if String.eqb p "right" then PA_CHANNEL_POSITION_RIGHT
  else if String.eqb p "center" then PA_CHANNEL_POSITION_CENTER
  else if String.eqb p "subwoofer" then PA_CHANNEL_POSITION_SUBWOOFER
  else find_name p table 0.

(** [strcspn], for a single delimiter: what comes before it, and the rest. *)
Fixpoint cspan (d : ascii) (s : string) : string * string :=
  match s with
  | EmptyString => (EmptyString, EmptyString)
  | String c r => if Ascii.eqb c d then (EmptyString, s) else let '(w, r) := cspan d r in (String c w, r)
  end.

(** [pa_split]: the next word, and where the next call goes on. *)
Definition pa_split (d : ascii) (s : string) : option (string * string) :=
  match s with
  | EmptyString => None
  | _ => let '(w, r) := cspan d s in Some (w, match r with EmptyString => EmptyString | String _ r => r end)
  end.

(** The [while] loop of [pa_channel_map_parse]; every round takes a byte off. *)
Fixpoint parse_loop (fuel : nat) (s : string) (map : pa_channel_map) : option pa_channel_map :=
  match fuel, pa_split "," s with
  | _, None => Some map
  | O, _ => None
  | S fuel, Some (p, s) =>
      if PA_CHANNELS_MAX <=? channels map then None
      else
        let f := pa_channel_position_from_string p in
        if f =? PA_CHANNEL_POSITION_INVALID then None else parse_loop fuel s (map ++ [f])
  end.

(** The layouts with names of their own. *)
Definition well_known : list (string * pa_channel_map) :=
  let surround_40 := [PA_CHANNEL_POSITION_FRONT_LEFT; PA_CHANNEL_POSITION_FRONT_RIGHT;
                      PA_CHANNEL_POSITION_REAR_LEFT; PA_CHANNEL_POSITION_REAR_RIGHT] in
  [("stereo"%string, [PA_CHANNEL_POSITION_LEFT; PA_CHANNEL_POSITION_RIGHT]);
   ("surround-21"%string, [PA_CHANNEL_POSITION_FRONT_LEFT; PA_CHANNEL_POSITION_FRONT_RIGHT; PA_CHANNEL_POSITION_LFE]);
   ("surround-40"%string, surround_40);
   ("surround-41"%string, surround_40 ++ [PA_CHANNEL_POSITION_LFE]);
   ("surround-50"%string, surround_40 ++ [PA_CHANNEL_POSITION_FRONT_CENTER]);
   ("surround-51"%string, surround_40 ++ [PA_CHANNEL_POSITION_FRONT_CENTER; PA_CHANNEL_POSITION_LFE]);
   ("surround-71"%string, surround_40 ++ [PA_CHANNEL_POSITION_FRONT_CENTER; PA_CHANNEL_POSITION_LFE;
                                          PA_CHANNEL_POSITION_SIDE_LEFT; PA_CHANNEL_POSITION_SIDE_RIGHT])].

Definition pa_channel_map_parse (s : string) : option pa_channel_map :=
  let map := match find (fun '(n, _) => String.eqb s n) well_known with
             | Some (_, m) => Some m
             | None => parse_loop (String.length s) s []
             end in
  match map with
  | Some map => if negb (pa_channel_map_valid map) then None else Some map
  | None => None
  end.

(** [snprintf(e, l, "%s%s", ...)]: what it writes, [l - 1] bytes at most. *)
Definition put_text (l : Z) (text : string) : string := String.substring 0 (Z.to_nat (l - 1)) text.

Fixpoint snprint_loop (l : Z) (first : bool) (map : pa_channel_map) : outcome string :=
  match map with
  | [] => Ok EmptyString
  | p :: map =>
      if l <=? 1 then Ok EmptyString
      else
        t ← deref (pa_channel_position_to_string p);
        let w := put_text l (String.append (if first then EmptyString else ","%string) t) in
        r ← snprint_loop (l - Z.of_nat (String.length w)) false map;
        Ok (String.append w r)
  end.

Definition pa_channel_map_snprint (l : Z) (map : pa_channel_map) : outcome string :=
  _ ← pa_assert (0 <? l);
  if negb (pa_channel_map_valid map) then Ok (put_text l "(invalid)") else snprint_loop l true map.

(** ** Bit sets *)

Definition PA_BITSET_ELEMENTS (n : Z) : Z := (n + 31) / 32.

(** [pa_bitset_set(b, k, true)]: [b[k >> 5] |= 1 << (k & 31)]. *)
Definition pa_bitset_set (b : list Z) (k : Z) : list Z :=
  alter (fun w => Z.lor w (Z.shiftl 1 (Z.land k 31))) (Z.to_nat (Z.shiftr k 5)) b.

Definition pa_bitset_get (b : list Z) (k : Z) : bool :=
  match b !! Z.to_nat (Z.shiftr k 5) with
  | Some w => negb (Z.land w (Z.shiftl 1 (Z.land k 31)) =? 0)
  | None => false
  end.

Definition pa_bitset_equals (b : list Z) (n : Z) (ks : list Z) : bool :=
  bool_decide (fold_left pa_bitset_set ks (replicate (Z.to_nat (PA_BITSET_ELEMENTS n)) 0) = b).

(** The names [pa_channel_map_to_name] looks for, in its order. *)
Definition named : list (string * list Z) :=
  let surround_40 := [PA_CHANNEL_POSITION_FRONT_LEFT; PA_CHANNEL_POSITION_FRONT_RIGHT;
                      PA_CHANNEL_POSITION_REAR_LEFT; PA_CHANNEL_POSITION_REAR_RIGHT] in
  [("mono"%string, [PA_CHANNEL_POSITION_MONO]);
   ("stereo"%string, [PA_CHANNEL_POSITION_LEFT; PA_CHANNEL_POSITION_RIGHT]);
   ("surround-40"%string, surround_40);
   ("surround-41"%string, surround_40 ++ [PA_CHANNEL_POSITION_LFE]);
   ("surround-50"%string, surround_40 ++ [PA_CHANNEL_POSITION_FRONT_CENTER]);
   ("surround-51"%string, surround_40 ++ [PA_CHANNEL_POSITION_FRONT_CENTER; PA_CHANNEL_POSITION_LFE]);
   ("surround-71"%string, surround_40 ++ [PA_CHANNEL_POSITION_FRONT_CENTER; PA_CHANNEL_POSITION_LFE;
                                          PA_CHANNEL_POSITION_SIDE_LEFT; PA_CHANNEL_POSITION_SIDE_RIGHT])].

Definition pa_channel_map_to_name (map : pa_channel_map) : option string :=
  if negb (pa_channel_map_valid map) then None
  else
    let in_map := fold_left pa_bitset_set map (replicate (Z.to_nat (PA_BITSET_ELEMENTS PA_CHANNEL_POSITION_MAX)) 0) in
    fst <$> find (fun '(_, ks) => pa_bitset_equals in_map PA_CHANNEL_POSITION_MAX ks) named.

(** ** Names of positions *)

Definition position_ok (p : Z) : Prop := 0 <= p < PA_CHANNEL_POSITION_MAX.

Lemma valid_spec map : pa_channel_map_valid map = true <->
  1 <= channels map <= 32 /\ Forall position_ok map.
Proof.
  unfold pa_channel_map_valid, pa_channels_valid, PA_CHANNELS_MAX.
  rewrite Forall_forall. destruct ((0 <? channels map) && (channels map <=? 32)) eqn:E; simpl.
  - rewrite forallb_forall. setoid_rewrite list_elem_of_In. unfold position_ok. split.
    + intros H. split; [blia|]. intros p Hp. specialize (H p Hp). apply negb_true_iff, orb_false_iff in H. blia.
    + intros [_ H] p Hp. specialize (H p Hp). apply negb_true_iff, orb_false_iff. blia.
  - split; [done|]. intros [? _]. apply andb_false_iff in E as [E|E]; blia.
Qed.

Fixpoint no_char (d : ascii) (s : string) : bool :=
  match s with EmptyString => true | String c s => negb (Ascii.eqb c d) && no_char d s end.

Definition name_ok (p : Z) : bool :=
  match pa_channel_position_to_string p with
  | Some t => (pa_channel_position_from_string t =? p) && no_char "," t && negb (String.eqb t EmptyString)
              && (String.length t <=? 21)%nat
  | None => false
  end.

Lemma all_positions (P : Z -> bool) p : position_ok p ->
  forallb P (Z.of_nat <$> seq 0 51) = true -> P p = true.
Proof.
  intros Hp H. rewrite forallb_forall in H. apply H, list_elem_of_In, list_elem_of_fmap.
  exists (Z.to_nat p). unfold position_ok, PA_CHANNEL_POSITION_MAX in Hp. split; [lia|]. apply elem_of_seq. lia.
Qed.

Lemma name_of p : position_ok p -> exists t, pa_channel_position_to_string p = Some t /\
  pa_channel_position_from_string t = p /\ no_char "," t = true /\ t <> EmptyString.
Proof.
  intros Hp. pose proof (all_positions name_ok p Hp ltac:(by vm_compute)) as H. unfold name_ok in H.
  destruct (pa_channel_position_to_string p) as [t|]; [|done]. exists t.
  rewrite !andb_true_iff, negb_true_iff, Z.eqb_eq, String.eqb_neq in H. naive_solver.
Qed.

(** ** Splitting at commas *)

#[local] Arguments String.append : simpl nomatch.

Lemma append_nil s : String.append s EmptyString = s.
Proof. induction s; simpl; congruence. Qed.

Lemma append_assoc a b c : String.append (String.append a b) c = String.append a (String.append b c).
Proof. induction a; simpl; congruence. Qed.

Lemma append_length a b : String.length (String.append a b) = (String.length a + String.length b)%nat.
Proof. induction a; simpl; congruence. Qed.

Lemma cspan_word d t r : no_char d t = true ->
  cspan d (String.append t (String d r)) = (t, String d r) /\ cspan d t = (t, EmptyString).
Proof.
  induction t as [|c t IH]; simpl; intros H.
  - by rewrite Ascii.eqb_refl.
  - apply andb_true_iff in H as [Hc H]. apply negb_true_iff in Hc. rewrite Hc.
    destruct (IH H) as [-> ->]. done.
Qed.

Lemma split_word d t r : no_char d t = true -> t <> EmptyString ->
  pa_split d (String.append t (String d r)) = Some (t, r) /\ pa_split d t = Some (t, EmptyString).
Proof.
  intros Hn Ht. destruct (cspan_word d t r Hn) as [E1 E2]. unfold pa_split.
  destruct t as [|c t]; [done|]. simpl in *. by rewrite E1, E2.
Qed.

(** The names of a map's positions, with commas in between. *)
Fixpoint map_text (first : bool) (map : pa_channel_map) : string :=
  match map with
  | [] => EmptyString
  | p :: map =>
      let t := match pa_channel_position_to_string p with Some t => t | None => EmptyString end in
      String.append (String.append (if first then EmptyString else ","%string) t) (map_text false map)
  end.

Lemma map_text_later map : map_text false map =
  match map with [] => EmptyString | _ => String "," (map_text true map) end.
Proof. destruct map; [done|]. simpl. by destruct (pa_channel_position_to_string _). Qed.

Lemma parse_text map : Forall position_ok map -> forall fuel acc,
  (String.length (map_text true map) <= fuel)%nat -> channels acc + channels map <= 32 ->
  parse_loop fuel (map_text true map) acc = Some (acc ++ map).
Proof.
  induction 1 as [|p map Hp Hm IH]; intros fuel acc Hf Hc.
  - rewrite app_nil_r. by destruct fuel.
  - destruct (name_of p Hp) as (t & Et & Ef & Hn & Ht). unfold channels in Hc. simpl in Hc.
    destruct (split_word "," t (map_text true map) Hn Ht) as [E1 E2].
    assert (parse_loop fuel (map_text true (p :: map)) acc =
      match fuel with O => None | S fuel => parse_loop fuel (map_text true map) (acc ++ [p]) end) as E.
    { simpl. rewrite Et. simpl. rewrite map_text_later.
      destruct fuel as [|fuel]; simpl; (destruct map as [|p' map]; [rewrite append_nil, E2|rewrite E1]); [done..| |];
        rewrite (proj2 (Z.leb_gt _ _)) by (unfold PA_CHANNELS_MAX, channels; lia);
        rewrite Ef, (proj2 (Z.eqb_neq _ _)) by (unfold position_ok, PA_CHANNEL_POSITION_INVALID in *; lia); done. }
    rewrite E. simpl in Hf. rewrite Et, append_length in Hf. simpl in Hf.
    assert (String.length t <> 0%nat) by (by destruct t). destruct fuel as [|fuel]; [lia|].
    rewrite IH; [by rewrite <- app_assoc| |].
    + rewrite map_text_later in Hf. destruct map; simpl in *; lia.
    + unfold channels. rewrite length_app. simpl. lia.
Qed.

Lemma text_not_well_known map m n : pa_channel_map_valid map = true ->
  find (fun '(k, _) => String.eqb (map_text true map) k) well_known = Some (n, m) -> False.
Proof.
  intros Hv Hf. apply valid_spec in Hv as [Hc Hm].
  assert (forallb (fun '(k, _) => match parse_loop (String.length k) k [] with None => true | _ => false end)
    well_known = true) as Hall by (by vm_compute).
  apply find_some in Hf as [Hin E]. apply String.eqb_eq in E.
  rewrite forallb_forall in Hall. specialize (Hall _ Hin). simpl in Hall.
  rewrite <- E, parse_text in Hall; [done|done|done|].
  unfold channels in *. simpl. lia.
Qed.

Lemma substring_all n s : (String.length s <= n)%nat -> String.substring 0 n s = s.
Proof.
  revert s. induction n as [|n IH]; intros [|c s] H; simpl in *; try done; [lia|].
  rewrite IH by lia. done.
Qed.

Lemma snprint_text map : Forall position_ok map -> forall l first,
  Z.of_nat (String.length (map_text first map)) < l -> snprint_loop l first map = Ok (map_text first map).
Proof.
  induction 1 as [|p map Hp Hm IH]; intros l first Hl; [done|].
  destruct (name_of p Hp) as (t & Et & _ & _ & Ht). simpl in *. rewrite Et in *.
  rewrite append_length in Hl. set (w := String.append _ t) in *.
  assert (0 < String.length w)%nat. { unfold w. rewrite append_length. destruct t; [done|]. simpl. lia. }
  rewrite (proj2 (Z.leb_gt _ _)) by lia. simpl. unfold put_text. fold w. rewrite substring_all by lia.
  rewrite IH by lia. done.
Qed.

(** [PA_CHANNEL_MAP_SNPRINT_MAX] *)
Definition PA_CHANNEL_MAP_SNPRINT_MAX : Z := 336.

(** The length of a position's name, and by how much it exceeds 5, the length
    of "aux31". *)
Definition name_length (p : Z) : nat :=
  match pa_channel_position_to_string p with Some t => String.length t | None => 0%nat end.
Definition excess (p : Z) : nat := (name_length p - 5)%nat.

Lemma text_length map : String.length (map_text true map) =
  (sum_list_with name_length map + (length map - 1))%nat.
Proof.
  induction map as [|p map IH]; [done|]. simpl. rewrite append_length, map_text_later.
  unfold name_length at 1. destruct (pa_channel_position_to_string p), map; simpl in *; lia.
Qed.

Lemma excess_bound map : (sum_list_with name_length map <= 5 * length map + sum_list_with excess map)%nat.
Proof. induction map as [|p map IH]; simpl; [lia|]. unfold excess at 1. lia. Qed.

Lemma sum_submseteq {A} (f : A -> nat) l k : l ⊆+ k -> (sum_list_with f l <= sum_list_with f k)%nat.
Proof. intros [k' ->]%submseteq_Permutation. rewrite sum_list_with_app. lia. Qed.

(** The buffer size the header recommends is enough for a map that names no
    position twice. *)
Lemma text_fits map : pa_channel_map_valid map = true -> NoDup map ->
  Z.of_nat (String.length (map_text true map)) < PA_CHANNEL_MAP_SNPRINT_MAX.
Proof.
  intros [Hc Hm]%valid_spec Hd. pose proof (excess_bound map).
  pose proof (sum_submseteq excess map (Z.of_nat <$> seq 0 51)) as Hs.
  replace (sum_list_with excess (Z.of_nat <$> seq 0 51)) with 135%nat in Hs by (by vm_compute).
  rewrite text_length. unfold channels, PA_CHANNEL_MAP_SNPRINT_MAX in *.
  enough (sum_list_with excess map <= 135)%nat by lia. apply Hs, NoDup_submseteq; [done|].
  intros p Hp. rewrite Forall_forall in Hm. specialize (Hm p Hp). unfold position_ok, PA_CHANNEL_POSITION_MAX in Hm.
  apply list_elem_of_fmap. exists (Z.to_nat p). rewrite elem_of_seq. lia.
Qed.

(** ** Bit sets and masks *)

Lemma land_bit w k : 0 <= k -> negb (Z.land w (Z.shiftl 1 k) =? 0) = Z.testbit w k.
Proof.
  intros Hk. rewrite Z.shiftl_1_l. destruct (Z.testbit w k) eqn:E.
  - apply negb_true_iff, Z.eqb_neq. intros H. apply (f_equal (fun x => Z.testbit x k)) in H.
    by rewrite Z.land_spec, Z.pow2_bits_true, E, Z.bits_0 in H by lia.
  - apply negb_false_iff, Z.eqb_eq, Z.bits_inj'. intros n Hn. rewrite Z.land_spec, Z.bits_0.
    destruct (decide (n = k)) as [->|]; [by rewrite E|]. by rewrite Z.pow2_bits_false, andb_false_r by lia.
Qed.

Lemma lor_bit w k n : 0 <= k -> 0 <= n ->
  Z.testbit (Z.lor w (Z.shiftl 1 k)) n = Z.testbit w n || bool_decide (n = k).
Proof.
  intros Hk Hn. rewrite Z.lor_spec, Z.shiftl_1_l. f_equal. destruct (decide (n = k)) as [->|].
  - by rewrite bool_decide_true, Z.pow2_bits_true.
  - by rewrite bool_decide_false, Z.pow2_bits_false by lia.
Qed.

(** A position is its word and its bit. *)
Lemma bit_word_split k : 0 <= k -> k = Z.shiftr k 5 * 32 + Z.land k 31 /\ 0 <= Z.shiftr k 5 /\ 0 <= Z.land k 31 < 32.
Proof.
  intros Hk. change 31 with (Z.ones 5). rewrite Z.land_ones, Z.shiftr_div_pow2 by lia. change (2 ^ 5) with 32.
  pose proof (Z.div_mod k 32). pose proof (Z.mod_pos_bound k 32). pose proof (Z.div_pos k 32). lia.
Qed.

Lemma bitset_get_set b k n : 0 <= k < 32 * Z.of_nat (length b) -> 0 <= n ->
  pa_bitset_get (pa_bitset_set b k) n = pa_bitset_get b n || bool_decide (n = k).
Proof.
  intros Hk Hn. destruct (bit_word_split k) as (Ek & Hk1 & Hk2), (bit_word_split n) as (En & Hn1 & Hn2); [lia..|].
  unfold pa_bitset_get, pa_bitset_set. set (kw := Z.shiftr k 5) in *. set (kb := Z.land k 31) in *.
  set (nw := Z.shiftr n 5) in *. set (nb := Z.land n 31) in *. destruct (decide (nw = kw)) as [E|E].
  - rewrite E, list_lookup_alter_eq.
    assert (is_Some (b !! Z.to_nat kw)) as [w Hw] by (apply lookup_lt_is_Some; lia). rewrite Hw. simpl.
    rewrite !land_bit, lor_bit by lia. f_equal. apply bool_decide_ext. lia.
  - rewrite list_lookup_alter_ne by lia. rewrite (bool_decide_false (n = k)) by lia. by rewrite orb_false_r.
Qed.

Lemma bool_in_cons (n k : Z) ks : bool_decide (n ∈ k :: ks) = bool_decide (n = k) || bool_decide (n ∈ ks).
Proof. rewrite <- bool_decide_or. apply bool_decide_ext, elem_of_cons. Qed.

Lemma bitset_all ks : forall b n, Forall (fun k => 0 <= k < 32 * Z.of_nat (length b)) ks -> 0 <= n ->
  pa_bitset_get (fold_left pa_bitset_set ks b) n = pa_bitset_get b n || bool_decide (n ∈ ks).
Proof.
  induction ks as [|k ks IH]; intros b n Hk Hn; cbn [fold_left].
  - by rewrite orb_false_r.
  - apply Forall_cons in Hk as [Hk Hks]. rewrite IH, bitset_get_set; [|done..| |done].
    + by rewrite bool_in_cons, orb_assoc.
    + unfold pa_bitset_set. by rewrite length_alter.
Qed.

Lemma bitset_empty n m : pa_bitset_get (replicate m 0) n = false.
Proof.
  unfold pa_bitset_get. destruct (replicate m 0 !! _) as [w|] eqn:E; [|done].
  apply lookup_replicate in E as [-> _]. by rewrite Z.land_0_l.
Qed.

Lemma position_in_words map : Forall position_ok map ->
  Forall (fun k => 0 <= k < 32 * Z.of_nat (length (replicate (Z.to_nat (PA_BITSET_ELEMENTS 51)) 0))) map.
Proof. intros H. eapply Forall_impl; [exact H|]. intros k Hk. unfold position_ok, PA_CHANNEL_POSITION_MAX in Hk. simpl. lia. Qed.

Lemma same_bits a b : Forall position_ok a -> Forall position_ok b ->
  pa_bitset_equals (fold_left pa_bitset_set a (replicate (Z.to_nat (PA_BITSET_ELEMENTS 51)) 0)) 51 b = true ->
  forall p, p ∈ a <-> p ∈ b.
Proof.
  intros Ha Hb E p. apply bool_decide_eq_true in E.
  assert (forall p, 0 <= p -> p ∈ a <-> p ∈ b) as H.
  { intros q Hq. apply (f_equal (fun s => pa_bitset_get s q)) in E.
    rewrite !bitset_all, bitset_empty in E by (done || by apply position_in_words). simpl in E.
    rewrite <- (bool_decide_eq_true (q ∈ a)), <- E. apply bool_decide_eq_true. }
  rewrite Forall_forall in Ha, Hb. unfold position_ok in *.
  split; intros Hp; [apply (H p (proj1 (Ha p Hp)))|apply (H p (proj1 (Hb p Hp)))]; done.
Qed.

Lemma mask_bit map n : Forall position_ok map -> 0 <= n < 64 ->
  Z.testbit (fold_left (fun r p => Z.lor r (PA_CHANNEL_POSITION_MASK p)) map 0) n = bool_decide (n ∈ map).
Proof.
  intros Hm Hn. cut (forall r, Z.testbit (fold_left (fun r p => Z.lor r (PA_CHANNEL_POSITION_MASK p)) map r) n =
    Z.testbit r n || bool_decide (n ∈ map)). { intros ->. by rewrite Z.bits_0. }
  induction Hm as [|p map Hp Hm IH]; intros r; cbn [fold_left].
  - by rewrite orb_false_r.
  - unfold position_ok, PA_CHANNEL_POSITION_MAX in Hp. rewrite IH.
    unfold PA_CHANNEL_POSITION_MASK. rewrite u64_small, lor_bit; [|lia..|].
    + by rewrite bool_in_cons, orb_assoc.
    + rewrite Z.shiftl_1_l. split; [apply Z.pow_nonneg; lia|].
      change 18446744073709551616 with (2 ^ 64). apply Z.pow_lt_mono_r; lia.
Qed.

Lemma mask_high l n : 64 <= n ->
  Z.testbit (fold_left (fun r p => Z.lor r (PA_CHANNEL_POSITION_MASK p)) l 0) n = false.
Proof.
  intros Hn. cut (forall r, Z.testbit r n = false ->
    Z.testbit (fold_left (fun r p => Z.lor r (PA_CHANNEL_POSITION_MASK p)) l r) n = false).
  { intros H. apply H, Z.bits_0. }
  induction l as [|p l IH]; intros r Hr; [done|]. simpl. apply IH. rewrite Z.lor_spec, Hr. simpl.
  unfold PA_CHANNEL_POSITION_MASK, u64. by rewrite Z.mod_pow2_bits_high by lia.
Qed.

(** ** Default layouts *)

(** The layout [pa_channel_map_init_extend] gives for [n] channels. *)
Definition layout_ok (def : pa_channel_map_def) (n : Z) : bool :=
  match pa_channel_map_init_extend n def, pa_channel_map_init_auto n def with
  | Ok (Some m), Ok a =>
      pa_channel_map_valid m && (channels m =? n) && bool_decide (NoDup m) &&
      match a with Some m' => bool_decide (m' = m) | None => true end
  | _, _ => false
  end.

Lemma layouts def : forallb (layout_ok def) (Z.of_nat <$> seq 1 32) = true.
Proof. destruct def; by vm_compute. Qed.

(** ** Claims *)

(** Printing a valid channel map and parsing the text gives the map back, when
    the buffer has room for the text: the size the header recommends does for
    every map that names no position twice. *)
Theorem channel_map_text_roundtrip map l : pa_channel_map_valid map = true ->
  Z.of_nat (String.length (map_text true map)) < l \/ NoDup map /\ PA_CHANNEL_MAP_SNPRINT_MAX <= l ->
  exists s, pa_channel_map_snprint l map = Ok s /\ pa_channel_map_parse s = Some map.
Proof.
  intros Hv Hr. exists (map_text true map). pose proof Hv as Hs. apply valid_spec in Hs as [Hc Hm].
  assert (Z.of_nat (String.length (map_text true map)) < l) as Hl.
  { destruct Hr as [|[Hd ?]]; [done|]. pose proof (text_fits map Hv Hd). lia. }
  split.
  - unfold pa_channel_map_snprint. rewrite pa_assert_true by blia. simpl. rewrite Hv. by apply snprint_text.
  - unfold pa_channel_map_parse. destruct (find _ well_known) as [[n m]|] eqn:E.
    + by apply text_not_well_known in E.
    + rewrite parse_text; [simpl; by rewrite Hv|done|done|]. unfold channels in *. simpl. lia.
Qed.

(** For every number of channels from 1 to 32 and every standard,
    [pa_channel_map_init_extend] finds a valid map with that many channels and
    no position twice; it is the one of [pa_channel_map_init_auto] where that
    has one. *)
Theorem channel_map_defaults n def : 1 <= n <= 32 ->
  exists m, pa_channel_map_init_extend n def = Ok (Some m) /\ pa_channel_map_valid m = true /\
    channels m = n /\ NoDup m /\
    (pa_channel_map_init_auto n def = Ok (Some m) \/ pa_channel_map_init_auto n def = Ok None).
Proof.
  intros Hn. assert (layout_ok def n = true) as H.
  { pose proof (layouts def) as H. rewrite forallb_forall in H. apply H, list_elem_of_In, list_elem_of_fmap.
    exists (Z.to_nat n). rewrite elem_of_seq. lia. }
  unfold layout_ok in H. destruct (pa_channel_map_init_extend n def) as [[m|]| |]; try done.
  destruct (pa_channel_map_init_auto n def) as [a| |]; try done.
  rewrite !andb_true_iff, Z.eqb_eq, bool_decide_eq_true in H. destruct H as [[[? ?] ?] Ha].
  exists m. split_and!; try done. destruct a as [m'|]; [left|by right]. apply bool_decide_eq_true in Ha. by subst.
Qed.

(** The name of a map parses to a map with the same positions, and a map is a
    superset of another exactly when it has all its positions. *)
Theorem channel_map_names a b : pa_channel_map_valid a = true -> pa_channel_map_valid b = true ->
  (forall n, pa_channel_map_to_name a = Some n ->
     exists m, pa_channel_map_parse n = Some m /\ forall p, p ∈ m <-> p ∈ a) /\
  (pa_channel_map_superset false a b = true <-> forall p, p ∈ b -> p ∈ a).
Proof.
  intros Ha Hb. pose proof (proj1 (valid_spec a) Ha) as [_ Pa]. pose proof (proj1 (valid_spec b) Hb) as [_ Pb]. split.
  - intros n. unfold pa_channel_map_to_name. rewrite Ha. cbn [negb]. destruct (find _ named) as [[k ks]|] eqn:E; [|done].
    simpl. intros [= <-]. apply find_some in E as [Hin E].
    assert (forallb (fun '(k, ks) => match pa_channel_map_parse k with
      | Some m => bool_decide (m = ks) && forallb (fun p => (0 <=? p) && (p <? 51)) ks | None => false end) named = true)
      as Hall by (by vm_compute).
    rewrite forallb_forall in Hall. specialize (Hall _ Hin). simpl in Hall.
    destruct (pa_channel_map_parse k) as [m|]; [|done]. apply andb_true_iff in Hall as [Hm Hk].
    apply bool_decide_eq_true in Hm as ->. exists ks. split; [done|]. intros p. symmetry.
    apply (same_bits a ks); [done| |exact E]. rewrite Forall_forall, forallb_forall in *.
    intros q Hq. apply list_elem_of_In in Hq. specialize (Hk q Hq). unfold position_ok, PA_CHANNEL_POSITION_MAX. blia.
  - unfold pa_channel_map_superset, pa_channel_map_mask. rewrite Ha, Hb. simpl.
    set (am := fold_left _ a 0). set (bm := fold_left _ b 0). rewrite Z.eqb_eq. split.
    + intros E p Hp. rewrite Forall_forall in Pb. pose proof (Pb p Hp) as Hpos.
      unfold position_ok, PA_CHANNEL_POSITION_MAX in Hpos. apply (f_equal (fun x => Z.testbit x p)) in E.
      unfold am, bm in E. rewrite Z.land_spec, !mask_bit in E by (done || lia || by apply Forall_forall).
      rewrite (bool_decide_true (p ∈ b)) in E by done. simpl in E. by apply bool_decide_eq_true in E.
    + intros Hs. apply Z.bits_inj'. intros n Hn. rewrite Z.land_spec. destruct (decide (n < 64)).
      * unfold am, bm. rewrite !mask_bit by (done || lia). specialize (Hs n).
        repeat case_bool_decide; naive_solver.
      * unfold am, bm. by rewrite !mask_high by lia.
Qed.

Lemma channel_map_text_roundtrip_witness : exists s,
  pa_channel_map_snprint 336 [1; 2; 7] = Ok s /\ pa_channel_map_parse s = Some [1; 2; 7].
Proof.
  apply channel_map_text_roundtrip; [reflexivity|right]. split; [|vm_compute; discriminate].
  apply (bool_decide_eq_true (NoDup [1; 2; 7])). vm_compute. reflexivity.
Defined.

Lemma channel_map_names_witness : exists m, pa_channel_map_parse "stereo" = Some m /\ forall p, p ∈ m <-> p ∈ [2; 1].
Proof. apply (channel_map_names [2; 1] [1]); reflexivity. Defined.
