(* ===== verification/Volume.v ===== *)
(** * Volume: volumes of channels

    Models [src/pulse/volume.c], less the conversions to decibels and linear
    factors, balance and fading, which compute with floating-point numbers, and
    less printing.

    A [pa_volume_t] is a 32-bit number, [PA_VOLUME_NORM] being full scale.  A
    [pa_cvolume] is the list of the volumes of its channels: no function looks
    at entries of the array [values] from [channels] on.  A function that
    returns a null pointer when it fails returns [None]. *)
From stdpp Require Import base tactics numbers list sets.
From S2P Require Import Prelude Sample Channelmap.

Abbreviation pa_volume_t := Z (only parsing).
Abbreviation pa_cvolume := (list Z) (only parsing).

Definition PA_VOLUME_NORM : Z := 65536.
Definition PA_VOLUME_MUTED : Z := 0.
Definition PA_VOLUME_MAX : Z := UINT32_MAX / 2.
Definition PA_VOLUME_INVALID : Z := UINT32_MAX.

Definition PA_VOLUME_IS_VALID (v : pa_volume_t) : bool := v <=? PA_VOLUME_MAX.

(** [PA_CLAMP_VOLUME], the upper end: the arguments are unsigned. *)
Definition PA_CLAMP_VOLUME (v : Z) : pa_volume_t := if PA_VOLUME_MAX <? v then PA_VOLUME_MAX else v.

Definition pa_cvolume_valid (v : pa_cvolume) : bool :=
  if negb (pa_channels_valid (channels v)) then false else forallb PA_VOLUME_IS_VALID v.

(** [same]: the two pointers are equal. *)
Definition pa_cvolume_equal (same : bool) (a b : pa_cvolume) : bool :=
  if negb (pa_cvolume_valid a) then false
  else if same then true
  else if negb (pa_cvolume_valid b) then false
  else if negb (channels a =? channels b) then false
  else forallb (fun '(x, y) => x =? y) (combine a b).

Definition pa_cvolume_set (n : Z) (v : pa_volume_t) : outcome pa_cvolume :=
  _ ← pa_assert (pa_channels_valid n);
  Ok (replicate (Z.to_nat (u8 n)) (PA_CLAMP_VOLUME v)).

Definition pa_cvolume_reset (n : Z) : outcome pa_cvolume := pa_cvolume_set n PA_VOLUME_NORM.
Definition pa_cvolume_mute (n : Z) : outcome pa_cvolume := pa_cvolume_set n PA_VOLUME_MUTED.

Definition pa_cvolume_avg (a : pa_cvolume) : pa_volume_t :=
  if negb (pa_cvolume_valid a) then PA_VOLUME_MUTED
  else u32 (fold_left (fun acc v => u64 (acc + v)) a 0 / channels a).

Definition pa_cvolume_max (a : pa_cvolume) : pa_volume_t :=
  if negb (pa_cvolume_valid a) then PA_VOLUME_MUTED
  else fold_left (fun m v => if m <? v then v else m) a PA_VOLUME_MUTED.

Definition pa_cvolume_min (a : pa_cvolume) : pa_volume_t :=
  if negb (pa_cvolume_valid a) then PA_VOLUME_MUTED
  else fold_left (fun m v => if v <? m then v else m) a PA_VOLUME_MAX.

Definition pa_cvolume_compatible (v : pa_cvolume) (ss : pa_sample_spec) : bool :=
  if negb (pa_cvolume_valid v) then false
  else if negb (pa_sample_spec_valid ss) then false
  else channels v =? ss_channels ss.

Definition pa_cvolume_compatible_with_channel_map (v : pa_cvolume) (cm : pa_channel_map) : bool :=
  if negb (pa_cvolume_valid v) then false
  else if negb (pa_channel_map_valid cm) then false
  else channels v =? channels cm.

(** The channels of a map that are in a mask, with their volumes. *)
Definition masked (a : pa_cvolume) (cm : pa_channel_map) (mask : Z) : list Z :=
  snd <$> filter (fun '(p, _) => Z.land (PA_CHANNEL_POSITION_MASK p) mask <> 0) (combine cm a).

Definition pa_cvolume_avg_mask (a : pa_cvolume) (cm : option pa_channel_map) (mask : Z) : pa_volume_t :=
  match cm with
  | None => pa_cvolume_avg a
  | Some cm =>
      if negb (pa_cvolume_compatible_with_channel_map a cm) then PA_VOLUME_MUTED
      else
        let sum := fold_left (fun acc v => u64 (acc + v)) (masked a cm mask) 0 in
        let n := Z.of_nat (length (masked a cm mask)) in
        u32 (if 0 <? n then sum / n else sum)
  end.

Definition pa_cvolume_max_mask (a : pa_cvolume) (cm : option pa_channel_map) (mask : Z) : pa_volume_t :=
  match cm with
  | None => pa_cvolume_max a
  | Some cm =>
      if negb (pa_cvolume_compatible_with_channel_map a cm) then PA_VOLUME_MUTED
      else fold_left (fun m v => if m <? v then v else m) (masked a cm mask) PA_VOLUME_MUTED
  end.

Definition pa_cvolume_min_mask (a : pa_cvolume) (cm : option pa_channel_map) (mask : Z) : pa_volume_t :=
  match cm with
  | None => pa_cvolume_min a
  | Some cm =>
      if negb (pa_cvolume_compatible_with_channel_map a cm) then PA_VOLUME_MUTED
      else fold_left (fun m v => if v <? m then v else m) (masked a cm mask) PA_VOLUME_MAX
  end.

(** ** Multiplying and dividing *)

Definition pa_sw_volume_multiply (a b : pa_volume_t) : pa_volume_t :=
  if negb (PA_VOLUME_IS_VALID a) then PA_VOLUME_INVALID
  else if negb (PA_VOLUME_IS_VALID b) then PA_VOLUME_INVALID
  else PA_CLAMP_VOLUME (u64 (u64 (a * b) + PA_VOLUME_NORM / 2) / PA_VOLUME_NORM).

Definition pa_sw_volume_divide (a b : pa_volume_t) : pa_volume_t :=
  if negb (PA_VOLUME_IS_VALID a) then PA_VOLUME_INVALID
  else if negb (PA_VOLUME_IS_VALID b) then PA_VOLUME_INVALID
  else if b <=? PA_VOLUME_MUTED then 0
  else PA_CLAMP_VOLUME (u64 (u64 (a * PA_VOLUME_NORM) + b / 2) / b).

(** The loops over the channels both volumes have. *)
Definition pointwise (f : pa_volume_t -> pa_volume_t -> pa_volume_t) (a b : pa_cvolume) : option pa_cvolume :=
  if negb (pa_cvolume_valid a) then None
  else if negb (pa_cvolume_valid b) then None
  else Some ((fun '(x, y) => f x y) <$> combine a b).

Definition pa_sw_cvolume_multiply : pa_cvolume -> pa_cvolume -> option pa_cvolume := pointwise pa_sw_volume_multiply.
Definition pa_sw_cvolume_divide : pa_cvolume -> pa_cvolume -> option pa_cvolume := pointwise pa_sw_volume_divide.
Definition pa_cvolume_merge : pa_cvolume -> pa_cvolume -> option pa_cvolume := pointwise Z.max.

Definition pa_sw_cvolume_multiply_scalar (a : pa_cvolume) (b : pa_volume_t) : option pa_cvolume :=
  if negb (pa_cvolume_valid a) then None
  else if negb (PA_VOLUME_IS_VALID b) then None
  else Some ((fun v => pa_sw_volume_multiply v b) <$> a).

Definition pa_sw_cvolume_divide_scalar (a : pa_cvolume) (b : pa_volume_t) : option pa_cvolume :=
  if negb (pa_cvolume_valid a) then None
  else if negb (PA_VOLUME_IS_VALID b) then None
  else Some ((fun v => pa_sw_volume_divide v b) <$> a).

Definition pa_cvolume_channels_equal_to (a : pa_cvolume) (v : pa_volume_t) : bool :=
  if negb (pa_cvolume_valid a) then false
  else if negb (PA_VOLUME_IS_VALID v) then false
  else forallb (fun x => x =? v) a.

Definition pa_cvolume_is_norm (v : pa_cvolume) : bool := pa_cvolume_channels_equal_to v PA_VOLUME_NORM.
Definition pa_cvolume_is_muted (v : pa_cvolume) : bool := pa_cvolume_channels_equal_to v PA_VOLUME_MUTED.

(** ** Scaling *)

Definition scaled (v : pa_cvolume) (max t : Z) : pa_cvolume :=
  (fun x => PA_CLAMP_VOLUME (u64 (x * max) / t)) <$> v.

Definition pa_cvolume_scale (v : pa_cvolume) (max : pa_volume_t) : outcome (option pa_cvolume) :=
  if negb (pa_cvolume_valid v) then Ok None
  else if negb (PA_VOLUME_IS_VALID max) then Ok None
  else
    let t := pa_cvolume_max v in
    if t <=? PA_VOLUME_MUTED then v ← pa_cvolume_set (channels v) max; Ok (Some v)
    else Ok (Some (scaled v max t)).

Definition pa_cvolume_scale_mask (v : pa_cvolume) (max : pa_volume_t) (cm : option pa_channel_map) (mask : Z)
    : outcome (option pa_cvolume) :=
  if negb (PA_VOLUME_IS_VALID max) then Ok None
  else match cm with
  | None => pa_cvolume_scale v max
  | Some m =>
      if negb (pa_cvolume_compatible_with_channel_map v m) then Ok None
      else
        let t := pa_cvolume_max_mask v cm mask in
        if t <=? PA_VOLUME_MUTED then v ← pa_cvolume_set (channels v) max; Ok (Some v)
        else Ok (Some (scaled v max t))
  end.

(** [limit - inc] wraps around when the limit is lower. *)
Definition pa_cvolume_inc_clamp (v : pa_cvolume) (inc limit : pa_volume_t) : outcome (option pa_cvolume) :=
  if negb (pa_cvolume_valid v) then Ok None
  else if negb (PA_VOLUME_IS_VALID inc) then Ok None
  else
    let m := pa_cvolume_max v in
    let m := if u32 (limit - inc) <=? m then limit else u32 (m + inc) in
    pa_cvolume_scale v m.

Definition pa_cvolume_inc (v : pa_cvolume) (inc : pa_volume_t) : outcome (option pa_cvolume) :=
  pa_cvolume_inc_clamp v inc PA_VOLUME_MAX.

Definition pa_cvolume_dec (v : pa_cvolume) (dec : pa_volume_t) : outcome (option pa_cvolume) :=
  if negb (pa_cvolume_valid v) then Ok None
  else if negb (PA_VOLUME_IS_VALID dec) then Ok None
  else
    let m := pa_cvolume_max v in
    let m := if m <=? u32 (PA_VOLUME_MUTED + dec) then PA_VOLUME_MUTED else u32 (m - dec) in
    pa_cvolume_scale v m.

(** ** Positions *)

Definition on_mask (mask : Z) (p : pa_channel_position_t) : bool :=
  negb (Z.land (PA_CHANNEL_POSITION_MASK p) mask =? 0).

Definition on_left : pa_channel_position_t -> bool := on_mask PA_CHANNEL_POSITION_MASK_LEFT.
Definition on_right : pa_channel_position_t -> bool := on_mask PA_CHANNEL_POSITION_MASK_RIGHT.
Definition on_center : pa_channel_position_t -> bool := on_mask PA_CHANNEL_POSITION_MASK_CENTER.
Definition on_lfe : pa_channel_position_t -> bool := on_mask PA_CHANNEL_POSITION_MASK_LFE.

(** The two loops over [from]: the sum of the volumes of the channels that
    pass a test, 32 bits wide, and their number. *)
Definition gather_volumes (test : pa_channel_position_t -> bool) (v : pa_cvolume) (from : pa_channel_map) : Z * Z :=
  fold_left (fun '(k, n) '(p, x) => if test p then (u32 (k + x), n + 1) else (k, n)) (combine from v) (0, 0).

Definition same_side (q p : pa_channel_position_t) : bool :=
  (on_left p && on_left q) || (on_right p && on_right q) || (on_center p && on_center q) || (on_lfe p && on_lfe q).

Definition remap_one (v : pa_cvolume) (from : pa_channel_map) (q : pa_channel_position_t) : pa_volume_t :=
  let '(k, n) := gather_volumes (fun p => p =? q) v from in
  let '(k, n) := if n <=? 0 then gather_volumes (same_side q) v from else (k, n) in
  if n <=? 0 then pa_cvolume_avg v else k / n.

(** [same]: [from] and [to] are the same pointer. *)
Definition pa_cvolume_remap (same : bool) (v : pa_cvolume) (from to : pa_channel_map) : option pa_cvolume :=
  if negb (pa_channel_map_valid to) then None
  else if negb (pa_cvolume_compatible_with_channel_map v from) then None
  else if pa_channel_map_equal same from to then Some v
  else Some (remap_one v from <$> to).

Definition pa_cvolume_set_position (cv : pa_cvolume) (map : pa_channel_map) (t : pa_channel_position_t)
    (v : pa_volume_t) : option pa_cvolume :=
  if negb (pa_cvolume_compatible_with_channel_map cv map) then None
  else if negb (t <? PA_CHANNEL_POSITION_MAX) then None
  else if negb (PA_VOLUME_IS_VALID v) then None
  else if existsb (fun p => p =? t) map
  then Some ((fun '(p, x) => if p =? t then v else x) <$> combine map cv)
  else None.

Definition pa_cvolume_get_position (cv : pa_cvolume) (map : pa_channel_map) (t : pa_channel_position_t) : pa_volume_t :=
  if negb (pa_cvolume_compatible_with_channel_map cv map) then PA_VOLUME_MUTED
  else if negb (t <? PA_CHANNEL_POSITION_MAX) then PA_VOLUME_MUTED
  else fold_left (fun v '(p, x) => if (p =? t) && (v <? x) then x else v) (combine map cv) PA_VOLUME_MUTED.

(** ** Facts *)

(** A valid volume, of one channel and of several. *)
Definition volume_ok (v : Z) : Prop := 0 <= v <= PA_VOLUME_MAX.
Record cvolume_ok (v : pa_cvolume) : Prop := {
  cv_channels : 1 <= channels v <= 32;
  cv_values : Forall volume_ok v
}.

Lemma max_value : PA_VOLUME_MAX = 2147483647.
Proof. done. Qed.

Lemma channels_valid n : 1 <= n <= 32 -> pa_channels_valid n = true.
Proof. unfold pa_channels_valid, PA_CHANNELS_MAX. blia. Qed.

Lemma cvolume_valid v : cvolume_ok v -> pa_cvolume_valid v = true.
Proof.
  intros [Hc Hv]. unfold pa_cvolume_valid. rewrite channels_valid by done. simpl. apply forallb_forall.
  rewrite Forall_forall in Hv. intros x Hx. apply list_elem_of_In in Hx. specialize (Hv x Hx).
  unfold volume_ok, PA_VOLUME_IS_VALID in *. blia.
Qed.

(** Conversely, for a C value. *)
Lemma cvolume_valid_ok v : Forall (fun x => 0 <= x < 2 ^ 32) v -> pa_cvolume_valid v = true -> cvolume_ok v.
Proof.
  intros Hw. unfold pa_cvolume_valid, pa_channels_valid, PA_CHANNELS_MAX. destruct (_ && _) eqn:E; [|done]. simpl.
  intros H. split; [blia|]. rewrite Forall_forall in *. rewrite forallb_forall in H. intros x Hx.
  specialize (Hw x Hx). apply list_elem_of_In in Hx. specialize (H x Hx).
  unfold volume_ok, PA_VOLUME_IS_VALID in *. blia.
Qed.

Lemma volume_is_valid v : volume_ok v -> PA_VOLUME_IS_VALID v = true.
Proof. unfold volume_ok, PA_VOLUME_IS_VALID. blia. Qed.

Lemma clamp_ok v : 0 <= v -> volume_ok (PA_CLAMP_VOLUME v) /\ PA_CLAMP_VOLUME v <= v.
Proof. unfold volume_ok, PA_CLAMP_VOLUME. rewrite max_value. intros. destruct (Z.ltb_spec 2147483647 v); lia. Qed.

Lemma clamp_small v : volume_ok v -> PA_CLAMP_VOLUME v = v.
Proof. unfold volume_ok, PA_CLAMP_VOLUME. rewrite max_value. intros. destruct (Z.ltb_spec 2147483647 v); lia. Qed.

Lemma multiply_eq a b : volume_ok a -> volume_ok b ->
  pa_sw_volume_multiply a b = PA_CLAMP_VOLUME ((a * b + 32768) / 65536).
Proof.
  intros Ha Hb. unfold pa_sw_volume_multiply. rewrite !volume_is_valid by done. simpl.
  unfold volume_ok in *. rewrite max_value in *. change (PA_VOLUME_NORM / 2) with 32768. change PA_VOLUME_NORM with 65536.
  assert (0 <= a * b <= 2147483647 * 2147483647) by nia. rewrite (u64_small (a * b)), u64_small by lia. done.
Qed.

Lemma divide_eq a b : volume_ok a -> volume_ok b -> 0 < b ->
  pa_sw_volume_divide a b = PA_CLAMP_VOLUME ((a * 65536 + b / 2) / b).
Proof.
  intros Ha Hb Hp. unfold pa_sw_volume_divide. rewrite !volume_is_valid by done. simpl.
  unfold volume_ok, PA_VOLUME_MUTED, PA_VOLUME_NORM in *. rewrite max_value in *.
  destruct (Z.leb_spec b 0); [lia|]. pose proof (Z.div_pos b 2). pose proof (Z.div_le_upper_bound b 2 b).
  rewrite (u64_small (a * 65536)), u64_small by lia. done.
Qed.

(** The rounding errors cancel when [b] is at least full scale. *)
Lemma rounded_quotient a b : 0 <= a -> 65536 <= b ->
  ((a * b + 32768) / 65536 * 65536 + b / 2) / b = a.
Proof.
  intros Ha Hb. destruct (decide (b = 65536)) as [->|].
  { rewrite (Z.div_add_l a 65536 32768) by lia. change (32768 / 65536) with 0. change (65536 / 2) with 32768.
    rewrite Z.add_0_r, Z.div_add_l by lia. change (32768 / 65536) with 0. lia. }
  pose proof (Z.div_mod (a * b + 32768) 65536) as E1.
  pose proof (Z.mod_pos_bound (a * b + 32768) 65536) as B1. pose proof (Z.div_mod b 2) as E2.
  pose proof (Z.mod_pos_bound b 2) as B2. set (r := (a * b + 32768) / 65536) in *.
  set (h := b / 2) in *. symmetry. apply (Z.div_unique_pos _ _ _ (r * 65536 + h - b * a)); lia.
Qed.

Lemma max_fold v : forall m, 0 <= m -> Forall volume_ok v ->
  let r := fold_left (fun m v => if m <? v then v else m) v m in
  m <= r /\ Forall (fun x => x <= r) v /\ (r = m \/ r ∈ v).
Proof.
  induction v as [|x v IH]; intros m Hm Hv; simpl; [split; [lia|]; split; [done|]; by left|].
  apply Forall_cons in Hv as [Hx Hv]. unfold volume_ok in Hx.
  destruct (Z.ltb_spec m x); [destruct (IH x ltac:(lia) Hv) as (H1 & H2 & H3)|destruct (IH m Hm Hv) as (H1 & H2 & H3)];
    (split; [lia|split; [constructor; [lia|done]|]]); set_solver.
Qed.

(** The maximum is reached, and exceeded by no channel. *)
Lemma max_spec v : cvolume_ok v ->
  pa_cvolume_max v ∈ v /\ Forall (fun x => x <= pa_cvolume_max v) v /\ volume_ok (pa_cvolume_max v).
Proof.
  intros Hok. pose proof Hok as [Hc Hv]. unfold pa_cvolume_max. rewrite cvolume_valid by done. simpl.
  destruct (max_fold v PA_VOLUME_MUTED ltac:(done) Hv) as (H1 & H2 & H3). set (r := fold_left _ v _) in *.
  assert (r ∈ v) as Hin.
  { destruct H3 as [E|]; [|done]. destruct v as [|x v]; [unfold channels in Hc; simpl in Hc; lia|].
    apply Forall_cons in H2 as [H2 _]. apply Forall_cons in Hv as [Hx _]. unfold volume_ok, PA_VOLUME_MUTED in *.
    replace r with x by lia. left. }
  split; [done|]. split; [done|]. rewrite Forall_forall in Hv. by apply Hv.
Qed.

Lemma max_unique v m : cvolume_ok v -> m ∈ v -> Forall (fun x => x <= m) v -> pa_cvolume_max v = m.
Proof.
  intros Hok Hin Hm. destruct (max_spec v Hok) as (H1 & H2 & _). rewrite Forall_forall in *.
  specialize (Hm _ H1). specialize (H2 _ Hin). simpl in *. lia.
Qed.

Lemma set_ok n v : 1 <= n <= 32 -> volume_ok v -> pa_cvolume_set n v = Ok (replicate (Z.to_nat n) v).
Proof. intros Hn Hv. unfold pa_cvolume_set. rewrite channels_valid, u8_small, clamp_small by (done || lia). done. Qed.

(** What scaling gives: [max] for the loudest channel, and the others in
    proportion. *)
Lemma scale_spec v max : cvolume_ok v -> volume_ok max ->
  exists v', pa_cvolume_scale v max = Ok (Some v') /\ cvolume_ok v' /\ channels v' = channels v /\
    pa_cvolume_max v' = max /\
    forall i x, v !! i = Some x -> exists y, v' !! i = Some y /\
      if pa_cvolume_max v =? 0 then y = max
      else y = x * max / pa_cvolume_max v.
Proof.
  intros Hok Hm. destruct (max_spec v Hok) as (H1 & H2 & H3). pose proof Hok as [Hc Hv].
  unfold pa_cvolume_scale. rewrite cvolume_valid, volume_is_valid by done. simpl.
  set (t := pa_cvolume_max v) in *. unfold volume_ok in H3. destruct (Z.leb_spec t PA_VOLUME_MUTED) as [Ht|Ht]; unfold PA_VOLUME_MUTED in Ht.
  - rewrite set_ok by done. simpl. eexists. split; [done|].
    assert (channels (replicate (Z.to_nat (channels v)) max) = channels v) as Ec.
    { unfold channels. rewrite length_replicate. lia. }
    assert (cvolume_ok (replicate (Z.to_nat (channels v)) max)) as Hok'.
    { split; [by rewrite Ec|]. by apply Forall_replicate. }
    split; [done|]. split; [done|]. split.
    + apply max_unique; [done| |].
      * apply elem_of_replicate. split; [done|lia].
      * apply Forall_replicate. lia.
    + intros i x Hi. exists max. rewrite lookup_replicate_2; [|apply lookup_lt_Some in Hi; unfold channels; lia].
      split; [done|]. by rewrite (proj2 (Z.eqb_eq t 0)) by lia.
  - assert (forall x, x ∈ v -> PA_CLAMP_VOLUME (u64 (x * max) / t) = x * max / t /\ 0 <= x * max / t <= max) as Hx.
    { intros x Hx. rewrite Forall_forall in Hv, H2. specialize (Hv x Hx). specialize (H2 x Hx). simpl in H2.
      unfold volume_ok in *. assert (0 <= x * max / t <= max).
      { split; [apply Z.div_pos; nia|]. apply Z.div_le_upper_bound; nia. }
      split; [|done]. rewrite max_value in *. rewrite u64_small by nia. apply clamp_small. unfold volume_ok. rewrite max_value. lia. }
    exists (scaled v max t). split; [done|].
    assert (cvolume_ok (scaled v max t)) as Hok'.
    { split; [unfold channels, scaled; by rewrite length_fmap|]. apply Forall_fmap, Forall_forall. intros x Hin. simpl.
      destruct (Hx x Hin) as [-> ?]. unfold volume_ok in *. lia. }
    split; [done|]. split; [unfold channels, scaled; by rewrite length_fmap|]. split.
    + apply max_unique; [done| |].
      * apply list_elem_of_fmap. exists t. destruct (Hx t H1) as [-> _]. split; [|done].
        rewrite Z.mul_comm, Z.div_mul by lia. done.
      * apply Forall_fmap, Forall_forall. intros x Hin. simpl. destruct (Hx x Hin) as [-> ?]. lia.
    + intros i x Hi. unfold scaled. rewrite list_lookup_fmap, Hi. simpl. eexists. split; [done|].
      rewrite (proj2 (Z.eqb_neq t 0)) by lia. apply Hx, (list_elem_of_lookup_2 _ _ _ Hi).
Qed.

(** ** Remapping *)

(** The channels a loop of [pa_cvolume_remap] adds up. *)
Definition gathered (test : pa_channel_position_t -> bool) (v : pa_cvolume) (from : pa_channel_map) : list Z :=
  snd <$> filter (fun '(p, _) => test p = true) (combine from v).

Definition total (l : list Z) : Z := foldr Z.add 0 l.

Lemma sum_bounds l lo hi : Forall (fun x => lo <= x <= hi) l ->
  lo * Z.of_nat (length l) <= total l <= hi * Z.of_nat (length l).
Proof. induction 1; simpl; lia. Qed.

Lemma mean_bounds l lo hi : Forall (fun x => lo <= x <= hi) l -> l <> [] ->
  lo <= total l / Z.of_nat (length l) <= hi.
Proof.
  intros H Hl. pose proof (sum_bounds l lo hi H). assert (length l <> 0%nat) by (by destruct l).
  split; [apply Z.div_le_lower_bound|apply Z.div_le_upper_bound]; lia.
Qed.

Lemma combine_values (P : Z -> Prop) (from : list Z) (v : list Z) :
  Forall P v -> Forall (fun '(_, x) => P x) (combine from v).
Proof.
  intros H. revert from. induction H; intros [|p from]; simpl; constructor; done || auto.
Qed.

Lemma gathered_values (P : Z -> Prop) test v from : Forall P v -> Forall P (gathered test v from).
Proof.
  intros H. unfold gathered. apply Forall_fmap, Forall_forall. intros [p x] Hin. simpl.
  apply list_elem_of_filter in Hin as [_ Hin]. pose proof (combine_values P from v H) as Hc.
  rewrite Forall_forall in Hc. by apply (Hc (p, x)).
Qed.

Lemma gathered_length test v from : (length (gathered test v from) <= length v)%nat.
Proof.
  unfold gathered. rewrite length_fmap. etrans; [apply length_filter|]. rewrite length_combine. lia.
Qed.

Lemma gather_eq test v from : Forall (fun x => 0 <= x < 2 ^ 27) v -> (length v <= 32)%nat ->
  gather_volumes test v from = (total (gathered test v from), Z.of_nat (length (gathered test v from))).
Proof.
  intros Hv Hl. unfold gather_volumes.
  assert (forall l k n, Forall (fun '(_, x) => 0 <= x < 2 ^ 27) l -> 0 <= k -> k + 2 ^ 27 * Z.of_nat (length l) <= 2 ^ 32 ->
    fold_left (fun '(k, n) '(p, x) => if test p then (u32 (k + x), n + 1) else (k, n)) l (k, n) =
    let g := snd <$> filter (fun '(p, _) => test p = true) l in (k + total g, n + Z.of_nat (length g))) as H.
  { induction l as [|[p x] l IH]; intros k n Hf Hk Hb; simpl in *; [f_equal; lia|].
    apply Forall_cons in Hf as [Hx Hf]. destruct (test p) eqn:Et.
    - rewrite filter_cons_True by done. rewrite IH; [|done|apply u32_bound|]; rewrite u32_small by lia; [|lia].
      rewrite fmap_cons. cbn [length snd]. unfold total. cbn [foldr]. f_equal; lia.
    - rewrite filter_cons_False by (by rewrite Et). rewrite IH by (done || lia). done. }
  rewrite H; [done|by apply combine_values|lia|]. rewrite length_combine. lia.
Qed.

Lemma avg_eq v : cvolume_ok v -> pa_cvolume_avg v = total v / channels v.
Proof.
  intros Hok. pose proof Hok as [Hc Hv]. unfold pa_cvolume_avg. rewrite cvolume_valid by done. simpl.
  assert (forall l s, Forall volume_ok l -> 0 <= s -> s + 2 ^ 31 * Z.of_nat (length l) < 2 ^ 64 ->
    fold_left (fun acc v => u64 (acc + v)) l s = s + total l) as H.
  { induction l as [|x l IH]; intros s Hl Hs Hb; simpl in *; [lia|]. apply Forall_cons in Hl as [Hx Hl].
    unfold volume_ok in Hx. rewrite max_value in Hx. rewrite u64_small by lia. rewrite IH by (done || lia). lia. }
  unfold channels in *. rewrite H by (done || lia). simpl. apply u32_small.
  pose proof (mean_bounds v 0 PA_VOLUME_MAX Hv ltac:(intros ->; simpl in *; lia)). rewrite max_value in *. lia.
Qed.

(** Volumes below 2^27 do not overflow the 32-bit sum of 32 channels: the
    result is a mean of volumes of [v], over the channels with the same
    position or, when there are none, on the same side, or else all. *)
Lemma remap_one_mean v from q : cvolume_ok v -> Forall (fun x => x < 2 ^ 27) v ->
  exists l, remap_one v from q = total l / Z.of_nat (length l) /\ l <> [] /\
    (l = gathered (fun p => p =? q) v from \/
     gathered (fun p => p =? q) v from = [] /\ (l = gathered (same_side q) v from \/
       gathered (same_side q) v from = [] /\ l = v)).
Proof.
  intros Hok Hb. pose proof Hok as [Hc Hv]. unfold channels in Hc.
  assert (Forall (fun x => 0 <= x < 2 ^ 27) v) as Hv'.
  { rewrite Forall_forall in *. intros x Hx. specialize (Hv x Hx). specialize (Hb x Hx). unfold volume_ok in Hv. simpl in Hb. lia. }
  unfold remap_one. rewrite !gather_eq by (done || lia).
  destruct (gathered (fun p => p =? q) v from) as [|x g]; simpl.
  - destruct (gathered (same_side q) v from) as [|y h]; simpl.
    + exists v. rewrite avg_eq by done. split_and!; [done|intros ->; simpl in *; lia|]. right. split; [done|]. by right.
    + exists (y :: h). split_and!; [done..|]. right. split; [done|]. by left.
  - exists (x :: g). split_and!; [done..|]. by left.
Qed.

(** ** Positions *)

Lemma compatible_spec v cm : cvolume_ok v -> pa_channel_map_valid cm = true -> length cm = length v ->
  pa_cvolume_compatible_with_channel_map v cm = true.
Proof.
  intros Hv Hm E. unfold pa_cvolume_compatible_with_channel_map. rewrite cvolume_valid, Hm by done. simpl.
  apply Z.eqb_eq. unfold channels. by rewrite E.
Qed.

Lemma get_position_fold l t : forall m, 0 <= m ->
  let r := fold_left (fun v '(p, x) => if (p =? t) && (v <? x) then x else v) l m in
  m <= r /\ (forall p x, (p, x) ∈ l -> p = t -> x <= r) /\ (r = m \/ exists x, (t, x) ∈ l /\ r = x).
Proof.
  induction l as [|[p x] l IH]; intros m Hm; simpl; [split_and!; [lia|set_solver|by left]|].
  destruct (Z.eqb_spec p t) as [->|Hp]; simpl.
  - destruct (Z.ltb_spec m x).
    + destruct (IH x ltac:(lia)) as (H1 & H2 & H3). split_and!; [lia| |].
      * intros p y [[= -> ->]|]%elem_of_cons ?; [done|by apply (H2 p)].
      * right. destruct H3 as [->|(y & ? & ?)]; [exists x|exists y]; set_solver.
    + destruct (IH m Hm) as (H1 & H2 & H3). split_and!; [lia| |].
      * intros p y [[= -> ->]|]%elem_of_cons ?; [lia|by apply (H2 p)].
      * destruct H3 as [->|(y & ? & ?)]; [by left|right; exists y; set_solver].
  - destruct (IH m Hm) as (H1 & H2 & H3). split_and!; [lia| |].
    + intros q y [[= -> ->]|]%elem_of_cons ?; [done|by apply (H2 q)].
    + destruct H3 as [->|(y & ? & ?)]; [by left|right; exists y; set_solver].
Qed.

Lemma combine_zip (a b : list Z) : combine a b = zip a b.
Proof. revert b. induction a as [|x a IH]; intros [|y b]; simpl; try done; by rewrite IH. Qed.

Lemma set_position_values (map cv : list Z) t v :
  (fun '((p, x) : Z * Z) => if p =? t then v else x) <$> combine map cv =
  zip_with (fun p x => if p =? t then v else x) map cv.
Proof. revert cv. induction map as [|p map IH]; intros [|x cv]; simpl; try done. f_equal. apply IH. Qed.

Lemma position_values (map cv : list Z) (t v x : Z) : length map = length cv -> t ∈ map ->
  (t, x) ∈ combine map (zip_with (fun p x => if p =? t then v else x) map cv) <-> x = v.
Proof.
  intros El Hin. rewrite combine_zip, list_elem_of_lookup. split.
  - intros (i & Hi). apply lookup_zip_with_Some in Hi as (p & y & [= <- <-] & Hp & Hy).
    apply lookup_zip_with_Some in Hy as (p' & y' & -> & Hp' & _). rewrite Hp in Hp'. injection Hp' as <-.
    by rewrite Z.eqb_refl.
  - intros ->. apply list_elem_of_lookup in Hin as (i & Hi). exists i. rewrite lookup_zip_with, Hi. simpl.
    rewrite lookup_zip_with, Hi. simpl. assert (is_Some (cv !! i)) as [y ->].
    { apply lookup_lt_is_Some. apply lookup_lt_Some in Hi. lia. } simpl. by rewrite Z.eqb_refl.
Qed.

(** ** Claims *)

(** Multiplying volumes gives a valid volume, does not depend on the order,
    leaves a volume alone at full scale, grows with its arguments, and is undone
    by dividing when the factor is at least full scale and nothing was clipped. *)
Theorem volume_multiply_divide a b : volume_ok a -> volume_ok b ->
  let r := pa_sw_volume_multiply a b in
  volume_ok r /\ r = pa_sw_volume_multiply b a /\ pa_sw_volume_multiply a PA_VOLUME_NORM = a /\
  (forall c, volume_ok c -> a <= c -> r <= pa_sw_volume_multiply c b) /\
  (PA_VOLUME_NORM <= b -> r < PA_VOLUME_MAX -> pa_sw_volume_divide r b = a).
Proof.
  intros Ha Hb r. assert (volume_ok PA_VOLUME_NORM) as Hn by (unfold volume_ok, PA_VOLUME_NORM; rewrite max_value; lia).
  assert (forall c, volume_ok c -> 0 <= (c * b + 32768) / 65536) as Hq.
  { intros c Hc. apply Z.div_pos; [|lia]. unfold volume_ok in *. nia. }
  pose proof (clamp_ok _ (Hq a Ha)) as [Hr Hle]. unfold r. rewrite (multiply_eq a b) by done. split_and!; [done| | | |].
  - rewrite multiply_eq by done. do 2 f_equal. lia.
  - rewrite multiply_eq by done. change PA_VOLUME_NORM with 65536. rewrite Z.div_add_l by lia.
    change (32768 / 65536) with 0. rewrite Z.add_0_r. by apply clamp_small.
  - intros c Hc Hac. rewrite multiply_eq by done. unfold PA_CLAMP_VOLUME, volume_ok in *.
    assert ((a * b + 32768) / 65536 <= (c * b + 32768) / 65536) by (apply Z.div_le_mono; nia).
    destruct (Z.ltb_spec PA_VOLUME_MAX ((a * b + 32768) / 65536)), (Z.ltb_spec PA_VOLUME_MAX ((c * b + 32768) / 65536)); lia.
  - intros Hge Hclip. assert (PA_CLAMP_VOLUME ((a * b + 32768) / 65536) = (a * b + 32768) / 65536) as E.
    { unfold PA_CLAMP_VOLUME in *. destruct (Z.ltb_spec PA_VOLUME_MAX ((a * b + 32768) / 65536)); lia. }
    rewrite E in *. rewrite divide_eq by (done || unfold PA_VOLUME_NORM in Hge; lia).
    rewrite rounded_quotient; [by apply clamp_small|apply Ha|done].
Qed.

(** Scaling a volume makes its loudest channel as loud as asked for and keeps
    the others in proportion, rounded down; increasing and decreasing move the
    loudest channel by the step, up to the limit and down to silence. *)
Theorem cvolume_scales v max inc limit : cvolume_ok v -> volume_ok max -> volume_ok inc -> volume_ok limit ->
  (exists v', pa_cvolume_scale v max = Ok (Some v') /\ cvolume_ok v' /\ channels v' = channels v /\
     pa_cvolume_max v' = max /\
     forall i x, v !! i = Some x -> exists y, v' !! i = Some y /\
       if pa_cvolume_max v =? 0 then y = max else y = x * max / pa_cvolume_max v) /\
  (inc <= limit -> exists v', pa_cvolume_inc_clamp v inc limit = Ok (Some v') /\ cvolume_ok v' /\
     pa_cvolume_max v' = Z.min limit (pa_cvolume_max v + inc)) /\
  (exists v', pa_cvolume_dec v inc = Ok (Some v') /\ cvolume_ok v' /\
     pa_cvolume_max v' = Z.max 0 (pa_cvolume_max v - inc)).
Proof.
  intros Hv Hm Hi Hl. destruct (max_spec v Hv) as (_ & _ & Ht). split_and!; [by apply scale_spec| |].
  - intros Hle. unfold pa_cvolume_inc_clamp. rewrite cvolume_valid, volume_is_valid by done. simpl.
    unfold volume_ok in *. rewrite max_value in *. rewrite u32_small by lia.
    destruct (Z.leb_spec (limit - inc) (pa_cvolume_max v)); rewrite ?(u32_small (_ + _)) by lia.
    + destruct (scale_spec v limit Hv) as (v' & E & Hok & _ & Em & _); [unfold volume_ok; rewrite max_value; lia|].
      exists v'. split_and!; [done..|]. lia.
    + destruct (scale_spec v (pa_cvolume_max v + inc) Hv) as (v' & E & Hok & _ & Em & _);
        [unfold volume_ok; rewrite max_value; lia|]. exists v'. split_and!; [done..|]. lia.
  - unfold pa_cvolume_dec. rewrite cvolume_valid, volume_is_valid by done. simpl.
    unfold volume_ok, PA_VOLUME_MUTED in *. rewrite max_value in *. rewrite (u32_small (0 + inc)) by lia.
    destruct (Z.leb_spec (pa_cvolume_max v) (0 + inc)); rewrite ?(u32_small (_ - _)) by lia.
    + destruct (scale_spec v 0 Hv) as (v' & E & Hok & _ & Em & _); [unfold volume_ok; rewrite max_value; lia|].
      exists v'. split_and!; [done..|]. lia.
    + destruct (scale_spec v (pa_cvolume_max v - inc) Hv) as (v' & E & Hok & _ & Em & _);
        [unfold volume_ok; rewrite max_value; lia|]. exists v'. split_and!; [done..|]. lia.
Qed.

(** A step larger than the limit wraps the subtraction around: the loudest
    channel ends up above the limit. *)
Theorem inc_clamp_overshoots v inc limit : cvolume_ok v -> volume_ok inc -> volume_ok limit ->
  limit < inc -> pa_cvolume_max v + inc <= PA_VOLUME_MAX ->
  exists v', pa_cvolume_inc_clamp v inc limit = Ok (Some v') /\ pa_cvolume_max v' = pa_cvolume_max v + inc /\
    limit < pa_cvolume_max v'.
Proof.
  intros Hv Hi Hl Hlt Hs. destruct (max_spec v Hv) as (_ & _ & Ht).
  unfold pa_cvolume_inc_clamp. rewrite cvolume_valid, volume_is_valid by done. simpl.
  unfold volume_ok in *. rewrite max_value in *.
  replace (u32 (limit - inc)) with (limit - inc + 4294967296)
    by (unfold u32; apply (Z.mod_unique_pos _ _ (-1)); lia).
  rewrite (proj2 (Z.leb_gt _ _)) by lia. rewrite u32_small by lia.
  destruct (scale_spec v (pa_cvolume_max v + inc) Hv) as (v' & E & _ & _ & Em & _);
    [unfold volume_ok; rewrite max_value; lia|]. exists v'. split_and!; [done..|]. lia.
Qed.

(** Remapping volumes below 2^27 to another channel map gives every channel of
    the new map a mean of old volumes, and so none outside their range: over
    the channels with its position, failing that over those on its side,
    failing that over all. *)
Theorem remap_is_mean v from to lo hi : cvolume_ok v -> pa_channel_map_valid from = true ->
  pa_channel_map_valid to = true -> length from = length v ->
  Forall (fun x => lo <= x <= hi) v -> hi < 2 ^ 27 ->
  exists v', pa_cvolume_remap false v from to = Some v' /\ channels v' = channels to /\
    Forall (fun x => lo <= x <= hi) v' /\
    (pa_channel_map_equal false from to = false -> forall i q, to !! i = Some q ->
      exists l, v' !! i = Some (total l / Z.of_nat (length l)) /\
        (l = gathered (fun p => p =? q) v from \/ gathered (fun p => p =? q) v from = [] /\
          (l = gathered (same_side q) v from \/ gathered (same_side q) v from = [] /\ l = v))).
Proof.
  intros Hv Hf Ht El Hr Hhi. assert (Forall (fun x => x < 2 ^ 27) v) as Hb.
  { eapply Forall_impl; [exact Hr|]. simpl. lia. }
  unfold pa_cvolume_remap. rewrite Ht, compatible_spec by done. simpl.
  destruct (pa_channel_map_equal false from to) eqn:Ee.
  - exists v. split_and!; try done. unfold pa_channel_map_equal in Ee. rewrite Hf, Ht in Ee. simpl in Ee.
    destruct (Z.eqb_spec (channels from) (channels to)) as [<-|]; [|done]. unfold channels. by rewrite El.
  - eexists. split; [done|]. split; [unfold channels; by rewrite length_fmap|]. split.
    + apply Forall_fmap, Forall_forall. intros q _. simpl.
      destruct (remap_one_mean v from q Hv Hb) as (l & -> & Hl & Hcase). apply mean_bounds; [|done].
      destruct Hcase as [->|[_ [->|[_ ->]]]]; [by apply gathered_values..|done].
    + intros _ i q Hi. destruct (remap_one_mean v from q Hv Hb) as (l & E & _ & Hcase). exists l.
      by rewrite list_lookup_fmap, Hi, <- E.
Qed.

(** With large volumes the 32-bit sum wraps around: three left channels at the
    highest volume become a third of it. *)
Theorem remap_overflows :
  let loud := [PA_VOLUME_MAX; PA_VOLUME_MAX; PA_VOLUME_MAX] in
  let from := [PA_CHANNEL_POSITION_FRONT_LEFT; PA_CHANNEL_POSITION_REAR_LEFT; PA_CHANNEL_POSITION_SIDE_LEFT] in
  pa_cvolume_remap false loud from [PA_CHANNEL_POSITION_FRONT_LEFT_OF_CENTER] = Some [715827881].
Proof. by vm_compute. Qed.

(** Setting the volume of a position that a map has is what is then found
    there, and changes no other position; setting one it does not have fails. *)
Theorem set_get_position cv map t v : cvolume_ok cv -> pa_channel_map_valid map = true -> length map = length cv ->
  t < PA_CHANNEL_POSITION_MAX -> volume_ok v ->
  match pa_cvolume_set_position cv map t v with
  | Some cv' => t ∈ map /\ cvolume_ok cv' /\ pa_cvolume_get_position cv' map t = v /\
      forall i p, map !! i = Some p -> p <> t -> cv' !! i = cv !! i
  | None => t ∉ map
  end.
Proof.
  intros Hcv Hm El Ht Hv. unfold pa_cvolume_set_position.
  rewrite compatible_spec, volume_is_valid, (proj2 (Z.ltb_lt _ _)) by done. simpl.
  destruct (existsb _ map) eqn:Ex.
  - apply existsb_exists in Ex as (p & Hp & E). apply Z.eqb_eq in E as ->. apply list_elem_of_In in Hp.
    rewrite set_position_values. set (cv' := zip_with _ map cv).
    assert (length cv' = length cv) as El' by (unfold cv'; rewrite length_zip_with; lia).
    assert (cvolume_ok cv') as Hcv'.
    { destruct Hcv as [Hc Hvs]. split; [unfold channels in *; by rewrite El'|].
      apply Forall_lookup. intros i x Hi. apply lookup_zip_with_Some in Hi as (p & y & -> & _ & Hy).
      case_match; [done|]. by apply (Forall_lookup_1 _ _ _ _ Hvs Hy). }
    split_and!; [done..| |].
    + unfold pa_cvolume_get_position. rewrite compatible_spec, (proj2 (Z.ltb_lt _ _)) by (done || congruence). simpl.
      assert (forall x, (t, x) ∈ combine map cv' <-> x = v) as Hat by (intros x; by apply position_values).
      destruct (get_position_fold (combine map cv') t PA_VOLUME_MUTED ltac:(done)) as (H1 & H2 & H3).
      set (r := fold_left _ _ _) in *. pose proof (H2 t v (proj2 (Hat v) eq_refl) eq_refl).
      destruct H3 as [E|(x & Hx & E)]; [|apply Hat in Hx; lia]. unfold volume_ok, PA_VOLUME_MUTED in *. lia.
    + intros i p Hi Hne. unfold cv'. rewrite lookup_zip_with, Hi. simpl.
      rewrite (proj2 (Z.eqb_neq _ _)) by done. by destruct (cv !! i).
  - intros Hin. apply list_elem_of_In in Hin. apply not_true_iff_false in Ex. apply Ex, existsb_exists.
    exists t. by rewrite Z.eqb_refl.
Qed.

(** ** Concrete volumes *)

Module VolumeExample.
(** Left at full scale, right at half of it. *)
Definition v0 : pa_cvolume := [65536; 32768].

Lemma v0_ok : cvolume_ok v0.
Proof. apply cvolume_valid_ok; [|reflexivity]. unfold v0. repeat constructor; lia. Qed.
End VolumeExample.

Lemma volume_multiply_divide_witness : pa_sw_volume_divide (pa_sw_volume_multiply 100 70000) 70000 = 100.
Proof.
  destruct (volume_multiply_divide 100 70000) as (_ & _ & _ & _ & H); [split; vm_compute; discriminate..|].
  apply H; [vm_compute; discriminate|vm_compute; reflexivity].
Defined.

Lemma cvolume_scales_witness : exists v', pa_cvolume_inc_clamp VolumeExample.v0 1000 66000 = Ok (Some v') /\
  pa_cvolume_max v' = 66000.
Proof.
  destruct (cvolume_scales VolumeExample.v0 0 1000 66000) as (_ & H & _);
    [exact VolumeExample.v0_ok|split; vm_compute; discriminate..|].
  destruct H as (v' & E & _ & Em); [vm_compute; discriminate|]. exists v'. split; [exact E|].
  rewrite Em. vm_compute. reflexivity.
Defined.

Lemma inc_clamp_overshoots_witness : exists v', pa_cvolume_inc_clamp VolumeExample.v0 1000 500 = Ok (Some v') /\
  500 < pa_cvolume_max v'.
Proof.
  destruct (inc_clamp_overshoots VolumeExample.v0 1000 500) as (v' & E & _ & H);
    [exact VolumeExample.v0_ok|split; vm_compute; discriminate..|reflexivity|vm_compute; discriminate|].
  exists v'. split; [exact E|exact H].
Defined.

Lemma remap_is_mean_witness : exists v', pa_cvolume_remap false VolumeExample.v0 [1; 2] [0] = Some v' /\
  Forall (fun x => 32768 <= x <= 65536) v'.
Proof.
  destruct (remap_is_mean VolumeExample.v0 [1; 2] [0] 32768 65536) as (v' & E & _ & H & _);
    [exact VolumeExample.v0_ok|reflexivity..| |reflexivity|].
  - unfold VolumeExample.v0. repeat constructor; vm_compute; discriminate.
  - exists v'. split; [exact E|exact H].
Defined.

Lemma set_get_position_witness :
  match pa_cvolume_set_position VolumeExample.v0 [1; 2] 2 7 with
  | Some cv' => pa_cvolume_get_position cv' [1; 2] 2 = 7
  | None => False
  end.
Proof.
  pose proof (set_get_position VolumeExample.v0 [1; 2] 2 7 VolumeExample.v0_ok) as H.
  destruct (pa_cvolume_set_position VolumeExample.v0 [1; 2] 2 7) as [cv'|] eqn:E; [|vm_compute in E; discriminate].
  apply H; [reflexivity..|split; vm_compute; discriminate].
Defined.
