(* ===== verification/Mix.v ===== *)
(** * Mix: adding and scaling samples

    Models the routines of [src/pulsecore/mix.c] and [src/pulsecore/svolume_c.c]
    that mix streams and apply volumes, for the integer formats, on a machine
    that stores numbers with the lowest byte first.  A pointer to samples is the
    list of the bytes from there on.  Arithmetic that C leaves undefined when it
    overflows is checked ([in32], [in64]).

    The factors, 16.16 fixed-point numbers that the code computes from volumes in
    floating point, are given; so the floating-point formats are left out, and the
    two logarithmic ones, which go through the tables of g711.c. *)
From stdpp Require Import base tactics numbers list.
From S2P Require Import Prelude Sample.

(** ** Machine arithmetic *)

Definition s16 (x : Z) : Z := let y := u16 x in if y <? 2 ^ 15 then y else y - 2 ^ 16.

(** The value of a signed expression, which has to fit its type. *)
Definition in32 (x : Z) : outcome Z := if (- 2 ^ 31 <=? x) && (x <? 2 ^ 31) then Ok x else UB.
Definition in64 (x : Z) : outcome Z := if (- 2 ^ 63 <=? x) && (x <? 2 ^ 63) then Ok x else UB.

Definition PA_CLAMP_UNLIKELY (x low high : Z) : Z := if high <? x then high else if x <? low then low else x.

(** [pa_mult_s16_volume] on a machine with fast 64-bit arithmetic, and without. *)
Definition pa_mult_s16_volume (v cv : Z) : Z := s32 (Z.shiftr (v * cv) 16).
Definition pa_mult_s16_volume_32 (v cv : Z) : outcome Z :=
  let hi := Z.shiftr cv 16 in
  let lo := Z.land cv 65535 in
  a ← in32 (v * lo);
  b ← in32 (v * hi);
  in32 (Z.shiftr a 16 + b).

(** ** Bytes *)

Definition PA_INT16_SWAP (x : Z) : Z := s16 (le_combine (reverse (le_split 2 x))).
Definition PA_UINT32_SWAP (x : Z) : Z := u32 (le_combine (reverse (le_split 4 x))).
Definition PA_INT32_SWAP (x : Z) : Z := s32 (le_combine (reverse (le_split 4 x))).

(** The value of the [n]-th byte of a pointer's target. *)
Definition byte (p : list Z) (n : nat) : Z := default 0 (p !! n).

Definition PA_READ24BE (p : list Z) : Z := Z.lor (Z.lor (Z.shiftl (byte p 0) 16) (Z.shiftl (byte p 1) 8)) (byte p 2).
Definition PA_READ24LE (p : list Z) : Z := Z.lor (Z.lor (Z.shiftl (byte p 2) 16) (Z.shiftl (byte p 1) 8)) (byte p 0).
Definition PA_WRITE24BE (u : Z) : list Z := [u8 (Z.shiftr u 16); u8 (Z.shiftr u 8); u8 u].
Definition PA_WRITE24LE (u : Z) : list Z := [u8 u; u8 (Z.shiftr u 8); u8 (Z.shiftr u 16)].

(** The bytes of a sample a pointer points to. *)
Definition take_sample (size : nat) (p : list Z) : outcome (list Z) :=
  if (size <=? length p)%nat then Ok (take size p) else UB.

(** ** Mixing *)

(** A stream to be mixed: [ptr] and [linear] of [pa_mix_info]. *)
Record mix_stream := mk_stream { ms_ptr : list Z; ms_linear : list Z }.

Definition advance (n : nat) (m : mix_stream) : mix_stream := mk_stream (drop n (ms_ptr m)) (ms_linear m).
Definition next_channel (channels channel : nat) : nat := if (channels <=? S channel)%nat then 0%nat else S channel.

Section mixing.
(** Of a format: the size of a sample, what is added to the sum for a sample
    with a factor, and the bytes a sum is stored as. *)
Context (size : nat) (add : Z -> Z -> list Z -> outcome Z) (put : Z -> list Z).

(** [for (i = 0; i < nstreams; i++)] *)
Fixpoint add_streams (channel : nat) (streams : list mix_stream) (sum : Z) : outcome (Z * list mix_stream) :=
  match streams with
  | [] => Ok (sum, [])
  | m :: streams =>
      cv ← deref (ms_linear m !! channel);
      s ← take_sample size (ms_ptr m);
      sum ← add sum cv s;
      '(sum, streams) ← add_streams channel streams sum;
      Ok (sum, advance size m :: streams)
  end.

(** [n] rounds of [for (; length > 0; length--)] *)
Fixpoint mix_samples (n : nat) (channels channel : nat) (streams : list mix_stream) : outcome (list Z) :=
  match n with
  | O => Ok []
  | S n =>
      '(sum, streams) ← add_streams channel streams 0;
      data ← mix_samples n channels (next_channel channels channel) streams;
      Ok (put sum ++ data)
  end.
End mixing.

(** *** 16 bits *)

Definition get_s16ne (s : list Z) : Z := s16 (le_combine s).
Definition get_s16re (s : list Z) : Z := PA_INT16_SWAP (s16 (le_combine s)).
Definition put_s16ne (sum : Z) : list Z := le_split 2 (PA_CLAMP_UNLIKELY sum (-32768) 32767).
Definition put_s16re (sum : Z) : list Z := le_split 2 (PA_INT16_SWAP (s16 (PA_CLAMP_UNLIKELY sum (-32768) 32767))).

Definition add_s16 (get : list Z -> Z) (sum cv : Z) (s : list Z) : outcome Z :=
  if 0 <? cv then in32 (sum + pa_mult_s16_volume (get s) cv) else Ok sum.

(** The two calls of [pa_mult_s16_volume] that the loops for two streams make
    for a sample, and their sum. *)
Definition add2_s16ne (p0 p1 : list Z) (cv0 cv1 : Z) : outcome Z :=
  s0 ← take_sample 2 p0;
  s1 ← take_sample 2 p1;
  in32 (pa_mult_s16_volume (get_s16ne s0) cv0 + pa_mult_s16_volume (get_s16ne s1) cv1).

Fixpoint mix2_ch1_loop (n : nat) (p0 p1 : list Z) (cv0 cv1 : Z) : outcome (list Z) :=
  match n with
  | O => Ok []
  | S n =>
      sum ← add2_s16ne p0 p1 cv0 cv1;
      data ← mix2_ch1_loop n (drop 2 p0) (drop 2 p1) cv0 cv1;
      Ok (put_s16ne sum ++ data)
  end.

Definition pa_mix2_ch1_s16ne (streams : list mix_stream) (length : Z) : outcome (list Z) :=
  m0 ← deref (streams !! 0%nat);
  m1 ← deref (streams !! 1%nat);
  cv0 ← deref (ms_linear m0 !! 0%nat);
  cv1 ← deref (ms_linear m1 !! 0%nat);
  mix2_ch1_loop (Z.to_nat (length / 2)) (ms_ptr m0) (ms_ptr m1) cv0 cv1.

Fixpoint mix2_ch2_loop (n : nat) (p0 p1 l0 l1 : list Z) : outcome (list Z) :=
  match n with
  | O => Ok []
  | S n =>
      cv00 ← deref (l0 !! 0%nat);
      cv10 ← deref (l1 !! 0%nat);
      sum0 ← add2_s16ne p0 p1 cv00 cv10;
      cv01 ← deref (l0 !! 1%nat);
      cv11 ← deref (l1 !! 1%nat);
      sum1 ← add2_s16ne (drop 2 p0) (drop 2 p1) cv01 cv11;
      data ← mix2_ch2_loop n (drop 2 (drop 2 p0)) (drop 2 (drop 2 p1)) l0 l1;
      Ok (put_s16ne sum0 ++ put_s16ne sum1 ++ data)
  end.

Definition pa_mix2_ch2_s16ne (streams : list mix_stream) (length : Z) : outcome (list Z) :=
  m0 ← deref (streams !! 0%nat);
  m1 ← deref (streams !! 1%nat);
  mix2_ch2_loop (Z.to_nat (length / 4)) (ms_ptr m0) (ms_ptr m1) (ms_linear m0) (ms_linear m1).

Fixpoint mix2_loop (n : nat) (channels channel : nat) (p0 p1 l0 l1 : list Z) : outcome (list Z) :=
  match n with
  | O => Ok []
  | S n =>
      cv0 ← deref (l0 !! channel);
      cv1 ← deref (l1 !! channel);
      sum ← add2_s16ne p0 p1 cv0 cv1;
      data ← mix2_loop n channels (next_channel channels channel) (drop 2 p0) (drop 2 p1) l0 l1;
      Ok (put_s16ne sum ++ data)
  end.

Definition pa_mix2_s16ne (streams : list mix_stream) (channels : nat) (length : Z) : outcome (list Z) :=
  m0 ← deref (streams !! 0%nat);
  m1 ← deref (streams !! 1%nat);
  mix2_loop (Z.to_nat (length / 2)) channels 0 (ms_ptr m0) (ms_ptr m1) (ms_linear m0) (ms_linear m1).

(** The inner loop of [pa_mix_ch2_s16ne]. *)
Fixpoint add_ch2 (streams : list mix_stream) (sum0 sum1 : Z) : outcome (Z * Z * list mix_stream) :=
  match streams with
  | [] => Ok (sum0, sum1, [])
  | m :: streams =>
      cv0 ← deref (ms_linear m !! 0%nat);
      cv1 ← deref (ms_linear m !! 1%nat);
      s0 ← take_sample 2 (ms_ptr m);
      sum0 ← in32 (sum0 + pa_mult_s16_volume (get_s16ne s0) cv0);
      let m := advance 2 m in
      s1 ← take_sample 2 (ms_ptr m);
      sum1 ← in32 (sum1 + pa_mult_s16_volume (get_s16ne s1) cv1);
      '(sum0, sum1, streams) ← add_ch2 streams sum0 sum1;
      Ok (sum0, sum1, advance 2 m :: streams)
  end.

Fixpoint mix_ch2_loop (n : nat) (streams : list mix_stream) : outcome (list Z) :=
  match n with
  | O => Ok []
  | S n =>
      '(sum0, sum1, streams) ← add_ch2 streams 0 0;
      data ← mix_ch2_loop n streams;
      Ok (put_s16ne sum0 ++ put_s16ne sum1 ++ data)
  end.

Definition pa_mix_ch2_s16ne (streams : list mix_stream) (length : Z) : outcome (list Z) :=
  mix_ch2_loop (Z.to_nat (length / 4)) streams.

Definition pa_mix_generic_s16ne (streams : list mix_stream) (channels : nat) (length : Z) : outcome (list Z) :=
  mix_samples 2 (add_s16 get_s16ne) put_s16ne (Z.to_nat (length / 2)) channels 0 streams.

Definition pa_mix_s16ne_c (streams : list mix_stream) (channels : nat) (length : Z) : outcome (list Z) :=
  let nstreams := List.length streams in
  if (nstreams =? 2)%nat && (channels =? 1)%nat then pa_mix2_ch1_s16ne streams length
  else if (nstreams =? 2)%nat && (channels =? 2)%nat then pa_mix2_ch2_s16ne streams length
  else if (nstreams =? 2)%nat then pa_mix2_s16ne streams channels length
  else if (channels =? 2)%nat then pa_mix_ch2_s16ne streams length
  else pa_mix_generic_s16ne streams channels length.

Definition pa_mix_s16re_c (streams : list mix_stream) (channels : nat) (length : Z) : outcome (list Z) :=
  mix_samples 2 (add_s16 get_s16re) put_s16re (Z.to_nat (length / 2)) channels 0 streams.

(** *** 32 and 24 bits *)

(** [v = (v * cv) >> 16; sum += v] in 64 bits *)
Definition add_wide (get : list Z -> Z) (sum cv : Z) (s : list Z) : outcome Z :=
  if 0 <? cv then p ← in64 (get s * cv); in64 (sum + Z.shiftr p 16) else Ok sum.

Definition clamp32 (sum : Z) : Z := PA_CLAMP_UNLIKELY sum (-2147483648) 2147483647.

Definition get_s32ne (s : list Z) : Z := s32 (le_combine s).
Definition get_s32re (s : list Z) : Z := PA_INT32_SWAP (s32 (le_combine s)).
Definition put_s32ne (sum : Z) : list Z := le_split 4 (s32 (clamp32 sum)).
Definition put_s32re (sum : Z) : list Z := le_split 4 (PA_INT32_SWAP (s32 (clamp32 sum))).
Definition get_s24ne (s : list Z) : Z := s32 (u32 (Z.shiftl (PA_READ24LE s) 8)).
Definition get_s24re (s : list Z) : Z := s32 (u32 (Z.shiftl (PA_READ24BE s) 8)).
Definition put_s24ne (sum : Z) : list Z := PA_WRITE24LE (Z.shiftr (u32 (clamp32 sum)) 8).
Definition put_s24re (sum : Z) : list Z := PA_WRITE24BE (Z.shiftr (u32 (clamp32 sum)) 8).
Definition get_s24_32ne (s : list Z) : Z := s32 (u32 (Z.shiftl (u32 (le_combine s)) 8)).
Definition get_s24_32re (s : list Z) : Z := s32 (u32 (Z.shiftl (PA_UINT32_SWAP (u32 (le_combine s))) 8)).
Definition put_s24_32ne (sum : Z) : list Z := le_split 4 (Z.shiftr (u32 (s32 (clamp32 sum))) 8).
Definition put_s24_32re (sum : Z) : list Z := le_split 4 (PA_INT32_SWAP (Z.shiftr (u32 (s32 (clamp32 sum))) 8)).

Definition pa_mix_s32ne_c (streams : list mix_stream) (channels : nat) (length : Z) : outcome (list Z) :=
  mix_samples 4 (add_wide get_s32ne) put_s32ne (Z.to_nat (length / 4)) channels 0 streams.
Definition pa_mix_s32re_c (streams : list mix_stream) (channels : nat) (length : Z) : outcome (list Z) :=
  mix_samples 4 (add_wide get_s32re) put_s32re (Z.to_nat (length / 4)) channels 0 streams.

(** [for (; length > 0; length -= 3)]: the counter wraps, and the loop runs out
    of the samples, when the length is no multiple. *)
Definition samples24 (length : Z) : outcome nat := if length mod 3 =? 0 then Ok (Z.to_nat (length / 3)) else UB.

Definition pa_mix_s24ne_c (streams : list mix_stream) (channels : nat) (length : Z) : outcome (list Z) :=
  n ← samples24 length; mix_samples 3 (add_wide get_s24ne) put_s24ne n channels 0 streams.
Definition pa_mix_s24re_c (streams : list mix_stream) (channels : nat) (length : Z) : outcome (list Z) :=
  n ← samples24 length; mix_samples 3 (add_wide get_s24re) put_s24re n channels 0 streams.
Definition pa_mix_s24_32ne_c (streams : list mix_stream) (channels : nat) (length : Z) : outcome (list Z) :=
  mix_samples 4 (add_wide get_s24_32ne) put_s24_32ne (Z.to_nat (length / 4)) channels 0 streams.
Definition pa_mix_s24_32re_c (streams : list mix_stream) (channels : nat) (length : Z) : outcome (list Z) :=
  mix_samples 4 (add_wide get_s24_32re) put_s24_32re (Z.to_nat (length / 4)) channels 0 streams.

(** *** 8 bits *)

Definition get_u8 (s : list Z) : Z := byte s 0 - 128.
Definition put_u8 (sum : Z) : list Z := [u8 (PA_CLAMP_UNLIKELY sum (-128) 127 + 128)].
Definition add_u8 (sum cv : Z) (s : list Z) : outcome Z :=
  if 0 <? cv then p ← in32 (get_u8 s * cv); in32 (sum + Z.shiftr p 16) else Ok sum.

Definition pa_mix_u8_c (streams : list mix_stream) (channels : nat) (length : Z) : outcome (list Z) :=
  mix_samples 1 add_u8 put_u8 (Z.to_nat (length / 1)) channels 0 streams.

(** The routines by format, those of the formats modelled here.  For 16 bits
    [pa_mix_func_init] enters the general one when the processor is to be treated
    as an unknown one. *)
Definition pa_mix_func_init (force_generic_code : bool) : list mix_stream -> nat -> Z -> outcome (list Z) :=
  if force_generic_code then pa_mix_generic_s16ne else pa_mix_s16ne_c.

Definition do_mix_table (force_generic_code : bool) (f : Z) : option (list mix_stream -> nat -> Z -> outcome (list Z)) :=
  if f =? PA_SAMPLE_U8 then Some pa_mix_u8_c
  else if f =? PA_SAMPLE_S16LE then Some (pa_mix_func_init force_generic_code)
  else if f =? PA_SAMPLE_S16BE then Some pa_mix_s16re_c
  else if f =? PA_SAMPLE_S32LE then Some pa_mix_s32ne_c
  else if f =? PA_SAMPLE_S32BE then Some pa_mix_s32re_c
  else if f =? PA_SAMPLE_S24LE then Some pa_mix_s24ne_c
  else if f =? PA_SAMPLE_S24BE then Some pa_mix_s24re_c
  else if f =? PA_SAMPLE_S24_32LE then Some pa_mix_s24_32ne_c
  else if f =? PA_SAMPLE_S24_32BE then Some pa_mix_s24_32re_c
  else None.

(** ** Volumes *)

Section scaling.
(** What becomes of a sample with a factor. *)
Context (size : nat) (scale : list Z -> Z -> outcome (list Z)).

Fixpoint volume_samples (n : nat) (volumes : list Z) (channels channel : nat) (samples : list Z) : outcome (list Z) :=
  match n with
  | O => Ok []
  | S n =>
      s ← take_sample size samples;
      v ← deref (volumes !! channel);
      s ← scale s v;
      rest ← volume_samples n volumes channels (next_channel channels channel) (drop size samples);
      Ok (s ++ rest)
  end.
End scaling.

Definition scale_s16 (get : list Z -> Z) (put : Z -> list Z) (s : list Z) (v : Z) : outcome (list Z) :=
  Ok (put (pa_mult_s16_volume (get s) v)).
Definition scale_wide (get : list Z -> Z) (put : Z -> list Z) (s : list Z) (v : Z) : outcome (list Z) :=
  t ← in64 (get s * v); Ok (put (Z.shiftr t 16)).

Definition pa_volume_u8_c (samples volumes : list Z) (channels : nat) (length : Z) : outcome (list Z) :=
  volume_samples 1 (scale_s16 get_u8 put_u8) (Z.to_nat length) volumes channels 0 samples.
Definition pa_volume_s16ne_c (samples volumes : list Z) (channels : nat) (length : Z) : outcome (list Z) :=
  volume_samples 2 (scale_s16 get_s16ne put_s16ne) (Z.to_nat (length / 2)) volumes channels 0 samples.
Definition pa_volume_s16re_c (samples volumes : list Z) (channels : nat) (length : Z) : outcome (list Z) :=
  volume_samples 2 (scale_s16 get_s16re put_s16re) (Z.to_nat (length / 2)) volumes channels 0 samples.
Definition pa_volume_s32ne_c (samples volumes : list Z) (channels : nat) (length : Z) : outcome (list Z) :=
  volume_samples 4 (scale_wide get_s32ne put_s32ne) (Z.to_nat (length / 4)) volumes channels 0 samples.
Definition pa_volume_s32re_c (samples volumes : list Z) (channels : nat) (length : Z) : outcome (list Z) :=
  volume_samples 4 (scale_wide get_s32re put_s32re) (Z.to_nat (length / 4)) volumes channels 0 samples.
(** [for (channel = 0; samples < e; samples += 3)] *)
Definition pa_volume_s24ne_c (samples volumes : list Z) (channels : nat) (length : Z) : outcome (list Z) :=
  volume_samples 3 (scale_wide get_s24ne put_s24ne) (Z.to_nat ((length + 2) / 3)) volumes channels 0 samples.
Definition pa_volume_s24re_c (samples volumes : list Z) (channels : nat) (length : Z) : outcome (list Z) :=
  volume_samples 3 (scale_wide get_s24re put_s24re) (Z.to_nat ((length + 2) / 3)) volumes channels 0 samples.
Definition pa_volume_s24_32ne_c (samples volumes : list Z) (channels : nat) (length : Z) : outcome (list Z) :=
  volume_samples 4 (scale_wide get_s24_32ne put_s24_32ne) (Z.to_nat (length / 4)) volumes channels 0 samples.
(** Here the byte-swapped result is unsigned. *)
Definition put_u24_32re (sum : Z) : list Z := le_split 4 (PA_UINT32_SWAP (Z.shiftr (u32 (s32 (clamp32 sum))) 8)).
Definition pa_volume_s24_32re_c (samples volumes : list Z) (channels : nat) (length : Z) : outcome (list Z) :=
  volume_samples 4 (scale_wide get_s24_32re put_u24_32re) (Z.to_nat (length / 4)) volumes channels 0 samples.

Definition do_volume_table (f : Z) : option (list Z -> list Z -> nat -> Z -> outcome (list Z)) :=
  if f =? PA_SAMPLE_U8 then Some pa_volume_u8_c
  else if f =? PA_SAMPLE_S16LE then Some pa_volume_s16ne_c
  else if f =? PA_SAMPLE_S16BE then Some pa_volume_s16re_c
  else if f =? PA_SAMPLE_S32LE then Some pa_volume_s32ne_c
  else if f =? PA_SAMPLE_S32BE then Some pa_volume_s32re_c
  else if f =? PA_SAMPLE_S24LE then Some pa_volume_s24ne_c
  else if f =? PA_SAMPLE_S24BE then Some pa_volume_s24re_c
  else if f =? PA_SAMPLE_S24_32LE then Some pa_volume_s24_32ne_c
  else if f =? PA_SAMPLE_S24_32BE then Some pa_volume_s24_32re_c
  else None.
