(* ===== verification/MixProps.v ===== *)
(** * MixProps: mixing and scaling are exact up to saturation

    What the routines of [Mix] compute, against a definition that takes each
    sample on its own: the sum of the products, rounded down, cut to the range of
    the format. *)
From stdpp Require Import base tactics numbers list.
From S2P Require Import Prelude Sample Mix.

(** ** Multiplication *)

Definition is_s16 (v : Z) : Prop := - 2 ^ 15 <= v < 2 ^ 15.
Definition is_s32 (v : Z) : Prop := - 2 ^ 31 <= v < 2 ^ 31.

Lemma shiftr16 x : Z.shiftr x 16 = x / 65536.
Proof. by rewrite Z.shiftr_div_pow2. Qed.

Lemma div_bound x m c : 0 < c -> - (m * c) <= x <= m * c -> - m <= x / c <= m.
Proof.
  intros Hc Hx. split.
  - apply Z.div_le_lower_bound; lia.
  - apply Z.div_le_upper_bound; lia.
Qed.

Lemma mult_exact v cv : is_s16 v -> is_s32 cv -> pa_mult_s16_volume v cv = v * cv / 65536 /\ is_s32 (v * cv / 65536).
Proof.
  unfold is_s16, is_s32. intros Hv Hc. unfold pa_mult_s16_volume. rewrite shiftr16.
  assert (- 2 ^ 30 <= v * cv / 65536 <= 2 ^ 30) as Hb by (apply div_bound; nia).
  rewrite s32_small by lia. lia.
Qed.

Lemma in32_ok x : is_s32 x -> in32 x = Ok x.
Proof. unfold is_s32, in32. intros. by rewrite (proj2 (andb_true_iff _ _)) by blia. Qed.
Lemma in64_ok x : - 2 ^ 63 <= x < 2 ^ 63 -> in64 x = Ok x.
Proof. unfold in64. intros. by rewrite (proj2 (andb_true_iff _ _)) by blia. Qed.

(** The routine for machines without fast 64-bit arithmetic never overflows, and
    computes the same. *)
Lemma mult_halves v cv : is_s16 v -> is_s32 cv -> pa_mult_s16_volume_32 v cv = Ok (pa_mult_s16_volume v cv).
Proof.
  intros Hv Hc. destruct (mult_exact v cv Hv Hc) as [-> Hr]. unfold is_s16, is_s32 in *. unfold pa_mult_s16_volume_32.
  rewrite shiftr16. change 65535 with (Z.ones 16). rewrite Z.land_ones by lia. change (2 ^ 16) with 65536.
  pose proof (Z.div_mod cv 65536 ltac:(lia)) as E. pose proof (Z.mod_pos_bound cv 65536 ltac:(lia)) as Hm.
  set (hi := cv / 65536) in *. set (lo := cv mod 65536) in *.
  assert (- 2 ^ 15 <= hi < 2 ^ 15) as Hh by (unfold hi; split; [apply Z.div_le_lower_bound|apply Z.div_lt_upper_bound]; lia).
  rewrite in32_ok by (unfold is_s32; nia). simpl. rewrite in32_ok by (unfold is_s32; nia). simpl.
  rewrite shiftr16. replace (v * lo / 65536 + v * hi) with (v * cv / 65536); [by rewrite in32_ok|].
  rewrite E. replace (v * (65536 * hi + lo)) with (v * lo + v * hi * 65536) by lia. apply Z.div_add. lia.
Qed.

(** ** Formats *)

(** The number [x] of [n] bytes as a signed one. *)
Definition signed (n : nat) (x : Z) : Z := if x <? 256 ^ Z.of_nat n / 2 then x else x - 256 ^ Z.of_nat n.

(** Samples of a format: their size, the number they stand for, the bytes of a
    number, and the range of numbers. *)
Record format := mk_format { f_size : nat; f_value : list Z -> Z; f_store : Z -> list Z; f_max : Z }.

Definition fmt_u8 : format := mk_format 1 (fun s => byte s 0 - 128) (fun x => [x + 128]) 128.
Definition fmt_s16le : format := mk_format 2 (fun s => signed 2 (le_combine s)) (le_split 2) 32768.
Definition fmt_s32le : format := mk_format 4 (fun s => signed 4 (le_combine s)) (le_split 4) 2147483648.
Definition fmt_s24le : format := mk_format 3 (fun s => 256 * signed 3 (le_combine s)) (fun x => le_split 3 (x / 256)) 2147483648.
Definition fmt_s24_32le : format :=
  mk_format 4 (fun s => 256 * signed 3 (le_combine (take 3 s))) (fun x => le_split 3 (x / 256) ++ [0]) 2147483648.

(** The same with the highest byte first. *)
Definition big_endian (f : format) : format :=
  mk_format (f_size f) (fun s => f_value f (reverse s)) (fun x => reverse (f_store f x)) (f_max f).

Definition integer_format (f : Z) : option format :=
  if f =? PA_SAMPLE_U8 then Some fmt_u8
  else if f =? PA_SAMPLE_S16LE then Some fmt_s16le
  else if f =? PA_SAMPLE_S16BE then Some (big_endian fmt_s16le)
  else if f =? PA_SAMPLE_S32LE then Some fmt_s32le
  else if f =? PA_SAMPLE_S32BE then Some (big_endian fmt_s32le)
  else if f =? PA_SAMPLE_S24LE then Some fmt_s24le
  else if f =? PA_SAMPLE_S24BE then Some (big_endian fmt_s24le)
  else if f =? PA_SAMPLE_S24_32LE then Some fmt_s24_32le
  else if f =? PA_SAMPLE_S24_32BE then Some (big_endian fmt_s24_32le)
  else None.

Definition clamp (m x : Z) : Z := Z.max (- m) (Z.min (m - 1) x).

Lemma clamp_unlikely x m : 0 < m -> PA_CLAMP_UNLIKELY x (- m) (m - 1) = clamp m x.
Proof. intros. unfold PA_CLAMP_UNLIKELY, clamp. destruct (Z.ltb_spec (m - 1) x), (Z.ltb_spec x (- m)); lia. Qed.

Lemma clamp_range m x : 0 < m -> - m <= clamp m x < m.
Proof. unfold clamp. lia. Qed.

Abbreviation bytes_ok s := (Forall (fun b => 0 <= b < 256) s).

(** What the accessors of the code do. *)
Definition accessors (f : format) (get : list Z -> Z) (put : Z -> list Z) : Prop :=
  0 < f_max f /\ (forall s, length s = f_size f -> bytes_ok s -> get s = f_value f s /\ - f_max f <= f_value f s < f_max f) /\
  (forall x, put x = f_store f (clamp (f_max f) x)) /\ (forall x, length (f_store f x) = f_size f).

Lemma s16_signed x : 0 <= x < 65536 -> s16 x = signed 2 x.
Proof. intros H. unfold s16, signed. rewrite u16_small by lia. done. Qed.
Lemma s32_signed x : 0 <= x < 4294967296 -> s32 x = signed 4 x.
Proof. intros H. unfold s32, signed. rewrite u32_small by lia. done. Qed.

Lemma signed_range n x : (0 < n)%nat -> 0 <= x < 256 ^ Z.of_nat n -> - (256 ^ Z.of_nat n / 2) <= signed n x < 256 ^ Z.of_nat n / 2.
Proof.
  intros Hn Hx. unfold signed. assert (256 ^ Z.of_nat n = 2 * (256 ^ Z.of_nat n / 2)) as E.
  { destruct n; [lia|]. rewrite Nat2Z.inj_succ, Z.pow_succ_r by lia. set (p := 256 ^ Z.of_nat n).
    replace (256 * p) with (128 * p * 2) by lia. rewrite Z.div_mul by lia. lia. }
  destruct (Z.ltb_spec x (256 ^ Z.of_nat n / 2)); lia.
Qed.

Lemma signed_bytes n s : (0 < n)%nat -> length s = n -> bytes_ok s ->
  - (256 ^ Z.of_nat n / 2) <= signed n (le_combine s) < 256 ^ Z.of_nat n / 2.
Proof. intros Hn <- Hs. by apply signed_range, le_combine_bound. Qed.

Lemma signed_mod n x : 0 <= x < 256 ^ Z.of_nat n -> signed n x mod 256 ^ Z.of_nat n = x.
Proof.
  intros H. unfold signed. destruct (x <? _); [by apply Z.mod_small|].
  replace (x - 256 ^ Z.of_nat n) with (x + (-1) * 256 ^ Z.of_nat n) by lia. rewrite Z.mod_add by lia. by apply Z.mod_small.
Qed.

(** The bytes of a number do not depend on its sign, and swapping turns them
    round. *)
Lemma split_signed s : bytes_ok s -> le_split (length s) (signed (length s) (le_combine s)) = s.
Proof.
  intros Hs. rewrite <- le_split_mod, signed_mod by (by apply le_combine_bound). by apply le_split_combine.
Qed.

Lemma swap16 s : length s = 2%nat -> bytes_ok s -> PA_INT16_SWAP (signed 2 (le_combine s)) = signed 2 (le_combine (reverse s)).
Proof.
  intros El Hs. unfold PA_INT16_SWAP. pose proof (split_signed s Hs) as E. rewrite El in E. rewrite E.
  apply s16_signed. pose proof (le_combine_bound (reverse s) ltac:(by apply Forall_reverse)) as H.
  by rewrite length_reverse, El in H.
Qed.

Lemma swap32 s : length s = 4%nat -> bytes_ok s -> PA_INT32_SWAP (signed 4 (le_combine s)) = signed 4 (le_combine (reverse s)).
Proof.
  intros El Hs. unfold PA_INT32_SWAP. pose proof (split_signed s Hs) as E. rewrite El in E. rewrite E.
  apply s32_signed. pose proof (le_combine_bound (reverse s) ltac:(by apply Forall_reverse)) as H.
  by rewrite length_reverse, El in H.
Qed.

Lemma split_s16 x : le_split 2 (s16 x) = le_split 2 x.
Proof.
  rewrite <- (le_split_mod 2 (s16 x)), <- (le_split_mod 2 x). f_equal. change (256 ^ Z.of_nat 2) with 65536.
  unfold s16, u16. change (2 ^ 16) with 65536. destruct (_ <? _); [by rewrite Z.mod_mod|].
  replace (x mod 65536 - 65536) with (x mod 65536 + (-1) * 65536) by lia. by rewrite Z.mod_add, Z.mod_mod by lia.
Qed.

Lemma u32_s32 x : u32 (s32 x) = u32 x.
Proof.
  unfold s32, u32. change (2 ^ 32) with 4294967296. destruct (_ <? _); [by rewrite Z.mod_mod|].
  replace (x mod 4294967296 - 4294967296) with (x mod 4294967296 + (-1) * 4294967296) by lia. by rewrite Z.mod_add, Z.mod_mod by lia.
Qed.

Lemma split_u32 x : le_split 4 (u32 x) = le_split 4 x.
Proof. exact (le_split_mod 4 x). Qed.
Lemma split_s32 x : le_split 4 (s32 x) = le_split 4 x.
Proof. by rewrite <- split_u32, u32_s32, split_u32. Qed.

Lemma split_reverse n x : le_split n (le_combine (reverse (le_split n x))) = reverse (le_split n x).
Proof.
  pose proof (le_split_combine (reverse (le_split n x)) ltac:(apply Forall_reverse, le_split_bytes)) as E.
  by rewrite length_reverse, le_split_length in E.
Qed.

Lemma split_swap16 x : le_split 2 (PA_INT16_SWAP x) = reverse (le_split 2 x).
Proof. unfold PA_INT16_SWAP. by rewrite split_s16, split_reverse. Qed.
Lemma split_swap32 x : le_split 4 (PA_INT32_SWAP x) = reverse (le_split 4 x).
Proof. unfold PA_INT32_SWAP. by rewrite split_s32, split_reverse. Qed.
Lemma split_uswap32 x : le_split 4 (PA_UINT32_SWAP x) = reverse (le_split 4 x).
Proof. unfold PA_UINT32_SWAP. by rewrite split_u32, split_reverse. Qed.

(** *** 24 bits *)

Lemma high24 x : u32 x / 256 = (x / 256) mod 2 ^ 24.
Proof.
  unfold u32. change (2 ^ 32) with (256 * 2 ^ 24). rewrite Z.rem_mul_r by lia.
  rewrite (Z.mul_comm 256), Z.div_add by lia. rewrite (Z.div_small (x mod 256)); [lia|]. apply Z.mod_pos_bound. lia.
Qed.

Lemma shiftr8 x : Z.shiftr x 8 = x / 256.
Proof. by rewrite Z.shiftr_div_pow2. Qed.

Lemma write24 u : PA_WRITE24LE u = le_split 3 u /\ PA_WRITE24BE u = reverse (le_split 3 u).
Proof.
  unfold PA_WRITE24LE, PA_WRITE24BE, u8. rewrite shiftr8, Z.shiftr_div_pow2 by lia. change (2 ^ 16) with (256 * 256).
  rewrite <- Z.div_div by lia. done.
Qed.

Lemma read24 s : length s = 3%nat -> bytes_ok s -> PA_READ24LE s = le_combine s /\ PA_READ24BE s = le_combine (reverse s).
Proof.
  intros El Hs. destruct s as [|a [|b [|c [|]]]]; try done. rewrite !Forall_cons in Hs. destruct Hs as (Ha & Hb & Hc & _).
  unfold PA_READ24LE, PA_READ24BE, byte. simpl.
  assert (forall x y z, 0 <= x < 256 -> 0 <= y < 256 -> 0 <= z < 256 ->
    Z.lor (Z.lor (Z.shiftl x 16) (Z.shiftl y 8)) z = x * 65536 + y * 256 + z) as H.
  { intros x y z Hx Hy Hz. rewrite (Z.shiftl_mul_pow2 y 8), lor_add by lia.
    replace (x * 2 ^ 16 + y * 2 ^ 8) with (Z.shiftl (x * 2 ^ 8 + y) 8) by (rewrite Z.shiftl_mul_pow2 by lia; lia).
    rewrite lor_add by lia. lia. }
  rewrite !H by done. lia.
Qed.

Lemma signed24 x : 0 <= x < 2 ^ 24 -> s32 (u32 (Z.shiftl x 8)) = 256 * signed 3 x.
Proof.
  intros Hx. rewrite Z.shiftl_mul_pow2 by lia. rewrite u32_small, s32_signed by lia. unfold signed.
  change (256 ^ Z.of_nat 4 / 2) with 2147483648. change (256 ^ Z.of_nat 3 / 2) with 8388608.
  change (256 ^ Z.of_nat 4) with 4294967296. change (256 ^ Z.of_nat 3) with 16777216.
  destruct (Z.ltb_spec (x * 2 ^ 8) 2147483648), (Z.ltb_spec x 8388608); lia.
Qed.

Lemma split_snoc n x : le_split (S n) x = le_split n x ++ [x / 256 ^ Z.of_nat n mod 256].
Proof.
  revert x. induction n as [|n IH]; intros x; [simpl; by rewrite Z.div_1_r|].
  change (le_split (S (S n)) x) with (x mod 256 :: le_split (S n) (x / 256)). rewrite IH.
  change (le_split (S n) x) with (x mod 256 :: le_split n (x / 256)). rewrite Nat2Z.inj_succ, Z.pow_succ_r, Z.div_div by lia. done.
Qed.

Lemma split24_32 x : le_split 4 (u32 x / 256) = le_split 3 (x / 256) ++ [0].
Proof.
  rewrite high24, split_snoc. pose proof (le_split_mod 3 (x / 256)) as E. change (256 ^ Z.of_nat 3) with (2 ^ 24) in *. rewrite E.
  rewrite (Z.div_small ((x / 256) mod 2 ^ 24)); [done|]. apply Z.mod_pos_bound. lia.
Qed.

(** *** The accessors of every format *)

Lemma value24_range x : 0 <= x < 256 ^ Z.of_nat 3 -> - 2147483648 <= 256 * signed 3 x < 2147483648.
Proof. intros H. pose proof (signed_range 3 x ltac:(lia) H) as Hr. change (256 ^ Z.of_nat 3 / 2) with 8388608 in Hr. lia. Qed.

Lemma clamp32_eq x : clamp32 x = clamp 2147483648 x.
Proof. exact (clamp_unlikely x 2147483648 ltac:(lia)). Qed.

Lemma u8_accessors : accessors fmt_u8 get_u8 put_u8.
Proof.
  split; [done|]. split_and!; simpl; try done.
  - intros [|a [|]] El Hs; try done. apply Forall_cons in Hs as [Ha _]. unfold get_u8, byte. simpl. lia.
  - intros x. unfold put_u8. rewrite (clamp_unlikely x 128 ltac:(lia) : PA_CLAMP_UNLIKELY x (-128) 127 = _). pose proof (clamp_range 128 x). rewrite u8_small by lia. done.
Qed.

Lemma s16le_accessors : accessors fmt_s16le get_s16ne put_s16ne.
Proof.
  split; [done|]. split_and!; simpl; try done.
  - intros s El Hs. pose proof (le_combine_bound s Hs) as Hb. rewrite El in Hb. unfold get_s16ne.
    rewrite s16_signed by done. split; [done|]. exact (signed_bytes 2 s ltac:(lia) El Hs).
  - intros x. unfold put_s16ne. by rewrite (clamp_unlikely x 32768 ltac:(lia) : PA_CLAMP_UNLIKELY x (-32768) 32767 = _).
Qed.

Lemma s32le_accessors : accessors fmt_s32le get_s32ne put_s32ne.
Proof.
  split; [done|]. split_and!; simpl; try done.
  - intros s El Hs. pose proof (le_combine_bound s Hs) as Hb. rewrite El in Hb. unfold get_s32ne.
    rewrite s32_signed by done. split; [done|]. exact (signed_bytes 4 s ltac:(lia) El Hs).
  - intros x. unfold put_s32ne. by rewrite split_s32, clamp32_eq.
Qed.

Lemma s24le_accessors : accessors fmt_s24le get_s24ne put_s24ne.
Proof.
  split; [done|]. split_and!; simpl; try done.
  - intros s El Hs. pose proof (le_combine_bound s Hs) as Hb. rewrite El in Hb. unfold get_s24ne.
    rewrite (proj1 (read24 s El Hs)), signed24 by done. split; [done|by apply value24_range].
  - intros x. unfold put_s24ne. rewrite (proj1 (write24 _)), shiftr8, high24, clamp32_eq. exact (le_split_mod 3 _).
Qed.

Lemma s24_32le_accessors : accessors fmt_s24_32le get_s24_32ne put_s24_32ne.
Proof.
  split; [done|]. split_and!; simpl; try done.
  - intros [|a [|b [|c [|d [|]]]]] El Hs; try done. pose proof (le_combine_bound _ Hs) as Hb. simpl in Hb.
    assert (bytes_ok [a; b; c]) as Hs3 by (rewrite !Forall_cons in Hs; rewrite !Forall_cons; naive_solver).
    pose proof (le_combine_bound _ Hs3) as Hb3. unfold get_s24_32ne. rewrite (u32_small (le_combine _)) by (simpl; lia).
    change (take 3 [a; b; c; d]) with [a; b; c]. split; [|by apply value24_range]. rewrite <- signed24 by done. f_equal.
    rewrite !Z.shiftl_mul_pow2 by lia. unfold u32. simpl (le_combine _).
    replace ((a + 256 * (b + 256 * (c + 256 * (d + 256 * 0)))) * 2 ^ 8) with ((a + 256 * (b + 256 * (c + 256 * 0))) * 2 ^ 8 + d * 2 ^ 32) by lia.
    rewrite Z.mod_add by lia. done.
  - intros x. unfold put_s24_32ne. rewrite shiftr8, u32_s32, clamp32_eq. apply split24_32.
Qed.

(** Byte-swapping turns an accessor round. *)
Lemma be_accessors f get put get' put' : accessors f get put ->
  (forall s, length s = f_size f -> bytes_ok s -> get' s = get (reverse s)) -> (forall x, put' x = reverse (put x)) ->
  accessors (big_endian f) get' put'.
Proof.
  intros (H1 & H2 & H3 & H4) Hg Hp. split_and!; simpl; try done.
  - intros s El Hs. rewrite Hg by done. apply H2; [by rewrite length_reverse|by apply Forall_reverse].
  - intros x. by rewrite Hp, H3.
  - intros x. by rewrite length_reverse.
Qed.

Lemma s16be_accessors : accessors (big_endian fmt_s16le) get_s16re put_s16re.
Proof.
  apply (be_accessors _ get_s16ne put_s16ne); [apply s16le_accessors| |].
  - simpl. intros s El Hs. pose proof (le_combine_bound s Hs) as Hb. pose proof (le_combine_bound (reverse s) ltac:(by apply Forall_reverse)) as Hb'.
    rewrite length_reverse in Hb'. rewrite El in Hb, Hb'. unfold get_s16re, get_s16ne. rewrite !s16_signed by done. by apply swap16.
  - intros x. unfold put_s16re, put_s16ne. by rewrite split_swap16, split_s16.
Qed.

Lemma s32be_accessors : accessors (big_endian fmt_s32le) get_s32re put_s32re.
Proof.
  apply (be_accessors _ get_s32ne put_s32ne); [apply s32le_accessors| |].
  - simpl. intros s El Hs. pose proof (le_combine_bound s Hs) as Hb. pose proof (le_combine_bound (reverse s) ltac:(by apply Forall_reverse)) as Hb'.
    rewrite length_reverse in Hb'. rewrite El in Hb, Hb'. unfold get_s32re, get_s32ne. rewrite !s32_signed by done. by apply swap32.
  - intros x. unfold put_s32re, put_s32ne. by rewrite split_swap32, split_s32.
Qed.

Lemma s24be_accessors : accessors (big_endian fmt_s24le) get_s24re put_s24re.
Proof.
  apply (be_accessors _ get_s24ne put_s24ne); [apply s24le_accessors| |].
  - simpl. intros s El Hs. unfold get_s24re, get_s24ne. rewrite (proj2 (read24 s El Hs)).
    by rewrite (proj1 (read24 (reverse s) ltac:(by rewrite length_reverse) ltac:(by apply Forall_reverse))).
  - intros x. unfold put_s24re, put_s24ne. by destruct (write24 (Z.shiftr (u32 (clamp32 x)) 8)) as [-> ->].
Qed.

Lemma get_s24_32re_eq s : length s = 4%nat -> bytes_ok s -> get_s24_32re s = get_s24_32ne (reverse s).
Proof.
  intros El Hs. unfold get_s24_32re, get_s24_32ne, PA_UINT32_SWAP. rewrite split_u32. rewrite <- El. by rewrite le_split_combine.
Qed.

Lemma s24_32be_accessors : accessors (big_endian fmt_s24_32le) get_s24_32re put_s24_32re /\
  accessors (big_endian fmt_s24_32le) get_s24_32re put_u24_32re.
Proof.
  split; (apply (be_accessors _ get_s24_32ne put_s24_32ne); [apply s24_32le_accessors|exact get_s24_32re_eq|]); intros x.
  - apply split_swap32.
  - apply split_uswap32.
Qed.

(** ** Mixing *)

(** The [k]-th sample from a pointer, and a factor. *)
Definition sample (f : format) (p : list Z) (k : nat) : list Z := take (f_size f) (drop (k * f_size f) p).
Definition factor (l : list Z) (channel : nat) : Z := default 0 (l !! channel).

(** What a stream adds to sample [k], in channel [c]. *)
Definition part (f : format) (c k : nat) (m : mix_stream) : Z :=
  f_value f (sample f (ms_ptr m) k) * factor (ms_linear m) c / 65536.

(** The mix of [n] samples: each is the sum of the products, cut to the range. *)
Definition mixed (f : format) (streams : list mix_stream) (channels k : nat) : list Z :=
  f_store f (clamp (f_max f) (sumZ (part f (k mod channels) k <$> streams))).
Definition mix_reference (f : format) (streams : list mix_stream) (channels n : nat) : list Z :=
  concat (mixed f streams channels <$> seq 0 n).

(** Factors up to 256, that is 48 dB. *)
Definition max_factor : Z := 2 ^ 24.

(** A stream with [n] samples and a factor for each channel. *)
Record stream_ok (f : format) (channels n : nat) (m : mix_stream) : Prop := {
  so_length : (n * f_size f <= length (ms_ptr m))%nat;
  so_bytes : bytes_ok (ms_ptr m);
  so_channels : (channels <= length (ms_linear m))%nat;
  so_factors : Forall (fun cv => 0 <= cv <= max_factor) (ms_linear m)
}.

Lemma sample_ok f channels n m k : stream_ok f channels n m -> (k < n)%nat ->
  take_sample (f_size f) (drop (k * f_size f) (ms_ptr m)) = Ok (sample f (ms_ptr m) k) /\
  length (sample f (ms_ptr m) k) = f_size f /\ bytes_ok (sample f (ms_ptr m) k).
Proof.
  intros [H1 H2 _ _] Hk. assert ((k * f_size f + f_size f <= length (ms_ptr m))%nat) as Hl by nia.
  unfold take_sample, sample. split_and!.
  - rewrite length_drop, (proj2 (Nat.leb_le _ _)) by lia. done.
  - rewrite length_take, length_drop. lia.
  - by apply Forall_take, Forall_drop.
Qed.

Lemma factor_ok f channels n m c : stream_ok f channels n m -> (c < channels)%nat ->
  ms_linear m !! c = Some (factor (ms_linear m) c) /\ 0 <= factor (ms_linear m) c <= max_factor.
Proof.
  intros [_ _ H3 H4] Hc. destruct (lookup_lt_is_Some_2 (ms_linear m) c) as [cv E]; [lia|]. unfold factor. rewrite E. simpl.
  split; [done|]. exact (Forall_lookup_1 _ _ _ _ H4 E).
Qed.

Section mix_proof.
Context (f : format) (get : list Z -> Z) (put : Z -> list Z) (Hacc : accessors f get put).
Context (add : Z -> Z -> list Z -> outcome Z).

(** What one stream can add. *)
Definition step_max : Z := 256 * f_max f.

Context (Hadd : forall sum cv s, length s = f_size f -> bytes_ok s -> 0 <= cv <= max_factor ->
  - (31 * step_max) <= sum <= 31 * step_max -> add sum cv s = Ok (sum + f_value f s * cv / 65536)).

Lemma part_bound channels n m c k : stream_ok f channels n m -> (k < n)%nat -> (c < channels)%nat ->
  - step_max <= part f c k m <= step_max.
Proof.
  intros Hm Hk Hc. destruct Hacc as (Hmax & Hget & _). destruct (sample_ok f channels n m k Hm Hk) as (_ & El & Hs).
  destruct (factor_ok f channels n m c Hm Hc) as [_ Hcv]. destruct (Hget _ El Hs) as [_ Hv]. unfold part, step_max, max_factor in *.
  apply div_bound; nia.
Qed.

Lemma add_streams_spec channels n k c streams sum (j : nat) : Forall (stream_ok f channels n) streams -> (k < n)%nat -> (c < channels)%nat ->
  (length streams + j <= 32)%nat -> - (Z.of_nat j * step_max) <= sum <= Z.of_nat j * step_max ->
  add_streams (f_size f) add c (advance (k * f_size f) <$> streams) sum =
    Ok (sum + sumZ (part f c k <$> streams), advance (S k * f_size f) <$> streams).
Proof.
  intros H Hk Hc. revert sum j. induction H as [|m streams Hm _ IH]; intros sum j Hl Hsum.
  { simpl. unfold sumZ. simpl. by rewrite Z.add_0_r. }
  rewrite !fmap_cons. simpl in Hl. cbn [add_streams]. change (ms_linear (advance (k * f_size f) m)) with (ms_linear m).
  change (ms_ptr (advance (k * f_size f) m)) with (drop (k * f_size f) (ms_ptr m)).
  destruct (factor_ok f channels n m c Hm Hc) as [-> Hcv]. destruct (sample_ok f channels n m k Hm Hk) as (-> & El & Hs). cbn [deref mbind outcome_bind].
  pose proof (part_bound channels n m c k Hm Hk Hc) as Hp. assert (0 < step_max) as Hpos by (unfold step_max; destruct Hacc; lia).
  rewrite Hadd by (done || nia). cbn [mbind outcome_bind]. fold (part f c k m). rewrite (IH _ (S j)); [|lia|nia].
  cbn [mbind outcome_bind]. do 2 f_equal.
  - change (sumZ (part f c k m :: (part f c k <$> streams))) with (part f c k m + sumZ (part f c k <$> streams)). lia.
  - f_equal. unfold advance. simpl. rewrite drop_drop. do 2 f_equal. lia.
Qed.

Lemma next_channel_mod channels k : (0 < channels)%nat -> next_channel channels (k mod channels) = (S k mod channels)%nat.
Proof.
  intros Hc. unfold next_channel. pose proof (Nat.mod_upper_bound k channels ltac:(lia)) as Hb.
  pose proof (Nat.div_mod_eq k channels) as E. destruct (Nat.leb_spec channels (S (k mod channels))).
  - apply (Nat.mod_unique _ _ (S (k / channels))); lia.
  - apply (Nat.mod_unique _ _ (k / channels)); lia.
Qed.

Lemma mix_samples_spec channels total streams : (0 < channels)%nat -> (length streams <= 32)%nat ->
  Forall (stream_ok f channels total) streams -> forall n k, (k + n <= total)%nat ->
  mix_samples (f_size f) add put n channels (k mod channels) (advance (k * f_size f) <$> streams) =
    Ok (concat (mixed f streams channels <$> seq k n)).
Proof.
  intros Hc Hl H. induction n as [|n IH]; intros k Hk; [done|]. cbn [mix_samples seq].
  rewrite (add_streams_spec channels total k _ streams 0 0 H) by (done || lia || (apply Nat.mod_upper_bound; lia)).
  cbn [mbind outcome_bind]. rewrite next_channel_mod by done. rewrite IH by lia. cbn [mbind outcome_bind].
  rewrite fmap_cons. cbn [concat]. do 2 f_equal. unfold mixed. destruct Hacc as (_ & _ & Hput & _). by rewrite Hput, Z.add_0_l.
Qed.

Lemma mix_samples_ok channels n streams : (0 < channels)%nat -> (length streams <= 32)%nat -> Forall (stream_ok f channels n) streams ->
  mix_samples (f_size f) add put n channels 0 streams = Ok (mix_reference f streams channels n).
Proof.
  intros Hc Hl H. pose proof (mix_samples_spec channels n streams Hc Hl H n 0 ltac:(lia)) as E.
  rewrite Nat.Div0.mod_0_l in E. unfold mix_reference. rewrite <- E. f_equal. simpl.
  rewrite <- (list_fmap_id streams) at 1. apply list_fmap_ext.
  intros i m _. by destruct m.
Qed.
End mix_proof.

(** ** The sums of every format *)

Section adds.
Context (f : format) (get : list Z -> Z) (put : Z -> list Z) (Hacc : accessors f get put).

Lemma value_bound s : length s = f_size f -> bytes_ok s -> get s = f_value f s /\ - f_max f <= f_value f s < f_max f.
Proof. apply Hacc. Qed.

Lemma add_s16_ok sum cv s : f_max f = 32768 -> length s = f_size f -> bytes_ok s -> 0 <= cv <= max_factor ->
  - (31 * step_max f) <= sum <= 31 * step_max f -> add_s16 get sum cv s = Ok (sum + f_value f s * cv / 65536).
Proof.
  intros Em El Hs Hcv Hsum. destruct (value_bound s El Hs) as [Eg Hv]. unfold add_s16, step_max, max_factor in *. rewrite Em, Eg in *.
  destruct (mult_exact (f_value f s) cv) as [Emu _]; [done|unfold is_s32; lia|].
  pose proof (div_bound (f_value f s * cv) (256 * 32768) 65536 ltac:(lia) ltac:(nia)).
  destruct (Z.ltb_spec 0 cv); [rewrite Emu; apply in32_ok; unfold is_s32; lia|].
  replace cv with 0 by lia. by rewrite Z.mul_0_r, Z.add_0_r.
Qed.

Lemma add_wide_ok sum cv s : f_max f = 2147483648 -> length s = f_size f -> bytes_ok s -> 0 <= cv <= max_factor ->
  - (31 * step_max f) <= sum <= 31 * step_max f -> add_wide get sum cv s = Ok (sum + f_value f s * cv / 65536).
Proof.
  intros Em El Hs Hcv Hsum. destruct (value_bound s El Hs) as [Eg Hv]. unfold add_wide, step_max, max_factor in *. rewrite Em, Eg in *.
  pose proof (div_bound (f_value f s * cv) (256 * 2147483648) 65536 ltac:(lia) ltac:(nia)).
  destruct (Z.ltb_spec 0 cv).
  - rewrite in64_ok by nia. simpl. rewrite shiftr16. apply in64_ok. lia.
  - replace cv with 0 by lia. by rewrite Z.mul_0_r, Z.add_0_r.
Qed.
End adds.

Lemma add_u8_ok sum cv s : length s = 1%nat -> bytes_ok s -> 0 <= cv <= max_factor ->
  - (31 * step_max fmt_u8) <= sum <= 31 * step_max fmt_u8 -> add_u8 sum cv s = Ok (sum + f_value fmt_u8 s * cv / 65536).
Proof.
  intros El Hs Hcv Hsum. destruct (value_bound fmt_u8 _ _ u8_accessors s El Hs) as [Eg Hv]. unfold add_u8, step_max, max_factor in *. rewrite Eg.
  cbn [f_max fmt_u8] in *. pose proof (div_bound (f_value fmt_u8 s * cv) (256 * 128) 65536 ltac:(lia) ltac:(nia)).
  destruct (Z.ltb_spec 0 cv).
  - rewrite in32_ok by (unfold is_s32; nia). cbn [mbind outcome_bind]. rewrite shiftr16. apply in32_ok. unfold is_s32. lia.
  - replace cv with 0 by lia. by rewrite Z.mul_0_r, Z.add_0_r.
Qed.

(** ** The special cases for 16 bits *)

Section special.
Abbreviation generic := (mix_samples 2 (add_s16 get_s16ne) put_s16ne).
Abbreviation ok16 := (stream_ok fmt_s16le).

Lemma mult_part m c k channels n : ok16 channels n m -> (k < n)%nat -> (c < channels)%nat ->
  pa_mult_s16_volume (get_s16ne (sample fmt_s16le (ms_ptr m) k)) (factor (ms_linear m) c) = part fmt_s16le c k m /\
  - 2 ^ 23 <= part fmt_s16le c k m <= 2 ^ 23.
Proof.
  intros Hm Hk Hc. destruct (sample_ok _ _ _ _ _ Hm Hk) as (_ & El & Hs). destruct (factor_ok _ _ _ _ _ Hm Hc) as [_ Hcv].
  destruct (value_bound _ _ _ s16le_accessors _ El Hs) as [Eg Hv].
  pose proof (part_bound fmt_s16le _ _ s16le_accessors channels n m c k Hm Hk Hc). split; [|done].
  rewrite Eg. apply mult_exact; [done|]. unfold is_s32, max_factor in *. lia.
Qed.

(** Two streams. *)
Lemma add2_spec m0 m1 c k channels n : ok16 channels n m0 -> ok16 channels n m1 -> (k < n)%nat -> (c < channels)%nat ->
  add2_s16ne (drop (k * 2) (ms_ptr m0)) (drop (k * 2) (ms_ptr m1)) (factor (ms_linear m0) c) (factor (ms_linear m1) c) =
    Ok (sumZ (part fmt_s16le c k <$> [m0; m1])).
Proof.
  intros H0 H1 Hk Hc. destruct (mult_part m0 c k channels n H0 Hk Hc) as [E0 B0]. destruct (mult_part m1 c k channels n H1 Hk Hc) as [E1 B1].
  unfold add2_s16ne. destruct (sample_ok _ _ _ _ _ H0 Hk) as (S0 & _). destruct (sample_ok _ _ _ _ _ H1 Hk) as (S1 & _).
  cbn [f_size fmt_s16le] in S0, S1. rewrite S0, S1. cbn [mbind outcome_bind]. rewrite E0, E1, in32_ok by (unfold is_s32; lia).
  f_equal. unfold sumZ. cbn [fmap list_fmap foldr]. lia.
Qed.

Lemma mix2_loop_spec m0 m1 channels total : (0 < channels)%nat -> ok16 channels total m0 -> ok16 channels total m1 ->
  forall n k, (k + n <= total)%nat ->
  mix2_loop n channels (k mod channels) (drop (k * 2) (ms_ptr m0)) (drop (k * 2) (ms_ptr m1)) (ms_linear m0) (ms_linear m1) =
    Ok (concat (mixed fmt_s16le [m0; m1] channels <$> seq k n)).
Proof.
  intros Hc H0 H1. induction n as [|n IH]; intros k Hk; [done|]. cbn [mix2_loop seq].
  pose proof (Nat.mod_upper_bound k channels ltac:(lia)) as Hm.
  destruct (factor_ok _ _ _ _ _ H0 Hm) as [-> _]. destruct (factor_ok _ _ _ _ _ H1 Hm) as [-> _]. cbn [deref mbind outcome_bind].
  rewrite (add2_spec m0 m1 _ k channels total) by (done || lia). cbn [mbind outcome_bind]. rewrite next_channel_mod by done.
  rewrite !drop_drop. replace (k * 2 + 2)%nat with (S k * 2)%nat by lia. rewrite IH by lia. cbn [mbind outcome_bind].
  rewrite (fmap_cons (mixed _ _ _)). cbn [concat]. do 2 f_equal. apply s16le_accessors.
Qed.

(** One channel and two channels are unrolled. *)
Lemma mix2_ch1_eq n p0 p1 l0 l1 cv0 cv1 : l0 !! 0%nat = Some cv0 -> l1 !! 0%nat = Some cv1 ->
  mix2_ch1_loop n p0 p1 cv0 cv1 = mix2_loop n 1 0 p0 p1 l0 l1.
Proof.
  intros E0 E1. revert p0 p1. induction n as [|n IH]; intros p0 p1; [done|]. cbn [mix2_ch1_loop mix2_loop]. rewrite E0, E1.
  cbn [deref mbind outcome_bind next_channel Nat.leb]. by rewrite <- IH.
Qed.

Lemma mix2_ch2_eq n p0 p1 l0 l1 : mix2_ch2_loop n p0 p1 l0 l1 = mix2_loop (n * 2) 2 0 p0 p1 l0 l1.
Proof.
  revert p0 p1. induction n as [|n IH]; intros p0 p1; [done|]. cbn [mix2_ch2_loop mix2_loop Nat.mul Nat.add].
  destruct (deref (l0 !! 0%nat)); [|done..]. cbn [mbind outcome_bind]. destruct (deref (l1 !! 0%nat)); [|done..]. cbn [mbind outcome_bind].
  destruct (add2_s16ne p0 p1 _ _); [|done..]. cbn [mbind outcome_bind next_channel Nat.leb].
  destruct (deref (l0 !! 1%nat)); [|done..]. cbn [mbind outcome_bind]. destruct (deref (l1 !! 1%nat)); [|done..]. cbn [mbind outcome_bind].
  destruct (add2_s16ne (drop 2 p0) (drop 2 p1) _ _); [|done..]. cbn [mbind outcome_bind]. rewrite IH.
  by destruct (mix2_loop (n * 2) 2 0 _ _ l0 l1).
Qed.

(** Any number of streams with two channels. *)
Lemma add_ch2_spec streams total k sum0 sum1 (j : nat) : Forall (ok16 2 total) streams -> (S k < total)%nat -> (length streams + j <= 32)%nat ->
  - (Z.of_nat j * 2 ^ 23) <= sum0 <= Z.of_nat j * 2 ^ 23 -> - (Z.of_nat j * 2 ^ 23) <= sum1 <= Z.of_nat j * 2 ^ 23 ->
  add_ch2 (advance (k * 2) <$> streams) sum0 sum1 =
    Ok (sum0 + sumZ (part fmt_s16le 0 k <$> streams), sum1 + sumZ (part fmt_s16le 1 (S k) <$> streams), advance (S (S k) * 2) <$> streams).
Proof.
  intros H Hk. revert sum0 sum1 j. induction H as [|m streams Hm _ IH]; intros sum0 sum1 j Hl H0 H1.
  { unfold sumZ. simpl. by rewrite !Z.add_0_r. }
  rewrite !fmap_cons. simpl in Hl. cbn [add_ch2]. change (ms_linear (advance (k * 2) m)) with (ms_linear m).
  change (ms_ptr (advance (k * 2) m)) with (drop (k * 2) (ms_ptr m)).
  change (ms_ptr (advance 2 (advance (k * 2) m))) with (drop 2 (drop (k * 2) (ms_ptr m))).
  destruct (factor_ok _ _ _ _ 0 Hm ltac:(lia)) as [-> _]. destruct (factor_ok _ _ _ _ 1 Hm ltac:(lia)) as [-> _]. cbn [deref mbind outcome_bind].
  destruct (sample_ok _ _ _ _ k Hm ltac:(lia)) as (S0 & _). destruct (sample_ok _ _ _ _ (S k) Hm Hk) as (S1 & _).
  cbn [f_size fmt_s16le] in S0, S1. rewrite drop_drop. replace (k * 2 + 2)%nat with (S k * 2)%nat by lia. rewrite S0, S1. cbn [mbind outcome_bind].
  destruct (mult_part m 0 k 2 total Hm ltac:(lia) ltac:(lia)) as [-> B0]. destruct (mult_part m 1 (S k) 2 total Hm Hk ltac:(lia)) as [-> B1].
  rewrite in32_ok by (unfold is_s32; lia). cbn [mbind outcome_bind]. rewrite in32_ok by (unfold is_s32; lia). cbn [mbind outcome_bind].
  rewrite (IH _ _ (S j)); [|lia..]. cbn [mbind outcome_bind]. unfold sumZ. simpl foldr. do 2 f_equal; [f_equal; lia|].
  f_equal. unfold advance. simpl. rewrite !drop_drop. do 2 f_equal. lia.
Qed.

Lemma mix_ch2_spec streams total : (length streams <= 32)%nat -> Forall (ok16 2 total) streams -> forall n k, (k * 2 + n * 2 <= total)%nat ->
  mix_ch2_loop n (advance (k * 2 * 2) <$> streams) = Ok (concat (mixed fmt_s16le streams 2 <$> seq (k * 2) (n * 2))).
Proof.
  intros Hl H. induction n as [|n IH]; intros k Hk; [done|]. cbn [mix_ch2_loop Nat.mul Nat.add seq].
  rewrite (add_ch2_spec streams total (k * 2) 0 0 0) by (done || lia). cbn [mbind outcome_bind].
  change (S (S (k * 2))) with (S k * 2)%nat. rewrite IH by lia. cbn [mbind outcome_bind]. rewrite !fmap_cons. cbn [concat].
  assert (forall x, put_s16ne x = le_split 2 (clamp 32768 x)) as Hput by apply s16le_accessors. rewrite !Hput, !Z.add_0_l.
  unfold mixed at 2 3. cbn [f_store f_max fmt_s16le]. rewrite Nat.Div0.mod_mul.
  replace (S (k * 2) mod 2)%nat with 1%nat; [done|]. apply (Nat.mod_unique _ _ k); lia.
Qed.
End special.

Lemma mix_generic_ok streams channels (n : nat) : (0 < channels)%nat -> (length streams <= 32)%nat ->
  Forall (stream_ok fmt_s16le channels n) streams ->
  pa_mix_generic_s16ne streams channels (Z.of_nat n * 2) = Ok (mix_reference fmt_s16le streams channels n).
Proof.
  intros Hc Hl H. unfold pa_mix_generic_s16ne. rewrite Z.div_mul, Nat2Z.id by done. apply (mix_samples_ok fmt_s16le _ _ s16le_accessors); try done.
  intros. by apply (add_s16_ok fmt_s16le _ put_s16ne s16le_accessors).
Qed.

Lemma mix_s16ne_ok streams channels (n : nat) : (0 < channels)%nat -> (length streams <= 32)%nat -> (n mod channels = 0)%nat ->
  Forall (stream_ok fmt_s16le channels n) streams ->
  pa_mix_s16ne_c streams channels (Z.of_nat n * 2) = Ok (mix_reference fmt_s16le streams channels n).
Proof.
  intros Hc Hl Hn H. unfold pa_mix_s16ne_c.
  assert (forall k, k = 2%nat -> channels = k -> Z.to_nat (Z.of_nat n * 2 / 4) * 2 = n)%nat as Hhalf.
  { intros k -> ->. pose proof (Nat.div_mod_eq n 2). set (h := (n / 2)%nat) in *. replace (Z.of_nat n * 2) with (Z.of_nat h * 4) by lia.
    rewrite Z.div_mul by lia. lia. }
  assert (Z.to_nat (Z.of_nat n * 2 / 2) = n) as Hall by (rewrite Z.div_mul by lia; lia).
  destruct (Nat.eqb_spec (length streams) 2) as [E2|E2]; cbn [andb].
  - destruct streams as [|m0 [|m1 [|]]]; try done. apply Forall_cons in H as [H0 H]. apply Forall_cons in H as [H1 _].
    pose proof (mix2_loop_spec m0 m1 channels n Hc H0 H1 n 0 ltac:(lia)) as E. rewrite Nat.Div0.mod_0_l in E. simpl in E. rewrite !drop_0 in E.
    destruct (Nat.eqb_spec channels 1) as [->|]; [|destruct (Nat.eqb_spec channels 2) as [->|]].
    + unfold pa_mix2_ch1_s16ne. simpl. destruct (factor_ok _ _ _ _ 0 H0 Hc) as [E0 _]. destruct (factor_ok _ _ _ _ 0 H1 Hc) as [E1 _].
      rewrite E0, E1. simpl. rewrite Hall. by rewrite (mix2_ch1_eq _ _ _ _ _ _ _ E0 E1), E.
    + unfold pa_mix2_ch2_s16ne. simpl. by rewrite mix2_ch2_eq, (Hhalf 2%nat), E.
    + unfold pa_mix2_s16ne. simpl. by rewrite Hall, E.
  - destruct (Nat.eqb_spec channels 2) as [->|].
    + unfold pa_mix_ch2_s16ne. set (h := Z.to_nat (Z.of_nat n * 2 / 4)). pose proof (Hhalf 2%nat eq_refl eq_refl) as Hh. fold h in Hh.
      pose proof (mix_ch2_spec streams n Hl H h 0 ltac:(lia)) as E. simpl in E. unfold mix_reference. rewrite <- Hh, <- E.
      f_equal. rewrite <- (list_fmap_id streams) at 1. apply list_fmap_ext. intros i m _. by destruct m.
    + by apply mix_generic_ok.
Qed.

(** One of the nine integer formats. *)
Ltac each_format H :=
  unfold integer_format in H;
  repeat match type of H with (if ?f =? ?g then _ else _) = _ => destruct (Z.eqb_spec f g); [subst|] end;
  [injection H as <-..|discriminate H].

(** C12: mixing is exact up to saturation.  For every integer format, up to 32
    streams and factors up to 256, the routine the format uses, the
    special cases for two streams or two channels and the general one included, reads only the samples it is given,
    never overflows, and makes of each sample the sum over the streams of the
    sample times the factor of its channel, each rounded down to 16 fractional
    bits less, cut to the range of the format. *)
Theorem mix_is_clamped_sum generic f fmt streams channels n :
  integer_format f = Some fmt -> (0 < channels)%nat -> (length streams <= 32)%nat -> (n mod channels = 0)%nat ->
  Forall (stream_ok fmt channels n) streams ->
  exists routine, do_mix_table generic f = Some routine /\
    routine streams channels (Z.of_nat (n * f_size fmt)) = Ok (mix_reference fmt streams channels n).
Proof.
  intros Hf Hc Hl Hn H. each_format Hf; (eexists; split; [reflexivity|]);
    cbn [f_size fmt_u8 fmt_s16le fmt_s32le fmt_s24le fmt_s24_32le big_endian] in *; rewrite Nat2Z.inj_mul.
  - unfold pa_mix_u8_c. rewrite Z.div_1_r, Z.mul_1_r, Nat2Z.id. apply (mix_samples_ok fmt_u8 _ _ u8_accessors); try done.
    exact add_u8_ok.
  - destruct generic; [by apply mix_generic_ok|by apply mix_s16ne_ok].
  - unfold pa_mix_s16re_c. rewrite Z.div_mul, Nat2Z.id by done. apply (mix_samples_ok _ _ _ s16be_accessors); try done.
    intros. by apply (add_s16_ok _ _ _ s16be_accessors).
  - unfold pa_mix_s32ne_c. rewrite Z.div_mul, Nat2Z.id by done. apply (mix_samples_ok _ _ _ s32le_accessors); try done.
    intros. by apply (add_wide_ok _ _ _ s32le_accessors).
  - unfold pa_mix_s32re_c. rewrite Z.div_mul, Nat2Z.id by done. apply (mix_samples_ok _ _ _ s32be_accessors); try done.
    intros. by apply (add_wide_ok _ _ _ s32be_accessors).
  - unfold pa_mix_s24ne_c, samples24. rewrite Z.mod_mul, Z.div_mul, Nat2Z.id by done. apply (mix_samples_ok _ _ _ s24le_accessors); try done.
    intros. by apply (add_wide_ok _ _ _ s24le_accessors).
  - unfold pa_mix_s24re_c, samples24. rewrite Z.mod_mul, Z.div_mul, Nat2Z.id by done. apply (mix_samples_ok _ _ _ s24be_accessors); try done.
    intros. by apply (add_wide_ok _ _ _ s24be_accessors).
  - unfold pa_mix_s24_32ne_c. rewrite Z.div_mul, Nat2Z.id by done. apply (mix_samples_ok _ _ _ s24_32le_accessors); try done.
    intros. by apply (add_wide_ok _ _ _ s24_32le_accessors).
  - unfold pa_mix_s24_32re_c. rewrite Z.div_mul, Nat2Z.id by done. apply (mix_samples_ok _ _ _ (proj1 s24_32be_accessors)); try done.
    intros. by apply (add_wide_ok _ _ _ (proj1 s24_32be_accessors)).
Qed.

(** ** Volumes *)

(** [n] samples, each multiplied by the factor of its channel. *)
Definition scaled (f : format) (samples volumes : list Z) (channels k : nat) : list Z :=
  f_store f (clamp (f_max f) (f_value f (sample f samples k) * factor volumes (k mod channels) / 65536)).
Definition volume_reference (f : format) (samples volumes : list Z) (channels n : nat) : list Z :=
  concat (scaled f samples volumes channels <$> seq 0 n).

Section volume_proof.
Context (f : format) (get : list Z -> Z) (put : Z -> list Z) (Hacc : accessors f get put).
Context (scale : list Z -> Z -> outcome (list Z)).
Context (Hscale : forall s v, length s = f_size f -> bytes_ok s -> is_s32 v -> scale s v = Ok (put (f_value f s * v / 65536))).

Lemma volume_samples_spec volumes channels samples total : (0 < channels)%nat -> (channels <= length volumes)%nat -> Forall is_s32 volumes ->
  (total * f_size f <= length samples)%nat -> bytes_ok samples -> forall n k, (k + n <= total)%nat ->
  volume_samples (f_size f) scale n volumes channels (k mod channels) (drop (k * f_size f) samples) =
    Ok (concat (scaled f samples volumes channels <$> seq k n)).
Proof.
  intros Hc Hv Hvs Hl Hs. induction n as [|n IH]; intros k Hk; [done|]. cbn [volume_samples seq].
  assert ((k * f_size f + f_size f <= length samples)%nat) as Hle by nia.
  unfold take_sample. rewrite length_drop, (proj2 (Nat.leb_le _ _)) by lia. cbn [mbind outcome_bind]. fold (sample f samples k).
  pose proof (Nat.mod_upper_bound k channels ltac:(lia)) as Hm.
  destruct (lookup_lt_is_Some_2 volumes (k mod channels)) as [v Ev]; [lia|]. rewrite Ev. cbn [deref mbind outcome_bind].
  rewrite Hscale; [|unfold sample; rewrite length_take, length_drop; lia|by apply Forall_take, Forall_drop|exact (Forall_lookup_1 _ _ _ _ Hvs Ev)].
  cbn [mbind outcome_bind]. rewrite next_channel_mod, drop_drop by done. replace (k * f_size f + f_size f)%nat with (S k * f_size f)%nat by lia.
  rewrite IH by lia. cbn [mbind outcome_bind]. rewrite fmap_cons. cbn [concat]. do 2 f_equal.
  unfold scaled, factor. rewrite Ev. apply Hacc.
Qed.

Lemma volume_samples_ok volumes channels samples n : (0 < channels)%nat -> (channels <= length volumes)%nat -> Forall is_s32 volumes ->
  (n * f_size f <= length samples)%nat -> bytes_ok samples ->
  volume_samples (f_size f) scale n volumes channels 0 samples = Ok (volume_reference f samples volumes channels n).
Proof.
  intros Hc Hv Hvs Hl Hs. pose proof (volume_samples_spec volumes channels samples n Hc Hv Hvs Hl Hs n 0 ltac:(lia)) as E.
  by rewrite Nat.Div0.mod_0_l in E.
Qed.
End volume_proof.

Lemma scale_s16_ok f get put : accessors f get put -> f_max f <= 32768 -> forall s v, length s = f_size f -> bytes_ok s -> is_s32 v ->
  scale_s16 get put s v = Ok (put (f_value f s * v / 65536)).
Proof.
  intros Ha Hm s v El Hs Hv. destruct (value_bound f get put Ha s El Hs) as [Eg Hr]. unfold scale_s16. rewrite Eg.
  rewrite (proj1 (mult_exact (f_value f s) v ltac:(unfold is_s16; lia) Hv)). done.
Qed.

Lemma scale_wide_ok f get put : accessors f get put -> f_max f <= 2147483648 -> forall s v, length s = f_size f -> bytes_ok s -> is_s32 v ->
  scale_wide get put s v = Ok (put (f_value f s * v / 65536)).
Proof.
  intros Ha Hm s v El Hs Hv. destruct (value_bound f get put Ha s El Hs) as [Eg Hr]. unfold scale_wide, is_s32 in *. rewrite Eg.
  rewrite in64_ok by nia. simpl. by rewrite shiftr16.
Qed.

Lemma rounds24 n : Z.to_nat ((Z.of_nat (n * 3) + 2) / 3) = n.
Proof. rewrite Nat2Z.inj_mul, Z.add_comm. change (Z.of_nat 3) with 3. rewrite Z.div_add by done. change (2 / 3) with 0. lia. Qed.

(** C13: applying a volume is exact up to saturation.  For every integer format
    and any factors the routine of the format reads and writes only the samples,
    never overflows, and makes of each sample its product with the factor of its
    channel, rounded down, cut to the range of the format. *)
Theorem volume_is_clamped_product f fmt samples volumes channels n :
  integer_format f = Some fmt -> (0 < channels)%nat -> (channels <= length volumes)%nat -> Forall is_s32 volumes ->
  (n * f_size fmt <= length samples)%nat -> bytes_ok samples ->
  exists routine, do_volume_table f = Some routine /\
    routine samples volumes channels (Z.of_nat (n * f_size fmt)) = Ok (volume_reference fmt samples volumes channels n).
Proof.
  intros Hf Hc Hv Hvs Hl Hs. each_format Hf; (eexists; split; [reflexivity|]);
    cbn [f_size fmt_u8 fmt_s16le fmt_s32le fmt_s24le fmt_s24_32le big_endian] in *.
  - unfold pa_volume_u8_c. rewrite Nat.mul_1_r, Nat2Z.id. apply (volume_samples_ok fmt_u8 _ _ u8_accessors); try done.
    by apply scale_s16_ok; [apply u8_accessors|].
  - unfold pa_volume_s16ne_c. rewrite Nat2Z.inj_mul, Z.div_mul, Nat2Z.id by done. apply (volume_samples_ok _ _ _ s16le_accessors); try done.
    by apply scale_s16_ok; [apply s16le_accessors|].
  - unfold pa_volume_s16re_c. rewrite Nat2Z.inj_mul, Z.div_mul, Nat2Z.id by done. apply (volume_samples_ok _ _ _ s16be_accessors); try done.
    by apply scale_s16_ok; [apply s16be_accessors|].
  - unfold pa_volume_s32ne_c. rewrite Nat2Z.inj_mul, Z.div_mul, Nat2Z.id by done. apply (volume_samples_ok _ _ _ s32le_accessors); try done.
    by apply scale_wide_ok; [apply s32le_accessors|].
  - unfold pa_volume_s32re_c. rewrite Nat2Z.inj_mul, Z.div_mul, Nat2Z.id by done. apply (volume_samples_ok _ _ _ s32be_accessors); try done.
    by apply scale_wide_ok; [apply s32be_accessors|].
  - unfold pa_volume_s24ne_c. rewrite rounds24.
    apply (volume_samples_ok _ _ _ s24le_accessors); try done. by apply scale_wide_ok; [apply s24le_accessors|].
  - unfold pa_volume_s24re_c. rewrite rounds24.
    apply (volume_samples_ok _ _ _ s24be_accessors); try done. by apply scale_wide_ok; [apply s24be_accessors|].
  - unfold pa_volume_s24_32ne_c. rewrite Nat2Z.inj_mul, Z.div_mul, Nat2Z.id by done. apply (volume_samples_ok _ _ _ s24_32le_accessors); try done.
    by apply scale_wide_ok; [apply s24_32le_accessors|].
  - unfold pa_volume_s24_32re_c. rewrite Nat2Z.inj_mul, Z.div_mul, Nat2Z.id by done.
    apply (volume_samples_ok _ _ _ (proj2 s24_32be_accessors)); try done. by apply scale_wide_ok; [apply s24_32be_accessors|].
Qed.

(** Beyond the factors of [mix_is_clamped_sum] the routine for 8 bits, which
    multiplies in 32 bits, overflows. *)
Lemma mix_u8_overflows : pa_mix_u8_c [mk_stream [0] [max_factor + 1]] 1 1 = UB.
Proof. vm_compute. reflexivity. Qed.

(** ** Witnesses *)

(** Three streams in stereo, one of them loud enough to saturate. *)
Definition loud_streams : list mix_stream :=
  [mk_stream [0; 64; 1; 0] [65536; 65536]; mk_stream [0; 64; 255; 255] [131072; 32768]; mk_stream [16; 0; 0; 128] [65536; 0]].

Lemma mix_is_clamped_sum_witness :
  exists routine, do_mix_table false PA_SAMPLE_S16LE = Some routine /\ routine loud_streams 2%nat 4 = Ok [255; 127; 0; 0].
Proof.
  destruct (mix_is_clamped_sum false PA_SAMPLE_S16LE fmt_s16le loud_streams 2 2) as (routine & Ht & Er).
  - reflexivity.
  - lia.
  - simpl. lia.
  - reflexivity.
  - repeat (apply Forall_cons_2; [constructor; simpl; [lia|repeat constructor; lia|lia|unfold max_factor; repeat constructor; lia]|]).
    apply Forall_nil_2.
  - exists routine. split; [exact Ht|]. refine (eq_trans Er _). vm_compute. reflexivity.
Defined.

(** Half the volume on the left, four times on the right. *)
Lemma volume_is_clamped_product_witness :
  exists routine, do_volume_table PA_SAMPLE_S24BE = Some routine /\
    routine [0; 1; 0; 96; 0; 0] [32768; 262144] 2%nat 6 = Ok [0; 0; 128; 127; 255; 255].
Proof.
  destruct (volume_is_clamped_product PA_SAMPLE_S24BE (big_endian fmt_s24le) [0; 1; 0; 96; 0; 0] [32768; 262144] 2 2) as (routine & Ht & Er).
  - reflexivity.
  - lia.
  - simpl. lia.
  - unfold is_s32. repeat constructor; lia.
  - simpl. lia.
  - repeat constructor; lia.
  - exists routine. split; [exact Ht|]. refine (eq_trans Er _). vm_compute. reflexivity.
Defined.
