(* ===== verification/Dll.v ===== *)
(** * Dll: the linked lists that thread through table entries

    [hashmap.c] and [idxset.c] link the same entries into several doubly linked
    lists, each with its own pair of pointer fields.  A pointer field is a map
    from the addresses of the live entries to what the field holds, so that the
    code's assignments are updates of one map.  This file has the list
    manipulations of that code, written once, and what they do to a list. *)
From stdpp Require Import base tactics numbers list gmap.
From S2P Require Import Prelude.

(** A pointer field of all entries; [None] is a null pointer. *)
Abbreviation field := (gmap Z (option Z)).

(** [*p.f = v]: undefined unless the entry exists. *)
Definition assign (f : field) (a : Z) (v : option Z) : outcome field :=
  match f !! a with Some _ => Ok (<[a := v]> f) | None => UB end.

(** [if (e->next) e->next->prev = e->prev; else tail = e->prev;
     if (e->prev) e->prev->next = e->next; else head = e->next;]
    The two last results are the assignments to head and tail, if any. *)
Definition unlink (e : Z) (nx pv : field)
    : outcome (field * field * option (option Z) * option (option Z)) :=
  n ← deref (nx !! e);
  p ← deref (pv !! e);
  '(pv, tl) ← match n with
              | Some a => pv ← assign pv a p; Ok (pv, None)
              | None => Ok (pv, Some p)
              end;
  p ← deref (pv !! e);
  '(nx, hd) ← match p with
              | Some a => nx ← assign nx a n; Ok (nx, None)
              | None => Ok (nx, Some n)
              end;
  Ok (nx, pv, hd, tl).

(** [e->next = head; e->prev = NULL; if (head) head->prev = e; head = e;] *)
Definition link_front (e : Z) (nx pv : field) (hd : option Z) : outcome (field * field * option Z) :=
  let nx := <[e := hd]> nx in
  let pv := <[e := None]> pv in
  pv ← match hd with Some a => assign pv a (Some e) | None => Ok pv end;
  Ok (nx, pv, Some e).

(** [e->prev = tail; e->next = NULL; if (tail) tail->next = e; else head = e;
    tail = e;], with the assertions on [head]. *)
Definition link_back (e : Z) (nx pv : field) (hd tl : option Z)
    : outcome (field * field * option Z * option Z) :=
  let pv := <[e := tl]> pv in
  let nx := <[e := None]> nx in
  '(nx, hd) ← match tl with
              | Some a =>
                  _ ← pa_assert (bool_decide (is_Some hd));
                  nx ← assign nx a (Some e); Ok (nx, hd)
              | None => _ ← pa_assert (bool_decide (hd = None)); Ok (nx, Some e)
              end;
  Ok (nx, pv, hd, Some e).

(** [for (e = head; e; e = e->next) if (test(e)) return e; return NULL;] with
    [fuel] steps at most. *)
Fixpoint scan (fuel : nat) (test : Z -> outcome bool) (nx : field) (e : option Z) : outcome (option Z) :=
  match fuel, e with
  | _, None => Ok None
  | O, Some _ => UB
  | S fuel, Some a =>
      t ← test a;
      if (t : bool) then Ok (Some a) else n ← deref (nx !! a); scan fuel test nx n
  end.

(** ** Well-linked lists *)

Definition first_of (l : list Z) (n : option Z) : option Z := match l with a :: _ => Some a | [] => n end.

(** The entries [l] are linked in this order, between [p] and [n]. *)
Fixpoint chain (nx pv : field) (p : option Z) (l : list Z) (n : option Z) : Prop :=
  match l with
  | [] => True
  | a :: l => pv !! a = Some p /\ nx !! a = Some (first_of l n) /\ chain nx pv (Some a) l n
  end.

Definition last_of (p : option Z) (l : list Z) : option Z := from_option Some p (last l).

(** The whole list, from head to tail. *)
Record dll (nx pv : field) (l : list Z) : Prop := {
  dll_nodup : NoDup l;
  dll_chain : chain nx pv None l None
}.

Lemma first_of_app l1 l2 n : first_of (l1 ++ l2) n = first_of l1 (first_of l2 n).
Proof. by destruct l1. Qed.

Lemma first_of_head l : first_of l None = head l.
Proof. by destruct l. Qed.

Lemma last_of_cons p a l : last_of p (a :: l) = last_of (Some a) l.
Proof. unfold last_of. rewrite last_cons. by destruct (last l). Qed.

Lemma last_of_snoc p l a : last_of p (l ++ [a]) = Some a.
Proof. unfold last_of. by rewrite last_snoc. Qed.

Lemma last_of_none l : last_of None l = last l.
Proof. unfold last_of. by destruct (last l). Qed.

Lemma dll_new nx pv : dll nx pv [].
Proof. by split; [constructor|]. Qed.

Lemma chain_app nx pv l1 l2 : forall p n,
  chain nx pv p (l1 ++ l2) n <-> chain nx pv p l1 (first_of l2 n) /\ chain nx pv (last_of p l1) l2 n.
Proof.
  induction l1 as [|a l1 IH]; intros p n; simpl.
  - unfold last_of. simpl. split; [by intros|by intros [_ ?]].
  - rewrite IH, first_of_app, last_of_cons. by rewrite !(assoc and).
Qed.

(** A chain only depends on the fields of its entries. *)
Lemma chain_frame nx pv nx' pv' l : (forall a, a ∈ l -> nx' !! a = nx !! a /\ pv' !! a = pv !! a) ->
  forall p n, chain nx pv p l n -> chain nx' pv' p l n.
Proof.
  induction l as [|a l IH]; intros Hf p n; [done|]. intros (Hp & Hn & Hc).
  destruct (Hf a ltac:(left)) as [E1 E2]. simpl. split_and!; [congruence|congruence|].
  apply IH; [|done]. intros b Hb. apply Hf. by right.
Qed.

Lemma chain_lookup nx pv l a : forall p n, chain nx pv p l n -> a ∈ l -> is_Some (nx !! a) /\ is_Some (pv !! a).
Proof.
  induction l as [|b l IH]; intros p n Hc Ha; [by apply elem_of_nil in Ha|].
  destruct Hc as (Hp & Hn & Hc). apply elem_of_cons in Ha as [->|Ha]; [split; eauto|by eapply IH].
Qed.

(** Redirecting the first entry's back pointer and the last one's forward
    pointer. *)
Lemma chain_set_prev nx pv p q a l n : a ∉ l -> chain nx pv p (a :: l) n ->
  chain nx (<[a := q]> pv) q (a :: l) n.
Proof.
  intros Ha (Hp & Hn & Hc). simpl. rewrite lookup_insert_eq. split_and!; [done|done|].
  apply (chain_frame nx pv); [|done]. intros b Hb. rewrite lookup_insert_ne; [done|set_solver].
Qed.

Lemma chain_set_next nx pv p a l n m : a ∉ l -> chain nx pv p (l ++ [a]) n ->
  chain (<[a := m]> nx) pv p (l ++ [a]) m.
Proof.
  intros Ha Hc. apply chain_app in Hc as [H1 H2]. apply chain_app. simpl in *.
  destruct H2 as (H2 & _). rewrite lookup_insert_eq. split_and!; try done.
  apply (chain_frame nx pv); [|done]. intros b Hb. rewrite lookup_insert_ne; [done|set_solver].
Qed.

Lemma assign_ok f a v w : f !! a = Some w -> assign f a v = Ok (<[a := v]> f).
Proof. intros E. unfold assign. by rewrite E. Qed.

(** Fields of entries outside the list. *)
Definition framed (l : list Z) (f f' : field) : Prop := forall a, a ∉ l -> f' !! a = f !! a.

Lemma framed_insert l f a v : a ∈ l -> framed l f (<[a := v]> f).
Proof. intros Ha b Hb. rewrite lookup_insert_ne; [done|congruence]. Qed.

Lemma framed_refl l f : framed l f f.
Proof. by intros a _. Qed.

(** ** The list operations on well-linked lists *)

(** [l] without [e]. *)
Definition rm (e : Z) (l : list Z) : list Z := filter (fun a => a <> e) l.

Lemma rm_notin e l : e ∉ l -> rm e l = l.
Proof.
  unfold rm. induction l as [|a l IH]; intros He; [done|].
  rewrite filter_cons_True by set_solver. rewrite IH; [done|set_solver].
Qed.

Lemma rm_split e l1 l2 : NoDup (l1 ++ e :: l2) -> rm e (l1 ++ e :: l2) = l1 ++ l2.
Proof.
  intros (_ & H1 & H2)%NoDup_app. apply NoDup_cons in H2 as [H2 _].
  assert (e ∉ l1) by (intros ?; eapply H1; [done|left]).
  unfold rm. rewrite filter_app, filter_cons_False by naive_solver.
  by rewrite !(rm_notin e : forall l, _ -> filter _ l = l).
Qed.

Lemma rm_elem_of e l a : a ∈ rm e l <-> a <> e /\ a ∈ l.
Proof. unfold rm. by rewrite list_elem_of_filter. Qed.

Lemma rm_nodup e l : NoDup l -> NoDup (rm e l).
Proof. apply NoDup_filter. Qed.

Lemma rm_reverse e l : rm e (reverse l) = reverse (rm e l).
Proof. unfold rm. apply filter_reverse. Qed.

Lemma rm_filter e (P : Z -> Prop) `{forall a, Decision (P a)} l : rm e (filter P l) = filter P (rm e l).
Proof.
  unfold rm. rewrite !list_filter_filter. apply list_filter_iff. intros x. tauto.
Qed.

Lemma rm_length e l : NoDup l -> e ∈ l -> length l = S (length (rm e l)).
Proof.
  intros Hn (l1 & l2 & ->)%list_elem_of_split. rewrite rm_split, !length_app by done. simpl. lia.
Qed.

Lemma NoDup_split_notin (e : Z) l1 l2 : NoDup (l1 ++ e :: l2) -> (e ∉ l1) /\ (e ∉ l2) /\ NoDup (l1 ++ l2).
Proof.
  intros Hn. apply NoDup_app in Hn as (H1 & H2 & H3). apply NoDup_cons in H3 as [H3 H4].
  split_and!; [intros ?; eapply H2; [done|left]|done|].
  apply NoDup_app. split_and!; [done| |done]. intros a Ha Hb. by eapply (H2 a Ha); right.
Qed.

(** The next entry's back pointer, when [e] is taken out between [l1] and [l2]. *)
Lemma unlink_next_side nx pv l1 l2 e :
  NoDup (l1 ++ e :: l2) -> chain nx pv None (l1 ++ e :: l2) None ->
  exists pv1 tl, match first_of l2 None with
      | Some a => pv' ← assign pv a (last_of None l1); Ok (pv', None)
      | None => Ok (pv, Some (last_of None l1)) end = Ok (pv1, tl) /\
    chain nx pv1 (last_of None l1) l2 None /\ chain nx pv1 None l1 (Some e) /\
    pv1 !! e = Some (last_of None l1) /\ framed l2 pv pv1 /\
    default (last (l1 ++ e :: l2)) tl = last (l1 ++ l2).
Proof.
  intros Hn Hc. destruct (NoDup_split_notin _ _ _ Hn) as (H1 & H2 & Hn').
  apply chain_app in Hc as [Hc1 (Hp & Hx & Hc2)]. simpl in Hc1. destruct l2 as [|a l2]; simpl.
  - eexists _, _. split; [done|]. split_and!; try done; [by rewrite last_of_none, app_nil_r].
  - destruct (chain_lookup _ _ _ a _ _ Hc2 ltac:(left)) as [_ [w Hw]]. rewrite (assign_ok _ _ _ _ Hw). simpl.
    apply NoDup_app in Hn' as (_ & Hd & Hn2). apply NoDup_cons in Hn2 as [Hn2 _].
    eexists _, _. split; [done|].
    split; [exact (chain_set_prev _ _ _ _ _ _ _ Hn2 Hc2)|]. split_and!.
    + apply (chain_frame nx pv); [|done]. intros b Hb. rewrite lookup_insert_ne; [done|].
      intros <-. eapply Hd; [done|left].
    + rewrite lookup_insert_ne; [done|]. intros <-. apply H2. left.
    + apply framed_insert. left.
    + simpl. by rewrite !last_app_cons, last_cons_cons.
Qed.

(** The previous entry's forward pointer. *)
Lemma unlink_prev_side nx pv l1 l2 e :
  NoDup (l1 ++ l2) -> chain nx pv None l1 (Some e) -> chain nx pv (last_of None l1) l2 None ->
  exists nx1 hd, match last_of None l1 with
      | Some a => nx' ← assign nx a (first_of l2 None); Ok (nx', None)
      | None => Ok (nx, Some (first_of l2 None)) end = Ok (nx1, hd) /\
    chain nx1 pv None l1 (first_of l2 None) /\ chain nx1 pv (last_of None l1) l2 None /\
    framed l1 nx nx1 /\ default (head (l1 ++ e :: l2)) hd = head (l1 ++ l2) /\
    hd = match last_of None l1 with Some _ => None | None => Some (head (l1 ++ l2)) end.
Proof.
  intros Hn C1 C2. destruct l1 as [|a l1 _] using rev_ind; simpl.
  - eexists _, _. split; [done|]. split_and!; try done; by rewrite first_of_head.
  - rewrite last_of_snoc in *. destruct (chain_lookup _ _ _ a _ _ C1 ltac:(set_solver)) as [[w Hw] _].
    rewrite (assign_ok _ _ _ _ Hw). simpl. apply NoDup_app in Hn as (Hn1 & Hd & _).
    apply NoDup_app in Hn1 as (_ & Hd1 & _). eexists _, _. split; [done|]. split_and!; try done.
    + eapply chain_set_next; [|done]. intros Ha. eapply Hd1; [done|left].
    + apply (chain_frame nx pv); [|done]. intros b Hb. rewrite lookup_insert_ne; [done|].
      intros <-. by eapply (Hd a ltac:(set_solver)).
    + apply framed_insert. set_solver.
    + simpl. by destruct l1.
Qed.

(** What [unlink] leaves: the pointers on both sides skip [e], and head and tail
    are assigned when [e] was at that end. *)
Lemma unlink_dll nx pv l e : dll nx pv l -> e ∈ l ->
  exists nx' pv' hd tl, unlink e nx pv = Ok (nx', pv', hd, tl) /\
    dll nx' pv' (rm e l) /\ framed (rm e l) nx nx' /\ framed (rm e l) pv pv' /\
    default (head l) hd = head (rm e l) /\ default (last l) tl = last (rm e l) /\
    (forall p, pv !! e = Some p -> hd = match p with Some _ => None | None => Some (head (rm e l)) end).
Proof.
  intros [Hn Hc] (l1 & l2 & ->)%list_elem_of_split. rewrite (rm_split _ _ _ Hn).
  destruct (NoDup_split_notin _ _ _ Hn) as (_ & _ & Hn').
  destruct (unlink_next_side _ _ _ _ _ Hn Hc) as (pv1 & tl & E1 & C2 & C1 & Hp1 & F1 & Htl).
  destruct (unlink_prev_side _ _ _ _ _ Hn' C1 C2) as (nx1 & hd & E2 & D1 & D2 & F2 & Hhd & Hhd').
  apply chain_app in Hc as [_ (Hp & Hx & _)].
  unfold unlink. rewrite Hx, Hp. cbn [deref]. rewrite !bind_ok, E1, bind_ok, Hp1. cbn [deref].
  rewrite bind_ok, E2, bind_ok. eexists _, _, _, _. split; [done|]. split_and!; try done.
  - split; [done|]. by apply chain_app.
  - intros a Ha. apply F2. set_solver.
  - intros a Ha. apply F1. set_solver.
  - intros p [= <-]. exact Hhd'.
Qed.

(** The entry is returned to the allocator. *)
Lemma dll_delete nx pv l e : e ∉ l -> dll nx pv l -> dll (delete e nx) (delete e pv) l.
Proof.
  intros He [Hn Hc]. split; [done|]. apply (chain_frame nx pv); [|done].
  intros a Ha. rewrite !lookup_delete_ne; [done|congruence..].
Qed.

Lemma dll_frame nx pv nx' pv' l k : (forall a, a ∈ l -> a ∉ k) -> framed k nx nx' -> framed k pv pv' ->
  dll nx pv l -> dll nx' pv' l.
Proof.
  intros Hd F1 F2 [Hn Hc]. split; [done|]. apply (chain_frame nx pv); [|done]. naive_solver.
Qed.

(** Inserting at the front. *)
Lemma link_front_dll nx pv l e : dll nx pv l -> e ∉ l ->
  exists nx' pv', link_front e nx pv (head l) = Ok (nx', pv', Some e) /\ dll nx' pv' (e :: l) /\
    framed (e :: l) nx nx' /\ framed (e :: l) pv pv'.
Proof.
  intros [Hn Hc] He. unfold link_front.
  assert (chain (<[e := head l]> nx) (<[e := None]> pv) None l None) as Hc1.
  { apply (chain_frame nx pv); [|done]. intros a Ha. rewrite !lookup_insert_ne; [done|congruence..]. }
  assert (NoDup (e :: l)) by (by apply NoDup_cons).
  destruct l as [|a l]; simpl.
  - eexists _, _. split; [done|]. split_and!.
    + split; [done|]. simpl. by rewrite !lookup_insert_eq.
    + apply framed_insert. left.
    + apply framed_insert. left.
  - destruct (chain_lookup _ _ _ a _ _ Hc1 ltac:(left)) as [_ [w Hw]]. rewrite (assign_ok _ _ _ _ Hw). simpl.
    eexists _, _. split; [done|]. apply NoDup_cons in Hn as [Ha Hn].
    assert (a <> e) by set_solver. split_and!.
    + split; [done|]. split; [by rewrite lookup_insert_ne, lookup_insert_eq|].
      split; [by rewrite lookup_insert_eq|]. exact (chain_set_prev _ _ _ _ _ _ _ Ha Hc1).
    + apply framed_insert. left.
    + intros b Hb. rewrite !lookup_insert_ne; [done|set_solver..].
Qed.

(** Inserting at the back. *)
Lemma link_back_dll nx pv l e : dll nx pv l -> e ∉ l ->
  exists nx' pv', link_back e nx pv (head l) (last l) = Ok (nx', pv', head (l ++ [e]), Some e) /\
    dll nx' pv' (l ++ [e]).
Proof.
  intros [Hn Hc] He. unfold link_back.
  assert (chain (<[e := None]> nx) (<[e := last l]> pv) None l None) as Hc1.
  { apply (chain_frame nx pv); [|done]. intros a Ha. rewrite !lookup_insert_ne; [done|congruence..]. }
  assert (NoDup (l ++ [e])) by (apply NoDup_app; split_and!; [done|set_solver|apply NoDup_singleton]).
  destruct l as [|a l _] using rev_ind; simpl.
  - eexists _, _. split; [done|]. split; [done|]. simpl. by rewrite !lookup_insert_eq.
  - rewrite last_snoc in *. destruct (chain_lookup _ _ _ a _ _ Hc1 ltac:(set_solver)) as [[w Hw] _].
    rewrite bool_decide_eq_true_2 by (destruct l; simpl; eauto). simpl.
    rewrite (assign_ok _ _ _ _ Hw). simpl. eexists _, _. split; [destruct l; done|].
    apply NoDup_app in Hn as (_ & Hd & _). assert (a <> e) by set_solver.
    split; [done|]. apply chain_app. split.
    + eapply chain_set_next; [|exact Hc1]. intros Ha. eapply Hd; [done|left].
    + simpl. by rewrite last_of_snoc, (lookup_insert_ne _ a e), !lookup_insert_eq.
Qed.

(** A search finds the first entry the test accepts. *)
Lemma scan_chain nx pv (P : Z -> Prop) `{forall a, Decision (P a)} test l : forall p fuel,
  chain nx pv p l None -> (forall a, a ∈ l -> test a = Ok (bool_decide (P a))) -> (length l <= fuel)%nat ->
  scan fuel test nx (head l) = Ok (snd <$> list_find P l).
Proof.
  induction l as [|a l IH]; intros p fuel Hc Ht Hf; [by destruct fuel|].
  destruct fuel as [|fuel]; simpl in Hf; [lia|]. destruct Hc as (_ & Hx & Hc). simpl.
  rewrite Ht by left. simpl. destruct (decide (P a)).
  - by rewrite bool_decide_eq_true_2.
  - rewrite bool_decide_eq_false_2 by done. rewrite Hx. simpl. rewrite first_of_head.
    rewrite (IH (Some a)); [|done| |lia].
    + by destruct (list_find P l) as [[]|].
    + intros b Hb. apply Ht. by right.
Qed.

(** Steps along the list. *)
Lemma dll_next nx pv l1 e l2 : dll nx pv (l1 ++ e :: l2) -> nx !! e = Some (head l2).
Proof. intros [_ Hc]. apply chain_app in Hc as [_ (_ & -> & _)]. by rewrite first_of_head. Qed.

Lemma dll_prev nx pv l1 e l2 : dll nx pv (l1 ++ e :: l2) -> pv !! e = Some (last l1).
Proof. intros [_ Hc]. apply chain_app in Hc as [_ (-> & _)]. by rewrite last_of_none. Qed.

(** ** Hash tables

    An array of [NBUCKETS] list heads; new entries go to the front of their
    bucket.  [f] tells the bucket of an entry. *)
Definition NBUCKETS : Z := 127.

Definition table_insert (e b : Z) (nx pv : field) (heads : list (option Z))
    : outcome (field * field * list (option Z)) :=
  hd ← deref (heads !! Z.to_nat b);
  '(nx, pv, hd) ← link_front e nx pv hd;
  Ok (nx, pv, <[Z.to_nat b := hd]> heads).

(** The bucket is only computed for an entry at the head of its list. *)
Definition table_remove (e : Z) (b : outcome Z) (nx pv : field) (heads : list (option Z))
    : outcome (field * field * list (option Z)) :=
  '(nx, pv, hd, _) ← unlink e nx pv;
  match hd with
  | Some v => b ← b; Ok (nx, pv, <[Z.to_nat b := v]> heads)
  | None => Ok (nx, pv, heads)
  end.

(** The entries of bucket [b], the latest first, when [l] has all entries in the
    order of insertion. *)
Definition bucket (f : Z -> option Z) (b : Z) (l : list Z) : list Z :=
  reverse (filter (fun a => f a = Some b) l).

Record table_ok (nx pv : field) (heads : list (option Z)) (f : Z -> option Z) (l : list Z) : Prop := {
  table_length : length heads = Z.to_nat NBUCKETS;
  table_range a : a ∈ l -> exists b, f a = Some b /\ 0 <= b < NBUCKETS;
  table_dll b : 0 <= b < NBUCKETS -> dll nx pv (bucket f b l);
  table_head b : 0 <= b < NBUCKETS -> heads !! Z.to_nat b = Some (head (bucket f b l))
}.

Lemma bucket_elem_of f b l a : a ∈ bucket f b l <-> f a = Some b /\ a ∈ l.
Proof. unfold bucket. by rewrite elem_of_reverse, list_elem_of_filter. Qed.

Lemma bucket_rm f b l e : rm e (bucket f b l) = bucket f b (rm e l).
Proof. unfold bucket. by rewrite rm_reverse, rm_filter. Qed.

Lemma bucket_snoc f b l e :
  bucket f b (l ++ [e]) = if decide (f e = Some b) then e :: bucket f b l else bucket f b l.
Proof.
  unfold bucket. rewrite filter_app, reverse_app. simpl. unfold filter; simpl.
  by case_decide.
Qed.

Lemma bucket_ext f f' b l : (forall a, a ∈ l -> f' a = f a) -> bucket f' b l = bucket f b l.
Proof.
  intros Hf. unfold bucket. f_equal. induction l as [|a l IH]; [done|].
  rewrite !filter_cons, Hf by left. rewrite IH; [done|]. intros c Hc. apply Hf. by right.
Qed.

Lemma table_ext nx pv heads f f' l : (forall a, a ∈ l -> f' a = f a) ->
  table_ok nx pv heads f l -> table_ok nx pv heads f' l.
Proof.
  intros Hf [H1 H2 H3 H4]. split; [done| | |].
  - intros a Ha. rewrite Hf by done. auto.
  - intros b Hb. rewrite (bucket_ext f) by done. auto.
  - intros b Hb. rewrite (bucket_ext f) by done. auto.
Qed.

Lemma table_delete nx pv heads f l e : e ∉ l ->
  table_ok nx pv heads f l -> table_ok (delete e nx) (delete e pv) heads f l.
Proof.
  intros He [H1 H2 H3 H4]. split; [done|done| |done]. intros b Hb. apply dll_delete; [|auto].
  rewrite bucket_elem_of. naive_solver.
Qed.

(** The zeroed array of a new table. *)
Lemma table_new f : table_ok ∅ ∅ (replicate (Z.to_nat NBUCKETS) None) f [].
Proof.
  split; [done|by intros a ?%elem_of_nil|by split; [constructor|]|].
  intros b Hb. apply lookup_replicate_2. unfold NBUCKETS in *. lia.
Qed.

Lemma table_insert_ok nx pv heads f l e b : table_ok nx pv heads f l -> e ∉ l ->
  f e = Some b -> 0 <= b < NBUCKETS ->
  exists nx' pv' heads', table_insert e b nx pv heads = Ok (nx', pv', heads') /\
    table_ok nx' pv' heads' f (l ++ [e]).
Proof.
  intros [H1 H2 H3 H4] He Hf Hb. unfold table_insert. rewrite (H4 b Hb). simpl.
  assert (e ∉ bucket f b l) by (rewrite bucket_elem_of; naive_solver).
  destruct (link_front_dll _ _ _ e (H3 b Hb)) as (nx' & pv' & -> & Hd & F1 & F2); [done|]. simpl.
  eexists _, _, _. split; [done|]. split.
  - by rewrite length_insert.
  - intros a [Ha|Ha]%elem_of_app; [auto|]. apply list_elem_of_singleton in Ha as ->. eauto.
  - intros c Hc. rewrite bucket_snoc. case_decide as Hec; [by assert (c = b) as -> by congruence|].
    eapply dll_frame; [|exact F1|exact F2|auto]. intros a Ha Hin. apply elem_of_cons in Hin as [->|Hin].
    + apply bucket_elem_of in Ha as [? _]. congruence.
    + apply bucket_elem_of in Ha as [? _], Hin as [? _]. congruence.
  - intros c Hc. rewrite bucket_snoc. case_decide as Hec.
    + assert (c = b) as -> by congruence. rewrite list_lookup_insert_eq by (unfold NBUCKETS in *; lia). done.
    + rewrite list_lookup_insert_ne; [auto|]. intros ?. apply Hec. rewrite Hf. f_equal. lia.
Qed.

Lemma table_remove_ok nx pv heads f l e b : table_ok nx pv heads f l -> e ∈ l -> NoDup l ->
  f e = Some b ->
  exists nx' pv' heads', table_remove e (Ok b) nx pv heads = Ok (nx', pv', heads') /\
    table_ok nx' pv' heads' f (rm e l).
Proof.
  intros [H1 H2 H3 H4] He Hn Hf. destruct (H2 e He) as (b' & Hf' & Hb). rewrite Hf in Hf'. injection Hf' as <-.
  assert (e ∈ bucket f b l) as Hin by (by apply bucket_elem_of).
  destruct (unlink_dll _ _ _ _ (H3 b Hb) Hin) as (nx' & pv' & hd & tl & E & Hd & F1 & F2 & Hh & _ & _).
  rewrite bucket_rm in *. unfold table_remove. rewrite E. simpl.
  assert (forall c, 0 <= c < NBUCKETS -> c <> b -> bucket f c (rm e l) = bucket f c l /\
    dll nx' pv' (bucket f c (rm e l))) as Hother.
  { intros c Hc Hcb. assert (bucket f c (rm e l) = bucket f c l) as Eq.
    { rewrite <- bucket_rm. apply rm_notin. rewrite bucket_elem_of. naive_solver. }
    split; [done|]. rewrite Eq. eapply dll_frame; [|exact F1|exact F2|auto]. intros a Ha Hin'.
    apply bucket_elem_of in Ha as [? _], Hin' as [? _]. congruence. }
  exists nx', pv', (match hd with Some v => <[Z.to_nat b := v]> heads | None => heads end).
  split; [by destruct hd|]. split.
  - destruct hd; by rewrite ?length_insert.
  - intros a [_ Ha]%rm_elem_of. auto.
  - intros c Hc. destruct (decide (c = b)) as [->|]; [done|by apply Hother].
  - intros c Hc. destruct (decide (c = b)) as [->|Hcb].
    + destruct hd as [v|]; simpl in Hh; [|by rewrite H4, Hh].
      rewrite list_lookup_insert_eq by (unfold NBUCKETS in *; lia). by rewrite Hh.
    + destruct (Hother c Hc Hcb) as [-> _]. destruct hd as [v|]; [|auto].
      rewrite list_lookup_insert_ne; [auto|]. lia.
Qed.

(** A search in the bucket of what is looked for decides whether any entry of
    the table fits. *)
Lemma table_scan nx pv heads f l b (P : Z -> Prop) `{forall a, Decision (P a)} test fuel :
  table_ok nx pv heads f l -> 0 <= b < NBUCKETS -> (forall a, a ∈ l -> P a -> f a = Some b) ->
  (forall a, a ∈ l -> test a = Ok (bool_decide (P a))) -> (length l <= fuel)%nat ->
  exists r, (hd ← deref (heads !! Z.to_nat b); scan fuel test nx hd) = Ok r /\
    match r with Some a => a ∈ l /\ P a | None => forall a, a ∈ l -> ~ P a end.
Proof.
  intros [H1 H2 H3 H4] Hb HP Ht Hf. rewrite (H4 b Hb). cbn [deref]. rewrite bind_ok.
  rewrite (scan_chain nx pv P _ _ None).
  - eexists. split; [done|]. destruct (list_find P _) as [[i a]|] eqn:E; simpl.
    + apply list_find_Some in E as (E & HPa & _). apply list_elem_of_lookup_2, bucket_elem_of in E as [_ ?]. done.
    + apply list_find_None in E. intros a Ha HPa.
      rewrite Forall_forall in E. apply (E a); [|done]. apply bucket_elem_of. auto.
  - by destruct (H3 b Hb).
  - intros a [_ Ha]%bucket_elem_of. auto.
  - unfold bucket. rewrite length_reverse.
    etrans; [|done]. apply length_filter.
Qed.
