(* ===== verification/Idxset.v ===== *)
(** * Idxset: sets with stable indices

    Models [src/pulsecore/idxset.c]: a set of pointers that hands out an index
    for each of them, with a hash table by content, a hash table by index, and a
    list in the order of insertion, all three threaded through the entries.

    The caller's hash and compare functions are the interface [KeyOps], with the
    laws the tables rely on in [KeyLaws]; the two pairs of functions the file
    provides are instances.  Entries come from the allocator: the operations
    that make one take its address as an argument. *)
From Stdlib Require Import Sorting.Sorted.
From stdpp Require Import base tactics numbers list gmap strings.
From S2P Require Import Prelude Dll.

Definition PA_IDXSET_INVALID : Z := UINT32_MAX.

(** [pa_hash_func_t] and [pa_compare_func_t]. *)
Class KeyOps (K : Type) := {
  hash_func : K -> Z;
  compare_func : K -> K -> Z
}.

Class KeyLaws (K : Type) `{KeyOps K} := {
  hash_range k : 0 <= hash_func k < 2 ^ 32;
  compare_refl k : compare_func k k = 0;
  compare_sym a b : compare_func a b = 0 -> compare_func b a = 0;
  compare_trans a b c : compare_func a b = 0 -> compare_func b c = 0 -> compare_func a c = 0;
  hash_compare a b : compare_func a b = 0 -> hash_func a = hash_func b
}.

(** [p == NULL], for the pointers to the data. *)
Class Nullable (K : Type) := is_null : K -> bool.

(** ** The hash and compare functions of the file *)

(** [(unsigned) *c]: [char] is signed. *)
Definition char_to_unsigned (c : Ascii.ascii) : Z :=
  let x := Z.of_nat (Ascii.nat_of_ascii c) in u32 (if x <? 128 then x else x - 256).

Definition nul : Ascii.ascii := Ascii.zero.

(** The loop stops at the first null byte; one follows the last character. *)
Fixpoint string_hash (hash : Z) (s : string) : Z :=
  match s with
  | EmptyString => hash
  | String c s =>
      if bool_decide (c = nul) then hash else string_hash (u32 (31 * hash + char_to_unsigned c)) s
  end.

Definition pa_idxset_string_hash_func (s : string) : Z := string_hash 0 s.

Definition first_char (s : string) : Ascii.ascii := match s with EmptyString => nul | String c _ => c end.

(** [strcmp]: the difference at the first byte that differs. *)
Fixpoint strcmp (a b : string) : Z :=
  match a, b with
  | String x a', String y b' =>
      if bool_decide (x = y) then (if bool_decide (x = nul) then 0 else strcmp a' b')
      else Z.of_nat (Ascii.nat_of_ascii x) - Z.of_nat (Ascii.nat_of_ascii y)
  | _, _ => Z.of_nat (Ascii.nat_of_ascii (first_char a)) - Z.of_nat (Ascii.nat_of_ascii (first_char b))
  end.

Definition pa_idxset_string_compare_func (a b : string) : Z := strcmp a b.

(** On pointers. *)
Definition pa_idxset_trivial_hash_func (p : Z) : Z := u32 p.
Definition pa_idxset_trivial_compare_func (a b : Z) : Z := if a <? b then -1 else if b <? a then 1 else 0.

#[export] Instance pointer_ops : KeyOps Z :=
  {| hash_func := pa_idxset_trivial_hash_func; compare_func := pa_idxset_trivial_compare_func |}.

#[export] Instance string_ops : KeyOps string :=
  {| hash_func := pa_idxset_string_hash_func; compare_func := pa_idxset_string_compare_func |}.

#[export] Instance pointer_null : Nullable Z := fun p => p =? 0.

(** The pointer to a string is none. *)
#[export] Instance string_null : Nullable string := fun _ => false.

(** ** The set *)

Record pa_idxset (K : Type) := mk_idxset {
  is_current_index : Z;
  is_head : option Z;               (* iterate_list_head *)
  is_tail : option Z;
  is_n_entries : Z;
  is_by_data : list (option Z);     (* BY_DATA(s) *)
  is_by_index : list (option Z);    (* BY_INDEX(s) *)
  is_idx : gmap Z Z;                (* the fields of struct idxset_entry *)
  is_data : gmap Z K;
  is_data_next : field;
  is_data_previous : field;
  is_index_next : field;
  is_index_previous : field;
  is_iterate_next : field;
  is_iterate_previous : field
}.
Arguments mk_idxset {K}.
Arguments is_current_index {K}.
Arguments is_head {K}.
Arguments is_tail {K}.
Arguments is_n_entries {K}.
Arguments is_by_data {K}.
Arguments is_by_index {K}.
Arguments is_idx {K}.
Arguments is_data {K}.
Arguments is_data_next {K}.
Arguments is_data_previous {K}.
Arguments is_index_next {K}.
Arguments is_index_previous {K}.
Arguments is_iterate_next {K}.
Arguments is_iterate_previous {K}.

(** The cursor of an iteration: a null pointer, an entry, or [(void* ) -1]. *)
Inductive cursor := CurNull | CurAt (e : Z) | CurEnd.

Section operations.
Context {K : Type} `{KeyOps K, Nullable K}.
Implicit Types (s : pa_idxset K) (e i : Z) (p : K).

Definition pa_idxset_new : pa_idxset K :=
  mk_idxset 0 None None 0 (replicate (Z.to_nat NBUCKETS) None) (replicate (Z.to_nat NBUCKETS) None)
    ∅ ∅ ∅ ∅ ∅ ∅ ∅ ∅.

Definition idxset_remove_entry s e : outcome (pa_idxset K) :=
  '(itn, itp, hd, tl) ← unlink e (is_iterate_next s) (is_iterate_previous s);
  '(dn, dp, by_data) ← table_remove e (d ← deref (is_data s !! e); Ok (hash_func d mod NBUCKETS))
                         (is_data_next s) (is_data_previous s) (is_by_data s);
  '(xn, xp, by_index) ← table_remove e (i ← deref (is_idx s !! e); Ok (i mod NBUCKETS))
                         (is_index_next s) (is_index_previous s) (is_by_index s);
  _ ← pa_assert (1 <=? is_n_entries s);
  Ok (mk_idxset (is_current_index s) (default (is_head s) hd) (default (is_tail s) tl)
        (u32 (is_n_entries s - 1)) by_data by_index (delete e (is_idx s)) (delete e (is_data s))
        (delete e dn) (delete e dp) (delete e xn) (delete e xp) (delete e itn) (delete e itp)).

(** A list has at most as many entries as exist. *)
Definition data_scan s (hash : Z) p : outcome (option Z) :=
  _ ← pa_assert (hash <? NBUCKETS);
  _ ← pa_assert (negb (is_null p));
  hd ← deref (is_by_data s !! Z.to_nat hash);
  scan (size (is_data s)) (fun a => d ← deref (is_data s !! a); Ok (compare_func d p =? 0)) (is_data_next s) hd.

Definition index_scan s (hash : Z) i : outcome (option Z) :=
  _ ← pa_assert (hash <? NBUCKETS);
  hd ← deref (is_by_index s !! Z.to_nat hash);
  scan (size (is_idx s)) (fun a => j ← deref (is_idx s !! a); Ok (j =? i)) (is_index_next s) hd.

(** The result, what is stored in [*idx], and the set. *)
Definition pa_idxset_put s e p : outcome (Z * Z * pa_idxset K) :=
  let hash := hash_func p mod NBUCKETS in
  r ← data_scan s hash p;
  match r with
  | Some a => i ← deref (is_idx s !! a); Ok (-1, i, s)
  | None =>
      let i := is_current_index s in
      '(dn, dp, by_data) ← table_insert e hash (is_data_next s) (is_data_previous s) (is_by_data s);
      '(xn, xp, by_index) ← table_insert e (i mod NBUCKETS) (is_index_next s) (is_index_previous s) (is_by_index s);
      '(itn, itp, hd, tl) ← link_back e (is_iterate_next s) (is_iterate_previous s) (is_head s) (is_tail s);
      let n := u32 (is_n_entries s + 1) in
      _ ← pa_assert (1 <=? n);
      Ok (0, i, mk_idxset (u32 (i + 1)) hd tl n by_data by_index (<[e := i]> (is_idx s)) (<[e := p]> (is_data s))
                  dn dp xn xp itn itp)
  end.

(** The data of an entry, as the functions return it. *)
Definition entry_data s e : outcome (option K) := d ← deref (is_data s !! e); Ok (Some d).

Definition pa_idxset_get_by_index s i : outcome (option K) :=
  r ← index_scan s (i mod NBUCKETS) i;
  match r with None => Ok None | Some a => entry_data s a end.

(** With the value stored in [*idx], if it is. *)
Definition pa_idxset_get_by_data s p : outcome (option K * option Z) :=
  r ← data_scan s (hash_func p mod NBUCKETS) p;
  match r with
  | None => Ok (None, None)
  | Some a => i ← deref (is_idx s !! a); d ← entry_data s a; Ok (d, Some i)
  end.

Definition pa_idxset_remove_by_index s i : outcome (option K * pa_idxset K) :=
  r ← index_scan s (i mod NBUCKETS) i;
  match r with
  | None => Ok (None, s)
  | Some a => d ← entry_data s a; s ← idxset_remove_entry s a; Ok (d, s)
  end.

Definition pa_idxset_remove_by_data s p : outcome (option K * option Z * pa_idxset K) :=
  r ← data_scan s (hash_func p mod NBUCKETS) p;
  match r with
  | None => Ok (None, None, s)
  | Some a =>
      d ← entry_data s a; i ← deref (is_idx s !! a);
      s ← idxset_remove_entry s a; Ok (d, Some i, s)
  end.

(** [while (s->iterate_list_head)], once per entry; the data handed to
    [free_cb], in order. *)
Fixpoint remove_all_loop (fuel : nat) s : outcome (list K * pa_idxset K) :=
  match is_head s, fuel with
  | None, _ => Ok ([], s)
  | Some _, O => UB
  | Some a, S fuel =>
      d ← deref (is_data s !! a);
      s ← idxset_remove_entry s a;
      '(r, s) ← remove_all_loop fuel s;
      Ok (d :: r, s)
  end.

Definition pa_idxset_remove_all s : outcome (list K * pa_idxset K) := remove_all_loop (size (is_data s)) s.

(** The data and the new [*idx]. *)
Definition pa_idxset_rrobin s i : outcome (option K * Z) :=
  r ← index_scan s (i mod NBUCKETS) i;
  e ← match r with
      | Some a => n ← deref (is_iterate_next s !! a); Ok (match n with Some _ => n | None => is_head s end)
      | None => Ok (is_head s)
      end;
  match e with
  | None => Ok (None, i)
  | Some a => i ← deref (is_idx s !! a); d ← entry_data s a; Ok (d, i)
  end.

(** The data, [*idx] and the new cursor. *)
Definition pa_idxset_iterate s (c : cursor) : outcome (option K * Z * cursor) :=
  match match c with CurEnd => None | CurAt e => Some e | CurNull => is_head s end with
  | None => Ok (None, PA_IDXSET_INVALID, CurEnd)
  | Some e =>
      n ← deref (is_iterate_next s !! e);
      i ← deref (is_idx s !! e);
      d ← entry_data s e;
      Ok (d, i, match n with Some n => CurAt n | None => CurEnd end)
  end.

Definition pa_idxset_steal_first s : outcome (option K * option Z * pa_idxset K) :=
  match is_head s with
  | None => Ok (None, None, s)
  | Some a =>
      d ← entry_data s a; i ← deref (is_idx s !! a);
      s ← idxset_remove_entry s a; Ok (d, Some i, s)
  end.

Definition pa_idxset_first s : outcome (option K * Z) :=
  match is_head s with
  | None => Ok (None, PA_IDXSET_INVALID)
  | Some a => i ← deref (is_idx s !! a); d ← entry_data s a; Ok (d, i)
  end.

(** [for ( *idx; *idx < current_index; ( *idx)++)], [fuel] numbers at most. *)
Fixpoint next_loop (fuel : nat) s i : outcome (option K * Z) :=
  if i <? is_current_index s then
    match fuel with
    | O => UB
    | S fuel =>
        r ← index_scan s (i mod NBUCKETS) i;
        match r with
        | Some a => j ← deref (is_idx s !! a); d ← entry_data s a; Ok (d, j)
        | None => next_loop fuel s (u32 (i + 1))
        end
    end
  else Ok (None, PA_IDXSET_INVALID).

Definition pa_idxset_next s i : outcome (option K * Z) :=
  if i =? PA_IDXSET_INVALID then Ok (None, i)
  else
    r ← index_scan s (i mod NBUCKETS) i;
    match r with
    | Some a =>
        n ← deref (is_iterate_next s !! a);
        match n with
        | Some b => j ← deref (is_idx s !! b); d ← entry_data s b; Ok (d, j)
        | None => Ok (None, PA_IDXSET_INVALID)
        end
    | None => next_loop (Z.to_nat (is_current_index s - i)) s (u32 (i + 1))
    end.

Definition pa_idxset_size s : Z := is_n_entries s.
Definition pa_idxset_isempty s : bool := is_n_entries s =? 0.

(** [copy_func] is the identity when it is null; [es] are the new entries. *)
Fixpoint copy_loop (fuel : nat) (copy_func : K -> K) s (i : option Z) (es : list Z) (copy : pa_idxset K)
    : outcome (pa_idxset K) :=
  match i, fuel, es with
  | None, _, _ => Ok copy
  | Some a, S fuel, e :: es =>
      d ← deref (is_data s !! a);
      '(_, _, copy) ← pa_idxset_put copy e (copy_func d);
      n ← deref (is_iterate_next s !! a);
      copy_loop fuel copy_func s n es copy
  | _, _, _ => UB
  end.

Definition pa_idxset_copy s (copy_func : K -> K) (es : list Z) : outcome (pa_idxset K) :=
  copy_loop (size (is_data s)) copy_func s (is_head s) es pa_idxset_new.

(** Calling [pa_idxset_iterate] until it returns a null pointer. *)
Fixpoint iterate_loop (fuel : nat) s (c : cursor) : outcome (list (Z * K)) :=
  match fuel with
  | O => UB
  | S fuel =>
      '(d, i, c) ← pa_idxset_iterate s c;
      match d with
      | None => Ok []
      | Some d => r ← iterate_loop fuel s c; Ok ((i, d) :: r)
      end
  end.
End operations.

(** ** Lists of pairwise different elements, and sorted lists *)

Lemma bool_decide_eqb (b : bool) : bool_decide (b = true) = b.
Proof. by destruct b. Qed.

Lemma Forall2_impl_elem {A B} (P Q : A -> B -> Prop) l k : Forall2 P l k ->
  (forall a b, a ∈ l -> b ∈ k -> P a b -> Q a b) -> Forall2 Q l k.
Proof.
  induction 1 as [|a b l k Hab _ IH]; intros HPQ; constructor; [apply HPQ; [left..|done]|].
  apply IH. intros. apply HPQ; [by right..|done].
Qed.

Lemma delete_distinct {A} (R : A -> A -> Prop) (k1 k2 : list A) x :
  (forall i j a b, (k1 ++ x :: k2) !! i = Some a -> (k1 ++ x :: k2) !! j = Some b -> R a b -> i = j) ->
  forall i j a b, (k1 ++ k2) !! i = Some a -> (k1 ++ k2) !! j = Some b -> R a b -> i = j.
Proof.
  intros Hd i j a b Ha Hb Hab.
  assert (forall i a, (k1 ++ k2) !! i = Some a ->
    (k1 ++ x :: k2) !! (if decide (i < length k1)%nat then i else S i) = Some a) as Hup.
  { intros n c Hc. case_decide; [rewrite lookup_app_l in * by lia; done|].
    rewrite lookup_app_r in * by lia. by rewrite Nat.sub_succ_l by lia. }
  pose proof (Hd _ _ _ _ (Hup _ _ Ha) (Hup _ _ Hb) Hab) as E. repeat case_decide; lia.
Qed.

Lemma snoc_distinct {A} (R : A -> A -> Prop) (kv : list A) x : (forall a b, R a b -> R b a) ->
  (forall i j a b, kv !! i = Some a -> kv !! j = Some b -> R a b -> i = j) ->
  Forall (fun a => ~ R a x) kv ->
  forall i j a b, (kv ++ [x]) !! i = Some a -> (kv ++ [x]) !! j = Some b -> R a b -> i = j.
Proof.
  intros Hs Hd Hx j k y z Hj Hk Hc. rewrite Forall_lookup in Hx.
  apply lookup_app_Some in Hj as [Hj|[Hj1 Hj]], Hk as [Hk|[Hk1 Hk]].
  - eauto.
  - apply list_lookup_singleton_Some in Hk as [_ <-]. by destruct (Hx _ _ Hj).
  - apply list_lookup_singleton_Some in Hj as [_ <-]. destruct (Hx _ _ Hk). by apply Hs.
  - apply list_lookup_singleton_Some in Hj as [? _], Hk as [? _]. lia.
Qed.

Lemma StronglySorted_skip (l1 l2 : list Z) x :
  StronglySorted Z.lt (l1 ++ x :: l2) -> StronglySorted Z.lt (l1 ++ l2).
Proof.
  induction l1 as [|a l1 IH]; simpl; intros [Hs Hf]%StronglySorted_inv; [done|].
  constructor; [auto|]. rewrite Forall_app, Forall_cons in *. naive_solver.
Qed.

Lemma StronglySorted_snoc (l : list Z) x : StronglySorted Z.lt l -> Forall (fun y => y < x) l ->
  StronglySorted Z.lt (l ++ [x]).
Proof.
  induction 1 as [|a l Hs IH Hf]; intros Hx; simpl; [repeat constructor|].
  apply Forall_cons in Hx as [Hax Hx]. constructor; [auto|]. apply Forall_app. split; [done|]. by constructor.
Qed.

(** ** Representation

    The entries [l] in the order of insertion carry the pairs [kv] of index and
    data.  Indices grow with the order of insertion as long as fewer than
    2^32 entries were ever made. *)
Section representation.
Context {K : Type} `{KeyLaws K} {Knull : Nullable K}.
Implicit Types (s : pa_idxset K) (e i : Z) (p : K) (l : list Z) (kv : list (Z * K)).

Definition data_bucket s (a : Z) : option Z := (fun d => hash_func d mod NBUCKETS) <$> is_data s !! a.
Definition index_bucket s (a : Z) : option Z := (fun i => i mod NBUCKETS) <$> is_idx s !! a.

Definition carries s (a : Z) (x : Z * K) : Prop := is_idx s !! a = Some x.1 /\ is_data s !! a = Some x.2.

Record idxset_rep s l kv : Prop := {
  ir_iterate : dll (is_iterate_next s) (is_iterate_previous s) l;
  ir_head : is_head s = head l;
  ir_tail : is_tail s = last l;
  ir_carries : Forall2 (carries s) l kv;
  ir_size_idx : size (is_idx s) = length l;
  ir_size_data : size (is_data s) = length l;
  ir_n : is_n_entries s = Z.of_nat (length l);
  ir_by_data : table_ok (is_data_next s) (is_data_previous s) (is_by_data s) (data_bucket s) l;
  ir_by_index : table_ok (is_index_next s) (is_index_previous s) (is_by_index s) (index_bucket s) l;
  ir_distinct j k x y : kv !! j = Some x -> kv !! k = Some y -> compare_func x.2 y.2 = 0 -> j = k;
  ir_sorted : StronglySorted Z.lt kv.*1;
  ir_below : Forall (fun x => 0 <= x.1 < is_current_index s) kv;
  ir_current : Z.of_nat (length l) <= is_current_index s < 2 ^ 32
}.

Lemma mod_buckets x : 0 <= x mod NBUCKETS < NBUCKETS.
Proof. unfold NBUCKETS. apply Z.mod_pos_bound. lia. Qed.

Lemma rep_carries s l kv a : idxset_rep s l kv -> a ∈ l ->
  exists j x, l !! j = Some a /\ kv !! j = Some x /\ carries s a x.
Proof.
  intros R [j Hj]%list_elem_of_lookup. destruct (Forall2_lookup_l _ _ _ _ _ (ir_carries _ _ _ R) Hj) as (x & ? & ?).
  eauto.
Qed.

(** Searching by content and by index. *)
Lemma data_scan_ok s l kv p : idxset_rep s l kv -> is_null p = false ->
  exists r, data_scan s (hash_func p mod NBUCKETS) p = Ok r /\
    match r with
    | Some a => exists j x, l !! j = Some a /\ kv !! j = Some x /\ carries s a x /\ compare_func x.2 p = 0
    | None => Forall (fun x => compare_func x.2 p <> 0) kv
    end.
Proof.
  intros R Hp. unfold data_scan. rewrite (pa_assert_true (_ <? NBUCKETS)), bind_ok by (pose proof (mod_buckets (hash_func p)); blia).
  rewrite Hp, pa_assert_true, bind_ok by done.
  destruct (table_scan _ _ _ _ _ (hash_func p mod NBUCKETS)
    (fun a => from_option (fun d => compare_func d p =? 0) false (is_data s !! a) = true)
    (fun a => d ← deref (is_data s !! a); Ok (compare_func d p =? 0)) (size (is_data s)) (ir_by_data _ _ _ R))
    as (r & -> & Hr).
  - apply mod_buckets.
  - intros a Ha HP. destruct (rep_carries _ _ _ _ R Ha) as (j & x & _ & _ & _ & Hd).
    unfold data_bucket. rewrite Hd in *. simpl in *. apply Z.eqb_eq in HP. by rewrite (hash_compare _ _ HP).
  - intros a Ha. destruct (rep_carries _ _ _ _ R Ha) as (j & x & _ & _ & _ & Hd). rewrite Hd. simpl.
    by rewrite bool_decide_eqb.
  - by rewrite (ir_size_data _ _ _ R).
  - exists r. split; [done|]. destruct r as [a|].
    + destruct Hr as [Ha HP]. destruct (rep_carries _ _ _ _ R Ha) as (j & x & Hj & Hx & Hc).
      exists j, x. split_and!; try done. destruct Hc as [_ Hd]. rewrite Hd in HP. simpl in HP. by apply Z.eqb_eq.
    + apply Forall_lookup. intros j x Hx. destruct (Forall2_lookup_r _ _ _ _ _ (ir_carries _ _ _ R) Hx)
        as (a & Ha & _ & Hd). intros Hc. apply (Hr a (list_elem_of_lookup_2 _ _ _ Ha)). rewrite Hd. simpl. by apply Z.eqb_eq.
Qed.

Lemma index_scan_ok s l kv i : idxset_rep s l kv ->
  exists r, index_scan s (i mod NBUCKETS) i = Ok r /\
    match r with
    | Some a => exists j x, l !! j = Some a /\ kv !! j = Some x /\ carries s a x /\ x.1 = i
    | None => Forall (fun x => x.1 <> i) kv
    end.
Proof.
  intros R. unfold index_scan. rewrite pa_assert_true, bind_ok by (pose proof (mod_buckets i); blia).
  destruct (table_scan _ _ _ _ _ (i mod NBUCKETS) (fun a => from_option (fun j => j =? i) false (is_idx s !! a) = true)
    (fun a => j ← deref (is_idx s !! a); Ok (j =? i)) (size (is_idx s)) (ir_by_index _ _ _ R)) as (r & -> & Hr).
  - apply mod_buckets.
  - intros a Ha HP. destruct (rep_carries _ _ _ _ R Ha) as (j & x & _ & _ & Hd & _).
    unfold index_bucket. rewrite Hd in *. simpl in *. apply Z.eqb_eq in HP. by rewrite HP.
  - intros a Ha. destruct (rep_carries _ _ _ _ R Ha) as (j & x & _ & _ & Hd & _). rewrite Hd. simpl.
    by rewrite bool_decide_eqb.
  - by rewrite (ir_size_idx _ _ _ R).
  - exists r. split; [done|]. destruct r as [a|].
    + destruct Hr as [Ha HP]. destruct (rep_carries _ _ _ _ R Ha) as (j & x & Hj & Hx & Hc).
      exists j, x. split_and!; try done. destruct Hc as [Hd _]. rewrite Hd in HP. simpl in HP. by apply Z.eqb_eq.
    + apply Forall_lookup. intros j x Hx. destruct (Forall2_lookup_r _ _ _ _ _ (ir_carries _ _ _ R) Hx)
        as (a & Ha & Hd & _). intros Hc. apply (Hr a (list_elem_of_lookup_2 _ _ _ Ha)). rewrite Hd. simpl. by apply Z.eqb_eq.
Qed.

(** Taking out the entry [e] with the pair [x]. *)
Lemma remove_entry_ok s l1 e l2 k1 x k2 : idxset_rep s (l1 ++ e :: l2) (k1 ++ x :: k2) -> length l1 = length k1 ->
  exists s', idxset_remove_entry s e = Ok s' /\ idxset_rep s' (l1 ++ l2) (k1 ++ k2) /\
    is_current_index s' = is_current_index s.
Proof.
  intros R Hlen. set (l := l1 ++ e :: l2) in *.
  assert (e ∈ l) as He by set_solver. pose proof (dll_nodup _ _ _ (ir_iterate _ _ _ R)) as Hn.
  destruct (NoDup_split_notin _ _ _ Hn) as (Hn1 & Hn2 & _). assert (e ∉ l1 ++ l2) as Hne by set_solver.
  pose proof (ir_carries _ _ _ R) as Hc. apply Forall2_app_inv in Hc as [Hc1 Hc2]; [|done].
  apply Forall2_cons in Hc2 as [[Hi Hd] Hc2].
  destruct (unlink_dll _ _ _ _ (ir_iterate _ _ _ R) He) as (itn & itp & hd & tl & E1 & D1 & _ & _ & Hhd & Htl & _).
  destruct (table_remove_ok _ _ _ _ _ e (hash_func x.2 mod NBUCKETS) (ir_by_data _ _ _ R) He Hn)
    as (dn & dp & bd & E2 & T2); [unfold data_bucket; by rewrite Hd|].
  destruct (table_remove_ok _ _ _ _ _ e (x.1 mod NBUCKETS) (ir_by_index _ _ _ R) He Hn)
    as (xn & xp & bi & E3 & T3); [unfold index_bucket; by rewrite Hi|].
  unfold l in D1, T2, T3, Hhd, Htl. rewrite (rm_split _ _ _ Hn) in D1, T2, T3, Hhd, Htl.
  pose proof (ir_n _ _ _ R) as Hnn. pose proof (ir_current _ _ _ R) as Hcur.
  assert (length l = S (length (l1 ++ l2))) as Hll by (unfold l; rewrite !length_app; simpl; lia).
  unfold idxset_remove_entry. rewrite E1, bind_ok, Hd, Hi. cbn [deref]. rewrite !bind_ok, E2, bind_ok, E3, bind_ok.
  rewrite pa_assert_true, bind_ok by blia. eexists. split; [done|]. split; [|done].
  assert (forall a, a ∈ l1 ++ l2 -> a <> e) as Hae by (intros a Ha ->; done).
  split; cbn.
  - by apply dll_delete.
  - by rewrite (ir_head _ _ _ R).
  - by rewrite (ir_tail _ _ _ R).
  - apply (Forall2_impl_elem (carries s)); [by apply Forall2_app|]. intros a y Ha _ [? ?].
    unfold carries; simpl. by rewrite !lookup_delete_ne by (apply not_eq_sym, Hae, Ha).
  - rewrite map_size_delete, Hi, (ir_size_idx _ _ _ R). simpl. lia.
  - rewrite map_size_delete, Hd, (ir_size_data _ _ _ R). simpl. lia.
  - rewrite u32_small; lia.
  - apply table_delete; [done|]. eapply table_ext; [|exact T2]. intros a Ha. unfold data_bucket; simpl.
    by rewrite lookup_delete_ne by (apply not_eq_sym, Hae, Ha).
  - apply table_delete; [done|]. eapply table_ext; [|exact T3]. intros a Ha. unfold index_bucket; simpl.
    by rewrite lookup_delete_ne by (apply not_eq_sym, Hae, Ha).
  - by eapply delete_distinct, (ir_distinct _ _ _ R).
  - pose proof (ir_sorted _ _ _ R) as Hs. rewrite !fmap_app, fmap_cons in *. by eapply StronglySorted_skip.
  - pose proof (ir_below _ _ _ R) as Hb. rewrite !Forall_app, Forall_cons in *. naive_solver.
  - lia.
Qed.
(** Making the entry [e] for new data. *)
Definition fresh s e : Prop := is_idx s !! e = None /\ is_data s !! e = None.

Lemma fresh_notin s l kv e : idxset_rep s l kv -> fresh s e -> e ∉ l.
Proof. intros R [_ Hf] He. destruct (rep_carries _ _ _ _ R He) as (j & x & _ & _ & _ & ?). congruence. Qed.

Lemma put_new_ok s l kv e p : idxset_rep s l kv -> fresh s e -> is_current_index s < 2 ^ 32 - 1 ->
  Forall (fun x => compare_func x.2 p <> 0) kv -> is_null p = false ->
  exists s', pa_idxset_put s e p = Ok (0, is_current_index s, s') /\
    idxset_rep s' (l ++ [e]) (kv ++ [(is_current_index s, p)]) /\
    is_current_index s' = is_current_index s + 1.
Proof.
  intros R Hf Hcur Hnew Hp. pose proof (fresh_notin _ _ _ _ R Hf) as Hel. destruct Hf as [Hfi Hfd].
  destruct (data_scan_ok s l kv p R Hp) as (r & E & Hr).
  assert (r = None) as ->.
  { destruct r as [a|]; [|done]. destruct Hr as (j & x & _ & Hx & _ & Hc).
    rewrite Forall_lookup in Hnew. by destruct (Hnew _ _ Hx). }
  set (i := is_current_index s) in *. pose proof (ir_current _ _ _ R) as Hb. fold i in Hb.
  pose proof (ir_n _ _ _ R) as Hnn.
  set (fd := fun a => if decide (a = e) then Some (hash_func p mod NBUCKETS) else data_bucket s a).
  set (fi := fun a => if decide (a = e) then Some (i mod NBUCKETS) else index_bucket s a).
  assert (forall a, a ∈ l -> a <> e) as Hae by (intros a Ha ->; done).
  destruct (table_insert_ok _ _ _ fd l e (hash_func p mod NBUCKETS)
    (table_ext _ _ _ _ fd _ ltac:(intros a Ha; unfold fd; case_decide; [by destruct (Hae a)|done]) (ir_by_data _ _ _ R)))
    as (dn & dp & bd & E1 & T1); [done|unfold fd; by case_decide|apply mod_buckets|].
  destruct (table_insert_ok _ _ _ fi l e (i mod NBUCKETS)
    (table_ext _ _ _ _ fi _ ltac:(intros a Ha; unfold fi; case_decide; [by destruct (Hae a)|done]) (ir_by_index _ _ _ R)))
    as (xn & xp & bi & E2 & T2); [done|unfold fi; by case_decide|apply mod_buckets|].
  destruct (link_back_dll _ _ _ e (ir_iterate _ _ _ R) Hel) as (itn & itp & E3 & D3).
  unfold pa_idxset_put. rewrite E, bind_ok. fold i. rewrite E1, bind_ok, E2, bind_ok.
  rewrite (ir_head _ _ _ R), (ir_tail _ _ _ R), E3, bind_ok. cbv zeta.
  rewrite !u32_small by lia. rewrite pa_assert_true, bind_ok by blia. eexists. split; [done|]. split; [|done].
  split; cbn; rewrite ?length_app; simpl.
  - done.
  - done.
  - by rewrite last_snoc.
  - apply Forall2_app; [|constructor; [|done]].
    + apply (Forall2_impl_elem (carries s)); [exact (ir_carries _ _ _ R)|]. intros a y Ha _ [? ?].
      unfold carries; simpl. by rewrite !lookup_insert_ne by (apply not_eq_sym, Hae, Ha).
    + split; simpl; by rewrite lookup_insert_eq.
  - rewrite map_size_insert, Hfi, (ir_size_idx _ _ _ R). simpl. lia.
  - rewrite map_size_insert, Hfd, (ir_size_data _ _ _ R). simpl. lia.
  - lia.
  - eapply table_ext; [|exact T1]. intros a _. unfold fd, data_bucket; simpl. rewrite lookup_insert.
    case_decide; case_decide; simplify_eq; done.
  - eapply table_ext; [|exact T2]. intros a _. unfold fi, index_bucket; simpl. rewrite lookup_insert.
    case_decide; case_decide; simplify_eq; done.
  - apply (snoc_distinct (fun x y => compare_func x.2 y.2 = 0)); [|exact (ir_distinct _ _ _ R)|done].
    intros ? ?. apply compare_sym.
  - rewrite fmap_app. apply StronglySorted_snoc; [exact (ir_sorted _ _ _ R)|]. apply Forall_fmap.
    eapply Forall_impl; [exact (ir_below _ _ _ R)|]. simpl. intros x Hx. lia.
  - apply Forall_app. split; [|repeat constructor; simpl; lia].
    eapply Forall_impl; [exact (ir_below _ _ _ R)|]. simpl. intros x Hx. lia.
  - lia.
Qed.

(** An address that is none of the entries is free. *)
Lemma notin_none {A} (m : gmap Z A) l e : (forall a, a ∈ l -> is_Some (m !! a)) -> NoDup l -> size m = length l -> e ∉ l -> m !! e = None.
Proof.
  intros Hl Hn Hs He. destruct (m !! e) as [x|] eqn:E; [exfalso|done].
  assert (list_to_set (e :: l) ⊆ dom m) as Hsub.
  { intros a Ha. apply elem_of_list_to_set, elem_of_cons in Ha. apply elem_of_dom. destruct Ha as [->|Ha]; [by eexists|by apply Hl]. }
  apply subseteq_size in Hsub. rewrite size_list_to_set in Hsub by (by constructor). rewrite size_dom, Hs in Hsub. simpl in Hsub. lia.
Qed.

Lemma rep_fresh s l kv e : idxset_rep s l kv -> e ∉ l -> fresh s e.
Proof.
  intros R He. pose proof (dll_nodup _ _ _ (ir_iterate _ _ _ R)) as Hn.
  assert (forall a, a ∈ l -> is_Some (is_idx s !! a) /\ is_Some (is_data s !! a)) as Hc.
  { intros a Ha. destruct (rep_carries _ _ _ _ R Ha) as (j & x & _ & _ & Hi & Hd). rewrite Hi, Hd. split; by eexists. }
  split; eapply (notin_none _ l); try done; try (intros a Ha; by apply Hc); [apply (ir_size_idx _ _ _ R)|apply (ir_size_data _ _ _ R)].
Qed.

Lemma new_ok : idxset_rep (pa_idxset_new : pa_idxset K) [] [].
Proof.
  split; try done; [apply dll_new|apply table_new|apply table_new|by apply SSorted_nil].
Qed.
End representation.

(** ** Specification

    What a set promises: the index that comes next, and the pairs of index and
    data in the order of insertion. *)
Section specification.
Context {K : Type} `{KeyOps K, Nullable K}.

Definition idxset_view : Type := Z * list (Z * K).

Inductive idxset_cmd :=
| IPut (e : Z) (p : K)
| IGetByIndex (i : Z)
| IGetByData (p : K)
| IRemoveByIndex (i : Z)
| IRemoveByData (p : K)
| IRemoveAll
| IRrobin (i : Z)
| IStealFirst
| IFirst
| INext (i : Z)
| IIterate
| ICopy (copy_func : K -> K) (es : list Z)
| ISize
| IIsEmpty.

(** What a call returns: a number, the data (of which there are several when all
    are removed, iterated over or copied), and the index it stores, if it does. *)
Definition idxset_result : Type := Z * list K * option Z.

Definition find_data (p : K) (kv : list (Z * K)) := list_find (fun x => compare_func x.2 p = 0) kv.
Definition find_index (i : Z) (kv : list (Z * K)) := list_find (fun x => x.1 = i) kv.

(** Putting [p]: it gets the next index unless it is there. *)
Definition spec_put (v : idxset_view) (p : K) : idxset_view :=
  match find_data p v.2 with Some _ => v | None => (v.1 + 1, v.2 ++ [(v.1, p)]) end.

Definition idxset_spec (c : idxset_cmd) (v : idxset_view) : idxset_result * idxset_view :=
  let '(cur, kv) := v in
  match c with
  | IPut _ p =>
      match find_data p kv with
      | Some (_, x) => ((-1, [], Some x.1), v)
      | None => ((0, [], Some cur), (cur + 1, kv ++ [(cur, p)]))
      end
  | IGetByIndex i => ((0, from_option (fun '(_, x) => [x.2]) [] (find_index i kv), None), v)
  | IGetByData p =>
      match find_data p kv with Some (_, x) => ((0, [x.2], Some x.1), v) | None => ((0, [], None), v) end
  | IRemoveByIndex i =>
      match find_index i kv with Some (j, x) => ((0, [x.2], None), (cur, delete j kv)) | None => ((0, [], None), v) end
  | IRemoveByData p =>
      match find_data p kv with
      | Some (j, x) => ((0, [x.2], Some x.1), (cur, delete j kv))
      | None => ((0, [], None), v)
      end
  | IRemoveAll => ((0, kv.*2, None), (cur, []))
  | IRrobin i =>
      match match find_index i kv with Some (j, _) => kv !! S j | None => None end with
      | Some x => ((0, [x.2], Some x.1), v)
      | None => match kv with x :: _ => ((0, [x.2], Some x.1), v) | [] => ((0, [], Some i), v) end
      end
  | IStealFirst =>
      match kv with x :: kv => ((0, [x.2], Some x.1), (cur, kv)) | [] => ((0, [], None), v) end
  | IFirst =>
      match kv with x :: _ => ((0, [x.2], Some x.1), v) | [] => ((0, [], Some PA_IDXSET_INVALID), v) end
  | INext i =>
      match list_find (fun x => i < x.1) kv with
      | Some (_, x) => ((0, [x.2], Some x.1), v)
      | None => ((0, [], Some PA_IDXSET_INVALID), v)
      end
  | IIterate => ((0, kv.*2, None), v)
  | ICopy f _ => ((0, (foldl spec_put (0, []) (f <$> kv.*2)).2.*2, None), v)
  | ISize => ((Z.of_nat (length kv), [], None), v)
  | IIsEmpty => ((match kv with [] => 1 | _ => 0 end, [], None), v)
  end.

(** The data of a returned pointer. *)
Definition opt_list (o : option K) : list K := match o with Some d => [d] | None => [] end.

Definition idxset_exec (c : idxset_cmd) (s : pa_idxset K) : outcome (idxset_result * pa_idxset K) :=
  match c with
  | IPut e p => '(r, i, s) ← pa_idxset_put s e p; Ok ((r, [], Some i), s)
  | IGetByIndex i => d ← pa_idxset_get_by_index s i; Ok ((0, opt_list d, None), s)
  | IGetByData p => '(d, i) ← pa_idxset_get_by_data s p; Ok ((0, opt_list d, i), s)
  | IRemoveByIndex i => '(d, s) ← pa_idxset_remove_by_index s i; Ok ((0, opt_list d, None), s)
  | IRemoveByData p => '(d, i, s) ← pa_idxset_remove_by_data s p; Ok ((0, opt_list d, i), s)
  | IRemoveAll => '(ds, s) ← pa_idxset_remove_all s; Ok ((0, ds, None), s)
  | IRrobin i => '(d, i) ← pa_idxset_rrobin s i; Ok ((0, opt_list d, Some i), s)
  | IStealFirst => '(d, i, s) ← pa_idxset_steal_first s; Ok ((0, opt_list d, i), s)
  | IFirst => '(d, i) ← pa_idxset_first s; Ok ((0, opt_list d, Some i), s)
  | INext i => '(d, i) ← pa_idxset_next s i; Ok ((0, opt_list d, Some i), s)
  | IIterate => l ← iterate_loop (S (size (is_data s))) s CurNull; Ok ((0, l.*2, None), s)
  | ICopy f es =>
      copy ← pa_idxset_copy s f es;
      l ← iterate_loop (S (size (is_data copy))) copy CurNull; Ok ((0, l.*2, None), s)
  | ISize => Ok ((pa_idxset_size s, [], None), s)
  | IIsEmpty => Ok ((Z.b2z (pa_idxset_isempty s), [], None), s)
  end.

(** Commands one after the other, with their results. *)
Fixpoint idxset_run (cs : list idxset_cmd) (s : pa_idxset K) : outcome (list idxset_result * pa_idxset K) :=
  match cs with
  | [] => Ok ([], s)
  | c :: cs => '(r, s) ← idxset_exec c s; '(rs, s) ← idxset_run cs s; Ok (r :: rs, s)
  end.

Fixpoint idxset_spec_run (cs : list idxset_cmd) (v : idxset_view) : list idxset_result :=
  match cs with
  | [] => []
  | c :: cs => let '(r, v) := idxset_spec c v in r :: idxset_spec_run cs v
  end.

(** Arguments the calls are made with: data is not the null pointer, an index is
    a 32-bit number, and the allocator hands out unused addresses. *)
Definition idxset_cmd_ok (c : idxset_cmd) (s : pa_idxset K) : Prop :=
  match c with
  | IPut e p => fresh s e /\ is_null p = false
  | IGetByData p | IRemoveByData p => is_null p = false
  | ICopy f es => NoDup es /\ (size (is_data s) <= length es)%nat /\ forall a d, is_data s !! a = Some d -> is_null (f d) = false
  | IRrobin i | INext i => 0 <= i < 2 ^ 32
  | _ => True
  end.

Fixpoint idxset_cmds_ok (cs : list idxset_cmd) (s : pa_idxset K) : Prop :=
  match cs with
  | [] => True
  | c :: cs => idxset_cmd_ok c s /\ forall r s', idxset_exec c s = Ok (r, s') -> idxset_cmds_ok cs s'
  end.
End specification.
Arguments idxset_cmd : clear implicits.
Arguments idxset_view : clear implicits.
Arguments idxset_result : clear implicits.
