(* ===== verification/IdxsetProps.v ===== *)
(** * IdxsetProps: sets keep their promise

    The entries, hash tables and lists of [idxset.c] implement the specification
    [idxset_spec]: the simulation, call by call, and the claims. *)
From Stdlib Require Import Sorting.Sorted.
From stdpp Require Import base tactics numbers list gmap strings.
From S2P Require Import Prelude Dll Idxset.

(** ** Instances of the key interface *)

#[export] Instance pointer_laws : KeyLaws Z.
Proof.
  split; simpl; unfold pa_idxset_trivial_hash_func, pa_idxset_trivial_compare_func.
  - intros k. apply u32_bound.
  - intros k. bsplit.
  - intros a b. bsplit.
  - intros a b c. bsplit.
  - intros a b. bsplit. intros _. f_equal. lia.
Qed.

(** The characters before the first null byte. *)
Fixpoint cstr (s : string) : string :=
  match s with
  | EmptyString => EmptyString
  | String c s => if bool_decide (c = nul) then EmptyString else String c (cstr s)
  end.

Lemma string_hash_cstr s : forall h, string_hash h (cstr s) = string_hash h s.
Proof.
  induction s as [|c s IH]; intros h; [done|]. simpl. case_bool_decide; [done|].
  simpl. rewrite bool_decide_eq_false_2 by done. apply IH.
Qed.

Lemma string_hash_range s : forall h, 0 <= h < 2 ^ 32 -> 0 <= string_hash h s < 2 ^ 32.
Proof.
  induction s as [|c s IH]; intros h Hh; [done|]. simpl. case_bool_decide; [done|]. apply IH. apply u32_bound.
Qed.

Lemma ascii_diff x y : Z.of_nat (Ascii.nat_of_ascii x) - Z.of_nat (Ascii.nat_of_ascii y) = 0 <-> x = y.
Proof.
  split; [|intros ->; lia]. intros E. rewrite <- (Ascii.ascii_nat_embedding x), <- (Ascii.ascii_nat_embedding y).
  f_equal. lia.
Qed.

Lemma cstr_nil s : cstr s = EmptyString <-> first_char s = nul.
Proof. destruct s as [|c s]; simpl; [done|]. case_bool_decide; naive_solver. Qed.

Lemma strcmp_cstr a : forall b, strcmp a b = 0 <-> cstr a = cstr b.
Proof.
  assert (forall x s, (if bool_decide (x = nul) then EmptyString else String x (cstr s)) = EmptyString <-> x = nul)
    as Hnil by (intros; case_bool_decide; naive_solver).
  induction a as [|x a IH]; intros [|y b]; simpl.
  - done.
  - rewrite ascii_diff, (symmetry_iff (=) EmptyString), Hnil. split; by intros ->.
  - rewrite ascii_diff, Hnil. done.
  - case_bool_decide as E.
    + subst y. case_bool_decide; [done|]. rewrite IH. split; [by intros ->|congruence].
    + rewrite ascii_diff. split; [done|]. repeat case_bool_decide; congruence.
Qed.

#[export] Instance string_laws : KeyLaws string.
Proof.
  split; simpl; unfold pa_idxset_string_hash_func, pa_idxset_string_compare_func.
  - intros k. by apply string_hash_range.
  - intros k. by apply strcmp_cstr.
  - intros a b. rewrite !strcmp_cstr. done.
  - intros a b c. rewrite !strcmp_cstr. congruence.
  - intros a b E%strcmp_cstr. by rewrite <- (string_hash_cstr a), E, string_hash_cstr.
Qed.

(** ** The simulation *)
Section simulation.
Context {K : Type} `{KeyLaws K} {Knull : Nullable K}.
Implicit Types (s : pa_idxset K) (i : Z) (p : K) (l : list Z) (kv : list (Z * K)).

Lemma sorted_lookup (l : list Z) : StronglySorted Z.lt l -> forall j k x y,
  l !! j = Some x -> l !! k = Some y -> (j < k)%nat -> x < y.
Proof.
  induction 1 as [|a l Hs IH Hf]; intros j k x y Hj Hk Hjk; [done|].
  destruct k as [|k]; [lia|]. simpl in Hk. rewrite Forall_lookup in Hf.
  destruct j as [|j]; simpl in Hj; [simplify_eq; eauto|]. eapply IH; eauto. lia.
Qed.

Lemma rep_index_lt s l kv j k x y : idxset_rep s l kv -> kv !! j = Some x -> kv !! k = Some y ->
  (j < k)%nat -> x.1 < y.1.
Proof.
  intros R Hj Hk. apply (sorted_lookup kv.*1 (ir_sorted _ _ _ R)); by rewrite list_lookup_fmap, ?Hj, ?Hk.
Qed.

(** The searches find what the specification finds. *)
Lemma data_scan_find s l kv p : idxset_rep s l kv -> is_null p = false ->
  exists r, data_scan s (hash_func p mod NBUCKETS) p = Ok r /\
    match find_data p kv with
    | Some (j, x) => exists a, r = Some a /\ l !! j = Some a /\ kv !! j = Some x /\ carries s a x
    | None => r = None /\ Forall (fun x => compare_func x.2 p <> 0) kv
    end.
Proof.
  intros R Hnull. destruct (data_scan_ok s l kv p R Hnull) as (r & -> & Hr). exists r. split; [done|]. destruct r as [a|].
  - destruct Hr as (j & x & Hj & Hx & Hc & Hp).
    assert (find_data p kv = Some (j, x)) as ->; [|eauto 10].
    apply list_find_Some. split_and!; [done|done|]. intros k y Hy Hk Hpy.
    assert (k = j); [|lia]. eapply (ir_distinct _ _ _ R); [done..|]. eapply compare_trans; [done|]. by apply compare_sym.
  - assert (find_data p kv = None) as -> by (by apply list_find_None). done.
Qed.

Lemma index_scan_find s l kv i : idxset_rep s l kv ->
  exists r, index_scan s (i mod NBUCKETS) i = Ok r /\
    match find_index i kv with
    | Some (j, x) => exists a, r = Some a /\ l !! j = Some a /\ kv !! j = Some x /\ carries s a x /\ x.1 = i
    | None => r = None /\ Forall (fun x => x.1 <> i) kv
    end.
Proof.
  intros R. destruct (index_scan_ok s l kv i R) as (r & -> & Hr). exists r. split; [done|]. destruct r as [a|].
  - destruct Hr as (j & x & Hj & Hx & Hc & Hp).
    assert (find_index i kv = Some (j, x)) as ->; [|eauto 10].
    apply list_find_Some. split_and!; [done|done|]. intros k y Hy Hk Hpy.
    pose proof (rep_index_lt _ _ _ _ _ _ _ R Hy Hx Hk). lia.
  - assert (find_index i kv = None) as -> by (by apply list_find_None). done.
Qed.

(** Taking out an entry. *)
Lemma remove_at s l kv j a x : idxset_rep s l kv -> l !! j = Some a -> kv !! j = Some x ->
  exists s', idxset_remove_entry s a = Ok s' /\ idxset_rep s' (delete j l) (delete j kv) /\
    is_current_index s' = is_current_index s.
Proof.
  intros R Hj Hx. rewrite !delete_take_drop. apply (remove_entry_ok _ _ a _ _ x).
  - by rewrite !take_drop_middle.
  - apply lookup_lt_Some in Hj, Hx. rewrite !length_take. lia.
Qed.

Lemma carries_data s a x : carries s a x -> entry_data s a = Ok (Some x.2) /\ is_data s !! a = Some x.2 /\ is_idx s !! a = Some x.1.
Proof. intros [Hi Hd]. unfold entry_data. by rewrite Hd. Qed.

(** The entry at the head of the list. *)
Lemma head_entry s l kv : idxset_rep s l kv ->
  match kv with
  | x :: kv' => exists a l', l = a :: l' /\ is_head s = Some a /\ carries s a x
  | [] => l = [] /\ is_head s = None
  end.
Proof.
  intros R. rewrite (ir_head _ _ _ R). pose proof (ir_carries _ _ _ R) as Hc.
  destruct Hc as [|a x l' kv' Hax Hc]; [done|]. eauto 10.
Qed.

(** The entry after another one. *)
Lemma next_entry s l kv j a : idxset_rep s l kv -> l !! j = Some a ->
  exists n, is_iterate_next s !! a = Some n /\
    match kv !! S j with
    | Some y => exists b, n = Some b /\ carries s b y /\ l !! S j = Some b
    | None => n = None
    end.
Proof.
  intros R Hj. pose proof (ir_iterate _ _ _ R) as D. rewrite <- (take_drop_middle _ _ _ Hj) in D.
  apply dll_next in D. exists (head (drop (S j) l)). split; [done|].
  rewrite head_lookup, lookup_drop, Nat.add_0_r. pose proof (ir_carries _ _ _ R) as Hc.
  destruct (kv !! S j) as [y|] eqn:Hy.
  - destruct (Forall2_lookup_r _ _ _ _ _ Hc Hy) as (b & Hb & ?). eauto.
  - apply lookup_ge_None. apply lookup_ge_None in Hy. by rewrite (Forall2_length _ _ _ Hc).
Qed.

(** Emptying the set. *)
Lemma remove_all_ok : forall kv s l fuel, idxset_rep s l kv -> (length kv <= fuel)%nat ->
  exists s', remove_all_loop fuel s = Ok (kv.*2, s') /\ idxset_rep s' [] [] /\
    is_current_index s' = is_current_index s.
Proof.
  induction kv as [|x kv IH]; intros s l fuel R Hf; pose proof (head_entry _ _ _ R) as Hh.
  - destruct Hh as [-> Hh]. exists s. split; [|done]. destruct fuel; simpl; by rewrite Hh.
  - destruct Hh as (a & l' & -> & Hh & Hc). destruct fuel as [|fuel]; [simpl in Hf; lia|]. simpl. rewrite Hh.
    destruct (carries_data _ _ _ Hc) as (_ & -> & _). simpl.
    destruct (remove_at _ _ _ 0 a x R eq_refl eq_refl) as (s1 & -> & R1 & E1). simpl.
    destruct (IH s1 l' fuel R1) as (s2 & -> & R2 & E2); [simpl in Hf; lia|]. simpl.
    exists s2. split; [done|]. split; [done|congruence].
Qed.

(** The first pair with an index from [i] on. *)
Lemma find_from_end s l kv i : idxset_rep s l kv -> is_current_index s <= i ->
  list_find (fun x => i <= x.1) kv = None.
Proof.
  intros R Hi. apply list_find_None. eapply Forall_impl; [exact (ir_below _ _ _ R)|]. simpl. intros; lia.
Qed.

Lemma find_from_succ kv i : Forall (fun x => x.1 <> i) kv ->
  list_find (fun x => i + 1 <= x.1) kv = list_find (fun x => i <= x.1) kv.
Proof.
  induction 1 as [|x kv Hx _ IH]; [done|]. simpl. rewrite IH.
  destruct (decide (i + 1 <= x.1)), (decide (i <= x.1)); done || lia.
Qed.

(** The loop of [pa_idxset_next] over the numbers from [i] on. *)
Lemma next_loop_ok s l kv : idxset_rep s l kv -> forall fuel i, 0 <= i -> (Z.to_nat (is_current_index s - i) <= fuel)%nat ->
  next_loop fuel s i = Ok (match list_find (fun x => i <= x.1) kv with
                           | Some (_, x) => (Some x.2, x.1) | None => (None, PA_IDXSET_INVALID) end).
Proof.
  intros R. pose proof (ir_current _ _ _ R) as Hcur. induction fuel as [|fuel IH]; intros i Hi Hf.
  { simpl. rewrite (proj2 (Z.ltb_ge _ _)) by lia. by rewrite (find_from_end s l kv) by (done || lia). }
  destruct (Z.lt_ge_cases i (is_current_index s)) as [Hlt|Hge].
  2: { simpl. rewrite (proj2 (Z.ltb_ge _ _)) by lia. by rewrite (find_from_end s l kv) by (done || lia). }
  simpl. rewrite (proj2 (Z.ltb_lt _ _)) by done.
  destruct (index_scan_find s l kv i R) as (r & -> & Hr). simpl. destruct (find_index i kv) as [[j x]|].
  - destruct Hr as (a & -> & Hj & Hx & Hc & Ei). destruct (carries_data _ _ _ Hc) as (-> & _ & ->). simpl.
    assert (list_find (fun x => i <= x.1) kv = Some (j, x)) as ->; [|done].
    apply list_find_Some. split_and!; [done|lia|]. intros k y Hy Hk.
    pose proof (rep_index_lt _ _ _ _ _ _ _ R Hy Hx Hk). lia.
  - destruct Hr as [-> Hr]. rewrite u32_small by lia. rewrite IH by lia.
    by rewrite find_from_succ.
Qed.
(** A call does what the specification says. *)
Definition simulated (c : idxset_cmd K) s kv : Prop :=
  let '(r, (cur, kv')) := idxset_spec c (is_current_index s, kv) in
  exists s' l', idxset_exec c s = Ok (r, s') /\ idxset_rep s' l' kv' /\ is_current_index s' = cur.

Lemma sim_put s l kv e p : idxset_rep s l kv -> is_current_index s < 2 ^ 32 - 1 -> fresh s e -> is_null p = false ->
  simulated (IPut e p) s kv.
Proof.
  intros R Hcur Hf Hnull. unfold simulated. simpl. destruct (data_scan_find s l kv p R Hnull) as (r & E & Hr).
  destruct (find_data p kv) as [[j x]|].
  - destruct Hr as (a & -> & Hj & Hx & Hc). destruct (carries_data _ _ _ Hc) as (_ & _ & Ei).
    unfold pa_idxset_put. rewrite E. simpl. rewrite Ei. simpl. eauto.
  - destruct Hr as [-> Hr]. destruct (put_new_ok _ _ _ _ p R Hf Hcur Hr Hnull) as (s' & -> & R' & E').
    simpl. eauto.
Qed.

Lemma sim_by_index s l kv i : idxset_rep s l kv ->
  simulated (IGetByIndex i) s kv /\ simulated (IRemoveByIndex i) s kv.
Proof.
  intros R. unfold simulated. simpl. unfold pa_idxset_get_by_index, pa_idxset_remove_by_index.
  destruct (index_scan_find s l kv i R) as (r & -> & Hr). destruct (find_index i kv) as [[j x]|]; simpl.
  - destruct Hr as (a & -> & Hj & Hx & Hc & _). destruct (carries_data _ _ _ Hc) as (-> & _ & _). simpl.
    split; [eauto|]. destruct (remove_at _ _ _ _ _ _ R Hj Hx) as (s' & -> & R' & E'). simpl. eauto.
  - destruct Hr as [-> _]. split; simpl; eauto.
Qed.

Lemma sim_by_data s l kv p : idxset_rep s l kv -> is_null p = false ->
  simulated (IGetByData p) s kv /\ simulated (IRemoveByData p) s kv.
Proof.
  intros R Hnull. unfold simulated. simpl. unfold pa_idxset_get_by_data, pa_idxset_remove_by_data.
  destruct (data_scan_find s l kv p R Hnull) as (r & -> & Hr). destruct (find_data p kv) as [[j x]|]; simpl.
  - destruct Hr as (a & -> & Hj & Hx & Hc). destruct (carries_data _ _ _ Hc) as (-> & _ & ->). simpl.
    split; [eauto|]. destruct (remove_at _ _ _ _ _ _ R Hj Hx) as (s' & -> & R' & E'). simpl. eauto.
  - destruct Hr as [-> _]. split; simpl; eauto.
Qed.

Lemma sim_first s l kv : idxset_rep s l kv -> simulated IFirst s kv /\ simulated IStealFirst s kv.
Proof.
  intros R. unfold simulated. simpl. unfold pa_idxset_first, pa_idxset_steal_first.
  pose proof (head_entry _ _ _ R) as Hh. destruct kv as [|x kv].
  - destruct Hh as [-> ->]. split; simpl; eauto.
  - destruct Hh as (a & l' & -> & -> & Hc). destruct (carries_data _ _ _ Hc) as (-> & _ & ->). simpl.
    split; [eauto|]. destruct (remove_at _ _ _ 0 a x R eq_refl eq_refl) as (s' & -> & R' & E'). simpl. eauto.
Qed.

Lemma sim_rrobin s l kv i : idxset_rep s l kv -> simulated (IRrobin i) s kv.
Proof.
  intros R. unfold simulated. simpl. unfold pa_idxset_rrobin.
  destruct (index_scan_find s l kv i R) as (r & -> & Hr). pose proof (head_entry _ _ _ R) as Hh.
  assert (forall n, n = is_head s -> match kv with
      | x :: _ => n ≫= (fun a => Some (i ← deref (is_idx s !! a); d ← entry_data s a; Ok (d, i))) = Some (Ok (Some x.2, x.1))
      | [] => n = None end) as Hwrap.
  { intros n ->. destruct kv as [|x kv]; [by destruct Hh as [_ ->]|]. destruct Hh as (a & l' & _ & -> & Hc).
    simpl. by destruct (carries_data _ _ _ Hc) as (-> & _ & ->). }
  simpl. destruct (find_index i kv) as [[j x]|].
  - destruct Hr as (a & -> & Hj & Hx & Hc & _). simpl.
    destruct (next_entry _ _ _ _ _ R Hj) as (n & -> & Hn). simpl. destruct (kv !! S j) as [y|].
    + destruct Hn as (b & -> & Hb & _). simpl. destruct (carries_data _ _ _ Hb) as (-> & _ & ->). simpl. eauto.
    + subst n. simpl. specialize (Hwrap _ eq_refl). destruct kv as [|z kv]; [done|].
      destruct (is_head s); simpl in *; [|done]. injection Hwrap as ->. simpl. eauto.
  - destruct Hr as [-> _]. simpl. specialize (Hwrap _ eq_refl). destruct kv as [|z kv].
    + rewrite Hwrap. simpl. eauto.
    + destruct (is_head s); simpl in *; [|done]. injection Hwrap as ->. simpl. eauto.
Qed.

Lemma find_after kv s l i j x : idxset_rep s l kv -> kv !! j = Some x -> x.1 = i ->
  list_find (fun y => i < y.1) kv = (fun y => (S j, y)) <$> kv !! S j.
Proof.
  intros R Hx Hi. destruct (kv !! S j) as [y|] eqn:Hy; simpl.
  - apply list_find_Some. split_and!; [done| |].
    + pose proof (rep_index_lt _ _ _ _ _ _ _ R Hx Hy ltac:(lia)). lia.
    + intros k z Hz Hk. destruct (decide (k = j)) as [->|]; [simplify_eq; lia|].
      pose proof (rep_index_lt _ _ _ _ _ _ _ R Hz Hx ltac:(lia)). lia.
  - apply list_find_None, Forall_lookup. intros k z Hz. apply lookup_ge_None in Hy.
    pose proof (lookup_lt_Some _ _ _ Hz). destruct (decide (k = j)) as [->|]; [simplify_eq; lia|].
    pose proof (rep_index_lt _ _ _ _ _ _ _ R Hz Hx ltac:(lia)). lia.
Qed.

Lemma sim_next s l kv i : idxset_rep s l kv -> 0 <= i < 2 ^ 32 -> simulated (INext i) s kv.
Proof.
  intros R Hi. unfold simulated. pose proof (ir_current _ _ _ R) as Hcur.
  assert (pa_idxset_next s i = Ok (match list_find (fun x => i < x.1) kv with
      | Some (_, x) => (Some x.2, x.1) | None => (None, PA_IDXSET_INVALID) end)) as E.
  { unfold pa_idxset_next. unfold PA_IDXSET_INVALID at 1, UINT32_MAX. destruct (Z.eqb_spec i 4294967295) as [->|Hni].
    { assert (list_find (fun x => 4294967295 < x.1) kv = None) as ->; [|done].
      apply list_find_None. eapply Forall_impl; [exact (ir_below _ _ _ R)|]. simpl. intros; lia. }
    destruct (index_scan_find s l kv i R) as (r & -> & Hr). destruct (find_index i kv) as [[j x]|]; simpl.
    - destruct Hr as (a & -> & Hj & Hx & Hc & Ei). destruct (next_entry _ _ _ _ _ R Hj) as (n & -> & Hn). simpl.
      rewrite (find_after kv s l i j x) by done. destruct (kv !! S j) as [y|].
      + destruct Hn as (b & -> & Hb & _). by destruct (carries_data _ _ _ Hb) as (-> & _ & ->).
      + by subst n.
    - destruct Hr as [-> _]. rewrite u32_small by lia. rewrite (next_loop_ok s l kv R) by lia.
      by rewrite (list_find_ext (fun x => i < x.1) (fun x => i + 1 <= x.1)) by (intros; lia). }
  simpl. rewrite E. destruct (list_find _ kv) as [[j x]|]; simpl; eauto.
Qed.

Lemma iterate_from s l kv j a : idxset_rep s l kv -> l !! j = Some a ->
  forall fuel, (length kv < j + fuel)%nat -> iterate_loop fuel s (CurAt a) = Ok (drop j kv).
Proof.
  intros R. remember (length kv - j)%nat as n eqn:En. revert j a En.
  induction n as [|n IH]; intros j a En Hj fuel Hf; pose proof (lookup_lt_Some _ _ _ Hj) as Hl;
    rewrite (Forall2_length _ _ _ (ir_carries _ _ _ R)) in Hl; [lia|].
  destruct fuel as [|fuel]; [lia|]. cbn [iterate_loop]. unfold pa_idxset_iterate.
  destruct (next_entry _ _ _ _ _ R Hj) as (m & -> & Hm).
  destruct (Forall2_lookup_l _ _ _ _ _ (ir_carries _ _ _ R) Hj) as (x & Hx & Hc).
  destruct (carries_data _ _ _ Hc) as (-> & _ & ->). simpl.
  assert (iterate_loop fuel s match m with Some b => CurAt b | None => CurEnd end = Ok (drop (S j) kv)) as ->.
  - destruct (kv !! S j) as [y|] eqn:Hy.
    + destruct Hm as (b & -> & _ & Hb). apply IH; [lia|done|lia].
    + subst m. apply lookup_ge_None in Hy. rewrite drop_ge by done. by destruct fuel; [lia|].
  - simpl. rewrite (drop_S kv x j Hx). by destruct x.
Qed.

Lemma iterate_whole s l kv : idxset_rep s l kv -> forall fuel, (length kv < fuel)%nat -> iterate_loop fuel s CurNull = Ok kv.
Proof.
  intros R fuel Hf. pose proof (head_entry _ _ _ R) as Hh. destruct fuel as [|fuel]; [lia|]. destruct kv as [|x kv].
  - destruct Hh as [-> Hh]. cbn [iterate_loop]. unfold pa_idxset_iterate. by rewrite Hh.
  - destruct Hh as (a & l' & -> & Hh & Hc). pose proof (iterate_from s _ _ 0 a R eq_refl (S fuel) ltac:(simpl in *; lia)) as Ei.
    cbn [iterate_loop] in *. unfold pa_idxset_iterate in *. by rewrite Hh.
Qed.

Lemma rep_length s l kv : idxset_rep s l kv -> length kv = size (is_data s).
Proof. intros R. by rewrite (ir_size_data _ _ _ R), (Forall2_length _ _ _ (ir_carries _ _ _ R)). Qed.

(** One round of the copy. *)
Lemma copy_put c lc kvc e p : idxset_rep c lc kvc -> is_current_index c < 2 ^ 32 - 1 -> e ∉ lc -> is_null p = false ->
  exists r i c' lc', pa_idxset_put c e p = Ok (r, i, c') /\ (is_current_index c', snd (spec_put (is_current_index c, kvc) p)) = spec_put (is_current_index c, kvc) p /\
    idxset_rep c' lc' (spec_put (is_current_index c, kvc) p).2 /\ (forall a, a ∈ lc' -> a ∈ lc \/ a = e) /\ is_current_index c' <= is_current_index c + 1.
Proof.
  intros R Hcur He Hnull. unfold spec_put. simpl. destruct (data_scan_find c lc kvc p R Hnull) as (r & E & Hr).
  destruct (find_data p kvc) as [[j x]|].
  - destruct Hr as (a & -> & Hj & Hx & Hc). destruct (carries_data _ _ _ Hc) as (_ & _ & Ei). unfold pa_idxset_put. rewrite E. simpl. rewrite Ei. simpl.
    eexists _, _, c, lc. split_and!; [done|done|done|auto|lia].
  - destruct Hr as [-> Hr]. destruct (put_new_ok _ _ _ _ p R (rep_fresh _ _ _ _ R He) Hcur Hr Hnull) as (c' & -> & R' & E').
    eexists _, _, c', _. split_and!; [done|by rewrite E'|exact R'| |lia]. intros a [Ha|Ha]%elem_of_app; [auto|]. apply list_elem_of_singleton in Ha. auto.
Qed.

Lemma copy_loop_ok f s l kv : idxset_rep s l kv -> (forall x, x ∈ kv -> is_null (f x.2) = false) ->
  forall rest j c lc kvc es fuel, drop j kv = rest -> idxset_rep c lc kvc -> NoDup es -> (forall e, e ∈ es -> e ∉ lc) ->
  (length rest <= length es)%nat -> (length rest <= fuel)%nat -> is_current_index c + Z.of_nat (length rest) < 2 ^ 32 ->
  exists c' lc' kv', copy_loop fuel f s (l !! j) es c = Ok c' /\ idxset_rep c' lc' kv' /\
    kv' = (foldl spec_put (is_current_index c, kvc) (f <$> rest.*2)).2.
Proof.
  intros R Hnull. pose proof (Forall2_length _ _ _ (ir_carries _ _ _ R)) as Hlen.
  induction rest as [|x rest IH]; intros j c lc kvc es fuel Ej Rc Hes Hfr Hl Hf Hcur.
  - assert (l !! j = None) as ->. { apply lookup_ge_None. apply (f_equal length) in Ej. rewrite length_drop in Ej. simpl in Ej. lia. }
    exists c, lc, kvc. split_and!; [by destruct fuel, es|done|done].
  - assert (kv !! j = Some x) as Hx by (rewrite <- (Nat.add_0_r j), <- lookup_drop, Ej; done).
    destruct (Forall2_lookup_r _ _ _ _ _ (ir_carries _ _ _ R) Hx) as (a & Ha & Hc). rewrite Ha.
    destruct fuel as [|fuel]; [simpl in Hf; lia|]. destruct es as [|e es]; [simpl in Hl; lia|]. apply NoDup_cons in Hes as [He Hes].
    cbn [copy_loop length] in *. destruct (carries_data _ _ _ Hc) as (_ & -> & _). cbn [deref]. rewrite bind_ok.
    destruct (copy_put c lc kvc e (f x.2) Rc ltac:(lia) (Hfr e ltac:(by left))) as (r & i & c1 & lc1 & -> & Ev & R1 & Hin & Hc1).
    { apply Hnull. by eapply list_elem_of_lookup_2. }
    rewrite bind_ok. destruct (next_entry _ _ _ _ _ R Ha) as (n & -> & Hn). cbn [deref]. rewrite bind_ok.
    assert (n = l !! S j) as ->.
    { destruct (kv !! S j) as [y|] eqn:Hy; [destruct Hn as (b & -> & _ & ->); done|]. subst n. symmetry. apply lookup_ge_None.
      apply lookup_ge_None in Hy. lia. }
    destruct (IH (S j) c1 lc1 (spec_put (is_current_index c, kvc) (f x.2)).2 es fuel) as (c2 & lc2 & kv2 & E2 & R2 & ->); [|exact R1|done| |lia|lia|lia|].
    + apply (f_equal (drop 1)) in Ej. rewrite drop_drop, Nat.add_1_r in Ej. exact Ej.
    + intros e' He' Hin'. destruct (Hin e' Hin') as [Hq| ->]; [by apply (Hfr e'); [right|]|done].
    + exists c2, lc2. eexists. split_and!; [done|exact R2|]. by rewrite Ev.
Qed.

Lemma sim_copy f es s l kv : idxset_rep s l kv -> idxset_cmd_ok (ICopy f es) s -> simulated (ICopy f es) s kv.
Proof.
  intros R (Hes & Hl & Hn). unfold simulated. cbn [idxset_spec idxset_exec]. unfold pa_idxset_copy.
  pose proof (rep_length _ _ _ R) as Hk. pose proof (ir_current _ _ _ R) as Hcur.
  assert (is_head s = l !! 0%nat) as -> by (rewrite (ir_head _ _ _ R); by destruct l).
  destruct (copy_loop_ok f s l kv R) with (rest := kv) (j := 0%nat) (c := pa_idxset_new : pa_idxset K) (lc := @nil Z) (kvc := @nil (Z * K)) (es := es)
    (fuel := size (is_data s)) as (c & lc & kv' & -> & Rc & ->); [|done|exact new_ok|done|by intros e _ ?%elem_of_nil|lia|lia| |].
  - intros x Hx. apply list_elem_of_lookup in Hx as [j Hx]. destruct (Forall2_lookup_r _ _ _ _ _ (ir_carries _ _ _ R) Hx) as (a & _ & _ & Hd). by apply (Hn a).
  - simpl. rewrite (ir_size_data _ _ _ R) in Hk. lia.
  - rewrite bind_ok, (iterate_whole c lc _ Rc) by (rewrite (rep_length _ _ _ Rc); lia). simpl. eauto.
Qed.

Lemma exec_simulates c s l kv : idxset_rep s l kv -> is_current_index s < 2 ^ 32 - 1 -> idxset_cmd_ok c s ->
  simulated c s kv.
Proof.
  intros R Hcur Hok. destruct c; simpl in Hok.
  - destruct Hok. by eapply sim_put.
  - by eapply sim_by_index.
  - by eapply sim_by_data.
  - by eapply sim_by_index.
  - by eapply sim_by_data.
  - unfold simulated. simpl. unfold pa_idxset_remove_all.
    destruct (remove_all_ok kv s l (size (is_data s)) R) as (s' & -> & R' & E').
    { rewrite (ir_size_data _ _ _ R), (Forall2_length _ _ _ (ir_carries _ _ _ R)). done. }
    simpl. eauto.
  - by eapply sim_rrobin.
  - by eapply sim_first.
  - by eapply sim_first.
  - by eapply sim_next.
  - unfold simulated. cbn [idxset_spec idxset_exec]. rewrite (iterate_whole s l kv R) by (rewrite (rep_length _ _ _ R); lia). simpl. eauto.
  - by eapply sim_copy.
  - unfold simulated, pa_idxset_size. simpl. unfold pa_idxset_size.
    rewrite (ir_n _ _ _ R), (Forall2_length _ _ _ (ir_carries _ _ _ R)). eauto.
  - unfold simulated. simpl. unfold pa_idxset_isempty. rewrite (ir_n _ _ _ R), (Forall2_length _ _ _ (ir_carries _ _ _ R)).
    exists s, l. split; [|done]. by destruct kv.
Qed.

Lemma spec_current c (cur : Z) kv : (idxset_spec c (cur, kv)).2.1 <= cur + 1.
Proof.
  destruct c; simpl; repeat (case_match; simplify_eq; simpl; try lia); lia.
Qed.

Lemma run_simulates cs : forall s l kv, idxset_rep s l kv ->
  is_current_index s + Z.of_nat (length cs) < 2 ^ 32 -> idxset_cmds_ok cs s ->
  exists s', idxset_run cs s = Ok (idxset_spec_run cs (is_current_index s, kv), s').
Proof.
  induction cs as [|c cs IH]; intros s l kv R Hcur Hok; [by exists s|]. simpl length in Hcur.
  destruct Hok as [Hc Hok]. pose proof (exec_simulates c s l kv R ltac:(lia) Hc) as Hs.
  pose proof (spec_current c (is_current_index s) kv) as Hsc. unfold simulated in Hs. cbn [idxset_run idxset_spec_run].
  destruct (idxset_spec c _) as [r [cur' kv']]. destruct Hs as (s' & l' & E & R' & <-). simpl in Hsc.
  rewrite E, bind_ok. destruct (IH s' l' kv' R') as (s2 & ->); [lia|by eapply Hok|].
  by exists s2.
Qed.
End simulation.

(** ** Whole iterations *)
Section iteration.
Context {K : Type} `{KeyLaws K} {Knull : Nullable K}.
Implicit Types (s : pa_idxset K) (kv : list (Z * K)).

(** [PA_IDXSET_FOREACH], with the removal of the current entry in the body of
    the loop when [drop] says so; the pairs the body saw. *)
Fixpoint foreach_loop (fuel : nat) (drop : Z * K -> bool) s (cur : option K * Z)
    : outcome (list (Z * K) * pa_idxset K) :=
  match cur with
  | (None, _) => Ok ([], s)
  | (Some d, i) =>
      match fuel with
      | O => UB
      | S fuel =>
          s ← (if drop (i, d) then '(_, s) ← pa_idxset_remove_by_index s i; Ok s else Ok s);
          n ← pa_idxset_next s i;
          '(r, s) ← foreach_loop fuel drop s n;
          Ok ((i, d) :: r, s)
      end
  end.

Definition foreach (fuel : nat) (drop : Z * K -> bool) s : outcome (list (Z * K) * pa_idxset K) :=
  cur ← pa_idxset_first s; foreach_loop fuel drop s cur.

(** The pair after [x], in a list sorted by index. *)
Lemma find_rest s l k1 (i : Z) k2 : idxset_rep s l (k1 ++ k2) ->
  Forall (fun y => y.1 <= i) k1 -> Forall (fun y => i < y.1) k2 ->
  list_find (fun y => i < y.1) (k1 ++ k2) = (fun y => (length k1, y)) <$> head k2.
Proof.
  intros R H1 H2. rewrite list_find_app_r.
  - destruct H2 as [|y k2 Hy]; simpl; [done|]. rewrite decide_True by done. simpl. do 2 f_equal.
  - apply list_find_None. eapply Forall_impl; [exact H1|]. simpl. intros; lia.
Qed.

Lemma rep_around s l k1 x k2 : idxset_rep s l (k1 ++ x :: k2) ->
  Forall (fun y => y.1 < x.1) k1 /\ Forall (fun y => x.1 < y.1) k2.
Proof.
  intros R. assert ((k1 ++ x :: k2) !! length k1 = Some x) as Hx by (by rewrite lookup_app_r, Nat.sub_diag).
  split; apply Forall_lookup; intros j y Hy.
  - pose proof (lookup_lt_Some _ _ _ Hy). eapply rep_index_lt; [done| |done|done]. by rewrite lookup_app_l.
  - eapply (rep_index_lt _ _ _ (length k1) (length k1 + S j)); [done|done| |lia].
    rewrite lookup_app_r by lia. by replace (length k1 + S j - length k1)%nat with (S j) by lia.
Qed.

Lemma next_head s l k1 (i : Z) k2 : idxset_rep s l (k1 ++ k2) -> 0 <= i < 2 ^ 32 ->
  Forall (fun y => y.1 <= i) k1 -> Forall (fun y => i < y.1) k2 ->
  pa_idxset_next s i = Ok (match k2 with y :: _ => (Some y.2, y.1) | [] => (None, PA_IDXSET_INVALID) end).
Proof.
  intros R Hi H1 H2. pose proof (sim_next s l _ i R Hi) as Hs. unfold simulated in Hs. simpl in Hs.
  rewrite (find_rest s l) in Hs by done.
  destruct k2 as [|y k2]; simpl in Hs; destruct Hs as (s' & l' & E & _);
    apply outcome_bind_Ok in E as ([d j] & -> & E); destruct d; simpl in E; simplify_eq; done.
Qed.

(** The body of the loop: [x] is taken out or stays. *)
Lemma foreach_body (dropped : Z * K -> bool) s l k1 x k2 : idxset_rep s l (k1 ++ x :: k2) ->
  exists s1 l1, (if dropped x then '(_, s) ← pa_idxset_remove_by_index s x.1; Ok s else Ok s) = Ok s1 /\
    idxset_rep s1 l1 ((k1 ++ filter (fun y => dropped y = false) [x]) ++ k2).
Proof.
  intros R. destruct (rep_around _ _ _ _ _ R) as [H1 _]. destruct (dropped x) eqn:E.
  - destruct (sim_by_index s l _ x.1 R) as [_ Hs]. unfold simulated in Hs. simpl in Hs.
    assert (find_index x.1 (k1 ++ x :: k2) = Some (length k1, x)) as Ef.
    { apply list_find_Some. split_and!; [by rewrite lookup_app_r, Nat.sub_diag|done|]. intros j y Hy Hj.
      rewrite lookup_app_l in Hy by done. rewrite Forall_lookup in H1. pose proof (H1 _ _ Hy). lia. }
    rewrite Ef in Hs. destruct Hs as (s' & l' & E' & R' & _).
    apply outcome_bind_Ok in E' as ([d s1] & -> & E'). simplify_eq. exists s', l'. split; [done|].
    rewrite delete_middle in R'. rewrite filter_cons_False by congruence. by rewrite app_nil_r.
  - exists s, l. split; [done|]. rewrite filter_cons_True by done. by rewrite <- app_assoc.
Qed.

Lemma foreach_from (dropped : Z * K -> bool) rest : forall s l k1 x fuel,
  idxset_rep s l (k1 ++ x :: rest) -> (length rest < fuel)%nat ->
  exists s' l', foreach_loop fuel dropped s (Some x.2, x.1) = Ok (x :: rest, s') /\
    idxset_rep s' l' (k1 ++ filter (fun y => dropped y = false) (x :: rest)).
Proof.
  induction rest as [|y rest IH]; intros s l k1 x fuel R Hf; (destruct fuel as [|fuel]; [lia|]);
    destruct (rep_around _ _ _ _ _ R) as [H1 H2]; cbn [foreach_loop];
    replace (x.1, x.2) with x by (by destruct x);
    destruct (foreach_body dropped _ _ _ _ _ R) as (s1 & l1 & -> & R1); rewrite bind_ok.
  all: pose proof (ir_current _ _ _ R) as Hcur; pose proof (ir_below _ _ _ R) as Hb;
    rewrite Forall_app, Forall_cons in Hb; destruct Hb as (_ & Hbx & _).
  all: rewrite (next_head s1 l1 _ x.1 _ R1), bind_ok; [|lia| |done];
    [|apply Forall_app; split; [eapply Forall_impl; [exact H1|simpl; lia]|];
      apply Forall_forall; intros z [_ Hz]%list_elem_of_filter; apply list_elem_of_singleton in Hz as ->; lia].
  - destruct fuel; simpl; eexists _, l1; (split; [done|]); by rewrite app_nil_r in R1.
  - destruct (IH s1 l1 _ y fuel R1 ltac:(simpl in *; lia)) as (s2 & l2 & -> & R2). simpl.
    eexists _, l2. split; [done|]. rewrite <- app_assoc, <- filter_app in R2. done.
Qed.
End iteration.

(** ** Claims *)

(** C29: whatever calls are made on a new set, in any order and with data that is not
    the null pointer, each returns what the specification returns: indices are handed out in sequence and never
    again, equal data is found and not put twice, lookups, removals, iterations,
    copies and the cursors by index see exactly the pairs put and not removed, in the order of
    insertion.  No assertion fails and no dangling entry is touched.  The bound
    keeps the index counter from wrapping around. *)
Theorem idxset_refines {K : Type} `{KeyLaws K, Nullable K} (cs : list (idxset_cmd K)) :
  Z.of_nat (length cs) < 2 ^ 32 -> idxset_cmds_ok cs pa_idxset_new ->
  exists s, idxset_run cs pa_idxset_new = Ok (idxset_spec_run cs (0, []), s).
Proof. intros Hl Hok. exact (run_simulates cs _ _ _ new_ok ltac:(simpl; lia) Hok). Qed.

(** The loop [PA_IDXSET_FOREACH] sees every pair of a set exactly once, in
    the order of insertion, also when its body removes the entry it is at; the
    pairs that were not removed are left. *)
Theorem idxset_foreach {K : Type} `{KeyLaws K, Nullable K} (dropped : Z * K -> bool) (s : pa_idxset K) l kv :
  idxset_rep s l kv ->
  exists s' l', foreach (length kv) dropped s = Ok (kv, s') /\
    idxset_rep s' l' (filter (fun x => dropped x = false) kv) /\
    iterate_loop (S (length kv)) s CurNull = Ok kv.
Proof.
  intros R. unfold foreach, pa_idxset_first. pose proof (head_entry _ _ _ R) as Hh. destruct kv as [|x kv].
  - destruct Hh as [-> Hh]. simpl. unfold pa_idxset_iterate. rewrite Hh. simpl. exists s, []. done.
  - destruct Hh as (a & l' & -> & Hh & Hc). rewrite Hh. destruct (carries_data _ _ _ Hc) as (E1 & _ & E2).
    rewrite E1, E2. cbn [deref]. rewrite !bind_ok.
    destruct (foreach_from dropped kv s _ [] x (length (x :: kv)) R ltac:(simpl; lia)) as (s' & l2 & E & R').
    exists s', l2. split_and!; [exact E|exact R'|]. apply (iterate_whole s _ _ R). simpl. lia.
Qed.

(** ** Witnesses *)

Module IdxsetExample.
Definition cmds : list (idxset_cmd string) :=
  [IPut 1 "a"; IPut 2 "b"; IPut 3 "b"; IRemoveByIndex 0; IPut 3 "c"; ICopy (fun _ => "x") [8; 9]; IIterate]%string.
Definition run : outcome (list (idxset_result string) * pa_idxset string) := idxset_run cmds pa_idxset_new.
End IdxsetExample.
Import IdxsetExample.

Lemma idxset_refines_witness : exists s, run = Ok (
  [(0, [], Some 0); (0, [], Some 1); (-1, [], Some 1); (0, ["a"], None); (0, [], Some 2); (0, ["x"], None); (0, ["b"; "c"], None)]%string, s).
Proof.
  destruct (idxset_refines cmds) as (s & E); [done| |exists s; exact E].
  cbn [idxset_cmds_ok cmds]. repeat (split; [first [exact I | reflexivity | split; [split; reflexivity|reflexivity] | (split; [by apply (bool_decide_unpack _); vm_compute|split; [by apply Nat.leb_le; vm_compute|reflexivity]]) | simpl; lia]|]; intros ? ? E;
    vm_compute in E; injection E as <- <-). exact I.
Defined.

Lemma idxset_foreach_witness : exists s s' l', foreach 2 (fun x => x.1 =? 0) s = Ok ([(0, 7); (1, 9)], s') /\
  idxset_rep s' l' [(1, 9)].
Proof.
  destruct (put_new_ok pa_idxset_new [] [] 1 7 new_ok) as (s1 & E1 & R1 & C1); [done|done|by constructor|done|].
  vm_compute in E1. injection E1 as <-.
  destruct (put_new_ok _ _ _ 2 9 R1) as (s2 & _ & R2 & _); [done|done|by repeat constructor|done|].
  destruct (idxset_foreach (fun x => x.1 =? 0) s2 _ _ R2) as (s' & l' & E & R & _).
  exists s2, s', l'. split; [exact E|exact R].
Defined.
