(* ===== verification/Hashmap.v ===== *)
(** * Hashmap: hash tables with a defined order

    Models [src/pulsecore/hashmap.c]: entries in a hash table by key, threaded
    also through a list in the order of insertion.  Keys are compared and hashed
    through the interface [KeyOps]; values are pointers, 0 the null pointer.  The
    functions that free keys and values are either given or null; the
    operations return what they hand to them, in order. *)
From stdpp Require Import base tactics numbers list gmap strings.
From S2P Require Import Prelude Dll Idxset IdxsetProps.

Record pa_hashmap (K : Type) := mk_hashmap {
  hm_key_free : bool;                 (* key_free_func is given *)
  hm_value_free : bool;
  hm_head : option Z;                 (* iterate_list_head *)
  hm_tail : option Z;
  hm_n_entries : Z;
  hm_buckets : list (option Z);       (* BY_HASH(h) *)
  hm_key : gmap Z K;                  (* the fields of struct hashmap_entry *)
  hm_value : gmap Z Z;
  hm_bucket_next : field;
  hm_bucket_previous : field;
  hm_iterate_next : field;
  hm_iterate_previous : field
}.
Arguments mk_hashmap {K}.
Arguments hm_key_free {K}.
Arguments hm_value_free {K}.
Arguments hm_head {K}.
Arguments hm_tail {K}.
Arguments hm_n_entries {K}.
Arguments hm_buckets {K}.
Arguments hm_key {K}.
Arguments hm_value {K}.
Arguments hm_bucket_next {K}.
Arguments hm_bucket_previous {K}.
Arguments hm_iterate_next {K}.
Arguments hm_iterate_previous {K}.

Section operations.
Context {K : Type} `{KeyOps K}.
Implicit Types (h : pa_hashmap K) (e : Z) (k : K).

(** What was freed: a key or a value. *)
Definition freed : Type := list (K + Z).

Definition pa_hashmap_new_full (key_free value_free : bool) : pa_hashmap K :=
  mk_hashmap key_free value_free None None 0 (replicate (Z.to_nat NBUCKETS) None) ∅ ∅ ∅ ∅ ∅ ∅.

Definition pa_hashmap_new : pa_hashmap K := pa_hashmap_new_full false false.

Definition hashmap_remove_entry h e : outcome (freed * pa_hashmap K) :=
  '(itn, itp, hd, tl) ← unlink e (hm_iterate_next h) (hm_iterate_previous h);
  '(bn, bp, buckets) ← table_remove e (k ← deref (hm_key h !! e); Ok (hash_func k mod NBUCKETS))
                         (hm_bucket_next h) (hm_bucket_previous h) (hm_buckets h);
  k ← deref (hm_key h !! e);
  _ ← pa_assert (1 <=? hm_n_entries h);
  Ok (if hm_key_free h then [inl k] else [],
      mk_hashmap (hm_key_free h) (hm_value_free h) (default (hm_head h) hd) (default (hm_tail h) tl)
        (u32 (hm_n_entries h - 1)) buckets (delete e (hm_key h)) (delete e (hm_value h))
        (delete e bn) (delete e bp) (delete e itn) (delete e itp)).

(** A list has at most as many entries as exist. *)
Definition hash_scan h (hash : Z) k : outcome (option Z) :=
  _ ← pa_assert (hash <? NBUCKETS);
  hd ← deref (hm_buckets h !! Z.to_nat hash);
  scan (size (hm_key h)) (fun a => x ← deref (hm_key h !! a); Ok (compare_func x k =? 0)) (hm_bucket_next h) hd.

Definition pa_hashmap_put h e k (value : Z) : outcome (Z * pa_hashmap K) :=
  let hash := hash_func k mod NBUCKETS in
  r ← hash_scan h hash k;
  match r with
  | Some _ => Ok (-1, h)
  | None =>
      '(bn, bp, buckets) ← table_insert e hash (hm_bucket_next h) (hm_bucket_previous h) (hm_buckets h);
      '(itn, itp, hd, tl) ← link_back e (hm_iterate_next h) (hm_iterate_previous h) (hm_head h) (hm_tail h);
      let n := u32 (hm_n_entries h + 1) in
      _ ← pa_assert (1 <=? n);
      Ok (0, mk_hashmap (hm_key_free h) (hm_value_free h) hd tl n buckets (<[e := k]> (hm_key h))
               (<[e := value]> (hm_value h)) bn bp itn itp)
  end.

Definition pa_hashmap_get h k : outcome Z :=
  r ← hash_scan h (hash_func k mod NBUCKETS) k;
  match r with None => Ok 0 | Some a => deref (hm_value h !! a) end.

Definition pa_hashmap_remove h k : outcome (Z * freed * pa_hashmap K) :=
  r ← hash_scan h (hash_func k mod NBUCKETS) k;
  match r with
  | None => Ok (0, [], h)
  | Some a =>
      data ← deref (hm_value h !! a);
      '(f, h) ← hashmap_remove_entry h a;
      Ok (data, f, h)
  end.

Definition pa_hashmap_remove_and_free h k : outcome (Z * freed * pa_hashmap K) :=
  '(data, f, h) ← pa_hashmap_remove h k;
  let f := f ++ (if negb (data =? 0) && hm_value_free h then [inr data] else []) in
  Ok (if data =? 0 then -1 else 0, f, h).

(** [while (h->iterate_list_head)], once per entry. *)
Fixpoint hashmap_remove_all_loop (fuel : nat) h : outcome (freed * pa_hashmap K) :=
  match hm_head h, fuel with
  | None, _ => Ok ([], h)
  | Some _, O => UB
  | Some a, S fuel =>
      data ← deref (hm_value h !! a);
      '(f, h) ← hashmap_remove_entry h a;
      '(f', h') ← hashmap_remove_all_loop fuel h;
      Ok (f ++ (if hm_value_free h then [inr data] else []) ++ f', h')
  end.

Definition pa_hashmap_remove_all h : outcome (freed * pa_hashmap K) :=
  hashmap_remove_all_loop (size (hm_key h)) h.

Definition pa_hashmap_free h : outcome freed := '(f, _) ← pa_hashmap_remove_all h; Ok f.

(** The value, [*key] and the new cursor. *)
Definition pa_hashmap_iterate h (c : cursor) : outcome (Z * option K * cursor) :=
  match match c with CurEnd => None | CurAt e => Some e | CurNull => hm_head h end with
  | None => Ok (0, None, CurEnd)
  | Some e =>
      n ← deref (hm_iterate_next h !! e);
      k ← deref (hm_key h !! e);
      v ← deref (hm_value h !! e);
      Ok (v, Some k, match n with Some n => CurAt n | None => CurEnd end)
  end.

Definition pa_hashmap_iterate_backwards h (c : cursor) : outcome (Z * option K * cursor) :=
  match match c with CurEnd => None | CurAt e => Some e | CurNull => hm_tail h end with
  | None => Ok (0, None, CurEnd)
  | Some e =>
      p ← deref (hm_iterate_previous h !! e);
      k ← deref (hm_key h !! e);
      v ← deref (hm_value h !! e);
      Ok (v, Some k, match p with Some p => CurAt p | None => CurEnd end)
  end.

Definition pa_hashmap_first h : outcome Z :=
  match hm_head h with None => Ok 0 | Some a => deref (hm_value h !! a) end.

Definition pa_hashmap_last h : outcome Z :=
  match hm_tail h with None => Ok 0 | Some a => deref (hm_value h !! a) end.

Definition pa_hashmap_steal_first h : outcome (Z * freed * pa_hashmap K) :=
  match hm_head h with
  | None => Ok (0, [], h)
  | Some a =>
      data ← deref (hm_value h !! a);
      '(f, h) ← hashmap_remove_entry h a;
      Ok (data, f, h)
  end.

Definition pa_hashmap_size h : Z := hm_n_entries h.
Definition pa_hashmap_isempty h : bool := hm_n_entries h =? 0.
End operations.
Arguments freed : clear implicits.

(** ** Specification

    A map promises the pairs of key and value in the order of insertion. *)
Section specification.
Context {K : Type} `{KeyOps K}.

Inductive hashmap_cmd :=
| HPut (e : Z) (k : K) (v : Z)
| HGet (k : K)
| HRemove (k : K)
| HRemoveAndFree (k : K)
| HRemoveAll
| HFirst
| HLast
| HStealFirst
| HSize
| HIsEmpty.

Definition find_key (k : K) (kv : list (K * Z)) := list_find (fun x => compare_func x.1 k = 0) kv.

(** What the free functions get for one entry. *)
Definition free_key (kf : bool) (x : K * Z) : freed K := if kf then [inl x.1] else [].
Definition free_value (vf : bool) (x : K * Z) : freed K := if vf then [inr x.2] else [].

Definition hashmap_spec (kf vf : bool) (c : hashmap_cmd) (kv : list (K * Z)) : Z * freed K * list (K * Z) :=
  match c with
  | HPut _ k v => match find_key k kv with Some _ => (-1, [], kv) | None => (0, [], kv ++ [(k, v)]) end
  | HGet k => (from_option (fun '(_, x) => x.2) 0 (find_key k kv), [], kv)
  | HRemove k =>
      match find_key k kv with Some (j, x) => (x.2, free_key kf x, delete j kv) | None => (0, [], kv) end
  | HRemoveAndFree k =>
      match find_key k kv with
      | Some (j, x) =>
          if x.2 =? 0 then (-1, free_key kf x, delete j kv)
          else (0, free_key kf x ++ free_value vf x, delete j kv)
      | None => (-1, [], kv)
      end
  | HRemoveAll => (0, mjoin ((fun x => free_key kf x ++ free_value vf x) <$> kv), [])
  | HFirst => (from_option snd 0 (head kv), [], kv)
  | HLast => (from_option snd 0 (last kv), [], kv)
  | HStealFirst => match kv with x :: kv => (x.2, free_key kf x, kv) | [] => (0, [], []) end
  | HSize => (Z.of_nat (length kv), [], kv)
  | HIsEmpty => (match kv with [] => 1 | _ => 0 end, [], kv)
  end.

Definition hashmap_exec (c : hashmap_cmd) (h : pa_hashmap K) : outcome (Z * freed K * pa_hashmap K) :=
  match c with
  | HPut e k v => '(r, h) ← pa_hashmap_put h e k v; Ok (r, [], h)
  | HGet k => v ← pa_hashmap_get h k; Ok (v, [], h)
  | HRemove k => pa_hashmap_remove h k
  | HRemoveAndFree k => pa_hashmap_remove_and_free h k
  | HRemoveAll => '(f, h) ← pa_hashmap_remove_all h; Ok (0, f, h)
  | HFirst => v ← pa_hashmap_first h; Ok (v, [], h)
  | HLast => v ← pa_hashmap_last h; Ok (v, [], h)
  | HStealFirst => pa_hashmap_steal_first h
  | HSize => Ok (pa_hashmap_size h, [], h)
  | HIsEmpty => Ok (if pa_hashmap_isempty h then 1 else 0, [], h)
  end.

Fixpoint hashmap_run (cs : list hashmap_cmd) (h : pa_hashmap K) : outcome (list (Z * freed K) * pa_hashmap K) :=
  match cs with
  | [] => Ok ([], h)
  | c :: cs => '(r, f, h) ← hashmap_exec c h; '(rs, h) ← hashmap_run cs h; Ok ((r, f) :: rs, h)
  end.

Fixpoint hashmap_spec_run (kf vf : bool) (cs : list hashmap_cmd) (kv : list (K * Z)) : list (Z * freed K) :=
  match cs with
  | [] => []
  | c :: cs => let '(r, f, kv) := hashmap_spec kf vf c kv in (r, f) :: hashmap_spec_run kf vf cs kv
  end.

(** The allocator hands out an unused address. *)
Definition unused (h : pa_hashmap K) (e : Z) : Prop := hm_key h !! e = None /\ hm_value h !! e = None.

Fixpoint hashmap_cmds_ok (cs : list hashmap_cmd) (h : pa_hashmap K) : Prop :=
  match cs with
  | [] => True
  | c :: cs => match c with HPut e _ _ => unused h e | _ => True end /\
      forall r h', hashmap_exec c h = Ok (r, h') -> hashmap_cmds_ok cs h'
  end.
End specification.
Arguments hashmap_cmd : clear implicits.
