(* ===== verification/HashmapProps.v ===== *)
(** * HashmapProps: hash maps keep their promise

    The entries, buckets and list of [hashmap.c] implement the specification
    [hashmap_spec]. *)
From stdpp Require Import base tactics numbers list gmap strings.
From S2P Require Import Prelude Dll Idxset IdxsetProps Hashmap.

Section simulation.
Context {K : Type} `{KeyLaws K}.
Implicit Types (h : pa_hashmap K) (e : Z) (k : K) (l : list Z) (kv : list (K * Z)).

(** ** Representation *)

Definition key_bucket h (a : Z) : option Z := (fun k => hash_func k mod NBUCKETS) <$> hm_key h !! a.

Definition stores h (a : Z) (x : K * Z) : Prop := hm_key h !! a = Some x.1 /\ hm_value h !! a = Some x.2.

(** The entries [l] in the order of insertion carry the pairs [kv]. *)
Record hashmap_rep h l kv : Prop := {
  hr_iterate : dll (hm_iterate_next h) (hm_iterate_previous h) l;
  hr_head : hm_head h = head l;
  hr_tail : hm_tail h = last l;
  hr_stores : Forall2 (stores h) l kv;
  hr_size : size (hm_key h) = length l;
  hr_n : hm_n_entries h = Z.of_nat (length l);
  hr_buckets : table_ok (hm_bucket_next h) (hm_bucket_previous h) (hm_buckets h) (key_bucket h) l;
  hr_distinct i j x y : kv !! i = Some x -> kv !! j = Some y -> compare_func x.1 y.1 = 0 -> i = j;
  hr_bound : Z.of_nat (length l) < 2 ^ 32
}.

Lemma rep_stores h l kv a : hashmap_rep h l kv -> a ∈ l ->
  exists j x, l !! j = Some a /\ kv !! j = Some x /\ stores h a x.
Proof.
  intros R [j Hj]%list_elem_of_lookup. destruct (Forall2_lookup_l _ _ _ _ _ (hr_stores _ _ _ R) Hj) as (x & ? & ?).
  eauto.
Qed.

(** Searching by key finds what the specification finds. *)
Lemma hash_scan_find h l kv k : hashmap_rep h l kv ->
  exists r, hash_scan h (hash_func k mod NBUCKETS) k = Ok r /\
    match find_key k kv with
    | Some (j, x) => exists a, r = Some a /\ l !! j = Some a /\ kv !! j = Some x /\ stores h a x
    | None => r = None /\ Forall (fun x => compare_func x.1 k <> 0) kv
    end.
Proof.
  intros R. unfold hash_scan. rewrite pa_assert_true, bind_ok by (pose proof (mod_buckets (hash_func k)); blia).
  destruct (table_scan _ _ _ _ _ (hash_func k mod NBUCKETS)
    (fun a => from_option (fun d => compare_func d k =? 0) false (hm_key h !! a) = true)
    (fun a => d ← deref (hm_key h !! a); Ok (compare_func d k =? 0)) (size (hm_key h)) (hr_buckets _ _ _ R))
    as (r & -> & Hr).
  - apply mod_buckets.
  - intros a Ha HP. destruct (rep_stores _ _ _ _ R Ha) as (j & x & _ & _ & Hk & _).
    unfold key_bucket. rewrite Hk in *. simpl in *. apply Z.eqb_eq in HP. by rewrite (hash_compare _ _ HP).
  - intros a Ha. destruct (rep_stores _ _ _ _ R Ha) as (j & x & _ & _ & Hk & _). rewrite Hk. simpl.
    by rewrite bool_decide_eqb.
  - by rewrite (hr_size _ _ _ R).
  - exists r. split; [done|]. destruct r as [a|].
    + destruct Hr as [Ha HP]. destruct (rep_stores _ _ _ _ R Ha) as (j & x & Hj & Hx & Hc).
      pose proof Hc as [Hk _]. rewrite Hk in HP. simpl in HP. apply Z.eqb_eq in HP.
      assert (find_key k kv = Some (j, x)) as ->; [|eauto 10].
      apply list_find_Some. split_and!; [done|done|]. intros i y Hy Hi Hky.
      assert (i = j); [|lia]. eapply (hr_distinct _ _ _ R); [done..|].
      eapply compare_trans; [done|]. by apply compare_sym.
    + assert (Forall (fun x => compare_func x.1 k <> 0) kv) as Hall.
      { apply Forall_lookup. intros j x Hx. destruct (Forall2_lookup_r _ _ _ _ _ (hr_stores _ _ _ R) Hx)
          as (a & Ha & Hk & _). intros Hc. apply (Hr a (list_elem_of_lookup_2 _ _ _ Ha)). rewrite Hk. simpl. by apply Z.eqb_eq. }
      assert (find_key k kv = None) as -> by (by apply list_find_None). done.
Qed.

(** Taking out the entry [e] with the pair [x]. *)
Lemma hashmap_remove_entry_ok h l1 e l2 m1 x m2 : hashmap_rep h (l1 ++ e :: l2) (m1 ++ x :: m2) ->
  length l1 = length m1 ->
  exists h', hashmap_remove_entry h e = Ok (free_key (hm_key_free h) x, h') /\
    hashmap_rep h' (l1 ++ l2) (m1 ++ m2) /\
    hm_key_free h' = hm_key_free h /\ hm_value_free h' = hm_value_free h.
Proof.
  intros R Hlen. set (l := l1 ++ e :: l2) in *.
  assert (e ∈ l) as He by set_solver. pose proof (dll_nodup _ _ _ (hr_iterate _ _ _ R)) as Hn.
  destruct (NoDup_split_notin _ _ _ Hn) as (Hn1 & Hn2 & _). assert (e ∉ l1 ++ l2) as Hne by set_solver.
  pose proof (hr_stores _ _ _ R) as Hc. apply Forall2_app_inv in Hc as [Hc1 Hc2]; [|done].
  apply Forall2_cons in Hc2 as [[Hk Hv] Hc2].
  destruct (unlink_dll _ _ _ _ (hr_iterate _ _ _ R) He) as (itn & itp & hd & tl & E1 & D1 & _ & _ & Hhd & Htl & _).
  destruct (table_remove_ok _ _ _ _ _ e (hash_func x.1 mod NBUCKETS) (hr_buckets _ _ _ R) He Hn)
    as (bn & bp & bs & E2 & T2); [unfold key_bucket; by rewrite Hk|].
  unfold l in D1, T2, Hhd, Htl. rewrite (rm_split _ _ _ Hn) in D1, T2, Hhd, Htl.
  pose proof (hr_n _ _ _ R) as Hnn. pose proof (hr_bound _ _ _ R) as Hb.
  assert (length l = S (length (l1 ++ l2))) as Hll by (unfold l; rewrite !length_app; simpl; lia).
  unfold hashmap_remove_entry. rewrite E1, bind_ok, Hk. cbn [deref]. rewrite !bind_ok, E2, !bind_ok.
  rewrite pa_assert_true, bind_ok by blia. eexists. split; [done|]. split; [|done].
  assert (forall a, a ∈ l1 ++ l2 -> a <> e) as Hae by (intros a Ha ->; done).
  split; cbn.
  - by apply dll_delete.
  - by rewrite (hr_head _ _ _ R).
  - by rewrite (hr_tail _ _ _ R).
  - apply (Forall2_impl_elem (stores h)); [by apply Forall2_app|]. intros a y Ha _ [? ?].
    unfold stores; simpl. by rewrite !lookup_delete_ne by (apply not_eq_sym, Hae, Ha).
  - rewrite map_size_delete, Hk, (hr_size _ _ _ R). simpl. lia.
  - rewrite u32_small; lia.
  - apply table_delete; [done|]. eapply table_ext; [|exact T2]. intros a Ha. unfold key_bucket; simpl.
    by rewrite lookup_delete_ne by (apply not_eq_sym, Hae, Ha).
  - by eapply delete_distinct, (hr_distinct _ _ _ R).
  - lia.
Qed.

Lemma hashmap_remove_at h l kv j a x : hashmap_rep h l kv -> l !! j = Some a -> kv !! j = Some x ->
  exists h', hashmap_remove_entry h a = Ok (free_key (hm_key_free h) x, h') /\
    hashmap_rep h' (delete j l) (delete j kv) /\
    hm_key_free h' = hm_key_free h /\ hm_value_free h' = hm_value_free h.
Proof.
  intros R Hj Hx. rewrite !delete_take_drop. apply (hashmap_remove_entry_ok _ _ a _ _ x).
  - by rewrite !take_drop_middle.
  - apply lookup_lt_Some in Hj, Hx. rewrite !length_take. lia.
Qed.

(** Making the entry [e] for a new key. *)
Lemma put_new_key h l kv e k v : hashmap_rep h l kv -> unused h e -> Z.of_nat (length l) < 2 ^ 32 - 1 ->
  Forall (fun x => compare_func x.1 k <> 0) kv ->
  exists h', pa_hashmap_put h e k v = Ok (0, h') /\ hashmap_rep h' (l ++ [e]) (kv ++ [(k, v)]) /\
    hm_key_free h' = hm_key_free h /\ hm_value_free h' = hm_value_free h.
Proof.
  intros R [Hfk Hfv] Hb Hnew.
  assert (e ∉ l) as Hel.
  { intros He. destruct (rep_stores _ _ _ _ R He) as (j & x & _ & _ & ? & _). congruence. }
  destruct (hash_scan_find h l kv k R) as (r & E & Hr).
  assert (find_key k kv = None) as Ef by (by apply list_find_None). rewrite Ef in Hr. destruct Hr as [-> _].
  pose proof (hr_n _ _ _ R) as Hnn.
  set (f := fun a => if decide (a = e) then Some (hash_func k mod NBUCKETS) else key_bucket h a).
  assert (forall a, a ∈ l -> a <> e) as Hae by (intros a Ha ->; done).
  destruct (table_insert_ok _ _ _ f l e (hash_func k mod NBUCKETS)
    (table_ext _ _ _ _ f _ ltac:(intros a Ha; unfold f; case_decide; [by destruct (Hae a)|done]) (hr_buckets _ _ _ R)))
    as (bn & bp & bs & E1 & T1); [done|unfold f; by case_decide|apply mod_buckets|].
  destruct (link_back_dll _ _ _ e (hr_iterate _ _ _ R) Hel) as (itn & itp & E3 & D3).
  unfold pa_hashmap_put. rewrite E, bind_ok, E1, bind_ok.
  rewrite (hr_head _ _ _ R), (hr_tail _ _ _ R), E3, bind_ok. cbv zeta.
  rewrite u32_small by lia. rewrite pa_assert_true, bind_ok by blia. eexists. split; [done|]. split; [|done].
  split; cbn; rewrite ?length_app; simpl.
  - done.
  - done.
  - by rewrite last_snoc.
  - apply Forall2_app; [|constructor; [|done]].
    + apply (Forall2_impl_elem (stores h)); [exact (hr_stores _ _ _ R)|]. intros a y Ha _ [? ?].
      unfold stores; simpl. by rewrite !lookup_insert_ne by (apply not_eq_sym, Hae, Ha).
    + split; simpl; by rewrite lookup_insert_eq.
  - rewrite map_size_insert, Hfk, (hr_size _ _ _ R). simpl. lia.
  - lia.
  - eapply table_ext; [|exact T1]. intros a _. unfold f, key_bucket; simpl. rewrite lookup_insert.
    case_decide; case_decide; simplify_eq; done.
  - apply (snoc_distinct (fun x y => compare_func x.1 y.1 = 0)); [|exact (hr_distinct _ _ _ R)|done].
    intros ? ?. apply compare_sym.
  - lia.
Qed.

Lemma hashmap_new_ok kf vf : hashmap_rep (pa_hashmap_new_full kf vf : pa_hashmap K) [] [].
Proof.
  split; try done; [apply dll_new|apply table_new].
Qed.

(** ** The simulation *)

(** A call does what the specification says, and leaves the free functions. *)
Definition hm_simulated (c : hashmap_cmd K) h kv : Prop :=
  let '(r, f, kv') := hashmap_spec (hm_key_free h) (hm_value_free h) c kv in
  exists h' l', hashmap_exec c h = Ok (r, f, h') /\ hashmap_rep h' l' kv' /\
    hm_key_free h' = hm_key_free h /\ hm_value_free h' = hm_value_free h.

Lemma sim_hput h l kv e k v : hashmap_rep h l kv -> Z.of_nat (length l) < 2 ^ 32 - 1 -> unused h e ->
  hm_simulated (HPut e k v) h kv.
Proof.
  intros R Hb Hu. unfold hm_simulated. simpl. destruct (hash_scan_find h l kv k R) as (r & E & Hr).
  destruct (find_key k kv) as [[j x]|].
  - destruct Hr as (a & -> & _). unfold pa_hashmap_put. rewrite E. simpl. eauto 10.
  - destruct Hr as [-> Hr]. destruct (put_new_key _ _ _ _ k v R Hu Hb Hr) as (h' & -> & R' & E').
    simpl. eauto 10.
Qed.

Lemma sim_hget h l kv k : hashmap_rep h l kv -> hm_simulated (HGet k) h kv.
Proof.
  intros R. unfold hm_simulated. simpl. unfold pa_hashmap_get.
  destruct (hash_scan_find h l kv k R) as (r & -> & Hr). destruct (find_key k kv) as [[j x]|]; simpl.
  - destruct Hr as (a & -> & _ & _ & _ & ->). simpl. eauto 10.
  - destruct Hr as [-> _]. simpl. eauto 10.
Qed.

Lemma sim_hremove h l kv k : hashmap_rep h l kv ->
  hm_simulated (HRemove k) h kv /\ hm_simulated (HRemoveAndFree k) h kv.
Proof.
  intros R. unfold hm_simulated. simpl. unfold pa_hashmap_remove_and_free, pa_hashmap_remove.
  destruct (hash_scan_find h l kv k R) as (r & -> & Hr). destruct (find_key k kv) as [[j x]|]; simpl.
  - destruct Hr as (a & -> & Hj & Hx & _ & ->). simpl.
    destruct (hashmap_remove_at _ _ _ _ _ _ R Hj Hx) as (h' & -> & R' & E1 & E2). simpl. rewrite E2. unfold free_value.
    split; [eauto 10|]. destruct (x.2 =? 0); simpl; [rewrite app_nil_r|destruct (hm_value_free h)]; eauto 10.
  - destruct Hr as [-> _]. split; simpl; eauto 10.
Qed.

(** The entries at both ends. *)
Lemma head_stores h l kv : hashmap_rep h l kv ->
  match kv with
  | x :: kv' => exists a l', l = a :: l' /\ hm_head h = Some a /\ stores h a x
  | [] => l = [] /\ hm_head h = None
  end.
Proof.
  intros R. rewrite (hr_head _ _ _ R). pose proof (hr_stores _ _ _ R) as Hc.
  destruct Hc as [|a x l' kv' Hax Hc]; [done|]. eauto 10.
Qed.

Lemma last_stores h l kv : hashmap_rep h l kv ->
  match last kv with Some x => exists a, hm_tail h = Some a /\ stores h a x | None => hm_tail h = None end.
Proof.
  intros R. rewrite (hr_tail _ _ _ R), !last_lookup. pose proof (hr_stores _ _ _ R) as Hc.
  rewrite <- (Forall2_length _ _ _ Hc). destruct (kv !! _) as [x|] eqn:Hx.
  - destruct (Forall2_lookup_r _ _ _ _ _ Hc Hx) as (a & ? & ?). eauto.
  - apply lookup_ge_None in Hx. apply lookup_ge_None. by rewrite <- (Forall2_length _ _ _ Hc) in Hx.
Qed.

Lemma sim_hends h l kv : hashmap_rep h l kv ->
  hm_simulated HFirst h kv /\ hm_simulated HLast h kv /\ hm_simulated HStealFirst h kv.
Proof.
  intros R. unfold hm_simulated. simpl. unfold pa_hashmap_first, pa_hashmap_last, pa_hashmap_steal_first.
  pose proof (head_stores _ _ _ R) as Hh. pose proof (last_stores _ _ _ R) as Ht.
  split_and!.
  - destruct kv as [|x kv]; [destruct Hh as [_ ->]; simpl; eauto 10|].
    destruct Hh as (a & l' & _ & -> & _ & ->). simpl. eauto 10.
  - destruct (last kv) as [x|]; [destruct Ht as (a & -> & _ & ->)|rewrite Ht]; simpl; eauto 10.
  - destruct kv as [|x kv]; [destruct Hh as [-> ->]; simpl; eauto 10|].
    destruct Hh as (a & l' & -> & -> & _ & ->). simpl.
    destruct (hashmap_remove_at _ _ _ 0 a x R eq_refl eq_refl) as (h' & -> & R' & E'). simpl. eauto 10.
Qed.

Lemma hashmap_remove_all_ok : forall kv h l fuel, hashmap_rep h l kv -> (length kv <= fuel)%nat ->
  exists h', hashmap_remove_all_loop fuel h = Ok (mjoin ((fun x => free_key (hm_key_free h) x ++
      free_value (hm_value_free h) x) <$> kv), h') /\ hashmap_rep h' [] [] /\
    hm_key_free h' = hm_key_free h /\ hm_value_free h' = hm_value_free h.
Proof.
  induction kv as [|x kv IH]; intros h l fuel R Hf; pose proof (head_stores _ _ _ R) as Hh.
  - destruct Hh as [-> Hh]. exists h. split; [|done]. destruct fuel; simpl; by rewrite Hh.
  - destruct Hh as (a & l' & -> & Hh & _ & Hv). destruct fuel as [|fuel]; [simpl in Hf; lia|]. simpl. rewrite Hh, Hv.
    simpl. destruct (hashmap_remove_at _ _ _ 0 a x R eq_refl eq_refl) as (h1 & -> & R1 & E1 & E2). simpl.
    destruct (IH h1 l' fuel R1) as (h2 & -> & R2 & E3 & E4); [simpl in Hf; lia|]. simpl.
    rewrite E1, E2 in *. exists h2. split; [|done]. unfold free_value. by rewrite app_assoc.
Qed.

Lemma hashmap_exec_simulates c h l kv : hashmap_rep h l kv -> Z.of_nat (length l) < 2 ^ 32 - 1 ->
  match c with HPut e _ _ => unused h e | _ => True end -> hm_simulated c h kv.
Proof.
  intros R Hb Hok. pose proof (Forall2_length _ _ _ (hr_stores _ _ _ R)) as Hl. destruct c.
  - by eapply sim_hput.
  - by eapply sim_hget.
  - by eapply sim_hremove.
  - by eapply sim_hremove.
  - unfold hm_simulated. simpl. unfold pa_hashmap_remove_all.
    destruct (hashmap_remove_all_ok kv h l (size (hm_key h)) R) as (h' & -> & R' & E').
    { by rewrite (hr_size _ _ _ R), Hl. }
    simpl. eauto 10.
  - by eapply sim_hends.
  - by eapply sim_hends.
  - by eapply sim_hends.
  - unfold hm_simulated. simpl. unfold pa_hashmap_size. rewrite (hr_n _ _ _ R), Hl. eauto 10.
  - unfold hm_simulated. simpl. unfold pa_hashmap_isempty. rewrite (hr_n _ _ _ R), Hl.
    destruct kv; simpl; eauto 10.
Qed.

Lemma hashmap_spec_length kf vf c kv : (length (hashmap_spec kf vf c kv).2 <= S (length kv))%nat.
Proof.
  assert (forall j, (length (delete j kv) <= length kv)%nat) as Hd.
  { intros j. rewrite delete_take_drop, length_app, length_take, length_drop. lia. }
  destruct c; simpl; repeat (case_match; simplify_eq; simpl); rewrite ?length_app; simpl;
    try lia; specialize (Hd n); simpl in *; lia.
Qed.

Lemma hashmap_run_simulates cs : forall h l kv, hashmap_rep h l kv ->
  Z.of_nat (length kv) + Z.of_nat (length cs) < 2 ^ 32 -> hashmap_cmds_ok cs h ->
  exists h', hashmap_run cs h = Ok (hashmap_spec_run (hm_key_free h) (hm_value_free h) cs kv, h').
Proof.
  induction cs as [|c cs IH]; intros h l kv R Hb Hok; [by exists h|]. simpl length in Hb.
  destruct Hok as [Hc Hok]. pose proof (Forall2_length _ _ _ (hr_stores _ _ _ R)) as Hl.
  pose proof (hashmap_exec_simulates c h l kv R ltac:(lia) Hc) as Hs.
  pose proof (hashmap_spec_length (hm_key_free h) (hm_value_free h) c kv) as Hsl.
  unfold hm_simulated in Hs. cbn [hashmap_run hashmap_spec_run].
  destruct (hashmap_spec _ _ c kv) as [[r f] kv']. destruct Hs as (h' & l' & E & R' & E1 & E2). simpl in Hsl.
  rewrite E, bind_ok. destruct (IH h' l' kv' R') as (h2 & ->); [lia|by eapply Hok|].
  exists h2. by rewrite E1, E2.
Qed.
End simulation.

(** ** Whole iterations *)
Section iteration.
Context {K : Type} `{KeyLaws K}.
Implicit Types (h : pa_hashmap K) (kv : list (K * Z)).

(** Calling [step] with the cursor of the call before, until it says end. *)
Fixpoint hashmap_iterate_loop (fuel : nat) (step : cursor -> outcome (Z * option K * cursor)) (c : cursor)
    : outcome (list (K * Z)) :=
  match fuel with
  | O => UB
  | S fuel =>
      '(v, k, c) ← step c;
      match k with
      | None => Ok []
      | Some k => r ← hashmap_iterate_loop fuel step c; Ok ((k, v) :: r)
      end
  end.

(** A cursor that walks along a list of entries with the pairs [kv]. *)
Fixpoint walks (step : cursor -> outcome (Z * option K * cursor)) (c : cursor) kv : Prop :=
  match kv with
  | [] => step c = Ok (0, None, CurEnd)
  | x :: kv => exists c', step c = Ok (x.2, Some x.1, c') /\ walks step c' kv
  end.

Lemma walks_loop step kv : forall c fuel, walks step c kv -> (length kv < fuel)%nat ->
  hashmap_iterate_loop fuel step c = Ok kv.
Proof.
  induction kv as [|x kv IH]; intros c fuel Hw Hf; (destruct fuel as [|fuel]; [lia|]); simpl in *.
  - by rewrite Hw.
  - destruct Hw as (c' & -> & Hw). simpl. rewrite (IH c') by (done || lia). by destruct x.
Qed.

Definition cursor_of (n : option Z) : cursor := match n with Some a => CurAt a | None => CurEnd end.

Lemma walks_forward h l1 l2 m1 m2 : hashmap_rep h (l1 ++ l2) (m1 ++ m2) -> length l1 = length m1 ->
  walks (pa_hashmap_iterate h) (cursor_of (head l2)) m2.
Proof.
  revert l1 l2 m1. induction m2 as [|x m2 IH]; intros l1 l2 m1 R Hl;
    pose proof (hr_stores _ _ _ R) as Hs; apply Forall2_app_inv in Hs as [_ Hs]; try done.
  - by apply Forall2_nil_inv_r in Hs as ->.
  - apply Forall2_cons_inv_r in Hs as (a & l2' & [Hk Hv] & Hs & ->). simpl. unfold pa_hashmap_iterate.
    rewrite (dll_next _ _ _ _ _ (hr_iterate _ _ _ R)), Hk, Hv. simpl. eexists. split; [done|].
    rewrite !cons_middle, !app_assoc in R. eapply IH; [exact R|]. by rewrite !length_app, Hl.
Qed.

Lemma walks_backward h l1 l2 m1 m2 : hashmap_rep h (l1 ++ l2) (m1 ++ m2) -> length l1 = length m1 ->
  walks (pa_hashmap_iterate_backwards h) (cursor_of (last l1)) (reverse m1).
Proof.
  revert l1 l2 m2. induction m1 as [|x m1 IH] using rev_ind; intros l1 l2 m2 R Hl;
    pose proof (hr_stores _ _ _ R) as Hs; apply Forall2_app_inv in Hs as [Hs _]; try done.
  - by destruct l1.
  - apply Forall2_app_inv_r in Hs as (l1' & k & Hs1 & Hs2 & ->). apply Forall2_cons_inv_r in Hs2 as (a & k' & [Hk Hv] & Hn & ->).
    apply Forall2_nil_inv_r in Hn as ->. rewrite reverse_snoc, last_snoc. simpl. unfold pa_hashmap_iterate_backwards.
    rewrite <- !app_assoc in R. simpl in R. rewrite (dll_prev _ _ _ _ _ (hr_iterate _ _ _ R)), Hk, Hv. simpl.
    eexists. split; [done|]. eapply IH; [exact R|]. by eapply Forall2_length.
Qed.
End iteration.

(** ** Claims *)

(** C30: whatever calls are made on a new map, in any order, each returns what
    the specification returns and frees what it should: a key that is there is
    not put again, lookups and removals by key see exactly the pairs put and not
    removed, first and last follow the order of insertion, and emptying the map
    frees every key and value once.  No assertion fails and no dangling entry is
    touched. *)
Theorem hashmap_refines {K : Type} `{KeyLaws K} (kf vf : bool) (cs : list (hashmap_cmd K)) :
  Z.of_nat (length cs) < 2 ^ 32 -> hashmap_cmds_ok cs (pa_hashmap_new_full kf vf) ->
  exists h, hashmap_run cs (pa_hashmap_new_full kf vf) = Ok (hashmap_spec_run kf vf cs [], h).
Proof. intros Hl Hok. exact (hashmap_run_simulates cs _ _ _ (hashmap_new_ok kf vf) ltac:(simpl; lia) Hok). Qed.

(** Iterating over a map visits every pair exactly once, in the order of
    insertion, and iterating backwards in the opposite order. *)
Theorem hashmap_iterates {K : Type} `{KeyLaws K} (h : pa_hashmap K) l kv : hashmap_rep h l kv ->
  hashmap_iterate_loop (S (length kv)) (pa_hashmap_iterate h) CurNull = Ok kv /\
  hashmap_iterate_loop (S (length kv)) (pa_hashmap_iterate_backwards h) CurNull = Ok (reverse kv).
Proof.
  intros R. assert (walks (pa_hashmap_iterate h) (cursor_of (hm_head h)) kv) as Hf.
  { rewrite (hr_head _ _ _ R). by apply (walks_forward h [] l [] kv). }
  assert (walks (pa_hashmap_iterate_backwards h) (cursor_of (hm_tail h)) (reverse kv)) as Hb.
  { rewrite (hr_tail _ _ _ R). apply (walks_backward h l [] kv []); [by rewrite !app_nil_r|].
    exact (Forall2_length _ _ _ (hr_stores _ _ _ R)). }
  split; apply walks_loop; rewrite ?length_reverse; try lia.
  - destruct kv; simpl in *; unfold pa_hashmap_iterate in *; by destruct (hm_head h).
  - destruct (reverse kv); simpl in *; unfold pa_hashmap_iterate_backwards in *; by destruct (hm_tail h).
Qed.

(** ** Witnesses *)

Module HashmapExample.
Definition cmds : list (hashmap_cmd string) :=
  [HPut 1 "x" 10; HPut 2 "y" 20; HPut 3 "x" 30; HGet "x"; HRemoveAndFree "x"; HGet "x"; HPut 1 "x" 40; HRemoveAll;
   HIsEmpty]%string.
End HashmapExample.
Import HashmapExample.

Lemma hashmap_refines_witness : exists h, hashmap_run cmds (pa_hashmap_new_full true true) = Ok (
  [(0, []); (0, []); (-1, []); (10, []); (0, [inl "x"; inr 10]); (0, []); (0, []);
   (0, [inl "y"; inr 20; inl "x"; inr 40]); (1, [])]%string, h).
Proof.
  destruct (hashmap_refines true true cmds) as (h & E); [done| |exists h; exact E].
  cbn [hashmap_cmds_ok cmds]. repeat (split; [first [exact I | split; reflexivity]|]; intros ? ? E;
    vm_compute in E; injection E as <- <-). exact I.
Defined.

Lemma hashmap_iterates_witness : exists h,
  hashmap_iterate_loop 3 (pa_hashmap_iterate h) CurNull = Ok [(5, 10); (6, 20)] /\
  hashmap_iterate_loop 3 (pa_hashmap_iterate_backwards h) CurNull = Ok [(6, 20); (5, 10)].
Proof.
  destruct (put_new_key (pa_hashmap_new_full false false) [] [] 1 5 10 (hashmap_new_ok false false))
    as (h1 & E1 & R1 & _); [done|done|by constructor|].
  vm_compute in E1. injection E1 as <-.
  destruct (put_new_key _ _ _ 2 6 20 R1) as (h2 & _ & R2 & _); [done|done|by repeat constructor|].
  exists h2. exact (hashmap_iterates h2 _ _ R2).
Defined.
