(* ===== verification/Memblock.v ===== *)
(** * Memblock: reference-counted memory blocks and their pool

    Models the block life cycle of [src/pulsecore/memblock.c] and the chunks
    of [src/pulsecore/memchunk.c].  The state is one pool with the blocks
    allocated from it; a pointer to a block is its key in [st_blocks], and a
    block whose reference count reaches zero leaves the map, so that an access
    through a stale pointer is undefined behaviour ([UB]).

    A byte is an [option Z]: [None] is memory that was never written.  The
    atomic counters are ordinary fields: the operations run one at a time.
    The pool's shared-memory segment, the import and export tables and the
    free lists' capacities are not part of the state: pushing to a free list
    succeeds (memblock.c retries until it does). *)
From stdpp Require Import base tactics numbers list gmap.
From S2P Require Import Prelude.

(** A byte of memory. *)
Abbreviation cell := (option Z).

Inductive pa_memblock_type_t :=
| PA_MEMBLOCK_POOL
| PA_MEMBLOCK_POOL_EXTERNAL
| PA_MEMBLOCK_APPENDED
| PA_MEMBLOCK_USER
| PA_MEMBLOCK_FIXED
| PA_MEMBLOCK_IMPORTED.

#[export] Instance memblock_type_eq_dec : EqDecision pa_memblock_type_t.
Proof. solve_decision. Defined.

Record pa_memblock := mk_memblock {
  mb_refcnt : Z;
  mb_type : pa_memblock_type_t;
  mb_read_only : bool;
  mb_is_silence : bool;
  mb_length : Z;
  mb_data : list cell;     (* what the data pointer points to *)
  mb_slot : Z;             (* the pool slot holding it, for the pool types *)
  mb_n_acquired : Z
}.

(** The pool.  Of [pa_mempool_stat], the two counters that the code reads back
    in assertions are kept. *)
Record pa_mempool := mk_mempool {
  mp_refcnt : Z;
  mp_block_size : Z;
  mp_n_blocks : Z;
  mp_n_init : Z;
  mp_free_slots : list Z;
  mp_n_allocated : Z;
  mp_allocated_size : Z
}.

Record store := mk_store {
  st_pool : pa_mempool;
  st_blocks : gmap Z pa_memblock;
  st_next : Z;             (* the address the next allocation gets *)
  st_pool_disabled : bool  (* $PULSE_MEMPOOL_DISABLE is set *)
}.

(** A [pa_memchunk]: a slice of a block, or no block at all. *)
Record pa_memchunk := mk_chunk {
  mc_memblock : option Z;
  mc_index : Z;
  mc_length : Z
}.

#[export] Instance pa_memchunk_eq_dec : EqDecision pa_memchunk.
Proof. solve_decision. Defined.

(** [PA_ALIGN(sizeof(pa_memblock))] on a 64-bit machine. *)
Definition memblock_header : Z := 64.

(** ** State updates *)

Definition set_block (id : Z) (b : pa_memblock) (st : store) : store :=
  mk_store (st_pool st) (<[id := b]> (st_blocks st)) (st_next st) (st_pool_disabled st).

Definition set_pool (p : pa_mempool) (st : store) : store :=
  mk_store p (st_blocks st) (st_next st) (st_pool_disabled st).

Definition with_refcnt (r : Z) (b : pa_memblock) : pa_memblock :=
  mk_memblock r (mb_type b) (mb_read_only b) (mb_is_silence b) (mb_length b) (mb_data b)
    (mb_slot b) (mb_n_acquired b).

Definition with_n_acquired (n : Z) (b : pa_memblock) : pa_memblock :=
  mk_memblock (mb_refcnt b) (mb_type b) (mb_read_only b) (mb_is_silence b) (mb_length b)
    (mb_data b) (mb_slot b) n.

Definition with_data (d : list cell) (b : pa_memblock) : pa_memblock :=
  mk_memblock (mb_refcnt b) (mb_type b) (mb_read_only b) (mb_is_silence b) (mb_length b)
    d (mb_slot b) (mb_n_acquired b).

(** The live block behind a pointer, with the assertion every entry point
    makes: [pa_assert(PA_REFCNT_VALUE(b) > 0)]. *)
Definition get_block (id : Z) (st : store) : outcome pa_memblock :=
  b ← deref (st_blocks st !! id);
  _ ← pa_assert (0 <? mb_refcnt b);
  Ok b.

(** ** Pool *)

(** [b->length] is cast to [int] before it is added to the [int] counter. *)
Definition stat_add (b : pa_memblock) (p : pa_mempool) : pa_mempool :=
  mk_mempool (mp_refcnt p) (mp_block_size p) (mp_n_blocks p) (mp_n_init p) (mp_free_slots p)
    (s32 (mp_n_allocated p + 1)) (s32 (mp_allocated_size p + s32 (mb_length b))).

Definition stat_remove (b : pa_memblock) (p : pa_mempool) : outcome pa_mempool :=
  _ ← pa_assert (0 <? mp_n_allocated p);
  _ ← pa_assert (s32 (mb_length b) <=? mp_allocated_size p);
  Ok (mk_mempool (mp_refcnt p) (mp_block_size p) (mp_n_blocks p) (mp_n_init p)
        (mp_free_slots p) (s32 (mp_n_allocated p - 1))
        (s32 (mp_allocated_size p - s32 (mb_length b)))).

Definition pa_mempool_ref (p : pa_mempool) : outcome pa_mempool :=
  _ ← pa_assert (0 <? mp_refcnt p);
  Ok (mk_mempool (mp_refcnt p + 1) (mp_block_size p) (mp_n_blocks p) (mp_n_init p)
        (mp_free_slots p) (mp_n_allocated p) (mp_allocated_size p)).

(** Dropping the last reference frees the pool; the record then stays with a
    zero count, and any later use of it aborts. *)
Definition pa_mempool_unref (p : pa_mempool) : outcome pa_mempool :=
  _ ← pa_assert (0 <? mp_refcnt p);
  Ok (mk_mempool (mp_refcnt p - 1) (mp_block_size p) (mp_n_blocks p) (mp_n_init p)
        (mp_free_slots p) (mp_n_allocated p) (mp_allocated_size p)).

Definition set_slots (n_init : Z) (free : list Z) (p : pa_mempool) : pa_mempool :=
  mk_mempool (mp_refcnt p) (mp_block_size p) (mp_n_blocks p) n_init free
    (mp_n_allocated p) (mp_allocated_size p).

(** A slot from the free list, else the next one never handed out; [None] when
    the pool is full. *)
Definition mempool_allocate_slot (p : pa_mempool) : option Z * pa_mempool :=
  match mp_free_slots p with
  | slot :: rest => (Some slot, set_slots (mp_n_init p) rest p)
  | [] =>
      if mp_n_blocks p <=? mp_n_init p then (None, p)
      else (Some (mp_n_init p), set_slots (mp_n_init p + 1) [] p)
  end.

Definition pa_mempool_block_size_max (p : pa_mempool) : Z :=
  mp_block_size p - memblock_header.

(** ** Allocation *)

(** The common tail of the constructors: a fresh block with one reference. *)
Definition add_block (ty : pa_memblock_type_t) (read_only : bool) (data : list cell)
    (slot : Z) (st : store) : outcome (Z * store) :=
  let b := mk_memblock 1 ty read_only false (Z.of_nat (length data)) data slot 0 in
  p ← pa_mempool_ref (st_pool st);
  Ok (st_next st,
      mk_store (stat_add b p) (<[st_next st := b]> (st_blocks st)) (st_next st + 1)
        (st_pool_disabled st)).

Definition uninit (length : Z) : list cell := replicate (Z.to_nat length) None.

Definition memblock_new_appended (length : Z) (st : store) : outcome (Z * store) :=
  _ ← pa_assert (negb (length =? 0));
  let length := if length =? SIZE_MAX then pa_mempool_block_size_max (st_pool st) else length in
  add_block PA_MEMBLOCK_APPENDED false (uninit length) (-1) st.

Definition pa_memblock_new_pool (length : Z) (st : store) : outcome (option Z * store) :=
  _ ← pa_assert (negb (length =? 0));
  if st_pool_disabled st then Ok (None, st)
  else
    let length :=
      if length =? SIZE_MAX then pa_mempool_block_size_max (st_pool st) else length in
    let try_slot ty :=
      match mempool_allocate_slot (st_pool st) with
      | (None, p) => Ok (None, set_pool p st)
      | (Some slot, p) =>
          '(id, st) ← add_block ty false (uninit length) slot (set_pool p st);
          Ok (Some id, st)
      end in
    if memblock_header + length <=? mp_block_size (st_pool st) then try_slot PA_MEMBLOCK_POOL
    else if length <=? mp_block_size (st_pool st) then try_slot PA_MEMBLOCK_POOL_EXTERNAL
    else Ok (None, st).

Definition pa_memblock_new (length : Z) (st : store) : outcome (Z * store) :=
  _ ← pa_assert (negb (length =? 0));
  '(r, st) ← pa_memblock_new_pool length st;
  match r with
  | Some id => Ok (id, st)
  | None => memblock_new_appended length st
  end.

Definition pa_memblock_new_fixed (d : list cell) (read_only : bool) (st : store)
    : outcome (Z * store) :=
  _ ← pa_assert (negb (Z.of_nat (length d) =? SIZE_MAX));
  _ ← pa_assert (negb (Z.of_nat (length d) =? 0));
  add_block PA_MEMBLOCK_FIXED read_only d (-1) st.

Definition pa_memblock_new_user (d : list cell) (read_only : bool) (st : store)
    : outcome (Z * store) :=
  _ ← pa_assert (negb (Z.of_nat (length d) =? 0));
  _ ← pa_assert (negb (Z.of_nat (length d) =? SIZE_MAX));
  add_block PA_MEMBLOCK_USER read_only d (-1) st.

(** ** Access *)

Definition pa_memblock_is_read_only (id : Z) (st : store) : outcome bool :=
  b ← get_block id st;
  Ok (mb_read_only b || (1 <? mb_refcnt b)).

Definition pa_memblock_is_silence (id : Z) (st : store) : outcome bool :=
  b ← get_block id st;
  Ok (mb_is_silence b).

Definition pa_memblock_set_is_silence (id : Z) (v : bool) (st : store) : outcome store :=
  b ← get_block id st;
  Ok (set_block id (mk_memblock (mb_refcnt b) (mb_type b) (mb_read_only b) v (mb_length b)
        (mb_data b) (mb_slot b) (mb_n_acquired b)) st).

Definition pa_memblock_ref_is_one (id : Z) (st : store) : outcome bool :=
  b ← get_block id st;
  Ok (mb_refcnt b =? 1).

Definition pa_memblock_get_length (id : Z) (st : store) : outcome Z :=
  b ← get_block id st;
  Ok (mb_length b).

(** [pa_memblock_acquire] returns the data pointer: the bytes it points to. *)
Definition pa_memblock_acquire (id : Z) (st : store) : outcome (list cell * store) :=
  b ← get_block id st;
  Ok (mb_data b, set_block id (with_n_acquired (mb_n_acquired b + 1) b) st).

Definition pa_memblock_release (id : Z) (st : store) : outcome store :=
  b ← get_block id st;
  _ ← pa_assert (1 <=? mb_n_acquired b);
  Ok (set_block id (with_n_acquired (mb_n_acquired b - 1) b) st).

(** A store through an acquired data pointer: [memcpy(data + off, src, n)]. *)
Definition write_data (id : Z) (off : Z) (src : list cell) (st : store) : outcome store :=
  b ← deref (st_blocks st !! id);
  d ← deref (splice off src (mb_data b));
  Ok (set_block id (with_data d b) st).

(** A read through an acquired data pointer: [n] bytes from [off]. *)
Definition read_data (d : list cell) (off n : Z) : outcome (list cell) :=
  if (0 <=? off) && (0 <=? n) && (off + n <=? Z.of_nat (length d))
  then Ok (sub_list off n d) else UB.

Definition pa_memblock_ref (id : Z) (st : store) : outcome store :=
  b ← get_block id st;
  Ok (set_block id (with_refcnt (mb_refcnt b + 1) b) st).

Definition memblock_free (id : Z) (b : pa_memblock) (st : store) : outcome store :=
  _ ← pa_assert (mb_n_acquired b =? 0);
  p ← stat_remove b (st_pool st);
  p ← match mb_type b with
      | PA_MEMBLOCK_POOL_EXTERNAL | PA_MEMBLOCK_POOL =>
          (* mempool_slot_by_ptr asserts that the data lies in the pool *)
          _ ← pa_assert ((0 <=? mb_slot b) && (mb_slot b <? mp_n_blocks p));
          Ok (set_slots (mp_n_init p) (mb_slot b :: mp_free_slots p) p)
      | _ => Ok p
      end;
  p ← pa_mempool_unref p;
  Ok (mk_store p (delete id (st_blocks st)) (st_next st) (st_pool_disabled st)).

Definition pa_memblock_unref (id : Z) (st : store) : outcome store :=
  b ← get_block id st;
  if 0 <? mb_refcnt b - 1 then Ok (set_block id (with_refcnt (mb_refcnt b - 1) b) st)
  else memblock_free id b st.

(** ** Chunks *)

Definition pa_memchunk_reset : pa_memchunk := mk_chunk None 0 0.

Definition pa_memchunk_isset (c : pa_memchunk) : bool :=
  bool_decide (is_Some (mc_memblock c)) || (0 <? mc_index c) || (0 <? mc_length c).

(** [memcpy(tdata, sdata + c->index, c->length)] between two blocks. *)
Definition copy_chunk (src : Z) (soff : Z) (dst : Z) (doff : Z) (n : Z) (st : store)
    : outcome store :=
  '(sdata, st) ← pa_memblock_acquire src st;
  '(_, st) ← pa_memblock_acquire dst st;
  bs ← read_data sdata soff n;
  st ← write_data dst doff bs st;
  st ← pa_memblock_release src st;
  pa_memblock_release dst st.

Definition pa_memchunk_make_writable (c : pa_memchunk) (min : Z) (st : store)
    : outcome (pa_memchunk * store) :=
  _ ← pa_assert (bool_decide (is_Some (mc_memblock c)));
  id ← deref (mc_memblock c);
  one ← pa_memblock_ref_is_one id st;
  ro ← pa_memblock_is_read_only id st;
  len ← pa_memblock_get_length id st;
  if one && negb ro && (u64 (mc_index c + min) <=? len) then Ok (c, st)
  else
    let l := Z.max (mc_length c) min in
    '(n, st) ← pa_memblock_new l st;
    st ← copy_chunk id (mc_index c) n 0 (mc_length c) st;
    st ← pa_memblock_unref id st;
    Ok (mk_chunk (Some n) 0 (mc_length c), st).

Definition pa_memchunk_memcpy (dst src : pa_memchunk) (st : store) : outcome store :=
  _ ← pa_assert (mc_length dst =? mc_length src);
  d ← deref (mc_memblock dst);
  s ← deref (mc_memblock src);
  '(_, st) ← pa_memblock_acquire d st;
  '(q, st) ← pa_memblock_acquire s st;
  bs ← read_data q (mc_index src) (mc_length dst);
  st ← write_data d (mc_index dst) bs st;
  st ← pa_memblock_release d st;
  pa_memblock_release s st.

(** ** What clients see of the store *)

Definition refs (st : store) (id : Z) : Z := from_option mb_refcnt 0 (st_blocks st !! id).
Definition bytes (st : store) (id : Z) : list cell := from_option mb_data [] (st_blocks st !! id).

(** The bytes of a chunk. *)
Definition chunk_bytes (st : store) (c : pa_memchunk) : list cell :=
  match mc_memblock c with
  | Some id => sub_list (mc_index c) (mc_length c) (bytes st id)
  | None => []
  end.

(** ** Well-formed stores *)

Definition is_pool_type (t : pa_memblock_type_t) : bool :=
  match t with PA_MEMBLOCK_POOL | PA_MEMBLOCK_POOL_EXTERNAL => true | _ => false end.

Record block_wf (p : pa_mempool) (b : pa_memblock) : Prop := {
  bwf_ref : 0 < mb_refcnt b;
  bwf_len : mb_length b = Z.of_nat (length (mb_data b));
  bwf_pos : 0 < mb_length b;
  bwf_acq : 0 <= mb_n_acquired b;
  bwf_slot : is_pool_type (mb_type b) = true -> 0 <= mb_slot b < mp_n_init p
}.

(** The pool's counters agree with the live blocks, and every slot ever handed
    out belongs to at most one block and is not free while it does. *)
Record store_wf (st : store) : Prop := {
  wf_blocks : map_Forall (fun _ b => block_wf (st_pool st) b) (st_blocks st);
  wf_next : map_Forall (fun id _ => id < st_next st) (st_blocks st);
  wf_count : mp_n_allocated (st_pool st) = Z.of_nat (size (st_blocks st));
  wf_size : mp_allocated_size (st_pool st) = msum mb_length (st_blocks st);
  wf_int : msum mb_length (st_blocks st) < 2 ^ 31;
  wf_pool_ref : mp_n_allocated (st_pool st) < mp_refcnt (st_pool st);
  wf_init : 0 <= mp_n_init (st_pool st) <= mp_n_blocks (st_pool st);
  wf_free : Forall (fun s => 0 <= s < mp_n_init (st_pool st)) (mp_free_slots (st_pool st));
  wf_free_nodup : NoDup (mp_free_slots (st_pool st));
  wf_excl : forall i j b c, st_blocks st !! i = Some b -> st_blocks st !! j = Some c ->
    is_pool_type (mb_type b) = true -> is_pool_type (mb_type c) = true ->
    mb_slot b = mb_slot c -> i = j;
  wf_used : forall i b, st_blocks st !! i = Some b -> is_pool_type (mb_type b) = true ->
    mb_slot b ∉ mp_free_slots (st_pool st)
}.

Section store_lemmas.
Context (st : store) (Hwf : store_wf st).

Lemma wf_block id b : st_blocks st !! id = Some b -> block_wf (st_pool st) b.
Proof. apply (wf_blocks _ Hwf). Qed.

Lemma wf_len_nonneg : map_Forall (fun _ b => 0 <= mb_length b) (st_blocks st).
Proof. intros i b Hb. pose proof (bwf_pos _ _ (wf_block i b Hb)). simpl. lia. Qed.

Lemma wf_len_pos : map_Forall (fun _ b => 1 <= mb_length b) (st_blocks st).
Proof. intros i b Hb. pose proof (bwf_pos _ _ (wf_block i b Hb)). simpl. lia. Qed.

Lemma wf_len_int id b : st_blocks st !! id = Some b -> 0 < mb_length b < 2 ^ 31.
Proof.
  intros Hb. pose proof (msum_ge _ _ _ _ wf_len_nonneg Hb).
  pose proof (wf_int _ Hwf). pose proof (bwf_pos _ _ (wf_block id b Hb)). lia.
Qed.

Lemma get_block_ok id b : st_blocks st !! id = Some b -> get_block id st = Ok b.
Proof.
  intros Hb. unfold get_block. rewrite Hb. simpl.
  pose proof (bwf_ref _ _ (wf_block id b Hb)).
  rewrite pa_assert_true; [done|by apply Z.ltb_lt].
Qed.

(** Replacing a block by one that differs only in its reference count,
    acquisition count or contents keeps the store well formed. *)
Lemma wf_set_block id b b' :
  st_blocks st !! id = Some b -> mb_type b' = mb_type b -> mb_slot b' = mb_slot b ->
  mb_length b' = mb_length b -> length (mb_data b') = length (mb_data b) ->
  0 < mb_refcnt b' -> 0 <= mb_n_acquired b' ->
  store_wf (set_block id b' st).
Proof.
  intros Hb Ht Hs Hl Hd Hr Ha. pose proof (wf_block id b Hb) as Hbw.
  destruct Hwf as [W1 W2 W3 W4 W5 W6 W7 W8 W9 W10 W11]. split; simpl; try done.
  - apply map_Forall_insert_2; [|done]. destruct Hbw. split; rewrite ?Ht, ?Hs; try done; lia.
  - apply map_Forall_insert_2; [apply (W2 _ _ Hb)|done].
  - rewrite map_size_insert_Some by eauto. done.
  - rewrite (msum_insert_old _ _ _ b) by done. lia.
  - rewrite (msum_insert_old _ _ _ b) by done. lia.
  - intros i j c d. rewrite !lookup_insert_Some. intros [[<- <-]|[? Hc]] [[<- <-]|[? Hd']];
      rewrite ?Ht, ?Hs; try done; eauto using eq_sym.
  - intros i c. rewrite lookup_insert_Some. intros [[<- <-]|[? Hc]];
      rewrite ?Ht, ?Hs; eauto.
Qed.

Lemma lookup_next : st_blocks st !! st_next st = None.
Proof.
  destruct (st_blocks st !! st_next st) eqn:E; [|done].
  pose proof (wf_next _ Hwf _ _ E). simpl in *. lia.
Qed.
End store_lemmas.

(** ** The interface to clients *)

(** No data pointer is held between two operations. *)
Definition quiet (st : store) : Prop :=
  map_Forall (fun _ b => mb_n_acquired b = 0) (st_blocks st).

Definition store_ok (st : store) : Prop := store_wf st /\ quiet st.

(** Is block [id] marked as silence? *)
Definition silent (st : store) (id : Z) : bool := from_option mb_is_silence false (st_blocks st !! id).

(** [keeps st st']: from [st] to [st'] no address was reused, the blocks alive
    in both have the same bytes and the same mark, and the pool the same size of
    blocks. *)
Record keeps (st st' : store) : Prop := {
  keeps_next : st_next st <= st_next st';
  keeps_dead : forall j, j < st_next st -> refs st j = 0 -> refs st' j = 0;
  keeps_bytes : forall j, 0 < refs st j -> 0 < refs st' j -> bytes st' j = bytes st j;
  keeps_silent : forall j, 0 < refs st j -> 0 < refs st' j -> silent st' j = silent st j;
  keeps_size : mp_block_size (st_pool st') = mp_block_size (st_pool st)
}.

Lemma keeps_refl st : keeps st st.
Proof. split; auto; lia. Qed.

Lemma refs_alive st id : store_wf st ->
  0 < refs st id <-> exists b, st_blocks st !! id = Some b.
Proof.
  intros Hwf. unfold refs. destruct (st_blocks st !! id) as [b|] eqn:E; simpl.
  - pose proof (bwf_ref _ _ (wf_block _ Hwf _ _ E)). split; eauto.
  - split; [lia|]. by intros [b ?].
Qed.

Lemma refs_nonneg st id : store_wf st -> 0 <= refs st id.
Proof.
  intros Hwf. unfold refs. destruct (st_blocks st !! id) as [b|] eqn:E; simpl; [|lia].
  pose proof (bwf_ref _ _ (wf_block _ Hwf _ _ E)). lia.
Qed.

Lemma refs_next st id : store_wf st -> 0 < refs st id -> id < st_next st.
Proof. intros Hwf [b Hb]%refs_alive; [|done]. by apply (wf_next _ Hwf _ _ Hb). Qed.

Lemma keeps_trans st st1 st2 :
  store_wf st -> store_wf st1 -> keeps st st1 -> keeps st1 st2 -> keeps st st2.
Proof.
  intros W0 W1 [N1 D1 B1 S1 P1] [N2 D2 B2 S2 P2].
  assert (forall j, 0 < refs st j -> 0 < refs st2 j -> 0 < refs st1 j) as Ha.
  { intros j H0 H2. pose proof (refs_nonneg st1 j W1). pose proof (refs_next st j W0 H0).
    destruct (decide (refs st1 j = 0)) as [E|]; [rewrite D2 in H2 by (lia || done); lia|lia]. }
  split; [lia|intros; apply D2; [lia|auto]|..|congruence]; intros j H0 H2; specialize (Ha j H0 H2).
  - rewrite B2 by lia. apply B1; lia.
  - rewrite S2 by lia. apply S1; lia.
Qed.

Lemma refs_set_block st id b j : refs (set_block id b st) j =
  if decide (j = id) then mb_refcnt b else refs st j.
Proof.
  unfold refs, set_block; simpl. case_decide; subst; simplify_map_eq; done.
Qed.

Lemma bytes_set_block st id b j : bytes (set_block id b st) j =
  if decide (j = id) then mb_data b else bytes st j.
Proof.
  unfold bytes, set_block; simpl. case_decide; subst; simplify_map_eq; done.
Qed.

Lemma silent_set_block st id b j : silent (set_block id b st) j =
  if decide (j = id) then mb_is_silence b else silent st j.
Proof.
  unfold silent, set_block; simpl. case_decide; subst; simplify_map_eq; done.
Qed.

(** Changing a block that did not exist in [st]. *)
Lemma keeps_new_block st st1 id b b' : store_wf st -> keeps st st1 -> st_next st <= id ->
  st_blocks st1 !! id = Some b -> mb_refcnt b' = mb_refcnt b -> keeps st (set_block id b' st1).
Proof.
  intros Hwf [N1 D1 B1 S1 P1] Hid Hb Er.
  assert (forall j, refs (set_block id b' st1) j = refs st1 j) as R2.
  { intros j. rewrite refs_set_block. case_decide; [|done]. subst j. unfold refs. by rewrite Hb. }
  assert (forall j, 0 < refs st j -> j <> id) as Hne by (intros j Hj ->; pose proof (refs_next st id Hwf Hj); lia).
  split; simpl; [lia|intros j Hj Hr; rewrite R2; by apply D1|..|done]; intros j Hj; rewrite R2.
  - rewrite bytes_set_block, decide_False by auto. by apply B1.
  - rewrite silent_set_block, decide_False by auto. by apply S1.
Qed.

Lemma quiet_set_block st id b : quiet st -> mb_n_acquired b = 0 -> quiet (set_block id b st).
Proof. intros. by apply map_Forall_insert_2. Qed.

(** Bump of the reference count of [id] by [d]. *)
Definition delta (id d j : Z) : Z := if decide (j = id) then d else 0.

Lemma pa_memblock_ref_spec st id : store_ok st -> 0 < refs st id ->
  exists st', pa_memblock_ref id st = Ok st' /\ store_ok st' /\ keeps st st' /\
    forall j, refs st' j = refs st j + delta id 1 j.
Proof.
  intros [Hwf Hq] [b Hb]%refs_alive; [|done].
  pose proof (wf_block _ Hwf _ _ Hb) as Hbw.
  unfold pa_memblock_ref. rewrite (get_block_ok _ Hwf _ _ Hb). simpl.
  eexists; split; [done|]. assert (refs st id = mb_refcnt b) as Er by (unfold refs; by rewrite Hb).
  split_and!.
  - split; [apply (wf_set_block _ Hwf _ b); simpl; try done; destruct Hbw; lia|].
    apply quiet_set_block; [done|]. apply (Hq _ _ Hb).
  - split; [simpl; lia|..|done]; intros j; rewrite refs_set_block.
    + intros _ ?. case_decide; [|done]. subst. destruct Hbw; simpl; lia.
    + rewrite bytes_set_block. intros _ _. case_decide; [|done]. subst. unfold bytes. by rewrite Hb.
    + rewrite silent_set_block. intros _ _. case_decide; [|done]. subst. unfold silent. by rewrite Hb.
  - intros j. rewrite refs_set_block. unfold delta. case_decide; subst; simpl; lia.
Qed.

Lemma wf_count_int st : store_wf st -> mp_n_allocated (st_pool st) < 2 ^ 31.
Proof.
  intros Hwf. rewrite (wf_count _ Hwf). pose proof (wf_int _ Hwf).
  enough (Z.of_nat (size (st_blocks st)) <= msum mb_length (st_blocks st)) by lia.
  apply msum_size, (wf_len_pos _ Hwf).
Qed.

(** Removing a block from a well-formed store, with its slot (if it has one)
    put on the free list and the counters decremented. *)
Lemma wf_delete st id b p' :
  store_wf st -> st_blocks st !! id = Some b ->
  mp_n_blocks p' = mp_n_blocks (st_pool st) ->
  mp_n_init p' = mp_n_init (st_pool st) ->
  mp_refcnt p' = mp_refcnt (st_pool st) - 1 ->
  mp_n_allocated p' = mp_n_allocated (st_pool st) - 1 ->
  mp_allocated_size p' = mp_allocated_size (st_pool st) - mb_length b ->
  mp_free_slots p' = (if is_pool_type (mb_type b) then [mb_slot b] else [])
                     ++ mp_free_slots (st_pool st) ->
  store_wf (mk_store p' (delete id (st_blocks st)) (st_next st) (st_pool_disabled st)).
Proof.
  intros Hwf Hb E1 E2 E3 E4 E5 E6. pose proof (wf_block _ Hwf _ _ Hb) as Hbw.
  destruct Hwf as [W1 W2 W3 W4 W5 W6 W7 W8 W9 W10 W11]. split; simpl; rewrite ?E1, ?E2.
  - apply map_Forall_delete. eapply map_Forall_impl; [apply W1|].
    intros i c [? ? ? ? ?]. split; try done. by rewrite E2.
  - by apply map_Forall_delete.
  - rewrite E4, W3. rewrite <- (insert_delete_id _ _ _ Hb) at 1.
    rewrite map_size_insert_None by apply lookup_delete_eq. lia.
  - rewrite E5, (msum_delete _ _ _ b) by done. lia.
  - rewrite (msum_delete _ _ _ b) by done. destruct Hbw. lia.
  - lia.
  - done.
  - rewrite E6. apply Forall_app; split; [|done]. case_match; [|done].
    apply Forall_singleton. by apply Hbw.
  - rewrite E6. apply NoDup_app. split_and!; [case_match; auto using NoDup_singleton, NoDup_nil_2| |done].
    intros x Hx. case_match; [|by apply elem_of_nil in Hx].
    apply list_elem_of_singleton in Hx as ->. eauto.
  - intros i j c d [? ?]%lookup_delete_Some [? ?]%lookup_delete_Some. eauto.
  - intros i c [Hi Hc]%lookup_delete_Some Ht. rewrite E6. case_match; [|by eapply W11].
    apply not_elem_of_cons. split; [|by eapply W11]. intros E. apply Hi. eauto.
Qed.

Lemma pa_memblock_ref_next st id st' : pa_memblock_ref id st = Ok st' -> st_next st' = st_next st.
Proof. unfold pa_memblock_ref. intros H. inv_bind. done. Qed.

(** Freeing a block returns its slot and keeps the store well formed. *)
Lemma memblock_free_spec st id b : store_ok st -> st_blocks st !! id = Some b ->
  exists p, memblock_free id b st
    = Ok (mk_store p (delete id (st_blocks st)) (st_next st) (st_pool_disabled st)) /\
    mp_block_size p = mp_block_size (st_pool st) /\
    store_ok (mk_store p (delete id (st_blocks st)) (st_next st) (st_pool_disabled st)).
Proof.
  intros [Hwf Hq] Hb. pose proof (wf_block _ Hwf _ _ Hb) as Hbw.
  pose proof (wf_len_int _ Hwf _ _ Hb) as Hlen.
  pose proof (msum_ge _ _ _ _ (wf_len_nonneg _ Hwf) Hb) as Hge.
  pose proof (wf_count_int _ Hwf) as Hci. pose proof (wf_pool_ref _ Hwf) as Hpr.
  pose proof (wf_size _ Hwf) as Hsz. pose proof (wf_int _ Hwf) as Hint.
  assert (0 < mp_n_allocated (st_pool st)) as Hpos.
  { rewrite (wf_count _ Hwf), <- (insert_delete_id _ _ _ Hb).
    rewrite map_size_insert_None by apply lookup_delete_eq. lia. }
  assert (mb_n_acquired b = 0) as Hacq by apply (Hq _ _ Hb).
  unfold memblock_free, stat_remove, pa_mempool_unref.
  rewrite (s32_small (mb_length b)) by lia.
  rewrite (pa_assert_true (mb_n_acquired b =? 0)) by lia. cbn.
  rewrite (pa_assert_true (0 <? mp_n_allocated _)), (pa_assert_true (mb_length b <=? _)) by lia. cbn.
  rewrite !s32_small by lia.
  destruct (is_pool_type (mb_type b)) eqn:Ht.
  - pose proof (bwf_slot _ _ Hbw Ht) as Hs. pose proof (wf_init _ Hwf).
    destruct (mb_type b) eqn:Ety; try discriminate Ht; cbn;
    rewrite !pa_assert_true by (simpl; lia); cbn; rewrite ?pa_assert_true by (simpl; lia); cbn;
    (eexists; split; [done|]; split; [done|]; split;
     [apply (wf_delete _ _ b); simpl; rewrite ?Ety; done|by apply map_Forall_delete]).
  - destruct (mb_type b) eqn:Ety; try discriminate Ht; cbn;
    rewrite !pa_assert_true by (simpl; lia); cbn;
    (eexists; split; [done|]; split; [done|]; split;
     [apply (wf_delete _ _ b); simpl; rewrite ?Ety; done|by apply map_Forall_delete]).
Qed.

Lemma pa_memblock_unref_spec st id : store_ok st -> 0 < refs st id ->
  exists st', pa_memblock_unref id st = Ok st' /\ store_ok st' /\ keeps st st' /\
    st_next st' = st_next st /\ forall j, refs st' j = refs st j + delta id (-1) j.
Proof.
  intros [Hwf Hq] [b Hb]%refs_alive; [|done].
  pose proof (wf_block _ Hwf _ _ Hb) as Hbw.
  assert (refs st id = mb_refcnt b) as Er by (unfold refs; by rewrite Hb).
  unfold pa_memblock_unref. rewrite (get_block_ok _ Hwf _ _ Hb). simpl.
  destruct (Z.ltb_spec 0 (mb_refcnt b - 1)).
  - eexists; split; [done|]. split_and!; [split| |done|].
    + apply (wf_set_block _ Hwf _ b); simpl; try done; destruct Hbw; lia.
    + apply quiet_set_block; [done|]. apply (Hq _ _ Hb).
    + split; [simpl; lia|..|done]; intros j; rewrite refs_set_block.
      * intros _ ?. case_decide; [|done]. subst. destruct Hbw; simpl; lia.
      * rewrite bytes_set_block. intros _ _. case_decide; [|done]. subst. unfold bytes. by rewrite Hb.
      * rewrite silent_set_block. intros _ _. case_decide; [|done]. subst. unfold silent. by rewrite Hb.
    + intros j. rewrite refs_set_block. unfold delta. case_decide; subst; simpl; lia.
  - destruct (memblock_free_spec _ _ _ (conj Hwf Hq) Hb) as (p & -> & Hp & Hok).
    eexists; split; [done|]. split_and!; [done| |done|].
    + split; [done|..|done]; intros j; unfold refs, bytes, silent; simpl;
        destruct (decide (j = id)) as [->|]; simplify_map_eq; done.
    + intros j. unfold refs, delta; simpl. case_decide; subst; simplify_map_eq; [|lia].
      destruct Hbw. lia.
Qed.

(** Adding a block at the next free address. *)
Lemma add_block_spec st ty ro data slot :
  store_ok st -> data <> [] ->
  msum mb_length (st_blocks st) + Z.of_nat (length data) < 2 ^ 31 ->
  (is_pool_type ty = true -> 0 <= slot < mp_n_init (st_pool st) /\
     (slot ∉ mp_free_slots (st_pool st)) /\
     (forall i b, st_blocks st !! i = Some b -> is_pool_type (mb_type b) = true ->
       mb_slot b <> slot)) ->
  let b := mk_memblock 1 ty ro false (Z.of_nat (length data)) data slot 0 in
  exists p, add_block ty ro data slot st
    = Ok (st_next st, mk_store p (<[st_next st := b]> (st_blocks st)) (st_next st + 1)
                        (st_pool_disabled st)) /\
    mp_block_size p = mp_block_size (st_pool st) /\
    store_ok (mk_store p (<[st_next st := b]> (st_blocks st)) (st_next st + 1)
                (st_pool_disabled st)).
Proof.
  intros [Hwf Hq] Hd Hsum Hslot b. pose proof (lookup_next _ Hwf) as Hn.
  assert (0 < Z.of_nat (length data)) by (destruct data; simpl; [done|lia]).
  pose proof (wf_count_int _ Hwf). pose proof (wf_pool_ref _ Hwf).
  pose proof (wf_size _ Hwf). pose proof (msum_nonneg _ _ (wf_len_nonneg _ Hwf)).
  assert (0 <= mp_n_allocated (st_pool st)) by (rewrite (wf_count _ Hwf); lia).
  unfold add_block, pa_mempool_ref. rewrite pa_assert_true by lia. simpl.
  eexists; split; [done|]. split; [done|]. split; [|by apply map_Forall_insert_2].
  assert (mp_n_allocated (st_pool st) + 1 < 2 ^ 31).
  { rewrite (wf_count _ Hwf) in *. pose proof (msum_size _ _ (wf_len_pos _ Hwf)). lia. }
  destruct Hwf as [W1 W2 W3 W4 W5 W6 W7 W8 W9 W10 W11]. split; simpl.
  - apply map_Forall_insert_2.
    + split; simpl; try lia. intros Ht. by apply Hslot.
    + eapply map_Forall_impl; [apply W1|]. intros i c []. by split.
  - apply map_Forall_insert_2; [lia|]. eapply map_Forall_impl; [apply W2|]. simpl. lia.
  - rewrite s32_small, map_size_insert_None by (done || lia). lia.
  - rewrite msum_insert_new by done. simpl. rewrite !s32_small by (rewrite ?s32_small; lia). lia.
  - rewrite msum_insert_new by done. simpl. lia.
  - rewrite s32_small by lia. lia.
  - done.
  - done.
  - done.
  - intros i j c d. rewrite !lookup_insert_Some. intros [[<- <-]|[? Hc]] [[<- <-]|[? Hd']] Ht1 Ht2 Es;
      simpl in *; try done; eauto.
    + by destruct (proj2 (proj2 (Hslot Ht1)) _ _ Hd' Ht2).
    + by destruct (proj2 (proj2 (Hslot Ht2)) _ _ Hc Ht1).
  - intros i c. rewrite lookup_insert_Some. intros [[<- <-]|[? Hc]] Ht; simpl in *; eauto.
    by apply Hslot.
Qed.

(** A slot handed out is in range, not free any more and used by no block. *)
Lemma mempool_allocate_slot_spec st slot p :
  store_ok st -> mempool_allocate_slot (st_pool st) = (Some slot, p) ->
  store_ok (set_pool p st) /\ mp_block_size p = mp_block_size (st_pool st) /\
  0 <= slot < mp_n_init p /\ (slot ∉ mp_free_slots p) /\
  (forall i b, st_blocks st !! i = Some b -> is_pool_type (mb_type b) = true ->
    mb_slot b <> slot).
Proof.
  intros [Hwf Hq] Ha. pose proof (wf_blocks _ Hwf) as HB.
  destruct Hwf as [W1 W2 W3 W4 W5 W6 W7 W8 W9 W10 W11].
  unfold mempool_allocate_slot in Ha.
  destruct (mp_free_slots (st_pool st)) as [|s rest] eqn:Ef.
  - destruct (Z.leb_spec (mp_n_blocks (st_pool st)) (mp_n_init (st_pool st))); simplify_eq.
    split_and!; simpl; try done; try lia.
    + split; [|done]. split; simpl; try done; try lia;
        auto using NoDup_nil_2, Forall_nil_2, not_elem_of_nil.
      intros i b Hb. destruct (W1 i b Hb) as [? ? ? ? Hs]. split; simpl; try done.
      intros Ht. specialize (Hs Ht). lia.
    + apply not_elem_of_nil.
    + intros i b Hb Ht. pose proof (bwf_slot _ _ (HB i b Hb) Ht). lia.
  - simplify_eq. apply Forall_cons in W8 as [Hs W8]. apply NoDup_cons in W9 as [Hns W9].
    split_and!; simpl; try done; try lia.
    + split; [|done]. split; simpl; try done.
      * intros i b Hb. destruct (W1 i b Hb). by split.
      * intros i b Hb Ht. specialize (W11 i b Hb Ht). by apply not_elem_of_cons in W11 as [_ ?].
    + intros i b Hb Ht Es. specialize (W11 i b Hb Ht). by apply not_elem_of_cons in W11 as [? _].
Qed.

Lemma uninit_length n : 0 <= n -> Z.of_nat (length (uninit n)) = n.
Proof. intros. unfold uninit. rewrite length_replicate. lia. Qed.

(** What allocation gives a client: a fresh address with one reference, all of
    the other blocks untouched. *)
Definition fresh_block (st st' : store) (id : Z) (len : Z) : Prop :=
  store_ok st' /\ keeps st st' /\ id = st_next st /\
  (forall j, refs st' j = refs st j + delta id 1 j) /\
  (exists b, st_blocks st' !! id = Some b /\ mb_read_only b = false /\
     mb_data b = uninit len) /\
  (forall j, j <> id -> st_blocks st' !! j = st_blocks st !! j) /\
  msum mb_length (st_blocks st') = msum mb_length (st_blocks st) + len /\
  silent st' id = false.

Lemma fresh_block_add st p len b st' :
  store_ok st -> store_ok st' -> 0 < len ->
  st' = mk_store p (<[st_next st := b]> (st_blocks st)) (st_next st + 1) (st_pool_disabled st) ->
  mp_block_size p = mp_block_size (st_pool st) ->
  mb_refcnt b = 1 -> mb_read_only b = false -> mb_data b = uninit len -> mb_length b = len ->
  mb_is_silence b = false -> fresh_block st st' (st_next st) len.
Proof.
  intros [Hwf Hq] Hok Hlen -> Hp Er Ero Ed El Es. pose proof (lookup_next _ Hwf) as Hn.
  split_and!; try done.
  - split; simpl; [lia|..|done]; intros j; unfold refs, bytes, silent; simpl.
    + intros. by rewrite lookup_insert_ne by lia.
    + intros Hj. rewrite lookup_insert_ne; [done|]. intros <-. rewrite Hn in Hj. simpl in Hj. lia.
    + intros Hj. rewrite lookup_insert_ne; [done|]. intros <-. rewrite Hn in Hj. simpl in Hj. lia.
  - intros j. unfold refs, delta; simpl. case_decide; subst; simplify_map_eq; lia.
  - exists b. simpl. by simplify_map_eq.
  - intros j Hj. simpl. by rewrite lookup_insert_ne by done.
  - simpl. rewrite msum_insert_new by done. lia.
  - unfold silent. simpl. by simplify_map_eq.
Qed.

Lemma uninit_nonempty n : 0 < n -> uninit n <> [].
Proof. intros ? E. pose proof (uninit_length n ltac:(lia)) as El. rewrite E in El. simpl in El. lia. Qed.

Section alloc.
Context (st : store) (len : Z) (Hok : store_ok st) (Hlen : 0 < len).
Context (Hsum : msum mb_length (st_blocks st) + len < 2 ^ 31).

(** [add_block] of uninitialised memory gives a fresh block. *)
Lemma add_uninit_spec p ty slot :
  store_ok (set_pool p st) -> mp_block_size p = mp_block_size (st_pool st) ->
  (is_pool_type ty = true -> 0 <= slot < mp_n_init p /\ (slot ∉ mp_free_slots p) /\
     (forall i b, st_blocks st !! i = Some b -> is_pool_type (mb_type b) = true ->
       mb_slot b <> slot)) ->
  exists st', add_block ty false (uninit len) slot (set_pool p st) = Ok (st_next st, st') /\
    fresh_block st st' (st_next st) len.
Proof.
  intros Hok' Hp Hslot.
  destruct (add_block_spec (set_pool p st) ty false (uninit len) slot) as (p' & E & Hp' & Hok'');
    try done; simpl in *; rewrite ?uninit_length in * by lia; try done; [by apply uninit_nonempty|].
  rewrite E. eexists; split; [done|].
  eapply fresh_block_add; try done; simpl; rewrite ?uninit_length by lia; try done. congruence.
Qed.

Lemma pa_memblock_new_spec : exists id st',
  pa_memblock_new len st = Ok (id, st') /\ fresh_block st st' id len.
Proof.
  assert (len <> SIZE_MAX) as Hmax.
  { destruct Hok as [Hwf _]. pose proof (msum_nonneg _ _ (wf_len_nonneg _ Hwf)).
    unfold SIZE_MAX. lia. }
  assert (Happ : exists st', memblock_new_appended len st = Ok (st_next st, st') /\
    fresh_block st st' (st_next st) len).
  { unfold memblock_new_appended. rewrite pa_assert_true by lia. simpl.
    rewrite (proj2 (Z.eqb_neq len SIZE_MAX)) by done.
    destruct (add_uninit_spec (st_pool st) PA_MEMBLOCK_APPENDED (-1)) as (st' & E & ?); try done.
    { by destruct st. }
    exists st'. split; [|done]. rewrite <- E. by destruct st. }
  unfold pa_memblock_new, pa_memblock_new_pool. rewrite !pa_assert_true by lia. simpl.
  rewrite (proj2 (Z.eqb_neq len SIZE_MAX)) by done.
  destruct Happ as (sa & Ea & Ha).
  destruct (st_pool_disabled st); [simpl; eauto|].
  destruct (mempool_allocate_slot (st_pool st)) as [[slot|] p] eqn:Es.
  - destruct (mempool_allocate_slot_spec _ _ _ Hok Es) as (Hok' & ? & ? & ? & ?).
    destruct (add_uninit_spec p PA_MEMBLOCK_POOL slot) as (s1 & E1 & F1); try done.
    destruct (add_uninit_spec p PA_MEMBLOCK_POOL_EXTERNAL slot) as (s2 & E2 & F2); try done.
    rewrite E1, E2. simpl. repeat case_match; simpl in *; simplify_eq; eauto.
  - assert (p = st_pool st) as ->.
    { unfold mempool_allocate_slot in Es. repeat case_match; by simplify_eq. }
    assert (set_pool (st_pool st) st = st) as -> by (by destruct st).
    repeat case_match; simpl in *; simplify_eq; eauto.
Qed.
End alloc.

(** ** Copying between blocks *)

Lemma n_acquired_restore b : with_n_acquired (mb_n_acquired b + 1 - 1) b = b.
Proof. destruct b. unfold with_n_acquired; simpl. f_equal. lia. Qed.

Lemma read_data_ok d off n : 0 <= off -> 0 <= n -> off + n <= Z.of_nat (length d) ->
  read_data d off n = Ok (sub_list off n d).
Proof. intros. unfold read_data. by rewrite (proj2 (andb_true_iff _ _)) by blia. Qed.

Section copy.
Context (st : store) (src dst soff doff n : Z) (bs bd : pa_memblock) (d : list cell).
Context (Hwf : store_wf st) (Hne : src <> dst).
Context (Hs : st_blocks st !! src = Some bs) (Hd : st_blocks st !! dst = Some bd).
Context (Hread : 0 <= soff /\ 0 <= n /\ soff + n <= Z.of_nat (length (mb_data bs))).
Context (Hsp : splice doff (sub_list soff n (mb_data bs)) (mb_data bd) = Some d).

Ltac run_copy :=
  repeat (cbn; first [ rewrite lookup_insert_eq | rewrite lookup_insert_ne by congruence
    | rewrite Hs | rewrite Hd | rewrite pa_assert_true by (simpl; lia)
    | rewrite read_data_ok by lia | rewrite Hsp ]); cbn.

(** The acquisition counts are back where they were. *)
Lemma copy_restores a b :
  (a = src /\ b = dst) \/ (a = dst /\ b = src) ->
  mk_store (st_pool st)
    (<[b := if decide (b = src) then with_n_acquired (mb_n_acquired bs + 1 - 1) bs
            else with_n_acquired (mb_n_acquired bd + 1 - 1) (with_data d bd)]>
     (<[a := if decide (a = src) then with_n_acquired (mb_n_acquired bs + 1 - 1) bs
             else with_n_acquired (mb_n_acquired bd + 1 - 1) (with_data d bd)]>
      (st_blocks st))) (st_next st) (st_pool_disabled st)
  = set_block dst (with_data d bd) st.
Proof.
  intros Hab. unfold set_block. f_equal. apply map_eq. intros j.
  rewrite (n_acquired_restore bs). change (mb_n_acquired bd) with (mb_n_acquired (with_data d bd)).
  rewrite n_acquired_restore, !lookup_insert.
  destruct Hab as [[-> ->]|[-> ->]]; repeat case_decide; subst; congruence.
Qed.

(** A copy writes the destination block and restores everything else. *)
Lemma copy_chunk_eq : copy_chunk src soff dst doff n st = Ok (set_block dst (with_data d bd) st).
Proof.
  pose proof (wf_block _ Hwf _ _ Hs) as []. pose proof (wf_block _ Hwf _ _ Hd) as [].
  unfold copy_chunk, pa_memblock_acquire, pa_memblock_release, write_data, get_block.
  run_copy. f_equal. rewrite <- (copy_restores src dst) by auto.
  rewrite decide_False, decide_True by done. unfold set_block; simpl. f_equal.
  apply map_eq. intros j. rewrite !lookup_insert.
  repeat case_decide; subst; (reflexivity || congruence).
Qed.

Lemma memcpy_eq :
  pa_memchunk_memcpy (mk_chunk (Some dst) doff n) (mk_chunk (Some src) soff n) st
  = Ok (set_block dst (with_data d bd) st).
Proof.
  pose proof (wf_block _ Hwf _ _ Hs) as []. pose proof (wf_block _ Hwf _ _ Hd) as [].
  unfold pa_memchunk_memcpy, pa_memblock_acquire, pa_memblock_release, write_data, get_block.
  run_copy. f_equal. rewrite <- (copy_restores dst src) by auto.
  rewrite decide_True, decide_False by done. unfold set_block; simpl. f_equal.
  apply map_eq. intros j. rewrite !lookup_insert.
  repeat case_decide; subst; (reflexivity || congruence).
Qed.

Lemma copy_ok : store_ok st -> store_ok (set_block dst (with_data d bd) st).
Proof.
  intros [_ Hq]. pose proof (wf_block _ Hwf _ _ Hd) as [].
  split; [|apply quiet_set_block; [done|]; apply (Hq _ _ Hd)].
  apply (wf_set_block _ Hwf _ bd); simpl; try done; by apply splice_length in Hsp.
Qed.
End copy.

(** [pa_memchunk_make_writable]: the chunk afterwards has the same bytes, its
    block holds at least [min] bytes from the chunk's start and nobody else
    references it; the caller's reference moved from the old block to it, which
    is not marked as silence if it is a new one. *)
Lemma pa_memchunk_make_writable_spec st c id min :
  store_ok st -> mc_memblock c = Some id -> 0 < refs st id ->
  0 <= mc_index c -> 0 < mc_length c -> 0 <= min < 2 ^ 31 ->
  mc_index c + mc_length c <= Z.of_nat (length (bytes st id)) ->
  msum mb_length (st_blocks st) + Z.max (mc_length c) min < 2 ^ 31 ->
  exists c' st' id', pa_memchunk_make_writable c min st = Ok (c', st') /\
    store_ok st' /\ mc_memblock c' = Some id' /\ mc_length c' = mc_length c /\
    0 <= mc_index c' /\ chunk_bytes st' c' = chunk_bytes st c /\
    mc_index c' + Z.max (mc_length c') min <= Z.of_nat (length (bytes st' id')) /\
    refs st' id' = 1 /\
    (id' = id \/ st_next st <= id') /\
    (forall j, refs st' j = refs st j + delta id (-1) j + delta id' 1 j) /\
    (forall j, j <> id' -> 0 < refs st' j -> bytes st' j = bytes st j) /\
    keeps st st' /\ (id' = id \/ silent st' id' = false).
Proof.
  intros Hok Em Hr Hi Hl Hmin Hbd Hsum. pose proof Hok as [Hwf Hq].
  apply refs_alive in Hr as [b Hb]; [|done].
  assert (bytes st id = mb_data b) as Eb by (unfold bytes; by rewrite Hb).
  assert (refs st id = mb_refcnt b) as Er by (unfold refs; by rewrite Hb).
  pose proof (wf_block _ Hwf _ _ Hb) as Hbw. pose proof (wf_len_int _ Hwf _ _ Hb).
  pose proof (bwf_len _ _ Hbw) as El. rewrite Eb in Hbd.
  unfold pa_memchunk_make_writable, pa_memblock_ref_is_one, pa_memblock_is_read_only,
    pa_memblock_get_length.
  rewrite Em. simpl. rewrite (get_block_ok _ Hwf _ _ Hb). simpl.
  rewrite u64_small by lia.
  destruct (_ && _ && _) eqn:Et.
  - exists c, st, id. rewrite !andb_true_iff, negb_true_iff, orb_false_iff in Et.
    rewrite Eb, Er. split_and!; auto using keeps_refl; try lia.
    + intros j. unfold delta. case_decide; lia.
  - clear Et. set (l := Z.max (mc_length c) min).
    destruct (pa_memblock_new_spec st l) as
      (n & st1 & E1 & Hok1 & K1 & En & R1 & (bn & Hbn & _ & Edn) & F1 & _ & Sn); [done|lia|lia|].
    rewrite E1. simpl.
    assert (id < st_next st) as Hlt by apply (wf_next _ Hwf _ _ Hb).
    pose proof (F1 id ltac:(lia)) as Hb1. rewrite Hb in Hb1.
    assert (Z.of_nat (length (mb_data bn)) = l) as Eln by (rewrite Edn; apply uninit_length; lia).
    pose proof (sub_list_length (mc_index c) (mc_length c) (mb_data b)) as Els.
    destruct (splice_some 0 (sub_list (mc_index c) (mc_length c) (mb_data b)) (mb_data bn))
      as [d Hd]; [lia|rewrite Els; lia|].
    rewrite (copy_chunk_eq st1 id n (mc_index c) 0 (mc_length c) b bn d)
      by (done || lia || apply Hok1). simpl.
    assert (store_ok (set_block n (with_data d bn) st1)) as Hok2
      by (eapply copy_ok; [apply Hok1|exact Hbn|exact Hd|exact Hok1]).
    set (st2 := set_block n (with_data d bn) st1) in *.
    assert (forall j, refs st2 j = refs st1 j) as R2.
    { intros j. subst st2. rewrite refs_set_block. case_decide; [|done]. subst.
      unfold refs. by rewrite Hbn. }
    assert (forall j, bytes st2 j = if decide (j = n) then d else bytes st1 j) as B2.
    { intros j. subst st2. by rewrite bytes_set_block. }
    destruct (pa_memblock_unref_spec st2 id) as (st3 & E3 & Hok3 & K3 & _ & R3);
      [done|rewrite R2, R1; unfold delta; rewrite decide_False by lia; destruct Hbw; lia|].
    rewrite E3. simpl.
    assert (refs st n = 0) as Rn.
    { unfold refs. by rewrite (En : n = _), (lookup_next _ Hwf). }
    assert (forall j, refs st3 j = refs st j + delta id (-1) j + delta n 1 j) as R
      by (intros j; rewrite R3, R2, R1; lia).
    assert (refs st3 n = 1) as Rn3
      by (rewrite R, Rn; unfold delta; rewrite decide_False, decide_True by lia; lia).
    assert (bytes st3 n = d) as B3.
    { rewrite (keeps_bytes _ _ K3), B2 by (rewrite ?Rn3, ?R2, ?R1, ?Rn; unfold delta;
        rewrite ?decide_True; lia). by rewrite decide_True. }
    exists (mk_chunk (Some n) 0 (mc_length c)), st3, n. split_and!; simpl; auto; try lia.
    + unfold chunk_bytes; simpl. rewrite Em, B3, Eb.
      pose proof (splice_prefix 0 0 _ _ _ Hd ltac:(lia)) as Hp.
      rewrite Els in Hp by lia. unfold sub_list in Hp at 2.
      replace (Z.to_nat (0 - 0)) with 0%nat in Hp by lia. rewrite take_0 in Hp.
      replace (0 - 0 + Z.of_nat (Z.to_nat (mc_length c))) with (mc_length c) in Hp by lia.
      done.
    + rewrite B3, (splice_length _ _ _ _ Hd). lia.
    + intros j Hj Hrj. pose proof (R j) as Rj. unfold delta in Rj.
      rewrite (decide_False (P := j = n)) in Rj by done.
      assert (0 < refs st j) by (case_decide; lia).
      rewrite (keeps_bytes _ _ K3), B2, decide_False
        by (done || (rewrite R2, R1; unfold delta; rewrite decide_False by done; lia)).
      unfold bytes. by rewrite F1.
    + apply (keeps_trans st st2); [done|apply Hok2| |done]. by apply (keeps_new_block st st1 n bn); [|done|lia|..].
    + right. rewrite (keeps_silent _ _ K3) by (rewrite ?Rn3, ?R2, ?R1, ?Rn; unfold delta; rewrite ?decide_True; lia).
      subst st2. rewrite silent_set_block, decide_True by done. simpl. unfold silent in Sn. by rewrite Hbn in Sn.
Qed.

(** ** Chunks of live blocks *)

(** [c] is a non-empty slice of a live block. *)
Definition chunk_in (st : store) (c : pa_memchunk) : Prop :=
  exists id, mc_memblock c = Some id /\ 0 < refs st id /\ 0 <= mc_index c /\ 0 < mc_length c /\
    mc_index c + mc_length c <= Z.of_nat (length (bytes st id)).

Lemma chunk_bytes_length st c : chunk_in st c -> Z.of_nat (length (chunk_bytes st c)) = mc_length c.
Proof. intros (id & Em & _ & Hi & Hl & Hb). unfold chunk_bytes. rewrite Em, sub_list_length; lia. Qed.

(** The reference a chunk stands for. *)
Definition chunk_refs (c : pa_memchunk) (j : Z) : Z :=
  match mc_memblock c with Some id => delta id 1 j | None => 0 end.

Lemma delta_nonneg id d j : 0 <= d -> 0 <= delta id d j.
Proof. unfold delta. case_decide; lia. Qed.

Lemma chunk_refs_nonneg c j : 0 <= chunk_refs c j.
Proof. unfold chunk_refs. case_match; [apply delta_nonneg|]; lia. Qed.

Lemma chunk_refs_some c id : mc_memblock c = Some id -> chunk_refs c id = 1.
Proof. intros E. unfold chunk_refs, delta. rewrite E. by rewrite decide_True. Qed.

Lemma delta_opp id d j : delta id (- d) j = - delta id d j.
Proof. unfold delta. case_decide; lia. Qed.

(** Blocks are smaller than 2^31 bytes, so chunk arithmetic does not wrap. *)
Lemma chunk_in_bound st c : store_ok st -> chunk_in st c ->
  0 <= mc_index c < 2 ^ 31 /\ 0 < mc_length c < 2 ^ 31 /\ mc_index c + mc_length c < 2 ^ 31.
Proof.
  intros [Hwf _] (id & Em & Hr & ? & ? & Hb). apply refs_alive in Hr as [b Eb]; [|done].
  pose proof (wf_len_int _ Hwf _ _ Eb). pose proof (bwf_len _ _ (wf_block _ Hwf _ _ Eb)).
  unfold bytes in Hb. rewrite Eb in Hb. simpl in Hb. lia.
Qed.

Lemma chunk_in_keeps st st' c : keeps st st' -> chunk_in st c ->
  (forall id, mc_memblock c = Some id -> 0 < refs st' id) ->
  chunk_in st' c /\ chunk_bytes st' c = chunk_bytes st c.
Proof.
  intros K (id & Em & Hr & ? & ? & ?) Hr'. specialize (Hr' id Em).
  pose proof (keeps_bytes _ _ K id Hr Hr') as Eb. split.
  - exists id. rewrite Eb. split_and!; done.
  - unfold chunk_bytes. by rewrite Em, Eb.
Qed.

Lemma chunk_bytes_split st c id l : mc_memblock c = Some id -> 0 <= mc_index c ->
  0 <= l <= mc_length c ->
  chunk_bytes st c = chunk_bytes st (mk_chunk (Some id) (mc_index c) l)
    ++ chunk_bytes st (mk_chunk (Some id) (mc_index c + l) (mc_length c - l)).
Proof.
  intros Em ? ?. unfold chunk_bytes. rewrite Em. simpl.
  rewrite <- sub_list_app by lia. f_equal. lia.
Qed.

(** Taking and giving back the data pointer of a block. *)
Lemma acquire_release st id b : st_blocks st !! id = Some b ->
  set_block id (with_n_acquired (mb_n_acquired b + 1 - 1) (with_n_acquired (mb_n_acquired b + 1) b))
    (set_block id (with_n_acquired (mb_n_acquired b + 1) b) st) = st.
Proof.
  intros Hb. unfold set_block. simpl. rewrite insert_insert_eq.
  assert (with_n_acquired (mb_n_acquired b + 1 - 1) (with_n_acquired (mb_n_acquired b + 1) b) = b) as ->.
  { destruct b. unfold with_n_acquired; simpl. f_equal. lia. }
  rewrite insert_id by done. by destruct st.
Qed.
