(* ===== verification/MemblockBusy.v ===== *)
(** * MemblockBusy: stores some of whose data is being used

    Between [pa_memblock_acquire] and [pa_memblock_release] the counts of a block
    differ from those of a store at rest.  [busy f st] is the store [st] while each
    block [j] is acquired [f j] times more; acquiring and releasing only change
    [f], writing only changes [st], so that a routine that uses several blocks at
    once can be run on the store at rest. *)
From stdpp Require Import base tactics numbers list gmap.
From S2P Require Import Prelude Sample Memblock.

Definition busy (f : Z -> Z) (st : store) : store :=
  mk_store (st_pool st) (map_imap (fun j b => Some (with_n_acquired (mb_n_acquired b + f j) b)) (st_blocks st))
    (st_next st) (st_pool_disabled st).

Lemma busy_lookup f st j :
  st_blocks (busy f st) !! j = (fun b => with_n_acquired (mb_n_acquired b + f j) b) <$> st_blocks st !! j.
Proof. simpl. rewrite map_lookup_imap. by destruct (st_blocks st !! j). Qed.

Lemma busy_ext f g st : (forall j, f j = g j) -> busy f st = busy g st.
Proof. intros E. unfold busy. f_equal. apply map_eq. intros j. rewrite !map_lookup_imap. destruct (st_blocks st !! j); [|done]. simpl. by rewrite E. Qed.

Lemma busy_rest f st : (forall j, f j = 0) -> busy f st = st.
Proof.
  intros E. destruct st as [p m n d]. unfold busy. simpl. f_equal. apply map_eq. intros j.
  rewrite map_lookup_imap. destruct (m !! j) as [b|]; [|done]. simpl. rewrite E, Z.add_0_r. by destruct b.
Qed.

(** A block of the busy store, changed. *)
Lemma busy_set f g st id b : (forall j, j <> id -> g j = f j) ->
  set_block id (with_n_acquired (mb_n_acquired b + g id) b) (busy f st) = busy g (set_block id b st).
Proof.
  intros E. unfold set_block, busy. simpl. f_equal. apply map_eq. intros j.
  rewrite lookup_insert, !map_lookup_imap, lookup_insert. case_decide; [by subst|].
  destruct (st_blocks st !! j); [|done]. simpl. by rewrite E.
Qed.

Lemma set_block_same st id b : st_blocks st !! id = Some b -> set_block id b st = st.
Proof. intros Hb. destruct st. unfold set_block. simpl in *. f_equal. by apply insert_id. Qed.

Section busy.
Context (st : store) (id : Z) (b : pa_memblock) (Hwf : store_wf st) (Hb : st_blocks st !! id = Some b).

Lemma busy_get f : get_block id (busy f st) = Ok (with_n_acquired (mb_n_acquired b + f id) b).
Proof.
  unfold get_block. rewrite busy_lookup, Hb. simpl. rewrite pa_assert_true; [done|].
  pose proof (bwf_ref _ _ (wf_block _ Hwf _ _ Hb)). simpl. blia.
Qed.

Lemma acquire_busy f : pa_memblock_acquire id (busy f st) = Ok (mb_data b, busy (fun j => f j + delta id 1 j) st).
Proof.
  unfold pa_memblock_acquire. rewrite busy_get. simpl. do 2 f_equal.
  rewrite <- (set_block_same st id b Hb) at 2. rewrite <- (busy_set f).
  - unfold delta. rewrite decide_True by done. f_equal. unfold with_n_acquired. simpl. f_equal. lia.
  - intros j Hj. unfold delta. rewrite decide_False by done. lia.
Qed.

Lemma release_busy f : 0 <= mb_n_acquired b -> 1 <= f id ->
  pa_memblock_release id (busy f st) = Ok (busy (fun j => f j - delta id 1 j) st).
Proof.
  intros Ha Hf. unfold pa_memblock_release. rewrite busy_get. simpl. rewrite pa_assert_true by blia. simpl. f_equal.
  rewrite <- (set_block_same st id b Hb) at 2. rewrite <- (busy_set f).
  - unfold delta. rewrite decide_True by done. f_equal. unfold with_n_acquired. simpl. f_equal. lia.
  - intros j Hj. unfold delta. rewrite decide_False by done. lia.
Qed.

Lemma write_busy f off src d : splice off src (mb_data b) = Some d ->
  write_data id off src (busy f st) = Ok (busy f (set_block id (with_data d b) st)).
Proof.
  intros Hd. unfold write_data. rewrite busy_lookup, Hb. simpl. rewrite Hd. simpl. f_equal.
  by rewrite <- (busy_set f).
Qed.

(** Writing to a block keeps its counts and its place. *)
Lemma write_ok off src d : store_ok st -> splice off src (mb_data b) = Some d ->
  store_ok (set_block id (with_data d b) st) /\ forall j, refs (set_block id (with_data d b) st) j = refs st j.
Proof.
  intros [_ Hq] Hd. pose proof (wf_block _ Hwf _ _ Hb) as []. split.
  - split; [|apply quiet_set_block; [done|]; apply (Hq _ _ Hb)].
    apply (wf_set_block _ Hwf _ b); simpl; try done; by apply splice_length in Hd.
  - intros j. rewrite refs_set_block. case_decide; [|done]. subst j. unfold refs. by rewrite Hb.
Qed.
End busy.

Lemma acquire_rest st id b : store_wf st -> st_blocks st !! id = Some b ->
  pa_memblock_acquire id st = Ok (mb_data b, busy (delta id 1) st).
Proof.
  intros Hwf Hb. rewrite <- (busy_rest (fun _ => 0) st) at 1 by done. rewrite (acquire_busy _ _ b) by done.
  do 2 f_equal.
Qed.

Lemma release_rest st id b : store_wf st -> quiet st -> st_blocks st !! id = Some b ->
  pa_memblock_release id (busy (delta id 1) st) = Ok st.
Proof.
  intros Hwf Hq Hb. rewrite (release_busy _ _ b) by (done || (rewrite (Hq _ _ Hb); lia) || (unfold delta; rewrite decide_True; lia)).
  f_equal. apply busy_rest. intros j. lia.
Qed.
