(* ===== verification/Proplist.v ===== *)
(** * Proplist: property lists

    Models [src/pulse/proplist.c] (for text see [ProplistText]): a
    hash map from keys to byte strings.  The map is used through what
    [hashmap_spec] promises: the pairs in the order of insertion, at most one
    for a key.  A property that is set again keeps its place. *)
From stdpp Require Import base tactics numbers list gmap.
From S2P Require Import Prelude.

Abbreviation pa_proplist := (list (cstring * list Z)).

Definition pa_ascii_valid (str : cstring) : bool := forallb (fun c => c <? 128) str.

Definition pa_proplist_key_valid (key : cstring) : bool :=
  pa_ascii_valid key && negb (Z.of_nat (length key) <=? 0).

Definition pa_proplist_new : pa_proplist := [].

(** [pa_hashmap_get]: the property with this key. *)
Definition prop_get (p : pa_proplist) (key : cstring) : option (list Z) :=
  (fun '(_, x) => snd x) <$> list_find (fun x => x.1 = key) p.

(** A new value for the property with this key, or a new property. *)
Fixpoint prop_put (p : pa_proplist) (key : cstring) (value : list Z) : pa_proplist :=
  match p with
  | [] => [(key, value)]
  | x :: p => if bool_decide (x.1 = key) then (key, value) :: p else x :: prop_put p key value
  end.

Definition pa_proplist_set (p : pa_proplist) (key : cstring) (data : list Z) : Z * pa_proplist :=
  if negb (pa_proplist_key_valid key) then (-1, p) else (0, prop_put p key data).

(** The result and the data, when there is some. *)
Definition pa_proplist_get (p : pa_proplist) (key : cstring) : Z * option (list Z) :=
  if negb (pa_proplist_key_valid key) then (-1, None)
  else match prop_get p key with None => (-1, None) | Some v => (0, Some v) end.

Definition pa_proplist_contains (p : pa_proplist) (key : cstring) : Z :=
  if negb (pa_proplist_key_valid key) then -1
  else match prop_get p key with None => 0 | Some _ => 1 end.

Definition pa_proplist_unset (p : pa_proplist) (key : cstring) : Z * pa_proplist :=
  if negb (pa_proplist_key_valid key) then (-1, p)
  else match prop_get p key with
       | None => (-2, p)
       | Some _ => (0, filter (fun x => x.1 <> key) p)
       end.

Fixpoint unset_loop (p : pa_proplist) (keys : list cstring) (n : Z) : Z * pa_proplist :=
  match keys with
  | [] => (n, p)
  | k :: keys =>
      let '(r, p) := pa_proplist_unset p k in
      unset_loop p keys (if 0 <=? r then n + 1 else n)
  end.

Definition pa_proplist_unset_many (p : pa_proplist) (keys : list cstring) : Z * pa_proplist :=
  if negb (forallb pa_proplist_key_valid keys) then (-1, p) else unset_loop p keys 0.

Definition pa_proplist_clear (p : pa_proplist) : pa_proplist := [].

Inductive pa_update_mode_t := PA_UPDATE_SET | PA_UPDATE_MERGE | PA_UPDATE_REPLACE.

(** Is [mode] merge and the key there?  [pa_proplist_contains] is tested as a
    number. *)
Definition update_skips (mode : pa_update_mode_t) (p : pa_proplist) (key : cstring) : bool :=
  match mode with PA_UPDATE_MERGE => negb (pa_proplist_contains p key =? 0) | _ => false end.

Fixpoint update_loop (mode : pa_update_mode_t) (p other : pa_proplist) : outcome pa_proplist :=
  match other with
  | [] => Ok p
  | (key, value) :: other =>
      if update_skips mode p key then update_loop mode p other
      else
        let '(r, p) := pa_proplist_set p key value in
        _ ← pa_assert (r =? 0);
        update_loop mode p other
  end.

Definition pa_proplist_update (mode : pa_update_mode_t) (p other : pa_proplist) : outcome pa_proplist :=
  update_loop mode (match mode with PA_UPDATE_SET => pa_proplist_clear p | _ => p end) other.

Definition pa_proplist_copy (p : option pa_proplist) : outcome pa_proplist :=
  match p with
  | Some p => pa_proplist_update PA_UPDATE_REPLACE pa_proplist_new p
  | None => Ok pa_proplist_new
  end.

Definition pa_proplist_size (p : pa_proplist) : Z := Z.of_nat (length p).
Definition pa_proplist_isempty (p : pa_proplist) : bool := pa_proplist_size p =? 0.

Fixpoint equal_loop (a b : pa_proplist) : bool :=
  match a with
  | [] => true
  | (key, value) :: a =>
      match prop_get b key with
      | None => false
      | Some v => if bool_decide (length value = length v) then
                    (if bool_decide (value = v) then equal_loop a b else false)
                  else false
      end
  end.

Definition pa_proplist_equal (same_pointer : bool) (a b : pa_proplist) : bool :=
  if same_pointer then true
  else if negb (pa_proplist_size a =? pa_proplist_size b) then false
  else equal_loop a b.

(** ** Property lists as maps *)

(** What the operations maintain: one property for a key, and valid keys. *)
Record proplist_ok (p : pa_proplist) : Prop := {
  po_nodup : NoDup p.*1;
  po_valid : Forall (fun x => pa_proplist_key_valid x.1 = true) p
}.

Definition to_map (p : pa_proplist) : gmap cstring (list Z) := list_to_map p.

Lemma prop_get_map p key : prop_get p key = to_map p !! key.
Proof.
  unfold prop_get, to_map. induction p as [|[k v] p IH]; simpl; [by rewrite lookup_empty|].
  destruct (decide (k = key)) as [->|Hne]; simpl.
  - by rewrite lookup_insert_eq.
  - rewrite lookup_insert_ne, <- IH by done. by destruct (list_find _ p) as [[]|].
Qed.

Lemma prop_put_map p key v : to_map (prop_put p key v) = <[key := v]> (to_map p).
Proof.
  unfold to_map. induction p as [|[k w] p IH]; simpl; [done|]. case_bool_decide; simplify_eq; simpl.
  - by rewrite insert_insert_eq.
  - rewrite IH. by rewrite insert_insert_ne.
Qed.

Lemma prop_put_keys p key v : (prop_put p key v).*1 = if bool_decide (key ∈ p.*1) then p.*1 else p.*1 ++ [key].
Proof.
  induction p as [|[k w] p IH]; [done|]. cbn [prop_put]. rewrite fmap_cons. cbn [fst].
  destruct (decide (k = key)) as [->|Hne].
  - by rewrite !bool_decide_eq_true_2 by (done || set_solver).
  - rewrite (bool_decide_eq_false_2 (k = key)) by done. rewrite fmap_cons, IH. cbn [fst].
    rewrite (bool_decide_ext (key ∈ k :: p.*1) (key ∈ p.*1)) by (rewrite elem_of_cons; naive_solver).
    by case_bool_decide.
Qed.

Lemma prop_put_ok p key v : proplist_ok p -> pa_proplist_key_valid key = true -> proplist_ok (prop_put p key v).
Proof.
  intros [Hn Hv] Hk. split.
  - rewrite prop_put_keys. case_bool_decide; [done|]. apply NoDup_app. split_and!; [done| |apply NoDup_singleton].
    set_solver.
  - clear Hn. induction Hv as [|[k w] p Hkw Hv IH]; simpl; [by repeat constructor|].
    case_bool_decide; by constructor.
Qed.

Lemma ok_cons x p : proplist_ok (x :: p) -> (x.1 ∉ p.*1) /\ pa_proplist_key_valid x.1 = true /\ proplist_ok p.
Proof. intros [Hn Hv]. apply NoDup_cons in Hn as [? ?]. apply Forall_cons in Hv as [? ?]. done. Qed.

Lemma to_map_none p key : key ∉ p.*1 -> to_map p !! key = None.
Proof. apply not_elem_of_list_to_map_1. Qed.

(** The update loop, one mode at a time. *)
Lemma update_replace other : forall p mode, mode <> PA_UPDATE_MERGE -> proplist_ok p -> proplist_ok other ->
  exists p', update_loop mode p other = Ok p' /\ proplist_ok p' /\ to_map p' = to_map other ∪ to_map p.
Proof.
  induction other as [|[k v] other IH]; intros p mode Hm Hp Ho; simpl.
  - exists p. split_and!; [done|done|]. unfold to_map; simpl. by rewrite (left_id_L ∅ _).
  - destruct (ok_cons _ _ Ho) as (Hk & Hv & Ho'). simpl in Hk, Hv.
    assert (update_skips mode p k = false) as -> by (by destruct mode).
    unfold pa_proplist_set. rewrite Hv. simpl.
    destruct (IH (prop_put p k v) mode Hm (prop_put_ok _ _ v Hp Hv) Ho') as (p' & E & Hp' & Em).
    exists p'. split_and!; [done|done|]. rewrite Em, prop_put_map. unfold to_map; simpl.
    rewrite <- insert_union_l, <- insert_union_r; [done|]. by apply (to_map_none other).
Qed.

Lemma update_merge other : forall p, proplist_ok p -> proplist_ok other ->
  exists p', update_loop PA_UPDATE_MERGE p other = Ok p' /\ proplist_ok p' /\ to_map p' = to_map p ∪ to_map other.
Proof.
  induction other as [|[k v] other IH]; intros p Hp Ho; simpl.
  - exists p. split_and!; [done|done|]. unfold to_map; simpl. by rewrite (right_id_L ∅ _).
  - destruct (ok_cons _ _ Ho) as (Hk & Hv & Ho'). simpl in Hk, Hv. unfold pa_proplist_contains, pa_proplist_set.
    rewrite Hv, prop_get_map. simpl. destruct (to_map p !! k) as [w|] eqn:Ek; simpl.
    + destruct (IH p Hp Ho') as (p' & E & Hp' & Em). exists p'. split_and!; [done|done|].
      rewrite Em. unfold to_map in *; simpl. apply map_eq. intros i. rewrite !lookup_union, lookup_insert.
      case_decide; subst; [|done]. rewrite Ek. by destruct (list_to_map other !! i).
    + destruct (IH (prop_put p k v) (prop_put_ok _ _ v Hp Hv) Ho') as (p' & E & Hp' & Em).
      exists p'. split_and!; [done|done|]. rewrite Em, prop_put_map. unfold to_map; simpl.
      by rewrite <- insert_union_l, insert_union_r.
Qed.

(** Removing a property. *)
Lemma unset_map p key : to_map (filter (fun x => x.1 <> key) p) = delete key (to_map p).
Proof.
  unfold to_map. induction p as [|[k v] p IH]; [by simpl; rewrite delete_empty|].
  destruct (decide (k = key)) as [->|Hne].
  - rewrite filter_cons_False by naive_solver. rewrite IH. simpl. by rewrite delete_insert_eq.
  - rewrite filter_cons_True by done. simpl. by rewrite IH, delete_insert_ne.
Qed.

Lemma unset_ok p key : proplist_ok p -> proplist_ok (filter (fun x => x.1 <> key) p).
Proof.
  intros [Hn Hv]. split.
  - clear Hv. induction p as [|x p IH]; [constructor|]. rewrite fmap_cons in Hn. apply NoDup_cons in Hn as [Hx Hn].
    rewrite filter_cons. case_decide; [|auto]. rewrite fmap_cons. constructor; [|auto].
    intros (y & Ey & Hy)%list_elem_of_fmap. apply list_elem_of_filter in Hy as [_ Hy].
    apply Hx. rewrite Ey. by apply list_elem_of_fmap_2.
  - rewrite Forall_forall in *. intros x [_ Hx]%list_elem_of_filter. auto.
Qed.

Lemma to_map_size p : NoDup p.*1 -> size (to_map p) = length p.
Proof.
  unfold to_map. intros Hn. induction p as [|[k v] p IH]; simpl in *; [by rewrite map_size_empty|].
  apply NoDup_cons in Hn as [Hk Hn]. rewrite map_size_insert_None, IH; [done|done|].
  by apply not_elem_of_list_to_map_1.
Qed.

Lemma equal_loop_spec a b : NoDup a.*1 -> equal_loop a b = bool_decide (to_map a ⊆ to_map b).
Proof.
  induction a as [|[k v] a IH]; intros Hn; simpl.
  - symmetry. apply bool_decide_eq_true_2, map_empty_subseteq.
  - apply NoDup_cons in Hn as [Hk Hn]. simpl in Hk. rewrite prop_get_map, (IH Hn).
    pose proof (to_map_none _ _ Hk) as Hnone.
    assert (to_map ((k, v) :: a) ⊆ to_map b <-> to_map b !! k = Some v /\ to_map a ⊆ to_map b) as Hiff.
    { unfold to_map in *. simpl. split.
      - intros Hs. split.
        + eapply lookup_weaken; [|exact Hs]. apply lookup_insert_eq.
        + etrans; [|exact Hs]. by apply insert_subseteq.
      - intros [Hb Hs]. by apply insert_subseteq_l. }
    rewrite (bool_decide_ext _ _ Hiff). destruct (to_map b !! k) as [w|].
    + repeat case_bool_decide; naive_solver.
    + symmetry. apply bool_decide_eq_false_2. naive_solver.
Qed.

(** ** Claims *)

(** Setting a property makes it the one found under its key and leaves
    every other as it was, and an invalid key is refused; unsetting removes
    exactly the one property. *)
Theorem proplist_set_get p key data : proplist_ok p ->
  match pa_proplist_key_valid key with
  | true =>
      exists p', pa_proplist_set p key data = (0, p') /\ proplist_ok p' /\ pa_proplist_get p' key = (0, Some data) /\
        (forall k, k <> key -> pa_proplist_get p' k = pa_proplist_get p k) /\
        exists q, (pa_proplist_unset p' key) = (0, q) /\ proplist_ok q /\ to_map q = delete key (to_map p)
  | false => pa_proplist_set p key data = (-1, p)
  end.
Proof.
  intros Hp. unfold pa_proplist_set, pa_proplist_get, pa_proplist_unset.
  destruct (pa_proplist_key_valid key) eqn:Hk; simpl; [|done]. exists (prop_put p key data).
  pose proof (prop_put_ok p key data Hp Hk) as Hp'. rewrite !prop_get_map, prop_put_map, lookup_insert_eq.
  split_and!; try done.
  - intros k Hne. by rewrite !prop_get_map, prop_put_map, lookup_insert_ne.
  - eexists. split; [done|]. split; [by apply unset_ok|]. rewrite unset_map, prop_put_map.
    apply delete_insert_eq.
Qed.

(** Updating a property list with another one gives, as maps, the other
    one ([PA_UPDATE_SET]), both with the old entries winning
    ([PA_UPDATE_MERGE]), or both with the new entries winning
    ([PA_UPDATE_REPLACE]); none of the assertions fails. *)
Theorem proplist_update_modes mode p other : proplist_ok p -> proplist_ok other ->
  exists p', pa_proplist_update mode p other = Ok p' /\ proplist_ok p' /\
    to_map p' = match mode with
                | PA_UPDATE_SET => to_map other
                | PA_UPDATE_MERGE => to_map p ∪ to_map other
                | PA_UPDATE_REPLACE => to_map other ∪ to_map p
                end.
Proof.
  intros Hp Ho. unfold pa_proplist_update. destruct mode.
  - destruct (update_replace other (pa_proplist_clear p) PA_UPDATE_SET) as (p' & -> & Hp' & Em);
      [done|by split; constructor|done|].
    exists p'. split_and!; [done|done|]. rewrite Em. unfold to_map, pa_proplist_clear; simpl. by rewrite (right_id_L ∅ _).
  - by apply update_merge.
  - by apply update_replace.
Qed.

(** Two property lists are found equal exactly when they are the same map,
    whatever the order of their entries; a copy is equal to its original. *)
Theorem proplist_equal_spec a b : proplist_ok a -> proplist_ok b ->
  pa_proplist_equal false a b = bool_decide (to_map a = to_map b) /\
  exists c, pa_proplist_copy (Some a) = Ok c /\ pa_proplist_equal false a c = true.
Proof.
  intros Ha Hb.
  assert (forall b, proplist_ok b -> pa_proplist_equal false a b = bool_decide (to_map a = to_map b)) as Heq.
  { clear b Hb. intros b Hb. unfold pa_proplist_equal, pa_proplist_size. destruct Ha as [Ha _], Hb as [Hb _].
    rewrite <- (to_map_size a), <- (to_map_size b), equal_loop_spec by done.
    destruct (Z.eqb_spec (Z.of_nat (size (to_map a))) (Z.of_nat (size (to_map b)))) as [E|E]; simpl.
    - apply bool_decide_ext. split; [|by intros ->]. intros Hs. apply map_subseteq_size_eq; [done|lia].
    - symmetry. apply bool_decide_eq_false_2. congruence. }
  split; [by apply Heq|].
  destruct (update_replace a pa_proplist_new PA_UPDATE_REPLACE) as (c & Ec & Hc & Em);
    [done|by split; constructor|done|].
  exists c. split; [done|]. rewrite Heq by done. apply bool_decide_eq_true_2. rewrite Em.
  unfold to_map, pa_proplist_new; simpl. by rewrite (right_id_L ∅ _).
Qed.

(** ** Witnesses *)

Module ProplistExample.
Definition a : pa_proplist := [([97], [1; 0]); ([98], [2])].
Definition b : pa_proplist := [([98], [3]); ([99], [])].
Lemma a_ok : proplist_ok a.
Proof. split; [|by repeat constructor]. apply (bool_decide_unpack _). by vm_compute. Qed.
Lemma b_ok : proplist_ok b.
Proof. split; [|by repeat constructor]. apply (bool_decide_unpack _). by vm_compute. Qed.
End ProplistExample.

Lemma proplist_set_get_witness : exists p',
  pa_proplist_set ProplistExample.a [98] [7] = (0, p') /\ pa_proplist_get p' [98] = (0, Some [7]).
Proof.
  destruct (proplist_set_get ProplistExample.a [98] [7] ProplistExample.a_ok) as (p' & E & _ & G & _).
  exists p'. split; [exact E|exact G].
Defined.

Lemma proplist_update_modes_witness : exists p',
  pa_proplist_update PA_UPDATE_MERGE ProplistExample.a ProplistExample.b = Ok p' /\
  to_map p' = to_map ProplistExample.a ∪ to_map ProplistExample.b.
Proof.
  destruct (proplist_update_modes PA_UPDATE_MERGE _ _ ProplistExample.a_ok ProplistExample.b_ok)
    as (p' & E & _ & M). exists p'. split; [exact E|exact M].
Defined.

Lemma proplist_equal_spec_witness : pa_proplist_equal false ProplistExample.a ProplistExample.b = false.
Proof. exact (proj1 (proplist_equal_spec _ _ ProplistExample.a_ok ProplistExample.b_ok)). Defined.
