(* ===== verification/ProplistText.v ===== *)
(** * ProplistText: property lists as text

    The functions of [src/pulse/proplist.c] that set and get properties that are
    text, print a property list and parse one.  A value that is text is stored
    with its final zero byte. *)
From stdpp Require Import base tactics numbers list gmap strings.
From S2P Require Import Prelude Text TextProps Utf8 Proplist.

(** ** The code *)

Definition is_utf8 (v : cstring) : bool := match pa_utf8_valid v with Some _ => true | None => false end.

Definition pa_proplist_sets (p : pa_proplist) (key value : cstring) : Z * pa_proplist :=
  if negb (pa_proplist_key_valid key) || negb (is_utf8 value) then (-1, p) else (0, prop_put p key (value ++ [0])).

(** [proplist_setn]: key and value are copied from the middle of a string. *)
Definition proplist_setn (p : pa_proplist) (key value : cstring) : Z * pa_proplist :=
  if negb (pa_proplist_key_valid key) || negb (is_utf8 value) then (-1, p) else (0, prop_put p key (value ++ [0])).

(** [strchr]: what comes before and behind the first [c]. *)
Fixpoint strchr (s : cstring) (c : Z) : option (cstring * cstring) :=
  match s with
  | [] => None
  | a :: s => if a =? c then Some ([], s) else '(x, y) ← strchr s c; Some (a :: x, y)
  end.

Definition pa_proplist_setp (p : pa_proplist) (pair : cstring) : Z * pa_proplist :=
  match strchr pair "="%ch with
  | None => (-1, p)
  | Some (key, value) => proplist_setn p key value
  end.

Definition proplist_sethex (p : pa_proplist) (key value : cstring) : Z * pa_proplist :=
  if negb (pa_proplist_key_valid key) then (-1, p)
  else match pa_parsehex value (2 * Z.of_nat (length value)) with
       | None => (-1, p)
       | Some d => (0, prop_put p key d)
       end.

(** The string that starts at a byte of a value, which is followed by a zero. *)
Fixpoint until_zero (d : list Z) : cstring :=
  match d with [] => [] | c :: d => if c =? 0 then [] else c :: until_zero d end.

Definition pa_proplist_gets (p : pa_proplist) (key : cstring) : option cstring :=
  if negb (pa_proplist_key_valid key) then None
  else match prop_get p key with
       | None => None
       | Some value =>
           let nbytes := Z.of_nat (length value) in
           if nbytes <=? 0 then None
           else if negb (default 0 (last value) =? 0) then None
           else if negb (Z.of_nat (length (until_zero value)) =? nbytes - 1) then None
           else if negb (is_utf8 (until_zero value)) then None
           else Some (until_zero value)
       end.

(** The loop that prints a text, with a backslash before every quote. *)
Fixpoint print_quoted (v : cstring) : cstring :=
  match v with
  | [] => []
  | c :: v => if c =? 34 then "\"%ch :: 34 :: print_quoted v else c :: print_quoted v
  end.

Definition print_property (p : pa_proplist) (key : cstring) : outcome cstring :=
  match pa_proplist_gets p key with
  | Some v => Ok (key ++ str " = " ++ [34] ++ print_quoted v ++ [34])
  | None =>
      let '(r, value) := pa_proplist_get p key in
      _ ← pa_assert (r =? 0);
      value ← deref value;
      c ← pa_hexstr value (Z.of_nat (length value) * 2 + 1);
      Ok (key ++ str " = hex:" ++ c)
  end.

Fixpoint print_loop (p : pa_proplist) (keys : list cstring) (sep buf : cstring) : outcome cstring :=
  match keys with
  | [] => Ok buf
  | key :: keys =>
      let buf := match buf with [] => [] | _ => buf ++ sep end in
      t ← print_property p key;
      print_loop p keys sep (buf ++ t)
  end.

Definition pa_proplist_to_string_sep (p : pa_proplist) (sep : cstring) : outcome cstring := print_loop p p.*1 sep [].

Definition pa_proplist_to_string (p : pa_proplist) : outcome cstring :=
  s ← pa_proplist_to_string_sep p [10];
  Ok (s ++ [10]).

(** The states of [pa_proplist_from_string], with the key and the value read so
    far. *)
Inductive text_state :=
| WHITESPACE
| KEY (key : cstring)
| AFTER_KEY (key : cstring)
| VALUE_START (key : cstring)
| VALUE_SIMPLE (key value : cstring)
| VALUE_DOUBLE_QUOTES (key value : cstring)
| VALUE_DOUBLE_QUOTES_ESCAPE (key value : cstring)
| VALUE_TICKS (key value : cstring)
| VALUE_TICKS_ESCAPED (key value : cstring)
| VALUE_HEX (key value : cstring).

(** Add a property, and go on or fail. *)
Definition and_go_on (r : Z * pa_proplist) : option (text_state * pa_proplist) :=
  if r.1 <? 0 then None else Some (WHITESPACE, r.2).

Definition is_hex (c : Z) : bool :=
  (("0"%ch <=? c) && (c <=? "9"%ch)) || (("A"%ch <=? c) && (c <=? "F"%ch)) || (("a"%ch <=? c) && (c <=? "f"%ch)).

(** One character that is not the end of the string. *)
Definition text_step (state : text_state) (pl : pa_proplist) (c : Z) : option (text_state * pa_proplist) :=
  match state with
  | WHITESPACE =>
      if c =? "="%ch then None else if negb (isspace c) then Some (KEY [c], pl) else Some (WHITESPACE, pl)
  | KEY key =>
      if c =? "="%ch then Some (VALUE_START key, pl)
      else if isspace c then Some (AFTER_KEY key, pl)
      else Some (KEY (key ++ [c]), pl)
  | AFTER_KEY key =>
      if c =? "="%ch then Some (VALUE_START key, pl) else if negb (isspace c) then None else Some (AFTER_KEY key, pl)
  | VALUE_START key =>
      if c =? "'"%ch then Some (VALUE_TICKS key [], pl)
      else if c =? 34 then Some (VALUE_DOUBLE_QUOTES key [], pl)
      else if negb (isspace c) then Some (VALUE_SIMPLE key [c], pl)
      else Some (VALUE_START key, pl)
  | VALUE_SIMPLE key value =>
      if isspace c then and_go_on (proplist_setn pl key value) else Some (VALUE_SIMPLE key (value ++ [c]), pl)
  | VALUE_DOUBLE_QUOTES key value =>
      if c =? 34 then and_go_on (proplist_setn pl key (pa_unescape value))
      else if c =? "\"%ch then Some (VALUE_DOUBLE_QUOTES_ESCAPE key (value ++ [c]), pl)
      else Some (VALUE_DOUBLE_QUOTES key (value ++ [c]), pl)
  | VALUE_DOUBLE_QUOTES_ESCAPE key value => Some (VALUE_DOUBLE_QUOTES key (value ++ [c]), pl)
  | VALUE_TICKS key value =>
      if c =? "'"%ch then and_go_on (proplist_setn pl key (pa_unescape value))
      else if c =? "\"%ch then Some (VALUE_TICKS_ESCAPED key (value ++ [c]), pl)
      else Some (VALUE_TICKS key (value ++ [c]), pl)
  | VALUE_TICKS_ESCAPED key value => Some (VALUE_TICKS key (value ++ [c]), pl)
  | VALUE_HEX key value =>
      if is_hex c then Some (VALUE_HEX key (value ++ [c]), pl)
      else if isspace c then and_go_on (proplist_sethex pl key value)
      else None
  end.

(** The end of the string. *)
Definition text_end (state : text_state) (pl : pa_proplist) : option pa_proplist :=
  match state with
  | WHITESPACE => Some pl
  | VALUE_SIMPLE key value => snd <$> and_go_on (proplist_setn pl key value)
  | VALUE_HEX key value => snd <$> and_go_on (proplist_sethex pl key value)
  | _ => None
  end.

Definition in_value_start (state : text_state) : option cstring := match state with VALUE_START key => Some key | _ => None end.

Fixpoint from_string_loop (state : text_state) (pl : pa_proplist) (p : cstring) : option pa_proplist :=
  match p with
  | [] => text_end state pl
  | c :: r =>
      match in_value_start state, r with
      | Some key, c1 :: c2 :: c3 :: r' =>
          (* strncmp(p, "hex:", 4) *)
          if (c =? "h"%ch) && (c1 =? "e"%ch) && (c2 =? "x"%ch) && (c3 =? ":"%ch) then from_string_loop (VALUE_HEX key []) pl r'
          else '(state, pl) ← text_step state pl c; from_string_loop state pl r
      | _, _ => '(state, pl) ← text_step state pl c; from_string_loop state pl r
      end
  end.

Definition pa_proplist_from_string (s : cstring) : option pa_proplist := from_string_loop WHITESPACE pa_proplist_new s.

(** ** Reading what was printed *)

(** A key that can be told from what follows it. *)
Definition key_char (c : Z) : Prop := c <> "="%ch /\ isspace c = false.

(** What a text can hold without being changed by printing and parsing. *)
Definition printable (p : pa_proplist) : Prop :=
  proplist_ok p /\ Forall (fun x => Forall key_char x.1 /\ Forall (fun b => 0 <= b < 256) x.2 /\
    (forall v, pa_proplist_gets p x.1 = Some v -> "\"%ch ∉ v)) p.

Lemma until_zero_app d v : until_zero d = v -> Z.of_nat (length v) = Z.of_nat (length d) - 1 -> last d = Some 0 -> d = v ++ [0].
Proof.
  revert v. induction d as [|c d IH]; intros v E Hl Hd; [done|]. cbn [until_zero] in E. destruct (Z.eqb_spec c 0) as [->|Hc].
  - subst v. cbn [length] in Hl. destruct d; [done|cbn [length] in Hl; lia].
  - subst v. cbn [length] in Hl. destruct d as [|c' d]; [cbn in Hd; by simplify_eq|].
    cbn [app]. f_equal. apply IH; [done|lia|done].
Qed.

Lemma gets_value p key v : pa_proplist_gets p key = Some v ->
  pa_proplist_key_valid key = true /\ prop_get p key = Some (v ++ [0]) /\ is_utf8 v = true.
Proof.
  unfold pa_proplist_gets. destruct (pa_proplist_key_valid key); [|done]. cbn [negb]. destruct (prop_get p key) as [d|]; [|done].
  destruct (Z.leb_spec (Z.of_nat (length d)) 0); [done|]. destruct (Z.eqb_spec (default 0 (last d)) 0) as [E0|]; [|done].
  destruct (Z.eqb_spec (Z.of_nat (length (until_zero d))) (Z.of_nat (length d) - 1)) as [El|]; [|done]. cbn [negb].
  destruct (is_utf8 (until_zero d)) eqn:Eu; [|done]. intros [= <-]. split_and!; [done| |done]. f_equal. apply until_zero_app; [done|done|].
  destruct (last d) as [x|] eqn:E; [by simpl in E0; subst|]. apply last_None in E. by subst.
Qed.

Lemma key_phase pl k key rest : Forall key_char k -> from_string_loop (KEY key) pl (k ++ rest) = from_string_loop (KEY (key ++ k)) pl rest.
Proof.
  intros H. revert key. induction H as [|c k [H1 H2] _ IH]; intros key; [by rewrite app_nil_r|].
  cbn [app from_string_loop in_value_start text_step]. rewrite (proj2 (Z.eqb_neq _ _) H1), H2. cbn [mbind option_bind].
  rewrite IH. by rewrite <- app_assoc.
Qed.

Lemma quoted_phase pl key v acc rest : "\"%ch ∉ v ->
  from_string_loop (VALUE_DOUBLE_QUOTES key acc) pl (print_quoted v ++ rest) = from_string_loop (VALUE_DOUBLE_QUOTES key (acc ++ print_quoted v)) pl rest.
Proof.
  revert acc. induction v as [|c v IH]; intros acc H; [by rewrite app_nil_r|]. apply not_elem_of_cons in H as [Hc H].
  cbn [print_quoted]. destruct (Z.eqb_spec c 34) as [->|Hq].
  - cbn [app from_string_loop in_value_start text_step]. change (92 =? 34) with false. change (92 =? 92) with true.
    cbn [mbind option_bind app from_string_loop in_value_start text_step]. rewrite IH by done. by rewrite <- !app_assoc.
  - cbn [app from_string_loop in_value_start text_step]. rewrite (proj2 (Z.eqb_neq _ _) Hq), (proj2 (Z.eqb_neq c 92)) by done.
    cbn [mbind option_bind]. rewrite IH by done. by rewrite <- app_assoc.
Qed.

Lemma unescape_quoted v : "\"%ch ∉ v -> pa_unescape (print_quoted v) = v.
Proof.
  unfold pa_unescape. induction v as [|c v IH]; intros H; [done|]. apply not_elem_of_cons in H as [Hc H]. cbn [print_quoted].
  destruct (Z.eqb_spec c 34) as [->|Hq]; cbn [unescape_loop negb andb].
  - change (92 =? 92) with true. cbn [unescape_loop negb andb]. by rewrite IH.
  - rewrite (proj2 (Z.eqb_neq c 92)) by done. by rewrite IH.
Qed.

Lemma hex_phase pl key d acc rest : Forall (fun c => is_hex c = true) d ->
  from_string_loop (VALUE_HEX key acc) pl (d ++ rest) = from_string_loop (VALUE_HEX key (acc ++ d)) pl rest.
Proof.
  intros H. revert acc. induction H as [|c d H _ IH]; intros acc; [by rewrite app_nil_r|].
  cbn [app from_string_loop in_value_start text_step]. rewrite H. cbn [mbind option_bind]. rewrite IH. by rewrite <- app_assoc.
Qed.

Lemma is_hex_hexc c : is_Some (hexc c) -> is_hex c = true.
Proof. unfold hexc, is_hex. intros [d E]. repeat (case_match; simpl; try done). Qed.

Lemma hexstr_length d j slength : j + 2 * Z.of_nat (length d) < slength -> length (hexstr_loop d j slength) = (2 * length d)%nat.
Proof.
  revert j. induction d as [|b d IH]; intros j H; [done|]. cbn [length] in H. cbn [hexstr_loop]. rewrite (proj2 (Z.ltb_lt _ _)) by lia.
  cbn [length]. rewrite IH by lia. lia.
Qed.

(** The key and the sign of equality. *)
Lemma start_phase pl key rest : pa_proplist_key_valid key = true -> Forall key_char key ->
  from_string_loop WHITESPACE pl (key ++ str " = " ++ rest) = from_string_loop (VALUE_START key) pl rest.
Proof.
  intros Hv Hk. destruct Hk as [|c k [H1 H2] Hk]; [done|]. cbn [app from_string_loop in_value_start text_step].
  rewrite (proj2 (Z.eqb_neq _ _) H1), H2. cbn [negb mbind option_bind]. rewrite key_phase by done. cbn [app].
  change (str " = ") with [32; 61; 32]. cbn [app from_string_loop in_value_start text_step]. change (32 =? 61) with false. change (isspace 32) with true.
  cbn [mbind option_bind from_string_loop in_value_start text_step]. change (61 =? 61) with true. cbn [mbind option_bind from_string_loop in_value_start text_step].
  change (32 =? 39) with false. change (32 =? 34) with false. change (isspace 32) with true. cbn [negb mbind option_bind].
  by destruct rest as [|? [|? [|? rest]]].
Qed.

Lemma parse_property p pl key d t rest : prop_get p key = Some d -> pa_proplist_key_valid key = true -> Forall key_char key ->
  Forall (fun b => 0 <= b < 256) d -> (forall v, pa_proplist_gets p key = Some v -> "\"%ch ∉ v) -> print_property p key = Ok t ->
  from_string_loop WHITESPACE pl (t ++ 10 :: rest) = from_string_loop WHITESPACE (prop_put pl key d) rest.
Proof.
  intros Hg Hv Hk Hd Hb E. unfold print_property in E. destruct (pa_proplist_gets p key) as [v|] eqn:Ev.
  - apply Ok_inj in E. subst t. apply gets_value in Ev as (_ & Ed & Hu). rewrite Hg in Ed. injection Ed as ->. specialize (Hb v eq_refl).
    rewrite <- !app_assoc, start_phase by done.
    transitivity (from_string_loop (VALUE_DOUBLE_QUOTES key []) pl (print_quoted v ++ 34 :: 10 :: rest)).
    { cbn [app]. cbn [from_string_loop in_value_start text_step]. destruct (print_quoted v ++ 34 :: 10 :: rest) as [|? [|? [|? ?]]] eqn:El; by rewrite ?El. }
    rewrite quoted_phase by done. cbn [app from_string_loop in_value_start text_step]. change (34 =? 34) with true.
    rewrite unescape_quoted by done. unfold proplist_setn, and_go_on. rewrite Hv, Hu. done.
  - unfold pa_proplist_get in E. rewrite Hv, Hg in E. cbn [negb mbind outcome_bind pa_assert deref Z.eqb] in E.
    unfold pa_hexstr in E. rewrite (proj2 (Z.ltb_lt 0 _)) in E by lia. cbn [mbind outcome_bind pa_assert] in E. apply Ok_inj in E. subst t. change (str " = hex:") with (str " = " ++ str "hex:"). rewrite <- !app_assoc, start_phase by done.
    transitivity (from_string_loop (VALUE_HEX key []) pl (hexstr_loop d 0 (Z.of_nat (length d) * 2 + 1) ++ 10 :: rest)); [done|].
    rewrite hex_phase by (eapply Forall_impl; [by apply hexstr_digits|]; simpl; intros c; apply is_hex_hexc).
    cbn [app from_string_loop in_value_start text_step]. change (is_hex 10) with false. change (isspace 10) with true.
    unfold proplist_sethex, and_go_on. rewrite Hv. cbn [negb]. unfold pa_parsehex.
    rewrite hex_parse by (rewrite ?hexstr_length by lia; done || lia). done.
Qed.

Lemma prop_get_elem p key d : NoDup p.*1 -> (key, d) ∈ p -> prop_get p key = Some d.
Proof. intros Hn He. rewrite prop_get_map. by apply elem_of_list_to_map_1. Qed.

Lemma prop_put_fresh p key d : key ∉ p.*1 -> prop_put p key d = p ++ [(key, d)].
Proof.
  induction p as [|[k v] p IH]; intros H; [done|]. apply not_elem_of_cons in H as [Hk H]. simpl in Hk. simpl.
  rewrite bool_decide_false by done. by rewrite IH.
Qed.

Lemma print_total p key d : prop_get p key = Some d -> pa_proplist_key_valid key = true -> is_ok (print_property p key) = true.
Proof.
  intros Hg Hv. unfold print_property. destruct (pa_proplist_gets p key); [done|]. unfold pa_proplist_get. rewrite Hv, Hg.
  cbn [negb mbind outcome_bind pa_assert deref Z.eqb]. unfold pa_hexstr. by rewrite (proj2 (Z.ltb_lt 0 _)) by lia.
Qed.

(** The properties still to print, behind those printed already. *)
Lemma print_parse p done todo buf : printable p -> p = done ++ todo ->
  (forall rest, from_string_loop WHITESPACE [] (buf ++ 10 :: rest) = from_string_loop WHITESPACE done rest) ->
  exists s, print_loop p todo.*1 [10] buf = Ok s /\
    forall rest, from_string_loop WHITESPACE [] (s ++ 10 :: rest) = from_string_loop WHITESPACE p rest.
Proof.
  intros [[Hn Hv] Hp] Ep Hbuf. revert done buf Ep Hbuf. induction todo as [|[key d] todo IH]; intros done buf Ep Hbuf.
  { exists buf. rewrite app_nil_r in Ep. by subst. }
  assert ((key, d) ∈ p) as He by (rewrite Ep; set_solver). pose proof (prop_get_elem p key d Hn He) as Hg.
  pose proof (proj1 (Forall_forall _ _) Hp _ He) as (Hk & Hd & Hb). pose proof (proj1 (Forall_forall _ _) Hv _ He) as Hkv. simpl in Hk, Hd, Hb, Hkv.
  pose proof (print_total p key d Hg Hkv) as Ht. destruct (print_property p key) as [t| |] eqn:Et; [|done..].
  rewrite fmap_cons. cbn [print_loop fst]. rewrite Et. cbn [mbind outcome_bind]. apply (IH (done ++ [(key, d)])); [by rewrite <- app_assoc|].
  assert (key ∉ done.*1) as Hf.
  { rewrite Ep, fmap_app, fmap_cons in Hn. apply NoDup_app in Hn as (_ & Hn & _). intros Hin. apply (Hn _ Hin). set_solver. }
  intros rest. transitivity (from_string_loop WHITESPACE done (t ++ 10 :: rest)).
  - destruct buf as [|b buf]; [exact (Hbuf (t ++ 10 :: rest))|]. rewrite <- !app_assoc. apply (Hbuf (t ++ 10 :: rest)).
  - rewrite <- prop_put_fresh by done. by apply (parse_property p).
Qed.

(** C34: a property list survives being printed and parsed: whatever its values,
    text or not, when its keys hold no space and no [=] and its texts no
    backslash. *)
Theorem proplist_text_roundtrip p : printable p ->
  exists s, pa_proplist_to_string p = Ok s /\ pa_proplist_from_string s = Some p.
Proof.
  intros H. destruct (print_parse p [] p [] H eq_refl ltac:(done)) as (s & E & Hs). exists (s ++ [10]).
  unfold pa_proplist_to_string, pa_proplist_to_string_sep. rewrite E. split; [done|]. unfold pa_proplist_from_string. by rewrite Hs.
Qed.

(** A backslash is printed as it is and removed by the parser; at the end of a
    text it hides the quote. *)
Lemma backslash_is_lost :
  (s ← pa_proplist_to_string [(str "k", str "a\b" ++ [0])]; Ok (pa_proplist_from_string s)) = Ok (Some [(str "k", str "ab" ++ [0])]) /\
  (s ← pa_proplist_to_string [(str "k", str "a\" ++ [0])]; Ok (pa_proplist_from_string s)) = Ok None.
Proof. vm_compute. done. Qed.

(** ** Witnesses *)

(** A text with quotes, a value that is none, and an empty one. *)
Definition some_props : pa_proplist := [(str "media.name", str "say " ++ [34] ++ str "hi" ++ [34; 0]); (str "blob", [1; 0; 255]); (str "none", [])].

Lemma proplist_text_roundtrip_witness : exists s, pa_proplist_to_string some_props = Ok s /\ pa_proplist_from_string s = Some some_props.
Proof.
  apply (proplist_text_roundtrip some_props). split.
  - constructor; [apply (bool_decide_unpack _); vm_compute; exact I|repeat constructor].
  - apply Forall_forall. intros x Hx. unfold some_props in Hx.
    repeat (apply elem_of_cons in Hx as [->|Hx]); [..|by apply elem_of_nil in Hx]; (split; [|split]).
    1,4,7: unfold key_char; apply (bool_decide_unpack _); vm_compute; exact I.
    1,3,5: apply (bool_decide_unpack _); vm_compute; exact I.
    all: intros v Hv; vm_compute in Hv; try discriminate Hv; injection Hv as <-; apply (bool_decide_unpack _); vm_compute; exact I.
Defined.
