(* ===== verification/Modargs.v ===== *)
(** * Modargs: the arguments of a module

    Models [src/pulsecore/modargs.c]: parsing [key=value] pairs with quotes and
    escapes, and reading them as numbers, sample specifications, channel maps and
    property lists.

    The two hash maps of [pa_modargs] are lists of pairs in the order of
    insertion, as [hashmap_spec] promises.  The map [raw] uses as keys the strings
    that belong to the entries of [unescaped], so keys are addresses of strings,
    and a look-up reads them.  Left out are the getters of numbers that are not
    integers, and of resampling methods. *)
From stdpp Require Import base tactics numbers list gmap strings.
From S2P Require Import Prelude Sample Channelmap Text Proplist ProplistText.

(** ** Data *)

(** [keys] are the key strings that are allocated, [next] is a fresh address. *)
Record pa_modargs := mk_modargs {
  ma_keys : gmap nat cstring;
  ma_next : nat;
  ma_unescaped : list (nat * cstring);
  ma_raw : list (nat * cstring)
}.

(** [pa_hashmap_get]: compare the keys of the entries. *)
Fixpoint entry_get (keys : gmap nat cstring) (l : list (nat * cstring)) (key : cstring) : outcome (option cstring) :=
  match l with
  | [] => Ok None
  | (a, v) :: l => k ← deref (keys !! a); if bool_decide (k = key) then Ok (Some v) else entry_get keys l key
  end.

(** [pa_hashmap_remove_and_free]: the entry taken out, and the others. *)
Fixpoint entry_remove (keys : gmap nat cstring) (l : list (nat * cstring)) (key : cstring)
    : outcome (option ((nat * cstring) * list (nat * cstring))) :=
  match l with
  | [] => Ok None
  | (a, v) :: l =>
      k ← deref (keys !! a);
      if bool_decide (k = key) then Ok (Some ((a, v), l))
      else r ← entry_remove keys l key; Ok (match r with Some (x, l) => Some (x, (a, v) :: l) | None => None end)
  end.

(** ** Parsing *)

Definition add_key_value (ma : pa_modargs) (key value : cstring) (valid_keys : option (list cstring)) (ignore_dupes : bool)
    : outcome (Z * pa_modargs) :=
  old ← entry_get (ma_keys ma) (ma_unescaped ma) key;
  match old with
  | Some _ => Ok (if ignore_dupes then 0 else -1, ma)
  | None =>
      if match valid_keys with Some l => negb (bool_decide (key ∈ l)) | None => false end then Ok (-1, ma)
      else
        let a := ma_next ma in
        let unescaped := pa_unescape value in
        Ok (0, mk_modargs (<[a := key]> (ma_keys ma)) (S a) (ma_unescaped ma ++ [(a, unescaped)])
                 (if bool_decide (value = unescaped) then ma_raw ma else ma_raw ma ++ [(a, value)]))
  end.

(** The states of [parse], with the key and the value read so far. *)
Inductive args_state :=
| WHITESPACE
| KEY (key : cstring)
| VALUE_START (key : cstring)
| VALUE_SIMPLE (key value : cstring)
| VALUE_SIMPLE_ESCAPED (key value : cstring)
| VALUE_DOUBLE_QUOTES (key value : cstring)
| VALUE_DOUBLE_QUOTES_ESCAPED (key value : cstring)
| VALUE_TICKS (key value : cstring)
| VALUE_TICKS_ESCAPED (key value : cstring).

Section parse.
Context (valid_keys : option (list cstring)) (ignore_dupes : bool).

(** Add an argument; the next state, unless this failed. *)
Definition args_add (ma : pa_modargs) (key value : cstring) : outcome (option args_state * pa_modargs) :=
  '(r, ma) ← add_key_value ma key value valid_keys ignore_dupes;
  Ok (if r <? 0 then None else Some WHITESPACE, ma).

Definition args_step (st : args_state) (ma : pa_modargs) (c : Z) : outcome (option args_state * pa_modargs) :=
  match st with
  | WHITESPACE =>
      Ok (if c =? "="%ch then None else if negb (isspace c) then Some (KEY [c]) else Some WHITESPACE, ma)
  | KEY key =>
      Ok (if c =? "="%ch then Some (VALUE_START key) else if isspace c then None else Some (KEY (key ++ [c])), ma)
  | VALUE_START key =>
      if c =? "'"%ch then Ok (Some (VALUE_TICKS key []), ma)
      else if c =? 34 then Ok (Some (VALUE_DOUBLE_QUOTES key []), ma)
      else if isspace c then args_add ma key []
      else if c =? "\"%ch then Ok (Some (VALUE_SIMPLE_ESCAPED key [c]), ma)
      else Ok (Some (VALUE_SIMPLE key [c]), ma)
  | VALUE_SIMPLE key value =>
      if isspace c then args_add ma key value
      else if c =? "\"%ch then Ok (Some (VALUE_SIMPLE_ESCAPED key (value ++ [c])), ma)
      else Ok (Some (VALUE_SIMPLE key (value ++ [c])), ma)
  | VALUE_SIMPLE_ESCAPED key value => Ok (Some (VALUE_SIMPLE key (value ++ [c])), ma)
  | VALUE_DOUBLE_QUOTES key value =>
      if c =? 34 then args_add ma key value
      else if c =? "\"%ch then Ok (Some (VALUE_DOUBLE_QUOTES_ESCAPED key (value ++ [c])), ma)
      else Ok (Some (VALUE_DOUBLE_QUOTES key (value ++ [c])), ma)
  | VALUE_DOUBLE_QUOTES_ESCAPED key value => Ok (Some (VALUE_DOUBLE_QUOTES key (value ++ [c])), ma)
  | VALUE_TICKS key value =>
      if c =? "'"%ch then args_add ma key value
      else if c =? "\"%ch then Ok (Some (VALUE_TICKS_ESCAPED key (value ++ [c])), ma)
      else Ok (Some (VALUE_TICKS key (value ++ [c])), ma)
  | VALUE_TICKS_ESCAPED key value => Ok (Some (VALUE_TICKS key (value ++ [c])), ma)
  end.

(** Behind the loop. *)
Definition args_finish (st : args_state) (ma : pa_modargs) : outcome (Z * pa_modargs) :=
  match st with
  | VALUE_START key => '(r, ma) ← args_add ma key []; Ok (match r with Some _ => 0 | None => -1 end, ma)
  | VALUE_SIMPLE key value => '(r, ma) ← args_add ma key value; Ok (match r with Some _ => 0 | None => -1 end, ma)
  | WHITESPACE => Ok (0, ma)
  | _ => Ok (-1, ma)
  end.

Fixpoint args_loop (st : args_state) (ma : pa_modargs) (p : cstring) : outcome (Z * pa_modargs) :=
  match p with
  | [] => args_finish st ma
  | c :: p =>
      '(st, ma) ← args_step st ma c;
      match st with None => Ok (-1, ma) | Some st => args_loop st ma p end
  end.
End parse.

Definition parse (ma : pa_modargs) (args : cstring) (valid_keys : option (list cstring)) (ignore_dupes : bool) : outcome (Z * pa_modargs) :=
  args_loop valid_keys ignore_dupes WHITESPACE ma args.

Definition no_args : pa_modargs := mk_modargs ∅ 0 [] [].

Definition pa_modargs_new (args : option cstring) (valid_keys : option (list cstring)) : outcome (option pa_modargs) :=
  match args with
  | None => Ok (Some no_args)
  | Some args => '(r, ma) ← parse no_args args valid_keys false; Ok (if r <? 0 then None else Some ma)
  end.

Definition pa_modargs_append (ma : pa_modargs) (args : cstring) (valid_keys : option (list cstring)) : outcome (Z * pa_modargs) :=
  parse ma args valid_keys true.

(** Removing an entry of [unescaped] frees its key. *)
Definition pa_modargs_remove_key (ma : pa_modargs) (key : cstring) : outcome (Z * pa_modargs) :=
  r ← entry_remove (ma_keys ma) (ma_unescaped ma) key;
  match r with
  | None => Ok (-1, ma)
  | Some ((a, _), unescaped) =>
      let keys := delete a (ma_keys ma) in
      r ← entry_remove keys (ma_raw ma) key;
      Ok (0, mk_modargs keys (ma_next ma) unescaped (match r with Some (_, raw) => raw | None => ma_raw ma end))
  end.

(** ** Reading arguments *)

Definition pa_modargs_get_value (ma : pa_modargs) (key : cstring) (def : option cstring) : outcome (option cstring) :=
  e ← entry_get (ma_keys ma) (ma_unescaped ma) key; Ok (match e with Some v => Some v | None => def end).

Definition modargs_get_value_raw (ma : pa_modargs) (key : cstring) (def : option cstring) : outcome (option cstring) :=
  e ← entry_get (ma_keys ma) (ma_raw ma) key;
  match e with
  | Some v => Ok (Some v)
  | None => e ← entry_get (ma_keys ma) (ma_unescaped ma) key; Ok (match e with Some v => Some v | None => def end)
  end.

(** A getter returns its result and what it leaves in [*value]. *)
Definition get_parsed {A} (parse : cstring -> option A) (ma : pa_modargs) (key : cstring) (value : A) : outcome (Z * A) :=
  v ← pa_modargs_get_value ma key None;
  Ok (match v with
      | None => (0, value)
      | Some v => match parse v with Some n => (0, n) | None => (-1, value) end
      end).

Definition pa_modargs_get_value_u32 : pa_modargs -> cstring -> Z -> outcome (Z * Z) := get_parsed pa_atou.
Definition pa_modargs_get_value_s32 : pa_modargs -> cstring -> Z -> outcome (Z * Z) := get_parsed pa_atoi.
Definition pa_modargs_get_value_boolean (locale : cstring -> option bool) : pa_modargs -> cstring -> bool -> outcome (Z * bool) :=
  get_parsed (fun v => match v with [] => None | _ => pa_parse_boolean locale v end).

Definition pa_modargs_get_sample_rate (ma : pa_modargs) (rate : Z) : outcome (Z * Z) :=
  '(r, rate_local) ← pa_modargs_get_value_u32 ma (str "rate") rate;
  Ok (if (r <? 0) || negb (pa_sample_rate_valid rate_local) then (-1, rate) else (0, rate_local)).

(** The name of a format or a map, for its parser. *)
Definition name_of (s : cstring) : string := String.string_of_list_ascii ((fun c => Ascii.ascii_of_N (Z.to_N c)) <$> s).

Definition pa_modargs_get_sample_spec (ma : pa_modargs) (rss : pa_sample_spec) : outcome (Z * pa_sample_spec) :=
  '(r, rate) ← pa_modargs_get_sample_rate ma (ss_rate rss);
  if r <? 0 then Ok (-1, rss)
  else
    '(r, channels) ← pa_modargs_get_value_u32 ma (str "channels") (ss_channels rss);
    if (r <? 0) || negb (pa_channels_valid channels) then Ok (-1, rss)
    else
      format ← pa_modargs_get_value ma (str "format") None;
      let f := match format with Some format => pa_parse_sample_format (name_of format) | None => ss_format rss end in
      if match format with Some _ => f <? 0 | None => false end then Ok (-1, rss)
      else
        let ss := mk_sample_spec f rate (u8 channels) in
        Ok (if negb (pa_sample_spec_valid ss) then (-1, rss) else (0, ss)).

Definition pa_modargs_get_alternate_sample_rate (ma : pa_modargs) (alternate_rate : Z) : outcome (Z * Z) :=
  '(r, rate_local) ← pa_modargs_get_value_u32 ma (str "alternate_rate") alternate_rate;
  Ok (if (r <? 0) || negb (pa_sample_rate_valid alternate_rate) then (-1, alternate_rate) else (0, rate_local)).

Definition pa_modargs_get_channel_map (ma : pa_modargs) (name : option cstring) (rmap : pa_channel_map) : outcome (Z * pa_channel_map) :=
  cm ← pa_modargs_get_value ma (default (str "channel_map") name) None;
  Ok (match match cm with Some cm => pa_channel_map_parse (name_of cm) | None => Some rmap end with
      | None => (-1, rmap)
      | Some map => if negb (pa_channel_map_valid map) then (-1, rmap) else (0, map)
      end).

Definition pa_modargs_get_sample_spec_and_channel_map (ma : pa_modargs) (rss : pa_sample_spec) (rmap : pa_channel_map)
    (def : pa_channel_map_def) : outcome (Z * pa_sample_spec * pa_channel_map) :=
  '(r, ss) ← pa_modargs_get_sample_spec ma rss;
  if r <? 0 then Ok (-1, rss, rmap)
  else
    map ← (if negb (ss_channels ss =? channels rmap) then r ← pa_channel_map_init_extend (ss_channels ss) def; deref r else Ok rmap);
    '(r, map) ← pa_modargs_get_channel_map ma None map;
    if r <? 0 then Ok (-1, rss, rmap)
    else if negb (channels map =? ss_channels ss) then
      v ← pa_modargs_get_value ma (str "channels") None;
      Ok (match v with
          | None => (0, mk_sample_spec (ss_format ss) (ss_rate ss) (channels map), map)
          | Some _ => (-1, rss, rmap)
          end)
    else Ok (0, ss, map).

Definition pa_modargs_get_proplist (ma : pa_modargs) (name : cstring) (p : pa_proplist) (m : pa_update_mode_t) : outcome (Z * pa_proplist) :=
  v ← modargs_get_value_raw ma name None;
  match v with
  | None => Ok (0, p)
  | Some v =>
      match pa_proplist_from_string v with
      | None => Ok (-1, p)
      | Some n => p ← pa_proplist_update m p n; Ok (0, p)
      end
  end.

(** The loop of [pa_modargs_merge_missing], over the entries of [src]. *)
Fixpoint merge_loop (dst src : pa_modargs) (todo : list (nat * cstring)) (valid_keys : option (list cstring)) (ret : Z) : outcome (Z * pa_modargs) :=
  match todo with
  | [] => Ok (ret, dst)
  | (a, _) :: todo =>
      key ← deref (ma_keys src !! a);
      value ← pa_modargs_get_value src key None;
      match value with
      | Some value =>
          '(r, dst) ← add_key_value dst key value valid_keys true;
          merge_loop dst src todo valid_keys (if r <? 0 then -1 else ret)
      | None => merge_loop dst src todo valid_keys ret
      end
  end.

Definition pa_modargs_merge_missing (dst src : pa_modargs) (valid_keys : option (list cstring)) : outcome (Z * pa_modargs) :=
  merge_loop dst src (ma_unescaped src) valid_keys 0.
