(* ===== verification/ModargsProps.v ===== *)
(** * ModargsProps: arguments are what was written

    The parser of [Modargs] never touches freed memory, keeps one value for a key,
    accepts valid keys only, and finds the values that were written with quotes
    and escapes; the getters hand out valid specifications.  Removing an argument
    is where the code goes wrong. *)
From stdpp Require Import base tactics numbers list gmap strings.
From S2P Require Import Prelude Sample Channelmap Text TextProps Proplist ProplistText Modargs.

(** ** The arguments of a [pa_modargs] *)

(** The entries of a map with the strings of their keys. *)
Definition view (keys : gmap nat cstring) (l : list (nat * cstring)) : list (cstring * cstring) :=
  omap (fun x => (fun k => (k, x.2)) <$> keys !! x.1) l.
Definition args (ma : pa_modargs) : list (cstring * cstring) := view (ma_keys ma) (ma_unescaped ma).

Definition alive (keys : gmap nat cstring) (l : list (nat * cstring)) : Prop := Forall (fun x => is_Some (keys !! x.1)) l.

(** The keys are allocated and differ, and a raw value belongs to an argument
    and is not the unescaped one. *)
Record args_ok (ma : pa_modargs) : Prop := {
  ao_alive : alive (ma_keys ma) (ma_unescaped ma);
  ao_fresh : Forall (fun x : nat * cstring => (x.1 < ma_next ma)%nat) (ma_unescaped ma);
  ao_nodup : NoDup (ma_unescaped ma).*1;
  ao_keys : NoDup (args ma).*1;
  ao_raw_nodup : NoDup (ma_raw ma).*1;
  ao_raw : Forall (fun x => (x.1, pa_unescape x.2) ∈ ma_unescaped ma /\ pa_unescape x.2 <> x.2) (ma_raw ma)
}.

Lemma prop_get_cons k v p key : prop_get ((k, v) :: p) key = if bool_decide (k = key) then Some v else prop_get p key.
Proof.
  rewrite !prop_get_map. change (to_map ((k, v) :: p)) with (<[k := v]> (to_map p)). case_bool_decide as E; [subst; by rewrite lookup_insert_eq|by rewrite lookup_insert_ne].
Qed.

Lemma view_app keys l1 l2 : view keys (l1 ++ l2) = view keys l1 ++ view keys l2.
Proof. apply omap_app. Qed.

Lemma view_cons keys a v l k : keys !! a = Some k -> view keys ((a, v) :: l) = (k, v) :: view keys l.
Proof. intros E. unfold view. simpl. by rewrite E. Qed.

Lemma view_ext keys keys' l : Forall (fun x => keys !! x.1 = keys' !! x.1) l -> view keys l = view keys' l.
Proof. induction 1 as [|x l E _ IH]; [done|]. unfold view in *. simpl. rewrite E. destruct (keys' !! x.1); simpl; [f_equal|]; exact IH. Qed.

Lemma view_elem keys l k v : (k, v) ∈ view keys l <-> exists a, (a, v) ∈ l /\ keys !! a = Some k.
Proof.
  unfold view. rewrite list_elem_of_omap. split.
  - intros ([a w] & Hin & E). simpl in E. apply fmap_Some in E as (k' & E & [= -> ->]). eauto.
  - intros (a & Hin & E). exists (a, v). simpl. by rewrite E.
Qed.

Lemma entry_get_view keys l key : alive keys l -> entry_get keys l key = Ok (prop_get (view keys l) key).
Proof.
  induction 1 as [|[a v] l [k Ek] _ IH]; [done|]. simpl in Ek. cbn [entry_get]. rewrite Ek. cbn [deref mbind outcome_bind].
  rewrite (view_cons _ _ _ _ _ Ek), prop_get_cons. by case_bool_decide.
Qed.

Lemma get_value_view ma key def : args_ok ma ->
  pa_modargs_get_value ma key def = Ok (match prop_get (args ma) key with Some v => Some v | None => def end).
Proof. intros H. unfold pa_modargs_get_value. by rewrite entry_get_view by apply H. Qed.

Lemma get_value_default ma key def : args_ok ma -> exists v, pa_modargs_get_value ma key (Some def) = Ok (Some v).
Proof. intros H. rewrite get_value_view by done. destruct (prop_get (args ma) key); eauto. Qed.

Lemma no_args_ok : args_ok no_args.
Proof. split; simpl; constructor. Qed.

(** ** Adding an argument *)

Definition key_valid (valid_keys : option (list cstring)) (key : cstring) : Prop :=
  match valid_keys with Some l => key ∈ l | None => True end.
#[export] Instance key_valid_dec valid_keys key : Decision (key_valid valid_keys key).
Proof. unfold key_valid. destruct valid_keys; apply _. Defined.
Definition all_valid (valid_keys : option (list cstring)) (ma : pa_modargs) : Prop := Forall (fun x => key_valid valid_keys x.1) (args ma).

Lemma fresh_view ma key : args_ok ma -> view (<[ma_next ma := key]> (ma_keys ma)) (ma_unescaped ma) = args ma.
Proof.
  intros H. apply view_ext. eapply Forall_impl; [exact (ao_fresh _ H)|]. intros x Hx. simpl in Hx. apply lookup_insert_ne. lia.
Qed.

(** The arguments with one more. *)
Lemma add_fresh ma key value valid dupes : args_ok ma -> prop_get (args ma) key = None -> key_valid valid key ->
  exists ma', add_key_value ma key value valid dupes = Ok (0, ma') /\ args_ok ma' /\ args ma' = args ma ++ [(key, pa_unescape value)].
Proof.
  intros H Hg Hv. unfold add_key_value. rewrite entry_get_view by apply H. fold (args ma). rewrite Hg. cbn [mbind outcome_bind].
  assert (match valid with Some l => negb (bool_decide (key ∈ l)) | None => false end = false) as -> by (destruct valid; [by rewrite bool_decide_true|done]).
  eexists. split; [done|].
  assert (args (mk_modargs (<[ma_next ma := key]> (ma_keys ma)) (S (ma_next ma)) (ma_unescaped ma ++ [(ma_next ma, pa_unescape value)])
    (if bool_decide (value = pa_unescape value) then ma_raw ma else ma_raw ma ++ [(ma_next ma, value)])) = args ma ++ [(key, pa_unescape value)]) as Ea.
  { unfold args at 1. simpl ma_keys. simpl ma_unescaped. rewrite view_app, fresh_view by done. f_equal.
    unfold view. simpl. by rewrite lookup_insert_eq. }
  assert (ma_next ma ∉ (ma_unescaped ma).*1) as Hn.
  { intros (x & E & Hx)%list_elem_of_fmap. pose proof (proj1 (Forall_forall _ _) (ao_fresh _ H) _ Hx) as Hlt. simpl in Hlt. lia. }
  split; [|exact Ea]. split; rewrite ?Ea; simpl.
  - apply Forall_app. split; [|constructor; [by rewrite lookup_insert_eq|constructor]]. eapply Forall_impl; [exact (ao_alive _ H)|]. intros x [k E]. simpl in *.
    destruct (decide (ma_next ma = x.1)) as [<-|]; [by rewrite lookup_insert_eq|rewrite lookup_insert_ne by done; eauto].
  - apply Forall_app. split; [|by repeat constructor]. eapply Forall_impl; [exact (ao_fresh _ H)|]. simpl. lia.
  - rewrite fmap_app. apply NoDup_app. split_and!; [apply H| |apply NoDup_singleton]. intros a Ha ->%list_elem_of_singleton. done.
  - rewrite fmap_app. apply NoDup_app. split_and!; [apply H| |apply NoDup_singleton]. intros k Hk ->%list_elem_of_singleton. simpl in Hk.
    rewrite prop_get_map in Hg. apply not_elem_of_list_to_map_2 in Hg. done.
  - case_bool_decide; [apply H|]. rewrite fmap_app. apply NoDup_app. split_and!; [apply H| |apply NoDup_singleton]. intros a Ha ->%list_elem_of_singleton.
    apply list_elem_of_fmap in Ha as (x & E & Hx). destruct (proj1 (Forall_forall _ _) (ao_raw _ H) _ Hx) as [Hin _]. apply Hn. simpl in E. rewrite E.
    apply (list_elem_of_fmap_2 fst) in Hin. done.
  - assert (Forall (fun x => (x.1, pa_unescape x.2) ∈ ma_unescaped ma ++ [(ma_next ma, pa_unescape value)] /\ pa_unescape x.2 <> x.2) (ma_raw ma)) as Hr.
    { eapply Forall_impl; [exact (ao_raw _ H)|]. intros x [Hx Hne]. split; [set_solver|done]. }
    case_bool_decide; [done|]. apply Forall_app. split; [done|]. repeat constructor; simpl; [set_solver|done].
Qed.

Lemma all_valid_app valid ma ma' key v : all_valid valid ma -> key_valid valid key -> args ma' = args ma ++ [(key, v)] -> all_valid valid ma'.
Proof. intros H Hk E. unfold all_valid. rewrite E. apply Forall_app. split; [done|]. by repeat constructor. Qed.

(** However it ends, adding keeps the arguments in order, and none is lost. *)
Lemma add_safe ma key value valid dupes : args_ok ma -> all_valid valid ma ->
  exists r ma', add_key_value ma key value valid dupes = Ok (r, ma') /\ args_ok ma' /\ all_valid valid ma' /\ args ma `prefix_of` args ma'.
Proof.
  intros H Ha. destruct (prop_get (args ma) key) as [old|] eqn:Hg.
  - unfold add_key_value. rewrite entry_get_view by apply H. fold (args ma). rewrite Hg. by do 2 eexists.
  - destruct (decide (key_valid valid key)) as [Hv|Hv].
    + destruct (add_fresh ma key value valid dupes H Hg Hv) as (ma' & E & H' & Ea). exists 0, ma'. split_and!; [done|done|by eapply all_valid_app|].
      rewrite Ea. by eexists.
    + unfold add_key_value. rewrite entry_get_view by apply H. fold (args ma). rewrite Hg. cbn [mbind outcome_bind].
      destruct valid as [l|]; [|by destruct Hv]. simpl in Hv. rewrite bool_decide_false by done. by do 2 eexists.
Qed.

(** ** Parsing *)

Section parsing.
Context (valid : option (list cstring)) (dupes : bool).

(** What holds between two characters. *)
Definition good (old ma : pa_modargs) : Prop := args_ok ma /\ all_valid valid ma /\ args old `prefix_of` args ma.

Lemma parse_add_safe old ma key value : good old ma -> exists r ma', args_add valid dupes ma key value = Ok (r, ma') /\ good old ma'.
Proof.
  intros (H & Ha & Hp). destruct (add_safe ma key value valid dupes H Ha) as (r & ma' & E & H' & Ha' & Hp'). unfold args_add. rewrite E.
  do 2 eexists. split; [done|]. split_and!; [done|done|by etrans].
Qed.

Lemma step_safe old st ma c : good old ma -> exists r ma', args_step valid dupes st ma c = Ok (r, ma') /\ good old ma'.
Proof. intros H. destruct st; cbn [args_step]; repeat case_match; try (by apply parse_add_safe); by do 2 eexists. Qed.

Lemma finish_safe old st ma : good old ma -> exists r ma', args_finish valid dupes st ma = Ok (r, ma') /\ good old ma'.
Proof.
  intros H. destruct st as [|?|key|key value|? ?|? ?|? ?|? ?|? ?]; cbn [args_finish]; try (by do 2 eexists).
  - destruct (parse_add_safe old ma key [] H) as (r & ma' & E & Hg). rewrite E. by do 2 eexists.
  - destruct (parse_add_safe old ma key value H) as (r & ma' & E & Hg). rewrite E. by do 2 eexists.
Qed.

Lemma loop_safe old p : forall st ma, good old ma -> exists r ma', args_loop valid dupes st ma p = Ok (r, ma') /\ good old ma'.
Proof.
  induction p as [|c p IH]; intros st ma H; cbn [args_loop]; [by apply finish_safe|].
  destruct (step_safe old st ma c H) as ([st'|] & ma' & E & Hg); rewrite E; cbn [mbind outcome_bind]; [by apply IH|by do 2 eexists].
Qed.
End parsing.

Lemma parse_safe ma text valid dupes : args_ok ma -> all_valid valid ma ->
  exists r ma', parse ma text valid dupes = Ok (r, ma') /\ args_ok ma' /\ all_valid valid ma' /\ args ma `prefix_of` args ma'.
Proof. intros H Ha. by apply (loop_safe valid dupes ma text WHITESPACE ma). Qed.

Lemma new_safe arg valid : exists o, pa_modargs_new arg valid = Ok o /\ forall ma, o = Some ma -> args_ok ma /\ all_valid valid ma.
Proof.
  destruct arg as [text|]; [|eexists; split; [done|]; intros ma [= <-]; split; [exact no_args_ok|constructor]].
  unfold pa_modargs_new. destruct (parse_safe no_args text valid false no_args_ok) as (r & ma & E & H & Ha & _); [constructor|]. rewrite E.
  eexists. split; [done|]. intros ma' Em. destruct (r <? 0); [done|]. by injection Em as <-.
Qed.

Lemma invalid_key ma valid key def : args_ok ma -> all_valid valid ma -> ~ key_valid valid key ->
  pa_modargs_get_value ma key def = Ok def /\ modargs_get_value_raw ma key def = Ok def.
Proof.
  intros H Ha Hk. assert (prop_get (args ma) key = None) as Hn.
  { rewrite prop_get_map. apply not_elem_of_list_to_map_1. intros (x & -> & Hx)%list_elem_of_fmap. by apply Hk, (proj1 (Forall_forall _ _) Ha). }
  rewrite get_value_view, Hn by done. split; [done|]. unfold modargs_get_value_raw. rewrite (entry_get_view _ (ma_unescaped ma)) by apply H. fold (args ma). rewrite Hn.
  assert (alive (ma_keys ma) (ma_raw ma)) as Hr.
  { eapply Forall_impl; [exact (ao_raw _ H)|]. intros x [Hx _]. by apply (proj1 (Forall_forall _ _) (ao_alive _ H)) in Hx. }
  rewrite entry_get_view by done. assert (prop_get (view (ma_keys ma) (ma_raw ma)) key = None) as ->; [|done].
  rewrite prop_get_map. apply not_elem_of_list_to_map_1. intros ([k v] & -> & Hx)%list_elem_of_fmap. apply view_elem in Hx as (a & Hx & Ek).
  apply (proj1 (Forall_forall _ _) (ao_raw _ H)) in Hx as [Hx _]. simpl in Hx. apply Hk.
  apply (proj1 (Forall_forall _ _) Ha (k, pa_unescape v)), view_elem. eauto.
Qed.

(** Whatever the text, parsing arguments never touches memory it should not;
    the arguments accepted have different keys, all of them valid ones; arguments
    appended later replace none; and asking for a key that is not valid finds
    nothing. *)
Theorem modargs_parse_safe text more valid :
  exists o, pa_modargs_new (Some text) valid = Ok o /\
    (forall ma, o = Some ma -> args_ok ma /\ all_valid valid ma /\
      (forall key def, ~ key_valid valid key -> pa_modargs_get_value ma key def = Ok def /\ modargs_get_value_raw ma key def = Ok def) /\
      exists r ma', pa_modargs_append ma more valid = Ok (r, ma') /\ args_ok ma' /\ all_valid valid ma' /\ args ma `prefix_of` args ma').
Proof.
  destruct (new_safe (Some text) valid) as (o & E & Ho). exists o. split; [done|]. intros ma Em. destruct (Ho ma Em) as [H Ha].
  split_and!; [done|done| |by apply parse_safe]. intros key def Hk. by apply (invalid_key ma valid).
Qed.

(** ** Reading what was written *)

(** An argument written with one of the two quotes, with a blank behind it. *)
Definition written (q : Z) (x : cstring * cstring) : cstring := x.1 ++ "="%ch :: q :: pa_escape x.2 (Some [q]) ++ [q; " "%ch].

(** The two kinds of quotes. *)
Definition in_quotes (q : Z) (key value : cstring) : args_state :=
  if q =? 34 then VALUE_DOUBLE_QUOTES key value else VALUE_TICKS key value.
Definition in_quotes_escaped (q : Z) (key value : cstring) : args_state :=
  if q =? 34 then VALUE_DOUBLE_QUOTES_ESCAPED key value else VALUE_TICKS_ESCAPED key value.
Definition is_quote (q : Z) : Prop := q = 34 \/ q = "'"%ch.

Section roundtrip.
Context (valid : option (list cstring)) (dupes : bool).

Lemma args_key_phase ma k key rest : Forall key_char k ->
  args_loop valid dupes (KEY key) ma (k ++ rest) = args_loop valid dupes (KEY (key ++ k)) ma rest.
Proof.
  intros H. revert key. induction H as [|c k [H1 H2] _ IH]; intros key; [by rewrite app_nil_r|].
  cbn [app args_loop args_step]. rewrite (proj2 (Z.eqb_neq _ _) H1), H2. cbn [mbind outcome_bind].
  rewrite IH. by rewrite <- app_assoc.
Qed.

Lemma quote_char q key ma acc c : is_quote q -> c <> q -> c <> "\"%ch ->
  args_step valid dupes (in_quotes q key acc) ma c = Ok (Some (in_quotes q key (acc ++ [c])), ma).
Proof. intros [-> | ->] H1 H2; cbn; by rewrite (proj2 (Z.eqb_neq _ _) H1), (proj2 (Z.eqb_neq _ _) H2). Qed.

Lemma quote_backslash q key ma acc : is_quote q ->
  args_step valid dupes (in_quotes q key acc) ma "\"%ch = Ok (Some (in_quotes_escaped q key (acc ++ ["\"%ch])), ma).
Proof. by intros [-> | ->]. Qed.

Lemma quote_escaped q key ma acc c : is_quote q ->
  args_step valid dupes (in_quotes_escaped q key acc) ma c = Ok (Some (in_quotes q key (acc ++ [c])), ma).
Proof. by intros [-> | ->]. Qed.

Lemma quote_phase q ma key v acc rest : is_quote q ->
  args_loop valid dupes (in_quotes q key acc) ma (pa_escape v (Some [q]) ++ rest) =
  args_loop valid dupes (in_quotes q key (acc ++ pa_escape v (Some [q]))) ma rest.
Proof.
  intros Hq. revert acc. induction v as [|c v IH]; intros acc; [by rewrite app_nil_r|]. cbn [pa_escape default].
  assert (forall c, args_loop valid dupes (in_quotes q key acc) ma ("\"%ch :: c :: pa_escape v (Some [q]) ++ rest) =
    args_loop valid dupes (in_quotes q key (acc ++ "\"%ch :: c :: pa_escape v (Some [q]))) ma rest) as He.
  { intros c'. cbn [args_loop]. rewrite quote_backslash by done. cbn [mbind outcome_bind]. rewrite quote_escaped by done. cbn [mbind outcome_bind].
    rewrite IH. by rewrite <- !app_assoc. }
  destruct (Z.eqb_spec c 92) as [->|Hc]; [apply He|]. case_bool_decide as Hin; [apply He|].
  cbn [app args_loop]. rewrite quote_char by (done || (intros ->; apply Hin; by apply list_elem_of_singleton)). cbn [mbind outcome_bind].
  rewrite IH. by rewrite <- app_assoc.
Qed.

(** One argument. *)
Lemma parse_written q x ma rest : is_quote q -> x.1 <> [] -> Forall key_char x.1 -> args_ok ma -> prop_get (args ma) x.1 = None -> key_valid valid x.1 ->
  exists ma', args_loop valid dupes WHITESPACE ma (written q x ++ rest) = args_loop valid dupes WHITESPACE ma' rest /\
    args_ok ma' /\ args ma' = args ma ++ [x].
Proof.
  intros Hq Hne Hk Hok Hg Hv. destruct x as [key v]. simpl in *. destruct Hk as [|c k [H1 H2] Hk]; [done|].
  destruct (add_fresh ma (c :: k) (pa_escape v (Some [q])) valid dupes Hok Hg Hv) as (ma' & E & Hok' & Ea). rewrite unescape_escape in Ea.
  exists ma'. split; [|done]. unfold written. simpl fst. simpl snd. cbn [app args_loop args_step].
  rewrite (proj2 (Z.eqb_neq _ _) H1), H2. cbn [negb mbind outcome_bind]. rewrite <- app_assoc, args_key_phase by done.
  cbn [app args_loop args_step]. change (61 =? 61) with true. cbn [mbind outcome_bind].
  transitivity (args_loop valid dupes (in_quotes q (c :: k) []) ma (pa_escape v (Some [q]) ++ q :: 32 :: rest)).
  { rewrite <- app_assoc. by destruct Hq as [-> | ->]. }
  rewrite quote_phase by done. cbn [app args_loop].
  assert (args_step valid dupes (in_quotes q (c :: k) (pa_escape v (Some [q]))) ma q = Ok (Some WHITESPACE, ma')) as ->.
  { transitivity (args_add valid dupes ma (c :: k) (pa_escape v (Some [q]))); [by destruct Hq as [-> | ->]|]. unfold args_add. by rewrite E. }
  done.
Qed.
End roundtrip.

Lemma parse_all_written valid dupes q l : is_quote q -> Forall (fun x => x.1 <> [] /\ Forall key_char x.1 /\ key_valid valid x.1) l ->
  forall ma, args_ok ma -> NoDup (args ma ++ l).*1 ->
  exists ma', parse ma (concat (written q <$> l)) valid dupes = Ok (0, ma') /\ args_ok ma' /\ args ma' = args ma ++ l.
Proof.
  intros Hq H. unfold parse. induction H as [|x l (Hne & Hk & Hv) _ IH]; intros ma Hok Hn; [exists ma; by rewrite app_nil_r|].
  assert (prop_get (args ma) x.1 = None) as Hg.
  { rewrite prop_get_map. apply not_elem_of_list_to_map_1. rewrite fmap_app, fmap_cons in Hn. apply NoDup_app in Hn as (_ & Hn & _).
    intros Hin. apply (Hn _ Hin). set_solver. }
  rewrite fmap_cons. cbn [concat]. destruct (parse_written valid dupes q x ma (concat (written q <$> l)) Hq Hne Hk Hok Hg Hv) as (ma1 & E & Hok1 & Ea).
  rewrite E. destruct (IH ma1 Hok1) as (ma' & E' & Hok' & Ea'); [by rewrite Ea, <- app_assoc|]. exists ma'. split_and!; [done|done|].
  by rewrite Ea', Ea, <- app_assoc.
Qed.

(** C31: arguments are read as they were written: pairs of different valid keys
    and any values, each value escaped and put between quotes of either kind, are
    parsed to these arguments. *)
Theorem modargs_roundtrip valid q l : is_quote q -> NoDup l.*1 ->
  Forall (fun x => x.1 <> [] /\ Forall key_char x.1 /\ key_valid valid x.1) l ->
  exists ma, pa_modargs_new (Some (concat (written q <$> l))) valid = Ok (Some ma) /\
    forall key def, pa_modargs_get_value ma key def = Ok (match prop_get l key with Some v => Some v | None => def end).
Proof.
  intros Hq Hn H. destruct (parse_all_written valid false q l Hq H no_args no_args_ok Hn) as (ma & E & Hok & Ea). simpl in Ea.
  exists ma. unfold pa_modargs_new. rewrite E. split; [done|]. intros key def. rewrite get_value_view by done. by rewrite Ea.
Qed.

(** ** Specifications *)

(** What a getter leaves: the argument, parsed, or what was there. *)
Definition chosen {A} (parse : cstring -> option A) (arg : option cstring) (def x : A) : Prop :=
  match arg with Some s => parse s = Some x | None => x = def end.

Lemma get_parsed_spec {A} (parse : cstring -> option A) ma key (value : A) : args_ok ma ->
  (exists x, get_parsed parse ma key value = Ok (0, x) /\ chosen parse (prop_get (args ma) key) value x) \/
  get_parsed parse ma key value = Ok (-1, value).
Proof.
  intros H. unfold get_parsed. rewrite get_value_view by done. cbn [mbind outcome_bind]. unfold chosen.
  destruct (prop_get (args ma) key) as [s|]; [|by left; eexists]. destruct (parse s); [left; by eexists|by right].
Qed.

Definition parse_format (s : cstring) : option Z :=
  let f := pa_parse_sample_format (name_of s) in if f <? 0 then None else Some f.

Lemma sample_spec_spec ma rss : args_ok ma ->
  (exists ss, pa_modargs_get_sample_spec ma rss = Ok (0, ss) /\ pa_sample_spec_valid ss = true /\
     chosen pa_atou (prop_get (args ma) (str "rate")) (ss_rate rss) (ss_rate ss) /\
     chosen pa_atou (prop_get (args ma) (str "channels")) (ss_channels rss) (ss_channels ss) /\
     chosen parse_format (prop_get (args ma) (str "format")) (ss_format rss) (ss_format ss)) \/
  pa_modargs_get_sample_spec ma rss = Ok (-1, rss).
Proof.
  intros H. unfold pa_modargs_get_sample_spec, pa_modargs_get_sample_rate, pa_modargs_get_value_u32.
  destruct (get_parsed_spec pa_atou ma (str "rate") (ss_rate rss) H) as [(rate & E1 & C1)|E1]; rewrite E1; cbn [mbind outcome_bind]; [|by right].
  change (0 <? 0) with false. cbn [orb]. destruct (pa_sample_rate_valid rate) eqn:V1; cbn [negb]; [|by right]. change (0 <? 0) with false. cbv iota.
  destruct (get_parsed_spec pa_atou ma (str "channels") (ss_channels rss) H) as [(ch & E2 & C2)|E2]; rewrite E2; cbn [mbind outcome_bind]; [|by right].
  change (0 <? 0) with false. cbn [orb]. destruct (pa_channels_valid ch) eqn:V2; cbn [negb]; [|by right].
  assert (u8 ch = ch) as -> by (apply u8_small; unfold pa_channels_valid, PA_CHANNELS_MAX in V2; blia).
  rewrite get_value_view by done. cbn [mbind outcome_bind]. unfold chosen at 3, parse_format.
  destruct (prop_get (args ma) (str "format")) as [fs|].
  - destruct (pa_parse_sample_format (name_of fs) <? 0) eqn:Ef; [by right|].
    destruct (pa_sample_spec_valid _) eqn:V3; [left|by right]. by eexists.
  - destruct (pa_sample_spec_valid _) eqn:V3; [left|by right]. by eexists.
Qed.

Lemma channel_map_spec ma rmap : args_ok ma ->
  (exists map, pa_modargs_get_channel_map ma None rmap = Ok (0, map) /\ pa_channel_map_valid map = true /\
     chosen (fun s => pa_channel_map_parse (name_of s)) (prop_get (args ma) (str "channel_map")) rmap map) \/
  pa_modargs_get_channel_map ma None rmap = Ok (-1, rmap).
Proof.
  intros H. unfold pa_modargs_get_channel_map. rewrite get_value_view by done. cbn [mbind outcome_bind default]. unfold chosen.
  destruct (prop_get (args ma) (str "channel_map")) as [s|].
  - destruct (pa_channel_map_parse (name_of s)) as [map|]; [|by right]. destruct (pa_channel_map_valid map) eqn:V; [left; by exists map|by right].
  - destruct (pa_channel_map_valid rmap) eqn:V; [left; by exists rmap|by right].
Qed.

Lemma spec_with_channels ss n : pa_sample_spec_valid ss = true -> pa_channels_valid n = true ->
  pa_sample_spec_valid (mk_sample_spec (ss_format ss) (ss_rate ss) n) = true.
Proof. unfold pa_sample_spec_valid. simpl. intros H ->. by destruct (pa_sample_rate_valid _), (pa_channels_valid (ss_channels ss)), (pa_sample_format_valid _). Qed.

Lemma spec_channels_valid ss : pa_sample_spec_valid ss = true -> pa_channels_valid (ss_channels ss) = true.
Proof. unfold pa_sample_spec_valid. by destruct (pa_sample_rate_valid _), (pa_channels_valid _). Qed.

Lemma map_channels_valid map : pa_channel_map_valid map = true -> pa_channels_valid (channels map) = true.
Proof. unfold pa_channel_map_valid. by destruct (pa_channels_valid _). Qed.

Lemma spec_and_map_spec ma rss rmap def : args_ok ma ->
  exists r ss map, pa_modargs_get_sample_spec_and_channel_map ma rss rmap def = Ok (r, ss, map) /\
    ((r = 0 /\ pa_sample_spec_valid ss = true /\ pa_channel_map_valid map = true /\ channels map = ss_channels ss /\
       chosen pa_atou (prop_get (args ma) (str "rate")) (ss_rate rss) (ss_rate ss) /\
       chosen parse_format (prop_get (args ma) (str "format")) (ss_format rss) (ss_format ss) /\
       (forall s, prop_get (args ma) (str "channels") = Some s -> pa_atou s = Some (ss_channels ss)) /\
       (forall s, prop_get (args ma) (str "channel_map") = Some s -> pa_channel_map_parse (name_of s) = Some map)) \/
     (r = -1 /\ ss = rss /\ map = rmap)).
Proof.
  intros H. unfold pa_modargs_get_sample_spec_and_channel_map.
  destruct (sample_spec_spec ma rss H) as [(ss & E1 & V1 & Cr & Cc & Cf)|E1]; rewrite E1; cbn [mbind outcome_bind]; [|by do 3 eexists; split; [done|by right]].
  change (0 <? 0) with false. cbv iota.
  assert (exists map0, (if negb (ss_channels ss =? channels rmap) then r ← pa_channel_map_init_extend (ss_channels ss) def; deref r else Ok rmap) = Ok map0) as [map0 E0].
  { destruct (ss_channels ss =? channels rmap); [by exists rmap|]. pose proof (spec_channels_valid _ V1) as Vc.
    destruct (channel_map_defaults (ss_channels ss) def) as (m & -> & _); [unfold pa_channels_valid, PA_CHANNELS_MAX in Vc; blia|]. by exists m. }
  rewrite E0. cbn [mbind outcome_bind].
  destruct (channel_map_spec ma map0 H) as [(map & E2 & V2 & Cm)|E2]; rewrite E2; cbn [mbind outcome_bind]; [|by do 3 eexists; split; [done|by right]].
  change (0 <? 0) with false. cbv iota.
  assert (forall s, prop_get (args ma) (str "channel_map") = Some s -> pa_channel_map_parse (name_of s) = Some map) as Hm by (intros s Es; by rewrite Es in Cm).
  destruct (Z.eqb_spec (channels map) (ss_channels ss)) as [En|En]; cbn [negb].
  - do 3 eexists. split; [done|]. left. split_and!; try done. intros s Es. by rewrite Es in Cc.
  - rewrite get_value_view by done. cbn [mbind outcome_bind]. destruct (prop_get (args ma) (str "channels")) as [s|] eqn:Es; [by do 3 eexists; split; [done|by right]|].
    do 3 eexists. split; [done|]. left. split_and!; try done. apply spec_with_channels; [done|]. by apply map_channels_valid.
Qed.

(** C32: the specification and the channel map a module gets from its arguments
    are valid and have the same number of channels; they are the ones the
    arguments ask for, and otherwise nothing is changed and an error returned. *)
Theorem spec_and_map_agree ma rss rmap def : args_ok ma ->
  exists r ss map, pa_modargs_get_sample_spec_and_channel_map ma rss rmap def = Ok (r, ss, map) /\
    ((r = 0 /\ pa_sample_spec_valid ss = true /\ pa_channel_map_valid map = true /\ channels map = ss_channels ss /\
       chosen pa_atou (prop_get (args ma) (str "rate")) (ss_rate rss) (ss_rate ss) /\
       chosen parse_format (prop_get (args ma) (str "format")) (ss_format rss) (ss_format ss) /\
       (forall s, prop_get (args ma) (str "channels") = Some s -> pa_atou s = Some (ss_channels ss)) /\
       (forall s, prop_get (args ma) (str "channel_map") = Some s -> pa_channel_map_parse (name_of s) = Some map)) \/
     (r = -1 /\ ss = rss /\ map = rmap)).
Proof. apply spec_and_map_spec. Qed.

(** ** Removing an argument *)

Lemma entry_remove_none keys l key : alive keys l -> prop_get (view keys l) key = None -> entry_remove keys l key = Ok None.
Proof.
  induction 1 as [|[a v] l [k Ek] _ IH]; [done|]. simpl in Ek. rewrite (view_cons _ _ _ _ _ Ek), prop_get_cons. case_bool_decide as Hk; [done|].
  intros Hg. cbn [entry_remove]. rewrite Ek. cbn [deref mbind outcome_bind]. rewrite bool_decide_false by done. by rewrite IH.
Qed.

Lemma entry_remove_some keys l key v : alive keys l -> prop_get (view keys l) key = Some v ->
  exists a l1 l2, l = l1 ++ (a, v) :: l2 /\ keys !! a = Some key /\ entry_remove keys l key = Ok (Some ((a, v), l1 ++ l2)).
Proof.
  induction 1 as [|[a w] l [k Ek] _ IH]; [done|]. simpl in Ek. rewrite (view_cons _ _ _ _ _ Ek), prop_get_cons. cbn [entry_remove]. rewrite Ek.
  cbn [deref mbind outcome_bind]. case_bool_decide as Hk.
  - intros [= ->]. subst. by exists a, [], l.
  - intros Hg. destruct (IH Hg) as (b & l1 & l2 & -> & Eb & E). rewrite E. by exists b, ((a, w) :: l1), l2.
Qed.

(** Looking through a map that has an entry whose key was freed. *)
Lemma entry_remove_freed keys l key a : a ∈ l.*1 -> Forall (fun x => x.1 <> a -> exists k, keys !! x.1 = Some k /\ k <> key) l ->
  entry_remove (delete a keys) l key = UB.
Proof.
  intros Ha H. induction H as [|[b v] l Hb _ IH]; [by apply elem_of_nil in Ha|]. cbn [entry_remove]. destruct (decide (b = a)) as [->|Hne].
  { by rewrite lookup_delete_eq. }
  destruct (Hb Hne) as (k & Ek & Hk). simpl in Ek. rewrite lookup_delete_ne, Ek by done. cbn [deref mbind outcome_bind]. rewrite bool_decide_false by done.
  rewrite IH; [done|]. rewrite fmap_cons in Ha. by apply elem_of_cons in Ha as [->|Ha].
Qed.

Lemma args_split ma l1 a v l2 key : args_ok ma -> ma_unescaped ma = l1 ++ (a, v) :: l2 -> ma_keys ma !! a = Some key ->
  (a ∉ l1.*1 ++ l2.*1) /\ args ma = view (ma_keys ma) l1 ++ (key, v) :: view (ma_keys ma) l2.
Proof.
  intros H El Ek. split.
  - pose proof (ao_nodup _ H) as Hn. rewrite El, fmap_app, fmap_cons in Hn. apply NoDup_app in Hn as (_ & H1 & H2). simpl in *. apply NoDup_cons in H2 as [H2 _]. set_solver.
  - unfold args. by rewrite El, view_app, (view_cons _ _ _ _ _ Ek).
Qed.

(** Two entries with the same key are one. *)
Lemma same_key ma a b v w key : args_ok ma -> (a, v) ∈ ma_unescaped ma -> (b, w) ∈ ma_unescaped ma ->
  ma_keys ma !! a = Some key -> ma_keys ma !! b = Some key -> a = b.
Proof.
  intros H Ha Hb Ea Eb. destruct (list_elem_of_split _ _ Ha) as (l1 & l2 & El). destruct (args_split ma l1 a v l2 key H El Ea) as [_ Eargs].
  pose proof (ao_keys _ H) as Hn. rewrite Eargs, fmap_app, fmap_cons in Hn. apply NoDup_app in Hn as (_ & H1 & H2). apply NoDup_cons in H2 as [H2 _].
  rewrite El in Hb. apply elem_of_app in Hb as [Hb|Hb].
  - exfalso. apply (H1 key); [|simpl; set_solver]. apply list_elem_of_fmap. exists (key, w). split; [done|]. apply view_elem. eauto.
  - apply elem_of_cons in Hb as [[= -> ->]|Hb]; [done|]. exfalso. apply H2. apply list_elem_of_fmap. exists (key, w). split; [done|]. apply view_elem. eauto.
Qed.

(** Removing an argument takes exactly it away when its value was written
    without escapes; when it was not, the map of raw values is searched for the
    key after the key was freed, which the map still uses. *)
Theorem remove_key_frees_too_early ma key : args_ok ma ->
  match prop_get (args ma) key with
  | None => pa_modargs_remove_key ma key = Ok (-1, ma)
  | Some v =>
      exists a, (a, v) ∈ ma_unescaped ma /\ ma_keys ma !! a = Some key /\
      (a ∈ (ma_raw ma).*1 -> pa_modargs_remove_key ma key = UB) /\
      (a ∉ (ma_raw ma).*1 -> exists ma', pa_modargs_remove_key ma key = Ok (0, ma') /\ args ma' = filter (fun x => x.1 <> key) (args ma))
  end.
Proof.
  intros H. unfold pa_modargs_remove_key. destruct (prop_get (args ma) key) as [v|] eqn:Hg; [|by rewrite entry_remove_none by (done || apply H)].
  destruct (entry_remove_some _ _ _ _ (ao_alive _ H) Hg) as (a & l1 & l2 & El & Ea & E). rewrite E. cbn [mbind outcome_bind].
  assert ((a, v) ∈ ma_unescaped ma) as Hin by (rewrite El; set_solver).
  assert (forall x, x ∈ ma_raw ma -> x.1 <> a -> exists k, ma_keys ma !! x.1 = Some k /\ k <> key) as Hraw.
  { intros [b w] Hx Hb. simpl in Hb. destruct (proj1 (Forall_forall _ _) (ao_raw _ H) _ Hx) as [Hu _]. simpl in Hu.
    destruct (proj1 (Forall_forall _ _) (ao_alive _ H) _ Hu) as [k Ek]. simpl in Ek. exists k. split; [done|]. intros ->.
    apply Hb. by apply (same_key ma b a (pa_unescape w) v key). }
  exists a. split_and!; [done|done| |].
  - intros Ha. rewrite entry_remove_freed; [done|done|]. apply Forall_forall. auto.
  - intros Ha. destruct (args_split ma l1 a v l2 key H El Ea) as [Hn Eargs].
    assert (alive (delete a (ma_keys ma)) (ma_raw ma) /\ prop_get (view (delete a (ma_keys ma)) (ma_raw ma)) key = None) as [Hal Hno].
    { assert (forall x, x ∈ ma_raw ma -> x.1 <> a) as Hne by (intros x Hx Ex; apply Ha; rewrite <- Ex; by apply (list_elem_of_fmap_2 fst)). split.
      - apply Forall_forall. intros x Hx. rewrite lookup_delete_ne by (apply not_eq_sym; auto). destruct (Hraw x Hx (Hne x Hx)) as (k & -> & _). eauto.
      - rewrite prop_get_map. apply not_elem_of_list_to_map_1. intros ([k w] & -> & Hx)%list_elem_of_fmap. apply view_elem in Hx as (b & Hx & Eb).
        destruct (Hraw _ Hx (Hne _ Hx)) as (k' & Ek' & Hk'). simpl in *. rewrite lookup_delete_ne in Eb by (apply not_eq_sym; exact (Hne _ Hx)). congruence. }
    rewrite entry_remove_none by done. cbn [mbind outcome_bind]. eexists. split; [done|]. unfold args at 1. simpl ma_keys. simpl ma_unescaped.
    pose proof (ao_keys _ H) as Hnk. rewrite Eargs in Hnk |- *. rewrite fmap_app, fmap_cons in Hnk. apply NoDup_app in Hnk as (_ & N1 & N2). apply NoDup_cons in N2 as [N2 _].
    rewrite filter_app, filter_cons_False by (simpl; tauto).
    rewrite (view_ext _ (ma_keys ma)) by (apply Forall_forall; intros x Hx; apply lookup_delete_ne; intros Ex; apply Hn; rewrite Ex, <- fmap_app; by apply (list_elem_of_fmap_2 fst)).
    rewrite view_app. f_equal; symmetry; apply filter_keeps; apply Forall_forall; intros x Hx Ex; apply (list_elem_of_fmap_2 fst) in Hx; rewrite Ex in Hx.
    + apply (N1 key); [done|simpl; set_solver].
    + by apply N2.
Qed.

(** ** Where the code goes wrong *)

(** Merging takes a value that is unescaped already and unescapes it again. *)
Lemma merge_unescapes_twice :
  (src ← pa_modargs_new (Some (str "x=a\\b")) None; src ← deref src;
   v ← pa_modargs_get_value src (str "x") None;
   '(_, dst) ← pa_modargs_merge_missing no_args src None;
   w ← pa_modargs_get_value dst (str "x") None; Ok (v, w)) = Ok (Some (str "a\b"), Some (str "ab")).
Proof. vm_compute. done. Qed.

(** The new alternate rate is not looked at; the old one is. *)
Lemma alternate_rate_unchecked :
  (ma ← pa_modargs_new (Some (str "alternate_rate=0")) None; ma ← deref ma; pa_modargs_get_alternate_sample_rate ma 48000) = Ok (0, 0).
Proof. vm_compute. done. Qed.

(** ** Witnesses *)

Lemma parsed_ok text ma : pa_modargs_new (Some text) None = Ok (Some ma) -> args_ok ma.
Proof.
  intros E. destruct (new_safe (Some text) None) as (o & Eo & Ho). rewrite E in Eo. injection Eo as <-. by apply Ho.
Qed.

Definition example_args : pa_modargs :=
  Eval vm_compute in match pa_modargs_new (Some (str "rate=48000 channels=6 format=s16le name=a\ b")) None with Ok (Some ma) => ma | _ => no_args end.
Lemma example_args_ok : args_ok example_args.
Proof. apply (parsed_ok (str "rate=48000 channels=6 format=s16le name=a\ b")). vm_compute. reflexivity. Qed.

Lemma modargs_roundtrip_witness :
  exists ma, pa_modargs_new (Some (str "sink='it\'s' iface='C:\\' ")) (Some [str "iface"; str "sink"]) = Ok (Some ma) /\
    pa_modargs_get_value ma (str "iface") (Some (str "mon0")) = Ok (Some (str "C:\")).
Proof.
  destruct (modargs_roundtrip (Some [str "iface"; str "sink"]) "'"%ch [(str "sink", str "it's"); (str "iface", str "C:\")]) as (ma & E & G).
  - by right.
  - apply (bool_decide_unpack _). vm_compute. exact I.
  - repeat (apply Forall_cons_2; [split; [discriminate|split; [unfold key_char; apply (bool_decide_unpack _); vm_compute; exact I|simpl; apply (bool_decide_unpack _); vm_compute; exact I]]|]).
    apply Forall_nil_2.
  - exists ma. split; [refine (eq_trans _ E); reflexivity|]. refine (eq_trans (G _ _) _). reflexivity.
Defined.

Lemma spec_and_map_agree_witness : exists r ss map,
  pa_modargs_get_sample_spec_and_channel_map example_args (mk_sample_spec PA_SAMPLE_U8 44100 2) pa_channel_map_init_stereo PA_CHANNEL_MAP_AIFF = Ok (r, ss, map) /\
  r = 0 /\ channels map = ss_channels ss.
Proof.
  destruct (spec_and_map_agree example_args (mk_sample_spec PA_SAMPLE_U8 44100 2) pa_channel_map_init_stereo PA_CHANNEL_MAP_AIFF example_args_ok) as (r & ss & map & E & H).
  exists r, ss, map. split; [exact E|]. destruct H as [(H1 & _ & _ & H2 & _)|(H1 & _)]; [by split|]. subst r. vm_compute in E. discriminate E.
Defined.

Lemma remove_key_frees_too_early_witness : pa_modargs_remove_key example_args (str "name") = UB /\
  exists ma, pa_modargs_remove_key example_args (str "rate") = Ok (0, ma).
Proof.
  pose proof (remove_key_frees_too_early example_args (str "name") example_args_ok) as H1.
  pose proof (remove_key_frees_too_early example_args (str "rate") example_args_ok) as H2.
  assert (prop_get (args example_args) (str "name") = Some (str "a b")) as E1 by (vm_compute; reflexivity).
  assert (prop_get (args example_args) (str "rate") = Some (str "48000")) as E2 by (vm_compute; reflexivity).
  rewrite E1 in H1. rewrite E2 in H2. destruct H1 as (a & Ha & Ea & H1 & _). destruct H2 as (b & Hb & Eb & _ & H2). split.
  - apply H1. change (ma_unescaped example_args) with [(0%nat, str "48000"); (1%nat, str "6"); (2%nat, str "s16le"); (3%nat, str "a b")] in Ha.
    assert (a = 3%nat) as -> by set_solver. change ((ma_raw example_args).*1) with [3%nat]. set_solver.
  - destruct H2 as (ma & E & _); [|by exists ma]. change (ma_unescaped example_args) with [(0%nat, str "48000"); (1%nat, str "6"); (2%nat, str "s16le"); (3%nat, str "a b")] in Hb.
    assert (b = 0%nat) as -> by set_solver. change ((ma_raw example_args).*1) with [3%nat]. set_solver.
Defined.

Lemma modargs_parse_safe_witness : exists ma ma',
  pa_modargs_new (Some (str "iface=wlan0")) (Some [str "iface"; str "sink"]) = Ok (Some ma) /\
  pa_modargs_get_value ma (str "rate") None = Ok None /\
  pa_modargs_append ma (str "iface=mon1 sink=x") (Some [str "iface"; str "sink"]) = Ok (0, ma') /\ args ma `prefix_of` args ma'.
Proof.
  destruct (modargs_parse_safe (str "iface=wlan0") (str "iface=mon1 sink=x") (Some [str "iface"; str "sink"])) as (o & E & H).
  destruct o as [ma|]; [|clear H; vm_compute in E; discriminate E]. destruct (H ma eq_refl) as (_ & _ & Hk & r & ma' & Ea & _ & _ & Hp).
  exists ma, ma'. split; [exact E|]. split; [apply Hk; simpl; by apply (bool_decide_unpack _)|]. split; [|exact Hp].
  assert (r = 0) as <-; [|exact Ea]. clear H Hk Hp. vm_compute in E. injection E as <-. vm_compute in Ea. by injection Ea.
Defined.
