(* ===== verification/Json.v ===== *)
(** * Json: the parser of JSON texts

    Models [src/pulse/json.c].  A string is the list of its bytes without the final
    zero, and a pointer into it is what follows: at the end of the list [*str] is
    the zero, and going on from there is undefined behaviour.

    An object of the C code is a tree.  What a parser does with memory is kept in
    a counter of the objects that were made and not freed, and beside it the code's
    losses are counted, objects that no pointer leads to any more.  The members of an object
    are in a hash map with strings as keys, which keeps the order of insertion and
    refuses a key it has ([HashmapProps]), the members of an array in an
    index set, by their position. *)
From stdpp Require Import base tactics numbers list strings.
From S2P Require Import Prelude Text.

Definition MAX_NESTING_DEPTH : Z := 20.

(** A floating-point value is the expression it is computed from:
    [(negative ? -1.0 : 1.0) * (integer + fraction / pow(10, fraction_digits)) * pow(10, exponent)]. *)
Record decimal := mk_decimal {
  dc_negative : bool;
  dc_integer : Z;
  dc_fraction : Z;
  dc_fraction_digits : Z;
  dc_exponent : Z
}.

Inductive pa_json_object :=
| JInit
| JNull
| JInt (int_value : Z)
| JDouble (double_value : decimal)
| JBool (bool_value : bool)
| JString (string_value : cstring)
| JArray (array_values : list pa_json_object)
| JObject (object_values : list (cstring * pa_json_object)).

Inductive pa_json_type :=
| PA_JSON_TYPE_INIT | PA_JSON_TYPE_NULL | PA_JSON_TYPE_INT | PA_JSON_TYPE_DOUBLE
| PA_JSON_TYPE_BOOL | PA_JSON_TYPE_STRING | PA_JSON_TYPE_ARRAY | PA_JSON_TYPE_OBJECT.

#[export] Instance pa_json_type_eq_dec : EqDecision pa_json_type.
Proof. solve_decision. Defined.

Definition pa_json_object_get_type (o : pa_json_object) : pa_json_type :=
  match o with
  | JInit => PA_JSON_TYPE_INIT | JNull => PA_JSON_TYPE_NULL | JInt _ => PA_JSON_TYPE_INT | JDouble _ => PA_JSON_TYPE_DOUBLE
  | JBool _ => PA_JSON_TYPE_BOOL | JString _ => PA_JSON_TYPE_STRING | JArray _ => PA_JSON_TYPE_ARRAY | JObject _ => PA_JSON_TYPE_OBJECT
  end.

(** Objects in memory, and those of them that are lost. *)
Record jheap := mk_jheap { jh_live : Z; jh_lost : Z }.

Definition json_object_new (h : jheap) : jheap := mk_jheap (jh_live h + 1) (jh_lost h).

Fixpoint pa_json_object_free (o : pa_json_object) (h : jheap) : jheap :=
  let h :=
    match o with
    | JArray l => (fix free_array (l : list pa_json_object) h := match l with [] => h | v :: l => free_array l (pa_json_object_free v h) end) l h
    | JObject l => (fix free_object (l : list (cstring * pa_json_object)) h := match l with [] => h | (_, v) :: l => free_object l (pa_json_object_free v h) end) l h
    | _ => h
    end in
  mk_jheap (jh_live h - 1) (jh_lost h).

(** [pa_hashmap_free] and [pa_idxset_free] with [pa_json_object_free]. *)
Fixpoint free_values (l : list pa_json_object) (h : jheap) : jheap :=
  match l with [] => h | v :: l => free_values l (pa_json_object_free v h) end.

Fixpoint nodes (o : pa_json_object) : Z :=
  1 + match o with
  | JArray l => (fix nodes_array (l : list pa_json_object) := match l with [] => 0 | v :: l => nodes v + nodes_array l end) l
  | JObject l => (fix nodes_object (l : list (cstring * pa_json_object)) := match l with [] => 0 | (_, v) :: l => nodes v + nodes_object l end) l
  | _ => 0
  end.

(** [pa_hashmap_put(values, key, value)], whose result is not looked at: a value that is refused is lost. *)
Definition put_member (key : cstring) (value : pa_json_object) (l : list (cstring * pa_json_object)) (h : jheap) : list (cstring * pa_json_object) * jheap :=
  if bool_decide (key ∈ l.*1) then (l, mk_jheap (jh_live h) (jh_lost h + nodes value)) else (l ++ [(key, value)], h).

(** ** Characters *)

Definition is_whitespace (c : Z) : bool := (c =? 9) || (c =? 10) || (c =? 13) || (c =? " "%ch).
Definition is_digit (c : Z) : bool := ("0"%ch <=? c) && (c <=? "9"%ch).

(** [*str] and [str++] *)
Definition cur (s : cstring) : Z := match s with [] => 0 | c :: _ => c end.
Definition adv (s : cstring) : outcome cstring := match s with [] => UB | _ :: s => Ok s end.

Definition is_end (c : Z) (end_ : option cstring) : bool :=
  match end_ with
  | None => c =? 0
  | Some e => bool_decide (c ∈ e)
  end.

Fixpoint skip_whitespace (s : cstring) : cstring :=
  match s with c :: s' => if is_whitespace c then skip_whitespace s' else s | [] => [] end.

(** ** Scalars

    A parser returns the pointer behind what it read, or null, and the object. *)

Fixpoint consume_string (s expect : cstring) {struct expect} : option cstring :=
  match expect with
  | [] => Some s
  | e :: expect => match s with c :: s => if c =? e then consume_string s expect else None | [] => None end
  end.

Definition parse_null (s : cstring) (obj : pa_json_object) : option cstring * pa_json_object :=
  match consume_string s (str "null") with Some s => (Some s, JNull) | None => (None, obj) end.

(** The second test is of [str], which is never null here. *)
Definition parse_boolean (s : cstring) (obj : pa_json_object) : option cstring * pa_json_object :=
  match consume_string s (str "true") with
  | Some tmp => (Some tmp, JBool true)
  | None => (consume_string s (str "false"), JBool false)
  end.

Definition json_unescape (c : Z) : option Z :=
  if (c =? 34) || (c =? "\"%ch) || (c =? "/"%ch) then Some c
  else if c =? "b"%ch then Some 8
  else if c =? "f"%ch then Some 12
  else if c =? "n"%ch then Some 10
  else if c =? "r"%ch then Some 13
  else if c =? "t"%ch then Some 9
  else None.

Fixpoint string_loop (s buf : cstring) : option (cstring * cstring) :=
  match s with
  | [] => None
  | c :: s =>
      if c =? 34 then Some (s, buf)
      else if negb (c =? "\"%ch) then
        if (c <? 0x20) || (0x7E <? c) then None else string_loop s (buf ++ [c])
      else
        match s with
        | [] => None
        | e :: s => match json_unescape e with Some x => string_loop s (buf ++ [x]) | None => None end
        end
  end.

Definition parse_string (s : cstring) (obj : pa_json_object) : outcome (option cstring * pa_json_object) :=
  s ← adv s;
  Ok (match string_loop s [] with Some (s, buf) => (Some s, JString buf) | None => (None, obj) end).

(** The three loops over digits: what was read last is what [add] makes of it; [None]: too large. *)
Fixpoint digit_loop (max : Z) (add : Z -> outcome Z) (s : cstring) (acc count : Z) : outcome (option (cstring * Z * Z)) :=
  match s with
  | c :: s' =>
      if is_digit c then
        if max / 10 <? acc then Ok None
        else acc ← add (acc * 10 + (c - "0"%ch)); digit_loop max add s' acc (count + 1)
      else Ok (Some (s, acc, count))
  | [] => Ok (Some ([], acc, count))
  end.

(** Unsigned numbers wrap around, signed ones must not overflow. *)
Definition add_unsigned (x : Z) : outcome Z := Ok (u32 x).
Definition add_signed (x : Z) : outcome Z := if x <=? INT_MAX then Ok x else UB.

Definition parse_integer (negative : bool) (s : cstring) : outcome (option (cstring * Z)) :=
  if cur s =? "0"%ch then s ← adv s; Ok (Some (s, 0))
  else
    r ← digit_loop (if negative then INT_MAX else UINT32_MAX) add_unsigned s 0 0;
    Ok (match r with Some (s, integer, count) => if count =? 0 then None else Some (s, integer) | None => None end).

(** With [has_fraction] the fraction and the number of its digits. *)
Definition parse_fraction (s : cstring) : outcome (option (cstring * bool * Z * Z)) :=
  if cur s =? "."%ch then
    s ← adv s;
    r ← digit_loop UINT32_MAX add_unsigned s 0 0;
    Ok (match r with Some (s, fraction, count) => if count =? 0 then None else Some (s, true, fraction, count) | None => None end)
  else Ok (Some (s, false, 0, 0)).

Definition parse_exponent (s : cstring) : outcome (option (cstring * bool * Z)) :=
  if (cur s =? "e"%ch) || (cur s =? "E"%ch) then
    s ← adv s;
    '(exponent_negative, s) ←
      (if cur s =? "-"%ch then s ← adv s; Ok (true, s) else if cur s =? "+"%ch then s ← adv s; Ok (false, s) else Ok (false, s));
    r ← digit_loop INT_MAX add_signed s 0 0;
    Ok (match r with
        | Some (s, exponent, count) => if count =? 0 then None else Some (s, true, if (exponent_negative : bool) then exponent * -1 else exponent)
        | None => None
        end)
  else Ok (Some (s, false, 0)).

Definition parse_number (s : cstring) (obj : pa_json_object) : outcome (option cstring * pa_json_object) :=
  '(negative, s) ← (if cur s =? "-"%ch then s ← adv s; Ok (true, s) else Ok (false, s));
  ri ← parse_integer negative s;
  match ri with
  | None => Ok (None, obj)
  | Some (s, integer) =>
      rf ← parse_fraction s;
      match rf with
      | None => Ok (None, obj)
      | Some (s, has_fraction, fraction, fraction_digits) =>
          re ← parse_exponent s;
          match re with
          | None => Ok (None, obj)
          | Some (s, has_exponent, exponent) =>
              Ok (Some s,
                if has_fraction || has_exponent then JDouble (mk_decimal negative integer fraction fraction_digits exponent)
                else JInt (s32 ((if (negative : bool) then -1 else 1) * integer)))
          end
      end
  end.

(** ** Values *)

(** [parse_value], the loop in it, and those of [parse_object] and [parse_array], which begin at the opening bracket
    or a comma.  Three rounds per character and three more are enough ([parse_total]). *)
Fixpoint parse_value (fuel : nat) (s : cstring) (end_ : option cstring) (depth : Z) (h : jheap) {struct fuel}
    : outcome (option (cstring * pa_json_object) * jheap) :=
  match fuel with
  | O => UB
  | S fuel =>
      let h := json_object_new h in
      if MAX_NESTING_DEPTH <? depth then Ok (None, pa_json_object_free JInit h)
      else value_loop fuel s end_ false JInit depth h
  end
with value_loop (fuel : nat) (s : cstring) (end_ : option cstring) (finish : bool) (o : pa_json_object) (depth : Z) (h : jheap) {struct fuel}
    : outcome (option (cstring * pa_json_object) * jheap) :=
  match fuel with
  | O => UB
  | S fuel =>
      let c := cur s in
      if is_end c end_ then
        if bool_decide (pa_json_object_get_type o = PA_JSON_TYPE_INIT) then Ok (None, pa_json_object_free o h) else Ok (Some (s, o), h)
      else if is_whitespace c then s ← adv s; value_loop fuel s end_ finish o depth h
      else if finish then Ok (None, pa_json_object_free o h)
      else
        '(r, o, h) ←
          (if c =? "n"%ch then let '(r, o) := parse_null s o in Ok (r, o, h)
           else if (c =? "t"%ch) || (c =? "f"%ch) then let '(r, o) := parse_boolean s o in Ok (r, o, h)
           else if c =? 34 then '(r, o) ← parse_string s o; Ok (r, o, h)
           else if is_digit c || (c =? "-"%ch) then '(r, o) ← parse_number s o; Ok (r, o, h)
           else if c =? "{"%ch then object_loop fuel s [] depth h
           else if c =? "["%ch then array_loop fuel s [] depth h
           else Ok (None, o, h));
        match r with
        | None => Ok (None, pa_json_object_free o h)
        | Some s => value_loop fuel s end_ true o depth h
        end
  end
with object_loop (fuel : nat) (s : cstring) (values : list (cstring * pa_json_object)) (depth : Z) (h : jheap) {struct fuel}
    : outcome (option cstring * pa_json_object * jheap) :=
  match fuel with
  | O => UB
  | S fuel =>
      if cur s =? "}"%ch then s ← adv s; Ok (Some s, JObject values, h)
      else
        s ← adv s;
        '(r, h) ← parse_value fuel s (Some (str ":")) (depth + 1) h;
        match r with
        | None => Ok (None, JInit, free_values values.*2 h)
        | Some (s, name) =>
            match name with
            | JString key =>
                s ← adv s;
                '(r, h) ← parse_value fuel s (Some (str ",}")) (depth + 1) h;
                match r with
                | None => Ok (None, JInit, pa_json_object_free name (free_values values.*2 h))
                | Some (s, value) =>
                    let '(values, h) := put_member key value values h in
                    object_loop fuel s values depth (pa_json_object_free name h)
                end
            | _ => Ok (None, JInit, pa_json_object_free name (free_values values.*2 h))
            end
        end
  end
with array_loop (fuel : nat) (s : cstring) (values : list pa_json_object) (depth : Z) (h : jheap) {struct fuel}
    : outcome (option cstring * pa_json_object * jheap) :=
  match fuel with
  | O => UB
  | S fuel =>
      if cur s =? "]"%ch then s ← adv s; Ok (Some s, JArray values, h)
      else
        s ← adv s;
        let s := skip_whitespace s in
        if cur s =? "]"%ch then s ← adv s; Ok (Some s, JArray values, h)
        else
          '(r, h) ← parse_value fuel s (Some (str ",]")) (depth + 1) h;
          match r with
          | None => Ok (None, JInit, free_values values h)
          | Some (s, value) => array_loop fuel s (values ++ [value]) depth h
          end
  end.

Definition parse_fuel (s : cstring) : nat := 3 * length s + 3.

Definition pa_json_parse (s : cstring) (h : jheap) : outcome (option pa_json_object * jheap) :=
  '(r, h) ← parse_value (parse_fuel s) s None 0 h;
  match r with
  | None => Ok (None, h)
  | Some (s, obj) => if negb (cur s =? 0) then Ok (None, pa_json_object_free obj h) else Ok (Some obj, h)
  end.

(** ** What a value is *)

Definition pa_json_object_get_int (o : pa_json_object) : outcome Z := match o with JInt n => Ok n | _ => Abort end.
Definition pa_json_object_get_double (o : pa_json_object) : outcome decimal := match o with JDouble x => Ok x | _ => Abort end.
Definition pa_json_object_get_bool (o : pa_json_object) : outcome bool := match o with JBool b => Ok b | _ => Abort end.
Definition pa_json_object_get_string (o : pa_json_object) : outcome cstring := match o with JString s => Ok s | _ => Abort end.

Fixpoint find_member (name : cstring) (l : list (cstring * pa_json_object)) : option pa_json_object :=
  match l with [] => None | (k, v) :: l => if bool_decide (k = name) then Some v else find_member name l end.

Definition pa_json_object_get_object_member (o : pa_json_object) (name : cstring) : outcome (option pa_json_object) :=
  match o with JObject l => Ok (find_member name l) | _ => Abort end.

Definition pa_json_object_get_array_length (o : pa_json_object) : outcome Z := match o with JArray l => Ok (Z.of_nat (length l)) | _ => Abort end.

Definition pa_json_object_get_array_member (o : pa_json_object) (index : Z) : outcome (option pa_json_object) :=
  match o with JArray l => Ok (l !! Z.to_nat (u32 index)) | _ => Abort end.

Section equal.
(** [PA_DOUBLE_IS_EQUAL] *)
Context (double_is_equal : decimal -> decimal -> bool).

Fixpoint pa_json_object_equal (o1 o2 : pa_json_object) {struct o1} : outcome bool :=
  if negb (bool_decide (pa_json_object_get_type o1 = pa_json_object_get_type o2)) then Ok false
  else match o1, o2 with
  | JNull, _ => Ok true
  | JBool b1, JBool b2 => Ok (Bool.eqb b1 b2)
  | JInt n1, JInt n2 => Ok (n1 =? n2)
  | JDouble x1, JDouble x2 => Ok (double_is_equal x1 x2)
  | JString s1, JString s2 => Ok (bool_decide (s1 = s2))
  | JArray l1, JArray l2 =>
      if negb (length l1 =? length l2)%nat then Ok false
      else (fix array_equal (l1 : list pa_json_object) (i : Z) {struct l1} : outcome bool :=
              match l1 with
              | [] => Ok true
              | v1 :: l1 =>
                  v2 ← pa_json_object_get_array_member o2 i;
                  v2 ← deref v2;
                  e ← pa_json_object_equal v1 v2;
                  if (e : bool) then array_equal l1 (i + 1) else Ok false
              end) l1 0
  | JObject l1, JObject l2 =>
      if negb (length l1 =? length l2)%nat then Ok false
      else (fix object_equal (l1 : list (cstring * pa_json_object)) {struct l1} : outcome bool :=
              match l1 with
              | [] => Ok true
              | (key, v1) :: l1 =>
                  v2 ← pa_json_object_get_object_member o2 key;
                  match v2 with
                  | None => Ok false
                  | Some v2 =>
                      e ← pa_json_object_equal v1 v2;
                      if (e : bool) then object_equal l1 else Ok false
                  end
              end) l1
  | _, _ => Abort
  end.
End equal.
