(* ===== verification/JsonText.v ===== *)
(** * JsonText: what a JSON text is

    The texts the parser accepts, as a grammar, and the parsers of strings and
    numbers against it.  The grammar is that of JSON but for what the code does
    otherwise: an array may end with a comma, an object is never empty, strings
    are of printable characters, and numbers wrap around. *)
From stdpp Require Import base tactics numbers list strings.
From S2P Require Import Prelude Text Json.

Definition ws (w : cstring) : Prop := Forall (fun c => is_whitespace c = true) w.

(** ** Strings *)

(** Between the quotes, and what it stands for. *)
Inductive string_text : cstring -> cstring -> Prop :=
| st_nil : string_text [] []
| st_char c raw s : 0x20 <= c <= 0x7E -> c <> 34 -> c <> "\"%ch -> string_text raw s -> string_text (c :: raw) (c :: s)
| st_escape e x raw s : json_unescape e = Some x -> string_text raw s -> string_text ("\"%ch :: e :: raw) (x :: s).

(** ** Numbers *)

Definition digits (ds : cstring) : Prop := Forall (fun c => is_digit c = true) ds.

(** The value the code gives to digits: it checks before a digit is added that there is room for one, and wraps around when there is not. *)
Fixpoint digits_value (max acc : Z) (ds : cstring) : option Z :=
  match ds with
  | [] => Some acc
  | c :: ds => if max / 10 <? acc then None else digits_value max (u32 (acc * 10 + (c - "0"%ch))) ds
  end.

(** The sign; zero, or digits that begin with another; a fraction; an exponent. *)
Inductive integer_text (negative : bool) : cstring -> Z -> Prop :=
| int_zero : integer_text negative ["0"%ch] 0
| int_digits c ds n : c <> "0"%ch -> digits (c :: ds) -> digits_value (if negative then INT_MAX else UINT32_MAX) 0 (c :: ds) = Some n ->
    integer_text negative (c :: ds) n.

Inductive fraction_text : cstring -> bool -> Z -> Z -> Prop :=
| frac_none : fraction_text [] false 0 0
| frac_digits ds n : ds <> [] -> digits ds -> digits_value UINT32_MAX 0 ds = Some n -> fraction_text ("."%ch :: ds) true n (Z.of_nat (length ds)).

Inductive sign_text : cstring -> bool -> Prop :=
| sign_none : sign_text [] false
| sign_plus : sign_text ["+"%ch] false
| sign_minus : sign_text ["-"%ch] true.

Inductive exponent_text : cstring -> bool -> Z -> Prop :=
| exp_none : exponent_text [] false 0
| exp_digits e sg neg ds n : e = "e"%ch \/ e = "E"%ch -> sign_text sg neg -> ds <> [] -> digits ds -> digits_value INT_MAX 0 ds = Some n -> n <= INT_MAX ->
    exponent_text (e :: sg ++ ds) true (if neg then n * -1 else n).

Inductive number_text : cstring -> pa_json_object -> Prop :=
| num_text negative it n ft hf f k et he x : integer_text negative it n -> fraction_text ft hf f k -> exponent_text et he x ->
    number_text ((if negative then ["-"%ch] else []) ++ it ++ ft ++ et)
      (if hf || he then JDouble (mk_decimal negative n f k x) else JInt (s32 ((if negative then -1 else 1) * n))).

(** ** Values *)

(** Members are put one after the other; a key that is there already stays as it is. *)
Fixpoint put_all (ms : list (cstring * pa_json_object)) (values : list (cstring * pa_json_object)) : list (cstring * pa_json_object) :=
  match ms with
  | [] => values
  | (k, v) :: ms => put_all ms (if bool_decide (k ∈ values.*1) then values else values ++ [(k, v)])
  end.

(** [padded d t v]: the text [t] of the value [v], [d] brackets deep, with white space around. *)
Inductive value_text : Z -> cstring -> pa_json_object -> Prop :=
| vt_null d : value_text d (str "null") JNull
| vt_true d : value_text d (str "true") (JBool true)
| vt_false d : value_text d (str "false") (JBool false)
| vt_string d raw s : string_text raw s -> value_text d (34 :: raw ++ [34]) (JString s)
| vt_number d t v : number_text t v -> value_text d t v
| vt_array d body l : items_text (d + 1) body l -> value_text d ("["%ch :: body ++ ["]"%ch]) (JArray l)
| vt_object d body ms : members_text (d + 1) body ms -> value_text d ("{"%ch :: body ++ ["}"%ch]) (JObject (put_all ms []))
with padded : Z -> cstring -> pa_json_object -> Prop :=
| pad d w1 core w2 v : d <= MAX_NESTING_DEPTH -> ws w1 -> ws w2 -> value_text d core v -> padded d (w1 ++ core ++ w2) v
with items_text : Z -> cstring -> list pa_json_object -> Prop :=
| it_none d w : ws w -> items_text d w []
| it_last d t v : padded d t v -> items_text d t [v]
| it_more d t v body l : padded d t v -> items_text d body l -> items_text d (t ++ ","%ch :: body) (v :: l)
with members_text : Z -> cstring -> list (cstring * pa_json_object) -> Prop :=
| mt_last d kt k vt v : padded d kt (JString k) -> padded d vt v -> members_text d (kt ++ ":"%ch :: vt) [(k, v)]
| mt_more d kt k vt v body ms : padded d kt (JString k) -> padded d vt v -> members_text d body ms ->
    members_text d (kt ++ ":"%ch :: vt ++ ","%ch :: body) ((k, v) :: ms).

Scheme value_text_mut := Induction for value_text Sort Prop
  with padded_mut := Induction for padded Sort Prop
  with items_text_mut := Induction for items_text Sort Prop
  with members_text_mut := Induction for members_text Sort Prop.
Combined Scheme text_mutind from value_text_mut, padded_mut, items_text_mut, members_text_mut.

(** ** The scalar parsers *)

Lemma skip_whitespace_spec s : exists w, s = w ++ skip_whitespace s /\ ws w /\ is_whitespace (cur (skip_whitespace s)) = false.
Proof.
  induction s as [|c s IH]; [exists []; split_and!; [done|constructor|done]|]. simpl. destruct (is_whitespace c) eqn:E; [|exists []; split_and!; [done|constructor|done]].
  destruct IH as (w & Es & Hw & Hc). exists (c :: w). split_and!; [simpl; by f_equal|by constructor|done].
Qed.

Lemma skip_whitespace_app w s : ws w -> is_whitespace (cur s) = false -> skip_whitespace (w ++ s) = s.
Proof. intros Hw Hs. induction Hw as [|c w Hc Hw IH]; simpl; [destruct s as [|c s]; simpl in *; [done|by rewrite Hs]|by rewrite Hc]. Qed.

Lemma consume_string_spec expect : forall s r, consume_string s expect = Some r <-> s = expect ++ r.
Proof.
  induction expect as [|e expect IH]; intros s r; simpl; [split; [by intros [= ->]|by intros ->]|]. destruct s as [|c s]; [by split|].
  destruct (Z.eqb_spec c e) as [->|Hc]; [rewrite IH; split; [by intros ->|by intros [= ->]]|]. by split; intros [=].
Qed.

Lemma string_loop_sound n : forall s buf r b, (length s <= n)%nat -> string_loop s buf = Some (r, b) -> exists raw x, s = raw ++ 34 :: r /\ string_text raw x /\ b = buf ++ x.
Proof.
  induction n as [|n IH]; intros s buf r b Hn E; (destruct s as [|c s]; [done|]); simpl in Hn; [lia|]. simpl in E.
  destruct (Z.eqb_spec c 34) as [->|H34]; [injection E as -> ->; exists [], []; rewrite app_nil_r; by repeat constructor|].
  destruct (Z.eqb_spec c "\"%ch) as [->|Hb]; simpl in E.
  - destruct s as [|e s]; [done|]. destruct (json_unescape e) as [x|] eqn:Ee; [|done]. simpl in Hn.
    destruct (IH s _ r b ltac:(lia) E) as (raw & y & -> & Ht & ->). exists ("\"%ch :: e :: raw), (x :: y). rewrite <- app_assoc. by repeat constructor.
  - destruct ((c <? 0x20) || (0x7E <? c)) eqn:Er; [done|]. apply orb_false_iff in Er as [E1%Z.ltb_ge E2%Z.ltb_ge].
    destruct (IH s _ r b ltac:(lia) E) as (raw & y & -> & Ht & ->). exists (c :: raw), (c :: y). rewrite <- app_assoc. by repeat constructor.
Qed.

Lemma string_loop_complete raw x : string_text raw x -> forall buf r, string_loop (raw ++ 34 :: r) buf = Some (r, buf ++ x).
Proof.
  induction 1 as [|c raw s Hc H1 H2 _ IH|e x raw s He _ IH]; intros buf r; cbn [app string_loop].
  - by rewrite app_nil_r.
  - destruct (Z.eqb_spec c 34); [done|]. destruct (Z.eqb_spec c "\"%ch); [done|]. simpl negb. cbn iota.
    destruct (Z.ltb_spec c 0x20); [lia|]. destruct (Z.ltb_spec 0x7E c); [lia|]. simpl. by rewrite IH, <- app_assoc.
  - simpl. by rewrite He, IH, <- app_assoc.
Qed.

(** *** Digits *)

Lemma digit_prefix s : exists ds rest, s = ds ++ rest /\ digits ds /\ is_digit (cur rest) = false.
Proof.
  induction s as [|c s (ds & rest & -> & Hd & Hr)]; [exists [], []; split_and!; [done|constructor|done]|]. destruct (is_digit c) eqn:E; [|exists [], (c :: ds ++ rest); split_and!; [done|constructor|done]].
  exists (c :: ds), rest. split_and!; [done|by constructor|done].
Qed.

Definition digits_read (rest : cstring) (count : Z) (n : option Z) : option (cstring * Z * Z) := match n with Some n => Some (rest, n, count) | None => None end.

Lemma digit_loop_unsigned max ds rest : digits ds -> is_digit (cur rest) = false -> forall acc k,
  digit_loop max add_unsigned (ds ++ rest) acc k = Ok (digits_read rest (k + Z.of_nat (length ds)) (digits_value max acc ds)).
Proof.
  intros Hd Hr. induction Hd as [|c ds Hc Hd IH]; intros acc k; cbn [app digit_loop digits_value].
  - rewrite Z.add_0_r. destruct rest as [|c rest]; [done|]. simpl in *. by rewrite Hr.
  - rewrite Hc. destruct (_ <? acc); [done|]. simpl. rewrite IH. do 2 f_equal. lia.
Qed.

Lemma digit_range c : is_digit c = true -> 0 <= c - "0"%ch <= 9.
Proof. unfold is_digit. rewrite andb_true_iff, !Z.leb_le. lia. Qed.

(** Exponents are signed: a digit added to the largest number that has room for one must not go over the limit. *)
Definition no_overflow (acc : Z) (ds : cstring) : Prop :=
  forall pre d post, ds = pre ++ d :: post -> digits_value INT_MAX acc pre = Some 214748364 -> d < "8"%ch.

Lemma digit_loop_signed ds rest : digits ds -> is_digit (cur rest) = false -> forall acc k, 0 <= acc <= INT_MAX -> no_overflow acc ds ->
  digit_loop INT_MAX add_signed (ds ++ rest) acc k = Ok (digits_read rest (k + Z.of_nat (length ds)) (digits_value INT_MAX acc ds)) /\
  (forall n, digits_value INT_MAX acc ds = Some n -> 0 <= n <= INT_MAX).
Proof.
  intros Hd Hr. induction Hd as [|c ds Hc Hd IH]; intros acc k Ha Hn; cbn [app digit_loop digits_value].
  - rewrite Z.add_0_r. split; [destruct rest as [|c rest]; [done|]; simpl in *; by rewrite Hr|]. by intros n [= <-].
  - rewrite Hc. change (INT_MAX / 10) with 214748364. destruct (Z.ltb_spec 214748364 acc) as [|Hl]; [done|]. pose proof (digit_range c Hc) as Hcr.
    assert (acc * 10 + (c - "0"%ch) <= INT_MAX) as Hle.
    { destruct (decide (acc = 214748364)) as [->|]; [|unfold INT_MAX; lia]. pose proof (Hn [] c ds eq_refl eq_refl). unfold INT_MAX. lia. }
    assert (add_signed (acc * 10 + (c - "0"%ch)) = Ok (acc * 10 + (c - "0"%ch))) as -> by (unfold add_signed; by rewrite (proj2 (Z.leb_le _ _) Hle)). cbn [mbind outcome_bind].
    rewrite u32_small by (unfold INT_MAX in Hle; lia). destruct (IH (acc * 10 + (c - "0"%ch)) (k + 1)) as [-> Hv]; [lia| |].
    + intros pre d post -> Hp. apply (Hn (c :: pre) d post eq_refl). cbn [digits_value]. change (INT_MAX / 10) with 214748364. destruct (Z.ltb_spec 214748364 acc); [lia|].
      rewrite u32_small by (unfold INT_MAX in Hle; lia). done.
    + split; [do 2 f_equal; simpl; lia|done].
Qed.

(** The digits of an exponent that overflows. *)
Definition big_exponent (s : cstring) : Prop := exists pre d post, s = pre ++ str "214748364" ++ d :: post /\ (d = "8"%ch \/ d = "9"%ch).

Lemma big_exponent_app a s b : big_exponent s -> big_exponent (a ++ s ++ b).
Proof. intros (pre & d & post & -> & Hd). exists (a ++ pre), d, (post ++ b). split; [|done]. rewrite <- !app_assoc. simpl. done. Qed.

Lemma big_exponent_tail a s : ~ big_exponent (a ++ s) -> ~ big_exponent s.
Proof. intros H Hb. apply H. rewrite <- (app_nil_r s). by apply big_exponent_app. Qed.

Lemma digits_value_snoc max acc ds c : digits_value max acc (ds ++ [c]) =
  match digits_value max acc ds with Some m => if max / 10 <? m then None else Some (u32 (m * 10 + (c - "0"%ch))) | None => None end.
Proof. revert acc. induction ds as [|x ds IH]; intros acc; cbn [app digits_value]; [done|]. destruct (_ <? acc); [done|apply IH]. Qed.

Lemma digits_value_nonneg max ds n : digits_value max 0 ds = Some n -> 0 <= n.
Proof.
  destruct ds as [|c ds _] using rev_ind; [by intros [= <-]|]. rewrite digits_value_snoc. destruct (digits_value max 0 ds); [|done]. destruct (_ <? _); [done|]. intros [= <-].
  apply Z.mod_pos_bound. lia.
Qed.

Lemma last_digit n ds : digits ds -> digits_value INT_MAX 0 ds = Some n -> 0 < n ->
  exists ds', ds = ds' ++ ["0"%ch + n mod 10] /\ digits ds' /\ digits_value INT_MAX 0 ds' = Some (n / 10).
Proof.
  destruct ds as [|c ds _] using rev_ind; [intros _ [= <-]; lia|]. intros [Hd Hc]%Forall_app. apply Forall_singleton, digit_range in Hc. rewrite digits_value_snoc.
  destruct (digits_value INT_MAX 0 ds) as [m|] eqn:E; [|done]. change (INT_MAX / 10) with 214748364. pose proof (digits_value_nonneg _ _ _ E). destruct (Z.ltb_spec 214748364 m); [done|].
  rewrite u32_small by lia. intros [= <-] Hn. exists ds. split_and!; [|done|].
  - rewrite <- (Z.mod_unique_pos (m * 10 + (c - "0"%ch)) 10 m (c - "0"%ch)) by lia. do 2 f_equal. lia.
  - by rewrite <- (Z.div_unique_pos (m * 10 + (c - "0"%ch)) 10 m (c - "0"%ch)) by lia.
Qed.

Lemma no_overflow_digits ds : digits ds -> ~ big_exponent ds -> no_overflow 0 ds.
Proof.
  intros Hd Hb pre d post -> Hv. apply Forall_app in Hd as [Hp [Hd _]%Forall_cons]. apply digit_range in Hd. destruct (Z.lt_ge_cases d "8"%ch) as [|H8]; [done|]. destruct Hb.
  exists (take (length pre - 9) pre), d, post. split; [|lia]. rewrite app_assoc. f_equal.
  do 9 (destruct (last_digit _ pre Hp Hv) as (pre' & -> & Hp' & Hv'); [by vm_compute|]; clear Hp Hv; rename pre' into pre, Hp' into Hp, Hv' into Hv).
  rewrite <- !app_assoc, take_app_length'; [done|]. rewrite length_app. simpl. lia.
Qed.

(** *** Numbers *)

(** What ends a number. *)
Definition stops (c : Z) : Prop := is_digit c = false /\ c <> "."%ch /\ c <> "e"%ch /\ c <> "E"%ch.

Lemma digits_nonempty {A} (l : list A) : Z.of_nat (length l) <> 0 <-> l <> [].
Proof. destruct l; simpl; split; (done || lia || congruence). Qed.

Lemma parse_integer_sound negative s : exists r, parse_integer negative s = Ok r /\
  forall rest n, r = Some (rest, n) -> exists it, s = it ++ rest /\ integer_text negative it n.
Proof.
  unfold parse_integer. destruct (Z.eqb_spec (cur s) "0"%ch) as [E|E].
  - destruct s as [|c s]; [done|]. simpl in E. subst c. eexists. split; [done|]. intros rest n [= -> <-]. exists ["0"%ch]. by split; [|constructor].
  - destruct (digit_prefix s) as (ds & rest & -> & Hd & Hr). rewrite digit_loop_unsigned by done. eexists. split; [done|]. intros rest' n. unfold digits_read.
    destruct (digits_value _ 0 ds) as [m|] eqn:Ev; [|done]. destruct (Z.eqb_spec (0 + Z.of_nat (length ds)) 0); [done|]. intros [= -> ->]. exists ds. split; [done|].
    destruct ds as [|c ds]; [simpl in *; lia|]. by constructor.
Qed.

Lemma parse_integer_complete negative it n rest : integer_text negative it n -> is_digit (cur rest) = false -> parse_integer negative (it ++ rest) = Ok (Some (rest, n)).
Proof.
  intros Hi Hr. destruct Hi as [|c ds n Hc Hd Hv]; [done|]. unfold parse_integer. simpl cur. destruct (Z.eqb_spec c "0"%ch); [done|].
  rewrite digit_loop_unsigned by done. cbn [mbind outcome_bind]. rewrite Hv. unfold digits_read. destruct (Z.eqb_spec (0 + Z.of_nat (length (c :: ds))) 0); [simpl in *; lia|done].
Qed.

Lemma parse_fraction_sound s : exists r, parse_fraction s = Ok r /\
  forall rest hf f k, r = Some (rest, hf, f, k) -> exists ft, s = ft ++ rest /\ fraction_text ft hf f k.
Proof.
  unfold parse_fraction. destruct (Z.eqb_spec (cur s) "."%ch) as [E|E].
  - destruct s as [|c s]; [done|]. simpl in E. subst c. cbn [adv mbind outcome_bind]. destruct (digit_prefix s) as (ds & rest & -> & Hd & Hr). rewrite digit_loop_unsigned by done.
    eexists. split; [done|]. intros rest' hf f k. unfold digits_read. destruct (digits_value _ 0 ds) as [m|] eqn:Ev; [|done].
    destruct (Z.eqb_spec (0 + Z.of_nat (length ds)) 0) as [|Hn]; [done|]. intros [= -> <- -> <-]. exists ("."%ch :: ds). split; [done|]. constructor; [by apply digits_nonempty|done..].
  - eexists. split; [done|]. intros rest hf f k [= -> <- <- <-]. exists []. by split; [|constructor].
Qed.

Lemma parse_fraction_complete ft hf f k rest : fraction_text ft hf f k -> is_digit (cur rest) = false -> cur rest <> "."%ch -> parse_fraction (ft ++ rest) = Ok (Some (rest, hf, f, k)).
Proof.
  intros Hf Hr Hp. destruct Hf as [|ds n Hne Hd Hv]; unfold parse_fraction; simpl cur.
  - destruct (Z.eqb_spec (cur rest) "."%ch); [done|]. done.
  - cbn [Z.eqb Pos.eqb adv app mbind outcome_bind]. rewrite digit_loop_unsigned by done. cbn [mbind outcome_bind]. rewrite Hv. unfold digits_read. apply digits_nonempty in Hne.
    destruct (Z.eqb_spec (0 + Z.of_nat (length ds)) 0); [lia|done].
Qed.

Lemma read_sign s : exists neg sg rest, s = sg ++ rest /\ sign_text sg neg /\
  (if cur s =? "-"%ch then s ← adv s; Ok (true, s) else if cur s =? "+"%ch then s ← adv s; Ok (false, s) else Ok (false, s)) = Ok (neg, rest).
Proof.
  destruct s as [|c s]; [exists false, [], []; by repeat constructor|]. cbn [cur]. destruct (Z.eqb_spec c "-"%ch) as [->|]; [exists true, ["-"%ch], s; by repeat constructor|].
  destruct (Z.eqb_spec c "+"%ch) as [->|]; [exists false, ["+"%ch], s; by repeat constructor|]. exists false, [], (c :: s). by repeat constructor.
Qed.

Lemma parse_exponent_sound s : ~ big_exponent s -> exists r, parse_exponent s = Ok r /\
  forall rest he x, r = Some (rest, he, x) -> exists et, s = et ++ rest /\ exponent_text et he x.
Proof.
  intros Hb. unfold parse_exponent. destruct ((cur s =? "e"%ch) || (cur s =? "E"%ch)) eqn:E.
  - destruct s as [|c s]; [done|]. cbn [adv mbind outcome_bind]. destruct (read_sign s) as (neg & sg & s' & Es & Hs & ->). cbn [mbind outcome_bind].
    destruct (digit_prefix s') as (ds & rest & -> & Hd & Hr). subst s. destruct (digit_loop_signed ds rest Hd Hr 0 0) as [-> Hle]; [unfold INT_MAX; lia| |].
    { apply no_overflow_digits; [done|]. intros H. apply Hb. by apply (big_exponent_app (c :: sg)). }
    eexists. split; [done|]. intros rest' he x. unfold digits_read. destruct (digits_value _ 0 ds) as [m|] eqn:Ev; [|done].
    destruct (Z.eqb_spec (0 + Z.of_nat (length ds)) 0) as [|Hn]; [done|]. intros [= -> <- <-]. exists (c :: sg ++ ds). split; [simpl; by rewrite <- app_assoc|].
    constructor; try done; [|by apply digits_nonempty|by apply Hle]. apply orb_true_iff in E as [E%Z.eqb_eq|E%Z.eqb_eq]; simpl in E; auto.
  - eexists. split; [done|]. intros rest he x [= -> <- <-]. exists []. by split; [|constructor].
Qed.

Lemma digits_head ds rest : ds <> [] -> digits ds -> is_digit (cur (ds ++ rest)) = true.
Proof. intros Hne Hd. destruct Hd; done. Qed.

Lemma sign_read sg neg s : sign_text sg neg -> is_digit (cur s) = true ->
  (if cur (sg ++ s) =? "-"%ch then s ← adv (sg ++ s); Ok (true, s) else if cur (sg ++ s) =? "+"%ch then s ← adv (sg ++ s); Ok (false, s) else Ok (false, sg ++ s)) = Ok (neg, s).
Proof.
  intros Hs Hd. destruct Hs; [|done..]. apply digit_range in Hd. simpl. destruct (Z.eqb_spec (cur s) "-"%ch); [lia|]. destruct (Z.eqb_spec (cur s) "+"%ch); [lia|done].
Qed.

(** Digits whose value has not overflowed at the end have not before. *)
Lemma no_overflow_value ds n : digits ds -> digits_value INT_MAX 0 ds = Some n -> n <= INT_MAX -> no_overflow 0 ds.
Proof.
  intros Hd Hv Hn pre d post -> Hp. apply Forall_app in Hd as [_ [Hd _]%Forall_cons]. apply digit_range in Hd. destruct (Z.lt_ge_cases d "8"%ch) as [|H8]; [done|].
  assert (forall a l acc, digits_value INT_MAX acc (a ++ l) = match digits_value INT_MAX acc a with Some m => digits_value INT_MAX m l | None => None end) as Happ.
  { induction a as [|x a IH]; intros l acc; cbn [app digits_value]; [done|]. destruct (_ <? acc); [done|apply IH]. }
  rewrite Happ, Hp in Hv. cbn [digits_value] in Hv. change (INT_MAX / 10) with 214748364 in Hv. cbn [Z.ltb Z.compare Pos.compare Pos.compare_cont] in Hv.
  rewrite u32_small in Hv by lia. destruct post as [|x post]; cbn [digits_value] in Hv.
  - injection Hv as <-. unfold INT_MAX in Hn. lia.
  - change (INT_MAX / 10) with 214748364 in Hv. destruct (Z.ltb_spec 214748364 (214748364 * 10 + (d - "0"%ch))); [done|lia].
Qed.

Lemma parse_exponent_complete et he x rest : exponent_text et he x -> stops (cur rest) -> parse_exponent (et ++ rest) = Ok (Some (rest, he, x)).
Proof.
  intros He (Hr & _ & H1 & H2). destruct He as [|e sg neg ds n Hc Hs Hne Hd Hv Hn]; unfold parse_exponent.
  - simpl app. destruct (Z.eqb_spec (cur rest) "e"%ch); [done|]. by destruct (Z.eqb_spec (cur rest) "E"%ch).
  - assert ((cur ((e :: sg ++ ds) ++ rest) =? "e"%ch) || (cur ((e :: sg ++ ds) ++ rest) =? "E"%ch) = true) as -> by (simpl; by destruct Hc as [->| ->]).
    cbn [adv app mbind outcome_bind]. rewrite <- app_assoc, (sign_read sg neg) by (done || by apply digits_head). cbn [mbind outcome_bind].
    destruct (digit_loop_signed ds rest Hd Hr 0 0) as [-> _]; [unfold INT_MAX; lia|by eapply no_overflow_value|]. cbn [mbind outcome_bind]. rewrite Hv. unfold digits_read.
    apply digits_nonempty in Hne. destruct (Z.eqb_spec (0 + Z.of_nat (length ds)) 0); [lia|done].
Qed.

Lemma parse_number_sound s o : ~ big_exponent s -> exists r o', parse_number s o = Ok (r, o') /\
  match r with Some rest => exists core, s = core ++ rest /\ number_text core o' | None => o' = o end.
Proof.
  intros Hb. unfold parse_number.
  assert (exists negative s', s = (if negative : bool then ["-"%ch] else []) ++ s' /\ (if cur s =? "-"%ch then s ← adv s; Ok (true, s) else Ok (false, s)) = Ok (negative, s'))
    as (negative & s1 & Es & ->).
  { destruct (Z.eqb_spec (cur s) "-"%ch) as [E|]; [|by exists false, s]. destruct s as [|c s]; [done|]. simpl in E. subst c. by exists true, s. }
  cbn [mbind outcome_bind]. destruct (parse_integer_sound negative s1) as (ri & -> & Hi). cbn [mbind outcome_bind]. destruct ri as [[s2 n]|]; [|by exists None, o].
  destruct (Hi s2 n eq_refl) as (it & -> & Hit). destruct (parse_fraction_sound s2) as (rf & -> & Hf). cbn [mbind outcome_bind]. destruct rf as [[[[s3 hf] f] k]|]; [|by exists None, o].
  destruct (Hf s3 hf f k eq_refl) as (ft & -> & Hft). destruct (parse_exponent_sound s3) as (re & -> & He).
  { subst s. rewrite !app_assoc in Hb. by apply big_exponent_tail in Hb. }
  cbn [mbind outcome_bind]. destruct re as [[[s4 he] x]|]; [|by exists None, o]. destruct (He s4 he x eq_refl) as (et & -> & Het).
  eexists _, _. split; [done|]. cbn beta iota. eexists ((if negative then ["-"%ch] else []) ++ it ++ ft ++ et). split; [rewrite Es, <- !app_assoc; done|]. by constructor.
Qed.

Lemma integer_head negative it n rest : integer_text negative it n -> is_digit (cur (it ++ rest)) = true.
Proof. intros [|c ds m _ Hd _]; [done|]. by apply Forall_cons in Hd as [Hd _]. Qed.

Lemma number_head core v rest : number_text core v -> is_digit (cur (core ++ rest)) || (cur (core ++ rest) =? "-"%ch) = true.
Proof. intros [negative it n ft hf f k et he x Hi _ _]. destruct negative; [apply orb_true_r|]. simpl. rewrite <- app_assoc. by erewrite integer_head. Qed.

Lemma parse_number_complete core v rest o : number_text core v -> stops (cur rest) -> parse_number (core ++ rest) o = Ok (Some rest, v).
Proof.
  intros [negative it n ft hf f k et he x Hi Hf He] Hr. unfold parse_number. pose proof Hr as (R1 & R2 & R3 & R4).
  assert (is_digit (cur (et ++ rest)) = false /\ cur (et ++ rest) <> "."%ch) as [E1 E2] by (destruct He as [|e ? ? ? ? [->| ->]]; done).
  assert (is_digit (cur (ft ++ et ++ rest)) = false) as F1 by (destruct Hf; done).
  assert ((if cur (((if negative then ["-"%ch] else []) ++ it ++ ft ++ et) ++ rest) =? "-"%ch then s ← adv (((if negative then ["-"%ch] else []) ++ it ++ ft ++ et) ++ rest); Ok (true, s)
    else Ok (false, ((if negative then ["-"%ch] else []) ++ it ++ ft ++ et) ++ rest)) = Ok (negative, it ++ ft ++ et ++ rest)) as ->.
  { destruct negative; rewrite <- !app_assoc; [done|]. simpl app. pose proof (integer_head _ _ _ (ft ++ et ++ rest) Hi) as Hd. apply digit_range in Hd.
    destruct (Z.eqb_spec (cur (it ++ ft ++ et ++ rest)) "-"%ch); [lia|done]. }
  cbn [mbind outcome_bind]. rewrite (parse_integer_complete _ _ _ _ Hi F1). cbn [mbind outcome_bind]. rewrite (parse_fraction_complete _ _ _ _ _ Hf E1 E2). cbn [mbind outcome_bind].
  rewrite (parse_exponent_complete _ _ _ _ He Hr). done.
Qed.

(** A number that fits is read as it is written. *)
Lemma digits_value_exact max ds acc : 0 <= acc -> max <= UINT32_MAX -> digits ds -> foldl (fun a c => a * 10 + (c - "0"%ch)) acc ds <= max ->
  digits_value max acc ds = Some (foldl (fun a c => a * 10 + (c - "0"%ch)) acc ds).
Proof.
  intros Ha Hm Hd. revert acc Ha. induction Hd as [|c ds Hc Hd IH]; intros acc Ha Hl; [done|]. apply digit_range in Hc. cbn [digits_value foldl] in *.
  assert (forall l a, 0 <= a -> digits l -> a <= foldl (fun a c => a * 10 + (c - "0"%ch)) a l) as Hmono.
  { induction l as [|x l IHl]; intros a Hp Hl'; [done|]. apply Forall_cons in Hl' as [Hx%digit_range Hl']. simpl. etransitivity; [|apply IHl; [lia|done]]. lia. }
  pose proof (Hmono ds (acc * 10 + (c - "0"%ch)) ltac:(lia) Hd). destruct (Z.ltb_spec (max / 10) acc) as [H1|H1].
  - pose proof (Z.div_mod max 10 ltac:(lia)). pose proof (Z.mod_pos_bound max 10 ltac:(lia)). lia.
  - rewrite u32_small by (unfold UINT32_MAX in Hm; lia). apply IH; [lia|done].
Qed.
