(* ===== verification/JsonProps.v ===== *)
(** * JsonProps: the parser of JSON texts is right

    It accepts exactly the texts of the grammar, returns on every text, reads
    nothing behind the end, and frees what it does not return. *)
From stdpp Require Import base tactics numbers list strings.
From S2P Require Import Prelude Text Json JsonText.

(** ** Memory *)

Lemma json_ind' (P : pa_json_object -> Prop) : P JInit -> P JNull -> (forall n, P (JInt n)) -> (forall x, P (JDouble x)) -> (forall b, P (JBool b)) -> (forall s, P (JString s)) ->
  (forall l, Forall P l -> P (JArray l)) -> (forall l, Forall P l.*2 -> P (JObject l)) -> forall o, P o.
Proof.
  intros H1 H2 H3 H4 H5 H6 H7 H8. fix IH 1. intros [| | | | | |l|l]; [done|done|done|done|done|done|apply H7|apply H8].
  - induction l as [|v l IHl]; constructor; [apply IH|apply IHl].
  - induction l as [|[k v] l IHl]; constructor; [apply IH|apply IHl].
Qed.

Lemma nodes_array l : nodes (JArray l) = 1 + sumZ (nodes <$> l).
Proof. cbn [nodes]. f_equal. induction l as [|v l IH]; [done|]. by rewrite fmap_cons, IH. Qed.

Lemma nodes_object l : nodes (JObject l) = 1 + sumZ (nodes <$> l.*2).
Proof. cbn [nodes]. f_equal. induction l as [|[k v] l IH]; [done|]. by rewrite !fmap_cons, IH. Qed.

(** Freeing a value frees all of it. *)
Lemma free_eq o : forall h, pa_json_object_free o h = mk_jheap (jh_live h - nodes o) (jh_lost h).
Proof.
  assert (forall l h, Forall (fun o => forall h, pa_json_object_free o h = mk_jheap (jh_live h - nodes o) (jh_lost h)) l -> free_values l h = mk_jheap (jh_live h - sumZ (nodes <$> l)) (jh_lost h))
    as Hl.
  { intros l h Hf. revert h. induction Hf as [|v l Hv _ IH]; intros h; cbn [free_values]; [destruct h; simpl; f_equal; lia|].
    rewrite Hv, IH, fmap_cons. cbn [jh_live jh_lost]. change (sumZ (nodes v :: (nodes <$> l))) with (nodes v + sumZ (nodes <$> l)). f_equal. lia. }
  induction o as [| | | | | |l IH|l IH] using json_ind'; intros h; try done.
  - change (pa_json_object_free (JArray l) h) with (mk_jheap (jh_live (free_values l h) - 1) (jh_lost (free_values l h))). rewrite Hl, nodes_array by done. simpl. f_equal. lia.
  - assert (pa_json_object_free (JObject l) h = mk_jheap (jh_live (free_values l.*2 h) - 1) (jh_lost (free_values l.*2 h))) as ->.
    { cbn [pa_json_object_free]. f_equal; f_equal; clear; revert h; induction l as [|[k v] l IHl]; intros h; try done; apply IHl. }
    rewrite Hl, nodes_object by done. simpl. f_equal. lia.
Qed.

Lemma free_values_eq l : forall h, free_values l h = mk_jheap (jh_live h - sumZ (nodes <$> l)) (jh_lost h).
Proof.
  induction l as [|v l IH]; intros h; cbn [free_values]; [destruct h; simpl; f_equal; lia|]. rewrite free_eq, IH, fmap_cons. cbn [jh_live jh_lost].
  change (sumZ (nodes v :: (nodes <$> l))) with (nodes v + sumZ (nodes <$> l)). f_equal. lia.
Qed.

(** The objects somebody refers to. *)
Definition held (h : jheap) : Z := jh_live h - jh_lost h.

Lemma nodes_pos o : 0 < nodes o.
Proof.
  assert (forall l, Forall (fun o => 0 < nodes o) l -> 0 <= sumZ (nodes <$> l)) as Hs.
  { intros l Hl. apply sumZ_nonneg, Forall_fmap. eapply Forall_impl; [exact Hl|]. intros v Hv. apply Z.lt_le_incl, Hv. }
  induction o as [| | | | | |l IH|l IH] using json_ind'; try done; [rewrite nodes_array|rewrite nodes_object]; specialize (Hs _ IH); lia.
Qed.

Lemma put_member_spec k v l h : exists h', put_member k v l h = (put_all [(k, v)] l, h') /\
  held h' = held h + sumZ (nodes <$> (put_all [(k, v)] l).*2) - sumZ (nodes <$> l.*2) - nodes v /\ jh_lost h <= jh_lost h'.
Proof.
  unfold put_member. cbn [put_all]. pose proof (nodes_pos v). destruct (bool_decide (k ∈ l.*1)); eexists; (split; [done|]); unfold held; simpl; [lia|].
  rewrite !fmap_app, sumZ_app. simpl. lia.
Qed.

(** ** Every text has a result, and what is accepted is a text *)

Definition good (s : cstring) : Prop := Forall (fun c => c <> 0) s /\ ~ big_exponent s.

Lemma good_tail a s : good (a ++ s) -> good s.
Proof. intros [H1 H2]. apply Forall_app in H1 as [_ H1]. split; [done|by eapply big_exponent_tail]. Qed.

(** What a value may be followed by. *)
Definition end_ok (e : option cstring) : Prop := e ∈ [None; Some (str ":"); Some (str ",}"); Some (str ",]")].

Lemma end_char e c : end_ok e -> is_end c e = true -> c = 0 \/ c = ":"%ch \/ c = ","%ch \/ c = "}"%ch \/ c = "]"%ch.
Proof.
  intros He Hc. unfold end_ok in He. rewrite !elem_of_cons in He. destruct He as [->|[->|[->|[->|He]]]]; [| | | |by apply elem_of_nil in He]; cbn [is_end] in Hc.
  { apply Z.eqb_eq in Hc. by left. }
  all: apply bool_decide_eq_true in Hc.
  - change (str ":") with [":"%ch] in Hc. rewrite elem_of_cons, elem_of_nil in Hc. naive_solver.
  - change (str ",}") with [","%ch; "}"%ch] in Hc. rewrite !elem_of_cons, elem_of_nil in Hc. naive_solver.
  - change (str ",]") with [","%ch; "]"%ch] in Hc. rewrite !elem_of_cons, elem_of_nil in Hc. naive_solver.
Qed.

Record value_spec (s : cstring) (e : option cstring) (d : Z) (h : jheap) (r : option (cstring * pa_json_object)) (h' : jheap) : Prop := {
  vs_held : held h' = held h + from_option (fun x => nodes x.2) 0 r;
  vs_lost : jh_lost h <= jh_lost h';
  vs_text rest v : r = Some (rest, v) -> exists t, s = t ++ rest /\ padded d t v /\ is_end (cur rest) e = true
}.

Definition loop_text (d : Z) (finish : bool) (o : pa_json_object) (t : cstring) (v : pa_json_object) : Prop :=
  if finish then ws t /\ v = o else exists w1 core w2, t = w1 ++ core ++ w2 /\ ws w1 /\ ws w2 /\ value_text d core v.

Record loop_spec (s : cstring) (e : option cstring) (d : Z) (finish : bool) (o : pa_json_object) (h : jheap) (r : option (cstring * pa_json_object)) (h' : jheap) : Prop := {
  ls_held : held h' = held h - nodes o + from_option (fun x => nodes x.2) 0 r;
  ls_lost : jh_lost h <= jh_lost h';
  ls_text rest v : r = Some (rest, v) -> is_end (cur rest) e = true /\ exists t, s = t ++ rest /\ loop_text d finish o t v
}.

(** One token, a whole array or object. *)
Record token_spec (s : cstring) (d : Z) (h : jheap) (r : option cstring) (o : pa_json_object) (h' : jheap) : Prop := {
  ts_held : held h' = held h + nodes o - 1;
  ts_lost : jh_lost h <= jh_lost h';
  ts_text rest : r = Some rest -> o <> JInit /\ exists core, s = core ++ rest /\ value_text d core o
}.

Record object_spec (s : cstring) (vs : list (cstring * pa_json_object)) (d : Z) (h : jheap) (r : option cstring) (o : pa_json_object) (h' : jheap) : Prop := {
  os_held : held h' = held h - sumZ (nodes <$> vs.*2) + nodes o - 1;
  os_lost : jh_lost h <= jh_lost h';
  os_text rest : r = Some rest ->
    s = "}"%ch :: rest /\ o = JObject vs \/
    exists c body ms, c <> "}"%ch /\ s = c :: body ++ "}"%ch :: rest /\ members_text (d + 1) body ms /\ o = JObject (put_all ms vs)
}.

Record array_spec (s : cstring) (vs : list pa_json_object) (d : Z) (h : jheap) (r : option cstring) (o : pa_json_object) (h' : jheap) : Prop := {
  as_held : held h' = held h - sumZ (nodes <$> vs) + nodes o - 1;
  as_lost : jh_lost h <= jh_lost h';
  as_text rest : r = Some rest ->
    s = "]"%ch :: rest /\ o = JArray vs \/
    exists c body l, c <> "]"%ch /\ s = c :: body ++ "]"%ch :: rest /\ items_text (d + 1) body l /\ o = JArray (vs ++ l)
}.

Section fuel.
Context (f : nat).

Definition total_value : Prop := forall s e d h, (3 * length s + 3 <= f)%nat -> good s -> end_ok e ->
  exists r h', parse_value f s e d h = Ok (r, h') /\ value_spec s e d h r h'.
Definition total_loop : Prop := forall s e finish o d h, (3 * length s + 2 <= f)%nat -> good s -> end_ok e -> (o = JInit <-> finish = false) ->
  exists r h', value_loop f s e finish o d h = Ok (r, h') /\ loop_spec s e d finish o h r h'.
Definition total_object : Prop := forall s vs d h, (3 * length s + 1 <= f)%nat -> good s -> s <> [] ->
  exists r o h', object_loop f s vs d h = Ok (r, o, h') /\ object_spec s vs d h r o h'.
Definition total_array : Prop := forall s vs d h, (3 * length s + 1 <= f)%nat -> good s -> s <> [] ->
  exists r o h', array_loop f s vs d h = Ok (r, o, h') /\ array_spec s vs d h r o h'.
End fuel.

Lemma step_value f : total_loop f -> total_value (S f).
Proof.
  intros L s e d h Hf Hg He. cbn [parse_value]. destruct (Z.ltb_spec MAX_NESTING_DEPTH d) as [|Hd].
  - eexists None, _. split; [done|]. rewrite free_eq. split; unfold held; simpl; [lia|lia|done].
  - destruct (L s e false JInit d (json_object_new h)) as (r & h' & E & [H1 H2 H3]); [lia|done|done|done|]. exists r, h'. split; [done|]. split.
    + rewrite H1. unfold held. simpl. lia.
    + done.
    + intros rest v ->. destruct (H3 rest v eq_refl) as [Hend (t & -> & w1 & core & w2 & -> & Hw1 & Hw2 & Hv)]. eexists. split; [done|]. split; [by constructor|done].
Qed.

Lemma cur_cons s c : cur s = c -> c <> 0 -> exists s', s = c :: s'.
Proof. intros <- H. destruct s as [|c s]; [done|]. by exists s. Qed.

(** What ends a key or a member is a character. *)
Lemma end_cons e rest : end_ok e -> e <> None -> is_end (cur rest) e = true -> exists c rest', rest = c :: rest' /\ is_end c e = true.
Proof.
  intros He Hn Hend. destruct rest as [|c rest]; [|by exists c, rest]. unfold end_ok in He. rewrite !elem_of_cons in He.
  destruct He as [->|[->|[->|[->|He]]]]; [done|vm_compute in Hend; done|vm_compute in Hend; done|vm_compute in Hend; done|by apply elem_of_nil in He].
Qed.

Lemma colon_ok : end_ok (Some (str ":")).
Proof. unfold end_ok. by right; left. Qed.
Lemma brace_ok : end_ok (Some (str ",}")).
Proof. unfold end_ok. by right; right; left. Qed.
Lemma bracket_ok : end_ok (Some (str ",]")).
Proof. unfold end_ok. by right; right; right; left. Qed.

Lemma is_end_colon c : is_end c (Some (str ":")) = true <-> c = ":"%ch.
Proof. cbn [is_end]. rewrite bool_decide_eq_true. change (str ":") with [":"%ch]. apply list_elem_of_singleton. Qed.
Lemma is_end_brace c : is_end c (Some (str ",}")) = true <-> c = ","%ch \/ c = "}"%ch.
Proof. cbn [is_end]. rewrite bool_decide_eq_true. change (str ",}") with [","%ch; "}"%ch]. rewrite elem_of_cons, list_elem_of_singleton. done. Qed.
Lemma is_end_bracket c : is_end c (Some (str ",]")) = true <-> c = ","%ch \/ c = "]"%ch.
Proof. cbn [is_end]. rewrite bool_decide_eq_true. change (str ",]") with [","%ch; "]"%ch]. rewrite elem_of_cons, list_elem_of_singleton. done. Qed.

Lemma step_array f : total_value f -> total_array f -> total_array (S f).
Proof.
  intros V A s vs d h Hf Hg Hne. cbn [array_loop]. destruct s as [|c s]; [done|]. cbn [cur]. destruct (Z.eqb_spec c "]"%ch) as [->|Hc].
  { eexists _, _, h. split; [done|]. split; [rewrite nodes_array; lia|lia|]. intros rest [= <-]. by left. }
  cbn [adv mbind outcome_bind]. destruct (skip_whitespace_spec s) as (w & Es & Hw & Hcur). set (s1 := skip_whitespace s) in *. clearbody s1. subst s.
  destruct (Z.eqb_spec (cur s1) "]"%ch) as [E|Hb].
  { destruct (cur_cons s1 _ E ltac:(done)) as [s2 ->]. eexists _, _, h. split; [done|]. split; [rewrite nodes_array; lia|lia|]. intros rest [= <-]. right.
    exists c, w, []. split; [done|]. split; [done|]. split; [by constructor|by rewrite app_nil_r]. }
  simpl in Hf. rewrite length_app in Hf. assert (good s1) as Hg1 by (apply (good_tail (c :: w)); done).
  destruct (V s1 (Some (str ",]")) (d + 1) h ltac:(lia) Hg1 bracket_ok) as (r & h1 & -> & [H1 H2 H3]). cbn [mbind outcome_bind].
  destruct r as [[s2 v]|].
  - destruct (H3 s2 v eq_refl) as (t & -> & Ht & Hend). destruct (end_cons _ _ bracket_ok ltac:(done) Hend) as (c2 & rest2 & -> & Hc2). apply is_end_bracket in Hc2.
    rewrite length_app in Hf. destruct (A (c2 :: rest2) (vs ++ [v]) d h1) as (r' & o & h2 & E & [G1 G2 G3]); [simpl in *; lia|by apply good_tail in Hg1|done|]. cbn in H1.
    eexists r', o, h2. split; [done|]. rewrite fmap_app, sumZ_app in G1. simpl in G1. split; [lia|lia|]. intros rest Hr. right.
    assert (padded (d + 1) (w ++ t) v) as Hpad by (destruct Ht as [? w1 core w2 ? ? ? ? ?]; rewrite app_assoc; constructor; [done|by apply Forall_app|done|done]).
    destruct (G3 rest Hr) as [[[= -> ->] ->]|(c' & body & l & Hc' & [= -> ->] & Hi & ->)].
    + exists c, (w ++ t), [v]. split; [done|]. split; [by rewrite <- app_assoc|]. split; [by constructor|done].
    + destruct Hc2 as [->|]; [|done]. exists c, ((w ++ t) ++ ","%ch :: body), (v :: l). split; [done|]. split; [by rewrite <- !app_assoc|]. split; [by constructor|].
      by rewrite <- app_assoc.
  - eexists _, _, _. split; [done|]. rewrite free_values_eq. split; [unfold held in *; simpl in *; lia|simpl; lia|done].
Qed.

Lemma put_all_cons k v ms vs : put_all ((k, v) :: ms) vs = put_all ms (put_all [(k, v)] vs).
Proof. done. Qed.

Lemma step_object f : total_value f -> total_object f -> total_object (S f).
Proof.
  intros V O s vs d h Hf Hg Hne. cbn [object_loop]. destruct s as [|c s]; [done|]. cbn [cur]. destruct (Z.eqb_spec c "}"%ch) as [->|Hc].
  { eexists _, _, h. split; [done|]. split; [rewrite nodes_object; lia|lia|]. intros rest [= <-]. by left. }
  cbn [adv mbind outcome_bind]. assert (good s) as Hg1 by (apply (good_tail [c]); done). simpl in Hf.
  destruct (V s (Some (str ":")) (d + 1) h ltac:(lia) Hg1 colon_ok) as (r & h1 & -> & [H1 H2 H3]). cbn [mbind outcome_bind].
  assert (forall o h2, held h2 = held h + nodes o -> jh_lost h <= jh_lost h2 -> object_spec (c :: s) vs d h None JInit (pa_json_object_free o (free_values vs.*2 h2))) as Hfail.
  { intros o h2 E1 E2. rewrite free_values_eq, free_eq. split; [unfold held in *; simpl in *; lia|simpl; lia|done]. }
  destruct r as [[s2 name]|]; cbn [from_option snd] in H1.
  2: { eexists _, _, _. split; [done|]. rewrite free_values_eq. split; [unfold held in *; simpl in *; lia|simpl; lia|done]. }
  destruct name as [| | | | |key| |]; try (eexists _, _, _; split; [done|]; apply Hfail; [exact H1|exact H2]).
  destruct (H3 s2 _ eq_refl) as (kt & -> & Hk & Hend). destruct (end_cons _ _ colon_ok ltac:(done) Hend) as (c2 & s3 & -> & ->%is_end_colon). cbn [adv mbind outcome_bind].
  rewrite length_app in Hf. simpl in Hf. assert (good s3) as Hg3 by (apply (good_tail (kt ++ [":"%ch])); by rewrite <- app_assoc).
  destruct (V s3 (Some (str ",}")) (d + 1) h1 ltac:(lia) Hg3 brace_ok) as (r & h2 & -> & [G1 G2 G3]). cbn [mbind outcome_bind].
  destruct r as [[s4 v]|]; cbn [from_option snd] in G1; [|eexists _, _, _; split; [done|]; apply Hfail; [rewrite G1, H1; lia|lia]].
  destruct (G3 s4 v eq_refl) as (vt & -> & Hv & Hend2). destruct (end_cons _ _ brace_ok ltac:(done) Hend2) as (c4 & s5 & -> & Hc4%is_end_brace).
  destruct (put_member_spec key v vs h2) as (h3 & -> & P1 & P2). rewrite length_app in Hf. simpl in Hf.
  destruct (O (c4 :: s5) (put_all [(key, v)] vs) d (pa_json_object_free (JString key) h3)) as (r' & o & h4 & -> & [K1 K2 K3]); [simpl; lia|by apply good_tail in Hg3|done|].
  rewrite free_eq in K1, K2. eexists r', o, h4. split; [done|]. split; [unfold held in *; simpl in *; lia|simpl in K2; lia|]. intros rest Hr. right.
  destruct (K3 rest Hr) as [[[= -> ->] ->]|(c' & body & ms & Hc' & [= -> ->] & Hms & ->)].
  - exists c, (kt ++ ":"%ch :: vt), [(key, v)]. split; [done|]. split; [by rewrite <- app_assoc|]. split; [by constructor|done].
  - destruct Hc4 as [->|]; [|done]. exists c, (kt ++ ":"%ch :: vt ++ ","%ch :: body), ((key, v) :: ms). split; [done|].
    split; [rewrite <- !app_assoc; simpl; by rewrite <- app_assoc|]. split; [by constructor|done].
Qed.

Lemma value_text_nonempty d core v : value_text d core v -> core <> [].
Proof. intros [| | | |d' t o Ht| |]; try done. pose proof (number_head t o [] Ht) as H. by destruct t. Qed.

Lemma scalar_token s d h r o : nodes o = 1 -> (forall rest, r = Some rest -> o <> JInit /\ exists core, s = core ++ rest /\ value_text d core o) -> token_spec s d h r o h.
Proof. intros Hn Ht. split; [rewrite Hn; lia|lia|done]. Qed.

Lemma number_nodes t o : number_text t o -> nodes o = 1 /\ o <> JInit.
Proof. intros [negative it n ft hf f k et he x _ _ _]. by destruct (hf || he). Qed.

(** The tokens [value_loop] chooses from. *)
Lemma token_total f s d h : total_object f -> total_array f -> (3 * length s + 1 <= f)%nat -> good s ->
  exists r o h', (let c := cur s in
    if c =? "n"%ch then let '(r, o) := parse_null s JInit in Ok (r, o, h)
    else if (c =? "t"%ch) || (c =? "f"%ch) then let '(r, o) := parse_boolean s JInit in Ok (r, o, h)
    else if c =? 34 then '(r, o) ← parse_string s JInit; Ok (r, o, h)
    else if is_digit c || (c =? "-"%ch) then '(r, o) ← parse_number s JInit; Ok (r, o, h)
    else if c =? "{"%ch then object_loop f s [] d h
    else if c =? "["%ch then array_loop f s [] d h
    else Ok (None, JInit, h)) = Ok (r, o, h') /\ token_spec s d h r o h'.
Proof.
  intros O A Hf Hg. cbv zeta. destruct (Z.eqb_spec (cur s) "n"%ch) as [En|Hn].
  { unfold parse_null. destruct (consume_string s (str "null")) as [rest|] eqn:E; eexists _, _, h; (split; [done|]); apply scalar_token; try done.
    apply consume_string_spec in E as ->. intros ? [= <-]. split; [done|]. eexists. split; [done|constructor]. }
  destruct ((cur s =? "t"%ch) || (cur s =? "f"%ch)).
  { unfold parse_boolean. destruct (consume_string s (str "true")) as [rest|] eqn:E; [|destruct (consume_string s (str "false")) as [rest|] eqn:E2];
      eexists _, _, h; (split; [done|]); apply scalar_token; try done.
    - apply consume_string_spec in E as ->. intros ? [= <-]. split; [done|]. eexists. split; [done|constructor].
    - apply consume_string_spec in E2 as ->. intros ? [= <-]. split; [done|]. eexists. split; [done|constructor]. }
  destruct (Z.eqb_spec (cur s) 34) as [E|].
  { destruct (cur_cons s _ E ltac:(done)) as [s' ->]. unfold parse_string. cbn [adv mbind outcome_bind].
    destruct (string_loop s' []) as [[rest buf]|] eqn:Es; eexists _, _, h; (split; [done|]); apply scalar_token; try done.
    destruct (string_loop_sound (length s') s' [] rest buf ltac:(done) Es) as (raw & x & -> & Hx & ->). intros ? [= <-]. split; [done|]. exists (34 :: raw ++ [34]).
    split; [simpl; by rewrite <- app_assoc|by constructor]. }
  destruct (is_digit (cur s) || (cur s =? "-"%ch)) eqn:Ed.
  { destruct (parse_number_sound s JInit (proj2 Hg)) as (r & o & -> & Hr). eexists r, o, h. split; [done|]. destruct r as [rest|]; [|subst o; by apply scalar_token].
    destruct Hr as (core & -> & Hc). destruct (number_nodes core o Hc). apply scalar_token; [done|]. intros ? [= <-]. split; [done|]. exists core. split; [done|by constructor]. }
  destruct (Z.eqb_spec (cur s) "{"%ch) as [E|].
  { destruct (cur_cons s _ E ltac:(done)) as [s' ->]. destruct (O _ [] d h Hf Hg ltac:(done)) as (r & o & h' & -> & [H1 H2 H3]). exists r, o, h'. split; [done|].
    simpl in H1. split; [lia|done|]. intros rest Hr. destruct (H3 rest Hr) as [[[=] _]|(c & body & ms & _ & [= <- ->] & Hm & ->)]. split; [done|]. exists ("{"%ch :: body ++ ["}"%ch]).
    split; [simpl; by rewrite <- app_assoc|by constructor]. }
  destruct (Z.eqb_spec (cur s) "["%ch) as [E|].
  { destruct (cur_cons s _ E ltac:(done)) as [s' ->]. destruct (A _ [] d h Hf Hg ltac:(done)) as (r & o & h' & -> & [H1 H2 H3]). exists r, o, h'. split; [done|].
    simpl in H1. split; [lia|done|]. intros rest Hr. destruct (H3 rest Hr) as [[[=] _]|(c & body & l & _ & [= <- ->] & Hl & ->)]. split; [done|]. exists ("["%ch :: body ++ ["]"%ch]).
    split; [simpl; by rewrite <- app_assoc|by constructor]. }
  eexists _, _, h. split; [done|]. by apply scalar_token.
Qed.

Lemma step_loop f : total_loop f -> total_object f -> total_array f -> total_loop (S f).
Proof.
  intros L O A s e finish o d h Hf Hg He Ho. cbn [value_loop].
  assert (loop_spec s e d finish o h None (pa_json_object_free o h)) as Hfail by (rewrite free_eq; split; [unfold held; simpl; lia|simpl; lia|done]).
  destruct (is_end (cur s) e) eqn:Ee.
  { destruct (bool_decide (pa_json_object_get_type o = PA_JSON_TYPE_INIT)) eqn:Et; [eexists _, _; split; [done|exact Hfail]|]. apply bool_decide_eq_false in Et.
    assert (finish = true) as -> by (destruct finish; [done|]; rewrite (proj2 Ho) in Et; done).
    eexists _, _. split; [done|]. split; [simpl; lia|lia|]. intros rest v [= <- <-]. split; [done|]. exists []. split; [done|]. split; [constructor|done]. }
  destruct (is_whitespace (cur s)) eqn:Ew.
  { destruct s as [|c s]; [done|]. cbn [adv mbind outcome_bind cur] in *. destruct (L s e finish o d h) as (r & h' & -> & [H1 H2 H3]); [simpl in Hf; lia|by apply (good_tail [c])|done|done|].
    exists r, h'. split; [done|]. split; [done|done|]. intros rest v Hr. destruct (H3 rest v Hr) as [Hend (t & -> & Ht)]. split; [done|]. exists (c :: t). split; [done|].
    destruct finish; cbn [loop_text] in *; [destruct Ht; split; [by constructor|done]|]. destruct Ht as (w1 & core & w2 & -> & Hw1 & Hw2 & Hv). exists (c :: w1), core, w2.
    split; [done|]. split; [by constructor|done]. }
  destruct finish; [eexists _, _; split; [done|exact Hfail]|]. rewrite (proj2 Ho eq_refl) in *.
  destruct (token_total f s d h O A ltac:(lia) Hg) as (r & o' & h1 & E & [H1 H2 H3]). cbv zeta in E. rewrite E. cbn [mbind outcome_bind].
  destruct r as [s2|]; [|eexists _, _; split; [done|]; rewrite free_eq; split; [unfold held in *; simpl in *; lia|simpl; lia|done]].
  destruct (H3 s2 eq_refl) as (Hi & core & -> & Hv). pose proof (value_text_nonempty _ _ _ Hv) as Hne. rewrite length_app in Hf. assert (0 < length core)%nat by (destruct core; [done|simpl; lia]).
  destruct (L s2 e true o' d h1) as (r & h' & -> & [G1 G2 G3]); [lia|by apply good_tail in Hg|done|done|]. exists r, h'. split; [done|]. split; [cbn [nodes]; lia|lia|].
  intros rest v Hr. destruct (G3 rest v Hr) as [Hend (t & -> & Ht & ->)]. split; [done|]. exists (core ++ t). rewrite <- app_assoc. split; [done|]. exists [], core, t.
  split; [done|]. by split; [constructor|].
Qed.

Lemma parse_total f : total_value f /\ total_loop f /\ total_object f /\ total_array f.
Proof.
  induction f as [|f (V & L & O & A)].
  - split_and!; intros ?; intros; lia.
  - split_and!; [by apply step_value|by apply step_loop|by apply step_object|by apply step_array].
Qed.

(** ** Every text is accepted *)

Definition plain_end (c : Z) : Prop := c = 0 \/ c = ":"%ch \/ c = ","%ch \/ c = "}"%ch \/ c = "]"%ch.

Lemma whitespace_cases c : is_whitespace c = true -> c = 9 \/ c = 10 \/ c = 13 \/ c = 32.
Proof. unfold is_whitespace. rewrite !orb_true_iff, !Z.eqb_eq. naive_solver. Qed.

Lemma not_end e c : end_ok e -> ~ plain_end c -> is_end c e = false.
Proof. intros He Hc. destruct (is_end c e) eqn:E; [|done]. destruct Hc. by apply (end_char e). Qed.

Lemma whitespace_not_end c : is_whitespace c = true -> ~ plain_end c.
Proof. intros H. apply whitespace_cases in H. unfold plain_end. lia. Qed.

Lemma end_stops w rest e : ws w -> end_ok e -> is_end (cur rest) e = true -> stops (cur (w ++ rest)).
Proof.
  intros Hw He Hend. assert (forall c, is_whitespace c = true \/ plain_end c -> stops c) as Hs.
  { intros c [Hc%whitespace_cases|Hc]; unfold plain_end in *; unfold stops; repeat (destruct Hc as [->|Hc] || subst c); done. }
  apply Hs. destruct Hw; [right; by apply (end_char e)|by left].
Qed.

Lemma loop_ws w s e finish o d h : ws w -> end_ok e -> forall f, value_loop (length w + f) (w ++ s) e finish o d h = value_loop f s e finish o d h.
Proof.
  intros Hw He. induction Hw as [|c w Hc Hw IH]; intros f; [done|]. cbn [app length Nat.add value_loop cur]. rewrite (not_end e c He (whitespace_not_end c Hc)), Hc. cbn [adv mbind outcome_bind].
  apply IH.
Qed.

(** What a value begins with. *)
Definition starts (c : Z) : Prop := ~ plain_end c /\ is_whitespace c = false.

Lemma digit_starts c : is_digit c || (c =? "-"%ch) = true -> starts c /\ c <> "n"%ch /\ (c =? "t"%ch) || (c =? "f"%ch) = false /\ c <> 34.
Proof.
  rewrite orb_true_iff, Z.eqb_eq. intros Hc. assert ("-"%ch <= c <= "9"%ch /\ c <> ","%ch /\ c <> ":"%ch) as (Hr & H1 & H2) by (destruct Hc as [Hc%digit_range| ->]; lia).
  assert (is_whitespace c = false) as Hw. { destruct (is_whitespace c) eqn:E; [|done]. apply whitespace_cases in E. lia. }
  split_and!; [split; [|done]|lia|rewrite orb_false_iff, !Z.eqb_neq; lia|lia]. unfold plain_end. lia.
Qed.

Lemma value_starts d core v rest : value_text d core v -> starts (cur (core ++ rest)).
Proof.
  assert (forall c, c ∈ ["n"%ch; "t"%ch; "f"%ch; 34; "{"%ch; "["%ch] -> starts c) as Hs.
  { intros c. rewrite !elem_of_cons, elem_of_nil. unfold starts, plain_end. intros [->|[->|[->|[->|[->|[->|[]]]]]]]; (split; [lia|done]). }
  intros [| | | |d' t o Ht| |]; try (apply Hs; cbn; by repeat ((left; reflexivity) || right)). apply (digit_starts _ (number_head t o rest Ht)).
Qed.

Definition accepted (d : Z) (t : cstring) (v : pa_json_object) : Prop := forall rest e f h, (3 * length (t ++ rest) + 3 <= f)%nat -> end_ok e -> is_end (cur rest) e = true ->
  exists h', parse_value f (t ++ rest) e d h = Ok (Some (rest, v), h').

Definition value_accepted (d : Z) (core : cstring) (v : pa_json_object) : Prop := forall rest e f h, (3 * length (core ++ rest) + 2 <= S f)%nat -> end_ok e -> stops (cur rest) ->
  exists h', value_loop (S f) (core ++ rest) e false JInit d h = value_loop f rest e true v d h'.

Definition padded_accepted (d : Z) (t : cstring) (v : pa_json_object) : Prop :=
  accepted d t v /\ exists w t', t = w ++ t' /\ ws w /\ (forall rest, starts (cur (t' ++ rest))) /\ accepted d t' v.

Definition items_accepted (d : Z) (body : cstring) (l : list pa_json_object) : Prop := forall c rest vs f h, c <> "]"%ch -> (3 * length (c :: body ++ "]"%ch :: rest) + 1 <= f)%nat ->
  exists h', array_loop f (c :: body ++ "]"%ch :: rest) vs (d - 1) h = Ok (Some rest, JArray (vs ++ l), h').

Definition members_accepted (d : Z) (body : cstring) (ms : list (cstring * pa_json_object)) : Prop := forall c rest vs f h, c <> "}"%ch ->
  (3 * length (c :: body ++ "}"%ch :: rest) + 1 <= f)%nat -> exists h', object_loop f (c :: body ++ "}"%ch :: rest) vs (d - 1) h = Ok (Some rest, JObject (put_all ms vs), h').

(** A value, once its token is read, up to its end. *)
Lemma padded_step d w1 core w2 v : d <= MAX_NESTING_DEPTH -> ws w1 -> ws w2 -> value_text d core v -> value_accepted d core v -> accepted d (w1 ++ core ++ w2) v.
Proof.
  intros Hd Hw1 Hw2 Hv Ha rest e f h Hf He Hend. rewrite !length_app in Hf. destruct f as [|f]; [lia|]. cbn [parse_value]. destruct (Z.ltb_spec MAX_NESTING_DEPTH d); [lia|].
  rewrite <- !app_assoc. replace f with (length w1 + (f - length w1))%nat by lia. rewrite loop_ws by done. pose proof (value_text_nonempty _ _ _ Hv) as Hne.
  assert (0 < length core)%nat by (destruct core; [done|simpl; lia]). destruct (f - length w1)%nat as [|f'] eqn:Ef; [lia|].
  destruct (Ha (w2 ++ rest) e f' (json_object_new h)) as [h' ->]; [rewrite !length_app; lia|done|by apply end_stops with e|].
  replace f' with (length w2 + S (f' - length w2 - 1))%nat by lia. rewrite loop_ws by done. cbn [value_loop]. rewrite Hend. exists h'.
  assert (pa_json_object_get_type v <> PA_JSON_TYPE_INIT) as Ht by (destruct Hv as [| | | |d' t o Hn| |]; try done; destruct (number_nodes t o Hn); by destruct o).
  by rewrite (bool_decide_eq_false_2 _ Ht).
Qed.

(** The head of the loop, on a token. *)
Lemma loop_token core rest e d v : value_text d core v -> end_ok e ->
  is_end (cur (core ++ rest)) e = false /\ is_whitespace (cur (core ++ rest)) = false.
Proof. intros Hv He. destruct (value_starts _ _ _ rest Hv) as [H1 H2]. split; [by apply not_end|done]. Qed.

Lemma literal_accepted d core v : v <> JInit -> value_text d core v -> (forall rest (h : jheap), (let c := cur (core ++ rest) in
    if c =? "n"%ch then let '(r, o) := parse_null (core ++ rest) JInit in Ok (r, o, h)
    else if (c =? "t"%ch) || (c =? "f"%ch) then let '(r, o) := parse_boolean (core ++ rest) JInit in Ok (r, o, h)
    else Ok (None, JInit, h)) = Ok (Some rest, v, h)) -> value_accepted d core v.
Proof.
  intros Hi Hv Hc rest e f h Hf He Hs. cbn [value_loop]. destruct (loop_token core rest e d v Hv He) as [-> ->]. specialize (Hc rest h). cbv zeta in Hc. exists h.
  destruct (cur (core ++ rest) =? "n"%ch); [by rewrite Hc|]. destruct ((_ =? "t"%ch) || _); [by rewrite Hc|]. done.
Qed.

Lemma string_accepted d raw s : string_text raw s -> value_accepted d (34 :: raw ++ [34]) (JString s).
Proof.
  intros Hr rest e f h Hf He Hs. cbn [value_loop]. destruct (loop_token _ rest e d (JString s) (vt_string d raw s Hr) He) as [-> ->]. exists h. simpl app.
  cbn [cur Z.eqb Pos.eqb orb]. unfold parse_string. cbn [adv mbind outcome_bind]. rewrite <- app_assoc. simpl app. by rewrite (string_loop_complete raw s Hr [] rest).
Qed.

Lemma number_accepted d t v : number_text t v -> value_accepted d t v.
Proof.
  intros Hn rest e f h Hf He Hs. cbn [value_loop]. destruct (loop_token t rest e d v (vt_number d t v Hn) He) as [-> ->]. exists h.
  pose proof (number_head t v rest Hn) as Hh. destruct (digit_starts _ Hh) as (_ & H1 & H2 & H3). destruct (Z.eqb_spec (cur (t ++ rest)) "n"%ch); [done|]. rewrite H2.
  destruct (Z.eqb_spec (cur (t ++ rest)) 34); [done|]. rewrite Hh, (parse_number_complete t v rest JInit Hn Hs). done.
Qed.

Lemma array_accepted d body l : items_text (d + 1) body l -> items_accepted (d + 1) body l -> value_accepted d ("["%ch :: body ++ ["]"%ch]) (JArray l).
Proof.
  intros Hi Ha rest e f h Hf He Hs. cbn [value_loop]. destruct (loop_token _ rest e d _ (vt_array d body l Hi) He) as [-> ->]. simpl app in *. rewrite <- app_assoc in *. simpl app in *.
  destruct (Ha "["%ch rest [] f h) as [h' E]; [done|simpl in *; lia|]. rewrite Z.add_simpl_r in E. exists h'.
  cbn [cur Z.eqb Pos.eqb orb is_digit Z.leb Z.compare Pos.compare Pos.compare_cont andb]. by rewrite E.
Qed.

Lemma object_accepted d body ms : members_text (d + 1) body ms -> members_accepted (d + 1) body ms -> value_accepted d ("{"%ch :: body ++ ["}"%ch]) (JObject (put_all ms [])).
Proof.
  intros Hi Ha rest e f h Hf He Hs. cbn [value_loop]. destruct (loop_token _ rest e d _ (vt_object d body ms Hi) He) as [-> ->]. simpl app in *. rewrite <- app_assoc in *. simpl app in *.
  destruct (Ha "{"%ch rest [] f h) as [h' E]; [done|simpl in *; lia|]. rewrite Z.add_simpl_r in E. exists h'.
  cbn [cur Z.eqb Pos.eqb orb is_digit Z.leb Z.compare Pos.compare Pos.compare_cont andb]. by rewrite E.
Qed.

Lemma bracket_not_starts : ~ starts "]"%ch.
Proof. intros [H _]. apply H. unfold plain_end. lia. Qed.

(** One item and what follows it. *)
Lemma item_step d t v c tail vs f h : padded_accepted d t v -> c <> "]"%ch -> (3 * length (c :: t ++ tail) + 1 <= S f)%nat -> is_end (cur tail) (Some (str ",]")) = true ->
  exists h', array_loop (S f) (c :: t ++ tail) vs (d - 1) h = array_loop f tail (vs ++ [v]) (d - 1) h'.
Proof.
  intros [_ (w & t' & -> & Hw & Hst & Ha)] Hc Hf Hend. cbn [array_loop cur adv mbind outcome_bind]. destruct (Z.eqb_spec c "]"%ch); [done|].
  destruct (Hst tail) as [S1 S2]. rewrite <- app_assoc, skip_whitespace_app by done. destruct (Z.eqb_spec (cur (t' ++ tail)) "]"%ch) as [E|].
  { destruct bracket_not_starts. rewrite <- E. done. }
  destruct (Ha tail (Some (str ",]")) f h) as [h' E]; [simpl in Hf; rewrite !length_app in *; lia|apply bracket_ok|done|]. rewrite Z.sub_add, E. by exists h'.
Qed.

Lemma member_step d kt k vt v c tail vs f h : accepted d kt (JString k) -> accepted d vt v -> c <> "}"%ch -> (3 * length (c :: kt ++ ":"%ch :: vt ++ tail) + 1 <= S f)%nat ->
  is_end (cur tail) (Some (str ",}")) = true ->
  exists h', object_loop (S f) (c :: kt ++ ":"%ch :: vt ++ tail) vs (d - 1) h = object_loop f tail (put_all [(k, v)] vs) (d - 1) h'.
Proof.
  intros Hk Hv Hc Hf Hend. cbn [object_loop cur adv mbind outcome_bind]. destruct (Z.eqb_spec c "}"%ch); [done|]. simpl in Hf. rewrite !length_app in Hf. simpl in Hf. rewrite length_app in Hf.
  destruct (Hk (":"%ch :: vt ++ tail) (Some (str ":")) f h) as [h1 E1]; [rewrite length_app; simpl; rewrite length_app; lia|apply colon_ok|done|].
  rewrite Z.sub_add, E1. cbn [mbind outcome_bind adv]. destruct (Hv tail (Some (str ",}")) f h1) as [h2 E2]; [rewrite length_app; lia|apply brace_ok|done|]. rewrite E2. cbn [mbind outcome_bind].
  destruct (put_member_spec k v vs h2) as (h3 & -> & _). by eexists.
Qed.

Lemma text_accepted :
  (forall d core v, value_text d core v -> value_accepted d core v) /\ (forall d t v, padded d t v -> padded_accepted d t v) /\
  (forall d body l, items_text d body l -> items_accepted d body l) /\ (forall d body ms, members_text d body ms -> members_accepted d body ms).
Proof.
  apply text_mutind.
  - intros d. by apply literal_accepted; [|constructor|].
  - intros d. by apply literal_accepted; [|constructor|].
  - intros d. by apply literal_accepted; [|constructor|].
  - intros d raw s Hs. by apply string_accepted.
  - intros d t v Hn. by apply number_accepted.
  - intros d body l Hi Ha. by apply array_accepted.
  - intros d body ms Hm Ha. by apply object_accepted.
  - intros d w1 core w2 v Hd Hw1 Hw2 Hv Ha. split; [by apply padded_step|]. exists w1, (core ++ w2). split_and!; try done.
    + intros rest. rewrite <- app_assoc. by apply (value_starts d core v).
    + apply (padded_step d [] core w2 v); try done. constructor.
  - intros d w Hw c rest vs f h Hc Hf. destruct f as [|f]; [lia|]. cbn [array_loop cur adv mbind outcome_bind]. destruct (Z.eqb_spec c "]"%ch); [done|].
    rewrite skip_whitespace_app by done. exists h. by rewrite app_nil_r.
  - intros d t v _ Ha c rest vs f h Hc Hf. destruct f as [|f]; [lia|]. destruct (item_step d t v c ("]"%ch :: rest) vs f h Ha Hc Hf eq_refl) as [h' ->].
    simpl in Hf. rewrite length_app in Hf. destruct f as [|f]; [lia|]. by exists h'.
  - intros d t v body l _ Ha _ IH c rest vs f h Hc Hf. destruct f as [|f]; [lia|]. rewrite <- app_assoc in *.
    destruct (item_step d t v c (","%ch :: body ++ "]"%ch :: rest) vs f h Ha Hc Hf eq_refl) as [h1 E1]. destruct (IH ","%ch rest (vs ++ [v]) f h1) as [h2 E2]; [done| |].
    { simpl in *. rewrite !length_app in *. simpl in *. rewrite !length_app in *. simpl in *. lia. }
    exists h2. simpl app in *. rewrite E1, E2. by rewrite <- app_assoc.
  - intros d kt k vt v _ [Hk _] _ [Hv _] c rest vs f h Hc Hf. destruct f as [|f]; [lia|]. rewrite <- app_assoc in *. simpl app in *.
    destruct (member_step d kt k vt v c ("}"%ch :: rest) vs f h Hk Hv Hc Hf eq_refl) as [h' ->].
    simpl in Hf. rewrite length_app in Hf. destruct f as [|f]; [lia|]. by exists h'.
  - intros d kt k vt v body ms _ [Hk _] _ [Hv _] _ IH c rest vs f h Hc Hf. destruct f as [|f]; [lia|]. rewrite <- app_assoc in *. simpl app in *. rewrite <- app_assoc in *.
    destruct (member_step d kt k vt v c (","%ch :: body ++ "}"%ch :: rest) vs f h Hk Hv Hc Hf eq_refl) as [h1 E1]. simpl app in *.
    destruct (IH ","%ch rest (put_all [(k, v)] vs) f h1) as [h2 E2]; [done| |].
    { simpl in *. rewrite !length_app in *. simpl in *. rewrite !length_app in *. simpl in *. rewrite !length_app in *. simpl in *. lia. }
    exists h2. by rewrite E1, E2.
Qed.

(** The parser on a whole string. *)
Lemma parse_spec s h : Forall (fun c => c <> 0) s -> ~ big_exponent s ->
  exists r h', pa_json_parse s h = Ok (r, h') /\ (forall v, r = Some v <-> padded 0 s v) /\ held h' = held h + from_option nodes 0 r /\ jh_lost h <= jh_lost h'.
Proof.
  intros Hz Hb. unfold pa_json_parse. destruct (parse_total (parse_fuel s)) as [V _].
  destruct (V s None 0 h) as (r & h' & E & [H1 H2 H3]); [done|done|by left|]. rewrite E. cbn [mbind outcome_bind].
  assert (forall v, padded 0 s v -> r = Some ([], v)) as Hc.
  { intros v Hv. destruct (proj1 (proj2 text_accepted) 0 s v Hv) as [Ha _]. destruct (Ha [] None (parse_fuel s) h) as [h2 E2]; [rewrite app_nil_r; done|by left|done|].
    rewrite app_nil_r in E2. congruence. }
  destruct r as [[rest v]|]; cbn [from_option snd] in H1.
  - destruct (H3 rest v eq_refl) as (t & -> & Ht & Hend%Z.eqb_eq). apply Forall_app in Hz as [_ Hz].
    destruct rest as [|c rest]; [|simpl in Hend; apply Forall_cons in Hz as [? _]; done]. rewrite app_nil_r in *. exists (Some v), h'. split; [done|].
    split; [|by split]. intros v'. split; [by intros [= <-]|]. intros Hv'. by specialize (Hc v' Hv') as [= ->].
  - exists None, h'. split; [done|]. split; [|by split]. intros v. split; [done|]. intros Hv. by specialize (Hc v Hv).
Qed.

(** for every string without the digits of an exponent that overflows an [int],
    which the code does not prevent, the parser returns without reading behind its end, and it
    returns a value exactly when the string is a text of this value in the grammar,
    not more than twenty brackets deep; and of the objects it made, those not part
    of the value it returns are freed, but for the values of repeated keys. *)
Theorem json_accepts s h : Forall (fun c => c <> 0) s -> ~ big_exponent s ->
  exists r h', pa_json_parse s h = Ok (r, h') /\ (forall v, r = Some v <-> padded 0 s v) /\
    jh_live h' = jh_live h + from_option nodes 0 r + (jh_lost h' - jh_lost h) /\ jh_lost h <= jh_lost h'.
Proof.
  intros Hz Hb. destruct (parse_spec s h Hz Hb) as (r & h' & E & Hr & Hh & Hl). exists r, h'. split; [done|]. split; [done|]. unfold held in Hh. lia.
Qed.

(** ** Comparing values *)

(** Values as the parser makes them: complete, with keys that are different. *)
Fixpoint json_wf (o : pa_json_object) : Prop :=
  match o with
  | JInit => False
  | JArray l => Z.of_nat (length l) < 2 ^ 32 /\ (fix all (l : list pa_json_object) : Prop := match l with [] => True | v :: l => json_wf v /\ all l end) l
  | JObject l => NoDup l.*1 /\ (fix all (l : list (cstring * pa_json_object)) : Prop := match l with [] => True | (_, v) :: l => json_wf v /\ all l end) l
  | _ => True
  end.

Lemma wf_array l : json_wf (JArray l) <-> Z.of_nat (length l) < 2 ^ 32 /\ Forall json_wf l.
Proof. cbn [json_wf]. apply and_iff_compat_l. induction l as [|v l IH]; [by split|]. by rewrite Forall_cons, IH. Qed.

Lemma wf_object l : json_wf (JObject l) <-> NoDup l.*1 /\ Forall json_wf l.*2.
Proof. cbn [json_wf]. apply and_iff_compat_l. induction l as [|[k v] l IH]; [by split|]. by rewrite fmap_cons, Forall_cons, IH. Qed.

Lemma put_all_wf ms : forall vs, NoDup vs.*1 -> Forall json_wf vs.*2 -> Forall json_wf ms.*2 -> NoDup (put_all ms vs).*1 /\ Forall json_wf (put_all ms vs).*2.
Proof.
  induction ms as [|[k v] ms IH]; intros vs Hn Hv Hm; [done|]. rewrite fmap_cons, Forall_cons in Hm. destruct Hm as [Hk Hm]. cbn [put_all]. apply IH; [| |done]; case_bool_decide as Hin; try done.
  - rewrite fmap_app. apply NoDup_app. split_and!; [done| |apply NoDup_singleton]. intros x Hx ->%list_elem_of_singleton. done.
  - rewrite fmap_app, Forall_app. by split; [|constructor].
Qed.

(** What is parsed is well formed. *)
Lemma text_wf :
  (forall d core v, value_text d core v -> Z.of_nat (length core) < 2 ^ 32 -> json_wf v) /\ (forall d t v, padded d t v -> Z.of_nat (length t) < 2 ^ 32 -> json_wf v) /\
  (forall d body l, items_text d body l -> Z.of_nat (length body) < 2 ^ 32 - 1 -> (length l <= S (length body))%nat /\ Forall json_wf l) /\
  (forall d body ms, members_text d body ms -> Z.of_nat (length body) < 2 ^ 32 -> Forall json_wf ms.*2).
Proof.
  apply text_mutind; try done.
  - intros d t v [negative it n ft hf f k et he x _ _ _] _. by destruct (hf || he).
  - intros d body l _ IH Hl. simpl in Hl. rewrite length_app in Hl. simpl in Hl. destruct IH as [IH1 IH2]; [lia|]. apply wf_array. split; [lia|done].
  - intros d body ms _ IH Hl. simpl in Hl. rewrite length_app in Hl. apply wf_object, put_all_wf; [constructor|constructor|]. apply IH. lia.
  - intros d w1 core w2 v _ _ _ _ IH Hl. rewrite !length_app in Hl. apply IH. lia.
  - intros d w _ _. split; [simpl; lia|constructor].
  - intros d t v _ IH Hl. split; [simpl; lia|]. repeat constructor. apply IH. lia.
  - intros d t v body l _ IHt _ IHb Hl. rewrite length_app in Hl |- *. simpl in Hl |- *. destruct IHb as [I1 I2]; [lia|]. split; [lia|]. constructor; [apply IHt; lia|done].
  - intros d kt k vt v _ _ _ IHv Hl. rewrite length_app in Hl. simpl in Hl. repeat constructor. apply IHv. lia.
  - intros d kt k vt v body ms _ _ _ IHv _ IHm Hl. rewrite length_app in Hl. simpl in Hl. rewrite length_app in Hl. simpl in Hl. rewrite fmap_cons. constructor; [apply IHv; lia|apply IHm; lia].
Qed.

Lemma find_member_in k v l : NoDup l.*1 -> (k, v) ∈ l -> find_member k l = Some v.
Proof.
  intros Hn Hin. induction l as [|[k' v'] l IH]; [by apply elem_of_nil in Hin|]. cbn [find_member]. rewrite fmap_cons in Hn. apply NoDup_cons in Hn as [Hk Hn].
  apply elem_of_cons in Hin as [[= -> ->]|Hin]; [by rewrite bool_decide_true|]. rewrite bool_decide_false; [by apply IH|]. intros ->. apply Hk. apply list_elem_of_fmap. by exists (k, v).
Qed.

Section equal_props.
Context (deq : decimal -> decimal -> bool) (Hdeq : forall x, deq x x = true).

(** The loop over the members of an array. *)
Definition array_equal (o2 : pa_json_object) := fix array_equal (l1 : list pa_json_object) (i : Z) {struct l1} : outcome bool :=
  match l1 with
  | [] => Ok true
  | v1 :: l1 =>
      v2 ← pa_json_object_get_array_member o2 i;
      v2 ← deref v2;
      e ← pa_json_object_equal deq v1 v2;
      if (e : bool) then array_equal l1 (i + 1) else Ok false
  end.

Definition object_equal (o2 : pa_json_object) := fix object_equal (l1 : list (cstring * pa_json_object)) {struct l1} : outcome bool :=
  match l1 with
  | [] => Ok true
  | (key, v1) :: l1 =>
      v2 ← pa_json_object_get_object_member o2 key;
      match v2 with
      | None => Ok false
      | Some v2 =>
          e ← pa_json_object_equal deq v1 v2;
          if (e : bool) then object_equal l1 else Ok false
      end
  end.

(** Every value the parser makes is equal to itself, and none is too strange to be compared with another. *)
Theorem json_equal_refl s h v h' : Forall (fun c => c <> 0) s -> ~ big_exponent s -> Z.of_nat (length s) < 2 ^ 32 -> pa_json_parse s h = Ok (Some v, h') ->
  pa_json_object_equal deq v v = Ok true.
Proof.
  intros Hz Hb Hl E. destruct (parse_spec s h Hz Hb) as (r & h2 & E2 & Hr & _). rewrite E in E2. injection E2 as <- _.
  assert (json_wf v) as Hw by (apply (proj1 (proj2 text_wf) 0 s v); [by apply Hr|done]). clear -Hw Hdeq. revert Hw.
  induction v as [| | | |[]| |l IH|l IH] using json_ind'; intros Hw; try done; cbn [pa_json_object_equal pa_json_object_get_type].
  - rewrite bool_decide_true by done. simpl. by rewrite Z.eqb_refl.
  - rewrite bool_decide_true by done. simpl. by rewrite Hdeq.
  - rewrite !bool_decide_true by done. done.
  - rewrite bool_decide_true, Nat.eqb_refl by done. cbn [negb]. change (array_equal (JArray l) l 0 = Ok true). apply wf_array in Hw as [Hl Hw].
    assert (forall k pre, l = pre ++ k -> array_equal (JArray l) k (Z.of_nat (length pre)) = Ok true) as Hk; [|apply (Hk l []); done].
    induction k as [|x k IHk]; intros pre El; [done|]. cbn [array_equal pa_json_object_get_array_member mbind outcome_bind].
    rewrite u32_small, Nat2Z.id by (rewrite El, length_app in Hl; simpl in Hl; lia). rewrite El at 1. rewrite list_lookup_middle by done. cbn [deref mbind outcome_bind].
    rewrite El, Forall_app, Forall_cons in IH. rewrite El, Forall_app, Forall_cons in Hw. destruct IH as (_ & IHx & _). rewrite IHx by apply Hw. cbn [mbind outcome_bind].
    replace (Z.of_nat (length pre) + 1) with (Z.of_nat (length (pre ++ [x]))) by (rewrite length_app; simpl; lia). apply IHk. by rewrite <- app_assoc.
  - rewrite bool_decide_true, Nat.eqb_refl by done. cbn [negb]. change (object_equal (JObject l) l = Ok true). apply wf_object in Hw as [Hn Hw].
    assert (forall k, (forall x, x ∈ k -> x ∈ l) -> object_equal (JObject l) k = Ok true) as Hk; [|apply Hk; done].
    induction k as [|[key x] k IHk]; intros Hin; [done|]. cbn [object_equal pa_json_object_get_object_member mbind outcome_bind].
    assert ((key, x) ∈ l) as Hx by (apply Hin; left). rewrite (find_member_in key x l Hn Hx). assert (x ∈ l.*2) as Hx2 by (apply list_elem_of_fmap; by exists (key, x)).
    rewrite Forall_forall in IH, Hw. rewrite (IH x Hx2 (Hw x Hx2)). cbn [mbind outcome_bind]. apply IHk. intros y Hy. apply Hin. by right.
Qed.
End equal_props.

(** ** Where the code does not do what it means to *)

(** Numbers wrap around: the check for room comes before the digit is added. *)
Theorem numbers_wrap h : let h' := mk_jheap (jh_live h + 1) (jh_lost h) in
  pa_json_parse (str "4294967296123") h = Ok (Some (JInt 123), h') /\ pa_json_parse (str "-2147483649") h = Ok (Some (JInt 2147483647), h') /\
  pa_json_parse (str "3000000000") h = Ok (Some (JInt (-1294967296)), h') /\ pa_json_parse (str "1e2147483648") h = UB.
Proof. destruct h. by vm_compute. Qed.

(** An object without members is refused, an array that ends with a comma is not. *)
Theorem empty_object_refused h : (exists h', pa_json_parse (str "{ }") h = Ok (None, h')) /\ exists h', pa_json_parse (str "[1,]") h = Ok (Some (JArray [JInt 1]), h').
Proof. split; eexists; by vm_compute. Qed.

Module JsonExample.
(** [{"a": [1, 2], "a": null}] *)
Definition repeated : cstring := str "{" ++ 34 :: str "a" ++ 34 :: str ": [1, 2], " ++ 34 :: str "a" ++ 34 :: str ": null}".
Definition heap0 : jheap := mk_jheap 0 0.
End JsonExample.

(** The value of a key that is there already is neither put nor freed. *)
Theorem repeated_key_leaks : pa_json_parse JsonExample.repeated JsonExample.heap0 = Ok (Some (JObject [(str "a", JArray [JInt 1; JInt 2])]), mk_jheap 5 1).
Proof. by vm_compute. Qed.

Lemma json_accepts_witness :
  padded 0 JsonExample.repeated (JObject [(str "a", JArray [JInt 1; JInt 2])]) /\ ~ padded 0 (str "{}") (JObject []).
Proof.
  assert (forall n s, (length s < n)%nat -> (forall d, d ∈ s -> d <> "8"%ch /\ d <> "9"%ch) -> ~ big_exponent s) as Hbig.
  { intros n s _ Hs (pre & d & post & -> & Hd). destruct (Hs d) as [H1 H2]; [|naive_solver]. apply elem_of_app. right. apply elem_of_app. right. by left. }
  split.
  - destruct (json_accepts JsonExample.repeated JsonExample.heap0) as (r & h' & E & Hr & _).
    + apply (bool_decide_eq_true_1 _). by vm_compute.
    + apply (Hbig 100%nat); [vm_compute; lia|]. apply Forall_forall. apply (bool_decide_eq_true_1 _). by vm_compute.
    + apply Hr. vm_compute in E. injection E as <- _. done.
  - intros H. destruct (json_accepts (str "{}") JsonExample.heap0) as (r & h' & E & Hr & _).
    + apply (bool_decide_eq_true_1 _). by vm_compute.
    + apply (Hbig 100%nat); [vm_compute; lia|]. apply Forall_forall. apply (bool_decide_eq_true_1 _). by vm_compute.
    + apply Hr in H. subst r. vm_compute in E. done.
Defined.
