(* ===== verification/Tagstruct.v ===== *)
(** * Tagstruct: the wire format of the native protocol

    Models [src/pulsecore/tagstruct.c]: a growing buffer to which tagged values
    are appended, and a read cursor that takes them off again; every number is
    sent in network byte order.

    A function that reads returns -1 on malformed input; here it returns [None],
    with the cursor where the code leaves it.  What such a call may have stored
    through its output pointers is left out.  Strings and blobs that are read
    point into the buffer; here they are the bytes they point to. *)
From stdpp Require Import base tactics numbers list gmap.
From S2P Require Import Prelude Sample Memblock Proplist.

Definition MAX_TAG_SIZE : Z := 64 * 1024.
Definition MAX_APPENDED_SIZE : Z := 128.
Definition GROW_TAG_SIZE : Z := 100.

(** From [xmalloc.c]. *)
Definition MAX_ALLOC_SIZE : Z := 1024 * 1024 * 96.

Inductive tagstruct_type := PA_TAGSTRUCT_FIXED | PA_TAGSTRUCT_DYNAMIC | PA_TAGSTRUCT_APPENDED.

Record pa_tagstruct := mk_tagstruct {
  ts_data : list cell;              (* the [allocated] bytes [data] points to *)
  ts_length : Z;
  ts_allocated : Z;
  ts_rindex : Z;
  ts_type : tagstruct_type
}.

Definition set_ts (data : list cell) (length : Z) (t : pa_tagstruct) : pa_tagstruct :=
  mk_tagstruct data length (ts_allocated t) (ts_rindex t) (ts_type t).
Definition set_rindex (r : Z) (t : pa_tagstruct) : pa_tagstruct :=
  mk_tagstruct (ts_data t) (ts_length t) (ts_allocated t) r (ts_type t).

(** ** Tags *)

Definition PA_TAG_INVALID : Z := 0.
Definition PA_TAG_STRING : Z := 116.        (* 't' *)
Definition PA_TAG_STRING_NULL : Z := 78.    (* 'N' *)
Definition PA_TAG_U32 : Z := 76.            (* 'L' *)
Definition PA_TAG_U8 : Z := 66.             (* 'B' *)
Definition PA_TAG_U64 : Z := 82.            (* 'R' *)
Definition PA_TAG_S64 : Z := 114.           (* 'r' *)
Definition PA_TAG_SAMPLE_SPEC : Z := 97.    (* 'a' *)
Definition PA_TAG_ARBITRARY : Z := 120.     (* 'x' *)
Definition PA_TAG_BOOLEAN_TRUE : Z := 49.   (* '1' *)
Definition PA_TAG_BOOLEAN_FALSE : Z := 48.  (* '0' *)
Definition PA_TAG_TIMEVAL : Z := 84.        (* 'T' *)
Definition PA_TAG_USEC : Z := 85.           (* 'U' *)
Definition PA_TAG_CHANNEL_MAP : Z := 109.   (* 'm' *)
Definition PA_TAG_CVOLUME : Z := 118.       (* 'v' *)
Definition PA_TAG_PROPLIST : Z := 80.       (* 'P' *)
Definition PA_TAG_VOLUME : Z := 86.         (* 'V' *)
Definition PA_TAG_FORMAT_INFO : Z := 102.   (* 'f' *)

(** ** Making and growing *)

Definition pa_tagstruct_new : pa_tagstruct :=
  mk_tagstruct (uninit MAX_APPENDED_SIZE) 0 MAX_APPENDED_SIZE 0 PA_TAGSTRUCT_APPENDED.

Definition pa_tagstruct_new_fixed (data : list Z) : outcome pa_tagstruct :=
  let length := Z.of_nat (length data) in
  _ ← pa_assert (negb (length =? 0));
  Ok (mk_tagstruct (Some <$> data) length length 0 PA_TAGSTRUCT_FIXED).

Definition pa_xmalloc_ok (size : Z) : outcome unit := pa_assert ((0 <? size) && (size <? MAX_ALLOC_SIZE)).

Definition extend (t : pa_tagstruct) (l : Z) : outcome pa_tagstruct :=
  match ts_type t with
  | PA_TAGSTRUCT_FIXED => Abort
  | ty =>
      if u64 (ts_length t + l) <=? ts_allocated t then Ok t
      else
        let allocated := u64 (ts_length t + l + GROW_TAG_SIZE) in
        _ ← pa_xmalloc_ok allocated;
        data ← match ty with
               | PA_TAGSTRUCT_DYNAMIC => (* realloc *)
                   Ok (take (Z.to_nat allocated) (ts_data t) ++ uninit (allocated - Z.of_nat (length (ts_data t))))
               | _ => (* malloc, memcpy(data, appended, length) *)
                   src ← read_data (ts_data t) 0 (ts_length t);
                   deref (splice 0 src (uninit allocated))
               end;
        Ok (mk_tagstruct data (ts_length t) allocated (ts_rindex t) PA_TAGSTRUCT_DYNAMIC)
  end.

(** [memcpy(t->data + t->length, bytes)], and [length] moves on. *)
Definition append (t : pa_tagstruct) (bytes : list Z) : outcome pa_tagstruct :=
  data ← deref (splice (ts_length t) (Some <$> bytes) (ts_data t));
  Ok (set_ts data (u64 (ts_length t + Z.of_nat (length bytes))) t).

(** The bytes of [htonl(u)]. *)
Definition be32 (u : Z) : list Z := reverse (le_split 4 u).

Definition write_u8 (t : pa_tagstruct) (u : Z) : outcome pa_tagstruct :=
  t ← extend t 1; append t [u8 u].

Definition write_u32 (t : pa_tagstruct) (u : Z) : outcome pa_tagstruct :=
  t ← extend t 4; append t (be32 (u32 u)).

Definition write_u64 (t : pa_tagstruct) (u : Z) : outcome pa_tagstruct :=
  t ← write_u32 t (Z.shiftr u 32); write_u32 t u.

Definition write_arbitrary (t : pa_tagstruct) (p : list Z) : outcome pa_tagstruct :=
  t ← extend t (Z.of_nat (length p)); append t p.

(** ** Appending values *)

Definition pa_tagstruct_puts (t : pa_tagstruct) (s : option cstring) : outcome pa_tagstruct :=
  match s with
  | Some s => t ← write_u8 t PA_TAG_STRING; write_arbitrary t (s ++ [0])
  | None => write_u8 t PA_TAG_STRING_NULL
  end.

Definition pa_tagstruct_putu32 (t : pa_tagstruct) (i : Z) : outcome pa_tagstruct :=
  t ← write_u8 t PA_TAG_U32; write_u32 t i.

Definition pa_tagstruct_putu8 (t : pa_tagstruct) (c : Z) : outcome pa_tagstruct :=
  t ← write_u8 t PA_TAG_U8; write_u8 t c.

Definition pa_tagstruct_put_sample_spec (t : pa_tagstruct) (ss : pa_sample_spec) : outcome pa_tagstruct :=
  t ← write_u8 t PA_TAG_SAMPLE_SPEC;
  t ← write_u8 t (ss_format ss);
  t ← write_u8 t (ss_channels ss);
  write_u32 t (ss_rate ss).

Definition pa_tagstruct_put_arbitrary (t : pa_tagstruct) (p : list Z) : outcome pa_tagstruct :=
  t ← write_u8 t PA_TAG_ARBITRARY;
  t ← write_u32 t (Z.of_nat (length p));
  write_arbitrary t p.

Definition pa_tagstruct_put_boolean (t : pa_tagstruct) (b : bool) : outcome pa_tagstruct :=
  write_u8 t (if b then PA_TAG_BOOLEAN_TRUE else PA_TAG_BOOLEAN_FALSE).

Definition pa_tagstruct_put_timeval (t : pa_tagstruct) (tv : Z * Z) : outcome pa_tagstruct :=
  t ← write_u8 t PA_TAG_TIMEVAL;
  t ← write_u32 t (fst tv);
  write_u32 t (snd tv).

Definition pa_tagstruct_put_usec (t : pa_tagstruct) (u : Z) : outcome pa_tagstruct :=
  t ← write_u8 t PA_TAG_USEC; write_u64 t u.

Definition pa_tagstruct_putu64 (t : pa_tagstruct) (u : Z) : outcome pa_tagstruct :=
  t ← write_u8 t PA_TAG_U64; write_u64 t u.

(** The argument of [write_u64] is unsigned. *)
Definition pa_tagstruct_puts64 (t : pa_tagstruct) (u : Z) : outcome pa_tagstruct :=
  t ← write_u8 t PA_TAG_S64; write_u64 t (u64 u).

(** A channel map or a volume: the positions or volumes of its channels. *)
Definition pa_tagstruct_put_channel_map (t : pa_tagstruct) (map : list Z) : outcome pa_tagstruct :=
  t ← write_u8 t PA_TAG_CHANNEL_MAP;
  t ← write_u8 t (Z.of_nat (length map));
  foldl (fun t c => t ← t; write_u8 t c) (Ok t) map.

Definition pa_tagstruct_put_cvolume (t : pa_tagstruct) (values : list Z) : outcome pa_tagstruct :=
  t ← write_u8 t PA_TAG_CVOLUME;
  t ← write_u8 t (Z.of_nat (length values));
  foldl (fun t v => t ← t; write_u32 t v) (Ok t) values.

Definition pa_tagstruct_put_volume (t : pa_tagstruct) (vol : Z) : outcome pa_tagstruct :=
  t ← write_u8 t PA_TAG_VOLUME; write_u32 t vol.

(** [p] is the list iterated over, [q] what is left of it. *)
Fixpoint put_proplist_loop (t : pa_tagstruct) (p q : pa_proplist) : outcome pa_tagstruct :=
  match q with
  | [] => pa_tagstruct_puts t None
  | (k, _) :: q =>
      t ← pa_tagstruct_puts t (Some k);
      let '(r, d) := pa_proplist_get p k in
      _ ← pa_assert (0 <=? r);
      d ← deref d;
      t ← pa_tagstruct_putu32 t (u32 (Z.of_nat (length d)));
      t ← pa_tagstruct_put_arbitrary t d;
      put_proplist_loop t p q
  end.

Definition pa_tagstruct_put_proplist (t : pa_tagstruct) (p : pa_proplist) : outcome pa_tagstruct :=
  t ← write_u8 t PA_TAG_PROPLIST; put_proplist_loop t p p.

Definition pa_tagstruct_put_format_info (t : pa_tagstruct) (f : Z * pa_proplist) : outcome pa_tagstruct :=
  t ← write_u8 t PA_TAG_FORMAT_INFO;
  t ← pa_tagstruct_putu8 t (u8 (fst f));
  pa_tagstruct_put_proplist t (snd f).

(** ** Reading values *)

Definition reader (A : Type) : Type := pa_tagstruct -> outcome (option A * pa_tagstruct).

Definition ret {A} (a : A) : reader A := fun t => Ok (Some a, t).

(** [return -1]. *)
Definition fail {A} : reader A := fun t => Ok (None, t).

(** [if (m < 0) return -1;], then [k]. *)
Definition and_then {A B} (m : reader A) (k : A -> reader B) : reader B := fun t =>
  '(a, t) ← m t;
  match a with Some a => k a t | None => Ok (None, t) end.

Notation "x <~ m ; k" := (and_then m (fun x => k)) (at level 100, m at next level, right associativity).

Definition guard (b : bool) : reader unit := if b then ret tt else fail.

(** [t->data[i]]: the byte was written. *)
Definition byte_at (t : pa_tagstruct) (i : Z) : outcome Z :=
  c ← deref (ts_data t !! Z.to_nat i); deref c.

Fixpoint bytes_at (t : pa_tagstruct) (i : Z) (n : nat) : outcome (list Z) :=
  match n with
  | O => Ok []
  | S n => b ← byte_at t i; r ← bytes_at t (i + 1) n; Ok (b :: r)
  end.

(** [if (t->rindex + n > t->length) return -1;] *)
Definition have (n : Z) : reader unit := fun t =>
  if ts_length t <? u64 (ts_rindex t + n) then Ok (None, t) else Ok (Some tt, t).

(** [n] bytes at the cursor, which moves on. *)
Definition take_bytes (n : Z) : reader (list Z) := fun t =>
  l ← bytes_at t (ts_rindex t) (Z.to_nat n);
  Ok (Some l, set_rindex (u64 (ts_rindex t + n)) t).

Definition read_u8 : reader Z :=
  _ <~ have 1; l <~ take_bytes 1; ret (le_combine l).

(** [ntohl]. *)
Definition read_u32 : reader Z :=
  _ <~ have 4; l <~ take_bytes 4; ret (le_combine (reverse l)).

Definition read_u64 : reader Z :=
  hi <~ read_u32; lo <~ read_u32; ret (Z.lor (u64 (Z.shiftl hi 32)) lo).

Definition read_s64 : reader Z :=
  hi <~ read_u32; lo <~ read_u32; ret (Z.lor (s64 (u64 (Z.shiftl hi 32))) lo).

Definition read_arbitrary (length : Z) : reader (list Z) :=
  _ <~ have length; take_bytes length.

(** The byte at the cursor. *)
Definition peek_byte : reader Z := fun t => b ← byte_at t (ts_rindex t); Ok (Some b, t).

(** [t->rindex += n] *)
Definition skip (n : Z) : reader unit := fun t => Ok (Some tt, set_rindex (u64 (ts_rindex t + n)) t).

Definition read_tag (type : Z) : reader unit :=
  _ <~ have 1; b <~ peek_byte; _ <~ guard (b =? type); skip 1.

(** The loop that looks for the terminating null byte among the next [n]
    bytes: the string before it. *)
Fixpoint find_nul (t : pa_tagstruct) (i : Z) (n : nat) : outcome (option cstring) :=
  match n with
  | O => Ok None
  | S n =>
      c ← byte_at t i;
      if c =? 0 then Ok (Some [])
      else r ← find_nul t (i + 1) n; Ok (match r with Some s => Some (c :: s) | None => None end)
  end.

Definition read_string : reader cstring := fun t =>
  r ← find_nul t (ts_rindex t) (Z.to_nat (ts_length t - ts_rindex t));
  match r with
  | Some s => Ok (Some s, set_rindex (u64 (ts_rindex t + Z.of_nat (length s) + 1)) t)
  | None => Ok (None, t)
  end.

Definition pa_tagstruct_gets : reader (option cstring) :=
  _ <~ have 1;
  b <~ peek_byte;
  if b =? PA_TAG_STRING_NULL then _ <~ skip 1; ret None
  else _ <~ read_tag PA_TAG_STRING; _ <~ have 1; s <~ read_string; ret (Some s).

Definition pa_tagstruct_getu32 : reader Z := _ <~ read_tag PA_TAG_U32; read_u32.
Definition pa_tagstruct_getu8 : reader Z := _ <~ read_tag PA_TAG_U8; read_u8.

Definition pa_tagstruct_get_sample_spec : reader pa_sample_spec :=
  _ <~ read_tag PA_TAG_SAMPLE_SPEC;
  format <~ read_u8; channels <~ read_u8; rate <~ read_u32;
  ret (mk_sample_spec format rate channels).

Definition pa_tagstruct_get_arbitrary (length : Z) : reader (list Z) :=
  _ <~ read_tag PA_TAG_ARBITRARY; len <~ read_u32; _ <~ guard (len =? length); read_arbitrary length.

Definition pa_tagstruct_eof (t : pa_tagstruct) : bool := ts_length t <=? ts_rindex t.

(** The first [length] bytes of the buffer. *)
Definition pa_tagstruct_data (t : pa_tagstruct) : outcome (list cell) := read_data (ts_data t) 0 (ts_length t).

Definition pa_tagstruct_get_boolean : reader bool :=
  _ <~ have 1;
  b <~ peek_byte;
  if b =? PA_TAG_BOOLEAN_TRUE then _ <~ skip 1; ret true
  else if b =? PA_TAG_BOOLEAN_FALSE then _ <~ skip 1; ret false
  else fail.

Definition pa_tagstruct_get_timeval : reader (Z * Z) :=
  _ <~ read_tag PA_TAG_TIMEVAL; s <~ read_u32; us <~ read_u32; ret (s, us).

Definition pa_tagstruct_get_usec : reader Z := _ <~ read_tag PA_TAG_USEC; read_u64.
Definition pa_tagstruct_getu64 : reader Z := _ <~ read_tag PA_TAG_U64; read_u64.
Definition pa_tagstruct_gets64 : reader Z := _ <~ read_tag PA_TAG_S64; read_s64.

(** [n] values one after the other. *)
Fixpoint read_n (m : reader Z) (n : nat) : reader (list Z) :=
  match n with
  | O => ret []
  | S n => x <~ m; l <~ read_n m n; ret (x :: l)
  end.

Definition pa_tagstruct_get_channel_map : reader (list Z) :=
  _ <~ read_tag PA_TAG_CHANNEL_MAP; n <~ read_u8; _ <~ guard (n <=? PA_CHANNELS_MAX); read_n read_u8 (Z.to_nat n).

Definition pa_tagstruct_get_cvolume : reader (list Z) :=
  _ <~ read_tag PA_TAG_CVOLUME; n <~ read_u8; _ <~ guard (n <=? PA_CHANNELS_MAX); read_n read_u32 (Z.to_nat n).

Definition pa_tagstruct_get_volume : reader Z := _ <~ read_tag PA_TAG_VOLUME; read_u32.

(** [if (p)], setting a property that was read; the assertion is on its
    result. *)
Definition store_prop (p : option pa_proplist) (k : cstring) (d : list Z) : reader (option pa_proplist) := fun t =>
  match p with
  | None => Ok (Some None, t)
  | Some p => let '(r, p) := pa_proplist_set p k d in _ ← pa_assert (0 <=? r); Ok (Some (Some p), t)
  end.

(** Each round takes at least one byte off: [fuel] rounds are enough when that
    many bytes are left. *)
Fixpoint get_proplist_loop (fuel : nat) (p : option pa_proplist) : reader (option pa_proplist) :=
  match fuel with
  | O => fun _ => UB
  | S fuel =>
      k <~ pa_tagstruct_gets;
      match k with
      | None => ret p
      | Some k =>
          _ <~ guard (pa_proplist_key_valid k);
          length <~ pa_tagstruct_getu32;
          _ <~ guard (negb (MAX_TAG_SIZE <? length));
          d <~ pa_tagstruct_get_arbitrary length;
          p <~ store_prop p k d;
          get_proplist_loop fuel p
      end
  end.

(** Into the list [p]; with a null pointer the properties are only skipped. *)
Definition pa_tagstruct_get_proplist (p : option pa_proplist) : reader (option pa_proplist) :=
  _ <~ read_tag PA_TAG_PROPLIST; fun t => get_proplist_loop (S (Z.to_nat (ts_length t))) p t.

Definition pa_tagstruct_get_format_info (p : pa_proplist) : reader (Z * pa_proplist) :=
  _ <~ read_tag PA_TAG_FORMAT_INFO;
  encoding <~ pa_tagstruct_getu8;
  p <~ pa_tagstruct_get_proplist (Some p);
  ret (encoding, default [] p).

(** ** Several values in one call *)

(** The values that can be sent. *)
Inductive tag_value :=
| TString (s : option cstring)
| TU32 (u : Z)
| TU8 (u : Z)
| TU64 (u : Z)
| TS64 (u : Z)
| TSampleSpec (ss : pa_sample_spec)
| TArbitrary (p : list Z)
| TBoolean (b : bool)
| TTimeval (tv : Z * Z)
| TUsec (u : Z)
| TChannelMap (m : list Z)
| TCvolume (v : list Z)
| TVolume (v : Z)
| TProplist (p : pa_proplist)
| TFormatInfo (f : Z * pa_proplist).

Definition put_value (t : pa_tagstruct) (v : tag_value) : outcome pa_tagstruct :=
  match v with
  | TString s => pa_tagstruct_puts t s
  | TU32 u => pa_tagstruct_putu32 t u
  | TU8 u => pa_tagstruct_putu8 t u
  | TU64 u => pa_tagstruct_putu64 t u
  | TS64 u => pa_tagstruct_puts64 t u
  | TSampleSpec ss => pa_tagstruct_put_sample_spec t ss
  | TArbitrary p => pa_tagstruct_put_arbitrary t p
  | TBoolean b => pa_tagstruct_put_boolean t b
  | TTimeval tv => pa_tagstruct_put_timeval t tv
  | TUsec u => pa_tagstruct_put_usec t u
  | TChannelMap m => pa_tagstruct_put_channel_map t m
  | TCvolume v => pa_tagstruct_put_cvolume t v
  | TVolume v => pa_tagstruct_put_volume t v
  | TProplist p => pa_tagstruct_put_proplist t p
  | TFormatInfo f => pa_tagstruct_put_format_info t f
  end.

(** The variable arguments of [pa_tagstruct_put], which knows no signed numbers
    and no format infos. *)
Fixpoint pa_tagstruct_put (t : pa_tagstruct) (vs : list tag_value) : outcome pa_tagstruct :=
  match vs with
  | [] => Ok t
  | TS64 _ :: _ | TFormatInfo _ :: _ => Abort
  | v :: vs => t ← put_value t v; pa_tagstruct_put t vs
  end.

(** What is asked for: the type of a value, the length of a blob, and the list a
    property list is read into. *)
Inductive tag_request :=
| RString | RU32 | RU8 | RU64 | RS64 | RSampleSpec
| RArbitrary (length : Z)
| RBoolean | RTimeval | RUsec | RChannelMap | RCvolume | RVolume
| RProplist (p : option pa_proplist)
| RFormatInfo (p : pa_proplist).

Definition map_reader {A B} (f : A -> B) (m : reader A) : reader B := x <~ m; ret (f x).

Definition get_value (r : tag_request) : reader tag_value :=
  match r with
  | RString => map_reader TString pa_tagstruct_gets
  | RU32 => map_reader TU32 pa_tagstruct_getu32
  | RU8 => map_reader TU8 pa_tagstruct_getu8
  | RU64 => map_reader TU64 pa_tagstruct_getu64
  | RS64 => map_reader TS64 pa_tagstruct_gets64
  | RSampleSpec => map_reader TSampleSpec pa_tagstruct_get_sample_spec
  | RArbitrary n => map_reader TArbitrary (pa_tagstruct_get_arbitrary n)
  | RBoolean => map_reader TBoolean pa_tagstruct_get_boolean
  | RTimeval => map_reader TTimeval pa_tagstruct_get_timeval
  | RUsec => map_reader TUsec pa_tagstruct_get_usec
  | RChannelMap => map_reader TChannelMap pa_tagstruct_get_channel_map
  | RCvolume => map_reader TCvolume pa_tagstruct_get_cvolume
  | RVolume => map_reader TVolume pa_tagstruct_get_volume
  | RProplist p => map_reader (fun p => TProplist (default [] p)) (pa_tagstruct_get_proplist p)
  | RFormatInfo p => map_reader TFormatInfo (pa_tagstruct_get_format_info p)
  end.

Fixpoint pa_tagstruct_get (rs : list tag_request) : reader (list tag_value) :=
  match rs with
  | [] => ret []
  | RS64 :: _ | RFormatInfo _ :: _ => fun _ => Abort
  | r :: rs => v <~ get_value r; vs <~ pa_tagstruct_get rs; ret (v :: vs)
  end.
