(* ===== verification/TagstructProps.v ===== *)
(** * TagstructProps: what is sent is what is read

    Writing and reading are inverse, for every kind of value, and reading never
    leaves the buffer, whatever bytes it holds. *)
From stdpp Require Import base tactics numbers list gmap.
From S2P Require Import Prelude Sample Memblock Proplist Tagstruct.

Abbreviation is_byte := (fun b => 0 <= b < 256).

(** The buffer holds the bytes [bs]. *)
Record filled (t : pa_tagstruct) (bs : list Z) : Prop := {
  fl_length : ts_length t = Z.of_nat (length bs);
  fl_allocated : ts_allocated t = Z.of_nat (length (ts_data t));
  fl_fits : ts_length t <= ts_allocated t < 2 ^ 62;
  fl_data : take (length bs) (ts_data t) = Some <$> bs
}.

(** ** Writing *)

(** [w] appends the bytes [bs], while the buffer may grow. *)
Definition writes (w : pa_tagstruct -> outcome pa_tagstruct) (bs : list Z) : Prop :=
  forall t old, filled t old -> ts_type t <> PA_TAGSTRUCT_FIXED ->
    Z.of_nat (length old + length bs) + GROW_TAG_SIZE < MAX_ALLOC_SIZE ->
    exists t', w t = Ok t' /\ filled t' (old ++ bs) /\ ts_type t' <> PA_TAGSTRUCT_FIXED /\
      ts_rindex t' = ts_rindex t.

Lemma writes_bind w1 w2 b1 b2 : writes w1 b1 -> writes w2 b2 -> writes (fun t => t ← w1 t; w2 t) (b1 ++ b2).
Proof.
  intros H1 H2 t old Hf Ht Hb. rewrite length_app in Hb.
  destruct (H1 t old Hf Ht) as (t1 & -> & Hf1 & Ht1 & E1); [lia|]. rewrite bind_ok.
  destruct (H2 t1 _ Hf1 Ht1) as (t2 & -> & Hf2 & Ht2 & E2); [rewrite length_app; lia|].
  exists t2. rewrite <- app_assoc in Hf2. split_and!; congruence || done.
Qed.

Lemma extend_ok t old l : filled t old -> ts_type t <> PA_TAGSTRUCT_FIXED -> 0 <= l ->
  Z.of_nat (length old) + l + GROW_TAG_SIZE < MAX_ALLOC_SIZE ->
  exists t', extend t l = Ok t' /\ filled t' old /\ ts_type t' <> PA_TAGSTRUCT_FIXED /\
    ts_length t' + l <= ts_allocated t' /\ ts_rindex t' = ts_rindex t.
Proof.
  intros [Hl Ha Hfit Hd] Ht Hl0 Hb. unfold MAX_ALLOC_SIZE, GROW_TAG_SIZE in *. unfold extend.
  assert (length old <= length (ts_data t))%nat as Hle by lia.
  destruct (Z.leb_spec (u64 (ts_length t + l)) (ts_allocated t)) as [Hle2|Hgt].
  { rewrite u64_small in Hle2 by lia. exists t. destruct (ts_type t) eqn:Et; [done|..]; split_and!; done || congruence || lia. }
  rewrite !u64_small in * by (unfold GROW_TAG_SIZE; lia). unfold pa_xmalloc_ok, MAX_ALLOC_SIZE, GROW_TAG_SIZE.
  rewrite pa_assert_true, bind_ok by blia.
  assert (forall d, length d = Z.to_nat (ts_length t + l + 100) -> take (length old) d = Some <$> old ->
    filled (mk_tagstruct d (ts_length t) (ts_length t + l + 100) (ts_rindex t) PA_TAGSTRUCT_DYNAMIC) old) as Hnew.
  { intros d Hdl Hdd. split; simpl; try done; lia. }
  destruct (ts_type t) eqn:Et; [done|..].
  - eexists. split; [done|]. split; [apply Hnew|split_and!; simpl; done || lia].
    + rewrite length_app, length_take. unfold uninit. rewrite length_replicate. lia.
    + rewrite take_app_le, take_take by (rewrite length_take; lia). by rewrite Nat.min_l by lia.
  - rewrite read_data_ok, bind_ok by lia. unfold sub_list. rewrite drop_0, Hl, Nat2Z.id, Hd.
    destruct (splice_some 0 (Some <$> old) (uninit (Z.of_nat (length old) + l + 100))) as [d Ed].
    { lia. } { rewrite length_fmap, uninit_length; lia. }
    rewrite bind_ok, Ed. cbn [deref]. rewrite bind_ok. eexists. split; [done|]. rewrite <- Hl.
    split; [apply Hnew|split_and!; simpl; done || lia].
    + rewrite (splice_length _ _ _ _ Ed). pose proof (uninit_length (Z.of_nat (length old) + l + 100)). lia.
    + pose proof (splice_prefix 0 0 _ _ _ Ed ltac:(lia)) as Hp. unfold sub_list in Hp. rewrite !drop_0 in Hp.
      rewrite length_fmap in Hp. replace (Z.to_nat (0 - 0 + Z.of_nat (length old))) with (length old) in Hp by lia.
      by rewrite Hp.
Qed.

Lemma append_ok t old bs : filled t old -> Z.of_nat (length bs) + ts_length t <= ts_allocated t ->
  exists t', append t bs = Ok t' /\ filled t' (old ++ bs) /\ ts_type t' = ts_type t /\ ts_rindex t' = ts_rindex t.
Proof.
  intros [Hl Ha Hfit Hd] Hb. unfold append.
  destruct (splice_some (ts_length t) (Some <$> bs) (ts_data t)) as [d Ed];
    [lia|rewrite length_fmap; lia|].
  rewrite Ed. cbn [deref]. rewrite bind_ok. eexists. split; [done|]. split_and!; [|done|done].
  split; simpl; rewrite ?length_app, ?u64_small by lia.
  - lia.
  - by rewrite (splice_length _ _ _ _ Ed).
  - lia.
  - pose proof (splice_prefix _ 0 _ _ _ Ed ltac:(lia)) as Hp. unfold sub_list in Hp. rewrite !drop_0 in Hp.
    rewrite length_fmap in Hp.
    replace (Z.to_nat (ts_length t - 0 + Z.of_nat (length bs))) with (length old + length bs)%nat in Hp by lia.
    replace (Z.to_nat (ts_length t - 0)) with (length old) in Hp by lia. by rewrite Hp, Hd, fmap_app.
Qed.

Lemma writes_bytes n bs : n = Z.of_nat (length bs) -> writes (fun t => t ← extend t n; append t bs) bs.
Proof.
  intros -> t old Hf Ht Hb. destruct (extend_ok t old _ Hf Ht (Nat2Z.is_nonneg (length bs)))
    as (t1 & -> & Hf1 & Ht1 & Hl1 & E1); [lia|]. rewrite bind_ok.
  destruct (append_ok t1 old bs Hf1) as (t2 & -> & Hf2 & Ht2 & E2); [lia|].
  exists t2. split_and!; congruence || done.
Qed.

Lemma be32_length u : length (be32 u) = 4%nat.
Proof. done. Qed.

Lemma write_u8_ok u : writes (fun t => write_u8 t u) [u8 u].
Proof. by apply writes_bytes. Qed.

Lemma write_u32_ok u : writes (fun t => write_u32 t u) (be32 (u32 u)).
Proof. by apply writes_bytes. Qed.

Definition be64 (u : Z) : list Z := be32 (u32 (Z.shiftr u 32)) ++ be32 (u32 u).

Lemma write_u64_ok u : writes (fun t => write_u64 t u) (be64 u).
Proof. apply (writes_bind _ (fun t => write_u32 t u)); apply write_u32_ok. Qed.

Lemma write_arbitrary_ok p : writes (fun t => write_arbitrary t p) p.
Proof. by apply writes_bytes. Qed.

Lemma writes_foldl (w : pa_tagstruct -> Z -> outcome pa_tagstruct) f l :
  (forall x, writes (fun t => w t x) (f x)) ->
  writes (fun t => foldl (fun t x => t ← t; w t x) (Ok t) l) (mjoin (f <$> l)).
Proof.
  intros Hw. induction l as [|x l IH] using rev_ind.
  - intros t old Hf Ht _. exists t. rewrite app_nil_r. done.
  - rewrite fmap_app, join_app. simpl. rewrite app_nil_r. intros t old Hf Ht Hb. rewrite length_app in Hb.
    rewrite foldl_app. simpl. destruct (IH t old Hf Ht) as (t1 & -> & Hf1 & Ht1 & E1); [lia|]. simpl.
    destruct (Hw x t1 _ Hf1 Ht1) as (t2 & -> & Hf2 & Ht2 & E2); [rewrite length_app; lia|].
    exists t2. rewrite <- app_assoc in Hf2. split_and!; congruence || done.
Qed.

(** ** Reading *)

Lemma filled_rindex t bs r : filled t bs -> filled (set_rindex r t) bs.
Proof. intros []. by split. Qed.

Lemma byte_at_ok t bs i b : filled t bs -> bs !! i = Some b -> byte_at t (Z.of_nat i) = Ok b.
Proof.
  intros [_ _ _ Hd] Hb. unfold byte_at. rewrite Nat2Z.id.
  assert (ts_data t !! i = Some (Some b)) as ->; [|done].
  rewrite <- (lookup_take_lt _ (length bs)) by (by eapply lookup_lt_Some). by rewrite Hd, list_lookup_fmap, Hb.
Qed.

Lemma bytes_at_ok t bs : filled t bs -> forall mid i, take (length mid) (drop i bs) = mid ->
  bytes_at t (Z.of_nat i) (length mid) = Ok mid.
Proof.
  intros Hf. induction mid as [|b mid IH]; intros i Hm; [done|]. cbn [length bytes_at].
  destruct (drop i bs) as [|c rest] eqn:E; [done|]. simpl in Hm. injection Hm as -> Hm.
  assert (bs !! i = Some b) as Hb by (by rewrite <- (Nat.add_0_r i), <- lookup_drop, E).
  rewrite (byte_at_ok t bs i b Hf Hb), bind_ok. replace (Z.of_nat i + 1) with (Z.of_nat (S i)) by lia.
  rewrite IH; [done|]. apply (drop_S _ _ _) in Hb. rewrite E in Hb. by injection Hb as <-.
Qed.

(** [m] takes the bytes [bs] off and returns [a]. *)
Definition reads {A} (m : reader A) (bs : list Z) (a : A) : Prop :=
  forall t pre post, filled t (pre ++ bs ++ post) -> ts_rindex t = Z.of_nat (length pre) ->
    m t = Ok (Some a, set_rindex (Z.of_nat (length pre + length bs)) t).

Lemma set_rindex_twice r r' t : set_rindex r (set_rindex r' t) = set_rindex r t.
Proof. done. Qed.

Lemma set_rindex_id t r : ts_rindex t = r -> set_rindex r t = t.
Proof. intros <-. by destruct t. Qed.

Lemma reads_ret {A} (a : A) : reads (ret a) [] a.
Proof. intros t pre post _ Hr. unfold ret. rewrite Nat.add_0_r, <- Hr. by rewrite set_rindex_id. Qed.

Lemma reads_bind {A B} (m : reader A) (k : A -> reader B) b1 b2 a c :
  reads m b1 a -> reads (k a) b2 c -> reads (and_then m k) (b1 ++ b2) c.
Proof.
  intros H1 H2 t pre post Hf Hr. unfold and_then. rewrite <- app_assoc in Hf. rewrite (H1 t pre _ Hf Hr), bind_ok.
  rewrite app_assoc in Hf. rewrite (H2 _ (pre ++ b1) post).
  - rewrite set_rindex_twice, !length_app. by rewrite Nat.add_assoc.
  - by apply filled_rindex.
  - simpl. by rewrite length_app.
Qed.

Lemma reads_map {A B} (f : A -> B) m bs a : reads m bs a -> reads (map_reader f m) bs (f a).
Proof. intros Hm. rewrite <- (app_nil_r bs). eapply reads_bind; [exact Hm|apply reads_ret]. Qed.

Lemma reads_have {A} n (m : reader A) bs a : 0 <= n <= Z.of_nat (length bs) -> reads m bs a ->
  reads (_ <~ have n; m) bs a.
Proof.
  intros Hn Hm t pre post Hf Hr. unfold and_then, have. pose proof Hf as [Hl _ Hfit _].
  rewrite !length_app in Hl. rewrite u64_small by lia. rewrite (proj2 (Z.ltb_ge _ _)), bind_ok by lia.
  by apply (Hm t pre post).
Qed.

Lemma reads_guard {A} b (m : reader A) bs a : b = true -> reads m bs a -> reads (_ <~ guard b; m) bs a.
Proof. by intros -> Hm. Qed.

Lemma reads_peek {A} (k : Z -> reader A) b bs a : reads (k b) (b :: bs) a -> reads (x <~ peek_byte; k x) (b :: bs) a.
Proof.
  intros Hk t pre post Hf Hr. unfold and_then, peek_byte. rewrite Hr, (byte_at_ok t _ (length pre) b Hf), !bind_ok.
  - by apply (Hk t pre post).
  - rewrite lookup_app_r, Nat.sub_diag by lia. done.
Qed.

Lemma reads_skip b : reads (skip 1) [b] tt.
Proof.
  intros t pre post [Hl _ Hfit _] Hr. unfold skip. rewrite !length_app in Hl. simpl in Hl.
  rewrite u64_small by lia. do 3 f_equal. simpl. lia.
Qed.

Lemma reads_take bs : reads (take_bytes (Z.of_nat (length bs))) bs bs.
Proof.
  intros t pre post Hf Hr. unfold take_bytes. rewrite Nat2Z.id, Hr, (bytes_at_ok t _ Hf), bind_ok.
  - pose proof Hf as [Hl _ Hfit _]. rewrite !length_app in Hl. rewrite u64_small by lia. do 3 f_equal. lia.
  - rewrite drop_app_length. by rewrite take_app_length.
Qed.

Lemma read_bytes_ok {A} (f : list Z -> A) n bs : n = Z.of_nat (length bs) ->
  reads (_ <~ have n; l <~ take_bytes n; ret (f l)) bs (f bs).
Proof.
  intros ->. apply reads_have; [lia|]. rewrite <- (app_nil_r bs) at 2.
  eapply reads_bind; [apply reads_take|apply reads_ret].
Qed.

Lemma read_u8_ok u : 0 <= u < 256 -> reads read_u8 [u8 u] u.
Proof.
  intros Hu. rewrite u8_small by lia. pose proof (read_bytes_ok le_combine 1 [u] eq_refl) as H. simpl in H.
  replace (u + 256 * 0) with u in H by lia. exact H.
Qed.

Lemma be32_combine u : le_combine (reverse (be32 u)) = u32 u.
Proof. unfold be32. rewrite reverse_involutive, le_combine_split. done. Qed.

Lemma read_u32_ok u : 0 <= u < 2 ^ 32 -> reads read_u32 (be32 (u32 u)) u.
Proof.
  intros Hu. rewrite u32_small by lia.
  pose proof (read_bytes_ok (fun l => le_combine (reverse l)) 4 (be32 u) eq_refl) as H.
  cbv beta in H. rewrite be32_combine, u32_small in H by lia. exact H.
Qed.

Lemma u32_range u : 0 <= u32 u < 2 ^ 32.
Proof. apply u32_bound. Qed.

Lemma lor_split hi lo : 0 <= lo < 2 ^ 32 -> Z.lor (hi * 2 ^ 32) lo = hi * 2 ^ 32 + lo.
Proof. intros Hl. rewrite <- lor_add by lia. by rewrite Z.shiftl_mul_pow2. Qed.

(** The two halves of a 64-bit number. *)
Lemma halves u : 0 <= u < 2 ^ 64 ->
  0 <= Z.shiftr u 32 < 2 ^ 32 /\ u = Z.shiftr u 32 * 2 ^ 32 + u32 u.
Proof.
  intros Hu. rewrite Z.shiftr_div_pow2 by lia. unfold u32. split.
  - split; [apply Z.div_pos; lia|apply Z.div_lt_upper_bound; lia].
  - pose proof (Z.div_mod u (2 ^ 32) ltac:(lia)). lia.
Qed.

Lemma reads_halves {A} (f : Z -> Z -> A) u : 0 <= u < 2 ^ 64 ->
  reads (hi <~ read_u32; lo <~ read_u32; ret (f hi lo)) (be64 u) (f (Z.shiftr u 32) (u32 u)).
Proof.
  intros Hu. destruct (halves u Hu) as [Hh _]. unfold be64. eapply reads_bind; [by apply read_u32_ok|].
  rewrite <- (app_nil_r (be32 (u32 u))), <- (u32_idem u) at 1.
  eapply reads_bind; [apply read_u32_ok, u32_range|apply reads_ret].
Qed.

Lemma read_u64_ok u : 0 <= u < 2 ^ 64 -> reads read_u64 (be64 u) u.
Proof.
  intros Hu. destruct (halves u Hu) as [Hh E].
  pose proof (reads_halves (fun hi lo => Z.lor (u64 (Z.shiftl hi 32)) lo) u Hu) as H. cbv beta in H.
  rewrite Z.shiftl_mul_pow2, u64_small, lor_split, <- E in H by (apply u32_range || lia). exact H.
Qed.

Lemma read_s64_ok u : - 2 ^ 63 <= u < 2 ^ 63 -> reads read_s64 (be64 (u64 u)) u.
Proof.
  intros Hu. pose proof (u64_bound u) as Hb. destruct (halves (u64 u) ltac:(lia)) as [Hh E].
  pose proof (u32_range (u64 u)) as Hlo.
  pose proof (reads_halves (fun hi lo => Z.lor (s64 (u64 (Z.shiftl hi 32))) lo) (u64 u) ltac:(lia)) as H. cbv beta in H.
  set (h := Z.shiftr (u64 u) 32) in *.
  assert (exists g, s64 (u64 (Z.shiftl h 32)) = g * 2 ^ 32 /\ g * 2 ^ 32 + u32 (u64 u) = u) as (g & Eg & Eu).
  { rewrite Z.shiftl_mul_pow2, u64_small by lia. unfold s64. rewrite u64_small by lia. cbv zeta.
    destruct (decide (0 <= u)).
    - rewrite u64_small in * by lia. rewrite (proj2 (Z.ltb_lt _ _)) by lia. exists h. lia.
    - rewrite (u64_neg u) in * by lia. rewrite (proj2 (Z.ltb_ge _ _)) by lia. exists (h - 2 ^ 32). lia. }
  rewrite Eg, lor_split, Eu in H by done. exact H.
Qed.

Lemma read_tag_ok ty : reads (read_tag ty) [ty] tt.
Proof.
  apply reads_have; [simpl; lia|]. apply reads_peek, reads_guard; [apply Z.eqb_refl|]. apply reads_skip.
Qed.

Lemma read_arbitrary_ok p : reads (read_arbitrary (Z.of_nat (length p))) p p.
Proof. apply reads_have; [lia|apply reads_take]. Qed.

Lemma read_n_ok (m : reader Z) (f : Z -> list Z) (ok : Z -> Prop) l : (forall x, ok x -> reads m (f x) x) ->
  Forall ok l -> reads (read_n m (length l)) (mjoin (f <$> l)) l.
Proof.
  intros Hm. induction 1 as [|x l Hx _ IH]; [apply reads_ret|].
  change (mjoin (f <$> x :: l)) with (f x ++ mjoin (f <$> l)). cbn [read_n length].
  eapply reads_bind; [by apply Hm|]. rewrite <- (app_nil_r (mjoin (f <$> l))).
  eapply reads_bind; [exact IH|apply reads_ret].
Qed.

(** The string before the first null byte. *)
Fixpoint nul_prefix (l : list Z) : option cstring :=
  match l with
  | [] => None
  | c :: l => if c =? 0 then Some [] else match nul_prefix l with Some s => Some (c :: s) | None => None end
  end.

Lemma find_nul_ok t bs : filled t bs -> forall l i, drop i bs = l ->
  find_nul t (Z.of_nat i) (length l) = Ok (nul_prefix l).
Proof.
  intros Hf. induction l as [|c l IH]; intros i E; [done|]. cbn [length find_nul].
  assert (bs !! i = Some c) as Hb by (by rewrite <- (Nat.add_0_r i), <- lookup_drop, E).
  rewrite (byte_at_ok t bs i c Hf Hb), bind_ok. simpl. destruct (c =? 0); [done|].
  replace (Z.of_nat i + 1) with (Z.of_nat (S i)) by lia. rewrite IH; [done|].
  apply (drop_S _ _ _) in Hb. rewrite E in Hb. by injection Hb as <-.
Qed.

Lemma nul_prefix_string s post : Forall (fun c => c <> 0) s -> nul_prefix (s ++ 0 :: post) = Some s.
Proof.
  induction 1 as [|c s Hc _ IH]; [done|]. simpl. rewrite (proj2 (Z.eqb_neq _ _)) by done. by rewrite IH.
Qed.

Lemma read_string_ok s : Forall (fun c => c <> 0) s -> reads read_string (s ++ [0]) s.
Proof.
  intros Hs t pre post Hf Hr. unfold read_string. pose proof Hf as [Hl _ Hfit _].
  replace (Z.to_nat (ts_length t - ts_rindex t)) with (length ((s ++ [0]) ++ post))
    by (rewrite Hl, Hr, !length_app; lia).
  rewrite Hr, (find_nul_ok t _ Hf) by apply drop_app_length. rewrite bind_ok, <- app_assoc. simpl.
  rewrite nul_prefix_string by done. rewrite !length_app in Hl. simpl in Hl. rewrite u64_small by lia.
  do 3 f_equal. rewrite length_app. simpl. lia.
Qed.

(** ** The encoding of a value *)

Definition enc_string (s : cstring) : list Z := [PA_TAG_STRING] ++ s ++ [0].
Definition enc_u32 (u : Z) : list Z := [PA_TAG_U32] ++ be32 (u32 u).
Definition enc_arbitrary (p : list Z) : list Z :=
  [PA_TAG_ARBITRARY] ++ be32 (u32 (Z.of_nat (length p))) ++ p.
Definition enc_prop (x : cstring * list Z) : list Z :=
  enc_string (fst x) ++ enc_u32 (Z.of_nat (length (snd x))) ++ enc_arbitrary (snd x).
Definition enc_proplist (p : pa_proplist) : list Z :=
  [PA_TAG_PROPLIST] ++ mjoin (enc_prop <$> p) ++ [PA_TAG_STRING_NULL].

Definition encode (v : tag_value) : list Z :=
  match v with
  | TString (Some s) => enc_string s
  | TString None => [PA_TAG_STRING_NULL]
  | TU32 u => enc_u32 u
  | TU8 u => [PA_TAG_U8] ++ [u8 u]
  | TU64 u => [PA_TAG_U64] ++ be64 u
  | TS64 u => [PA_TAG_S64] ++ be64 (u64 u)
  | TSampleSpec ss => [PA_TAG_SAMPLE_SPEC] ++ [u8 (ss_format ss)] ++ [u8 (ss_channels ss)] ++ be32 (u32 (ss_rate ss))
  | TArbitrary p => enc_arbitrary p
  | TBoolean b => [if b then PA_TAG_BOOLEAN_TRUE else PA_TAG_BOOLEAN_FALSE]
  | TTimeval tv => [PA_TAG_TIMEVAL] ++ be32 (u32 (fst tv)) ++ be32 (u32 (snd tv))
  | TUsec u => [PA_TAG_USEC] ++ be64 u
  | TChannelMap m => [PA_TAG_CHANNEL_MAP] ++ [u8 (Z.of_nat (length m))] ++ mjoin ((fun c => [u8 c]) <$> m)
  | TCvolume v => [PA_TAG_CVOLUME] ++ [u8 (Z.of_nat (length v))] ++ mjoin ((fun c => be32 (u32 c)) <$> v)
  | TVolume v => [PA_TAG_VOLUME] ++ be32 (u32 v)
  | TProplist p => enc_proplist p
  | TFormatInfo f => [PA_TAG_FORMAT_INFO] ++ ([PA_TAG_U8] ++ [u8 (u8 (fst f))]) ++ enc_proplist (snd f)
  end.

(** The values that fit their types on the wire. *)
Definition string_fits (s : cstring) : Prop := Forall (fun c => c <> 0) s.
Definition proplist_fits (p : pa_proplist) : Prop :=
  proplist_ok p /\ Forall (fun x => string_fits x.1 /\ Z.of_nat (length x.2) <= MAX_TAG_SIZE) p.

Definition value_fits (v : tag_value) : Prop :=
  match v with
  | TString s => match s with Some s => string_fits s | None => True end
  | TU32 u | TVolume u => 0 <= u < 2 ^ 32
  | TU8 u => 0 <= u < 256
  | TU64 u | TUsec u => 0 <= u < 2 ^ 64
  | TS64 u => - 2 ^ 63 <= u < 2 ^ 63
  | TSampleSpec ss => 0 <= ss_format ss < 256 /\ 0 <= ss_channels ss < 256 /\ 0 <= ss_rate ss < 2 ^ 32
  | TArbitrary p => Z.of_nat (length p) < 2 ^ 32
  | TBoolean _ => True
  | TTimeval tv => 0 <= fst tv < 2 ^ 32 /\ 0 <= snd tv < 2 ^ 32
  | TChannelMap m => Z.of_nat (length m) <= PA_CHANNELS_MAX /\ Forall is_byte m
  | TCvolume v => Z.of_nat (length v) <= PA_CHANNELS_MAX /\ Forall (fun x => 0 <= x < 2 ^ 32) v
  | TProplist p => proplist_fits p
  | TFormatInfo f => 0 <= fst f < 256 /\ proplist_fits (snd f)
  end.

Definition request_for (v : tag_value) : tag_request :=
  match v with
  | TString _ => RString
  | TU32 _ => RU32
  | TU8 _ => RU8
  | TU64 _ => RU64
  | TS64 _ => RS64
  | TSampleSpec _ => RSampleSpec
  | TArbitrary p => RArbitrary (Z.of_nat (length p))
  | TBoolean _ => RBoolean
  | TTimeval _ => RTimeval
  | TUsec _ => RUsec
  | TChannelMap _ => RChannelMap
  | TCvolume _ => RCvolume
  | TVolume _ => RVolume
  | TProplist _ => RProplist (Some [])
  | TFormatInfo _ => RFormatInfo []
  end.

(** *** Property lists *)

Lemma proplist_get_elem p k d : proplist_ok p -> (k, d) ∈ p -> pa_proplist_get p k = (0, Some d).
Proof.
  intros [Hn Hv] He. unfold pa_proplist_get. rewrite Forall_forall in Hv. pose proof (Hv _ He) as Hk. simpl in Hk.
  rewrite Hk, prop_get_map. simpl. unfold to_map. by rewrite (elem_of_list_to_map_1 _ _ _ Hn He).
Qed.

Lemma puts_ok s : writes (fun t => pa_tagstruct_puts t s) (encode (TString s)).
Proof.
  destruct s as [s|]; [|apply write_u8_ok].
  apply (writes_bind _ (fun t => write_arbitrary t (s ++ [0]))); [apply write_u8_ok|apply write_arbitrary_ok].
Qed.

Lemma putu32_ok u : writes (fun t => pa_tagstruct_putu32 t u) (enc_u32 u).
Proof. apply (writes_bind _ (fun t => write_u32 t u)); [apply write_u8_ok|apply write_u32_ok]. Qed.

Lemma put_arbitrary_ok p : writes (fun t => pa_tagstruct_put_arbitrary t p) (enc_arbitrary p).
Proof.
  apply (writes_bind _ (fun t => t ← write_u32 t (Z.of_nat (length p)); write_arbitrary t p)); [apply write_u8_ok|].
  apply (writes_bind _ (fun t => write_arbitrary t p)); [apply write_u32_ok|apply write_arbitrary_ok].
Qed.

Lemma put_proplist_loop_ok p q : proplist_ok p -> (forall x, x ∈ q -> x ∈ p) ->
  Forall (fun x => Z.of_nat (length x.2) <= MAX_TAG_SIZE) q ->
  writes (fun t => put_proplist_loop t p q) (mjoin (enc_prop <$> q) ++ [PA_TAG_STRING_NULL]).
Proof.
  intros Hp Hq Hl. induction q as [|[k d] q IH]; [apply (puts_ok None)|].
  change (mjoin (enc_prop <$> (k, d) :: q)) with (enc_prop (k, d) ++ mjoin (enc_prop <$> q)). unfold enc_prop at 1.
  apply Forall_cons in Hl as [Hld Hl]. simpl in Hld. rewrite <- !app_assoc. cbn [put_proplist_loop].
  rewrite (proplist_get_elem p k d Hp) by (apply Hq; left).
  cbn [fst snd]. set (n := Z.of_nat (length d)).
  replace (enc_u32 n) with (enc_u32 (u32 n)) by (unfold enc_u32; by rewrite u32_idem).
  apply (writes_bind (fun t => pa_tagstruct_puts t (Some k)) (fun t => t ← pa_tagstruct_putu32 t (u32 n);
    t ← pa_tagstruct_put_arbitrary t d; put_proplist_loop t p q) (enc_string k)); [apply (puts_ok (Some k))|].
  apply (writes_bind (fun t => pa_tagstruct_putu32 t _)
    (fun t => t ← pa_tagstruct_put_arbitrary t d; put_proplist_loop t p q)); [apply putu32_ok|].
  apply (writes_bind _ (fun t => put_proplist_loop t p q)); [apply put_arbitrary_ok|].
  apply IH; [|done]. intros x Hx. apply Hq. by right.
Qed.

Lemma put_proplist_ok p : proplist_fits p -> writes (fun t => pa_tagstruct_put_proplist t p) (enc_proplist p).
Proof.
  intros [Hp Hf]. apply (writes_bind _ (fun t => put_proplist_loop t p p)); [apply write_u8_ok|].
  apply put_proplist_loop_ok; [done|done|]. eapply Forall_impl; [exact Hf|]. naive_solver.
Qed.

(** Every kind of value is written as it is encoded. *)
Lemma put_value_ok v : value_fits v -> writes (fun t => put_value t v) (encode v).
Proof.
  destruct v; cbn [encode put_value value_fits]; intros Hv.
  - apply (puts_ok s).
  - apply putu32_ok.
  - apply (writes_bind _ (fun t => write_u8 t u)); apply write_u8_ok.
  - apply (writes_bind _ (fun t => write_u64 t u)); [apply write_u8_ok|apply write_u64_ok].
  - apply (writes_bind _ (fun t => write_u64 t (u64 u))); [apply write_u8_ok|apply write_u64_ok].
  - apply (writes_bind _ (fun t => t ← write_u8 t (ss_format ss); t ← write_u8 t (ss_channels ss); write_u32 t (ss_rate ss)));
      [apply write_u8_ok|].
    apply (writes_bind _ (fun t => t ← write_u8 t (ss_channels ss); write_u32 t (ss_rate ss))); [apply write_u8_ok|].
    apply (writes_bind _ (fun t => write_u32 t (ss_rate ss))); [apply write_u8_ok|apply write_u32_ok].
  - apply put_arbitrary_ok.
  - destruct b; apply write_u8_ok.
  - apply (writes_bind _ (fun t => t ← write_u32 t (fst tv); write_u32 t (snd tv))); [apply write_u8_ok|].
    apply (writes_bind _ (fun t => write_u32 t (snd tv))); apply write_u32_ok.
  - apply (writes_bind _ (fun t => write_u64 t u)); [apply write_u8_ok|apply write_u64_ok].
  - apply (writes_bind _ (fun t => t ← write_u8 t (Z.of_nat (length m));
      foldl (fun t c => t ← t; write_u8 t c) (Ok t) m)); [apply write_u8_ok|].
    apply (writes_bind _ (fun t => foldl (fun t c => t ← t; write_u8 t c) (Ok t) m)); [apply write_u8_ok|].
    apply (writes_foldl write_u8 (fun c => [u8 c])), write_u8_ok.
  - apply (writes_bind _ (fun t => t ← write_u8 t (Z.of_nat (length v));
      foldl (fun t c => t ← t; write_u32 t c) (Ok t) v)); [apply write_u8_ok|].
    apply (writes_bind _ (fun t => foldl (fun t c => t ← t; write_u32 t c) (Ok t) v)); [apply write_u8_ok|].
    apply (writes_foldl write_u32 (fun c => be32 (u32 c))), write_u32_ok.
  - apply (writes_bind _ (fun t => write_u32 t v)); [apply write_u8_ok|apply write_u32_ok].
  - by apply put_proplist_ok.
  - apply (writes_bind _ (fun t => t ← pa_tagstruct_putu8 t (u8 (fst f)); pa_tagstruct_put_proplist t (snd f)));
      [apply write_u8_ok|].
    apply (writes_bind _ (fun t => pa_tagstruct_put_proplist t (snd f))); [|apply put_proplist_ok, Hv].
    apply (writes_bind _ (fun t => write_u8 t (u8 (fst f)))); apply write_u8_ok.
Qed.

(** *** Reading a value back *)

Lemma gets_ok s : value_fits (TString s) -> reads pa_tagstruct_gets (encode (TString s)) s.
Proof.
  intros Hs. unfold pa_tagstruct_gets. destruct s as [s|].
  - apply reads_have; [simpl; lia|]. apply reads_peek. simpl (_ =? _). cbn iota.
    apply (reads_bind _ _ [PA_TAG_STRING] (s ++ [0]) tt); [apply read_tag_ok|].
    apply reads_have; [rewrite length_app; simpl; lia|]. rewrite <- (app_nil_r (s ++ [0])).
    eapply reads_bind; [by apply read_string_ok|apply reads_ret].
  - apply reads_have; [simpl; lia|]. apply reads_peek. simpl (_ =? _). cbn iota.
    apply (reads_bind _ _ [PA_TAG_STRING_NULL] [] tt); [apply reads_skip|apply reads_ret].
Qed.

Lemma getu32_ok u : 0 <= u < 2 ^ 32 -> reads pa_tagstruct_getu32 (enc_u32 u) u.
Proof. intros Hu. eapply reads_bind; [apply read_tag_ok|by apply read_u32_ok]. Qed.

Lemma getu8_ok u : 0 <= u < 256 -> reads pa_tagstruct_getu8 ([PA_TAG_U8] ++ [u8 u]) u.
Proof. intros Hu. eapply reads_bind; [apply read_tag_ok|by apply read_u8_ok]. Qed.

Lemma get_arbitrary_ok p : Z.of_nat (length p) < 2 ^ 32 ->
  reads (pa_tagstruct_get_arbitrary (Z.of_nat (length p))) (enc_arbitrary p) p.
Proof.
  intros Hl. eapply reads_bind; [apply read_tag_ok|]. eapply reads_bind; [apply read_u32_ok; lia|].
  apply reads_guard; [apply Z.eqb_refl|apply read_arbitrary_ok].
Qed.

(** Properties put one after the other into an empty list are that list. *)
Lemma prop_put_new p k d : k ∉ p.*1 -> prop_put p k d = p ++ [(k, d)].
Proof.
  induction p as [|x p IH]; intros Hk; [done|]. rewrite fmap_cons in Hk. simpl.
  rewrite bool_decide_eq_false_2 by set_solver. rewrite IH; [done|set_solver].
Qed.

Lemma get_proplist_loop_ok q : forall acc fuel, proplist_fits (acc ++ q) -> (length q < fuel)%nat ->
  reads (get_proplist_loop fuel (Some acc)) (mjoin (enc_prop <$> q) ++ [PA_TAG_STRING_NULL]) (Some (acc ++ q)).
Proof.
  induction q as [|[k d] q IH]; intros acc fuel [Hp Hf] Hfuel; (destruct fuel as [|fuel]; [simpl in Hfuel; lia|]);
    cbn [get_proplist_loop].
  - rewrite app_nil_r. apply (reads_bind _ _ [PA_TAG_STRING_NULL] [] None); [by apply (gets_ok None)|apply reads_ret].
  - change (mjoin (enc_prop <$> (k, d) :: q)) with (enc_prop (k, d) ++ mjoin (enc_prop <$> q)). unfold enc_prop at 1.
    rewrite <- !app_assoc. cbn [fst snd].
    pose proof Hf as Hf'. apply Forall_app in Hf' as [_ Hkd]. apply Forall_cons in Hkd as [[Hks Hdl] _]. simpl in Hks, Hdl.
    unfold MAX_TAG_SIZE in Hdl. destruct Hp as [Hn Hv]. pose proof Hv as Hv'.
    apply Forall_app in Hv' as [_ Hkv]. apply Forall_cons in Hkv as [Hkv _]. simpl in Hkv.
    assert (k ∉ acc.*1) as Hka.
    { rewrite fmap_app, fmap_cons in Hn. apply NoDup_app in Hn as (_ & Hd & _). intros Hin. eapply Hd; [done|left]. }
    eapply reads_bind; [by apply (gets_ok (Some k))|]. cbn iota beta. apply reads_guard; [done|].
    eapply reads_bind; [apply getu32_ok; lia|]. apply reads_guard; [unfold MAX_TAG_SIZE; blia|].
    eapply reads_bind; [apply get_arbitrary_ok; lia|].
    rewrite <- (app_nil_l (mjoin _ ++ _)). eapply (reads_bind _ _ [] _ (Some (acc ++ [(k, d)]))).
    + intros t pre post _ Hr. unfold store_prop, pa_proplist_set. rewrite Hkv, prop_put_new by done. simpl.
      by rewrite Nat.add_0_r, set_rindex_id.
    + replace (acc ++ (k, d) :: q) with ((acc ++ [(k, d)]) ++ q) by (by rewrite <- app_assoc).
      apply IH; [|simpl in Hfuel; lia]. rewrite <- app_assoc. by split; [split|].
Qed.

Lemma enc_length q : (length q <= length (mjoin (enc_prop <$> q)))%nat.
Proof.
  induction q as [|x q IH]; [done|]. change (mjoin (enc_prop <$> x :: q)) with (enc_prop x ++ mjoin (enc_prop <$> q)).
  unfold enc_prop at 1, enc_string. rewrite !length_app. simpl. lia.
Qed.

Lemma get_proplist_ok p : proplist_fits p -> reads (pa_tagstruct_get_proplist (Some [])) (enc_proplist p) (Some p).
Proof.
  intros Hp. eapply reads_bind; [apply read_tag_ok|]. intros t pre post Hf Hr.
  apply (get_proplist_loop_ok p [] _ Hp) with (post := post); [|done|done].
  destruct Hf as [Hl _ _ _]. rewrite !length_app in Hl. pose proof (enc_length p). lia.
Qed.

(** Every kind of value is read back from its encoding. *)
Lemma get_value_ok v : value_fits v -> reads (get_value (request_for v)) (encode v) v.
Proof.
  destruct v; cbn [encode get_value request_for value_fits]; intros Hv; lazymatch goal with |- context [TProplist] => idtac | _ => apply reads_map end.
  - by apply (gets_ok s).
  - by apply getu32_ok.
  - by apply getu8_ok.
  - eapply reads_bind; [apply read_tag_ok|by apply read_u64_ok].
  - eapply reads_bind; [apply read_tag_ok|by apply read_s64_ok].
  - destruct Hv as (Hf & Hc & Hr). eapply reads_bind; [apply read_tag_ok|].
    eapply reads_bind; [by apply read_u8_ok|]. eapply reads_bind; [by apply read_u8_ok|].
    rewrite <- (app_nil_r (be32 _)). eapply reads_bind; [by apply read_u32_ok|]. destruct ss. apply reads_ret.
  - by apply get_arbitrary_ok.
  - apply reads_have; [simpl; lia|]. apply reads_peek. destruct b; simpl (_ =? _); cbn iota.
    + apply (reads_bind _ _ [PA_TAG_BOOLEAN_TRUE] [] tt); [apply reads_skip|apply reads_ret].
    + apply (reads_bind _ _ [PA_TAG_BOOLEAN_FALSE] [] tt); [apply reads_skip|apply reads_ret].
  - destruct Hv as [Hs Hu]. eapply reads_bind; [apply read_tag_ok|]. eapply reads_bind; [by apply read_u32_ok|].
    rewrite <- (app_nil_r (be32 _)). eapply reads_bind; [by apply read_u32_ok|]. destruct tv. apply reads_ret.
  - eapply reads_bind; [apply read_tag_ok|by apply read_u64_ok].
  - destruct Hv as [Hl Hm]. eapply reads_bind; [apply read_tag_ok|]. unfold PA_CHANNELS_MAX in Hl.
    eapply reads_bind; [apply read_u8_ok; lia|]. apply reads_guard; [unfold PA_CHANNELS_MAX; blia|].
    rewrite Nat2Z.id. apply (read_n_ok read_u8 (fun c => [u8 c]) is_byte); [apply read_u8_ok|done].
  - destruct Hv as [Hl Hm]. eapply reads_bind; [apply read_tag_ok|]. unfold PA_CHANNELS_MAX in Hl.
    eapply reads_bind; [apply read_u8_ok; lia|]. apply reads_guard; [unfold PA_CHANNELS_MAX; blia|].
    rewrite Nat2Z.id. apply (read_n_ok read_u32 (fun c => be32 (u32 c)) (fun x => 0 <= x < 2 ^ 32)); [apply read_u32_ok|done].
  - eapply reads_bind; [apply read_tag_ok|by apply read_u32_ok].
  - by apply (reads_map (fun p => TProplist (default [] p)) _ _ (Some p)), get_proplist_ok.
  - destruct Hv as [He Hp]. eapply reads_bind; [apply read_tag_ok|].
    eapply reads_bind; [rewrite (u8_small (fst f)) by lia; by apply getu8_ok|].
    rewrite <- (app_nil_r (enc_proplist _)). eapply reads_bind; [by apply get_proplist_ok|]. destruct f. apply reads_ret.
Qed.

(** ** Reading never leaves the buffer

    [safe N n d Q m]: with at most [N] and at least [n] bytes left, [m] returns,
    the cursor stays within the buffer and never goes back, and if a value is
    returned it satisfies [Q] and the cursor moved by at least [d]. *)
Definition safe {A} (N n d : Z) (Q : A -> Prop) (m : reader A) : Prop := forall t bs,
  filled t bs -> Forall is_byte bs -> 0 <= ts_rindex t -> n <= ts_length t - ts_rindex t <= N ->
  exists o r, m t = Ok (o, set_rindex r t) /\ ts_rindex t <= r <= ts_length t /\
    match o with Some a => Q a /\ ts_rindex t + d <= r | None => True end.

Lemma safe_bind {A B} N n d1 d2 (Q : A -> Prop) (R : B -> Prop) m k : safe N n d1 Q m ->
  (forall a, Q a -> safe (N - d1) 0 d2 R (k a)) -> safe N n (d1 + d2) R (and_then m k).
Proof.
  intros Hm Hk t bs Hf Hb Hr Hn. unfold and_then.
  destruct (Hm t bs Hf Hb Hr Hn) as (o & r & -> & Hr1 & Ho). rewrite bind_ok. destruct o as [a|].
  - destruct Ho as [HQ Hd]. destruct (Hk a HQ (set_rindex r t) bs) as (o & r' & -> & Hr2 & Ho); simpl in *;
      [by apply filled_rindex|done|lia|lia|].
    exists o, r'. split; [done|]. split; [lia|]. destruct o; [|done]. destruct Ho. split; [done|lia].
  - exists None, r. done.
Qed.

Lemma safe_mono {A} N n d N' n' d' (Q R : A -> Prop) m : safe N n d Q m -> N' <= N -> n <= n' -> d' <= d ->
  (forall a, Q a -> R a) -> safe N' n' d' R m.
Proof.
  intros Hm HN Hn Hd HQ t bs Hf Hb Hr Hl. destruct (Hm t bs Hf Hb Hr ltac:(lia)) as (o & r & E & Hr1 & Ho).
  exists o, r. split; [done|]. split; [done|]. destruct o; [|done]. destruct Ho. split; [auto|lia].
Qed.

Lemma safe_ret {A} N n (Q : A -> Prop) a : 0 <= n -> Q a -> safe N n 0 Q (ret a).
Proof.
  intros Hn HQ t bs Hf Hb Hr Hl. exists (Some a), (ts_rindex t). rewrite set_rindex_id by done. split_and!; done || lia.
Qed.

Lemma safe_fail {A} N n d (Q : A -> Prop) : 0 <= n -> safe N n d Q fail.
Proof. intros Hn t bs Hf Hb Hr Hl. exists None, (ts_rindex t). rewrite set_rindex_id by done. split_and!; done || lia. Qed.

Lemma safe_guard {A} N n d b (Q : A -> Prop) m : 0 <= n -> (b = true -> safe N n d Q m) ->
  safe N n d Q (_ <~ guard b; m).
Proof. intros Hn Hm. destruct b; [by apply Hm|]. by apply safe_fail. Qed.

Lemma safe_have {A} N n d k (Q : A -> Prop) m : 0 <= k < 2 ^ 32 -> 0 <= n -> safe N k d Q m ->
  safe N n d Q (_ <~ have k; m).
Proof.
  intros Hk Hn Hm t bs Hf Hb Hr Hl. pose proof Hf as [_ _ Hfit _]. unfold and_then, have. rewrite u64_small by lia.
  destruct (Z.ltb_spec (ts_length t) (ts_rindex t + k)); rewrite bind_ok.
  - exists None, (ts_rindex t). rewrite set_rindex_id by done. split_and!; done || lia.
  - by apply (Hm t bs); [..|lia].
Qed.

Lemma safe_skip N : safe N 1 1 (fun _ => True) (skip 1).
Proof.
  intros t bs Hf Hb Hr Hl. pose proof Hf as [_ _ Hfit _]. unfold skip. rewrite u64_small by lia.
  eexists _, _. split; [done|]. split_and!; done || lia.
Qed.

Lemma bytes_left t bs n : filled t bs -> 0 <= ts_rindex t -> 0 <= n -> n <= ts_length t - ts_rindex t ->
  exists l, bytes_at t (ts_rindex t) (Z.to_nat n) = Ok l /\ Z.of_nat (length l) = n /\
    (forall x, x ∈ l -> x ∈ bs).
Proof.
  intros Hf Hr Hn Hl. pose proof Hf as [Hlen _ _ _].
  set (l := take (Z.to_nat n) (drop (Z.to_nat (ts_rindex t)) bs)).
  assert (length l = Z.to_nat n) as Hll by (unfold l; rewrite length_take, length_drop; lia).
  exists l. split_and!; [|lia|].
  - rewrite <- (Z2Nat.id (ts_rindex t)) by lia. rewrite <- Hll. apply (bytes_at_ok t bs Hf). by rewrite Hll.
  - intros x Hx. unfold l in Hx. apply elem_of_take in Hx as (i & Hx & _). rewrite lookup_drop in Hx.
    by apply list_elem_of_lookup_2 in Hx.
Qed.

Lemma safe_take N n : 0 <= n < 2 ^ 32 ->
  safe N n n (fun l => Z.of_nat (length l) = n /\ Forall is_byte l) (take_bytes n).
Proof.
  intros Hn t bs Hf Hb Hr Hl. pose proof Hf as [_ _ Hfit _]. unfold take_bytes.
  destruct (bytes_left t bs n Hf Hr) as (l & -> & Hll & Hin); [lia|lia|]. rewrite bind_ok, u64_small by lia.
  eexists _, _. split; [done|]. split; [lia|]. split; [|lia]. split; [done|].
  rewrite Forall_forall in *. auto.
Qed.

Lemma safe_peek {A} N d (Q : A -> Prop) k : (forall b, safe N 1 d Q (k b)) -> safe N 1 d Q (x <~ peek_byte; k x).
Proof.
  intros Hk t bs Hf Hb Hr Hl. pose proof Hf as [Hlen _ _ _]. unfold and_then, peek_byte.
  destruct (lookup_lt_is_Some_2 bs (Z.to_nat (ts_rindex t))) as [b Eb]; [lia|].
  assert (byte_at t (ts_rindex t) = Ok b) as -> by (rewrite <- (byte_at_ok t bs _ b Hf Eb); f_equal; lia).
  rewrite !bind_ok.
  by apply (Hk b t bs).
Qed.

Lemma safe_u8 N : safe N 0 1 (fun u => 0 <= u < 256) read_u8.
Proof.
  apply safe_have; [lia..|]. eapply (safe_bind _ _ 1 0); [by apply safe_take|]. intros l [Hl Hb]. apply safe_ret; [lia|].
  pose proof (le_combine_bound l Hb) as Hr. by rewrite Hl in Hr.
Qed.

Lemma safe_u32 N : safe N 0 4 (fun u => 0 <= u < 2 ^ 32) read_u32.
Proof.
  apply safe_have; [lia..|]. eapply (safe_bind _ _ 4 0); [by apply safe_take|]. intros l [Hl Hb]. apply safe_ret; [lia|].
  pose proof (le_combine_bound (reverse l) ltac:(by apply Forall_reverse)) as Hr.
  rewrite length_reverse, Hl in Hr. done.
Qed.

Lemma safe_tag N ty : safe N 0 1 (fun _ => True) (read_tag ty).
Proof. apply safe_have; [lia..|]. apply safe_peek. intros b. apply safe_guard; [lia|]. intros _. apply safe_skip. Qed.

Lemma safe_arbitrary N n : 0 <= n < 2 ^ 32 -> safe N 0 n (fun _ => True) (read_arbitrary n).
Proof.
  intros Hn. apply safe_have; [lia..|]. eapply safe_mono; [apply (safe_take N n Hn)|lia|lia|lia|done].
Qed.

Lemma nul_prefix_length l s : nul_prefix l = Some s -> (length s < length l)%nat.
Proof.
  revert s. induction l as [|c l IH]; intros s Hs; simpl in *; [done|].
  destruct (c =? 0); simplify_eq; [simpl; lia|]. destruct (nul_prefix l) as [s'|]; simplify_eq. simpl.
  specialize (IH s' eq_refl). lia.
Qed.

Lemma safe_string N : safe N 0 1 (fun _ => True) read_string.
Proof.
  intros t bs Hf Hb Hr Hl. pose proof Hf as [Hlen _ Hfit _]. unfold read_string.
  replace (Z.to_nat (ts_length t - ts_rindex t)) with (length (drop (Z.to_nat (ts_rindex t)) bs))
    by (rewrite length_drop; lia).
  pose proof (find_nul_ok t bs Hf _ (Z.to_nat (ts_rindex t)) eq_refl) as E. rewrite Z2Nat.id in E by lia.
  rewrite E, bind_ok.
  destruct (nul_prefix _) as [s|] eqn:Es.
  - apply nul_prefix_length in Es. rewrite length_drop in Es. rewrite u64_small by lia.
    eexists _, _. split; [done|]. split_and!; done || lia.
  - exists None, (ts_rindex t). rewrite set_rindex_id by done. split_and!; done || lia.
Qed.

(** Shorthands for the values that need nothing of their parts. *)
Abbreviation harmless N d m := (safe N 0 d (fun _ => True) m).

Lemma safe_seq {A B} N d1 d2 d (Q : A -> Prop) (m : reader A) (k : A -> reader B) : safe N 0 d1 Q m ->
  (forall a, Q a -> harmless (N - d1) d2 (k a)) -> d = d1 + d2 -> harmless N d (and_then m k).
Proof. intros Hm Hk ->. by eapply safe_bind. Qed.

Lemma safe_map {A B} N d (f : A -> B) m : harmless N d m -> harmless N d (map_reader f m).
Proof. intros Hm. eapply (safe_seq _ _ 0); [exact Hm| |lia]. intros a _. by apply safe_ret. Qed.

Lemma safe_tagged {A} N d ty (m : reader A) : harmless (N - 1) d m -> harmless N (1 + d) (_ <~ read_tag ty; m).
Proof. intros Hm. eapply safe_bind; [apply safe_tag|]. intros _ _. exact Hm. Qed.

Lemma safe_u64 {A} N (f : Z -> Z -> A) : harmless N 8 (hi <~ read_u32; lo <~ read_u32; ret (f hi lo)).
Proof.
  eapply (safe_seq _ 4 4); [apply safe_u32| |lia]. intros hi _.
  eapply (safe_seq _ 4 0); [apply safe_u32| |lia]. intros lo _. by apply safe_ret.
Qed.

Lemma safe_any {A} N n d d' (Q : A -> Prop) m : safe N n d Q m -> d' <= d -> safe N n d' (fun _ => True) m.
Proof. intros Hm Hd. by eapply safe_mono; [exact Hm|lia..|]. Qed.

Lemma safe_gets N : harmless N 1 pa_tagstruct_gets.
Proof.
  apply safe_have; [lia..|]. apply safe_peek. intros b. destruct (b =? PA_TAG_STRING_NULL).
  - eapply (safe_bind _ _ 1 0); [apply safe_skip|]. intros _ _. by apply safe_ret.
  - apply (safe_mono N 0 2 N 1 1 (fun _ => True)); [|lia..|done]. apply (safe_tagged N 1). apply safe_have; [lia..|].
    apply (safe_bind _ _ 1 0 (fun _ => True)); [|intros s _; by apply safe_ret].
    eapply safe_mono; [apply (safe_string (N - 1))|lia..|done].
Qed.

Lemma safe_get_arbitrary N n : harmless N 5 (pa_tagstruct_get_arbitrary n).
Proof.
  apply (safe_tagged N 4). eapply (safe_seq _ 4 0); [apply safe_u32| |lia]. intros len Hlen.
  apply safe_guard; [lia|]. intros ->%Z.eqb_eq. eapply safe_any; [by apply safe_arbitrary|lia].
Qed.

Lemma safe_read_n N (m : reader Z) (Q : Z -> Prop) n : (forall N, safe N 0 0 Q m) -> harmless N 0 (read_n m n).
Proof.
  intros Hm. revert N. induction n as [|n IH]; intros N; cbn [read_n]; [by apply safe_ret|].
  eapply (safe_seq _ 0 0); [apply Hm| |lia]. intros x _.
  eapply (safe_seq _ 0 0); [apply IH| |lia]. intros l _. by apply safe_ret.
Qed.

Lemma safe_store N p k d : pa_proplist_key_valid k = true -> harmless N 0 (store_prop p k d).
Proof.
  intros Hk t bs Hf Hb Hr Hl. unfold store_prop, pa_proplist_set. rewrite Hk. simpl.
  destruct p as [p|]; eexists (Some _), (ts_rindex t); (rewrite set_rindex_id by done; split_and!; done || lia).
Qed.

Lemma safe_proplist_loop fuel : forall N p, N < Z.of_nat fuel -> harmless N 0 (get_proplist_loop fuel p).
Proof.
  induction fuel as [|fuel IH]; intros N p HN.
  - intros t bs Hf Hb Hr Hl. lia.
  - cbn [get_proplist_loop]. eapply safe_any; [eapply (safe_seq _ 1 0); [apply safe_gets| |done]|lia].
    intros [k|] _; [|by apply safe_ret]. apply safe_guard; [lia|]. intros Hk.
    eapply (safe_seq _ 0 0); [eapply safe_any; [apply safe_tagged; eapply safe_any; [apply safe_u32|apply Z.le_refl]|lia]| |lia].
    intros n _. apply safe_guard; [lia|]. intros _.
    eapply (safe_seq _ 0 0); [eapply safe_any; [apply safe_get_arbitrary|lia]| |lia]. intros d _.
    eapply (safe_seq _ 0 0); [by apply safe_store| |lia]. intros p' _. apply IH. lia.
Qed.

Lemma safe_proplist N p : harmless N 0 (pa_tagstruct_get_proplist p).
Proof.
  eapply safe_any; [apply (safe_tagged _ 0)|lia]. intros t bs Hf Hb Hr Hl. pose proof Hf as [_ _ Hfit _].
  apply (safe_proplist_loop (S (Z.to_nat (ts_length t))) (ts_length t) p ltac:(lia) t bs); done || lia.
Qed.

Lemma safe_tagged0 {A} N d ty (m : reader A) (Q : A -> Prop) : safe (N - 1) 0 d Q m -> 0 <= d ->
  harmless N 0 (_ <~ read_tag ty; m).
Proof.
  intros Hm Hd. eapply safe_any; [apply (safe_tagged N 0)|lia]. by eapply safe_any.
Qed.

Lemma safe_boolean N : harmless N 0 pa_tagstruct_get_boolean.
Proof.
  apply safe_have; [lia..|]. apply safe_peek. intros b.
  repeat case_match; try (by apply safe_fail); (eapply safe_any; [eapply (safe_bind _ _ 1 0); [apply safe_skip|]|lia]);
    intros _ _; by apply safe_ret.
Qed.

Lemma safe_channels N ty (m : reader Z) (Q : Z -> Prop) : (forall N, safe N 0 0 Q m) ->
  harmless N 0 (_ <~ read_tag ty; n <~ read_u8; _ <~ guard (n <=? PA_CHANNELS_MAX); read_n m (Z.to_nat n)).
Proof.
  intros Hm. eapply (safe_tagged0 _ 1); [|lia]. eapply (safe_seq _ 1 0); [apply safe_u8| |lia]. intros n _.
  apply safe_guard; [lia|]. intros _. by eapply safe_read_n.
Qed.

Lemma safe_value N r : harmless N 0 (get_value r).
Proof.
  assert (forall N, safe N 0 0 (fun u => 0 <= u < 256) read_u8) as H8
    by (intros M; eapply safe_mono; [apply (safe_u8 M)|lia..|done]).
  assert (forall N, safe N 0 0 (fun u => 0 <= u < 2 ^ 32) read_u32) as H32
    by (intros M; eapply safe_mono; [apply (safe_u32 M)|lia..|done]).
  destruct r; apply safe_map.
  - eapply safe_any; [apply safe_gets|lia].
  - by eapply safe_tagged0; [apply H32|].
  - by eapply safe_tagged0; [apply H8|].
  - by eapply safe_tagged0; [apply safe_u64|].
  - by eapply safe_tagged0; [apply safe_u64|].
  - eapply (safe_tagged0 _ 0); [|done]. eapply (safe_seq _ 0 0); [apply H8| |lia]. intros f _.
    eapply (safe_seq _ 0 0); [apply H8| |lia]. intros c _.
    eapply (safe_seq _ 0 0); [apply H32| |lia]. intros ra _. by apply safe_ret.
  - eapply safe_any; [apply safe_get_arbitrary|lia].
  - apply safe_boolean.
  - by eapply safe_tagged0; [apply safe_u64|].
  - by eapply safe_tagged0; [apply safe_u64|].
  - by eapply safe_channels.
  - by eapply safe_channels.
  - by eapply safe_tagged0; [apply H32|].
  - apply safe_proplist.
  - eapply (safe_tagged0 _ 0); [|done].
    eapply (safe_seq _ 0 0); [by eapply safe_tagged0; [apply H8|]| |lia]. intros e _.
    eapply (safe_seq _ 0 0); [apply safe_proplist| |lia]. intros p' _. by apply safe_ret.
Qed.

(** ** Whole messages *)

(** One call after the other. *)
Fixpoint put_each (t : pa_tagstruct) (vs : list tag_value) : outcome pa_tagstruct :=
  match vs with
  | [] => Ok t
  | v :: vs => t ← put_value t v; put_each t vs
  end.

Fixpoint get_each (rs : list tag_request) : reader (list tag_value) :=
  match rs with
  | [] => ret []
  | r :: rs => v <~ get_value r; vs <~ get_each rs; ret (v :: vs)
  end.

(** The values [pa_tagstruct_put] and [pa_tagstruct_get] know. *)
Definition in_varargs (v : tag_value) : bool :=
  match v with TS64 _ | TFormatInfo _ => false | _ => true end.
Definition request_in_varargs (r : tag_request) : bool :=
  match r with RS64 | RFormatInfo _ => false | _ => true end.

Lemma put_varargs vs : forallb in_varargs vs = true -> forall t, pa_tagstruct_put t vs = put_each t vs.
Proof.
  induction vs as [|v vs IH]; intros Hv t; [done|]. simpl in Hv. apply andb_true_iff in Hv as [Hv Hvs].
  destruct v; try done; cbn [pa_tagstruct_put put_each]; destruct (put_value t _); simpl; auto.
Qed.

Lemma get_varargs rs : forallb request_in_varargs rs = true -> forall t, pa_tagstruct_get rs t = get_each rs t.
Proof.
  induction rs as [|r rs IH]; intros Hr t; [done|]. simpl in Hr. apply andb_true_iff in Hr as [Hr Hrs].
  destruct r; try done; cbn [pa_tagstruct_get get_each]; unfold and_then at 1 3;
    destruct (get_value _ t) as [[[v|] t']| |]; simpl; unfold and_then; rewrite ?IH; done.
Qed.

Lemma put_each_ok vs : Forall value_fits vs -> writes (fun t => put_each t vs) (mjoin (encode <$> vs)).
Proof.
  induction 1 as [|v vs Hv _ IH].
  - intros t old Hf Ht _. exists t. by rewrite app_nil_r.
  - change (mjoin (encode <$> v :: vs)) with (encode v ++ mjoin (encode <$> vs)).
    apply (writes_bind _ (fun t => put_each t vs)); [by apply put_value_ok|exact IH].
Qed.

Lemma get_each_ok vs : Forall value_fits vs -> reads (get_each (request_for <$> vs)) (mjoin (encode <$> vs)) vs.
Proof.
  induction 1 as [|v vs Hv _ IH]; [apply reads_ret|].
  change (mjoin (encode <$> v :: vs)) with (encode v ++ mjoin (encode <$> vs)). rewrite fmap_cons. cbn [get_each].
  eapply reads_bind; [by apply get_value_ok|]. rewrite <- (app_nil_r (mjoin _)).
  eapply reads_bind; [exact IH|apply reads_ret].
Qed.

Lemma filled_fixed bs : Z.of_nat (length bs) < 2 ^ 62 ->
  filled (mk_tagstruct (Some <$> bs) (Z.of_nat (length bs)) (Z.of_nat (length bs)) 0 PA_TAGSTRUCT_FIXED) bs.
Proof. intros Hl. split; simpl; rewrite ?length_fmap; try done. apply take_ge. by rewrite length_fmap. Qed.

Lemma safe_each rs : forall N, harmless N 0 (get_each rs).
Proof.
  induction rs as [|r rs IH]; intros N; [by apply safe_ret|]. cbn [get_each].
  eapply (safe_seq _ 0 0); [apply safe_value| |lia]. intros v _.
  eapply (safe_seq _ 0 0); [apply IH| |lia]. intros vs _. by apply safe_ret.
Qed.

(** ** Claims *)

(** C24: every message survives the wire: values of all kinds, put one after the
    other into a new tagstruct, are read back by the receiver from the bytes
    sent, as long as each value fits its type and the message the largest
    allocation; nothing is left over.  Property lists may come anywhere in the
    message. *)
Theorem tagstruct_roundtrip vs : Forall value_fits vs -> vs <> [] ->
  Z.of_nat (length (mjoin (encode <$> vs))) + GROW_TAG_SIZE < MAX_ALLOC_SIZE ->
  exists t bytes rx rx', put_each pa_tagstruct_new vs = Ok t /\
    pa_tagstruct_data t = Ok (Some <$> bytes) /\ pa_tagstruct_new_fixed bytes = Ok rx /\
    get_each (request_for <$> vs) rx = Ok (Some vs, rx') /\ pa_tagstruct_eof rx' = true /\
    (forallb in_varargs vs = true -> pa_tagstruct_put pa_tagstruct_new vs = Ok t /\
       pa_tagstruct_get (request_for <$> vs) rx = Ok (Some vs, rx')).
Proof.
  intros Hv Hne Hb. set (bytes := mjoin (encode <$> vs)) in *.
  assert (filled pa_tagstruct_new []) as Hnew by (split; done).
  destruct (put_each_ok vs Hv pa_tagstruct_new [] Hnew) as (t & Et & [Hl Hal Hfit Hd] & _ & _);
    [done|simpl; fold bytes; lia|]. simpl in Hl, Hd. fold bytes in Hl, Hd.
  assert (bytes <> []) as Hbne.
  { unfold bytes. destruct vs as [|v vs]; [done|]. change (mjoin (encode <$> v :: vs)) with (encode v ++ mjoin (encode <$> vs)).
    destruct v as [[s|]| | | | | | | | | | | | | |]; done. }
  assert (Z.of_nat (length bytes) <> 0) as Hlne by (destruct bytes; [done|simpl; lia]).
  unfold MAX_ALLOC_SIZE, GROW_TAG_SIZE in Hb.
  assert (filled (mk_tagstruct (Some <$> bytes) (Z.of_nat (length bytes)) (Z.of_nat (length bytes)) 0 PA_TAGSTRUCT_FIXED)
    ([] ++ bytes ++ [])) as Hfx by (rewrite app_nil_r; apply (filled_fixed bytes); lia).
  pose proof (get_each_ok vs Hv _ [] [] Hfx eq_refl) as Eg.
  exists t, bytes. eexists _, _. split; [exact Et|]. split.
  { unfold pa_tagstruct_data. rewrite read_data_ok by lia. unfold sub_list. rewrite drop_0, Hl, Nat2Z.id. by rewrite Hd. }
  split. { unfold pa_tagstruct_new_fixed. rewrite (proj2 (Z.eqb_neq _ _)) by done. done. }
  split; [exact Eg|]. split; [unfold pa_tagstruct_eof; simpl; fold bytes; blia|].
  intros Hva. rewrite put_varargs by done. split; [exact Et|]. rewrite get_varargs; [exact Eg|].
  clear -Hva. induction vs as [|v vs IH]; [done|]. simpl in *. apply andb_true_iff in Hva as [Hv Hva].
  apply andb_true_iff. split; [by destruct v|auto].
Qed.

(** C25: a receiver survives every message: whatever bytes arrive, and whatever
    values of any kind are asked for one after the other, reading them returns (with the values or
    with an error), never touches a byte outside the message, and leaves the cursor
    within it; and so does the function that reads several values at once, of the
    kinds it knows. *)
Theorem tagstruct_read_safe bytes rs : bytes <> [] -> Forall is_byte bytes -> Z.of_nat (length bytes) < 2 ^ 62 ->
  exists rx o rx', pa_tagstruct_new_fixed bytes = Ok rx /\ get_each rs rx = Ok (o, rx') /\
    ts_data rx' = ts_data rx /\ 0 <= ts_rindex rx' <= Z.of_nat (length bytes) /\
    (forallb request_in_varargs rs = true -> pa_tagstruct_get rs rx = Ok (o, rx')).
Proof.
  intros Hne Hb Hl. unfold pa_tagstruct_new_fixed.
  rewrite (proj2 (Z.eqb_neq _ _)) by (destruct bytes; [done|simpl; lia]). simpl.
  destruct (safe_each rs (Z.of_nat (length bytes)) _ bytes (filled_fixed bytes Hl) Hb)
    as (o & r & E & Hr1 & _); [done|simpl; lia|].
  eexists _, o, _. split; [done|]. split; [exact E|]. split; [done|]. split; [done|]. intros Hr. rewrite get_varargs by done. exact E.
Qed.

(** ** Witnesses *)

Module TagstructExample.
Definition vs : list tag_value :=
  [TU32 1; TProplist [([97; 46; 98], [120; 0])]; TString (Some [104; 105]); TString None; TS64 (-3);
   TCvolume [65536; 0]; TBoolean true; TSampleSpec (mk_sample_spec 3 44100 2)].
Lemma fit : Forall value_fits vs.
Proof.
  unfold vs. repeat (apply Forall_cons; split); try apply Forall_nil_2; simpl; try lia; try done.
  - split; [split; [apply (bool_decide_unpack _); by vm_compute|by repeat constructor]|].
    constructor; [|done]. split; [by repeat constructor|by vm_compute].
  - split; [by vm_compute|by repeat constructor].
Qed.
End TagstructExample.

Lemma tagstruct_roundtrip_witness : exists t rx rx',
  put_each pa_tagstruct_new TagstructExample.vs = Ok t /\
  get_each (request_for <$> TagstructExample.vs) rx = Ok (Some TagstructExample.vs, rx').
Proof.
  destruct (tagstruct_roundtrip TagstructExample.vs) as (t & bytes & rx & rx' & E1 & _ & _ & E2 & _);
    [exact TagstructExample.fit|discriminate|by vm_compute|].
  exists t, rx, rx'. split; [exact E1|exact E2].
Defined.

(** A string without an end, a blob that claims to be longer than the
    message, and a format with nothing behind its tag. *)
Lemma tagstruct_read_safe_witness :
  (exists rx o rx', pa_tagstruct_new_fixed [116; 104; 105] = Ok rx /\ pa_tagstruct_get [RString] rx = Ok (o, rx')) /\
  (exists rx o rx', pa_tagstruct_new_fixed [120; 0; 0; 1; 0; 7] = Ok rx /\
     get_each [RArbitrary 256; RS64; RFormatInfo []] rx = Ok (o, rx')) /\
  (exists rx o rx', pa_tagstruct_new_fixed [102] = Ok rx /\ get_each [RFormatInfo []; RS64] rx = Ok (o, rx')).
Proof.
  split; [|split].
  - destruct (tagstruct_read_safe [116; 104; 105] [RString]) as (rx & o & rx' & E1 & _ & _ & _ & E2);
      [discriminate|repeat constructor; lia|by vm_compute|]. exists rx, o, rx'. split; [exact E1|exact (E2 eq_refl)].
  - destruct (tagstruct_read_safe [120; 0; 0; 1; 0; 7] [RArbitrary 256; RS64; RFormatInfo []]) as (rx & o & rx' & E1 & E2 & _);
      [discriminate|repeat constructor; lia|by vm_compute|]. exists rx, o, rx'. split; [exact E1|exact E2].
  - destruct (tagstruct_read_safe [102] [RFormatInfo []; RS64]) as (rx & o & rx' & E1 & E2 & _);
      [discriminate|repeat constructor; lia|by vm_compute|]. exists rx, o, rx'. split; [exact E1|exact E2].
Defined.
