(* ===== verification/Fdsem.v ===== *)
(** * Fdsem: a semaphore that can be polled

    Models [src/pulsecore/fdsem.c]: a flag [signalled], a count of threads that
    [waiting], and a descriptor (an eventfd or a pipe) that is only written to
    when somebody waits.  One thread posts and one thread waits, as in
    [asyncq.c] and [srbchannel.c].

    The two threads interleave: every access to an atomic variable and every
    read or write of the descriptor is a step of its own.  A program point
    ([wait_pc], [post_pc]) names the next access of a call in progress; the step
    function executes it. *)
From stdpp Require Import base tactics numbers list gmap.
From S2P Require Import Prelude.

(** The shared part: [fd_count] is the number in the eventfd, or of bytes in the
    pipe. *)
Record pa_fdsem := mk_fdsem {
  fd_efd : bool;
  fd_count : Z;
  fd_waiting : Z;
  fd_signalled : Z;
  fd_in_pipe : Z
}.

Definition set_count (n : Z) (f : pa_fdsem) : pa_fdsem :=
  mk_fdsem (fd_efd f) n (fd_waiting f) (fd_signalled f) (fd_in_pipe f).
Definition set_waiting (n : Z) (f : pa_fdsem) : pa_fdsem :=
  mk_fdsem (fd_efd f) (fd_count f) n (fd_signalled f) (fd_in_pipe f).
Definition set_signalled (n : Z) (f : pa_fdsem) : pa_fdsem :=
  mk_fdsem (fd_efd f) (fd_count f) (fd_waiting f) n (fd_in_pipe f).
Definition set_in_pipe (n : Z) (f : pa_fdsem) : pa_fdsem :=
  mk_fdsem (fd_efd f) (fd_count f) (fd_waiting f) (fd_signalled f) n.

(** The descriptor is an eventfd, or a pipe, or there is none to be had. *)
Definition pa_fdsem_new (efd pipe : bool) : option pa_fdsem :=
  if efd then Some (mk_fdsem true 0 0 0 0)
  else if pipe then Some (mk_fdsem false 0 0 0 0)
  else None.

(** [pa_read] of the descriptor: blocks while there is nothing; an eventfd is
    read as a whole, a pipe up to ten bytes at a time. *)
Definition fd_read (f : pa_fdsem) : option (Z * pa_fdsem) :=
  if fd_count f <=? 0 then None
  else let r := if fd_efd f then fd_count f else Z.min 10 (fd_count f) in
       Some (r, set_count (fd_count f - r) f).

(** [pa_atomic_cmpxchg(&signalled, old, new)]. *)
Definition cas_signalled (old new : Z) (f : pa_fdsem) : bool * pa_fdsem :=
  if fd_signalled f =? old then (true, set_signalled new f) else (false, f).

(** ** The calls *)

Inductive wait_op := OpWait | OpTry | OpBefore | OpAfter.

Inductive wait_pc :=
| FlushLoad (op : wait_op)          (* flush: is there anything in the pipe? *)
| FlushRead (op : wait_op)          (* flush: read *)
| FlushSub (op : wait_op) (r : Z)   (* flush: in_pipe -= r *)
| First (op : wait_op)              (* the cmpxchg after the flush *)
| Inc (op : wait_op)                (* waiting++ *)
| Second (op : wait_op)             (* the cmpxchg after that *)
| Read                              (* pa_fdsem_wait: read *)
| Sub (r : Z)                       (* pa_fdsem_wait: in_pipe -= r *)
| Dec (op : wait_op).               (* pa_assert_se(waiting-- >= 1) *)

(** Where each call starts. *)
Definition wait_start (op : wait_op) : wait_pc :=
  match op with OpAfter => Dec OpAfter | op => FlushLoad op end.

(** The steps of [flush], with which every call starts. *)
Definition flush_step (pc : wait_pc) (f : pa_fdsem) : option ((wait_pc + Z) * pa_fdsem) :=
  match pc with
  | FlushLoad op => Some (inl (if fd_in_pipe f <=? 0 then First op else FlushRead op), f)
  | FlushRead op => match fd_read f with Some (r, f) => Some (inl (FlushSub op (s32 r)), f) | None => None end
  | FlushSub op r =>
      let old := fd_in_pipe f in
      Some (inl (if r <? old then FlushRead op else First op), set_in_pipe (s32 (old - r)) f)
  | _ => None
  end.

(** One step: the next program point or the call's result, or [None] when the
    thread is blocked. *)
Definition wait_step (pc : wait_pc) (f : pa_fdsem) : outcome (option ((wait_pc + Z) * pa_fdsem)) :=
  match pc with
  | FlushLoad _ | FlushRead _ | FlushSub _ _ => Ok (flush_step pc f)
  | First op =>
      let '(won, f) := cas_signalled 1 0 f in
      Ok (Some (match op, won with
                | OpWait, true => inr 0
                | OpWait, false => inl (Inc OpWait)
                | OpTry, true | OpAfter, true => inr 1
                | OpTry, false | OpAfter, false => inr 0
                | OpBefore, true => inr (-1)
                | OpBefore, false => inl (Inc OpBefore)
                end, f))
  | Inc op => Ok (Some (inl (Second op), set_waiting (s32 (fd_waiting f + 1)) f))
  | Second op =>
      let '(won, f) := cas_signalled 1 0 f in
      Ok (Some (if won then inl (Dec op)
                else match op with OpBefore => inr 0 | _ => inl Read end, f))
  | Read => Ok (match fd_read f with Some (r, f) => Some (inl (Sub (s32 r)), f) | None => None end)
  | Sub r => Ok (Some (inl (Second OpWait), set_in_pipe (s32 (fd_in_pipe f - r)) f))
  | Dec op =>
      let old := fd_waiting f in
      _ ← pa_assert (1 <=? old);
      Ok (Some (match op with
                | OpAfter => inl (FlushLoad OpAfter)
                | OpBefore => inr (-1)
                | _ => inr 0
                end, set_waiting (s32 (old - 1)) f))
  end.

Inductive post_pc :=
| PostCas       (* cmpxchg(&signalled, 0, 1) *)
| PostLoad      (* is anybody waiting? *)
| PostInc       (* in_pipe++ *)
| PostWrite.    (* write *)

(** One step; [None] when the call has returned. *)
Definition post_step (pc : post_pc) (f : pa_fdsem) : option post_pc * pa_fdsem :=
  match pc with
  | PostCas => let '(won, f) := cas_signalled 0 1 f in (if won then Some PostLoad else None, f)
  | PostLoad => (if fd_waiting f =? 0 then None else Some PostInc, f)
  | PostInc => (Some PostWrite, set_in_pipe (s32 (fd_in_pipe f + 1)) f)
  | PostWrite => (None, set_count (fd_count f + 1) f)
  end.

(** ** What the semaphore promises *)

(** The waiting thread: outside, in a call, or between [pa_fdsem_before_poll]
    and [pa_fdsem_after_poll]. *)
Inductive waiter := Outside | InCall (pc : wait_pc) | Polling.

Definition counted (w : waiter) : Z :=
  match w with
  | InCall (Second _) | InCall Read | InCall (Sub _) | InCall (Dec _) | Polling => 1
  | _ => 0
  end.

(** What was read and is not yet subtracted from [in_pipe]. *)
Definition in_hand (w : waiter) : Z :=
  match w with InCall (FlushSub _ r) | InCall (Sub r) => r | _ => 0 end.

Definition at_pc (p : option post_pc) (pc : post_pc) : Z :=
  match p, pc with
  | Some PostLoad, PostLoad | Some PostInc, PostInc | Some PostWrite, PostWrite => 1
  | _, _ => 0
  end.

(** What is in the pipe or can still get there before the thread that waits
    comes back to flush it. *)
Definition load (f : pa_fdsem) (p : option post_pc) : Z :=
  fd_in_pipe f + at_pc p PostInc + at_pc p PostLoad + (1 - fd_signalled f).

Definition load_limit (w : waiter) : Z :=
  match w with
  | InCall (First _) | InCall (Inc _) | InCall (Second _) | InCall Read | InCall (Sub _) | Polling => 2
  | _ => 3
  end.

(** The poster of the signal is still on its way to the pipe. *)
Definition posting (p : option post_pc) : Prop :=
  p = Some PostLoad \/ p = Some PostInc \/ p = Some PostWrite.

(** Asleep unless the descriptor is written to. *)
Definition sleeping (w : waiter) : Prop := w = InCall Read \/ w = Polling.

(** The states in which the call's kind and its program point fit. *)
Definition wf_pc (w : waiter) : Prop :=
  match w with
  | InCall (Inc op) => op = OpWait \/ op = OpBefore
  | InCall (Second op) => op = OpWait \/ op = OpBefore
  | InCall (Dec op) => op <> OpTry
  | InCall (FlushSub _ r) | InCall (Sub r) => 0 < r
  | _ => True
  end.

Record fdsem_inv (f : pa_fdsem) (w : waiter) (p : option post_pc) : Prop := {
  fi_waiting : fd_waiting f = counted w;
  fi_signalled : fd_signalled f = 0 \/ fd_signalled f = 1;
  fi_count : 0 <= fd_count f;
  fi_pipe : fd_in_pipe f = fd_count f + at_pc p PostWrite + in_hand w;
  fi_load : load f p <= load_limit w;
  fi_wf : wf_pc w;
  fi_flush : match w with InCall (FlushRead _) => 0 < fd_in_pipe f | _ => True end;
  fi_wake : sleeping w -> fd_signalled f = 1 -> 0 < fd_count f \/ posting p
}.

(** What a step of the waiting thread leads to. *)
Definition waiter_next (op : wait_op) (r : wait_pc + Z) : waiter :=
  match r with
  | inl pc => InCall pc
  | inr r => match op with OpBefore => if r <? 0 then Outside else Polling | _ => Outside end
  end.

Definition pc_op (pc : wait_pc) : wait_op :=
  match pc with
  | FlushLoad op | FlushRead op | FlushSub op _ | First op | Inc op | Second op | Dec op => op
  | Read | Sub _ => OpWait
  end.

Lemma new_inv efd pipe f : pa_fdsem_new efd pipe = Some f -> fdsem_inv f Outside None.
Proof.
  unfold pa_fdsem_new. intros E. destruct efd, pipe; simplify_eq; split; unfold load; simpl;
    try lia; naive_solver.
Qed.

(** A call starts. *)
Lemma start_inv f op p : (op <> OpAfter -> fdsem_inv f Outside p) -> (op = OpAfter -> fdsem_inv f Polling p) ->
  fdsem_inv f (InCall (wait_start op)) p.
Proof.
  intros H1 H2. destruct op; [destruct (H1 ltac:(done))..|destruct (H2 eq_refl)]; split; simpl in *;
    try lia; try done; intros [?|?]; done.
Qed.

Lemma post_start_inv f w : fdsem_inv f w None -> fdsem_inv f w (Some PostCas).
Proof.
  intros [Hw Hs Hc Hp Hl Hf Hfl Hk]. split; try done. intros Hsl E. destruct (Hk Hsl E) as [?|[?|[?|?]]]; auto; done.
Qed.

Ltac fdsem_split :=
  split; simpl in *; unfold load in *; simpl in *; try lia; try done; auto;
    try (by intros [[=]|[=]]).

Lemma in_hand_nonneg w : wf_pc w -> 0 <= in_hand w.
Proof. destruct w as [|[]|]; simpl; lia. Qed.

Lemma post_inv f w pc p' f' : fdsem_inv f w (Some pc) -> post_step pc f = (p', f') -> fdsem_inv f' w p'.
Proof.
  intros [Hw Hs Hc Hp Hl Hf Hfl Hk] E. pose proof (in_hand_nonneg w Hf) as Hh.
  assert (load_limit w <= 3) as Hlim by (destruct w as [|[]|]; simpl; lia).
  assert (0 <= at_pc (Some pc) PostWrite <= 1 /\ 0 <= at_pc (Some pc) PostInc <= 1 /\ 0 <= at_pc (Some pc) PostLoad <= 1)
    as (H1 & H2 & H3) by (destruct pc; simpl; lia).
  unfold load in Hl. unfold post_step, cas_signalled in E. destruct pc.
  - destruct (Z.eqb_spec (fd_signalled f) 0) as [E0|E0]; simplify_eq; fdsem_split.
    + intros _ _. right. by left.
    + intros Hsl E1. destruct (Hk Hsl E1) as [?|[?|[?|?]]]; auto; done.
  - destruct (Z.eqb_spec (fd_waiting f) 0) as [E0|E0]; simplify_eq; fdsem_split.
    + intros Hsl E1. destruct Hsl as [->| ->]; simpl in *; lia.
    + intros Hsl E1. right. right. by left.
  - simplify_eq. rewrite s32_small by lia. fdsem_split; [destruct w as [|[]|]; simpl in *; lia|].
    intros Hsl E1. right. right. by right.
  - simplify_eq. fdsem_split.
Qed.

(** Reading takes something out, and only sleeps when there is nothing. *)
Lemma fd_read_spec f : 0 <= fd_count f <= 3 ->
  match fd_read f with
  | Some (r, f') => 0 < r <= fd_count f /\ s32 r = r /\ f' = set_count (fd_count f - r) f
  | None => fd_count f = 0
  end.
Proof.
  intros Hc. unfold fd_read. destruct (Z.leb_spec (fd_count f) 0); [lia|].
  split; [destruct (fd_efd f); lia|]. split; [apply s32_small; destruct (fd_efd f); lia|done].
Qed.

(** Steps of the waiting thread keep the invariant, and its assertion holds. *)
Lemma wait_inv f pc p : fdsem_inv f (InCall pc) p ->
  match wait_step pc f with
  | Ok (Some (r, f')) => fdsem_inv f' (waiter_next (pc_op pc) r) p
  | Ok None => fd_count f = 0 /\ (pc = Read \/ exists op, pc = FlushRead op)
  | _ => False
  end.
Proof.
  intros [Hw Hs Hc Hp Hl Hf Hfl Hk]. unfold load in Hl.
  assert (0 <= at_pc p PostWrite <= 1 /\ 0 <= at_pc p PostInc <= 1 /\ 0 <= at_pc p PostLoad <= 1 /\
    at_pc p PostInc + at_pc p PostLoad <= 1) as (H1 & H2 & H3 & H4) by (destruct p as [[]|]; simpl; lia).
  pose proof (fd_read_spec f) as Hr.
  destruct pc as [op|op|op r|op|op|op| |r|op]; simpl in *.
  - destruct (Z.leb_spec (fd_in_pipe f) 0); fdsem_split.
  - destruct (fd_read f) as [[r f']|]; [|split; [apply Hr; lia|eauto]].
    destruct Hr as (Hr & E & ->); [lia|]. rewrite E. fdsem_split.
  - rewrite s32_small by lia. destruct (Z.ltb_spec r (fd_in_pipe f)); fdsem_split.
  - unfold cas_signalled. destruct (Z.eqb_spec (fd_signalled f) 1), op; fdsem_split.
  - rewrite s32_small by lia. fdsem_split.
  - unfold cas_signalled. destruct (Z.eqb_spec (fd_signalled f) 1), op; fdsem_split; destruct Hf; done.
  - destruct (fd_read f) as [[r f']|]; [|split; [apply Hr; lia|auto]].
    destruct Hr as (Hr & E & ->); [lia|]. rewrite E. fdsem_split.
  - rewrite s32_small by lia. fdsem_split.
  - rewrite pa_assert_true by (apply Z.leb_le; lia). simpl. rewrite s32_small by lia.
    destruct op; fdsem_split.
Qed.

(** ** One poster and one waiting thread *)

(** The states of a semaphore whose two users call it in any order, with
    [pa_fdsem_after_poll] after a [pa_fdsem_before_poll] that returned 0. *)
Inductive sem_reach : pa_fdsem -> waiter -> option post_pc -> Prop :=
| sem_new efd pipe f : pa_fdsem_new efd pipe = Some f -> sem_reach f Outside None
| sem_call op f p : sem_reach f Outside p -> op <> OpAfter -> sem_reach f (InCall (wait_start op)) p
| sem_after f p : sem_reach f Polling p -> sem_reach f (InCall (wait_start OpAfter)) p
| sem_post f w : sem_reach f w None -> sem_reach f w (Some PostCas)
| sem_wait_step pc r f f' p : sem_reach f (InCall pc) p -> wait_step pc f = Ok (Some (r, f')) ->
    sem_reach f' (waiter_next (pc_op pc) r) p
| sem_post_step pc f f' w p' : sem_reach f w (Some pc) -> post_step pc f = (p', f') -> sem_reach f' w p'.

Lemma sem_inv f w p : sem_reach f w p -> fdsem_inv f w p.
Proof.
  induction 1 as [efd pipe f E|op f p _ IH Hop|f p _ IH|f w _ IH|pc r f f' p _ IH E|pc f f' w p' _ IH E].
  - by eapply new_inv.
  - by apply start_inv.
  - by apply start_inv.
  - by apply post_start_inv.
  - apply wait_inv in IH. by rewrite E in IH.
  - by eapply post_inv.
Qed.

(** The rest of a call that is not interrupted: its result, or nothing when it
    blocks or takes more than [fuel] steps. *)
Fixpoint finish_wait (fuel : nat) (pc : wait_pc) (f : pa_fdsem) : option (Z * pa_fdsem) :=
  match fuel, wait_step pc f with
  | S fuel, Ok (Some (inl pc, f)) => finish_wait fuel pc f
  | S _, Ok (Some (inr r, f)) => Some (r, f)
  | _, _ => None
  end.

Fixpoint finish_post (fuel : nat) (pc : post_pc) (f : pa_fdsem) : option pa_fdsem :=
  match fuel, post_step pc f with
  | S fuel, (Some pc, f) => finish_post fuel pc f
  | S _, (None, f) => Some f
  | O, _ => None
  end.

(** A post on a semaphore that somebody sleeps on. *)
Lemma post_wakes f : fdsem_inv f (InCall Read) None -> fd_count f = 0 ->
  finish_post 4 PostCas f = Some (mk_fdsem (fd_efd f) 1 1 1 1) /\ fd_signalled f = 0.
Proof.
  intros [Hw Hs Hc Hp Hl Hf Hfl Hk] E0. simpl in *.
  assert (fd_signalled f = 0) as E.
  { destruct Hs as [?|E1]; [done|]. destruct (Hk ltac:(by left) E1) as [?|[?|[?|?]]]; done || lia. }
  split; [|done]. unfold cas_signalled, post_step, set_signalled, set_in_pipe, set_count.
  destruct f as [efd n wt sg ip]; simpl in *; subst. done.
Qed.

(** C20: no signal is lost: in every interleaving of one thread that posts and
    one that waits, polls or tries, no assertion fails and the counters stay
    small; a thread sleeps in [pa_fdsem_wait] or in poll() only while nothing
    was posted or the post is still under way; and a post wakes a sleeping
    [pa_fdsem_wait], which then returns within four steps and leaves the
    semaphore as new. *)
Theorem fdsem_no_lost_wakeup f w p : sem_reach f w p ->
  (forall pc, w = InCall pc -> exists o, wait_step pc f = Ok o) /\
  0 <= fd_in_pipe f <= 3 /\ 0 <= fd_waiting f <= 1 /\
  (sleeping w -> fd_count f = 0 -> fd_signalled f = 0 \/ posting p) /\
  (w = InCall Read -> fd_count f = 0 -> p = None ->
     exists f', finish_post 4 PostCas f = Some f' /\
       finish_wait 4 Read f' = Some (0, mk_fdsem (fd_efd f) 0 0 0 0)).
Proof.
  intros Hr. apply sem_inv in Hr as I. pose proof I as [Hw Hs Hc Hp Hl Hf Hfl Hk].
  assert (0 <= at_pc p PostWrite /\ 0 <= at_pc p PostInc /\ 0 <= at_pc p PostLoad) as (H1 & H2 & H3)
    by (destruct p as [[]|]; simpl; lia).
  pose proof (in_hand_nonneg w Hf) as Hh. unfold load in Hl.
  assert (load_limit w <= 3) as Hlim by (destruct w as [|[]|]; simpl; lia).
  split_and!.
  - intros pc ->. apply wait_inv in I. destruct (wait_step pc f); eauto; done.
  - lia.
  - lia.
  - rewrite Hw. destruct w as [|[]|]; simpl; lia.
  - rewrite Hw. destruct w as [|[]|]; simpl; lia.
  - intros Hsl E0. destruct Hs as [?|E1]; [by left|]. destruct (Hk Hsl E1); [lia|by right].
  - intros -> E0 ->. destruct (post_wakes f I E0) as [-> _]. eexists. split; [done|]. by destruct (fd_efd f).
Qed.

Lemma fdsem_no_lost_wakeup_witness :
  (forall pc, InCall Read = InCall pc -> exists o, wait_step pc (mk_fdsem true 0 1 0 0) = Ok o) /\
  exists f', finish_post 4 PostCas (mk_fdsem true 0 1 0 0) = Some f' /\
    finish_wait 4 Read f' = Some (0, mk_fdsem true 0 0 0 0).
Proof.
  assert (sem_reach (mk_fdsem true 0 1 0 0) (InCall Read) None) as Hr.
  { eapply (sem_wait_step (Second OpWait) (inl Read) (mk_fdsem true 0 1 0 0)); [|vm_compute; reflexivity].
    eapply (sem_wait_step (Inc OpWait) (inl (Second OpWait)) (mk_fdsem true 0 0 0 0)); [|vm_compute; reflexivity].
    eapply (sem_wait_step (First OpWait) (inl (Inc OpWait)) (mk_fdsem true 0 0 0 0)); [|vm_compute; reflexivity].
    eapply (sem_wait_step (FlushLoad OpWait) (inl (First OpWait)) (mk_fdsem true 0 0 0 0)); [|vm_compute; reflexivity].
    apply (sem_call OpWait); [|done]. by apply (sem_new true true). }
  destruct (fdsem_no_lost_wakeup _ _ _ Hr) as (H1 & _ & _ & _ & H2). split; [exact H1|].
  apply H2; reflexivity.
Defined.
