(* ===== verification/Asyncq.v ===== *)
(** * Asyncq: the queue between two threads

    Models [src/pulsecore/asyncq.c]: a ring of cells through which one thread
    hands pointers to another one without a lock, with an overflow list that
    only the writing thread touches, and a semaphore for each direction.

    As in [Fdsem], every access to shared memory is a step, and the steps of the
    two threads interleave in any order.  A null pointer is 0. *)
From stdpp Require Import base tactics numbers list gmap.
From S2P Require Import Prelude Fdsem.

Definition ASYNCQ_SIZE : Z := 256.

Record pa_asyncq := mk_asyncq {
  aq_size : Z;
  aq_read_idx : Z;
  aq_write_idx : Z;
  aq_read_fdsem : pa_fdsem;
  aq_write_fdsem : pa_fdsem;
  aq_localq : list Z;             (* the data of the overflow list, from its head *)
  aq_last_localq : option nat;    (* the entry [last_localq] points to *)
  aq_waiting_for_post : bool;
  aq_cells : list Z
}.

Definition set_read_idx i (l : pa_asyncq) := mk_asyncq (aq_size l) i (aq_write_idx l) (aq_read_fdsem l)
  (aq_write_fdsem l) (aq_localq l) (aq_last_localq l) (aq_waiting_for_post l) (aq_cells l).
Definition set_write_idx i (l : pa_asyncq) := mk_asyncq (aq_size l) (aq_read_idx l) i (aq_read_fdsem l)
  (aq_write_fdsem l) (aq_localq l) (aq_last_localq l) (aq_waiting_for_post l) (aq_cells l).
Definition set_read_fdsem f (l : pa_asyncq) := mk_asyncq (aq_size l) (aq_read_idx l) (aq_write_idx l) f
  (aq_write_fdsem l) (aq_localq l) (aq_last_localq l) (aq_waiting_for_post l) (aq_cells l).
Definition set_write_fdsem f (l : pa_asyncq) := mk_asyncq (aq_size l) (aq_read_idx l) (aq_write_idx l)
  (aq_read_fdsem l) f (aq_localq l) (aq_last_localq l) (aq_waiting_for_post l) (aq_cells l).
Definition set_localq q last (l : pa_asyncq) := mk_asyncq (aq_size l) (aq_read_idx l) (aq_write_idx l)
  (aq_read_fdsem l) (aq_write_fdsem l) q last (aq_waiting_for_post l) (aq_cells l).
Definition set_waiting_for_post b (l : pa_asyncq) := mk_asyncq (aq_size l) (aq_read_idx l) (aq_write_idx l)
  (aq_read_fdsem l) (aq_write_fdsem l) (aq_localq l) (aq_last_localq l) b (aq_cells l).
Definition set_cells c (l : pa_asyncq) := mk_asyncq (aq_size l) (aq_read_idx l) (aq_write_idx l)
  (aq_read_fdsem l) (aq_write_fdsem l) (aq_localq l) (aq_last_localq l) (aq_waiting_for_post l) c.

Definition reduce (l : pa_asyncq) (value : Z) : Z := Z.land value (u32 (aq_size l - 1)).

Definition pa_is_power_of_two (n : Z) : bool := Z.land n (u32 (n - 1)) =? 0.

(** [rf] and [wf]: what the two calls of [pa_fdsem_new] return. *)
Definition pa_asyncq_new (size : Z) (rf wf : option pa_fdsem) : outcome (option pa_asyncq) :=
  let size := if size =? 0 then ASYNCQ_SIZE else size in
  _ ← pa_assert (pa_is_power_of_two size);
  Ok (match rf, wf with
      | Some rf, Some wf => Some (mk_asyncq size 0 0 rf wf [] None false (replicate (Z.to_nat size) 0))
      | _, _ => None
      end).

Definition cell_at (l : pa_asyncq) (i : Z) : outcome Z := deref (aq_cells l !! Z.to_nat (reduce l i)).
Definition set_cell (l : pa_asyncq) (i v : Z) : pa_asyncq :=
  set_cells (<[Z.to_nat (reduce l i) := v]> (aq_cells l)) l.

(** ** The reading thread *)

Inductive reader_pc :=
| RdIdle
| RdPolling                   (* after [pa_asyncq_read_before_poll] returned 0 *)
| RdLoad (wait_op : bool)     (* pa_asyncq_pop: load the cell *)
| RdWait (w : wait_pc)        (* in pa_fdsem_wait *)
| RdCas (ret : Z)             (* cmpxchg(&cells[idx], ret, NULL) *)
| RdIncr (ret : Z)            (* read_idx++ *)
| RdPost (ret : Z) (p : post_pc)
| RdPollLoad                  (* pa_asyncq_read_before_poll: load the cell *)
| RdBefore (w : wait_pc)
| RdAfter (w : wait_pc).

Inductive reader_cmd := RPop (wait_op : bool) | RBeforePoll | RAfterPoll.

Definition reader_start (c : reader_cmd) (pc : reader_pc) : option reader_pc :=
  match c, pc with
  | RPop wait_op, RdIdle => Some (RdLoad wait_op)
  | RBeforePoll, RdIdle => Some RdPollLoad
  | RAfterPoll, RdPolling => Some (RdAfter (wait_start OpAfter))
  | _, _ => None
  end.

(** A step of a call of the semaphore; [next] says how the thread goes on. *)
Definition in_write_fdsem (w : wait_pc) (next : wait_pc + Z -> reader_pc) (l : pa_asyncq)
    : outcome (option (reader_pc * pa_asyncq * option Z)) :=
  r ← wait_step w (aq_write_fdsem l);
  Ok (match r with Some (r, f) => Some (next r, set_write_fdsem f l, None) | None => None end).

(** One step: the next program point, the queue, and the pointer that
    [pa_asyncq_pop] returned, if it did; or [None] when the thread is blocked or
    not in a call. *)
Definition reader_step (pc : reader_pc) (l : pa_asyncq) : outcome (option (reader_pc * pa_asyncq * option Z)) :=
  match pc with
  | RdIdle | RdPolling => Ok None
  | RdLoad wait_op =>
      v ← cell_at l (aq_read_idx l);
      Ok (Some (if v =? 0 then (if wait_op then RdWait (wait_start OpWait) else RdIdle) else RdCas v, l, None))
  | RdWait w => in_write_fdsem w (fun r => match r with inl w => RdWait w | inr _ => RdLoad true end) l
  | RdCas ret =>
      v ← cell_at l (aq_read_idx l);
      _ ← pa_assert (v =? ret);
      Ok (Some (RdIncr ret, set_cell l (aq_read_idx l) 0, None))
  | RdIncr ret => Ok (Some (RdPost ret PostCas, set_read_idx (u32 (aq_read_idx l + 1)) l, None))
  | RdPost ret p =>
      let '(p, f) := post_step p (aq_read_fdsem l) in
      Ok (Some (match p with
                | Some p => (RdPost ret p, set_read_fdsem f l, None)
                | None => (RdIdle, set_read_fdsem f l, Some ret)
                end))
  | RdPollLoad =>
      v ← cell_at l (aq_read_idx l);
      Ok (Some (if v =? 0 then RdBefore (wait_start OpBefore) else RdIdle, l, None))
  | RdBefore w =>
      in_write_fdsem w (fun r => match r with inl w => RdBefore w | inr r => if r <? 0 then RdPollLoad else RdPolling end) l
  | RdAfter w => in_write_fdsem w (fun r => match r with inl w => RdAfter w | inr _ => RdIdle end) l
  end.

(** ** The writing thread *)

(** The call in progress: [pa_asyncq_push], called by the client or by
    [pa_asyncq_post]; the first flush of [pa_asyncq_post]; or
    [pa_asyncq_write_before_poll]. *)
Inductive writer_call := KPush (p : Z) (wait_op posted : bool) | KPost (p : Z) | KPoll.

(** [flushing]: the push is one of [flush_postq]. *)
Inductive writer_pc :=
| WrIdle
| WrFlush (k : writer_call)                     (* the loop of flush_postq *)
| WrCas (k : writer_call) (flushing : bool)     (* push: cmpxchg(&cells[idx], NULL, p) *)
| WrWait (k : writer_call) (flushing : bool) (w : wait_pc)
| WrIncr (k : writer_call) (flushing : bool)    (* write_idx++ *)
| WrSem (k : writer_call) (flushing : bool) (p : post_pc)
| WrBefore (w : wait_pc)
| WrAfter (w : wait_pc).

Inductive writer_cmd := WPush (p : Z) (wait_op : bool) | WPost (p : Z) | WBeforePoll | WAfterPoll.

Definition writer_start (c : writer_cmd) (l : pa_asyncq) (pc : writer_pc) : option writer_pc :=
  match pc, aq_waiting_for_post l, c with
  | WrIdle, false, WPush p wait_op => Some (WrFlush (KPush p wait_op false))
  | WrIdle, false, WPost p => Some (WrFlush (KPost p))
  | WrIdle, false, WBeforePoll => Some (WrFlush KPoll)
  | WrIdle, true, WAfterPoll => Some (WrAfter (wait_start OpAfter))
  | _, _, _ => None
  end.

Definition call_waits (k : writer_call) : bool := match k with KPush _ wait_op _ => wait_op | _ => false end.

(** The pointer that is pushed. *)
Definition pushed_value (k : writer_call) (flushing : bool) (l : pa_asyncq) : outcome Z :=
  if flushing then n ← deref (aq_last_localq l); deref (aq_localq l !! n)
  else match k with KPush p _ _ => Ok p | _ => UB end.

(** [PA_LLIST_PREPEND], and [last_localq] is set when it was null. *)
Definition enqueue (p : Z) (l : pa_asyncq) : pa_asyncq :=
  set_localq (p :: aq_localq l) (match aq_last_localq l with Some n => Some (S n) | None => Some 0%nat end) l.

(** [last_localq = q->prev], and [PA_LLIST_REMOVE] of [q]. *)
Definition dequeue (l : pa_asyncq) : outcome pa_asyncq :=
  n ← deref (aq_last_localq l);
  _ ← deref (aq_localq l !! n);
  Ok (set_localq (delete n (aq_localq l)) (match n with O => None | S n => Some n end) l).

(** What comes after [flush_postq] returned true. *)
Definition flushed (k : writer_call) : writer_pc :=
  match k with
  | KPush _ _ _ => WrCas k false
  | KPost p => WrFlush (KPush p false true)
  | KPoll => WrIdle
  end.

(** What comes after a push that failed: whether [pa_asyncq_push] gives the
    pointer back to its caller is the last result. *)
Definition push_failed (k : writer_call) (l : pa_asyncq) : writer_pc * pa_asyncq * bool :=
  match k with
  | KPush p _ false => (WrIdle, l, true)
  | KPush p _ true | KPost p => (WrIdle, enqueue p l, false)
  | KPoll => (WrBefore (wait_start OpBefore), l, false)
  end.

(** A step of a call of the other semaphore. *)
Definition in_read_fdsem (w : wait_pc) (next : wait_pc + Z -> writer_pc) (polling : wait_pc + Z -> option bool)
    (l : pa_asyncq) : outcome (option (writer_pc * pa_asyncq * bool)) :=
  r ← wait_step w (aq_read_fdsem l);
  Ok (match r with
      | Some (r, f) =>
          let l := set_read_fdsem f l in
          Some (next r, match polling r with Some b => set_waiting_for_post b l | None => l end, false)
      | None => None
      end).

(** [pa_asyncq_write_before_poll] goes on like this, and may set
    [waiting_for_post]. *)
Definition write_before_poll_next (r : wait_pc + Z) : writer_pc :=
  match r with inl w => WrBefore w | inr r => if r <? 0 then WrFlush KPoll else WrIdle end.
Definition write_before_poll_waits (r : wait_pc + Z) : option bool :=
  match r with inr r => if r <? 0 then None else Some true | inl _ => None end.

Definition writer_step (pc : writer_pc) (l : pa_asyncq) : outcome (option (writer_pc * pa_asyncq * bool)) :=
  match pc with
  | WrIdle => Ok None
  | WrFlush k => Ok (Some (match aq_last_localq l with None => flushed k | Some _ => WrCas k true end, l, false))
  | WrCas k flushing =>
      p ← pushed_value k flushing l;
      _ ← pa_assert (negb (p =? 0));
      v ← cell_at l (aq_write_idx l);
      Ok (Some (if v =? 0 then (WrIncr k flushing, set_cell l (aq_write_idx l) p, false)
                else if call_waits k then (WrWait k flushing (wait_start OpWait), l, false)
                else push_failed k l))
  | WrWait k flushing w =>
      in_read_fdsem w (fun r => match r with inl w => WrWait k flushing w | inr _ => WrCas k flushing end)
        (fun _ => None) l
  | WrIncr k flushing =>
      Ok (Some (WrSem k flushing PostCas, set_write_idx (u32 (aq_write_idx l + 1)) l, false))
  | WrSem k flushing p =>
      let '(p, f) := post_step p (aq_write_fdsem l) in
      let l := set_write_fdsem f l in
      match p with
      | Some p => Ok (Some (WrSem k flushing p, l, false))
      | None => if flushing then l ← dequeue l; Ok (Some (WrFlush k, l, false)) else Ok (Some (WrIdle, l, false))
      end
  | WrBefore w =>
      in_read_fdsem w write_before_poll_next write_before_poll_waits l
  | WrAfter w =>
      in_read_fdsem w (fun r => match r with inl w => WrAfter w | inr _ => WrIdle end)
        (fun r => match r with inr _ => Some false | inl _ => None end) l
  end.

(** ** Two threads on one queue *)

(** [as_sent]: the pointers given to [pa_asyncq_push] and [pa_asyncq_post], in
    the order of the calls, less those [pa_asyncq_push] refused;
    [as_received]: those [pa_asyncq_pop] returned. *)
Record asys := mk_asys {
  as_q : pa_asyncq;
  as_reader : reader_pc;
  as_writer : writer_pc;
  as_sent : list Z;
  as_received : list Z
}.

Definition asys_init (l : pa_asyncq) : asys := mk_asys l RdIdle WrIdle [] [].

Definition sent_by (c : writer_cmd) : list Z := match c with WPush p _ | WPost p => [p] | _ => [] end.

Definition returned (o : option Z) : list Z := match o with Some v => [v] | None => [] end.

Definition last_removed (b : bool) (l : list Z) : list Z := if b then removelast l else l.

(** What the two threads may do next: a call starts, or the one in progress goes
    one step further. *)
Inductive asys_step : asys -> asys -> Prop :=
| step_reader_start c s pc : reader_start c (as_reader s) = Some pc ->
    asys_step s (mk_asys (as_q s) pc (as_writer s) (as_sent s) (as_received s))
| step_writer_start c s pc : writer_start c (as_q s) (as_writer s) = Some pc -> (forall p, p ∈ sent_by c -> p <> 0) ->
    asys_step s (mk_asys (as_q s) (as_reader s) pc (as_sent s ++ sent_by c) (as_received s))
| step_reader s pc l ret : reader_step (as_reader s) (as_q s) = Ok (Some (pc, l, ret)) ->
    asys_step s (mk_asys l pc (as_writer s) (as_sent s) (as_received s ++ returned ret))
| step_writer s pc l refused : writer_step (as_writer s) (as_q s) = Ok (Some (pc, l, refused)) ->
    asys_step s (mk_asys l (as_reader s) pc (last_removed refused (as_sent s)) (as_received s)).

(** The states of a queue made by [pa_asyncq_new]. *)
Inductive asys_reach (size : Z) : asys -> Prop :=
| reach_new rf wf l e1 p1 e2 p2 : pa_fdsem_new e1 p1 = Some rf -> pa_fdsem_new e2 p2 = Some wf ->
    pa_asyncq_new size (Some rf) (Some wf) = Ok (Some l) -> asys_reach size (asys_init l)
| reach_step s s' : asys_reach size s -> asys_step s s' -> asys_reach size s'.
