(* ===== verification/AsyncqProps.v ===== *)
(** * AsyncqProps: what the queue between two threads guarantees

    Whatever the interleaving: nothing is lost, duplicated or reordered, no
    assertion fails, and no thread sleeps for ever while there is something for
    it to do. *)
From stdpp Require Import base tactics numbers list gmap.
From S2P Require Import Prelude Fdsem Asyncq.

(** ** Rings *)

(** The cells hold [c], from position [r] on, and nothing else. *)
Record ring (size : Z) (cells : list Z) (r : Z) (c : list Z) : Prop := {
  rg_cells : Z.of_nat (length cells) = size;
  rg_length : Z.of_nat (length c) <= size;
  rg_null : Forall (fun v => v <> 0) c;
  rg_lookup i : 0 <= i < size -> cells !! Z.to_nat ((r + i) mod size) = Some (default 0 (c !! Z.to_nat i))
}.

Lemma ring_slot size r i j : 0 < size -> 0 <= i < size -> 0 <= j < size ->
  Z.to_nat ((r + i) mod size) = Z.to_nat ((r + j) mod size) -> i = j.
Proof.
  intros Hs Hi Hj E. apply Z2Nat.inj in E; [|apply Z.mod_pos_bound; lia..].
  assert ((i - j) mod size = 0) as E'.
  { replace (i - j) with ((r + i) - (r + j)) by lia. rewrite Zminus_mod, E, Z.sub_diag. apply Z.mod_0_l. lia. }
  apply Z.mod_divide in E' as [k E']; [|lia].
  assert (k = 0) by nia. subst k. lia.
Qed.

Lemma ring_base size cells r r' c : 0 < size -> r mod size = r' mod size -> ring size cells r c -> ring size cells r' c.
Proof.
  intros Hs E [H1 H2 H3 H4]. split; [done..|]. intros i Hi. rewrite <- (H4 i Hi).
  by rewrite (Zplus_mod r' i), <- E, <- Zplus_mod.
Qed.

Lemma ring_head size cells r c : 0 < size -> ring size cells r c ->
  cells !! Z.to_nat (r mod size) = Some (default 0 (head c)).
Proof. intros Hs Hr. pose proof (rg_lookup _ _ _ _ Hr 0) as E. rewrite Z.add_0_r in E. rewrite E by lia. by destruct c. Qed.

(** The cell behind the last one is the first one when the ring is full. *)
Lemma ring_tail size cells r c : 0 < size -> ring size cells r c ->
  exists v, cells !! Z.to_nat ((r + Z.of_nat (length c)) mod size) = Some v /\
    (v = 0 <-> Z.of_nat (length c) < size).
Proof.
  intros Hs Hr. pose proof Hr as [_ Hl Hn _].
  destruct (decide (Z.of_nat (length c) < size)) as [Hlt|Hge].
  - exists 0. split; [|done]. rewrite (rg_lookup _ _ _ _ Hr) by lia.
    by rewrite lookup_ge_None_2 by lia.
  - destruct c as [|v c]; [simpl in *; lia|]. exists v. apply Forall_cons in Hn as [Hv _].
    split; [|split; [done|lia]]. replace (Z.of_nat (length (v :: c))) with (1 * size) by lia.
    rewrite Z_mod_plus_full, (ring_head _ _ _ _ Hs Hr). done.
Qed.

Lemma ring_push size cells r c p : 0 < size -> p <> 0 -> Z.of_nat (length c) < size -> ring size cells r c ->
  ring size (<[Z.to_nat ((r + Z.of_nat (length c)) mod size) := p]> cells) r (c ++ [p]).
Proof.
  intros Hs Hp Hl [H1 H2 H3 H4].
  assert (forall i, (Z.to_nat ((r + i) mod size) < length cells)%nat) as Hb.
  { intros i. pose proof (Z.mod_pos_bound (r + i) size Hs). lia. }
  split.
  - by rewrite length_insert.
  - rewrite length_app. simpl. lia.
  - apply Forall_app. by split; [|constructor].
  - intros i Hi. destruct (decide (i = Z.of_nat (length c))) as [->|Hne].
    + rewrite list_lookup_insert_eq by done. by rewrite Nat2Z.id, lookup_app_r, Nat.sub_diag by lia.
    + rewrite list_lookup_insert_ne by (intros E; apply ring_slot in E; lia).
      rewrite H4 by done. f_equal. destruct (decide (i < Z.of_nat (length c))).
      * by rewrite lookup_app_l by lia.
      * by rewrite !lookup_ge_None_2 by (rewrite ?length_app; simpl; lia).
Qed.

Lemma ring_pop size cells r v c : 0 < size -> ring size cells r (v :: c) ->
  ring size (<[Z.to_nat (r mod size) := 0]> cells) (r + 1) c.
Proof.
  intros Hs [H1 H2 H3 H4]. simpl in H2. apply Forall_cons in H3 as [_ H3].
  assert ((Z.to_nat (r mod size) < length cells)%nat) as Hb.
  { pose proof (Z.mod_pos_bound r size Hs). lia. }
  split; [by rewrite length_insert|lia|done|]. intros i Hi.
  destruct (decide (i = size - 1)) as [->|Hne].
  - replace ((r + 1 + (size - 1)) mod size) with (r mod size)
      by (replace (r + 1 + (size - 1)) with (r + 1 * size) by lia; by rewrite Z_mod_plus_full).
    rewrite list_lookup_insert_eq by done. by rewrite lookup_ge_None_2 by lia.
  - replace (r + 1 + i) with (r + (i + 1)) by lia.
    rewrite list_lookup_insert_ne.
    + rewrite H4 by lia. by replace (Z.to_nat (i + 1)) with (S (Z.to_nat i)) by lia.
    + rewrite <- (Z.add_0_r r) at 1. intros E. apply ring_slot in E; lia.
Qed.

Lemma ring_new size : 0 < size -> ring size (replicate (Z.to_nat size) 0) 0 [].
Proof.
  intros Hs. split; [rewrite length_replicate; lia|simpl; lia|constructor|]. intros i Hi.
  rewrite Z.add_0_l, Z.mod_small, lookup_replicate_2 by lia. done.
Qed.

(** ** The invariant *)

Definition reader_waiter (pc : reader_pc) : waiter :=
  match pc with RdWait w | RdBefore w | RdAfter w => InCall w | RdPolling => Polling | _ => Outside end.
Definition reader_post (pc : reader_pc) : option post_pc := match pc with RdPost _ p => Some p | _ => None end.

Definition writer_waiter (pc : writer_pc) (polling : bool) : waiter :=
  match pc with
  | WrWait _ _ w | WrBefore w | WrAfter w => InCall w
  | WrIdle => if polling then Polling else Outside
  | _ => Outside
  end.
Definition writer_post (pc : writer_pc) : option post_pc := match pc with WrSem _ _ p => Some p | _ => None end.

(** The positions, counting a cell that was taken or filled as soon as it was. *)
Definition read_pos (pc : reader_pc) (l : pa_asyncq) : Z :=
  aq_read_idx l + match pc with RdIncr _ => 1 | _ => 0 end.
Definition write_pos (pc : writer_pc) (l : pa_asyncq) : Z :=
  aq_write_idx l + match pc with WrIncr _ _ => 1 | _ => 0 end.

(** Waiting, and the signal not yet taken. *)
Definition waits_on (w : waiter) : bool :=
  match w with InCall (Dec _) | Outside => false | _ => true end.

Definition reader_expects (pc : reader_pc) : bool :=
  match pc with RdAfter _ => false | pc => waits_on (reader_waiter pc) end.
Definition writer_expects (pc : writer_pc) (polling : bool) : bool :=
  match pc with WrAfter _ => false | pc => waits_on (writer_waiter pc polling) end.

(** On the way to the semaphore. *)
Definition reader_signals (pc : reader_pc) : bool :=
  match pc with RdIncr _ | RdPost _ PostCas => true | _ => false end.
Definition writer_signals (pc : writer_pc) : bool :=
  match pc with WrIncr _ _ | WrSem _ _ PostCas => true | _ => false end.

(** Taken from the ring and not yet returned. *)
Definition in_reader (pc : reader_pc) : list Z := match pc with RdIncr v | RdPost v _ => [v] | _ => [] end.

Definition call_value (k : writer_call) : list Z := match k with KPush p _ _ | KPost p => [p] | KPoll => [] end.

(** What the writing thread has not yet put into the ring, oldest first. *)
Definition in_writer (pc : writer_pc) (l : pa_asyncq) : list Z :=
  match pc with
  | WrFlush k | WrCas k _ | WrWait k _ _ => reverse (aq_localq l) ++ call_value k
  | WrIncr k true | WrSem k true _ => tail (reverse (aq_localq l)) ++ call_value k
  | _ => reverse (aq_localq l)
  end.

Definition reader_op_ok (pc : reader_pc) : Prop :=
  match pc with
  | RdWait w => pc_op w = OpWait
  | RdBefore w => pc_op w = OpBefore
  | RdAfter w => pc_op w = OpAfter
  | _ => True
  end.

Definition call_ok (k : writer_call) : Prop := Forall (fun p => p <> 0) (call_value k).

(** A push of the client's own pointer only starts when the overflow list is
    empty. *)
Definition push_ok (k : writer_call) (flushing : bool) (l : pa_asyncq) : Prop :=
  call_ok k /\ if flushing then aq_localq l <> [] else aq_localq l = [] /\ exists p w b, k = KPush p w b.

Definition writer_ok (pc : writer_pc) (l : pa_asyncq) : Prop :=
  match pc with
  | WrIdle => aq_waiting_for_post l = true -> aq_localq l <> []
  | WrFlush k => call_ok k
  | WrCas k fl | WrIncr k fl | WrSem k fl _ => push_ok k fl l
  | WrWait k fl w => push_ok k fl l /\ pc_op w = OpWait
  | WrBefore w => aq_localq l <> [] /\ pc_op w = OpBefore
  | WrAfter w => pc_op w = OpAfter
  end.

Definition polling_ok (pc : writer_pc) (polling : bool) : Prop :=
  match pc with WrIdle => True | WrAfter _ => polling = true | _ => polling = false end.

Definition localq_ok (l : pa_asyncq) : Prop :=
  Forall (fun p => p <> 0) (aq_localq l) /\
  aq_last_localq l = match length (aq_localq l) with O => None | S n => Some n end.

Record ainv (l : pa_asyncq) (rd : reader_pc) (wr : writer_pc) (sent received c : list Z) : Prop := {
  ai_size : exists k, 0 <= k < 32 /\ aq_size l = 2 ^ k;
  ai_ring : ring (aq_size l) (aq_cells l) (read_pos rd l) c;
  ai_idx : u32 (write_pos wr l) = u32 (read_pos rd l + Z.of_nat (length c));
  ai_local : localq_ok l;
  ai_fifo : sent = received ++ in_reader rd ++ c ++ in_writer wr l;
  ai_head : match rd with RdCas v => head c = Some v | _ => True end;
  ai_reader : reader_op_ok rd;
  ai_writer : writer_ok wr l;
  ai_polling : polling_ok wr (aq_waiting_for_post l);
  ai_wsem : fdsem_inv (aq_write_fdsem l) (reader_waiter rd) (writer_post wr);
  ai_rsem : fdsem_inv (aq_read_fdsem l) (writer_waiter wr (aq_waiting_for_post l)) (reader_post rd);
  ai_wake_reader : reader_expects rd = true -> c <> [] ->
    writer_signals wr = true \/ fd_signalled (aq_write_fdsem l) = 1;
  ai_wake_writer : writer_expects wr (aq_waiting_for_post l) = true -> Z.of_nat (length c) < aq_size l ->
    reader_signals rd = true \/ fd_signalled (aq_read_fdsem l) = 1
}.

(** ** Reading and writing cells *)

Lemma u32_mod v k : 0 <= k < 32 -> u32 v mod 2 ^ k = v mod 2 ^ k.
Proof.
  intros Hk. unfold u32. replace (2 ^ 32) with (2 ^ k * 2 ^ (32 - k)) by (rewrite <- Z.pow_add_r; f_equal; lia).
  rewrite Z.rem_mul_r by (try apply Z.pow_nonzero; try apply Z.pow_pos_nonneg; lia).
  rewrite Z.mul_comm, Z_mod_plus_full. apply Z.mod_mod. apply Z.pow_nonzero; lia.
Qed.

Lemma reduce_pow2 l v : (exists k, 0 <= k < 32 /\ aq_size l = 2 ^ k) -> reduce l v = v mod aq_size l.
Proof.
  intros (k & Hk & E). unfold reduce. rewrite E.
  assert (0 < 2 ^ k <= 2 ^ 31) by (split; [apply Z.pow_pos_nonneg; lia|apply Z.pow_le_mono_r; lia]).
  rewrite u32_small by lia. replace (2 ^ k - 1) with (Z.ones k) by (rewrite Z.ones_equiv; lia).
  apply Z.land_ones. lia.
Qed.

Section cells.
Context {l : pa_asyncq} {rd : reader_pc} {wr : writer_pc} {sent received c : list Z}.
Hypothesis I : ainv l rd wr sent received c.

Lemma size_pos : 0 < aq_size l.
Proof. destruct (ai_size _ _ _ _ _ _ I) as (k & Hk & ->). apply Z.pow_pos_nonneg; lia. Qed.

Lemma reduce_mod v : reduce l v = v mod aq_size l.
Proof. apply reduce_pow2, (ai_size _ _ _ _ _ _ I). Qed.

Lemma idx_mod a b : u32 a = u32 b -> a mod aq_size l = b mod aq_size l.
Proof.
  destruct (ai_size _ _ _ _ _ _ I) as (k & Hk & ->). intros E.
  by rewrite <- (u32_mod a k), <- (u32_mod b k), E.
Qed.

Lemma read_cell : read_pos rd l = aq_read_idx l ->
  cell_at l (aq_read_idx l) = Ok (default 0 (head c)).
Proof.
  intros E. unfold cell_at. rewrite reduce_mod, <- E.
  by rewrite (ring_head _ _ _ _ size_pos (ai_ring _ _ _ _ _ _ I)).
Qed.

Lemma write_cell : write_pos wr l = aq_write_idx l ->
  exists v, cell_at l (aq_write_idx l) = Ok v /\ (v = 0 <-> Z.of_nat (length c) < aq_size l).
Proof.
  intros E. unfold cell_at. rewrite reduce_mod, <- E, (idx_mod _ _ (ai_idx _ _ _ _ _ _ I)).
  destruct (ring_tail _ _ _ _ size_pos (ai_ring _ _ _ _ _ _ I)) as (v & Ev & Hv). exists v. by rewrite Ev.
Qed.

Lemma head_null : default 0 (head c) = 0 <-> c = [].
Proof.
  destruct (ai_ring _ _ _ _ _ _ I) as [_ _ Hn _]. destruct c as [|v c']; simpl; [done|].
  apply Forall_cons in Hn as [Hv _]. done.
Qed.

(** What the oldest entry of the overflow list is. *)
Lemma local_last v : pushed_value KPoll true l = Ok v <-> exists q, reverse (aq_localq l) = v :: q.
Proof.
  destruct (ai_local _ _ _ _ _ _ I) as [_ E]. unfold pushed_value. rewrite E.
  destruct (aq_localq l) as [|p q _] using rev_ind; simpl; [naive_solver|].
  rewrite length_app, Nat.add_1_r. simpl. rewrite lookup_app_r, Nat.sub_diag by lia. simpl.
  rewrite reverse_snoc. naive_solver.
Qed.
End cells.

(** ** Steps of the semaphores *)

Lemma post_signals f w p' f' : fdsem_inv f w (Some PostCas) -> post_step PostCas f = (p', f') -> fd_signalled f' = 1.
Proof.
  intros [_ Hs _ _ _ _ _ _] E. unfold post_step, cas_signalled in E.
  destruct (Z.eqb_spec (fd_signalled f) 0); simplify_eq; simpl; lia.
Qed.

Lemma post_keeps_signal pc f p' f' : post_step pc f = (p', f') -> fd_signalled f = 1 -> fd_signalled f' = 1.
Proof.
  intros E Hs. unfold post_step, cas_signalled in E. rewrite Hs in E. destruct pc; simplify_eq/=; done.
Qed.

(** All branches of a step of [wait_step]. *)
Ltac wait_cases E :=
  unfold wait_step, flush_step, cas_signalled, fd_read, pa_assert in E;
  repeat match goal with op : wait_op |- _ => destruct op end; simpl in *;
  repeat match type of E with context [if ?b then _ else _] => destruct b eqn:?; simpl in * end;
  simplify_eq/=.

(** A thread that goes on waiting has not taken the signal. *)
Lemma wait_keeps_signal pc f r f' : wait_step pc f = Ok (Some (r, f')) -> fd_signalled f = 1 ->
  waits_on (waiter_next (pc_op pc) r) = true -> fd_signalled f' = 1.
Proof.
  intros E Hs Hw. destruct pc as [op|op|op r'|op|op|op| |r'|op]; wait_cases E; rewrite ?Hs in *; done.
Qed.

Lemma wait_op_kept pc f pc' f' : wait_step pc f = Ok (Some (inl pc', f')) -> wf_pc (InCall pc) ->
  pc_op pc' = pc_op pc.
Proof.
  intros E Hw. destruct pc as [op|op|op r'|op|op|op| |r'|op]; wait_cases E; done || (destruct Hw; done).
Qed.

(** Who waits before a step waits for the same before the call ends. *)
Lemma wait_from pc f r f' : wait_step pc f = Ok (Some (r, f')) ->
  waits_on (waiter_next (pc_op pc) r) = true -> pc_op pc <> OpAfter -> waits_on (InCall pc) = true.
Proof.
  intros E Hw Ho. destruct pc; try done. simpl in *. destruct (pa_assert _); simplify_eq/=. by destruct op.
Qed.

(** ** Steps of the reading thread *)

(** The program points that hold nothing. *)
Definition reader_quiet (pc : reader_pc) : Prop :=
  match pc with RdCas _ | RdIncr _ | RdPost _ _ => False | _ => True end.

Lemma reader_quiet_facts pc l : reader_quiet pc ->
  read_pos pc l = aq_read_idx l /\ in_reader pc = [] /\ reader_post pc = None /\ reader_signals pc = false /\
  (forall c : list Z, match pc with RdCas v => head c = Some v | _ => True end).
Proof. destruct pc; simpl; try done; intros _; unfold read_pos; rewrite Z.add_0_r; done. Qed.

(** Moving between such points, with nothing expected that was not expected
    before. *)
Lemma reader_moves l rd rd' wr sent received c f :
  ainv l rd wr sent received c -> reader_quiet rd -> reader_quiet rd' -> reader_op_ok rd' ->
  fdsem_inv f (reader_waiter rd') (writer_post wr) ->
  (reader_expects rd' = true -> c <> [] -> writer_signals wr = true \/ fd_signalled f = 1) ->
  ainv (set_write_fdsem f l) rd' wr sent received c.
Proof.
  intros I Hq Hq' Ho Hf Hk. destruct I as [H1 H2 H3 H4 H5 H6 H7 H8 H9 H10 H11 H12 H13].
  destruct (reader_quiet_facts rd l Hq) as (E1 & E2 & E3 & E4 & _).
  destruct (reader_quiet_facts rd' (set_write_fdsem f l) Hq') as (F1 & F2 & F3 & F4 & F5).
  rewrite E1 in *. rewrite E2, E3, E4 in *. simpl in F1.
  split; simpl; rewrite ?F1, ?F2, ?F3, ?F4; try done. apply F5.
Qed.

Lemma reader_waits l rd rd' wr sent received c w r f :
  ainv l rd wr sent received c -> reader_quiet rd -> reader_quiet rd' -> reader_op_ok rd' ->
  wait_step w (aq_write_fdsem l) = Ok (Some (r, f)) -> reader_waiter rd = InCall w ->
  reader_waiter rd' = waiter_next (pc_op w) r ->
  (reader_expects rd' = true -> reader_expects rd = waits_on (InCall w) /\ pc_op w <> OpAfter) ->
  ainv (set_write_fdsem f l) rd' wr sent received c.
Proof.
  intros I Hq Hq' Ho E Hw Hw' He. pose proof (ai_wsem _ _ _ _ _ _ I) as Hs. rewrite Hw in Hs.
  pose proof (wait_inv _ _ _ Hs) as Hs'. rewrite E in Hs'. rewrite <- Hw' in Hs'.
  apply (reader_moves l rd); [done..|]. intros Hx Hc. destruct (He Hx) as [Hx' Hop].
  assert (waits_on (waiter_next (pc_op w) r) = true) as Hwo by (rewrite <- Hw'; by destruct rd').
  destruct (ai_wake_reader _ _ _ _ _ _ I) as [?|Hsig]; [|done|by left|].
  - rewrite Hx'. by eapply wait_from.
  - right. by eapply wait_keeps_signal.
Qed.

Lemma reader_post_step l v p wr sent received c p' f :
  ainv l (RdPost v p) wr sent received c -> post_step p (aq_read_fdsem l) = (p', f) ->
  match p' with
  | Some p' => ainv (set_read_fdsem f l) (RdPost v p') wr sent received c
  | None => ainv (set_read_fdsem f l) RdIdle wr sent (received ++ [v]) c
  end.
Proof.
  intros [H1 H2 H3 H4 H5 H6 H7 H8 H9 H10 H11 H12 H13] E. simpl in *.
  pose proof (post_inv _ _ _ _ _ H11 E) as Hp.
  assert (writer_expects wr (aq_waiting_for_post l) = true -> Z.of_nat (length c) < aq_size l -> fd_signalled f = 1) as Hk.
  { intros Hx Hc. destruct p; [by eapply post_signals|..];
      (destruct (H13 Hx Hc); [done|]; by eapply post_keeps_signal). }
  destruct p' as [p'|]; split; simpl; try done; try (by destruct wr); try (intros; right; by apply Hk).
  rewrite H5, <- app_assoc. done.
Qed.

Lemma set_write_fdsem_id l : set_write_fdsem (aq_write_fdsem l) l = l.
Proof. by destruct l. Qed.

(** A call of the semaphore starts, or none does. *)
Lemma reader_starts l rd rd' wr sent received c : ainv l rd wr sent received c ->
  reader_quiet rd -> reader_waiter rd = Outside -> reader_quiet rd' -> reader_op_ok rd' ->
  (reader_waiter rd' = Outside \/
   exists op, op <> OpAfter /\ reader_waiter rd' = InCall (wait_start op)) ->
  (reader_expects rd' = true -> c = []) ->
  ainv l rd' wr sent received c.
Proof.
  intros I Hq Hw Hq' Ho Hw' He. rewrite <- (set_write_fdsem_id l).
  pose proof (ai_wsem _ _ _ _ _ _ I) as Hs. rewrite Hw in Hs.
  apply (reader_moves l rd); try done; [|intros Hx Hc; by rewrite He in Hc].
  destruct Hw' as [->|(op & Hop & ->)]; [done|]. by apply start_inv.
Qed.

Lemma reader_takes l b wr sent received c : ainv l (RdLoad b) wr sent received c ->
  default 0 (head c) <> 0 -> ainv l (RdCas (default 0 (head c))) wr sent received c.
Proof.
  intros [H1 H2 H3 H4 H5 H6 H7 H8 H9 H10 H11 H12 H13] E. split; try done. by destruct c.
Qed.

Lemma reader_empties l v wr sent received c : ainv l (RdCas v) wr sent received c ->
  match reader_step (RdCas v) l with
  | Ok (Some (rd', l', ret)) => exists c', ainv l' rd' wr sent (received ++ returned ret) c'
  | Ok None => True
  | _ => False
  end.
Proof.
  intros I. cbn [reader_step]. rewrite (read_cell I) by (unfold read_pos; lia). simpl.
  pose proof (size_pos I) as Hsz. pose proof (reduce_mod I (aq_read_idx l)) as Er.
  destruct I as [H1 H2 H3 H4 H5 H6 H7 H8 H9 H10 H11 H12 H13]. simpl in *.
  destruct c as [|v' c]; simplify_eq/=. rewrite Z.eqb_refl. simpl. rewrite app_nil_r. exists c.
  unfold read_pos in *. simpl in *. rewrite Z.add_0_r in *. unfold set_cell. rewrite Er.
  split; simpl; try done.
  - by apply ring_pop in H2.
  - replace (write_pos wr _) with (write_pos wr l) by done. rewrite H3. f_equal. unfold read_pos. simpl. lia.
  - by left.
Qed.

Lemma reader_advances l v wr sent received c : ainv l (RdIncr v) wr sent received c ->
  exists c', ainv (set_read_idx (u32 (aq_read_idx l + 1)) l) (RdPost v PostCas) wr sent (received ++ []) c'.
Proof.
  intros I. exists c. rewrite app_nil_r. pose proof (size_pos I) as Hsz.
  pose proof (idx_mod I (aq_read_idx l + 1) (u32 (aq_read_idx l + 1))) as Em.
  destruct I as [H1 H2 H3 H4 H5 H6 H7 H8 H9 H10 H11 H12 H13].
  unfold read_pos in *. simpl in *. split; simpl; unfold read_pos; simpl; try done.
  - rewrite Z.add_0_r. apply (ring_base _ _ (aq_read_idx l + 1)); [done| |done]. apply Em. by rewrite u32_idem.
  - rewrite Z.add_0_r. replace (write_pos wr _) with (write_pos wr l) by done. rewrite H3.
    unfold u32. by rewrite Zplus_mod_idemp_l.
  - by apply post_start_inv.
Qed.

(** A step inside a call of the semaphore, and what comes after the call. *)
Lemma reader_in_call l rd wr sent received c w (next : wait_pc + Z -> reader_pc) :
  ainv l rd wr sent received c -> reader_quiet rd -> reader_waiter rd = InCall w ->
  (forall r f, wait_step w (aq_write_fdsem l) = Ok (Some (r, f)) ->
     reader_quiet (next r) /\ reader_op_ok (next r) /\ reader_waiter (next r) = waiter_next (pc_op w) r /\
     (reader_expects (next r) = true -> reader_expects rd = waits_on (InCall w) /\ pc_op w <> OpAfter)) ->
  match in_write_fdsem w next l with
  | Ok (Some (rd', l', ret)) => exists c', ainv l' rd' wr sent (received ++ returned ret) c'
  | Ok None => True
  | _ => False
  end.
Proof.
  intros I Hq Hw Hn. pose proof (ai_wsem _ _ _ _ _ _ I) as Hs. rewrite Hw in Hs.
  pose proof (wait_inv _ _ _ Hs) as Hv. unfold in_write_fdsem.
  destruct (wait_step w (aq_write_fdsem l)) as [[[r f]|]| |] eqn:E; try done. simpl. rewrite app_nil_r. exists c.
  destruct (Hn r f eq_refl) as (H1 & H2 & H3 & H4). by apply (reader_waits l rd _ wr _ _ _ w r f).
Qed.

Lemma reader_inv l rd wr sent received c : ainv l rd wr sent received c ->
  match reader_step rd l with
  | Ok (Some (rd', l', ret)) => exists c', ainv l' rd' wr sent (received ++ returned ret) c'
  | Ok None => True
  | _ => False
  end.
Proof.
  intros I. pose proof (ai_wsem _ _ _ _ _ _ I) as Hs. pose proof (ai_reader _ _ _ _ _ _ I) as Ho.
  assert (Z_add_0 : forall x, x + 0 = x) by (intros; lia).
  destruct rd as [| |b|w|v|v|v p| |w|w]; cbn [reader_step]; try done.
  - rewrite (read_cell I) by apply Z_add_0. simpl. rewrite app_nil_r. exists c.
    destruct (Z.eqb_spec (default 0 (head c)) 0) as [E|E]; [apply (head_null I) in E as ->; destruct b|].
    + apply (reader_starts _ (RdLoad true)); try done. right. by exists OpWait.
    + apply (reader_starts _ (RdLoad false)); try done. by left.
    + by apply reader_takes with (b := b).
  - apply (reader_in_call l (RdWait w) wr sent received c); try done. intros [w'|r] f E; rewrite Ho; split_and!; try done.
    simpl. rewrite <- Ho. eapply wait_op_kept; [done|apply (fi_wf _ _ _ Hs)].
  - by eapply reader_empties.
  - by eapply reader_advances.
  - destruct (post_step p (aq_read_fdsem l)) as [p' f] eqn:E. apply (reader_post_step _ _ _ _ _ _ _ _ _ I) in E.
    destruct p'; simpl; rewrite ?app_nil_r; eauto.
  - rewrite (read_cell I) by apply Z_add_0. simpl. rewrite app_nil_r. exists c.
    destruct (Z.eqb_spec (default 0 (head c)) 0) as [E|E]; [apply (head_null I) in E as ->|];
      apply (reader_starts _ RdPollLoad); try done; [|by left]. right. by exists OpBefore.
  - apply (reader_in_call l (RdBefore w) wr sent received c); try done. intros [w'|r] f E; rewrite Ho; simpl.
    + split_and!; try done. rewrite <- Ho. eapply wait_op_kept; [done|apply (fi_wf _ _ _ Hs)].
    + by destruct (r <? 0).
  - apply (reader_in_call l (RdAfter w) wr sent received c); try done. intros [w'|r] f E; rewrite Ho; split_and!; try done.
    simpl. rewrite <- Ho. eapply wait_op_kept; [done|apply (fi_wf _ _ _ Hs)].
Qed.

(** ** Steps of the writing thread *)

Definition writer_quiet (pc : writer_pc) : Prop :=
  match pc with WrIncr _ _ | WrSem _ _ _ => False | _ => True end.

Lemma writer_quiet_facts pc l : writer_quiet pc ->
  write_pos pc l = aq_write_idx l /\ writer_post pc = None /\ writer_signals pc = false.
Proof. destruct pc; simpl; try done; intros _; unfold write_pos; rewrite Z.add_0_r; done. Qed.

(** Moving between points at which the ring is not touched. *)
Lemma writer_moves l wr wr' rd sent sent' received c q last b f :
  ainv l rd wr sent received c -> writer_quiet wr -> writer_quiet wr' ->
  let l' := set_localq q last (set_waiting_for_post b (set_read_fdsem f l)) in
  localq_ok l' -> writer_ok wr' l' -> polling_ok wr' b ->
  (forall pre, sent = pre ++ in_writer wr l -> sent' = pre ++ in_writer wr' l') ->
  fdsem_inv f (writer_waiter wr' b) (reader_post rd) ->
  (writer_expects wr' b = true -> Z.of_nat (length c) < aq_size l -> reader_signals rd = true \/ fd_signalled f = 1) ->
  ainv l' rd wr' sent' received c.
Proof.
  intros I Hq Hq' l' Hl Hw Hp Hs Hf Hk. destruct I as [H1 H2 H3 H4 H5 H6 H7 H8 H9 H10 H11 H12 H13].
  destruct (writer_quiet_facts wr l Hq) as (E1 & E2 & E3).
  destruct (writer_quiet_facts wr' l' Hq') as (F1 & F2 & F3).
  rewrite E1, E2, E3 in *. split; simpl; rewrite ?F1, ?F2, ?F3; try done.
  rewrite (Hs (received ++ in_reader rd ++ c)), <- !app_assoc; [done|]. by rewrite H5, <- !app_assoc.
Qed.

Lemma set_same l : set_localq (aq_localq l) (aq_last_localq l)
  (set_waiting_for_post (aq_waiting_for_post l) (set_read_fdsem (aq_read_fdsem l) l)) = l.
Proof. by destruct l. Qed.

(** The overflow list stays as it is. *)
Lemma writer_walks l wr wr' rd sent sent' received c b f :
  ainv l rd wr sent received c -> writer_quiet wr -> writer_quiet wr' ->
  let l' := set_waiting_for_post b (set_read_fdsem f l) in
  writer_ok wr' l' -> polling_ok wr' b ->
  (forall pre, sent = pre ++ in_writer wr l -> sent' = pre ++ in_writer wr' l') ->
  fdsem_inv f (writer_waiter wr' b) (reader_post rd) ->
  (writer_expects wr' b = true -> Z.of_nat (length c) < aq_size l -> reader_signals rd = true \/ fd_signalled f = 1) ->
  ainv l' rd wr' sent' received c.
Proof.
  intros I Hq Hq' l' Hw Hp Hs Hf Hk. pose proof (ai_local _ _ _ _ _ _ I) as Hl.
  replace l' with (set_localq (aq_localq l) (aq_last_localq l) l') by done.
  apply (writer_moves l wr wr' rd sent); done.
Qed.

Lemma writer_goes l wr wr' rd sent sent' received c : ainv l rd wr sent received c ->
  writer_quiet wr -> writer_quiet wr' -> writer_ok wr' l -> polling_ok wr' (aq_waiting_for_post l) ->
  (forall pre, sent = pre ++ in_writer wr l -> sent' = pre ++ in_writer wr' l) ->
  fdsem_inv (aq_read_fdsem l) (writer_waiter wr' (aq_waiting_for_post l)) (reader_post rd) ->
  (writer_expects wr' (aq_waiting_for_post l) = true -> Z.of_nat (length c) < aq_size l ->
     reader_signals rd = true \/ fd_signalled (aq_read_fdsem l) = 1) ->
  ainv l rd wr' sent' received c.
Proof.
  intros I Hq Hq' Hw Hp Hs Hf Hk.
  replace l with (set_waiting_for_post (aq_waiting_for_post l) (set_read_fdsem (aq_read_fdsem l) l)) by (by destruct l).
  apply (writer_walks l wr wr' rd sent); by destruct l.
Qed.

Lemma writer_in_call l rd wr sent received c w (next : wait_pc + Z -> writer_pc) (polling : wait_pc + Z -> option bool) :
  ainv l rd wr sent received c -> writer_quiet wr -> writer_waiter wr (aq_waiting_for_post l) = InCall w ->
  (forall r f, wait_step w (aq_read_fdsem l) = Ok (Some (r, f)) ->
     let b := default (aq_waiting_for_post l) (polling r) in
     let l' := set_waiting_for_post b (set_read_fdsem f l) in
     writer_quiet (next r) /\ writer_ok (next r) l' /\ polling_ok (next r) b /\
     in_writer (next r) l' = in_writer wr l /\
     writer_waiter (next r) b = waiter_next (pc_op w) r /\
     (writer_expects (next r) b = true ->
        writer_expects wr (aq_waiting_for_post l) = waits_on (InCall w) /\ pc_op w <> OpAfter)) ->
  match in_read_fdsem w next polling l with
  | Ok (Some (wr', l', refused)) => exists c', ainv l' rd wr' (last_removed refused sent) received c'
  | Ok None => True
  | _ => False
  end.
Proof.
  intros I Hq Hw Hn. pose proof (ai_rsem _ _ _ _ _ _ I) as Hs. rewrite Hw in Hs.
  pose proof (wait_inv _ _ _ Hs) as Hv. unfold in_read_fdsem.
  destruct (wait_step w (aq_read_fdsem l)) as [[[r f]|]| |] eqn:E; try done. simpl. exists c.
  destruct (Hn r f eq_refl) as (H1 & H2 & H3 & H4 & H5 & H6). rewrite <- H5 in Hv.
  replace (match polling r with Some b => _ | None => _ end)
    with (set_waiting_for_post (default (aq_waiting_for_post l) (polling r)) (set_read_fdsem f l))
    by (by destruct (polling r), l).
  apply (writer_walks l wr _ _ sent); try done.
  - intros pre Hp. rewrite H4. done.
  - intros Hx Hc. destruct (H6 Hx) as [Hx' Hop].
    assert (waits_on (waiter_next (pc_op w) r) = true) as Hwo by (rewrite <- H5; by destruct (next r)).
    destruct (ai_wake_writer _ _ _ _ _ _ I) as [?|Hsig]; [|done|by left|].
    + rewrite Hx'. by eapply wait_from.
    + right. by eapply wait_keeps_signal.
Qed.

(** What [last_localq] says about the overflow list. *)
Lemma localq_last l : localq_ok l ->
  (aq_last_localq l = None /\ aq_localq l = []) \/
  exists q p, aq_localq l = q ++ [p] /\ p <> 0 /\ aq_last_localq l = Some (length q) /\ Forall (fun p => p <> 0) q.
Proof.
  intros [Hn E]. destruct (aq_localq l) as [|p q _] using rev_ind; [by left|]. right. exists q, p.
  apply Forall_app in Hn as [Hq Hp]. apply Forall_cons in Hp as [Hp _].
  rewrite length_app, Nat.add_1_r in E. by split_and!.
Qed.

Lemma writer_flushes l k rd sent received c : ainv l rd (WrFlush k) sent received c ->
  ainv l rd (match aq_last_localq l with None => flushed k | Some _ => WrCas k true end) sent received c.
Proof.
  intros I. pose proof (ai_rsem _ _ _ _ _ _ I) as Hs. pose proof (ai_writer _ _ _ _ _ _ I) as Hk.
  pose proof (ai_polling _ _ _ _ _ _ I) as Hp. simpl in *.
  destruct (localq_last l (ai_local _ _ _ _ _ _ I)) as [[-> El]|(q & p & El & _ & -> & _)].
  - destruct k as [p w b|p|]; (eapply writer_goes; [exact I|..]); try done; simpl; rewrite ?Hp, ?El; try done.
    split; [done|]. split; [done|eauto].
  - apply (writer_goes l (WrFlush k) _ rd sent); try done. split; [done|]. rewrite El. by destruct q.
Qed.

Lemma writer_fails l k fl rd sent received c : ainv l rd (WrCas k fl) sent received c ->
  aq_size l <= Z.of_nat (length c) ->
  let '(wr', l', refused) := push_failed k l in ainv l' rd wr' (last_removed refused sent) received c.
Proof.
  intros I Hfull. pose proof (ai_rsem _ _ _ _ _ _ I) as Hs. pose proof (ai_writer _ _ _ _ _ _ I) as [Hk Hq].
  pose proof (ai_polling _ _ _ _ _ _ I) as Hp. pose proof (ai_local _ _ _ _ _ _ I) as [Hln Hll]. simpl in *.
  assert (forall p, call_value k = [p] -> ainv (enqueue p l) rd WrIdle sent received c) as He.
  { intros p Ek. pose proof (writer_moves l (WrCas k fl) WrIdle rd sent sent received c (p :: aq_localq l)
      (match aq_last_localq l with Some n => Some (S n) | None => Some 0%nat end)
      (aq_waiting_for_post l) (aq_read_fdsem l) I) as H. cbv zeta in H.
    replace (set_waiting_for_post _ (set_read_fdsem _ l)) with l in H by (by destruct l). fold (enqueue p l) in H.
    apply H; simpl; rewrite ?Hp; try done.
    - unfold call_ok in Hk. rewrite Ek in Hk. apply Forall_cons in Hk as [Hk _]. split; simpl; [by constructor|].
      rewrite Hll. by destruct (length (aq_localq l)).
    - intros pre ->. by rewrite Ek, reverse_cons. }
  destruct k as [p w []|p|]; simpl; try by apply He.
  - (eapply writer_goes; [exact I|..]); try done; simpl; rewrite ?Hp; try done.
    intros pre ->. by rewrite app_assoc, removelast_last.
  - (eapply writer_goes; [exact I|..]); try done.
    + simpl. split; [|done]. destruct fl; [done|]. by destruct Hq as (_ & ? & ? & ? & ?).
    + simpl. intros pre ->. by rewrite app_nil_r.
    + by apply (start_inv _ OpBefore).
    + intros _ Hc. lia.
Qed.

Lemma writer_fills l k fl rd sent received c p : ainv l rd (WrCas k fl) sent received c ->
  pushed_value k fl l = Ok p -> Z.of_nat (length c) < aq_size l -> p <> 0 ->
  ainv (set_cell l (aq_write_idx l) p) rd (WrIncr k fl) sent received (c ++ [p]).
Proof.
  intros I Hv Hlt Hp. pose proof (size_pos I) as Hsz. pose proof (local_last I) as Hll.
  assert (reduce l (aq_write_idx l) = (read_pos rd l + Z.of_nat (length c)) mod aq_size l) as Er.
  { rewrite (reduce_mod I). rewrite <- (idx_mod I _ _ (ai_idx _ _ _ _ _ _ I)). f_equal. unfold write_pos. lia. }
  unfold set_cell. rewrite Er. destruct I as [H1 H2 H3 H4 H5 H6 H7 H8 H9 H10 H11 H12 H13].
  split; simpl in *; try done.
  - replace (read_pos rd _) with (read_pos rd l) by done. by apply ring_push.
  - unfold write_pos in *. simpl in *. rewrite Z.add_0_r in H3. rewrite length_app. simpl.
    replace (read_pos rd _) with (read_pos rd l) by done. unfold u32 in *.
    rewrite <- Zplus_mod_idemp_l, H3, Zplus_mod_idemp_l. f_equal. lia.
  - rewrite H5. destruct H8 as [_ H8]. destruct fl.
    + apply Hll in Hv as [q ->]. simpl. by rewrite <- !app_assoc.
    + destruct H8 as (-> & p' & w & b & ->). simpl in *. simplify_eq. by rewrite <- !app_assoc, app_nil_r.
  - destruct rd; try done. by destruct c.
  - intros _ _. by left.
Qed.

Lemma writer_cas l k fl rd sent received c : ainv l rd (WrCas k fl) sent received c ->
  match writer_step (WrCas k fl) l with
  | Ok (Some (wr', l', refused)) => exists c', ainv l' rd wr' (last_removed refused sent) received c'
  | Ok None => True
  | _ => False
  end.
Proof.
  intros I. pose proof (ai_rsem _ _ _ _ _ _ I) as Hs. pose proof (ai_writer _ _ _ _ _ _ I) as [Hk Hq].
  assert (exists p, pushed_value k fl l = Ok p /\ p <> 0) as (p & Ep & Hp).
  { destruct fl.
    - destruct (localq_last l (ai_local _ _ _ _ _ _ I)) as [[_ E]|(q & p & El & Hp & Ell & _)]; [done|].
      exists p. split; [|done]. apply (local_last I). rewrite El, reverse_snoc. eauto.
    - destruct Hq as (_ & p & w & b & ->). apply Forall_cons in Hk as [Hk _]. eauto. }
  cbn [writer_step]. rewrite Ep. simpl. rewrite (proj2 (Z.eqb_neq _ _) Hp). simpl.
  destruct (write_cell I) as (v & -> & Hv); [unfold write_pos; lia|]. simpl.
  destruct (Z.eqb_spec v 0) as [Ev|Ev]; [|destruct (call_waits k) eqn:Ew].
  - exists (c ++ [p]). apply writer_fills; naive_solver.
  - exists c. eapply writer_goes; [exact I|..]; try done;
      [exact (ai_polling _ _ _ _ _ _ I)|by apply (start_inv _ OpWait)|].
    intros _ Hc. naive_solver.
  - pose proof (writer_fails _ _ _ _ _ _ _ I) as H. destruct (push_failed k l) as [[wr' l'] refused].
    exists c. apply H. destruct (decide (Z.of_nat (length c) < aq_size l)); [naive_solver|lia].
Qed.

Lemma writer_advances l k fl rd sent received c : ainv l rd (WrIncr k fl) sent received c ->
  ainv (set_write_idx (u32 (aq_write_idx l + 1)) l) rd (WrSem k fl PostCas) sent received c.
Proof.
  intros [H1 H2 H3 H4 H5 H6 H7 H8 H9 H10 H11 H12 H13]. unfold write_pos in *. simpl in *.
  split; simpl; unfold write_pos; simpl; try done.
  - rewrite Z.add_0_r, u32_idem. exact H3.
  - by apply post_start_inv.
Qed.

Lemma dequeue_ok l : localq_ok l -> aq_localq l <> [] ->
  exists q, dequeue l = Ok (set_localq q (match length q with O => None | S n => Some n end) l) /\
    reverse q = tail (reverse (aq_localq l)) /\ Forall (fun p => p <> 0) q.
Proof.
  intros Hl Hne. destruct (localq_last l Hl) as [[_ E]|(q & p & El & _ & Ell & Hq)]; [done|].
  exists q. unfold dequeue. rewrite Ell, El. simpl. rewrite lookup_app_r, Nat.sub_diag by lia. simpl.
  rewrite delete_middle, app_nil_r, reverse_snoc. done.
Qed.

Lemma writer_posts l k fl p rd sent received c : ainv l rd (WrSem k fl p) sent received c ->
  match writer_step (WrSem k fl p) l with
  | Ok (Some (wr', l', refused)) => ainv l' rd wr' (last_removed refused sent) received c
  | _ => False
  end.
Proof.
  intros I. cbn [writer_step]. destruct (post_step p (aq_write_fdsem l)) as [p' f] eqn:E.
  destruct I as [H1 H2 H3 H4 H5 H6 H7 H8 H9 H10 H11 H12 H13]. simpl in *.
  pose proof (post_inv _ _ _ _ _ H10 E) as Hp. destruct H8 as [Hk Hq].
  assert (reader_expects rd = true -> c <> [] -> fd_signalled f = 1) as Hw.
  { intros Hx Hc. destruct p; [by eapply post_signals|..];
      (destruct (H12 Hx Hc); [done|]; by eapply post_keeps_signal). }
  unfold write_pos in *. simpl in *. rewrite Z.add_0_r in H3.
  destruct p' as [p'|]; [|destruct fl].
  - split; simpl; unfold write_pos; simpl; rewrite ?Z.add_0_r; try done; auto.
  - destruct (dequeue_ok (set_write_fdsem f l) H4 Hq) as (q & -> & Er & Hn). simpl in Er. simpl.
    split; simpl; unfold write_pos; simpl; rewrite ?Z.add_0_r; try done; auto. by rewrite Er.
  - split; simpl; unfold write_pos; simpl; rewrite ?Z.add_0_r, ?H9 in *; try done; auto.
Qed.

Lemma writer_inv l rd wr sent received c : ainv l rd wr sent received c ->
  match writer_step wr l with
  | Ok (Some (wr', l', refused)) => exists c', ainv l' rd wr' (last_removed refused sent) received c'
  | Ok None => True
  | _ => False
  end.
Proof.
  intros I. pose proof (ai_rsem _ _ _ _ _ _ I) as Hs. pose proof (ai_writer _ _ _ _ _ _ I) as Hw.
  pose proof (ai_polling _ _ _ _ _ _ I) as Hp.
  destruct wr as [|k|k fl|k fl w|k fl|k fl p|w|w].
  - done.
  - exists c. by apply writer_flushes.
  - by eapply writer_cas.
  - destruct Hw as [Hk Ho]. apply (writer_in_call l rd (WrWait k fl w) sent received c); try done.
    intros [w'|r] f E; rewrite Ho; simpl; split_and!; try done.
    rewrite <- Ho. eapply wait_op_kept; [done|apply (fi_wf _ _ _ Hs)].
  - exists c. by apply writer_advances.
  - pose proof (writer_posts _ _ _ _ _ _ _ _ I) as H. destruct (writer_step _ _) as [[[[? ?] ?]|]| |]; try done. eauto.
  - destruct Hw as [Hk Ho]. apply (writer_in_call l rd (WrBefore w) sent received c); try done.
    intros [w'|r] f E; rewrite Ho; simpl.
    + split_and!; try done. rewrite <- Ho. eapply wait_op_kept; [done|apply (fi_wf _ _ _ Hs)].
    + destruct (r <? 0); simpl; split_and!; try done; [by constructor|by rewrite app_nil_r].
  - apply (writer_in_call l rd (WrAfter w) sent received c); try done.
    intros [w'|r] f E; rewrite Hw; simpl; split_and!; try done.
    rewrite <- Hw. eapply wait_op_kept; [done|apply (fi_wf _ _ _ Hs)].
Qed.

(** ** All interleavings *)

Lemma power_of_two n : 0 < n < 2 ^ 32 -> pa_is_power_of_two n = true -> exists k, 0 <= k < 32 /\ n = 2 ^ k.
Proof.
  unfold pa_is_power_of_two. intros Hn E. rewrite u32_small in E by lia. apply Z.eqb_eq in E.
  exists (Z.log2 n). pose proof (Z.log2_spec n ltac:(lia)) as [Hlo Hhi]. pose proof (Z.log2_nonneg n) as Hk.
  split; [split; [done|]|]. { apply (Z.pow_lt_mono_r_iff 2); lia. }
  destruct (decide (n = 2 ^ Z.log2 n)) as [|Hne]; [done|exfalso].
  assert (Z.log2 (n - 1) = Z.log2 n) as El by (apply Z.log2_unique; lia).
  assert (Z.testbit (Z.land n (n - 1)) (Z.log2 n) = true) as Hb.
  { rewrite Z.land_spec, Z.bit_log2 by lia. rewrite <- El at 1. by rewrite Z.bit_log2 by lia. }
  by rewrite E, Z.testbit_0_l in Hb.
Qed.

Lemma reader_start_inv cmd l rd rd' wr sent received c : ainv l rd wr sent received c ->
  reader_start cmd rd = Some rd' -> ainv l rd' wr sent received c.
Proof.
  intros I E. destruct cmd, rd; simplify_eq/=.
  - apply (reader_starts l RdIdle); try done. by left.
  - apply (reader_starts l RdIdle); try done. by left.
  - rewrite <- (set_write_fdsem_id l). apply (reader_moves l RdPolling); try done.
    by apply (start_inv _ OpAfter); [|intros _; exact (ai_wsem _ _ _ _ _ _ I)].
Qed.

Lemma writer_start_inv cmd l rd wr wr' sent received c : ainv l rd wr sent received c ->
  writer_start cmd l wr = Some wr' -> (forall p, p ∈ sent_by cmd -> p <> 0) ->
  ainv l rd wr' (sent ++ sent_by cmd) received c.
Proof.
  intros I E Hne. pose proof (ai_rsem _ _ _ _ _ _ I) as Hs.
  destruct wr; simplify_eq/=. destruct (aq_waiting_for_post l) eqn:Ep, cmd; simplify_eq/=;
    (eapply writer_goes; [exact I|..]); rewrite ?Ep; try done; simpl; rewrite ?app_nil_r.
  - done.
  - by apply (start_inv _ OpAfter).
  - apply Forall_singleton, Hne. by left.
  - intros pre ->. by rewrite <- app_assoc.
  - apply Forall_singleton, Hne. by left.
  - intros pre ->. by rewrite <- app_assoc.
  - by constructor.
  - done.
Qed.

Lemma reach_inv size s : 0 <= size < 2 ^ 32 -> asys_reach size s ->
  exists c, ainv (as_q s) (as_reader s) (as_writer s) (as_sent s) (as_received s) c.
Proof.
  intros Hsz. induction 1 as [rf wf l e1 p1 e2 p2 E1 E2 E|s s' _ [c I] Hst].
  - exists []. apply new_inv in E1, E2. unfold pa_asyncq_new in E. inv_bind. unfold asys_init; simpl.
    set (n := if size =? 0 then ASYNCQ_SIZE else size) in *.
    assert (0 < n < 2 ^ 32) by (unfold n, ASYNCQ_SIZE; destruct (Z.eqb_spec size 0); lia).
    split; simpl; try done.
    + by apply power_of_two.
    + apply ring_new. lia.
  - destruct Hst as [cmd s pc E|cmd s pc E Hne|s pc l ret E|s pc l refused E]; simpl.
    + exists c. by eapply reader_start_inv.
    + exists c. by eapply writer_start_inv.
    + apply reader_inv in I. by rewrite E in I.
    + apply writer_inv in I. by rewrite E in I.
Qed.

(** ** Sleeping *)

(** In a call that cannot go on, or in poll() with nothing to read. *)
Definition reader_asleep (s : asys) : Prop :=
  match as_reader s with
  | RdIdle => False
  | RdPolling => fd_count (aq_write_fdsem (as_q s)) = 0
  | pc => reader_step pc (as_q s) = Ok None
  end.

Definition writer_asleep (s : asys) : Prop :=
  match as_writer s with
  | WrIdle => aq_waiting_for_post (as_q s) = true /\ fd_count (aq_read_fdsem (as_q s)) = 0
  | pc => writer_step pc (as_q s) = Ok None
  end.

(** Behind the access to the cell, and not yet back from [pa_fdsem_post]. *)
Definition reader_posting (pc : reader_pc) : bool := match pc with RdIncr _ | RdPost _ _ => true | _ => false end.
Definition writer_posting (pc : writer_pc) : bool := match pc with WrIncr _ _ | WrSem _ _ _ => true | _ => false end.

(** A thread that sleeps has not overlooked anything. *)
Lemma asleep_signal f w p : fdsem_inv f w p -> fd_count f = 0 ->
  (w = Polling \/ exists pc, w = InCall pc /\ wait_step pc f = Ok None) ->
  waits_on w = true /\ (fd_signalled f = 1 -> p <> None) /\ (pc_op (match w with InCall pc => pc | _ => Read end) = OpAfter -> p <> None).
Proof.
  intros I E0 Hw. pose proof I as [_ Hs _ Hp _ _ Hfl Hk].
  assert (sleeping w \/ exists op, w = InCall (FlushRead op)) as [Hsl|[op ->]].
  { destruct Hw as [->|(pc & -> & E)]; [left; by right|]. apply wait_inv in I. rewrite E in I.
    destruct I as [_ [->|[op ->]]]; [left; by left|eauto]. }
  - assert (fd_signalled f = 1 -> p <> None) as Hx.
    { intros E1. destruct (Hk Hsl E1) as [?|[->|[->| ->]]]; [lia|done..]. }
    destruct Hsl as [->| ->]; done.
  - simpl in *. assert (p <> None) by (destruct p as [[]|]; simpl in *; done || lia). done.
Qed.

Lemma ring_cell size cells r c j : 0 < size -> ring size cells r c -> 0 <= j < size ->
  cells !! Z.to_nat j = Some (default 0 (c !! Z.to_nat ((j - r) mod size))).
Proof.
  intros Hs Hr Hj. pose proof (Z.mod_pos_bound (j - r) size Hs) as Hb.
  rewrite <- (rg_lookup _ _ _ _ Hr) by done. rewrite Zplus_mod_idemp_r.
  replace (r + (j - r)) with j by lia. by rewrite Z.mod_small.
Qed.

Lemma ring_all (P : Z -> Prop) size cells r c : 0 < size -> ring size cells r c ->
  (forall i, 0 <= i < size -> P (default 0 (c !! Z.to_nat i))) -> Forall P cells.
Proof.
  intros Hs Hr HP. apply Forall_lookup. intros j v E. pose proof (lookup_lt_Some _ _ _ E) as Hj.
  pose proof (rg_cells _ _ _ _ Hr) as Hc. rewrite <- (Nat2Z.id j) in E.
  rewrite (ring_cell _ _ _ _ (Z.of_nat j) Hs Hr) in E by lia. simplify_eq. apply HP, Z.mod_pos_bound, Hs.
Qed.

Lemma reader_sleeps s c : ainv (as_q s) (as_reader s) (as_writer s) (as_sent s) (as_received s) c -> reader_asleep s ->
  reader_posting (as_reader s) = false /\ (writer_posting (as_writer s) = true \/ c = []).
Proof.
  intros I Ha. pose proof (ai_wsem _ _ _ _ _ _ I) as Hs. pose proof (ai_reader _ _ _ _ _ _ I) as Ho.
  pose proof (ai_wake_reader _ _ _ _ _ _ I) as Hw. unfold reader_asleep in Ha.
  assert (exists w, reader_waiter (as_reader s) = w /\ fd_count (aq_write_fdsem (as_q s)) = 0 /\
    (w = Polling \/ exists pc, w = InCall pc /\ wait_step pc (aq_write_fdsem (as_q s)) = Ok None)) as (w & Ew & E0 & Hx).
  { clear Hw. destruct (as_reader s) as [| |b|w|v|v|v p| |w|w]; try done; simpl in *;
      try (unfold reader_step in Ha; inv_bind; done); try (by eexists; split_and!; [done|done|left]).
    all: try (destruct (post_step p (aq_read_fdsem (as_q s))); done).
    all: unfold in_write_fdsem in Ha; pose proof (wait_inv _ _ _ Hs) as Hv;
      destruct (wait_step w (aq_write_fdsem (as_q s))) as [[[]|]| |] eqn:E; simplify_eq/=;
      eexists; split_and!; [done|apply Hv|right; eauto]. }
  destruct (asleep_signal _ _ _ Hs E0) as (H1 & H2 & H3); [by rewrite Ew|].
  assert (writer_post (as_writer s) <> None -> writer_posting (as_writer s) = true) as Hp by (by destruct (as_writer s)).
  assert (writer_signals (as_writer s) = true -> writer_posting (as_writer s) = true) as Hp' by (by destruct (as_writer s)).
  split; [by destruct (as_reader s)|]. destruct (decide (c = [])) as [|Hc]; [by right|left].
  destruct (reader_expects (as_reader s)) eqn:Ex.
  - destruct (Hw eq_refl Hc); auto.
  - apply Hp, H3. rewrite Ew. destruct (as_reader s); simpl in *; try done; subst; simpl in *; try congruence.
Qed.

Lemma writer_sleeps s c : ainv (as_q s) (as_reader s) (as_writer s) (as_sent s) (as_received s) c -> writer_asleep s ->
  writer_posting (as_writer s) = false /\
  (reader_posting (as_reader s) = true \/ aq_size (as_q s) <= Z.of_nat (length c)).
Proof.
  intros I Ha. pose proof (ai_rsem _ _ _ _ _ _ I) as Hs. pose proof (ai_writer _ _ _ _ _ _ I) as Ho.
  pose proof (ai_wake_writer _ _ _ _ _ _ I) as Hw. unfold writer_asleep in Ha.
  set (b := aq_waiting_for_post (as_q s)) in *.
  assert (exists w, writer_waiter (as_writer s) b = w /\ fd_count (aq_read_fdsem (as_q s)) = 0 /\
    (w = Polling \/ exists pc, w = InCall pc /\ wait_step pc (aq_read_fdsem (as_q s)) = Ok None)) as (w & Ew & E0 & Hx).
  { clear Hw. pose proof (writer_inv _ _ _ _ _ _ I) as Hv.
    destruct (as_writer s) as [|k|k fl|k fl w|k fl|k fl p|w|w]; simpl in *; try done.
    - destruct Ha as [-> ?]. eexists. split_and!; [done..|by left].
    - by repeat (inv_bind; try done).
    - unfold in_read_fdsem in Ha. apply wait_inv in Hs.
      destruct (wait_step w (aq_read_fdsem (as_q s))) as [[[]|]| |] eqn:E; simplify_eq/=.
      eexists; split_and!; [done|apply Hs|right; eauto].
    - destruct (post_step p _) as [[]]; [done|]. destruct fl; [|done]. by repeat (inv_bind; try done).
    - unfold in_read_fdsem in Ha. apply wait_inv in Hs.
      destruct (wait_step w (aq_read_fdsem (as_q s))) as [[[]|]| |] eqn:E; simplify_eq/=.
      eexists; split_and!; [done|apply Hs|right; eauto].
    - unfold in_read_fdsem in Ha. apply wait_inv in Hs.
      destruct (wait_step w (aq_read_fdsem (as_q s))) as [[[]|]| |] eqn:E; simplify_eq/=.
      eexists; split_and!; [done|apply Hs|right; eauto]. }
  destruct (asleep_signal _ _ _ Hs E0) as (H1 & H2 & H3); [by rewrite Ew|].
  assert (reader_post (as_reader s) <> None -> reader_posting (as_reader s) = true) as Hp by (by destruct (as_reader s)).
  assert (reader_signals (as_reader s) = true -> reader_posting (as_reader s) = true) as Hp' by (by destruct (as_reader s)).
  split; [by destruct (as_writer s)|].
  destruct (decide (aq_size (as_q s) <= Z.of_nat (length c))) as [|Hc]; [by right|left].
  destruct (writer_expects (as_writer s) b) eqn:Ex.
  - destruct (Hw eq_refl ltac:(lia)); auto.
  - apply Hp, H3. rewrite Ew. destruct (as_writer s); simpl in *; subst; simpl in *; try done; congruence.
Qed.

(** ** Claims *)

(** C14: the queue is a first-in first-out channel in every interleaving of its
    two users: no assertion fails and no cell outside the ring is touched, the
    pointers [pa_asyncq_pop] returned are the first ones of those that were
    sent, in the same order and each once, and when both threads are outside of
    the queue the others are exactly those in the ring followed by those in the
    overflow list. *)
Theorem asyncq_fifo size s : 0 <= size < 2 ^ 32 -> asys_reach size s ->
  (exists o, reader_step (as_reader s) (as_q s) = Ok o) /\
  (exists o, writer_step (as_writer s) (as_q s) = Ok o) /\
  as_received s `prefix_of` as_sent s /\
  (as_reader s = RdIdle -> as_writer s = WrIdle ->
     exists c, as_sent s = as_received s ++ c ++ reverse (aq_localq (as_q s)) /\
       ring (aq_size (as_q s)) (aq_cells (as_q s)) (aq_read_idx (as_q s)) c).
Proof.
  intros Hsz Hr. destruct (reach_inv size s Hsz Hr) as [c I]. split_and!.
  - apply reader_inv in I. destruct (reader_step _ _); eauto; done.
  - apply writer_inv in I. destruct (writer_step _ _); eauto; done.
  - rewrite (ai_fifo _ _ _ _ _ _ I). by apply prefix_app_r.
  - intros Er Ew. exists c. rewrite Er, Ew in I. split; [exact (ai_fifo _ _ _ _ _ _ I)|].
    rewrite <- (Z.add_0_r (aq_read_idx _)). exact (ai_ring _ _ _ _ _ _ I).
Qed.

(** C28: nobody sleeps for ever: in every interleaving, the reading thread only
    sleeps (in [pa_asyncq_pop], or in poll() after
    [pa_asyncq_read_before_poll]) while the ring is empty or the other thread is
    about to wake it; the writing thread only while the ring is full, or the
    other thread is about to wake it; and never both. *)
Theorem asyncq_no_deadlock size s : 0 <= size < 2 ^ 32 -> asys_reach size s ->
  (reader_asleep s -> writer_posting (as_writer s) = true \/ Forall (fun v => v = 0) (aq_cells (as_q s))) /\
  (writer_asleep s -> reader_posting (as_reader s) = true \/ Forall (fun v => v <> 0) (aq_cells (as_q s))) /\
  ~ (reader_asleep s /\ writer_asleep s).
Proof.
  intros Hsz Hr. destruct (reach_inv size s Hsz Hr) as [c I]. pose proof (size_pos I) as Hp.
  pose proof (ai_ring _ _ _ _ _ _ I) as Hg. split_and!.
  - intros Ha. destruct (reader_sleeps s c I Ha) as [_ [?| ->]]; [by left|right].
    apply (ring_all _ _ _ _ _ Hp Hg). done.
  - intros Ha. destruct (writer_sleeps s c I Ha) as [_ [?|Hf]]; [by left|right].
    apply (ring_all _ _ _ _ _ Hp Hg). intros i Hi.
    destruct (lookup_lt_is_Some_2 c (Z.to_nat i)) as [v Ev]; [lia|]. rewrite Ev.
    pose proof (rg_null _ _ _ _ Hg) as Hn. rewrite Forall_lookup in Hn. by eapply Hn.
  - intros [Ha1 Ha2]. destruct (reader_sleeps s c I Ha1) as [E1 [?| ->]]; destruct (writer_sleeps s _ I Ha2) as [E2 [?|Hf]];
      try congruence. simpl in Hf. lia.
Qed.

(** ** Witnesses *)

Module AsyncqExample.
Definition fd0 : pa_fdsem := mk_fdsem true 0 0 0 0.
Definition q0 : pa_asyncq := mk_asyncq 2 0 0 fd0 fd0 [] None false [0; 0].

(** A run given by the moves of the two threads. *)
Inductive move := Rs (c : reader_cmd) | Ws (c : writer_cmd) | R | W.

Definition do_move (m : move) (s : asys) : option asys :=
  match m with
  | Rs c => (fun pc => mk_asys (as_q s) pc (as_writer s) (as_sent s) (as_received s)) <$> reader_start c (as_reader s)
  | Ws c => (fun pc => mk_asys (as_q s) (as_reader s) pc (as_sent s ++ sent_by c) (as_received s))
              <$> (if forallb (fun p => negb (p =? 0)) (sent_by c) then writer_start c (as_q s) (as_writer s) else None)
  | R => match reader_step (as_reader s) (as_q s) with
         | Ok (Some (pc, l, ret)) => Some (mk_asys l pc (as_writer s) (as_sent s) (as_received s ++ returned ret))
         | _ => None
         end
  | W => match writer_step (as_writer s) (as_q s) with
         | Ok (Some (pc, l, refused)) =>
             Some (mk_asys l (as_reader s) pc (last_removed refused (as_sent s)) (as_received s))
         | _ => None
         end
  end.

Lemma move_reach size m s s' : asys_reach size s -> do_move m s = Some s' -> asys_reach size s'.
Proof.
  intros Hr E. apply (reach_step _ s); [done|]. destruct m; simpl in E.
  - destruct (reader_start c (as_reader s)) eqn:E1; simplify_eq/=. by apply (step_reader_start c).
  - destruct (forallb _ _) eqn:Ef; [|done]. destruct (writer_start c (as_q s) (as_writer s)) eqn:E1; simplify_eq/=.
    apply (step_writer_start c); [done|]. intros p Hp. rewrite forallb_forall in Ef.
    apply list_elem_of_In, Ef in Hp. by destruct (Z.eqb_spec p 0).
  - destruct (reader_step _ _) as [[[[? ?] ?]|]| |] eqn:E1; simplify_eq. by apply step_reader.
  - destruct (writer_step _ _) as [[[[? ?] ?]|]| |] eqn:E1; simplify_eq. by apply step_writer.
Qed.

(** Moves that are not possible are left out. *)
Fixpoint run_moves (ms : list move) (s : asys) : asys :=
  match ms with [] => s | m :: ms => run_moves ms (default s (do_move m s)) end.

Lemma run_reach size ms : forall s, asys_reach size s -> asys_reach size (run_moves ms s).
Proof.
  induction ms as [|m ms IH]; intros s Hr; simpl; [done|]. apply IH.
  destruct (do_move m s) as [s1|] eqn:E1; [|done]. by eapply move_reach.
Qed.

Lemma reach_start : asys_reach 2 (asys_init q0).
Proof. by apply (reach_new 2 fd0 fd0 q0 true true true true). Qed.

(** The reader goes to sleep in [pa_asyncq_pop]. *)
Definition sleepy : asys := run_moves (Rs (RPop true) :: replicate 6 R) (asys_init q0).

(** The writer posts 7, the reader wakes up and takes it, the writer posts 8, 9
    and 10, of which the last does not fit into the ring. *)
Definition moves : list move :=
  Ws (WPost 7) :: replicate 12 W ++ replicate 12 R ++
  Ws (WPost 8) :: replicate 12 W ++ Ws (WPost 9) :: replicate 12 W ++ Ws (WPost 10) :: replicate 12 W.
Definition after : asys := run_moves moves sleepy.

Lemma reach_sleepy : asys_reach 2 sleepy.
Proof. apply run_reach, reach_start. Qed.
Lemma reach_after : asys_reach 2 after.
Proof. apply run_reach, reach_sleepy. Qed.
End AsyncqExample.

Lemma asyncq_fifo_witness :
  as_sent AsyncqExample.after = [7; 8; 9; 10] /\ as_received AsyncqExample.after = [7] /\
  exists c, as_sent AsyncqExample.after = as_received AsyncqExample.after ++ c ++ [10].
Proof.
  split; [vm_compute; reflexivity|]. split; [vm_compute; reflexivity|].
  destruct (asyncq_fifo 2 AsyncqExample.after) as (_ & _ & _ & H); [lia|exact AsyncqExample.reach_after|].
  destruct H as (c & E & _); [vm_compute; reflexivity..|]. exists c. exact E.
Defined.

Lemma asyncq_no_deadlock_witness :
  reader_asleep AsyncqExample.sleepy /\
  (writer_posting (as_writer AsyncqExample.sleepy) = true \/
   Forall (fun v => v = 0) (aq_cells (as_q AsyncqExample.sleepy))).
Proof.
  assert (reader_asleep AsyncqExample.sleepy) as Ha by (vm_compute; reflexivity). split; [exact Ha|].
  destruct (asyncq_no_deadlock 2 AsyncqExample.sleepy) as (H & _); [lia|exact AsyncqExample.reach_sleepy|].
  exact (H Ha).
Defined.
