(* ===== verification/Aupdate.v ===== *)
(** * Aupdate: two copies for readers that never wait

    Models [src/pulsecore/aupdate.c]: the data exists twice; readers use the copy
    that the topmost bit of [read_lock] names and count themselves in its other
    bits, a writer modifies the copy that is not in use, swaps the two when
    nobody reads, and then modifies the other one.

    Any number of readers and one writer (the mutex admits no second) interleave;
    every access to [read_lock] and to the semaphore is a step. *)
From stdpp Require Import base tactics numbers list gmap.
From S2P Require Import Prelude.

Definition MSB : Z := 2 ^ 31.
Definition WHICH (n : Z) : bool := negb (Z.land n MSB =? 0).
Definition COUNTER (n : Z) : Z := Z.land n (u32 (Z.lnot MSB)).

(** [au_locked] is the mutex, [au_sem] the semaphore's count. *)
Record pa_aupdate := mk_aupdate {
  au_read_lock : Z;
  au_locked : bool;
  au_sem : Z;
  au_swapped : bool
}.

Definition set_read_lock n (a : pa_aupdate) := mk_aupdate n (au_locked a) (au_sem a) (au_swapped a).
Definition set_locked b (a : pa_aupdate) := mk_aupdate (au_read_lock a) b (au_sem a) (au_swapped a).
Definition set_sem n (a : pa_aupdate) := mk_aupdate (au_read_lock a) (au_locked a) n (au_swapped a).
Definition set_swapped b (a : pa_aupdate) := mk_aupdate (au_read_lock a) (au_locked a) (au_sem a) b.

(** What [swapped] holds before the first write is not defined. *)
Definition pa_aupdate_new (garbage : bool) : pa_aupdate := mk_aupdate 0 false 0 garbage.

(** ** Readers *)

Inductive reader_state :=
| RIdle
| RReading (which : bool)   (* between read_begin and read_end *)
| RPosting.                 (* read_end: the counter is decreased, the semaphore not yet posted *)

Definition pa_aupdate_read_begin (a : pa_aupdate) : outcome (bool * pa_aupdate) :=
  let n := au_read_lock a in
  let a := set_read_lock (u32 (n + 1)) a in
  _ ← pa_assert (0 <? u32 (COUNTER n + 1));
  Ok (WHICH n, a).

(** [pa_aupdate_read_end], up to the post. *)
Definition read_end_dec (a : pa_aupdate) : outcome pa_aupdate :=
  let n := au_read_lock a in
  let a := set_read_lock (u32 (n - 1)) a in
  _ ← pa_assert (0 <? COUNTER n);
  Ok a.

Definition reader_step (r : reader_state) (a : pa_aupdate) : outcome (reader_state * pa_aupdate) :=
  match r with
  | RIdle => '(w, a) ← pa_aupdate_read_begin a; Ok (RReading w, a)
  | RReading _ => a ← read_end_dec a; Ok (RPosting, a)
  | RPosting => Ok (RIdle, set_sem (au_sem a + 1) a)
  end.

(** ** The writer *)

Inductive writer_state :=
| WOut
| WLocked                            (* write_begin: has the mutex *)
| WWriting (copy : bool)             (* after write_begin or write_swap *)
| WLoad (ending : bool)              (* write_swap: load, [ending]: called by write_end *)
| WSleep (ending : bool)             (* write_swap: pa_semaphore_wait *)
| WSwap (ending : bool) (n : Z)      (* write_swap: cmpxchg *)
| WUnlock.                           (* write_end: unlock *)

Inductive writer_choice := Swap | End.

(** One step; a thread that writes chooses what to call next.  [None]: blocked. *)
Definition writer_step (w : writer_state) (ch : writer_choice) (a : pa_aupdate)
    : option (writer_state * pa_aupdate) :=
  match w with
  | WOut => if au_locked a then None else Some (WLocked, set_locked true a)
  | WLocked => Some (WWriting (negb (WHICH (au_read_lock a))), set_swapped false a)
  | WWriting _ =>
      match ch with
      | Swap => Some (WLoad false, a)
      | End => Some (if au_swapped a then WUnlock else WLoad true, a)
      end
  | WLoad e =>
      let n := au_read_lock a in
      Some (if 0 <? COUNTER n then WSleep e else WSwap e n, a)
  | WSleep e => if au_sem a <=? 0 then None else Some (WLoad e, set_sem (au_sem a - 1) a)
  | WSwap e n =>
      if au_read_lock a =? n
      then Some (if e then WUnlock else WWriting (WHICH n), set_swapped true (set_read_lock (Z.lxor n MSB) a))
      else Some (WLoad e, a)
  | WUnlock => Some (WOut, set_locked false a)
  end.

(** ** All threads *)

Record ausys := mk_ausys {
  us_a : pa_aupdate;
  us_readers : list reader_state;
  us_writer : writer_state
}.

Inductive ausys_step : ausys -> ausys -> Prop :=
| au_reader s i r r' a : us_readers s !! i = Some r -> reader_step r (us_a s) = Ok (r', a) ->
    ausys_step s (mk_ausys a (<[i := r']> (us_readers s)) (us_writer s))
| au_writer s ch w a : writer_step (us_writer s) ch (us_a s) = Some (w, a) ->
    ausys_step s (mk_ausys a (us_readers s) w).

(** [n] threads that read. *)
Inductive ausys_reach (n : nat) : ausys -> Prop :=
| au_new garbage : ausys_reach n (mk_ausys (pa_aupdate_new garbage) (replicate n RIdle) WOut)
| au_step s s' : ausys_reach n s -> ausys_step s s' -> ausys_reach n s'.

(** ** The invariant *)

Definition is_reading (r : reader_state) : bool := match r with RReading _ => true | _ => false end.

(** [read_lock] as its two parts. *)
Definition word (which : bool) (count : Z) : Z := (if which then 2 ^ 31 else 0) + count.

Lemma land_pow2 n k : 0 <= k -> Z.land n (2 ^ k) = if Z.testbit n k then 2 ^ k else 0.
Proof.
  intros Hk. apply Z.bits_inj'. intros i Hi. rewrite Z.land_spec, Z.pow2_bits_eqb by lia.
  destruct (Z.eqb_spec k i) as [<-|Hne].
  - rewrite andb_true_r. destruct (Z.testbit n k); [by rewrite Z.pow2_bits_true by lia|by rewrite Z.bits_0].
  - rewrite andb_false_r. destruct (Z.testbit n k); [by rewrite Z.pow2_bits_false by lia|by rewrite Z.bits_0].
Qed.

Lemma word_bit b c : 0 <= c < 2 ^ 31 -> Z.testbit (word b c) 31 = b.
Proof.
  intros Hc. unfold word. destruct b.
  - apply Z.testbit_true; [lia|]. replace (2 ^ 31 + c) with (c + 1 * 2 ^ 31) by lia.
    by rewrite Z.div_add, Z.div_small by lia.
  - apply Z.testbit_false; [lia|]. by rewrite Z.add_0_l, Z.div_small by lia.
Qed.

Lemma word_which b c : 0 <= c < 2 ^ 31 -> WHICH (word b c) = b.
Proof. intros Hc. unfold WHICH, MSB. rewrite land_pow2, word_bit by lia. by destruct b. Qed.

Lemma word_counter b c : 0 <= c < 2 ^ 31 -> COUNTER (word b c) = c.
Proof.
  intros Hc. unfold COUNTER. change (u32 (Z.lnot MSB)) with (Z.ones 31). rewrite Z.land_ones by lia.
  unfold word. destruct b.
  - replace (2 ^ 31 + c) with (c + 1 * 2 ^ 31) by lia. rewrite Z_mod_plus_full. by apply Z.mod_small.
  - by apply Z.mod_small.
Qed.

Lemma word_swap b : Z.lxor (word b 0) MSB = word (negb b) 0.
Proof. by destruct b. Qed.

(** How many threads read. *)
Definition reading (rs : list reader_state) : Z := sumZ ((fun r => if is_reading r then 1 else 0) <$> rs).

Definition writer_copy (w : writer_state) : option bool := match w with WWriting c => Some c | _ => None end.

#[export] Instance reader_state_eq_dec : EqDecision reader_state.
Proof. solve_decision. Defined.

Record au_inv (n : nat) (s : ausys) (which : bool) : Prop := {
  av_threads : length (us_readers s) = n;
  av_word : au_read_lock (us_a s) = word which (reading (us_readers s));
  av_readers : Forall (fun r => r = RReading (negb which) -> False) (us_readers s);
  av_writer : writer_copy (us_writer s) = Some which -> False;
  av_sem : 0 <= au_sem (us_a s);
  av_sleep e : us_writer s = WSleep e ->
    0 < reading (us_readers s) \/ RPosting ∈ us_readers s \/ 0 < au_sem (us_a s);
  av_swap e m : us_writer s = WSwap e m -> exists b, m = word b 0
}.

Lemma reading_bound rs : 0 <= reading rs <= Z.of_nat (length rs).
Proof.
  unfold reading. induction rs as [|r rs IH]; [simpl; lia|]. rewrite fmap_cons. simpl. destruct (is_reading r); lia.
Qed.

Lemma reading_insert rs i r r' : rs !! i = Some r ->
  reading (<[i := r']> rs) = reading rs - (if is_reading r then 1 else 0) + (if is_reading r' then 1 else 0).
Proof.
  unfold reading. revert i. induction rs as [|x rs IH]; intros [|i] E; simplify_eq/=; [lia|].
  rewrite (IH _ E). lia.
Qed.

(** A copy nobody reads when nobody reads at all. *)
Lemma none_reading rs b : reading rs = 0 -> Forall (fun r => r = RReading b -> False) rs.
Proof.
  intros E. apply Forall_lookup. intros i r Ei ->. pose proof (reading_insert rs i _ RIdle Ei) as Hi.
  pose proof (reading_bound (<[i := RIdle]> rs)) as Hb. simpl in Hi. lia.
Qed.

Lemma word_inj b c b' c' : 0 <= c < 2 ^ 31 -> 0 <= c' < 2 ^ 31 -> word b c = word b' c' -> b = b' /\ c = c'.
Proof. unfold word. intros. destruct b, b'; split; lia || done. Qed.

Lemma reader_ok n s b i r : Z.of_nat n < 2 ^ 31 -> au_inv n s b -> us_readers s !! i = Some r ->
  exists r' a, reader_step r (us_a s) = Ok (r', a) /\
    au_inv n (mk_ausys a (<[i := r']> (us_readers s)) (us_writer s)) b.
Proof.
  intros Hn [H1 H2 H3 H4 H5 H6 H7] Ei. pose proof (lookup_lt_Some _ _ _ Ei) as Hlt.
  pose proof (reading_bound (us_readers s)) as Hb. pose proof (fun r' => reading_insert (us_readers s) i r r' Ei) as Hi.
  pose proof (fun r' => reading_bound (<[i := r']> (us_readers s))) as Hb'.
  assert (forall r', length (<[i := r']> (us_readers s)) = n) as Hl by (intros; by rewrite length_insert).
  assert (forall r', (r' = RReading (negb b) -> False) ->
    Forall (fun r => r = RReading (negb b) -> False) (<[i := r']> (us_readers s))) as Hf.
  { intros r' Hr'. by apply Forall_insert. }
  assert (reading (us_readers s) = 0 -> r = RReading b -> False) as Hr.
  { intros E ->. specialize (Hi RIdle). specialize (Hb' RIdle). simpl in Hi. lia. }
  destruct r as [|b'|]; unfold reader_step, pa_aupdate_read_begin, read_end_dec;
    rewrite ?H2, ?word_counter, ?word_which by lia.
  - specialize (Hi (RReading b)). specialize (Hb' (RReading b)). simpl in Hi. rewrite Hl in Hb'.
    eexists _, _. rewrite (u32_small (reading (us_readers s) + 1)) by lia.
    split; [rewrite pa_assert_true by blia; done|].
    split; simpl; auto; [|apply Hf; by destruct b|].
    + rewrite Hi. unfold word. rewrite u32_small; destruct b; lia.
    + intros e Hw. left. lia.
  - assert (b' = b) as ->.
    { rewrite Forall_lookup in H3. specialize (H3 _ _ Ei). destruct b, b'; done. }
    assert (0 < reading (us_readers s)) by (destruct (decide (reading (us_readers s) = 0)); [by destruct Hr|lia]).
    specialize (Hi RPosting). simpl in Hi. eexists _, _. split; [rewrite pa_assert_true by blia; done|].
    split; simpl; auto; [|by apply Hf|].
    + rewrite Hi. unfold word. rewrite u32_small; destruct b; lia.
    + intros e Hw. right. left. apply list_elem_of_lookup. exists i. by apply list_lookup_insert_eq.
  - specialize (Hi RIdle). simpl in Hi. eexists _, _. split; [done|].
    split; simpl; auto; [by rewrite Hi, H2, Z.sub_0_r, Z.add_0_r|by apply Hf|lia|].
    intros e Hw. right. right. lia.
Qed.

Lemma writer_ok n s b ch w a : Z.of_nat n < 2 ^ 31 -> au_inv n s b -> writer_step (us_writer s) ch (us_a s) = Some (w, a) ->
  exists b', au_inv n (mk_ausys a (us_readers s) w) b'.
Proof.
  intros Hn [H1 H2 H3 H4 H5 H6 H7] E. pose proof (reading_bound (us_readers s)) as Hb.
  destruct (us_writer s) as [| |c|e|e|e m|] eqn:Ew; simpl in E.
  - destruct (au_locked (us_a s)); simplify_eq. exists b. by split.
  - simplify_eq. exists b. split; try done. simpl. rewrite H2, word_which by lia. by destruct b.
  - exists b. destruct ch; simplify_eq; [by split|]. by destruct (au_swapped (us_a s)); split.
  - simplify_eq. exists b. rewrite H2, word_counter by lia.
    destruct (Z.ltb_spec 0 (reading (us_readers s))); split; try done; intros; simplify_eq/=; auto.
    exists b. f_equal. lia.
  - destruct (Z.leb_spec (au_sem (us_a s)) 0); simplify_eq. exists b. split; simpl; try done. lia.
  - destruct (H7 e m eq_refl) as [b' ->]. destruct (Z.eqb_spec (au_read_lock (us_a s)) (word b' 0)) as [E0|E0]; simplify_eq.
    + rewrite H2 in E0. apply word_inj in E0 as [-> E0]; [|lia..].
      exists (negb b'). split; simpl; try done.
      * by rewrite word_swap, E0.
      * by apply none_reading.
      * rewrite word_which by lia. destruct e; [done|]. by destruct b'.
      * by destruct e.
      * by destruct e.
    + exists b. by split.
  - simplify_eq. exists b. by split.
Qed.

Lemma aureach_inv n s : Z.of_nat n < 2 ^ 31 -> ausys_reach n s -> exists b, au_inv n s b.
Proof.
  intros Hn. induction 1 as [garbage|s s' _ [b I] Hs].
  - exists false. assert (reading (replicate n RIdle) = 0) as E0.
    { unfold reading. clear Hn. induction n as [|n IH]; [done|]. exact IH. }
    split; simpl; try done.
    + by rewrite length_replicate.
    + by apply none_reading.
  - destruct Hs as [s i r r' a Ei E|s ch w a E].
    + destruct (reader_ok n s b i r Hn I Ei) as (r1 & a1 & E1 & I1). rewrite E in E1. simplify_eq. eauto.
    + by eapply writer_ok.
Qed.

(** ** Claims *)

(** C26: readers and the writer never meet: in every interleaving of any number
    of readers (below 2^31) with a writer, the copy the writer modifies is not
    the one a reader uses, no assertion fails, and the writer only sleeps while
    somebody reads or a post is under way. *)
Theorem aupdate_exclusion n s : Z.of_nat n < 2 ^ 31 -> ausys_reach n s ->
  (forall c, us_writer s = WWriting c -> Forall (fun r => r <> RReading c) (us_readers s)) /\
  Forall (fun r => is_ok (reader_step r (us_a s)) = true) (us_readers s) /\
  (forall e, us_writer s = WSleep e -> writer_step (WSleep e) Swap (us_a s) = None ->
     exists r, r ∈ us_readers s /\ r <> RIdle).
Proof.
  intros Hn Hr. destruct (aureach_inv n s Hn Hr) as [b I]. split_and!.
  - intros c Ew. destruct I as [_ _ H3 H4 _ _ _]. rewrite Ew in H4. simpl in H4.
    eapply Forall_impl; [exact H3|]. intros r Hx ->. destruct b, c; auto.
  - apply Forall_lookup. intros i r Ei. destruct (reader_ok n s b i r Hn I Ei) as (r' & a & -> & _). done.
  - intros e Ew E. simpl in E. destruct (Z.leb_spec (au_sem (us_a s)) 0); [|done].
    destruct (av_sleep _ _ _ I e Ew) as [Hp|[Hp|Hp]]; [|by exists RPosting|lia].
    destruct (decide (Forall (fun r => r = RIdle) (us_readers s))) as [Hi|Hi].
    + exfalso. clear -Hp Hi. unfold reading in Hp. induction Hi as [|r rs -> _ IH]; [done|]. exact (IH Hp).
    + apply not_Forall_Exists in Hi; [|apply _]. apply Exists_exists in Hi as (r & Hr' & Hx). eauto.
Qed.

(** A reader is in, the writer has begun, and swaps when the reader has left. *)
Lemma aupdate_exclusion_witness : exists s, ausys_reach 1 s /\ us_writer s = WWriting true /\
  Forall (fun r => r <> RReading true) (us_readers s) /\ RReading false ∈ us_readers s.
Proof.
  set (a0 := pa_aupdate_new false).
  set (s := mk_ausys (mk_aupdate 1 true 0 false) [RReading false] (WWriting true)).
  assert (ausys_reach 1 s) as Hr.
  { eapply au_step; [|apply (au_writer (mk_ausys (mk_aupdate 1 true 0 false) [RReading false] WLocked) Swap); reflexivity].
    eapply au_step; [|apply (au_writer (mk_ausys (mk_aupdate 1 false 0 false) [RReading false] WOut) Swap); reflexivity].
    eapply au_step; [|apply (au_reader (mk_ausys a0 [RIdle] WOut) 0 RIdle); reflexivity].
    apply (au_new 1 false). }
  exists s. split; [exact Hr|]. split; [reflexivity|].
  destruct (aupdate_exclusion 1 s) as (H & _); [lia|exact Hr|]. split; [exact (H true eq_refl)|]. left.
Defined.
