(* ===== verification/Flist.v ===== *)
(** * Flist: the lock-free free list

    Models [src/pulsecore/flist.c]: a table of elements on two stacks, one of
    the elements that hold a pointer and one of the free ones.  The head of a
    stack and the [next] of an element are indices into the table, with a tag in
    the bits above it; a negative one ends the stack.

    Any number of threads push and pop; every access to an atomic variable is a
    step. *)
From stdpp Require Import base tactics numbers list gmap sorting.
From S2P Require Import Prelude.

Definition FLIST_SIZE : Z := 256.

Record pa_flist_elem := mk_elem { e_next : Z; e_ptr : Z }.

Record pa_flist := mk_flist {
  fl_size : Z;
  fl_current_tag : Z;
  fl_index_mask : Z;
  fl_tag_shift : Z;
  fl_tag_mask : Z;
  fl_stored : Z;
  fl_empty : Z;
  fl_table : list pa_flist_elem
}.

(** The argument [list] of the stack functions. *)
Inductive which := Stored | Empty.

Definition head (k : which) (l : pa_flist) : Z := match k with Stored => fl_stored l | Empty => fl_empty l end.

Definition set_head (k : which) (v : Z) (l : pa_flist) : pa_flist :=
  match k with
  | Stored => mk_flist (fl_size l) (fl_current_tag l) (fl_index_mask l) (fl_tag_shift l) (fl_tag_mask l) v (fl_empty l) (fl_table l)
  | Empty => mk_flist (fl_size l) (fl_current_tag l) (fl_index_mask l) (fl_tag_shift l) (fl_tag_mask l) (fl_stored l) v (fl_table l)
  end.
Definition set_current_tag (v : Z) (l : pa_flist) : pa_flist :=
  mk_flist (fl_size l) v (fl_index_mask l) (fl_tag_shift l) (fl_tag_mask l) (fl_stored l) (fl_empty l) (fl_table l).
Definition set_table (t : list pa_flist_elem) (l : pa_flist) : pa_flist :=
  mk_flist (fl_size l) (fl_current_tag l) (fl_index_mask l) (fl_tag_shift l) (fl_tag_mask l) (fl_stored l) (fl_empty l) t.

(** [idx & flist->index_mask] *)
Definition index (l : pa_flist) (idx : Z) : Z := Z.land idx (fl_index_mask l).

Definition elem_at (l : pa_flist) (i : Z) : option pa_flist_elem := fl_table l !! Z.to_nat i.
Definition set_elem (i : Z) (e : pa_flist_elem) (l : pa_flist) : pa_flist := set_table (<[Z.to_nat i := e]> (fl_table l)) l.

(** ** The stacks *)

Inductive pop_state :=
| PopLoad
| PopNext (idx : Z)
| PopCas (idx next : Z).

(** [stack_pop]; [inr]: the element it returns, [None] for NULL. *)
Definition pop_step (k : which) (s : pop_state) (l : pa_flist) : outcome ((pop_state + option Z) * pa_flist) :=
  match s with
  | PopLoad =>
      let idx := head k l in
      if idx <? 0 then Ok (inr None, l) else Ok (inl (PopNext idx), l)
  | PopNext idx =>
      popped ← deref (elem_at l (index l idx));
      Ok (inl (PopCas idx (e_next popped)), l)
  | PopCas idx next =>
      if head k l =? idx then Ok (inr (Some (index l idx)), set_head k next l)
      else Ok (inl PopLoad, l)
  end.

Inductive push_state :=
| PushInc
| PushLoad (newindex : Z)
| PushStore (newindex next : Z)
| PushCas (newindex next : Z).

(** The new head for element [i], with the tag drawn. *)
Definition tagged (l : pa_flist) (i : Z) : Z :=
  Z.lor i (Z.land (s32 (Z.shiftl (fl_current_tag l) (fl_tag_shift l))) (fl_tag_mask l)).

(** [stack_push] of element [i]; [None]: it is done. *)
Definition push_step (k : which) (i : Z) (s : push_state) (l : pa_flist) : outcome (option push_state * pa_flist) :=
  match s with
  | PushInc =>
      let newindex := tagged l i in
      _ ← pa_assert ((0 <=? i) && (i <? s32 (fl_size l)));
      Ok (Some (PushLoad newindex), set_current_tag (s32 (fl_current_tag l + 1)) l)
  | PushLoad newindex => Ok (Some (PushStore newindex (head k l)), l)
  | PushStore newindex next =>
      e ← deref (elem_at l i);
      Ok (Some (PushCas newindex next), set_elem i (mk_elem next (e_ptr e)) l)
  | PushCas newindex next =>
      if head k l =? next then Ok (None, set_head k newindex l)
      else Ok (Some (PushLoad newindex), l)
  end.

(** ** Alone: creating and destroying *)

(** [stack_push] with nobody else about. *)
Definition stack_push (k : which) (i : Z) (l : pa_flist) : outcome pa_flist :=
  '(s, l) ← push_step k i PushInc l; s ← deref s;
  '(s, l) ← push_step k i s l; s ← deref s;
  '(s, l) ← push_step k i s l; s ← deref s;
  '(s, l) ← push_step k i s l;
  match s with None => Ok l | Some _ => UB end.

Definition stack_pop (k : which) (l : pa_flist) : outcome (option Z * pa_flist) :=
  '(r, l) ← pop_step k PopLoad l;
  match r with
  | inr r => Ok (r, l)
  | inl s =>
      '(r, l) ← pop_step k s l;
      match r with
      | inr r => Ok (r, l)
      | inl s => '(r, l) ← pop_step k s l; match r with inr r => Ok (r, l) | inl _ => UB end
      end
  end.

Fixpoint shift_loop (fuel : nat) (size shift : Z) : Z :=
  match fuel with
  | O => shift
  | S fuel => if Z.shiftl 1 shift <? size then shift_loop fuel size (shift + 1) else shift
  end.

Fixpoint new_loop (fuel : nat) (i : Z) (l : pa_flist) : outcome pa_flist :=
  match fuel with
  | O => Ok l
  | S fuel => l ← stack_push Empty i l; new_loop fuel (i + 1) l
  end.

Definition pa_flist_new (size : Z) : outcome pa_flist :=
  let size := if size =? 0 then FLIST_SIZE else size in
  let shift := shift_loop 31 (s32 size) 0 in
  let mask := Z.shiftl 1 shift - 1 in
  let l := mk_flist size 0 mask shift (INT_MAX - mask) (-1) (-1) (replicate (Z.to_nat size) (mk_elem 0 0)) in
  new_loop (Z.to_nat size) 0 l.

(** The pointers [free_cb] is called on, in order. *)
Fixpoint free_loop (fuel : nat) (l : pa_flist) : outcome (list Z) :=
  '(r, l) ← stack_pop Stored l;
  match r with
  | None => Ok []
  | Some i =>
      match fuel with
      | O => UB
      | S fuel => e ← deref (elem_at l i); ps ← free_loop fuel l; Ok (e_ptr e :: ps)
      end
  end.

Definition pa_flist_free (free_cb : bool) (l : pa_flist) : outcome (list Z) :=
  if free_cb then free_loop (length (fl_table l)) l else Ok [].

(** ** Threads *)

Inductive thread :=
| Idle
| PushPop (p : Z) (s : pop_state)               (* pa_flist_push: stack_pop(empty) *)
| PushPtr (p i : Z)                             (* pa_flist_push: store the pointer *)
| PushPush (p i : Z) (s : push_state)           (* pa_flist_push: stack_push(stored) *)
| TakePop (s : pop_state)                       (* pa_flist_pop: stack_pop(stored) *)
| TakePtr (i : Z)                               (* pa_flist_pop: load the pointer *)
| TakePush (p i : Z) (s : push_state).          (* pa_flist_pop: stack_push(empty) *)

(** What a call returns. *)
Inductive answer :=
| Pushed (p ret : Z)
| Popped (p : option Z).

Definition pa_flist_push (p : Z) : outcome thread :=
  _ ← pa_assert (negb (p =? 0));
  Ok (PushPop p PopLoad).
Definition pa_flist_pop : thread := TakePop PopLoad.

(** One step of a thread in [pa_flist_push] or [pa_flist_pop]. *)
Definition thread_step (t : thread) (l : pa_flist) : outcome (thread * option answer * pa_flist) :=
  match t with
  | Idle => Ok (Idle, None, l)
  | PushPop p s =>
      '(r, l) ← pop_step Empty s l;
      match r with
      | inl s => Ok (PushPop p s, None, l)
      | inr None => Ok (Idle, Some (Pushed p (-1)), l)
      | inr (Some i) => Ok (PushPtr p i, None, l)
      end
  | PushPtr p i =>
      e ← deref (elem_at l i);
      Ok (PushPush p i PushInc, None, set_elem i (mk_elem (e_next e) p) l)
  | PushPush p i s =>
      '(s, l) ← push_step Stored i s l;
      match s with
      | Some s => Ok (PushPush p i s, None, l)
      | None => Ok (Idle, Some (Pushed p 0), l)
      end
  | TakePop s =>
      '(r, l) ← pop_step Stored s l;
      match r with
      | inl s => Ok (TakePop s, None, l)
      | inr None => Ok (Idle, Some (Popped None), l)
      | inr (Some i) => Ok (TakePtr i, None, l)
      end
  | TakePtr i =>
      e ← deref (elem_at l i);
      Ok (TakePush (e_ptr e) i PushInc, None, l)
  | TakePush p i s =>
      '(s, l) ← push_step Empty i s l;
      match s with
      | Some s => Ok (TakePush p i s, None, l)
      | None => Ok (Idle, Some (Popped (Some p)), l)
      end
  end.

(** The value of a head a thread has loaded and will compare with. *)
Definition loaded (s : pop_state) : option Z := match s with PopLoad => None | PopNext v | PopCas v _ => Some v end.
Definition held (t : thread) : option Z := match t with PushPop _ s | TakePop s => loaded s | _ => None end.

(** The value a thread makes up next. *)
Definition draws (t : thread) (l : pa_flist) : option Z :=
  match t with PushPush _ i PushInc | TakePush _ i PushInc => Some (tagged l i) | _ => None end.

(** All threads; what was given to [pa_flist_push], what it refused, and what
    [pa_flist_pop] returned. *)
Record flsys := mk_flsys {
  fs_list : pa_flist;
  fs_threads : list thread;
  fs_given : list Z;
  fs_refused : list Z;
  fs_got : list Z
}.

Definition refused (a : option answer) : list Z := match a with Some (Pushed p (-1)) => [p] | _ => [] end.
Definition got (a : option answer) : list Z := match a with Some (Popped (Some p)) => [p] | _ => [] end.

(** Threads run under a condition on the next step. *)
Inductive fl_step (guard : thread -> flsys -> Prop) : flsys -> flsys -> Prop :=
| fl_push s j p t : fs_threads s !! j = Some Idle -> pa_flist_push p = Ok t ->
    fl_step guard s (mk_flsys (fs_list s) (<[j := t]> (fs_threads s)) (p :: fs_given s) (fs_refused s) (fs_got s))
| fl_pop s j : fs_threads s !! j = Some Idle ->
    fl_step guard s (mk_flsys (fs_list s) (<[j := pa_flist_pop]> (fs_threads s)) (fs_given s) (fs_refused s) (fs_got s))
| fl_run s j t t' a l : fs_threads s !! j = Some t -> guard t s -> thread_step t (fs_list s) = Ok (t', a, l) ->
    fl_step guard s (mk_flsys l (<[j := t']> (fs_threads s)) (fs_given s) (refused a ++ fs_refused s) (got a ++ fs_got s)).

(** [n] threads and a new list. *)
Inductive fl_reach (guard : thread -> flsys -> Prop) (size : Z) (n : nat) : flsys -> Prop :=
| fl_new l : pa_flist_new size = Ok l -> fl_reach guard size n (mk_flsys l (replicate n Idle) [] [] [])
| fl_next s s' : fl_reach guard size n s -> fl_step guard s s' -> fl_reach guard size n s'.

(** No thread makes up, with the tag it draws, a value that another thread has
    loaded before and still compares with: the tags have not gone all the way
    round meanwhile. *)
Definition not_round (t : thread) (s : flsys) : Prop :=
  forall v t', draws t (fs_list s) = Some v -> t' ∈ fs_threads s -> held t' <> Some v.

(** Every tag is drawn for the first time. *)
Definition first_round (t : thread) (s : flsys) : Prop :=
  forall v, draws t (fs_list s) = Some v -> 0 <= fl_current_tag (fs_list s) < 2 ^ (31 - fl_tag_shift (fs_list s)).
