(* ===== verification/FlistProps.v ===== *)
(** * FlistProps: no pointer is lost, none is handed out twice

    The invariant of the two stacks under every interleaving: together with
    what the threads own they are a partition of the table, and what a thread has
    read for its compare-and-swap is still true when that succeeds. *)
From stdpp Require Import base tactics numbers list gmap sorting.
From S2P Require Import Prelude Flist.

(** ** Tags and indices *)

Record shape (l : pa_flist) : Prop := {
  sh_size : 0 < fl_size l <= 2 ^ fl_tag_shift l;
  sh_shift : 0 <= fl_tag_shift l <= 30;
  sh_index_mask : fl_index_mask l = 2 ^ fl_tag_shift l - 1;
  sh_tag_mask : fl_tag_mask l = 2 ^ 31 - 2 ^ fl_tag_shift l;
  sh_table : Z.of_nat (length (fl_table l)) = fl_size l
}.

Lemma index_mod l v : shape l -> index l v = v mod 2 ^ fl_tag_shift l.
Proof.
  intros [_ Hs Hm _ _]. unfold index. rewrite Hm, <- Z.land_ones by lia. f_equal. rewrite Z.ones_equiv. lia.
Qed.

Lemma index_bound l v : shape l -> 0 <= index l v < 2 ^ fl_tag_shift l.
Proof. intros H. rewrite index_mod by done. apply Z.mod_pos_bound. pose proof (sh_shift _ H). lia. Qed.

(** The tag bits of [x], shifted up. *)
Lemma tag_bits l x : shape l -> Z.land x (fl_tag_mask l) = (x / 2 ^ fl_tag_shift l) mod 2 ^ (31 - fl_tag_shift l) * 2 ^ fl_tag_shift l.
Proof.
  intros [_ Hs _ Ht _]. set (s := fl_tag_shift l) in *.
  assert (fl_tag_mask l = Z.shiftl (Z.ones (31 - s)) s) as ->.
  { rewrite Ht, Z.shiftl_mul_pow2, Z.ones_equiv by lia. rewrite <- Z.sub_1_r, Z.mul_sub_distr_r, <- Z.pow_add_r by lia.
    replace (31 - s + s) with 31 by lia. lia. }
  rewrite <- Z.land_ones, <- Z.shiftr_div_pow2, <- Z.shiftl_mul_pow2 by lia.
  apply Z.bits_inj'. intros n Hn. rewrite Z.land_spec, !Z.shiftl_spec by lia.
  destruct (Z.lt_ge_cases n s); [rewrite !(Z.testbit_neg_r _ (n - s)) by lia; by rewrite andb_false_r|].
  rewrite Z.land_spec, Z.shiftr_spec by lia. by replace (n - s + s) with n by lia.
Qed.

Lemma tagged_eq l i : shape l -> 0 <= i < fl_size l ->
  tagged l i = i + fl_current_tag l mod 2 ^ (31 - fl_tag_shift l) * 2 ^ fl_tag_shift l.
Proof.
  intros H Hi. pose proof (sh_size _ H). pose proof (sh_shift _ H). unfold tagged. rewrite tag_bits by done.
  set (s := fl_tag_shift l) in *. set (t := fl_current_tag l).
  assert ((s32 (Z.shiftl t s) / 2 ^ s) mod 2 ^ (31 - s) = t mod 2 ^ (31 - s)) as ->.
  { rewrite Z.shiftl_mul_pow2 by lia.
    assert (exists c, s32 (t * 2 ^ s) = t * 2 ^ s + c * 2 ^ 32) as [c ->].
    { unfold s32, u32. pose proof (Z.div_mod (t * 2 ^ s) (2 ^ 32)) as E. case_match; [exists (- (t * 2 ^ s / 2 ^ 32))|exists (- (t * 2 ^ s / 2 ^ 32) - 1)]; lia. }
    replace (c * 2 ^ 32) with (c * 2 * 2 ^ (31 - s) * 2 ^ s)
      by (rewrite <- Z.mul_assoc, <- Z.pow_add_r by lia; replace (31 - s + s) with 31 by lia; lia).
    rewrite <- Z.mul_add_distr_r, Z.div_mul by (apply Z.pow_nonzero; lia). apply Z_mod_plus_full. }
  set (x := t mod 2 ^ (31 - s)). rewrite <- Z.shiftl_mul_pow2 by lia. rewrite Z.add_comm.
  symmetry. rewrite Z.lor_comm, <- Z.add_lor_land. 
  enough (Z.land (Z.shiftl x s) i = 0) by lia.
  apply Z.bits_inj'. intros n Hn. rewrite Z.land_spec, Z.shiftl_spec, Z.bits_0 by lia.
  destruct (Z.lt_ge_cases n s); [by rewrite (Z.testbit_neg_r _ (n - s)) by lia|].
  assert (Z.testbit i n = false) as ->; [|by rewrite andb_false_r].
  apply Z.testbit_false; [lia|]. rewrite Z.div_small; [done|]. pose proof (Z.pow_le_mono_r 2 s n). lia.
Qed.

Lemma tagged_index l i : shape l -> 0 <= i < fl_size l -> 0 <= tagged l i /\ index l (tagged l i) = i.
Proof.
  intros H Hi. pose proof (sh_size _ H). pose proof (sh_shift _ H). rewrite tagged_eq, index_mod by done.
  rewrite Z_mod_plus_full, (Z.mod_small i) by lia. split; [|done].
  pose proof (Z.mod_pos_bound (fl_current_tag l) (2 ^ (31 - fl_tag_shift l)) ltac:(lia)). nia.
Qed.

(** ** The stacks as lists *)

(** A head or a [next] that names an element. *)
Definition valid (l : pa_flist) (v : Z) : Prop := 0 <= v /\ index l v < fl_size l.

Definition next_at (l : pa_flist) (i : Z) : option Z := e_next <$> elem_at l i.
Definition ptr_at (l : pa_flist) (i : Z) : option Z := e_ptr <$> elem_at l i.

(** The values on the way from [h] to the end. *)
Fixpoint chain (l : pa_flist) (h : Z) (vs : list Z) : Prop :=
  match vs with
  | [] => h < 0
  | v :: vs => h = v /\ valid l v /\ exists n, next_at l (index l v) = Some n /\ chain l n vs
  end.

Definition same_shape (l l' : pa_flist) : Prop :=
  fl_size l' = fl_size l /\ fl_tag_shift l' = fl_tag_shift l /\ fl_index_mask l' = fl_index_mask l /\
  fl_tag_mask l' = fl_tag_mask l /\ length (fl_table l') = length (fl_table l).

Lemma shape_same l l' : same_shape l l' -> shape l -> shape l'.
Proof. intros (E1 & E2 & E3 & E4 & E5) [H1 H2 H3 H4 H5]. split; rewrite ?E1, ?E2, ?E3, ?E4, ?E5; done. Qed.

Lemma valid_same l l' v : same_shape l l' -> valid l v -> valid l' v.
Proof. intros (E1 & _ & E3 & _) [H1 H2]. split; [done|]. unfold index in *. by rewrite E3, E1. Qed.

Lemma index_same l l' v : same_shape l l' -> index l' v = index l v.
Proof. intros (_ & _ & E & _). unfold index. by rewrite E. Qed.

Lemma elem_is_Some l i : shape l -> 0 <= i < fl_size l -> is_Some (elem_at l i).
Proof. intros H Hi. apply lookup_lt_is_Some. pose proof (sh_table _ H). lia. Qed.

Lemma fl_chain_frame l l' vs : forall h, same_shape l l' -> (forall v, v ∈ vs -> next_at l' (index l v) = next_at l (index l v)) ->
  chain l h vs -> chain l' h vs.
Proof.
  induction vs as [|v vs IH]; intros h Hs Hf; [done|]. intros (-> & Hv & n & En & Hc). split; [done|].
  split; [by apply (valid_same l)|]. exists n. rewrite (index_same l l') by done.
  rewrite Hf by set_solver. split; [done|]. apply IH; [done| |done]. intros w Hw. apply Hf. set_solver.
Qed.

Lemma chain_valid l vs : forall h v, chain l h vs -> v ∈ vs -> valid l v.
Proof.
  induction vs as [|w vs IH]; intros h v Hc Hv; [by apply elem_of_nil in Hv|].
  destruct Hc as (-> & Hw & n & _ & Hc). apply elem_of_cons in Hv as [->|Hv]; [done|]. by eapply IH.
Qed.

(** ** The invariant *)

Definition pending (s : push_state) : option Z := match s with PushInc => None | PushLoad w | PushStore w _ | PushCas w _ => Some w end.
Definition makes (t : thread) : option Z := match t with PushPush _ _ s | TakePush _ _ s => pending s | _ => None end.

(** The element a thread has taken off a stack. *)
Definition owned (t : thread) : option Z :=
  match t with PushPtr _ i | PushPush _ i _ | TakePtr i | TakePush _ i _ => Some i | _ => None end.

Section local.
Context (l : pa_flist) (C : which -> list Z).

Definition pop_ok (k : which) (s : pop_state) : Prop :=
  match s with
  | PopLoad => True
  | PopNext v => valid l v
  | PopCas v n => valid l v /\ (v ∈ C k -> next_at l (index l v) = Some n)
  end.

Definition push_ok (i : Z) (s : push_state) : Prop :=
  match s with
  | PushInc => True
  | PushLoad w | PushStore w _ => valid l w /\ index l w = i
  | PushCas w n => valid l w /\ index l w = i /\ next_at l i = Some n
  end.

Definition thread_ok (t : thread) : Prop :=
  match t with
  | Idle | PushPtr _ _ | TakePtr _ => True
  | PushPop _ s => pop_ok Empty s
  | PushPush p i s => ptr_at l i = Some p /\ push_ok i s
  | TakePop s => pop_ok Stored s
  | TakePush _ i s => push_ok i s
  end.

(** The pointers on their way in or out. *)
Definition flight (t : thread) : list Z :=
  match t with
  | PushPop p _ | PushPtr p _ | PushPush p _ _ | TakePush p _ _ => [p]
  | TakePtr i => option_list (ptr_at l i)
  | Idle | TakePop _ => []
  end.
End local.

(** The pointers on the stack [vs]. *)
Definition ptrs (l : pa_flist) (vs : list Z) : list Z := omap (fun v => ptr_at l (index l v)) vs.

Lemma ptrs_frame l l' vs : same_shape l l' -> (forall v, v ∈ vs -> elem_at l' (index l v) = elem_at l (index l v)) -> ptrs l' vs = ptrs l vs.
Proof.
  intros Hs. induction vs as [|v vs IH]; intros Hf; [done|].
  assert (ptr_at l' (index l' v) = ptr_at l (index l v)) as E
    by (rewrite (index_same l l') by done; unfold ptr_at; by rewrite Hf by apply list_elem_of_here).
  assert (ptrs l' vs = ptrs l vs) as IH' by (apply IH; intros w Hw; apply Hf; by right).
  unfold ptrs in *. simpl. rewrite E. destruct (ptr_at l (index l v)); [f_equal|]; exact IH'.
Qed.

Record fl_inv (s : flsys) (C : which -> list Z) : Prop := {
  fi_shape : shape (fs_list s);
  fi_chain k : chain (fs_list s) (head k (fs_list s)) (C k);
  fi_part : (index (fs_list s) <$> C Stored) ++ (index (fs_list s) <$> C Empty) ++ bag (fun t => option_list (owned t)) (fs_threads s)
    ≡ₚ seqZ 0 (fl_size (fs_list s));
  fi_threads t : t ∈ fs_threads s -> thread_ok (fs_list s) C t;
  fi_clash t t' w : t ∈ fs_threads s -> t' ∈ fs_threads s -> makes t = Some w -> held t' = Some w -> False;
  fi_given : fs_given s ≡ₚ fs_refused s ++ bag (flight (fs_list s)) (fs_threads s) ++ ptrs (fs_list s) (C Stored) ++ fs_got s
}.

(** ** One thread moves *)

(** What a thread owns is on no stack, and nobody else's. *)
Lemma owned_alone s C j t i : fl_inv s C -> fs_threads s !! j = Some t -> owned t = Some i ->
  0 <= i < fl_size (fs_list s) /\ (forall k v, v ∈ C k -> index (fs_list s) v <> i) /\
  forall j2 t2, j2 <> j -> fs_threads s !! j2 = Some t2 -> owned t2 <> Some i.
Proof.
  intros H Ej Eo. pose proof (fi_part _ _ H) as P. set (l := fs_list s) in *.
  destruct (bag_move (fun t => option_list (owned t)) (fun t => option_list (owned t)) _ j t t Ej) as (r & Er & _ & Hr); [done|].
  rewrite Er, Eo in P. simpl in P. pose proof (NoDup_seqZ 0 (fl_size l)) as Hn. rewrite <- P in Hn.
  apply NoDup_app in Hn as (_ & H1 & Hn). apply NoDup_app in Hn as (_ & H2 & Hn). apply NoDup_cons in Hn as [H3 _].
  split_and!.
  - assert (i ∈ seqZ 0 (fl_size l)) as Hi by (rewrite <- P; rewrite !elem_of_app, elem_of_cons; auto). apply elem_of_seqZ in Hi. lia.
  - assert (i ∈ seqZ 0 (fl_size l)) as Hi by (rewrite <- P; rewrite !elem_of_app, elem_of_cons; auto). apply elem_of_seqZ in Hi. lia.
  - intros [|] v Hv E.
    + apply (H1 i); [apply list_elem_of_fmap; by exists v|]. rewrite elem_of_app, elem_of_cons. auto.
    + apply (H2 i); [apply list_elem_of_fmap; by exists v|]. rewrite elem_of_cons. auto.
  - intros j2 t2 Hne E2 E. apply H3. apply (Hr j2 t2); [done..|]. rewrite E. set_solver.
Qed.

(** The others do not notice. *)
Lemma thread_ok_frame l C l' C' t : same_shape l l' ->
  (forall k v, held t = Some v -> v ∈ C' k -> v ∈ C k /\ next_at l' (index l v) = next_at l (index l v)) ->
  (forall i, owned t = Some i -> elem_at l' i = elem_at l i) -> thread_ok l C t -> thread_ok l' C' t.
Proof.
  intros Hs Hh Ho.
  assert (forall k p, (forall v, loaded p = Some v -> held t = Some v) -> pop_ok l C k p -> pop_ok l' C' k p) as Hpop.
  { intros k p Hl. destruct p as [|v|v n]; simpl; [done|by apply valid_same|]. intros [Hv Hn]. split; [by apply (valid_same l)|].
    intros Hin. rewrite (index_same l l') by done. destruct (Hh k v) as [H1 H2]; [by apply Hl|done|]. rewrite H2. by apply Hn. }
  assert (forall i p, owned t = Some i -> push_ok l i p -> push_ok l' i p) as Hpush.
  { intros i p E. destruct p; simpl; rewrite ?(index_same l l') by done; try done; intros; destruct_and?; split_and?; try done;
      try (by apply (valid_same l)). unfold next_at. by rewrite Ho. }
  destruct t as [|p s|p i|p i s|s|i|p i s]; simpl in *; auto.
  intros [H1 H2]. split; [|by apply Hpush]. unfold ptr_at. by rewrite Ho.
Qed.

Lemma flight_frame l l' t : (forall i, owned t = Some i -> elem_at l' i = elem_at l i) -> flight l' t = flight l t.
Proof. intros Ho. destruct t as [|p s|p i|p i s|s|i|p i s]; simpl in *; try done. unfold ptr_at. by rewrite Ho. Qed.

(** Everything a step has to show. *)
Lemma fl_inv_step s C j t t' l' C' a : fl_inv s C -> fs_threads s !! j = Some t -> same_shape (fs_list s) l' ->
  (forall k, chain l' (head k l') (C' k)) ->
  option_list (owned t') ++ (index (fs_list s) <$> C' Stored) ++ (index (fs_list s) <$> C' Empty) ≡ₚ
    option_list (owned t) ++ (index (fs_list s) <$> C Stored) ++ (index (fs_list s) <$> C Empty) ->
  thread_ok l' C' t' ->
  (forall j2 t2, j2 <> j -> fs_threads s !! j2 = Some t2 -> thread_ok l' C' t2 /\ flight l' t2 = flight (fs_list s) t2 /\
     (forall w, makes t' = Some w -> held t2 <> Some w) /\ (forall v, held t' = Some v -> makes t2 <> Some v)) ->
  (makes t' = None \/ held t' = None) ->
  flight (fs_list s) t ++ ptrs (fs_list s) (C Stored) ≡ₚ refused a ++ got a ++ flight l' t' ++ ptrs l' (C' Stored) ->
  fl_inv (mk_flsys l' (<[j := t']> (fs_threads s)) (fs_given s) (refused a ++ fs_refused s) (got a ++ fs_got s)) C'.
Proof.
  intros [H1 H2 H3 H4 H5 H6] Ej Hs Hc Hp Ht Ho Hmh Hf. split; simpl.
  - by apply (shape_same (fs_list s)).
  - done.
  - destruct (bag_move (fun t => option_list (owned t)) (fun t => option_list (owned t)) _ j t t' Ej) as (r & Er & Er' & _); [done|].
    rewrite Er'. rewrite Er in H3. pose proof Hs as (Es & _). rewrite Es, <- H3.
    assert (forall k, index l' <$> C' k = index (fs_list s) <$> C' k) as Ei.
    { intros k. apply list_fmap_ext. intros i x _. by apply index_same. }
    rewrite !Ei.
    transitivity ((option_list (owned t') ++ (index (fs_list s) <$> C' Stored) ++ (index (fs_list s) <$> C' Empty)) ++ r);
      [solve_Permutation|]. rewrite Hp. solve_Permutation.
  - intros t2 [->|(j2 & Hne & E2)]%other_thread; [done|]. by apply (Ho j2).
  - intros t2 t3 w [->|(j2 & Hne2 & E2)]%other_thread [->|(j3 & Hne3 & E3)]%other_thread Em Eh.
    + destruct Hmh; congruence.
    + by eapply (proj1 (proj2 (proj2 (Ho j3 t3 Hne3 E3)))).
    + by eapply (proj2 (proj2 (proj2 (Ho j2 t2 Hne2 E2)))).
    + apply (H5 t2 t3 w); [by eapply list_elem_of_lookup_2..|done|done].
  - destruct (bag_move (flight (fs_list s)) (flight l') _ j t t' Ej) as (r & Er & Er' & _); [intros j2 t2 Hne E2; by apply (Ho j2)|].
    rewrite H6, Er, Er'. transitivity (fs_refused s ++ r ++ (flight (fs_list s) t ++ ptrs (fs_list s) (C Stored)) ++ fs_got s);
      [solve_Permutation|]. rewrite Hf. solve_Permutation.
Qed.

(** A step that only the thread itself notices. *)
Lemma inv_quiet s C j t t' a : fl_inv s C -> fs_threads s !! j = Some t -> owned t' = owned t -> thread_ok (fs_list s) C t' ->
  makes t' = None \/ makes t' = makes t -> held t' = None \/ held t' = held t \/ (exists k v, held t' = Some v /\ v ∈ C k) ->
  (makes t' = None \/ held t' = None) -> flight (fs_list s) t ≡ₚ refused a ++ got a ++ flight (fs_list s) t' ->
  fl_inv (mk_flsys (fs_list s) (<[j := t']> (fs_threads s)) (fs_given s) (refused a ++ fs_refused s) (got a ++ fs_got s)) C.
Proof.
  intros H Ej Eo Ht Hm Hh Hmh Hf. apply (fl_inv_step s C j t); try done.
  - apply H.
  - by rewrite Eo.
  - intros j2 t2 Hne E2. pose proof (list_elem_of_lookup_2 _ _ _ E2) as Hin2. pose proof (list_elem_of_lookup_2 _ _ _ Ej) as Hin.
    split_and!; [by apply H|done|..].
    + intros w Ew Eh. destruct Hm as [Hm|Hm]; [congruence|]. apply (fi_clash _ _ H t t2 w); congruence.
    + intros v Ev Em. destruct Hh as [Hh|[Hh|(k & v' & Hh & Hv)]]; [congruence|apply (fi_clash _ _ H t2 t v); congruence|].
      assert (v' = v) as -> by congruence. clear Hh. pose proof (fi_threads _ _ H t2 Hin2) as Ht2.
      assert (exists i, owned t2 = Some i /\ index (fs_list s) v = i) as (i & Eo2 & Ei).
      { destruct t2 as [|p q|p i|p i q|q|i|p i q]; simpl in *; try done; exists i; (split; [done|]);
          destruct q; simpl in *; simplify_eq; destruct_and?; done. }
      destruct (owned_alone s C j2 t2 i H E2 Eo2) as (_ & Hk & _). by apply (Hk k v).
  - rewrite Hf. solve_Permutation.
Qed.

#[export] Instance which_eq_dec : EqDecision which.
Proof. solve_decision. Defined.

(** The stack [k] is [vs]. *)
Definition upd (C : which -> list Z) (k : which) (vs : list Z) : which -> list Z := fun k' => if decide (k' = k) then vs else C k'.

Lemma upd_same C k vs : upd C k vs k = vs.
Proof. unfold upd. by rewrite decide_True. Qed.

Lemma upd_other C k vs k' : k' <> k -> upd C k vs k' = C k'.
Proof. intros H. unfold upd. by rewrite decide_False. Qed.

Lemma set_head_shape k v l : same_shape l (set_head k v l).
Proof. by destruct k. Qed.

Lemma set_head_elem k v l i : elem_at (set_head k v l) i = elem_at l i.
Proof. by destruct k. Qed.

Lemma head_set_head k v l k' : head k' (set_head k v l) = if decide (k' = k) then v else head k' l.
Proof. by destruct k, k'. Qed.

Lemma ptrs_head k v l vs : ptrs (set_head k v l) vs = ptrs l vs.
Proof. by destruct k. Qed.

Lemma chain_set_head k v l h vs : chain l h vs -> chain (set_head k v l) h vs.
Proof. apply fl_chain_frame; [apply set_head_shape|]. intros w _. unfold next_at. by rewrite set_head_elem. Qed.

(** [stack_pop] in either function. *)
Section pops.
Context (K : pop_state -> thread) (k : which).
Context (Kown : forall p, owned (K p) = None) (Kmakes : forall p, makes (K p) = None) (Kheld : forall p, held (K p) = loaded p).
Context (Kok : forall l C p, thread_ok l C (K p) = pop_ok l C k p) (Kflight : forall l p p', flight l (K p) = flight l (K p')).

Lemma pop_runs s C j p : fl_inv s C -> fs_threads s !! j = Some (K p) ->
  exists r l', pop_step k p (fs_list s) = Ok (r, l') /\
  match r with
  | inl p' => l' = fs_list s /\ fl_inv (mk_flsys (fs_list s) (<[j := K p']> (fs_threads s)) (fs_given s) (fs_refused s) (fs_got s)) C
  | inr None => l' = fs_list s /\ C k = []
  | inr (Some i) => exists v vs, C k = v :: vs /\ i = index (fs_list s) v /\ (forall i', ptr_at l' i' = ptr_at (fs_list s) i') /\
      forall t', owned t' = Some i -> makes t' = None -> held t' = None -> thread_ok l' (upd C k vs) t' ->
        flight (fs_list s) (K p) ++ ptrs (fs_list s) (C Stored) ≡ₚ flight l' t' ++ ptrs (fs_list s) (upd C k vs Stored) ->
        fl_inv (mk_flsys l' (<[j := t']> (fs_threads s)) (fs_given s) (fs_refused s) (fs_got s)) (upd C k vs)
  end.
Proof.
  intros H Ej. pose proof (fi_chain _ _ H k) as Hc.
  pose proof (fi_threads _ _ H (K p) (list_elem_of_lookup_2 _ _ _ Ej)) as Ht. rewrite Kok in Ht.
  assert (forall p', pop_ok (fs_list s) C k p' -> loaded p' = None \/ loaded p' = loaded p \/ (exists v, loaded p' = Some v /\ v ∈ C k) ->
    fl_inv (mk_flsys (fs_list s) (<[j := K p']> (fs_threads s)) (fs_given s) (fs_refused s) (fs_got s)) C) as Hq.
  { intros p' Hp' Hl. apply (inv_quiet s C j (K p) (K p') None H Ej); rewrite ?Kown, ?Kmakes, ?Kheld, ?Kok; auto; [|by rewrite (Kflight (fs_list s) p p')].
    destruct Hl as [?|[?|(v & ? & ?)]]; [by left|by right; left|right; right; by exists k, v]. }
  destruct p as [|v|v n]; simpl in *.
  - destruct (C k) as [|v vs] eqn:Ec; simpl in Hc.
    + rewrite (proj2 (Z.ltb_lt _ _) Hc). by eexists _, _.
    + destruct Hc as (Eh & Hv & _). rewrite Eh, (proj2 (Z.ltb_ge _ _)) by apply Hv. eexists _, _. split; [done|]. split; [done|].
      apply Hq; [done|]. right. right. exists v. rewrite ?Ec. split; [done|]. apply list_elem_of_here.
  - destruct Ht as [Hv1 Hv2]. pose proof (index_bound (fs_list s) v (fi_shape _ _ H)).
    destruct (elem_is_Some (fs_list s) (index (fs_list s) v) (fi_shape _ _ H)) as [e Ee]; [lia|]. rewrite Ee. simpl. eexists _, _. split; [done|].
    split; [done|]. apply Hq; simpl; [|auto]. split; [done|]. intros _. unfold next_at. by rewrite Ee.
  - destruct Ht as [Hv Hn]. destruct (Z.eqb_spec (head k (fs_list s)) v) as [Eh|_]; [|eexists _, _; split; [done|]; split; [done|]; apply Hq; simpl; auto].
    destruct (C k) as [|v' vs] eqn:Ec; simpl in Hc; [destruct Hv; lia|]. destruct Hc as (Ev & _ & n' & En & Hc).
    assert (v' = v) as -> by congruence. rewrite Hn in En by apply list_elem_of_here. injection En as <-.
    eexists _, _. split; [done|]. exists v, vs. split_and!; [done|done|intros i'; unfold ptr_at; by rewrite set_head_elem|]. intros t' Eo Em Eh' Hok Hf.
    apply (fl_inv_step s C j (K (PopCas v n)) t' (set_head k n (fs_list s)) (upd C k vs) None); try done; [apply set_head_shape|..|by left|by rewrite ptrs_head].
    + intros k'. rewrite head_set_head. unfold upd. case_decide; apply chain_set_head; [done|apply H].
    + rewrite Eo, Kown.  destruct k; unfold upd; simpl; rewrite Ec; simpl; solve_Permutation.
    + intros j2 t2 Hne E2. split_and!; try (intros; congruence).
      * apply (thread_ok_frame (fs_list s) C); [apply set_head_shape| |intros; apply set_head_elem|apply (fi_threads _ _ H); by eapply list_elem_of_lookup_2].
        intros k' w _ Hw. split; [|unfold next_at; by rewrite set_head_elem]. unfold upd in Hw. case_decide; [|done]. subst. rewrite Ec. by right.
      * apply flight_frame. intros. apply set_head_elem.
Qed.
End pops.

Lemma set_elem_shape i e l : same_shape l (set_elem i e l).
Proof. unfold same_shape, set_elem. simpl. by rewrite length_insert. Qed.

Lemma set_elem_other i e l i' : 0 <= i -> 0 <= i' -> i' <> i -> elem_at (set_elem i e l) i' = elem_at l i'.
Proof. intros H1 H2 Hne. unfold elem_at, set_elem. simpl. apply list_lookup_insert_ne. lia. Qed.

Lemma set_elem_same i e l e' : elem_at l i = Some e' -> elem_at (set_elem i e l) i = Some e.
Proof. intros E. unfold elem_at, set_elem in *. simpl. apply list_lookup_insert_eq. by apply lookup_lt_Some in E. Qed.

(** A thread that changes the element it owns disturbs nobody. *)
Lemma inv_own s C j t t' i e e' : fl_inv s C -> fs_threads s !! j = Some t -> owned t = Some i -> owned t' = Some i ->
  elem_at (fs_list s) i = Some e -> makes t' = None \/ makes t' = makes t -> held t' = None ->
  thread_ok (set_elem i e' (fs_list s)) C t' -> flight (fs_list s) t = flight (set_elem i e' (fs_list s)) t' ->
  fl_inv (mk_flsys (set_elem i e' (fs_list s)) (<[j := t']> (fs_threads s)) (fs_given s) (fs_refused s) (fs_got s)) C.
Proof.
  intros H Ej Eo Eo' Ee Hm Hh Ht Hf. destruct (owned_alone s C j t i H Ej Eo) as (Hi & Hk & Ho).
  assert (forall v, 0 <= index (fs_list s) v) as Hix by (intros v; apply index_bound, H).
  assert (forall k v, v ∈ C k -> elem_at (set_elem i e' (fs_list s)) (index (fs_list s) v) = elem_at (fs_list s) (index (fs_list s) v)) as Hel.
  { intros k v Hv. apply set_elem_other; [lia|apply Hix|by apply (Hk k)]. }
  apply (fl_inv_step s C j t t' _ C None); try done.
  - apply set_elem_shape.
  - intros k. change (head k (set_elem i e' (fs_list s))) with (head k (fs_list s)).
    apply (fl_chain_frame (fs_list s)); [apply set_elem_shape| |apply H]. intros v Hv. unfold next_at. by rewrite (Hel k).
  - by rewrite Eo, Eo'.
  - intros j2 t2 Hne E2. pose proof (list_elem_of_lookup_2 _ _ _ E2) as Hin2. pose proof (list_elem_of_lookup_2 _ _ _ Ej) as Hin.
    assert (forall i2, owned t2 = Some i2 -> elem_at (set_elem i e' (fs_list s)) i2 = elem_at (fs_list s) i2) as Hown.
    { intros i2 E. apply set_elem_other; [lia|destruct (owned_alone s C j2 t2 i2 H E2 E); lia|]. intros ->. by apply (Ho j2 t2). }
    split_and!; [|by apply flight_frame| |intros; congruence].
    + apply (thread_ok_frame (fs_list s) C); [apply set_elem_shape| |done|by apply H].
      intros k v _ Hv. split; [done|]. unfold next_at. by rewrite (Hel k).
    + intros w Ew Eh. destruct Hm as [Hm|Hm]; [congruence|]. apply (fi_clash _ _ H t t2 w); congruence.
  - by right.
  - simpl. rewrite Hf. f_equiv. replace (ptrs (set_elem i e' (fs_list s)) (C Stored)) with (ptrs (fs_list s) (C Stored)); [done|].
    symmetry. apply ptrs_frame; [apply set_elem_shape|]. intros v Hv. by apply (Hel Stored).
Qed.

(** [stack_push] in either function. *)
Section pushes.
Context (K : push_state -> thread) (k : which) (i p : Z).
Context (Kown : forall q, owned (K q) = Some i) (Kmakes : forall q, makes (K q) = pending q) (Kheld : forall q, held (K q) = None).
Context (Kflight : forall l q, flight l (K q) = [p]).
Context (keep : bool) (Kok : forall l C q, thread_ok l C (K q) <-> (keep = true -> ptr_at l i = Some p) /\ push_ok l i q).

Lemma push_runs s C j q : fl_inv s C -> fs_threads s !! j = Some (K q) ->
  exists r l', push_step k i q (fs_list s) = Ok (r, l') /\
  match r with
  | Some q' => (q = PushInc -> forall t2, t2 ∈ fs_threads s -> held t2 <> Some (tagged (fs_list s) i)) ->
      fl_inv (mk_flsys l' (<[j := K q']> (fs_threads s)) (fs_given s) (fs_refused s) (fs_got s)) C
  | None => exists w, index (fs_list s) w = i /\ ptr_at l' i = ptr_at (fs_list s) i /\ forall a,
      [p] ++ ptrs (fs_list s) (C Stored) ≡ₚ refused a ++ got a ++ ptrs (fs_list s) (upd C k (w :: C k) Stored) ->
      fl_inv (mk_flsys l' (<[j := Idle]> (fs_threads s)) (fs_given s) (refused a ++ fs_refused s) (got a ++ fs_got s)) (upd C k (w :: C k))
  end.
Proof.
  intros H Ej. pose proof (fi_threads _ _ H (K q) (list_elem_of_lookup_2 _ _ _ Ej)) as Ht. apply Kok in Ht as [Hkeep Ht].
  destruct (owned_alone s C j (K q) i H Ej (Kown q)) as (Hi & Hk & Ho). pose proof (fi_shape _ _ H) as Hsh.
  destruct (elem_is_Some _ _ Hsh Hi) as [e Ee].
  assert (forall q', push_ok (fs_list s) i q' -> pending q' = None \/ pending q' = pending q ->
    fl_inv (mk_flsys (fs_list s) (<[j := K q']> (fs_threads s)) (fs_given s) (fs_refused s) (fs_got s)) C) as Hq.
  { intros q' Hq' Hp'. apply (inv_quiet s C j (K q) (K q') None H Ej); rewrite ?Kown, ?Kmakes, ?Kheld, ?Kflight; auto. by apply Kok. }
  destruct q as [|w|w n|w n]; simpl in *.
  - pose proof (sh_size _ Hsh). pose proof (sh_shift _ Hsh).
    assert (2 ^ fl_tag_shift (fs_list s) <= 2 ^ 30) by (apply Z.pow_le_mono_r; lia).
    rewrite (s32_small (fl_size (fs_list s))), pa_assert_true by (lia || blia). simpl. eexists _, _. split; [done|]. intros Hnr. specialize (Hnr eq_refl).
    destruct (tagged_index (fs_list s) i Hsh Hi) as [Hw0 Hw1]. set (w := tagged (fs_list s) i) in *. clearbody w.
    set (l' := set_current_tag _ (fs_list s)).
    apply (fl_inv_step s C j (K PushInc) (K (PushLoad w)) l' C None); rewrite ?Kown, ?Kmakes, ?Kheld, ?Kflight; try done; [| | |by right].
    + intros k'. replace (head k' l') with (head k' (fs_list s)) by (by destruct k'). apply (fl_chain_frame (fs_list s)); [done|done|apply H].
    + apply Kok. split; [exact Hkeep|]. simpl. split; [split; [done|]|done]. change (index (fs_list s) w < fl_size (fs_list s)). lia.
    + intros j2 t2 Hne E2. pose proof (list_elem_of_lookup_2 _ _ _ E2) as Hin2. split_and!; [|done| |intros; congruence].
      * apply (thread_ok_frame (fs_list s) C); try done. by apply H.
      * intros w' Ew. simpl in Ew. injection Ew as <-. by apply Hnr.
  - eexists _, _. split; [done|]. intros _. apply Hq; simpl; auto.
  - rewrite Ee. simpl. eexists _, _. split; [done|]. intros _.
    apply (inv_own s C j (K (PushStore w n)) _ i e); rewrite ?Kown, ?Kmakes, ?Kheld, ?Kflight; auto. apply Kok. destruct Ht as [[Hw Hw'] Ei]. split.
    + intros Ek. specialize (Hkeep Ek). unfold ptr_at in *. rewrite (set_elem_same _ _ _ e Ee). rewrite Ee in Hkeep. done.
    + simpl. split; [by apply (valid_same (fs_list s)); [apply set_elem_shape|]|]. split; [done|]. unfold next_at. by rewrite (set_elem_same _ _ _ e Ee).
  - destruct Ht as (Hw & Ei & En). destruct (Z.eqb_spec (head k (fs_list s)) n) as [Eh|_];
      [|eexists _, _; split; [done|]; intros _; apply Hq; simpl; auto].
    eexists _, _. split; [done|]. exists w. split; [done|]. split; [unfold ptr_at; by rewrite set_head_elem|]. intros a Hf.
    apply (fl_inv_step s C j (K (PushCas w n)) Idle _ _ a); rewrite ?Kown, ?Kmakes, ?Kheld, ?Kflight; try done; [apply set_head_shape|..|by left|by rewrite ptrs_head].
    + intros k'. rewrite head_set_head. unfold upd. case_decide; [subst k'|apply chain_set_head, H].
      split; [done|]. split; [by apply (valid_same (fs_list s)); [apply set_head_shape|]|]. exists n.
      rewrite (index_same (fs_list s)) by apply set_head_shape. rewrite Ei. unfold next_at in *. rewrite set_head_elem. split; [done|].
      apply chain_set_head. rewrite <- Eh. apply H.
    + simpl. destruct k; unfold upd; simpl; rewrite Ei; solve_Permutation.
    + intros j2 t2 Hne E2. pose proof (list_elem_of_lookup_2 _ _ _ E2) as Hin2. pose proof (list_elem_of_lookup_2 _ _ _ Ej) as Hin.
      split_and!; [|apply flight_frame; intros; apply set_head_elem|done|done].
      apply (thread_ok_frame (fs_list s) C); [apply set_head_shape| |intros; apply set_head_elem|by apply H].
      intros k' v Ev Hv. split; [|unfold next_at; by rewrite set_head_elem]. unfold upd in Hv. case_decide; [|done]. subst k'.
      apply elem_of_cons in Hv as [->|Hv]; [|done]. exfalso. apply (fi_clash _ _ H (K (PushCas w n)) t2 w); try done; by rewrite ?Kmakes.
Qed.
End pushes.

Lemma ptrs_cons l v vs p : ptr_at l (index l v) = Some p -> ptrs l (v :: vs) = p :: ptrs l vs.
Proof. intros E. unfold ptrs. simpl. by rewrite E. Qed.

(** Every thread can go on, and does not disturb the rest. *)
Lemma thread_runs s C j t : fl_inv s C -> fs_threads s !! j = Some t ->
  exists t' a l', thread_step t (fs_list s) = Ok (t', a, l') /\
    (not_round t s -> exists C', fl_inv (mk_flsys l' (<[j := t']> (fs_threads s)) (fs_given s)
       (refused a ++ fs_refused s) (got a ++ fs_got s)) C').
Proof.
  intros H Ej. pose proof (fi_threads _ _ H t (list_elem_of_lookup_2 _ _ _ Ej)) as Ht.
  destruct t as [|p q|p i|p i q|q|i|p i q]; simpl.
  - eexists _, _, _. split; [done|]. intros _. exists C. by apply (inv_quiet s C j Idle Idle None); auto.
  - destruct (pop_runs (PushPop p) Empty) with (s := s) (C := C) (j := j) (p := q) as (r & l' & E & Hr); try done.
    rewrite E. simpl. destruct r as [q'|[i|]].
    + destruct Hr as [-> Hr]. eexists _, _, _. split; [done|]. intros _. exists C. exact Hr.
    + destruct Hr as (v & vs & Ec & Ei & _ & Hr). eexists _, _, _. split; [done|]. intros _. eexists. by apply Hr.
    + destruct Hr as [-> Ec]. eexists _, _, _. split; [done|]. intros _. exists C. by apply (inv_quiet s C j _ Idle (Some (Pushed p (-1))) H Ej); auto.
  - destruct (owned_alone s C j _ i H Ej eq_refl) as (Hi & _). destruct (elem_is_Some _ _ (fi_shape _ _ H) Hi) as [e Ee].
    rewrite Ee. simpl. eexists _, _, _. split; [done|]. intros _. exists C. apply (inv_own s C j (PushPtr p i) _ i e); auto.
    simpl. split; [|done]. unfold ptr_at. by rewrite (set_elem_same _ _ _ e Ee).
  - destruct Ht as [Hp Ht].
    destruct (push_runs (PushPush p i) Stored i p) with (keep := true) (s := s) (C := C) (j := j) (q := q) as (r & l' & E & Hr); try done.
    { intros l C' q'. simpl. split; [intros [H1 H2]; by split|intros [H1 H2]; split; [by apply H1|done]]. }
    rewrite E. simpl. destruct r as [q'|].
    + eexists _, _, _. split; [done|]. intros Hn. exists C. apply Hr. intros -> t2 Hin. by apply Hn.
    + destruct Hr as (w & Ei & _ & Hr). eexists _, _, _. split; [done|]. intros _. eexists. apply (Hr (Some (Pushed p 0))).
      rewrite upd_same, (ptrs_cons _ _ _ p); [done|]. by rewrite Ei.
  - destruct (pop_runs TakePop Stored) with (s := s) (C := C) (j := j) (p := q) as (r & l' & E & Hr); try done.
    rewrite E. simpl. destruct r as [q'|[i|]].
    + destruct Hr as [-> Hr]. eexists _, _, _. split; [done|]. intros _. exists C. exact Hr.
    + destruct Hr as (v & vs & Ec & Ei & Hl & Hr). eexists _, _, _. split; [done|]. intros _. eexists. apply Hr; try done.
      assert (v ∈ C Stored) as Hv by (rewrite Ec; apply list_elem_of_here).
      pose proof (chain_valid _ _ _ _ (fi_chain _ _ H Stored) Hv) as [_ Hv2]. pose proof (index_bound _ v (fi_shape _ _ H)).
      destruct (elem_is_Some (fs_list s) (index (fs_list s) v) (fi_shape _ _ H)) as [e Ee]; [lia|].
      rewrite ?upd_same, Ec. simpl. rewrite Hl, Ei. unfold ptrs at 1. simpl. unfold ptr_at. rewrite Ee. done.
    + destruct Hr as [-> Ec]. eexists _, _, _. split; [done|]. intros _. exists C. by apply (inv_quiet s C j _ Idle (Some (Popped None)) H Ej); auto.
  - destruct (owned_alone s C j _ i H Ej eq_refl) as (Hi & _). destruct (elem_is_Some _ _ (fi_shape _ _ H) Hi) as [e Ee].
    rewrite Ee. simpl. eexists _, _, _. split; [done|]. intros _. exists C. apply (inv_quiet s C j _ _ None H Ej); auto.
    simpl. unfold ptr_at. by rewrite Ee.
  - destruct (push_runs (TakePush p i) Empty i p) with (keep := false) (s := s) (C := C) (j := j) (q := q) as (r & l' & E & Hr); try done.
    { intros l C' q'. simpl. split; [intros H1; by split|by intros [_ ?]]. }
    rewrite E. simpl. destruct r as [q'|].
    + eexists _, _, _. split; [done|]. intros Hn. exists C. apply Hr. intros -> t2 Hin. by apply Hn.
    + destruct Hr as (w & Ei & _ & Hr). eexists _, _, _. split; [done|]. intros _. eexists. by apply (Hr (Some (Popped (Some p)))).
Qed.

(** ** A new list *)

Lemma shift_loop_spec fuel : forall size k, 0 < size <= 2 ^ 30 -> 0 <= k <= 30 -> 31 <= k + Z.of_nat fuel ->
  k <= shift_loop fuel size k <= 30 /\ size <= 2 ^ shift_loop fuel size k.
Proof.
  induction fuel as [|fuel IH]; intros size k Hs Hk Hf; [lia|]. simpl. rewrite Z.shiftl_1_l.
  destruct (Z.ltb_spec (2 ^ k) size) as [Hlt|Hge]; [|lia].
  assert (k <> 30) by (intros ->; lia). destruct (IH size (k + 1)) as [H1 H2]; lia.
Qed.

(** [stack_push] alone. *)
Lemma stack_push_alone l i vs : shape l -> 0 <= i < fl_size l -> chain l (fl_empty l) vs ->
  (forall v, v ∈ vs -> index l v <> i) ->
  exists l' w, stack_push Empty i l = Ok l' /\ same_shape l l' /\ chain l' (fl_empty l') (w :: vs) /\ index l w = i /\
    fl_stored l' = fl_stored l /\ fl_current_tag l' = s32 (fl_current_tag l + 1) /\ w = tagged l i /\
    exists e, fl_table l' = <[Z.to_nat i := mk_elem (fl_empty l) e]> (fl_table l).
Proof.
  intros Hsh Hi Hc Hv. pose proof (sh_size _ Hsh). pose proof (sh_shift _ Hsh).
  assert (2 ^ fl_tag_shift l <= 2 ^ 30) by (apply Z.pow_le_mono_r; lia). destruct (elem_is_Some _ _ Hsh Hi) as [e Ee].
  destruct (tagged_index l i Hsh Hi) as [Hw Hwi]. set (l1 := set_current_tag (s32 (fl_current_tag l + 1)) l).
  set (l2 := set_elem i (mk_elem (fl_empty l) (e_ptr e)) l1). exists (set_head Empty (tagged l i) l2), (tagged l i). split.
  { assert (push_step Empty i PushInc l = Ok (Some (PushLoad (tagged l i)), l1)) as E1.
    { unfold push_step. by rewrite (s32_small (fl_size l)), pa_assert_true by (lia || blia). }
    assert (push_step Empty i (PushStore (tagged l i) (fl_empty l)) l1 = Ok (Some (PushCas (tagged l i) (fl_empty l)), l2)) as E2.
    { unfold push_step. change (elem_at l1 i) with (elem_at l i). by rewrite Ee. }
    assert (push_step Empty i (PushCas (tagged l i) (fl_empty l)) l2 = Ok (None, set_head Empty (tagged l i) l2)) as E3.
    { unfold push_step. change (head Empty l2) with (fl_empty l). by rewrite Z.eqb_refl. }
    assert (push_step Empty i (PushLoad (tagged l i)) l1 = Ok (Some (PushStore (tagged l i) (fl_empty l)), l1)) as E4 by done.
    unfold stack_push. clearbody l2. clearbody l1. revert E1 E2 E3 E4. generalize (push_step Empty i) (tagged l i) (set_head Empty). intros f w g E1 E2 E3 E4.
    rewrite E1. simpl. rewrite E4. simpl. rewrite E2. simpl. by rewrite E3. }
  assert (same_shape l l2) as Hs2 by (unfold same_shape, l2, set_elem; simpl; by rewrite length_insert).
  assert (same_shape l (set_head Empty (tagged l i) l2)) as Hs3 by done. split_and!; try done; [|by exists (e_ptr e)].
  split; [done|]. split; [apply (valid_same l); [done|]; split; [done|]; lia|]. exists (fl_empty l).
  rewrite (index_same l) by done. rewrite Hwi. split.
  - unfold next_at. rewrite set_head_elem. unfold l2. by rewrite (set_elem_same i _ l1 e).
  - apply (fl_chain_frame l); [done| |done]. intros v Hin. unfold next_at. rewrite set_head_elem. f_equal.
    apply (set_elem_other i _ l1); [lia|apply index_bound, Hsh|by apply Hv].
Qed.

(** All indices in the list carry tags that were drawn already. *)
Definition bound (l : pa_flist) : Z := 2 ^ fl_tag_shift l * Z.max 1 (fl_current_tag l).
Record low (l : pa_flist) : Prop := {
  lo_heads k : head k l < bound l;
  lo_table : Forall (fun e => e_next e < bound l) (fl_table l)
}.

Lemma tagged_bound l i : shape l -> 0 <= i < fl_size l -> 0 <= fl_current_tag l -> tagged l i < 2 ^ fl_tag_shift l * (fl_current_tag l + 1).
Proof.
  intros H Hi Ht. pose proof (sh_size _ H). pose proof (sh_shift _ H). rewrite tagged_eq by done.
  assert (0 < 2 ^ (31 - fl_tag_shift l)) as Hp by (apply Z.pow_pos_nonneg; lia).
  pose proof (Z.mod_le (fl_current_tag l) (2 ^ (31 - fl_tag_shift l)) Ht Hp). nia.
Qed.

Lemma new_loop_spec fuel : forall i l vs, shape l -> 0 <= i -> i + Z.of_nat fuel = fl_size l -> chain l (fl_empty l) vs ->
  index l <$> vs ≡ₚ seqZ 0 i -> fl_stored l = -1 -> fl_current_tag l = i -> low l ->
  exists l' vs', new_loop fuel i l = Ok l' /\ shape l' /\ chain l' (fl_empty l') vs' /\
    index l' <$> vs' ≡ₚ seqZ 0 (fl_size l') /\ fl_stored l' = -1 /\ fl_current_tag l' = fl_size l' /\ low l' /\ fl_size l' = fl_size l.
Proof.
  induction fuel as [|fuel IH]; intros i l vs Hsh Hi Hf Hc Hp Hst Ht Hlo.
  { exists l, vs. replace i with (fl_size l) in * by lia. by split_and!. }
  pose proof (sh_size _ Hsh). pose proof (sh_shift _ Hsh).
  assert (2 ^ fl_tag_shift l <= 2 ^ 30) by (apply Z.pow_le_mono_r; lia).
  destruct (stack_push_alone l i vs Hsh) as (l1 & w & E & Hs1 & Hc1 & Ew & Est & Ect & Eq & e & Etab); [lia|done| |].
  { intros v Hv E. assert (i ∈ seqZ 0 i) as Hin by (rewrite <- Hp; apply list_elem_of_fmap; by exists v). apply elem_of_seqZ in Hin. lia. }
  simpl. rewrite E. simpl. pose proof (shape_same _ _ Hs1 Hsh) as Hsh1. pose proof Hs1 as (Esz & Esh & _).
  assert (index l1 <$> w :: vs = i :: (index l <$> vs)) as Ei.
  { rewrite fmap_cons, (index_same l l1) by done. rewrite Ew. f_equal. apply list_fmap_ext. intros ? x _. by apply index_same. }
  assert (bound l <= bound l1 /\ w < bound l1) as [Hb Hw].
  { pose proof (tagged_bound l i Hsh ltac:(lia) ltac:(lia)) as Htb. unfold bound. rewrite Esh, Ect, Ht, s32_small by lia.
    rewrite Ht in Htb. rewrite <- Eq in Htb. assert (0 < 2 ^ fl_tag_shift l) by lia. nia. }
  destruct (IH (i + 1) l1 (w :: vs)) as (l' & vs' & E' & R1 & R2 & R3 & R4 & R5 & R6 & R7); try done; try lia.
  - rewrite Ei, Hp. rewrite (seqZ_app 0 i 1) by lia. simpl. change (seqZ (0 + i) 1) with [0 + i]. solve_Permutation.
  - rewrite Ect, Ht, s32_small; lia.
  - destruct Hlo as [L1 L2]. split.
    + intros [|]; simpl; [rewrite Est; specialize (L1 Stored); simpl in L1; lia|]. destruct Hc1 as (-> & _). done.
    + rewrite Etab. apply Forall_insert; [|simpl; specialize (L1 Empty); simpl in L1; lia].
      eapply Forall_impl; [exact L2|]. simpl. lia.
  - exists l', vs'. split_and!; try done. lia.
Qed.

Lemma fl_new_inv size n : 0 <= size <= 2 ^ 30 ->
  exists l, pa_flist_new size = Ok l /\ low l /\ 0 < fl_current_tag l /\ fl_size l = (if size =? 0 then FLIST_SIZE else size) /\
    exists C, fl_inv (mk_flsys l (replicate n Idle) [] [] []) C.
Proof.
  intros Hs. unfold pa_flist_new. set (sz := if size =? 0 then FLIST_SIZE else size).
  assert (0 < sz <= 2 ^ 30) as Hsz by (unfold sz, FLIST_SIZE; destruct (Z.eqb_spec size 0); lia). clearbody sz.
  rewrite (s32_small sz) by lia. destruct (shift_loop_spec 31 sz 0 Hsz) as [H1 H2]; [lia|lia|]. set (s := shift_loop 31 sz 0) in *. clearbody s.
  rewrite Z.shiftl_1_l. set (l0 := mk_flist _ _ _ _ _ _ _ _).
  assert (shape l0) as Hsh.
  { split; simpl; unfold INT_MAX; rewrite ?length_replicate; lia. }
  destruct (new_loop_spec (Z.to_nat sz) 0 l0 []) as (l & vs & E & R1 & R2 & R3 & R4 & R5 & R6 & R7); try done; try (simpl; lia).
  { assert (0 < 2 ^ s) by (apply Z.pow_pos_nonneg; lia). split; [intros [|]; unfold bound; simpl; lia|].
    simpl. apply Forall_replicate. unfold bound. simpl. lia. }
  exists l. simpl in R7. split_and!; try done; [lia|].
  exists (fun k => match k with Stored => [] | Empty => vs end). split; simpl; try done.
  - intros [|]; simpl; [by rewrite R4|done].
  - rewrite bag_replicate, app_nil_r by done. done.
  - intros t Ht. apply elem_of_replicate in Ht as [-> _]. done.
  - intros t t' w Ht. apply elem_of_replicate in Ht as [-> _]. done.
  - by rewrite bag_replicate.
Qed.

Lemma inv_push_call s C j p : fl_inv s C -> fs_threads s !! j = Some Idle ->
  fl_inv (mk_flsys (fs_list s) (<[j := PushPop p PopLoad]> (fs_threads s)) (p :: fs_given s) (fs_refused s) (fs_got s)) C.
Proof.
  intros [H1 H2 H3 H4 H5 H6] Ej. split; simpl; try done.
  - destruct (bag_move (fun t => option_list (owned t)) (fun t => option_list (owned t)) _ j Idle (PushPop p PopLoad) Ej) as (r & Er & Er' & _); [done|].
    rewrite Er'. rewrite Er in H3. exact H3.
  - intros t2 [->|(j2 & Hne & E2)]%other_thread; [done|]. apply H4. by apply list_elem_of_lookup_2 in E2.
  - intros t2 t3 w [->|(j2 & Hne2 & E2)]%other_thread [->|(j3 & Hne3 & E3)]%other_thread Em Eh; try done.
    apply (H5 t2 t3 w); [by eapply list_elem_of_lookup_2..|done|done].
  - destruct (bag_move (flight (fs_list s)) (flight (fs_list s)) _ j Idle (PushPop p PopLoad) Ej) as (r & Er & Er' & _); [done|].
    rewrite H6, Er, Er'. simpl. solve_Permutation.
Qed.

Lemma fl_reach_inv size n s : 0 <= size <= 2 ^ 30 -> fl_reach not_round size n s -> exists C, fl_inv s C.
Proof.
  intros Hs. induction 1 as [l E|s s' _ [C H] Hst].
  - destruct (fl_new_inv size n Hs) as (l' & E' & _ & _ & _ & C & H). rewrite E in E'. apply Ok_inj in E' as <-. by exists C.
  - destruct Hst as [s j p t Ej Et|s j Ej|s j t t' a l Ej Hg Et].
    + exists C. unfold pa_flist_push in Et. inv_bind. by apply inv_push_call.
    + exists C. by apply (inv_quiet s C j Idle pa_flist_pop None H Ej); auto.
    + destruct (thread_runs s C j t H Ej) as (t1 & a1 & l1 & E1 & Hi). rewrite Et in E1. injection E1 as <- <- <-. by apply Hi.
Qed.

(** ** The first round of tags *)

Definition low_pop (l : pa_flist) (p : pop_state) : Prop :=
  match p with PopLoad => True | PopNext v => v < bound l | PopCas v n => v < bound l /\ n < bound l end.
Definition low_push (l : pa_flist) (q : push_state) : Prop :=
  match q with PushInc => True | PushLoad w => w < bound l | PushStore w n | PushCas w n => w < bound l /\ n < bound l end.
Definition low_thread (l : pa_flist) (t : thread) : Prop :=
  match t with PushPop _ p | TakePop p => low_pop l p | PushPush _ _ q | TakePush _ _ q => low_push l q | _ => True end.

Lemma low_mono l l' t : bound l <= bound l' -> low_thread l t -> low_thread l' t.
Proof. intros Hb. destruct t as [|? [| |]|? ?|? ? [| | |]|[| |]|?|? ? [| | |]]; simpl; lia. Qed.

Lemma low_set_head k v l : low l -> v < bound l -> low (set_head k v l).
Proof.
  intros [L1 L2] Hv. assert (bound (set_head k v l) = bound l) as Eb by (by destruct k). split; rewrite ?Eb; [|by destruct k].
  intros k'. rewrite head_set_head. case_decide; [done|apply L1].
Qed.

Lemma low_set_elem i e l : low l -> e_next e < bound l -> low (set_elem i e l).
Proof. intros [L1 L2] He. split; [exact L1|]. by apply Forall_insert. Qed.

Lemma low_pop_step k p l r l' : pop_step k p l = Ok (r, l') -> low l -> low_pop l p ->
  bound l' = bound l /\ low l' /\ match r with inl p' => low_pop l' p' | inr _ => True end.
Proof.
  intros E Hlo Hp. destruct p as [|v|v n]; simpl in *.
  - destruct (head k l <? 0); simplify_eq; split_and!; try done. simpl. apply Hlo.
  - destruct (elem_at l (index l v)) as [e|] eqn:Ee; [|done]. simpl in E. simplify_eq. split_and!; try done. simpl. split; [done|].
    exact (Forall_lookup_1 _ _ _ _ (lo_table _ Hlo) Ee).
  - destruct (head k l =? v); simplify_eq; split_and!; try done; try (by destruct k). apply low_set_head; [done|apply Hp].
Qed.

Lemma low_push_step k i q l r l' : push_step k i q l = Ok (r, l') -> shape l -> 0 <= i < fl_size l -> low l -> low_push l q ->
  (q = PushInc -> 0 <= fl_current_tag l < 2 ^ 31) -> 0 <= fl_current_tag l' ->
  bound l <= bound l' /\ low l' /\ match r with Some q' => low_push l' q' | None => True end.
Proof.
  intros E Hsh Hi Hlo Hq Hct Hct'. destruct q as [|w|w n|w n]; simpl in *.
  - rename E into E0. specialize (Hct eq_refl). pose proof (tagged_bound l i Hsh Hi ltac:(lia)) as Htb. pose proof (sh_shift _ Hsh).
    assert (0 < 2 ^ fl_tag_shift l) by (apply Z.pow_pos_nonneg; lia).
    destruct (_ && _); [|done]. simpl in E0. injection E0 as <- <-. simpl in Hct'.
    assert (s32 (fl_current_tag l + 1) = fl_current_tag l + 1 \/ s32 (fl_current_tag l + 1) < 0) as [Es|Es]; [|rewrite Es|lia].
    { destruct (decide (fl_current_tag l + 1 < 2 ^ 31)); [left; apply s32_small; lia|right].
      replace (fl_current_tag l + 1) with (2 ^ 31) by lia. by vm_compute. }
    assert (bound l <= bound (set_current_tag (fl_current_tag l + 1) l)) as Hb by (unfold bound; simpl; nia).
    split_and!; [done| |].
    2:{ change (tagged l i < 2 ^ fl_tag_shift l * Z.max 1 (fl_current_tag l + 1)). rewrite Z.max_r by lia. exact Htb. }
    destruct Hlo as [L1 L2].
    split; [intros k'; specialize (L1 k'); change (head k' (set_current_tag (fl_current_tag l + 1) l)) with (head k' l); lia|].
    eapply Forall_impl; [exact L2|]. simpl. intros e He. lia.
  - injection E as <- <-. split_and!; try done. simpl. split; [done|apply Hlo].
  - destruct (elem_at l i) as [e|] eqn:Ee; [|done]. simpl in E. injection E as <- <-. split_and!; try done. apply low_set_elem; [done|apply Hq].
  - destruct (head k l =? n); injection E as <- <-; split_and!; try done; [by destruct k|apply low_set_head; [done|apply Hq]|apply Hq].
Qed.

Lemma pop_tag k p l r l' : pop_step k p l = Ok (r, l') -> fl_current_tag l' = fl_current_tag l.
Proof.
  intros E. destruct p as [|v|v n]; simpl in E.
  - destruct (head k l <? 0); by simplify_eq.
  - destruct (elem_at l (index l v)); by simplify_eq/=.
  - destruct (head k l =? v); simplify_eq; by destruct k.
Qed.

Lemma push_tag k i q l r l' : push_step k i q l = Ok (r, l') -> q = PushInc \/ fl_current_tag l' = fl_current_tag l.
Proof.
  intros E. destruct q as [|w|w n|w n]; simpl in E; [by left|right..].
  - by simplify_eq.
  - destruct (elem_at l i); by simplify_eq/=.
  - destruct (head k l =? n); simplify_eq; by destruct k.
Qed.

(** Both for a step after which the tags have not overflowed. *)
Lemma low_pops k p l r l' : pop_step k p l = Ok (r, l') -> 0 <= fl_current_tag l' ->
  0 <= fl_current_tag l /\ (low l -> low_pop l p -> bound l <= bound l' /\ low l' /\ match r with inl p' => low_pop l' p' | inr _ => True end).
Proof.
  intros Ep Hc. pose proof (pop_tag _ _ _ _ _ Ep) as Et. split; [lia|].
  intros L1 L2. destruct (low_pop_step k p _ r l' Ep L1 L2) as (Eb & L3 & L4). split_and!; [lia|done..].
Qed.

Lemma low_pushes k i q l r l' : shape l -> 0 <= i < fl_size l -> (q = PushInc -> 0 <= fl_current_tag l < 2 ^ 31) ->
  push_step k i q l = Ok (r, l') -> 0 <= fl_current_tag l' ->
  0 <= fl_current_tag l /\ (low l -> low_push l q -> bound l <= bound l' /\ low l' /\ match r with Some q' => low_push l' q' | None => True end).
Proof.
  intros Hsh Hi Hinc Ep Hc. split; [destruct (push_tag _ _ _ _ _ _ Ep) as [->| <-]; [by apply Hinc|done]|].
  intros L1 L2. by apply (low_push_step k i q _ r l' Ep).
Qed.

Definition low_sys (s : flsys) : Prop :=
  fl_current_tag (fs_list s) <> 0 /\ (0 <= fl_current_tag (fs_list s) -> low (fs_list s) /\ forall t, t ∈ fs_threads s -> low_thread (fs_list s) t).

Lemma tag_moves s C j t t' a l : fl_inv s C -> fs_threads s !! j = Some t -> first_round t s -> thread_step t (fs_list s) = Ok (t', a, l) ->
  fl_current_tag (fs_list s) <> 0 -> fl_current_tag l <> 0.
Proof.
  intros H Ej Hfr E Hnz. pose proof (sh_shift _ (fi_shape _ _ H)).
  assert (2 ^ (31 - fl_tag_shift (fs_list s)) <= 2 ^ 31) by (apply Z.pow_le_mono_r; lia).
  assert (forall v, draws t (fs_list s) = Some v -> 0 <= fl_current_tag (fs_list s) < 2 ^ 31) as Hinc
    by (intros v Ed; specialize (Hfr _ Ed); lia).
  assert (forall k i q r l1, push_step k i q (fs_list s) = Ok (r, l1) -> (q = PushInc -> 0 <= fl_current_tag (fs_list s) < 2 ^ 31) ->
    fl_current_tag l1 <> 0) as Hpush.
  { intros k i q r l1 Ep Hq. destruct (push_tag _ _ _ _ _ _ Ep) as [->| ->]; [|done]. specialize (Hq eq_refl). simpl in Ep.
    destruct (_ && _); [|done]. simpl in Ep. injection Ep as <- <-. simpl.
    destruct (decide (fl_current_tag (fs_list s) + 1 < 2 ^ 31)); [rewrite s32_small; lia|].
    replace (fl_current_tag (fs_list s) + 1) with (2 ^ 31) by lia. by vm_compute. }
  destruct t as [|p q|p i|p i q|q|i|p i q]; simpl in E.
  - by simplify_eq.
  - destruct (pop_step Empty q (fs_list s)) as [[r l1]| |] eqn:Ep; try done. rewrite <- (pop_tag _ _ _ _ _ Ep) in Hnz.
    destruct r as [?|[?|]]; by simplify_eq/=.
  - destruct (elem_at (fs_list s) i); [|done]. by simplify_eq/=.
  - destruct (push_step Stored i q (fs_list s)) as [[r l1]| |] eqn:Ep; try done.
    assert (fl_current_tag l1 <> 0) by (apply (Hpush _ _ _ _ _ Ep); intros ->; by eapply Hinc). destruct r; by simplify_eq/=.
  - destruct (pop_step Stored q (fs_list s)) as [[r l1]| |] eqn:Ep; try done. rewrite <- (pop_tag _ _ _ _ _ Ep) in Hnz.
    destruct r as [?|[?|]]; by simplify_eq/=.
  - destruct (elem_at (fs_list s) i); [|done]. by simplify_eq/=.
  - destruct (push_step Empty i q (fs_list s)) as [[r l1]| |] eqn:Ep; try done.
    assert (fl_current_tag l1 <> 0) by (apply (Hpush _ _ _ _ _ Ep); intros ->; by eapply Hinc). destruct r; by simplify_eq/=.
Qed.

(** What a thread does to the tags. *)
Lemma low_step s C j t t' a l : fl_inv s C -> low_sys s -> fs_threads s !! j = Some t -> first_round t s ->
  thread_step t (fs_list s) = Ok (t', a, l) ->
  low_sys (mk_flsys l (<[j := t']> (fs_threads s)) (fs_given s) (refused a ++ fs_refused s) (got a ++ fs_got s)).
Proof.
  intros H [Hnz Hlo] Ej Hfr E.
  split; [by apply (tag_moves s C j t t' a l)|]. simpl. intros Hct.
  assert (forall i, owned t = Some i -> 0 <= i < fl_size (fs_list s)) as Hown by (intros i Eo; by apply (owned_alone s C j t i)).
  pose proof (fi_shape _ _ H) as Hsh. pose proof (sh_shift _ Hsh).
  assert (2 ^ (31 - fl_tag_shift (fs_list s)) <= 2 ^ 31) by (apply Z.pow_le_mono_r; lia).
  enough (0 <= fl_current_tag (fs_list s) /\ (low (fs_list s) -> low_thread (fs_list s) t ->
    bound (fs_list s) <= bound l /\ low l /\ low_thread l t')) as [Hc Hm].
  { destruct (Hlo Hc) as [L1 L2]. destruct (Hm L1) as (Hb & L3 & L4); [apply L2; by eapply list_elem_of_lookup_2|].
    split; [done|]. simpl. intros t2 [->|(j2 & Hne & E2)]%other_thread; [done|]. eapply low_mono; [exact Hb|]. apply L2. by eapply list_elem_of_lookup_2. }
  assert (forall v, draws t (fs_list s) = Some v -> 0 <= fl_current_tag (fs_list s) < 2 ^ 31) as Hinc
    by (intros v Ed; specialize (Hfr _ Ed); lia).
  destruct t as [|p q|p i|p i q|q|i|p i q]; simpl in E.
  - simplify_eq. split; [done|]. intros. split_and!; done || lia.
  - destruct (pop_step Empty q (fs_list s)) as [[r l1]| |] eqn:Ep; try done. simpl in E.
    assert (l1 = l) as -> by (destruct r as [?|[?|]]; by simplify_eq). destruct (low_pops _ _ _ _ _ Ep Hct) as [Ha Hm]. split; [done|].
    intros L1 L2. destruct (Hm L1 L2) as (? & ? & Hr). destruct r as [?|[?|]]; simplify_eq; by split_and!.
  - destruct (elem_at (fs_list s) i) as [e|] eqn:Ee; [|done]. simpl in E. simplify_eq. split; [done|]. intros L1 _. split_and!; try done.
    apply low_set_elem; [done|]. exact (Forall_lookup_1 _ _ _ _ (lo_table _ L1) Ee).
  - destruct (push_step Stored i q (fs_list s)) as [[r l1]| |] eqn:Ep; try done. simpl in E.
    assert (l1 = l) as -> by (destruct r; by simplify_eq). destruct (low_pushes Stored i q _ r l Hsh (Hown i eq_refl)) as [Ha Hm]; [intros ->; by eapply Hinc|done..|]. split; [done|].
    intros L1 L2. destruct (Hm L1 L2) as (? & ? & Hr). destruct r; simplify_eq; by split_and!.
  - destruct (pop_step Stored q (fs_list s)) as [[r l1]| |] eqn:Ep; try done. simpl in E.
    assert (l1 = l) as -> by (destruct r as [?|[?|]]; by simplify_eq). destruct (low_pops _ _ _ _ _ Ep Hct) as [Ha Hm]. split; [done|].
    intros L1 L2. destruct (Hm L1 L2) as (? & ? & Hr). destruct r as [?|[?|]]; simplify_eq; by split_and!.
  - destruct (elem_at (fs_list s) i) as [e|] eqn:Ee; [|done]. simpl in E. simplify_eq. by split.
  - destruct (push_step Empty i q (fs_list s)) as [[r l1]| |] eqn:Ep; try done. simpl in E.
    assert (l1 = l) as -> by (destruct r; by simplify_eq). destruct (low_pushes Empty i q _ r l Hsh (Hown i eq_refl)) as [Ha Hm]; [intros ->; by eapply Hinc|done..|]. split; [done|].
    intros L1 L2. destruct (Hm L1 L2) as (? & ? & Hr). destruct r; simplify_eq; by split_and!.
Qed.

Lemma low_call s j t' given : low_sys s -> low_thread (fs_list s) t' ->
  low_sys (mk_flsys (fs_list s) (<[j := t']> (fs_threads s)) given (fs_refused s) (fs_got s)).
Proof.
  intros [Hnz Hlo] Ht. split; [done|]. intros Hct. destruct (Hlo Hct) as [L1 L2]. split; [done|]. simpl.
  intros t2 [->|(j2 & _ & E2)]%other_thread; [done|]. apply L2. by eapply list_elem_of_lookup_2.
Qed.

(** In the first round a tag tells apart what is made up from what was loaded. *)
Lemma first_not_round s C j t : fl_inv s C -> low_sys s -> fs_threads s !! j = Some t -> first_round t s -> not_round t s.
Proof.
  intros H [Hnz Hlo] Ej Hfr v t2 Ed Hin Eh. specialize (Hfr v Ed). destruct (Hlo ltac:(lia)) as [_ L2]. specialize (L2 t2 Hin).
  pose proof (sh_shift _ (fi_shape _ _ H)). assert (0 < 2 ^ fl_tag_shift (fs_list s)) by (apply Z.pow_pos_nonneg; lia).
  assert (v < bound (fs_list s)) as Hv.
  { destruct t2 as [|? [| |]|? ?|? ? [| | |]|[| |]|?|? ? [| | |]]; simpl in *; simplify_eq; try done; apply L2. }
  assert (exists i, owned t = Some i /\ v = tagged (fs_list s) i) as (i & Eo & Ev).
  { destruct t as [|? [| |]|? ?|? i [| | |]|[| |]|?|? i [| | |]]; simpl in *; simplify_eq; by exists i. }
  destruct (owned_alone s C j t i H Ej Eo) as (Hi & _). rewrite Ev, tagged_eq, Z.mod_small in Hv by (done || apply H).
  unfold bound in Hv. nia.
Qed.

Lemma first_reach size n s : 0 <= size <= 2 ^ 30 -> fl_reach first_round size n s -> fl_reach not_round size n s /\ low_sys s.
Proof.
  intros Hs. induction 1 as [l E|s s' _ [Hr Hlo] Hst].
  - split; [by apply fl_new|]. destruct (fl_new_inv size n Hs) as (l' & E' & Hl & Ht & _). rewrite E in E'. apply Ok_inj in E' as <-.
    split; simpl; [lia|]. intros _. split; [done|]. intros t Hin. apply elem_of_replicate in Hin as [-> _]. done.
  - destruct (fl_reach_inv size n s Hs Hr) as [C H]. destruct Hst as [s j p t Ej Et|s j Ej|s j t t' a l Ej Hg Et].
    + split; [eapply fl_next; [exact Hr|by econstructor]|]. apply low_call; [done|]. unfold pa_flist_push in Et. by inv_bind.
    + split; [eapply fl_next; [exact Hr|by econstructor]|]. by apply low_call.
    + split; [|by eapply low_step]. eapply fl_next; [exact Hr|]. econstructor; [exact Ej| |exact Et]. by eapply first_not_round.
Qed.

(** ** Looking at the list *)

(** The pointers on the stack with head [h]. *)
Fixpoint walk (fuel : nat) (l : pa_flist) (h : Z) : list Z :=
  match fuel with
  | O => []
  | S fuel =>
      if h <? 0 then []
      else match elem_at l (index l h) with Some e => e_ptr e :: walk fuel l (e_next e) | None => [] end
  end.
Definition stored_ptrs (l : pa_flist) : list Z := walk (length (fl_table l)) l (fl_stored l).

Lemma walk_chain l vs : forall fuel h, chain l h vs -> (length vs <= fuel)%nat -> walk fuel l h = ptrs l vs /\ length (ptrs l vs) = length vs.
Proof.
  induction vs as [|v vs IH]; intros fuel h Hc Hf; simpl in Hc.
  - split; [|done]. destruct fuel; [done|]. simpl. by rewrite (proj2 (Z.ltb_lt _ _) Hc).
  - destruct Hc as (-> & [Hv _] & n & En & Hc). destruct fuel as [|fuel]; [simpl in Hf; lia|]. simpl in Hf. cbn [walk].
    rewrite (proj2 (Z.ltb_ge _ _) Hv). unfold next_at in En. destruct (elem_at l (index l v)) as [e|] eqn:Ee; [|done]. simpl in En. injection En as ->.
    destruct (IH fuel n Hc ltac:(lia)) as [E1 E2]. assert (ptr_at l (index l v) = Some (e_ptr e)) as Ep by (unfold ptr_at; by rewrite Ee).
    rewrite (ptrs_cons _ _ _ _ Ep), E1. simpl. split; [done|lia].
Qed.

Lemma part_length s C : fl_inv s C ->
  Z.of_nat (length (C Stored) + length (C Empty) + length (bag (fun t => option_list (owned t)) (fs_threads s))) = fl_size (fs_list s).
Proof.
  intros H. pose proof (Permutation_length (fi_part _ _ H)) as E. pose proof (sh_size _ (fi_shape _ _ H)).
  rewrite !length_app, !length_fmap, length_seqZ in E. lia.
Qed.

Lemma stored_spec s C : fl_inv s C -> stored_ptrs (fs_list s) = ptrs (fs_list s) (C Stored) /\
  length (stored_ptrs (fs_list s)) = length (C Stored).
Proof.
  intros H. pose proof (part_length s C H). pose proof (sh_table _ (fi_shape _ _ H)).
  destruct (walk_chain _ _ (length (fl_table (fs_list s))) _ (fi_chain _ _ H Stored)) as [E1 E2]; [lia|].
  unfold stored_ptrs. simpl in E1. by rewrite E1.
Qed.

(** [pa_flist_free], with nobody else about. *)
Lemma free_loop_spec vs : forall fuel l, chain l (fl_stored l) vs -> (length vs <= fuel)%nat -> free_loop fuel l = Ok (ptrs l vs).
Proof.
  induction vs as [|v vs IH]; intros fuel l Hc Hf.
  - simpl in Hc. assert (stack_pop Stored l = Ok (None, l)) as E by (unfold stack_pop; simpl; by rewrite (proj2 (Z.ltb_lt _ _) Hc)).
    destruct fuel; simpl; by rewrite E.
  - destruct fuel as [|fuel]; [simpl in Hf; lia|]. destruct Hc as (Eh & [Hv _] & n & En & Hc). unfold next_at in En.
    destruct (elem_at l (index l v)) as [e|] eqn:Ee; [|done]. simpl in En. injection En as <-.
    assert (stack_pop Stored l = Ok (Some (index l v), set_head Stored (e_next e) l)) as E.
    { unfold stack_pop. simpl. rewrite Eh, (proj2 (Z.ltb_ge _ _) Hv). simpl. rewrite Ee. simpl. by rewrite Eh, Z.eqb_refl. }
    pose proof (IH fuel (set_head Stored (e_next e) l)) as Hl. rewrite (ptrs_head Stored) in Hl.
    pose proof (set_head_elem Stored (e_next e) l (index l v)) as Ee'.
    specialize (Hl ltac:(by apply chain_set_head) ltac:(simpl in Hf; lia)).
    set (l' := set_head Stored (e_next e) l) in *. clearbody l'. cbn [free_loop].
    rewrite (ptrs_cons l v vs (e_ptr e)) by (unfold ptr_at; by rewrite Ee). rewrite E. simpl. rewrite Ee', Ee. simpl. by rewrite Hl.
Qed.

(** ** Claims *)

(** C27: however many threads push and pop, and however their atomic operations
    interleave, no step reads outside the table or fails an assertion, and no
    pointer is lost or handed out twice: those given to [pa_flist_push] are,
    counted with multiplicity, the ones it refused, the ones calls in progress
    have in hand, the ones on the stack and the ones [pa_flist_pop] returned.  A
    pointer is only refused when every element of the table is in use.  When all
    calls have returned, [pa_flist_free] frees exactly the pointers on the stack.
    This needs that no thread sleeps in [stack_pop] until the tags have gone all
    the way round and meet the index it waits with. *)
Theorem flist_conserves size n s : 0 <= size <= 2 ^ 30 -> fl_reach not_round size n s ->
  Forall (fun t => is_ok (thread_step t (fs_list s)) = true) (fs_threads s) /\
  fs_given s ≡ₚ fs_refused s ++ bag (flight (fs_list s)) (fs_threads s) ++ stored_ptrs (fs_list s) ++ fs_got s /\
  (forall t p l, t ∈ fs_threads s -> thread_step t (fs_list s) = Ok (Idle, Some (Pushed p (-1)), l) ->
     Z.of_nat (length (stored_ptrs (fs_list s)) + length (bag (fun t => option_list (owned t)) (fs_threads s))) = fl_size (fs_list s)) /\
  (Forall (eq Idle) (fs_threads s) -> pa_flist_free true (fs_list s) = Ok (stored_ptrs (fs_list s))).
Proof.
  intros Hs Hr. destruct (fl_reach_inv size n s Hs Hr) as [C H]. destruct (stored_spec s C H) as [E1 E2]. split_and!.
  - apply Forall_lookup. intros j t Ej. destruct (thread_runs s C j t H Ej) as (t' & a & l' & E & _). by rewrite E.
  - rewrite E1. apply H.
  - intros t p l (j & Ej)%list_elem_of_lookup E. pose proof (part_length s C H). rewrite E2.
    destruct t as [|p' q|p' i|p' i q|q|i|p' i q]; simpl in E; try done.
    + destruct (pop_runs (PushPop p') Empty) with (s := s) (C := C) (j := j) (p := q) as (r & l' & E' & Hr'); try done.
      rewrite E' in E. simpl in E. destruct r as [?|[?|]]; simplify_eq. destruct Hr' as [_ Ec]. rewrite Ec in *. simpl in *. lia.
    + destruct (elem_at (fs_list s) i); by simplify_eq/=.
    + destruct (push_step Stored i q (fs_list s)) as [[[?|] ?]| |]; by simplify_eq/=.
    + destruct (pop_step Stored q (fs_list s)) as [[[?|[?|]] ?]| |]; by simplify_eq/=.
    + destruct (elem_at (fs_list s) i); by simplify_eq/=.
    + destruct (push_step Empty i q (fs_list s)) as [[[?|] ?]| |]; by simplify_eq/=.
  - intros _. unfold pa_flist_free. rewrite E1. apply free_loop_spec; [apply (fi_chain _ _ H Stored)|].
    pose proof (part_length s C H). pose proof (sh_table _ (fi_shape _ _ H)). lia.
Qed.

(** The condition holds by itself until as many tags were drawn as there are:
    with a table of 256 elements, for the first eight million pushes and pops. *)
Theorem flist_first_round size n s : 0 <= size <= 2 ^ 30 -> fl_reach first_round size n s -> fl_reach not_round size n s.
Proof. intros Hs Hr. by apply (first_reach size n s Hs Hr). Qed.

(** Tags that are 2^(31 - shift) apart are the same. *)
Lemma tags_go_round l i k : shape l -> 0 <= i < fl_size l ->
  tagged (set_current_tag (fl_current_tag l + k * 2 ^ (31 - fl_tag_shift l)) l) i = tagged l i.
Proof. intros H Hi. rewrite !tagged_eq by (done || by destruct H). simpl. by rewrite Z_mod_plus_full. Qed.

(** ** One thread *)

Module FlistExample.
(** [k] steps of the only thread. *)
Fixpoint runs (k : nat) (s : flsys) : option flsys :=
  match k with
  | O => Some s
  | S k =>
      match fs_threads s with
      | [t] =>
          match thread_step t (fs_list s) with
          | Ok (t', a, l) => runs k (mk_flsys l [t'] (fs_given s) (refused a ++ fs_refused s) (got a ++ fs_got s))
          | _ => None
          end
      | _ => None
      end
  end.

Lemma alone_reach size k : forall s s', fl_reach not_round size 1 s -> runs k s = Some s' -> fl_reach not_round size 1 s'.
Proof.
  induction k as [|k IH]; intros s s' Hr E; simpl in E; [by simplify_eq|].
  destruct (fs_threads s) as [|t [|]] eqn:Et; try done. destruct (thread_step t (fs_list s)) as [[[t' a] l]| |] eqn:Es; try done.
  eapply IH; [|exact E]. eapply fl_next; [exact Hr|].
  replace [t'] with (<[0%nat := t']> (fs_threads s)) by (by rewrite Et). apply (fl_run _ s 0 t); [by rewrite Et| |done].
  intros v t2 Ed Hin Eh. rewrite Et in Hin. apply list_elem_of_singleton in Hin as ->.
  by destruct t as [|? [| |]|? ?|? ? [| | |]|[| |]|?|? ? [| | |]].
Qed.

(** A list of four elements that 77 is pushed to. *)
Definition l4 : pa_flist := match pa_flist_new 4 with Ok l => l | _ => mk_flist 0 0 0 0 0 0 0 [] end.
Definition s_called : flsys := mk_flsys l4 [PushPop 77 PopLoad] [77] [] [].
Definition s_pushed : flsys := default s_called (runs 8 s_called).

Lemma called_reach size l p t : pa_flist_new size = Ok l -> pa_flist_push p = Ok t ->
  fl_reach not_round size 1 (mk_flsys l [t] [p] [] []).
Proof.
  intros E Et. eapply fl_next; [by apply (fl_new _ _ 1)|]. exact (fl_push _ (mk_flsys l [Idle] [] [] []) 0 p t eq_refl Et).
Qed.

Lemma pushed_reach : fl_reach not_round 4 1 s_pushed.
Proof.
  apply (alone_reach 4 8 s_called); [|by vm_compute]. apply called_reach; [|done]. vm_compute. reflexivity.
Qed.
End FlistExample.
Import FlistExample.

Lemma flist_conserves_witness : fl_reach not_round 4 1 s_pushed /\ fs_given s_pushed = [77] /\ stored_ptrs (fs_list s_pushed) = [77] /\
  pa_flist_free true (fs_list s_pushed) = Ok [77] /\ [77] ≡ₚ fs_refused s_pushed ++ [] ++ [77] ++ fs_got s_pushed.
Proof.
  destruct (flist_conserves 4 1 s_pushed) as (_ & Hp & _ & Hf); [lia|exact pushed_reach|].
  assert (stored_ptrs (fs_list s_pushed) = [77]) as Es by (by vm_compute).
  assert (bag (flight (fs_list s_pushed)) (fs_threads s_pushed) = []) as Eb by (by vm_compute).
  assert (fs_given s_pushed = [77]) as Eg by (by vm_compute). rewrite Es, Eb, Eg in Hp. rewrite Es in Hf.
  split; [exact pushed_reach|]. split; [exact Eg|]. split; [exact Es|]. split; [|exact Hp]. apply Hf. vm_compute. repeat constructor.
Defined.
