(* ===== verification/Asyncmsgq.v ===== *)
(** * Asyncmsgq: messages between threads

    Models [src/pulsecore/asyncmsgq.c] on top of the queue of [Asyncq]: any
    number of threads post and send messages, one thread takes them, has them
    processed and answers.  A posted message is a block of memory with references
    to an object and a memory block; a sent one lies on the stack of its sender,
    who waits on a semaphore for the answer.

    Every access to what threads share is a step, those of the queue included.
    Mutexes and semaphores are those of POSIX.  The memory of messages comes from
    [malloc] or a free list, and what either gives is not in use ([Flist]); whether
    the free list of semaphores has one, or room for one, is left open. *)
From stdpp Require Import functions base tactics numbers list gmap.
From S2P Require Import Prelude Memblock Fdsem Asyncq.

(** ** Data *)

(** Things with a reference counter that a message refers to. *)
Inductive res := Obj (p : Z) | Blk (p : Z).

#[export] Instance res_eq_dec : EqDecision res.
Proof. solve_decision. Defined.

Record asyncmsgq_item := mk_item {
  it_code : Z;
  it_object : option Z;
  it_userdata : Z;
  it_free_cb : option Z;
  it_offset : Z;
  it_memchunk : pa_memchunk;
  it_semaphore : option Z;
  it_ret : Z
}.

Definition set_ret (r : Z) (i : asyncmsgq_item) : asyncmsgq_item :=
  mk_item (it_code i) (it_object i) (it_userdata i) (it_free_cb i) (it_offset i) (it_memchunk i) (it_semaphore i) r.

(** The queue, and the memory its users share: [ms_q] has the queue with the
    points its two users are at, [ms_items] the messages that exist, wherever
    they lie, [ms_refs] the reference counters, [ms_freed] the calls of [free_cb]
    so far. *)
Record mstate := mk_mstate {
  ms_refcnt : Z;
  ms_q : asys;
  ms_mutex : option nat;
  ms_current : option Z;
  ms_items : gmap Z asyncmsgq_item;
  ms_sems : gmap Z Z;
  ms_sem_pool : list Z;            (* the free list "semaphores" *)
  ms_refs : res -> Z;
  ms_freed : list (Z * Z)
}.

Definition set_refcnt n (s : mstate) := mk_mstate n (ms_q s) (ms_mutex s) (ms_current s) (ms_items s)
  (ms_sems s) (ms_sem_pool s) (ms_refs s) (ms_freed s).
Definition set_q q (s : mstate) := mk_mstate (ms_refcnt s) q (ms_mutex s) (ms_current s) (ms_items s)
  (ms_sems s) (ms_sem_pool s) (ms_refs s) (ms_freed s).
Definition set_mutex m (s : mstate) := mk_mstate (ms_refcnt s) (ms_q s) m (ms_current s) (ms_items s)
  (ms_sems s) (ms_sem_pool s) (ms_refs s) (ms_freed s).
Definition set_current c (s : mstate) := mk_mstate (ms_refcnt s) (ms_q s) (ms_mutex s) c (ms_items s)
  (ms_sems s) (ms_sem_pool s) (ms_refs s) (ms_freed s).
Definition set_items i (s : mstate) := mk_mstate (ms_refcnt s) (ms_q s) (ms_mutex s) (ms_current s) i
  (ms_sems s) (ms_sem_pool s) (ms_refs s) (ms_freed s).
Definition set_sems m p (s : mstate) := mk_mstate (ms_refcnt s) (ms_q s) (ms_mutex s) (ms_current s) (ms_items s)
  m p (ms_refs s) (ms_freed s).
Definition set_refs r (s : mstate) := mk_mstate (ms_refcnt s) (ms_q s) (ms_mutex s) (ms_current s) (ms_items s)
  (ms_sems s) (ms_sem_pool s) r (ms_freed s).
Definition set_freed f (s : mstate) := mk_mstate (ms_refcnt s) (ms_q s) (ms_mutex s) (ms_current s) (ms_items s)
  (ms_sems s) (ms_sem_pool s) (ms_refs s) f.

(** [pa_msgobject_ref], [pa_memblock_ref] and their opposites. *)
Definition res_ref (r : res) (s : mstate) : outcome mstate :=
  _ ← pa_assert (0 <? ms_refs s r);
  Ok (set_refs (<[r := ms_refs s r + 1]> (ms_refs s)) s).
Definition res_unref (r : res) (s : mstate) : outcome mstate :=
  _ ← pa_assert (0 <? ms_refs s r);
  Ok (set_refs (<[r := ms_refs s r - 1]> (ms_refs s)) s).

(** [if (p) f(p)] *)
Definition when {A} (f : A -> mstate -> outcome mstate) (o : option A) (s : mstate) : outcome mstate :=
  match o with Some a => f a s | None => Ok s end.

Definition get_item (s : mstate) (i : Z) : outcome asyncmsgq_item := deref (ms_items s !! i).

(** [PA_REFCNT_VALUE(a) > 0]; without references the queue is gone. *)
Definition in_use (s : mstate) : outcome unit := if 0 <? ms_refcnt s then Ok tt else UB.

(** ** Creating and destroying *)

Definition pa_asyncmsgq_new (asyncq : option pa_asyncq) : option mstate :=
  match asyncq with
  | Some q => Some (mk_mstate 1 (asys_init q) None None ∅ ∅ [] (fun _ => 0) [])
  | None => None
  end.

(** The memory of a message is given back. *)
Definition free_item (i : Z) (s : mstate) : mstate := set_items (delete i (ms_items s)) s.

Definition call_free_cb (it : asyncmsgq_item) (cb : Z) (s : mstate) : outcome mstate :=
  Ok (set_freed (ms_freed s ++ [(cb, it_userdata it)]) s).

(** [pa_asyncq_pop] with [wait_op] false and nobody else about. *)
Fixpoint pop_alone (fuel : nat) (pc : reader_pc) (l : pa_asyncq) : outcome (option Z * pa_asyncq) :=
  match fuel with
  | O => UB
  | S fuel =>
      r ← reader_step pc l;
      match r with
      | None => UB
      | Some (RdIdle, l, ret) => Ok (ret, l)
      | Some (pc, l, _) => pop_alone fuel pc l
      end
  end.

(** The rounds of a pop: one cell, its index and the semaphore. *)
Definition pop_fuel : nat := 7.

Definition set_as_q (l : pa_asyncq) (q : asys) : asys := mk_asys l (as_reader q) (as_writer q) (as_sent q) (as_received q).

Definition free_one (i : Z) (s : mstate) : outcome mstate :=
  it ← get_item s i;
  _ ← pa_assert (bool_decide (it_semaphore it = None));
  s ← when (fun o => res_unref (Obj o)) (it_object it) s;
  s ← when (fun b => res_unref (Blk b)) (mc_memblock (it_memchunk it)) s;
  s ← when (call_free_cb it) (it_free_cb it) s;
  Ok (free_item i s).

Fixpoint free_items (fuel : nat) (s : mstate) : outcome mstate :=
  '(ret, l) ← pop_alone pop_fuel (RdLoad false) (as_q (ms_q s));
  let s := set_q (set_as_q l (ms_q s)) s in
  match ret with
  | None => Ok s
  | Some i =>
      match fuel with
      | O => UB
      | S fuel => s ← free_one i s; free_items fuel s
      end
  end.

(** [asyncmsgq_free]; [pa_asyncq_free] without a callback frees the entries of
    the overflow list and nothing they point to. *)
Definition asyncmsgq_free (s : mstate) : outcome mstate :=
  s ← free_items (length (aq_cells (as_q (ms_q s)))) s;
  Ok (set_q (set_as_q (set_localq [] None (as_q (ms_q s))) (ms_q s)) s).

Definition pa_asyncmsgq_ref (s : mstate) : outcome mstate :=
  _ ← in_use s;
  Ok (set_refcnt (ms_refcnt s + 1) s).

Definition pa_asyncmsgq_unref (s : mstate) : outcome mstate :=
  _ ← in_use s;
  let s := set_refcnt (ms_refcnt s - 1) s in
  if ms_refcnt s <=? 0 then asyncmsgq_free s else Ok s.

(** ** Senders *)

(** The arguments of [pa_asyncmsgq_post] and [pa_asyncmsgq_send]. *)
Record msg_args := mk_args {
  ma_object : option Z;
  ma_code : Z;
  ma_userdata : Z;
  ma_offset : Z;
  ma_chunk : option pa_memchunk
}.

Inductive kind := Post | Send.

(** [SLock] to [SUnlock]: with the mutex; [n] is the number of the message, for
    the record. *)
Inductive sender :=
| SIdle
| SLock (k : kind) (i : Z)
| SEnter (k : kind) (i : Z)              (* call pa_asyncq_post or pa_asyncq_push *)
| SIn (k : kind) (i : Z) (n : nat)       (* in that call *)
| SUnlock (k : kind) (i : Z) (n : nat)
| SWait (i : Z) (n : nat)                (* pa_semaphore_wait *)
| SReturn (i : Z) (n : nat).

(** The chunk as it is copied. *)
Definition chunk_arg (c : option pa_memchunk) : outcome pa_memchunk :=
  match c with
  | Some c => _ ← pa_assert (bool_decide (is_Some (mc_memblock c))); Ok c
  | None => Ok pa_memchunk_reset
  end.

(** [pa_asyncmsgq_post] up to the mutex.  [i]: the memory [pa_flist_pop] or
    [pa_xnew] gave; [junk]: what its field [ret] is. *)
Definition pa_asyncmsgq_post (i junk : Z) (a : msg_args) (free_cb : option Z) (s : mstate) : outcome (sender * mstate) :=
  _ ← in_use s;
  s ← when (fun o => res_ref (Obj o)) (ma_object a) s;
  c ← chunk_arg (ma_chunk a);
  s ← when (fun b => res_ref (Blk b)) (mc_memblock c) s;
  let it := mk_item (ma_code a) (ma_object a) (ma_userdata a) free_cb (ma_offset a) c None junk in
  Ok (SLock Post i, set_items (<[i := it]> (ms_items s)) s).

(** Where a semaphore comes from: the free list, or [pa_semaphore_new(0)]. *)
Inductive sem_from := FromPool (k : nat) | FromNew (x : Z).

Definition take_sem (f : sem_from) (s : mstate) : outcome (Z * mstate) :=
  match f with
  | FromPool k => x ← deref (ms_sem_pool s !! k); Ok (x, set_sems (ms_sems s) (delete k (ms_sem_pool s)) s)
  | FromNew x => Ok (x, set_sems (<[x := 0]> (ms_sems s)) (ms_sem_pool s) s)
  end.

(** [pa_asyncmsgq_send] up to the mutex; [i] is the address of its variable. *)
Definition pa_asyncmsgq_send (i : Z) (f : sem_from) (a : msg_args) (s : mstate) : outcome (sender * mstate) :=
  _ ← in_use s;
  c ← chunk_arg (ma_chunk a);
  '(x, s) ← take_sem f s;
  let it := mk_item (ma_code a) (ma_object a) (ma_userdata a) None (ma_offset a) c (Some x) (-1) in
  Ok (SLock Send i, set_items (<[i := it]> (ms_items s)) s).

(** The call of the queue. *)
Definition queue_cmd (k : kind) (i : Z) : writer_cmd := match k with Post => WPost i | Send => WPush i true end.

(** What a sender does after [pa_mutex_unlock]. *)
Definition unlocked (k : kind) (i : Z) (n : nat) : sender := match k with Post => SIdle | Send => SWait i n end.

(** The semaphore goes back to the free list, or is freed when that is full. *)
Definition give_sem (kept : bool) (x : Z) (s : mstate) : mstate :=
  if kept then set_sems (ms_sems s) (x :: ms_sem_pool s) s else set_sems (delete x (ms_sems s)) (ms_sem_pool s) s.

(** One step of thread [j]; [None]: it is blocked, or not in a call.  The last
    result: what [pa_asyncmsgq_send] returned.  A thread that calls the queue while another
    one is in such a call has undefined behaviour. *)
Definition sender_step (j : nat) (kept : bool) (pc : sender) (s : mstate) : outcome (option (sender * mstate * option Z)) :=
  match pc with
  | SIdle => Ok None
  | SLock k i =>
      _ ← in_use s;
      Ok (match ms_mutex s with Some _ => None | None => Some (SEnter k i, set_mutex (Some j) s, None) end)
  | SEnter k i =>
      _ ← in_use s;
      let q := ms_q s in
      w ← deref (writer_start (queue_cmd k i) (as_q q) (as_writer q));
      Ok (Some (SIn k i (length (as_sent q)), set_q (mk_asys (as_q q) (as_reader q) w (as_sent q ++ [i]) (as_received q)) s, None))
  | SIn k i n =>
      _ ← in_use s;
      let q := ms_q s in
      r ← writer_step (as_writer q) (as_q q);
      match r with
      | None => Ok None
      | Some (w, l, refused) =>
          _ ← pa_assert (negb refused);
          let s := set_q (mk_asys l (as_reader q) w (as_sent q) (as_received q)) s in
          Ok (Some (match w with WrIdle => SUnlock k i n | _ => SIn k i n end, s, None))
      end
  | SUnlock k i n =>
      _ ← in_use s;
      Ok (Some (unlocked k i n, set_mutex None s, None))
  | SWait i n =>
      it ← get_item s i;
      x ← deref (it_semaphore it);
      v ← deref (ms_sems s !! x);
      Ok (if 0 <? v then Some (SReturn i n, set_sems (<[x := v - 1]> (ms_sems s)) (ms_sem_pool s) s, None) else None)
  | SReturn i n =>
      it ← get_item s i;
      x ← deref (it_semaphore it);
      Ok (Some (SIdle, free_item i (give_sem kept x s), Some (it_ret it)))
  end.

(** ** The receiver *)

(** The call in progress; [OpGet]: [pa_asyncmsgq_get] and [pa_asyncmsgq_done]
    called one after the other. *)
Inductive rcv_op := OpGet (wait_op : bool) | OpProcessOne | OpWaitFor (code : Z) | OpFlush (run : bool).

Definition op_waits (op : rcv_op) : bool :=
  match op with OpGet w => w | OpWaitFor _ => true | OpProcessOne | OpFlush _ => false end.

(** What [pa_asyncmsgq_get] hands out. *)
Record msg_got := mk_got {
  mg_object : option Z;
  mg_code : Z;
  mg_userdata : Z;
  mg_offset : Z;
  mg_chunk : pa_memchunk
}.

Inductive receiver :=
| RIdle
| RPop (op : rcv_op)                    (* get: in pa_asyncq_pop *)
| RHave (op : rcv_op) (m : msg_got)     (* after get *)
| RDone (op : rcv_op) (c ret : Z)       (* done(ret), of a message with code c *)
| RPost (op : rcv_op) (c ret : Z)       (* done: pa_semaphore_post *)
| RClear (op : rcv_op) (c : Z).         (* done: current = NULL *)

(** [pa_asyncmsgq_get], up to the call of [pa_asyncq_pop]. *)
Definition pa_asyncmsgq_get (op : rcv_op) (s : mstate) : outcome (receiver * mstate) :=
  _ ← in_use s;
  _ ← pa_assert (bool_decide (ms_current s = None));
  let q := ms_q s in
  pc ← deref (reader_start (Asyncq.RPop (op_waits op)) (as_reader q));
  Ok (RPop op, set_q (mk_asys (as_q q) pc (as_writer q) (as_sent q) (as_received q)) s).

(** The start of each call. *)
Definition rcv_start (op : rcv_op) (s : mstate) : outcome (receiver * mstate) :=
  match op with
  | OpWaitFor _ => s ← pa_asyncmsgq_ref s; pa_asyncmsgq_get op s
  | _ => pa_asyncmsgq_get op s
  end.

(** [pa_asyncmsgq_get] after [pa_asyncq_pop] returned a message; [process_one] and [flush]
    take a reference then. *)
Definition get_fields (op : rcv_op) (i : Z) (s : mstate) : outcome (receiver * mstate) :=
  let s := set_current (Some i) s in
  it ← get_item s i;
  _ ← match it_object it with Some o => pa_assert (0 <? ms_refs s (Obj o)) | None => Ok tt end;
  s ← match op with OpProcessOne | OpFlush true => pa_asyncmsgq_ref s | _ => Ok s end;
  Ok (RHave op (mk_got (it_object it) (it_code it) (it_userdata it) (it_offset it) (it_memchunk it)), s).

Definition pa_asyncmsgq_dispatch (process_msg : Z -> Z -> Z -> Z -> option pa_memchunk -> Z) (m : msg_got) : Z :=
  match mg_object m with
  | Some o => process_msg o (mg_code m) (mg_userdata m) (mg_offset m) (if pa_memchunk_isset (mg_chunk m) then Some (mg_chunk m) else None)
  | None => 0
  end.

(** What the call does with a message it has: [pa_asyncmsgq_flush] may drop it,
    and a client of [pa_asyncmsgq_get] may answer [ret] itself. *)
Definition answer_of (process_msg : Z -> Z -> Z -> Z -> option pa_memchunk -> Z) (ret : Z) (op : rcv_op) (m : msg_got) : Z :=
  match op with
  | OpFlush false => -1
  | OpGet _ => ret
  | _ => pa_asyncmsgq_dispatch process_msg m
  end.

(** The part of [pa_asyncmsgq_done] for a posted message. *)
Definition release (i : Z) (it : asyncmsgq_item) (s : mstate) : outcome mstate :=
  s ← when (call_free_cb it) (it_free_cb it) s;
  s ← when (fun o => res_unref (Obj o)) (it_object it) s;
  s ← when (fun b => res_unref (Blk b)) (mc_memblock (it_memchunk it)) s;
  Ok (free_item i s).

(** How the calls go on after [pa_asyncmsgq_done]. *)
Definition rcv_next (op : rcv_op) (c : Z) (s : mstate) : outcome (receiver * mstate) :=
  match op with
  | OpGet _ => Ok (RIdle, s)
  | OpProcessOne => s ← pa_asyncmsgq_unref s; Ok (RIdle, s)
  | OpWaitFor code => if c =? code then s ← pa_asyncmsgq_unref s; Ok (RIdle, s) else pa_asyncmsgq_get op s
  | OpFlush run => s ← (if run then pa_asyncmsgq_unref s else Ok s); pa_asyncmsgq_get op s
  end.

(** One step; [None]: the thread is blocked, not in a call, or the message is
    being processed.  [process_msg] and [ret] are what is made of the message.  The
    last result: the answer the message got. *)
Definition receiver_step (process_msg : Z -> Z -> Z -> Z -> option pa_memchunk -> Z) (answer : Z) (pc : receiver) (s : mstate)
    : outcome (option (receiver * mstate * option Z)) :=
  match pc with
  | RIdle => Ok None
  | RPop op =>
      _ ← in_use s;
      let q := ms_q s in
      r ← reader_step (as_reader q) (as_q q);
      match r with
      | None => Ok None
      | Some (pc, l, ret) =>
          let s := set_q (mk_asys l pc (as_writer q) (as_sent q) (as_received q ++ returned ret)) s in
          match pc, ret with
          | RdIdle, Some i => '(r, s) ← get_fields op i s; Ok (Some (r, s, None))
          | RdIdle, None => Ok (Some (RIdle, s, None))
          | _, _ => Ok (Some (RPop op, s, None))
          end
      end
  | RHave op m => Ok (Some (RDone op (mg_code m) (answer_of process_msg answer op m), s, None))
  | RDone op c ret =>
      _ ← in_use s;
      _ ← pa_assert (bool_decide (is_Some (ms_current s)));
      i ← deref (ms_current s);
      it ← get_item s i;
      match it_semaphore it with
      | Some _ => Ok (Some (RPost op c ret, set_items (<[i := set_ret ret it]> (ms_items s)) s, None))
      | None => s ← release i it s; Ok (Some (RClear op c, s, Some ret))
      end
  | RPost op c ret =>
      i ← deref (ms_current s);
      it ← get_item s i;
      x ← deref (it_semaphore it);
      v ← deref (ms_sems s !! x);
      Ok (Some (RClear op c, set_sems (<[x := v + 1]> (ms_sems s)) (ms_sem_pool s) s, Some ret))
  | RClear op c => '(r, s) ← rcv_next op c (set_current None s); Ok (Some (r, s, None))
  end.

Definition pa_asyncmsgq_dispatching (s : mstate) : bool := bool_decide (is_Some (ms_current s)).

(** ** Threads *)

(** What a message says, [ret] and the semaphore apart. *)
Record message := mk_msg { m_got : msg_got; m_free_cb : option Z }.

Definition content (it : asyncmsgq_item) : message :=
  mk_msg (mk_got (it_object it) (it_code it) (it_userdata it) (it_offset it) (it_memchunk it)) (it_free_cb it).

(** All threads, the references others have ([y_env] to objects and blocks,
    [y_qenv] to the queue), and the record: the messages put into the queue, those
    taken out, the answers, and what each [pa_asyncmsgq_send] returned. *)
Record msys := mk_msys {
  y_st : mstate;
  y_senders : list sender;
  y_recv : receiver;
  y_env : res -> Z;
  y_qenv : Z;
  y_sent : list message;
  y_got : list msg_got;
  y_answers : list Z;
  y_returned : list (nat * Z)
}.

(** The references a posted message has, or a sent one relies on. *)
Definition res_of (C : Z -> res) (o : option Z) : list res := match o with Some p => [C p] | None => [] end.

Definition item_refs (it : asyncmsgq_item) : list res := res_of Obj (it_object it) ++ res_of Blk (mc_memblock (it_memchunk it)).

Definition args_refs (a : msg_args) : list res := res_of Obj (ma_object a) ++ res_of Blk (ma_chunk a ≫= mc_memblock).

(** The caller of [pa_asyncmsgq_post] or [pa_asyncmsgq_send] has references to what it
    passes, and a chunk has a block; the one of [pa_asyncmsgq_send] keeps them. *)
Definition args_ok (a : msg_args) (y : msys) : Prop :=
  Forall (fun r => 0 < y_env y r) (args_refs a) /\
  match ma_chunk a with Some c => is_Some (mc_memblock c) | None => True end.

(** Memory that is not in use. *)
Definition unused (i : Z) (y : msys) : Prop := i <> 0 /\ ms_items (y_st y) !! i = None.

Definition sem_ok (f : sem_from) (s : mstate) : Prop :=
  match f with FromPool k => is_Some (ms_sem_pool s !! k) | FromNew x => ms_sems s !! x = None end.

(** A reference a sender waiting for its answer relies on. *)
Definition relied_on (r : res) (y : msys) : Prop :=
  exists i it x, ms_items (y_st y) !! i = Some it /\ it_semaphore it = Some x /\ r ∈ item_refs it.

(** The receiver has a reference of its own to the queue. *)
Definition recv_holds (pc : receiver) : bool :=
  match pc with
  | RPop (OpWaitFor _) => true
  | RHave op _ | RDone op _ _ | RPost op _ _ | RClear op _ =>
      match op with OpProcessOne | OpWaitFor _ | OpFlush true => true | _ => false end
  | _ => false
  end.

(** Somebody uses the queue on the strength of a reference that is not its own. *)
Definition queue_used (y : msys) : Prop :=
  Exists (fun pc => pc <> SIdle) (y_senders y) \/
  match y_recv y with
  | RIdle => as_reader (ms_q (y_st y)) <> RdIdle /\ as_reader (ms_q (y_st y)) <> RdPolling
  | RPop (OpWaitFor _) => False
  | RHave op _ | RDone op _ _ | RPost op _ _ | RClear op _ => match op with OpProcessOne | OpWaitFor _ => False | _ => True end
  | RPop _ => True
  end.

(** The record of a sender's step: a message enters the queue, a call returns. *)
Definition entered (pc : sender) (s : mstate) : list message :=
  match pc with SEnter _ i => match ms_items s !! i with Some it => [content it] | None => [] end | _ => [] end.
Definition sender_returns (pc : sender) (o : option Z) : list (nat * Z) :=
  match pc, o with SReturn _ n, Some r => [(n, r)] | _, _ => [] end.
Definition taken (pc pc' : receiver) : list msg_got := match pc, pc' with RPop _, RHave _ m => [m] | _, _ => [] end.
Definition answered (o : option Z) : list Z := match o with Some r => [r] | None => [] end.

Definition poll_cmd (c : reader_cmd) : Prop := match c with Asyncq.RPop _ => False | _ => True end.

(** Calls start, threads go one step further, and the rest of the program takes
    and drops references, while the queue exists. *)
Inductive msys_step : msys -> msys -> Prop :=
| my_post y j i junk a cb pc s : y_senders y !! j = Some SIdle -> 0 < y_qenv y -> args_ok a y -> unused i y ->
    pa_asyncmsgq_post i junk a cb (y_st y) = Ok (pc, s) ->
    msys_step y (mk_msys s (<[j := pc]> (y_senders y)) (y_recv y) (y_env y) (y_qenv y) (y_sent y) (y_got y) (y_answers y) (y_returned y))
| my_send y j i f a pc s : y_senders y !! j = Some SIdle -> 0 < y_qenv y -> args_ok a y -> unused i y -> sem_ok f (y_st y) ->
    pa_asyncmsgq_send i f a (y_st y) = Ok (pc, s) ->
    msys_step y (mk_msys s (<[j := pc]> (y_senders y)) (y_recv y) (y_env y) (y_qenv y) (y_sent y) (y_got y) (y_answers y) (y_returned y))
| my_sender y j kept pc pc' s o : y_senders y !! j = Some pc -> sender_step j kept pc (y_st y) = Ok (Some (pc', s, o)) ->
    msys_step y (mk_msys s (<[j := pc']> (y_senders y)) (y_recv y) (y_env y) (y_qenv y)
      (y_sent y ++ entered pc (y_st y)) (y_got y) (y_answers y) (y_returned y ++ sender_returns pc o))
| my_receive y op pc s : y_recv y = RIdle -> 0 < y_qenv y -> as_reader (ms_q (y_st y)) = RdIdle -> rcv_start op (y_st y) = Ok (pc, s) ->
    msys_step y (mk_msys s (y_senders y) pc (y_env y) (y_qenv y) (y_sent y) (y_got y) (y_answers y) (y_returned y))
| my_receiver y process_msg ret pc s o : receiver_step process_msg ret (y_recv y) (y_st y) = Ok (Some (pc, s, o)) ->
    msys_step y (mk_msys s (y_senders y) pc (y_env y) (y_qenv y) (y_sent y) (y_got y ++ taken (y_recv y) pc)
      (y_answers y ++ answered o) (y_returned y))
| my_poll y c q : y_recv y = RIdle -> 0 < y_qenv y -> poll_cmd c -> reader_start c (as_reader (ms_q (y_st y))) = Some q ->
    let l := ms_q (y_st y) in
    msys_step y (mk_msys (set_q (mk_asys (as_q l) q (as_writer l) (as_sent l) (as_received l)) (y_st y))
      (y_senders y) RIdle (y_env y) (y_qenv y) (y_sent y) (y_got y) (y_answers y) (y_returned y))
| my_polling y q l' ret : y_recv y = RIdle -> 0 < y_qenv y ->
    let l := ms_q (y_st y) in
    reader_step (as_reader l) (as_q l) = Ok (Some (q, l', ret)) ->
    msys_step y (mk_msys (set_q (mk_asys l' q (as_writer l) (as_sent l) (as_received l ++ returned ret)) (y_st y))
      (y_senders y) RIdle (y_env y) (y_qenv y) (y_sent y) (y_got y) (y_answers y) (y_returned y))
| my_take y r : 0 < ms_refcnt (y_st y) ->
    msys_step y (mk_msys (set_refs (<[r := ms_refs (y_st y) r + 1]> (ms_refs (y_st y))) (y_st y)) (y_senders y) (y_recv y)
      (<[r := y_env y r + 1]> (y_env y)) (y_qenv y) (y_sent y) (y_got y) (y_answers y) (y_returned y))
| my_drop y r s : 0 < ms_refcnt (y_st y) -> 0 < y_env y r -> (y_env y r = 1 -> ~ relied_on r y) -> res_unref r (y_st y) = Ok s ->
    msys_step y (mk_msys s (y_senders y) (y_recv y)
      (<[r := y_env y r - 1]> (y_env y)) (y_qenv y) (y_sent y) (y_got y) (y_answers y) (y_returned y))
| my_ref y s : 0 < y_qenv y -> pa_asyncmsgq_ref (y_st y) = Ok s ->
    msys_step y (mk_msys s (y_senders y) (y_recv y) (y_env y) (y_qenv y + 1) (y_sent y) (y_got y) (y_answers y) (y_returned y))
| my_unref y s : 0 < y_qenv y -> (y_qenv y = 1 -> ~ queue_used y) -> pa_asyncmsgq_unref (y_st y) = Ok s ->
    msys_step y (mk_msys s (y_senders y) (y_recv y) (y_env y) (y_qenv y - 1) (y_sent y) (y_got y) (y_answers y) (y_returned y)).

(** [n] senders and a new queue. *)
Inductive msys_reach (size : Z) (n : nat) : msys -> Prop :=
| my_new rf wf l e1 p1 e2 p2 s : pa_fdsem_new e1 p1 = Some rf -> pa_fdsem_new e2 p2 = Some wf ->
    pa_asyncq_new size (Some rf) (Some wf) = Ok (Some l) -> pa_asyncmsgq_new (Some l) = Some s ->
    msys_reach size n (mk_msys s (replicate n SIdle) RIdle (fun _ => 0) 1 [] [] [] [])
| my_next y y' : msys_reach size n y -> msys_step y y' -> msys_reach size n y'.
