(* ===== verification/AsyncmsgqInv.v ===== *)
(** * AsyncmsgqInv: the invariant of the message queue

    What is true of the mutex, the messages in memory, their semaphores and the
    references in every state, and what each kind of step does to it. *)
From stdpp Require Import functions base tactics numbers list gmap.
From S2P Require Import Prelude Memblock Fdsem Asyncq AsyncqProps Asyncmsgq.

(** ** One call of the queue *)

Definition call_of (k : kind) (i : Z) (c : writer_call) : Prop :=
  match k with Post => c = KPost i \/ c = KPush i false true | Send => c = KPush i true false end.

(** The writing side is in the call of a sender. *)
Definition writer_for (k : kind) (i : Z) (w : writer_pc) : Prop :=
  match w with
  | WrFlush c | WrCas c _ | WrWait c _ _ | WrIncr c _ | WrSem c _ _ => call_of k i c
  | WrIdle | WrBefore _ | WrAfter _ => False
  end.

Lemma writer_for_start k i l : aq_waiting_for_post l = false ->
  exists w, writer_start (queue_cmd k i) l WrIdle = Some w /\ writer_for k i w.
Proof. intros E. unfold writer_start. rewrite E. destruct k; simpl; eexists; (split; [done|]); simpl; auto. Qed.

Lemma dequeue_keeps l l' : dequeue l = Ok l' -> aq_waiting_for_post l' = aq_waiting_for_post l.
Proof. unfold dequeue. intros E. inv_bind. done. Qed.

(** Such a call is never refused, and polls for nothing. *)
Lemma writer_for_step k i w l w' l' refused : writer_for k i w -> writer_step w l = Ok (Some (w', l', refused)) ->
  refused = false /\ aq_waiting_for_post l' = aq_waiting_for_post l /\ (w' = WrIdle \/ writer_for k i w').
Proof.
  intros Hw E. destruct w as [|c|c fl|c fl w|c fl|c fl p|w|w]; simpl in *; try done.
  - simplify_eq. split; [done|]. split; [done|]. destruct (aq_last_localq l'); [by right|].
    destruct k; simpl in *; [destruct Hw as [-> | ->]|subst c]; simpl; auto.
  - inv_bind. destruct k; simpl in *; [destruct Hw as [-> | ->]|subst c]; repeat case_match; simplify_eq/=; auto.
  - unfold in_read_fdsem in E. inv_bind. repeat case_match; simplify_eq/=; auto.
  - simplify_eq/=. auto.
  - destruct (post_step p _) as [[p'|] f]; simplify_eq/=; [by auto|].
    destruct fl; simplify_eq/=; [|by auto]. inv_bind. apply dequeue_keeps in E0. auto.
Qed.

(** The reading side is in [pa_asyncq_pop], or polls. *)
Definition popping (wait_op : bool) (pc : reader_pc) : Prop :=
  match pc with RdLoad w => w = wait_op | RdWait _ => wait_op = true | RdCas _ | RdIncr _ | RdPost _ _ => True | _ => False end.
Definition polls (pc : reader_pc) : Prop :=
  match pc with RdIdle | RdPolling | RdPollLoad | RdBefore _ | RdAfter _ => True | _ => False end.

Lemma reader_keeps pc l pc' l' ret : reader_step pc l = Ok (Some (pc', l', ret)) -> aq_waiting_for_post l' = aq_waiting_for_post l.
Proof.
  intros E. destruct pc; simpl in E; try done; unfold in_write_fdsem in E; inv_bind; repeat case_match; simplify_eq/=; done.
Qed.

Lemma popping_step w pc l pc' l' ret : popping w pc -> reader_step pc l = Ok (Some (pc', l', ret)) ->
  (popping w pc' /\ ret = None) \/ (pc' = RdIdle /\ ((exists i, ret = Some i) \/ (ret = None /\ w = false))).
Proof.
  intros Hp E. destruct pc; simpl in *; try done; unfold in_write_fdsem in E; inv_bind; repeat case_match; simplify_eq/=; eauto 10.
Qed.

Lemma polls_step pc l pc' l' ret : polls pc -> reader_step pc l = Ok (Some (pc', l', ret)) -> polls pc' /\ ret = None.
Proof.
  intros Hp E. destruct pc; simpl in *; try done; unfold in_write_fdsem in E; inv_bind; repeat case_match; simplify_eq/=; done.
Qed.

Lemma polls_start c pc pc' : poll_cmd c -> polls pc -> reader_start c pc = Some pc' -> polls pc'.
Proof. intros Hc Hp E. destruct c, pc; simplify_eq/=; done. Qed.

(** ** The writing side *)

Definition locked (pc : sender) : bool := match pc with SEnter _ _ | SIn _ _ _ | SUnlock _ _ _ => true | _ => false end.
Definition writer_at (pc : sender) (w : writer_pc) : Prop := match pc with SIn k i _ => writer_for k i w | _ => w = WrIdle end.

(** One sender at a time has the mutex, and only that one is in the queue. *)
Record q_inv (size : Z) (q : asys) (mutex : option nat) (ss : list sender) : Prop := {
  qi_size : 0 <= size < 2 ^ 32;
  qi_reach : asys_reach size q;
  qi_nowait : aq_waiting_for_post (as_q q) = false;
  qi_locked j pc : ss !! j = Some pc -> locked pc = true <-> mutex = Some j;
  qi_writer : match mutex with
              | Some j => exists pc, ss !! j = Some pc /\ writer_at pc (as_writer q)
              | None => as_writer q = WrIdle
              end
}.

Lemma q_received size q m ss : q_inv size q m ss -> as_received q `prefix_of` as_sent q.
Proof.
  intros Q. destruct (reach_inv size _ (qi_size _ _ _ _ Q) (qi_reach _ _ _ _ Q)) as [c I]. rewrite (ai_fifo _ _ _ _ _ _ I). by apply prefix_app_r.
Qed.

(** ** The messages *)

(** What a sender has: its message, and the number of it in the queue. *)
Definition frame (pc : sender) : option (kind * Z) :=
  match pc with
  | SIdle => None
  | SLock k i | SEnter k i | SIn k i _ | SUnlock k i _ => Some (k, i)
  | SWait i _ | SReturn i _ => Some (Send, i)
  end.
Definition number (pc : sender) : option nat :=
  match pc with SIn _ _ n | SUnlock _ _ n | SWait _ n | SReturn _ n => Some n | _ => None end.

(** The memory that is a sender's alone, when [D] messages were answered. *)
Definition priv (D : nat) (pc : sender) : list Z :=
  match pc with
  | SLock _ i | SEnter _ i | SReturn i _ => [i]
  | SIn Send i n | SUnlock Send i n | SWait i n => if (n <? D)%nat then [i] else []
  | _ => []
  end.

(** The value of its semaphore. *)
Definition signal (D : nat) (pc : sender) : Z :=
  match pc with SIn _ _ n | SUnlock _ _ n | SWait _ n => if (n <? D)%nat then 1 else 0 | _ => 0 end.

Record sender_ok (N : list Z) (answers : list Z) (items : gmap Z asyncmsgq_item) (sems : gmap Z Z) (pc : sender) : Prop := {
  so_number k i n : frame pc = Some (k, i) -> number pc = Some n -> N !! n = Some i;
  so_send i : frame pc = Some (Send, i) -> exists it x, items !! i = Some it /\ it_semaphore it = Some x /\
    sems !! x = Some (signal (length answers) pc) /\
    (forall n, number pc = Some n -> (n < length answers)%nat -> answers !! n = Some (it_ret it));
  so_post i : frame pc = Some (Post, i) -> number pc = None -> exists it, items !! i = Some it /\ it_semaphore it = None;
  so_return i n : pc = SReturn i n -> (n < length answers)%nat
}.

(** The messages in memory are those in the queue or with the receiver, and those
    that are a sender's alone; who sent a message waits for it; every semaphore has
    one owner. *)
Record m_inv (N : list Z) (sent : list message) (answers : list Z) (items : gmap Z asyncmsgq_item) (sems : gmap Z Z)
    (pool : list Z) (ss : list sender) : Prop := {
  mi_len : length sent = length N;
  mi_le : (length answers <= length N)%nat;
  mi_keys : drop (length answers) N ++ bag (priv (length answers)) ss ≡ₚ (map_to_list items).*1;
  mi_null : items !! 0 = None;
  mi_msg n i : (length answers <= n)%nat -> N !! n = Some i -> exists it, items !! i = Some it /\ sent !! n = Some (content it) /\
    (forall x, it_semaphore it = Some x -> exists j pc, ss !! j = Some pc /\ frame pc = Some (Send, i) /\ number pc = Some n);
  mi_sender j pc : ss !! j = Some pc -> sender_ok N answers items sems pc;
  mi_number j j' pc pc' n : ss !! j = Some pc -> ss !! j' = Some pc' -> number pc = Some n -> number pc' = Some n -> j = j';
  mi_inj i i' it it' x : items !! i = Some it -> items !! i' = Some it' -> it_semaphore it = Some x -> it_semaphore it' = Some x -> i = i';
  mi_used i it x : items !! i = Some it -> it_semaphore it = Some x -> x ∉ pool;
  mi_pool : NoDup pool;
  mi_zero x : x ∈ pool -> sems !! x = Some 0;
  mi_cb i it x : items !! i = Some it -> it_semaphore it = Some x -> it_free_cb it = None
}.

Lemma keys_elem (items : gmap Z asyncmsgq_item) i : i ∈ (map_to_list items).*1 <-> is_Some (items !! i).
Proof.
  rewrite list_elem_of_fmap. split.
  - intros ([k v] & -> & E). apply elem_of_map_to_list in E. by exists v.
  - intros [v E]. exists (i, v). split; [done|]. by apply elem_of_map_to_list.
Qed.

Lemma keys_insert (items : gmap Z asyncmsgq_item) i it : items !! i = None -> (map_to_list (<[i := it]> items)).*1 ≡ₚ i :: (map_to_list items).*1.
Proof. intros E. by rewrite map_to_list_insert. Qed.

Lemma keys_update (items : gmap Z asyncmsgq_item) i it it' : items !! i = Some it -> (map_to_list (<[i := it']> items)).*1 ≡ₚ (map_to_list items).*1.
Proof.
  intros E. rewrite <- insert_delete_eq, map_to_list_insert by apply lookup_delete_eq.
  rewrite <- (insert_delete_id items i it E) at 2. rewrite map_to_list_insert by apply lookup_delete_eq. done.
Qed.

Lemma keys_delete (items : gmap Z asyncmsgq_item) i it : items !! i = Some it -> (map_to_list items).*1 ≡ₚ i :: (map_to_list (delete i items)).*1.
Proof. intros E. rewrite <- (insert_delete_id items i it E) at 1. apply keys_insert, lookup_delete_eq. Qed.

Lemma bag_elem {T A} (f : T -> list A) ts j t x : ts !! j = Some t -> x ∈ f t -> x ∈ bag f ts.
Proof.
  intros E Hx. destruct (bag_move f f ts j t t E) as (r & Hr & _); [done|]. rewrite Hr. apply elem_of_app. by left.
Qed.

Lemma bag_elem_inv {T A} (f : T -> list A) ts x : x ∈ bag f ts -> exists j t, ts !! j = Some t /\ x ∈ f t.
Proof.
  unfold bag. rewrite list_elem_of_In, in_concat. intros (l & Hl & Hx). rewrite <- list_elem_of_In in Hl. rewrite <- list_elem_of_In in Hx.
  apply list_elem_of_fmap in Hl as (t & -> & Ht). apply list_elem_of_lookup in Ht as [j E]. eauto.
Qed.

Section messages.
Context {N : list Z} {sent : list message} {answers : list Z} {items : gmap Z asyncmsgq_item} {sems : gmap Z Z}
  {pool : list Z} {ss : list sender}.
Hypothesis I : m_inv N sent answers items sems pool ss.

Lemma keys_nodup : NoDup (drop (length answers) N ++ bag (priv (length answers)) ss).
Proof. rewrite (mi_keys _ _ _ _ _ _ _ I). apply NoDup_fst_map_to_list. Qed.

(** No message is in the queue twice. *)
Lemma live_inj n n' i : (length answers <= n)%nat -> (length answers <= n')%nat -> N !! n = Some i -> N !! n' = Some i -> n = n'.
Proof.
  intros Hn Hn' E E'. pose proof keys_nodup as Hd. apply NoDup_app in Hd as (Hd & _ & _).
  assert (n - length answers = n' - length answers)%nat; [|lia].
  apply (NoDup_lookup _ _ _ i Hd); rewrite lookup_drop.
  - by replace (length answers + (n - length answers))%nat with n by lia.
  - by replace (length answers + (n' - length answers))%nat with n' by lia.
Qed.

Lemma live_priv n i j pc : (length answers <= n)%nat -> N !! n = Some i -> ss !! j = Some pc -> i ∈ priv (length answers) pc -> False.
Proof.
  intros Hn E Ej Hi. pose proof keys_nodup as Hd. apply NoDup_app in Hd as (_ & Hd & _). apply (Hd i); [|by eapply bag_elem].
  apply list_elem_of_lookup. exists (n - length answers)%nat. rewrite lookup_drop.
  by replace (length answers + (n - length answers))%nat with n by lia.
Qed.

Lemma priv_inj j j' pc pc' i : ss !! j = Some pc -> ss !! j' = Some pc' -> i ∈ priv (length answers) pc ->
  i ∈ priv (length answers) pc' -> j = j'.
Proof.
  intros E E' Hi Hi'. pose proof keys_nodup as Hd. apply NoDup_app in Hd as (_ & _ & Hd).
  destruct (decide (j = j')) as [|Hne]; [done|]. exfalso.
  destruct (bag_move (priv (length answers)) (priv (length answers)) ss j pc pc E) as (r & Hr & _ & Ho); [done|].
  rewrite Hr in Hd. apply NoDup_app in Hd as (_ & Hd & _). by apply (Hd i), (Ho j' pc' i).
Qed.

(** The message of a call of [pa_asyncmsgq_send] is in the queue, or its own. *)
Lemma frame_cases j pc i : ss !! j = Some pc -> frame pc = Some (Send, i) ->
  i ∈ priv (length answers) pc \/ exists n, number pc = Some n /\ (length answers <= n)%nat /\ N !! n = Some i.
Proof.
  intros Ej Ef. pose proof (so_number _ _ _ _ _ (mi_sender _ _ _ _ _ _ _ I j pc Ej) Send i) as Hn.
  destruct pc as [|k i'|k i'|k i' n|k i' n|i' n|i' n]; simplify_eq/=; try (left; by left).
  all: destruct (Nat.ltb_spec n (length answers)); [left; by left|right; exists n; auto].
Qed.

Lemma frame_inj j j' pc pc' i : ss !! j = Some pc -> ss !! j' = Some pc' -> frame pc = Some (Send, i) -> frame pc' = Some (Send, i) -> j = j'.
Proof.
  intros E E' F F'. destruct (frame_cases _ _ _ E F) as [H|(n & H1 & H2 & H3)], (frame_cases _ _ _ E' F') as [H'|(n' & H1' & H2' & H3')].
  - exact (priv_inj _ _ _ _ _ E E' H H').
  - exfalso. exact (live_priv n' i j pc H2' H3' E H).
  - exfalso. exact (live_priv n i j' pc' H2 H3 E' H').
  - rewrite (live_inj _ _ _ H2 H2' H3 H3') in H1. exact (mi_number _ _ _ _ _ _ _ I _ _ _ _ _ E E' H1 H1').
Qed.

(** Who sent a message with a semaphore is in [pa_asyncmsgq_send]. *)
Lemma item_owner i it x : items !! i = Some it -> it_semaphore it = Some x -> exists j pc, ss !! j = Some pc /\ frame pc = Some (Send, i).
Proof.
  intros E Ex. assert (i ∈ drop (length answers) N ++ bag (priv (length answers)) ss) as Hi.
  { rewrite (mi_keys _ _ _ _ _ _ _ I). apply keys_elem. by exists it. }
  apply elem_of_app in Hi as [(n & En)%list_elem_of_lookup|(j & pc & Ej & Hp)%bag_elem_inv].
  - rewrite lookup_drop in En. destruct (mi_msg _ _ _ _ _ _ _ I (length answers + n) i ltac:(lia) En) as (it' & E' & _ & Hs).
    rewrite E in E'. injection E' as <-. destruct (Hs x Ex) as (j & pc & ? & ? & _). eauto.
  - exists j, pc. split; [done|]. pose proof (so_post _ _ _ _ _ (mi_sender _ _ _ _ _ _ _ I j pc Ej) i) as Hs.
    assert (forall it', items !! i = Some it' -> it_semaphore it' <> None) as Hn by (intros it' E'; rewrite E in E'; injection E' as <-; by rewrite Ex).
    destruct pc as [|[] i'|[] i'|[] i' n|[] i' n|i' n|i' n]; simpl in *; repeat case_match;
      repeat match goal with H : _ ∈ [_] |- _ => apply list_elem_of_singleton in H as -> | H : _ ∈ [] |- _ => by apply not_elem_of_nil in H end;
      try done; destruct Hs as (it' & ? & ?); naive_solver.
Qed.

Lemma item_signal i it x : items !! i = Some it -> it_semaphore it = Some x -> is_Some (sems !! x).
Proof.
  intros E Ex. destruct (item_owner _ _ _ E Ex) as (j & pc & Ej & Ef).
  destruct (so_send _ _ _ _ _ (mi_sender _ _ _ _ _ _ _ I j pc Ej) i Ef) as (it' & x' & E' & Ex' & Es & _). naive_solver.
Qed.

(** A sender goes on with its message. *)
Lemma m_move j pc pc' : ss !! j = Some pc -> priv (length answers) pc' = priv (length answers) pc ->
  (forall n, number pc' = Some n -> number pc = Some n) ->
  (forall i n, frame pc = Some (Send, i) -> number pc = Some n -> frame pc' = Some (Send, i) /\ number pc' = Some n) ->
  sender_ok N answers items sems pc' -> m_inv N sent answers items sems pool (<[j := pc']> ss).
Proof.
  intros Ej Hp Hn Hf Hok. destruct I as [H1 H2 H3 H4 H5 H6 H7 H8 H9 H10 H11 H12]. split; try done.
  - destruct (bag_move (priv (length answers)) (priv (length answers)) ss j pc pc' Ej) as (r & Hr & Hr' & _); [done|].
    by rewrite <- H3, Hr, Hr', Hp.
  - intros n i Hd En. destruct (H5 n i Hd En) as (it & Ei & Es & Hs). exists it. split_and!; [done..|]. intros x Ex.
    destruct (Hs x Ex) as (j2 & pc2 & E2 & F2 & N2). destruct (decide (j2 = j)) as [->|Hne].
    + rewrite Ej in E2. injection E2 as <-. destruct (Hf i n F2 N2). exists j, pc'. split; [|done].
      apply list_lookup_insert_eq. by eapply lookup_lt_Some.
    + exists j2, pc2. by rewrite list_lookup_insert_ne.
  - intros j2 pc2 [(<- & -> & _)|[_ E]]%list_lookup_insert_Some; [done|]. by apply (H6 j2).
  - intros j1 j2 pc1 pc2 n [(<- & -> & _)|[_ E1]]%list_lookup_insert_Some [(<- & -> & _)|[_ E2]]%list_lookup_insert_Some N1 N2; [done| | |].
    + apply (H7 j j2 pc pc2 n); auto.
    + apply (H7 j1 j pc1 pc n); auto.
    + by apply (H7 j1 j2 pc1 pc2 n).
Qed.
End messages.

Lemma sender_ok_frame N N' answers items items' sems sems' pc : sender_ok N answers items sems pc ->
  (forall n i, N !! n = Some i -> N' !! n = Some i) ->
  (forall k i it, frame pc = Some (k, i) -> k = Send \/ number pc = None -> items !! i = Some it -> items' !! i = Some it) ->
  (forall i it x, frame pc = Some (Send, i) -> items !! i = Some it -> it_semaphore it = Some x -> sems' !! x = sems !! x) ->
  sender_ok N' answers items' sems' pc.
Proof.
  intros [H1 H2 H3 H4] HN Hi Hs. split.
  - intros k i n Hf Hn. apply HN. by apply (H1 k i n).
  - intros i Hf. destruct (H2 i Hf) as (it & x & Ei & Ex & Es & Ha). exists it, x. rewrite (Hs i it x) by done.
    split_and!; try done. by apply (Hi Send); auto.
  - intros i Hf Hn. destruct (H3 i Hf Hn) as (it & Ei & Ex). exists it. split; [|done]. by apply (Hi Post); auto.
  - done.
Qed.

Lemma number_frame pc n : number pc = Some n -> exists k i, frame pc = Some (k, i).
Proof. destruct pc; simpl; eauto; done. Qed.

(** A call of [pa_asyncmsgq_post] or [pa_asyncmsgq_send] has filled in its message. *)
Lemma m_add N sent answers items sems pool ss j k i it sems' pool' : m_inv N sent answers items sems pool ss ->
  ss !! j = Some SIdle -> items !! i = None -> i <> 0 ->
  match k with
  | Post => it_semaphore it = None /\ sems' = sems /\ pool' = pool
  | Send => exists x, it_semaphore it = Some x /\ it_free_cb it = None /\ sems' !! x = Some 0 /\ (forall y, y <> x -> sems' !! y = sems !! y) /\
      (x ∉ pool') /\ NoDup pool' /\ (forall y, y ∈ pool' -> y ∈ pool) /\ (forall i' it', items !! i' = Some it' -> it_semaphore it' <> Some x)
  end ->
  m_inv N sent answers (<[i := it]> items) sems' pool' (<[j := SLock k i]> ss).
Proof.
  intros I Ej Ei H0 Hk. pose proof I as [H1 H2 H3 H4 H5 H6 H7 H8 H9 H10 H11 H12].
  assert (forall i' it', items !! i' = Some it' -> <[i := it]> items !! i' = Some it') as Hin.
  { intros i' it' E. rewrite lookup_insert_ne; [done|]. intros <-. congruence. }
  assert (forall i' it', <[i := it]> items !! i' = Some it' -> (i' = i /\ it' = it) \/ (i' <> i /\ items !! i' = Some it')) as Hinv.
  { intros i' it'. rewrite lookup_insert_Some. naive_solver. }
  assert (forall i' it' x, items !! i' = Some it' -> it_semaphore it' = Some x -> sems' !! x = sems !! x) as Hsem.
  { intros i' it' x E Ex. destruct k; [by destruct Hk as (_ & -> & _)|]. destruct Hk as (x' & _ & _ & _ & Ho & _ & _ & _ & Hd).
    apply Ho. intros ->. by apply (Hd i' it'). }
  split; try done.
  - destruct (bag_move (priv (length answers)) (priv (length answers)) ss j SIdle (SLock k i) Ej) as (r & Hr & Hr' & _); [done|].
    rewrite keys_insert by done. rewrite Hr'. simpl in *. rewrite <- H3, Hr. solve_Permutation.
  - rewrite lookup_insert_ne by done. done.
  - intros n i' Hn En. destruct (H5 n i' Hn En) as (it' & E' & Es & Hs). exists it'. split_and!; [by apply Hin|done|]. intros x Ex.
    destruct (Hs x Ex) as (j2 & pc2 & E2 & F2 & N2). exists j2, pc2. split; [|done].
    rewrite list_lookup_insert_ne; [done|]. intros ->. rewrite Ej in E2. by injection E2 as <-.
  - intros j2 pc2 [(<- & <- & _)|[Hne E2]]%list_lookup_insert_Some.
    + split; simpl; try done.
      * intros ? [= -> <-]. destruct Hk as (x & Ex & _ & Es & _). exists it, x. rewrite lookup_insert_eq. done.
      * intros ? [= -> <-] _. exists it. rewrite lookup_insert_eq. split; [done|]. apply Hk.
    + eapply sender_ok_frame; [by apply (H6 j2)|done|by eauto|by eauto].
  - intros j1 j2 pc1 pc2 n [(<- & <- & _)|[_ E1]]%list_lookup_insert_Some [(<- & <- & _)|[_ E2]]%list_lookup_insert_Some N1 N2; try done.
    by apply (H7 j1 j2 pc1 pc2 n).
  - intros i1 i2 it1 it2 x [[-> ->]|[_ E1]]%Hinv [[-> ->]|[_ E2]]%Hinv X1 X2; [done| | |by apply (H8 i1 i2 it1 it2 x)].
    all: exfalso; destruct k; [destruct Hk; congruence|destruct Hk as (x' & Ex' & _ & _ & _ & _ & _ & _ & Hd)].
    + apply (Hd i2 it2 E2). congruence.
    + apply (Hd i1 it1 E1). congruence.
  - intros i1 it1 x [[-> ->]|[_ E1]]%Hinv X1; destruct k; [destruct Hk; congruence| | |].
    + destruct Hk as (x' & Ex' & _ & _ & _ & Hp & _). congruence.
    + destruct Hk as (_ & _ & ->). by apply (H9 i1 it1).
    + destruct Hk as (x' & Ex' & _ & _ & _ & _ & _ & Hp & _). intros Hx. by apply (H9 i1 it1 x E1 X1), Hp.
  - destruct k; [by destruct Hk as (_ & _ & ->)|]. by destruct Hk as (x' & _ & _ & _ & _ & _ & Hp & _).
  - intros x Hx. destruct k; [destruct Hk as (_ & -> & ->); by apply H11|].
    destruct Hk as (x' & _ & _ & _ & Ho & Hp & _ & Hi & _). rewrite Ho; [by apply H11, Hi|]. by intros ->.
  - intros i1 it1 x [[-> ->]|[_ E1]]%Hinv X1; [|by apply (H12 i1 it1 x)]. destruct k; [destruct Hk; congruence|].
    by destruct Hk as (x' & _ & Hc & _).
Qed.

(** The message enters the queue. *)
Lemma m_enter N sent answers items sems pool ss j k i it : m_inv N sent answers items sems pool ss ->
  ss !! j = Some (SEnter k i) -> items !! i = Some it ->
  m_inv (N ++ [i]) (sent ++ [content it]) answers items sems pool (<[j := SIn k i (length N)]> ss).
Proof.
  intros I Ej Ei. pose proof I as [H1 H2 H3 H4 H5 H6 H7 H8 H9 H10 H11 H12].
  assert ((length N <? length answers)%nat = false) as Hlt by (by apply Nat.ltb_ge).
  assert (forall n i', N !! n = Some i' -> (N ++ [i]) !! n = Some i') as HN by (intros n i' E; by apply lookup_app_l_Some).
  assert (forall n i', (N ++ [i]) !! n = Some i' -> N !! n = Some i' \/ (n = length N /\ i' = i)) as HN'.
  { intros n i' [E|[Hn E]]%lookup_app_Some; [by left|right]. apply list_lookup_singleton_Some in E. split; [lia|naive_solver]. }
  assert (forall j2 pc2 n, ss !! j2 = Some pc2 -> number pc2 = Some n -> n < length N)%nat as Hnum.
  { intros j2 pc2 n E2 N2. destruct (number_frame _ _ N2) as (k2 & i2 & F2).
    eapply lookup_lt_Some, (so_number _ _ _ _ _ (H6 j2 pc2 E2) k2 i2 n F2 N2). }
  pose proof (H6 j _ Ej) as Hj. split; try done.
  - rewrite !length_app. simpl. lia.
  - rewrite length_app. lia.
  - destruct (bag_move (priv (length answers)) (priv (length answers)) ss j (SEnter k i) (SIn k i (length N)) Ej) as (r & Hr & Hr' & _); [done|].
    rewrite <- H3, Hr, Hr', drop_app_le by done. simpl. rewrite Hlt. destruct k; solve_Permutation.
  - intros n i' Hn [En|[-> ->]]%HN'.
    + destruct (H5 n i' Hn En) as (it' & E' & Es & Hs). exists it'. split_and!; [done|by apply lookup_app_l_Some|]. intros x Ex.
      destruct (Hs x Ex) as (j2 & pc2 & E2 & F2 & N2). exists j2, pc2. split; [|done].
      rewrite list_lookup_insert_ne; [done|]. intros ->. rewrite Ej in E2. by injection E2 as <-.
    + exists it. split_and!; [done|by rewrite <- H1, lookup_app_r, Nat.sub_diag by lia|]. intros x Ex.
      exists j, (SIn k i (length N)). rewrite list_lookup_insert_eq by (by eapply lookup_lt_Some). simpl. split_and!; [done| |done].
      destruct k; [|done]. destruct (so_post _ _ _ _ _ Hj i eq_refl eq_refl) as (it' & E' & X'). congruence.
  - intros j2 pc2 [(<- & <- & _)|[Hne E2]]%list_lookup_insert_Some; [|by eapply sender_ok_frame; [by apply (H6 j2)|..]; eauto].
    split; simpl; try done.
    + intros k' i' n [= <- <-] [= <-]. by rewrite lookup_app_r, Nat.sub_diag by lia.
    + intros i' [= -> <-]. destruct (so_send _ _ _ _ _ Hj i eq_refl) as (it' & x & E' & X' & S' & _). exists it', x.
      rewrite Hlt. split_and!; [done..|]. intros n [= <-] Hn. lia.
  - intros j1 j2 pc1 pc2 n [(<- & <- & _)|[_ E1]]%list_lookup_insert_Some [(<- & <- & _)|[_ E2]]%list_lookup_insert_Some N1 N2; [done| | |].
    + simpl in N1. pose proof (Hnum j2 pc2 n E2 N2). simplify_eq. lia.
    + simpl in N2. pose proof (Hnum j1 pc1 n E1 N1). simplify_eq. lia.
    + by apply (H7 j1 j2 pc1 pc2 n).
Qed.

(** Semaphores of different senders differ. *)
Lemma other_sem N sent answers items sems pool ss j j2 pc pc2 i i2 it it2 x x2 : m_inv N sent answers items sems pool ss ->
  ss !! j = Some pc -> ss !! j2 = Some pc2 -> j2 <> j -> frame pc = Some (Send, i) -> frame pc2 = Some (Send, i2) ->
  items !! i = Some it -> items !! i2 = Some it2 -> it_semaphore it = Some x -> it_semaphore it2 = Some x2 -> x2 <> x /\ i2 <> i.
Proof.
  intros I E E2 Hne F F2 Ei Ei2 X X2. assert (i2 <> i) as Hi.
  { intros ->. by apply Hne, (frame_inj I j2 j pc2 pc i). }
  split; [|done]. intros ->. by apply Hi, (mi_inj _ _ _ _ _ _ _ I i2 i it2 it x).
Qed.

(** A sender finds its semaphore raised. *)
Lemma m_wake N sent answers items sems pool ss j i n it x v : m_inv N sent answers items sems pool ss ->
  ss !! j = Some (SWait i n) -> items !! i = Some it -> it_semaphore it = Some x -> sems !! x = Some v -> 0 < v ->
  (n < length answers)%nat /\ m_inv N sent answers items (<[x := v - 1]> sems) pool (<[j := SReturn i n]> ss).
Proof.
  intros I Ej Ei Ex Es Hv. pose proof (mi_sender _ _ _ _ _ _ _ I j _ Ej) as Hj.
  destruct (so_send _ _ _ _ _ Hj i eq_refl) as (it' & x' & Ei' & Ex' & Es' & Ha). rewrite Ei in Ei'; injection Ei' as <-. rewrite Ex in Ex'; injection Ex' as <-.
  rewrite Es in Es'; injection Es' as ->. simpl in Hv, Es.
  destruct (Nat.ltb_spec n (length answers)) as [Hn|]; [|done]. split; [done|].
  pose proof I as [H1 H2 H3 H4 H5 H6 H7 H8 H9 H10 H11 H12]. split; try done.
  - destruct (bag_move (priv (length answers)) (priv (length answers)) ss j (SWait i n) (SReturn i n) Ej) as (r & Hr & Hr' & _); [done|].
    rewrite <- H3, Hr, Hr'. simpl. apply Nat.ltb_lt in Hn. by rewrite Hn.
  - intros n2 i2 Hn2 En. destruct (H5 n2 i2 Hn2 En) as (it2 & E' & Es2 & Hs). exists it2. split_and!; [done..|]. intros x2 Ex2.
    destruct (Hs x2 Ex2) as (j2 & pc2 & E2 & F2 & N2). exists j2, pc2. split; [|done].
    rewrite list_lookup_insert_ne; [done|]. intros ->. rewrite Ej in E2. injection E2 as <-. simpl in N2. simplify_eq. lia.
  - intros j2 pc2 [(<- & <- & _)|[Hne E2]]%list_lookup_insert_Some.
    + split; simpl; try done.
      * intros k i2 n2 [= <- <-] [= <-]. by apply (so_number _ _ _ _ _ Hj Send i n).
      * intros ? [= <-]. exists it, x. rewrite lookup_insert_eq. done.
      * by intros ? ? [= <- <-].
    + eapply sender_ok_frame; [by apply (H6 j2)|done|done|]. intros i2 it2 x2 F2 Ei2 Ex2. rewrite lookup_insert_ne; [done|]. intros <-.
      by destruct (other_sem _ _ _ _ _ _ _ _ _ _ _ _ _ _ _ _ _ I Ej E2 (not_eq_sym Hne) eq_refl F2 Ei Ei2 Ex Ex2).
  - intros j1 j2 pc1 pc2 n2 [(<- & <- & _)|[_ E1]]%list_lookup_insert_Some [(<- & <- & _)|[_ E2]]%list_lookup_insert_Some N1 N2; [done| | |].
    + by apply (H7 j j2 (SWait i n) pc2 n2).
    + by apply (H7 j1 j pc1 (SWait i n) n2).
    + by apply (H7 j1 j2 pc1 pc2 n2).
  - intros y Hy. rewrite lookup_insert_ne; [by apply H11|]. intros <-. by apply (H9 i it x).
Qed.

(** [pa_asyncmsgq_send] returns. *)
Lemma m_return N sent answers items sems pool ss j i n it x (kept : bool) : m_inv N sent answers items sems pool ss ->
  ss !! j = Some (SReturn i n) -> items !! i = Some it -> it_semaphore it = Some x ->
  answers !! n = Some (it_ret it) /\
  m_inv N sent answers (delete i items) (if kept then sems else delete x sems) (if kept then x :: pool else pool) (<[j := SIdle]> ss).
Proof.
  intros I Ej Ei Ex. pose proof (mi_sender _ _ _ _ _ _ _ I j _ Ej) as Hj.
  destruct (so_send _ _ _ _ _ Hj i eq_refl) as (it' & x' & Ei' & Ex' & Es & Ha). rewrite Ei in Ei'; injection Ei' as <-.
  rewrite Ex in Ex'; injection Ex' as <-. split; [apply Ha; [done|]; by apply (so_return _ _ _ _ _ Hj i n)|].
  assert (forall i2 it2, delete i items !! i2 = Some it2 -> i2 <> i /\ items !! i2 = Some it2) as Hinv.
  { intros i2 it2. rewrite lookup_delete_Some. naive_solver. }
  assert (forall i2 it2 x2, items !! i2 = Some it2 -> it_semaphore it2 = Some x2 -> i2 <> i -> x2 <> x) as Hx.
  { intros i2 it2 x2 E2 X2 Hne ->. by apply Hne, (mi_inj _ _ _ _ _ _ _ I i2 i it2 it x). }
  assert (x ∉ pool) as Hxp by (by apply (mi_used _ _ _ _ _ _ _ I i it)).
  pose proof I as [H1 H2 H3 H4 H5 H6 H7 H8 H9 H10 H11 H12]. split; try done.
  - destruct (bag_move (priv (length answers)) (priv (length answers)) ss j (SReturn i n) SIdle Ej) as (r & Hr & Hr' & _); [done|].
    rewrite Hr'. rewrite Hr, (keys_delete items i it Ei) in H3. simpl in *. apply (Permutation.Permutation_cons_inv (a := i)). rewrite <- H3. solve_Permutation.
  - rewrite lookup_delete_ne; [done|]. intros ->. congruence.
  - intros n2 i2 Hn2 En. destruct (H5 n2 i2 Hn2 En) as (it2 & E' & Es2 & Hs). exists it2. split_and!; [|done|].
    + rewrite lookup_delete_ne; [done|]. intros <-. apply (live_priv I n2 i j (SReturn i n)); try done. by left.
    + intros x2 Ex2. destruct (Hs x2 Ex2) as (j2 & pc2 & E2 & F2 & N2). exists j2, pc2. split; [|done].
      rewrite list_lookup_insert_ne; [done|]. intros ->. rewrite Ej in E2. injection E2 as <-. simpl in N2. injection N2 as <-.
      pose proof (so_return _ _ _ _ _ Hj i n eq_refl). lia.
  - intros j2 pc2 [(<- & <- & _)|[Hne E2]]%list_lookup_insert_Some; [by split|].
    eapply sender_ok_frame; [by apply (H6 j2)|done| |].
    + intros k i2 it2 F2 Hk Ei2. rewrite lookup_delete_ne; [done|]. intros <-. destruct k.
      * destruct Hk as [|Hk]; [done|]. destruct (so_post _ _ _ _ _ (H6 j2 _ E2) i F2 Hk) as (it3 & ? & ?). congruence.
      * by apply Hne, (frame_inj I j j2 (SReturn i n) pc2 i).
    + intros i2 it2 x2 F2 Ei2 Ex2. destruct kept; [done|]. rewrite lookup_delete_ne; [done|]. intros <-.
      by destruct (other_sem _ _ _ _ _ _ _ _ _ _ _ _ _ _ _ _ _ I Ej E2 (not_eq_sym Hne) eq_refl F2 Ei Ei2 Ex Ex2).
  - intros j1 j2 pc1 pc2 n2 [(<- & <- & _)|[_ E1]]%list_lookup_insert_Some [(<- & <- & _)|[_ E2]]%list_lookup_insert_Some N1 N2; try done.
    by apply (H7 j1 j2 pc1 pc2 n2).
  - intros i1 i2 it1 it2 y [_ E1]%Hinv [_ E2]%Hinv. by apply (H8 i1 i2 it1 it2 y).
  - intros i2 it2 x2 [Hne E2]%Hinv X2. pose proof (H9 i2 it2 x2 E2 X2). pose proof (Hx i2 it2 x2 E2 X2 Hne).
    destruct kept; [|done]. by apply not_elem_of_cons.
  - destruct kept; [|done]. by apply NoDup_cons.
  - intros y Hy. destruct kept.
    + apply elem_of_cons in Hy as [->|Hy]; [done|by apply H11].
    + rewrite lookup_delete_ne; [by apply H11|]. by intros <-.
  - intros i2 it2 x2 [_ E2]%Hinv. by apply (H12 i2 it2 x2).
Qed.

(** One more answer changes nothing for a sender that waits for another one. *)
Lemma other_answer D pc : (forall i, frame pc = Some (Send, i) -> number pc <> Some D) ->
  priv (S D) pc = priv D pc /\ (forall i, frame pc = Some (Send, i) -> signal (S D) pc = signal D pc).
Proof.
  intros H. assert (forall n : nat, n <> D -> (n <? S D)%nat = (n <? D)%nat) as Hb.
  { intros n Hn. destruct (Nat.ltb_spec n (S D)), (Nat.ltb_spec n D); done || lia. }
  destruct pc as [|k i|k i|[] i n|[] i n|i n|i n]; simpl in *; try done; (rewrite Hb; [done|]); intros ->; by apply (H i).
Qed.

Lemma bag_ext {T A} (f g : T -> list A) ts : (forall j t, ts !! j = Some t -> g t = f t) -> bag g ts = bag f ts.
Proof. intros H. unfold bag. f_equal. apply list_fmap_ext. intros k t E. by apply (H k). Qed.

Lemma drop_next {A} (l : list A) n x : l !! n = Some x -> drop n l = x :: drop (S n) l.
Proof. apply drop_S. Qed.

Lemma sender_ok_answer N answers ret items sems pc : sender_ok N answers items sems pc ->
  (forall i, frame pc = Some (Send, i) -> number pc <> Some (length answers)) -> sender_ok N (answers ++ [ret]) items sems pc.
Proof.
  intros [H1 H2 H3 H4] Hn. destruct (other_answer (length answers) pc Hn) as [_ Hs].
  assert (length (answers ++ [ret]) = S (length answers)) as El by (rewrite length_app; simpl; lia). split; try done.
  - intros i Hf. destruct (H2 i Hf) as (it & x & Ei & Ex & Es & Ha). exists it, x. rewrite El, (Hs i Hf). split_and!; [done..|].
    intros n Nn Hlt. assert (n <> length answers) by (intros ->; by apply (Hn i Hf)). apply lookup_app_l_Some, Ha; [done|lia].
  - intros i n Ep. rewrite El. pose proof (H4 i n Ep). lia.
Qed.

(** A posted message is answered: it is freed. *)
Lemma m_answer_post N sent answers items sems pool ss i it ret : m_inv N sent answers items sems pool ss ->
  N !! length answers = Some i -> items !! i = Some it -> it_semaphore it = None ->
  m_inv N sent (answers ++ [ret]) (delete i items) sems pool ss.
Proof.
  intros I En Ei Ex. pose proof I as [H1 H2 H3 H4 H5 H6 H7 H8 H9 H10 H11 H12].
  assert (length (answers ++ [ret]) = S (length answers)) as El by (rewrite length_app; simpl; lia).
  assert (forall j pc i', ss !! j = Some pc -> frame pc = Some (Send, i') -> i' <> i) as Hi.
  { intros j pc i' Ej Ef ->. destruct (so_send _ _ _ _ _ (H6 j pc Ej) i Ef) as (it' & x' & ? & ? & _). congruence. }
  assert (forall j pc i', ss !! j = Some pc -> frame pc = Some (Send, i') -> number pc <> Some (length answers)) as Hn.
  { intros j pc i' Ej Ef Hn. apply (Hi j pc i' Ej Ef). pose proof (so_number _ _ _ _ _ (H6 j pc Ej) Send i' _ Ef Hn). congruence. }
  assert (forall i2 it2, delete i items !! i2 = Some it2 -> items !! i2 = Some it2) as Hinv.
  { intros i2 it2. rewrite lookup_delete_Some. naive_solver. }
  split; try done.
  - rewrite El. apply lookup_lt_Some in En. lia.
  - rewrite El, (bag_ext (priv (length answers))) by (intros j pc Ej; apply other_answer; eauto).
    rewrite (drop_next N _ i En), (keys_delete items i it Ei) in H3. by apply Permutation.Permutation_cons_inv in H3.
  - rewrite lookup_delete_ne; [done|]. intros ->. congruence.
  - rewrite El. intros n2 i2 Hn2 En2. destruct (H5 n2 i2 ltac:(lia) En2) as (it2 & E' & Es2 & Hs). exists it2. split_and!; [|done..].
    rewrite lookup_delete_ne; [done|]. intros <-. pose proof (live_inj I (length answers) n2 i ltac:(lia) ltac:(lia) En En2). lia.
  - intros j pc Ej. apply sender_ok_answer; [|by eauto]. eapply sender_ok_frame; [by apply (H6 j)|done| |done].
    intros k i2 it2 F2 Hk Ei2. rewrite lookup_delete_ne; [done|]. intros <-. destruct k; [|by apply (Hi j pc i)].
    destruct Hk as [|Hk]; [done|]. apply (live_priv I (length answers) i j pc); try done.
    destruct pc; simplify_eq/=; by left.
  - intros i1 i2 it1 it2 y E1%Hinv E2%Hinv. by apply (H8 i1 i2 it1 it2 y).
  - intros i2 it2 x2 E2%Hinv. by apply (H9 i2 it2).
  - intros i2 it2 x2 E2%Hinv. by apply (H12 i2).
Qed.

(** The answer of a sent message is written. *)
Lemma m_set_ret N sent answers items sems pool ss i it x ret : m_inv N sent answers items sems pool ss ->
  N !! length answers = Some i -> items !! i = Some it -> it_semaphore it = Some x ->
  m_inv N sent answers (<[i := set_ret ret it]> items) sems pool ss.
Proof.
  intros I En Ei Ex. pose proof I as [H1 H2 H3 H4 H5 H6 H7 H8 H9 H10 H11 H12].
  assert (forall i2 it2, <[i := set_ret ret it]> items !! i2 = Some it2 -> exists it3, items !! i2 = Some it3 /\
    it_semaphore it3 = it_semaphore it2 /\ it_free_cb it3 = it_free_cb it2) as Hinv.
  { intros i2 it2 [[<- <-]|[Hne E2]]%lookup_insert_Some; eauto. }
  split; try done.
  - by rewrite (keys_update items i it).
  - rewrite lookup_insert_ne; [done|]. intros ->. congruence.
  - intros n2 i2 Hn2 En2. destruct (H5 n2 i2 Hn2 En2) as (it2 & E' & Es2 & Hs). destruct (decide (i2 = i)) as [->|Hne].
    + rewrite lookup_insert_eq. rewrite Ei in E'; injection E' as <-. eexists. split_and!; [done|by rewrite Es2|done].
    + rewrite lookup_insert_ne by done. eauto.
  - intros j pc Ej. pose proof (H6 j pc Ej) as [S1 S2 S3 S4]. split; try done.
    + intros i2 F2. destruct (S2 i2 F2) as (it2 & x2 & Ei2 & Ex2 & Es2 & Ha). destruct (decide (i2 = i)) as [->|Hne].
      * rewrite Ei in Ei2; injection Ei2 as <-. rewrite lookup_insert_eq. exists (set_ret ret it), x2. split_and!; [done..|].
        intros n Nn Hn. exfalso. destruct (frame_cases I j pc i Ej F2) as [Hp|(n' & N' & Hd & _)].
        -- by apply (live_priv I (length answers) i j pc).
        -- rewrite Nn in N'. injection N' as <-. lia.
      * rewrite lookup_insert_ne by done. eauto 10.
    + intros i2 F2 N2. destruct (S3 i2 F2 N2) as (it2 & Ei2 & Ex2). rewrite lookup_insert_ne; [eauto|]. intros <-. congruence.
  - intros i1 i2 it1 it2 y (it3 & E1 & <- & _)%Hinv (it4 & E2 & <- & _)%Hinv. by apply (H8 i1 i2 it3 it4 y).
  - intros i2 it2 x2 (it3 & E1 & <- & _)%Hinv. by apply (H9 i2 it3).
  - intros i2 it2 x2 (it3 & E1 & <- & <-)%Hinv. by apply (H12 i2).
Qed.

(** A sent message is answered: its sender may go on, and it is the sender's again. *)
Lemma m_answer_send N sent answers items sems pool ss i it x v : m_inv N sent answers items sems pool ss ->
  N !! length answers = Some i -> items !! i = Some it -> it_semaphore it = Some x -> sems !! x = Some v ->
  m_inv N sent (answers ++ [it_ret it]) items (<[x := v + 1]> sems) pool ss.
Proof.
  intros I En Ei Ex Es. pose proof I as [H1 H2 H3 H4 H5 H6 H7 H8 H9 H10 H11 H12].
  set (D := length answers) in *.
  assert (length (answers ++ [it_ret it]) = S D) as El by (rewrite length_app; simpl; lia).
  destruct (H5 D i (le_n _) En) as (it' & Ei' & _ & Ho). rewrite Ei in Ei'; injection Ei' as <-.
  destruct (Ho x Ex) as (j & pc & Ej & Ef & Nj).
  destruct (so_send _ _ _ _ _ (H6 j pc Ej) i Ef) as (it' & x' & Ei' & Ex' & Es' & _).
  rewrite Ei in Ei'; injection Ei' as <-. rewrite Ex in Ex'; injection Ex' as <-. change (length answers) with D in Es'. rewrite Es in Es'; injection Es' as ->.
  assert (priv D pc = [] /\ priv (S D) pc = [i] /\ signal D pc = 0 /\ signal (S D) pc = 1) as (P1 & P2 & S1 & S2).
  { pose proof (so_return _ _ _ _ _ (H6 j pc Ej)) as Hr.
    assert ((D <? D)%nat = false /\ (D <? S D)%nat = true) as [B1 B2] by (split; [apply Nat.ltb_ge|apply Nat.ltb_lt]; lia).
    destruct pc as [|k i'|k i'|k i' n|k i' n|i' n|i' n]; simplify_eq/=; rewrite ?B1, ?B2; try done.
    pose proof (Hr _ _ eq_refl). unfold D in *. lia. }
  assert (forall j2 pc2 i2, ss !! j2 = Some pc2 -> j2 <> j -> frame pc2 = Some (Send, i2) -> number pc2 <> Some D) as Hn.
  { intros j2 pc2 i2 E2 Hne _ N2. by apply Hne, (H7 j2 j pc2 pc D). }
  split; try done.
  - rewrite El. apply lookup_lt_Some in En. unfold D in *. lia.
  - rewrite El. destruct (bag_move (priv D) (priv (S D)) ss j pc pc Ej) as (r & Hr & Hr' & _).
    { intros j2 pc2 Hne E2. apply other_answer. intros i2. by apply (Hn j2). }
    rewrite list_insert_id in Hr' by done. rewrite <- H3, Hr, Hr', P1, P2, (drop_next N D i En). solve_Permutation.
  - rewrite El. intros n2 i2 Hn2 En2. apply H5; [lia|done].
  - intros j2 pc2 E2. destruct (decide (j2 = j)) as [->|Hne].
    + rewrite Ej in E2. injection E2 as <-. pose proof (H6 j pc Ej) as [Q1 Q2 Q3 Q4]. split; try done.
      * intros i2 F2. rewrite Ef in F2. injection F2 as <-. exists it, x. rewrite lookup_insert_eq, El, S1, S2. split_and!; try done.
        intros n Nn _. rewrite Nj in Nn. injection Nn as <-. by rewrite lookup_app_r, Nat.sub_diag by lia.
      * intros i2 n Ep. rewrite El. pose proof (Q4 i2 n Ep). unfold D in *. lia.
    + apply sender_ok_answer; [|by eauto]. eapply sender_ok_frame; [by apply (H6 j2)|done|done|].
      intros i2 it2 x2 F2 Ei2 Ex2. rewrite lookup_insert_ne; [done|]. intros <-.
      by destruct (other_sem _ _ _ _ _ _ _ _ _ _ _ _ _ _ _ _ _ I Ej E2 Hne Ef F2 Ei Ei2 Ex Ex2).
  - intros y Hy. rewrite lookup_insert_ne; [by apply H11|]. intros <-. by apply (H9 i it x).
Qed.

(** ** References *)

Definition cnt (r : res) (l : list res) : Z := sumZ ((fun r' => if decide (r' = r) then 1 else 0) <$> l).

(** The references a message has itself: only a posted one. *)
Definition holds (r : res) (it : asyncmsgq_item) : Z :=
  match it_semaphore it with None => cnt r (item_refs it) | Some _ => 0 end.

(** The call of [free_cb] a message asks for. *)
Definition free_call (m : message) : option (Z * Z) := match m_free_cb m with Some cb => Some (cb, mg_userdata (m_got m)) | None => None end.

Record c_inv (refs env : res -> Z) (items : gmap Z asyncmsgq_item) (freed : list (Z * Z)) (done : list message) : Prop := {
  ci_refs r : refs r = env r + msum (holds r) items;
  ci_env r : 0 <= env r;
  ci_rely i it x r : items !! i = Some it -> it_semaphore it = Some x -> r ∈ item_refs it -> 0 < env r;
  ci_freed : freed = omap free_call done
}.

Lemma cnt_app r l k : cnt r (l ++ k) = cnt r l + cnt r k.
Proof. unfold cnt. by rewrite fmap_app, sumZ_app. Qed.

Lemma cnt_nonneg r l : 0 <= cnt r l.
Proof. apply sumZ_nonneg, Forall_fmap, Forall_forall. intros r' _. simpl. case_decide; lia. Qed.

Lemma cnt_elem r l : r ∈ l -> 0 < cnt r l.
Proof.
  intros (l1 & l2 & ->)%list_elem_of_split. rewrite cnt_app. change (r :: l2) with ([r] ++ l2). rewrite cnt_app.
  pose proof (cnt_nonneg r l1). pose proof (cnt_nonneg r l2). assert (cnt r [r] = 1); [|lia]. unfold cnt. simpl. by rewrite decide_True.
Qed.

Lemma msg_holds_nonneg r it : 0 <= holds r it.
Proof. unfold holds. case_match; [lia|apply cnt_nonneg]. Qed.

Lemma msum_holds_ge r i it (items : gmap Z asyncmsgq_item) : items !! i = Some it -> holds r it <= msum (holds r) items.
Proof. intros E. apply (msum_ge (holds r) items i); [|done]. intros i' it' _. apply msg_holds_nonneg. Qed.

Lemma env_le_refs refs env items freed sent r : c_inv refs env items freed sent -> env r <= refs r.
Proof.
  intros [H1 _ _ _]. rewrite H1. pose proof (msum_nonneg (holds r) items) as Hm. assert (0 <= msum (holds r) items); [|lia].
  apply Hm. intros i it _. apply msg_holds_nonneg.
Qed.

(** Counting up and down. *)
Lemma when_ref (C : Z -> res) o s : (forall p, o = Some p -> 0 < ms_refs s (C p)) ->
  exists f, when (fun p => res_ref (C p)) o s = Ok (set_refs f s) /\ forall r, f r = ms_refs s r + cnt r (res_of C o).
Proof.
  intros H. destruct o as [p|]; simpl.
  - unfold res_ref. pose proof (H p eq_refl). rewrite pa_assert_true by blia. eexists. split; [done|]. intros r. unfold cnt. simpl.
    destruct (decide (C p = r)) as [->|]; [rewrite fn_lookup_insert; lia|rewrite fn_lookup_insert_ne by done; lia].
  - exists (ms_refs s). split; [by destruct s|]. intros r. unfold cnt. simpl. lia.
Qed.

Lemma when_unref (C : Z -> res) o s : (forall p, o = Some p -> 0 < ms_refs s (C p)) ->
  exists f, when (fun p => res_unref (C p)) o s = Ok (set_refs f s) /\ forall r, f r = ms_refs s r - cnt r (res_of C o).
Proof.
  intros H. destruct o as [p|]; simpl.
  - unfold res_unref. pose proof (H p eq_refl). rewrite pa_assert_true by blia. eexists. split; [done|]. intros r. unfold cnt. simpl.
    destruct (decide (C p = r)) as [->|]; [rewrite fn_lookup_insert; lia|rewrite fn_lookup_insert_ne by done; lia].
  - exists (ms_refs s). split; [by destruct s|]. intros r. unfold cnt. simpl. lia.
Qed.

Lemma cnt_other r (C C' : Z -> res) o : (forall p p', C p <> C' p') -> (exists p, r = C' p) -> cnt r (res_of C o) = 0.
Proof. intros H [p ->]. destruct o as [p'|]; [|done]. unfold cnt. simpl. rewrite decide_False; [lia|]. apply H. Qed.

(** What [release] and [free_one] do to a posted message, whatever the order. *)
Definition released (i : Z) (it : asyncmsgq_item) (f : res -> Z) (s : mstate) : mstate :=
  free_item i (set_refs f (set_freed (ms_freed s ++ option_list (free_call (content it))) s)).

Lemma when_free_cb it s : when (call_free_cb it) (it_free_cb it) s = Ok (set_freed (ms_freed s ++ option_list (free_call (content it))) s).
Proof. unfold free_call. simpl. destruct (it_free_cb it); simpl; [done|]. rewrite app_nil_r. by destruct s. Qed.

Lemma unref_item it s : (forall r, r ∈ item_refs it -> cnt r (item_refs it) <= ms_refs s r) ->
  exists f1 f, when (fun o => res_unref (Obj o)) (it_object it) s = Ok (set_refs f1 s) /\
    when (fun b => res_unref (Blk b)) (mc_memblock (it_memchunk it)) (set_refs f1 s) = Ok (set_refs f s) /\
    forall r, f r = ms_refs s r - cnt r (item_refs it).
Proof.
  intros H. assert (forall r, r ∈ item_refs it -> 0 < ms_refs s r) as Hp.
  { intros r Hr. pose proof (H r Hr). pose proof (cnt_elem r _ Hr). lia. }
  destruct (when_unref Obj (it_object it) s) as (f1 & E1 & H1).
  { intros p Ep. apply Hp. unfold item_refs. rewrite Ep. by left. }
  destruct (when_unref Blk (mc_memblock (it_memchunk it)) (set_refs f1 s)) as (f & E2 & H2).
  { intros p Ep. simpl. rewrite H1, (cnt_other _ Obj Blk) by (done || by eexists). rewrite Z.sub_0_r. apply Hp.
    unfold item_refs. rewrite Ep. apply elem_of_app. right. by left. }
  exists f1, f. split_and!; [done|by rewrite E2|]. intros r. rewrite H2. simpl. rewrite H1. unfold item_refs. rewrite cnt_app. lia.
Qed.

Lemma release_spec i it s : (forall r, r ∈ item_refs it -> cnt r (item_refs it) <= ms_refs s r) ->
  exists f, release i it s = Ok (released i it f s) /\ forall r, f r = ms_refs s r - cnt r (item_refs it).
Proof.
  intros H. unfold release. rewrite when_free_cb. simpl.
  destruct (unref_item it (set_freed (ms_freed s ++ option_list (free_call (content it))) s) H) as (f1 & f & E1 & E2 & Hf).
  exists f. rewrite E1. cbn [mbind outcome_bind]. rewrite E2. done.
Qed.

Lemma free_one_spec i it s : ms_items s !! i = Some it -> it_semaphore it = None ->
  (forall r, r ∈ item_refs it -> cnt r (item_refs it) <= ms_refs s r) ->
  exists f, free_one i s = Ok (released i it f s) /\ forall r, f r = ms_refs s r - cnt r (item_refs it).
Proof.
  intros Ei Ex H. unfold free_one, get_item. rewrite Ei. simpl. rewrite bool_decide_true by done. simpl.
  destruct (unref_item it s H) as (f1 & f & E1 & E2 & Hf). exists f. rewrite E1. cbn [mbind outcome_bind]. rewrite E2.
  cbn [mbind outcome_bind]. rewrite when_free_cb. done.
Qed.

Lemma c_add refs refs' env items freed done i it : c_inv refs env items freed done -> items !! i = None ->
  (forall r, refs' r = refs r + holds r it) -> (forall x r, it_semaphore it = Some x -> r ∈ item_refs it -> 0 < env r) ->
  c_inv refs' env (<[i := it]> items) freed done.
Proof.
  intros [H1 H2 H3 H4] Ei Hr Hx. split; try done.
  - intros r. rewrite Hr, H1, msum_insert_new by done. lia.
  - intros i' it' x r [[<- <-]|[_ E]]%lookup_insert_Some; eauto.
Qed.

Lemma c_remove refs refs' env items freed done i it m : c_inv refs env items freed done -> items !! i = Some it ->
  (forall r, refs' r = refs r - holds r it) ->
  c_inv refs' env (delete i items) (freed ++ option_list (m ≫= free_call)) (done ++ option_list m).
Proof.
  intros [H1 H2 H3 H4] Ei Hr. split; try done.
  - intros r. rewrite Hr, H1, (msum_delete (holds r) items i it) by done. lia.
  - intros i' it' x r [_ E]%lookup_delete_Some. by apply (H3 i').
  - rewrite H4, omap_app. f_equal. destruct m as [m|]; simpl; [|done]. by destruct (free_call m).
Qed.

Lemma c_set_ret refs env items freed done i it ret : c_inv refs env items freed done -> items !! i = Some it ->
  c_inv refs env (<[i := set_ret ret it]> items) freed done.
Proof.
  intros [H1 H2 H3 H4] Ei. split; try done.
  - intros r. rewrite H1, (msum_insert_old (holds r) items i it) by done. change (holds r (set_ret ret it)) with (holds r it). lia.
  - intros i' it' x r [[<- <-]|[_ E]]%lookup_insert_Some; [by apply (H3 i it)|by apply (H3 i')].
Qed.

Lemma c_env refs env items freed done r d : c_inv refs env items freed done -> 0 <= env r + d ->
  (env r + d <= 0 -> forall i it x, items !! i = Some it -> it_semaphore it = Some x -> r ∈ item_refs it -> False) ->
  c_inv (<[r := refs r + d]> refs) (<[r := env r + d]> env) items freed done.
Proof.
  intros [H1 H2 H3 H4] Hd Hr. split; try done.
  - intros r'. destruct (decide (r' = r)) as [->|]; [rewrite !fn_lookup_insert, H1; lia|by rewrite !fn_lookup_insert_ne by done].
  - intros r'. destruct (decide (r' = r)) as [->|]; [by rewrite fn_lookup_insert|by rewrite fn_lookup_insert_ne by done].
  - intros i it x r' Ei Ex Hin. destruct (decide (r' = r)) as [->|]; [|rewrite fn_lookup_insert_ne by done; by eapply H3].
    rewrite fn_lookup_insert. destruct (Z.le_gt_cases (env r + d) 0) as [Hle|]; [|lia]. by destruct (Hr Hle i it x).
Qed.

(** ** The receiver *)

(** The message the receiver has is the oldest one that was not answered. *)
Definition recv_at (y : msys) (i : Z) : Prop :=
  let q := ms_q (y_st y) in
  as_reader q = RdIdle /\ length (as_received q) = S (length (y_answers y)) /\ ms_current (y_st y) = Some i /\
  as_sent q !! length (y_answers y) = Some i.

Definition recv_ok (y : msys) : Prop :=
  let q := ms_q (y_st y) in
  match y_recv y with
  | RIdle => polls (as_reader q) /\ length (as_received q) = length (y_answers y) /\ ms_current (y_st y) = None
  | RPop op => popping (op_waits op) (as_reader q) /\ length (as_received q) = length (y_answers y) /\ ms_current (y_st y) = None
  | RHave _ _ | RDone _ _ _ => exists i, recv_at y i
  | RPost _ _ ret => exists i it x, recv_at y i /\ ms_items (y_st y) !! i = Some it /\ it_semaphore it = Some x /\ it_ret it = ret
  | RClear _ _ => as_reader q = RdIdle /\ length (as_received q) = length (y_answers y)
  end.

Record minv (size : Z) (y : msys) : Prop := {
  vi_q : q_inv size (ms_q (y_st y)) (ms_mutex (y_st y)) (y_senders y);
  vi_m : m_inv (as_sent (ms_q (y_st y))) (y_sent y) (y_answers y) (ms_items (y_st y)) (ms_sems (y_st y)) (ms_sem_pool (y_st y)) (y_senders y);
  vi_c : c_inv (ms_refs (y_st y)) (y_env y) (ms_items (y_st y)) (ms_freed (y_st y)) (take (length (y_answers y)) (y_sent y));
  vi_r : recv_ok y;
  vi_got : y_got y = take (length (as_received (ms_q (y_st y)))) (m_got <$> y_sent y);
  vi_returned n r : (n, r) ∈ y_returned y -> y_answers y !! n = Some r;
  vi_refcnt : ms_refcnt (y_st y) = y_qenv y + (if recv_holds (y_recv y) then 1 else 0);
  vi_alive : 0 < ms_refcnt (y_st y);
  vi_used : 0 <= y_qenv y /\ (queue_used y -> 0 < y_qenv y)
}.

(** The queue was freed. *)
Record gone (y : msys) : Prop := {
  gi_refcnt : ms_refcnt (y_st y) <= 0;
  gi_qenv : y_qenv y <= 0;
  gi_senders : Forall (fun pc => pc = SIdle) (y_senders y);
  gi_recv : y_recv y = RIdle;
  gi_got : y_got y `prefix_of` (m_got <$> y_sent y);
  gi_len : length (y_got y) = length (y_answers y);
  gi_returned n r : (n, r) ∈ y_returned y -> y_answers y !! n = Some r
}.
