(* ===== verification/AsyncmsgqFree.v ===== *)
(** * AsyncmsgqFree: what becomes of the messages when the queue is freed

    [asyncmsgq_free] takes the messages out of the ring and releases them; those in
    the overflow list of the queue it does not see. *)
From stdpp Require Import functions base tactics numbers list gmap.
From S2P Require Import Prelude Memblock Fdsem Asyncq AsyncqProps Asyncmsgq AsyncmsgqInv.

(** A queue nobody else uses, with [c] in its ring. *)
Definition alone (l : pa_asyncq) (c : list Z) : Prop :=
  (exists k, 0 <= k < 32 /\ aq_size l = 2 ^ k) /\ ring (aq_size l) (aq_cells l) (aq_read_idx l) c.

Lemma alone_size l c : alone l c -> 0 < aq_size l.
Proof. intros [(k & Hk & ->) _]. apply Z.pow_pos_nonneg; lia. Qed.

Lemma alone_cell l c : alone l c -> cell_at l (aq_read_idx l) = Ok (default 0 (head c)).
Proof.
  intros Ha. pose proof (alone_size l c Ha) as Hs. destruct Ha as [Hp Hr]. unfold cell_at.
  by rewrite (reduce_pow2 _ _ Hp), (ring_head _ _ _ _ Hs Hr).
Qed.

Lemma pop_goes n pc l pc' l' ret : reader_step pc l = Ok (Some (pc', l', ret)) -> pc' <> RdIdle -> pop_alone (S n) pc l = pop_alone n pc' l'.
Proof. intros E H. simpl. rewrite E. simpl. by destruct pc'. Qed.

Lemma pop_ends n pc l l' ret : reader_step pc l = Ok (Some (RdIdle, l', ret)) -> pop_alone (S n) pc l = Ok (ret, l').
Proof. intros E. simpl. by rewrite E. Qed.

(** The semaphore is posted in at most four steps. *)
Lemma post_alone v l : exists f, pop_alone 4 (RdPost v PostCas) l = Ok (Some v, set_read_fdsem f l).
Proof.
  destruct l as [sz ri wi [e cn w sg p] wf lq last wp cells].
  destruct (sg =? 0) eqn:Es; [|eexists; apply pop_ends; simpl; unfold cas_signalled; simpl; rewrite Es; reflexivity].
  erewrite pop_goes; [|simpl; unfold cas_signalled; simpl; rewrite Es; reflexivity|done].
  destruct (w =? 0) eqn:Ew; [eexists; apply pop_ends; simpl; rewrite Ew; reflexivity|].
  erewrite pop_goes; [|simpl; rewrite Ew; reflexivity|done]. erewrite pop_goes; [|reflexivity|done].
  eexists. apply pop_ends. reflexivity.
Qed.

Lemma pop_alone_spec l c : alone l c ->
  exists l', pop_alone pop_fuel (RdLoad false) l = Ok (head c, l') /\ alone l' (tail c) /\ aq_localq l' = aq_localq l /\
    length (aq_cells l') = length (aq_cells l).
Proof.
  intros Ha. pose proof (alone_cell l c Ha) as Ec. pose proof (alone_size l c Ha) as Hs. destruct Ha as [Hp Hr].
  destruct c as [|v c]; [exists l; split; [|done]; apply pop_ends; simpl; rewrite Ec; reflexivity|].
  pose proof (rg_null _ _ _ _ Hr) as [Hv _]%Forall_cons. simpl in Ec. apply Z.eqb_neq in Hv.
  destruct (post_alone v (set_read_idx (u32 (aq_read_idx l + 1)) (set_cell l (aq_read_idx l) 0))) as [f Ef].
  eexists. split.
  - unfold pop_fuel. erewrite pop_goes; [|simpl; rewrite Ec; simpl; rewrite Hv; reflexivity|done].
    erewrite pop_goes; [|simpl; rewrite Ec; simpl; rewrite Z.eqb_refl; reflexivity|done].
    erewrite pop_goes; [|reflexivity|done]. exact Ef.
  - split_and!; [|done|by simpl; rewrite length_insert].
    split; [done|]. simpl. rewrite (reduce_pow2 _ _ Hp). destruct Hp as (k & Hk & Ek). apply (ring_base _ _ (aq_read_idx l + 1)); [done| |by apply (ring_pop _ _ _ v)].
    rewrite Ek. by rewrite u32_mod.
Qed.

(** A message in memory that was posted. *)
Definition posted (items : gmap Z asyncmsgq_item) (i : Z) (m : message) : Prop :=
  exists it, items !! i = Some it /\ content it = m /\ it_semaphore it = None.

Lemma free_items_spec env c : forall fuel msgs done s,
  (length c <= fuel)%nat -> alone (as_q (ms_q s)) c -> NoDup c -> Forall2 (posted (ms_items s)) c msgs ->
  c_inv (ms_refs s) env (ms_items s) (ms_freed s) done ->
  exists s', free_items fuel s = Ok s' /\ c_inv (ms_refs s') env (ms_items s') (ms_freed s') (done ++ msgs) /\
    c ++ (map_to_list (ms_items s')).*1 ≡ₚ (map_to_list (ms_items s)).*1 /\ ms_refcnt s' = ms_refcnt s.
Proof.
  induction c as [|i c IH]; intros fuel msgs don s Hl Ha Hd Hm Hc.
  - apply Forall2_nil_inv_l in Hm as ->. destruct (pop_alone_spec _ _ Ha) as (l' & El & _). exists (set_q (set_as_q l' (ms_q s)) s).
    rewrite app_nil_r. destruct fuel; cbn [free_items]; rewrite El; done.
  - apply Forall2_cons_inv_l in Hm as (m & msgs' & (it & Ei & <- & Ex) & Hm & ->). apply NoDup_cons in Hd as [Hi Hd].
    destruct fuel as [|fuel]; [simpl in Hl; lia|]. destruct (pop_alone_spec _ _ Ha) as (l' & El & Ha' & _). cbn [free_items]. rewrite El.
    cbn [mbind outcome_bind head]. set (s1 := set_q (set_as_q l' (ms_q s)) s).
    destruct (free_one_spec i it s1 Ei Ex) as (f & Ef & Hf).
    { intros r _. pose proof (msum_holds_ge r i it _ Ei) as Hh. unfold holds at 1 in Hh. rewrite Ex in Hh. pose proof (ci_refs _ _ _ _ _ Hc r).
      pose proof (ci_env _ _ _ _ _ Hc r). simpl. lia. }
    rewrite Ef. cbn [mbind outcome_bind].
    destruct (IH fuel msgs' (don ++ [content it]) (released i it f s1)) as (s' & Es & Hc' & Hp & Hn).
    + simpl in Hl. lia.
    + exact Ha'.
    + exact Hd.
    + apply (Forall2_impl _ _ _ _ (Forall2_with _ (fun i => i ∈ c) _ _ Hm ltac:(by apply Forall_forall))). intros i' m' [(it' & Ei' & H') Hin]. exists it'. split; [|done]. simpl.
      rewrite lookup_delete_ne; [done|]. intros <-. done.
    + apply (c_remove _ f _ _ _ _ i it (Some (content it)) Hc Ei). intros r. rewrite Hf. unfold holds. by rewrite Ex.
    + exists s'. rewrite <- app_assoc in Hc'. split_and!; [done|done| |done]. rewrite (keys_delete (ms_items s) i it Ei). exact (perm_skip i Hp).
Qed.

(** Freeing a queue that nobody is in: everything in the ring is released, and
    what is in the overflow list stays in memory. *)
Lemma free_alone size s ss sent answers env : q_inv size (ms_q s) (ms_mutex s) ss ->
  m_inv (as_sent (ms_q s)) sent answers (ms_items s) (ms_sems s) (ms_sem_pool s) ss ->
  c_inv (ms_refs s) env (ms_items s) (ms_freed s) (take (length answers) sent) ->
  Forall (fun pc => pc = SIdle) ss -> as_reader (ms_q s) = RdIdle \/ as_reader (ms_q s) = RdPolling ->
  length (as_received (ms_q s)) = length answers ->
  exists s' c, asyncmsgq_free s = Ok s' /\ ms_refcnt s' = ms_refcnt s /\
    ring (aq_size (as_q (ms_q s))) (aq_cells (as_q (ms_q s))) (aq_read_idx (as_q (ms_q s))) c /\
    as_sent (ms_q s) = as_received (ms_q s) ++ c ++ reverse (aq_localq (as_q (ms_q s))) /\
    c_inv (ms_refs s') env (ms_items s') (ms_freed s') (take (length answers + length c) sent) /\
    (map_to_list (ms_items s')).*1 ≡ₚ reverse (aq_localq (as_q (ms_q s))).
Proof.
  intros Q M C Hi Hr Hl. assert (forall j pc, ss !! j = Some pc -> pc = SIdle) as Hidle by (intros j pc E; by rewrite Forall_lookup in Hi; apply (Hi j)).
  destruct (reach_inv size _ (qi_size _ _ _ _ Q) (qi_reach _ _ _ _ Q)) as [c I].
  assert (as_writer (ms_q s) = WrIdle) as Ew.
  { pose proof (qi_writer _ _ _ _ Q) as Hw. pose proof (qi_locked _ _ _ _ Q) as Hk. destruct (ms_mutex s) as [j|]; [|done].
    destruct Hw as (pc & Ej & _). apply Hk in Ej as Hx. apply Hidle in Ej as ->. by destruct Hx as [_ Hx]; discriminate Hx. }
  assert (read_pos (as_reader (ms_q s)) (as_q (ms_q s)) = aq_read_idx (as_q (ms_q s)) /\ in_reader (as_reader (ms_q s)) = []) as [Er En]
    by (unfold read_pos; destruct Hr as [-> | ->]; rewrite Z.add_0_r; done).
  pose proof (ai_fifo _ _ _ _ _ _ I) as Ef. rewrite Ew, En in Ef. simpl in Ef.
  pose proof (ai_ring _ _ _ _ _ _ I) as Hg. rewrite Er in Hg.
  assert (bag (priv (length answers)) ss = []) as Eb.
  { apply elem_of_nil_inv. intros i (j & pc & Ej & Hp)%bag_elem_inv. apply Hidle in Ej as ->. by apply not_elem_of_nil in Hp. }
  pose proof (mi_keys _ _ _ _ _ _ _ M) as Hk. rewrite Eb, app_nil_r, Ef, <- Hl, drop_app_length in Hk.
  set (msgs := take (length c) (drop (length answers) sent)).
  assert (Forall2 (posted (ms_items s)) c msgs) as Hm.
  { apply Forall2_same_length_lookup. split.
    - unfold msgs. rewrite length_take, length_drop, (mi_len _ _ _ _ _ _ _ M), Ef, !length_app. lia.
    - intros k i m Ek Em. unfold msgs in Em. apply lookup_take_Some in Em as [Em _]. rewrite lookup_drop in Em.
      destruct (mi_msg _ _ _ _ _ _ _ M (length answers + k) i) as (it & Ei & Es & Hx); [lia| |].
      + rewrite Ef, <- Hl, lookup_app_r by lia. replace (length (as_received (ms_q s)) + k - length (as_received (ms_q s)))%nat with k by lia.
        by apply lookup_app_l_Some.
      + exists it. split_and!; [done|congruence|]. destruct (it_semaphore it) as [x|] eqn:Ex; [|done].
        destruct (Hx x eq_refl) as (j & pc & Ej & Hp & _). apply Hidle in Ej as ->. done. }
  destruct (free_items_spec env c (length (aq_cells (as_q (ms_q s)))) msgs (take (length answers) sent) s) as (s' & Es & Hc & Hp & Hn); try done.
  - pose proof (rg_length _ _ _ _ Hg). pose proof (rg_cells _ _ _ _ Hg). lia.
  - split; [apply I|done].
  - assert (NoDup (c ++ reverse (aq_localq (as_q (ms_q s))))) as Hd by (rewrite Hk; apply NoDup_fst_map_to_list). apply NoDup_app in Hd as [Hd _]. exact Hd.
  - eexists _, c. unfold asyncmsgq_free. rewrite Es. split; [reflexivity|]. split; [exact Hn|]. split; [exact Hg|]. split; [exact Ef|]. split.
    + unfold msgs in Hc. rewrite take_take_drop in Hc. exact Hc.
    + rewrite <- Hk in Hp. by apply Permutation.Permutation_app_inv_l in Hp.
Qed.
