(* ===== verification/AsyncmsgqProps.v ===== *)
(** * AsyncmsgqProps: what the message queue guarantees

    In every interleaving of any number of senders and one receiver: messages are
    received as they were sent, in order and once; a sender gets the answer to its
    own message, and not before it was given; what a posted message holds is given
    back once. *)
From stdpp Require Import functions base tactics numbers list gmap.
From S2P Require Import Prelude Memblock Fdsem Asyncq AsyncqProps Asyncmsgq AsyncmsgqInv AsyncmsgqFree.

(** ** Steps of the senders *)

Lemma recv_ok_frame y y' : recv_ok y -> y_recv y' = y_recv y -> y_answers y' = y_answers y ->
  as_reader (ms_q (y_st y')) = as_reader (ms_q (y_st y)) -> as_received (ms_q (y_st y')) = as_received (ms_q (y_st y)) ->
  ms_current (y_st y') = ms_current (y_st y) -> as_sent (ms_q (y_st y)) `prefix_of` as_sent (ms_q (y_st y')) ->
  (forall i it x, recv_at y i -> ms_items (y_st y) !! i = Some it -> it_semaphore it = Some x -> ms_items (y_st y') !! i = Some it) ->
  recv_ok y'.
Proof.
  intros H Er Ea Ed Ev Ec Hp Hi. assert (forall i, recv_at y i -> recv_at y' i) as Ht.
  { intros i (H1 & H2 & H3 & H4). unfold recv_at. rewrite Ed, Ev, Ea, Ec. split_and!; try done. by eapply prefix_lookup_Some. }
  unfold recv_ok in *. rewrite Er, Ed, Ev, Ea, Ec. destruct (y_recv y); try done.
  - destruct H; eauto.
  - destruct H; eauto.
  - destruct H as (i & it & x & H1 & H2 & H3 & H4). exists i, it, x. eauto 10.
Qed.

Lemma q_move size q m ss j pc pc' : q_inv size q m ss -> ss !! j = Some pc -> locked pc' = locked pc ->
  (writer_at pc (as_writer q) -> writer_at pc' (as_writer q)) -> q_inv size q m (<[j := pc']> ss).
Proof.
  intros [H0 H1 H2 H3 H4] Ej El Hw. split; try done.
  - intros j2 pc2 [(<- & <- & _)|[_ E2]]%list_lookup_insert_Some; [rewrite El|]; by apply H3.
  - destruct m as [j2|]; [|done]. destruct H4 as (pc2 & E2 & Hw2). destruct (decide (j2 = j)) as [->|Hne].
    + exists pc'. rewrite list_lookup_insert_eq by (by eapply lookup_lt_Some). split; [done|]. simplify_eq. auto.
    + exists pc2. by rewrite list_lookup_insert_ne.
Qed.

(** What a sender changes, and what it leaves alone. *)
Lemma minv_sender size y s ss sent rets : minv size y -> 0 < y_qenv y ->
  q_inv size (ms_q s) (ms_mutex s) ss ->
  m_inv (as_sent (ms_q s)) sent (y_answers y) (ms_items s) (ms_sems s) (ms_sem_pool s) ss ->
  c_inv (ms_refs s) (y_env y) (ms_items s) (ms_freed s) (take (length (y_answers y)) sent) ->
  as_reader (ms_q s) = as_reader (ms_q (y_st y)) -> as_received (ms_q s) = as_received (ms_q (y_st y)) ->
  ms_current s = ms_current (y_st y) -> ms_refcnt s = ms_refcnt (y_st y) ->
  as_sent (ms_q (y_st y)) `prefix_of` as_sent (ms_q s) ->
  y_sent y `prefix_of` sent ->
  (forall i it x, recv_at y i -> ms_items (y_st y) !! i = Some it -> it_semaphore it = Some x -> ms_items s !! i = Some it) ->
  (forall n r, (n, r) ∈ rets -> y_answers y !! n = Some r) ->
  minv size (mk_msys s ss (y_recv y) (y_env y) (y_qenv y) sent (y_got y) (y_answers y) rets).
Proof.
  intros [V1 V2 V3 V4 V5 V6 V7 V8 V9] Hq Hqi Hm Hc Er Ev Ec En Hp Hs Hi Hr. split; simpl; try done.
  - by eapply recv_ok_frame.
  - rewrite V5, Ev. destruct Hs as [k ->]. rewrite fmap_app, take_app_le; [done|]. rewrite length_fmap, (mi_len _ _ _ _ _ _ _ V2).
    by apply prefix_length, (q_received _ _ _ _ V1).
  - by rewrite En.
  - by rewrite En.
  - split; [lia|done].
Qed.

Lemma sender_uses y j pc : y_senders y !! j = Some pc -> pc <> SIdle -> queue_used y.
Proof. intros E Hn. left. apply Exists_exists. exists pc. split; [|done]. by eapply list_elem_of_lookup_2. Qed.

Lemma args_alive size y a : minv size y -> args_ok a y -> forall r, r ∈ args_refs a -> 0 < ms_refs (y_st y) r.
Proof.
  intros V [Ha _] r Hr. rewrite Forall_forall in Ha. pose proof (Ha r Hr). pose proof (env_le_refs _ _ _ _ _ r (vi_c _ _ V)). lia.
Qed.

Lemma in_use_ok s : 0 < ms_refcnt s -> in_use s = Ok tt.
Proof. intros H. unfold in_use. by destruct (Z.ltb_spec 0 (ms_refcnt s)); [|lia]. Qed.

Lemma chunk_arg_ok a y : args_ok a y -> exists c, chunk_arg (ma_chunk a) = Ok c /\ mc_memblock c = ma_chunk a ≫= mc_memblock.
Proof.
  intros [_ H]. destruct (ma_chunk a) as [c|]; [|by exists pa_memchunk_reset]. exists c. split; [|done]. unfold chunk_arg. by rewrite bool_decide_true.
Qed.

(** [pa_asyncmsgq_post] up to the mutex. *)
Lemma post_starts size y j i junk a cb : minv size y -> y_senders y !! j = Some SIdle -> 0 < y_qenv y -> args_ok a y -> unused i y ->
  exists s, pa_asyncmsgq_post i junk a cb (y_st y) = Ok (SLock Post i, s) /\
    minv size (mk_msys s (<[j := SLock Post i]> (y_senders y)) (y_recv y) (y_env y) (y_qenv y) (y_sent y) (y_got y) (y_answers y) (y_returned y)).
Proof.
  intros V Ej Hq Ha [H0 Hi]. destruct (chunk_arg_ok a y Ha) as (c & Ec & Eb).
  pose proof (args_alive size y a V Ha) as Hl. unfold args_refs in Hl. rewrite <- Eb in Hl.
  destruct (when_ref Obj (ma_object a) (y_st y)) as (f1 & E1 & F1).
  { intros p Ep. apply Hl. rewrite Ep. by left. }
  destruct (when_ref Blk (mc_memblock c) (set_refs f1 (y_st y))) as (f & E2 & F).
  { intros p Ep. simpl. rewrite F1. pose proof (cnt_nonneg (Blk p) (res_of Obj (ma_object a))).
    enough (0 < ms_refs (y_st y) (Blk p)) by lia. apply Hl. rewrite Ep. apply elem_of_app. right. by left. }
  unfold pa_asyncmsgq_post. rewrite in_use_ok by apply V. simpl. rewrite E1. cbn [mbind outcome_bind]. rewrite Ec.
  cbn [mbind outcome_bind]. rewrite E2. cbn [mbind outcome_bind]. eexists. split; [done|].
  apply minv_sender; simpl; try done.
  - apply (q_move _ _ _ _ _ SIdle); try done. apply V.
  - eapply m_add; try done. apply V.
  - eapply c_add; [apply V|done| |done]. intros r. rewrite F. simpl. rewrite F1. unfold holds, item_refs. simpl. rewrite cnt_app. lia.
  - intros i2 it x _ E2' _. rewrite lookup_insert_ne; [done|]. intros <-. congruence.
  - apply V.
Qed.

(** [pa_asyncmsgq_send] up to the mutex. *)
Lemma send_starts size y j i f a : minv size y -> y_senders y !! j = Some SIdle -> 0 < y_qenv y -> args_ok a y -> unused i y ->
  sem_ok f (y_st y) ->
  exists s, pa_asyncmsgq_send i f a (y_st y) = Ok (SLock Send i, s) /\
    minv size (mk_msys s (<[j := SLock Send i]> (y_senders y)) (y_recv y) (y_env y) (y_qenv y) (y_sent y) (y_got y) (y_answers y) (y_returned y)).
Proof.
  intros V Ej Hq Ha [H0 Hi] Hf. destruct (chunk_arg_ok a y Ha) as (c & Ec & Eb). pose proof (vi_m _ _ V) as M.
  assert (exists x sems pool, take_sem f (y_st y) = Ok (x, set_sems sems pool (y_st y)) /\ sems !! x = Some 0 /\
    (forall z, z <> x -> sems !! z = ms_sems (y_st y) !! z) /\ (x ∉ pool) /\ NoDup pool /\ (forall z, z ∈ pool -> z ∈ ms_sem_pool (y_st y)) /\
    (forall i' it', ms_items (y_st y) !! i' = Some it' -> it_semaphore it' <> Some x)) as (x & sems & pool & Et & Hx).
  { destruct f as [k|x]; simpl in Hf |- *.
    - destruct Hf as [x Ex]. rewrite Ex. simpl. pose proof (mi_pool _ _ _ _ _ _ _ M) as Hd. pose proof (list_elem_of_lookup_2 _ _ _ Ex) as Hin.
      rewrite (delete_Permutation _ _ _ Ex) in Hd. apply NoDup_cons in Hd as [Hd Hd'].
      exists x, (ms_sems (y_st y)), (delete k (ms_sem_pool (y_st y))). split_and!; try done.
      + by apply (mi_zero _ _ _ _ _ _ _ M).
      + intros z Hz. rewrite (delete_Permutation _ _ _ Ex). by right.
      + intros i' it' E X. by apply (mi_used _ _ _ _ _ _ _ M i' it' x E X).
    - exists x, (<[x := 0]> (ms_sems (y_st y))), (ms_sem_pool (y_st y)). split_and!; try done.
      + apply lookup_insert_eq.
      + intros z Hz. by rewrite lookup_insert_ne.
      + intros Hin. apply (mi_zero _ _ _ _ _ _ _ M) in Hin. congruence.
      + apply M.
      + intros i' it' E X. destruct (item_signal M i' it' x E X). congruence. }
  unfold pa_asyncmsgq_send. rewrite in_use_ok by apply V. simpl. rewrite Ec. cbn [mbind outcome_bind]. rewrite Et. cbn [mbind outcome_bind].
  eexists. split; [done|]. apply minv_sender; simpl; try done.
  - apply (q_move _ _ _ _ _ SIdle); try done. apply V.
  - eapply m_add; try done. by exists x.
  - eapply c_add; [apply V|done| |].
    + intros r. unfold holds. simpl. lia.
    + intros x' r [= <-] Hr. destruct Ha as [Ha _]. rewrite Forall_forall in Ha. apply Ha. unfold item_refs, args_refs in *. simpl in Hr. by rewrite <- Eb.
  - intros i2 it x' _ E2' _. rewrite lookup_insert_ne; [done|]. intros <-. congruence.
  - apply V.
Qed.

(** The rest of a call. *)
Definition after_sender (size : Z) (y : msys) (j : nat) (pc : sender) (o : option (sender * mstate * option Z)) : Prop :=
  forall pc' s r, o = Some (pc', s, r) ->
    minv size (mk_msys s (<[j := pc']> (y_senders y)) (y_recv y) (y_env y) (y_qenv y) (y_sent y ++ entered pc (y_st y)) (y_got y) (y_answers y)
      (y_returned y ++ sender_returns pc r)).

Lemma sender_qenv size y j pc : minv size y -> y_senders y !! j = Some pc -> pc <> SIdle -> 0 < y_qenv y.
Proof. intros V Ej H. apply (vi_used _ _ V). by eapply sender_uses. Qed.

Lemma sender_locked size y j pc : minv size y -> y_senders y !! j = Some pc -> locked pc = true -> ms_mutex (y_st y) = Some j /\ writer_at pc (as_writer (ms_q (y_st y))).
Proof.
  intros V Ej Hl. pose proof (vi_q _ _ V) as Q. apply (qi_locked _ _ _ _ Q j pc Ej) in Hl as Em. split; [done|].
  pose proof (qi_writer _ _ _ _ Q) as Hw. rewrite Em in Hw. destruct Hw as (pc2 & E2 & Hw). by simplify_eq.
Qed.

Lemma sender_item size y j pc k i : minv size y -> y_senders y !! j = Some pc -> frame pc = Some (k, i) -> k = Send \/ number pc = None ->
  exists it, ms_items (y_st y) !! i = Some it /\ i <> 0.
Proof.
  intros V Ej Hf Hk. pose proof (mi_sender _ _ _ _ _ _ _ (vi_m _ _ V) j pc Ej) as Hj.
  assert (exists it, ms_items (y_st y) !! i = Some it) as [it Ei].
  { destruct k; [destruct Hk as [|Hk]; [done|]; destruct (so_post _ _ _ _ _ Hj i Hf Hk) as (it & ? & _)|
      destruct (so_send _ _ _ _ _ Hj i Hf) as (it & x & ? & _)]; eauto. }
  exists it. split; [done|]. intros ->. pose proof (mi_null _ _ _ _ _ _ _ (vi_m _ _ V)). congruence.
Qed.

Lemma lock_step size y j k i : minv size y -> y_senders y !! j = Some (SLock k i) -> exists o, forall kept, sender_step j kept (SLock k i) (y_st y) = Ok o /\ after_sender size y j (SLock k i) o.
Proof.
  intros V Ej. unfold after_sender. simpl. rewrite in_use_ok by apply V. simpl. eexists. intros _. split; [done|]. intros pc' s r Ho.
  destruct (ms_mutex (y_st y)) eqn:Em; [done|]. simplify_eq. rewrite !app_nil_r.
  apply minv_sender; simpl; try done; [by eapply sender_qenv| | |apply V..].
  - pose proof (vi_q _ _ V) as [Q0 Q1 Q2 Q3 Q4]. rewrite Em in *. split; try done.
    + intros j2 pc2 [(<- & <- & _)|[Hne E2]]%list_lookup_insert_Some; [done|]. rewrite (Q3 j2 pc2 E2). split; congruence.
    + exists (SEnter k i). split; [|done]. apply list_lookup_insert_eq. by eapply lookup_lt_Some.
  - eapply m_move; try done; [apply V|]. destruct (mi_sender _ _ _ _ _ _ _ (vi_m _ _ V) j _ Ej). by split.
Qed.

Lemma enter_step size y j k i : minv size y -> y_senders y !! j = Some (SEnter k i) -> exists o, forall kept, sender_step j kept (SEnter k i) (y_st y) = Ok o /\ after_sender size y j (SEnter k i) o.
Proof.
  intros V Ej. destruct (sender_locked _ _ _ _ V Ej) as [Em Hw]; [done|]. destruct (sender_item _ _ _ _ k i V Ej) as (it & Ei & H0); [done|by right|].
  pose proof (sender_qenv _ _ _ _ V Ej ltac:(done)) as Hq. unfold after_sender. simpl in *. rewrite in_use_ok by apply V. simpl.
  pose proof (vi_q _ _ V) as [Q0 Q1 Q2 Q3 Q4]. destruct (writer_for_start k i _ Q2) as (w & Ew & Hf). rewrite Hw, Ew. simpl.
  eexists. intros _. split; [done|]. intros pc' s r [= <- <- <-]. rewrite Ei, app_nil_r.
  apply minv_sender; simpl; try done; [ | | |by apply prefix_app_r|by apply prefix_app_r|apply V].
  - split; simpl; try done.
    + eapply reach_step; [done|]. replace [i] with (sent_by (queue_cmd k i)) by (by destruct k).
      apply (step_writer_start (queue_cmd k i)); [by rewrite Hw|]. intros p Hp. destruct k; apply list_elem_of_singleton in Hp; congruence.
    + intros j2 pc2 [(<- & <- & _)|[Hne E2]]%list_lookup_insert_Some; [done|]. by apply Q3.
    + rewrite Em. exists (SIn k i (length (as_sent (ms_q (y_st y))))). split; [|exact Hf]. apply list_lookup_insert_eq. by eapply lookup_lt_Some.
  - apply (m_enter _ _ _ _ _ _ _ j k i it); [apply V|done..].
  - rewrite take_app_le; [apply V|]. rewrite (mi_len _ _ _ _ _ _ _ (vi_m _ _ V)). apply (vi_m _ _ V).
Qed.

Lemma in_step size y j k i n : minv size y -> y_senders y !! j = Some (SIn k i n) -> exists o, forall kept, sender_step j kept (SIn k i n) (y_st y) = Ok o /\ after_sender size y j (SIn k i n) o.
Proof.
  intros V Ej. destruct (sender_locked _ _ _ _ V Ej) as [Em Hw]; [done|].
  pose proof (sender_qenv _ _ _ _ V Ej ltac:(done)) as Hq. unfold after_sender. simpl in *. rewrite in_use_ok by apply V. cbn [mbind outcome_bind].
  pose proof (vi_q _ _ V) as [Q0 Q1 Q2 Q3 Q4]. destruct (reach_inv size _ Q0 Q1) as [c I]. apply writer_inv in I.
  destruct (writer_step _ _) as [[[[w l] refused]|]| |] eqn:Es; try done; cbn [mbind outcome_bind]; [|by exists None].
  destruct (writer_for_step k i _ _ _ _ _ Hw Es) as (-> & El & Hn). eexists. intros _. split; [done|]. intros pc' s r [= <- <- <-].
  rewrite !app_nil_r. set (pc' := match w with WrIdle => SUnlock k i n | _ => SIn k i n end).
  assert (locked pc' = true /\ writer_at pc' w) as [L1 L2] by (unfold pc'; destruct w, Hn; done).
  apply minv_sender; simpl; try done; [ | |apply V..].
  - split; simpl; try done.
    + eapply reach_step; [done|]. by apply (step_writer (ms_q (y_st y)) w l false).
    + by rewrite El.
    + intros j2 pc2 [(<- & <- & _)|[Hne E2]]%list_lookup_insert_Some; [by rewrite L1, Em|]. by apply Q3.
    + rewrite Em. eexists. split; [|exact L2]. apply list_lookup_insert_eq. by eapply lookup_lt_Some.
  - destruct (mi_sender _ _ _ _ _ _ _ (vi_m _ _ V) j _ Ej) as [S1 S2 S3 S4].
    eapply m_move; [apply V|exact Ej|..]; unfold pc'; destruct w; try done.
Qed.

Lemma unlock_step size y j k i n : minv size y -> y_senders y !! j = Some (SUnlock k i n) -> exists o, forall kept, sender_step j kept (SUnlock k i n) (y_st y) = Ok o /\ after_sender size y j (SUnlock k i n) o.
Proof.
  intros V Ej. destruct (sender_locked _ _ _ _ V Ej) as [Em Hw]; [done|].
  pose proof (sender_qenv _ _ _ _ V Ej ltac:(done)) as Hq. unfold after_sender. simpl in *. rewrite in_use_ok by apply V. cbn [mbind outcome_bind].
  eexists. intros _. split; [done|]. intros pc' s r [= <- <- <-]. rewrite !app_nil_r.
  apply minv_sender; simpl; try done; [ | |apply V..].
  - pose proof (vi_q _ _ V) as [Q0 Q1 Q2 Q3 Q4]. split; simpl; try done.
    intros j2 pc2 [(<- & <- & _)|[Hne E2]]%list_lookup_insert_Some; [by destruct k|].
    rewrite (Q3 j2 pc2 E2), Em. split; congruence.
  - destruct (mi_sender _ _ _ _ _ _ _ (vi_m _ _ V) j _ Ej) as [S1 S2 S3 S4]. destruct k; (eapply m_move; [apply V|exact Ej|..]); try done.
Qed.

Lemma wait_step_ok size y j i n : minv size y -> y_senders y !! j = Some (SWait i n) -> exists o, forall kept, sender_step j kept (SWait i n) (y_st y) = Ok o /\ after_sender size y j (SWait i n) o.
Proof.
  intros V Ej. pose proof (sender_qenv _ _ _ _ V Ej ltac:(done)) as Hq. pose proof (mi_sender _ _ _ _ _ _ _ (vi_m _ _ V) j _ Ej) as Hj.
  unfold after_sender. destruct (so_send _ _ _ _ _ Hj i eq_refl) as (it & x & Ei & Ex & Es & _).
  simpl. unfold get_item. rewrite Ei. simpl. rewrite Ex. simpl. rewrite Es. cbn [mbind outcome_bind deref].
  eexists. intros _. split; [done|]. intros pc' s r Ho. destruct (Z.ltb_spec 0 (signal (length (y_answers y)) (SWait i n))) as [Hv|]; [|done].
  injection Ho as <- <- <-. rewrite !app_nil_r.
  destruct (m_wake _ _ _ _ _ _ _ _ _ _ _ _ _ (vi_m _ _ V) Ej Ei Ex Es Hv) as [Hn Hm].
  apply minv_sender; simpl; try done; [ |apply V..]. apply (q_move _ _ _ _ _ (SWait i n)); try done. apply V.
Qed.

Lemma return_step size y j i n : minv size y -> y_senders y !! j = Some (SReturn i n) -> forall kept, exists o, sender_step j kept (SReturn i n) (y_st y) = Ok o /\ after_sender size y j (SReturn i n) o.
Proof.
  intros V Ej kept. pose proof (sender_qenv _ _ _ _ V Ej ltac:(done)) as Hq. pose proof (mi_sender _ _ _ _ _ _ _ (vi_m _ _ V) j _ Ej) as Hj.
  unfold after_sender. destruct (so_send _ _ _ _ _ Hj i eq_refl) as (it & x & Ei & Ex & Es & _).
  simpl. unfold get_item. rewrite Ei. simpl. rewrite Ex. simpl. eexists. split; [done|]. intros pc' s r [= <- <- <-]. rewrite app_nil_r.
  destruct (m_return _ _ _ _ _ _ _ _ _ _ _ _ kept (vi_m _ _ V) Ej Ei Ex) as [Ha Hm].
  apply minv_sender; try done; try (by destruct kept).
  - destruct kept; apply (q_move _ _ _ _ _ (SReturn i n)); try done; apply V.
  - pose proof (c_remove _ (ms_refs (y_st y)) _ _ _ _ i it None (vi_c _ _ V) Ei) as Hc. simpl in Hc. rewrite !app_nil_r in Hc.
    destruct kept; apply Hc; intros r; unfold holds; rewrite Ex; lia.
  - intros i2 it2 x2 (_ & _ & _ & Hn) Ei2 Ex2. destruct kept; simpl; (rewrite lookup_delete_ne; [done|]); intros <-;
      apply (live_priv (vi_m _ _ V) _ i j (SReturn i n) (le_n _) Hn Ej); by left.
  - intros n2 r2 [Hin|Hin]%elem_of_app; [by apply (vi_returned _ _ V)|]. apply list_elem_of_singleton in Hin. by simplify_eq.
Qed.

Lemma sender_steps size y j pc kept : minv size y -> y_senders y !! j = Some pc ->
  exists o, sender_step j kept pc (y_st y) = Ok o /\ after_sender size y j pc o.
Proof.
  intros V Ej. destruct pc as [|k i|k i|k i n|k i n|i n|i n].
  - by exists None.
  - destruct (lock_step size y j k i V Ej) as [o H]. by exists o.
  - destruct (enter_step size y j k i V Ej) as [o H]. by exists o.
  - destruct (in_step size y j k i n V Ej) as [o H]. by exists o.
  - destruct (unlock_step size y j k i n V Ej) as [o H]. by exists o.
  - destruct (wait_step_ok size y j i n V Ej) as [o H]. by exists o.
  - by apply return_step.
Qed.

(** ** Steps of the receiver *)

Lemma q_reader size q m ss l rd rcv : q_inv size q m ss -> aq_waiting_for_post l = aq_waiting_for_post (as_q q) ->
  asys_step q (mk_asys l rd (as_writer q) (as_sent q) rcv) -> q_inv size (mk_asys l rd (as_writer q) (as_sent q) rcv) m ss.
Proof. intros [Q0 Q1 Q2 Q3 Q4] El Hs. split; simpl; try done; [by eapply reach_step|by rewrite El]. Qed.

(** The system goes on, or the queue is gone. *)
Definition kept_or_gone (size : Z) (y : msys) : Prop := minv size y \/ gone y.

Definition after_receiver (size : Z) (y : msys) (o : option (receiver * mstate * option Z)) : Prop :=
  forall pc s r, o = Some (pc, s, r) ->
    kept_or_gone size (mk_msys s (y_senders y) pc (y_env y) (y_qenv y) (y_sent y) (y_got y ++ taken (y_recv y) pc) (y_answers y ++ answered r) (y_returned y)).

Lemma get_spec op s : 0 < ms_refcnt s -> ms_current s = None -> as_reader (ms_q s) = RdIdle ->
  pa_asyncmsgq_get op s = Ok (RPop op, set_q (mk_asys (as_q (ms_q s)) (RdLoad (op_waits op)) (as_writer (ms_q s)) (as_sent (ms_q s)) (as_received (ms_q s))) s).
Proof. intros Hn Hc Hr. unfold pa_asyncmsgq_get. rewrite in_use_ok by done. simpl. rewrite Hc, bool_decide_true by done. simpl. by rewrite Hr. Qed.

(** [pa_asyncmsgq_get] from any point with the queue to itself; [n]: the references of the queue. *)
Lemma get_starts size y op n got : minv size y -> 0 < n -> as_reader (ms_q (y_st y)) = RdIdle ->
  length (as_received (ms_q (y_st y))) = length (y_answers y) -> got = y_got y ->
  n = y_qenv y + (if recv_holds (RPop op) then 1 else 0) -> (queue_used (mk_msys (y_st y) (y_senders y) (RPop op) (y_env y) (y_qenv y) [] [] [] []) -> 0 < y_qenv y) ->
  exists s, pa_asyncmsgq_get op (set_refcnt n (set_current None (y_st y))) = Ok (RPop op, s) /\
    minv size (mk_msys s (y_senders y) (RPop op) (y_env y) (y_qenv y) (y_sent y) got (y_answers y) (y_returned y)).
Proof.
  intros V Hn Er El -> En Hu. rewrite get_spec by done. eexists. split; [done|]. destruct V as [V1 V2 V3 V4 V5 V6 V7 V8 V9].
  split; simpl; try done.
  - apply q_reader; simpl; [done..|]. apply (step_reader_start (Asyncq.RPop (op_waits op))). by rewrite Er.
  - split; [apply V9|]. intros H. apply Hu. exact H.
Qed.

Lemma reset_id s n : n = ms_refcnt s -> ms_current s = None -> set_refcnt n (set_current None s) = s.
Proof. intros -> E. destruct s. simpl in *. by subst. Qed.

Lemma reset_refcnt s n : ms_current s = None -> set_refcnt n s = set_refcnt n (set_current None s).
Proof. intros E. destruct s. simpl in *. by subst. Qed.

Lemma receive_starts size y op : minv size y -> y_recv y = RIdle -> 0 < y_qenv y -> as_reader (ms_q (y_st y)) = RdIdle ->
  exists pc s, rcv_start op (y_st y) = Ok (pc, s) /\
    minv size (mk_msys s (y_senders y) pc (y_env y) (y_qenv y) (y_sent y) (y_got y) (y_answers y) (y_returned y)).
Proof.
  intros V Er Hq Hd. pose proof (vi_r _ _ V) as R. unfold recv_ok in R. rewrite Er in R. destruct R as (_ & Hl & Hc).
  pose proof (vi_refcnt _ _ V) as Hn. rewrite Er in Hn. simpl in Hn. pose proof (vi_alive _ _ V) as Hv. exists (RPop op).
  destruct (get_starts size y op (y_qenv y + if recv_holds (RPop op) then 1 else 0) (y_got y) V) as (s & Es & Vs); try done.
  { destruct (recv_holds (RPop op)); lia. }
  exists s. split; [|done]. destruct op; simpl in *; try (rewrite reset_id in Es by (done || lia); exact Es).
  unfold pa_asyncmsgq_ref. rewrite in_use_ok by done. simpl. rewrite <- Es. f_equal. rewrite reset_refcnt by done. f_equal. lia.
Qed.

(** The object of a message is alive while somebody has the message. *)
Lemma object_alive size y i it o : minv size y -> ms_items (y_st y) !! i = Some it -> it_object it = Some o -> 0 < ms_refs (y_st y) (Obj o).
Proof.
  intros V Ei Eo. assert (Obj o ∈ item_refs it) as Hin by (unfold item_refs; rewrite Eo; by left).
  pose proof (vi_c _ _ V) as [C1 C2 C3 C4]. destruct (it_semaphore it) as [x|] eqn:Ex.
  - pose proof (C3 i it x (Obj o) Ei Ex Hin). pose proof (env_le_refs _ _ _ _ _ (Obj o) (vi_c _ _ V)). lia.
  - pose proof (msum_holds_ge (Obj o) i it _ Ei) as Hh. unfold holds at 1 in Hh. rewrite Ex in Hh. pose proof (cnt_elem _ _ Hin).
    rewrite (C1 (Obj o)). pose proof (C2 (Obj o)). lia.
Qed.

Lemma get_fields_spec size y op i it s : minv size y -> ms_items (y_st y) !! i = Some it ->
  ms_refcnt s = ms_refcnt (y_st y) -> ms_items s = ms_items (y_st y) -> ms_refs s = ms_refs (y_st y) ->
  get_fields op i s = Ok (RHave op (m_got (content it)),
    set_refcnt (ms_refcnt s + match op with OpProcessOne | OpFlush true => 1 | _ => 0 end) (set_current (Some i) s)).
Proof.
  intros V Ei En Eit Er. unfold get_fields, get_item. simpl. rewrite Eit, Ei. simpl.
  assert (match it_object it with Some o => pa_assert (0 <? ms_refs s (Obj o)) | None => Ok tt end = Ok tt) as ->.
  { destruct (it_object it) as [o|] eqn:Eo; [|done]. apply pa_assert_true. rewrite Er. pose proof (object_alive size y i it o V Ei Eo). blia. }
  simpl. assert (set_refcnt (ms_refcnt s + 0) (set_current (Some i) s) = set_current (Some i) s) as E0 by (rewrite Z.add_0_r; by destruct s).
  unfold pa_asyncmsgq_ref. pose proof (vi_alive _ _ V). rewrite in_use_ok by (simpl; lia).
  destruct op as [| | |[]]; simpl; rewrite ?E0; done.
Qed.

(** A step inside [pa_asyncq_pop]. *)
Lemma pop_step_ok size y op : minv size y -> y_recv y = RPop op ->
  forall f a, exists o, receiver_step f a (RPop op) (y_st y) = Ok o /\ after_receiver size y o.
Proof.
  intros V Er f a. pose proof (vi_r _ _ V) as R. unfold recv_ok in R. rewrite Er in R. destruct R as (Hp & Hl & Hc).
  pose proof (vi_q _ _ V) as Q. destruct (reach_inv size _ (qi_size _ _ _ _ Q) (qi_reach _ _ _ _ Q)) as [c I]. apply reader_inv in I.
  unfold after_receiver. cbn [receiver_step]. rewrite in_use_ok by apply V. cbn [mbind outcome_bind].
  destruct (reader_step _ _) as [[[[rd l] ret]|]| |] eqn:Es; try done; cbn [mbind outcome_bind]; [|by exists None].
  pose proof (reader_keeps _ _ _ _ _ Es) as Hk. set (q' := mk_asys l rd (as_writer (ms_q (y_st y))) (as_sent (ms_q (y_st y))) (as_received (ms_q (y_st y)) ++ returned ret)).
  assert (q_inv size q' (ms_mutex (y_st y)) (y_senders y)) as Q' by (apply q_reader; [done..|by apply step_reader]).
  pose proof V as [_ V2 V3 _ V5 V6 V7 V8 V9]. rewrite Er in *.
  assert (forall y', y_senders y' = y_senders y -> y_recv y' = RPop op \/ y_recv y' = RIdle /\ as_reader (ms_q (y_st y')) = RdIdle ->
    queue_used y' -> 0 < y_qenv y) as Hu.
  { intros y' Ey Hr Hu. apply V9. destruct Hu as [Hu|Hu]; [left; by rewrite <- Ey|]. right. rewrite Er.
    destruct Hr as [Hr|[Hr Hd]]; rewrite Hr in Hu; [done|]. by destruct Hu. }
  destruct (popping_step _ _ _ _ _ _ Hp Es) as [[Hp' ->]|[-> [[i ->]|[-> Hw]]]].
  - exists (Some (RPop op, set_q q' (y_st y), None)). split; [by destruct rd|]. intros pc s r [= <- <- <-]. left. simpl. rewrite !app_nil_r.
    split; simpl; try done.
    + unfold recv_ok. simpl. by rewrite app_nil_r.
    + by rewrite app_nil_r.
    + split; [apply V9|]. apply Hu; [done|by left].
  - destruct (q_received _ _ _ _ Q') as [k Ek]. simpl in Ek. rewrite <- app_assoc in Ek.
    assert (as_sent (ms_q (y_st y)) !! length (y_answers y) = Some i) as En by (by rewrite Ek, <- Hl, lookup_app_r, Nat.sub_diag by lia).
    destruct (mi_msg _ _ _ _ _ _ _ V2 _ _ (le_n _) En) as (it & Ei & Hs & _).
    rewrite (get_fields_spec size y op i it (set_q q' (y_st y)) V Ei) by done. cbn [mbind outcome_bind]. eexists. split; [done|].
    intros pc s r [= <- <- <-]. left. simpl. rewrite !app_nil_r. split; simpl; try done.
    + exists i. unfold recv_at. simpl. rewrite length_app. simpl. split_and!; try done. lia.
    + rewrite length_app, V5, Hl. simpl. rewrite Nat.add_1_r. symmetry. apply take_S_r. by rewrite list_lookup_fmap, Hs.
    + rewrite V7. destruct op as [| | |[]]; simpl; lia.
    + destruct op as [| | |[]]; lia.
    + split; [apply V9|]. intros Hx. apply V9. destruct Hx as [Hx|Hx]; [by left|right]. rewrite Er. simpl in Hx. by destruct op.
  - exists (Some (RIdle, set_q q' (y_st y), None)). split; [done|]. intros pc s r [= <- <- <-]. left. simpl. rewrite !app_nil_r.
    split; simpl; try done.
    + unfold recv_ok. simpl. by rewrite app_nil_r.
    + by rewrite app_nil_r.
    + rewrite V7. simpl. by destruct op.
    + split; [apply V9|]. apply Hu; [done|by right].
Qed.

Lemma have_step_ok size y op m : minv size y -> y_recv y = RHave op m ->
  forall f a, exists o, receiver_step f a (RHave op m) (y_st y) = Ok o /\ after_receiver size y o.
Proof.
  intros V Er f a. simpl. eexists. split; [done|]. intros pc s r [= <- <- <-]. left. rewrite Er. simpl. rewrite !app_nil_r.
  pose proof V as [V1 V2 V3 V4 V5 V6 V7 V8 V9]. unfold recv_ok in V4. rewrite Er in *. split; simpl; try done.
  split; [apply V9|]. intros Hx. apply V9. destruct Hx as [Hx|Hx]; [by left|right]. by rewrite Er.
Qed.

(** The message the receiver has. *)
Lemma recv_item size y i : minv size y -> recv_at y i ->
  exists it, ms_items (y_st y) !! i = Some it /\ y_sent y !! length (y_answers y) = Some (content it).
Proof. intros V (_ & _ & _ & En). destruct (mi_msg _ _ _ _ _ _ _ (vi_m _ _ V) _ _ (le_n _) En) as (it & Ei & Es & _). eauto. Qed.

Lemma returned_more (y : msys) a : (forall n r, (n, r) ∈ y_returned y -> y_answers y !! n = Some r) ->
  forall n r, (n, r) ∈ y_returned y -> (y_answers y ++ [a]) !! n = Some r.
Proof. intros H n r Hr. by apply lookup_app_l_Some, H. Qed.

(** [pa_asyncmsgq_done] *)
Lemma done_step_ok size y op c ret : minv size y -> y_recv y = RDone op c ret ->
  forall f a, exists o, receiver_step f a (RDone op c ret) (y_st y) = Ok o /\ after_receiver size y o.
Proof.
  intros V Er f a. pose proof (vi_r _ _ V) as R. unfold recv_ok in R. rewrite Er in R. destruct R as (i & Hat).
  destruct (recv_item size y i V Hat) as (it & Ei & Es). pose proof Hat as (Hd & Hl & Hc & En).
  pose proof V as [V1 V2 V3 V4 V5 V6 V7 V8 V9]. rewrite Er in V7.
  assert (forall s pc, y_recv (mk_msys s (y_senders y) pc (y_env y) (y_qenv y) [] [] [] []) = RPost op c ret \/ pc = RClear op c ->
    queue_used (mk_msys s (y_senders y) pc (y_env y) (y_qenv y) [] [] [] []) -> 0 < y_qenv y) as Hu.
  { intros s pc Hpc Hx. apply V9. destruct Hx as [Hx|Hx]; [by left|right]. rewrite Er. simpl in *. destruct Hpc as [-> | ->]; done. }
  unfold after_receiver. cbn [receiver_step]. rewrite in_use_ok by done. cbn [mbind outcome_bind]. rewrite Hc. rewrite bool_decide_true by done.
  simpl. unfold get_item. rewrite Ei. simpl. destruct (it_semaphore it) as [x|] eqn:Ex.
  - eexists. split; [done|]. intros pc s r [= <- <- <-]. left. rewrite Er. simpl. rewrite !app_nil_r. split; simpl; try done.
    + by apply (m_set_ret _ _ _ _ _ _ _ i it x).
    + by apply c_set_ret.
    + exists i, (set_ret ret it), x. split_and!; [done|apply lookup_insert_eq|done|done].
    + split; [apply V9|]. intros Hx. by apply (Hu (y_st y) (RPost op c ret)); [left|].
  - destruct (release_spec i it (y_st y)) as (g & Eg & Hg).
    { intros r _. pose proof (msum_holds_ge r i it _ Ei) as Hh. unfold holds at 1 in Hh. rewrite Ex in Hh. rewrite (ci_refs _ _ _ _ _ V3 r).
      pose proof (ci_env _ _ _ _ _ V3 r). lia. }
    rewrite Eg. simpl. eexists. split; [done|]. intros pc s r [= <- <- <-]. left. rewrite Er. simpl. rewrite app_nil_r. split; simpl; try done.
    + by apply (m_answer_post _ _ _ _ _ _ _ i it).
    + rewrite length_app, Nat.add_1_r, (take_S_r _ _ _ Es).
      apply (c_remove _ g _ _ _ _ i it (Some (content it)) V3 Ei). intros r. rewrite Hg. unfold holds. by rewrite Ex.
    + unfold recv_ok. simpl. rewrite length_app. simpl. split; [done|lia].
    + by apply returned_more.
    + split; [apply V9|]. intros Hx. by apply (Hu (y_st y) (RClear op c)); [right|].
Qed.

Lemma post_step_ok size y op c ret : minv size y -> y_recv y = RPost op c ret ->
  forall f a, exists o, receiver_step f a (RPost op c ret) (y_st y) = Ok o /\ after_receiver size y o.
Proof.
  intros V Er f a. pose proof (vi_r _ _ V) as R. unfold recv_ok in R. rewrite Er in R. destruct R as (i & it & x & Hat & Ei & Ex & Et).
  destruct (recv_item size y i V Hat) as (it' & Ei' & Es). rewrite Ei in Ei'. injection Ei' as <-. pose proof Hat as (Hd & Hl & Hc & En).
  pose proof V as [V1 V2 V3 V4 V5 V6 V7 V8 V9]. rewrite Er in V7. destruct (item_signal V2 i it x Ei Ex) as [v Ev].
  simpl. rewrite Hc. simpl. unfold get_item. rewrite Ei. simpl. rewrite Ex. simpl. rewrite Ev. simpl.
  eexists. split; [done|]. intros pc s r [= <- <- <-]. left. rewrite Er. simpl. rewrite app_nil_r. split; simpl; try done.
  - rewrite <- Et. by apply (m_answer_send _ _ _ _ _ _ _ i it x v).
  - rewrite length_app, Nat.add_1_r, (take_S_r _ _ _ Es). destruct V3 as [C1 C2 C3 C4]. split; try done.
    assert (free_call (content it) = None) as Hf by (unfold free_call; simpl; by rewrite (mi_cb _ _ _ _ _ _ _ V2 i it x Ei Ex)).
    rewrite C4, omap_app. simpl. rewrite Hf. by rewrite app_nil_r.
  - unfold recv_ok. simpl. rewrite length_app. simpl. split; [done|lia].
  - by apply returned_more.
  - split; [apply V9|]. intros Hx. apply V9. destruct Hx as [Hx|Hx]; [by left|right]. by rewrite Er.
Qed.

(** ** Dropping references to the queue *)

Lemma idle_senders y : ~ queue_used y -> Forall (fun pc => pc = SIdle) (y_senders y).
Proof.
  intros Hu. apply Forall_forall. intros pc Hpc. destruct pc; [done|..]; exfalso; apply Hu; left;
    apply Exists_exists; eexists; (split; [exact Hpc|done]).
Qed.

Lemma unref_keeps s : 1 < ms_refcnt s -> pa_asyncmsgq_unref s = Ok (set_refcnt (ms_refcnt s - 1) s).
Proof. intros H. unfold pa_asyncmsgq_unref. rewrite in_use_ok by lia. simpl. destruct (Z.leb_spec (ms_refcnt s - 1) 0); [lia|done]. Qed.

Lemma unref_frees size y c : minv size y -> ms_refcnt (y_st y) = 1 -> Forall (fun pc => pc = SIdle) (y_senders y) ->
  as_reader (ms_q (y_st y)) = RdIdle \/ as_reader (ms_q (y_st y)) = RdPolling ->
  length (as_received (ms_q (y_st y))) = length (y_answers y) ->
  exists s, pa_asyncmsgq_unref (set_current c (y_st y)) = Ok s /\ ms_refcnt s = 0.
Proof.
  intros V En Hs Hr Hl. destruct (free_alone size (set_refcnt 0 (set_current c (y_st y))) (y_senders y) (y_sent y) (y_answers y) (y_env y)) as (s & c' & Es & Hn & _);
    [apply V..|done|done|done|].
  exists s. split; [|done]. unfold pa_asyncmsgq_unref. rewrite in_use_ok by (simpl; lia). simpl. rewrite En. exact Es.
Qed.

Lemma freed_is_gone size y s q : minv size y -> Forall (fun pc => pc = SIdle) (y_senders y) -> ms_refcnt s = 0 -> q <= 0 ->
  length (as_received (ms_q (y_st y))) = length (y_answers y) ->
  gone (mk_msys s (y_senders y) RIdle (y_env y) q (y_sent y) (y_got y) (y_answers y) (y_returned y)).
Proof.
  intros [V1 V2 V3 V4 V5 V6 V7 V8 V9] Hs Hn Hq Hl. split; simpl; try done; [lia|rewrite V5; apply prefix_take|].
  rewrite V5, length_take, length_fmap, (mi_len _ _ _ _ _ _ _ V2). pose proof (mi_le _ _ _ _ _ _ _ V2). lia.
Qed.

Lemma idle_again size y : minv size y -> as_reader (ms_q (y_st y)) = RdIdle -> 0 < y_qenv y ->
  length (as_received (ms_q (y_st y))) = length (y_answers y) ->
  minv size (mk_msys (set_refcnt (y_qenv y) (set_current None (y_st y))) (y_senders y) RIdle (y_env y) (y_qenv y) (y_sent y) (y_got y) (y_answers y) (y_returned y)).
Proof.
  intros [V1 V2 V3 V4 V5 V6 V7 V8 V9] Hr Hq Hl. split; simpl; try done; [|lia|].
  - unfold recv_ok. simpl. by rewrite Hr.
  - split; [lia|done].
Qed.

(** The receiver gives its reference back and returns. *)
Lemma unref_returns size y : minv size y -> recv_holds (y_recv y) = true -> as_reader (ms_q (y_st y)) = RdIdle ->
  length (as_received (ms_q (y_st y))) = length (y_answers y) ->
  exists s, pa_asyncmsgq_unref (set_current None (y_st y)) = Ok s /\
    kept_or_gone size (mk_msys s (y_senders y) RIdle (y_env y) (y_qenv y) (y_sent y) (y_got y) (y_answers y) (y_returned y)).
Proof.
  intros V Hh Hr Hl. pose proof (vi_refcnt _ _ V) as Hn. rewrite Hh in Hn. pose proof (vi_used _ _ V) as [H0 Hu].
  destruct (Z.le_gt_cases (y_qenv y) 0) as [Hq|Hq].
  - assert (Forall (fun pc => pc = SIdle) (y_senders y)) as Hs by (apply idle_senders; intros Hx; apply Hu in Hx; lia).
    destruct (unref_frees size y None V) as (s & Es & Hz); [lia|done|by left|done|]. exists s. split; [done|]. right. by apply (freed_is_gone size).
  - eexists. split; [apply unref_keeps; simpl; lia|]. left. simpl. replace (ms_refcnt (y_st y) - 1) with (y_qenv y) by lia. by apply idle_again.
Qed.

Lemma clear_step_ok size y op c : minv size y -> y_recv y = RClear op c ->
  forall f a, exists o, receiver_step f a (RClear op c) (y_st y) = Ok o /\ after_receiver size y o.
Proof.
  intros V Er f a. pose proof (vi_r _ _ V) as R. unfold recv_ok in R. rewrite Er in R. destruct R as (Hd & Hl).
  pose proof (vi_refcnt _ _ V) as Hn. pose proof (vi_alive _ _ V) as Hv. pose proof (vi_used _ _ V) as [H0 Hu]. rewrite Er in Hn.
  assert (forall op', match op' with OpGet _ | OpFlush _ => True | _ => False end -> op = op' -> 0 < y_qenv y) as Hx.
  { intros op' Ho <-. apply Hu. right. rewrite Er. by destruct op. }
  enough (exists pc s, rcv_next op c (set_current None (y_st y)) = Ok (pc, s) /\ taken (RClear op c) pc = [] /\
    kept_or_gone size (mk_msys s (y_senders y) pc (y_env y) (y_qenv y) (y_sent y) (y_got y) (y_answers y) (y_returned y))) as (pc & s & E & _ & K).
  { cbn [receiver_step]. rewrite E. simpl. eexists. split; [done|]. intros pc' s' r' [= <- <- <-]. rewrite Er. simpl. by rewrite !app_nil_r. }
  assert (forall op' n, 0 < n -> n = y_qenv y + (if recv_holds (RPop op') then 1 else 0) -> (exists code, op' = OpWaitFor code) \/ 0 < y_qenv y ->
    exists s, pa_asyncmsgq_get op' (set_refcnt n (set_current None (y_st y))) = Ok (RPop op', s) /\
      minv size (mk_msys s (y_senders y) (RPop op') (y_env y) (y_qenv y) (y_sent y) (y_got y) (y_answers y) (y_returned y))) as Hget.
  { intros op' n Hn0 En Ho. apply get_starts; try done. intros Hq. destruct Ho as [[code ->]|]; [|done]. apply Hu. destruct Hq as [Hq|Hq]; [by left|done]. }
  destruct op as [w| |code|run]; simpl.
  - exists RIdle. eexists. split; [done|]. split; [done|]. left. simpl in Hn. rewrite Z.add_0_r in Hn.
    assert (set_refcnt (y_qenv y) (set_current None (y_st y)) = set_current None (y_st y)) as <- by (rewrite <- Hn; by destruct (y_st y)).
    apply idle_again; try done. lia.
  - destruct (unref_returns size y V) as (s & Es & K); [by rewrite Er|done|done|]. rewrite Es. simpl. eauto.
  - destruct (c =? code).
    + destruct (unref_returns size y V) as (s & Es & K); [by rewrite Er|done|done|]. rewrite Es. simpl. eauto.
    + destruct (Hget (OpWaitFor code) (ms_refcnt (y_st y))) as (s & Es & Vs); [lia|done|left; by eexists|]. exists (RPop (OpWaitFor code)), s. split; [|split; [done|by left]].
      by rewrite <- Es.
  - pose proof (Hx (OpFlush run) I eq_refl) as Hq. destruct (Hget (OpFlush run) (y_qenv y)) as (s & Es & Vs); [lia|simpl; lia|by right|].
    exists (RPop (OpFlush run)), s. split; [|split; [done|by left]]. rewrite <- Es. simpl in Hn. destruct run.
    + rewrite unref_keeps by (simpl; lia). simpl. f_equal. f_equal. lia.
    + simpl. f_equal. rewrite Z.add_0_r in Hn. rewrite <- Hn. by destruct (y_st y).
Qed.

Lemma receiver_steps size y f a : minv size y -> exists o, receiver_step f a (y_recv y) (y_st y) = Ok o /\ after_receiver size y o.
Proof.
  intros V. destruct (y_recv y) as [|op|op m|op c ret|op c ret|op c] eqn:Er.
  - by exists None.
  - by apply pop_step_ok.
  - by apply have_step_ok.
  - by apply done_step_ok.
  - by apply post_step_ok.
  - by apply clear_step_ok.
Qed.

(** ** Polling, and references of others *)

Lemma polling_inv size y l rd : minv size y -> y_recv y = RIdle -> 0 < y_qenv y -> polls rd ->
  aq_waiting_for_post l = aq_waiting_for_post (as_q (ms_q (y_st y))) ->
  let q := ms_q (y_st y) in let q' := mk_asys l rd (as_writer q) (as_sent q) (as_received q) in
  asys_step q q' ->
  minv size (mk_msys (set_q q' (y_st y)) (y_senders y) RIdle (y_env y) (y_qenv y) (y_sent y) (y_got y) (y_answers y) (y_returned y)).
Proof.
  intros [V1 V2 V3 V4 V5 V6 V7 V8 V9] Er Hq Hp El q q' Hs. rewrite Er in V7. unfold recv_ok in V4. rewrite Er in V4. split; simpl; try done.
  - by apply q_reader.
  - unfold recv_ok. simpl. by destruct V4 as (_ & ? & ?).
  - split; [apply V9|done].
Qed.

Lemma env_inv size y r d : minv size y -> 0 <= y_env y r + d -> (y_env y r + d <= 0 -> ~ relied_on r y) ->
  minv size (mk_msys (set_refs (<[r := ms_refs (y_st y) r + d]> (ms_refs (y_st y))) (y_st y)) (y_senders y) (y_recv y)
    (<[r := y_env y r + d]> (y_env y)) (y_qenv y) (y_sent y) (y_got y) (y_answers y) (y_returned y)).
Proof.
  intros [V1 V2 V3 V4 V5 V6 V7 V8 V9] Hd Hr. split; simpl; try done.
  apply c_env; [done..|]. intros Hle i it x Ei Ex Hin. apply (Hr Hle). by exists i, it, x.
Qed.

Lemma queue_env_inv size y d : minv size y -> 0 <= y_qenv y + d -> 0 < ms_refcnt (y_st y) + d -> (y_qenv y + d <= 0 -> ~ queue_used y) ->
  minv size (mk_msys (set_refcnt (ms_refcnt (y_st y) + d) (y_st y)) (y_senders y) (y_recv y) (y_env y) (y_qenv y + d) (y_sent y) (y_got y) (y_answers y) (y_returned y)).
Proof.
  intros [V1 V2 V3 V4 V5 V6 V7 V8 V9] Hd Hn Hu. split; simpl; try done; [lia|]. split; [lia|]. intros Hx.
  destruct (Z.le_gt_cases (y_qenv y + d) 0) as [Hle|]; [|lia]. by destruct (Hu Hle).
Qed.

(** Nobody is in the queue when the last reference is dropped. *)
Lemma unref_idle size y : minv size y -> ms_refcnt (y_st y) = 1 -> y_qenv y = 1 -> ~ queue_used y ->
  Forall (fun pc => pc = SIdle) (y_senders y) /\ (as_reader (ms_q (y_st y)) = RdIdle \/ as_reader (ms_q (y_st y)) = RdPolling) /\
  length (as_received (ms_q (y_st y))) = length (y_answers y) /\ y_recv y = RIdle /\ ms_current (y_st y) = None.
Proof.
  intros V Hn Hq Hx. split; [by apply idle_senders|]. pose proof (vi_refcnt _ _ V) as Hc. pose proof (vi_r _ _ V) as R.
  assert (recv_holds (y_recv y) = false) as Eh by (destruct (recv_holds (y_recv y)); [lia|done]).
  assert (y_recv y = RIdle) as Er.
  { unfold queue_used in Hx. destruct (y_recv y) as [|[]|[] ?|[] ? ?|[] ? ?|[] ?]; try done; exfalso; apply Hx; by right. }
  unfold recv_ok in R. unfold queue_used in Hx. rewrite Er in R, Hx. destruct R as (Hp & Hl & Hcur). split_and!; try done.
  destruct (as_reader (ms_q (y_st y))); try done; try (by left); try (by right); exfalso; apply Hx; by right.
Qed.

(** Somebody else drops its reference to the queue. *)
Lemma unref_env size y : minv size y -> 0 < y_qenv y -> (y_qenv y = 1 -> ~ queue_used y) ->
  exists s, pa_asyncmsgq_unref (y_st y) = Ok s /\
    kept_or_gone size (mk_msys s (y_senders y) (y_recv y) (y_env y) (y_qenv y - 1) (y_sent y) (y_got y) (y_answers y) (y_returned y)).
Proof.
  intros V Hq Hu. pose proof (vi_refcnt _ _ V) as Hn. destruct (Z.le_gt_cases (ms_refcnt (y_st y)) 1) as [Hle|Hgt].
  - assert (y_qenv y = 1) as E1 by (destruct (recv_holds (y_recv y)); lia). pose proof (vi_alive _ _ V).
    destruct (unref_idle size y V) as (Hs & Hr & Hl & Er & Hc); [lia|done|by apply Hu|].
    assert (set_current None (y_st y) = y_st y) as Ec by (rewrite <- Hc; by destruct (y_st y)).
    destruct (unref_frees size y None V) as (s & Es & Hz); [lia|done..|]. rewrite Ec in Es. exists s. split; [done|].
    right. rewrite Er. apply (freed_is_gone size); try done; lia.
  - eexists. split; [apply unref_keeps; lia|]. left. apply (queue_env_inv size y (-1)); [done|lia|lia|]. intros ?. apply Hu. lia.
Qed.

(** The receiver is at most one message ahead of its answers. *)
Lemma got_length size y : minv size y -> (length (y_answers y) <= length (y_got y) <= S (length (y_answers y)))%nat.
Proof.
  intros V. rewrite (vi_got _ _ V), length_take, length_fmap, (mi_len _ _ _ _ _ _ _ (vi_m _ _ V)).
  pose proof (prefix_length _ _ (q_received _ _ _ _ (vi_q _ _ V))). rewrite Nat.min_l by done. pose proof (vi_r _ _ V) as R.
  unfold recv_ok, recv_at in R. destruct (y_recv y); [destruct R as (_ & R & _)|destruct R as (_ & R & _)|destruct R as (? & _ & R & _)|
    destruct R as (? & _ & R & _)|destruct R as (? & ? & ? & (_ & R & _) & _)|destruct R as (_ & R)]; lia.
Qed.

(** ** All steps *)

Lemma msys_step_inv size y y' : minv size y -> msys_step y y' -> kept_or_gone size y'.
Proof.
  intros V Hs. destruct Hs as [y j i junk a cb pc s Ej Hq Ha Hi E|y j i f a pc s Ej Hq Ha Hi Hf E|y j kept pc pc' s o Ej E|y op pc s Er Hq Hd E|
    y f ret pc s o E|y c q Er Hq Hc E|y q l' ret Er Hq l E|y r Hn|y r s Hn Hr Hu E|y s Hq E|y s Hq Hu E].
  - destruct (post_starts size y j i junk a cb V Ej Hq Ha Hi) as (s' & E' & V'). rewrite E in E'. injection E' as -> ->. by left.
  - destruct (send_starts size y j i f a V Ej Hq Ha Hi Hf) as (s' & E' & V'). rewrite E in E'. injection E' as -> ->. by left.
  - destruct (sender_steps size y j pc kept V Ej) as (o' & E' & A). rewrite E in E'. injection E' as <-. left. by apply A.
  - destruct (receive_starts size y op V Er Hq Hd) as (pc' & s' & E' & V'). rewrite E in E'. injection E' as -> ->. by left.
  - destruct (receiver_steps size y f ret V) as (o' & E' & A). rewrite E in E'. injection E' as <-. by apply A.
  - left. pose proof (vi_r _ _ V) as R. unfold recv_ok in R. rewrite Er in R. destruct R as (Hp & _).
    apply polling_inv; [done..|by eapply polls_start|done|]. by apply (step_reader_start c).
  - left. pose proof (vi_r _ _ V) as R. unfold recv_ok in R. rewrite Er in R. destruct R as (Hp & _).
    destruct (polls_step _ _ _ _ _ Hp E) as [Hp' ->]. simpl. rewrite app_nil_r.
    apply polling_inv; [done..|by eapply reader_keeps|]. pose proof (step_reader _ _ _ _ E) as Hst. simpl in Hst. by rewrite app_nil_r in Hst.
  - left. pose proof (ci_env _ _ _ _ _ (vi_c _ _ V) r). apply (env_inv size y r 1); [done|lia..].
  - left. unfold res_unref in E. inv_bind. apply (env_inv size y r (-1)); [done|lia|]. intros ?. apply Hu. lia.
  - left. unfold pa_asyncmsgq_ref, in_use in E. inv_bind. pose proof (vi_alive _ _ V). pose proof (proj1 (vi_used _ _ V)).
    apply (queue_env_inv size y 1); [done|lia..].
  - destruct (unref_env size y V Hq Hu) as (s' & E' & K). rewrite E in E'. by injection E' as ->.
Qed.

Lemma gone_stays y y' : gone y -> ~ msys_step y y'.
Proof.
  intros [G1 G2 G3 G4 _ _ _] Hs. rewrite Forall_lookup in G3. destruct Hs; try lia.
  - apply G3 in H as ->. discriminate H0.
  - by rewrite G4 in H.
Qed.

Lemma msys_reach_inv size n y : 0 <= size < 2 ^ 32 -> msys_reach size n y -> kept_or_gone size y.
Proof.
  intros Hs. induction 1 as [rf wf l e1 p1 e2 p2 s E1 E2 El Es|y y' _ [V|G] Hst].
  - left. simpl in Es. injection Es as <-. split; simpl; try done.
    + split; simpl; try done.
      * by apply (reach_new size rf wf l e1 p1 e2 p2).
      * unfold pa_asyncq_new in El. inv_bind. done.
      * by intros j pc [-> _]%lookup_replicate_1.
    + split; simpl; try done.
      * by rewrite bag_replicate, map_to_list_empty.
      * intros j pc [-> _]%lookup_replicate_1. by split.
      * intros j j' pc pc' k [-> _]%lookup_replicate_1. done.
      * constructor.
      * intros x Hx. by apply not_elem_of_nil in Hx.
    + intros k r Hk. by apply not_elem_of_nil in Hk.
  - by eapply msys_step_inv.
  - by apply gone_stays in Hst.
Qed.

(** ** Claims *)

(** C15: whatever threads do, no step of a sender or of the receiver fails an
    assertion or touches a message, a semaphore or an object that is not there any
    more, or enters the queue beside another sender; and the receiver gets the
    messages as they were put in, in the same order, each once, and answers each
    before it takes the next. *)
Theorem messages_in_order size n y : 0 <= size < 2 ^ 32 -> msys_reach size n y ->
  (forall j pc kept, y_senders y !! j = Some pc -> exists o, sender_step j kept pc (y_st y) = Ok o) /\
  (forall process_msg ret, exists o, receiver_step process_msg ret (y_recv y) (y_st y) = Ok o) /\
  y_got y `prefix_of` (m_got <$> y_sent y) /\
  (length (y_answers y) <= length (y_got y) <= S (length (y_answers y)))%nat.
Proof.
  intros Hs Hr. destruct (msys_reach_inv size n y Hs Hr) as [V|[_ _ G3 G4 G5 G6 _]].
  - pose proof (got_length size y V). split_and!; try lia.
    + intros j pc kept Ej. destruct (sender_steps size y j pc kept V Ej) as (o & E & _). eauto.
    + intros f a. destruct (receiver_steps size y f a V) as (o & E & _). eauto.
    + rewrite (vi_got _ _ V). apply prefix_take.
  - split_and!; try done; try lia.
    + intros j pc kept Ej. rewrite Forall_lookup in G3. apply G3 in Ej as ->. by exists None.
    + intros f a. rewrite G4. by exists None.
Qed.

(** C16: a call of [pa_asyncmsgq_send] returns the answer its own message got: what the
    call with message number [k] returned is the [k]-th answer; and while it waits, its message is in
    memory, is number [k] of the queue, and the call is blocked exactly as long as the
    answer is not given. *)
Theorem send_gets_its_answer size n y : 0 <= size < 2 ^ 32 -> msys_reach size n y ->
  (forall k r, (k, r) ∈ y_returned y -> y_answers y !! k = Some r) /\
  (forall j i k kept, y_senders y !! j = Some (SWait i k) ->
     as_sent (ms_q (y_st y)) !! k = Some i /\
     (sender_step j kept (SWait i k) (y_st y) = Ok None <-> (length (y_answers y) <= k)%nat) /\
     ((length (y_answers y) <= k)%nat -> exists it, ms_items (y_st y) !! i = Some it /\ y_sent y !! k = Some (content it))).
Proof.
  intros Hs Hr. destruct (msys_reach_inv size n y Hs Hr) as [V|[_ _ G3 G4 G5 G6 G7]].
  - split; [apply V|]. intros j i k kept Ej. pose proof (mi_sender _ _ _ _ _ _ _ (vi_m _ _ V) j _ Ej) as [S1 S2 _ _].
    pose proof (S1 Send i k eq_refl eq_refl) as En. split; [done|]. destruct (S2 i eq_refl) as (it & x & Ei & Ex & Es & _). split.
    + simpl. unfold get_item. rewrite Ei. simpl. rewrite Ex. simpl. rewrite Es. simpl. destruct (Nat.ltb_spec k (length (y_answers y))); simpl; [|done].
      split; [done|lia].
    + intros Hk. destruct (mi_msg _ _ _ _ _ _ _ (vi_m _ _ V) k i Hk En) as (it' & Ei' & Em & _). eauto.
  - split; [done|]. intros j i k kept Ej. rewrite Forall_lookup in G3. by apply G3 in Ej.
Qed.

(** C17: nothing leaks and nothing is freed twice while the queue exists: the [free_cb]
    of every posted message has been called once, in the order of the messages,
    for exactly those that were answered; an object or block has the references of
    others and one for each time a posted message in memory has it; and with nobody in a
    call and every message answered, no message is left. *)
Theorem posts_released_once size n y : 0 <= size < 2 ^ 32 -> msys_reach size n y -> 0 < ms_refcnt (y_st y) ->
  ms_freed (y_st y) = omap free_call (take (length (y_answers y)) (y_sent y)) /\
  (forall r, ms_refs (y_st y) r = y_env y r + msum (holds r) (ms_items (y_st y))) /\
  (Forall (fun pc => pc = SIdle) (y_senders y) -> length (y_answers y) = length (y_sent y) ->
     ms_items (y_st y) = ∅ /\ forall r, ms_refs (y_st y) r = y_env y r).
Proof.
  intros Hs Hr Hn. destruct (msys_reach_inv size n y Hs Hr) as [V|G]; [|pose proof (gi_refcnt _ G); lia].
  pose proof (vi_c _ _ V) as [C1 _ _ C4]. split_and!; [done..|]. intros Hi Hl.
  assert (ms_items (y_st y) = ∅) as E0; [|split; [done|]; intros r; rewrite C1, E0; unfold msum; rewrite map_to_list_empty; simpl; lia].
  assert (bag (priv (length (y_answers y))) (y_senders y) = []) as Eb.
  { apply elem_of_nil_inv. intros i (j & pc & Ej & Hp)%bag_elem_inv. rewrite Forall_lookup in Hi. apply Hi in Ej as ->. by apply not_elem_of_nil in Hp. }
  pose proof (mi_keys _ _ _ _ _ _ _ (vi_m _ _ V)) as Hk. rewrite Eb, app_nil_r, Hl, (mi_len _ _ _ _ _ _ _ (vi_m _ _ V)), drop_all in Hk.
  apply Permutation.Permutation_nil, fmap_nil_inv in Hk. by apply map_to_list_empty_iff.
Qed.

(** C40: the last reference to the queue is dropped while messages are in it: those
    in the ring are released, references, [free_cb] and all, and no assertion fails; those
    in the overflow list stay in memory for ever, their [free_cb] is not called, and the
    references they hold are never given back. *)
Theorem free_leaks_overflow size n y : 0 <= size < 2 ^ 32 -> msys_reach size n y ->
  ms_refcnt (y_st y) = 1 -> y_qenv y = 1 -> ~ queue_used y ->
  let q := ms_q (y_st y) in
  exists s c, pa_asyncmsgq_unref (y_st y) = Ok s /\
    ring (aq_size (as_q q)) (aq_cells (as_q q)) (aq_read_idx (as_q q)) c /\ as_sent q = as_received q ++ c ++ reverse (aq_localq (as_q q)) /\
    ms_freed s = omap free_call (take (length (y_answers y) + length c) (y_sent y)) /\
    (map_to_list (ms_items s)).*1 ≡ₚ reverse (aq_localq (as_q q)) /\
    (forall r, ms_refs s r = y_env y r + msum (holds r) (ms_items s)).
Proof.
  intros Hs Hr Hn Hq Hu q. destruct (msys_reach_inv size n y Hs Hr) as [V|G]; [|pose proof (gi_refcnt _ G); lia].
  destruct (unref_idle size y V Hn Hq Hu) as (Hi & Hd & Hl & _ & _).
  destruct (free_alone size (set_refcnt 0 (y_st y)) (y_senders y) (y_sent y) (y_answers y) (y_env y)) as (s & c & Es & _ & Hg & Ef & Hc & Hp);
    [apply V..|done|done|done|]. exists s, c. destruct Hc as [C1 _ _ C4]. split_and!; try done.
  unfold pa_asyncmsgq_unref. rewrite in_use_ok by lia. simpl. by rewrite Hn.
Qed.

(** ** Witnesses *)

Module AsyncmsgqExample.
Definition fd0 : pa_fdsem := mk_fdsem true 0 0 0 0.
Definition init_sys (size : Z) (n : nat) : msys :=
  let q := mk_asyncq size 0 0 fd0 fd0 [] None false (replicate (Z.to_nat size) 0) in
  mk_msys (mk_mstate 1 (asys_init q) None None ∅ ∅ [] (fun _ => 0) []) (replicate n SIdle) RIdle (fun _ => 0) 1 [] [] [] [].

Lemma init_reach size n : size <> 0 -> pa_is_power_of_two size = true -> msys_reach size n (init_sys size n).
Proof.
  intros H0 H. apply (my_new size n fd0 fd0 (mk_asyncq size 0 0 fd0 fd0 [] None false (replicate (Z.to_nat size) 0)) true true true true); try done.
  unfold pa_asyncq_new. destruct (Z.eqb_spec size 0); [done|]. by rewrite H.
Qed.

(** Whoever holds an object takes a reference. *)
Definition take_ref (r : res) (y : msys) : msys :=
  mk_msys (set_refs (<[r := ms_refs (y_st y) r + 1]> (ms_refs (y_st y))) (y_st y)) (y_senders y) (y_recv y)
    (<[r := y_env y r + 1]> (y_env y)) (y_qenv y) (y_sent y) (y_got y) (y_answers y) (y_returned y).

Definition set_sender (j : nat) (pc : sender) (s : mstate) (y : msys) : msys :=
  mk_msys s (<[j := pc]> (y_senders y)) (y_recv y) (y_env y) (y_qenv y) (y_sent y) (y_got y) (y_answers y) (y_returned y).

Definition call_post (j : nat) (i : Z) (a : msg_args) (cb : option Z) (y : msys) : msys :=
  match pa_asyncmsgq_post i 0 a cb (y_st y) with Ok (pc, s) => set_sender j pc s y | _ => y end.
Definition call_send (j : nat) (i x : Z) (a : msg_args) (y : msys) : msys :=
  match pa_asyncmsgq_send i (FromNew x) a (y_st y) with Ok (pc, s) => set_sender j pc s y | _ => y end.
Definition call_receive (op : rcv_op) (y : msys) : msys :=
  match rcv_start op (y_st y) with
  | Ok (pc, s) => mk_msys s (y_senders y) pc (y_env y) (y_qenv y) (y_sent y) (y_got y) (y_answers y) (y_returned y)
  | _ => y
  end.

(** Up to [k] steps of one thread. *)
Fixpoint run_sender (k : nat) (j : nat) (y : msys) : msys :=
  match k with
  | O => y
  | S k =>
      match y_senders y !! j with
      | Some pc =>
          match sender_step j true pc (y_st y) with
          | Ok (Some (pc', s, o)) =>
              run_sender k j (mk_msys s (<[j := pc']> (y_senders y)) (y_recv y) (y_env y) (y_qenv y)
                (y_sent y ++ entered pc (y_st y)) (y_got y) (y_answers y) (y_returned y ++ sender_returns pc o))
          | _ => y
          end
      | None => y
      end
  end.

(** An object answers ten times the code. *)
Definition handler (o code userdata offset : Z) (chunk : option pa_memchunk) : Z := 10 * code.

Fixpoint run_receiver (k : nat) (y : msys) : msys :=
  match k with
  | O => y
  | S k =>
      match receiver_step handler 0 (y_recv y) (y_st y) with
      | Ok (Some (pc, s, o)) =>
          run_receiver k (mk_msys s (y_senders y) pc (y_env y) (y_qenv y) (y_sent y) (y_got y ++ taken (y_recv y) pc)
            (y_answers y ++ answered o) (y_returned y))
      | _ => y
      end
  end.

Lemma run_sender_reach size n k j : forall y, msys_reach size n y -> msys_reach size n (run_sender k j y).
Proof.
  induction k as [|k IH]; intros y Hr; simpl; [done|]. destruct (y_senders y !! j) as [pc|] eqn:Ej; [|done].
  destruct (sender_step j true pc (y_st y)) as [[[[pc' s] o]|]| |] eqn:E; [|done..]. apply IH. eapply my_next; [done|].
  by apply (my_sender y j true pc pc' s o).
Qed.

Lemma run_receiver_reach size n k : forall y, msys_reach size n y -> msys_reach size n (run_receiver k y).
Proof.
  induction k as [|k IH]; intros y Hr; simpl; [done|].
  destruct (receiver_step handler 0 (y_recv y) (y_st y)) as [[[[pc s] o]|]| |] eqn:E; [|done..]. apply IH. eapply my_next; [done|].
  by apply (my_receiver y handler 0 pc s o).
Qed.

Lemma take_reach size n r y : msys_reach size n y -> 0 < ms_refcnt (y_st y) -> msys_reach size n (take_ref r y).
Proof. intros Hr Hn. eapply my_next; [done|]. by apply my_take. Qed.

Lemma post_reach size n j i a cb y : msys_reach size n y -> y_senders y !! j = Some SIdle -> 0 < y_qenv y -> args_ok a y -> unused i y ->
  msys_reach size n (call_post j i a cb y).
Proof.
  intros Hr Ej Hq Ha Hi. unfold call_post. destruct (pa_asyncmsgq_post i 0 a cb (y_st y)) as [[pc s]| |] eqn:E; [|done..].
  eapply my_next; [done|]. by apply (my_post y j i 0 a cb pc s).
Qed.

Lemma send_reach size n j i x a y : msys_reach size n y -> y_senders y !! j = Some SIdle -> 0 < y_qenv y -> args_ok a y -> unused i y ->
  ms_sems (y_st y) !! x = None -> msys_reach size n (call_send j i x a y).
Proof.
  intros Hr Ej Hq Ha Hi Hx. unfold call_send. destruct (pa_asyncmsgq_send i (FromNew x) a (y_st y)) as [[pc s]| |] eqn:E; [|done..].
  eapply my_next; [done|]. by apply (my_send y j i (FromNew x) a pc s).
Qed.

Lemma receive_reach size n op y : msys_reach size n y -> y_recv y = RIdle -> 0 < y_qenv y -> as_reader (ms_q (y_st y)) = RdIdle ->
  msys_reach size n (call_receive op y).
Proof.
  intros Hr Er Hq Hd. unfold call_receive. destruct (rcv_start op (y_st y)) as [[pc s]| |] eqn:E; [|done..].
  eapply my_next; [done|]. by apply (my_receive y op pc s).
Qed.

(** Two messages to object 5: one posted by thread 0, one sent by thread 1. *)
Definition post_args : msg_args := mk_args (Some 5) 1 77 0 None.
Definition send_args : msg_args := mk_args (Some 5) 2 78 0 None.

Definition y1 : msys := take_ref (Obj 5) (init_sys 2 2).
Definition y2 : msys := run_sender 30 0 (call_post 0 100 post_args (Some 9) y1).
Definition y3 : msys := run_sender 30 1 (call_send 1 200 300 send_args y2).
Definition y4 : msys := run_receiver 40 (call_receive OpProcessOne y3).
Definition y5 : msys := run_receiver 40 (call_receive OpProcessOne y4).
Definition y6 : msys := run_sender 30 1 y5.

Ltac check_args := split; [repeat constructor; vm_compute; reflexivity|vm_compute; exact I].
Ltac check_unused := split; [lia|vm_compute; reflexivity].

Lemma msg_reach1 : msys_reach 2 2 y1.
Proof. apply take_reach; [by apply init_reach|vm_compute; reflexivity]. Qed.
Lemma msg_reach2 : msys_reach 2 2 y2.
Proof. apply run_sender_reach, post_reach; [exact msg_reach1|vm_compute; reflexivity|vm_compute; reflexivity|check_args|check_unused]. Qed.
Lemma msg_reach3 : msys_reach 2 2 y3.
Proof.
  apply run_sender_reach, send_reach; [exact msg_reach2|vm_compute; reflexivity|vm_compute; reflexivity|check_args|check_unused|vm_compute; reflexivity].
Qed.
Lemma msg_reach4 : msys_reach 2 2 y4.
Proof. apply run_receiver_reach, receive_reach; [exact msg_reach3|vm_compute; reflexivity..]. Qed.
Lemma msg_reach5 : msys_reach 2 2 y5.
Proof. apply run_receiver_reach, receive_reach; [exact msg_reach4|vm_compute; reflexivity..]. Qed.
Lemma msg_reach6 : msys_reach 2 2 y6.
Proof. apply run_sender_reach, msg_reach5. Qed.

(** A queue of one cell, two messages posted, and nobody to take them. *)
Definition z1 : msys := take_ref (Obj 5) (init_sys 1 1).
Definition z2 : msys := run_sender 30 0 (call_post 0 100 post_args (Some 9) z1).
Definition z3 : msys := run_sender 30 0 (call_post 0 101 post_args (Some 8) z2).

Lemma msg_reachz1 : msys_reach 1 1 z1.
Proof. apply take_reach; [by apply init_reach|vm_compute; reflexivity]. Qed.
Lemma msg_reachz2 : msys_reach 1 1 z2.
Proof. apply run_sender_reach, post_reach; [exact msg_reachz1|vm_compute; reflexivity|vm_compute; reflexivity|check_args|check_unused]. Qed.
Lemma msg_reachz3 : msys_reach 1 1 z3.
Proof. apply run_sender_reach, post_reach; [exact msg_reachz2|vm_compute; reflexivity|vm_compute; reflexivity|check_args|check_unused]. Qed.
End AsyncmsgqExample.
Import AsyncmsgqExample.

Lemma messages_in_order_witness : msys_reach 2 2 y6 /\ mg_code <$> y_got y6 = [1; 2] /\ y_got y6 `prefix_of` (m_got <$> y_sent y6).
Proof.
  split; [exact msg_reach6|]. split; [vm_compute; reflexivity|].
  destruct (messages_in_order 2 2 y6) as (_ & _ & H & _); [lia|exact msg_reach6|exact H].
Defined.

Lemma send_gets_its_answer_witness : msys_reach 2 2 y6 /\ y_returned y6 = [(1%nat, 20)] /\ y_answers y6 !! 1%nat = Some 20 /\
  y_senders y3 !! 1%nat = Some (SWait 200 1) /\ sender_step 1 true (SWait 200 1) (y_st y3) = Ok None.
Proof.
  assert (y_returned y6 = [(1%nat, 20)]) as E by (vm_compute; reflexivity).
  assert (y_senders y3 !! 1%nat = Some (SWait 200 1)) as E3 by (vm_compute; reflexivity).
  split; [exact msg_reach6|]. split; [exact E|]. split.
  - destruct (send_gets_its_answer 2 2 y6) as (H & _); [lia|exact msg_reach6|]. apply H. rewrite E. left.
  - split; [exact E3|]. destruct (send_gets_its_answer 2 2 y3) as (_ & H); [lia|exact msg_reach3|].
    destruct (H _ _ _ true E3) as (_ & (_ & H') & _). apply H'. vm_compute. repeat constructor.
Defined.

Lemma posts_released_once_witness : msys_reach 2 2 y6 /\ ms_freed (y_st y6) = [(9, 77)] /\ ms_items (y_st y6) = ∅ /\
  ms_refs (y_st y6) (Obj 5) = 1.
Proof.
  split; [exact msg_reach6|]. destruct (posts_released_once 2 2 y6) as (H1 & _ & H2); [lia|exact msg_reach6|vm_compute; reflexivity|].
  split; [vm_compute; reflexivity|]. destruct H2 as [H2 H3]; [vm_compute; repeat constructor|vm_compute; reflexivity|].
  split; [exact H2|]. rewrite H3. vm_compute. reflexivity.
Defined.

Lemma free_leaks_overflow_witness : msys_reach 1 1 z3 /\ aq_localq (as_q (ms_q (y_st z3))) = [101] /\
  exists s, pa_asyncmsgq_unref (y_st z3) = Ok s /\ (map_to_list (ms_items s)).*1 ≡ₚ [101].
Proof.
  split; [exact msg_reachz3|]. split; [vm_compute; reflexivity|].
  destruct (free_leaks_overflow 1 1 z3) as (s & c & Es & _ & _ & _ & Hp & _); [lia|exact msg_reachz3|vm_compute; reflexivity|vm_compute; reflexivity| |].
  - intros [H|H].
    + apply Exists_exists in H as (pc & Hin & Hne). apply list_elem_of_lookup in Hin as [j E].
      assert (y_senders z3 = [SIdle]) as Ez by (vm_compute; reflexivity). rewrite Ez in E. apply list_lookup_singleton_Some in E as [_ <-]. by apply Hne.
    + assert (y_recv z3 = RIdle) as Er by (vm_compute; reflexivity). rewrite Er in H. destruct H as [H _]. apply H. vm_compute. reflexivity.
  - exists s. split; [exact Es|]. assert (reverse (aq_localq (as_q (ms_q (y_st z3)))) = [101]) as El by (vm_compute; reflexivity).
    rewrite El in Hp. exact Hp.
Defined.
