(* ===== verification/Rtpoll.v ===== *)
(** * Rtpoll: the loop of a real-time thread

    Models [src/pulsecore/rtpoll.c]: items with a priority, callbacks and file
    descriptors to poll, the array that is handed to the kernel, in which every item
    has its part, and one run of the loop: work, prepare to sleep, sleep, clean up.

    An item is an address in the list [items]; the array exists twice, and a pointer into it
    is a buffer and an index.  A callback is a number; what it does, to the loop
    too, is a parameter, and so are the kernel's answer to [ppoll] and the clock.  The
    items for semaphores and message queues that the file offers are left out: they
    are callbacks like others. *)
From stdpp Require Import base tactics numbers list gmap.
From S2P Require Import Prelude Sample Timeval.

Definition PA_RTPOLL_EARLY : Z := -100.
Definition PA_RTPOLL_NORMAL : Z := 0.
Definition PA_RTPOLL_LATE : Z := 100.
Definition PA_RTPOLL_NEVER : Z := 2 ^ 31 - 1.

Record pollfd := mk_pollfd { pf_fd : Z; pf_events : Z; pf_revents : Z }.

Record pa_rtpoll_item := mk_rt_item {
  ri_dead : bool;
  ri_priority : Z;
  ri_pollfd : option (Z * Z);       (* the buffer and the index *)
  ri_n_pollfd : Z;
  ri_work_cb : option Z;
  ri_before_cb : option Z;
  ri_after_cb : option Z;
  ri_work_userdata : Z;
  ri_before_userdata : Z;
  ri_after_userdata : Z
}.

(** Memory that was not written to is [None]. *)
Record pa_rtpoll := mk_rtpoll {
  rp_bufs : gmap Z (list (option pollfd));
  rp_pollfd : Z;
  rp_pollfd2 : Z;
  rp_n_pollfd_alloc : Z;
  rp_n_pollfd_used : Z;
  rp_next_elapse : timeval;
  rp_timer_enabled : bool;
  rp_scan_for_dead : bool;
  rp_running : bool;
  rp_rebuild_needed : bool;
  rp_quit : bool;
  rp_timer_elapsed : bool;
  rp_items : list (Z * pa_rtpoll_item)
}.

Definition set_dead (i : pa_rtpoll_item) : pa_rtpoll_item := mk_rt_item true (ri_priority i) (ri_pollfd i) (ri_n_pollfd i)
  (ri_work_cb i) (ri_before_cb i) (ri_after_cb i) (ri_work_userdata i) (ri_before_userdata i) (ri_after_userdata i).
Definition set_pollfd o (i : pa_rtpoll_item) : pa_rtpoll_item := mk_rt_item (ri_dead i) (ri_priority i) o (ri_n_pollfd i)
  (ri_work_cb i) (ri_before_cb i) (ri_after_cb i) (ri_work_userdata i) (ri_before_userdata i) (ri_after_userdata i).
Definition set_work c u (i : pa_rtpoll_item) : pa_rtpoll_item := mk_rt_item (ri_dead i) (ri_priority i) (ri_pollfd i) (ri_n_pollfd i)
  c (ri_before_cb i) (ri_after_cb i) u (ri_before_userdata i) (ri_after_userdata i).
Definition set_before c u (i : pa_rtpoll_item) : pa_rtpoll_item := mk_rt_item (ri_dead i) (ri_priority i) (ri_pollfd i) (ri_n_pollfd i)
  (ri_work_cb i) c (ri_after_cb i) (ri_work_userdata i) u (ri_after_userdata i).
Definition set_after c u (i : pa_rtpoll_item) : pa_rtpoll_item := mk_rt_item (ri_dead i) (ri_priority i) (ri_pollfd i) (ri_n_pollfd i)
  (ri_work_cb i) (ri_before_cb i) c (ri_work_userdata i) (ri_before_userdata i) u.

Definition set_bufs b a1 a2 n (p : pa_rtpoll) := mk_rtpoll b a1 a2 n (rp_n_pollfd_used p) (rp_next_elapse p) (rp_timer_enabled p)
  (rp_scan_for_dead p) (rp_running p) (rp_rebuild_needed p) (rp_quit p) (rp_timer_elapsed p) (rp_items p).
Definition set_used n (p : pa_rtpoll) := mk_rtpoll (rp_bufs p) (rp_pollfd p) (rp_pollfd2 p) (rp_n_pollfd_alloc p) n (rp_next_elapse p)
  (rp_timer_enabled p) (rp_scan_for_dead p) (rp_running p) (rp_rebuild_needed p) (rp_quit p) (rp_timer_elapsed p) (rp_items p).
Definition set_rt_timer t b (p : pa_rtpoll) := mk_rtpoll (rp_bufs p) (rp_pollfd p) (rp_pollfd2 p) (rp_n_pollfd_alloc p) (rp_n_pollfd_used p) t
  b (rp_scan_for_dead p) (rp_running p) (rp_rebuild_needed p) (rp_quit p) (rp_timer_elapsed p) (rp_items p).
Definition set_scan b (p : pa_rtpoll) := mk_rtpoll (rp_bufs p) (rp_pollfd p) (rp_pollfd2 p) (rp_n_pollfd_alloc p) (rp_n_pollfd_used p) (rp_next_elapse p)
  (rp_timer_enabled p) b (rp_running p) (rp_rebuild_needed p) (rp_quit p) (rp_timer_elapsed p) (rp_items p).
Definition set_running b (p : pa_rtpoll) := mk_rtpoll (rp_bufs p) (rp_pollfd p) (rp_pollfd2 p) (rp_n_pollfd_alloc p) (rp_n_pollfd_used p) (rp_next_elapse p)
  (rp_timer_enabled p) (rp_scan_for_dead p) b (rp_rebuild_needed p) (rp_quit p) (rp_timer_elapsed p) (rp_items p).
Definition set_rebuild b (p : pa_rtpoll) := mk_rtpoll (rp_bufs p) (rp_pollfd p) (rp_pollfd2 p) (rp_n_pollfd_alloc p) (rp_n_pollfd_used p) (rp_next_elapse p)
  (rp_timer_enabled p) (rp_scan_for_dead p) (rp_running p) b (rp_quit p) (rp_timer_elapsed p) (rp_items p).
Definition set_quit b (p : pa_rtpoll) := mk_rtpoll (rp_bufs p) (rp_pollfd p) (rp_pollfd2 p) (rp_n_pollfd_alloc p) (rp_n_pollfd_used p) (rp_next_elapse p)
  (rp_timer_enabled p) (rp_scan_for_dead p) (rp_running p) (rp_rebuild_needed p) b (rp_timer_elapsed p) (rp_items p).
Definition set_elapsed b (p : pa_rtpoll) := mk_rtpoll (rp_bufs p) (rp_pollfd p) (rp_pollfd2 p) (rp_n_pollfd_alloc p) (rp_n_pollfd_used p) (rp_next_elapse p)
  (rp_timer_enabled p) (rp_scan_for_dead p) (rp_running p) (rp_rebuild_needed p) (rp_quit p) b (rp_items p).
Definition set_rt_items l (p : pa_rtpoll) := mk_rtpoll (rp_bufs p) (rp_pollfd p) (rp_pollfd2 p) (rp_n_pollfd_alloc p) (rp_n_pollfd_used p) (rp_next_elapse p)
  (rp_timer_enabled p) (rp_scan_for_dead p) (rp_running p) (rp_rebuild_needed p) (rp_quit p) (rp_timer_elapsed p) l.

(** ** The list of items *)

Fixpoint find_item (a : Z) (l : list (Z * pa_rtpoll_item)) : option pa_rtpoll_item :=
  match l with [] => None | (b, i) :: l => if b =? a then Some i else find_item a l end.

Definition alter_item (f : pa_rtpoll_item -> pa_rtpoll_item) (a : Z) (l : list (Z * pa_rtpoll_item)) : list (Z * pa_rtpoll_item) :=
  (fun '(b, i) => if b =? a then (b, f i) else (b, i)) <$> l.

(** [i->next]: outside of the list it is not defined. *)
Fixpoint next_item (a : Z) (l : list (Z * pa_rtpoll_item)) : option (option Z) :=
  match l with [] => None | (b, _) :: l => if b =? a then Some (fst <$> head l) else next_item a l end.

(** [i->prev] *)
Definition prev_item (a : Z) (l : list (Z * pa_rtpoll_item)) : option (option Z) := next_item a (reverse l).

(** ** The array *)

(** [pa_xrealloc] *)
Definition resize (n : Z) (b : list (option pollfd)) : list (option pollfd) :=
  take (Z.to_nat n) b ++ replicate (Z.to_nat n - length b) None.

Definition pa_rtpoll_new : pa_rtpoll :=
  let buf := replicate 32 None in
  mk_rtpoll {[ 1 := buf; 2 := buf ]} 1 2 32 0 (mk_tv 0 0) false false false false false false [].

(** What [i->pollfd] points to, or zeros. *)
Definition item_cells (bufs : gmap Z (list (option pollfd))) (i : pa_rtpoll_item) : outcome (list (option pollfd)) :=
  match ri_pollfd i with
  | None => Ok (replicate (Z.to_nat (ri_n_pollfd i)) (Some (mk_pollfd 0 0 0)))
  | Some (b, o) =>
      cells ← deref (bufs !! b);
      _ ← (if o + ri_n_pollfd i <=? Z.of_nat (length cells) then Ok tt else UB);
      Ok (sub_list o (ri_n_pollfd i) cells)
  end.

(** The loop of [rtpoll_rebuild]; [e] is an index of the buffer [b]. *)
Fixpoint rebuild_loop (b : Z) (e : Z) (l : list (Z * pa_rtpoll_item)) (bufs : gmap Z (list (option pollfd)))
    : outcome (Z * list (Z * pa_rtpoll_item) * gmap Z (list (option pollfd))) :=
  match l with
  | [] => Ok (e, [], bufs)
  | (a, i) :: l =>
      '(i, bufs) ←
        (if 0 <? ri_n_pollfd i then
           cells ← item_cells bufs i;
           dst ← deref (bufs !! b);
           dst ← deref (splice e cells dst);
           Ok (set_pollfd (Some (b, e)) i, <[b := dst]> bufs)
         else Ok (set_pollfd None i, bufs));
      '(e, l, bufs) ← rebuild_loop b (e + ri_n_pollfd i) l bufs;
      Ok (e, (a, i) :: l, bufs)
  end.

Definition rtpoll_rebuild (p : pa_rtpoll) : outcome pa_rtpoll :=
  let p := set_rebuild false p in
  let ra := rp_n_pollfd_alloc p <? rp_n_pollfd_used p in
  let n := if ra then u32 (rp_n_pollfd_used p * 2) else rp_n_pollfd_alloc p in
  buf2 ← deref (rp_bufs p !! rp_pollfd2 p);
  let bufs := if ra then <[rp_pollfd2 p := resize n buf2]> (rp_bufs p) else rp_bufs p in
  '(e, items, bufs) ← rebuild_loop (rp_pollfd2 p) 0 (rp_items p) bufs;
  _ ← pa_assert (u32 e =? rp_n_pollfd_used p);
  buf1 ← deref (bufs !! rp_pollfd p);
  let bufs := if ra then <[rp_pollfd p := resize n buf1]> bufs else bufs in
  Ok (set_rt_items items (set_bufs bufs (rp_pollfd2 p) (rp_pollfd p) n p)).

(** ** Items *)

(** In front of the first item of the same or a later priority. *)
Fixpoint insert_item (prio : Z) (x : Z * pa_rtpoll_item) (l : list (Z * pa_rtpoll_item)) : list (Z * pa_rtpoll_item) :=
  match l with
  | [] => [x]
  | (b, j) :: l' => if prio <=? ri_priority j then x :: l else (b, j) :: insert_item prio x l'
  end.

(** [a]: the memory the item gets; [junk]: what its field [after_userdata] is. *)
Definition pa_rtpoll_item_new (a junk prio n_fds : Z) (p : pa_rtpoll) : pa_rtpoll :=
  let p := set_rt_items (insert_item prio (a, mk_rt_item false prio None n_fds None None None 0 0 junk) (rp_items p)) p in
  if 0 <? n_fds then set_used (u32 (rp_n_pollfd_used p + n_fds)) (set_rebuild true p) else p.

Definition rtpoll_item_destroy (a : Z) (p : pa_rtpoll) : outcome pa_rtpoll :=
  i ← deref (find_item a (rp_items p));
  let p := set_rt_items (filter (fun x => x.1 <> a) (rp_items p)) p in
  Ok (set_rebuild true (set_used (u32 (rp_n_pollfd_used p - ri_n_pollfd i)) p)).

Definition pa_rtpoll_item_free (a : Z) (p : pa_rtpoll) : outcome pa_rtpoll :=
  _ ← deref (find_item a (rp_items p));
  if rp_running p then Ok (set_scan true (set_rt_items (alter_item set_dead a (rp_items p)) p))
  else rtpoll_item_destroy a p.

(** The pointer, and the number of descriptors. *)
Definition pa_rtpoll_item_get_pollfd (a : Z) (p : pa_rtpoll) : outcome (option (Z * Z) * Z * pa_rtpoll) :=
  i ← deref (find_item a (rp_items p));
  p ← (if (0 <? ri_n_pollfd i) && rp_rebuild_needed p then rtpoll_rebuild p else Ok p);
  i ← deref (find_item a (rp_items p));
  Ok (ri_pollfd i, ri_n_pollfd i, p).

(** What the users of [pa_rtpoll_item_get_pollfd] do with it: the descriptors of an item
    are set, or read. *)
Definition write_pollfds (a : Z) (fds : list pollfd) (p : pa_rtpoll) : outcome pa_rtpoll :=
  '(ptr, n, p) ← pa_rtpoll_item_get_pollfd a p;
  '(b, o) ← deref ptr;
  _ ← (if Z.of_nat (length fds) <=? n then Ok tt else UB);
  cells ← deref (rp_bufs p !! b);
  cells ← deref (splice o (Some <$> fds) cells);
  Ok (set_bufs (<[b := cells]> (rp_bufs p)) (rp_pollfd p) (rp_pollfd2 p) (rp_n_pollfd_alloc p) p).

Definition pa_rtpoll_item_set_work_callback (a : Z) (cb : option Z) (userdata : Z) (p : pa_rtpoll) : outcome pa_rtpoll :=
  i ← deref (find_item a (rp_items p));
  _ ← pa_assert (ri_priority i <? PA_RTPOLL_NEVER);
  Ok (set_rt_items (alter_item (set_work cb userdata) a (rp_items p)) p).
Definition pa_rtpoll_item_set_before_callback (a : Z) (cb : option Z) (userdata : Z) (p : pa_rtpoll) : outcome pa_rtpoll :=
  i ← deref (find_item a (rp_items p));
  _ ← pa_assert (ri_priority i <? PA_RTPOLL_NEVER);
  Ok (set_rt_items (alter_item (set_before cb userdata) a (rp_items p)) p).
Definition pa_rtpoll_item_set_after_callback (a : Z) (cb : option Z) (userdata : Z) (p : pa_rtpoll) : outcome pa_rtpoll :=
  i ← deref (find_item a (rp_items p));
  _ ← pa_assert (ri_priority i <? PA_RTPOLL_NEVER);
  Ok (set_rt_items (alter_item (set_after cb userdata) a (rp_items p)) p).

Definition pa_rtpoll_item_get_work_userdata (a : Z) (p : pa_rtpoll) : outcome Z :=
  i ← deref (find_item a (rp_items p)); Ok (ri_work_userdata i).

(** The loop of [pa_rtpoll_free]. *)
Fixpoint free_rt_items (fuel : nat) (p : pa_rtpoll) : outcome pa_rtpoll :=
  match rp_items p with
  | [] => Ok p
  | (a, _) :: _ => match fuel with O => UB | S fuel => p ← rtpoll_item_destroy a p; free_rt_items fuel p end
  end.
Definition pa_rtpoll_free (p : pa_rtpoll) : outcome pa_rtpoll := free_rt_items (length (rp_items p)) p.

(** ** The timer *)

Definition pa_rtpoll_set_timer_absolute (usec : Z) (p : pa_rtpoll) : pa_rtpoll := set_rt_timer (pa_timeval_store usec) true p.

(** [now]: what [pa_rtclock_get] gives. *)
Definition pa_rtpoll_set_timer_relative (now : timeval) (usec : Z) (p : pa_rtpoll) : outcome pa_rtpoll :=
  _ ← pa_assert (usec <=? PA_USEC_PER_SEC * 60 * 60);
  t ← pa_timeval_add now usec;
  Ok (set_rt_timer t true p).

Definition pa_rtpoll_set_timer_disabled (p : pa_rtpoll) : pa_rtpoll := set_rt_timer (mk_tv 0 0) false p.

Definition pa_rtpoll_timer_elapsed (p : pa_rtpoll) : bool := rp_timer_elapsed p.

(** The time to sleep. *)
Definition poll_timeout (now : timeval) (p : pa_rtpoll) : outcome timeval :=
  if negb (rp_quit p) && rp_timer_enabled p && (0 <? pa_timeval_cmp (rp_next_elapse p) now)
  then pa_timeval_add (mk_tv 0 0) (pa_timeval_diff (rp_next_elapse p) now)
  else Ok (mk_tv 0 0).

(** ** A run of the loop *)

(** For the record: callbacks with what they returned, and the descriptors
    and the time the kernel was given. *)
Inductive rt_event :=
| EvWork (a k : Z)
| EvBefore (a k : Z)
| EvPoll (fds : list pollfd) (timeout : option timeval) (r : Z)
| EvAfter (a : Z).

Definition clear_revents (f : pollfd) : pollfd := mk_pollfd (pf_fd f) (pf_events f) 0.

Definition reset_revents (a : Z) (p : pa_rtpoll) : outcome pa_rtpoll :=
  '(ptr, n, p) ← pa_rtpoll_item_get_pollfd a p;
  match ptr with
  | None => Ok p
  | Some (b, o) =>
      cells ← deref (rp_bufs p !! b);
      _ ← (if o + n <=? Z.of_nat (length cells) then Ok tt else UB);
      cells ← deref (splice o (fmap clear_revents <$> sub_list o n cells) cells);
      Ok (set_bufs (<[b := cells]> (rp_bufs p)) (rp_pollfd p) (rp_pollfd2 p) (rp_n_pollfd_alloc p) p)
  end.

Fixpoint reset_loop (l : list (Z * pa_rtpoll_item)) (p : pa_rtpoll) : outcome pa_rtpoll :=
  match l with
  | [] => Ok p
  | (a, i) :: l => p ← (if ri_dead i then Ok p else reset_revents a p); reset_loop l p
  end.
Definition reset_all_revents (p : pa_rtpoll) : outcome pa_rtpoll := reset_loop (rp_items p) p.

(** The descriptors the kernel reads. *)
Definition polled_fds (p : pa_rtpoll) : outcome (list pollfd) :=
  cells ← deref (rp_bufs p !! rp_pollfd p);
  _ ← (if rp_n_pollfd_used p <=? Z.of_nat (length cells) then Ok tt else UB);
  deref (mapM id (take (Z.to_nat (rp_n_pollfd_used p)) cells)).

Definition set_revents (f : pollfd) (r : Z) : pollfd := mk_pollfd (pf_fd f) (pf_events f) r.

(** What the kernel writes. *)
Definition store_revents (fds : list pollfd) (revents : list Z) (p : pa_rtpoll) : outcome pa_rtpoll :=
  cells ← deref (rp_bufs p !! rp_pollfd p);
  cells ← deref (splice 0 (Some <$> zip_with set_revents fds revents) cells);
  Ok (set_bufs (<[rp_pollfd p := cells]> (rp_bufs p)) (rp_pollfd p) (rp_pollfd2 p) (rp_n_pollfd_alloc p) p).

(** An answer of [ppoll]: the result, whether the error is EAGAIN or EINTR, and
    the events. *)
Record poll_answer := mk_answer { pa_ret : Z; pa_again : bool; pa_revents : list Z }.

Section run.
Context {W : Type}.
(** What callback [f] of item [a] does, and returns. *)
Context (call : Z -> Z -> pa_rtpoll -> W -> outcome (Z * pa_rtpoll * W)).
Context (ppoll : list pollfd -> option timeval -> W -> poll_answer * W).
Context (rtclock : W -> timeval).

Record run_state := mk_run { rs_p : pa_rtpoll; rs_w : W; rs_trace : list rt_event }.

Definition do_call (f a : Z) (ev : Z -> rt_event) (s : run_state) : outcome (Z * run_state) :=
  '(k, p, w) ← call f a (rs_p s) (rs_w s);
  Ok (k, mk_run p w (rs_trace s ++ [ev k])).

(** The loops over the items follow [next] of the current item; a result of [None]
    is that [fuel] was not enough.  [Some k]: go to [finish], with [r] = [k]. *)
Fixpoint work_loop (fuel : nat) (cur : option Z) (s : run_state) : outcome (option (option Z * run_state)) :=
  match cur, fuel with
  | None, _ => Ok (Some (None, s))
  | _, O => Ok None
  | Some a, S fuel =>
      i ← deref (find_item a (rp_items (rs_p s)));
      if negb (ri_priority i <? PA_RTPOLL_NEVER) then Ok (Some (None, s))
      else
        let go_on s := next ← deref (next_item a (rp_items (rs_p s))); work_loop fuel next s in
        if ri_dead i then go_on s
        else match ri_work_cb i with
             | None => go_on s
             | Some f =>
                 if rp_quit (rs_p s) then Ok (Some (Some 0, s))
                 else
                   '(k, s) ← do_call f a (EvWork a) s;
                   if negb (k =? 0) then Ok (Some (Some (if k <? 0 then k else 0), s)) else go_on s
             end
  end.

(** Back from an item: the callbacks for after the sleep. *)
Fixpoint rewind_loop (fuel : nat) (cur : option Z) (s : run_state) : outcome (option run_state) :=
  match cur, fuel with
  | None, _ => Ok (Some s)
  | _, O => Ok None
  | Some a, S fuel =>
      i ← deref (find_item a (rp_items (rs_p s)));
      s ← (if ri_dead i then Ok s
           else match ri_after_cb i with
                | None => Ok s
                | Some f => '(_, s) ← do_call f a (fun _ => EvAfter a) s; Ok s
                end);
      prev ← deref (prev_item a (rp_items (rs_p s)));
      rewind_loop fuel prev s
  end.

(** [all]: enough for going back. *)
Fixpoint before_loop (all fuel : nat) (cur : option Z) (s : run_state) : outcome (option (option Z * run_state)) :=
  match cur, fuel with
  | None, _ => Ok (Some (None, s))
  | _, O => Ok None
  | Some a, S fuel =>
      i ← deref (find_item a (rp_items (rs_p s)));
      if negb (ri_priority i <? PA_RTPOLL_NEVER) then Ok (Some (None, s))
      else
        let go_on s := next ← deref (next_item a (rp_items (rs_p s))); before_loop all fuel next s in
        let stop k s :=
          prev ← deref (prev_item a (rp_items (rs_p s)));
          r ← rewind_loop all prev s;
          Ok (match r with Some s => Some (Some (if k <? 0 then k else 0), s) | None => None end) in
        if ri_dead i then go_on s
        else match ri_before_cb i with
             | None => go_on s
             | Some f =>
                 if rp_quit (rs_p s) then stop 0 s
                 else '(k, s) ← do_call f a (EvBefore a) s; if negb (k =? 0) then stop k s else go_on s
             end
  end.

Fixpoint after_loop (fuel : nat) (cur : option Z) (s : run_state) : outcome (option run_state) :=
  match cur, fuel with
  | None, _ => Ok (Some s)
  | _, O => Ok None
  | Some a, S fuel =>
      i ← deref (find_item a (rp_items (rs_p s)));
      if negb (ri_priority i <? PA_RTPOLL_NEVER) then Ok (Some s)
      else
        s ← (if ri_dead i then Ok s
             else match ri_after_cb i with
                  | None => Ok s
                  | Some f => '(_, s) ← do_call f a (fun _ => EvAfter a) s; Ok s
                  end);
        next ← deref (next_item a (rp_items (rs_p s)));
        after_loop fuel next s
  end.

Definition set_p (p : pa_rtpoll) (s : run_state) : run_state := mk_run p (rs_w s) (rs_trace s).

(** From the array to the kernel's answer. *)
Definition sleep (s : run_state) : outcome (Z * run_state) :=
  p ← (if rp_rebuild_needed (rs_p s) then rtpoll_rebuild (rs_p s) else Ok (rs_p s));
  timeout ← poll_timeout (rtclock (rs_w s)) p;
  let ts := if rp_quit p || rp_timer_enabled p then Some timeout else None in
  fds ← polled_fds p;
  let '(ans, w) := ppoll fds ts (rs_w s) in
  p ← store_revents fds (pa_revents ans) p;
  let r := pa_ret ans in
  let p := set_elapsed (r =? 0) p in
  p ← (if r <? 0 then reset_all_revents p else Ok p);
  Ok (if (r <? 0) && pa_again ans then 0 else r, mk_run p w (rs_trace s ++ [EvPoll fds ts r])).

Fixpoint destroy_loop (l : list (Z * pa_rtpoll_item)) (p : pa_rtpoll) : outcome pa_rtpoll :=
  match l with
  | [] => Ok p
  | (a, i) :: l => p ← (if ri_dead i then rtpoll_item_destroy a p else Ok p); destroy_loop l p
  end.

Definition finish (r : Z) (s : run_state) : outcome (Z * run_state) :=
  let p := set_running false (rs_p s) in
  p ← (if rp_scan_for_dead p then destroy_loop (rp_items p) (set_scan false p) else Ok p);
  Ok (if r <? 0 then r else if rp_quit p then 0 else 1, set_p p s).

Definition first_item (s : run_state) : option Z := fst <$> head (rp_items (rs_p s)).

(** [None]: not finished with this fuel, which bounds the items each loop visits. *)
Definition pa_rtpoll_run (fuel : nat) (p : pa_rtpoll) (w : W) : outcome (option (Z * run_state)) :=
  _ ← pa_assert (negb (rp_running p));
  let s := mk_run (set_elapsed false (set_running true p)) w [] in
  res ← work_loop fuel (first_item s) s;
  match res with
  | None => Ok None
  | Some (Some k, s) => r ← finish k s; Ok (Some r)
  | Some (None, s) =>
      res ← before_loop fuel fuel (first_item s) s;
      match res with
      | None => Ok None
      | Some (Some k, s) => r ← finish k s; Ok (Some r)
      | Some (None, s) =>
          '(r, s) ← sleep s;
          res ← after_loop fuel (first_item s) s;
          match res with
          | None => Ok None
          | Some s => r ← finish r s; Ok (Some r)
          end
      end
  end.
End run.
