(* ===== verification/RtpollProps.v ===== *)
(** * RtpollProps: the array of descriptors

    Every item has its own part of the array, in the order of the list; moving and
    growing the array changes no item's descriptors; and what the kernel gets are
    the descriptors of all items. *)
From stdpp Require Import base tactics numbers list gmap sorting.
From S2P Require Import Prelude Sample Timeval Rtpoll.

(** ** The invariant *)

(** What an item's pointer refers to in the buffer [buf]. *)
Definition icells (buf : list (option pollfd)) (i : pa_rtpoll_item) : list (option pollfd) :=
  match ri_pollfd i with
  | None => replicate (Z.to_nat (ri_n_pollfd i)) (Some (mk_pollfd 0 0 0))
  | Some (_, o) => sub_list o (ri_n_pollfd i) buf
  end.

Definition item_ok (b : Z) (buf : list (option pollfd)) (i : pa_rtpoll_item) : Prop :=
  0 <= ri_n_pollfd i /\
  match ri_pollfd i with
  | None => True
  | Some (b', o) => b' = b /\ 0 <= o /\ o + ri_n_pollfd i <= Z.of_nat (length buf) /\ Forall is_Some (sub_list o (ri_n_pollfd i) buf)
  end.

(** The items one after the other, from index [e]. *)
Fixpoint laid (b e : Z) (l : list (Z * pa_rtpoll_item)) : Prop :=
  match l with
  | [] => True
  | (_, i) :: l => ri_pollfd i = (if 0 <? ri_n_pollfd i then Some (b, e) else None) /\ laid b (e + ri_n_pollfd i) l
  end.

Definition total (l : list (Z * pa_rtpoll_item)) : Z := sumZ ((fun x => ri_n_pollfd x.2) <$> l).

Definition before_eq (x y : Z * pa_rtpoll_item) : Prop := ri_priority x.2 <= ri_priority y.2.

Record rt_inv (p : pa_rtpoll) (buf : list (option pollfd)) : Prop := {
  rt_sorted : StronglySorted before_eq (rp_items p);
  rt_nodup : NoDup (rp_items p).*1;
  rt_buf : rp_bufs p !! rp_pollfd p = Some buf;
  rt_alloc : Z.of_nat (length buf) = rp_n_pollfd_alloc p;
  rt_buf2 : exists buf2, rp_bufs p !! rp_pollfd2 p = Some buf2 /\ length buf2 = length buf;
  rt_two : rp_pollfd p <> rp_pollfd2 p;
  rt_used : rp_n_pollfd_used p = total (rp_items p) /\ rp_n_pollfd_used p < 2 ^ 31;
  rt_items_ok x : x ∈ rp_items p -> item_ok (rp_pollfd p) buf x.2;
  rt_laid : rp_rebuild_needed p = false -> laid (rp_pollfd p) 0 (rp_items p) /\ rp_n_pollfd_used p <= rp_n_pollfd_alloc p;
  rt_dead x : x ∈ rp_items p -> ri_dead x.2 = true -> rp_running p = true /\ rp_scan_for_dead p = true;
  rt_timer : tv_ok (rp_next_elapse p)
}.

(** The descriptors of an item. *)
Definition item_fds (buf : list (option pollfd)) (i : pa_rtpoll_item) : list pollfd := omap id (icells buf i).

(** ** Moving the array *)

Lemma total_cons a i l : total ((a, i) :: l) = ri_n_pollfd i + total l.
Proof. done. Qed.

Lemma total_nonneg b buf l : (forall x, x ∈ l -> item_ok b buf x.2) -> 0 <= total l.
Proof.
  intros H. unfold total. apply sumZ_nonneg, Forall_fmap, Forall_forall. intros x Hx. apply (H x Hx).
Qed.

Lemma icells_length b buf i : item_ok b buf i -> length (icells buf i) = Z.to_nat (ri_n_pollfd i).
Proof.
  intros [Hn H]. unfold icells. destruct (ri_pollfd i) as [[b' o]|]; [|apply length_replicate].
  destruct H as (_ & H1 & H2 & _). by apply sub_list_length.
Qed.

Lemma icells_some b buf i : item_ok b buf i -> Forall is_Some (icells buf i).
Proof.
  intros [Hn H]. unfold icells. destruct (ri_pollfd i) as [[b' o]|]; [by destruct H as (_ & _ & _ & H)|].
  apply Forall_replicate. by eexists.
Qed.

Lemma item_cells_ok bufs b buf i : bufs !! b = Some buf -> item_ok b buf i -> item_cells bufs i = Ok (icells buf i).
Proof.
  intros Eb [Hn H]. unfold item_cells, icells. destruct (ri_pollfd i) as [[b' o]|]; [|done].
  destruct H as (-> & H1 & H2 & _). rewrite Eb. simpl. destruct (Z.leb_spec (o + ri_n_pollfd i) (Z.of_nat (length buf))); [done|lia].
Qed.

(** The items with their new places. *)
Fixpoint relaid (b e : Z) (l : list (Z * pa_rtpoll_item)) : list (Z * pa_rtpoll_item) :=
  match l with
  | [] => []
  | (a, i) :: l => (a, set_pollfd (if 0 <? ri_n_pollfd i then Some (b, e) else None) i) :: relaid b (e + ri_n_pollfd i) l
  end.

Definition all_cells (buf : list (option pollfd)) (l : list (Z * pa_rtpoll_item)) : list (option pollfd) :=
  concat ((fun x => icells buf x.2) <$> l).

Lemma all_cells_length b buf l : (forall x, x ∈ l -> item_ok b buf x.2) -> Z.of_nat (length (all_cells buf l)) = total l.
Proof.
  induction l as [|[a i] l IH]; intros H; [done|]. rewrite total_cons. change (all_cells buf ((a, i) :: l)) with (icells buf i ++ all_cells buf l). rewrite length_app.
  rewrite (icells_length b) by (apply (H (a, i)); by left). rewrite Nat2Z.inj_add, IH by (intros x Hx; apply H; by right).
  pose proof (proj1 (H (a, i) ltac:(by left))). simpl in *. lia.
Qed.

Lemma rebuild_loop_spec b b2 buf : b <> b2 -> forall l e bufs pre mid post,
  bufs !! b = Some buf -> (forall x, x ∈ l -> item_ok b buf x.2) -> bufs !! b2 = Some (pre ++ mid ++ post) ->
  Z.of_nat (length pre) = e -> Z.of_nat (length mid) = total l ->
  rebuild_loop b2 e l bufs = Ok (e + total l, relaid b2 e l, <[b2 := pre ++ all_cells buf l ++ post]> bufs).
Proof.
  intros Hne. induction l as [|[a i] l IH]; intros e bufs pre mid post Eb Hok E2 He Hm.
  - destruct mid; [|done]. simpl. rewrite Z.add_0_r. by rewrite insert_id.
  - pose proof (Hok (a, i) ltac:(by left)) as Hi. simpl in Hi. pose proof (icells_length b buf i Hi) as Hl.
    assert (forall x, x ∈ l -> item_ok b buf x.2) as Hok' by (intros x Hx; apply Hok; by right).
    rewrite total_cons in Hm |- *. pose proof (total_nonneg b buf l Hok') as Ht. pose proof (proj1 Hi) as Hn.
    assert (mid = take (length (icells buf i)) mid ++ drop (length (icells buf i)) mid) as Em by (by rewrite take_drop).
    set (m1 := take (length (icells buf i)) mid) in *. set (m2 := drop (length (icells buf i)) mid) in *.
    assert (length m1 = length (icells buf i)) as L1 by (unfold m1; rewrite length_take; lia).
    assert (Z.of_nat (length m2) = total l) as L2 by (unfold m2; rewrite length_drop; lia).
    cbn [rebuild_loop relaid]. destruct (Z.ltb_spec 0 (ri_n_pollfd i)) as [Hp|Hp].
    + rewrite (item_cells_ok bufs b buf i Eb Hi). simpl. rewrite E2. simpl.
      replace (pre ++ mid ++ post) with (pre ++ m1 ++ (m2 ++ post)) by (by rewrite Em, <- app_assoc).
      rewrite splice_eq by done. simpl.
      rewrite (IH (e + ri_n_pollfd i) _ (pre ++ icells buf i) m2 post); simpl.
      * rewrite insert_insert_eq. rewrite Z.add_assoc. unfold all_cells. simpl. rewrite <- !app_assoc. done.
      * by rewrite lookup_insert_ne.
      * done.
      * rewrite lookup_insert_eq. by rewrite <- !app_assoc.
      * rewrite length_app. lia.
      * done.
    + assert (icells buf i = []) as E0 by (apply nil_length_inv; lia). simpl.
      rewrite (IH (e + ri_n_pollfd i) bufs pre mid post) by (done || lia). simpl. rewrite Z.add_assoc. unfold all_cells. simpl. by rewrite E0.
Qed.

(** An item in its new place. *)
Definition moved_item (b2 : Z) (buf buf' : list (option pollfd)) (x y : Z * pa_rtpoll_item) : Prop :=
  y.1 = x.1 /\ (exists o, y.2 = set_pollfd o x.2) /\ icells buf' y.2 = icells buf x.2 /\ item_ok b2 buf' y.2.

Lemma relaid_moved b b2 buf post : forall l e pre,
  (forall x, x ∈ l -> item_ok b buf x.2) -> Z.of_nat (length pre) = e ->
  Forall2 (moved_item b2 buf (pre ++ all_cells buf l ++ post)) l (relaid b2 e l) /\ laid b2 e (relaid b2 e l) /\
  total (relaid b2 e l) = total l.
Proof.
  induction l as [|[a i] l IH]; intros e pre Hok He; [by split_and!|].
  pose proof (Hok (a, i) ltac:(by left)) as Hi. simpl in Hi. pose proof (icells_length b buf i Hi) as Hl. pose proof (proj1 Hi) as Hn.
  destruct (IH (e + ri_n_pollfd i) (pre ++ icells buf i)) as (H1 & H2 & H3).
  { intros x Hx. apply Hok. by right. }
  { rewrite length_app. lia. }
  cbn [relaid laid]. rewrite !total_cons, H3. split_and!; [|done|done|done].
  replace (pre ++ all_cells buf ((a, i) :: l) ++ post) with ((pre ++ icells buf i) ++ all_cells buf l ++ post) by (unfold all_cells; simpl; by rewrite <- !app_assoc).
  constructor; [|exact H1]. set (buf' := (pre ++ icells buf i) ++ all_cells buf l ++ post).
  assert (sub_list e (ri_n_pollfd i) buf' = icells buf i) as Es.
  { unfold sub_list, buf'. rewrite <- app_assoc. replace (Z.to_nat e) with (length pre) by lia. rewrite drop_app_length, <- Hl. apply take_app_length. }
  split; [done|]. split; [by eexists|]. simpl. destruct (Z.ltb_spec 0 (ri_n_pollfd i)) as [Hp|Hp].
  - split; [unfold icells at 1; simpl; exact Es|]. split; [done|]. simpl. split_and!; [done|lia| |by rewrite Es; apply (icells_some b)].
    unfold buf'. rewrite !length_app. lia.
  - split; [|by split]. assert (ri_n_pollfd i = 0) as E0 by lia.
    assert (icells buf i = []) as -> by (apply nil_length_inv; rewrite Hl, E0; done). unfold icells. simpl. by rewrite E0.
Qed.

(** Everything but the places is as before. *)
Record moved (p : pa_rtpoll) (buf : list (option pollfd)) (p' : pa_rtpoll) (buf' : list (option pollfd)) : Prop := {
  mv_items : Forall2 (moved_item (rp_pollfd p') buf buf') (rp_items p) (rp_items p');
  mv_used : rp_n_pollfd_used p' = rp_n_pollfd_used p;
  mv_timer : rp_next_elapse p' = rp_next_elapse p /\ rp_timer_enabled p' = rp_timer_enabled p;
  mv_flags : rp_scan_for_dead p' = rp_scan_for_dead p /\ rp_running p' = rp_running p /\ rp_quit p' = rp_quit p /\ rp_timer_elapsed p' = rp_timer_elapsed p
}.

Lemma rt_moved_refl p buf : rt_inv p buf -> moved p buf p buf.
Proof.
  intros R. split; try done. apply Forall_Forall2_diag, Forall_forall. intros x Hx. split; [done|]. split; [|split; [done|by apply R]].
  exists (ri_pollfd x.2). by destruct x as [a []].
Qed.

Lemma moved_sorted b buf buf' l l' : Forall2 (moved_item b buf buf') l l' -> StronglySorted before_eq l -> StronglySorted before_eq l'.
Proof.
  induction 1 as [|x y l l' (_ & [o E] & _) Hl IH]; intros Hs; [constructor|]. apply StronglySorted_inv in Hs as [Hs Hf]. constructor; [by apply IH|].
  apply Forall_forall. intros z Hz. apply list_elem_of_lookup in Hz as [k Ez]. destruct (Forall2_lookup_r _ _ _ _ _ Hl Ez) as (z0 & E0 & (_ & [o' E'] & _)).
  rewrite Forall_forall in Hf. pose proof (Hf z0 (list_elem_of_lookup_2 _ _ _ E0)) as Hb. unfold before_eq in *. rewrite E, E'. done.
Qed.

Lemma moved_fst b buf buf' l l' : Forall2 (moved_item b buf buf') l l' -> l'.*1 = l.*1.
Proof. induction 1 as [|x y l l' (E & _) _ IH]; [done|]. by rewrite !fmap_cons, E, IH. Qed.

Lemma moved_elem b buf buf' l l' y : Forall2 (moved_item b buf buf') l l' -> y ∈ l' -> exists x, x ∈ l /\ moved_item b buf buf' x y.
Proof.
  intros H (k & E)%list_elem_of_lookup. destruct (Forall2_lookup_r _ _ _ _ _ H E) as (x & Ex & Hx). exists x. split; [by eapply list_elem_of_lookup_2|done].
Qed.

Lemma resize_length n b : 0 <= n -> Z.of_nat (length b) <= n -> Z.of_nat (length (resize n b)) = n.
Proof. intros Hn Hb. unfold resize. rewrite length_app, length_take, length_replicate. lia. Qed.

(** The array is built anew, in the other buffer, with more room when there is not enough. *)
Lemma rebuild_spec p buf : rt_inv p buf ->
  exists p' buf', rtpoll_rebuild p = Ok p' /\ rt_inv p' buf' /\ rp_rebuild_needed p' = false /\ moved p buf p' buf'.
Proof.
  intros R. pose proof R as [R1 R2 R3 R4 (buf2 & R5 & R5') R6 [R7 R7'] R8 R9 R10 R11].
  pose proof (total_nonneg _ _ _ R8) as Ht. unfold rtpoll_rebuild. cbn [set_rebuild rp_n_pollfd_alloc rp_n_pollfd_used rp_bufs rp_pollfd2 rp_pollfd rp_items].
  rewrite R5. cbn [deref mbind outcome_bind]. remember (rp_n_pollfd_alloc p <? rp_n_pollfd_used p) as ra eqn:Era.
  remember (if ra then u32 (rp_n_pollfd_used p * 2) else rp_n_pollfd_alloc p) as n eqn:En.
  assert (rp_n_pollfd_used p <= n /\ rp_n_pollfd_alloc p <= n /\ 0 <= n) as (Hn & Hn' & Hn0).
  { rewrite En, Era. destruct (Z.ltb_spec (rp_n_pollfd_alloc p) (rp_n_pollfd_used p)); [rewrite u32_small by lia|]; lia. }
  remember (if ra then resize n buf2 else buf2) as dst eqn:Edst.
  assert (Z.of_nat (length dst) = n) as Ld.
  { rewrite Edst. destruct ra; [apply resize_length; lia|lia]. }
  assert ((if ra then <[rp_pollfd2 p := resize n buf2]> (rp_bufs p) else rp_bufs p) = <[rp_pollfd2 p := dst]> (rp_bufs p)) as ->.
  { rewrite Edst. destruct ra; [done|]. by rewrite insert_id. }
  rewrite (rebuild_loop_spec (rp_pollfd p) (rp_pollfd2 p) buf R6 (rp_items p) 0 _ [] (take (Z.to_nat (total (rp_items p))) dst) (drop (Z.to_nat (total (rp_items p))) dst));
    [|by rewrite lookup_insert_ne|done|rewrite lookup_insert_eq; simpl; by rewrite take_drop|done|rewrite length_take; lia].
  cbn [mbind outcome_bind]. rewrite Z.add_0_l, u32_small by lia. rewrite R7, Z.eqb_refl. cbn [pa_assert mbind outcome_bind].
  rewrite insert_insert_eq, lookup_insert_ne, R3 by done. cbn [deref mbind outcome_bind].
  set (buf' := [] ++ all_cells buf (rp_items p) ++ drop (Z.to_nat (total (rp_items p))) dst).
  destruct (relaid_moved (rp_pollfd p) (rp_pollfd2 p) buf (drop (Z.to_nat (total (rp_items p))) dst) (rp_items p) 0 [] R8 eq_refl) as (Hm & Hl & Htot).
  assert (Z.of_nat (length buf') = n) as Lb.
  { unfold buf'. simpl. rewrite length_app, length_drop. pose proof (all_cells_length _ _ _ R8). lia. }
  eexists _, buf'. split; [done|]. split; [|split; [done|by split]]. split; simpl; try done.
  - by eapply moved_sorted.
  - by rewrite (moved_fst _ _ _ _ _ Hm).
  - destruct ra; [rewrite lookup_insert_ne by done|]; by rewrite lookup_insert_eq.
  - exists (if ra then resize n buf else buf). split.
    + destruct ra; [by rewrite lookup_insert_eq|]. by rewrite lookup_insert_ne.
    + destruct ra; [pose proof (resize_length n buf); lia|]. lia.
  - by rewrite Htot.
  - intros y Hy. destruct (moved_elem _ _ _ _ _ y Hm Hy) as (x & _ & (_ & _ & _ & Hok)). exact Hok.
  - intros y Hy Hd. destruct (moved_elem _ _ _ _ _ y Hm Hy) as (x & Hx & (_ & [o E] & _)). rewrite E in Hd. by apply (R10 x).
Qed.

(** ** Items come and go *)

Lemma insert_elem prio x l y : y ∈ insert_item prio x l <-> y = x \/ y ∈ l.
Proof.
  induction l as [|[b j] l IH]; simpl; [rewrite list_elem_of_singleton; set_solver|]. case_match; rewrite ?elem_of_cons, ?IH; naive_solver.
Qed.

Lemma insert_perm prio x l : insert_item prio x l ≡ₚ x :: l.
Proof. induction l as [|[b j] l IH]; simpl; [done|]. case_match; [done|]. rewrite IH. apply perm_swap. Qed.

Lemma total_perm l l' : l ≡ₚ l' -> total l = total l'.
Proof. intros H. unfold total. by rewrite H. Qed.

Lemma item_insert_sorted prio x l : ri_priority x.2 = prio -> StronglySorted before_eq l -> StronglySorted before_eq (insert_item prio x l).
Proof.
  intros Ex. induction l as [|[b j] l IH]; intros Hs; simpl; [by repeat constructor|]. apply StronglySorted_inv in Hs as [Hs Hf].
  destruct (Z.leb_spec prio (ri_priority j)) as [Hle|Hgt].
  - constructor; [by constructor|]. constructor; [unfold before_eq; simpl; lia|]. eapply Forall_impl; [exact Hf|]. intros y Hy. unfold before_eq in *. simpl in Hy. lia.
  - constructor; [by apply IH|]. apply Forall_forall. intros y [->|Hy]%insert_elem; [unfold before_eq; simpl; lia|]. rewrite Forall_forall in Hf. by apply Hf.
Qed.

(** An item without descriptors fits in anywhere. *)
Lemma laid_insert b prio x : ri_n_pollfd x.2 = 0 -> ri_pollfd x.2 = None -> forall l e, laid b e l -> laid b e (insert_item prio x l).
Proof.
  intros Hn Hp. destruct x as [a i]. simpl in *. induction l as [|[c j] l IH]; intros e Hl; simpl in *.
  - rewrite Hn. simpl. done.
  - destruct Hl as [Hj Hl]. destruct (prio <=? ri_priority j); simpl; [|split; [done|by apply IH]]. rewrite Hn. simpl. rewrite Z.add_0_r. done.
Qed.

Lemma item_new_spec a junk prio n p buf : rt_inv p buf -> a ∉ (rp_items p).*1 -> 0 <= n -> rp_n_pollfd_used p + n < 2 ^ 31 ->
  rt_inv (pa_rtpoll_item_new a junk prio n p) buf.
Proof.
  intros [R1 R2 R3 R4 R5 R6 [R7 R7'] R8 R9 R10 R11] Ha Hn Hu. pose proof (total_nonneg _ _ _ R8) as Ht.
  set (x := (a, mk_rt_item false prio None n None None None 0 0 junk)).
  assert (StronglySorted before_eq (insert_item prio x (rp_items p))) as S by (by apply item_insert_sorted).
  assert (NoDup (insert_item prio x (rp_items p)).*1) as N by (rewrite insert_perm; by apply NoDup_cons).
  assert (forall y, y ∈ insert_item prio x (rp_items p) -> item_ok (rp_pollfd p) buf y.2) as K.
  { intros y [->|Hy]%insert_elem; [by split|by apply R8]. }
  assert (forall y, y ∈ insert_item prio x (rp_items p) -> ri_dead y.2 = true -> rp_running p = true /\ rp_scan_for_dead p = true) as D.
  { intros y [->|Hy]%insert_elem; [done|by apply R10]. }
  pose proof (total_perm _ _ (insert_perm prio x (rp_items p))) as T. change (total (x :: rp_items p)) with (n + total (rp_items p)) in T.
  unfold pa_rtpoll_item_new. fold x. destruct (Z.ltb_spec 0 n) as [Hp|Hp].
  - split; simpl; try done. rewrite T, u32_small by lia. lia.
  - split; simpl; try done; [lia|]. intros Hr. destruct (R9 Hr) as [Hl ?]. split; [|done]. apply laid_insert; [simpl; lia|done|done].
Qed.

Lemma find_item_elem a l i : find_item a l = Some i -> (a, i) ∈ l.
Proof. induction l as [|[b j] l IH]; simpl; [done|]. destruct (Z.eqb_spec b a) as [->|]; [intros [= ->]; by left|]. intros H. right. auto. Qed.

Lemma elem_find_item a l i : NoDup l.*1 -> (a, i) ∈ l -> find_item a l = Some i.
Proof.
  induction l as [|[b j] l IH]; intros Hd Hin; [by apply not_elem_of_nil in Hin|]. rewrite fmap_cons in Hd. apply NoDup_cons in Hd as [Hb Hd].
  apply elem_of_cons in Hin as [[= -> ->]|Hin]; simpl; [by rewrite Z.eqb_refl|]. destruct (Z.eqb_spec b a) as [->|]; [|auto].
  exfalso. apply Hb, list_elem_of_fmap. by exists (a, i).
Qed.

Lemma filter_other a (l : list (Z * pa_rtpoll_item)) : a ∉ l.*1 -> filter (fun x => x.1 <> a) l = l.
Proof. intros Ha. apply filter_keeps, Forall_forall. intros x Hx <-. by apply Ha, list_elem_of_fmap_2. Qed.

Lemma find_split a l i : NoDup l.*1 -> find_item a l = Some i ->
  exists l1 l2, l = l1 ++ (a, i) :: l2 /\ (a ∉ l1.*1) /\ (a ∉ l2.*1) /\ filter (fun x => x.1 <> a) l = l1 ++ l2.
Proof.
  intros Hd Hf. apply find_item_elem, list_elem_of_split in Hf as (l1 & l2 & ->). exists l1, l2. rewrite fmap_app, fmap_cons in Hd.
  apply NoDup_app in Hd as (_ & H1 & H2). apply NoDup_cons in H2 as [H2 _]. simpl in *.
  assert (a ∉ l1.*1) as H1' by (intros H; apply (H1 a H); by left). split_and!; try done.
  rewrite filter_app, filter_cons_False by naive_solver. by rewrite !filter_other.
Qed.

Lemma sorted_sublist l k : StronglySorted before_eq k -> l `sublist_of` k -> StronglySorted before_eq l.
Proof.
  intros Hs H. induction H as [|x l k Hl IH|x l k Hl IH]; [constructor| |].
  - apply StronglySorted_inv in Hs as [Hs Hf]. constructor; [auto|]. apply Forall_forall. intros y Hy. rewrite Forall_forall in Hf. apply Hf. by eapply elem_of_sublist.
  - apply StronglySorted_inv in Hs as [Hs _]. auto.
Qed.

Lemma destroy_spec a i p buf : rt_inv p buf -> find_item a (rp_items p) = Some i ->
  exists p', rtpoll_item_destroy a p = Ok p' /\ rt_inv p' buf /\ rp_items p' = filter (fun x => x.1 <> a) (rp_items p) /\
    rp_running p' = rp_running p /\ rp_quit p' = rp_quit p.
Proof.
  intros [R1 R2 R3 R4 R5 R6 [R7 R7'] R8 R9 R10 R11] Hf. destruct (find_split a _ i R2 Hf) as (l1 & l2 & El & H1 & H2 & Ef).
  unfold rtpoll_item_destroy. rewrite Hf. simpl. eexists. split; [done|]. rewrite Ef.
  assert (forall x, x ∈ l1 ++ l2 -> x ∈ rp_items p) as Hsub by (intros x Hx; rewrite El; set_solver).
  assert (total (rp_items p) = total (l1 ++ l2) + ri_n_pollfd i) as Et.
  { rewrite El. unfold total. rewrite !fmap_app, !sumZ_app, fmap_cons. change (sumZ (?x :: ?k)) with (x + sumZ k). simpl. lia. }
  assert (0 <= ri_n_pollfd i) as Hn by (apply (R8 (a, i)); rewrite El; set_solver).
  pose proof (total_nonneg _ _ (l1 ++ l2) (fun x Hx => R8 x (Hsub x Hx))) as Ht.
  split; [|done]. split; simpl; rewrite ?Ef; try done.
  - eapply sorted_sublist; [exact R1|]. rewrite El. apply sublist_app; [done|]. by apply sublist_cons.
  - rewrite El, fmap_app, fmap_cons in R2. rewrite fmap_app. apply NoDup_app in R2 as (N1 & N2 & N3). apply NoDup_cons in N3 as [_ N3].
    apply NoDup_app. split_and!; [done| |done]. intros x Hx Hx'. apply (N2 x Hx). by right.
  - rewrite u32_small by lia. lia.
  - intros x Hx. by apply R8, Hsub.
  - intros x Hx. by apply R10, Hsub.
Qed.

(** [pa_rtpoll_free]: every item goes. *)
Lemma free_all_ok p buf : rt_inv p buf -> exists p', pa_rtpoll_free p = Ok p' /\ rp_items p' = [] /\ rp_n_pollfd_used p' = 0.
Proof.
  unfold pa_rtpoll_free. remember (length (rp_items p)) as n eqn:En. revert p En. induction n as [|n IH]; intros p En R.
  - apply eq_sym, nil_length_inv in En. exists p. simpl. rewrite En. split_and!; [done|done|]. destruct (rt_used _ _ R) as [-> _]. by rewrite En.
  - destruct (rp_items p) as [|[a i] l] eqn:El; [done|]. simpl free_rt_items. rewrite El.
    destruct (destroy_spec a i p buf R) as (p1 & E1 & R1 & Ei & _); [rewrite El; simpl; by rewrite Z.eqb_refl|]. rewrite E1. cbn [mbind outcome_bind].
    apply IH; [|done]. pose proof (rt_nodup _ _ R) as Hd. rewrite El, fmap_cons in Hd. apply NoDup_cons in Hd as [Ha _].
    rewrite Ei, El, filter_cons_False by naive_solver. rewrite filter_other by done. simpl in En. lia.
Qed.

(** A change of one item that leaves its place, size and priority alone. *)
Lemma alter_fst f a l : (alter_item f a l).*1 = l.*1.
Proof. unfold alter_item. rewrite <- list_fmap_compose. apply list_fmap_ext. intros k [b i] _. simpl. by case_match. Qed.

Lemma alter_elem f a l y : y ∈ alter_item f a l -> exists x, x ∈ l /\ y.1 = x.1 /\ (y = x \/ x.1 = a /\ y.2 = f x.2).
Proof.
  intros ([b i] & -> & Hx)%list_elem_of_fmap. exists (b, i). split; [done|]. destruct (Z.eqb_spec b a); simpl; auto.
Qed.

Lemma alter_find f a b l : find_item b (alter_item f a l) = (if b =? a then f <$> find_item b l else find_item b l).
Proof.
  induction l as [|[c i] l IH]; simpl; [by case_match|]. destruct (Z.eqb_spec c a) as [->|Hca]; simpl.
  - destruct (Z.eqb_spec a b) as [->|]; [by rewrite Z.eqb_refl|]. rewrite IH. destruct (Z.eqb_spec b a); [congruence|done].
  - destruct (Z.eqb_spec c b) as [->|]; [|exact IH]. destruct (Z.eqb_spec b a); [congruence|done].
Qed.

Definition keeps_place (f : pa_rtpoll_item -> pa_rtpoll_item) : Prop :=
  forall i, ri_priority (f i) = ri_priority i /\ ri_pollfd (f i) = ri_pollfd i /\ ri_n_pollfd (f i) = ri_n_pollfd i.

Lemma alter_inv f a p buf : keeps_place f -> rt_inv p buf ->
  (forall i, ri_dead i = false -> ri_dead (f i) = true -> rp_running p = true /\ rp_scan_for_dead p = true) ->
  rt_inv (set_rt_items (alter_item f a (rp_items p)) p) buf.
Proof.
  intros Hf [R1 R2 R3 R4 R5 R6 [R7 R7'] R8 R9 R10 R11] Hd.
  assert (Forall2 (fun x y => ri_priority y.2 = ri_priority x.2 /\ ri_pollfd y.2 = ri_pollfd x.2 /\ ri_n_pollfd y.2 = ri_n_pollfd x.2)
    (rp_items p) (alter_item f a (rp_items p))) as Hk.
  { unfold alter_item. apply Forall2_fmap_r, Forall_Forall2_diag, Forall_forall. intros [b i] _. simpl. destruct (b =? a); [apply Hf|done]. }
  assert (total (alter_item f a (rp_items p)) = total (rp_items p)) as Et.
  { clear -Hk. induction Hk as [|[b x] [c y] l k (_ & _ & H) _ IH]; [done|]. rewrite !total_cons. simpl in H. lia. }
  split; simpl; try done.
  - clear -R1 Hk. induction Hk as [|x y l k (H & _) Hk IH]; [constructor|]. apply StronglySorted_inv in R1 as [Hs Hl]. constructor; [auto|].
    apply Forall_forall. intros z (n & Ez)%list_elem_of_lookup. destruct (Forall2_lookup_r _ _ _ _ _ Hk Ez) as (z0 & E0 & (Hz & _)).
    rewrite Forall_forall in Hl. pose proof (Hl z0 (list_elem_of_lookup_2 _ _ _ E0)). unfold before_eq in *. lia.
  - by rewrite alter_fst.
  - by rewrite Et.
  - intros y (n & Ey)%list_elem_of_lookup. destruct (Forall2_lookup_r _ _ _ _ _ Hk Ey) as (x & Ex & (_ & H1 & H2)).
    pose proof (R8 x (list_elem_of_lookup_2 _ _ _ Ex)) as Hok. unfold item_ok in *. by rewrite H1, H2.
  - intros Hr. destruct (R9 Hr) as [Hl ?]. split; [|done]. clear -Hl Hk. revert Hl. generalize 0. induction Hk as [|[b x] [c y] l k (_ & H1 & H2) _ IH]; intros e; [done|].
    simpl in *. intros [Hx Hl]. rewrite H1, H2. split; [done|]. by apply IH.
  - intros y Hy Hyd. destruct (alter_elem _ _ _ _ Hy) as (x & Hx & _ & [->|[_ E]]); [by apply (R10 x)|]. rewrite E in Hyd.
    destruct (ri_dead x.2) eqn:Ed; [by apply (R10 x)|]. by apply (Hd x.2).
Qed.

Lemma flags_inv p p' buf : rt_inv p buf -> rp_items p' = rp_items p -> rp_bufs p' = rp_bufs p -> rp_pollfd p' = rp_pollfd p -> rp_pollfd2 p' = rp_pollfd2 p ->
  rp_n_pollfd_alloc p' = rp_n_pollfd_alloc p -> rp_n_pollfd_used p' = rp_n_pollfd_used p -> rp_rebuild_needed p' = rp_rebuild_needed p ->
  tv_ok (rp_next_elapse p') -> (forall x, x ∈ rp_items p -> ri_dead x.2 = true -> rp_running p' = true /\ rp_scan_for_dead p' = true) -> rt_inv p' buf.
Proof. intros [R1 R2 R3 R4 R5 R6 R7 R8 R9 R10 R11] E1 E2 E3 E4 E5 E6 E7 Ht Hd. by split; rewrite ?E1, ?E2, ?E3, ?E4, ?E5, ?E6, ?E7. Qed.

(** [pa_rtpoll_item_free]: at once, or when the run is over. *)
Lemma free_spec a i p buf : rt_inv p buf -> find_item a (rp_items p) = Some i ->
  exists p', pa_rtpoll_item_free a p = Ok p' /\ rt_inv p' buf /\ rp_running p' = rp_running p /\ rp_quit p' = rp_quit p /\
    rp_items p' = (if rp_running p then alter_item set_dead a (rp_items p) else filter (fun x => x.1 <> a) (rp_items p)).
Proof.
  intros R Hf. unfold pa_rtpoll_item_free. rewrite Hf. simpl. destruct (rp_running p) eqn:Er.
  - eexists. split; [done|]. split; [|done].
    apply (alter_inv set_dead a (set_scan true p)); [done| |by intros].
    apply (flags_inv p); try done. apply R.
  - destruct (destroy_spec a i p buf R Hf) as (p' & E & R' & Ei & E1 & E2). exists p'. by rewrite E1, E2.
Qed.

(** ** Reading and writing descriptors *)

(** New contents, with nothing initialised lost. *)
Lemma contents_inv p buf buf' : rt_inv p buf -> Forall2 (fun x y => is_Some x -> is_Some y) buf buf' ->
  rt_inv (set_bufs (<[rp_pollfd p := buf']> (rp_bufs p)) (rp_pollfd p) (rp_pollfd2 p) (rp_n_pollfd_alloc p) p) buf'.
Proof.
  intros [R1 R2 R3 R4 (buf2 & R5 & R5') R6 R7 R8 R9 R10 R11] Hb. pose proof (Forall2_length _ _ _ Hb) as El. split; simpl; try done.
  - apply lookup_insert_eq.
  - lia.
  - exists buf2. rewrite lookup_insert_ne by done. split; [done|lia].
  - intros x Hx. destruct (R8 x Hx) as [Hn Hk]. split; [done|]. destruct (ri_pollfd x.2) as [[b o]|]; [|done].
    destruct Hk as (-> & H1 & H2 & H3). split_and!; [done|done|lia|]. apply Forall_lookup. intros k y Ek.
    assert (k < Z.to_nat (ri_n_pollfd x.2))%nat as Hk by (apply lookup_lt_Some in Ek; rewrite sub_list_length in Ek by lia; done).
    rewrite sub_list_lookup in Ek by lia. destruct (Forall2_lookup_r _ _ _ _ _ Hb Ek) as (z & Ez & Hz). apply Hz.
    rewrite Forall_lookup in H3. apply (H3 k). by rewrite sub_list_lookup by lia.
Qed.

Lemma splice_inits (buf buf' : list (option pollfd)) o l : splice o l buf = Some buf' -> Forall is_Some l ->
  Forall2 (fun x y => is_Some x -> is_Some y) buf buf'.
Proof.
  unfold splice. destruct (_ && _) eqn:E; [|done]. intros [= <-] Hl. apply andb_true_iff in E as [E1 E2].
  apply Forall2_same_length_lookup. split; [rewrite !length_app, length_take, length_drop; blia|]. intros k x y Ex Ey Hx.
  apply lookup_app_Some in Ey as [Ey|[Hk Ey]]; [apply lookup_take_Some in Ey as [Ey _]; congruence|].
  apply lookup_app_Some in Ey as [Ey|[Hk' Ey]]; [by rewrite Forall_lookup in Hl; apply (Hl _ _ Ey)|].
  rewrite lookup_drop in Ey. rewrite length_take in Hk', Ey, Hk. rewrite Z.leb_le in E1, E2.
  replace (Z.to_nat o + length l + (k - Z.to_nat o `min` length buf - length l))%nat with k in Ey by lia. congruence.
Qed.

Lemma splice_lookup {A} (off : Z) (src dst r : list A) (k : nat) : splice off src dst = Some r ->
  r !! k = (if (Z.to_nat off <=? k)%nat && (k <? Z.to_nat off + length src)%nat then src !! (k - Z.to_nat off)%nat else dst !! k).
Proof.
  unfold splice. destruct (_ && _) eqn:E; [|done]. intros [= <-]. apply andb_true_iff in E as [E1 E2]. rewrite Z.leb_le in E1, E2.
  destruct (Nat.leb_spec (Z.to_nat off) k) as [H1|H1]; simpl.
  - rewrite lookup_app_r by (rewrite length_take; lia). rewrite length_take, Nat.min_l by lia. destruct (Nat.ltb_spec k (Z.to_nat off + length src)).
    + by rewrite lookup_app_l by lia.
    + rewrite lookup_app_r by lia. rewrite lookup_drop. f_equal. lia.
  - rewrite lookup_app_l by (rewrite length_take; lia). by rewrite lookup_take_lt by lia.
Qed.

(** A slice next to what was written. *)
Lemma splice_apart {A} o src (dst r : list A) o' n' : splice o src dst = Some r -> 0 <= o' -> 0 <= n' -> o' + n' <= Z.of_nat (length dst) ->
  o' + n' <= o \/ o + Z.of_nat (length src) <= o' -> sub_list o' n' r = sub_list o' n' dst.
Proof.
  intros Es Ho Hn Hl Hd. pose proof (splice_length _ _ _ _ Es) as El.
  assert (0 <= o) as H0 by (unfold splice in Es; destruct (_ && _) eqn:E; [|done]; blia).
  apply list_eq_same_length with (n := Z.to_nat n'); [by apply sub_list_length|apply sub_list_length; lia|]. intros k x y Hk Ex Ey.
  rewrite sub_list_lookup in Ex, Ey by lia. rewrite (splice_lookup _ _ _ _ _ Es) in Ex.
  destruct (Nat.leb_spec (Z.to_nat o) (Z.to_nat o' + k)), (Nat.ltb_spec (Z.to_nat o' + k) (Z.to_nat o + length src)); simpl in Ex; try congruence. lia.
Qed.

Lemma splice_same {A} o src (dst r : list A) : splice o src dst = Some r -> sub_list o (Z.of_nat (length src)) r = src.
Proof.
  intros Es. assert (0 <= o /\ o + Z.of_nat (length src) <= Z.of_nat (length dst)) as [H0 H1]
    by (unfold splice in Es; destruct (_ && _) eqn:E; [|done]; blia).
  pose proof (splice_prefix o o src dst r Es ltac:(lia)) as E. by rewrite Z.sub_diag, Z.add_0_l in E.
Qed.

(** Items in their places do not overlap. *)
Lemma laid_range b l : forall e x c o, laid b e l -> (forall y, y ∈ l -> 0 <= ri_n_pollfd y.2) -> x ∈ l -> ri_pollfd x.2 = Some (c, o) ->
  c = b /\ e <= o /\ o + ri_n_pollfd x.2 <= e + total l.
Proof.
  induction l as [|[a i] l IH]; intros e x c o Hl Hn Hx Ep; [by apply not_elem_of_nil in Hx|]. destruct Hl as [Hi Hl]. rewrite total_cons.
  assert (forall y, y ∈ l -> 0 <= ri_n_pollfd y.2) as Hn' by (intros y Hy; apply Hn; by right).
  assert (0 <= total l) as Ht by (apply sumZ_nonneg, Forall_fmap, Forall_forall; intros y Hy; by apply Hn').
  pose proof (Hn (a, i) ltac:(by left)) as Hni. simpl in Hni. apply elem_of_cons in Hx as [->|Hx].
  - simpl in *. rewrite Ep in Hi. destruct (0 <? ri_n_pollfd i); simplify_eq. lia.
  - destruct (IH _ x c o Hl Hn' Hx Ep) as (-> & ? & ?). lia.
Qed.

Lemma laid_app b l k : forall e, laid b e (l ++ k) -> laid b e l /\ laid b (e + total l) k.
Proof.
  induction l as [|[a i] l IH]; intros e H; [by rewrite Z.add_0_r|]. destruct H as [Hi H]. destruct (IH _ H) as [H1 H2].
  rewrite total_cons, Z.add_assoc. by split.
Qed.

Lemma laid_apart b e l a i c j : NoDup l.*1 -> laid b e l -> (forall y, y ∈ l -> 0 <= ri_n_pollfd y.2) ->
  find_item a l = Some i -> find_item c l = Some j -> c <> a -> forall b1 o1 b2 o2, ri_pollfd i = Some (b1, o1) -> ri_pollfd j = Some (b2, o2) ->
  o2 + ri_n_pollfd j <= o1 \/ o1 + ri_n_pollfd i <= o2.
Proof.
  intros Hd Hl Hn Ha Hc Hne b1 o1 b2 o2 Ei Ej. destruct (find_split a l i Hd Ha) as (l1 & l2 & -> & _ & _ & _).
  apply laid_app in Hl as [Hl1 [Hi Hl2]]. rewrite Ei in Hi. destruct (0 <? ri_n_pollfd i); [|done]. injection Hi as -> ->.
  apply find_item_elem, elem_of_app in Hc as [Hc|Hc].
  - destruct (laid_range b l1 e (c, j) b2 o2 Hl1) as (_ & _ & ?); [intros y Hy; apply Hn; set_solver|done|done|]. simpl in *. left. lia.
  - apply elem_of_cons in Hc as [[= -> _]|Hc]; [done|].
    destruct (laid_range b l2 (e + total l1 + ri_n_pollfd i) (c, j) b2 o2 Hl2) as (_ & ? & _); [intros y Hy; apply Hn; set_solver|done|done|]. right. lia.
Qed.

Lemma moved_find b buf buf' l l' a i : Forall2 (moved_item b buf buf') l l' -> find_item a l = Some i ->
  exists i', find_item a l' = Some i' /\ (exists o, i' = set_pollfd o i) /\ icells buf' i' = icells buf i /\ item_ok b buf' i'.
Proof.
  induction 1 as [|[c x] [c' y] l l' (E & Ho & Hc & Hk) _ IH]; [done|]. simpl in *. subst c'. destruct (c =? a); [|done]. intros [= ->]. eauto.
Qed.

Lemma get_pollfd_spec a i p buf : rt_inv p buf -> find_item a (rp_items p) = Some i ->
  exists i' p' buf', pa_rtpoll_item_get_pollfd a p = Ok (ri_pollfd i', ri_n_pollfd i, p') /\ rt_inv p' buf' /\ moved p buf p' buf' /\
    find_item a (rp_items p') = Some i' /\ (0 < ri_n_pollfd i -> rp_rebuild_needed p' = false) /\ ri_n_pollfd i' = ri_n_pollfd i.
Proof.
  intros R Hf. unfold pa_rtpoll_item_get_pollfd. rewrite Hf. cbn [deref mbind outcome_bind].
  destruct ((0 <? ri_n_pollfd i) && rp_rebuild_needed p) eqn:E.
  - destruct (rebuild_spec p buf R) as (p' & buf' & Er & R' & Hr & Hm). rewrite Er. cbn [mbind outcome_bind].
    destruct (moved_find _ _ _ _ _ a i (mv_items _ _ _ _ Hm) Hf) as (i' & Ef & [o Eo] & _). rewrite Ef. cbn [deref mbind outcome_bind].
    exists i', p', buf'. rewrite Eo. split_and!; try done. by rewrite <- Eo.
  - cbn [mbind outcome_bind]. rewrite Hf. cbn [deref mbind outcome_bind]. exists i, p, buf. split_and!; try done; [by apply rt_moved_refl|].
    intros Hp. apply andb_false_iff in E as [E|E]; [|done]. apply Z.ltb_ge in E. lia.
Qed.

Lemma items_nonneg p buf : rt_inv p buf -> forall x, x ∈ rp_items p -> 0 <= ri_n_pollfd x.2.
Proof. intros R x Hx. apply (rt_items_ok _ _ R x Hx). Qed.

Lemma find_ok p buf a i : rt_inv p buf -> find_item a (rp_items p) = Some i -> item_ok (rp_pollfd p) buf i.
Proof. intros R Hf. apply (rt_items_ok _ _ R (a, i)). by apply find_item_elem. Qed.

Lemma laid_find b e l a i : NoDup l.*1 -> laid b e l -> find_item a l = Some i -> 0 < ri_n_pollfd i -> exists o, ri_pollfd i = Some (b, o).
Proof.
  intros Hd Hl Hf Hn. destruct (find_split a l i Hd Hf) as (l1 & l2 & -> & _). apply laid_app in Hl as [_ [Hi _]].
  destruct (Z.ltb_spec 0 (ri_n_pollfd i)); [eauto|lia].
Qed.

(** New contents for the part of one item. *)
Lemma store_item p buf a i o new : rt_inv p buf -> rp_rebuild_needed p = false -> find_item a (rp_items p) = Some i ->
  ri_pollfd i = Some (rp_pollfd p, o) -> Z.of_nat (length new) = ri_n_pollfd i -> Forall is_Some new ->
  exists buf', splice o new buf = Some buf' /\
    rt_inv (set_bufs (<[rp_pollfd p := buf']> (rp_bufs p)) (rp_pollfd p) (rp_pollfd2 p) (rp_n_pollfd_alloc p) p) buf' /\
    forall c j, find_item c (rp_items p) = Some j -> icells buf' j = (if c =? a then new else icells buf j).
Proof.
  intros R Hr Hf Ep Hl Hs. pose proof (find_ok _ _ _ _ R Hf) as [Hn Hk]. rewrite Ep in Hk. destruct Hk as (_ & H1 & H2 & _).
  destruct (splice_some o new buf) as [buf' Eb]; [done|lia|]. exists buf'. split; [done|]. split; [apply (contents_inv p buf buf' R); by eapply splice_inits|].
  intros c j Hc. destruct (Z.eqb_spec c a) as [->|Hne].
  - rewrite Hf in Hc. injection Hc as <-. unfold icells. rewrite Ep, <- Hl. by apply (splice_same o new buf).
  - unfold icells. destruct (ri_pollfd j) as [[b2 o2]|] eqn:Ej; [|done]. pose proof (find_ok _ _ _ _ R Hc) as [Hnj Hkj]. rewrite Ej in Hkj.
    destruct Hkj as (_ & J1 & J2 & _). apply (splice_apart _ _ _ _ _ _ Eb); try done. rewrite Hl. destruct (rt_laid _ _ R Hr) as [Hla _].
    by apply (laid_apart (rp_pollfd p) 0 (rp_items p) a i c j (rt_nodup _ _ R) Hla (items_nonneg _ _ R) Hf Hc Hne _ _ _ _ Ep Ej).
Qed.

Lemma omap_some (fds : list pollfd) : omap id (Some <$> fds) = fds.
Proof. induction fds as [|f fds IH]; simpl; [done|]. f_equal. exact IH. Qed.

Lemma mapM_some (l : list (option pollfd)) : Forall is_Some l -> mapM id l = Some (omap id l).
Proof. induction 1 as [|x l [y ->] Hl IH]; [done|]. simpl. rewrite IH. done. Qed.

(** The descriptors of an item are set; those of the others stay. *)
Definition written (a : Z) (fds : list pollfd) (buf buf' : list (option pollfd)) (x y : Z * pa_rtpoll_item) : Prop :=
  y.1 = x.1 /\ (exists o, y.2 = set_pollfd o x.2) /\ item_fds buf' y.2 = (if x.1 =? a then fds else item_fds buf x.2).

Lemma write_spec a i fds p buf : rt_inv p buf -> find_item a (rp_items p) = Some i -> 0 < ri_n_pollfd i -> Z.of_nat (length fds) = ri_n_pollfd i ->
  exists p' buf', write_pollfds a fds p = Ok p' /\ rt_inv p' buf' /\ Forall2 (written a fds buf buf') (rp_items p) (rp_items p') /\
    rp_running p' = rp_running p /\ rp_quit p' = rp_quit p.
Proof.
  intros R Hf Hn Hl. destruct (get_pollfd_spec a i p buf R Hf) as (i' & p' & buf' & Eg & R' & Hm & Hf' & Hr & En). specialize (Hr Hn).
  destruct (rt_laid _ _ R' Hr) as [Hla _]. destruct (laid_find _ _ _ a i' (rt_nodup _ _ R') Hla Hf') as [o Eo]; [lia|].
  destruct (store_item p' buf' a i' o (Some <$> fds) R' Hr Hf' Eo) as (buf'' & Eb & R'' & Hc); [rewrite length_fmap; lia|apply Forall_fmap, Forall_true; by eexists|].
  unfold write_pollfds. rewrite Eg. cbn [mbind outcome_bind]. rewrite Eo. cbn [deref mbind outcome_bind].
  destruct (Z.leb_spec (Z.of_nat (length fds)) (ri_n_pollfd i)); [|lia]. cbn [mbind outcome_bind]. rewrite (rt_buf _ _ R'). cbn [deref mbind outcome_bind].
  rewrite Eb. cbn [deref mbind outcome_bind]. eexists _, buf''. split; [done|]. split; [done|]. split; [|split; apply (mv_flags _ _ _ _ Hm)].
  cbn [rp_items set_bufs]. apply Forall2_same_length_lookup. split; [apply (Forall2_length _ _ _ (mv_items _ _ _ _ Hm))|]. intros k x y Ex Ey.
  destruct (Forall2_lookup_lr _ _ _ _ _ _ (mv_items _ _ _ _ Hm) Ex Ey) as (E1 & Eo' & Ec & _). split; [done|]. split; [done|].
  assert (find_item y.1 (rp_items p') = Some y.2) as Hy.
  { apply elem_find_item; [apply R'|]. destruct y. by eapply list_elem_of_lookup_2. }
  unfold item_fds. rewrite (Hc _ _ Hy), E1. destruct (x.1 =? a); [apply omap_some|]. by rewrite Ec.
Qed.

Lemma laid_cells b buf l : forall e, laid b e l -> (forall x, x ∈ l -> item_ok b buf x.2) -> 0 <= e -> e + total l <= Z.of_nat (length buf) ->
  sub_list e (total l) buf = all_cells buf l.
Proof.
  induction l as [|[a i] l IH]; intros e Hl Hok He Hb; [done|]. destruct Hl as [Hi Hl]. rewrite total_cons in Hb |- *.
  assert (forall x, x ∈ l -> item_ok b buf x.2) as Hok' by (intros x Hx; apply Hok; by right).
  pose proof (total_nonneg _ _ _ Hok') as Ht. pose proof (Hok (a, i) ltac:(by left)) as [Hn Hk]. simpl in Hn, Hk.
  rewrite sub_list_app by lia. rewrite IH by (done || lia). change (all_cells buf ((a, i) :: l)) with (icells buf i ++ all_cells buf l). f_equal.
  unfold icells. rewrite Hi. destruct (Z.ltb_spec 0 (ri_n_pollfd i)) as [|Hz]; [done|]. assert (ri_n_pollfd i = 0) as -> by lia. done.
Qed.

Lemma all_cells_some b buf l : (forall x, x ∈ l -> item_ok b buf x.2) -> Forall is_Some (all_cells buf l).
Proof.
  intros H. unfold all_cells. apply Forall_concat, Forall_fmap, Forall_forall. intros x Hx. by apply (icells_some b), H.
Qed.

Lemma omap_all_cells buf l : omap id (all_cells buf l) = concat (item_fds buf <$> l.*2).
Proof.
  induction l as [|[a i] l IH]; [done|]. change (all_cells buf ((a, i) :: l)) with (icells buf i ++ all_cells buf l). rewrite omap_app, IH. done.
Qed.

(** The kernel gets the descriptors of every item, in the order of the list. *)
Lemma polled_spec p buf : rt_inv p buf -> rp_rebuild_needed p = false -> polled_fds p = Ok (concat (item_fds buf <$> (rp_items p).*2)).
Proof.
  intros R Hr. destruct (rt_laid _ _ R Hr) as [Hl Hu]. destruct (rt_used _ _ R) as [Eu _]. pose proof (rt_alloc _ _ R) as Ea.
  unfold polled_fds. rewrite (rt_buf _ _ R). cbn [deref mbind outcome_bind]. destruct (Z.leb_spec (rp_n_pollfd_used p) (Z.of_nat (length buf))); [|lia].
  cbn [mbind outcome_bind]. assert (take (Z.to_nat (rp_n_pollfd_used p)) buf = all_cells buf (rp_items p)) as ->.
  { rewrite Eu. apply (laid_cells (rp_pollfd p) buf (rp_items p) 0 Hl (rt_items_ok _ _ R)); lia. }
  rewrite mapM_some by (by eapply all_cells_some, (rt_items_ok _ _ R)). simpl. by rewrite omap_all_cells.
Qed.

Lemma store_revents_spec p buf fds revents : rt_inv p buf -> rp_rebuild_needed p = false -> polled_fds p = Ok fds ->
  exists p' buf', store_revents fds revents p = Ok p' /\ rt_inv p' buf' /\ rp_items p' = rp_items p /\ rp_running p' = rp_running p /\
    rp_rebuild_needed p' = false /\ rp_quit p' = rp_quit p.
Proof.
  intros R Hr Ef. unfold polled_fds in Ef. rewrite (rt_buf _ _ R) in Ef. cbn [deref mbind outcome_bind] in Ef.
  destruct (Z.leb_spec (rp_n_pollfd_used p) (Z.of_nat (length buf))) as [Hu|]; [|done]. cbn [mbind outcome_bind] in Ef.
  destruct (mapM id _) as [fds'|] eqn:Em; [|done]. simpl in Ef. injection Ef as ->. apply mapM_Some_1, Forall2_length in Em. rewrite length_take in Em.
  destruct (splice_some 0 (Some <$> zip_with set_revents fds revents) buf) as [buf' Eb]; [lia|rewrite length_fmap, length_zip_with; lia|].
  unfold store_revents. rewrite (rt_buf _ _ R). cbn [deref mbind outcome_bind]. rewrite Eb. cbn [deref mbind outcome_bind].
  eexists _, buf'. split; [done|]. split; [|done]. apply (contents_inv p buf buf' R). eapply splice_inits; [exact Eb|]. apply Forall_fmap, Forall_true. by eexists.
Qed.

Lemma fmap_clear_some l : Forall is_Some l -> Forall is_Some (fmap (M := option) clear_revents <$> l).
Proof. intros H. apply Forall_fmap. eapply Forall_impl; [exact H|]. intros x [y ->]. by eexists. Qed.

(** ** What happens to the items during a run *)

(** Only places and contents change, and items may die. *)
Definition same_item (x y : Z * pa_rtpoll_item) : Prop :=
  y.1 = x.1 /\ ri_priority y.2 = ri_priority x.2 /\ ri_n_pollfd y.2 = ri_n_pollfd x.2 /\ ri_work_cb y.2 = ri_work_cb x.2 /\
  ri_before_cb y.2 = ri_before_cb x.2 /\ ri_after_cb y.2 = ri_after_cb x.2 /\ (ri_dead x.2 = true -> ri_dead y.2 = true).

Definition keeps (p p' : pa_rtpoll) : Prop :=
  Forall2 same_item (rp_items p) (rp_items p') /\ rp_running p' = rp_running p /\ (rp_quit p = true -> rp_quit p' = true).

#[export] Instance keeps_preorder : PreOrder keeps.
Proof.
  split.
  - intros p. split; [|done]. apply Forall_Forall2_diag, Forall_forall. intros x _. by split_and!.
  - intros p q r (H1 & E1 & Q1) (H2 & E2 & Q2). split; [|split; [congruence|auto]]. clear -H1 H2. revert H2. generalize (rp_items r). induction H1 as [|x y l k (A1 & A2 & A3 & A4 & A5 & A6 & A7) _ IH];
      intros m Hm; [by inv Hm|]. inv Hm. constructor; [|by apply IH]. destruct H1 as (B1 & B2 & B3 & B4 & B5 & B6 & B7). split_and!; try congruence. auto.
Qed.

Lemma moved_keeps p buf p' buf' : moved p buf p' buf' -> keeps p p'.
Proof.
  intros [H _ _ (_ & E & Q & _)]. split; [|by rewrite Q]. eapply Forall2_impl; [exact H|]. intros x y (E1 & [o E2] & _). unfold same_item. rewrite E2. by split_and!.
Qed.

Definition rt_good (p : pa_rtpoll) : Prop := exists buf, rt_inv p buf.

Lemma reset_revents_ok a i p : rt_good p -> find_item a (rp_items p) = Some i -> exists p', reset_revents a p = Ok p' /\ rt_good p' /\ keeps p p'.
Proof.
  intros [buf R] Hf. destruct (get_pollfd_spec a i p buf R Hf) as (i' & p' & buf' & Eg & R' & Hm & Hf' & Hr & En).
  unfold reset_revents. rewrite Eg. cbn [mbind outcome_bind]. pose proof (find_ok _ _ _ _ R' Hf') as [Hn Hk].
  destruct (ri_pollfd i') as [[b o]|] eqn:Ep; [|exists p'; split; [done|]; split; [by exists buf'|by eapply moved_keeps]].
  destruct Hk as (-> & H1 & H2 & H3). rewrite (rt_buf _ _ R'). cbn [deref mbind outcome_bind]. rewrite <- En.
  destruct (Z.leb_spec (o + ri_n_pollfd i') (Z.of_nat (length buf'))); [|lia]. cbn [mbind outcome_bind].
  destruct (splice_some o (fmap (M := option) clear_revents <$> sub_list o (ri_n_pollfd i') buf') buf') as [buf'' Eb]; [done|rewrite length_fmap, sub_list_length by lia; lia|].
  rewrite Eb. cbn [deref mbind outcome_bind]. eexists. split; [done|]. split.
  - exists buf''. apply (contents_inv p' buf' buf'' R'). eapply splice_inits; [exact Eb|]. by apply fmap_clear_some.
  - etransitivity; [by eapply moved_keeps|]. split; [|done]. apply (proj1 (reflexivity (R := keeps) p')).
Qed.

Lemma keeps_find p p' a i : keeps p p' -> find_item a (rp_items p) = Some i -> exists i', find_item a (rp_items p') = Some i' /\ same_item (a, i) (a, i').
Proof.
  intros [H _]. revert H. generalize (rp_items p'). induction (rp_items p) as [|[b j] l IH]; intros m Hm; [done|]. inv Hm.
  destruct y as [b' j']. pose proof H1 as (E & _). simpl in E. subst b'. simpl. destruct (Z.eqb_spec b a) as [->|]; [|by apply IH].
  intros [= ->]. by exists j'.
Qed.

Lemma keeps_fst p p' : keeps p p' -> (rp_items p').*1 = (rp_items p).*1.
Proof. intros [H _]. induction H as [|x y l k (E & _) _ IH]; [done|]. by rewrite !fmap_cons, E, IH. Qed.

Lemma reset_loop_ok l : forall p, rt_good p -> (forall x, x ∈ l -> x.1 ∈ (rp_items p).*1) -> exists p', reset_loop l p = Ok p' /\ rt_good p' /\ keeps p p'.
Proof.
  induction l as [|[a i] l IH]; intros p G Hin; simpl; [by exists p|].
  assert (exists p1, (if ri_dead i then Ok p else reset_revents a p) = Ok p1 /\ rt_good p1 /\ keeps p p1) as (p1 & E1 & G1 & K1).
  { destruct (ri_dead i); [by exists p|]. pose proof (Hin (a, i) ltac:(by left)) as Ha. apply list_elem_of_fmap in Ha as ([a' j] & Ea & Hj). simpl in Ea. subst a'.
    destruct G as [buf R]. apply (reset_revents_ok a j); [by exists buf|]. by apply elem_find_item; [apply R|]. }
  rewrite E1. cbn [mbind outcome_bind]. destruct (IH p1 G1) as (p2 & E2 & G2 & K2).
  { intros x Hx. rewrite (keeps_fst _ _ K1). apply Hin. by right. }
  exists p2. split; [done|]. split; [done|]. by etransitivity.
Qed.

(** ** A loop as a list of items with their descriptors *)

Record rt_spec := mk_rspec { rs_addr : Z; rs_prio : Z; rs_fds : list pollfd }.

Inductive rt_op :=
| RNew (a junk prio n : Z)
| RWrite (a : Z) (fds : list pollfd)
| RSetWork (a : Z) (cb : option Z) (u : Z)
| RSetBefore (a : Z) (cb : option Z) (u : Z)
| RSetAfter (a : Z) (cb : option Z) (u : Z)
| RFree (a : Z).

Definition rt_step (op : rt_op) (p : pa_rtpoll) : outcome pa_rtpoll :=
  match op with
  | RNew a junk prio n => Ok (pa_rtpoll_item_new a junk prio n p)
  | RWrite a fds => write_pollfds a fds p
  | RSetWork a cb u => pa_rtpoll_item_set_work_callback a cb u p
  | RSetBefore a cb u => pa_rtpoll_item_set_before_callback a cb u p
  | RSetAfter a cb u => pa_rtpoll_item_set_after_callback a cb u p
  | RFree a => pa_rtpoll_item_free a p
  end.

Fixpoint rt_exec (ops : list rt_op) (p : pa_rtpoll) : outcome pa_rtpoll :=
  match ops with [] => Ok p | op :: ops => p ← rt_step op p; rt_exec ops p end.

Fixpoint spec_insert (x : rt_spec) (l : list rt_spec) : list rt_spec :=
  match l with [] => [x] | y :: l' => if rs_prio x <=? rs_prio y then x :: l else y :: spec_insert x l' end.

Definition spec_write (a : Z) (fds : list pollfd) (l : list rt_spec) : list rt_spec :=
  (fun x => if rs_addr x =? a then mk_rspec (rs_addr x) (rs_prio x) fds else x) <$> l.

Definition spec_find (a : Z) (l : list rt_spec) : option rt_spec := list_find (fun x => rs_addr x = a) l ≫= (fun x => Some x.2).

Definition spec_total (l : list rt_spec) : Z := sumZ ((fun x => Z.of_nat (length (rs_fds x))) <$> l).

(** [None]: the operation is not allowed. *)
Definition spec_step (op : rt_op) (l : list rt_spec) : option (list rt_spec) :=
  match op with
  | RNew a _ prio n =>
      if bool_decide (a ∉ rs_addr <$> l) && (0 <=? n) && (spec_total l + n <? 2 ^ 31)
      then Some (spec_insert (mk_rspec a prio (replicate (Z.to_nat n) (mk_pollfd 0 0 0))) l) else None
  | RWrite a fds =>
      x ← spec_find a l;
      if (length fds =? length (rs_fds x))%nat && (0 <? length fds)%nat then Some (spec_write a fds l) else None
  | RSetWork a _ _ | RSetBefore a _ _ | RSetAfter a _ _ => x ← spec_find a l; if rs_prio x <? PA_RTPOLL_NEVER then Some l else None
  | RFree a => _ ← spec_find a l; Some (filter (fun x => rs_addr x <> a) l)
  end.

Fixpoint spec_exec (ops : list rt_op) (l : list rt_spec) : option (list rt_spec) :=
  match ops with [] => Some l | op :: ops => l ← spec_step op l; spec_exec ops l end.

Definition abs_item (buf : list (option pollfd)) (x : Z * pa_rtpoll_item) : rt_spec := mk_rspec x.1 (ri_priority x.2) (item_fds buf x.2).

Definition implements (p : pa_rtpoll) (l : list rt_spec) : Prop :=
  rp_running p = false /\ exists buf, rt_inv p buf /\ l = abs_item buf <$> rp_items p.

Lemma omap_length (l : list (option pollfd)) : Forall is_Some l -> length (omap id l) = length l.
Proof. induction 1 as [|x l [y ->] _ IH]; [done|]. simpl. f_equal. exact IH. Qed.

Lemma item_fds_length b buf i : item_ok b buf i -> Z.of_nat (length (item_fds buf i)) = ri_n_pollfd i.
Proof.
  intros H. unfold item_fds. rewrite omap_length by (by eapply icells_some). rewrite (icells_length b) by done. pose proof (proj1 H). lia.
Qed.

Lemma abs_total b buf l : (forall x, x ∈ l -> item_ok b buf x.2) -> spec_total (abs_item buf <$> l) = total l.
Proof.
  intros H. unfold spec_total, total. rewrite <- list_fmap_compose. f_equal. apply list_fmap_ext. intros k x Ek. simpl.
  apply (item_fds_length b), H. by eapply list_elem_of_lookup_2.
Qed.

Lemma abs_addr buf l : rs_addr <$> (abs_item buf <$> l) = l.*1.
Proof. by rewrite <- list_fmap_compose. Qed.

Lemma abs_insert buf prio x l : ri_priority x.2 = prio -> abs_item buf <$> insert_item prio x l = spec_insert (abs_item buf x) (abs_item buf <$> l).
Proof.
  intros E. induction l as [|[b j] l IH]; [done|]. cbn [insert_item spec_insert fmap list_fmap abs_item rs_prio snd]. rewrite E.
  destruct (prio <=? ri_priority j); [done|]. rewrite fmap_cons. by rewrite IH.
Qed.

Lemma spec_find_cons a x l : spec_find a (x :: l) = (if decide (rs_addr x = a) then Some x else spec_find a l).
Proof. unfold spec_find. simpl. destruct (decide (rs_addr x = a)); [done|]. destruct (list_find _ l) as [[? ?]|]; done. Qed.

Lemma abs_find a buf l : spec_find a (abs_item buf <$> l) = (fun i => abs_item buf (a, i)) <$> find_item a l.
Proof.
  induction l as [|[b i] l IH]; [done|]. rewrite fmap_cons, spec_find_cons, IH. simpl.
  destruct (decide (b = a)) as [->|]; [by rewrite Z.eqb_refl|]. destruct (Z.eqb_spec b a); done.
Qed.

Lemma abs_filter a buf (l : list (Z * pa_rtpoll_item)) : abs_item buf <$> filter (fun x => x.1 <> a) l = filter (fun x => rs_addr x <> a) (abs_item buf <$> l).
Proof.
  induction l as [|[b i] l IH]; [done|]. rewrite fmap_cons. destruct (decide (b = a)) as [->|Hne].
  - rewrite !filter_cons_False by (simpl; naive_solver). exact IH.
  - rewrite !filter_cons_True by done. rewrite fmap_cons. by rewrite IH.
Qed.

Lemma abs_write a fds buf buf' l l' : Forall2 (written a fds buf buf') l l' -> abs_item buf' <$> l' = spec_write a fds (abs_item buf <$> l).
Proof.
  induction 1 as [|x y l l' (E & [o Eo] & Ef) _ IH]; [done|]. rewrite !fmap_cons, IH. unfold spec_write. rewrite fmap_cons. f_equal.
  unfold abs_item. simpl. rewrite Ef, E, Eo. by destruct (x.1 =? a).
Qed.

Lemma abs_alter f a buf l : keeps_place f -> abs_item buf <$> alter_item f a l = abs_item buf <$> l.
Proof.
  intros Hf. unfold alter_item. rewrite <- list_fmap_compose. apply list_fmap_ext. intros k [b i] _. simpl. destruct (b =? a); [|done].
  unfold abs_item, item_fds, icells. simpl. destruct (Hf i) as (-> & -> & ->). done.
Qed.

Lemma implements_set f a p l l' : keeps_place f -> (forall i, ri_dead (f i) = ri_dead i) -> implements p l ->
  (x ← spec_find a l; if rs_prio x <? PA_RTPOLL_NEVER then Some l else None) = Some l' ->
  exists p', (i ← deref (find_item a (rp_items p)); _ ← pa_assert (ri_priority i <? PA_RTPOLL_NEVER);
    Ok (set_rt_items (alter_item f a (rp_items p)) p)) = Ok p' /\ implements p' l'.
Proof.
  intros Hf Hd (Hr & buf & R & ->) Hx. rewrite abs_find in Hx. destruct (find_item a (rp_items p)) as [i|] eqn:Ei; [|done]. simpl in Hx |- *.
  destruct (ri_priority i <? PA_RTPOLL_NEVER); [|done]. injection Hx as <-. eexists. split; [done|]. split; [done|].
  exists buf. split; [|simpl; by rewrite abs_alter]. apply alter_inv; [done|done|]. intros j. rewrite Hd. congruence.
Qed.

Lemma implements_step op p l l' : implements p l -> spec_step op l = Some l' -> exists p', rt_step op p = Ok p' /\ implements p' l'.
Proof.
  intros Hi Hs. destruct op as [a junk prio n|a fds|a cb u|a cb u|a cb u|a]; simpl in Hs |- *.
  - destruct Hi as (Hr & buf & R & ->). destruct (_ && _) eqn:E in Hs; [|done]. injection Hs as <-. apply andb_true_iff in E as [[Ea En]%andb_true_iff Et].
    apply bool_decide_eq_true in Ea. rewrite abs_addr in Ea. rewrite Z.leb_le in En. rewrite Z.ltb_lt, (abs_total _ _ _ (rt_items_ok _ _ R)) in Et.
    eexists. split; [done|]. split; [unfold pa_rtpoll_item_new; by destruct (0 <? n)|]. exists buf. split.
    + apply item_new_spec; [done|done|done|]. destruct (rt_used _ _ R) as [-> _]. done.
    + transitivity (abs_item buf <$> insert_item prio (a, mk_rt_item false prio None n None None None 0 0 junk) (rp_items p)).
      * rewrite abs_insert by done. f_equal. unfold abs_item, item_fds, icells. simpl. f_equal. rewrite <- (fmap_replicate Some). symmetry. apply omap_some.
      * unfold pa_rtpoll_item_new. by destruct (0 <? n).
  - destruct Hi as (Hr & buf & R & ->). rewrite abs_find in Hs. destruct (find_item a (rp_items p)) as [i|] eqn:Ei; [|done]. cbn [fmap option_fmap option_map mbind option_bind] in Hs.
    destruct (_ && _) eqn:E in Hs; [|done]. injection Hs as <-. apply andb_true_iff in E as [E1 E2]. apply Nat.eqb_eq in E1. apply Nat.ltb_lt in E2.
    pose proof (item_fds_length _ _ _ (find_ok _ _ _ _ R Ei)) as El. simpl in E1.
    destruct (write_spec a i fds p buf R Ei) as (p' & buf' & Ew & R' & Hw & Hr' & _); [lia|lia|]. exists p'. split; [done|]. split; [congruence|].
    exists buf'. split; [done|]. symmetry. by apply abs_write.
  - by apply (implements_set (set_work cb u) a p l l').
  - by apply (implements_set (set_before cb u) a p l l').
  - by apply (implements_set (set_after cb u) a p l l').
  - destruct Hi as (Hr & buf & R & ->). rewrite abs_find in Hs. destruct (find_item a (rp_items p)) as [i|] eqn:Ei; [|done]. simpl in Hs. injection Hs as <-.
    destruct (free_spec a i p buf R Ei) as (p' & E & R' & Er & _ & El). rewrite Hr in El, Er. exists p'. split; [done|]. split; [done|]. exists buf.
    split; [done|]. rewrite El. symmetry. apply abs_filter.
Qed.

Lemma implements_new : implements pa_rtpoll_new [].
Proof.
  split; [done|]. exists (replicate 32 None). split; [|done]. split; simpl; try done; try constructor; try (intros; by set_solver).
Qed.

Lemma implements_exec ops : forall p l l', implements p l -> spec_exec ops l = Some l' -> exists p', rt_exec ops p = Ok p' /\ implements p' l'.
Proof.
  induction ops as [|op ops IH]; intros p l l' Hi Hs; simpl in *; [injection Hs as <-; eauto|].
  destruct (spec_step op l) as [l1|] eqn:E; [|done]. destruct (implements_step op p l l1 Hi E) as (p1 & -> & Hi1). by apply (IH p1 l1).
Qed.

(** C18: a loop is a list of items with their descriptors, in the order of their priorities:
    whatever is done to it between runs, creating and freeing items, setting
    callbacks, and writing an item's descriptors through its pointer, does not fail, an
    operation changes no other item's descriptors, however often the array moves or
    grows, and after it is rebuilt, as a run does only when it is marked, the kernel is given
    the descriptors of all items in this order. *)
Theorem rtpoll_refines_items ops l : spec_exec ops [] = Some l ->
  exists p p', rt_exec ops pa_rtpoll_new = Ok p /\
    (if rp_rebuild_needed p then rtpoll_rebuild p else Ok p) = Ok p' /\ polled_fds p' = Ok (concat (rs_fds <$> l)) /\
    (rp_items p').*1 = rs_addr <$> l /\ StronglySorted (fun x y => rs_prio x <= rs_prio y) l.
Proof.
  intros Hs. destruct (implements_exec ops _ _ _ implements_new Hs) as (p & Ep & (_ & buf & R & ->)).
  assert (exists p' buf', (if rp_rebuild_needed p then rtpoll_rebuild p else Ok p) = Ok p' /\ rt_inv p' buf' /\
    rp_rebuild_needed p' = false /\ moved p buf p' buf') as (p' & buf' & Er & R' & Hn & Hm).
  { destruct (rp_rebuild_needed p) eqn:En; [by apply rebuild_spec|]. exists p, buf. split_and!; [done|done|done|by apply rt_moved_refl]. }
  exists p, p'. split_and!; [done|done| | |].
  - rewrite (polled_spec p' buf' R' Hn). f_equal. f_equal. rewrite <- !list_fmap_compose. pose proof (mv_items _ _ _ _ Hm) as Hi. clear -Hi.
    induction Hi as [|x y l l' (_ & _ & Hc & _) _ IH]; [done|]. rewrite !fmap_cons, IH. f_equal. simpl. unfold item_fds. by rewrite Hc.
  - rewrite abs_addr. by apply (moved_fst _ _ _ _ _ (mv_items _ _ _ _ Hm)).
  - pose proof (rt_sorted _ _ R) as Hso. clear -Hso. induction Hso as [|x l Hl IH Hf]; [constructor|]. rewrite fmap_cons. constructor; [done|].
    apply Forall_fmap. exact Hf.
Qed.

Lemma rtpoll_refines_items_witness :
  exists p p', rt_exec [RNew 7 0 0 1; RNew 8 0 (-100) 40; RWrite 7 [mk_pollfd 3 1 0]; RNew 9 0 100 0; RFree 8; RWrite 7 [mk_pollfd 4 1 0]] pa_rtpoll_new = Ok p /\
    (if rp_rebuild_needed p then rtpoll_rebuild p else Ok p) = Ok p' /\ polled_fds p' = Ok [mk_pollfd 4 1 0].
Proof.
  destruct (rtpoll_refines_items [RNew 7 0 0 1; RNew 8 0 (-100) 40; RWrite 7 [mk_pollfd 3 1 0]; RNew 9 0 100 0; RFree 8; RWrite 7 [mk_pollfd 4 1 0]]
    [mk_rspec 7 0 [mk_pollfd 4 1 0]; mk_rspec 9 100 []]) as (p & p' & H1 & H2 & H3 & _); [vm_compute; reflexivity|].
  exists p, p'. split; [exact H1|]. split; [exact H2|]. exact H3.
Defined.
