(* ===== verification/RtpollRun.v ===== *)
(** * RtpollRun: a run of the loop

    A run visits the items in their order, sleeps at most once, tells those it asked
    before the sleep, and only those, that it is over, and leaves the loop as it
    should be, without the items that were freed in between. *)
From stdpp Require Import base tactics numbers list gmap sorting.
From S2P Require Import Prelude Sample Timeval Rtpoll RtpollProps.

(** ** What a run needs from callbacks *)

(** A callback returns, and until then may change descriptors, free items, its own
    too, set the timer and ask the loop to quit; it creates no items and sets no callbacks, and
    takes no request to quit back, for which there is no function. *)
Class CallbacksOk {W : Type} (call : Z -> Z -> pa_rtpoll -> W -> outcome (Z * pa_rtpoll * W)) : Prop :=
  callback_keeps f a p w : rt_good p -> rp_running p = true -> a ∈ (rp_items p).*1 ->
    exists k p' w', call f a p w = Ok (k, p', w') /\ rt_good p' /\ keeps p p'.

(** ** The neighbours of an item *)

Fixpoint next_addr (a : Z) (l : list Z) : option (option Z) :=
  match l with [] => None | b :: l => if b =? a then Some (head l) else next_addr a l end.

Lemma next_item_addr a l : next_item a l = next_addr a l.*1.
Proof. induction l as [|[b i] l IH]; [done|]. rewrite fmap_cons. simpl. destruct (b =? a); [|done]. by destruct l. Qed.

Lemma next_addr_at a l1 l2 : a ∉ l1 -> next_addr a (l1 ++ a :: l2) = Some (head l2).
Proof.
  induction l1 as [|b l1 IH]; simpl; [by rewrite Z.eqb_refl|]. intros [Hb Hl]%not_elem_of_cons. destruct (Z.eqb_spec b a); [congruence|]. by apply IH.
Qed.

(** ** The dead go when the run is over *)

Lemma destroy_flags b c a p : rtpoll_item_destroy a (set_scan c (set_running b p)) = (p' ← rtpoll_item_destroy a p; Ok (set_scan c (set_running b p'))).
Proof. unfold rtpoll_item_destroy. simpl. by destruct (find_item a (rp_items p)). Qed.

Lemma destroy_loop_flags b c l : forall p, destroy_loop l (set_scan c (set_running b p)) = (p' ← destroy_loop l p; Ok (set_scan c (set_running b p'))).
Proof.
  induction l as [|[a i] l IH]; intros p; [done|]. simpl. destruct (ri_dead i); [|apply IH]. rewrite destroy_flags.
  destruct (rtpoll_item_destroy a p) as [p'| |]; [apply IH|done|done].
Qed.

Lemma destroy_loop_ok l : forall p pre, rt_good p -> rp_items p = pre ++ l ->
  exists p', destroy_loop l p = Ok p' /\ rt_good p' /\ rp_items p' = pre ++ filter (fun x => ri_dead x.2 = false) l /\ rp_quit p' = rp_quit p.
Proof.
  induction l as [|[a i] l IH]; intros p pre G Ep; [by exists p|]. cbn [destroy_loop]. destruct (ri_dead i) eqn:Ed.
  - destruct G as [buf R]. pose proof (rt_nodup _ _ R) as Hd.
    assert (find_item a (rp_items p) = Some i) as Hf by (apply elem_find_item; [done|]; rewrite Ep; set_solver).
    destruct (destroy_spec a i p buf R Hf) as (p1 & E1 & R1 & Ei & _ & Eq). rewrite E1. cbn [mbind outcome_bind].
    assert (rp_items p1 = pre ++ l) as Ep1.
    { rewrite Ei, Ep, filter_app, filter_cons_False by naive_solver. rewrite Ep, fmap_app, fmap_cons in Hd.
      apply NoDup_app in Hd as (_ & H1 & [H2 _]%NoDup_cons). rewrite !filter_other; [done|done|]. intros H. apply (H1 a H). by left. }
    destruct (IH p1 pre) as (p2 & E2 & G2 & Ei2 & Eq2); [by exists buf|done|]. exists p2. split_and!; [done|done| |congruence].
    rewrite Ei2, filter_cons_False; [done|simpl; congruence].
  - cbn [mbind outcome_bind]. destruct (IH p (pre ++ [(a, i)])) as (p2 & E2 & G2 & Ei2 & Eq2); [done|by rewrite <- app_assoc|].
    exists p2. split_and!; [done|done| |done]. rewrite Ei2, filter_cons_True by done. by rewrite <- app_assoc.
Qed.

(** ** The time to sleep *)

Lemma diff_bound a b : 0 <= pa_timeval_diff a b < 2 ^ 64.
Proof. unfold pa_timeval_diff, u64. destruct (_ <? 0); repeat case_match; apply Z.mod_pos_bound; lia. Qed.

(** Until the timer elapses, and not at all when it has or the loop is to quit. *)
Lemma poll_timeout_spec now p : tv_ok now -> tv_ok (rp_next_elapse p) ->
  exists t, poll_timeout now p = Ok t /\ tv_ok t /\ (rp_quit p = true -> usecs t = 0) /\
    (rp_quit p = false -> rp_timer_enabled p = true -> Z.abs (usecs (rp_next_elapse p) - usecs now) < 2 ^ 64 ->
     usecs t = Z.max (usecs (rp_next_elapse p) - usecs now) 0).
Proof.
  intros Hn Hp. unfold poll_timeout. pose proof (proj2 (cmp_spec _ _ Hp Hn)) as Hc. assert (tv_ok (mk_tv 0 0)) as H0 by (vm_compute; repeat split; discriminate).
  destruct (rp_quit p); simpl; [by eexists|]. destruct (rp_timer_enabled p); simpl; [|by eexists].
  destruct (Z.ltb_spec 0 (pa_timeval_cmp (rp_next_elapse p) now)) as [Hlt|Hge].
  - destruct (add_spec (mk_tv 0 0) (pa_timeval_diff (rp_next_elapse p) now) H0 (diff_bound _ _)) as (t & E & Ht & Eu). exists t. split_and!; [done|done|done|].
    intros _ _ Hd. rewrite Eu, diff_spec by done. unfold usecs, time_limit, TIME_MAX, PA_USEC_PER_SEC in *. simpl. lia.
  - eexists. split_and!; [done|done|done|]. intros _ _ _. change (usecs (mk_tv 0 0)) with 0. lia.
Qed.

(** ** The loops *)

(** Those of [l] that have a callback [cb], are of a priority that is visited and still
    [alive] were [asked]. *)
Definition all_asked (cb : pa_rtpoll_item -> option Z) (l : list (Z * pa_rtpoll_item)) (alive asked : list Z) : Prop :=
  forall a i, (a, i) ∈ l -> ri_priority i < PA_RTPOLL_NEVER -> cb i <> None -> a ∈ alive -> a ∈ asked.

Section run.
Context {W : Type} (call : Z -> Z -> pa_rtpoll -> W -> outcome (Z * pa_rtpoll * W)) {Hcall : CallbacksOk call}.
Context (p0 : pa_rtpoll) (Hrun : rp_running p0 = true).
#[local] Abbreviation l0 := (rp_items p0).

Definition run_ok (s : run_state (W := W)) : Prop := rt_good (rs_p s) /\ keeps p0 (rs_p s).

(** The item in state [s]. *)
#[local] Abbreviation item_in a s := (find_item a (rp_items (rs_p s))).

Lemma run_nodup s : run_ok s -> NoDup l0.*1.
Proof. intros [[buf R] K]. rewrite <- (keeps_fst _ _ K). apply R. Qed.

Lemma run_find s a i : run_ok s -> (a, i) ∈ l0 -> exists i', item_in a s = Some i' /\ same_item (a, i) (a, i').
Proof. intros Hs Hi. apply (keeps_find p0); [apply Hs|]. apply elem_find_item; [by eapply run_nodup|done]. Qed.

Lemma item_here l1 a i l2 : l0 = l1 ++ (a, i) :: l2 -> (a, i) ∈ l0.
Proof. intros ->. apply elem_of_app. right. by left. Qed.

Lemma addr_here l1 a i l2 : l0 = l1 ++ (a, i) :: l2 -> a ∈ l0.*1.
Proof. intros H%item_here. apply list_elem_of_fmap. by exists (a, i). Qed.

Lemma run_next s l1 a i l2 : run_ok s -> l0 = l1 ++ (a, i) :: l2 -> next_item a (rp_items (rs_p s)) = Some (head l2.*1).
Proof.
  intros Hs El. pose proof (run_nodup s Hs) as Hd. rewrite next_item_addr, (keeps_fst _ _ (proj2 Hs)). rewrite El, fmap_app, fmap_cons in *.
  apply next_addr_at. apply NoDup_app in Hd as (_ & Hd & _). intros H. apply (Hd a H). by left.
Qed.

Lemma run_prev s l1 a i l2 : run_ok s -> l0 = l1 ++ (a, i) :: l2 -> prev_item a (rp_items (rs_p s)) = Some (head (reverse l1).*1).
Proof.
  intros Hs El. pose proof (run_nodup s Hs) as Hd. unfold prev_item. rewrite next_item_addr, fmap_reverse, (keeps_fst _ _ (proj2 Hs)).
  rewrite El, fmap_app, fmap_cons, reverse_app, reverse_cons, <- app_assoc in *. simpl. rewrite fmap_reverse. apply next_addr_at.
  apply NoDup_app in Hd as (_ & _ & [Hd _]%NoDup_cons). by rewrite elem_of_reverse.
Qed.

Lemma do_call_ok f a ev s : run_ok s -> a ∈ l0.*1 ->
  exists k s', do_call call f a ev s = Ok (k, s') /\ run_ok s' /\ keeps (rs_p s) (rs_p s') /\ rs_trace s' = rs_trace s ++ [ev k].
Proof.
  intros [G K] Ha. destruct (callback_keeps f a (rs_p s) (rs_w s)) as (k & p' & w' & E & G' & K'); [done| |by rewrite (keeps_fst _ _ K)|].
  { destruct K as (_ & -> & _). done. }
  unfold do_call. rewrite E. cbn [mbind outcome_bind]. eexists k, _. split; [done|]. split_and!; [split; [done|by etransitivity]|done|done].
Qed.

Lemma keeps_find_back p p' a i' : keeps p p' -> find_item a (rp_items p') = Some i' -> exists i, find_item a (rp_items p) = Some i /\ same_item (a, i) (a, i').
Proof.
  intros [H _]. induction H as [|[b j] [b' j'] l m Hx _ IH]; [done|]. pose proof Hx as (E & _). simpl in E. subst b'. simpl.
  destruct (Z.eqb_spec b a) as [->|]; [|done]. intros [= ->]. by exists j.
Qed.

(** Who is alive now was before. *)
Lemma alive_before p p' a i' : keeps p p' -> find_item a (rp_items p') = Some i' -> ri_dead i' = false ->
  exists i, find_item a (rp_items p) = Some i /\ ri_dead i = false /\ ri_before_cb i = ri_before_cb i' /\ ri_after_cb i = ri_after_cb i'.
Proof.
  intros K Hf Hd. destruct (keeps_find_back _ _ _ _ K Hf) as (i & Ei & (_ & _ & _ & _ & E1 & E2 & Hdd)). simpl in *. exists i.
  split_and!; [done| |done|done]. destruct (ri_dead i); [|done]. rewrite Hdd in Hd by done. done.
Qed.

(** ** Nobody is left out *)

(** The items that were not freed. *)
Definition survivors (p : pa_rtpoll) : list Z := (filter (fun x => ri_dead x.2 = false) (rp_items p)).*1.

Lemma survivor_find p a : rt_good p -> a ∈ survivors p -> exists i, find_item a (rp_items p) = Some i /\ ri_dead i = false.
Proof.
  intros [buf R] H. apply list_elem_of_fmap in H as ([b i] & -> & [Hd Hi]%list_elem_of_filter). exists i. split; [|done].
  apply elem_find_item; [apply R|done].
Qed.

Lemma find_survivor p a i : find_item a (rp_items p) = Some i -> ri_dead i = false -> a ∈ survivors p.
Proof.
  intros Hf Hd. apply list_elem_of_fmap. exists (a, i). split; [done|]. apply list_elem_of_filter. split; [done|]. by apply find_item_elem.
Qed.

Lemma survivors_fewer p p' a : rt_good p' -> keeps p p' -> a ∈ survivors p' -> a ∈ survivors p.
Proof.
  intros G K H. destruct (survivor_find _ _ G H) as (i & Hi & Hd). destruct (alive_before _ _ _ _ K Hi Hd) as (j & Hj & Hdj & _).
  by eapply find_survivor.
Qed.

Lemma all_asked_later cb l p p' asked : rt_good p' -> keeps p p' -> all_asked cb l (survivors p) asked -> all_asked cb l (survivors p') asked.
Proof. intros G K H a i Hi Hp Hc Ha. apply (H a i); [done..|]. by eapply survivors_fewer. Qed.

Lemma all_asked_more cb l alive asked more : all_asked cb l alive asked -> all_asked cb l alive (asked ++ more).
Proof. intros H a i Hi Hp Hc Ha. apply elem_of_app. left. by apply (H a i). Qed.

Lemma all_asked_snoc cb l a i alive asked : all_asked cb l alive asked ->
  (ri_priority i < PA_RTPOLL_NEVER -> cb i <> None -> a ∈ alive -> a ∈ asked) -> all_asked cb (l ++ [(a, i)]) alive asked.
Proof.
  intros H Ha b j [Hb|Hb]%elem_of_app Hp Hc Hl; [by apply (H b j)|]. apply list_elem_of_singleton in Hb as [= -> ->]. by apply Ha.
Qed.

(** The items are sorted, so that after the first with the last priority there
    is nobody to ask. *)
Lemma run_sorted s : run_ok s -> StronglySorted before_eq l0.
Proof.
  intros [[buf R] [H _]]. pose proof (rt_sorted _ _ R) as Hs. clear -H Hs. revert Hs. induction H as [|x y l m (_ & E & _) Hl IH]; intros Hs; [constructor|].
  apply StronglySorted_inv in Hs as [Hs Hf]. constructor; [by apply IH|]. apply Forall_forall. intros z (k & Ez)%list_elem_of_lookup.
  destruct (Forall2_lookup_l _ _ _ _ _ Hl Ez) as (z' & E' & (_ & Ep & _)). rewrite Forall_forall in Hf.
  pose proof (Hf z' (list_elem_of_lookup_2 _ _ _ E')) as Hb. unfold before_eq in *. lia.
Qed.

Lemma all_asked_rest cb l1 a i l2 s alive asked : run_ok s -> l0 = l1 ++ (a, i) :: l2 -> PA_RTPOLL_NEVER <= ri_priority i ->
  all_asked cb l1 alive asked -> all_asked cb l0 alive asked.
Proof.
  intros Hs El Hn H b j Hb Hp Hc Ha. rewrite El in Hb. apply elem_of_app in Hb as [Hb|Hb]; [by apply (H b j)|]. exfalso.
  pose proof (run_sorted s Hs) as Hso. rewrite El in Hso. clear -Hso Hb Hn Hp. induction l1 as [|x l1 IH]; simpl in Hso;
    apply StronglySorted_inv in Hso as [Hso Hf]; [|by apply IH].
  apply elem_of_cons in Hb as [[= -> ->]|Hb]; [lia|]. rewrite Forall_forall in Hf. specialize (Hf _ Hb). unfold before_eq in Hf. simpl in Hf. lia.
Qed.

Lemma min_if k : (if k <? 0 then k else 0) = Z.min k 0.
Proof. destruct (Z.ltb_spec k 0); lia. Qed.

(** The loop of kind [ev] was ended by item [a], or at its turn by a request to quit. *)
Definition stopped (ev : Z -> Z -> rt_event) (a : Z) (stop : list rt_event) (v : Z) (s : run_state (W := W)) : Prop :=
  (stop = [] /\ v = 0 /\ rp_quit (rs_p s) = true) \/ exists k, k <> 0 /\ v = Z.min k 0 /\ stop = [ev a k].

(** After [l1], of which [W0] have agreed, the items of [l2] were asked to work until one refused. *)
Definition worked (l1 : list (Z * pa_rtpoll_item)) (W0 : list Z) (l2 : list (Z * pa_rtpoll_item)) (s : run_state (W := W))
    (out : outcome (option (option Z * run_state))) : Prop :=
  exists res s' ws stop, out = Ok (Some (res, s')) /\ run_ok s' /\ rs_trace s' = rs_trace s ++ ((fun a => EvWork a 0) <$> ws) ++ stop /\
    ws `sublist_of` l2.*1 /\
    match res with
    | None => stop = [] /\ all_asked ri_work_cb l0 (survivors (rs_p s')) (W0 ++ ws)
    | Some v => exists k1 a i k2, l0 = k1 ++ (a, i) :: k2 /\ all_asked ri_work_cb k1 (survivors (rs_p s')) (W0 ++ ws) /\ stopped EvWork a stop v s'
    end.

Lemma worked_skip l1 W0 x l2 s out : worked (l1 ++ [x]) W0 l2 s out -> worked l1 W0 (x :: l2) s out.
Proof. intros (res & s' & ws & stop & H1 & H2 & H3 & H4 & H5). exists res, s', ws, stop. split_and!; try done. by apply sublist_cons. Qed.

Lemma worked_call l1 W0 a i l2 s s1 out : rs_trace s1 = rs_trace s ++ [EvWork a 0] ->
  worked (l1 ++ [(a, i)]) (W0 ++ [a]) l2 s1 out -> worked l1 W0 ((a, i) :: l2) s out.
Proof.
  intros T (res & s' & ws & stop & H1 & H2 & H3 & H4 & H5). exists res, s', (a :: ws), stop. split_and!; try done.
  - rewrite H3, T, fmap_cons. simpl. by rewrite <- app_assoc.
  - by apply sublist_skip.
  - by rewrite <- app_assoc in H5.
Qed.

Lemma work_loop_ok l2 : forall l1 W0 fuel s, run_ok s -> l0 = l1 ++ l2 -> (length l2 <= fuel)%nat ->
  all_asked ri_work_cb l1 (survivors (rs_p s)) W0 -> worked l1 W0 l2 s (work_loop call fuel (head l2.*1) s).
Proof.
  induction l2 as [|[a i] l2 IH]; intros l1 W0 fuel s Hs El Hf Ha.
  { rewrite app_nil_r in El. subst l1. destruct fuel; exists None, s, [], []; rewrite !app_nil_r; split_and!; done. }
  destruct fuel as [|fuel]; [simpl in Hf; lia|]. simpl in Hf. rewrite fmap_cons. cbn [head work_loop fst].
  destruct (run_find s a i Hs (item_here _ _ _ _ El)) as (i' & Ei & (_ & Ep & _ & Ec & _)). rewrite Ei. cbn [deref mbind outcome_bind]. simpl in Ep, Ec.
  destruct (Z.ltb_spec (ri_priority i') PA_RTPOLL_NEVER) as [Hp|Hp]; cbn [negb].
  2: { exists None, s, [], []. rewrite !app_nil_r. split_and!; try done; [apply sublist_nil_l|].
       apply (all_asked_rest _ l1 a i l2 s); try done. lia. }
  assert (forall s1 W1, run_ok s1 -> all_asked ri_work_cb (l1 ++ [(a, i)]) (survivors (rs_p s1)) W1 ->
    worked (l1 ++ [(a, i)]) W1 l2 s1 (next ← deref (next_item a (rp_items (rs_p s1))); work_loop call fuel next s1)) as Hgo.
  { intros s1 W1 Hs1 Ha1. rewrite (run_next s1 l1 a i l2 Hs1 El). cbn [deref mbind outcome_bind]. apply IH; [done|by rewrite <- app_assoc|lia|done]. }
  destruct (ri_dead i') eqn:Ed.
  { apply worked_skip, Hgo; [done|]. apply all_asked_snoc; [done|]. intros _ _ H. destruct (survivor_find _ _ (proj1 Hs) H) as (j & Ej & Hj). congruence. }
  destruct (ri_work_cb i') as [f|] eqn:Ef.
  2: { apply worked_skip, Hgo; [done|]. apply all_asked_snoc; [done|]. intros _ H. congruence. }
  destruct (rp_quit (rs_p s)) eqn:Eq.
  { exists (Some 0), s, [], []. rewrite !app_nil_r. split_and!; try done; [apply sublist_nil_l|]. exists l1, a, i, l2. split_and!; try done. by left. }
  destruct (do_call_ok f a (EvWork a) s Hs (addr_here _ _ _ _ El)) as (k & s1 & E1 & Hs1 & K1 & T1). rewrite E1. cbn [mbind outcome_bind].
  pose proof (all_asked_later _ _ _ _ _ (proj1 Hs1) K1 Ha) as Ha1. destruct (Z.eqb_spec k 0) as [->|Hk]; cbn [negb].
  - apply (worked_call _ _ _ _ _ s s1 _ T1), Hgo; [done|]. apply all_asked_snoc; [by apply all_asked_more|]. intros _ _ _. apply elem_of_app. right. by left.
  - rewrite min_if. exists (Some (Z.min k 0)), s1, [], [EvWork a k]. rewrite app_nil_r. split_and!; try done; [apply sublist_nil_l|].
    exists l1, a, i, l2. split_and!; try done. right. eauto.
Qed.

(** ** Telling that the sleep is over *)

Record told (V : list Z) (s s' : run_state (W := W)) (A : list Z) : Prop := {
  td_ok : run_ok s';
  td_keeps : keeps (rs_p s) (rs_p s');
  td_trace : rs_trace s' = rs_trace s ++ (EvAfter <$> A);
  td_order : A `sublist_of` V;
  td_alive a i : a ∈ A -> item_in a s = Some i -> ri_dead i = false;
  td_all a i : a ∈ V -> item_in a s' = Some i -> ri_dead i = false -> ri_after_cb i <> None -> a ∈ A
}.

Lemma told_nil s : run_ok s -> told [] s s [].
Proof. intros Hs. split; try done; [by rewrite app_nil_r|]. intros a i Ha. by apply not_elem_of_nil in Ha. Qed.

Lemma told_app V1 V2 s s1 s2 A1 A2 : told V1 s s1 A1 -> told V2 s1 s2 A2 -> told (V1 ++ V2) s s2 (A1 ++ A2).
Proof.
  intros [O1 K1 T1 S1 L1 C1] [O2 K2 T2 S2 L2 C2]. split; [done|by etransitivity| |by apply sublist_app| |].
  - by rewrite T2, T1, fmap_app, app_assoc.
  - intros a i Ha Hi. apply elem_of_app in Ha as [Ha|Ha]; [by apply (L1 a)|].
    destruct (keeps_find _ _ _ _ K1 Hi) as (i1 & E1 & (_ & _ & _ & _ & _ & _ & Hd)). pose proof (L2 a i1 Ha E1) as Hd1. simpl in Hd.
    destruct (ri_dead i); [|done]. rewrite Hd in Hd1 by done. done.
  - intros a i Ha Hi Hd Hc. apply elem_of_app. apply elem_of_app in Ha as [Ha|Ha]; [left|right; by apply (C2 a i)].
    destruct (alive_before _ _ _ _ K2 Hi Hd) as (i1 & E1 & Hd1 & _ & Ec). apply (C1 a i1); congruence.
Qed.

Lemma tell_ok a i s : run_ok s -> a ∈ l0.*1 -> item_in a s = Some i ->
  exists s' A, (if ri_dead i then Ok s else match ri_after_cb i with None => Ok s | Some f => '(_, s) ← do_call call f a (fun _ => EvAfter a) s; Ok s end) = Ok s' /\
    told [a] s s' A.
Proof.
  intros Hs Ha Hi. assert (ri_dead i = true \/ ri_after_cb i = None -> told [a] s s []) as Hno.
  { intros Hn. split; try done; [by rewrite app_nil_r|apply sublist_nil_l|set_solver|]. intros b j ->%list_elem_of_singleton Hj Hd Hc. rewrite Hi in Hj. injection Hj as <-.
    destruct Hn; congruence. }
  destruct (ri_dead i) eqn:Ed; [exists s, []; auto|]. destruct (ri_after_cb i) as [f|] eqn:Ec; [|exists s, []; auto].
  destruct (do_call_ok f a (fun _ => EvAfter a) s Hs Ha) as (k & s1 & E1 & Hs1 & K1 & T1). rewrite E1. cbn [mbind outcome_bind]. exists s1, [a].
  split; [done|]. split; try done. intros b j ->%list_elem_of_singleton Hj. congruence.
Qed.

Lemma rewind_loop_ok l1 : forall l2 fuel s, run_ok s -> l0 = l1 ++ l2 -> (length l1 <= fuel)%nat ->
  exists s' A, rewind_loop call fuel (head (reverse l1).*1) s = Ok (Some s') /\ told (reverse l1).*1 s s' A.
Proof.
  induction l1 as [|[a i] l1 IH] using rev_ind; intros l2 fuel s Hs El Hf.
  { exists s, []. destruct fuel; (split; [done|by apply told_nil]). }
  rewrite length_app in Hf. simpl in Hf. destruct fuel as [|fuel]; [lia|]. rewrite reverse_snoc, fmap_cons. cbn [head rewind_loop fst].
  rewrite <- app_assoc in El. change ([(a, i)] ++ l2) with ((a, i) :: l2) in El. destruct (run_find s a i Hs (item_here _ _ _ _ El)) as (i' & Ei & _). rewrite Ei. cbn [deref mbind outcome_bind].
  destruct (tell_ok a i' s Hs (addr_here _ _ _ _ El) Ei) as (s1 & A1 & E1 & H1). rewrite E1. cbn [mbind outcome_bind].
  rewrite (run_prev s1 l1 a i l2 (td_ok _ _ _ _ H1) El). cbn [deref mbind outcome_bind].
  destruct (IH ((a, i) :: l2) fuel s1 (td_ok _ _ _ _ H1) El ltac:(lia)) as (s2 & A2 & E2 & H2). exists s2, (A1 ++ A2). split; [done|].
  by apply (told_app [a] _ s s1).
Qed.

(** The items a loop gets to. *)
Fixpoint active (l : list (Z * pa_rtpoll_item)) : list Z :=
  match l with [] => [] | (a, i) :: l => if ri_priority i <? PA_RTPOLL_NEVER then a :: active l else [] end.

Lemma active_all l a i : StronglySorted before_eq l -> (a, i) ∈ l -> ri_priority i < PA_RTPOLL_NEVER -> a ∈ active l.
Proof.
  induction l as [|[b j] l IH]; intros Hs Hi Hp; [by apply elem_of_nil in Hi|]. apply StronglySorted_inv in Hs as [Hs Hf]. simpl.
  apply elem_of_cons in Hi as [[= <- <-]|Hi]; [rewrite (proj2 (Z.ltb_lt _ _) Hp); by left|].
  rewrite Forall_forall in Hf. pose proof (Hf _ Hi) as Hb. unfold before_eq in Hb. simpl in Hb. destruct (Z.ltb_spec (ri_priority j) PA_RTPOLL_NEVER); [|lia].
  right. by apply IH.
Qed.

(** Who of [V], where all of [l] are, was told. *)
Lemma told_all V s s' A l : run_ok s -> told V s s' A -> (forall x, x ∈ l -> x ∈ l0) ->
  (forall a i, (a, i) ∈ l -> ri_priority i < PA_RTPOLL_NEVER -> a ∈ V) -> all_asked ri_after_cb l (survivors (rs_p s')) A.
Proof.
  intros Hs H Hl HV a i Hi Hp Hc Ha. destruct (survivor_find _ _ (proj1 (td_ok _ _ _ _ H)) Ha) as (j & Ej & Hj).
  destruct (run_find s' a i (td_ok _ _ _ _ H) (Hl _ Hi)) as (j' & Ej' & (_ & _ & _ & _ & _ & Ea & _)). simpl in Ea.
  apply (td_all _ _ _ _ H a j); [by apply (HV a i)|done|done|congruence].
Qed.

Lemma after_loop_ok l2 : forall l1 fuel s, run_ok s -> l0 = l1 ++ l2 -> (length l2 <= fuel)%nat ->
  exists s' A, after_loop call fuel (head l2.*1) s = Ok (Some s') /\ told (active l2) s s' A.
Proof.
  induction l2 as [|[a i] l2 IH]; intros l1 fuel s Hs El Hf.
  { exists s, []. destruct fuel; (split; [done|by apply told_nil]). }
  destruct fuel as [|fuel]; [simpl in Hf; lia|]. simpl in Hf. rewrite fmap_cons. cbn [head after_loop fst active].
  destruct (run_find s a i Hs (item_here _ _ _ _ El)) as (i' & Ei & (_ & Ep & _)). rewrite Ei. cbn [deref mbind outcome_bind]. simpl in Ep. rewrite Ep.
  destruct (ri_priority i <? PA_RTPOLL_NEVER); cbn [negb]; [|exists s, []; split; [done|by apply told_nil]].
  destruct (tell_ok a i' s Hs (addr_here _ _ _ _ El) Ei) as (s1 & A1 & E1 & H1). rewrite E1. cbn [mbind outcome_bind].
  rewrite (run_next s1 l1 a i l2 (td_ok _ _ _ _ H1) El). cbn [deref mbind outcome_bind].
  destruct (IH (l1 ++ [(a, i)]) fuel s1 (td_ok _ _ _ _ H1)) as (s2 & A2 & E2 & H2); [by rewrite <- app_assoc|lia|]. exists s2, (A1 ++ A2). split; [done|].
  by apply (told_app [a] _ s s1).
Qed.

(** ** Preparing to sleep *)

(** Who of [V] is there and has to be asked is one of [B]. *)
Definition asked (V : list Z) (s : run_state (W := W)) (B : list Z) : Prop :=
  forall a i, a ∈ V -> item_in a s = Some i -> ri_dead i = false -> ri_before_cb i <> None -> a ∈ B.

(** Who was asked is told, unless it is gone, and nobody else. *)
Definition paired (B A : list Z) (s : run_state (W := W)) : Prop :=
  (forall a i, a ∈ A -> (a, i) ∈ l0 -> ri_before_cb i <> None -> a ∈ B) /\
  (forall a i, a ∈ B -> (a, i) ∈ l0 -> ri_after_cb i <> None -> (exists i', item_in a s = Some i' /\ ri_dead i' = false) -> a ∈ A).

Lemma asked_later V s s' B : keeps (rs_p s) (rs_p s') -> asked V s B -> asked V s' B.
Proof. intros K H a i Ha Hi Hd Hb. destruct (alive_before _ _ _ _ K Hi Hd) as (j & Ej & Hj & Eb & _). apply (H a j); congruence. Qed.

Lemma told_paired V s s' A B : run_ok s -> told V s s' A -> asked V s B -> (forall a, a ∈ B -> a ∈ V) -> paired B A s'.
Proof.
  intros Hs H Hb HB. split.
  - intros a i Ha Hi Hc. destruct (run_find s a i Hs Hi) as (j & Ej & (_ & _ & _ & _ & Eb & _)). simpl in Eb.
    apply (Hb a j); [|done|by apply (td_alive _ _ _ _ H a)|congruence]. eapply elem_of_sublist; [exact Ha|apply H].
  - intros a i Ha Hi Hc (j & Ej & Hj). destruct (run_find s' a i (td_ok _ _ _ _ H) Hi) as (j' & Ej' & (_ & _ & _ & _ & _ & Ea & _)). simpl in Ea.
    apply (td_all _ _ _ _ H a j); [by apply HB|done|done|congruence].
Qed.

Definition prepared (V0 B0 V : list Z) (s : run_state (W := W)) (out : outcome (option (option Z * run_state))) : Prop :=
  exists res s' B stop A, out = Ok (Some (res, s')) /\ run_ok s' /\ keeps (rs_p s) (rs_p s') /\
    rs_trace s' = rs_trace s ++ ((fun a => EvBefore a 0) <$> B) ++ stop ++ (EvAfter <$> A) /\ B `sublist_of` V /\
    match res with
    | None => stop = [] /\ A = [] /\ asked (V0 ++ V) s' (B0 ++ B)
    | Some v => exists k1 a i k2, l0 = k1 ++ (a, i) :: k2 /\ asked k1.*1 s' (B0 ++ B) /\ stopped EvBefore a stop v s' /\
        A `sublist_of` reverse k1.*1 /\ paired (B0 ++ B) A s' /\ all_asked ri_after_cb k1 (survivors (rs_p s')) A
    end.

Lemma prepared_skip V0 B0 V a s out : prepared (V0 ++ [a]) B0 V s out -> prepared V0 B0 (a :: V) s out.
Proof.
  intros (res & s' & B & stop & A & H1 & H2 & K & H3 & H4 & H5). exists res, s', B, stop, A. rewrite <- app_assoc in H5. split_and!; try done. by apply sublist_cons.
Qed.

Lemma prepared_call V0 B0 V a s s1 out : keeps (rs_p s) (rs_p s1) -> rs_trace s1 = rs_trace s ++ [EvBefore a 0] ->
  prepared (V0 ++ [a]) (B0 ++ [a]) V s1 out -> prepared V0 B0 (a :: V) s out.
Proof.
  intros K1 T (res & s' & B & stop & A & H1 & H2 & K & H3 & H4 & H5). exists res, s', (a :: B), stop, A. rewrite <- !app_assoc in H5. split_and!; try done.
  - by etransitivity.
  - rewrite H3, T, <- app_assoc. done.
  - by apply sublist_skip.
Qed.

Lemma prepared_here V0 B0 s : run_ok s -> asked V0 s B0 -> prepared V0 B0 [] s (Ok (Some (None, s))).
Proof. intros Hs Ha. exists None, s, [], [], []. rewrite !app_nil_r. by split_and!. Qed.

(** An item that does not let the loop sleep. *)
Lemma prepared_stop l1 a i l2 all k stop V B0 s s1 : run_ok s1 -> keeps (rs_p s) (rs_p s1) -> l0 = l1 ++ (a, i) :: l2 -> (length l0 <= all)%nat -> asked l1.*1 s1 B0 ->
  (forall b, b ∈ B0 -> b ∈ l1.*1) -> rs_trace s1 = rs_trace s ++ stop -> stopped EvBefore a stop (Z.min k 0) s1 ->
  prepared l1.*1 B0 V s (prev ← deref (prev_item a (rp_items (rs_p s1))); r ← rewind_loop call all prev s1;
    Ok (match r with Some s => Some (Some (if k <? 0 then k else 0), s) | None => None end)).
Proof.
  intros Hs K El Hl Ha HB T Hst. rewrite (run_prev s1 l1 a i l2 Hs El). cbn [deref mbind outcome_bind].
  destruct (rewind_loop_ok l1 ((a, i) :: l2) all s1 Hs El) as (s2 & A & E & H); [rewrite El, length_app in Hl; lia|]. rewrite E. cbn [mbind outcome_bind].
  rewrite min_if. exists (Some (Z.min k 0)), s2, [], stop, A. split_and!; [done|apply H|etransitivity; [exact K|apply H]| |apply sublist_nil_l|].
  { rewrite (td_trace _ _ _ _ H), T. simpl. by rewrite <- app_assoc. }
  rewrite app_nil_r. exists l1, a, i, l2. split_and!.
  - done.
  - by apply (asked_later _ s1); [apply H|].
  - destruct Hst as [(-> & -> & Hq)|Hst]; [left|by right]. split_and!; [done|done|]. by apply (td_keeps _ _ _ _ H).
  - rewrite <- fmap_reverse. apply H.
  - apply (told_paired (reverse l1).*1 s1 s2 A B0 Hs H).
    + intros b j Hb. apply Ha. by rewrite fmap_reverse, elem_of_reverse in Hb.
    + intros b Hb. rewrite fmap_reverse, elem_of_reverse. by apply HB.
  - apply (told_all (reverse l1).*1 s1 s2); [done|done| |].
    + intros x Hx. rewrite El. apply elem_of_app. by left.
    + intros b j Hb _. rewrite fmap_reverse, elem_of_reverse. apply list_elem_of_fmap. by exists (b, j).
Qed.

Lemma before_loop_ok all l2 : (length l0 <= all)%nat -> forall l1 B0 fuel s, run_ok s -> l0 = l1 ++ l2 -> (length l2 <= fuel)%nat ->
  asked l1.*1 s B0 -> (forall b, b ∈ B0 -> b ∈ l1.*1) -> prepared l1.*1 B0 (active l2) s (before_loop call all fuel (head l2.*1) s).
Proof.
  intros Hall. induction l2 as [|[a i] l2 IH]; intros l1 B0 fuel s Hs El Hf Ha HB; [destruct fuel; by apply prepared_here|].
  destruct fuel as [|fuel]; [simpl in Hf; lia|]. simpl in Hf. rewrite fmap_cons. cbn [head before_loop fst active].
  destruct (run_find s a i Hs (item_here _ _ _ _ El)) as (i' & Ei & (_ & Ep & _)). rewrite Ei. cbn [deref mbind outcome_bind]. simpl in Ep. rewrite Ep.
  destruct (ri_priority i <? PA_RTPOLL_NEVER); cbn [negb]; [|by apply prepared_here].
  assert (forall s1 B1, run_ok s1 -> asked (l1.*1 ++ [a]) s1 B1 -> (forall b, b ∈ B1 -> b ∈ l1.*1 ++ [a]) ->
    prepared (l1.*1 ++ [a]) B1 (active l2) s1 (next ← deref (next_item a (rp_items (rs_p s1))); before_loop call all fuel next s1)) as Hgo.
  { intros s1 B1 Hs1 Ha1 HB1. rewrite (run_next s1 l1 a i l2 Hs1 El). cbn [deref mbind outcome_bind]. specialize (IH (l1 ++ [(a, i)]) B1 fuel s1).
    rewrite fmap_app in IH. apply IH; [done|by rewrite <- app_assoc|lia|done|done]. }
  assert (ri_dead i' = true \/ ri_before_cb i' = None -> asked (l1.*1 ++ [a]) s B0) as Hskip.
  { intros Hn b j [Hb|Hb]%elem_of_app Hj Hd Hc; [by apply (Ha b j)|]. apply list_elem_of_singleton in Hb as ->. rewrite Ei in Hj. injection Hj as <-. destruct Hn; congruence. }
  assert (forall b, b ∈ B0 -> b ∈ l1.*1 ++ [a]) as HB' by (intros b Hb; apply elem_of_app; left; by apply HB).
  destruct (ri_dead i') eqn:Ed; [apply prepared_skip, Hgo; auto|].
  destruct (ri_before_cb i') as [f|] eqn:Ef; [|apply prepared_skip, Hgo; auto].
  destruct (rp_quit (rs_p s)) eqn:Eq.
  { apply (prepared_stop l1 a i l2 all 0 [] _ B0 s s); try done; [by rewrite app_nil_r|by left]. }
  destruct (do_call_ok f a (EvBefore a) s Hs (addr_here _ _ _ _ El)) as (k & s1 & E1 & Hs1 & K1 & T1). rewrite E1. cbn [mbind outcome_bind].
  pose proof (asked_later _ _ _ _ K1 Ha) as Ha1. destruct (Z.eqb_spec k 0) as [->|Hk]; cbn [negb].
  - apply (prepared_call l1.*1 B0 _ a s s1 _ K1 T1), Hgo; [done| |intros b; rewrite !elem_of_app; naive_solver].
    intros b j [Hb|Hb]%elem_of_app Hj Hd Hc; apply elem_of_app; [left; by apply (Ha1 b j)|by right].
  - apply (prepared_stop l1 a i l2 all k [EvBefore a k] _ B0 s s1); try done. right. eauto.
Qed.

(** ** Sleeping and cleaning up *)

Context (ppoll : list pollfd -> option timeval -> W -> poll_answer * W) (rtclock : W -> timeval) (Hclock : forall w, tv_ok (rtclock w)).

Lemma same_items_keeps p p' : rp_items p' = rp_items p -> rp_running p' = rp_running p -> rp_quit p' = rp_quit p -> keeps p p'.
Proof. intros E1 E2 E3. split; [|split; [done|by rewrite E3]]. rewrite E1. apply (proj1 (reflexivity (R := keeps) p)). Qed.

Lemma sleep_ok s : run_ok s ->
  exists v fds ts r s', sleep ppoll rtclock s = Ok (v, s') /\ run_ok s' /\ keeps (rs_p s) (rs_p s') /\
    rs_trace s' = rs_trace s ++ [EvPoll fds ts r] /\ (v = r \/ r < 0 /\ v = 0).
Proof.
  intros [[buf R] K]. unfold sleep.
  assert (exists p1 buf1, (if rp_rebuild_needed (rs_p s) then rtpoll_rebuild (rs_p s) else Ok (rs_p s)) = Ok p1 /\ rt_inv p1 buf1 /\
    rp_rebuild_needed p1 = false /\ keeps (rs_p s) p1) as (p1 & buf1 & E1 & R1 & N1 & K1).
  { destruct (rp_rebuild_needed (rs_p s)) eqn:En; [|by exists (rs_p s), buf].
    destruct (rebuild_spec _ _ R) as (p1 & buf1 & E & R1 & N1 & M1). exists p1, buf1. split_and!; [done|done|done|by eapply moved_keeps]. }
  rewrite E1. cbn [mbind outcome_bind]. destruct (poll_timeout_spec (rtclock (rs_w s)) p1 (Hclock _) (rt_timer _ _ R1)) as (t & -> & _). cbn [mbind outcome_bind].
  pose proof (polled_spec p1 buf1 R1 N1) as Ef. rewrite Ef. cbn [mbind outcome_bind].
  set (fds := concat (item_fds buf1 <$> (rp_items p1).*2)) in *. set (ts := if rp_quit p1 || rp_timer_enabled p1 then Some t else None).
  destruct (ppoll fds ts (rs_w s)) as [ans w].
  destruct (store_revents_spec p1 buf1 fds (pa_revents ans) R1 N1 Ef) as (p2 & buf2 & E2 & R2 & I2 & U2 & N2 & Q2). rewrite E2. cbn [mbind outcome_bind].
  assert (keeps p1 (set_elapsed (pa_ret ans =? 0) p2)) as K2 by (by apply same_items_keeps).
  assert (rt_good (set_elapsed (pa_ret ans =? 0) p2)) as G2 by (exists buf2; apply (flags_inv p2); try done; apply R2).
  assert (exists p3, (if pa_ret ans <? 0 then reset_all_revents (set_elapsed (pa_ret ans =? 0) p2) else Ok (set_elapsed (pa_ret ans =? 0) p2)) = Ok p3 /\
    rt_good p3 /\ keeps (set_elapsed (pa_ret ans =? 0) p2) p3) as (p3 & E3 & G3 & K3).
  { destruct (pa_ret ans <? 0); [|by eexists]. apply reset_loop_ok; [done|]. intros x Hx. apply list_elem_of_fmap. by exists x. }
  rewrite E3. cbn [mbind outcome_bind]. assert (keeps (rs_p s) p3) as K' by (etransitivity; [exact K1|by etransitivity]).
  eexists _, fds, ts, (pa_ret ans), _. split; [done|]. split_and!; [split; [done|by etransitivity]|done|done|].
  destruct (Z.ltb_spec (pa_ret ans) 0), (pa_again ans); simpl; auto.
Qed.

Lemma finish_ok v s : run_ok s ->
  exists s', finish v s = Ok (if v <? 0 then v else if rp_quit (rs_p s') then 0 else 1, s') /\ rt_good (rs_p s') /\ rp_running (rs_p s') = false /\
    rs_trace s' = rs_trace s /\ rp_quit (rs_p s') = rp_quit (rs_p s) /\ rp_items (rs_p s') = filter (fun x => ri_dead x.2 = false) (rp_items (rs_p s)).
Proof.
  intros [[buf R] K]. unfold finish. cbn [rp_scan_for_dead set_running].
  assert (forall p' : pa_rtpoll, rt_good p' -> rp_items p' = filter (fun x => ri_dead x.2 = false) (rp_items (rs_p s)) ->
    rt_good (set_scan false (set_running false p'))) as Hgood.
  { intros p' [buf' R'] Ep'. exists buf'. apply (flags_inv p'); try done; [apply R'|]. intros x Hx Hd. rewrite Ep' in Hx. apply list_elem_of_filter in Hx as [Hx _]. congruence. }
  destruct (rp_scan_for_dead (rs_p s)) eqn:Es.
  - rewrite destroy_loop_flags. destruct (destroy_loop_ok (rp_items (rs_p s)) (rs_p s) [] (ex_intro _ buf R) eq_refl) as (p' & E & G & Ei & Eq).
    cbn [rp_items set_running]. rewrite E. cbn [mbind outcome_bind]. exists (set_p (set_scan false (set_running false p')) s). split; [done|]. simpl.
    split_and!; try done. by apply Hgood.
  - cbn [mbind outcome_bind]. exists (set_p (set_running false (rs_p s)) s). split; [done|]. simpl.
    assert (filter (fun x => ri_dead x.2 = false) (rp_items (rs_p s)) = rp_items (rs_p s)) as Ef.
    { apply filter_keeps, Forall_forall. intros x Hx. destruct (ri_dead x.2) eqn:Ed; [|done]. destruct (rt_dead _ _ R x Hx Ed). congruence. }
    split_and!; try done. exists buf. apply (flags_inv (rs_p s)); try done; [apply R|]. intros x Hx Hd. destruct (rt_dead _ _ R x Hx Hd). congruence.
Qed.
End run.

(** ** Callbacks that use the loop *)

Inductive cb_op :=
| CbFree (a : Z)
| CbWrite (a : Z) (fds : list pollfd)
| CbTimer (usec : Z)
| CbNoTimer
| CbQuit.

(** What is not allowed is left out. *)
Definition cb_step (op : cb_op) (p : pa_rtpoll) : outcome pa_rtpoll :=
  match op with
  | CbFree a => match find_item a (rp_items p) with Some _ => pa_rtpoll_item_free a p | None => Ok p end
  | CbWrite a fds =>
      match find_item a (rp_items p) with
      | Some i => if (0 <? ri_n_pollfd i) && (Z.of_nat (length fds) =? ri_n_pollfd i) then write_pollfds a fds p else Ok p
      | None => Ok p
      end
  | CbTimer usec => Ok (if (0 <=? usec) && (usec <? 2 ^ 64) then pa_rtpoll_set_timer_absolute usec p else p)
  | CbNoTimer => Ok (pa_rtpoll_set_timer_disabled p)
  | CbQuit => Ok (set_quit true p)
  end.

Fixpoint cb_exec (ops : list cb_op) (p : pa_rtpoll) : outcome pa_rtpoll :=
  match ops with [] => Ok p | op :: ops => p ← cb_step op p; cb_exec ops p end.

(** A callback returns a value and does something to the loop, depending on the state of the rest. *)
Definition scripted {W} (prog : Z -> Z -> W -> Z * list cb_op * W) (f a : Z) (p : pa_rtpoll) (w : W) : outcome (Z * pa_rtpoll * W) :=
  let '(k, ops, w) := prog f a w in p ← cb_exec ops p; Ok (k, p, w).

Lemma timer_good t b p : rt_good p -> tv_ok t -> rt_good (set_rt_timer t b p) /\ keeps p (set_rt_timer t b p).
Proof. intros [buf R] Ht. split; [|by apply same_items_keeps]. exists buf. apply (flags_inv p); try done. apply R. Qed.

Lemma dead_same a l : Forall2 same_item l (alter_item set_dead a l).
Proof. unfold alter_item. apply Forall2_fmap_r, Forall_Forall2_diag, Forall_forall. intros [b i] _. unfold same_item. simpl. destruct (b =? a); by split_and!. Qed.

Lemma cb_step_ok op p : rt_good p -> rp_running p = true -> exists p', cb_step op p = Ok p' /\ rt_good p' /\ keeps p p'.
Proof.
  intros [buf R] Hr. assert (rt_good p) as G by (by exists buf). destruct op as [a|a fds|usec| |]; simpl.
  - destruct (find_item a (rp_items p)) as [i|] eqn:Ei; [|by exists p]. destruct (free_spec a i p buf R Ei) as (p' & E & R' & Er & Eq & El).
    exists p'. split_and!; [done|by exists buf|]. rewrite Hr in El. split; [rewrite El; apply dead_same|]. by rewrite Eq.
  - destruct (find_item a (rp_items p)) as [i|] eqn:Ei; [|by exists p]. destruct (_ && _) eqn:Eb; [|by exists p].
    apply andb_true_iff in Eb as [E1%Z.ltb_lt E2%Z.eqb_eq]. destruct (write_spec a i fds p buf R Ei E1 E2) as (p' & buf' & E & R' & Hw & Er & Eq).
    exists p'. split_and!; [done|by exists buf'|]. split; [|by rewrite Eq]. eapply Forall2_impl; [exact Hw|]. intros x y (Ea & [o Eo] & _).
    unfold same_item. rewrite Eo. by split_and!.
  - eexists. split; [done|]. destruct (_ && _) eqn:Eb; [|by split]. apply andb_true_iff in Eb as [E1%Z.leb_le E2%Z.ltb_lt].
    apply timer_good; [done|]. by apply store_spec.
  - eexists. split; [done|]. apply timer_good; [done|]. vm_compute; repeat split; discriminate.
  - eexists. split; [done|]. split; [exists buf; apply (flags_inv p); try done; apply R|]. split; [|done]. apply (proj1 (reflexivity (R := keeps) p)).
Qed.

#[export] Instance scripted_ok {W} (prog : Z -> Z -> W -> Z * list cb_op * W) : CallbacksOk (scripted prog).
Proof.
  intros f a p w G Hr _. unfold scripted. destruct (prog f a w) as [[k ops] w'].
  assert (exists p', cb_exec ops p = Ok p' /\ rt_good p' /\ keeps p p') as (p' & E & G' & K').
  { revert p G Hr. induction ops as [|op ops IH]; intros p G Hr; [by exists p|]. simpl. destruct (cb_step_ok op p G Hr) as (p1 & E1 & G1 & K1). rewrite E1.
    cbn [mbind outcome_bind]. destruct (IH p1 G1) as (p2 & E2 & G2 & K2); [destruct K1 as (_ & -> & _); done|]. exists p2. split_and!; [done|done|by etransitivity]. }
  rewrite E. cbn [mbind outcome_bind]. eauto 10.
Qed.

(** ** A whole run *)

(** How a run with the items [l] went, of which [alive] are left in the end: the items that
    did their work, those that agreed to sleep, those that were told that it is over, what
    came in between, and the value.  It is ended by an item that had work to do or refuses
    to sleep, at the turn of an item by a request to quit, or by waking up; up to
    there everybody alive was asked. *)
Inductive ran (l : list (Z * pa_rtpoll_item)) (alive : list Z) (quit : bool) : list Z -> list Z -> list Z -> list rt_event -> Z -> Prop :=
| ran_work l1 a i l2 ws ev v : l = l1 ++ (a, i) :: l2 -> all_asked ri_work_cb l1 alive ws ->
    (ev = [] /\ v = 0 /\ quit = true) \/ (exists k, k <> 0 /\ v = Z.min k 0 /\ ev = [EvWork a k]) ->
    ran l alive quit ws [] [] ev v
| ran_before l1 a i l2 ws B A ev v : l = l1 ++ (a, i) :: l2 -> all_asked ri_work_cb l alive ws -> all_asked ri_before_cb l1 alive B ->
    all_asked ri_after_cb l1 alive A -> A `sublist_of` reverse l1.*1 ->
    (ev = [] /\ v = 0 /\ quit = true) \/ (exists k, k <> 0 /\ v = Z.min k 0 /\ ev = [EvBefore a k]) ->
    ran l alive quit ws B A ev v
| ran_poll ws B A fds t r v : all_asked ri_work_cb l alive ws -> all_asked ri_before_cb l alive B -> all_asked ri_after_cb l alive A ->
    A `sublist_of` l.*1 -> v = r \/ r < 0 /\ v = 0 -> ran l alive quit ws B A [EvPoll fds t r] v.

(** What a run with the items [l] has done when it returns [r]. *)
Record run_report {W} (l : list (Z * pa_rtpoll_item)) (r : Z) (s : run_state (W := W)) (ws B A : list Z) (ev : list rt_event) (v : Z) : Prop := {
  rr_trace : rs_trace s = ((fun a => EvWork a 0) <$> ws) ++ ((fun a => EvBefore a 0) <$> B) ++ ev ++ (EvAfter <$> A);
  rr_ran : ran l (rp_items (rs_p s)).*1 (rp_quit (rs_p s)) ws B A ev v;
  rr_order : ws `sublist_of` l.*1 /\ B `sublist_of` l.*1;
  rr_value : r = (if v <? 0 then v else if rp_quit (rs_p s) then 0 else 1);
  rr_good : rt_good (rs_p s) /\ rp_running (rs_p s) = false;
  rr_gone : Forall (fun x => ri_dead x.2 = false) (rp_items (rs_p s)) /\ (rp_items (rs_p s)).*1 `sublist_of` l.*1;
  rr_told a i : (a, i) ∈ l -> a ∈ A -> ri_before_cb i <> None -> a ∈ B;
  rr_asked a i : (a, i) ∈ l -> a ∈ B -> ri_after_cb i <> None -> a ∈ (rp_items (rs_p s)).*1 -> a ∈ A
}.

Lemma active_sublist l : active l `sublist_of` l.*1.
Proof. induction l as [|[a i] l IH]; [done|]. rewrite fmap_cons. simpl. case_match; [by apply sublist_skip|apply sublist_nil_l]. Qed.

Lemma run_end {W} p (s : run_state (W := W)) ws B A ev v : run_ok p s ->
  rs_trace s = ((fun a => EvWork a 0) <$> ws) ++ ((fun a => EvBefore a 0) <$> B) ++ ev ++ (EvAfter <$> A) ->
  ran (rp_items p) (survivors (rs_p s)) (rp_quit (rs_p s)) ws B A ev v -> ws `sublist_of` (rp_items p).*1 -> B `sublist_of` (rp_items p).*1 -> paired p B A s ->
  exists r s', finish v s = Ok (r, s') /\ run_report (rp_items p) r s' ws B A ev v.
Proof.
  intros Hs T Hr H1 H2 [P1 P2]. destruct (finish_ok p v s Hs) as (s' & E & G & Hn & Et & Eq & Ei). eexists _, s'. split; [exact E|]. split; try done.
  - congruence.
  - rewrite Eq, Ei. exact Hr.
  - rewrite Ei. split; [apply Forall_forall; intros x [Hx _]%list_elem_of_filter; done|].
    rewrite <- (keeps_fst _ _ (proj2 Hs)). apply fmap_sublist, sublist_filter.
  - intros a i Hi Ha. by apply (P1 a i).
  - intros a i Hi Ha Hc Hin. apply (P2 a i); [done|done|done|]. rewrite Ei in Hin. apply list_elem_of_fmap in Hin as ([b j] & -> & [Hd Hj]%list_elem_of_filter).
    exists j. split; [|done]. apply elem_find_item; [|done]. destruct Hs as [[buf R] _]. apply R.
Qed.

Lemma paired_nil {W} p (s : run_state (W := W)) : paired p [] [] s.
Proof. split; intros a i Ha; by apply not_elem_of_nil in Ha. Qed.

(** Everybody who has to be asked is among the asked, when those of a list were. *)
Lemma asked_all {W} p (s : run_state (W := W)) V l B : run_ok p s -> (forall x, x ∈ l -> x ∈ rp_items p) ->
  (forall a i, (a, i) ∈ l -> ri_priority i < PA_RTPOLL_NEVER -> a ∈ V) -> asked V s B -> all_asked ri_before_cb l (survivors (rs_p s)) B.
Proof.
  intros Hs Hl HV H a i Hi Hp Hc Ha. destruct (survivor_find _ _ (proj1 Hs) Ha) as (j & Ej & Hj).
  destruct (run_find p s a i Hs (Hl _ Hi)) as (j' & Ej' & (_ & _ & _ & _ & Eb & _)). simpl in Eb.
  apply (H a j); [by apply (HV a i)|done|done|congruence].
Qed.

(** C19: a run of the loop returns, however its callbacks use the loop, as long as they create
    no items, set no callbacks and take back no request to quit: it asks the items that have a callback and a priority below
    the last to work, each one and in their order, then to prepare for the sleep, and sleeps
    only when all have agreed; the first that refuses, or a request to quit at the turn of an
    item, ends it, an error is passed on, and the value says whether to go on.  Who
    agreed to the sleep is told afterwards, and who was not asked is not, in the order of the
    items or, without a sleep, backwards from the one that refused; only those that were freed meanwhile
    may be left out, and they are gone when it returns. *)
Theorem rtpoll_run_pairs {W} (call : Z -> Z -> pa_rtpoll -> W -> outcome (Z * pa_rtpoll * W)) `{!CallbacksOk call} ppoll rtclock p w :
  (forall w, tv_ok (rtclock w)) -> rt_good p -> rp_running p = false ->
  exists r s ws B A ev v, pa_rtpoll_run call ppoll rtclock (length (rp_items p)) p w = Ok (Some (r, s)) /\ run_report (rp_items p) r s ws B A ev v.
Proof.
  intros Hc [buf R] Hr. unfold pa_rtpoll_run. rewrite Hr. cbn [negb pa_assert mbind outcome_bind].
  set (p1 := set_elapsed false (set_running true p)). set (s0 := mk_run p1 w []).
  assert (run_ok p1 s0) as H0.
  { split; [|done]. exists buf. apply (flags_inv p); try done; [apply R|]. intros x Hx Hd. destruct (rt_dead _ _ R x Hx Hd). congruence. }
  assert (forall s : run_state (W := W), run_ok p1 s -> first_item s = head (rp_items p1).*1) as Hfirst.
  { intros s Hs. unfold first_item. rewrite <- (keeps_fst _ _ (proj2 Hs)). by destruct (rp_items (rs_p s)). }
  assert (StronglySorted before_eq (rp_items p1)) as Hso by apply R. rewrite (Hfirst s0 H0).
  destruct (work_loop_ok call p1 eq_refl (rp_items p1) [] [] (length (rp_items p)) s0 H0 eq_refl ltac:(done)) as (res & s1 & ws & stop & E1 & H1 & T1 & S1 & Hres).
  { intros a i Ha. by apply elem_of_nil in Ha. }
  rewrite E1. cbn [mbind outcome_bind]. destruct res as [v|].
  { destruct Hres as (k1 & a & i & k2 & El & Hw & Hst).
    destruct (run_end p1 s1 ws [] [] stop v) as (r & s' & E & Rp); [done|by rewrite T1, !app_nil_r|by eapply ran_work|done|apply sublist_nil_l|apply paired_nil|].
    rewrite E. by exists r, s', ws, [], [], stop, v. }
  destruct Hres as [-> Hw]. simpl in Hw. rewrite app_nil_r in T1. rewrite (Hfirst s1 H1).
  destruct (before_loop_ok call p1 eq_refl (length (rp_items p)) (rp_items p1) ltac:(done) [] [] (length (rp_items p)) s1 H1 eq_refl ltac:(done))
    as (res & s2 & B & stop & A & E2 & H2 & K2 & T2 & S2 & Hres); [intros a i Ha; by apply not_elem_of_nil in Ha|done|].
  pose proof (all_asked_later _ _ _ _ _ (proj1 H2) K2 Hw) as Hw2.
  assert (B `sublist_of` (rp_items p1).*1) as SB by (etransitivity; [exact S2|apply active_sublist]).
  rewrite E2. cbn [mbind outcome_bind]. destruct res as [v|].
  { destruct Hres as (k1 & a & i & k2 & El & Hb & Hst & SA & HP & HA).
    destruct (run_end p1 s2 ws B A stop v) as (r & s' & E & Rp); [done|by rewrite T2, T1| |done|done|done|].
    { eapply ran_before; try done. apply (asked_all p1 s2 k1.*1); [done| | |done].
      - intros x Hx. rewrite El. apply elem_of_app. by left.
      - intros b j Hb' _. apply list_elem_of_fmap. by exists (b, j). }
    rewrite E. by exists r, s', ws, B, A, stop, v. }
  destruct Hres as (-> & -> & Hask). rewrite !app_nil_r in T2. simpl in Hask.
  destruct (sleep_ok p1 ppoll rtclock Hc s2 H2) as (v & fds & ts & r & s3 & E3 & H3 & K3 & T3 & Hv). rewrite E3. cbn [mbind outcome_bind]. rewrite (Hfirst s3 H3).
  destruct (after_loop_ok call p1 eq_refl (rp_items p1) [] (length (rp_items p)) s3 H3 eq_refl ltac:(done)) as (s4 & A & E4 & H4). rewrite E4. cbn [mbind outcome_bind].
  assert (keeps (rs_p s2) (rs_p s4)) as K4 by (etransitivity; [exact K3|apply H4]). pose proof (td_ok _ _ _ _ _ H4) as Hs4.
  destruct (run_end p1 s4 ws B A [EvPoll fds ts r] v) as (r' & s' & E & Rp); [done| | |done|done| |].
  - rewrite (td_trace _ _ _ _ _ H4), T3, T2, T1. simpl. by rewrite <- !app_assoc.
  - apply ran_poll; [by apply (all_asked_later _ _ (rs_p s2)); [apply Hs4|..]| | | |done].
    + apply (asked_all p1 s4 (active (rp_items p1))); [done|done|intros a i; by apply active_all|by apply (asked_later _ s2)].
    + apply (told_all p1 (active (rp_items p1)) s3 s4); [done|done|done|intros a i; by apply active_all].
    + etransitivity; [apply H4|apply active_sublist].
  - apply (told_paired p1 (active (rp_items p1)) s3 s4 A B H3 H4); [by eapply asked_later|]. intros a Ha. by eapply elem_of_sublist.
  - rewrite E. by exists r', s', ws, B, A, [EvPoll fds ts r], v.
Qed.

Module RtpollExample.

Definition ops : list rt_op :=
  [RNew 9 0 0 1; RNew 8 0 0 2; RNew 7 0 0 0; RWrite 9 [mk_pollfd 3 1 0]; RSetBefore 7 (Some 1) 0; RSetAfter 7 (Some 2) 0;
   RSetBefore 8 (Some 1) 0; RSetAfter 8 (Some 2) 0; RSetBefore 9 (Some 4) 0; RSetAfter 9 (Some 2) 0].

Definition loop : pa_rtpoll := match rt_exec ops pa_rtpoll_new with Ok p => p | _ => pa_rtpoll_new end.

(** Callback 4 does not want to sleep, and frees item 7. *)
Definition prog (f a : Z) (w : unit) : Z * list cb_op * unit := if f =? 4 then (1, [CbFree 7; CbTimer 5000], w) else (0, [], w).

Definition quiet (fds : list pollfd) (t : option timeval) (w : unit) : poll_answer * unit := (mk_answer 0 false [], w).

Lemma loop_good : rt_good loop /\ rp_running loop = false.
Proof.
  destruct (implements_exec ops pa_rtpoll_new [] [mk_rspec 7 0 []; mk_rspec 8 0 [mk_pollfd 0 0 0; mk_pollfd 0 0 0]; mk_rspec 9 0 [mk_pollfd 3 1 0]] implements_new)
    as (p & E & (Hr & buf & R & _)); [by vm_compute|]. unfold loop. rewrite E. split; [by exists buf|done].
Qed.

Example run_trace : (match pa_rtpoll_run (scripted prog) quiet (fun _ => mk_tv 0 0) 3 loop tt with Ok (Some (r, s)) => Some (r, rs_trace s, (rp_items (rs_p s)).*1) | _ => None end) =
  Some (1, [EvBefore 7 0; EvBefore 8 0; EvBefore 9 1; EvAfter 8], [8; 9]).
Proof. by vm_compute. Qed.

End RtpollExample.

Lemma rtpoll_run_pairs_witness : exists r s ws B A ev v,
  pa_rtpoll_run (scripted RtpollExample.prog) RtpollExample.quiet (fun _ => mk_tv 0 0) (length (rp_items RtpollExample.loop)) RtpollExample.loop tt = Ok (Some (r, s)) /\
  run_report (rp_items RtpollExample.loop) r s ws B A ev v.
Proof.
  apply (rtpoll_run_pairs (scripted RtpollExample.prog)); [|apply RtpollExample.loop_good|apply RtpollExample.loop_good].
  intros _. repeat split; vm_compute; discriminate || reflexivity.
Defined.
