(* ===== verification/Mcalign.v ===== *)
(** * Mcalign: re-slicing a stream of chunks to a frame base

    Models [src/pulsecore/mcalign.c].  Chunks of any length go in, chunks whose
    length is a multiple of [base] come out; what does not fill a frame is kept
    in [leftover] until the next push.  The component's contract, proved here,
    is that no byte is lost, invented or reordered and no block reference is
    leaked. *)
From stdpp Require Import base tactics numbers list gmap.
From S2P Require Import Prelude Memblock.

Record pa_mcalign := mk_mcalign {
  ma_base : Z;
  ma_leftover : pa_memchunk;
  ma_current : pa_memchunk
}.

Definition isset (c : pa_memchunk) : bool := bool_decide (is_Some (mc_memblock c)).

Definition pa_mcalign_new (base : Z) : outcome pa_mcalign :=
  _ ← pa_assert (negb (base =? 0));
  Ok (mk_mcalign base pa_memchunk_reset pa_memchunk_reset).

(** [if (c.memblock) pa_memblock_unref(c.memblock)] *)
Definition unref_if_set (c : pa_memchunk) (st : store) : outcome store :=
  match mc_memblock c with
  | Some id => pa_memblock_unref id st
  | None => Ok st
  end.

Definition pa_mcalign_free (m : pa_mcalign) (st : store) : outcome store :=
  st ← unref_if_set (ma_leftover m) st;
  unref_if_set (ma_current m) st.

Definition pa_mcalign_push (m : pa_mcalign) (c : pa_memchunk) (st : store)
    : outcome (pa_mcalign * store) :=
  _ ← pa_assert (isset c);
  _ ← pa_assert (0 <? mc_length c);
  _ ← pa_assert (negb (isset (ma_current m)));
  cid ← deref (mc_memblock c);
  let lo := ma_leftover m in
  match mc_memblock lo with
  | Some lid =>
      if (lid =? cid) && (u64 (mc_index lo + mc_length lo) =? mc_index c) then
        (* Merge *)
        let lo := mk_chunk (Some lid) (mc_index lo) (u64 (mc_length lo + mc_length c)) in
        if ma_base m <=? mc_length lo
        then Ok (mk_mcalign (ma_base m) pa_memchunk_reset lo, st)
        else Ok (mk_mcalign (ma_base m) lo (ma_current m), st)
      else
        (* We have to copy *)
        _ ← pa_assert (mc_length lo <? ma_base m);
        let l := u64 (ma_base m - mc_length lo) in
        let l := if mc_length c <? l then mc_length c else l in
        '(lo, st) ← pa_memchunk_make_writable lo (ma_base m) st;
        lid ← deref (mc_memblock lo);
        st ← copy_chunk cid (mc_index c) lid (u64 (mc_index lo + mc_length lo)) l st;
        let lo := mk_chunk (Some lid) (mc_index lo) (u64 (mc_length lo + l)) in
        _ ← pa_assert (mc_length lo <=? ma_base m);
        blen ← pa_memblock_get_length lid st;
        _ ← pa_assert (mc_length lo <=? blen);
        if l <? mc_length c then
          (* Save the remainder of the memory block *)
          let cur := mk_chunk (Some cid) (u64 (mc_index c + l)) (u64 (mc_length c - l)) in
          st ← pa_memblock_ref cid st;
          Ok (mk_mcalign (ma_base m) lo cur, st)
        else Ok (mk_mcalign (ma_base m) lo (ma_current m), st)
  | None =>
      st ← pa_memblock_ref cid st;
      if ma_base m <=? mc_length c
      then Ok (mk_mcalign (ma_base m) lo c, st)
      else Ok (mk_mcalign (ma_base m) c (ma_current m), st)
  end.

(** [pa_mcalign_pop]: [None] for the return value -1. *)
Definition pa_mcalign_pop (m : pa_mcalign) (st : store)
    : outcome (option pa_memchunk * (pa_mcalign * store)) :=
  let lo := ma_leftover m in
  let cur := ma_current m in
  if isset lo then
    _ ← pa_assert (0 <? mc_length lo);
    _ ← pa_assert (mc_length lo <=? ma_base m);
    if mc_length lo <? ma_base m then Ok (None, (m, st))
    else if isset cur && (mc_length cur <? ma_base m)
    then Ok (Some lo, (mk_mcalign (ma_base m) cur pa_memchunk_reset, st))
    else Ok (Some lo, (mk_mcalign (ma_base m) pa_memchunk_reset cur, st))
  else
    match mc_memblock cur with
    | Some id =>
        _ ← pa_assert (ma_base m <=? mc_length cur);
        let l := u64 (mc_length cur / ma_base m * ma_base m) in
        _ ← pa_assert (0 <? l);
        st ← pa_memblock_ref id st;
        let c := mk_chunk (Some id) (mc_index cur) l in
        _ ← pa_assert (l <=? mc_length cur);
        let cur := mk_chunk (Some id) (u64 (mc_index cur + l)) (u64 (mc_length cur - l)) in
        if mc_length cur =? 0 then
          st ← pa_memblock_unref id st;
          Ok (Some c, (mk_mcalign (ma_base m) lo pa_memchunk_reset, st))
        else
          _ ← pa_assert ((mc_length cur <? ma_base m) && negb (isset lo));
          Ok (Some c, (mk_mcalign (ma_base m) cur pa_memchunk_reset, st))
    | None => Ok (None, (m, st))
    end.

Definition pa_mcalign_csize (m : pa_mcalign) (l : Z) : outcome Z :=
  _ ← pa_assert (0 <? l);
  _ ← pa_assert (negb (isset (ma_current m)));
  let l := if isset (ma_leftover m) then u64 (l + mc_length (ma_leftover m)) else l in
  Ok (u64 (l / ma_base m * ma_base m)).

(** [while (pa_mcalign_pop(m, &chunk) >= 0) pa_memblock_unref(chunk.memblock)],
    with an iteration bound; three rounds always suffice
    (see [pa_mcalign_pop_spec]). *)
Fixpoint mcalign_flush_loop (fuel : nat) (m : pa_mcalign) (st : store)
    : outcome (pa_mcalign * store) :=
  match fuel with
  | O => UB
  | S fuel =>
      '(r, (m, st)) ← pa_mcalign_pop m st;
      match r with
      | None => Ok (m, st)
      | Some c =>
          id ← deref (mc_memblock c);
          st ← pa_memblock_unref id st;
          mcalign_flush_loop fuel m st
      end
  end.

Definition pa_mcalign_flush (m : pa_mcalign) (st : store) : outcome (pa_mcalign * store) :=
  mcalign_flush_loop 4 m st.

(** The drain loop of a caller such as [pa_memblockq_push_align]: pop until
    nothing is left, collecting the chunks. *)
Fixpoint mcalign_drain (fuel : nat) (m : pa_mcalign) (st : store)
    : outcome (list pa_memchunk * (pa_mcalign * store)) :=
  match fuel with
  | O => UB
  | S fuel =>
      '(r, (m, st)) ← pa_mcalign_pop m st;
      match r with
      | None => Ok ([], (m, st))
      | Some c =>
          '(cs, s) ← mcalign_drain fuel m st;
          Ok (c :: cs, s)
      end
  end.

(** ** Specification *)

(** The bytes waiting in the aligner, in stream order, and the references it
    holds. *)
Definition pending (st : store) (m : pa_mcalign) : list cell :=
  chunk_bytes st (ma_leftover m) ++ chunk_bytes st (ma_current m).

Definition held (m : pa_mcalign) (j : Z) : Z :=
  chunk_refs (ma_leftover m) j + chunk_refs (ma_current m) j.

(** States between a push and the last pop. *)
Record ready (m : pa_mcalign) (st : store) : Prop := {
  ready_base : 0 < ma_base m < 2 ^ 31;
  ready_lo : isset (ma_leftover m) = true ->
    chunk_in st (ma_leftover m) /\ mc_length (ma_leftover m) <= ma_base m;
  ready_cur : isset (ma_current m) = true -> chunk_in st (ma_current m);
  ready_cur_lo : isset (ma_current m) = true -> isset (ma_leftover m) = true ->
    mc_length (ma_leftover m) = ma_base m;
  ready_cur_nolo : isset (ma_current m) = true -> isset (ma_leftover m) = false ->
    ma_base m <= mc_length (ma_current m)
}.

(** States after the last pop: less than a frame is left over. *)
Definition idle (m : pa_mcalign) (st : store) : Prop :=
  ready m st /\ isset (ma_current m) = false /\
  (isset (ma_leftover m) = true -> mc_length (ma_leftover m) < ma_base m).

(** How many pops will succeed. *)
Definition rank (m : pa_mcalign) : nat :=
  (if isset (ma_leftover m) && (mc_length (ma_leftover m) =? ma_base m) then 1 else 0)
  + (if isset (ma_current m) && (ma_base m <=? mc_length (ma_current m)) then 1 else 0).

Lemma isset_true c : isset c = true -> exists id, mc_memblock c = Some id.
Proof. unfold isset. intros H. by apply bool_decide_eq_true in H as [id H]; eauto. Qed.

Lemma isset_false c : isset c = false -> mc_memblock c = None.
Proof. unfold isset. intros H. apply bool_decide_eq_false in H. by apply eq_None_not_Some. Qed.

Lemma isset_some c id : mc_memblock c = Some id -> isset c = true.
Proof. intros E. unfold isset. apply bool_decide_eq_true. by rewrite E; eauto. Qed.

Lemma unset_refs c j : isset c = false -> chunk_refs c j = 0.
Proof. intros H%isset_false. unfold chunk_refs. by rewrite H. Qed.

Lemma unset_bytes st c : isset c = false -> chunk_bytes st c = [].
Proof. intros H%isset_false. unfold chunk_bytes. by rewrite H. Qed.

(** One pop: either nothing is complete and the state is idle, or a chunk of
    whole frames comes out, which with what stays pending is what was pending,
    and whose reference passes to the caller. *)
Lemma pa_mcalign_pop_spec m st :
  store_ok st -> ready m st -> (forall j, held m j <= refs st j) ->
  exists r m' st', pa_mcalign_pop m st = Ok (r, (m', st')) /\
  store_ok st' /\ keeps st st' /\ st_next st' = st_next st /\
  match r with
  | None => m' = m /\ st' = st /\ idle m st /\ rank m = 0%nat
  | Some c =>
      ready m' st' /\ rank m = S (rank m') /\ ma_base m' = ma_base m /\
      chunk_in st' c /\ mc_length c mod ma_base m = 0 /\
      pending st m = chunk_bytes st' c ++ pending st' m' /\
      (forall j, refs st' j = refs st j - held m j + held m' j + chunk_refs c j)
  end.
Proof.
  intros Hok Hr Hh. pose proof Hr as [Hb Hlo Hcur Hcl Hcn]. unfold pa_mcalign_pop.
  destruct (isset (ma_leftover m)) eqn:El.
  - destruct (Hlo eq_refl) as [Hin Hle]. pose proof (chunk_in_bound _ _ Hok Hin).
    rewrite !pa_assert_true by lia. simpl.
    destruct (Z.ltb_spec (mc_length (ma_leftover m)) (ma_base m)).
    + (* an incomplete frame *)
      assert (isset (ma_current m) = false) as Ec.
      { destruct (isset (ma_current m)); [|done]. specialize (Hcl eq_refl eq_refl). lia. }
      eexists _, _, _. split; [done|]. split_and!; auto using keeps_refl.
      * by split.
      * unfold rank. rewrite El, Ec. simpl. rewrite (proj2 (Z.eqb_neq _ _)) by lia. done.
    + (* the leftover frame is complete *)
      assert (mc_length (ma_leftover m) = ma_base m) as Eb by lia.
      assert (mc_length (ma_leftover m) mod ma_base m = 0) as Emod
        by (rewrite Eb; apply Z_mod_same_full).
      destruct (isset (ma_current m)) eqn:Ec; simpl;
        [specialize (Hcur eq_refl);
         destruct (Z.ltb_spec (mc_length (ma_current m)) (ma_base m))|];
        (eexists _, _, _; split; [done|]; split_and!; auto using keeps_refl; simpl; try done).
      all: try (unfold rank; simpl; rewrite El, Ec, Eb, Z.eqb_refl; simpl; bsplit; done).
      all: try (split; simpl; rewrite ?Ec; intros; try discriminate; try done; (split; [done|lia])).
      all: unfold pending, held; simpl; rewrite ?app_nil_r, ?(unset_bytes _ _ Ec); try done.
      all: intros; rewrite (unset_refs pa_memchunk_reset) by done; lia.
  - destruct (mc_memblock (ma_current m)) as [id|] eqn:Em.
    + pose proof (isset_some _ _ Em) as Ec. specialize (Hcur Ec). specialize (Hcn Ec eq_refl).
      pose proof (chunk_in_bound _ _ Hok Hcur) as Hbd.
      pose proof (round_down_le (mc_length (ma_current m)) (ma_base m) ltac:(lia) ltac:(lia)) as Hrd.
      pose proof (round_down_lt (mc_length (ma_current m)) (ma_base m) ltac:(lia)) as Hrl.
      rewrite (u64_small (_ / _ * _)) by lia.
      set (l := mc_length (ma_current m) / ma_base m * ma_base m) in *.
      assert (ma_base m <= l) as Hl.
      { subst l. pose proof (Z.div_le_lower_bound (mc_length (ma_current m)) (ma_base m) 1). nia. }
      assert (0 < refs st id) as Hrid.
      { specialize (Hh id). unfold held in Hh. rewrite (chunk_refs_some _ _ Em) in Hh.
        pose proof (chunk_refs_nonneg (ma_leftover m) id). lia. }
      destruct (pa_memblock_ref_spec _ _ Hok Hrid) as (st1 & E1 & Hok1 & K1 & R1).
      rewrite (pa_assert_true (ma_base m <=? _)), (pa_assert_true (0 <? l)) by lia. simpl.
      rewrite E1. simpl. rewrite (pa_assert_true (l <=? _)) by lia. simpl.
      rewrite (u64_small (mc_index _ + l)), (u64_small (mc_length _ - l)) by lia.
      assert (chunk_in st1 (ma_current m) /\ chunk_bytes st1 (ma_current m) = chunk_bytes st (ma_current m))
        as [Hin1 Eb1].
      { apply (chunk_in_keeps st); try done. intros id' Em'. rewrite Em in Em'. simplify_eq.
        rewrite R1. pose proof (delta_nonneg id' 1 id'). lia. }
      destruct Hcur as (id0 & Em0 & _ & Hidx & _). rewrite Em in Em0. injection Em0 as <-.
      destruct Hin1 as (id0 & Em0 & Hr1 & _ & _ & Hlen1). rewrite Em in Em0. injection Em0 as <-.
      set (c := mk_chunk (Some id) (mc_index (ma_current m)) l).
      set (cur := mk_chunk (Some id) (mc_index (ma_current m) + l) (mc_length (ma_current m) - l)).
      pose proof (chunk_bytes_split st1 (ma_current m) id l Em ltac:(lia) ltac:(lia)) as Esplit.
      fold c in Esplit. fold cur in Esplit.
      assert (pending st m = chunk_bytes st1 c ++ chunk_bytes st1 cur) as Ep.
      { unfold pending. rewrite (unset_bytes _ _ El), <- Eb1. done. }
      assert (chunk_in st1 c) as Hc1 by (exists id; simpl; split_and!; done || lia).
      assert (forall j, refs st1 j = refs st j - held m j + chunk_refs cur j + chunk_refs c j) as Hrefs.
      { intros j. rewrite R1. unfold held. rewrite (unset_refs _ _ El). unfold chunk_refs.
        rewrite Em. simpl. lia. }
      assert (l mod ma_base m = 0) as Hmod by (apply round_down_mod; lia).
      assert (rank m = 1%nat) as Erank.
      { unfold rank. rewrite El, Ec. simpl. by rewrite (proj2 (Z.leb_le _ _)) by lia. }
      simpl. destruct (Z.eqb_spec (mc_length (ma_current m) - l) 0) as [Ez|Ez].
      * assert (0 < refs st1 id) as Hr1' by lia.
        destruct (pa_memblock_unref_spec _ _ Hok1 Hr1') as (st2 & E2 & Hok2 & K2 & N2 & R2).
        rewrite E2. simpl. eexists _, _, _. split; [done|].
        assert (0 < refs st2 id) as Hr2.
        { rewrite R2, R1. unfold delta. rewrite !decide_True by done. lia. }
        destruct (chunk_in_keeps st1 st2 c K2 Hc1) as [Hc2 Eb2].
        { simpl. by intros ? [= <-]. }
        assert (chunk_bytes st1 cur = []) as Ecur.
        { unfold chunk_bytes; simpl. unfold sub_list. rewrite Ez. done. }
        split_and!; try done.
        -- by apply (keeps_trans _ st1); try apply Hok; try apply Hok1.
        -- rewrite N2. by apply (pa_memblock_ref_next _ _ _ E1).
        -- split; simpl; rewrite ?El; done.
        -- rewrite Erank. unfold rank. simpl. by rewrite El.
        -- rewrite Ep, Eb2, Ecur. unfold pending. simpl.
           by rewrite (unset_bytes _ _ El).
        -- intros j. rewrite R2, Hrefs. unfold held. simpl.
           rewrite (unset_refs (ma_leftover m)), (unset_refs pa_memchunk_reset) by done.
           change (chunk_refs cur j) with (delta id 1 j). change (-1) with (- (1)). rewrite delta_opp. lia.
      * rewrite pa_assert_true by (simpl; lia). simpl.
        eexists _, _, _. split; [done|]. split_and!; try done.
        -- by apply (pa_memblock_ref_next _ _ _ E1).
        -- split; simpl; try done. intros _. split; [|lia].
           exists id. simpl. split_and!; done || lia.
        -- rewrite Erank. unfold rank. simpl.
           rewrite (proj2 (Z.eqb_neq _ _)) by lia. done.
        -- rewrite Ep. unfold pending. simpl. by rewrite app_nil_r.
        -- intros j. rewrite Hrefs. unfold held. simpl.
           rewrite (unset_refs pa_memchunk_reset) by done. fold cur. lia.
    + assert (isset (ma_current m) = false) as Ec by (unfold isset; by rewrite Em).
      eexists _, _, _. split; [done|]. split_and!; auto using keeps_refl.
      * split_and!; [done..|]. intros. congruence.
      * unfold rank. by rewrite El, Ec.
Qed.

(** The sum of the references of a list of chunks. *)
Definition chunks_refs (cs : list pa_memchunk) (j : Z) : Z :=
  sumZ ((fun c => chunk_refs c j) <$> cs).

Lemma chunks_refs_cons c cs j : chunks_refs (c :: cs) j = chunk_refs c j + chunks_refs cs j.
Proof. done. Qed.

Lemma chunks_refs_nonneg cs j : 0 <= chunks_refs cs j.
Proof.
  apply sumZ_nonneg, Forall_fmap, Forall_true. intros. apply chunk_refs_nonneg.
Qed.

Lemma chunks_refs_in cs c id : c ∈ cs -> mc_memblock c = Some id -> 0 < chunks_refs cs id.
Proof.
  induction cs as [|c' cs IH]; [by intros ?%elem_of_nil|].
  rewrite chunks_refs_cons. pose proof (chunk_refs_nonneg c' id). pose proof (chunks_refs_nonneg cs id).
  intros [->|Hin]%elem_of_cons Hm; [rewrite (chunk_refs_some _ _ Hm)|specialize (IH Hin Hm)]; lia.
Qed.

(** Draining to the end: with enough iterations the loop stops in an idle
    state, having produced whole frames only, in order and with their
    references. *)
Lemma mcalign_drain_spec fuel m st :
  store_ok st -> ready m st -> (forall j, held m j <= refs st j) -> (rank m < fuel)%nat ->
  exists cs m' st', mcalign_drain fuel m st = Ok (cs, (m', st')) /\
    store_ok st' /\ keeps st st' /\ idle m' st' /\ ma_base m' = ma_base m /\
    Forall (fun c => chunk_in st' c /\ mc_length c mod ma_base m = 0) cs /\
    pending st m = concat (chunk_bytes st' <$> cs) ++ pending st' m' /\
    (forall j, refs st' j = refs st j - held m j + held m' j + chunks_refs cs j).
Proof.
  revert m st. induction fuel as [|fuel IH]; intros m st Hok Hr Hh Hf; [lia|]. simpl.
  destruct (pa_mcalign_pop_spec m st Hok Hr Hh) as (r & m1 & st1 & E & Hok1 & K1 & _ & Hpop).
  rewrite E. simpl. destruct r as [c|].
  - destruct Hpop as (Hr1 & Hrk & Eb & Hin & Hmod & Hp & Hrefs).
    destruct (IH m1 st1) as (cs & m2 & st2 & E2 & Hok2 & K2 & Hidle & Eb2 & Hall & Hp2 & Hrefs2);
      try done; try lia.
    { intros j. specialize (Hh j). rewrite Hrefs. pose proof (chunk_refs_nonneg c j). lia. }
    rewrite E2. simpl. exists (c :: cs), m2, st2.
    assert (forall j, refs st2 j = refs st j - held m j + held m2 j + chunks_refs (c :: cs) j) as R.
    { intros j. rewrite Hrefs2, Hrefs, chunks_refs_cons. lia. }
    destruct (chunk_in_keeps st1 st2 c K2 Hin) as [Hin2 Eb'].
    { intros id Em. specialize (Hh id). rewrite R, chunks_refs_cons, (chunk_refs_some _ _ Em).
      pose proof (chunks_refs_nonneg cs id).
      assert (0 <= held m2 id) by (unfold held; pose proof (chunk_refs_nonneg (ma_leftover m2) id);
        pose proof (chunk_refs_nonneg (ma_current m2) id); lia). lia. }
    split_and!; try done.
    + apply (keeps_trans _ st1); try done; [apply Hok|apply Hok1].
    + congruence.
    + constructor; [done|]. by rewrite <- Eb.
    + rewrite Hp, Hp2. simpl. by rewrite Eb', app_assoc.
  - destruct Hpop as (-> & -> & Hi & _). exists [], m, st.
    split_and!; auto. intros j. unfold chunks_refs. simpl. lia.
Qed.

Lemma held_nonneg m j : 0 <= held m j.
Proof.
  unfold held. pose proof (chunk_refs_nonneg (ma_leftover m) j).
  pose proof (chunk_refs_nonneg (ma_current m) j). lia.
Qed.

(** What a push achieves: the chunk's bytes are appended to the pending ones,
    the aligner's references change with what it holds, and every block that
    someone else also references keeps its bytes. *)
Definition pushed (m : pa_mcalign) (c : pa_memchunk) (st : store) (m' : pa_mcalign) (st' : store)
    : Prop :=
  store_ok st' /\ ready m' st' /\ ma_base m' = ma_base m /\
  pending st' m' = pending st m ++ chunk_bytes st c /\
  (forall j, refs st' j = refs st j - held m j + held m' j) /\
  (forall j, held m j < refs st j -> bytes st' j = bytes st j).

Section push.
Context (m : pa_mcalign) (c : pa_memchunk) (st : store) (cid : Z).
Context (Hok : store_ok st) (Hidle : idle m st) (Hin : chunk_in st c).
Context (Hcid : mc_memblock c = Some cid).
Context (Hown : forall j, held m j + chunk_refs c j <= refs st j).
Context (Hsum : msum mb_length (st_blocks st) + ma_base m < 2 ^ 31).

Lemma push_unset : isset (ma_leftover m) = false ->
  exists m' st', pa_mcalign_push m c st = Ok (m', st') /\ pushed m c st m' st'.
Proof.
  intros El. destruct Hidle as (Hr & Ec & _). pose proof (ready_base _ _ Hr).
  pose proof (chunk_in_bound _ _ Hok Hin). pose proof (isset_some _ _ Hcid) as Es.
  assert (0 < refs st cid) as Hrc.
  { specialize (Hown cid). rewrite (chunk_refs_some _ _ Hcid) in Hown.
    pose proof (held_nonneg m cid). lia. }
  destruct (pa_memblock_ref_spec _ _ Hok Hrc) as (st1 & E1 & Hok1 & K1 & R1).
  destruct (chunk_in_keeps _ _ c K1 Hin) as [Hin1 Eb1].
  { intros id E. rewrite Hcid in E. injection E as <-. rewrite R1.
    pose proof (delta_nonneg cid 1 cid). lia. }
  unfold pa_mcalign_push. rewrite Es, Ec, Hcid, (isset_false _ El).
  rewrite (pa_assert_true (0 <? _)) by lia. simpl. rewrite E1. simpl.
  assert (forall j, held m j < refs st j -> bytes st1 j = bytes st j) as HB.
  { intros j Hj. apply K1; [pose proof (held_nonneg m j); lia|]. rewrite R1.
    pose proof (held_nonneg m j). pose proof (delta_nonneg cid 1 j). lia. }
  destruct (Z.leb_spec (ma_base m) (mc_length c)); (eexists _, _; split; [done|]; split_and!; try done).
  all: try (split; simpl; rewrite ?El, ?Ec; intros; try discriminate; try done; (split; [done|lia])).
  all: unfold pending, held; simpl; rewrite ?(unset_bytes _ _ El), ?(unset_bytes _ _ Ec), ?app_nil_r;
    try done.
  all: intros; rewrite ?(unset_refs _ _ El), ?(unset_refs _ _ Ec), R1;
    unfold chunk_refs; rewrite Hcid; lia.
Qed.

Lemma push_merge lid : mc_memblock (ma_leftover m) = Some lid ->
  lid = cid -> mc_index (ma_leftover m) + mc_length (ma_leftover m) = mc_index c ->
  exists m' st', pa_mcalign_push m c st = Ok (m', st') /\ pushed m c st m' st'.
Proof.
  intros El -> Hadj. destruct Hidle as (Hr & Ec & Hlt). pose proof (ready_base _ _ Hr).
  pose proof (isset_some _ _ El) as Els. specialize (Hlt Els).
  destruct (ready_lo _ _ Hr Els) as [Hlo _].
  pose proof (chunk_in_bound _ _ Hok Hin). pose proof (chunk_in_bound _ _ Hok Hlo).
  pose proof (isset_some _ _ Hcid) as Es.
  unfold pa_mcalign_push. rewrite Es, Ec, Hcid, El.
  rewrite (pa_assert_true (0 <? _)) by lia. cbn. rewrite Z.eqb_refl. cbn.
  rewrite (u64_small (mc_index _ + _)) by lia. rewrite (proj2 (Z.eqb_eq _ _) Hadj).
  rewrite u64_small by lia. cbn.
  set (lo := mk_chunk (Some cid) (mc_index (ma_leftover m))
               (mc_length (ma_leftover m) + mc_length c)).
  destruct Hin as (i1 & E1 & ? & ? & ? & ?). rewrite Hcid in E1. injection E1 as <-.
  destruct Hlo as (i2 & E2 & ? & ? & ? & ?). rewrite El in E2. injection E2 as <-.
  assert (chunk_in st lo) as Hlo' by (exists cid; simpl; split_and!; done || lia).
  assert (chunk_bytes st lo = chunk_bytes st (ma_leftover m) ++ chunk_bytes st c) as Eb.
  { unfold chunk_bytes. simpl. rewrite El, Hcid, sub_list_app by lia. by rewrite Hadj. }
  destruct (Z.leb_spec (ma_base m) (mc_length (ma_leftover m) + mc_length c));
    (eexists _, _; split; [done|]; split_and!; try done).
  all: try (split; simpl; rewrite ?Ec; intros; try discriminate; try done; (split; [done|simpl; lia])).
  all: unfold pending, held; simpl; fold lo; rewrite ?Eb, ?(unset_bytes _ _ Ec), ?app_nil_r; try done.
  all: intros; rewrite ?(unset_refs _ _ Ec); unfold chunk_refs; rewrite El; simpl; lia.
Qed.
(** The copying case, up to the copy itself: a private block holds the
    leftover followed by [l] bytes of the chunk. *)
Lemma push_copy_block lid l : mc_memblock (ma_leftover m) = Some lid ->
  0 < l <= mc_length c -> mc_length (ma_leftover m) + l <= ma_base m ->
  exists idx lid' b st1 st2,
    pa_memchunk_make_writable (ma_leftover m) (ma_base m) st
      = Ok (mk_chunk (Some lid') idx (mc_length (ma_leftover m)), st1) /\
    copy_chunk cid (mc_index c) lid' (u64 (idx + mc_length (ma_leftover m))) l st1 = Ok st2 /\
    store_ok st2 /\ 0 <= idx /\ st_blocks st2 !! lid' = Some b /\
    idx + ma_base m <= mb_length b /\
    chunk_bytes st2 (mk_chunk (Some lid') idx (mc_length (ma_leftover m) + l))
      = chunk_bytes st (ma_leftover m) ++ sub_list (mc_index c) l (bytes st cid) /\
    (forall j, refs st2 j = refs st j - held m j + delta lid' 1 j) /\
    (forall j, held m j < refs st j -> bytes st2 j = bytes st j).
Proof.
  intros El Hl Hle. destruct Hidle as (Hr & Ec & Hlt). pose proof (ready_base _ _ Hr) as Hb.
  pose proof (isset_some _ _ El) as Els. specialize (Hlt Els).
  destruct (ready_lo _ _ Hr Els) as [Hlo _]. pose proof (chunk_in_bound _ _ Hok Hlo) as Hlb.
  destruct Hlo as (i2 & E2 & Hlr & Hli & Hll & Hlbd). rewrite El in E2. injection E2 as <-.
  destruct Hin as (i1 & E1 & Hcr & Hci & Hcl & Hcbd). rewrite Hcid in E1. injection E1 as <-.
  destruct (pa_memchunk_make_writable_spec st (ma_leftover m) lid (ma_base m)) as
    (lo1 & st1 & lid1 & Emw & Hok1 & Em1 & Elen & Hidx & Ebytes & Hcap & Hone & Hfresh & R1 & B1 & _ & _);
    try done; try lia.
  assert (forall j, refs st1 j = refs st j - held m j + delta lid1 1 j) as R1'.
  { intros j. rewrite R1. unfold held. rewrite (unset_refs _ _ Ec). unfold chunk_refs.
    rewrite El. change (-1) with (- (1)). rewrite delta_opp. lia. }
  pose proof (Hown cid) as Hoc. rewrite (chunk_refs_some _ _ Hcid) in Hoc.
  assert (cid <> lid1) as Hne.
  { intros <-. specialize (R1' cid). unfold delta in R1'. rewrite decide_True in R1' by done.
    lia. }
  assert (0 < refs st1 cid) as Hcr1.
  { rewrite R1'. unfold delta. rewrite decide_False by done. lia. }
  assert (bytes st1 cid = bytes st cid) as Ebc by (by apply B1).
  pose proof Hok1 as [Hwf1 _].
  apply refs_alive in Hcr1 as [bc Hbc]; [|done].
  assert (0 < refs st1 lid1) as Hlr1 by lia. apply refs_alive in Hlr1 as [bl Hbl]; [|done].
  assert (bytes st1 cid = mb_data bc) as Edc by (unfold bytes; by rewrite Hbc).
  assert (bytes st1 lid1 = mb_data bl) as Edl by (unfold bytes; by rewrite Hbl).
  rewrite Edl in Hcap. pose proof (bwf_len _ _ (wf_block _ Hwf1 _ _ Hbl)) as Ebl.
  pose proof (wf_len_int _ Hwf1 _ _ Hbl) as Hbi.
  assert (length (sub_list (mc_index c) l (mb_data bc)) = Z.to_nat l) as Esl.
  { apply sub_list_length; rewrite <- ?Edc, ?Ebc; lia. }
  destruct (splice_some (mc_index lo1 + mc_length lo1) (sub_list (mc_index c) l (mb_data bc))
    (mb_data bl)) as [d Hd]; [lia|lia|].
  destruct lo1 as [mb1 idx len1]. simpl in *. subst mb1 len1.
  exists idx, lid1, (with_data d bl), st1, (set_block lid1 (with_data d bl) st1).
  split; [done|]. rewrite u64_small by lia.
  rewrite (copy_chunk_eq st1 cid lid1 (mc_index c) _ l bc bl d)
    by (done || (rewrite <- ?Edc, ?Ebc; lia)).
  split; [done|]. split_and!.
  - eapply copy_ok; [exact Hwf1|exact Hbl|exact Hd|exact Hok1].
  - done.
  - simpl. by rewrite lookup_insert_eq.
  - simpl. lia.
  - pose proof (splice_prefix _ idx _ _ _ Hd ltac:(lia)) as Hp.
    rewrite Esl in Hp. replace (idx + mc_length (ma_leftover m) - idx + Z.of_nat (Z.to_nat l))
      with (mc_length (ma_leftover m) + l) in Hp by lia.
    replace (idx + mc_length (ma_leftover m) - idx) with (mc_length (ma_leftover m)) in Hp by lia.
    unfold chunk_bytes at 1. simpl. rewrite bytes_set_block, decide_True by done. simpl.
    rewrite Hp. rewrite <- Ebytes. unfold chunk_bytes. simpl. by rewrite Edl, <- Ebc, Edc.
  - intros j. rewrite refs_set_block, <- R1'. case_decide; [|done]. subst. simpl.
    unfold refs. by rewrite Hbl.
  - intros j Hj. rewrite bytes_set_block. case_decide as Ej.
    + exfalso. specialize (R1' j). unfold delta in R1'. rewrite decide_True in R1' by done.
      subst. lia.
    + apply B1; [done|]. rewrite R1'. pose proof (delta_nonneg lid1 1 j). lia.
Qed.

Lemma push_copy lid : mc_memblock (ma_leftover m) = Some lid ->
  ~ (lid = cid /\ mc_index (ma_leftover m) + mc_length (ma_leftover m) = mc_index c) ->
  exists m' st', pa_mcalign_push m c st = Ok (m', st') /\ pushed m c st m' st'.
Proof.
  intros El Hno. pose proof Hidle as (Hr & Ec & Hlt). pose proof (ready_base _ _ Hr) as Hb.
  pose proof (isset_some _ _ El) as Els. specialize (Hlt Els).
  destruct (ready_lo _ _ Hr Els) as [Hlo _]. pose proof (chunk_in_bound _ _ Hok Hlo) as Hlb.
  pose proof (chunk_in_bound _ _ Hok Hin) as Hcb. pose proof (isset_some _ _ Hcid) as Es.
  unfold pa_mcalign_push. rewrite Es, Ec, Hcid, El, (pa_assert_true (0 <? _)) by lia. cbn.
  rewrite (u64_small (mc_index _ + _)) by lia.
  replace ((lid =? cid) && _) with false
    by (symmetry; apply andb_false_iff; rewrite !Z.eqb_neq; lia).
  rewrite (pa_assert_true (_ <? ma_base m)), (u64_small (ma_base m - _)) by lia. cbn.
  set (l := if mc_length c <? ma_base m - mc_length (ma_leftover m) then mc_length c
            else ma_base m - mc_length (ma_leftover m)).
  assert (0 < l <= mc_length c /\ l <= ma_base m - mc_length (ma_leftover m) /\
    (l < mc_length c -> l = ma_base m - mc_length (ma_leftover m))) as (Hl & Hl2 & Hl3)
    by (subst l; destruct (Z.ltb_spec (mc_length c) (ma_base m - mc_length (ma_leftover m))); lia).
  clearbody l.
  destruct (push_copy_block lid l El Hl ltac:(lia)) as
    (idx & lid' & b & st1 & st2 & Emw & Ecp & Hok2 & Hidx & Hbl & Hcap & Ebytes & R2 & B2).
  rewrite Emw. cbn. rewrite Ecp. cbn.
  pose proof Hok2 as [Hwf2 _]. pose proof (wf_len_int _ Hwf2 _ _ Hbl) as Hbi.
  rewrite (u64_small (_ + l)), pa_assert_true by lia. cbn.
  unfold pa_memblock_get_length. rewrite (get_block_ok _ Hwf2 _ _ Hbl). cbn.
  rewrite pa_assert_true by lia. cbn.
  set (lo := mk_chunk (Some lid') idx (mc_length (ma_leftover m) + l)) in *.
  pose proof (Hown cid) as Hoc. rewrite (chunk_refs_some _ _ Hcid) in Hoc.
  assert (bytes st2 cid = bytes st cid) as Ebc by (apply B2; lia).
  destruct Hin as (i1 & E1 & Hcr & Hci & Hcl & Hcbd). rewrite Hcid in E1. injection E1 as <-.
  assert (chunk_in st2 lo) as Hlo2.
  { exists lid'. unfold refs, bytes. rewrite Hbl. simpl.
    pose proof (wf_block _ Hwf2 _ _ Hbl) as []. split_and!; done || lia. }
  destruct (Z.ltb_spec l (mc_length c)) as [Hlc|Hlc].
  - specialize (Hl3 Hlc).
    rewrite (u64_small (mc_index c + l)), (u64_small (mc_length c - l)) by lia.
    set (cur := mk_chunk (Some cid) (mc_index c + l) (mc_length c - l)).
    assert (0 < refs st2 cid) as Hrc2 by (rewrite R2; pose proof (delta_nonneg lid' 1 cid); lia).
    destruct (pa_memblock_ref_spec _ _ Hok2 Hrc2) as (st3 & E3 & Hok3 & K3 & R3). rewrite E3. cbn.
    assert (chunk_in st2 cur) as Hcur2.
    { exists cid. simpl. rewrite Ebc. split_and!; done || lia. }
    assert (forall i, 0 < refs st2 i -> 0 < refs st3 i) as Hmono.
    { intros i Hi. rewrite R3. pose proof (delta_nonneg cid 1 i). lia. }
    destruct (chunk_in_keeps _ _ lo K3 Hlo2) as [Hlo3 Elo3].
    { intros id [= <-]. apply Hmono. destruct Hlo2 as (? & [= <-] & ? & _). done. }
    destruct (chunk_in_keeps _ _ cur K3 Hcur2) as [Hcur3 Ecur3].
    { intros id [= <-]. by apply Hmono. }
    eexists _, _. split; [done|]. split_and!; try done.
    + split; simpl; try done; try (intros; discriminate); [intros; split; [done|lia]|intros; lia].
    + unfold pending. simpl. fold lo cur. rewrite Elo3, Ecur3, Ebytes, (unset_bytes _ _ Ec), app_nil_r.
      rewrite <- app_assoc. f_equal. unfold chunk_bytes. simpl. rewrite Hcid, Ebc.
      rewrite <- sub_list_app by lia. f_equal. lia.
    + intros j. rewrite R3, R2. unfold held, chunk_refs. simpl. lia.
    + intros j Hj. rewrite <- (B2 j Hj). apply K3; [|apply Hmono];
        rewrite R2; pose proof (delta_nonneg lid' 1 j); lia.
  - assert (l = mc_length c) as -> by lia. eexists _, _. split; [done|]. split_and!; try done.
    + split; simpl; rewrite ?Ec; try done. intros. split; [done|lia].
    + unfold pending. simpl. fold lo. rewrite Ebytes, !(unset_bytes _ _ Ec), !app_nil_r.
      unfold chunk_bytes. by rewrite Hcid.
    + intros j. rewrite R2. unfold held. simpl. rewrite !(unset_refs _ _ Ec). unfold chunk_refs.
      simpl. lia.
Qed.
End push.

Lemma pa_mcalign_push_spec m c st :
  store_ok st -> idle m st -> chunk_in st c ->
  (forall j, held m j + chunk_refs c j <= refs st j) ->
  msum mb_length (st_blocks st) + ma_base m < 2 ^ 31 ->
  exists m' st', pa_mcalign_push m c st = Ok (m', st') /\ pushed m c st m' st'.
Proof.
  intros Hok Hi Hin Hown Hsum. destruct (id Hin) as (cid & Hcid & _).
  destruct (mc_memblock (ma_leftover m)) as [lid|] eqn:El.
  - destruct (decide (lid = cid /\ mc_index (ma_leftover m) + mc_length (ma_leftover m)
      = mc_index c)) as [[? ?]|Hno].
    + by apply (push_merge m c st cid Hok Hi Hin Hcid lid).
    + by apply (push_copy m c st cid Hok Hi Hin Hcid Hown Hsum lid).
  - apply (push_unset m c st cid); try done. unfold isset. by rewrite El.
Qed.

(** ** Properties *)

(** C35: pushing a chunk into an idle aligner and popping until nothing comes
    out terminates (after at most three pops), returns only chunks whose length
    is a positive multiple of the base, keeps less than one frame for later,
    and the returned bytes followed by the kept ones are exactly the bytes that
    were kept before followed by the chunk's: the stream is neither lost,
    duplicated nor reordered.  Every block reference is accounted for: the
    caller gets one per returned chunk and the aligner keeps one for its
    leftover. *)
Theorem mcalign_stream m c st :
  store_ok st -> idle m st -> chunk_in st c ->
  (forall j, held m j + chunk_refs c j <= refs st j) ->
  msum mb_length (st_blocks st) + ma_base m < 2 ^ 31 ->
  exists m1 st1 cs m' st',
    pa_mcalign_push m c st = Ok (m1, st1) /\ mcalign_drain 3 m1 st1 = Ok (cs, (m', st')) /\
    store_ok st' /\ idle m' st' /\ ma_base m' = ma_base m /\
    Forall (fun r => chunk_in st' r /\ mc_length r mod ma_base m = 0) cs /\
    concat (chunk_bytes st' <$> cs) ++ chunk_bytes st' (ma_leftover m')
      = chunk_bytes st (ma_leftover m) ++ chunk_bytes st c /\
    (forall j, refs st' j = refs st j - held m j + held m' j + chunks_refs cs j).
Proof.
  intros Hok Hi Hin Hown Hsum.
  destruct (pa_mcalign_push_spec m c st) as (m1 & st1 & E1 & Hok1 & Hr1 & Eb1 & Hp1 & R1 & _);
    try done.
  destruct (mcalign_drain_spec 3 m1 st1) as
    (cs & m' & st' & E2 & Hok2 & _ & Hi2 & Eb2 & Hall & Hp2 & R2); try done.
  { intros j. rewrite R1. specialize (Hown j). pose proof (chunk_refs_nonneg c j). lia. }
  { unfold rank. repeat case_match; simpl; lia. }
  exists m1, st1, cs, m', st'. rewrite Eb1 in *. split_and!; try done; try congruence.
  - destruct Hi as (_ & Ec & _). destruct Hi2 as (_ & Ec2 & _).
    unfold pending in Hp1, Hp2. rewrite (unset_bytes _ _ Ec), app_nil_r in Hp1.
    rewrite (unset_bytes _ _ Ec2), app_nil_r in Hp2. congruence.
  - intros j. rewrite R2, R1. lia.
Qed.

Module MCExample.
(** A store with two four-byte blocks, 1 and 2, and an aligner of base 4 that
    holds the first three bytes of block 1. *)
Definition blk (d : list Z) : pa_memblock :=
  mk_memblock 2 PA_MEMBLOCK_APPENDED false false (Z.of_nat (length d)) (Some <$> d) (-1) 0.
Definition two (d e : list Z) : store :=
  mk_store (mk_mempool 9 65536 16 0 [] 2 8) (<[1 := blk d]> (<[2 := blk e]> ∅)) 3 true.
Definition st0 : store := two [10; 11; 12; 13] [20; 21; 22; 23].
Definition m0 : pa_mcalign := mk_mcalign 4 (mk_chunk (Some 1) 0 3) pa_memchunk_reset.
Definition c0 : pa_memchunk := mk_chunk (Some 2) 0 4.

Lemma two_ok d0 d1 d2 d3 e0 e1 e2 e3 : store_ok (two [d0; d1; d2; d3] [e0; e1; e2; e3]).
Proof.
  split; [split; simpl|].
  - intros i b Hb. rewrite !lookup_insert_Some, lookup_empty in Hb.
    destruct Hb as [[<- <-]|[_ [[<- <-]|[_ ?]]]]; [split; by vm_compute..|done].
  - intros i b Hb. rewrite !lookup_insert_Some, lookup_empty in Hb.
    destruct Hb as [[<- <-]|[_ [[<- <-]|[_ ?]]]]; [lia..|done].
  - by vm_compute.
  - by vm_compute.
  - by vm_compute.
  - lia.
  - lia.
  - constructor.
  - constructor.
  - intros i j b c Hb. rewrite !lookup_insert_Some, lookup_empty in Hb.
    destruct Hb as [[<- <-]|[_ [[<- <-]|[_ ?]]]]; done.
  - intros i b Hb _. apply not_elem_of_nil.
  - intros i b Hb. simpl in Hb. rewrite !lookup_insert_Some, lookup_empty in Hb.
    destruct Hb as [[<- <-]|[_ [[<- <-]|[_ ?]]]]; done.
Qed.

Lemma st0_ok : store_ok st0.
Proof. apply two_ok. Qed.

Lemma refs0 j : refs st0 j = if decide (j = 1) then 2 else if decide (j = 2) then 2 else 0.
Proof.
  unfold refs, st0, two. simpl. rewrite !lookup_insert, lookup_empty.
  repeat case_decide; subst; done || lia.
Qed.

Lemma ready0 : ready m0 st0.
Proof.
  split; simpl; try done. intros _. split; [|done]. exists 1. by vm_compute.
Qed.

Lemma own0 j : held m0 j + chunk_refs c0 j <= refs st0 j.
Proof.
  rewrite refs0. unfold held, chunk_refs, delta; simpl. repeat case_decide; lia.
Qed.
End MCExample.

Lemma mcalign_stream_witness :
  exists m1 st1 cs m' st',
    pa_mcalign_push MCExample.m0 MCExample.c0 MCExample.st0 = Ok (m1, st1) /\
    mcalign_drain 3 m1 st1 = Ok (cs, (m', st')) /\
    concat (chunk_bytes st' <$> cs) ++ chunk_bytes st' (ma_leftover m')
      = Some <$> [10; 11; 12; 20; 21; 22; 23].
Proof.
  destruct (mcalign_stream MCExample.m0 MCExample.c0 MCExample.st0)
    as (m1 & st1 & cs & m' & st' & H1 & H2 & _ & _ & _ & _ & H3 & _).
  - exact MCExample.st0_ok.
  - split_and!; [exact MCExample.ready0|done|done].
  - exists 2. by vm_compute.
  - exact MCExample.own0.
  - by vm_compute.
  - exists m1, st1, cs, m', st'. split_and!; [exact H1|exact H2|]. rewrite H3. by vm_compute.
Defined.
