(* ===== verification/Pstream.v ===== *)
(** * Pstream: packets and audio on a stream of bytes

    Models [src/pulsecore/pstream.c]: what clients and server send each other is cut into
    frames, a descriptor of five words and a payload, which are written to a
    socket in as many pieces as the kernel likes and put together again on the
    other side.

    Modelled is a connection without shared memory, as between two machines: blocks
    travel with their data, and frames that refer to shared memory are
    refused.  The credentials and descriptors that can go with a packet, and the ring buffer that can
    take the place of the socket, are left out.  A packet is its contents; what the
    callbacks of a stream are given is recorded as an event.  The bytes are cells,
    as in blocks: the sender does not care whether they were ever written. *)
From stdpp Require Import base tactics numbers list gmap.
From S2P Require Import Prelude Memblock Tagstruct.

Definition PA_FLAG_SHMDATA : Z := 0x80000000.
Definition PA_FLAG_SHMRELEASE : Z := 0x40000000.
Definition PA_FLAG_SHMREVOKE : Z := 0xC0000000.
Definition PA_FLAG_SHMMASK : Z := 0xFF000000.
Definition PA_FLAG_SEEKMASK : Z := 0x000000FF.

Definition PA_PSTREAM_DESCRIPTOR_LENGTH : Z := 0.
Definition PA_PSTREAM_DESCRIPTOR_CHANNEL : Z := 1.
Definition PA_PSTREAM_DESCRIPTOR_OFFSET_HI : Z := 2.
Definition PA_PSTREAM_DESCRIPTOR_OFFSET_LO : Z := 3.
Definition PA_PSTREAM_DESCRIPTOR_FLAGS : Z := 4.
Definition PA_PSTREAM_DESCRIPTOR_SIZE : Z := 20.

Definition MINIBUF_SIZE : Z := 256.
Definition FRAME_SIZE_MAX_ALLOW : Z := 1024 * 1024 * 16.
Definition PA_SEEK_RELATIVE_END : Z := 3.

Inductive item_info :=
| ITEM_PACKET (packet : list cell)
| ITEM_MEMBLOCK (chunk : pa_memchunk) (channel offset seek_mode : Z)
| ITEM_SHMRELEASE (block_id : Z)
| ITEM_SHMREVOKE (block_id : Z).

(** The descriptor is the first part of [w_minibuf]. *)
Record pstream_write := mk_pwrite {
  w_minibuf : list cell;
  w_current : option item_info;
  w_data : option (list cell);
  w_index : Z;
  w_minibuf_validsize : Z;
  w_memchunk : pa_memchunk
}.

(** [re->data] is null or the data of the packet. *)
Record pstream_read := mk_pread {
  r_descriptor : list cell;
  r_memblock : option Z;
  r_packet : option (list cell);
  r_index : Z
}.

Record pa_pstream := mk_pstream {
  ps_send_queue : list item_info;
  ps_dead : bool;
  ps_defer : bool;               (* the defer event is enabled *)
  ps_write : pstream_write;
  ps_read : pstream_read;
  ps_receive_packet_callback : bool;
  ps_receive_memblock_callback : bool;
  ps_drain_callback : bool;
  ps_die_callback : bool
}.

(** Calls of the callbacks. *)
Inductive ps_event :=
| EvPacket (packet : list cell)
| EvMemblock (channel offset seek : Z) (data : list cell)
| EvDrain
| EvDie.

Definition set_queue_ps q (p : pa_pstream) := mk_pstream q (ps_dead p) (ps_defer p) (ps_write p) (ps_read p)
  (ps_receive_packet_callback p) (ps_receive_memblock_callback p) (ps_drain_callback p) (ps_die_callback p).
Definition set_defer b (p : pa_pstream) := mk_pstream (ps_send_queue p) (ps_dead p) b (ps_write p) (ps_read p)
  (ps_receive_packet_callback p) (ps_receive_memblock_callback p) (ps_drain_callback p) (ps_die_callback p).
Definition set_write w (p : pa_pstream) := mk_pstream (ps_send_queue p) (ps_dead p) (ps_defer p) w (ps_read p)
  (ps_receive_packet_callback p) (ps_receive_memblock_callback p) (ps_drain_callback p) (ps_die_callback p).
Definition set_read r (p : pa_pstream) := mk_pstream (ps_send_queue p) (ps_dead p) (ps_defer p) (ps_write p) r
  (ps_receive_packet_callback p) (ps_receive_memblock_callback p) (ps_drain_callback p) (ps_die_callback p).

(** ** Words of a descriptor *)

(** [descriptor[k] = htonl(v)] *)
Definition set_word (k v : Z) (buf : list cell) : outcome (list cell) := deref (splice (4 * k) (Some <$> be32 v) buf).

(** [ntohl(descriptor[k])] *)
Definition get_word (k : Z) (buf : list cell) : outcome Z :=
  bs ← deref (mapM id (sub_list (4 * k) 4 buf));
  Ok (le_combine (reverse bs)).

(** ** Creating *)

Definition pa_pstream_new : pa_pstream :=
  mk_pstream [] false false
    (mk_pwrite (replicate 256 (Some 0)) None None 0 0 pa_memchunk_reset)
    (mk_pread (replicate 20 (Some 0)) None None 0)
    false false false false.

Definition pa_pstream_set_receive_packet_callback (b : bool) (p : pa_pstream) := mk_pstream (ps_send_queue p) (ps_dead p) (ps_defer p) (ps_write p) (ps_read p)
  b (ps_receive_memblock_callback p) (ps_drain_callback p) (ps_die_callback p).
Definition pa_pstream_set_receive_memblock_callback (b : bool) (p : pa_pstream) := mk_pstream (ps_send_queue p) (ps_dead p) (ps_defer p) (ps_write p) (ps_read p)
  (ps_receive_packet_callback p) b (ps_drain_callback p) (ps_die_callback p).
Definition pa_pstream_set_drain_callback (b : bool) (p : pa_pstream) := mk_pstream (ps_send_queue p) (ps_dead p) (ps_defer p) (ps_write p) (ps_read p)
  (ps_receive_packet_callback p) (ps_receive_memblock_callback p) b (ps_die_callback p).
Definition pa_pstream_set_die_callback (b : bool) (p : pa_pstream) := mk_pstream (ps_send_queue p) (ps_dead p) (ps_defer p) (ps_write p) (ps_read p)
  (ps_receive_packet_callback p) (ps_receive_memblock_callback p) (ps_drain_callback p) b.

(** ** Sending *)

Definition push_item (i : item_info) (p : pa_pstream) : pa_pstream := set_defer true (set_queue_ps (ps_send_queue p ++ [i]) p).

Definition pa_pstream_send_packet (packet : list cell) (p : pa_pstream) : pa_pstream :=
  if ps_dead p then p else push_item (ITEM_PACKET packet) p.

Definition pa_pstream_send_release (block_id : Z) (p : pa_pstream) : pa_pstream :=
  if ps_dead p then p else push_item (ITEM_SHMRELEASE block_id) p.

Definition pa_pstream_send_revoke (block_id : Z) (p : pa_pstream) : pa_pstream :=
  if ps_dead p then p else push_item (ITEM_SHMREVOKE block_id) p.

(** Every piece refers to the block and has the channel, the offset and the seek mode of the whole. *)
Fixpoint send_loop (fuel : nat) (bsm idx length channel offset seek_mode : Z) (chunk : pa_memchunk) (p : pa_pstream) (st : store)
    : outcome (pa_pstream * store) :=
  if 0 <? length then
    match fuel with
    | O => UB
    | S fuel =>
        let n := Z.min length bsm in
        b ← deref (mc_memblock chunk);
        st ← pa_memblock_ref b st;
        let i := ITEM_MEMBLOCK (mk_chunk (Some b) (mc_index chunk + idx) n) channel offset seek_mode in
        send_loop fuel bsm (idx + n) (length - n) channel offset seek_mode chunk (set_queue_ps (ps_send_queue p ++ [i]) p) st
    end
  else Ok (p, st).

Definition pa_pstream_send_memblock (channel offset seek_mode : Z) (chunk : pa_memchunk) (p : pa_pstream) (st : store) : outcome (pa_pstream * store) :=
  _ ← pa_assert (negb (channel =? 2 ^ 32 - 1));
  if ps_dead p then Ok (p, st)
  else
    '(p, st) ← send_loop (Z.to_nat (mc_length chunk)) (pa_mempool_block_size_max (st_pool st)) 0 (mc_length chunk) channel offset seek_mode chunk p st;
    Ok (set_defer true p, st).

(** [!pa_queue_isempty(p->send_queue)] *)
Definition pa_pstream_is_pending (p : pa_pstream) : bool :=
  if ps_dead p then false else bool_decide (is_Some (w_current (ps_write p))) || negb (bool_decide (ps_send_queue p = [])).

(** ** Writing *)

Definition item_free (i : item_info) (st : store) : outcome store :=
  match i with
  | ITEM_MEMBLOCK chunk _ _ _ => b ← deref (mc_memblock chunk); pa_memblock_unref b st
  | _ => Ok st
  end.

(** The descriptor before the type of the item matters. *)
Definition blank_descriptor (buf : list cell) : outcome (list cell) :=
  buf ← set_word PA_PSTREAM_DESCRIPTOR_LENGTH 0 buf;
  buf ← set_word PA_PSTREAM_DESCRIPTOR_CHANNEL (2 ^ 32 - 1) buf;
  buf ← set_word PA_PSTREAM_DESCRIPTOR_OFFSET_HI 0 buf;
  buf ← set_word PA_PSTREAM_DESCRIPTOR_OFFSET_LO 0 buf;
  set_word PA_PSTREAM_DESCRIPTOR_FLAGS 0 buf.

(** [use_shm] is false: the data of a block is sent, [send_payload]. *)
Definition prepare_next_write_item (p : pa_pstream) (st : store) : outcome (pa_pstream * store) :=
  let w := ps_write p in
  match ps_send_queue p with
  | [] => Ok (set_write (mk_pwrite (w_minibuf w) None (w_data w) (w_index w) (w_minibuf_validsize w) (w_memchunk w)) p, st)
  | item :: q =>
      let p := set_queue_ps q p in
      buf ← blank_descriptor (w_minibuf w);
      match item with
      | ITEM_PACKET packet =>
          let plen := Z.of_nat (length packet) in
          buf ← set_word PA_PSTREAM_DESCRIPTOR_LENGTH (u32 plen) buf;
          '(buf, valid) ←
            (if plen <=? MINIBUF_SIZE - PA_PSTREAM_DESCRIPTOR_SIZE
             then buf ← deref (splice PA_PSTREAM_DESCRIPTOR_SIZE packet buf); Ok (buf, PA_PSTREAM_DESCRIPTOR_SIZE + plen)
             else Ok (buf, 0));
          Ok (set_write (mk_pwrite buf (Some item) (Some packet) 0 valid pa_memchunk_reset) p, st)
      | ITEM_SHMRELEASE block_id =>
          buf ← set_word PA_PSTREAM_DESCRIPTOR_FLAGS PA_FLAG_SHMRELEASE buf;
          buf ← set_word PA_PSTREAM_DESCRIPTOR_OFFSET_HI block_id buf;
          Ok (set_write (mk_pwrite buf (Some item) None 0 0 pa_memchunk_reset) p, st)
      | ITEM_SHMREVOKE block_id =>
          buf ← set_word PA_PSTREAM_DESCRIPTOR_FLAGS PA_FLAG_SHMREVOKE buf;
          buf ← set_word PA_PSTREAM_DESCRIPTOR_OFFSET_HI block_id buf;
          Ok (set_write (mk_pwrite buf (Some item) None 0 0 pa_memchunk_reset) p, st)
      | ITEM_MEMBLOCK chunk channel offset seek_mode =>
          _ ← pa_assert (bool_decide (is_Some (mc_memblock chunk)));
          buf ← set_word PA_PSTREAM_DESCRIPTOR_CHANNEL channel buf;
          buf ← set_word PA_PSTREAM_DESCRIPTOR_OFFSET_HI (u32 (Z.shiftr (u64 offset) 32)) buf;
          buf ← set_word PA_PSTREAM_DESCRIPTOR_OFFSET_LO (u32 (u64 offset)) buf;
          let flags := u32 (Z.land seek_mode PA_FLAG_SEEKMASK) in
          buf ← set_word PA_PSTREAM_DESCRIPTOR_LENGTH (u32 (mc_length chunk)) buf;
          b ← deref (mc_memblock chunk);
          st ← pa_memblock_ref b st;
          buf ← set_word PA_PSTREAM_DESCRIPTOR_FLAGS flags buf;
          Ok (set_write (mk_pwrite buf (Some item) None 0 0 chunk) p, st)
      end
  end.

(** What [d] and [l] are: the bytes to write, and the block to be released. *)
Definition to_write (w : pstream_write) (st : store) : outcome (list cell * option Z * store) :=
  if 0 <? w_minibuf_validsize w then
    d ← read_data (w_minibuf w) (w_index w) (w_minibuf_validsize w - w_index w);
    Ok (d, None, st)
  else if w_index w <? PA_PSTREAM_DESCRIPTOR_SIZE then
    d ← read_data (w_minibuf w) (w_index w) (PA_PSTREAM_DESCRIPTOR_SIZE - w_index w);
    Ok (d, None, st)
  else
    len ← get_word PA_PSTREAM_DESCRIPTOR_LENGTH (w_minibuf w);
    let off := w_index w - PA_PSTREAM_DESCRIPTOR_SIZE in
    match w_data w with
    | Some data => d ← read_data data off (len - off); Ok (d, None, st)
    | None =>
        _ ← pa_assert (bool_decide (is_Some (mc_memblock (w_memchunk w))));
        b ← deref (mc_memblock (w_memchunk w));
        '(data, st) ← pa_memblock_acquire b st;
        d ← read_data data (mc_index (w_memchunk w) + off) (len - off);
        Ok (d, Some b, st)
    end.

Definition release_opt (b : option Z) (st : store) : outcome store :=
  match b with Some b => pa_memblock_release b st | None => Ok st end.

Definition unref_opt (b : option Z) (st : store) : outcome store :=
  match b with Some b => pa_memblock_unref b st | None => Ok st end.

(** [r]: how many bytes the kernel takes, or less than zero.  The result: what [do_write] returns, and what
    was written. *)
Definition do_write (r : Z) (p : pa_pstream) (st : store) : outcome (Z * list cell * list ps_event * pa_pstream * store) :=
  '(p, st) ← (match w_current (ps_write p) with None => prepare_next_write_item p st | Some _ => Ok (p, st) end);
  let w := ps_write p in
  match w_current w with
  | None => Ok (0, [], [], p, st)
  | Some item =>
      '(d, release_memblock, st) ← to_write w st;
      let l := Z.of_nat (length d) in
      _ ← pa_assert (0 <? l);
      if r <? 0 then
        st ← release_opt release_memblock st;
        Ok (-1, [], [], p, st)
      else
        let r := Z.min r l in
        st ← release_opt release_memblock st;
        let ret := if r =? l then 1 else 0 in
        let out := take (Z.to_nat r) d in
        let index := w_index w + r in
        len ← get_word PA_PSTREAM_DESCRIPTOR_LENGTH (w_minibuf w);
        if PA_PSTREAM_DESCRIPTOR_SIZE + len <=? index then
          st ← item_free item st;
          st ← unref_opt (mc_memblock (w_memchunk w)) st;
          let p := set_write (mk_pwrite (w_minibuf w) None (w_data w) index (w_minibuf_validsize w) pa_memchunk_reset) p in
          Ok (ret, out, if ps_drain_callback p && negb (pa_pstream_is_pending p) then [EvDrain] else [], p, st)
        else Ok (ret, out, [], set_write (mk_pwrite (w_minibuf w) (Some item) (w_data w) index (w_minibuf_validsize w) (w_memchunk w)) p, st)
  end.

(** ** Reading *)

Definition word64 (hi lo : Z) : Z := Z.lor (Z.shiftl hi 32) lo.

Definition memblock_complete (p : pa_pstream) (b : Z) (st : store) : outcome (list ps_event) :=
  let re := ps_read p in
  if ps_receive_memblock_callback p then
    channel ← get_word PA_PSTREAM_DESCRIPTOR_CHANNEL (r_descriptor re);
    hi ← get_word PA_PSTREAM_DESCRIPTOR_OFFSET_HI (r_descriptor re);
    lo ← get_word PA_PSTREAM_DESCRIPTOR_OFFSET_LO (r_descriptor re);
    flags ← get_word PA_PSTREAM_DESCRIPTOR_FLAGS (r_descriptor re);
    Ok [EvMemblock channel (s64 (word64 hi lo)) (Z.land flags PA_FLAG_SEEKMASK)
          (chunk_bytes st (mk_chunk (Some b) 0 (r_index re - PA_PSTREAM_DESCRIPTOR_SIZE)))]
  else Ok [].

(** Reading of the descriptor complete.  [None]: return -1. *)
Definition descriptor_done (re : pstream_read) (st : store) : outcome (option pstream_read * store) :=
  flags ← get_word PA_PSTREAM_DESCRIPTOR_FLAGS (r_descriptor re);
  if negb (Z.land flags PA_FLAG_SHMMASK =? 0) then Ok (None, st)
  else
    length ← get_word PA_PSTREAM_DESCRIPTOR_LENGTH (r_descriptor re);
    if (FRAME_SIZE_MAX_ALLOW <? length) || (length <=? 0) then Ok (None, st)
    else
      _ ← pa_assert (negb (bool_decide (is_Some (r_packet re))) && negb (bool_decide (is_Some (r_memblock re))));
      channel ← get_word PA_PSTREAM_DESCRIPTOR_CHANNEL (r_descriptor re);
      if channel =? 2 ^ 32 - 1 then
        if negb (flags =? 0) then Ok (None, st)
        else Ok (Some (mk_pread (r_descriptor re) None (Some (uninit length)) (r_index re)), st)
      else if PA_SEEK_RELATIVE_END <? Z.land flags PA_FLAG_SEEKMASK then Ok (None, st)
      else
        '(b, st) ← pa_memblock_new length st;
        Ok (Some (mk_pread (r_descriptor re) (Some b) None (r_index re)), st).

(** A frame complete; without a block or a packet it would refer to shared memory. *)
Definition frame_done (p : pa_pstream) (st : store) : outcome (list ps_event * pa_pstream * store) :=
  let re := ps_read p in
  '(evs, st) ←
    (match r_memblock re, r_packet re with
     | Some b, _ => evs ← memblock_complete p b st; st ← pa_memblock_unref b st; Ok (evs, st)
     | None, Some packet => Ok (if ps_receive_packet_callback p then [EvPacket packet] else [], st)
     | None, None =>
         flags ← get_word PA_PSTREAM_DESCRIPTOR_FLAGS (r_descriptor re);
         _ ← pa_assert (negb (Z.land (Z.land flags PA_FLAG_SHMMASK) PA_FLAG_SHMDATA =? 0));
         UB
     end);
  Ok (evs, set_read (mk_pread (r_descriptor re) None None 0) p, st).

(** Where the next bytes go and how many: [l]. *)
Definition to_read (re : pstream_read) : outcome Z :=
  if r_index re <? PA_PSTREAM_DESCRIPTOR_SIZE then Ok (PA_PSTREAM_DESCRIPTOR_SIZE - r_index re)
  else
    _ ← pa_assert (bool_decide (is_Some (r_packet re)) || bool_decide (is_Some (r_memblock re)));
    len ← get_word PA_PSTREAM_DESCRIPTOR_LENGTH (r_descriptor re);
    Ok (len - (r_index re - PA_PSTREAM_DESCRIPTOR_SIZE)).

(** The bytes go to the descriptor, the packet or the block. *)
Definition store_read (got : list cell) (re : pstream_read) (st : store) : outcome (pstream_read * store) :=
  let index := r_index re + Z.of_nat (length got) in
  if r_index re <? PA_PSTREAM_DESCRIPTOR_SIZE then
    d ← deref (splice (r_index re) got (r_descriptor re));
    Ok (mk_pread d (r_memblock re) (r_packet re) index, st)
  else
    let off := r_index re - PA_PSTREAM_DESCRIPTOR_SIZE in
    match r_packet re with
    | Some packet =>
        packet ← deref (splice off got packet);
        Ok (mk_pread (r_descriptor re) (r_memblock re) (Some packet) index, st)
    | None =>
        b ← deref (r_memblock re);
        '(_, st) ← pa_memblock_acquire b st;
        st ← write_data b off got st;
        st ← pa_memblock_release b st;
        Ok (mk_pread (r_descriptor re) (r_memblock re) None index, st)
    end.

(** [bits]: the width of a [size_t].  The kernel has the bytes [inp] and gives [n] of them, or none
    when the connection is closed or broken.  The result: what [do_read] returns, and the bytes that are left. *)
Definition do_read (bits n : Z) (inp : list cell) (p : pa_pstream) (st : store) : outcome (Z * list cell * list ps_event * pa_pstream * store) :=
  let re := ps_read p in
  l ← to_read re;
  let r := Z.min (Z.min n l) (Z.of_nat (length inp)) in
  if r <=? 0 then Ok (-1, inp, [], p, st)
  else
    let rest := drop (Z.to_nat r) inp in
    '(re, st) ← store_read (take (Z.to_nat r) inp) re st;
    let p := set_read re p in
    if r_index re =? PA_PSTREAM_DESCRIPTOR_SIZE then
      '(res, st) ← descriptor_done re st;
      match res with
      | None => Ok (-1, rest, [], p, st)
      | Some re => Ok (0, rest, [], set_read re p, st)
      end
    else
      len ← get_word PA_PSTREAM_DESCRIPTOR_LENGTH (r_descriptor re);
      if (len + PA_PSTREAM_DESCRIPTOR_SIZE) mod 2 ^ bits <=? r_index re then
        '(evs, p, st) ← frame_done p st;
        Ok (0, rest, evs, p, st)
      else Ok (0, rest, [], p, st).

(** ** Both *)

Definition pa_pstream_unlink (p : pa_pstream) : pa_pstream :=
  if ps_dead p then p else mk_pstream (ps_send_queue p) true false (ps_write p) (ps_read p) false false false false.

(** [answers]: what the kernel takes as long as the socket is writable. *)
Fixpoint io_write_loop (answers : list Z) (p : pa_pstream) (st : store) : outcome (bool * list cell * list ps_event * pa_pstream * store) :=
  if ps_dead p then Ok (true, [], [], p, st)
  else match answers with
  | [] => Ok (true, [], [], p, st)
  | r :: answers =>
      '(ret, out, evs, p, st) ← do_write r p st;
      if ret <? 0 then Ok (false, out, evs, p, st)
      else if ret =? 0 then Ok (true, out, evs, p, st)
      else
        '(ok, out', evs', p, st) ← io_write_loop answers p st;
        Ok (ok, out ++ out', evs ++ evs', p, st)
  end.

(** [readable]: the bytes there are and how many of them the kernel gives.  Nothing in here kills the
    stream before the end. *)
Definition do_pstream_read_write (bits : Z) (readable : option Z) (inp : list cell) (hungup : bool) (answers : list Z) (p : pa_pstream) (st : store)
    : outcome (list cell * list cell * list ps_event * pa_pstream * store) :=
  let p := set_defer false p in
  '(ok, inp, evs, p, st) ←
    (if ps_dead p then Ok (true, inp, [], p, st)
     else match readable with
     | Some n => '(ret, inp, evs, p, st) ← do_read bits n inp p st; Ok (0 <=? ret, inp, evs, p, st)
     | None => Ok (negb hungup, inp, [], p, st)
     end);
  '(ok, out, evs, p, st) ←
    (match ok with
     | true => '(ok, out, evs', p, st) ← io_write_loop answers p st; Ok (ok, out, evs ++ evs', p, st)
     | false => Ok (false, [], evs, p, st)
     end);
  match ok with
  | true => Ok (inp, out, evs, p, st)
  | false => Ok (inp, out, evs ++ (if ps_die_callback p then [EvDie] else []), pa_pstream_unlink p, st)
  end.

Fixpoint free_queue (l : list item_info) (st : store) : outcome store :=
  match l with [] => Ok st | i :: l => st ← item_free i st; free_queue l st end.

Definition pstream_free (p : pa_pstream) (st : store) : outcome store :=
  st ← free_queue (ps_send_queue p) st;
  st ← (match w_current (ps_write p) with Some i => item_free i st | None => Ok st end);
  st ← unref_opt (mc_memblock (w_memchunk (ps_write p))) st;
  unref_opt (r_memblock (ps_read p)) st.
