(* ===== verification/PstreamSend.v ===== *)
(** * PstreamSend: writing the frames of a stream

    However little of them the kernel takes at a time, what is written are the frames
    of the items in the order in which they were sent, and every reference an
    item holds is given back when its frame is complete. *)
From stdpp Require Import base tactics numbers list gmap.
From S2P Require Import Prelude Memblock Tagstruct Pstream.

(** ** Words *)

Definition words (ws : list Z) (rest : list cell) : list cell := concat ((fun v => Some <$> be32 v) <$> ws) ++ rest.

#[local] Arguments be32 : simpl never.

Lemma be32_4 v : length (be32 v) = 4%nat.
Proof. done. Qed.

Lemma words_cons v ws rest : words (v :: ws) rest = (Some <$> be32 v) ++ words ws rest.
Proof. unfold words. rewrite fmap_cons. cbn [concat]. by rewrite <- app_assoc. Qed.

Lemma words_app ws vs rest : words (ws ++ vs) rest = words ws (words vs rest).
Proof. unfold words. by rewrite fmap_app, concat_app, <- app_assoc. Qed.

Lemma words_length ws rest : length (words ws rest) = (4 * length ws + length rest)%nat.
Proof.
  induction ws as [|v ws IH]; [done|]. rewrite words_cons, length_app, length_fmap, be32_4, IH. simpl. lia.
Qed.

Lemma words_split ws rest : words ws rest = words ws [] ++ rest.
Proof. unfold words. by rewrite app_nil_r. Qed.

Lemma words_middle ws v vs rest : words (ws ++ v :: vs) rest = words ws [] ++ (Some <$> be32 v) ++ words vs rest.
Proof. rewrite words_app, words_cons. apply words_split. Qed.

Lemma set_word_ok k v old ws rest : ws !! Z.to_nat k = Some old -> 0 <= k -> set_word k v (words ws rest) = Ok (words (<[Z.to_nat k := v]> ws) rest).
Proof.
  intros Ek Hk. pose proof (lookup_lt_Some _ _ _ Ek) as Hl.
  rewrite insert_take_drop by done. rewrite <- (take_drop_middle ws _ _ Ek) at 1. rewrite !words_middle.
  unfold set_word. rewrite splice_eq; [done| |done]. rewrite words_length, length_take. simpl. lia.
Qed.

Lemma mapM_cells {A} (l : list A) : mapM id (Some <$> l) = Some l.
Proof. apply mapM_Some_2, Forall2_fmap_l, Forall_Forall2_diag, Forall_forall. done. Qed.

Lemma sub_list_middle {A} (pre mid post : list A) off n : Z.of_nat (length pre) = off -> Z.of_nat (length mid) = n -> sub_list off n (pre ++ mid ++ post) = mid.
Proof.
  intros <- <-. unfold sub_list. rewrite !Nat2Z.id, drop_app_length. apply take_app_length.
Qed.

Lemma get_word_ok k v ws rest : ws !! Z.to_nat k = Some v -> 0 <= k -> 0 <= v < 2 ^ 32 -> get_word k (words ws rest) = Ok v.
Proof.
  intros Ek Hk Hv. pose proof (lookup_lt_Some _ _ _ Ek) as Hl. rewrite <- (take_drop_middle ws _ _ Ek), words_middle.
  unfold get_word. rewrite sub_list_middle by (rewrite ?words_length, ?length_take, ?length_fmap, ?be32_4; simpl; lia).
  rewrite mapM_cells. cbn [deref mbind outcome_bind]. unfold be32. rewrite reverse_involutive, le_combine_split. f_equal. apply Z.mod_small. simpl. lia.
Qed.

Lemma blank_ok buf : (20 <= length buf)%nat -> blank_descriptor buf = Ok (words [0; 2 ^ 32 - 1; 0; 0; 0] (drop 20 buf)).
Proof.
  intros Hl. assert (forall (k : Z) v ws (rest : list cell), Z.of_nat (length ws) = k -> 0 <= k -> (4 <= length rest)%nat ->
    set_word k v (words ws rest) = Ok (words (ws ++ [v]) (drop 4 rest))) as Hs.
  { intros k v ws rest Hk Hk0 H4. rewrite words_middle, (words_split ws). rewrite <- (take_drop 4 rest) at 1. unfold set_word.
    rewrite splice_eq; [done|rewrite words_length; simpl; lia|]. rewrite length_take, length_fmap, be32_4. lia. }
  unfold blank_descriptor. change buf with (words [] buf) at 1.
  do 5 (rewrite Hs by (done || (rewrite ?length_drop; lia)); cbn [mbind outcome_bind]). rewrite !drop_drop. done.
Qed.

(** ** Frames *)

Definition hi32 (offset : Z) : Z := u32 (Z.shiftr (u64 offset) 32).
Definition lo32 (offset : Z) : Z := u32 (u64 offset).

Definition item_words (i : item_info) : list Z :=
  match i with
  | ITEM_PACKET packet => [Z.of_nat (length packet); 2 ^ 32 - 1; 0; 0; 0]
  | ITEM_MEMBLOCK c channel offset mode => [mc_length c; channel; hi32 offset; lo32 offset; mode]
  | ITEM_SHMRELEASE id => [0; 2 ^ 32 - 1; id; 0; PA_FLAG_SHMRELEASE]
  | ITEM_SHMREVOKE id => [0; 2 ^ 32 - 1; id; 0; PA_FLAG_SHMREVOKE]
  end.

Definition payload (st : store) (i : item_info) : list cell :=
  match i with
  | ITEM_PACKET packet => packet
  | ITEM_MEMBLOCK c _ _ _ => chunk_bytes st c
  | _ => []
  end.

Definition frame (st : store) (i : item_info) : list cell := words (item_words i) (payload st i).

(** What may be sent. *)
Definition item_ok (st : store) (i : item_info) : Prop :=
  match i with
  | ITEM_PACKET packet => 0 < Z.of_nat (length packet) <= FRAME_SIZE_MAX_ALLOW
  | ITEM_MEMBLOCK c channel offset mode =>
      chunk_in st c /\ mc_length c <= FRAME_SIZE_MAX_ALLOW /\ 0 <= channel < 2 ^ 32 - 1 /\ - 2 ^ 63 <= offset < 2 ^ 63 /\ 0 <= mode <= PA_SEEK_RELATIVE_END
  | ITEM_SHMRELEASE id | ITEM_SHMREVOKE id => 0 <= id < 2 ^ 32
  end.

Definition item_refs (j : Z) (i : item_info) : Z :=
  match i with ITEM_MEMBLOCK c _ _ _ => chunk_refs c j | _ => 0 end.

Lemma item_refs_pos j i : 0 <= item_refs j i.
Proof. destruct i; simpl; try lia. apply chunk_refs_nonneg. Qed.

Lemma payload_length st i : item_ok st i -> head (item_words i) = Some (Z.of_nat (length (payload st i))).
Proof. destruct i; simpl; try done. intros [H _]. by rewrite chunk_bytes_length. Qed.

Lemma payload_bound st i : item_ok st i -> Z.of_nat (length (payload st i)) <= FRAME_SIZE_MAX_ALLOW.
Proof. destruct i; simpl; unfold FRAME_SIZE_MAX_ALLOW; try lia. intros [H ?]. rewrite chunk_bytes_length by done. lia. Qed.

Lemma frame_length st i : length (frame st i) = (20 + length (payload st i))%nat.
Proof. unfold frame. rewrite words_length. by destruct i. Qed.

Lemma get_length st i rest : item_ok st i -> get_word PA_PSTREAM_DESCRIPTOR_LENGTH (words (item_words i) rest) = Ok (Z.of_nat (length (payload st i))).
Proof.
  intros H. pose proof (payload_bound st i H) as Hb. unfold FRAME_SIZE_MAX_ALLOW in Hb. apply get_word_ok; [|done|lia].
  pose proof (payload_length st i H) as E. by destruct i.
Qed.

(** Items do not care what happens to a store as long as their blocks are there. *)
Lemma item_keeps st st' i : keeps st st' -> item_ok st i -> (forall j, item_refs j i <= refs st' j) -> item_ok st' i /\ frame st' i = frame st i.
Proof.
  intros K Hi Hr. destruct i as [|c channel offset mode| |]; simpl in *; try done. destruct Hi as [Hc Hi].
  destruct (chunk_in_keeps st st' c K Hc) as [Hc' Hb]; [|split; [done|unfold frame; simpl; by rewrite Hb]].
  intros id E. specialize (Hr id). rewrite (chunk_refs_some _ _ E) in Hr. lia.
Qed.

(** ** The state of the writer *)

(** The references of a stream. *)
Definition write_refs (j : Z) (p : pa_pstream) : Z :=
  sumZ (item_refs j <$> ps_send_queue p) + from_option (item_refs j) 0 (w_current (ps_write p)) + chunk_refs (w_memchunk (ps_write p)) j.

Definition block_refs (b : option Z) (j : Z) : Z := match b with Some b => delta b 1 j | None => 0 end.
Definition ps_refs (j : Z) (p : pa_pstream) : Z := write_refs j p + block_refs (r_memblock (ps_read p)) j.

(** The frame of item [i] is being written. *)
Record writing (st : store) (w : pstream_write) (i : item_info) : Prop := {
  wr_item : item_ok st i;
  wr_buf : exists rest, w_minibuf w = words (item_words i) rest /\ length rest = 236%nat;
  wr_index : 0 <= w_index w < Z.of_nat (length (frame st i));
  wr_place : match i with
    | ITEM_PACKET packet => w_data w = Some packet /\ mc_memblock (w_memchunk w) = None
    | ITEM_MEMBLOCK c _ _ _ => w_data w = None /\ w_memchunk w = c
    | _ => w_data w = None /\ mc_memblock (w_memchunk w) = None
    end;
  wr_valid : w_minibuf_validsize w = 0 \/
    w_minibuf_validsize w = Z.of_nat (length (frame st i)) /\ exists rest, w_minibuf w = frame st i ++ rest
}.

Record write_inv (p : pa_pstream) (st : store) : Prop := {
  wi_store : store_ok st;
  wi_queue : Forall (item_ok st) (ps_send_queue p);
  wi_buf : length (w_minibuf (ps_write p)) = 256%nat;
  wi_current : match w_current (ps_write p) with Some i => writing st (ps_write p) i | None => mc_memblock (w_memchunk (ps_write p)) = None end;
  wi_refs j : ps_refs j p <= refs st j
}.

(** What is still to be written. *)
Definition todo (p : pa_pstream) (st : store) : list cell :=
  from_option (fun i => drop (Z.to_nat (w_index (ps_write p))) (frame st i)) [] (w_current (ps_write p)) ++ concat (frame st <$> ps_send_queue p).

Lemma sum_item_refs_nonneg j l : 0 <= sumZ (item_refs j <$> l).
Proof. apply sumZ_nonneg, Forall_fmap, Forall_true. intros i. apply item_refs_pos. Qed.

Lemma sum_refs_cons j i l : sumZ (item_refs j <$> i :: l) = item_refs j i + sumZ (item_refs j <$> l).
Proof. done. Qed.

Lemma items_keep st st' l : keeps st st' -> Forall (item_ok st) l -> (forall j, sumZ (item_refs j <$> l) <= refs st' j) ->
  Forall (item_ok st') l /\ frame st' <$> l = frame st <$> l.
Proof.
  intros K. induction 1 as [|i l Hi _ IH]; intros Hr; [done|]. assert (forall j, item_refs j i + sumZ (item_refs j <$> l) <= refs st' j) as Hr' by exact Hr.
  destruct IH as [IH1 IH2].
  { intros j. specialize (Hr' j). pose proof (item_refs_pos j i). lia. }
  destruct (item_keeps st st' i K Hi) as [H1 H2].
  { intros j. specialize (Hr' j). pose proof (sum_item_refs_nonneg j l). lia. }
  split; [by constructor|]. by rewrite !fmap_cons, H2, IH2.
Qed.

(** The rest of a stream stays. *)
Definition same_rest (p p' : pa_pstream) : Prop :=
  ps_read p' = ps_read p /\ ps_dead p' = ps_dead p /\ ps_receive_packet_callback p' = ps_receive_packet_callback p /\
  ps_receive_memblock_callback p' = ps_receive_memblock_callback p /\ ps_drain_callback p' = ps_drain_callback p /\ ps_die_callback p' = ps_die_callback p.

(** The references a stream has, besides those of others, and the blocks of others. *)
Definition accounts (p : pa_pstream) (st : store) (p' : pa_pstream) (st' : store) : Prop :=
  keeps st st' /\ forall j, refs st' j - ps_refs j p' = refs st j - ps_refs j p.

Lemma block_refs_nonneg b j : 0 <= block_refs b j.
Proof. destruct b; simpl; [apply delta_nonneg|]; lia. Qed.

(** A new state of the writer that has the items [l] behind the current one. *)
Lemma write_inv_change p st p' st' i l : write_inv p st -> Forall (item_ok st) (i :: l) -> accounts p st p' st' -> store_ok st' ->
  ps_send_queue p' = l -> length (w_minibuf (ps_write p')) = 256%nat -> w_current (ps_write p') = Some i ->
  (item_ok st' i -> frame st' i = frame st i -> writing st' (ps_write p') i) ->
  write_inv p' st' /\ concat (frame st' <$> i :: l) = concat (frame st <$> i :: l).
Proof.
  intros I Hl [K A] S Eq Hb Ec Hw. assert (forall j, ps_refs j p' <= refs st' j) as Hr by (intros j; specialize (A j); pose proof (wi_refs _ _ I j); lia).
  destruct (items_keep st st' (i :: l) K Hl) as [H1 H2].
  { intros j. specialize (Hr j). unfold ps_refs, write_refs in Hr. rewrite Eq, Ec in Hr. cbn [from_option] in Hr. rewrite sum_refs_cons.
    pose proof (chunk_refs_nonneg (w_memchunk (ps_write p')) j). pose proof (block_refs_nonneg (r_memblock (ps_read p')) j). lia. }
  apply Forall_cons in H1 as [H1 H1']. split; [|by rewrite H2]. split; [done|by rewrite Eq|done| |done]. rewrite Ec. apply Hw; [done|].
  rewrite !fmap_cons in H2. by injection H2.
Qed.

(** What an item adds to the references, and the chunk to be sent. *)
Definition prepared_store (i : item_info) (st : store) : outcome store :=
  match i with ITEM_MEMBLOCK c _ _ _ => b ← deref (mc_memblock c); pa_memblock_ref b st | _ => Ok st end.
Definition item_chunk (i : item_info) : pa_memchunk := match i with ITEM_MEMBLOCK c _ _ _ => c | _ => pa_memchunk_reset end.

Lemma writing_start st i data valid buf : item_ok st i -> (exists rest, buf = words (item_words i) rest /\ length rest = 236%nat) ->
  data = (match i with ITEM_PACKET packet => Some packet | _ => None end) ->
  (valid = 0 \/ valid = Z.of_nat (length (frame st i)) /\ exists rest, buf = frame st i ++ rest) ->
  writing st (mk_pwrite buf (Some i) data 0 valid (item_chunk i)) i.
Proof. intros Hi Hb -> Hv. split; simpl; try done; [rewrite frame_length; lia|]. by destruct i. Qed.

Lemma small_mode mode : 0 <= mode <= PA_SEEK_RELATIVE_END -> u32 (Z.land mode PA_FLAG_SEEKMASK) = mode.
Proof.
  unfold PA_SEEK_RELATIVE_END. intros H. assert (mode = 0 \/ mode = 1 \/ mode = 2 \/ mode = 3) as Hm by lia. by destruct Hm as [->|[->|[->| ->]]].
Qed.

Lemma prepare_eq p st i q : ps_send_queue p = i :: q -> length (w_minibuf (ps_write p)) = 256%nat -> item_ok st i -> store_ok st ->
  exists w, prepare_next_write_item p st = (st' ← prepared_store i st; Ok (set_write w (set_queue_ps q p), st')) /\
    w_current w = Some i /\ w_memchunk w = item_chunk i /\ length (w_minibuf w) = 256%nat /\ w_index w = 0 /\
    (forall st', item_ok st' i -> frame st' i = frame st i -> writing st' w i).
Proof.
  intros Eq Hb Hi S. unfold prepare_next_write_item. rewrite Eq, blank_ok by lia.
  set (rest := drop 20 (w_minibuf (ps_write p))). assert (length rest = 236%nat) as Lr by (unfold rest; rewrite length_drop; lia). clearbody rest.
  cbn [mbind outcome_bind]. destruct i as [packet|c channel offset mode|id|id]; simpl in Hi.
  - unfold FRAME_SIZE_MAX_ALLOW in Hi. rewrite u32_small by lia. erewrite set_word_ok by done. cbn [mbind outcome_bind].
    destruct (Z.leb_spec (Z.of_nat (length packet)) (MINIBUF_SIZE - PA_PSTREAM_DESCRIPTOR_SIZE)) as [Hs|Hs]; unfold MINIBUF_SIZE, PA_PSTREAM_DESCRIPTOR_SIZE in *.
    + set (ws := <[_ := _]> _). assert (splice 20 packet (words ws rest) = Some (words ws (packet ++ drop (length packet) rest))) as ->.
      { rewrite (words_split ws (_ ++ _)), (words_split ws rest). rewrite <- (take_drop (length packet) rest) at 1. apply splice_eq; [done|]. rewrite length_take. lia. }
      cbn [deref mbind outcome_bind prepared_store].
      eexists. split; [done|]. split_and!; [done|done| |done|].
      { cbn [w_minibuf]. rewrite words_length, length_app, length_drop. change (length ws) with 5%nat. lia. }
      intros st' Hi' Ef. apply (writing_start st' (ITEM_PACKET packet)); [done| |done|].
      * eexists. split; [done|]. rewrite length_app, length_drop. lia.
      * right. rewrite frame_length. split; [simpl; lia|]. exists (drop (length packet) rest). unfold frame.
        rewrite (words_split _ (payload _ _)), (words_split ws), <- app_assoc. done.
    + cbn [mbind outcome_bind prepared_store]. eexists. split; [done|]. split_and!; [done|done|cbn [w_minibuf]; by rewrite words_length, Lr|done|].
      intros st' Hi' Ef. apply (writing_start st' (ITEM_PACKET packet)); [done| |done|by left]. by eexists.
  - destruct Hi as ((b & Em & _ & _ & Hpos & _) & Hl & Hch & Ho & Hm). rewrite Em, bool_decide_true by (by eexists). cbn [pa_assert mbind outcome_bind].
    unfold FRAME_SIZE_MAX_ALLOW in Hl. rewrite small_mode, (u32_small (mc_length c)) by (done || lia).
    do 4 (erewrite set_word_ok by done; cbn [mbind outcome_bind]).
    exists (mk_pwrite (words (item_words (ITEM_MEMBLOCK c channel offset mode)) rest) (Some (ITEM_MEMBLOCK c channel offset mode)) None 0 0 c).
    split; [|split_and!; [done|done| |done|]].
    + cbn [prepared_store]. rewrite Em. cbn [deref mbind outcome_bind]. destruct (pa_memblock_ref b st); cbn [mbind outcome_bind]; [|done|done].
      by erewrite set_word_ok by done.
    + cbn [w_minibuf]. by rewrite words_length, Lr.
    + intros st' Hi' Ef. apply (writing_start st' (ITEM_MEMBLOCK c channel offset mode)); [done|by eexists|done|by left].
  - do 2 (erewrite set_word_ok by done; cbn [mbind outcome_bind]). eexists. split; [done|]. split_and!; [done|done|cbn [w_minibuf]; by rewrite words_length, Lr|done|].
    intros st' Hi' Ef. apply (writing_start st' (ITEM_SHMRELEASE id)); [done|by eexists|done|by left].
  - do 2 (erewrite set_word_ok by done; cbn [mbind outcome_bind]). eexists. split; [done|]. split_and!; [done|done|cbn [w_minibuf]; by rewrite words_length, Lr|done|].
    intros st' Hi' Ef. apply (writing_start st' (ITEM_SHMREVOKE id)); [done|by eexists|done|by left].
Qed.

Lemma prepare_empty p st : ps_send_queue p = [] -> w_current (ps_write p) = None -> prepare_next_write_item p st = Ok (p, st).
Proof. intros E1 E2. unfold prepare_next_write_item. rewrite E1. destruct p as [? ? ? [] ? ? ? ? ?]. simpl in *. by subst. Qed.

Lemma prepare_spec p st i q : write_inv p st -> w_current (ps_write p) = None -> ps_send_queue p = i :: q ->
  exists p' st', prepare_next_write_item p st = Ok (p', st') /\ write_inv p' st' /\ w_current (ps_write p') = Some i /\
    todo p' st' = todo p st /\ accounts p st p' st' /\ same_rest p p' /\ ps_send_queue p' = q.
Proof.
  intros I Ec Eq. pose proof I as [S Hq Hb Hc Hr]. rewrite Ec in Hc. rewrite Eq in Hq. pose proof Hq as [Hi _]%Forall_cons.
  destruct (prepare_eq p st i q Eq Hb Hi S) as (w & E & W1 & W2 & W3 & W4 & W5).
  assert (exists st', prepared_store i st = Ok st' /\ store_ok st' /\ keeps st st' /\ forall j, refs st' j = refs st j + chunk_refs (item_chunk i) j) as (st' & E' & S' & K & A).
  { destruct i as [|c channel offset mode| |]; simpl; try (exists st; split_and!; [done|done|apply keeps_refl|unfold chunk_refs; simpl; lia]).
    destruct Hi as ((b & Em & Hb' & _) & _). rewrite Em. cbn [deref mbind outcome_bind]. destruct (pa_memblock_ref_spec st b S Hb') as (st' & E' & S' & K & A).
    exists st'. split_and!; try done. unfold chunk_refs. by rewrite Em. }
  rewrite E, E'. cbn [mbind outcome_bind]. set (p' := set_write w (set_queue_ps q p)).
  assert (accounts p st p' st') as Hacc.
  { split; [done|]. intros j. rewrite A. unfold ps_refs, write_refs. cbn [p' ps_send_queue ps_write ps_read set_write set_queue_ps].
    rewrite W1, W2, Ec, Eq, sum_refs_cons. cbn [from_option].
    assert (chunk_refs (w_memchunk (ps_write p)) j = 0) as -> by (unfold chunk_refs; by rewrite Hc). destruct i; simpl; lia. }
  destruct (write_inv_change p st p' st' i q I Hq Hacc S') as [I' Ef]; try done; [by apply W5|].
  exists p', st'. split_and!; try done. unfold todo. rewrite Ec, Eq. cbn [p' ps_send_queue ps_write set_write set_queue_ps]. rewrite W1, W4. cbn [from_option].
  rewrite drop_0. exact Ef.
Qed.

(** ** A write *)

Lemma sub_list_drop {A} (off n : Z) (l rest : list A) : 0 <= off -> 0 <= n -> off + n = Z.of_nat (length l) -> sub_list off n (l ++ rest) = drop (Z.to_nat off) l.
Proof.
  intros Ho Hn0 Hn. unfold sub_list. rewrite drop_app_le by lia. assert (Z.to_nat n = length (drop (Z.to_nat off) l)) as -> by (rewrite length_drop; lia).
  apply take_app_length.
Qed.

Lemma read_data_drop d rest off n : 0 <= off -> 0 <= n -> off + n = Z.of_nat (length d) -> read_data (d ++ rest) off n = Ok (drop (Z.to_nat off) d).
Proof. intros H1 H2 H3. rewrite read_data_ok by (rewrite ?length_app; lia). by rewrite sub_list_drop. Qed.

Lemma read_data_end d off n : 0 <= off -> 0 <= n -> off + n = Z.of_nat (length d) -> read_data d off n = Ok (drop (Z.to_nat off) d).
Proof. rewrite <- (app_nil_r d) at 2. apply read_data_drop. Qed.

Lemma drop_nonempty {A} (l : list A) n : (n < length l)%nat -> drop n l <> [].
Proof. intros H E. apply (f_equal length) in E. rewrite length_drop in E. simpl in E. lia. Qed.

Lemma acquire_ok st id b : store_ok st -> st_blocks st !! id = Some b ->
  pa_memblock_acquire id st = Ok (mb_data b, set_block id (with_n_acquired (mb_n_acquired b + 1) b) st) /\
  pa_memblock_release id (set_block id (with_n_acquired (mb_n_acquired b + 1) b) st) = Ok st.
Proof.
  intros [Hwf Hq] Hb. pose proof (wf_block _ Hwf _ _ Hb) as []. unfold pa_memblock_acquire, pa_memblock_release. rewrite (get_block_ok _ Hwf _ _ Hb). split; [done|].
  unfold get_block. cbn [st_blocks set_block]. rewrite lookup_insert_eq. cbn [deref mbind outcome_bind with_n_acquired mb_refcnt mb_n_acquired].
  rewrite pa_assert_true by (by apply Z.ltb_lt). cbn [mbind outcome_bind]. rewrite pa_assert_true by (apply Z.leb_le; simpl; lia). cbn [mbind outcome_bind].
  f_equal. by apply (acquire_release st id b).
Qed.

Lemma to_write_spec st w i : store_ok st -> writing st w i ->
  exists d b st1 tail, to_write w st = Ok (d, b, st1) /\ release_opt b st1 = Ok st /\ drop (Z.to_nat (w_index w)) (frame st i) = d ++ tail /\ d <> [].
Proof.
  intros S [Hi (rest & Eb & Lr) Hx Hp Hv]. rewrite frame_length in Hx. unfold to_write, PA_PSTREAM_DESCRIPTOR_SIZE.
  destruct (Z.ltb_spec 0 (w_minibuf_validsize w)) as [Hvp|Hv0].
  { destruct Hv as [|[Ev [rest' Ebuf]]]; [lia|]. rewrite Ebuf, Ev, read_data_drop by (rewrite ?frame_length; lia). cbn [mbind outcome_bind].
    eexists _, None, st, []. rewrite app_nil_r. split_and!; try done. apply drop_nonempty. rewrite frame_length. lia. }
  assert (length (words (item_words i) []) = 20%nat) as Lw by (rewrite words_length; by destruct i).
  assert (frame st i = words (item_words i) [] ++ payload st i) as Ef by apply words_split.
  destruct (Z.ltb_spec (w_index w) 20) as [Hd|Hd].
  { rewrite Eb, words_split, read_data_drop by lia. cbn [mbind outcome_bind]. eexists _, None, st, (payload st i). split_and!; try done.
    - rewrite Ef, drop_app_le by lia. done.
    - apply drop_nonempty. lia. }
  rewrite Eb, (get_length st i rest Hi). cbn [mbind outcome_bind].
  assert (drop (Z.to_nat (w_index w)) (frame st i) = drop (Z.to_nat (w_index w - 20)) (payload st i)) as Edr.
  { rewrite Ef, drop_app_ge by lia. f_equal. lia. }
  assert (drop (Z.to_nat (w_index w - 20)) (payload st i) <> []) as Hne by (apply drop_nonempty; lia).
  destruct i as [packet|c channel offset mode|id|id]; simpl in Hx, Edr, Hne, Hp; [| |lia|lia].
  - destruct Hp as [-> _]. cbn [payload]. rewrite read_data_end by lia. cbn [mbind outcome_bind]. eexists _, None, st, [].
    rewrite app_nil_r. by split_and!.
  - destruct Hp as [-> Ec]. rewrite Ec. destruct Hi as [Hc _]. pose proof (chunk_bytes_length st c Hc) as Lc. destruct Hc as (b & Em & Hr & H1 & H2 & H3).
    rewrite Em, bool_decide_true by (by eexists). cbn [pa_assert deref mbind outcome_bind]. destruct (refs_alive st b (proj1 S)) as [Hal _]. destruct (Hal Hr) as [blk Hblk].
    destruct (acquire_ok st b blk S Hblk) as [Ea Er]. rewrite Ea. cbn [mbind outcome_bind payload]. rewrite Lc.
    assert (bytes st b = mb_data blk) as Ebs by (unfold bytes; by rewrite Hblk). rewrite Ebs in H3.
    rewrite read_data_ok by lia. cbn [mbind outcome_bind].
    assert (sub_list (mc_index c + (w_index w - 20)) (mc_length c - (w_index w - 20)) (mb_data blk) = drop (Z.to_nat (w_index w - 20)) (chunk_bytes st c)) as ->.
    { unfold chunk_bytes. rewrite Em, Ebs. unfold sub_list. rewrite Z2Nat.inj_add, <- drop_drop, take_drop_commute by lia. f_equal. f_equal. lia. }
    eexists _, (Some b), _, []. rewrite app_nil_r. by split_and!.
Qed.

(** The references of a finished item. *)
Lemma complete_spec p st i : write_inv p st -> w_current (ps_write p) = Some i ->
  exists st1 st', item_free i st = Ok st1 /\ unref_opt (mc_memblock (w_memchunk (ps_write p))) st1 = Ok st' /\ store_ok st' /\ keeps st st' /\
    forall j, refs st' j = refs st j - item_refs j i - chunk_refs (w_memchunk (ps_write p)) j.
Proof.
  intros [S Hq _ Hc Hr] Ec. rewrite Ec in Hc. destruct Hc as [Hi _ _ Hp _].
  destruct i as [packet|c channel offset mode|id|id]; simpl in Hp;
    try (destruct Hp as [_ Hp]; unfold chunk_refs; rewrite Hp; exists st, st; split_and!; [done|done|done|apply keeps_refl|simpl; lia]).
  destruct Hp as [_ Hp]. rewrite Hp. destruct Hi as [(b & Em & Hb & _) _]. simpl. rewrite Em. cbn [deref mbind outcome_bind unref_opt].
  assert (2 <= refs st b) as H2.
  { specialize (Hr b). unfold ps_refs, write_refs in Hr. rewrite Ec, Hp in Hr. cbn [from_option item_refs] in Hr. rewrite (chunk_refs_some _ _ Em) in Hr.
    pose proof (sum_item_refs_nonneg b (ps_send_queue p)). pose proof (block_refs_nonneg (r_memblock (ps_read p)) b). lia. }
  destruct (pa_memblock_unref_spec st b S ltac:(lia)) as (st1 & E1 & S1 & K1 & _ & A1).
  destruct (pa_memblock_unref_spec st1 b S1) as (st2 & E2 & S2 & K2 & _ & A2); [rewrite A1; unfold delta; rewrite decide_True by done; lia|].
  exists st1, st2. split_and!; try done; [apply (keeps_trans st st1 st2); [apply S|apply S1|done|done]|].
  intros j. rewrite A2, A1. unfold chunk_refs. rewrite Em. unfold delta. case_decide; lia.
Qed.

(** What [do_write] has to do with the bytes. *)
Record wrote (p : pa_pstream) (st : store) (ret : Z) (out : list cell) (evs : list ps_event) (p' : pa_pstream) (st' : store) : Prop := {
  wt_inv : write_inv p' st';
  wt_bytes : todo p st = out ++ todo p' st';
  wt_refs : accounts p st p' st';
  wt_rest : same_rest p p';
  wt_drain : (evs = [] \/ evs = [EvDrain]) /\ (ps_dead p = false -> evs <> [] -> todo p' st' = [])
}.

Lemma todo_empty p st : write_inv p st -> pa_pstream_is_pending p = false -> ps_dead p = false -> todo p st = [].
Proof.
  intros _ Hp Hd. unfold pa_pstream_is_pending in Hp. rewrite Hd in Hp. apply orb_false_iff in Hp as [H1%bool_decide_eq_false H2].
  apply negb_false_iff, bool_decide_eq_true in H2. unfold todo. rewrite H2. destruct (w_current (ps_write p)); [|done]. exfalso. apply H1. by eexists.
Qed.

Lemma write_more p st i d tail r : write_inv p st -> w_current (ps_write p) = Some i -> drop (Z.to_nat (w_index (ps_write p))) (frame st i) = d ++ tail ->
  0 <= r <= Z.of_nat (length d) -> w_index (ps_write p) + r < Z.of_nat (length (frame st i)) ->
  let w := ps_write p in
  wrote p st (if r =? Z.of_nat (length d) then 1 else 0) (take (Z.to_nat r) d) []
    (set_write (mk_pwrite (w_minibuf w) (Some i) (w_data w) (w_index w + r) (w_minibuf_validsize w) (w_memchunk w)) p) st.
Proof.
  intros I Ec Ed Hr Hx w. pose proof (wi_current _ _ I) as Hw. rewrite Ec in Hw. pose proof Hw as [W1 W2 W3 W4 W5].
  assert (accounts p st (set_write (mk_pwrite (w_minibuf w) (Some i) (w_data w) (w_index w + r) (w_minibuf_validsize w) (w_memchunk w)) p) st) as Hacc.
  { split; [apply keeps_refl|]. intros j. unfold ps_refs, write_refs. simpl. rewrite Ec. done. }
  split; [| |done|by split_and!|by split; [left|]].
  - destruct I as [S Hq Hb _ Hrf]. split; [done|done|done| |intros j; specialize (Hrf j); destruct Hacc as [_ Hacc]; specialize (Hacc j); lia].
    cbn [ps_write set_write w_current]. split; try done. cbn [w_index]. unfold w. lia.
  - unfold todo. rewrite Ec. cbn [ps_write ps_send_queue set_write w_current from_option w_index]. rewrite app_assoc. f_equal. unfold w.
    rewrite Z2Nat.inj_add, <- drop_drop, Ed, drop_app_le by lia. by rewrite app_assoc, take_drop.
Qed.

Lemma write_last p st i st' ret out : write_inv p st -> w_current (ps_write p) = Some i -> drop (Z.to_nat (w_index (ps_write p))) (frame st i) = out ->
  store_ok st' -> keeps st st' -> (forall j, refs st' j = refs st j - item_refs j i - chunk_refs (w_memchunk (ps_write p)) j) ->
  forall index, let w := ps_write p in
  let p' := set_write (mk_pwrite (w_minibuf w) None (w_data w) index (w_minibuf_validsize w) pa_memchunk_reset) p in
  wrote p st ret out (if ps_drain_callback p && negb (pa_pstream_is_pending p') then [EvDrain] else []) p' st'.
Proof.
  intros I Ec Ed S' K A index w p'.
  assert (accounts p st p' st') as Hacc.
  { split; [done|]. intros j. rewrite A. unfold ps_refs, write_refs. cbn [p' ps_send_queue ps_write ps_read set_write w_current w_memchunk]. rewrite Ec.
    cbn [from_option]. change (chunk_refs pa_memchunk_reset j) with 0. fold w. lia. }
  assert (forall j, ps_refs j p' <= refs st' j) as Hr by (intros j; destruct Hacc as [_ Hacc]; specialize (Hacc j); pose proof (wi_refs _ _ I j); lia).
  destruct (items_keep st st' (ps_send_queue p) K (wi_queue _ _ I)) as [Hq Hf].
  { intros j. specialize (Hr j). unfold ps_refs, write_refs in Hr. cbn [p' ps_send_queue ps_write ps_read set_write w_current w_memchunk from_option] in Hr.
    change (chunk_refs pa_memchunk_reset j) with 0 in Hr. pose proof (block_refs_nonneg (r_memblock (ps_read p)) j). lia. }
  assert (write_inv p' st') as I' by (split; try done; apply I).
  split; [done| |done|by split_and!|].
  - unfold todo. rewrite Ec. cbn [p' ps_send_queue ps_write set_write w_current from_option]. by rewrite Ed, Hf.
  - destruct (ps_drain_callback p); [|by split; [left|]]. destruct (pa_pstream_is_pending p') eqn:Ep; [by split; [left|]|]. split; [by right|].
    intros Hd _. by apply todo_empty.
Qed.

(** A write takes the front of what is to be written, and takes something when the kernel does. *)
Lemma do_write_spec r p st : write_inv p st ->
  exists ret out evs p' st', do_write r p st = Ok (ret, out, evs, p', st') /\ wrote p st ret out evs p' st' /\
    (ret < 0 <-> r < 0 /\ todo p st <> []) /\ (0 < r -> todo p st <> [] -> out <> []) /\ (r <= 0 -> out = []).
Proof.
  intros I. unfold do_write.
  assert (w_current (ps_write p) = None /\ ps_send_queue p = [] \/ exists p1 st1 i,
    (match w_current (ps_write p) with None => prepare_next_write_item p st | Some _ => Ok (p, st) end) = Ok (p1, st1) /\ write_inv p1 st1 /\
    w_current (ps_write p1) = Some i /\ todo p1 st1 = todo p st /\ accounts p st p1 st1 /\ same_rest p p1) as [[Ec Eq]|(p1 & st1 & i & E1 & I1 & Ec1 & Et & A1 & R1)].
  { destruct (w_current (ps_write p)) as [i|] eqn:Ec; [right; exists p, st, i; split_and!; try done; by split; [apply keeps_refl|]|].
    destruct (ps_send_queue p) as [|i q] eqn:Eq; [by left|]. right. destruct (prepare_spec p st i q I Ec Eq) as (p1 & st1 & H1 & H2 & H3 & H4 & H5 & H6 & _).
    by exists p1, st1, i. }
  { rewrite Ec, prepare_empty by done. cbn [mbind outcome_bind]. rewrite Ec. assert (todo p st = []) as Et by (unfold todo; by rewrite Ec, Eq).
    exists 0, [], [], p, st. split; [done|]. split; [split; [done|done|by split; [apply keeps_refl|]|by split_and!|by split; [left|]]|]. rewrite Et. split_and!; [|done|done]. split; [lia|by intros [_ []]]. }
  rewrite E1. cbn [mbind outcome_bind]. rewrite Ec1. pose proof (wi_current _ _ I1) as Hw. rewrite Ec1 in Hw.
  destruct (to_write_spec st1 _ i (wi_store _ _ I1) Hw) as (d & b & st2 & tail & E2 & Er & Ed & Hd). rewrite E2. cbn [mbind outcome_bind].
  assert (0 < Z.of_nat (length d)) as Hl by (destruct d; [done|]; simpl; lia). rewrite pa_assert_true by (by apply Z.ltb_lt). cbn [mbind outcome_bind].
  assert (todo p st <> []) as Hne. { rewrite <- Et. unfold todo. rewrite Ec1. cbn [from_option]. rewrite Ed. by destruct d. }
  assert (forall p2 st3 ret out evs, wrote p1 st1 ret out evs p2 st3 -> wrote p st ret out evs p2 st3) as Hback.
  { intros p2 st3 ret out evs [W1 W2 W3 W4 W5]. destruct A1 as [K1 A1], W3 as [K3 A3]. split; [done|by rewrite <- Et| | |].
    - split; [apply (keeps_trans st st1 st3); [apply (wi_store _ _ I)|apply (wi_store _ _ I1)|done|done]|]. intros j. by rewrite A3, A1.
    - destruct R1 as (Q1 & Q2 & Q3 & Q4 & Q5 & Q6), W4 as (P1 & P2 & P3 & P4 & P5 & P6). split_and!; congruence.
    - destruct R1 as (_ & <- & _). done. }
  destruct (Z.ltb_spec r 0) as [Hr|Hr]; rewrite Er; cbn [mbind outcome_bind].
  { exists (-1), [], [], p1, st1. split; [done|]. split; [|split_and!; [by split|lia|done]]. apply Hback. split; [done|done|by split; [apply keeps_refl|]|by split_and!|by split; [left|]]. }
  set (r' := Z.min r (Z.of_nat (length d))). pose proof Hw as [Hi (rest & Eb & Lr) Hx _ _]. 
  assert (get_word PA_PSTREAM_DESCRIPTOR_LENGTH (w_minibuf (ps_write p1)) = Ok (Z.of_nat (length (payload st1 i)))) as Eg by (rewrite Eb; by apply get_length).
  rewrite Eg. cbn [mbind outcome_bind].
  set (ret := if r' =? Z.of_nat (length d) then 1 else 0). set (out := take (Z.to_nat r') d).
  assert ((ret < 0 <-> r < 0 /\ todo p st <> []) /\ (0 < r -> todo p st <> [] -> out <> []) /\ (r <= 0 -> out = [])) as Hout.
  { split_and!; [unfold ret; destruct (r' =? _); lia| |intros H; unfold out, r'; by replace (Z.min r _) with 0 by lia].
    intros H _ E. apply (f_equal length) in E. unfold out in E. rewrite length_take in E. simpl in E. unfold r' in E. lia. }
  assert (length (frame st1 i) - Z.to_nat (w_index (ps_write p1)) = length d + length tail)%nat as Hlen by (rewrite <- length_app, <- Ed, length_drop; done).
  rewrite frame_length in Hx, Hlen. unfold PA_PSTREAM_DESCRIPTOR_SIZE.
  destruct (Z.leb_spec (20 + Z.of_nat (length (payload st1 i))) (w_index (ps_write p1) + r')) as [Hdone|Hmore].
  - assert (r' = Z.of_nat (length d) /\ tail = []) as [Er' ->] by (split; [|destruct tail; [done|]]; simpl in *; lia).
    destruct (complete_spec p1 st1 i I1 Ec1) as (st3 & st4 & E3 & E4 & S4 & K4 & A4). rewrite E3. cbn [mbind outcome_bind]. rewrite E4. cbn [mbind outcome_bind].
    eexists ret, out, _, _, st4. split; [done|]. split; [|exact Hout]. apply Hback, (write_last p1 st1 i st4 _ _ I1 Ec1); try done.
    unfold out. rewrite Ed, app_nil_r, Er', Nat2Z.id, take_ge; done.
  - eexists ret, out, _, _, st1. split; [done|]. split; [|exact Hout]. apply Hback, (write_more p1 st1 i d tail r' I1 Ec1 Ed); [unfold r'; lia|]. rewrite frame_length. lia.
Qed.

(** ** Sending *)

Lemma writing_keeps st st' w i : keeps st st' -> writing st w i -> (forall j, item_refs j i <= refs st' j) -> writing st' w i.
Proof.
  intros K [W1 W2 W3 W4 W5] Hr. destruct (item_keeps st st' i K W1 Hr) as [H1 H2]. split; try done; by rewrite H2.
Qed.

(** A new item in the queue, with a reference of its own. *)
Lemma queue_item p st st' i : write_inv p st -> store_ok st' -> keeps st st' -> item_ok st' i -> (forall j, refs st' j = refs st j + item_refs j i) ->
  let p' := set_queue_ps (ps_send_queue p ++ [i]) p in
  write_inv p' st' /\ accounts p st p' st' /\ todo p' st' = todo p st ++ frame st' i.
Proof.
  intros I S' K Hi A p'. pose proof I as [S Hq Hb Hc Hr].
  assert (accounts p st p' st') as Hacc.
  { split; [done|]. intros j. rewrite A. unfold ps_refs, write_refs. cbn [p' ps_send_queue ps_write ps_read set_queue_ps]. rewrite fmap_app, sumZ_app.
    cbn [fmap list_fmap]. unfold sumZ at 2. simpl. lia. }
  assert (forall j, ps_refs j p <= refs st' j) as Hr' by (intros j; rewrite A; specialize (Hr j); pose proof (item_refs_pos j i); lia).
  assert (forall j, sumZ (item_refs j <$> ps_send_queue p) <= refs st' j /\ from_option (item_refs j) 0 (w_current (ps_write p)) <= refs st' j) as Hparts.
  { intros j. specialize (Hr' j). unfold ps_refs, write_refs in Hr'. pose proof (sum_item_refs_nonneg j (ps_send_queue p)). pose proof (block_refs_nonneg (r_memblock (ps_read p)) j).
    pose proof (chunk_refs_nonneg (w_memchunk (ps_write p)) j). assert (0 <= from_option (item_refs j) 0 (w_current (ps_write p))) by (destruct (w_current _); simpl; [apply item_refs_pos|lia]). lia. }
  destruct (items_keep st st' (ps_send_queue p) K Hq) as [Hq' Hf]; [intros j; apply Hparts|]. split; [|split; [done|]].
  - split; [done|by apply Forall_app; split; [|constructor]|done| |].
    + cbn [p' ps_write set_queue_ps]. destruct (w_current (ps_write p)) as [i0|]; [|done]. apply (writing_keeps st); [done|done|]. intros j. apply Hparts.
    + intros j. destruct Hacc as [_ Hacc]. specialize (Hacc j). specialize (Hr j). lia.
  - unfold todo. cbn [p' ps_send_queue ps_write set_queue_ps]. rewrite fmap_app, concat_app, Hf, <- app_assoc. f_equal; [|f_equal; simpl; by rewrite app_nil_r].
    destruct (w_current (ps_write p)) as [i0|] eqn:Ec; [|done]. simpl in *. f_equal. destruct (item_keeps st st' i0 K) as [_ ->]; [apply Hc|intros j; apply Hparts|done].
Qed.

Lemma send_packet_spec packet p st : write_inv p st -> ps_dead p = false -> 0 < Z.of_nat (length packet) <= FRAME_SIZE_MAX_ALLOW ->
  write_inv (pa_pstream_send_packet packet p) st /\ todo (pa_pstream_send_packet packet p) st = todo p st ++ frame st (ITEM_PACKET packet).
Proof.
  intros I Hd Hl. unfold pa_pstream_send_packet. rewrite Hd. destruct (queue_item p st st (ITEM_PACKET packet) I) as (H1 & _ & H2); [apply I|apply keeps_refl|done|simpl; lia|].
  split; [|exact H2]. destruct H1. by split.
Qed.

(** A block is sent in pieces that together are the block, each with the channel, the offset and the
    seek mode of the whole. *)
Lemma send_loop_spec bsm channel offset mode chunk b : 0 < bsm <= FRAME_SIZE_MAX_ALLOW -> mc_memblock chunk = Some b -> 0 <= channel < 2 ^ 32 - 1 -> - 2 ^ 63 <= offset < 2 ^ 63 ->
  0 <= mode <= PA_SEEK_RELATIVE_END -> forall fuel idx len p st, write_inv p st -> 0 <= idx -> 0 <= len <= Z.of_nat fuel -> 0 <= mc_index chunk -> 0 < refs st b ->
  mc_index chunk + idx + len <= Z.of_nat (length (bytes st b)) ->
  exists p' st' cs, send_loop fuel bsm idx len channel offset mode chunk p st = Ok (p', st') /\ write_inv p' st' /\ accounts p st p' st' /\
    p' = set_queue_ps (ps_send_queue p ++ ((fun c => ITEM_MEMBLOCK c channel offset mode) <$> cs)) p /\
    concat (chunk_bytes st <$> cs) = sub_list (mc_index chunk + idx) len (bytes st b) /\ Forall (fun c => mc_memblock c = Some b /\ 0 < mc_length c <= bsm) cs.
Proof.
  intros Hb Em Hch Ho Hm. induction fuel as [|fuel IH]; intros idx len p st I Hi Hl Hx Hr Hin; cbn [send_loop]; (destruct (Z.ltb_spec 0 len) as [Hpos|Hnp];
    [try lia|assert (len = 0) as -> by lia; exists p, st, []; cbn [fmap list_fmap concat]; rewrite !app_nil_r; split_and!; try done; by destruct p]).
  rewrite Em. cbn [deref mbind outcome_bind]. destruct (pa_memblock_ref_spec st b (wi_store _ _ I) Hr) as (st1 & E1 & S1 & K1 & A1). rewrite E1. cbn [mbind outcome_bind].
  set (n := Z.min len bsm). set (c := mk_chunk (Some b) (mc_index chunk + idx) n). set (i := ITEM_MEMBLOCK c channel offset mode).
  assert (0 < refs st1 b) as Hr1 by (rewrite A1; unfold delta; case_decide; lia).
  assert (bytes st1 b = bytes st b) as Eb by (by apply (keeps_bytes _ _ K1)).
  assert (item_ok st1 i) as Hok.
  { split; [|split_and!; unfold FRAME_SIZE_MAX_ALLOW in *; simpl; try lia]. exists b. simpl. rewrite Eb. split_and!; try done; unfold n; lia. }
  destruct (queue_item p st st1 i I S1 K1 Hok) as (I1 & [_ Hacc] & _); [intros j; rewrite A1; done|]. set (p1 := set_queue_ps (ps_send_queue p ++ [i]) p) in *.
  destruct (IH (idx + n) (len - n) p1 st1 I1) as (p' & st' & cs & E & I' & [K' A'] & Ep' & Ecs & Hcs); [unfold n; lia|unfold n; lia|done|done|rewrite Eb; unfold n; lia|].
  exists p', st', (c :: cs). split; [done|]. split; [done|]. split; [|split; [|split; [|constructor; [|done]]]].
  - split; [apply (keeps_trans st st1 st'); [apply (wi_store _ _ I)|apply S1|done|done]|]. intros j. by rewrite A', Hacc.
  - rewrite Ep', fmap_cons. unfold p1. cbn [set_queue_ps ps_send_queue]. by rewrite <- app_assoc.
  - rewrite fmap_cons. cbn [concat]. assert (chunk_bytes st <$> cs = chunk_bytes st1 <$> cs) as ->.
    { apply list_fmap_ext. intros k x Ek. rewrite Forall_lookup in Hcs. destruct (Hcs k x Ek) as [Ex _]. unfold chunk_bytes. by rewrite Ex, Eb. }
    rewrite Ecs, Eb. unfold chunk_bytes at 1. cbn [c mc_memblock mc_index mc_length]. rewrite Z.add_assoc, <- sub_list_app by (unfold n; lia). f_equal. lia.
  - split; [done|]. simpl. unfold n. lia.
Qed.

Lemma send_memblock_spec channel offset mode chunk p st : write_inv p st -> ps_dead p = false -> chunk_in st chunk ->
  0 < pa_mempool_block_size_max (st_pool st) <= FRAME_SIZE_MAX_ALLOW -> 0 <= channel < 2 ^ 32 - 1 -> - 2 ^ 63 <= offset < 2 ^ 63 -> 0 <= mode <= PA_SEEK_RELATIVE_END ->
  exists p' st' cs, pa_pstream_send_memblock channel offset mode chunk p st = Ok (p', st') /\ write_inv p' st' /\ accounts p st p' st' /\
    ps_send_queue p' = ps_send_queue p ++ ((fun c => ITEM_MEMBLOCK c channel offset mode) <$> cs) /\ concat (chunk_bytes st <$> cs) = chunk_bytes st chunk /\
    Forall (fun c => 0 < mc_length c <= pa_mempool_block_size_max (st_pool st)) cs.
Proof.
  intros I Hd (b & Em & Hr & Hx & Hl & Hin) Hb Hch Ho Hm. unfold pa_pstream_send_memblock. rewrite pa_assert_true by (apply negb_true_iff, Z.eqb_neq; lia).
  cbn [mbind outcome_bind]. rewrite Hd.
  destruct (send_loop_spec _ channel offset mode chunk b Hb Em Hch Ho Hm (Z.to_nat (mc_length chunk)) 0 (mc_length chunk) p st I) as (p' & st' & cs & E & I' & A' & Ep & Ecs & Hcs);
    [lia|lia|done|done|lia|]. rewrite E. cbn [mbind outcome_bind]. exists (set_defer true p'), st', cs. split; [done|]. split; [destruct I'; by split|]. split; [done|].
  split; [by rewrite Ep|]. split; [|eapply Forall_impl; [exact Hcs|]; naive_solver]. rewrite Ecs, Z.add_0_r. unfold chunk_bytes. by rewrite Em.
Qed.

(** ** Freeing *)

Lemma free_queue_spec l : forall st, store_ok st -> Forall (item_ok st) l -> (forall j, sumZ (item_refs j <$> l) <= refs st j) ->
  exists st', free_queue l st = Ok st' /\ store_ok st' /\ keeps st st' /\ forall j, refs st' j = refs st j - sumZ (item_refs j <$> l).
Proof.
  induction l as [|i l IH]; intros st S Hl Hr.
  { exists st. split; [done|]. split; [done|]. split; [apply keeps_refl|]. intros j. unfold sumZ. simpl. lia. }
  apply Forall_cons in Hl as [Hi Hl]. cbn [free_queue].
  assert (exists st1, item_free i st = Ok st1 /\ store_ok st1 /\ keeps st st1 /\ forall j, refs st1 j = refs st j - item_refs j i) as (st1 & E1 & S1 & K1 & A1).
  { destruct i as [packet|c channel offset mode|id|id]; simpl; try (exists st; split_and!; [done|done|apply keeps_refl|lia]).
    destruct Hi as [(b & Em & Hb & _) _]. rewrite Em. cbn [deref mbind outcome_bind]. destruct (pa_memblock_unref_spec st b S Hb) as (st1 & E & S1 & K1 & _ & A1).
    exists st1. split_and!; try done. intros j. rewrite A1. unfold chunk_refs. rewrite Em. unfold delta. case_decide; lia. }
  rewrite E1. cbn [mbind outcome_bind]. assert (forall j, sumZ (item_refs j <$> l) <= refs st1 j) as Hr1 by (intros j; specialize (Hr j); rewrite sum_refs_cons in Hr; rewrite A1; lia).
  destruct (items_keep st st1 l K1 Hl Hr1) as [Hl1 _]. destruct (IH st1 S1 Hl1 Hr1) as (st2 & E2 & S2 & K2 & A2). exists st2. split_and!; try done.
  - apply (keeps_trans st st1 st2); [apply S|apply S1|done|done].
  - intros j. rewrite A2, A1, sum_refs_cons. lia.
Qed.

Lemma unref_opt_spec b st : store_ok st -> (forall j, block_refs b j <= refs st j) ->
  exists st', unref_opt b st = Ok st' /\ store_ok st' /\ keeps st st' /\ forall j, refs st' j = refs st j - block_refs b j.
Proof.
  intros S Hr. destruct b as [b|]; simpl; [|exists st; split_and!; [done|done|apply keeps_refl|lia]].
  destruct (pa_memblock_unref_spec st b S) as (st' & E & S' & K & _ & A); [specialize (Hr b); simpl in Hr; unfold delta in Hr; rewrite decide_True in Hr by done; lia|].
  exists st'. split_and!; try done. intros j. rewrite A. unfold delta. case_decide; lia.
Qed.

(** When a stream is freed it gives back all the references it has, and no more. *)
Lemma pstream_free_spec p st : write_inv p st -> exists st', pstream_free p st = Ok st' /\ store_ok st' /\ keeps st st' /\ forall j, refs st' j = refs st j - ps_refs j p.
Proof.
  intros I. pose proof I as [S Hq _ Hc Hr]. unfold ps_refs, write_refs in Hr. unfold pstream_free, ps_refs, write_refs.
  assert (forall j, chunk_refs (w_memchunk (ps_write p)) j = block_refs (mc_memblock (w_memchunk (ps_write p))) j) as Hcb by done.
  set (cur := match w_current (ps_write p) with Some i => [i] | None => [] end).
  assert (Forall (item_ok st) (ps_send_queue p ++ cur)) as Hall.
  { apply Forall_app. split; [done|]. unfold cur. destruct (w_current (ps_write p)); [|done]. constructor; [apply Hc|done]. }
  assert (forall j, sumZ (item_refs j <$> ps_send_queue p ++ cur) = sumZ (item_refs j <$> ps_send_queue p) + from_option (item_refs j) 0 (w_current (ps_write p))) as Hsum.
  { intros j. rewrite fmap_app, sumZ_app. unfold cur. destruct (w_current (ps_write p)); unfold sumZ; simpl; lia. }
  destruct (free_queue_spec (ps_send_queue p ++ cur) st S Hall) as (st1 & E1 & S1 & K1 & A1).
  { intros j. rewrite Hsum. specialize (Hr j). pose proof (chunk_refs_nonneg (w_memchunk (ps_write p)) j). pose proof (block_refs_nonneg (r_memblock (ps_read p)) j). lia. }
  assert (free_queue (ps_send_queue p ++ cur) st = (st ← free_queue (ps_send_queue p) st; match w_current (ps_write p) with Some i => item_free i st | None => Ok st end)) as Eapp.
  { clear. revert st. induction (ps_send_queue p) as [|i q IH]; intros st; simpl; [unfold cur; destruct (w_current (ps_write p)) as [i|]; simpl; [by destruct (item_free i st)|done]|].
    destruct (item_free i st); [apply IH|done|done]. }
  rewrite Eapp in E1. destruct (free_queue (ps_send_queue p) st) as [st0| |]; [|done|done]. cbn [mbind outcome_bind] in E1 |- *. rewrite E1. cbn [mbind outcome_bind].
  destruct (unref_opt_spec (mc_memblock (w_memchunk (ps_write p))) st1 S1) as (st2 & E2 & S2 & K2 & A2).
  { intros j. rewrite A1, Hsum, <- Hcb. specialize (Hr j). pose proof (block_refs_nonneg (r_memblock (ps_read p)) j). lia. }
  rewrite E2. cbn [mbind outcome_bind]. destruct (unref_opt_spec (r_memblock (ps_read p)) st2 S2) as (st3 & E3 & S3 & K3 & A3).
  { intros j. rewrite A2, A1, Hsum, <- Hcb. specialize (Hr j). lia. }
  exists st3. split_and!; try done.
  - apply (keeps_trans st st2 st3); [apply S|apply S2|apply (keeps_trans st st1 st2); [apply S|apply S1|done|done]|done].
  - intros j. rewrite A3, A2, A1, Hsum, <- Hcb. lia.
Qed.
