(* ===== verification/PstreamRecv.v ===== *)
(** * PstreamRecv: reading the frames of a stream

    Whatever arrives, and in whatever pieces, a read fails no assertion, touches only
    the memory of the frame that is being received, and either goes on or gives up
    the connection. *)
From stdpp Require Import base tactics numbers list gmap.
From S2P Require Import Prelude Memblock Tagstruct Pstream PstreamSend.

(** ** Words that were received *)

Definition byte_cell (c : cell) : Prop := exists b, c = Some b /\ 0 <= b < 256.

Lemma bytes_of l : Forall byte_cell l -> exists bs, l = Some <$> bs /\ Forall (fun b => 0 <= b < 256) bs.
Proof.
  induction 1 as [|c l (b & -> & Hb) _ (bs & -> & Hbs)]; [by exists []|]. exists (b :: bs). split; [done|by constructor].
Qed.

Lemma get_word_bytes k buf : 0 <= k -> 4 * k + 4 <= Z.of_nat (length buf) -> Forall byte_cell buf -> exists v, get_word k buf = Ok v /\ 0 <= v < 2 ^ 32.
Proof.
  intros Hk Hl Hb. unfold get_word. assert (Forall byte_cell (sub_list (4 * k) 4 buf)) as Hs by (unfold sub_list; by apply Forall_take, Forall_drop).
  pose proof (sub_list_length (4 * k) 4 buf ltac:(lia) ltac:(lia) ltac:(lia)) as L. destruct (bytes_of _ Hs) as (bs & Ebs & Hbs). rewrite Ebs in L |- *.
  rewrite mapM_cells. cbn [deref mbind outcome_bind]. eexists. split; [done|]. rewrite length_fmap in L.
  assert (Forall (fun b => 0 <= b < 256) (reverse bs)) as Hr by (by apply Forall_reverse). pose proof (le_combine_bound _ Hr) as B.
  rewrite length_reverse, L in B. exact B.
Qed.

(** A [memcpy] behind what was already there. *)
Lemma splice_take {A} (off : nat) (src dst r : list A) : splice (Z.of_nat off) src dst = Some r -> take (off + length src) r = take off dst ++ src.
Proof.
  unfold splice. destruct (_ && _) eqn:E; [|done]. intros [= <-]. apply andb_true_iff in E as [_ E%Z.leb_le]. rewrite Nat2Z.id.
  rewrite take_app_ge by (rewrite length_take; lia). rewrite length_take, Nat.min_l by lia. replace (off + length src - off)%nat with (length src) by lia.
  by rewrite take_app_length.
Qed.

Lemma splice_forall {A} (P : A -> Prop) off (src dst r : list A) : splice off src dst = Some r -> Forall P src -> Forall P dst -> Forall P r.
Proof.
  unfold splice. destruct (_ && _); [|done]. intros [= <-] H1 H2. apply Forall_app. split; [by apply Forall_take|]. apply Forall_app. split; [done|by apply Forall_drop].
Qed.

(** ** The state of the reader *)

(** A descriptor that is accepted. *)
Definition good_header (d : list cell) : Prop :=
  exists len channel flags, get_word PA_PSTREAM_DESCRIPTOR_LENGTH d = Ok len /\ get_word PA_PSTREAM_DESCRIPTOR_CHANNEL d = Ok channel /\
    get_word PA_PSTREAM_DESCRIPTOR_FLAGS d = Ok flags /\ Z.land flags PA_FLAG_SHMMASK = 0 /\ 0 < len <= FRAME_SIZE_MAX_ALLOW /\
    (if channel =? 2 ^ 32 - 1 then flags = 0 else Z.land flags PA_FLAG_SEEKMASK <= PA_SEEK_RELATIVE_END).

(** The block of the frame, which nobody else knows. *)
Definition own_block (st : store) (b : Z) (len : Z) (data : list cell) : Prop :=
  exists blk, st_blocks st !! b = Some blk /\ mb_refcnt blk = 1 /\ Z.of_nat (length (mb_data blk)) = len /\ take (length data) (mb_data blk) = data.

(** The bytes [cs] of a frame have been read. *)
Record reading (st : store) (re : pstream_read) (cs : list cell) : Prop := {
  rd_desc : length (r_descriptor re) = 20%nat /\ Forall byte_cell (r_descriptor re);
  rd_index : r_index re = Z.of_nat (length cs);
  rd_state :
    (length cs < 20)%nat /\ r_memblock re = None /\ r_packet re = None /\ take (length cs) (r_descriptor re) = cs \/
    (20 <= length cs)%nat /\ r_descriptor re = take 20 cs /\ good_header (r_descriptor re) /\
    exists len channel, get_word PA_PSTREAM_DESCRIPTOR_LENGTH (r_descriptor re) = Ok len /\ get_word PA_PSTREAM_DESCRIPTOR_CHANNEL (r_descriptor re) = Ok channel /\
      0 < len <= FRAME_SIZE_MAX_ALLOW /\ Z.of_nat (length cs) < 20 + len /\
      (r_memblock re = None /\ channel = 2 ^ 32 - 1 /\
         (exists packet, r_packet re = Some packet /\ Z.of_nat (length packet) = len /\ take (length cs - 20) packet = drop 20 cs) \/
       r_packet re = None /\ channel <> 2 ^ 32 - 1 /\ (exists b, r_memblock re = Some b /\ own_block st b len (drop 20 cs)))
}.

(** The blocks that are none of the reader's business. *)
Definition other_blocks (re : pstream_read) (st : store) : gmap Z pa_memblock :=
  match r_memblock re with Some b => delete b (st_blocks st) | None => st_blocks st end.

Definition has_room (re : pstream_read) (st : store) : Prop := msum mb_length (other_blocks re st) + FRAME_SIZE_MAX_ALLOW < 2 ^ 31.

Record read_inv (p : pa_pstream) (st : store) (cs : list cell) : Prop := {
  ri_store : store_ok st;
  ri_reading : reading st (ps_read p) cs;
  ri_room : has_room (ps_read p) st
}.

Lemma to_read_spec st re cs : reading st re cs -> exists l, to_read re = Ok l /\ 0 < l /\
  (r_index re < 20 -> r_index re + l = 20) /\ (20 <= r_index re -> exists len, get_word PA_PSTREAM_DESCRIPTOR_LENGTH (r_descriptor re) = Ok len /\ r_index re + l = 20 + len).
Proof.
  intros [_ Hi [(H1 & _)|(H1 & _ & _ & len & channel & El & _ & Hl & Hc & Hp)]]; unfold to_read, PA_PSTREAM_DESCRIPTOR_SIZE.
  - destruct (Z.ltb_spec (r_index re) 20); [|lia]. exists (20 - r_index re). split_and!; [done|lia|lia|lia].
  - destruct (Z.ltb_spec (r_index re) 20); [lia|].
    rewrite pa_assert_true. 2: { destruct Hp as [(_ & _ & packet & -> & _)|(_ & _ & b & -> & _)]; [by rewrite bool_decide_true by (by eexists)|].
      apply orb_true_iff. right. apply bool_decide_eq_true. by eexists. }
    cbn [mbind outcome_bind]. rewrite El. cbn [mbind outcome_bind]. eexists. split; [done|]. split_and!; [lia|lia|]. intros _. exists len. split; [done|lia].
Qed.

(** ** Storing what was read *)

Lemma write_block_ok st b blk off src d : store_ok st -> st_blocks st !! b = Some blk -> splice off src (mb_data blk) = Some d ->
  ('(_, st) ← pa_memblock_acquire b st; st ← write_data b off src st; pa_memblock_release b st) = Ok (set_block b (with_data d blk) st) /\
  store_ok (set_block b (with_data d blk) st).
Proof.
  intros [Hwf Hq] Hb Hs. pose proof (wf_block _ Hwf _ _ Hb) as []. split.
  - unfold pa_memblock_acquire, write_data, pa_memblock_release. rewrite (get_block_ok _ Hwf _ _ Hb). cbn [mbind outcome_bind st_blocks set_block].
    rewrite lookup_insert_eq. cbn [deref mbind outcome_bind mb_data with_n_acquired]. rewrite Hs. cbn [deref mbind outcome_bind]. unfold get_block. cbn [st_blocks set_block].
    rewrite lookup_insert_eq. cbn [deref mbind outcome_bind mb_refcnt with_n_acquired with_data mb_n_acquired].
    rewrite pa_assert_true by (by apply Z.ltb_lt). cbn [mbind outcome_bind]. rewrite pa_assert_true by (apply Z.leb_le; simpl; lia). cbn [mbind outcome_bind].
    f_equal. unfold set_block. simpl. rewrite !insert_insert_eq. f_equal. f_equal. unfold with_n_acquired, with_data. simpl. f_equal. lia.
  - split; [|apply quiet_set_block; [done|]; apply (Hq _ _ Hb)]. apply (wf_set_block _ Hwf _ blk); simpl; try done. by apply splice_length in Hs.
Qed.

(** The state after [got] was stored. *)
Definition stored (st : store) (re : pstream_read) (cs got : list cell) (st' : store) (re' : pstream_read) : Prop :=
  store_ok st' /\ r_index re' = Z.of_nat (length (cs ++ got)) /\ length (r_descriptor re') = 20%nat /\ Forall byte_cell (r_descriptor re') /\
  r_memblock re' = r_memblock re /\ other_blocks re' st' = other_blocks re st /\
  ((length cs < 20)%nat /\ r_memblock re = None /\ r_packet re' = None /\ st' = st /\ take (length (cs ++ got)) (r_descriptor re') = cs ++ got \/
   (20 <= length cs)%nat /\ r_descriptor re' = r_descriptor re /\ r_descriptor re = take 20 (cs ++ got) /\ good_header (r_descriptor re) /\
   exists len channel, get_word PA_PSTREAM_DESCRIPTOR_LENGTH (r_descriptor re) = Ok len /\ get_word PA_PSTREAM_DESCRIPTOR_CHANNEL (r_descriptor re) = Ok channel /\
     0 < len <= FRAME_SIZE_MAX_ALLOW /\
     (r_memblock re = None /\ channel = 2 ^ 32 - 1 /\
        (exists packet, r_packet re' = Some packet /\ Z.of_nat (length packet) = len /\ take (length (cs ++ got) - 20) packet = drop 20 (cs ++ got)) \/
      r_packet re' = None /\ channel <> 2 ^ 32 - 1 /\ (exists b, r_memblock re = Some b /\ own_block st' b len (drop 20 (cs ++ got))))).

Lemma store_read_spec st re cs got l : store_ok st -> reading st re cs -> to_read re = Ok l -> Z.of_nat (length got) <= l ->
  ((length cs < 20)%nat -> Forall byte_cell got) -> exists re' st', store_read got re st = Ok (re', st') /\ stored st re cs got st' re'.
Proof.
  intros S R El Hl Hg. pose proof R as [[D1 D2] Hi Hst]. destruct (to_read_spec st re cs R) as (l' & El' & _ & L1 & L2). rewrite El in El'. injection El' as <-.
  unfold store_read, PA_PSTREAM_DESCRIPTOR_SIZE. destruct Hst as [(H1 & Hm & Hp & Ht)|(H1 & Hd & Hgh & len & channel & Elen & Ech & Hlen & Hc & Hpb)].
  - destruct (Z.ltb_spec (r_index re) 20) as [Hlt|]; [|lia]. specialize (L1 Hlt). destruct (splice_some (r_index re) got (r_descriptor re)) as [d Ed]; [lia|lia|].
    rewrite Ed. cbn [deref mbind outcome_bind]. eexists _, st. split; [done|]. rewrite Hi in Ed. pose proof (splice_take _ _ _ _ Ed) as Et. pose proof (splice_length _ _ _ _ Ed) as Ll.
    unfold stored. simpl. rewrite length_app. split_and!; try done; [rewrite Hi; lia|lia|apply (splice_forall _ _ _ _ _ Ed); auto|].
    left. rewrite Et, Ht. by split_and!.
  - destruct (Z.ltb_spec (r_index re) 20) as [Hlt|_]; [lia|]. destruct (L2 ltac:(lia)) as (len' & El2 & L3). rewrite Elen in El2. injection El2 as <-.
    assert (r_index re - 20 = Z.of_nat (length cs - 20)) as Eoff by lia. rewrite Eoff.
    assert (length (drop 20 cs) = (length cs - 20)%nat) as Ldr by (by rewrite length_drop).
    assert (drop 20 (cs ++ got) = drop 20 cs ++ got) as Edr by (by rewrite drop_app_le by lia).
    assert (r_descriptor re = take 20 (cs ++ got)) as Ede by (rewrite take_app_le by lia; done).
    destruct Hpb as [(Hm & Hch & packet & Ep & Lp & Tp)|(Hp & Hch & b & Eb & blk & Eblk & Rb & Lb & Tb)].
    + rewrite Ep. destruct (splice_some (Z.of_nat (length cs - 20)) got packet) as [pk Ek]; [lia|lia|]. rewrite Ek. cbn [deref mbind outcome_bind].
      eexists _, st. split; [done|]. pose proof (splice_take _ _ _ _ Ek) as Et. pose proof (splice_length _ _ _ _ Ek) as Ll. unfold stored. cbn [r_index r_descriptor r_memblock r_packet].
      rewrite length_app. split_and!; try done; [rewrite Hi; lia|]. right. split_and!; [done|done|done|done|]. exists len, channel. split; [done|]. split; [done|]. split; [done|]. left. split_and!; try done. exists pk.
      split_and!; [done|lia|]. rewrite Edr, <- Tp, <- Et. f_equal. lia.
    + rewrite Hp, Eb. cbn [deref mbind outcome_bind]. destruct (splice_some (Z.of_nat (length cs - 20)) got (mb_data blk)) as [d Ed]; [lia|lia|].
      destruct (write_block_ok st b blk _ got d S Eblk Ed) as [Ew S']. set (st' := set_block b (with_data d blk) st) in *.
      destruct (pa_memblock_acquire b st) as [[dd st1]| |]; [|done|done]. cbn [mbind outcome_bind] in Ew |- *.
      destruct (write_data b (Z.of_nat (length cs - 20)) got st1) as [st2| |]; [|done|done]. cbn [mbind outcome_bind] in Ew |- *. rewrite Ew. cbn [mbind outcome_bind].
      eexists _, st'. split; [done|]. pose proof (splice_take _ _ _ _ Ed) as Et. pose proof (splice_length _ _ _ _ Ed) as Ll.
      unfold stored. cbn [r_index r_descriptor r_memblock r_packet]. rewrite length_app. split_and!; try done; [rewrite Hi; lia| |].
      * unfold other_blocks. cbn [r_memblock]. rewrite Eb. unfold st'. simpl. by rewrite delete_insert_eq.
      * right. split_and!; [done|done|done|done|]. exists len, channel. split; [done|]. split; [done|]. split; [done|]. right. split_and!; try done. exists b. split; [done|].
        exists (with_data d blk). unfold st'. simpl. rewrite lookup_insert_eq. split_and!; [done|done|lia|]. rewrite Edr, length_app, Ldr, Et, <- Tb, Ldr. done.
Qed.

(** ** Descriptors *)

Lemma descriptor_done_spec st re cs : store_ok st -> length cs = 20%nat -> r_descriptor re = cs -> Forall byte_cell cs -> r_memblock re = None -> r_packet re = None ->
  r_index re = 20 -> has_room re st ->
  exists res st', descriptor_done re st = Ok (res, st') /\ store_ok st' /\
    match res with
    | None => st' = st /\ ~ good_header cs
    | Some re' => good_header cs /\ reading st' re' cs /\ other_blocks re' st' = other_blocks re st
    end.
Proof.
  intros S Lc Ed Hb Hm Hp Hi Hroom. unfold descriptor_done. rewrite Ed.
  destruct (get_word_bytes PA_PSTREAM_DESCRIPTOR_FLAGS cs ltac:(done) ltac:(rewrite Lc; done) Hb) as (flags & Ef & _).
  destruct (get_word_bytes PA_PSTREAM_DESCRIPTOR_LENGTH cs ltac:(done) ltac:(rewrite Lc; done) Hb) as (len & El & Hlen).
  destruct (get_word_bytes PA_PSTREAM_DESCRIPTOR_CHANNEL cs ltac:(done) ltac:(rewrite Lc; done) Hb) as (channel & Ec & Hch).
  assert (good_header cs -> Z.land flags PA_FLAG_SHMMASK = 0 /\ 0 < len <= FRAME_SIZE_MAX_ALLOW /\
    (if channel =? 2 ^ 32 - 1 then flags = 0 else Z.land flags PA_FLAG_SEEKMASK <= PA_SEEK_RELATIVE_END)) as Hgood.
  { intros (len' & ch' & fl' & E1 & E2 & E3 & H). rewrite El in E1. rewrite Ec in E2. rewrite Ef in E3. injection E1 as <-. injection E2 as <-. injection E3 as <-. exact H. }
  rewrite Ef. cbn [mbind outcome_bind]. destruct (Z.eqb_spec (Z.land flags PA_FLAG_SHMMASK) 0) as [Hf|Hf]; cbn [negb].
  2: { exists None, st. split_and!; try done. intros H. by destruct (Hgood H). }
  rewrite El. cbn [mbind outcome_bind]. destruct ((FRAME_SIZE_MAX_ALLOW <? len) || (len <=? 0)) eqn:Eb.
  { exists None, st. split_and!; try done. intros H. destruct (Hgood H) as (_ & Hl & _). apply orb_true_iff in Eb as [Eb%Z.ltb_lt|Eb%Z.leb_le]; lia. }
  apply orb_false_iff in Eb as [Eb1%Z.ltb_ge Eb2%Z.leb_gt]. rewrite Hp, Hm, !bool_decide_false by (intros [? ?]; done). cbn [negb andb pa_assert mbind outcome_bind].
  rewrite Ec. cbn [mbind outcome_bind].
  assert (good_header cs <-> if channel =? 2 ^ 32 - 1 then flags = 0 else Z.land flags PA_FLAG_SEEKMASK <= PA_SEEK_RELATIVE_END) as Hiff.
  { split; [intros H; by apply (Hgood H)|]. intros H. exists len, channel, flags. by split_and!. }
  assert (forall re' st', good_header cs -> r_descriptor re' = cs -> r_index re' = 20 ->
    (r_memblock re' = None /\ channel = 2 ^ 32 - 1 /\ (exists packet, r_packet re' = Some packet /\ Z.of_nat (length packet) = len) \/
     r_packet re' = None /\ channel <> 2 ^ 32 - 1 /\ (exists b, r_memblock re' = Some b /\ own_block st' b len [])) -> reading st' re' cs) as Hrd.
  { intros re' st' Hg E1 E2 H. split; [by rewrite E1|by rewrite Lc|]. right. split; [lia|]. rewrite E1, take_ge by lia. split; [done|]. split; [done|]. exists len, channel. rewrite Lc.
    split; [done|]. split; [done|]. split; [done|]. split; [lia|]. rewrite drop_ge by lia. destruct H as [(H1 & H2 & pk & H3 & H4)|H]; [left|by right].
    split_and!; try done. by exists pk. }
  destruct (Z.eqb_spec channel (2 ^ 32 - 1)) as [Hc|Hc].
  - destruct (Z.eqb_spec flags 0) as [Hf0|Hf0]; cbn [negb]; [|exists None, st; split_and!; try done; by rewrite Hiff].
    eexists (Some _), st. split; [done|]. split_and!; try done; [by apply Hiff|apply Hrd; try done; [by apply Hiff|left]|unfold other_blocks; simpl; by rewrite Hm].
    split_and!; try done. eexists. split; [done|]. apply uninit_length. lia.
  - destruct (Z.ltb_spec PA_SEEK_RELATIVE_END (Z.land flags PA_FLAG_SEEKMASK)) as [Hs|Hs]; [exists None, st; split_and!; try done; rewrite Hiff; lia|].
    unfold has_room, other_blocks in Hroom. rewrite Hm in Hroom.
    destruct (pa_memblock_new_spec st len S ltac:(lia) ltac:(lia)) as (b & st' & En & S' & K & Eb & Hrf & (blk & Eblk & _ & Edat) & Hoth & _). rewrite En. cbn [mbind outcome_bind].
    eexists (Some _), st'. split; [done|]. split_and!; try done; [by apply Hiff|apply Hrd; try done; [by apply Hiff|right]|].
    + split_and!; try done. exists b. split; [done|]. exists blk. split_and!; [done| |rewrite Edat; apply uninit_length; lia|done].
      specialize (Hrf b). unfold refs, delta in Hrf. rewrite Eblk, Eb, (lookup_next st (proj1 S)), decide_True in Hrf by done. exact Hrf.
    + unfold other_blocks. cbn [r_memblock]. rewrite Hm. apply map_eq. intros j. destruct (decide (j = b)) as [->|Hne]; [|rewrite lookup_delete_ne by done; by apply Hoth].
      rewrite lookup_delete_eq, Eb. symmetry. apply lookup_next, S.
Qed.

(** ** Complete frames *)

(** What the callbacks get of a frame. *)
Definition frame_events (p : pa_pstream) (cs : list cell) : list ps_event :=
  match get_word PA_PSTREAM_DESCRIPTOR_CHANNEL (take 20 cs), get_word PA_PSTREAM_DESCRIPTOR_OFFSET_HI (take 20 cs),
        get_word PA_PSTREAM_DESCRIPTOR_OFFSET_LO (take 20 cs), get_word PA_PSTREAM_DESCRIPTOR_FLAGS (take 20 cs) with
  | Ok channel, Ok hi, Ok lo, Ok flags =>
      if channel =? 2 ^ 32 - 1 then if ps_receive_packet_callback p then [EvPacket (drop 20 cs)] else []
      else if ps_receive_memblock_callback p then [EvMemblock channel (s64 (word64 hi lo)) (Z.land flags PA_FLAG_SEEKMASK) (drop 20 cs)] else []
  | _, _, _, _ => []
  end.

Lemma unref_last st b blk : store_ok st -> st_blocks st !! b = Some blk -> mb_refcnt blk = 1 ->
  exists st', pa_memblock_unref b st = Ok st' /\ store_ok st' /\ st_blocks st' = delete b (st_blocks st).
Proof.
  intros S Hb Hr. unfold pa_memblock_unref. rewrite (get_block_ok _ (proj1 S) _ _ Hb). cbn [mbind outcome_bind]. rewrite Hr. simpl.
  destruct (memblock_free_spec _ _ _ S Hb) as (p & -> & _ & Hok). eexists. split; [done|]. by split.
Qed.

Lemma frame_done_spec p st cs len channel : let re := ps_read p in
  store_ok st -> r_index re = Z.of_nat (length cs) -> r_descriptor re = take 20 cs -> Forall byte_cell (r_descriptor re) -> length (r_descriptor re) = 20%nat ->
  Z.of_nat (length cs) = 20 + len -> 0 < len -> get_word PA_PSTREAM_DESCRIPTOR_CHANNEL (r_descriptor re) = Ok channel ->
  (r_memblock re = None /\ channel = 2 ^ 32 - 1 /\ (exists packet, r_packet re = Some packet /\ Z.of_nat (length packet) = len /\ take (length cs - 20) packet = drop 20 cs) \/
   r_packet re = None /\ channel <> 2 ^ 32 - 1 /\ (exists b, r_memblock re = Some b /\ own_block st b len (drop 20 cs))) ->
  exists st', frame_done p st = Ok (frame_events p cs, set_read (mk_pread (r_descriptor re) None None 0) p, st') /\ store_ok st' /\ st_blocks st' = other_blocks re st.
Proof.
  intros re S Hi Hd Hb Ld Hl Hpos Ec Hpb. unfold frame_done, frame_events. fold re. rewrite <- Hd, Ec.
  destruct (get_word_bytes PA_PSTREAM_DESCRIPTOR_OFFSET_HI (r_descriptor re) ltac:(done) ltac:(rewrite Ld; done) Hb) as (hi & Eh & _).
  destruct (get_word_bytes PA_PSTREAM_DESCRIPTOR_OFFSET_LO (r_descriptor re) ltac:(done) ltac:(rewrite Ld; done) Hb) as (lo & El & _).
  destruct (get_word_bytes PA_PSTREAM_DESCRIPTOR_FLAGS (r_descriptor re) ltac:(done) ltac:(rewrite Ld; done) Hb) as (flags & Ef & _). rewrite Eh, El, Ef.
  destruct Hpb as [(Hm & -> & packet & Ep & Lp & Tp)|(Hp & Hc & b & Em & blk & Eblk & Rb & Lb & Tb)].
  - rewrite Hm, Ep. cbn [mbind outcome_bind]. rewrite take_ge in Tp by lia. subst packet. exists st. split; [done|]. split; [done|]. unfold other_blocks. by rewrite Hm.
  - rewrite Em, (proj2 (Z.eqb_neq channel (2 ^ 32 - 1)) Hc). unfold memblock_complete. fold re. destruct (unref_last st b blk S Eblk Rb) as (st' & Eu & S' & Eb').
    assert (chunk_bytes st (mk_chunk (Some b) 0 (r_index re - PA_PSTREAM_DESCRIPTOR_SIZE)) = drop 20 cs) as Ecb.
    { unfold chunk_bytes, sub_list, bytes. cbn [mc_memblock mc_index mc_length]. rewrite Eblk, drop_0. cbn [from_option]. unfold PA_PSTREAM_DESCRIPTOR_SIZE. etransitivity; [|exact Tb]. f_equal.
      rewrite length_drop, Hi. lia. }
    exists st'. split; [|split; [done|unfold other_blocks; by rewrite Em]]. destruct (ps_receive_memblock_callback p).
    + rewrite Ec, Eh, El, Ef. cbn [mbind outcome_bind]. rewrite Ecb, Eu. done.
    + cbn [mbind outcome_bind]. rewrite Eu. done.
Qed.

(** ** A read *)

(** What one read does, when [cs] was there and [got] comes. *)
Inductive read_result (p : pa_pstream) (st : store) (cs got : list cell) : Z -> list ps_event -> pa_pstream -> store -> Prop :=
| read_nothing : got = [] -> read_result p st cs got (-1) [] p st
| read_refused p' : got <> [] -> length (cs ++ got) = 20%nat -> ~ good_header (cs ++ got) -> p' = set_read (ps_read p') p ->
    r_memblock (ps_read p') = None -> r_memblock (ps_read p) = None -> read_result p st cs got (-1) [] p' st
| read_more p' st' : got <> [] -> read_inv p' st' (cs ++ got) -> other_blocks (ps_read p') st' = other_blocks (ps_read p) st ->
    p' = set_read (ps_read p') p -> read_result p st cs got 0 [] p' st'
| read_frame p' st' : got <> [] -> read_inv p' st' [] -> st_blocks st' = other_blocks (ps_read p) st -> p' = set_read (ps_read p') p -> good_header (take 20 (cs ++ got)) ->
    get_word PA_PSTREAM_DESCRIPTOR_LENGTH (take 20 (cs ++ got)) = Ok (Z.of_nat (length (cs ++ got)) - 20) ->
    read_result p st cs got 0 (frame_events p (cs ++ got)) p' st'.

Lemma do_read_spec n inp p st cs : read_inv p st cs -> Forall byte_cell (take (20 - length cs) inp) ->
  exists ret rest evs p' st' got, do_read 64 n inp p st = Ok (ret, rest, evs, p', st') /\ inp = got ++ rest /\ read_result p st cs got ret evs p' st' /\
    (0 < n -> inp <> [] -> got <> []).
Proof.
  intros I Hb. pose proof I as [S R Hroom]. destruct (to_read_spec st (ps_read p) cs R) as (l & El & Hl & L1 & L2). unfold do_read. rewrite El. cbn [mbind outcome_bind].
  set (r := Z.min (Z.min n l) (Z.of_nat (length inp))). destruct (Z.leb_spec r 0) as [Hr|Hr].
  { exists (-1), inp, [], p, st, []. split_and!; try done; [by apply read_nothing|]. intros Hn Hne. destruct inp; [done|]. unfold r in Hr. simpl in Hr. lia. }
  set (got := take (Z.to_nat r) inp). assert (Z.of_nat (length got) = r) as Lg by (unfold got; rewrite length_take; unfold r in *; lia).
  assert (got <> []) as Hg by (intros E; rewrite E in Lg; simpl in Lg; lia). pose proof (rd_index _ _ _ R) as Hi.
  destruct (store_read_spec st (ps_read p) cs got l S R El) as (re' & st1 & Est & S1 & Hi' & Ld & Hbd & Em & Eo & Hst); [unfold r in Lg; lia| |].
  { intros Hc. unfold got. rewrite <- (take_drop (Z.to_nat r) (take (20 - length cs) inp)) in Hb. apply Forall_app in Hb as [Hb _]. rewrite take_take, Nat.min_l in Hb; [done|].
    unfold r. lia. }
  rewrite Est. cbn [mbind outcome_bind]. set (rest := drop (Z.to_nat r) inp). assert (inp = got ++ rest) as Einp by (symmetry; apply take_drop).
  assert (has_room re' st1) as Hroom1 by (unfold has_room in *; by rewrite Eo). rewrite length_app in Hi'. unfold PA_PSTREAM_DESCRIPTOR_SIZE.
  destruct Hst as [(Hc & Hm & Hp & -> & Ht)|(Hc & Ede & Edt & Hgh & len & channel & Elen & Ech & Hlen & Hpb)].
  - rewrite Hm in Em. specialize (L1 ltac:(lia)). destruct (Z.eqb_spec (r_index re') 20) as [Hx|Hx].
    + rewrite take_ge in Ht by (rewrite length_app; lia). destruct (descriptor_done_spec st re' (cs ++ got) S) as (res & st2 & Ed & S2 & Hres); try done.
      { rewrite length_app. lia. }
      { by rewrite <- Ht. }
      rewrite Ed. cbn [mbind outcome_bind]. destruct res as [re2|].
      * destruct Hres as (Hgh & Hrd & Eo2). exists 0, rest, [], (set_read re2 (set_read re' p)), st2, got. split; [done|]. split; [done|]. split; [|done].
        apply read_more; [done|split; [done|done|]|simpl; by rewrite Eo2|done]. unfold has_room in *. simpl. by rewrite Eo2.
      * destruct Hres as [-> Hgh]. exists (-1), rest, [], (set_read re' p), st, got. split; [done|]. split; [done|]. split; [|done].
        apply read_refused; try done. rewrite length_app. lia.
    + destruct (get_word_bytes PA_PSTREAM_DESCRIPTOR_LENGTH (r_descriptor re') ltac:(done) ltac:(rewrite Ld; done) Hbd) as (len & Elen & Hlen). rewrite Elen. cbn [mbind outcome_bind].
      rewrite Z.mod_small by lia. destruct (Z.leb_spec (len + 20) (r_index re')); [lia|].
      exists 0, rest, [], (set_read re' p), st, got. split; [done|]. split; [done|]. split; [|done]. apply read_more; [done|split; [done| |done]|done|done].
      split; [done|by rewrite length_app|]. left. split_and!; try done. rewrite length_app. lia.
  - destruct (L2 ltac:(lia)) as (len' & El2 & L3). rewrite Elen in El2. injection El2 as <-. unfold FRAME_SIZE_MAX_ALLOW in Hlen.
    destruct (Z.eqb_spec (r_index re') 20) as [Hx|Hx]; [lia|]. rewrite Ede, Elen. cbn [mbind outcome_bind]. rewrite Z.mod_small by lia.
    destruct (Z.leb_spec (len + 20) (r_index re')) as [Hdone|Hmore].
    + destruct (frame_done_spec (set_read re' p) st1 (cs ++ got) len channel) as (st2 & Ef & S2 & Eb2); cbn [ps_read set_read]; try done;
        [by rewrite length_app|by rewrite Ede|rewrite length_app; lia|lia|by rewrite Ede|by rewrite Em|]. rewrite Ef. cbn [mbind outcome_bind].
      eexists 0, rest, _, _, st2, got. split; [done|]. split; [done|]. split; [|done].
      change (frame_events (set_read re' p) (cs ++ got)) with (frame_events p (cs ++ got)). apply read_frame; [done| |by rewrite Eb2, <- Eo|done|by rewrite <- Edt|].
      * split; [done| |unfold has_room, other_blocks; cbn [ps_read set_read r_memblock]; rewrite Eb2; exact Hroom1]. split; [by split|done|]. left. split_and!; try done. simpl. lia.
      * rewrite <- Edt, Elen, length_app. f_equal. lia.
    + exists 0, rest, [], (set_read re' p), st1, got. split; [done|]. split; [done|]. split; [|done]. apply read_more; [done|split; [done| |done]|done|done].
      split; [done|by rewrite length_app|]. right. cbn [ps_read set_read]. rewrite Ede, Em. split; [rewrite length_app; lia|]. split; [done|]. split; [done|]. exists len, channel.
      split; [done|]. split; [done|]. split; [done|]. split; [rewrite length_app; lia|done].
Qed.
