(* ===== verification/PstreamProps.v ===== *)
(** * PstreamProps: what goes in comes out

    Frames are received as they were sent, however the bytes between are cut; and
    bytes from a stranger do no harm. *)
From stdpp Require Import base tactics numbers list gmap.
From S2P Require Import Prelude Memblock Mcalign Tagstruct Pstream PstreamSend PstreamRecv.

(** ** Bytes from anybody *)

(** Reads of up to [n] bytes each, until one gives up. *)
Fixpoint read_all (ns : list Z) (inp : list cell) (p : pa_pstream) (st : store) : outcome (Z * list cell * list ps_event * pa_pstream * store) :=
  match ns with
  | [] => Ok (0, inp, [], p, st)
  | n :: ns =>
      '(ret, inp, evs, p, st) ← do_read 64 n inp p st;
      if ret <? 0 then Ok (ret, inp, evs, p, st)
      else
        '(ret, inp, evs', p, st) ← read_all ns inp p st;
        Ok (ret, inp, evs ++ evs', p, st)
  end.

(** A frame, from its first to its last byte. *)
Definition whole_frame (f : list cell) : Prop :=
  good_header (take 20 f) /\ get_word PA_PSTREAM_DESCRIPTOR_LENGTH (take 20 f) = Ok (Z.of_nat (length f) - 20).

(** Why a reader gives up, with [cs] of a frame read: nothing came, or the descriptor is refused. *)
Definition gave_up (cs : list cell) (n : Z) (rest : list cell) : Prop := (n <= 0 \/ rest = []) \/ length cs = 20%nat /\ ~ good_header cs.

Lemma frame_events_read p re : frame_events (set_read re p) = frame_events p.
Proof. done. Qed.

(** C23: whatever bytes arrive, and in whatever pieces: a stream that reads them fails no assertion,
    touches no memory but the block of the frame it is receiving, takes no more than
    the largest frame for it, and hands over exactly the frames that are complete, each
    with an acceptable descriptor, the same ones however the bytes are cut; it gives
    up only when nothing comes or a descriptor is refused. *)
Theorem pstream_read_safe ns inp p st cs : read_inv p st cs -> Forall byte_cell inp ->
  exists ret rest evs p' st' fs cs', read_all ns inp p st = Ok (ret, rest, evs, p', st') /\
    cs ++ inp = concat fs ++ cs' ++ rest /\ Forall whole_frame fs /\ evs = concat (frame_events p <$> fs) /\
    other_blocks (ps_read p') st' = other_blocks (ps_read p) st /\
    (ret = 0 /\ read_inv p' st' cs' \/ ret = -1 /\ exists n, n ∈ ns /\ gave_up cs' n rest).
Proof.
  revert inp p st cs. induction ns as [|n ns IH]; intros inp p st cs I Hb.
  { exists 0, inp, [], p, st, [], cs. split_and!; try done. by left. }
  destruct (do_read_spec n inp p st cs I) as (ret & rest & evs & p1 & st1 & got & E & -> & Hres & Hgot).
  { by apply Forall_take. }
  apply Forall_app in Hb as [_ Hb]. cbn [read_all]. rewrite E. cbn [mbind outcome_bind].
  destruct Hres as [Hg|p1 Hg Hl Hgh Ep Hm Hm0|p1 st1 Hg I1 Eo Ep|p1 st1 Hg I1 Eo Ep Hgh Elen].
  - cbn [Z.ltb]. subst got. exists (-1), rest, [], p, st, [], cs. split_and!; try done. right. split; [done|]. exists n. split; [by left|]. left.
    destruct (decide (0 < n)) as [Hn|]; [right|left; lia]. destruct rest; [done|]. by destruct (Hgot Hn).
  - exists (-1), rest, [], p1, st, [], (cs ++ got). simpl. rewrite app_assoc. split_and!; try done; [unfold other_blocks; by rewrite Hm, Hm0|].
    right. split; [done|]. exists n. split; [by left|]. right. by split.
  - destruct (IH rest p1 st1 (cs ++ got) I1 Hb) as (ret & rest' & evs & p2 & st2 & fs & cs' & E2 & Ecs & Hfs & Eev & Eo2 & Hend). cbn [Z.ltb Z.compare].
    rewrite E2. cbn [mbind outcome_bind]. exists ret, rest', evs, p2, st2, fs, cs'. split; [done|]. rewrite app_assoc. split; [done|]. split; [done|].
    split; [rewrite Eev, Ep, frame_events_read; done|]. split; [congruence|]. destruct Hend as [|(H1 & n' & Hn' & H2)]; [by left|]. right. split; [done|].
    exists n'. split; [by right|done].
  - destruct (IH rest p1 st1 [] I1 Hb) as (ret & rest' & evs & p2 & st2 & fs & cs' & E2 & Ecs & Hfs & Eev & Eo2 & Hend). cbn [Z.ltb Z.compare].
    rewrite E2. cbn [mbind outcome_bind]. exists ret, rest', (frame_events p (cs ++ got) ++ evs), p2, st2, ((cs ++ got) :: fs), cs'. split; [done|].
    split; [simpl in Ecs; rewrite Ecs; cbn [concat]; by rewrite <- !app_assoc|]. split; [by constructor|].
    split; [rewrite fmap_cons; cbn [concat]; rewrite Eev, Ep, frame_events_read; done|].
    split.
    { rewrite Eo2. unfold other_blocks at 1. destruct (rd_state _ _ _ (ri_reading _ _ _ I1)) as [(_ & -> & _)|(H & _)]; [done|simpl in H; lia]. }
    destruct Hend as [|(H1 & n' & Hn' & H2)]; [by left|]. right. split; [done|]. exists n'. split; [by right|done].
Qed.

(** ** From one end to the other *)

(** What the receiver gets of an item. *)
Definition item_event (st : store) (i : item_info) : list ps_event :=
  match i with
  | ITEM_PACKET packet => [EvPacket packet]
  | ITEM_MEMBLOCK c channel offset mode => [EvMemblock channel offset mode (chunk_bytes st c)]
  | _ => []
  end.

(** Not about shared memory. *)
Definition plain (i : item_info) : Prop := match i with ITEM_PACKET _ | ITEM_MEMBLOCK _ _ _ _ => True | _ => False end.

Lemma hi_lo offset : - 2 ^ 63 <= offset < 2 ^ 63 -> s64 (word64 (hi32 offset) (lo32 offset)) = offset.
Proof.
  intros Ho. assert (word64 (hi32 offset) (lo32 offset) = u64 offset) as ->.
  { unfold word64, hi32, lo32. assert (0 <= u64 offset < 2 ^ 64) as Hu by (apply Z.mod_pos_bound; lia). 
    rewrite (u32_small (Z.shiftr _ _)) by (rewrite Z.shiftr_div_pow2 by lia; split; [apply Z.div_pos; lia|apply Z.div_lt_upper_bound; lia]).
    apply Z.bits_inj'. intros n Hn. rewrite Z.lor_spec. unfold u32. destruct (Z.lt_ge_cases n 32).
    - rewrite Z.shiftl_spec_low by done. rewrite Z.mod_pow2_bits_low by lia. done.
    - rewrite Z.mod_pow2_bits_high by lia. rewrite Z.shiftl_spec, Z.shiftr_spec by lia. rewrite orb_false_r. f_equal. lia. }
  unfold s64. rewrite u64_idem. unfold u64. destruct (Z.lt_ge_cases offset 0).
  - rewrite <- (Z.mod_unique_pos offset (2 ^ 64) (-1) (offset + 2 ^ 64)) by lia. destruct (Z.ltb_spec (offset + 2 ^ 64) (2 ^ 63)); lia.
  - rewrite Z.mod_small by lia. destruct (Z.ltb_spec offset (2 ^ 63)); lia.
Qed.

Lemma take_words i rest : take 20 (words (item_words i) rest) = words (item_words i) [].
Proof. rewrite words_split. apply take_app_length'. rewrite words_length. by destruct i. Qed.

Lemma drop_words i rest : drop 20 (words (item_words i) rest) = rest.
Proof. rewrite words_split. apply drop_app_length'. rewrite words_length. by destruct i. Qed.

Lemma mode_bits mode : 0 <= mode <= PA_SEEK_RELATIVE_END -> Z.land mode PA_FLAG_SEEKMASK = mode /\ Z.land mode PA_FLAG_SHMMASK = 0.
Proof.
  unfold PA_SEEK_RELATIVE_END. intros H. assert (mode = 0 \/ mode = 1 \/ mode = 2 \/ mode = 3) as Hm by lia. by destruct Hm as [->|[->|[->| ->]]].
Qed.

(** A frame that was sent is a frame for the receiver, and is the item. *)
Lemma frame_decodes p st i : item_ok st i -> plain i -> ps_receive_packet_callback p = true -> ps_receive_memblock_callback p = true ->
  whole_frame (frame st i) /\ frame_events p (frame st i) = item_event st i.
Proof.
  intros Hi Hp C1 C2. pose proof (get_length st i [] Hi) as El. unfold whole_frame, frame_events. rewrite frame_length. unfold frame. rewrite take_words, drop_words.
  destruct i as [packet|c channel offset mode| |]; [| |done|done].
  - rewrite El, (get_word_ok PA_PSTREAM_DESCRIPTOR_CHANNEL (2 ^ 32 - 1)), (get_word_ok PA_PSTREAM_DESCRIPTOR_OFFSET_HI 0), (get_word_ok PA_PSTREAM_DESCRIPTOR_OFFSET_LO 0),
      (get_word_ok PA_PSTREAM_DESCRIPTOR_FLAGS 0) by done. rewrite C1. split; [|done]. split; [|f_equal; lia].
    exists (Z.of_nat (length packet)), (2 ^ 32 - 1), 0. rewrite El, (get_word_ok PA_PSTREAM_DESCRIPTOR_CHANNEL (2 ^ 32 - 1)), (get_word_ok PA_PSTREAM_DESCRIPTOR_FLAGS 0) by done.
    simpl in Hi. by destruct Hi; split_and!.
  - simpl in Hi. destruct Hi as (Hc & Hl & Hch & Ho & Hm). destruct (mode_bits mode Hm) as [M1 M2]. pose proof (chunk_bytes_length st c Hc) as Lc.
    assert (0 <= hi32 offset < 2 ^ 32 /\ 0 <= lo32 offset < 2 ^ 32) as [Hh Hlo] by (split; apply Z.mod_pos_bound; lia).
    assert (0 <= mode < 2 ^ 32) as Hm' by (unfold PA_SEEK_RELATIVE_END in Hm; lia).
    rewrite El, (get_word_ok PA_PSTREAM_DESCRIPTOR_CHANNEL channel) by (done || lia). rewrite (get_word_ok PA_PSTREAM_DESCRIPTOR_OFFSET_HI (hi32 offset)) by done.
    rewrite (get_word_ok PA_PSTREAM_DESCRIPTOR_OFFSET_LO (lo32 offset)) by done. rewrite (get_word_ok PA_PSTREAM_DESCRIPTOR_FLAGS mode) by done.
    destruct (Z.eqb_spec channel (2 ^ 32 - 1)); [lia|]. rewrite C2, M1, hi_lo by done. split; [|done]. split; [|f_equal; lia].
    exists (mc_length c), channel, mode. rewrite El. rewrite (get_word_ok PA_PSTREAM_DESCRIPTOR_CHANNEL channel) by (done || lia).
    rewrite (get_word_ok PA_PSTREAM_DESCRIPTOR_FLAGS mode) by done. destruct Hc as (b & _ & _ & _ & Hpos & _). rewrite M1. simpl payload. rewrite Lc.
    destruct (Z.eqb_spec channel (2 ^ 32 - 1)); [lia|]. destruct Hm. by split_and!.
Qed.

(** Two ends and the bytes in between. *)
Record connection := mk_conn {
  cn_sender : pa_pstream;
  cn_store1 : store;
  cn_wire : list cell;
  cn_receiver : pa_pstream;
  cn_store2 : store;
  cn_events : list ps_event
}.

(** The sender writes and the kernel takes [r] bytes, or the receiver, when there is something, reads and gets at most [n]. *)
Inductive conn_op := CWrite (r : Z) | CRead (n : Z).

(** [Abort] also when a side gives the connection up. *)
Definition conn_step (op : conn_op) (c : connection) : outcome connection :=
  match op with
  | CWrite r =>
      '(ret, out, _, p, st) ← do_write r (cn_sender c) (cn_store1 c);
      _ ← pa_assert (0 <=? ret);
      Ok (mk_conn p st (cn_wire c ++ out) (cn_receiver c) (cn_store2 c) (cn_events c))
  | CRead n =>
      match cn_wire c with
      | [] => Ok c
      | wire =>
          '(ret, wire, evs, p, st) ← do_read 64 n wire (cn_receiver c) (cn_store2 c);
          _ ← pa_assert (0 <=? ret);
          Ok (mk_conn (cn_sender c) (cn_store1 c) wire p st (cn_events c ++ evs))
      end
  end.

Fixpoint conn_run (ops : list conn_op) (c : connection) : outcome connection :=
  match ops with [] => Ok c | op :: ops => c ← conn_step op c; conn_run ops c end.

Definition conn_op_ok (op : conn_op) : Prop := match op with CWrite r => 0 <= r | CRead n => 0 < n end.

Section connection.
Context (p1 p2 : pa_pstream) (st1 st2 : store) (items : list item_info).

Record conn_inv (c : connection) (done rest : list item_info) (cs : list cell) : Prop := {
  ci_items : items = done ++ rest /\ Forall (item_ok st1) rest /\ Forall plain rest;
  ci_events : cn_events c = concat (item_event st1 <$> done);
  ci_write : write_inv (cn_sender c) (cn_store1 c);
  ci_read : read_inv (cn_receiver c) (cn_store2 c) cs;
  ci_bytes : cs ++ cn_wire c ++ todo (cn_sender c) (cn_store1 c) = concat (frame st1 <$> rest);
  ci_callbacks : ps_receive_packet_callback (cn_receiver c) = true /\ ps_receive_memblock_callback (cn_receiver c) = true;
  ci_refs : accounts p1 st1 (cn_sender c) (cn_store1 c) /\ ps_read (cn_sender c) = ps_read p1;
  ci_blocks : other_blocks (ps_read (cn_receiver c)) (cn_store2 c) = st_blocks st2
}.

Lemma write_keeps c done rest cs r : store_ok st1 -> conn_inv c done rest cs -> 0 <= r ->
  exists c' out, conn_step (CWrite r) c = Ok c' /\ conn_inv c' done rest cs /\ cn_wire c' = cn_wire c ++ out /\
    todo (cn_sender c) (cn_store1 c) = out ++ todo (cn_sender c') (cn_store1 c') /\ (0 < r -> todo (cn_sender c) (cn_store1 c) <> [] -> out <> []).
Proof.
  intros S [I1 I2 I3 I4 I5 I6 [[K A] Hr] I8] Hr0. destruct (do_write_spec r _ _ I3) as (ret & out & evs & p' & st' & E & [W1 W2 [K' A'] W4 _] & Hret & Hout & _).
  cbn [conn_step]. rewrite E. cbn [mbind outcome_bind]. rewrite pa_assert_true by (apply Z.leb_le; lia). cbn [mbind outcome_bind]. eexists _, out. split; [done|].
  split; [|by split_and!]. split; try done; simpl.
  - rewrite <- I5, W2. by rewrite <- app_assoc.
  - destruct W4 as (-> & _). split; [|done]. split; [apply (keeps_trans st1 (cn_store1 c) st'); [apply S|apply (wi_store _ _ I3)|done|done]|]. intros j. by rewrite A', A.
Qed.

(** What has been read of the stream is the beginning of the next frame. *)
Lemma next_frame cs x rest : Forall (item_ok st1) rest -> cs ++ x = concat (frame st1 <$> rest) -> cs <> [] \/ x <> [] -> exists i rest', rest = i :: rest' /\ item_ok st1 i /\
  cs ++ x = frame st1 i ++ concat (frame st1 <$> rest') /\ (20 <= length cs -> take 20 cs = words (item_words i) [])%nat.
Proof.
  intros Hf Ex Hne. destruct rest as [|i rest]; [simpl in Ex; apply app_eq_nil in Ex as [-> ->]; destruct Hne; done|]. apply Forall_cons in Hf as [Hi _].
  exists i, rest. split_and!; try done. intros Hl. assert (take 20 (cs ++ x) = take 20 cs) as <- by (by rewrite take_app_le by lia). rewrite Ex, fmap_cons. cbn [concat].
  unfold frame at 1. rewrite (words_split (item_words i) (payload _ _)), <- app_assoc. apply take_app_length'. rewrite words_length. by destruct i.
Qed.

Lemma descriptor_bytes i : Forall byte_cell (words (item_words i) []).
Proof.
  unfold words. rewrite app_nil_r. apply Forall_concat, Forall_fmap, Forall_true. intros v. apply Forall_fmap. unfold be32. apply Forall_reverse.
  eapply Forall_impl; [apply le_split_bytes|]. intros b Hb. by exists b.
Qed.

Lemma take_frame i : take 20 (frame st1 i) = words (item_words i) [].
Proof. apply take_words. Qed.

Lemma read_keeps c done rest cs n : conn_inv c done rest cs -> 0 < n ->
  exists c' done' rest' cs', conn_step (CRead n) c = Ok c' /\ conn_inv c' done' rest' cs' /\ cn_sender c' = cn_sender c /\ cn_store1 c' = cn_store1 c /\
    (cn_wire c <> [] -> length (cn_wire c') < length (cn_wire c))%nat.
Proof.
  intros I Hn. pose proof I as [(I1 & If & Ip) I2 I3 I4 I5 [I6 I6'] I7 I8]. cbn [conn_step]. destruct (cn_wire c) as [|x wire] eqn:Ew; [exists c, done, rest, cs; rewrite Ew; by split_and!|].
  destruct (next_frame cs (x :: wire ++ todo (cn_sender c) (cn_store1 c)) rest If) as (i & rest' & -> & Hi & Ei & _); [by rewrite <- I5|by right|].
  apply Forall_cons in If as [_ If]. apply Forall_cons in Ip as [Hp Ip].
  destruct (frame_decodes (cn_receiver c) st1 i Hi Hp I6 I6') as [[Hg Hlen] Hev].
  destruct (do_read_spec n (x :: wire) (cn_receiver c) (cn_store2 c) cs I4) as (ret & w' & evs & p' & st' & got & E & Eg & Hres & Hgot).
  { destruct (decide (length cs < 20)%nat) as [Hc|Hc]; [|by replace (20 - length cs)%nat with 0%nat by lia].
    assert (take 20 (cs ++ x :: wire ++ todo (cn_sender c) (cn_store1 c)) = words (item_words i) []) as Et.
    { rewrite Ei, take_app_le by (rewrite frame_length; lia). apply take_words. }
    rewrite take_app_ge in Et by lia. pose proof (descriptor_bytes i) as Hd. rewrite <- Et in Hd. apply Forall_app in Hd as [_ Hd].
    change (x :: wire ++ todo (cn_sender c) (cn_store1 c)) with ((x :: wire) ++ todo (cn_sender c) (cn_store1 c)) in Hd. rewrite take_app in Hd. by apply Forall_app in Hd as [Hd _]. }
  rewrite E. cbn [mbind outcome_bind]. specialize (Hgot Hn ltac:(done)).
  assert ((cs ++ got) ++ w' ++ todo (cn_sender c) (cn_store1 c) = frame st1 i ++ concat (frame st1 <$> rest')) as Ei'.
  { rewrite <- Ei. change (x :: wire ++ todo (cn_sender c) (cn_store1 c)) with ((x :: wire) ++ todo (cn_sender c) (cn_store1 c)). rewrite Eg. by rewrite <- !app_assoc. }
  assert (20 <= length (cs ++ got) -> take 20 (cs ++ got) = take 20 (frame st1 i))%nat as Hhead.
  { intros Hl. rewrite <- (take_app_le _ (w' ++ todo (cn_sender c) (cn_store1 c))) by done. rewrite Ei'. by rewrite take_app_le by (rewrite frame_length; lia). }
  assert (length w' < length (x :: wire))%nat as Hless by (rewrite Eg, length_app; destruct got; [done|simpl; lia]).
  destruct Hres as [Hg0|p' _ Hl Hgh _ _ _|p' st' _ Ir Eo Ep|p' st' _ Ir Eo Ep Hgh Elen]; [done| | |].
  - exfalso. apply Hgh. rewrite <- (take_ge (cs ++ got) 20) by lia. by rewrite Hhead by lia.
  - cbn [pa_assert Z.leb Z.compare mbind outcome_bind]. eexists _, done, (i :: rest'), (cs ++ got). split; [done|]. split; [|by split_and!]. split; simpl; try done.
    + by split_and!; [|constructor|constructor].
    + by rewrite app_nil_r.
    + by rewrite Ep.
    + congruence.
  - cbn [pa_assert Z.leb Z.compare mbind outcome_bind].
    assert (20 < Z.of_nat (length (cs ++ got))) as Hl20 by (destruct Hgh as (len & ? & ? & El & _ & _ & _ & Hpos & _); rewrite Elen in El; injection El as El; lia).
    rewrite Hhead, Hlen in Elen by lia. injection Elen as Elen. apply app_inj_1 in Ei' as [Ecs Erest]; [|lia].
    eexists _, (done ++ [i]), rest', []. split; [done|]. split; [|by split_and!]. split; simpl; try done.
    + rewrite <- app_assoc. by split_and!.
    + rewrite fmap_app, concat_app, I2. f_equal. simpl. by rewrite app_nil_r, Ecs.
    + by rewrite Ep.
    + unfold other_blocks at 1. destruct (rd_state _ _ _ (ri_reading _ _ _ Ir)) as [(_ & -> & _)|(H & _)]; [congruence|simpl in H; lia].
Qed.

Lemma todo_nil p st : write_inv p st -> todo p st = [] -> w_current (ps_write p) = None /\ ps_send_queue p = [].
Proof.
  intros I H. unfold todo in H. apply app_eq_nil in H as [H1 H2]. split.
  - destruct (w_current (ps_write p)) as [i|] eqn:Ec; [|done]. pose proof (wi_current _ _ I) as Hw. rewrite Ec in Hw. pose proof (wr_index _ _ _ Hw).
    simpl in H1. apply (f_equal length) in H1. rewrite length_drop in H1. simpl in H1. lia.
  - destruct (ps_send_queue p) as [|i q]; [done|]. apply (f_equal length) in H2. rewrite fmap_cons in H2. cbn [concat] in H2. rewrite length_app, frame_length in H2. done.
Qed.

(** When nothing is left to be written or read, everything has arrived, and all references are given back. *)
Lemma conn_end c done rest cs : conn_inv c done rest cs -> w_current (ps_write p1) = None -> mc_memblock (w_memchunk (ps_write p1)) = None -> ps_send_queue p1 = items ->
  cn_wire c = [] -> todo (cn_sender c) (cn_store1 c) = [] ->
  done = items /\ st_blocks (cn_store2 c) = st_blocks st2 /\ forall j, refs (cn_store1 c) j = refs st1 j - sumZ (item_refs j <$> items).
Proof.
  intros [(I1 & If & Ip) I2 I3 I4 I5 I6 [[_ A] Hr] I8] Ec Em Eq Hw Ht. rewrite Hw, Ht, !app_nil_r in I5.
  assert (rest = [] /\ r_memblock (ps_read (cn_receiver c)) = None) as [-> Hm].
  { destruct (decide (cs = [])) as [->|Hne].
    - split; [|destruct (rd_state _ _ _ (ri_reading _ _ _ I4)) as [(_ & ? & _)|(H & _)]; [done|simpl in H; lia]]. destruct rest as [|i rest]; [done|].
      apply (f_equal length) in I5. rewrite fmap_cons in I5. cbn [concat] in I5. rewrite length_app, frame_length in I5. done.
    - exfalso. destruct (next_frame cs [] rest If) as (i & rest' & -> & Hi & Ei & Hh); [by rewrite app_nil_r|by left|]. rewrite app_nil_r in Ei.
      pose proof (f_equal length Ei) as Ll. rewrite length_app, frame_length in Ll. specialize (Hh ltac:(lia)).
      destruct (rd_state _ _ _ (ri_reading _ _ _ I4)) as [(H & _)|(_ & Ed & _ & len & ch & El & _ & _ & Hlt & _)]; [lia|].
      rewrite Ed, Hh, (get_length st1 i [] Hi) in El. injection El as <-. lia. }
  rewrite app_nil_r in I1. split; [done|]. split; [unfold other_blocks in I8; by rewrite Hm in I8|]. intros j. specialize (A j).
  destruct (todo_nil _ _ I3 Ht) as [Ec' Eq']. pose proof (wi_current _ _ I3) as Hc. rewrite Ec' in Hc. unfold ps_refs, write_refs, chunk_refs in A.
  rewrite Ec, Em, Ec', Hc, Eq, Eq', Hr in A. simpl in A. lia.
Qed.

Lemma run_keeps ops : store_ok st1 -> Forall conn_op_ok ops -> forall c done rest cs, conn_inv c done rest cs ->
  exists c' done' rest' cs', conn_run ops c = Ok c' /\ conn_inv c' done' rest' cs'.
Proof.
  intros S. induction 1 as [|op ops Ho _ IH]; intros c done rest cs I; [by exists c, done, rest, cs|]. cbn [conn_run]. destruct op as [r|n].
  - destruct (write_keeps c done rest cs r S I Ho) as (c1 & out & -> & I1 & _). by apply (IH c1 done rest cs).
  - destruct (read_keeps c done rest cs n I Ho) as (c1 & done1 & rest1 & cs1 & -> & I1 & _). by apply (IH c1 done1 rest1 cs1).
Qed.

Lemma writes_finish r k : store_ok st1 -> 0 < r -> forall c done rest cs, conn_inv c done rest cs -> (length (todo (cn_sender c) (cn_store1 c)) <= k)%nat ->
  exists c', conn_run (replicate k (CWrite r)) c = Ok c' /\ conn_inv c' done rest cs /\ todo (cn_sender c') (cn_store1 c') = [] /\
    length (cn_wire c') = (length (cn_wire c) + length (todo (cn_sender c) (cn_store1 c)))%nat.
Proof.
  intros S Hr. induction k as [|k IH]; intros c done rest cs I Hk.
  { assert (todo (cn_sender c) (cn_store1 c) = []) as Et by (apply nil_length_inv; lia). exists c. rewrite Et. split_and!; done || (simpl; lia). }
  destruct (write_keeps c done rest cs r S I ltac:(lia)) as (c1 & out & E1 & I1 & Ew & Et & Hout). cbn [replicate conn_run]. rewrite E1. cbn [mbind outcome_bind].
  destruct (IH c1 done rest cs I1) as (c2 & E2 & I2 & Et2 & Ew2).
  { destruct (decide (todo (cn_sender c) (cn_store1 c) = [])) as [H0|H0]; [rewrite H0 in Et; symmetry in Et; apply app_eq_nil in Et as [_ ->]; simpl; lia|].
    specialize (Hout Hr H0). rewrite Et, length_app in Hk. destruct out; [done|]. simpl in Hk. lia. }
  exists c2. split_and!; try done. rewrite Ew2, Ew, Et, !length_app. lia.
Qed.

Lemma reads_finish n k : 0 < n -> forall c done rest cs, conn_inv c done rest cs -> (length (cn_wire c) <= k)%nat -> todo (cn_sender c) (cn_store1 c) = [] ->
  exists c' done' rest' cs', conn_run (replicate k (CRead n)) c = Ok c' /\ conn_inv c' done' rest' cs' /\ todo (cn_sender c') (cn_store1 c') = [] /\ cn_wire c' = [].
Proof.
  intros Hn. induction k as [|k IH]; intros c done rest cs I Hk Ht.
  { exists c, done, rest, cs. split_and!; try done. apply nil_length_inv. lia. }
  destruct (read_keeps c done rest cs n I Hn) as (c1 & done1 & rest1 & cs1 & E1 & I1 & Es & Est & Hless). cbn [replicate conn_run]. rewrite E1. cbn [mbind outcome_bind].
  apply (IH c1 done1 rest1 cs1 I1); [|by rewrite Es, Est]. destruct (cn_wire c) as [|x wire] eqn:Ew; [|specialize (Hless ltac:(done)); simpl in *; lia].
  cbn [conn_step] in E1. rewrite Ew in E1. injection E1 as <-. rewrite Ew. simpl. lia.
Qed.
End connection.

(** C22: what is sent arrives: however little the kernel takes of a write or gives for a
    read, and however writes and reads alternate, nothing fails and neither end
    gives up; the receiver has got the first of the packets and blocks that were
    sent, in their order, with their contents, channel, offset and seek mode; and when
    the bytes have been written and read, for which one call per byte is enough, it has
    got all of them, every reference of the sender is given back, and no block of the
    receiver is left. *)
Theorem pstream_delivers p1 st1 p2 st2 ops r n :
  write_inv p1 st1 -> w_current (ps_write p1) = None -> Forall plain (ps_send_queue p1) ->
  read_inv p2 st2 [] -> ps_receive_packet_callback p2 = true -> ps_receive_memblock_callback p2 = true ->
  Forall conn_op_ok ops -> 0 < r -> 0 < n ->
  let items := ps_send_queue p1 in
  let k := length (todo p1 st1) in
  exists c done rest, conn_run ops (mk_conn p1 st1 [] p2 st2 []) = Ok c /\ items = done ++ rest /\ cn_events c = concat (item_event st1 <$> done) /\
  exists c', conn_run (replicate k (CWrite r) ++ replicate k (CRead n)) c = Ok c' /\ cn_events c' = concat (item_event st1 <$> items) /\
    st_blocks (cn_store2 c') = st_blocks st2 /\ forall j, refs (cn_store1 c') j = refs st1 j - sumZ (item_refs j <$> items).
Proof.
  intros W Ec Hp R C1 C2 Ho Hr Hn items k. pose proof (wi_store _ _ W) as S. pose proof (wi_current _ _ W) as Hm. rewrite Ec in Hm.
  assert (conn_inv p1 st1 st2 items (mk_conn p1 st1 [] p2 st2 []) [] items []) as I0.
  { split; simpl; try done.
    - split_and!; [done|apply (wi_queue _ _ W)|done].
    - unfold todo. by rewrite Ec.
    - unfold other_blocks. destruct (rd_state _ _ _ (ri_reading _ _ _ R)) as [(_ & -> & _)|(H & _)]; [done|simpl in H; lia]. }
  destruct (run_keeps p1 st1 st2 items ops S Ho _ _ _ _ I0) as (c & done & rest & cs & E & I). exists c, done, rest. split; [done|]. split; [apply I|]. split; [apply I|].
  assert (length (cn_wire c) + length (todo (cn_sender c) (cn_store1 c)) <= k)%nat as Hk.
  { pose proof (f_equal length (ci_bytes _ _ _ _ _ _ _ _ I)) as L. unfold k, todo at 2. rewrite Ec. cbn [from_option]. destruct (ci_items _ _ _ _ _ _ _ _ I) as [Ei _].
    change (ps_send_queue p1) with items. rewrite Ei, fmap_app, concat_app. rewrite !length_app in L |- *. simpl. lia. }
  destruct (writes_finish p1 st1 st2 items r k S Hr c done rest cs I) as (c1 & E1 & I1 & Ht1 & Hw1); [lia|].
  destruct (reads_finish p1 st1 st2 items n k Hn c1 done rest cs I1) as (c2 & done2 & rest2 & cs2 & E2 & I2 & Ht2 & Hw2); [lia|done|].
  destruct (conn_end p1 st1 st2 items c2 done2 rest2 cs2 I2) as (Ed & Eb & Er); try done.
  exists c2. split; [|split; [rewrite <- Ed; apply I2|done]].
  assert (forall a b x, conn_run (a ++ b) x = (y ← conn_run a x; conn_run b y)) as Happ.
  { induction a as [|op a IH]; intros b x; [done|]. simpl. destruct (conn_step op x); [apply IH|done|done]. }
  by rewrite Happ, E1.
Qed.

(** ** New streams *)

Lemma write_inv_new st : store_ok st -> write_inv pa_pstream_new st.
Proof.
  intros S. split; try done. intros j. unfold ps_refs, write_refs. simpl. unfold chunk_refs. simpl. apply refs_nonneg, S.
Qed.

Lemma read_inv_new st : store_ok st -> msum mb_length (st_blocks st) + FRAME_SIZE_MAX_ALLOW < 2 ^ 31 -> read_inv pa_pstream_new st [].
Proof.
  intros S H. split; [done| |done]. split; [|done|].
  - split; [done|]. apply Forall_replicate. by exists 0.
  - left. split_and!; try done. simpl. lia.
Qed.

(** ** Giving up *)

(** When the bytes cannot be a frame the owner is told, once, and nothing is received any more; otherwise the stream stays alive. *)
Theorem refused_stream_dies n inp p st cs : read_inv p st cs -> ps_dead p = false -> Forall byte_cell (take (20 - length cs) inp) ->
  exists rest evs p' st', do_pstream_read_write 64 (Some n) inp false [] p st = Ok (rest, [], evs, p', st') /\ other_blocks (ps_read p') st' = other_blocks (ps_read p) st /\
    (ps_dead p' = true /\ pa_pstream_is_pending p' = false /\ evs = (if ps_die_callback p then [EvDie] else []) /\
       (exists got, inp = got ++ rest /\ (got = [] \/ length (cs ++ got) = 20%nat /\ ~ good_header (cs ++ got))) \/
     ps_dead p' = false /\ exists cs', read_inv p' st' cs').
Proof.
  intros [I1 I2 I3] Hd Hb. unfold do_pstream_read_write. cbn [set_defer ps_dead]. rewrite Hd.
  destruct (do_read_spec n inp (set_defer false p) st cs) as (ret & rest & evs & p' & st' & got & E & Ei & R & _); [by split|done|].
  rewrite E. cbn [mbind outcome_bind]. unfold pa_pstream_unlink.
  assert (ps_dead p' = false /\ ps_die_callback p' = ps_die_callback p) as [Hd' Hc] by (destruct R as [|? ? ? ? Ep|? ? ? ? ? Ep|? ? ? ? ? Ep]; done || by rewrite Ep).
  destruct R as [Hg|p1 Hg Hl Hgh Ep Hm Hm0|p1 st1 Hg J Eo Ep|p1 st1 Hg J Eo Ep _ _]; cbn [Z.leb Z.compare mbind outcome_bind io_write_loop];
    rewrite Hd'; cbn [mbind outcome_bind]; eexists rest, _, _, _; (split; [done|]).
  - split; [done|]. left. split_and!; try done. exists got. split; [done|by left].
  - cbn [set_defer ps_read] in Hm0. split; [cbn [ps_read]; unfold other_blocks; by rewrite Hm, Hm0|]. left. split_and!; try done; [cbn; by rewrite Hc|]. exists got. split; [done|by right].
  - split; [by rewrite Eo|]. right. split; [done|]. by exists (cs ++ got).
  - split; [|right; split; [done|by exists []]].
    unfold other_blocks at 1. destruct (rd_state _ _ _ (ri_reading _ _ _ J)) as [(_ & -> & _)|(H & _)]; [done|simpl in H; lia].
Qed.

(** ** Two surprises *)

(** Where a [size_t] has 32 bits, the first four bytes of a connection can abort the process: the length of the frame, which is
    looked at before the descriptor is complete, plus that of the descriptor is less than what was read. *)
Theorem short_header_aborts v st : 2 ^ 32 - 20 <= v <= 2 ^ 32 - 16 ->
  do_read 32 4 (Some <$> be32 v) pa_pstream_new st = Abort /\ exists p, do_read 64 4 (Some <$> be32 v) pa_pstream_new st = Ok (0, [], [], p, st).
Proof.
  intros H. assert (v = 4294967276 \/ v = 4294967277 \/ v = 4294967278 \/ v = 4294967279 \/ v = 4294967280) as Hv by lia.
  destruct Hv as [->|[->|[->|[->| ->]]]]; (split; [by vm_compute|eexists; by vm_compute]).
Qed.

(** A chunk longer than the largest block of the pool is sent in pieces that all have the offset and the seek mode of the
    first: the receiver applies them again for every piece. *)
Theorem large_chunk_repeats_offset channel offset mode chunk p st : write_inv p st -> ps_dead p = false -> chunk_in st chunk ->
  0 < pa_mempool_block_size_max (st_pool st) <= FRAME_SIZE_MAX_ALLOW -> 0 <= channel < 2 ^ 32 - 1 -> - 2 ^ 63 <= offset < 2 ^ 63 -> 0 <= mode <= PA_SEEK_RELATIVE_END ->
  pa_mempool_block_size_max (st_pool st) < mc_length chunk ->
  exists p' st' c1 c2 cs, pa_pstream_send_memblock channel offset mode chunk p st = Ok (p', st') /\
    ps_send_queue p' = ps_send_queue p ++ ((fun c => ITEM_MEMBLOCK c channel offset mode) <$> c1 :: c2 :: cs) /\
    concat (chunk_bytes st <$> c1 :: c2 :: cs) = chunk_bytes st chunk.
Proof.
  intros I Hd Hc Hb Hch Ho Hm Hl. destruct (send_memblock_spec channel offset mode chunk p st I Hd Hc Hb Hch Ho Hm) as (p' & st' & cs & E & _ & _ & Eq & Ec & Hcs).
  pose proof (chunk_bytes_length st chunk Hc) as Lc. rewrite <- Ec in Lc. exists p', st'. destruct cs as [|c1 [|c2 cs]].
  - simpl in Lc. lia.
  - apply Forall_cons in Hcs as [Hcs _]. simpl in Lc. exfalso. rewrite app_nil_r in Lc. assert (Z.of_nat (length (chunk_bytes st c1)) <= mc_length c1); [|lia].
    unfold chunk_bytes, sub_list. destruct (mc_memblock c1); [|simpl; lia]. rewrite length_take. lia.
  - by exists c1, c2, cs.
Qed.

Module PstreamExample.
(** The two ends use the same kind of store; a packet and part of a block are sent. *)
Definition st0 : store := MCExample.st0.
Definition items : list item_info := [ITEM_PACKET (Some <$> [7; 8; 9]); ITEM_MEMBLOCK (mk_chunk (Some 1) 1 2) 5 (-3) 1].
Definition sender : pa_pstream := set_queue_ps items pa_pstream_new.
Definition receiver : pa_pstream := pa_pstream_set_receive_packet_callback true (pa_pstream_set_receive_memblock_callback true pa_pstream_new).
Definition ops : list conn_op := [CWrite 7; CRead 3; CWrite 100; CRead 100; CWrite 15; CRead 1].

(** A packet of one byte, and a descriptor that is refused. *)
Definition stranger : list cell := words [1; 2 ^ 32 - 1; 0; 0; 0] [Some 7] ++ words [0; 0; 0; 0; 0] [].

Lemma stranger_bytes : Forall byte_cell stranger.
Proof.
  assert (stranger = Some <$> concat (be32 <$> [1; 2 ^ 32 - 1; 0; 0; 0]) ++ [7] ++ concat (be32 <$> [0; 0; 0; 0; 0])) as -> by (by vm_compute).
  apply Forall_fmap. eapply Forall_impl; [|intros b Hb; exists b; split; [done|exact Hb]]. apply (bool_decide_eq_true_1 _). by vm_compute.
Qed.

Lemma sender_ok : write_inv sender st0.
Proof.
  destruct (write_inv_new st0 MCExample.st0_ok) as [I1 _ I3 I4 I5]. split; try done.
  - repeat constructor; simpl; try lia; try done. exists 1. split_and!; try done; simpl; try lia; vm_compute; lia || congruence.
  - intros j. unfold st0. rewrite MCExample.refs0. unfold ps_refs, write_refs. simpl. unfold chunk_refs, delta. simpl. repeat case_decide; lia.
Qed.

Lemma receiver_ok : read_inv receiver st0 [].
Proof. destruct (read_inv_new st0 MCExample.st0_ok) as [I1 I2 I3]; [by vm_compute|]. destruct I2. split; [done|by split|done]. Qed.
End PstreamExample.
Import PstreamExample.

Lemma pstream_read_safe_witness :
  exists rest evs p' st' fs cs', read_all (replicate 12 5) stranger receiver st0 = Ok (-1, rest, evs, p', st') /\
    [] ++ stranger = concat fs ++ cs' ++ rest /\ Forall whole_frame fs /\ evs = concat (frame_events receiver <$> fs) /\ evs = [EvPacket [Some 7]].
Proof.
  destruct (pstream_read_safe (replicate 12 5) stranger receiver st0 [] receiver_ok) as (ret & rest & evs & p' & st' & fs & cs' & E & E1 & E2 & E3 & _).
  { apply stranger_bytes. }
  assert (ret = -1 /\ evs = [EvPacket [Some 7]]) as [-> Ev]; [|exists rest, evs, p', st', fs, cs'; by split_and!].
  vm_compute in E. by injection E as <- _ <- _ _.
Defined.

Lemma pstream_delivers_witness :
  exists c done rest, conn_run ops (mk_conn sender st0 [] receiver st0 []) = Ok c /\ items = done ++ rest /\ cn_events c = concat (item_event st0 <$> done) /\
  exists c', conn_run (replicate (length (todo sender st0)) (CWrite 2) ++ replicate (length (todo sender st0)) (CRead 3)) c = Ok c' /\
    cn_events c' = [EvPacket [Some 7; Some 8; Some 9]; EvMemblock 5 (-3) 1 [Some 11; Some 12]] /\
    st_blocks (cn_store2 c') = st_blocks st0.
Proof.
  destruct (pstream_delivers sender st0 receiver st0 ops 2 3 sender_ok eq_refl ltac:(by repeat constructor) receiver_ok eq_refl eq_refl ltac:(by repeat constructor) eq_refl eq_refl)
    as (c & done & rest & E & Ei & Ev & c' & E' & Ev' & Eb & _).
  exists c, done, rest. split; [done|]. split; [done|]. split; [done|]. exists c'. split; [done|]. split; [|done]. by rewrite Ev'.
Defined.
