(* ===== verification/Memblockq.v ===== *)
(** * Memblockq: the audio queue, data and operations

    Models [src/pulsecore/memblockq.c], the whole file: a queue of chunks
    placed at 64-bit stream positions, with gaps, overwriting and rewinding.

    The doubly linked list [blocks ... blocks_tail] is a list of items and the
    pointers into it ([current_read], [current_write] and the local [q] of
    [pa_memblockq_push]) are positions in that list; inserting or unlinking a
    node moves the positions behind it, since a C pointer keeps pointing at its
    node.  A call that allocates, references or releases a memory block also
    takes and returns the [store] of the file Memblock.

    [size_t] arithmetic wraps ([u64]).  [int64_t] arithmetic is on [Z] here;
    the file MemblockqOps runs the operations with every signed result checked
    against the range of the type, undefined behaviour outside it, and shows
    when they stay within. *)
From stdpp Require Import base tactics numbers list gmap.
From S2P Require Import Prelude Sample Memblock Mcalign.

Record list_item := mk_item {
  li_index : Z;
  li_chunk : pa_memchunk
}.

Record pa_memblockq := mk_memblockq {
  bq_blocks : list list_item;
  bq_current_read : option nat;
  bq_current_write : option nat;
  bq_n_blocks : Z;
  bq_maxlength : Z;
  bq_tlength : Z;
  bq_base : Z;
  bq_prebuf : Z;
  bq_minreq : Z;
  bq_maxrewind : Z;
  bq_read_index : Z;
  bq_write_index : Z;
  bq_in_prebuf : bool;
  bq_silence : pa_memchunk;
  bq_mcalign : pa_mcalign;
  bq_missing : Z;
  bq_requested : Z;
  bq_sample_spec : pa_sample_spec
}.

(** ** Field updates *)

Definition set_blocks (v : list list_item) (bq : pa_memblockq) : pa_memblockq :=
  mk_memblockq v (bq_current_read bq) (bq_current_write bq) (bq_n_blocks bq) (bq_maxlength bq)
    (bq_tlength bq) (bq_base bq) (bq_prebuf bq) (bq_minreq bq) (bq_maxrewind bq)
    (bq_read_index bq) (bq_write_index bq) (bq_in_prebuf bq) (bq_silence bq)
    (bq_mcalign bq) (bq_missing bq) (bq_requested bq) (bq_sample_spec bq).
Definition set_current_read (v : option nat) (bq : pa_memblockq) : pa_memblockq :=
  mk_memblockq (bq_blocks bq) v (bq_current_write bq) (bq_n_blocks bq) (bq_maxlength bq)
    (bq_tlength bq) (bq_base bq) (bq_prebuf bq) (bq_minreq bq) (bq_maxrewind bq)
    (bq_read_index bq) (bq_write_index bq) (bq_in_prebuf bq) (bq_silence bq)
    (bq_mcalign bq) (bq_missing bq) (bq_requested bq) (bq_sample_spec bq).
Definition set_current_write (v : option nat) (bq : pa_memblockq) : pa_memblockq :=
  mk_memblockq (bq_blocks bq) (bq_current_read bq) v (bq_n_blocks bq) (bq_maxlength bq)
    (bq_tlength bq) (bq_base bq) (bq_prebuf bq) (bq_minreq bq) (bq_maxrewind bq)
    (bq_read_index bq) (bq_write_index bq) (bq_in_prebuf bq) (bq_silence bq)
    (bq_mcalign bq) (bq_missing bq) (bq_requested bq) (bq_sample_spec bq).
Definition set_n_blocks (v : Z) (bq : pa_memblockq) : pa_memblockq :=
  mk_memblockq (bq_blocks bq) (bq_current_read bq) (bq_current_write bq) v (bq_maxlength bq)
    (bq_tlength bq) (bq_base bq) (bq_prebuf bq) (bq_minreq bq) (bq_maxrewind bq)
    (bq_read_index bq) (bq_write_index bq) (bq_in_prebuf bq) (bq_silence bq)
    (bq_mcalign bq) (bq_missing bq) (bq_requested bq) (bq_sample_spec bq).
Definition set_maxlength (v : Z) (bq : pa_memblockq) : pa_memblockq :=
  mk_memblockq (bq_blocks bq) (bq_current_read bq) (bq_current_write bq) (bq_n_blocks bq) v
    (bq_tlength bq) (bq_base bq) (bq_prebuf bq) (bq_minreq bq) (bq_maxrewind bq)
    (bq_read_index bq) (bq_write_index bq) (bq_in_prebuf bq) (bq_silence bq)
    (bq_mcalign bq) (bq_missing bq) (bq_requested bq) (bq_sample_spec bq).
Definition set_tlength (v : Z) (bq : pa_memblockq) : pa_memblockq :=
  mk_memblockq (bq_blocks bq) (bq_current_read bq) (bq_current_write bq) (bq_n_blocks bq)
    (bq_maxlength bq) v (bq_base bq) (bq_prebuf bq) (bq_minreq bq) (bq_maxrewind bq)
    (bq_read_index bq) (bq_write_index bq) (bq_in_prebuf bq) (bq_silence bq)
    (bq_mcalign bq) (bq_missing bq) (bq_requested bq) (bq_sample_spec bq).
Definition set_prebuf (v : Z) (bq : pa_memblockq) : pa_memblockq :=
  mk_memblockq (bq_blocks bq) (bq_current_read bq) (bq_current_write bq) (bq_n_blocks bq)
    (bq_maxlength bq) (bq_tlength bq) (bq_base bq) v (bq_minreq bq) (bq_maxrewind bq)
    (bq_read_index bq) (bq_write_index bq) (bq_in_prebuf bq) (bq_silence bq)
    (bq_mcalign bq) (bq_missing bq) (bq_requested bq) (bq_sample_spec bq).
Definition set_minreq (v : Z) (bq : pa_memblockq) : pa_memblockq :=
  mk_memblockq (bq_blocks bq) (bq_current_read bq) (bq_current_write bq) (bq_n_blocks bq)
    (bq_maxlength bq) (bq_tlength bq) (bq_base bq) (bq_prebuf bq) v (bq_maxrewind bq)
    (bq_read_index bq) (bq_write_index bq) (bq_in_prebuf bq) (bq_silence bq)
    (bq_mcalign bq) (bq_missing bq) (bq_requested bq) (bq_sample_spec bq).
Definition set_maxrewind (v : Z) (bq : pa_memblockq) : pa_memblockq :=
  mk_memblockq (bq_blocks bq) (bq_current_read bq) (bq_current_write bq) (bq_n_blocks bq)
    (bq_maxlength bq) (bq_tlength bq) (bq_base bq) (bq_prebuf bq) (bq_minreq bq) v
    (bq_read_index bq) (bq_write_index bq) (bq_in_prebuf bq) (bq_silence bq)
    (bq_mcalign bq) (bq_missing bq) (bq_requested bq) (bq_sample_spec bq).
Definition set_read_index (v : Z) (bq : pa_memblockq) : pa_memblockq :=
  mk_memblockq (bq_blocks bq) (bq_current_read bq) (bq_current_write bq) (bq_n_blocks bq)
    (bq_maxlength bq) (bq_tlength bq) (bq_base bq) (bq_prebuf bq) (bq_minreq bq)
    (bq_maxrewind bq) v (bq_write_index bq) (bq_in_prebuf bq) (bq_silence bq)
    (bq_mcalign bq) (bq_missing bq) (bq_requested bq) (bq_sample_spec bq).
Definition set_write_index (v : Z) (bq : pa_memblockq) : pa_memblockq :=
  mk_memblockq (bq_blocks bq) (bq_current_read bq) (bq_current_write bq) (bq_n_blocks bq)
    (bq_maxlength bq) (bq_tlength bq) (bq_base bq) (bq_prebuf bq) (bq_minreq bq)
    (bq_maxrewind bq) (bq_read_index bq) v (bq_in_prebuf bq) (bq_silence bq)
    (bq_mcalign bq) (bq_missing bq) (bq_requested bq) (bq_sample_spec bq).
Definition set_in_prebuf (v : bool) (bq : pa_memblockq) : pa_memblockq :=
  mk_memblockq (bq_blocks bq) (bq_current_read bq) (bq_current_write bq) (bq_n_blocks bq)
    (bq_maxlength bq) (bq_tlength bq) (bq_base bq) (bq_prebuf bq) (bq_minreq bq)
    (bq_maxrewind bq) (bq_read_index bq) (bq_write_index bq) v (bq_silence bq)
    (bq_mcalign bq) (bq_missing bq) (bq_requested bq) (bq_sample_spec bq).
Definition set_silence (v : pa_memchunk) (bq : pa_memblockq) : pa_memblockq :=
  mk_memblockq (bq_blocks bq) (bq_current_read bq) (bq_current_write bq) (bq_n_blocks bq)
    (bq_maxlength bq) (bq_tlength bq) (bq_base bq) (bq_prebuf bq) (bq_minreq bq)
    (bq_maxrewind bq) (bq_read_index bq) (bq_write_index bq) (bq_in_prebuf bq) v
    (bq_mcalign bq) (bq_missing bq) (bq_requested bq) (bq_sample_spec bq).
Definition set_mcalign (v : pa_mcalign) (bq : pa_memblockq) : pa_memblockq :=
  mk_memblockq (bq_blocks bq) (bq_current_read bq) (bq_current_write bq) (bq_n_blocks bq)
    (bq_maxlength bq) (bq_tlength bq) (bq_base bq) (bq_prebuf bq) (bq_minreq bq)
    (bq_maxrewind bq) (bq_read_index bq) (bq_write_index bq) (bq_in_prebuf bq)
    (bq_silence bq) v (bq_missing bq) (bq_requested bq) (bq_sample_spec bq).
Definition set_missing (v : Z) (bq : pa_memblockq) : pa_memblockq :=
  mk_memblockq (bq_blocks bq) (bq_current_read bq) (bq_current_write bq) (bq_n_blocks bq)
    (bq_maxlength bq) (bq_tlength bq) (bq_base bq) (bq_prebuf bq) (bq_minreq bq)
    (bq_maxrewind bq) (bq_read_index bq) (bq_write_index bq) (bq_in_prebuf bq)
    (bq_silence bq) (bq_mcalign bq) v (bq_requested bq) (bq_sample_spec bq).
Definition set_requested (v : Z) (bq : pa_memblockq) : pa_memblockq :=
  mk_memblockq (bq_blocks bq) (bq_current_read bq) (bq_current_write bq) (bq_n_blocks bq)
    (bq_maxlength bq) (bq_tlength bq) (bq_base bq) (bq_prebuf bq) (bq_minreq bq)
    (bq_maxrewind bq) (bq_read_index bq) (bq_write_index bq) (bq_in_prebuf bq)
    (bq_silence bq) (bq_mcalign bq) (bq_missing bq) v (bq_sample_spec bq).

(** ** Small helpers *)

(** [it->index + (int64_t) it->chunk.length] *)
Definition li_end (it : list_item) : Z := li_index it + mc_length (li_chunk it).

(** [bq->blocks_tail] *)
Definition blocks_tail (bq : pa_memblockq) : option nat :=
  match bq_blocks bq with [] => None | _ :: _ => Some (pred (length (bq_blocks bq))) end.

(** [q->prev] *)
Definition prev (n : nat) : option nat := match n with O => None | S m => Some m end.

(** A pointer after the node at position [n] was unlinked or a node was linked
    in at position [n]. *)
Definition after_delete (n : nat) (c : nat) : nat := if (n <? c)%nat then pred c else c.
Definition after_insert (n : nat) (c : nat) : nat := if (n <=? c)%nat then S c else c.

Definition link (n : nat) (it : list_item) (bq : pa_memblockq) : pa_memblockq :=
  let bq := set_blocks (take n (bq_blocks bq) ++ it :: drop n (bq_blocks bq)) bq in
  let bq := set_current_read (after_insert n <$> bq_current_read bq) bq in
  let bq := set_current_write (after_insert n <$> bq_current_write bq) bq in
  set_n_blocks (u32 (bq_n_blocks bq + 1)) bq.

(** ** Queue attributes *)

Definition pa_memblockq_get_length (bq : pa_memblockq) : Z :=
  if bq_write_index bq <=? bq_read_index bq then 0
  else u64 (bq_write_index bq - bq_read_index bq).

Definition pa_memblockq_set_prebuf (prebuf : Z) (bq : pa_memblockq) : pa_memblockq :=
  let limit := u64 (u64 (bq_tlength bq + bq_base bq) - bq_minreq bq) in
  let prebuf := if prebuf =? SIZE_MAX then limit else prebuf in
  let p := u64 (u64 (u64 (prebuf + bq_base bq) - 1) / bq_base bq * bq_base bq) in
  let p := if (0 <? prebuf) && (p <? bq_base bq) then bq_base bq else p in
  let p := if limit <? p then limit else p in
  let bq := set_prebuf p bq in
  if (p <=? 0) || (p <=? pa_memblockq_get_length bq) then set_in_prebuf false bq else bq.

Definition pa_memblockq_set_minreq (minreq : Z) (bq : pa_memblockq) : pa_memblockq :=
  let r := u64 (minreq / bq_base bq * bq_base bq) in
  let r := if bq_tlength bq <? r then bq_tlength bq else r in
  let r := if r <? bq_base bq then bq_base bq else r in
  let bq := set_minreq r bq in
  let limit := u64 (u64 (bq_tlength bq + bq_base bq) - bq_minreq bq) in
  if limit <? bq_prebuf bq then pa_memblockq_set_prebuf limit bq else bq.

Definition pa_memblockq_set_tlength (tlength : Z) (bq : pa_memblockq) : pa_memblockq :=
  let tlength := if (tlength <=? 0) || (tlength =? SIZE_MAX) then bq_maxlength bq else tlength in
  let old_tlength := bq_tlength bq in
  let t := u64 (u64 (u64 (tlength + bq_base bq) - 1) / bq_base bq * bq_base bq) in
  let t := if bq_maxlength bq <? t then bq_maxlength bq else t in
  let bq := set_tlength t bq in
  let bq := if bq_tlength bq <? bq_minreq bq
            then pa_memblockq_set_minreq (bq_tlength bq) bq else bq in
  let limit := u64 (u64 (bq_tlength bq + bq_base bq) - bq_minreq bq) in
  let bq := if limit <? bq_prebuf bq then pa_memblockq_set_prebuf limit bq else bq in
  set_missing (bq_missing bq + (s64 (bq_tlength bq) - s64 old_tlength)) bq.

Definition pa_memblockq_set_maxlength (maxlength : Z) (bq : pa_memblockq) : pa_memblockq :=
  let l := u64 (u64 (u64 (maxlength + bq_base bq) - 1) / bq_base bq * bq_base bq) in
  let l := if l <? bq_base bq then bq_base bq else l in
  let bq := set_maxlength l bq in
  if bq_maxlength bq <? bq_tlength bq
  then pa_memblockq_set_tlength (bq_maxlength bq) bq else bq.

Definition pa_memblockq_set_maxrewind (maxrewind : Z) (bq : pa_memblockq) : pa_memblockq :=
  set_maxrewind (u64 (maxrewind / bq_base bq * bq_base bq)) bq.

(** [pa_buffer_attr]: the four fields that concern the queue. *)
Record pa_buffer_attr := mk_buffer_attr {
  a_maxlength : Z;
  a_tlength : Z;
  a_prebuf : Z;
  a_minreq : Z
}.

Definition pa_memblockq_apply_attr (a : pa_buffer_attr) (bq : pa_memblockq) : pa_memblockq :=
  let bq := pa_memblockq_set_maxlength (a_maxlength a) bq in
  let bq := pa_memblockq_set_tlength (a_tlength a) bq in
  let bq := pa_memblockq_set_minreq (a_minreq a) bq in
  pa_memblockq_set_prebuf (a_prebuf a) bq.

Definition pa_memblockq_get_attr (bq : pa_memblockq) : pa_buffer_attr :=
  mk_buffer_attr (u32 (bq_maxlength bq)) (u32 (bq_tlength bq)) (u32 (bq_prebuf bq))
    (u32 (bq_minreq bq)).

(** ** Construction *)

Definition pa_memblockq_new (idx maxlength tlength : Z) (spec : pa_sample_spec)
    (prebuf minreq maxrewind : Z) (silence : option pa_memchunk) (st : store)
    : outcome (pa_memblockq * store) :=
  base ← pa_frame_size spec;
  let bq := mk_memblockq [] None None 0 0 0 base 0 0 0 idx idx true pa_memchunk_reset
              (mk_mcalign 0 pa_memchunk_reset pa_memchunk_reset) 0 0 spec in
  let bq := pa_memblockq_set_maxlength maxlength bq in
  let bq := pa_memblockq_set_tlength tlength bq in
  let bq := pa_memblockq_set_minreq minreq bq in
  let bq := pa_memblockq_set_prebuf prebuf bq in
  let bq := pa_memblockq_set_maxrewind maxrewind bq in
  '(bq, st) ← match silence with
    | Some s =>
        id ← deref (mc_memblock s);
        st ← pa_memblock_ref id st;
        Ok (set_silence s bq, st)
    | None => Ok (bq, st)
    end;
  m ← pa_mcalign_new (bq_base bq);
  Ok (set_mcalign m bq, st).

(** ** Cursors *)

(** [while (cr->index > ri) if (cr->prev) cr = cr->prev; else break;] *)
Fixpoint read_scan_left (l : list list_item) (ri : Z) (n : nat) : nat :=
  match l !! n with
  | Some it =>
      if ri <? li_index it then match n with O => O | S m => read_scan_left l ri m end else n
  | None => n
  end.

(** [while (cr != NULL && end(cr) <= ri) cr = cr->next;] over the items from
    position [n] on. *)
Fixpoint read_scan_right (ri : Z) (l : list list_item) (n : nat) : option nat :=
  match l with
  | [] => None
  | it :: l => if li_end it <=? ri then read_scan_right ri l (S n) else Some n
  end.

Definition fix_current_read (bq : pa_memblockq) : pa_memblockq :=
  match bq_blocks bq with
  | [] => set_current_read None bq
  | l =>
      let c := default 0%nat (bq_current_read bq) in
      let c := read_scan_left l (bq_read_index bq) c in
      set_current_read (read_scan_right (bq_read_index bq) (drop c l) c) bq
  end.

(** [while (end(cw) <= wi) if (cw->next) cw = cw->next; else break;] *)
Fixpoint write_scan_right (wi : Z) (l : list list_item) (n : nat) : nat :=
  match l with
  | it :: ((_ :: _) as l) => if li_end it <=? wi then write_scan_right wi l (S n) else n
  | _ => n
  end.

(** [while (cw != NULL && cw->index > wi) cw = cw->prev;] *)
Fixpoint write_scan_left (l : list list_item) (wi : Z) (n : nat) : option nat :=
  match l !! n with
  | Some it =>
      if wi <? li_index it then match n with O => None | S m => write_scan_left l wi m end
      else Some n
  | None => Some n
  end.

Definition fix_current_write (bq : pa_memblockq) : pa_memblockq :=
  match bq_blocks bq with
  | [] => set_current_write None bq
  | l =>
      let c := default (pred (length l)) (bq_current_write bq) in
      let c := write_scan_right (bq_write_index bq) (drop c l) c in
      set_current_write (write_scan_left l (bq_write_index bq) c) bq
  end.

(** ** Unlinking *)

Definition drop_block (n : nat) (bq : pa_memblockq) (st : store)
    : outcome (pa_memblockq * store) :=
  it ← deref (bq_blocks bq !! n);
  _ ← pa_assert (1 <=? bq_n_blocks bq);
  let l := delete n (bq_blocks bq) in
  let next := if (n <? length l)%nat then Some n else None in
  let cw := match bq_current_write bq with
            | Some c => if decide (c = n) then prev n else Some (after_delete n c)
            | None => None
            end in
  let cr := match bq_current_read bq with
            | Some c => if decide (c = n) then next else Some (after_delete n c)
            | None => None
            end in
  let bq := set_current_read cr (set_current_write cw (set_blocks l bq)) in
  id ← deref (mc_memblock (li_chunk it));
  st ← pa_memblock_unref id st;
  Ok (set_n_blocks (u32 (bq_n_blocks bq - 1)) bq, st).

(** [while (bq->blocks && end(bq->blocks) <= boundary) drop_block(bq, bq->blocks)];
    at most one round per block. *)
Fixpoint drop_backlog_loop (fuel : nat) (boundary : Z) (bq : pa_memblockq) (st : store)
    : outcome (pa_memblockq * store) :=
  match fuel, bq_blocks bq with
  | S fuel, it :: _ =>
      if li_end it <=? boundary then
        '(bq, st) ← drop_block 0 bq st;
        drop_backlog_loop fuel boundary bq st
      else Ok (bq, st)
  | _, _ => Ok (bq, st)
  end.

Definition drop_backlog (bq : pa_memblockq) (st : store) : outcome (pa_memblockq * store) :=
  drop_backlog_loop (length (bq_blocks bq)) (bq_read_index bq - bq_maxrewind bq) bq st.

(** [while (bq->blocks) drop_block(bq, bq->blocks)] *)
Fixpoint silence_loop (fuel : nat) (bq : pa_memblockq) (st : store)
    : outcome (pa_memblockq * store) :=
  match fuel, bq_blocks bq with
  | S fuel, _ :: _ =>
      '(bq, st) ← drop_block 0 bq st;
      silence_loop fuel bq st
  | _, _ => Ok (bq, st)
  end.

Definition pa_memblockq_silence (bq : pa_memblockq) (st : store) : outcome (pa_memblockq * store) :=
  '(bq, st) ← silence_loop (length (bq_blocks bq)) bq st;
  _ ← pa_assert (bq_n_blocks bq =? 0);
  Ok (bq, st).

Definition pa_memblockq_free (bq : pa_memblockq) (st : store) : outcome store :=
  '(bq, st) ← pa_memblockq_silence bq st;
  st ← unref_if_set (bq_silence bq) st;
  pa_mcalign_free (bq_mcalign bq) st.

(** ** Pushing *)

Definition can_push (bq : pa_memblockq) (l : Z) : bool :=
  let check l :=
    let end_ := match last (bq_blocks bq) with
                | Some it => li_end it
                | None => bq_write_index bq
                end in
    if end_ <? bq_write_index bq + l
    then negb (bq_maxlength bq <? bq_write_index bq + l - bq_read_index bq)
    else true in
  if bq_write_index bq <? bq_read_index bq then
    let d := bq_read_index bq - bq_write_index bq in
    if d <? l then check (u64 (l - d)) else true
  else check l.

Definition write_index_changed (old_write_index : Z) (account : bool) (bq : pa_memblockq)
    : pa_memblockq :=
  let delta := bq_write_index bq - old_write_index in
  if account then set_requested (bq_requested bq - delta) bq
  else set_missing (bq_missing bq - delta) bq.

Definition read_index_changed (old_read_index : Z) (bq : pa_memblockq) : pa_memblockq :=
  let delta := bq_read_index bq - old_read_index in
  set_missing (bq_missing bq + delta) bq.

(** [while (wi + len > q->index) if (q->next) q = q->next; else break;] *)
Fixpoint push_advance (wend : Z) (l : list list_item) (n : nat) : nat :=
  match l with
  | it :: ((_ :: _) as l) => if li_index it <? wend then push_advance wend l (S n) else n
  | _ => n
  end.

(** The node [q] with another chunk. *)
Definition update_item (n : nat) (it : list_item) (bq : pa_memblockq) : pa_memblockq :=
  set_blocks (<[n := it]> (bq_blocks bq)) bq.

(** The write position points into node [q]: save its tail in a new node if
    the new data ends inside [q], then truncate [q]. *)
Definition push_truncate (wi len : Z) (n : nat) (q : list_item) (bq : pa_memblockq) (st : store)
    : outcome (option nat * (pa_memblockq * store)) :=
  let c := li_chunk q in
  '(bq, st) ← if wi + len <? li_end q then
      id ← deref (mc_memblock c);
      st ← pa_memblock_ref id st;
      let d := u64 (wi + len - li_index q) in
      _ ← pa_assert (0 <? d);
      let p := mk_item (li_index q + d)
                 (mk_chunk (mc_memblock c) (mc_index c) (u64 (mc_length c - d))) in
      Ok (link (S n) p bq, st)
    else Ok (bq, st);
  let len' := u64 (wi - li_index q) in
  let bq := update_item n (mk_item (li_index q) (mk_chunk (mc_memblock c) (mc_index c) len')) bq in
  if len' =? 0 then
    '(bq, st) ← drop_block n bq st;
    Ok (prev n, (bq, st))
  else Ok (Some n, (bq, st)).

(** The loop from back to front that makes room for [wi, wi + len); the result
    is the node the new one goes after. *)
Fixpoint push_loop (wi len : Z) (n : nat) (bq : pa_memblockq) (st : store)
    : outcome (option nat * (pa_memblockq * store)) :=
  let continue bq st :=
    match n with
    | O => Ok (None, (bq, st))
    | S m => push_loop wi len m bq st
    end in
  q ← deref (bq_blocks bq !! n);
  if li_end q <=? wi then Ok (Some n, (bq, st))
  else if wi + len <=? li_index q then continue bq st
  else if (wi <=? li_index q) && (li_end q <=? wi + len) then
    '(bq, st) ← drop_block n bq st;
    continue bq st
  else if li_index q <=? wi then push_truncate wi len n q bq st
  else
    _ ← pa_assert ((li_index q <? wi + len) && (wi + len <? li_end q) && (wi <? li_index q));
    let d := u64 (wi + len - li_index q) in
    let c := li_chunk q in
    let q := mk_item (li_index q + d)
               (mk_chunk (mc_memblock c) (u64 (mc_index c + d)) (u64 (mc_length c - d))) in
    continue (update_item n q bq) st.

(** Try to merge the chunk with the node [q] before it; otherwise link a new
    node after [q], or at the front. *)
Definition push_insert (chunk : pa_memchunk) (q : option nat) (bq : pa_memblockq) (st : store)
    : outcome (pa_memblockq * store) :=
  let wi := bq_write_index bq in
  let add n :=
    id ← deref (mc_memblock chunk);
    st ← pa_memblock_ref id st;
    Ok (set_write_index (wi + mc_length chunk) (link n (mk_item wi chunk) bq), st) in
  match q with
  | Some n =>
      it ← deref (bq_blocks bq !! n);
      _ ← pa_assert (li_end it <=? wi);
      _ ← pa_assert (match bq_blocks bq !! S n with
                     | Some nx => wi + mc_length chunk <=? li_index nx
                     | None => true
                     end);
      let c := li_chunk it in
      if bool_decide (mc_memblock c = mc_memblock chunk)
         && (u64 (mc_index c + mc_length c) =? mc_index chunk) && (wi =? li_end it) then
        let c := mk_chunk (mc_memblock c) (mc_index c) (u64 (mc_length c + mc_length chunk)) in
        Ok (set_write_index (wi + mc_length chunk) (update_item n (mk_item (li_index it) c) bq), st)
      else add (S n)
  | None =>
      _ ← pa_assert (match bq_blocks bq with
                     | [] => true
                     | it :: _ => wi + mc_length chunk <=? li_index it
                     end);
      add 0%nat
  end.

(** The assertions at the top of [pa_memblockq_push]. *)
Definition push_asserts (bq : pa_memblockq) (c : pa_memchunk) (st : store) : outcome unit :=
  _ ← pa_assert (isset c);
  _ ← pa_assert (0 <? mc_length c);
  id ← deref (mc_memblock c);
  blen ← pa_memblock_get_length id st;
  _ ← pa_assert (u64 (mc_index c + mc_length c) <=? blen);
  _ ← pa_assert (mc_length c mod bq_base bq =? 0);
  pa_assert (mc_index c mod bq_base bq =? 0).

Definition pa_memblockq_push (bq : pa_memblockq) (uchunk : pa_memchunk) (st : store)
    : outcome (Z * (pa_memblockq * store)) :=
  _ ← push_asserts bq uchunk st;
  if negb (can_push bq (mc_length uchunk)) then Ok (-1, (bq, st))
  else
    let old := bq_write_index bq in
    let wend := old + mc_length uchunk in
    let bq := fix_current_write bq in
    let q := match bq_current_write bq with
             | Some n => Some (push_advance wend (drop n (bq_blocks bq)) n)
             | None => None
             end in
    let q := match q with Some n => Some n | None => blocks_tail bq end in
    '(q, (bq, st)) ← match q with
      | Some n => push_loop old (mc_length uchunk) n bq st
      | None => Ok (None, (bq, st))
      end;
    '(bq, st) ← push_insert uchunk q bq st;
    Ok (0, (write_index_changed old true bq, st)).

(** ** Prebuffering *)

Definition pa_memblockq_prebuf_active (bq : pa_memblockq) : bool :=
  if bq_in_prebuf bq then pa_memblockq_get_length bq <? bq_prebuf bq
  else (0 <? bq_prebuf bq) && (bq_write_index bq <=? bq_read_index bq).

Definition update_prebuf (bq : pa_memblockq) : bool * pa_memblockq :=
  if bq_in_prebuf bq then
    if pa_memblockq_get_length bq <? bq_prebuf bq then (true, bq)
    else (false, set_in_prebuf false bq)
  else
    if (0 <? bq_prebuf bq) && (bq_write_index bq <=? bq_read_index bq)
    then (true, set_in_prebuf true bq)
    else (false, bq).

Definition pa_memblockq_prebuf_disable (bq : pa_memblockq) : pa_memblockq :=
  set_in_prebuf false bq.

Definition pa_memblockq_prebuf_force (bq : pa_memblockq) : pa_memblockq :=
  if 0 <? bq_prebuf bq then set_in_prebuf true bq else bq.

(** ** Reading *)

(** [pa_memblockq_peek]: [None] for the return value -1, otherwise the chunk. *)
Definition pa_memblockq_peek (bq : pa_memblockq) (st : store)
    : outcome (option pa_memchunk * (pa_memblockq * store)) :=
  let '(wait, bq) := update_prebuf bq in
  if wait then Ok (None, (bq, st))
  else
    let bq := fix_current_read bq in
    let cr := match bq_current_read bq with Some n => bq_blocks bq !! n | None => None end in
    let silence length :=
      match mc_memblock (bq_silence bq) with
      | Some id =>
          st ← pa_memblock_ref id st;
          let l := mc_length (bq_silence bq) in
          let l := if (0 <? length) && (length <? l) then length else l in
          Ok (Some (mk_chunk (Some id) 0 l), (bq, st))
      | None =>
          if length <=? 0 then Ok (None, (bq, st))
          else Ok (Some (mk_chunk None 0 length), (bq, st))
      end in
    match cr with
    | Some it =>
        if bq_read_index bq <? li_index it then silence (u64 (li_index it - bq_read_index bq))
        else
          id ← deref (mc_memblock (li_chunk it));
          st ← pa_memblock_ref id st;
          let d := bq_read_index bq - li_index it in
          Ok (Some (mk_chunk (Some id) (u64 (mc_index (li_chunk it) + u64 d))
                      (u64 (mc_length (li_chunk it) - u64 d))), (bq, st))
    | None =>
        silence (if bq_read_index bq <? bq_write_index bq
                 then u64 (bq_write_index bq - bq_read_index bq) else 0)
    end.

(** The loop of [pa_memblockq_peek_fixed_size]: fill the block [rid] from
    [rindex] to [block_size] with the items from [items] on and with silence
    in the gaps. *)
Fixpoint peek_fixed_loop (fuel : nat) (block_size : Z) (silence : pa_memchunk) (rid : Z)
    (rindex ri : Z) (items : list list_item) (st : store) : outcome store :=
  if block_size <=? rindex then Ok st
  else
    match fuel with
    | O => UB
    | S fuel =>
        let '(tchunk, items) :=
          match items with
          | it :: rest =>
              if ri <? li_index it then
                (mk_chunk (mc_memblock silence) (mc_index silence)
                   (Z.min (mc_length silence) (u64 (li_index it - ri))), items)
              else
                let d := u64 (ri - li_index it) in
                (mk_chunk (mc_memblock (li_chunk it)) (u64 (mc_index (li_chunk it) + d))
                   (u64 (mc_length (li_chunk it) - d)), rest)
          | [] => (silence, [])
          end in
        let l := Z.min (mc_length tchunk) (block_size - rindex) in
        st ← pa_memchunk_memcpy (mk_chunk (Some rid) rindex l)
               (mk_chunk (mc_memblock tchunk) (mc_index tchunk) l) st;
        peek_fixed_loop fuel block_size silence rid (rindex + l) (ri + l) items st
    end.

Definition pa_memblockq_peek_fixed_size (fuel : nat) (bq : pa_memblockq) (block_size : Z) (st : store)
    : outcome (option pa_memchunk * (pa_memblockq * store)) :=
  _ ← pa_assert (0 <? block_size);
  _ ← pa_assert (isset (bq_silence bq));
  '(r, (bq, st)) ← pa_memblockq_peek bq st;
  match r with
  | None => Ok (None, (bq, st))
  | Some tchunk =>
      if block_size <=? mc_length tchunk
      then Ok (Some (mk_chunk (mc_memblock tchunk) (mc_index tchunk) block_size), (bq, st))
      else
        tid ← deref (mc_memblock tchunk);
        '(rid, st) ← pa_memblock_new block_size st;
        st ← pa_memchunk_memcpy (mk_chunk (Some rid) 0 (mc_length tchunk)) tchunk st;
        st ← pa_memblock_unref tid st;
        let items := match bq_current_read bq with
                     | Some n => drop n (bq_blocks bq)
                     | None => []
                     end in
        st ← peek_fixed_loop fuel block_size (bq_silence bq) rid (mc_length tchunk)
               (bq_read_index bq + mc_length tchunk) items st;
        Ok (Some (mk_chunk (Some rid) 0 block_size), (bq, st))
  end.

(** The loop of [pa_memblockq_drop]: one round per block touched. *)
Fixpoint drop_loop (fuel : nat) (length : Z) (bq : pa_memblockq) : outcome pa_memblockq :=
  if length <=? 0 then Ok bq
  else
    match fuel with
    | O => UB
    | S fuel =>
        let '(wait, bq) := update_prebuf bq in
        if wait then Ok bq
        else
          let bq := fix_current_read bq in
          match (match bq_current_read bq with Some n => bq_blocks bq !! n | None => None end) with
          | Some it =>
              let p := li_end it in
              _ ← pa_assert (bq_read_index bq <=? p);
              let d := p - bq_read_index bq in
              let d := if length <? d then length else d in
              drop_loop fuel (u64 (length - u64 d)) (set_read_index (bq_read_index bq + d) bq)
          | None => Ok (set_read_index (bq_read_index bq + length) bq)
          end
    end.

Definition pa_memblockq_drop (bq : pa_memblockq) (len : Z) (st : store)
    : outcome (pa_memblockq * store) :=
  _ ← pa_assert (len mod bq_base bq =? 0);
  let old := bq_read_index bq in
  bq ← drop_loop (S (S (length (bq_blocks bq)))) len bq;
  '(bq, st) ← drop_backlog bq st;
  Ok (read_index_changed old bq, st).

Definition pa_memblockq_rewind (bq : pa_memblockq) (len : Z) : outcome pa_memblockq :=
  _ ← pa_assert (len mod bq_base bq =? 0);
  let old := bq_read_index bq in
  Ok (read_index_changed old (set_read_index (bq_read_index bq - len) bq)).

Definition pa_memblockq_is_readable (bq : pa_memblockq) : bool :=
  if pa_memblockq_prebuf_active bq then false
  else negb (pa_memblockq_get_length bq <=? 0).

(** ** Seeking and flushing *)

Inductive pa_seek_mode_t :=
| PA_SEEK_RELATIVE
| PA_SEEK_ABSOLUTE
| PA_SEEK_RELATIVE_ON_READ
| PA_SEEK_RELATIVE_END.

Definition seek_target (bq : pa_memblockq) (offset : Z) (seek : pa_seek_mode_t) : Z :=
  match seek with
  | PA_SEEK_RELATIVE => bq_write_index bq + offset
  | PA_SEEK_ABSOLUTE => offset
  | PA_SEEK_RELATIVE_ON_READ => bq_read_index bq + offset
  | PA_SEEK_RELATIVE_END =>
      match last (bq_blocks bq) with
      | Some it => li_end it
      | None => bq_read_index bq
      end + offset
  end.

Definition pa_memblockq_seek (bq : pa_memblockq) (offset : Z) (seek : pa_seek_mode_t)
    (account : bool) (st : store) : outcome (pa_memblockq * store) :=
  let old := bq_write_index bq in
  let bq := set_write_index (seek_target bq offset seek) bq in
  '(bq, st) ← drop_backlog bq st;
  Ok (write_index_changed old account bq, st).

Definition pa_memblockq_flush_write (bq : pa_memblockq) (account : bool) (st : store)
    : outcome (pa_memblockq * store) :=
  '(bq, st) ← pa_memblockq_silence bq st;
  let old := bq_write_index bq in
  let bq := set_write_index (bq_read_index bq) bq in
  Ok (write_index_changed old account (pa_memblockq_prebuf_force bq), st).

Definition pa_memblockq_flush_read (bq : pa_memblockq) (st : store)
    : outcome (pa_memblockq * store) :=
  '(bq, st) ← pa_memblockq_silence bq st;
  let old := bq_read_index bq in
  let bq := set_read_index (bq_write_index bq) bq in
  Ok (read_index_changed old (pa_memblockq_prebuf_force bq), st).

(** ** Requests *)

Definition pa_memblockq_pop_missing (bq : pa_memblockq) : Z * pa_memblockq :=
  if bq_missing bq <=? 0 then (0, bq)
  else if (u64 (bq_missing bq) <? bq_minreq bq) && negb (pa_memblockq_prebuf_active bq)
  then (0, bq)
  else (u64 (bq_missing bq),
        set_missing 0 (set_requested (bq_requested bq + bq_missing bq) bq)).

(** ** Unaligned pushes, splicing *)

(** [while (pa_mcalign_pop(...) >= 0) { r = push; unref; if (r < 0) ... }];
    the aligner yields at most two chunks. *)
Fixpoint push_align_loop (fuel : nat) (bq : pa_memblockq) (st : store)
    : outcome (Z * (pa_memblockq * store)) :=
  match fuel with
  | O => UB
  | S fuel =>
      '(r, (m, st)) ← pa_mcalign_pop (bq_mcalign bq) st;
      let bq := set_mcalign m bq in
      match r with
      | None => Ok (0, (bq, st))
      | Some rchunk =>
          '(r, (bq, st)) ← pa_memblockq_push bq rchunk st;
          id ← deref (mc_memblock rchunk);
          st ← pa_memblock_unref id st;
          if r <? 0 then
            '(m, st) ← pa_mcalign_flush (bq_mcalign bq) st;
            Ok (-1, (set_mcalign m bq, st))
          else push_align_loop fuel bq st
      end
  end.

Definition pa_memblockq_push_align (bq : pa_memblockq) (chunk : pa_memchunk) (st : store)
    : outcome (Z * (pa_memblockq * store)) :=
  if bq_base bq =? 1 then pa_memblockq_push bq chunk st
  else
    csize ← pa_mcalign_csize (bq_mcalign bq) (mc_length chunk);
    if negb (can_push bq csize) then Ok (-1, (bq, st))
    else
      '(m, st) ← pa_mcalign_push (bq_mcalign bq) chunk st;
      push_align_loop 3 (set_mcalign m bq) st.

(** One round of the [for (;;)] of [pa_memblockq_splice]: [Some r] when it
    returns [r], [None] when it goes round again. *)
Definition splice_round (bq source : pa_memblockq) (st : store)
    : outcome (option Z * (pa_memblockq * pa_memblockq * store)) :=
  '(r, (source, st)) ← pa_memblockq_peek source st;
  match r with
  | None => Ok (Some 0, (bq, source, st))
  | Some chunk =>
      _ ← pa_assert (0 <? mc_length chunk);
      match mc_memblock chunk with
      | Some id =>
          '(r, (bq, st)) ← pa_memblockq_push_align bq chunk st;
          st ← pa_memblock_unref id st;
          if r <? 0 then Ok (Some (-1), (bq, source, st))
          else
            '(bq, st) ← pa_memblockq_drop bq (mc_length chunk) st;
            Ok (None, (bq, source, st))
      | None =>
          '(bq, st) ← pa_memblockq_seek bq (mc_length chunk) PA_SEEK_RELATIVE true st;
          '(bq, st) ← pa_memblockq_drop bq (mc_length chunk) st;
          Ok (None, (bq, source, st))
      end
  end.

(** [pa_memblockq_splice]; [None] when it is still looping after [fuel]
    rounds. *)
Fixpoint splice_loop (fuel : nat) (bq source : pa_memblockq) (st : store)
    : outcome (option Z * (pa_memblockq * pa_memblockq * store)) :=
  match fuel with
  | O => Ok (None, (bq, source, st))
  | S fuel =>
      '(r, (bq, source, st)) ← splice_round bq source st;
      match r with
      | Some r => Ok (Some r, (bq, source, st))
      | None => splice_loop fuel bq source st
      end
  end.

Definition pa_memblockq_splice (fuel : nat) (bq source : pa_memblockq) (st : store)
    : outcome (option Z * (pa_memblockq * pa_memblockq * store)) :=
  splice_loop fuel (pa_memblockq_prebuf_disable bq) source st.

(** ** The rest *)

Definition pa_memblockq_set_silence (silence : option pa_memchunk) (bq : pa_memblockq) (st : store)
    : outcome (pa_memblockq * store) :=
  st ← unref_if_set (bq_silence bq) st;
  match silence with
  | Some s =>
      id ← deref (mc_memblock s);
      st ← pa_memblock_ref id st;
      Ok (set_silence s bq, st)
  | None => Ok (set_silence pa_memchunk_reset bq, st)
  end.

(** [pa_memblockq_willneed] only moves the cached read cursor; the advice it
    gives the kernel about the pages has no effect on the state. *)
Definition pa_memblockq_willneed (bq : pa_memblockq) : pa_memblockq := fix_current_read bq.

Definition pa_memblockq_is_empty (bq : pa_memblockq) : bool :=
  match bq_blocks bq with [] => true | _ => false end.

Definition pa_memblockq_get_tlength (bq : pa_memblockq) : Z := bq_tlength bq.
Definition pa_memblockq_get_minreq (bq : pa_memblockq) : Z := bq_minreq bq.
Definition pa_memblockq_get_maxrewind (bq : pa_memblockq) : Z := bq_maxrewind bq.
Definition pa_memblockq_get_read_index (bq : pa_memblockq) : Z := bq_read_index bq.
Definition pa_memblockq_get_write_index (bq : pa_memblockq) : Z := bq_write_index bq.
Definition pa_memblockq_get_maxlength (bq : pa_memblockq) : Z := bq_maxlength bq.
Definition pa_memblockq_get_prebuf (bq : pa_memblockq) : Z := bq_prebuf bq.
Definition pa_memblockq_get_nblocks (bq : pa_memblockq) : Z := bq_n_blocks bq.
Definition pa_memblockq_get_base (bq : pa_memblockq) : Z := bq_base bq.
