(* ===== verification/MemblockqSpec.v ===== *)
(** * MemblockqSpec: invariant and stream contents of the audio queue

    The abstract view of a queue is the stream it stores: which byte, if any,
    lies at each 64-bit position ([content]).  This file defines that view and
    the invariant of the representation, and proves the facts about the cached
    cursors and about unlinking blocks that the operations' theorems rest
    on. *)
From stdpp Require Import base tactics numbers list gmap sorting.
From S2P Require Import Prelude Sample Memblock Mcalign Memblockq.

(** ** The representation invariant *)

(** [a] ends where [b] starts or before. *)
Definition before (a b : list_item) : Prop := li_end a <= li_index b.

Definition item_refs (it : list_item) (j : Z) : Z := chunk_refs (li_chunk it) j.

(** The references the nodes of a list hold on block [j]. *)
Definition items_refs (l : list list_item) (j : Z) : Z := sumZ ((fun it => item_refs it j) <$> l).

Definition valid_cursor (l : list list_item) (c : option nat) : Prop :=
  forall n, c = Some n -> (n < length l)%nat.

Definition item_in (st : store) (it : list_item) : Prop := chunk_in st (li_chunk it).

(** The list part of the invariant, over a store [st]: the nodes hold
    non-empty slices of live blocks, are counted by [n_blocks], and each holds
    a reference on its block. *)
Record list_mem (bq : pa_memblockq) (st : store) : Prop := {
  lw_items : Forall (item_in st) (bq_blocks bq);
  lw_count : bq_n_blocks bq = Z.of_nat (length (bq_blocks bq));
  lw_count_u32 : Z.of_nat (length (bq_blocks bq)) < 2 ^ 32;
  lw_read : valid_cursor (bq_blocks bq) (bq_current_read bq);
  lw_write : valid_cursor (bq_blocks bq) (bq_current_write bq);
  lw_refs : forall j, items_refs (bq_blocks bq) j <= refs st j
}.

(** Between operations the nodes are also ordered and disjoint. *)
Definition list_wf (bq : pa_memblockq) (st : store) : Prop :=
  list_mem bq st /\ StronglySorted before (bq_blocks bq).

(** ** The stream *)

Definition covers (i : Z) (it : list_item) : bool := (li_index it <=? i) && (i <? li_end it).

(** The byte a node stores for stream position [i]. *)
Definition item_byte (st : store) (it : list_item) (i : Z) : option cell :=
  chunk_bytes st (li_chunk it) !! Z.to_nat (i - li_index it).

(** The byte at stream position [i]: that of the node covering it, if any. *)
Fixpoint content (st : store) (l : list list_item) (i : Z) : option cell :=
  match l with
  | [] => None
  | it :: l => if covers i it then item_byte st it i else content st l i
  end.

Definition stream (bq : pa_memblockq) (st : store) (i : Z) : option cell :=
  content st (bq_blocks bq) i.

(** ** Lists of items *)

Lemma items_refs_app l k j : items_refs (l ++ k) j = items_refs l j + items_refs k j.
Proof. unfold items_refs. by rewrite fmap_app, sumZ_app. Qed.

Lemma items_refs_cons it l j : items_refs (it :: l) j = item_refs it j + items_refs l j.
Proof. done. Qed.

Lemma items_refs_nonneg l j : 0 <= items_refs l j.
Proof. apply sumZ_nonneg, Forall_fmap, Forall_true. intros. apply chunk_refs_nonneg. Qed.

Lemma item_refs_nonneg it j : 0 <= item_refs it j.
Proof. apply chunk_refs_nonneg. Qed.

Lemma item_in_pos st it : item_in st it -> 0 < mc_length (li_chunk it).
Proof. by intros (id & _ & _ & _ & ? & _). Qed.

Lemma item_in_end st it : item_in st it -> li_index it < li_end it.
Proof. intros ?%item_in_pos. unfold li_end. lia. Qed.

Lemma sorted_app l k :
  StronglySorted before (l ++ k) <->
  StronglySorted before l /\ StronglySorted before k /\
  (forall a b, a ∈ l -> b ∈ k -> before a b).
Proof.
  induction l as [|a l IH]; simpl.
  - split; [intros; split_and!; [constructor|done|]|tauto]. by intros a b ?%elem_of_nil.
  - split.
    + intros H. apply StronglySorted_inv in H as [Hs Ha]. apply IH in Hs as (H1 & H2 & H3).
      apply Forall_app in Ha as [Ha1 Ha2]. split_and!; [by constructor|done|].
      intros x y [->|Hx]%elem_of_cons Hy; [|by apply H3]. rewrite Forall_forall in Ha2. by apply Ha2.
    + intros (H1 & H2 & H3). apply StronglySorted_inv in H1 as [Hs Ha]. constructor.
      * apply IH. split_and!; [done..|]. intros. apply H3; [by right|done].
      * apply Forall_app. split; [done|]. apply Forall_forall. intros. by apply H3; [left|].
Qed.

Lemma content_app st l k i :
  content st (l ++ k) i =
  if existsb (covers i) l then content st l i else content st k i.
Proof. induction l as [|a l IH]; simpl; [done|]. destruct (covers i a); [done|]. by rewrite IH. Qed.

Lemma content_none st l i : Forall (fun it => covers i it = false) l -> content st l i = None.
Proof. induction 1 as [|a l Ha Hl IH]; simpl; [done|]. by rewrite Ha. Qed.

Lemma existsb_none l i : Forall (fun it => covers i it = false) l -> existsb (covers i) l = false.
Proof. induction 1 as [|a l Ha Hl IH]; simpl; [done|]. by rewrite Ha. Qed.

(** With nothing covering [i] on one side, the content comes from the other. *)
Lemma content_app_l st l k i : Forall (fun it => covers i it = false) k ->
  content st (l ++ k) i = content st l i.
Proof.
  intros Hk. induction l as [|a l IH]; simpl; [by apply content_none|]. by rewrite IH.
Qed.

Lemma content_app_r st l k i : Forall (fun it => covers i it = false) l ->
  content st (l ++ k) i = content st k i.
Proof. intros Hl. by rewrite content_app, existsb_none. Qed.

Lemma covers_ge i it : li_end it <= i -> covers i it = false.
Proof. intros. unfold covers. apply andb_false_iff. right. by apply Z.ltb_ge. Qed.

Lemma covers_lt i it : i < li_index it -> covers i it = false.
Proof. intros. unfold covers. apply andb_false_iff. left. by apply Z.leb_gt. Qed.

Lemma item_byte_keeps st st' it i : keeps st st' -> item_in st it -> item_in st' it ->
  item_byte st' it i = item_byte st it i.
Proof.
  intros K Hin (id & Em & Hr & _). unfold item_byte.
  destruct (chunk_in_keeps _ _ _ K Hin) as [_ ->]; [|done]. intros id' E. congruence.
Qed.

Lemma content_keeps st st' l i : keeps st st' -> Forall (item_in st) l -> Forall (item_in st') l ->
  content st' l i = content st l i.
Proof.
  intros K H H'. induction l as [|a l IH]; [done|]. simpl.
  apply Forall_cons in H as [Ha H], H' as [Ha' H'].
  rewrite IH by done. destruct (covers i a); [|done]. by apply item_byte_keeps.
Qed.

(** A node survives a change of the store that keeps its reference. *)
Lemma items_in_keeps st st' l : keeps st st' -> Forall (item_in st) l ->
  (forall j, 0 < items_refs l j -> 0 < refs st' j) -> Forall (item_in st') l.
Proof.
  intros K H Hr. induction l as [|a l IH]; [constructor|].
  apply Forall_cons in H as [Ha H]. constructor.
  - apply (chunk_in_keeps _ _ _ K Ha). intros id Em. apply Hr. rewrite items_refs_cons.
    unfold item_refs. rewrite (chunk_refs_some _ _ Em). pose proof (items_refs_nonneg l id). lia.
  - apply IH; [done|]. intros j Hj. apply Hr. rewrite items_refs_cons.
    pose proof (item_refs_nonneg a j). lia.
Qed.

(** ** Cursors *)

(** The reference search: the first node that ends after [ri], and the last
    node that starts at or before [wi]. *)
Definition first_unread (ri : Z) (l : list list_item) : option nat :=
  fst <$> list_find (fun it => ri < li_end it) l.

Fixpoint last_started (wi : Z) (l : list list_item) (n : nat) (acc : option nat) : option nat :=
  match l with
  | [] => acc
  | it :: l => last_started wi l (S n) (if li_index it <=? wi then Some n else acc)
  end.

Lemma read_scan_right_spec ri l n :
  read_scan_right ri l n = (fun m => n + m)%nat <$> first_unread ri l.
Proof.
  revert n. induction l as [|it l IH]; intros n; simpl; [done|].
  unfold first_unread in *. simpl. destruct (Z.leb_spec (li_end it) ri).
  - rewrite decide_False by lia. rewrite IH. destruct (list_find _ l) as [[m x]|]; simpl; [|done].
    f_equal. lia.
  - rewrite decide_True by lia. simpl. f_equal. lia.
Qed.

Lemma first_unread_app ri l k : Forall (fun it => li_end it <= ri) l ->
  first_unread ri (l ++ k) = (fun m => length l + m)%nat <$> first_unread ri k.
Proof.
  unfold first_unread. induction 1 as [|a l Ha Hl IH]; simpl.
  - by destruct (list_find _ k) as [[? ?]|].
  - rewrite decide_False by lia. destruct (list_find _ (l ++ k)) as [[m x]|];
      destruct (list_find _ k) as [[m' x']|]; simpl in *; naive_solver.
Qed.

Lemma read_scan_left_spec l ri n : (n < length l)%nat ->
  let m := read_scan_left l ri n in
  (m < length l)%nat /\ (m = 0%nat \/ exists it, l !! m = Some it /\ li_index it <= ri).
Proof.
  induction n as [|n IH]; intros Hn; simpl.
  - repeat case_match; auto.
  - destruct (lookup_lt_is_Some_2 l (S n) Hn) as [it E]. rewrite E.
    destruct (Z.ltb_spec ri (li_index it)); [apply IH; lia|]. split; [done|]. right. eauto.
Qed.

(** Everything before a node that started by [ri] has ended by [ri]. *)
Lemma sorted_take_end l ri m it : StronglySorted before l -> l !! m = Some it ->
  li_index it <= ri -> Forall (fun a => li_end a <= ri) (take m l).
Proof.
  intros Hs Hm Hi. rewrite <- (take_drop_middle l m it Hm) in Hs.
  apply sorted_app in Hs as (_ & _ & Hb). apply Forall_forall. intros a Ha.
  specialize (Hb a it Ha ltac:(by left)). unfold before in Hb. lia.
Qed.

Lemma fix_current_read_spec bq st : list_wf bq st ->
  bq_current_read (fix_current_read bq) = first_unread (bq_read_index bq) (bq_blocks bq).
Proof.
  intros Hw. unfold fix_current_read. destruct (bq_blocks bq) as [|x l0] eqn:El; [done|].
  rewrite <- El. set (l := bq_blocks bq) in *. simpl.
  set (c := default 0%nat (bq_current_read bq)).
  assert (c < length l)%nat as Hc.
  { subst c. destruct (bq_current_read bq) as [n|] eqn:E; simpl; [by apply (lw_read _ _ (proj1 Hw))|].
    rewrite El. simpl. lia. }
  destruct (read_scan_left_spec l (bq_read_index bq) c Hc) as [Hm Hor].
  set (m := read_scan_left l (bq_read_index bq) c) in *.
  rewrite read_scan_right_spec. symmetry. rewrite <- (take_drop m l) at 1.
  rewrite first_unread_app; [by rewrite length_take_le by lia|].
  destruct Hor as [->|(it & E & Hi)]; [constructor|].
  by apply (sorted_take_end _ _ _ it); [apply Hw| |].
Qed.

Lemma write_scan_right_bound wi l n : l <> [] ->
  (write_scan_right wi l n < n + length l)%nat.
Proof.
  revert n. induction l as [|a [|b l] IH]; intros n Hl; [done|simpl; lia|].
  change (write_scan_right wi (a :: b :: l) n) with
    (if li_end a <=? wi then write_scan_right wi (b :: l) (S n) else n).
  specialize (IH (S n) ltac:(done)). simpl length in *. case_match; lia.
Qed.

Lemma write_scan_left_bound l wi n m : write_scan_left l wi n = Some m -> (m <= n)%nat.
Proof.
  induction n as [|n IH]; simpl; repeat case_match; intros; simplify_eq; try lia.
  specialize (IH ltac:(done)). lia.
Qed.

(** ** Everything but the list *)

(** A node of whole frames of [b] bytes. *)
Definition item_frames (b : Z) (it : list_item) : Prop :=
  li_index it mod b = 0 /\ mc_index (li_chunk it) mod b = 0 /\ mc_length (li_chunk it) mod b = 0.

(** The fields of a queue that the list operations leave alone. *)
Definition rest (bq : pa_memblockq) :=
  (bq_maxlength bq, bq_tlength bq, bq_base bq, bq_prebuf bq, bq_minreq bq, bq_maxrewind bq,
   bq_read_index bq, bq_write_index bq, bq_in_prebuf bq, bq_silence bq, bq_mcalign bq,
   bq_missing bq, bq_requested bq, bq_sample_spec bq).

(** The references to block [j] held by anyone but the queue's nodes. *)
Definition ext (bq : pa_memblockq) (st : store) (j : Z) : Z :=
  refs st j - items_refs (bq_blocks bq) j.

Lemma rest_fix_read bq : rest (fix_current_read bq) = rest bq.
Proof. unfold fix_current_read. by destruct (bq_blocks bq). Qed.

Lemma rest_fix_write bq : rest (fix_current_write bq) = rest bq.
Proof. unfold fix_current_write. by destruct (bq_blocks bq). Qed.

Lemma blocks_fix_read bq : bq_blocks (fix_current_read bq) = bq_blocks bq.
Proof. unfold fix_current_read. by destruct (bq_blocks bq) eqn:E. Qed.

Lemma blocks_fix_write bq : bq_blocks (fix_current_write bq) = bq_blocks bq.
Proof. unfold fix_current_write. by destruct (bq_blocks bq) eqn:E. Qed.

Lemma first_unread_bound ri l n : first_unread ri l = Some n -> (n < length l)%nat.
Proof.
  unfold first_unread. destruct (list_find _ l) as [[m x]|] eqn:E; simpl; [|done].
  intros [= <-]. apply list_find_Some in E as (E & _ & _). by apply lookup_lt_Some in E.
Qed.

Lemma wf_fix_read bq st : list_wf bq st -> list_wf (fix_current_read bq) st.
Proof.
  intros Hw. pose proof (fix_current_read_spec _ _ Hw) as Hc. destruct Hw as [[H1 H3 H4 H5 H6 H7] H2].
  split; [|by rewrite blocks_fix_read]. split; rewrite ?blocks_fix_read; try done.
  - unfold fix_current_read. by destruct (bq_blocks bq).
  - rewrite Hc. intros n. apply first_unread_bound.
  - unfold fix_current_read. by destruct (bq_blocks bq).
Qed.

Lemma wf_fix_write bq st : list_wf bq st -> list_wf (fix_current_write bq) st.
Proof.
  intros [[H1 H3 H4 H5 H6 H7] H2]. split; [|by rewrite blocks_fix_write].
  split; rewrite ?blocks_fix_write; try done.
  - unfold fix_current_write. by destruct (bq_blocks bq).
  - unfold fix_current_write. by destruct (bq_blocks bq).
  - unfold fix_current_write. destruct (bq_blocks bq) as [|x l0] eqn:El; [done|].
    rewrite <- El in *. simpl. intros m Hm%write_scan_left_bound.
    set (c := default (pred (length (bq_blocks bq))) (bq_current_write bq)) in *.
    assert (c < length (bq_blocks bq))%nat as Hc.
    { subst c. destruct (bq_current_write bq) as [n|] eqn:E; simpl; [by apply H6|].
      rewrite El. simpl. lia. }
    assert (drop c (bq_blocks bq) <> []) as Hne.
    { intros E. apply (f_equal length) in E. rewrite length_drop in E. simpl in E. lia. }
    pose proof (write_scan_right_bound (bq_write_index bq) _ c Hne) as Hb.
    rewrite length_drop in Hb. lia.
Qed.

(** ** Unlinking a node *)

Lemma delete_refs l n it j : l !! n = Some it ->
  items_refs (delete n l) j = items_refs l j - item_refs it j.
Proof.
  intros Hn. rewrite <- (take_drop_middle l n it Hn) at 2.
  rewrite delete_take_drop, !items_refs_app, items_refs_cons. lia.
Qed.

Lemma delete_sorted l n : StronglySorted before l -> StronglySorted before (delete n l).
Proof.
  intros Hs. rewrite delete_take_drop. rewrite <- (take_drop n l) in Hs.
  apply sorted_app in Hs as (H1 & H2 & H3). apply sorted_app.
  replace (drop (S n) l) with (drop 1 (drop n l)) by (rewrite drop_drop; f_equal; lia).
  destruct (drop n l) as [|a k]; simpl; rewrite ?drop_0.
  - split_and!; [done|constructor|]. by intros ? ? ? ?%elem_of_nil.
  - apply StronglySorted_inv in H2 as [H2 _]. split_and!; [done..|].
    intros. apply H3; [done|by right].
Qed.

Lemma delete_length {A} (l : list A) n : (n < length l)%nat -> length (delete n l) = pred (length l).
Proof. intros. rewrite length_delete; [lia|]. by apply lookup_lt_is_Some. Qed.

Lemma drop_block_mem bq st n it :
  store_ok st -> list_mem bq st -> bq_blocks bq !! n = Some it ->
  exists bq' st', drop_block n bq st = Ok (bq', st') /\ store_ok st' /\ keeps st st' /\
    list_mem bq' st' /\ bq_blocks bq' = delete n (bq_blocks bq) /\ rest bq' = rest bq /\
    (forall j, ext bq' st' j = ext bq st j).
Proof.
  intros Hok [H1 H3 H4 H5 H6 H7] Hn. pose proof (lookup_lt_Some _ _ _ Hn) as Hlt.
  pose proof (delete_length (bq_blocks bq) n Hlt) as Hdl.
  assert (item_in st it) as Hit by (by apply (Forall_lookup_1 _ _ n _ H1)).
  destruct Hit as (id & Em & Hr & _).
  destruct (pa_memblock_unref_spec st id Hok Hr) as (st' & Eu & Hok' & K & _ & R).
  unfold drop_block. rewrite Hn. simpl. rewrite pa_assert_true by lia. simpl. rewrite Em. simpl.
  rewrite Eu. simpl. eexists _, _. split; [done|].
  assert (forall j, refs st' j = refs st j - item_refs it j) as R'.
  { intros j. rewrite R. unfold item_refs, chunk_refs. rewrite Em.
    change (-1) with (- (1)). rewrite delta_opp. lia. }
  assert (forall j, items_refs (delete n (bq_blocks bq)) j <= refs st' j) as Hrefs.
  { intros j. rewrite (delete_refs _ _ it), R' by done. specialize (H7 j). lia. }
  split_and!; try done.
  - split; simpl; try done.
    + apply (items_in_keeps st); [done| |].
      * apply Forall_delete. done.
      * intros j Hj. specialize (Hrefs j). lia.
    + rewrite Hdl, u32_small by lia. lia.
    + rewrite Hdl. lia.
    + intros m. rewrite Hdl. destruct (bq_current_read bq) as [c|] eqn:Ec; [|done].
      specialize (H5 c eq_refl). destruct (decide (c = n)) as [->|Hcn].
      * case_match eqn:Hlen; [|done]. apply Nat.ltb_lt in Hlen.
        intros [= <-]. lia.
      * unfold after_delete. destruct (Nat.ltb_spec n c); intros [= <-]; lia.
    + intros m. rewrite Hdl. destruct (bq_current_write bq) as [c|] eqn:Ec; [|done].
      specialize (H6 c eq_refl). destruct (decide (c = n)) as [->|Hcn].
      * destruct n; simpl; [done|]. intros [= <-]. lia.
      * unfold after_delete. destruct (Nat.ltb_spec n c); intros [= <-]; lia.
  - intros j. unfold ext. simpl. rewrite (delete_refs _ _ it), R' by done. lia.
Qed.

Lemma drop_block_spec bq st n it :
  store_ok st -> list_wf bq st -> bq_blocks bq !! n = Some it ->
  exists bq' st', drop_block n bq st = Ok (bq', st') /\ store_ok st' /\ keeps st st' /\
    list_wf bq' st' /\ bq_blocks bq' = delete n (bq_blocks bq) /\ rest bq' = rest bq /\
    (forall j, ext bq' st' j = ext bq st j).
Proof.
  intros Hok [Hm Hs] Hn. destruct (drop_block_mem bq st n it Hok Hm Hn)
    as (bq' & st' & E & ? & ? & ? & Eb & ? & ?).
  exists bq', st'. split_and!; try done. split; [done|]. rewrite Eb. by apply delete_sorted.
Qed.
