(* ===== verification/MemblockqPush.v ===== *)
(** * MemblockqPush: what a push does to the stream

    [pa_memblockq_push] walks the list of nodes backwards with five cases and
    edits it in place.  Here it is proved equal to a reference function that
    cuts every node at the written range, and from that what it does to the
    stream, to the accounting and to the references. *)
From stdpp Require Import base tactics numbers list gmap sorting.
From S2P Require Import Prelude Sample Memblock Mcalign Memblockq MemblockqSpec.

(** ** Reference: cutting a node at the written range [wi, wend) *)

(** What stays of a node before [wi]. *)
Definition left_part (wi : Z) (it : list_item) : option list_item :=
  if li_index it <? wi then
    let c := li_chunk it in
    Some (mk_item (li_index it)
            (mk_chunk (mc_memblock c) (mc_index c) (Z.min (li_end it) wi - li_index it)))
  else None.

(** What stays of a node after [wend].  When the node also starts at or before
    [wi], the code leaves the chunk's start where it was (memblockq.c, lines
    355-357). *)
Definition right_part (wi wend : Z) (it : list_item) : option list_item :=
  if wend <? li_end it then
    if wend <=? li_index it then Some it
    else
      let c := li_chunk it in
      let d := wend - li_index it in
      Some (mk_item wend
              (mk_chunk (mc_memblock c) (if li_index it <=? wi then mc_index c else mc_index c + d)
                 (mc_length c - d)))
  else None.

Definition last_pos (l : list list_item) : option nat :=
  match l with [] => None | _ :: _ => Some (pred (length l)) end.

(** ** Nodes that lie on one side of the range *)

Lemma left_part_before st wi it : item_in st it -> li_end it <= wi -> left_part wi it = Some it.
Proof.
  intros Hin He. pose proof (item_in_end _ _ Hin). unfold left_part.
  rewrite (proj2 (Z.ltb_lt _ _)) by lia. destruct it as [i [mb ix ln]]. unfold li_end in *. simpl in *.
  do 3 f_equal. lia.
Qed.

Lemma left_part_after wi it : wi <= li_index it -> left_part wi it = None.
Proof. intros. unfold left_part. by rewrite (proj2 (Z.ltb_ge _ _)). Qed.

Lemma right_part_before wi wend it : li_end it <= wend -> right_part wi wend it = None.
Proof. intros. unfold right_part. by rewrite (proj2 (Z.ltb_ge _ _)). Qed.

Lemma right_part_after st wi wend it : item_in st it -> wend <= li_index it ->
  right_part wi wend it = Some it.
Proof.
  intros ?%item_in_end ?. unfold right_part.
  by rewrite (proj2 (Z.ltb_lt _ _)), (proj2 (Z.leb_le _ _)) by lia.
Qed.

Lemma omap_left_before st wi l : Forall (item_in st) l -> Forall (fun a => li_end a <= wi) l ->
  omap (left_part wi) l = l.
Proof.
  induction l as [|a l IH]; [done|]. intros [Ha Hl]%Forall_cons [Ea El]%Forall_cons.
  simpl. rewrite (left_part_before st) by done. f_equal. auto.
Qed.

Lemma omap_right_before wi wend l : Forall (fun a => li_end a <= wend) l ->
  omap (right_part wi wend) l = [].
Proof.
  induction 1 as [|a l Ha Hl IH]; [done|]. simpl. by rewrite right_part_before.
Qed.

(** ** Single edits of the list *)

Lemma list_mem_more_refs bq st st' : list_mem bq st -> keeps st st' ->
  (forall j, refs st j <= refs st' j) -> list_mem bq st'.
Proof.
  intros [H1 H3 H4 H5 H6 H7] K Hr. split; try done.
  - apply (items_in_keeps st); [done..|]. intros j Hj. specialize (H7 j). specialize (Hr j). lia.
  - intros j. specialize (H7 j). specialize (Hr j). lia.
Qed.

Lemma link_length n it bq : (n <= length (bq_blocks bq))%nat ->
  length (bq_blocks (link n it bq)) = S (length (bq_blocks bq)).
Proof. intros. simpl. rewrite length_app, length_take. simpl. rewrite length_drop. lia. Qed.

Lemma items_refs_insert l n it j :
  items_refs (take n l ++ it :: drop n l) j = items_refs l j + item_refs it j.
Proof. rewrite <- (take_drop n l) at 3. rewrite !items_refs_app, items_refs_cons. lia. Qed.

Lemma link_mem bq st n it : list_mem bq st -> (n <= length (bq_blocks bq))%nat ->
  item_in st it -> Z.of_nat (length (bq_blocks bq)) + 1 < 2 ^ 32 ->
  (forall j, items_refs (bq_blocks bq) j + item_refs it j <= refs st j) ->
  list_mem (link n it bq) st.
Proof.
  intros [H1 H3 H4 H5 H6 H7] Hn Hit Hlen Hr. pose proof (link_length n it bq Hn) as El.
  split.
  - simpl. apply Forall_app. split; [by apply Forall_take|]. constructor; [done|]. by apply Forall_drop.
  - rewrite El. simpl. rewrite H3, u32_small by lia. lia.
  - rewrite El. lia.
  - unfold valid_cursor. rewrite El. simpl. intros m. destruct (bq_current_read bq) as [c|]; simpl; [|done].
    intros [= <-]. specialize (H5 c eq_refl). unfold after_insert. case_match; lia.
  - unfold valid_cursor. rewrite El. simpl. intros m. destruct (bq_current_write bq) as [c|]; simpl; [|done].
    intros [= <-]. specialize (H6 c eq_refl). unfold after_insert. case_match; lia.
  - intros j. simpl. rewrite items_refs_insert. apply Hr.
Qed.

Lemma insert_refs l n q it j : l !! n = Some q ->
  mc_memblock (li_chunk it) = mc_memblock (li_chunk q) -> items_refs (<[n := it]> l) j = items_refs l j.
Proof.
  intros Hn Em. pose proof (lookup_lt_Some _ _ _ Hn). rewrite insert_take_drop by done.
  rewrite <- (take_drop_middle l n q Hn) at 3. rewrite !items_refs_app, !items_refs_cons.
  unfold item_refs, chunk_refs. by rewrite Em.
Qed.

(** Shrinking a node in place. *)
Lemma insert_sorted l n q it : StronglySorted before l -> l !! n = Some q ->
  li_index q <= li_index it -> li_end it <= li_end q -> StronglySorted before (<[n := it]> l).
Proof.
  intros Hs Hn Hi He. rewrite insert_take_drop by (by apply lookup_lt_Some in Hn).
  rewrite <- (take_drop_middle l n q Hn) in Hs. apply sorted_app in Hs as (H1 & H2 & H3).
  apply StronglySorted_inv in H2 as [H2 H4]. apply sorted_app. split_and!; [done| |].
  - constructor; [done|]. eapply Forall_impl; [done|]. unfold before. simpl. lia.
  - intros a b Ha [->|Hb]%elem_of_cons; [|by apply H3; [|right]].
    specialize (H3 a q Ha ltac:(by left)). unfold before in *. lia.
Qed.

Lemma update_mem bq st n q it : list_mem bq st -> bq_blocks bq !! n = Some q ->
  mc_memblock (li_chunk it) = mc_memblock (li_chunk q) -> item_in st it ->
  list_mem (update_item n it bq) st.
Proof.
  intros [H1 H3 H4 H5 H6 H7] Hn Em Hit. split; simpl; rewrite ?length_insert; try done.
  - by apply Forall_insert.
  - intros m Hm. rewrite length_insert. by apply H5.
  - intros m Hm. rewrite length_insert. by apply H6.
  - intros j. by rewrite (insert_refs _ _ q).
Qed.

(** Truncating a node to nothing before unlinking it is the same as unlinking
    it. *)
Lemma drop_block_update n q it bq st : bq_blocks bq !! n = Some q ->
  mc_memblock (li_chunk it) = mc_memblock (li_chunk q) ->
  drop_block n (update_item n it bq) st = drop_block n bq st.
Proof.
  intros Hn Em. pose proof (lookup_lt_Some _ _ _ Hn). unfold drop_block. simpl.
  rewrite list_lookup_insert_eq, Hn by done. simpl. rewrite Em.
  assert (delete n (<[n := it]> (bq_blocks bq)) = delete n (bq_blocks bq)) as E.
  { rewrite !delete_take_drop, take_insert_ge, drop_insert_lt by lia. done. }
  by rewrite E.
Qed.

(** ** The loop *)

(** The result of clearing [wi, wend) among the first [length pre] nodes, with
    the nodes [post] behind them already clear of it. *)
Definition carved (wi wend : Z) (pre post : list list_item) (bq : pa_memblockq) (st : store)
    (q : option nat) (bq' : pa_memblockq) (st' : store) : Prop :=
  store_ok st' /\ keeps st st' /\ list_wf bq' st' /\ rest bq' = rest bq /\
  (forall j, ext bq' st' j = ext bq st j) /\
  bq_blocks bq' = omap (left_part wi) pre ++ omap (right_part wi wend) pre ++ post /\
  q = last_pos (omap (left_part wi) pre) /\
  (length (bq_blocks bq') <= S (length pre + length post))%nat.

Lemma last_pos_snoc l x : last_pos (l ++ [x]) = Some (length l).
Proof. destruct l; simpl; [done|]. rewrite length_app. simpl. f_equal. lia. Qed.

Lemma last_pos_prev l : last_pos l = prev (length l).
Proof. destruct l; done. Qed.

Lemma delete_mid {A} (pre post : list A) x : delete (length pre) (pre ++ x :: post) = pre ++ post.
Proof. apply delete_middle. Qed.

Lemma insert_mid {A} (pre post : list A) x y : <[length pre := y]> (pre ++ x :: post) = pre ++ y :: post.
Proof. rewrite insert_app_r_alt by lia. by rewrite Nat.sub_diag. Qed.

Lemma lookup_mid {A} (pre post : list A) x : (pre ++ x :: post) !! length pre = Some x.
Proof. by apply list_lookup_middle. Qed.

(** Shape of the chunk cut off at its end or at its start. *)
Lemma item_in_sub st it i off ln : item_in st it -> 0 <= off -> 0 < ln ->
  off + ln <= mc_length (li_chunk it) ->
  item_in st (mk_item i (mk_chunk (mc_memblock (li_chunk it)) (mc_index (li_chunk it) + off) ln)).
Proof.
  intros (id & Em & Hr & Hi & Hl & Hb) ? ? ?. exists id. simpl. split_and!; try done; lia.
Qed.

Section loop.
Context (wi len : Z) (Hlen : 0 < len).
Let wend := wi + len.

(** The nodes before one that starts at or before [wi] are clear of the
    range. *)
Lemma pre_clear st pre it post : Forall (item_in st) (pre ++ it :: post) ->
  StronglySorted before (pre ++ it :: post) -> li_index it <= wi ->
  omap (left_part wi) pre = pre /\ omap (right_part wi wend) pre = [].
Proof.
  intros Hin Hs Hi. apply Forall_app in Hin as [Hin _]. apply sorted_app in Hs as (_ & _ & Hb).
  assert (Forall (fun a => li_end a <= wi) pre) as He.
  { apply Forall_forall. intros a Ha. specialize (Hb a it Ha ltac:(by left)). unfold before in Hb. lia. }
  split; [by apply (omap_left_before st)|].
  apply omap_right_before. eapply Forall_impl; [exact He|]. simpl. subst wend. lia.
Qed.

(** Truncating the node at the write position. *)
Lemma truncate_plain bq st pre it post :
  store_ok st -> list_mem bq st -> bq_blocks bq = pre ++ it :: post ->
  li_index it <= wi < li_end it ->
  exists q bq' st',
    (let len' := u64 (wi - li_index it) in
     let bq := update_item (length pre) (mk_item (li_index it)
                 (mk_chunk (mc_memblock (li_chunk it)) (mc_index (li_chunk it)) len')) bq in
     if len' =? 0 then
       '(bq, st) ← drop_block (length pre) bq st;
       Ok (prev (length pre), (bq, st))
     else Ok (Some (length pre), (bq, st))) = Ok (q, (bq', st')) /\
    store_ok st' /\ keeps st st' /\ list_mem bq' st' /\ rest bq' = rest bq /\
    (forall j, ext bq' st' j = ext bq st j) /\
    bq_blocks bq' = pre ++ option_list (left_part wi it) ++ post /\
    q = last_pos (pre ++ option_list (left_part wi it)).
Proof.
  intros Hok Hw El Hi. pose proof Hw as [H1 H3 H4 H5 H6 H7].
  assert (bq_blocks bq !! length pre = Some it) as Hn by (rewrite El; apply lookup_mid).
  pose proof (Forall_lookup_1 _ _ _ _ H1 Hn) as Hin.
  pose proof (chunk_in_bound _ _ Hok Hin) as Hb. unfold li_end in Hi.
  simpl. rewrite u64_small by lia. unfold left_part.
  destruct (Z.eqb_spec (wi - li_index it) 0) as [E0|E0].
  - rewrite (drop_block_update _ it) by done.
    destruct (drop_block_mem bq st _ it Hok Hw Hn) as (bq' & st' & E & ? & ? & ? & Eb & ? & ?).
    rewrite E. simpl. eexists _, _, _. split; [done|].
    rewrite (proj2 (Z.ltb_ge _ _)) by lia. simpl.
    rewrite app_nil_r, last_pos_prev. split_and!; try done.
    rewrite Eb, El. apply delete_mid.
  - eexists _, _, _. split; [done|]. rewrite (proj2 (Z.ltb_lt _ _)) by lia.
    unfold li_end. rewrite Z.min_r by lia. simpl. rewrite last_pos_snoc.
    assert (item_in st (mk_item (li_index it) (mk_chunk (mc_memblock (li_chunk it))
      (mc_index (li_chunk it)) (wi - li_index it)))) as Hin'.
    { rewrite <- (Z.add_0_r (mc_index _)). apply item_in_sub; [done|lia..]. }
    split_and!; try done.
    + by apply (update_mem _ _ _ it).
    + intros j. unfold ext. simpl. by rewrite (insert_refs _ _ it).
    + simpl. rewrite El. apply insert_mid.
Qed.

Lemma parts_snoc pre it :
  omap (left_part wi) (pre ++ [it]) = omap (left_part wi) pre ++ option_list (left_part wi it) /\
  omap (right_part wi wend) (pre ++ [it])
    = omap (right_part wi wend) pre ++ option_list (right_part wi wend it).
Proof. rewrite !omap_app. simpl. by destruct (left_part wi it), (right_part wi wend it). Qed.

Lemma left_part_in st it a : item_in st it -> left_part wi it = Some a ->
  li_index a = li_index it /\ li_end a <= li_end it /\ li_end a <= wi /\ item_in st a.
Proof.
  intros Hin. unfold left_part. destruct (Z.ltb_spec (li_index it) wi); [|done]. intros [= <-].
  pose proof (item_in_end _ _ Hin). unfold li_end in *. simpl.
  split_and!; [done|lia..|]. rewrite <- (Z.add_0_r (mc_index _)). apply item_in_sub; [done|lia..].
Qed.

Lemma right_part_in st it a : item_in st it -> right_part wi wend it = Some a ->
  li_end a = li_end it /\ li_index it <= li_index a /\ wend <= li_index a /\ item_in st a.
Proof.
  intros Hin. unfold right_part. destruct (Z.ltb_spec wend (li_end it)) as [He|]; [|done].
  destruct (Z.leb_spec wend (li_index it)) as [Hi|Hi]; intros [= <-]; [split_and!; done || lia|].
  unfold li_end in *. simpl. split_and!; [lia..|]. destruct (Z.leb_spec (li_index it) wi).
  - rewrite <- (Z.add_0_r (mc_index _)). apply item_in_sub; [done|lia..].
  - apply item_in_sub; [done|lia..].
Qed.

Lemma omap_sorted (f : list_item -> option list_item) l : StronglySorted before l ->
  (forall x a, x ∈ l -> f x = Some a -> li_index x <= li_index a /\ li_end a <= li_end x) ->
  StronglySorted before (omap f l).
Proof.
  induction 1 as [|x l Hs IH Hx]; intros Hf; simpl; [constructor|].
  specialize (IH ltac:(intros; apply Hf; [by right|done])).
  destruct (f x) as [a|] eqn:E; [|done]. constructor; [done|].
  apply Forall_forall. intros b (y & Hy & Eb)%list_elem_of_omap.
  rewrite Forall_forall in Hx. specialize (Hx y Hy). unfold before in *.
  pose proof (Hf x a ltac:(by left) E). pose proof (Hf y b ltac:(by right) Eb). lia.
Qed.

(** The carved list is ordered. *)
Lemma carved_sorted st pre post : Forall (item_in st) pre ->
  StronglySorted before (pre ++ post) -> Forall (fun a => wend <= li_index a) post ->
  StronglySorted before (omap (left_part wi) pre ++ omap (right_part wi wend) pre ++ post).
Proof.
  intros Hin (H1 & H2 & H3)%sorted_app Hp. rewrite Forall_forall in Hin, Hp.
  assert (wi <= wend) as Hle by (subst wend; lia).
  assert (forall x a, x ∈ pre -> left_part wi x = Some a ->
    li_index a = li_index x /\ li_end a <= li_end x /\ li_end a <= wi /\ item_in st a) as HL
    by (intros; apply left_part_in; auto).
  assert (forall x a, x ∈ pre -> right_part wi wend x = Some a ->
    li_end a = li_end x /\ li_index x <= li_index a /\ wend <= li_index a /\ item_in st a) as HR
    by (intros; apply right_part_in; auto).
  apply sorted_app. split_and!; [|apply sorted_app; split_and!|].
  - apply omap_sorted; [done|]. intros x a Hx E. specialize (HL x a Hx E). lia.
  - apply omap_sorted; [done|]. intros x a Hx E. specialize (HR x a Hx E). lia.
  - done.
  - intros a b (x & Hx & E)%list_elem_of_omap Hb. specialize (HR x a Hx E).
    specialize (H3 x b Hx Hb). unfold before in *. lia.
  - intros a b (x & Hx & E)%list_elem_of_omap Hb. specialize (HL x a Hx E). unfold before.
    apply elem_of_app in Hb as [(y & Hy & Ey)%list_elem_of_omap|Hb].
    + specialize (HR y b Hy Ey). lia.
    + specialize (Hp b Hb). lia.
Qed.

(** One more node cleared in front of the loop. *)
Lemma carved_step pre it post bq st bq1 st1 q bq' st' :
  wi <= li_index it -> store_ok st -> store_ok st1 -> keeps st st1 -> rest bq1 = rest bq ->
  (forall j, ext bq1 st1 j = ext bq st j) ->
  carved wi wend pre (option_list (right_part wi wend it) ++ post) bq1 st1 q bq' st' ->
  carved wi wend (pre ++ [it]) post bq st q bq' st'.
Proof.
  intros Hi Hok0 Hok1 K1 R1 E1 (Hok & K & Hw & R & E & Eb & Eq & Hl).
  destruct (parts_snoc pre it) as [El Er]. rewrite (left_part_after wi it Hi), app_nil_r in El.
  split_and!; rewrite ?El, ?Er, <- ?app_assoc; try done.
  - apply (keeps_trans _ st1); [apply Hok0|apply Hok1|done..].
  - by rewrite R.
  - intros j. by rewrite E.
  - rewrite !length_app in *. simpl.
    assert (length (option_list (right_part wi wend it)) <= 1)%nat by (destruct (right_part _ _ _); simpl; lia).
    lia.
Qed.

(** Saving the end of the node behind the write position. *)
Lemma split_spec bq st pre it post :
  store_ok st -> list_mem bq st -> bq_blocks bq = pre ++ it :: post ->
  li_index it <= wi < li_end it -> Z.of_nat (length (bq_blocks bq)) + 1 < 2 ^ 32 ->
  exists bq1 st1,
    (if wi + len <? li_end it then
      id ← deref (mc_memblock (li_chunk it));
      st ← pa_memblock_ref id st;
      let d := u64 (wi + len - li_index it) in
      _ ← pa_assert (0 <? d);
      let p := mk_item (li_index it + d)
                 (mk_chunk (mc_memblock (li_chunk it)) (mc_index (li_chunk it))
                    (u64 (mc_length (li_chunk it) - d))) in
      Ok (link (S (length pre)) p bq, st)
    else Ok (bq, st)) = Ok (bq1, st1) /\
    store_ok st1 /\ keeps st st1 /\ list_mem bq1 st1 /\ rest bq1 = rest bq /\
    (forall j, ext bq1 st1 j = ext bq st j) /\
    bq_blocks bq1 = pre ++ it :: option_list (right_part wi wend it) ++ post.
Proof.
  intros Hok Hw El Hi Hlen32. pose proof Hw as [H1 _ _ _ _ H7].
  assert (item_in st it) as Hin.
  { rewrite El in H1. apply Forall_app in H1 as [_ H1]. by apply Forall_cons in H1 as [? _]. }
  unfold right_part. fold wend. destruct (Z.ltb_spec wend (li_end it)) as [He|He].
  2: { exists bq, st. split_and!; done || apply keeps_refl. }
  assert (li_index it < wend) as Hlt by (subst wend; lia).
  rewrite (proj2 (Z.leb_gt _ _)), (proj2 (Z.leb_le _ _)) by lia.
  pose proof (chunk_in_bound _ _ Hok Hin) as Hb. pose proof Hin as (id & Em & Hr & _).
  rewrite Em. simpl.
  destruct (pa_memblock_ref_spec st id Hok Hr) as (st1 & E1 & Hok1 & K1 & R1).
  rewrite E1. simpl. unfold li_end in *. rewrite u64_small by lia.
  rewrite pa_assert_true by (apply Z.ltb_lt; lia). simpl. rewrite u64_small by lia.
  replace (li_index it + (wend - li_index it)) with wend by lia.
  set (p := mk_item wend _). eexists _, _. split; [done|].
  assert (item_in st1 p) as Hp.
  { subst p. rewrite <- Em, <- (Z.add_0_r (mc_index _)). apply item_in_sub; [|lia..].
    apply (chunk_in_keeps st); [done..|]. intros id' E'. rewrite R1.
    assert (id' = id) as -> by congruence. pose proof (delta_nonneg id 1 id). lia. }
  assert (forall j, refs st j + item_refs p j = refs st1 j) as Rp
    by (intros j; rewrite R1; done).
  split_and!; try done.
  - apply link_mem; [|rewrite El, length_app; simpl; lia|done|lia|].
    + apply (list_mem_more_refs _ st); [done..|]. intros j. rewrite <- Rp.
      pose proof (item_refs_nonneg p j). lia.
    + intros j. rewrite <- Rp. specialize (H7 j). lia.
  - intros j. unfold ext. simpl. rewrite items_refs_insert, <- Rp. lia.
  - simpl. rewrite El. rewrite (cons_middle it), (assoc app), take_app_length', drop_app_length'
      by (rewrite length_app; simpl; lia). by rewrite <- (assoc app).
Qed.

Lemma push_truncate_spec bq st pre it post :
  store_ok st -> list_wf bq st -> bq_blocks bq = pre ++ it :: post ->
  li_index it <= wi < li_end it -> Z.of_nat (length (bq_blocks bq)) + 1 < 2 ^ 32 ->
  Forall (fun a => wend <= li_index a) post ->
  exists q bq' st', push_truncate wi len (length pre) it bq st = Ok (q, (bq', st')) /\
    carved wi wend (pre ++ [it]) post bq st q bq' st'.
Proof.
  intros Hok [Hm Hs] El Hi Hlen32 Hpost.
  destruct (split_spec bq st pre it post Hok Hm El Hi Hlen32)
    as (bq1 & st1 & E1 & Hok1 & K1 & Hm1 & R1 & X1 & B1).
  destruct (truncate_plain bq1 st1 pre it _ Hok1 Hm1 B1 Hi)
    as (q & bq' & st' & E2 & Hok2 & K2 & Hm2 & R2 & X2 & B2 & Eq).
  exists q, bq', st'. split; [unfold push_truncate; cbv zeta in *; rewrite E1; exact E2|].
  pose proof (lw_items _ _ Hm) as Hin. rewrite El in Hin, Hs.
  destruct (pre_clear st pre it post Hin Hs) as [Hl0 Hr0]; [lia|].
  destruct (parts_snoc pre it) as [El' Er']. rewrite Hl0 in El'. rewrite Hr0 in Er'.
  assert (Forall (item_in st) (pre ++ [it])) as Hin'
    by (rewrite cons_middle, (assoc app) in Hin; by apply Forall_app in Hin as [? _]).
  assert (StronglySorted before ((pre ++ [it]) ++ post)) as Hs' by by rewrite <- (assoc app).
  pose proof (carved_sorted st (pre ++ [it]) post Hin' Hs' Hpost) as Hsort.
  split_and!; rewrite ?El', ?Er', <- ?app_assoc; try done.
  - apply (keeps_trans _ st1); [apply Hok|apply Hok1|done..].
  - split; [done|]. rewrite B2. by rewrite El', Er', <- app_assoc in Hsort.
  - by rewrite R2.
  - intros j. by rewrite X2.
  - rewrite B2, !length_app. simpl.
    destruct (left_part wi it), (right_part wi wend it); simpl; lia.
Qed.

Lemma push_loop_eq n bq st : push_loop wi len n bq st =
  let continue bq st := match n with
    | O => Ok (None, (bq, st))
    | S m => push_loop wi len m bq st
    end in
  q ← deref (bq_blocks bq !! n);
  if li_end q <=? wi then Ok (Some n, (bq, st))
  else if wend <=? li_index q then continue bq st
  else if (wi <=? li_index q) && (li_end q <=? wend) then
    '(bq, st) ← drop_block n bq st;
    continue bq st
  else if li_index q <=? wi then push_truncate wi len n q bq st
  else
    _ ← pa_assert ((li_index q <? wend) && (wend <? li_end q) && (wi <? li_index q));
    let d := u64 (wend - li_index q) in
    let c := li_chunk q in
    let q := mk_item (li_index q + d)
               (mk_chunk (mc_memblock c) (u64 (mc_index c + d)) (u64 (mc_length c - d))) in
    continue (update_item n q bq) st.
Proof. by destruct n. Qed.

(** What one call of the loop is to establish, for the loop's induction. *)
Definition loop_ok (n : nat) : Prop := forall bq st pre it post,
  n = length pre -> store_ok st -> list_wf bq st -> bq_blocks bq = pre ++ it :: post ->
  Z.of_nat (length (bq_blocks bq)) + 1 < 2 ^ 32 -> Forall (fun a => wi + len <= li_index a) post ->
  exists q bq' st', push_loop wi len n bq st = Ok (q, (bq', st')) /\
    carved wi (wi + len) (pre ++ [it]) post bq st q bq' st'.

(** Going on with the node before [it], once [it] is clear of the range. *)
Lemma loop_continue n bq st pre it post bq1 st1 :
  (forall m, (m < n)%nat -> loop_ok m) -> n = length pre ->
  store_ok st -> item_in st it -> bq_blocks bq = pre ++ it :: post ->
  Z.of_nat (length (bq_blocks bq)) + 1 < 2 ^ 32 -> Forall (fun a => wend <= li_index a) post ->
  wi <= li_index it -> store_ok st1 -> list_wf bq1 st1 -> keeps st st1 ->
  rest bq1 = rest bq -> (forall j, ext bq1 st1 j = ext bq st j) ->
  bq_blocks bq1 = pre ++ option_list (right_part wi wend it) ++ post ->
  exists q bq' st', match n with
    | O => Ok (None, (bq1, st1))
    | S m => push_loop wi len m bq1 st1
    end = Ok (q, (bq', st')) /\ carved wi wend (pre ++ [it]) post bq st q bq' st'.
Proof.
  intros IH En Hok Hit El Hlen32 Hpost Hi Hok1 Hw1 K1 R1 X1 B1.
  destruct pre as [|it' pre _] using rev_ind; simpl in En.
  - subst n. eexists _, _, _. split; [done|].
    apply (carved_step [] it post bq st bq1 st1); try done.
    split_and!; done || apply keeps_refl || (rewrite B1; simpl; lia).
  - rewrite length_app in En. simpl in En. destruct n as [|n]; [lia|].
    assert (Forall (fun a => wend <= li_index a) (option_list (right_part wi wend it) ++ post)) as Hp.
    { apply Forall_app. split; [|done]. destruct (right_part wi wend it) as [a|] eqn:Ea; [|constructor].
      repeat constructor. by apply (right_part_in st) in Ea as (_ & _ & ? & _). }
    destruct (IH n ltac:(lia) bq1 st1 pre it' (option_list (right_part wi wend it) ++ post))
      as (q & bq' & st' & E & C); try done; [lia|by rewrite B1, <- app_assoc| |].
    { rewrite B1. rewrite El in Hlen32. rewrite !length_app in *. simpl in *.
      destruct (right_part wi wend it); simpl in *; lia. }
    exists q, bq', st'. split; [done|]. by apply (carved_step _ it post bq st bq1 st1).
Qed.

Lemma push_loop_spec n : loop_ok n.
Proof.
  induction n as [n IH] using lt_wf_ind; intros bq st pre it post En Hok Hw El Hlen32 Hpost.
  fold wend in Hpost |- *.
  assert (bq_blocks bq !! n = Some it) as Hn by (rewrite El, En; apply lookup_mid).
  pose proof (lw_items _ _ (proj1 Hw)) as Hin. pose proof (Forall_lookup_1 _ _ _ _ Hin Hn) as Hit.
  pose proof (item_in_end _ _ Hit) as Hpos. pose proof (chunk_in_bound _ _ Hok Hit) as Hb.
  assert (wi < wend) as Hww by (subst wend; lia).
  rewrite push_loop_eq, Hn. simpl.
  destruct (Z.leb_spec (li_end it) wi) as [H1|H1].
  { (* the node to insert after *)
    assert (Forall (fun a => li_end a <= wi) (pre ++ [it])) as He.
    { apply Forall_app. split; [|by repeat constructor].
      replace pre with (take n (bq_blocks bq)) by (rewrite El, En; apply take_app_length).
      apply (sorted_take_end _ wi n it); [apply Hw|done|lia]. }
    assert (Forall (item_in st) (pre ++ [it])) as Hin'.
    { rewrite El, cons_middle, (assoc app) in Hin. by apply Forall_app in Hin as [? _]. }
    eexists _, _, _. split; [done|]. unfold carved.
    rewrite (omap_left_before st), omap_right_before, last_pos_snoc
      by (done || (eapply Forall_impl; [exact He|simpl; lia])).
    split_and!; try done; [by rewrite El, <- app_assoc|congruence|].
    rewrite El, !length_app. simpl. lia. }
  destruct (Z.leb_spec wend (li_index it)) as [H2|H2].
  { (* untouched *)
    apply (loop_continue n bq st); try done; [lia|].
    by rewrite (right_part_after st). }
  destruct ((wi <=? li_index it) && (li_end it <=? wend)) eqn:H3.
  { (* replaced *)
    destruct (drop_block_spec bq st n it Hok Hw Hn) as (bq1 & st1 & E1 & Hok1 & K1 & Hw1 & B1 & R1 & X1).
    rewrite E1. simpl. apply (loop_continue n bq st); try done; [blia|].
    rewrite right_part_before by blia. by rewrite B1, El, En, delete_mid. }
  apply andb_false_iff in H3. rewrite Z.leb_gt, Z.leb_gt in H3.
  destruct (Z.leb_spec (li_index it) wi) as [H4|H4].
  { rewrite En. by apply push_truncate_spec. }
  (* the front of the node is overwritten *)
  rewrite pa_assert_true by blia. unfold li_end in *. simpl. rewrite !u64_small by lia.
  set (it' := mk_item _ _).
  assert (right_part wi wend it = Some it') as Er.
  { unfold right_part, li_end. rewrite (proj2 (Z.ltb_lt _ _)), !(proj2 (Z.leb_gt _ _)) by lia.
    subst it'. do 2 f_equal. lia. }
  destruct (right_part_in st it it' Hit Er) as (He & Hi & _ & Hin').
  apply (loop_continue n bq st); try done; [lia| | |].
  - split; [apply (update_mem _ _ _ it); [apply Hw|done..]|]. apply (insert_sorted _ _ it); try done; [apply Hw|lia].
  - intros j. unfold ext. simpl. by rewrite (insert_refs _ _ it).
  - rewrite Er. simpl. by rewrite El, En, insert_mid.
Qed.
End loop.

(** ** The write cursor *)

Lemma push_advance_spec wend l n : forall k, StronglySorted before l -> Forall (fun a => li_index a < li_end a) l ->
  k = drop n l -> k <> [] ->
  exists pre it post, l = pre ++ it :: post /\ push_advance wend k n = length pre /\
    Forall (fun a => wend <= li_index a) post.
Proof.
  intros k Hs Hp. revert n. induction k as [|a k IH]; intros n Ek Hne; [done|].
  assert (l !! n = Some a) as Hn by (rewrite <- (Nat.add_0_r n), <- lookup_drop, <- Ek; done).
  pose proof (lookup_lt_Some _ _ _ Hn) as Hlt.
  assert (k = drop (S n) l) as Ek'.
  { replace (S n) with (n + 1)%nat by lia. by rewrite <- drop_drop, <- Ek. }
  destruct k as [|b k].
  - exists (take n l), a, []. split_and!; [|by rewrite length_take_le by lia|constructor].
    by rewrite Ek', take_drop_middle.
  - change (push_advance wend (a :: b :: k) n) with
      (if li_index a <? wend then push_advance wend (b :: k) (S n) else n).
    destruct (Z.ltb_spec (li_index a) wend) as [|Ha]; [by apply IH|].
    exists (take n l), a, (b :: k). split_and!; [|by rewrite length_take_le by lia|].
    + by rewrite Ek', take_drop_middle.
    + rewrite <- (take_drop_middle l n a Hn), <- Ek' in Hs, Hp.
      apply sorted_app in Hs as (_ & [_ Hf]%StronglySorted_inv & _).
      apply Forall_app in Hp as [_ [Hpa _]%Forall_cons].
      eapply Forall_impl; [exact Hf|]. unfold before. simpl. lia.
Qed.

(** ** Making room: the first half of a push *)

Definition make_room (wi len : Z) (bq : pa_memblockq) (st : store)
    : outcome (option nat * (pa_memblockq * store)) :=
  let bq := fix_current_write bq in
  let q := match bq_current_write bq with
           | Some n => Some (push_advance (wi + len) (drop n (bq_blocks bq)) n)
           | None => None
           end in
  let q := match q with Some n => Some n | None => blocks_tail bq end in
  match q with
  | Some n => push_loop wi len n bq st
  | None => Ok (None, (bq, st))
  end.

Lemma last_snoc {A} (l : list A) : l <> [] -> exists k x, l = k ++ [x].
Proof. destruct l as [|x k _] using rev_ind; [done|eauto]. Qed.

Lemma push_start bq st wend : list_wf bq st -> bq_blocks bq <> [] ->
  let q := match bq_current_write bq with
           | Some n => Some (push_advance wend (drop n (bq_blocks bq)) n)
           | None => None
           end in
  exists pre it post, bq_blocks bq = pre ++ it :: post /\
    match q with Some n => Some n | None => blocks_tail bq end = Some (length pre) /\
    Forall (fun a => wend <= li_index a) post.
Proof.
  intros [Hm Hs] Hne. simpl. destruct (bq_current_write bq) as [n|] eqn:Ew.
  - pose proof (lw_write _ _ Hm n Ew) as Hn.
    assert (drop n (bq_blocks bq) <> []) as Hd.
    { intros E. apply (f_equal length) in E. rewrite length_drop in E. simpl in E. lia. }
    destruct (push_advance_spec wend (bq_blocks bq) n (drop n (bq_blocks bq)))
      as (pre & it & post & E1 & E2 & E3); try done.
    { eapply Forall_impl; [apply Hm|]. intros a. apply item_in_end. }
    exists pre, it, post. by rewrite E2.
  - destruct (last_snoc _ Hne) as (k & x & E). exists k, x, [].
    unfold blocks_tail. rewrite E. split_and!; [done| |constructor].
    destruct k; simpl; [done|]. rewrite length_app. simpl. do 2 f_equal. lia.
Qed.

(** Every node is cut at the written range, and nothing else changes. *)
Lemma make_room_spec bq st wi len : 0 < len -> store_ok st -> list_wf bq st ->
  Z.of_nat (length (bq_blocks bq)) + 1 < 2 ^ 32 ->
  exists bq' st', make_room wi len bq st
      = Ok (last_pos (omap (left_part wi) (bq_blocks bq)), (bq', st')) /\
    store_ok st' /\ keeps st st' /\ list_wf bq' st' /\ rest bq' = rest bq /\
    (forall j, ext bq' st' j = ext bq st j) /\
    bq_blocks bq' = omap (left_part wi) (bq_blocks bq) ++ omap (right_part wi (wi + len)) (bq_blocks bq) /\
    (length (bq_blocks bq') <= S (length (bq_blocks bq)))%nat.
Proof.
  intros Hlen Hok Hw Hlen32. unfold make_room.
  pose proof (wf_fix_write _ _ Hw) as Hw1. pose proof (rest_fix_write bq) as R1.
  pose proof (blocks_fix_write bq) as B1.
  assert (forall j, ext (fix_current_write bq) st j = ext bq st j) as X1
    by (intros; unfold ext; by rewrite B1).
  set (bq1 := fix_current_write bq) in *. rewrite <- B1 in Hlen32 |- *. simpl.
  destruct (decide (bq_blocks bq1 = [])) as [Enil|Hne].
  { assert (bq_current_write bq1 = None) as ->.
    { subst bq1. unfold fix_current_write. rewrite B1 in Enil. by rewrite Enil. }
    unfold blocks_tail. rewrite Enil. simpl. exists bq1, st. rewrite Enil. simpl.
    split_and!; try done. lia. }
  destruct (push_start bq1 st (wi + len) Hw1 Hne) as (pre & it & post & El & Eq & Hpost).
  simpl in Eq. rewrite Eq.
  destruct (push_loop_spec wi len Hlen (length pre) bq1 st pre it post)
    as (q & bq' & st' & E & (Hok' & K & Hw' & R & X & B & -> & Hl)); try done.
  pose proof (lw_items _ _ (proj1 Hw1)) as Hin.
  rewrite cons_middle, (assoc app) in El. rewrite El in Hin |- *. apply Forall_app in Hin as [_ Hin].
  assert (omap (left_part wi) post = []) as EL.
  { clear -Hpost Hlen. induction Hpost as [|a l Ha Hl IH]; [done|]. simpl.
    rewrite left_part_after by lia. done. }
  assert (omap (right_part wi (wi + len)) post = post) as ER.
  { clear -Hpost Hin. induction Hpost as [|a l Ha Hl IH]; [done|].
    apply Forall_cons in Hin as [Hia Hin]. simpl. rewrite (right_part_after st) by done.
    f_equal. auto. }
  exists bq', st'. rewrite E, !(omap_app _ _ post), EL, ER, app_nil_r.
  split_and!; try done; [by rewrite R|intros; by rewrite X|].
  rewrite !length_app in *. simpl in *. lia.
Qed.
