(* ===== verification/MemblockqWrite.v ===== *)
(** * MemblockqWrite: pushing to the queue, end to end

    The second half of [pa_memblockq_push] (merging or linking the new node)
    and what the whole operation does to the stream, to the invariant and to
    the references. *)
From stdpp Require Import base tactics numbers list gmap sorting.
From S2P Require Import Prelude Sample Memblock Mcalign Memblockq MemblockqSpec MemblockqPush.

(** ** Bytes of nodes *)

Lemma item_byte_lookup st it id i : mc_memblock (li_chunk it) = Some id ->
  0 <= mc_index (li_chunk it) -> covers i it = true ->
  item_byte st it i = bytes st id !! Z.to_nat (mc_index (li_chunk it) + (i - li_index it)).
Proof.
  intros Em Hi Hc. unfold covers, li_end in Hc. unfold item_byte, chunk_bytes. rewrite Em.
  rewrite sub_list_lookup by blia. f_equal. blia.
Qed.

Lemma covers_true i it : covers i it = true <-> li_index it <= i < li_end it.
Proof. unfold covers. rewrite andb_true_iff, Z.leb_le, Z.ltb_lt. done. Qed.

Lemma covers_spec i it :
  BoolSpec (li_index it <= i < li_end it) (i < li_index it \/ li_end it <= i) (covers i it).
Proof.
  unfold covers. destruct (Z.leb_spec (li_index it) i), (Z.ltb_spec i (li_end it));
    constructor; lia.
Qed.

(** Two adjacent slices of a block as one node. *)
Lemma content_merge st a c id l i :
  mc_memblock (li_chunk a) = Some id -> mc_memblock c = Some id ->
  0 <= mc_index (li_chunk a) -> 0 < mc_length (li_chunk a) -> 0 < mc_length c ->
  mc_index c = mc_index (li_chunk a) + mc_length (li_chunk a) ->
  content st (mk_item (li_index a) (mk_chunk (Some id) (mc_index (li_chunk a))
                (mc_length (li_chunk a) + mc_length c)) :: l) i
  = content st (a :: mk_item (li_end a) c :: l) i.
Proof.
  intros Ea Ec Hi Ha Hc Eidx. simpl. set (m := mk_item (li_index a) _).
  assert (li_end m = li_end a + mc_length c) as Em by (unfold li_end, m; simpl; lia).
  assert (li_end (mk_item (li_end a) c) = li_end a + mc_length c) as Ee by done.
  assert (li_end a = li_index a + mc_length (li_chunk a)) as El by done.
  destruct (covers_spec i m), (covers_spec i a), (covers_spec i (mk_item (li_end a) c));
    rewrite ?Em, ?Ee in *; simpl in *; try lia; try done;
    rewrite !(item_byte_lookup _ _ id) by (done || (simpl; lia) || (apply covers_true; simpl; lia));
    simpl; f_equal; lia.
Qed.

(** ** Cutting and the stream *)

Lemma omap_cons_app {A B} (f : A -> option B) a l : omap f (a :: l) = option_list (f a) ++ omap f l.
Proof. simpl. by destruct (f a). Qed.

Lemma content_left st wi l i : Forall (item_in st) l -> i < wi ->
  content st (omap (left_part wi) l) i = content st l i.
Proof.
  intros H Hi. induction H as [|a l Ha Hl IH]; [done|].
  rewrite omap_cons_app. destruct (left_part wi a) as [b|] eqn:E; simpl content.
  - unfold left_part in E. destruct (Z.ltb_spec (li_index a) wi); simplify_eq.
    assert (covers i (mk_item (li_index a) (mk_chunk (mc_memblock (li_chunk a)) (mc_index (li_chunk a))
      (Z.min (li_end a) wi - li_index a))) = covers i a) as Ec.
    { unfold covers, li_end. simpl. bsplit. }
    rewrite Ec, IH. destruct (covers i a) eqn:Ca; [|done].
    destruct Ha as (id & Em & _ & ? & _).
    rewrite !(item_byte_lookup _ _ id) by done. done.
  - unfold left_part in E. destruct (Z.ltb_spec (li_index a) wi); [done|].
    rewrite IH, covers_lt by lia. done.
Qed.

(** A node that starts at or before the written range and ends behind it. *)
Definition straddles (wi wend : Z) (it : list_item) : bool :=
  (li_index it <=? wi) && (wend <? li_end it).

(** The old stream position that is found at position [i] after writing
    [wi, wend): [i] itself, except in the saved end of a straddling node. *)
Fixpoint kept_from (wi wend : Z) (l : list list_item) (i : Z) : Z :=
  match l with
  | [] => i
  | it :: l =>
      if straddles wi wend it then
        if i <? li_end it then i - (wend - li_index it) else i
      else kept_from wi wend l i
  end.

Lemma kept_from_none wi wend l i : Forall (fun a => straddles wi wend a = false) l ->
  kept_from wi wend l i = i.
Proof. induction 1 as [|a l Ha Hl IH]; simpl; [done|]. by rewrite Ha. Qed.

(** Where a straddling node moved the byte from: behind every earlier node. *)
Lemma kept_from_range wi wend l i x : wi < wend -> wend <= i -> x <= wi ->
  Forall (fun b => x <= li_index b) l ->
  kept_from wi wend l i = i \/ x <= kept_from wi wend l i.
Proof.
  intros Hw Hi Hx. induction 1 as [|a l Ha Hl IH]; simpl; [auto|].
  destruct (straddles wi wend a); [|done]. destruct (Z.ltb_spec i (li_end a)); [|auto]. right. lia.
Qed.

Lemma right_part_covers st wi wend a i : wi < wend -> wend <= i -> item_in st a ->
  match right_part wi wend a with
  | Some b => covers i b = covers i a /\
      (covers i a = true ->
       item_byte st b i = item_byte st a (if straddles wi wend a then i - (wend - li_index a) else i))
  | None => covers i a = false
  end.
Proof.
  intros Hw Hi (id & Em & _ & ? & ? & _). unfold right_part.
  destruct (Z.ltb_spec wend (li_end a)) as [He|]; [|by apply covers_ge; lia].
  unfold straddles. destruct (Z.leb_spec wend (li_index a)) as [Hx|Hx].
  - split; [done|]. by rewrite (proj2 (Z.leb_gt (li_index a) wi)) by lia.
  - rewrite (proj2 (Z.ltb_lt wend (li_end a))), andb_true_r by done.
    split; [unfold covers, li_end; simpl; bsplit|]. intros [Ca1 Ca2]%covers_true.
    destruct (Z.leb_spec (li_index a) wi); unfold li_end in *;
      rewrite !(item_byte_lookup _ _ id)
        by (done || (simpl; lia) || (apply covers_true; unfold li_end; simpl; lia));
      simpl; f_equal; lia.
Qed.

Lemma content_right st wi wend l i : Forall (item_in st) l -> StronglySorted before l ->
  wi < wend -> wend <= i ->
  content st (omap (right_part wi wend) l) i = content st l (kept_from wi wend l i).
Proof.
  intros Hin Hs Hw Hi. induction l as [|a l IH]; [done|].
  apply Forall_cons in Hin as [Ha Hin]. apply StronglySorted_inv in Hs as [Hs Hb].
  specialize (IH Hin Hs). pose proof (right_part_covers st wi wend a i Hw Hi Ha) as HR.
  pose proof (item_in_end _ _ Ha) as Hpos. simpl kept_from.
  destruct (straddles wi wend a) eqn:Hst.
  - apply andb_true_iff in Hst as [S1 S2]. rewrite Z.leb_le, Z.ltb_lt in *.
    assert (kept_from wi wend l i = i) as Hk.
    { apply kept_from_none. eapply Forall_impl; [exact Hb|]. unfold before, straddles. intros b ?.
      simpl. rewrite (proj2 (Z.leb_gt _ _)) by lia. done. }
    rewrite omap_cons_app. destruct (right_part wi wend a) as [b|]; simpl content.
    + destruct HR as [Ec Eb]. rewrite Ec, IH, Hk.
      destruct (Z.ltb_spec i (li_end a)).
      * assert (covers i a = true) as Ca by (apply covers_true; lia). rewrite Ca, Eb by done.
        rewrite (proj2 (covers_true _ a)) by lia. done.
      * rewrite covers_ge by lia. done.
    + rewrite IH, Hk. destruct (Z.ltb_spec i (li_end a)); [|by rewrite covers_ge by lia].
      pose proof (proj2 (covers_true i a)). rewrite HR in *. discriminate H0. lia.
  - assert (li_end a <= wi \/ kept_from wi wend l i = i) as Hor.
    { destruct (Z.leb_spec (li_end a) wi); [by left|]. right.
      apply kept_from_none. eapply Forall_impl; [exact Hb|].
      unfold before, straddles. intros b ?. simpl. rewrite (proj2 (Z.leb_gt _ _)) by lia. done. }
    assert (covers (kept_from wi wend l i) a = covers i a) as Ck.
    { destruct Hor as [? | ->]; [|done].
      destruct (kept_from_range wi wend l i (li_end a)) as [->|?]; try done.
      rewrite !covers_ge by lia. done. }
    rewrite omap_cons_app. destruct (right_part wi wend a) as [b|]; simpl content; rewrite Ck.
    + destruct HR as [Ec Eb]. rewrite Ec, IH. destruct (covers i a) eqn:Ca; [|done].
      rewrite Eb by done. f_equal. apply covers_true in Ca. destruct Hor; [lia|done].
    + by rewrite HR, IH.
Qed.

(** ** Inserting the new node *)

Lemma head_clear wend l : Forall (fun a => wend <= li_index a) l ->
  match head l with Some nx => wend <=? li_index nx | None => true end = true.
Proof. destruct 1; [done|]. by apply Z.leb_le. Qed.

Section insert.
Context (bq : pa_memblockq) (st : store) (c : pa_memchunk) (L R : list list_item).
Let wi := bq_write_index bq.
Let wend := wi + mc_length c.
Context (Hok : store_ok st) (Hw : list_wf bq st) (Hc : chunk_in st c).
Context (EB : bq_blocks bq = L ++ R).
Context (HL : Forall (fun a => li_end a <= wi) L) (HR : Forall (fun a => wend <= li_index a) R).
Context (Hrefs : forall j, items_refs (bq_blocks bq) j + chunk_refs c j <= refs st j).
Context (Hlen : Z.of_nat (length (bq_blocks bq)) + 1 < 2 ^ 32).

(** The result: the stream of [L], the new node and [R]; no reference gained or
    lost but the queue's own. *)
Definition inserted (bq' : pa_memblockq) (st' : store) : Prop :=
  store_ok st' /\ keeps st st' /\ list_wf bq' st' /\
  rest bq' = rest (set_write_index wend bq) /\
  (forall j, ext bq' st' j = ext bq st j) /\
  (forall j, refs st j <= refs st' j) /\
  (forall i, content st' (bq_blocks bq') i = content st (L ++ mk_item wi c :: R) i) /\
  (length (bq_blocks bq') <= S (length (bq_blocks bq)))%nat /\
  (forall b, 0 < b -> Forall (item_frames b) (L ++ mk_item wi c :: R) -> Forall (item_frames b) (bq_blocks bq')).

Lemma new_item_sorted : StronglySorted before (L ++ mk_item wi c :: R).
Proof.
  destruct Hw as [_ Hs]. rewrite EB in Hs. apply sorted_app in Hs as (H1 & H2 & H3).
  rewrite Forall_forall in HL, HR. apply sorted_app. split_and!; [done| |].
  - constructor; [done|]. apply Forall_forall. intros b Hb. specialize (HR b Hb). done.
  - intros a b Ha [->|Hb]%elem_of_cons; [by apply HL|by apply H3].
Qed.

Lemma link_new : exists st', (id ← deref (mc_memblock c);
    st ← pa_memblock_ref id st;
    Ok (set_write_index wend (link (length L) (mk_item wi c) bq), st))
  = Ok (set_write_index wend (link (length L) (mk_item wi c) bq), st') /\
  inserted (set_write_index wend (link (length L) (mk_item wi c) bq)) st'.
Proof.
  pose proof Hc as (id & Em & Hr & _). rewrite Em. simpl.
  destruct (pa_memblock_ref_spec st id Hok Hr) as (st' & E & Hok' & K & Rf).
  rewrite E. simpl. exists st'. split; [done|].
  assert (forall j, refs st' j = refs st j + chunk_refs c j) as Rf'
    by (intros j; rewrite Rf; unfold chunk_refs; by rewrite Em).
  assert (forall j, refs st j <= refs st' j) as Hle
    by (intros j; rewrite Rf'; pose proof (chunk_refs_nonneg c j); lia).
  assert (bq_blocks (link (length L) (mk_item wi c) bq) = L ++ mk_item wi c :: R) as EB'.
  { simpl. by rewrite EB, take_app_length, drop_app_length. }
  assert (list_mem (link (length L) (mk_item wi c) bq) st') as Hm.
  { apply link_mem; [by apply (list_mem_more_refs _ st); [apply Hw|..]|
      rewrite EB, length_app; lia| |lia|].
    - apply (chunk_in_keeps st); [done..|]. intros id' E'. specialize (Hle id').
      assert (id' = id) as -> by (simpl in E'; congruence). lia.
    - intros j. rewrite Rf'. pose proof (lw_refs _ _ (proj1 Hw) j).
      unfold item_refs. simpl. lia. }
  assert (forall i, content st' (bq_blocks (link (length L) (mk_item wi c) bq)) i
     = content st (L ++ mk_item wi c :: R) i) as HC.
  { intros i. rewrite EB'. apply content_keeps; [done| |].
    - apply Forall_app. pose proof (lw_items _ _ (proj1 Hw)) as Hin. rewrite EB in Hin.
      apply Forall_app in Hin as [? ?]. split; [done|]. by constructor.
    - rewrite <- EB'. apply Hm. }
  split_and!; try done.
  - split; [by destruct Hm|]. simpl. simpl in EB'. rewrite EB'. apply new_item_sorted.
  - intros j. unfold ext. simpl. rewrite items_refs_insert, Rf'. unfold item_refs. simpl. lia.
  - change (length (bq_blocks (link (length L) (mk_item wi c) bq)) <= S (length (bq_blocks bq)))%nat.
    rewrite EB', EB, !length_app. simpl. lia.
  - intros b _ Hf. change (Forall (item_frames b) (bq_blocks (link (length L) (mk_item wi c) bq))). by rewrite EB'.
Qed.

(** The chunk continues the last node: the node grows. *)
Lemma merge_new L' a : L = L' ++ [a] ->
  mc_memblock (li_chunk a) = mc_memblock c ->
  mc_index (li_chunk a) + mc_length (li_chunk a) = mc_index c -> wi = li_end a ->
  inserted (set_write_index wend (update_item (length L')
    (mk_item (li_index a) (mk_chunk (mc_memblock (li_chunk a)) (mc_index (li_chunk a))
       (mc_length (li_chunk a) + mc_length c))) bq)) st.
Proof.
  intros EL Em Ei Ewi. destruct Hc as (id & Emc & Hr & Hci & Hcl & Hcb).
  assert (bq_blocks bq = L' ++ a :: R) as EB' by (by rewrite EB, EL, <- app_assoc).
  assert (bq_blocks bq !! length L' = Some a) as Hn by (rewrite EB'; apply lookup_mid).
  pose proof (Forall_lookup_1 _ _ _ _ (lw_items _ _ (proj1 Hw)) Hn) as (id' & Ea & ? & ? & ? & ?).
  assert (id' = id) as -> by congruence.
  set (m := mk_item _ _).
  assert (item_in st m) as Hm by (exists id; simpl; split_and!; try done; lia).
  assert (li_end m = wend) as Eend by (subst m wend wi; rewrite Ewi; unfold li_end; simpl; lia).
  split_and!; try done.
  - split; [pose proof (update_mem bq st _ a m (proj1 Hw) Hn eq_refl Hm) as []; by split|].
    simpl. rewrite EB', insert_mid. pose proof new_item_sorted as Hs. rewrite EL, <- app_assoc in Hs.
    apply sorted_app in Hs as (S1 & S2 & S3). simpl in S2, S3.
    apply StronglySorted_inv in S2 as [S2 _]. apply StronglySorted_inv in S2 as [S2 S4].
    apply sorted_app. split_and!; [done| |].
    + constructor; [done|]. eapply Forall_impl; [exact S4|]. unfold before. rewrite Eend. done.
    + intros x y Hx [->|Hy]%elem_of_cons; [|apply S3; [done|set_solver]].
      apply (S3 x a Hx). set_solver.
  - intros j. unfold ext. simpl. by rewrite (insert_refs _ _ a).
  - intros i. simpl. rewrite EB', insert_mid, EL, <- app_assoc.
    rewrite (content_app st L'), (content_app st L' (_ ++ _)).
    destruct (existsb (covers i) L'); [done|]. simpl app. rewrite Ewi.
    rewrite <- (content_merge st a c id R i) by (done || lia). subst m. by rewrite Ea.
  - simpl. rewrite length_insert. lia.
  - intros b Hb Hf. simpl. rewrite EB', insert_mid. rewrite EL, <- app_assoc in Hf.
    apply Forall_app in Hf as [F1 [(Fa1 & Fa2 & Fa3) [(_ & _ & Fc) F2]%Forall_cons]%Forall_cons].
    apply Forall_app. split; [done|]. constructor; [|done]. split_and!; simpl in *; [done..|by apply mod_add_0].
Qed.

Lemma push_insert_spec : exists bq' st',
  push_insert c (last_pos L) bq st = Ok (bq', st') /\ inserted bq' st'.
Proof.
  unfold push_insert. fold wi wend. destruct link_new as (st' & El & Hi).
  pose proof (head_clear wend R HR) as HR0.
  destruct (decide (L = [])) as [Enil|Hne].
  - rewrite Enil in *. simpl. rewrite pa_assert_true; [simpl; eauto|].
    rewrite EB. simpl. by destruct R.
  - destruct (last_snoc _ Hne) as (L' & a & EL). 
    assert (last_pos L = Some (length L')) as -> by (rewrite EL; apply last_pos_snoc).
    assert (bq_blocks bq = L' ++ a :: R) as EB' by (by rewrite EB, EL, <- app_assoc).
    assert (bq_blocks bq !! length L' = Some a) as Hn by (rewrite EB'; apply lookup_mid).
    assert (bq_blocks bq !! S (length L') = head R) as Hnext.
    { rewrite EB', cons_middle, (assoc app), lookup_app_r by (rewrite length_app; simpl; lia).
      rewrite length_app. simpl. replace (S (length L') - (length L' + 1))%nat with 0%nat by lia.
      by destruct R. }
    rewrite Hn, Hnext. simpl.
    rewrite (pa_assert_true (li_end a <=? wi)); [simpl|].
    2: { rewrite EL in HL. apply Forall_app in HL as [_ [? _]%Forall_cons]. by apply Z.leb_le. }
    rewrite pa_assert_true; [simpl|].
    2: { done. }
    pose proof (Forall_lookup_1 _ _ _ _ (lw_items _ _ (proj1 Hw)) Hn) as Ha.
    pose proof (chunk_in_bound _ _ Hok Ha). pose proof (chunk_in_bound _ _ Hok Hc).
    rewrite !u64_small by lia.
    destruct (bool_decide _ && _ && _) eqn:Em.
    + rewrite !andb_true_iff, bool_decide_eq_true, !Z.eqb_eq in Em. destruct Em as [[E1 E2] E3].
      eexists _, _. split; [done|]. by apply merge_new.
    + replace (S (length L')) with (length L) by (rewrite EL, length_app; simpl; lia). eauto.
Qed.
End insert.

(** ** The whole operation *)

(** What a caller has to guarantee for a push: the chunk lies in a live block
    on which the caller holds a reference of its own, and is aligned to the
    queue's frame size; the list has room for two more nodes. *)
Record push_pre (bq : pa_memblockq) (c : pa_memchunk) (st : store) : Prop := {
  pp_store : store_ok st;
  pp_queue : list_wf bq st;
  pp_chunk : chunk_in st c;
  pp_refs : forall j, items_refs (bq_blocks bq) j + chunk_refs c j <= refs st j;
  pp_base : 0 < bq_base bq;
  pp_len : mc_length c mod bq_base bq = 0;
  pp_idx : mc_index c mod bq_base bq = 0;
  pp_room : Z.of_nat (length (bq_blocks bq)) + 2 < 2 ^ 32
}.

Lemma push_asserts_ok bq c st : push_pre bq c st -> push_asserts bq c st = Ok tt.
Proof.
  intros [Hok _ Hc _ _ Hl Hi _]. pose proof (chunk_in_bound _ _ Hok Hc).
  destruct Hc as (id & Em & Hr & ? & ? & Hb). destruct Hok as [Hwf _].
  apply refs_alive in Hr as [b Eb]; [|done].
  assert (bytes st id = mb_data b) as Ed by (unfold bytes; by rewrite Eb).
  unfold push_asserts, isset, pa_memblock_get_length. rewrite Em.
  rewrite (pa_assert_true (0 <? mc_length c)) by blia. simpl.
  rewrite (get_block_ok _ Hwf _ _ Eb). simpl.
  rewrite u64_small by lia. pose proof (bwf_len _ _ (wf_block _ Hwf _ _ Eb)).
  rewrite Ed in Hb. by rewrite !pa_assert_true by blia.
Qed.

(** The stream after [c] was written at [wi]. *)
Definition written (bq : pa_memblockq) (c : pa_memchunk) (st : store) (i : Z) : option cell :=
  let wi := bq_write_index bq in
  let wend := wi + mc_length c in
  if i <? wi then stream bq st i
  else if i <? wend then chunk_bytes st c !! Z.to_nat (i - wi)
  else stream bq st (kept_from wi wend (bq_blocks bq) i).

Lemma content_written bq c st i : push_pre bq c st ->
  let wi := bq_write_index bq in
  let wend := wi + mc_length c in
  content st (omap (left_part wi) (bq_blocks bq) ++ mk_item wi c
    :: omap (right_part wi wend) (bq_blocks bq)) i = written bq c st i.
Proof.
  intros [Hok [Hm Hs] Hc _ _ _ _ _] wi wend. pose proof (lw_items _ _ Hm) as Hin.
  assert (0 < mc_length c) as Hpos by (by destruct Hc as (? & _ & _ & _ & ? & _)).
  unfold written. fold wi wend. rewrite Forall_forall in Hin.
  assert (Forall (fun a => li_end a <= wi) (omap (left_part wi) (bq_blocks bq))) as HL.
  { apply Forall_forall. intros a (x & Hx & E)%list_elem_of_omap.
    by apply (left_part_in wi (mc_length c) st) in E as (_ & _ & ? & _); [|apply Hin]. }
  assert (Forall (fun a => wend <= li_index a) (omap (right_part wi wend) (bq_blocks bq))) as HR.
  { apply Forall_forall. intros a (x & Hx & E)%list_elem_of_omap.
    by apply (right_part_in wi (mc_length c) st) in E as (_ & _ & ? & _); [|apply Hin]. }
  rewrite <- Forall_forall in Hin.
  destruct (Z.ltb_spec i wi); [|destruct (Z.ltb_spec i wend)].
  - rewrite content_app_l; [by apply content_left|]. constructor; [by apply covers_lt|].
    eapply Forall_impl; [exact HR|]. intros a Ha. apply covers_lt. simpl in Ha. subst wend. lia.
  - rewrite content_app_r.
    + simpl. rewrite (proj2 (covers_true _ _)); [done|]. unfold li_end. simpl. subst wend. lia.
    + eapply Forall_impl; [exact HL|]. intros a Ha. apply covers_ge. simpl in Ha. lia.
  - rewrite content_app_r.
    + simpl. rewrite covers_ge by (unfold li_end; simpl; subst wend; lia).
      unfold stream. apply content_right; try done. subst wend. lia.
    + eapply Forall_impl; [exact HL|]. intros a Ha. apply covers_ge. simpl in Ha. subst wend. lia.
Qed.

Lemma push_eq bq c st : pa_memblockq_push bq c st =
  (_ ← push_asserts bq c st;
   if negb (can_push bq (mc_length c)) then Ok (-1, (bq, st))
   else
     '(q, (bq', st)) ← make_room (bq_write_index bq) (mc_length c) bq st;
     '(bq', st) ← push_insert c q bq' st;
     Ok (0, (write_index_changed (bq_write_index bq) true bq', st))).
Proof. reflexivity. Qed.

Lemma rest_write_index bq bq' : rest bq = rest bq' ->
  bq_write_index bq = bq_write_index bq' /\
  forall v, rest (set_write_index v bq) = rest (set_write_index v bq').
Proof. unfold rest. simpl. intros E. split; [|intros v]; congruence. Qed.

Lemma rest_changed bq bq' old : rest bq = rest bq' ->
  rest (write_index_changed old true bq) = rest (write_index_changed old true bq').
Proof. unfold rest, write_index_changed. simpl. intros E. congruence. Qed.

(** Cutting at the ends of a range of whole frames, and filling it. *)
Lemma carved_frames b wi c l : 0 < b -> wi mod b = 0 -> mc_index c mod b = 0 -> mc_length c mod b = 0 ->
  Forall (item_frames b) l ->
  Forall (item_frames b) (omap (left_part wi) l ++ mk_item wi c :: omap (right_part wi (wi + mc_length c)) l).
Proof.
  intros Hb Hw Hi Hl Hf. rewrite Forall_forall in Hf. apply Forall_app. split; [|constructor; [done|]];
    apply Forall_forall; intros a (x & Hx & E)%list_elem_of_omap; destruct (Hf x Hx) as (F1 & F2 & F3).
  - unfold left_part in E. case_match; [|done]. simplify_eq. split_and!; simpl; [done..|].
    unfold li_end. destruct (Z.min_spec (li_index x + mc_length (li_chunk x)) wi) as [[_ ->]|[_ ->]].
    + by replace (li_index x + mc_length (li_chunk x) - li_index x) with (mc_length (li_chunk x)) by lia.
    + by apply mod_sub_0.
  - unfold right_part in E. case_match; [|done]. assert ((wi + mc_length c) mod b = 0) by (by apply mod_add_0).
    assert ((wi + mc_length c - li_index x) mod b = 0) by (by apply mod_sub_0).
    case_match; simplify_eq; [done|]. split_and!; simpl; [done| |by apply mod_sub_0].
    case_match; [done|by apply mod_add_0].
Qed.

(** A push that the queue accepts. *)
Lemma push_spec bq c st : push_pre bq c st -> can_push bq (mc_length c) = true ->
  exists bq' st', pa_memblockq_push bq c st = Ok (0, (bq', st')) /\
    store_ok st' /\ keeps st st' /\ list_wf bq' st' /\
    rest bq' = rest (write_index_changed (bq_write_index bq) true
                       (set_write_index (bq_write_index bq + mc_length c) bq)) /\
    (forall j, ext bq' st' j = ext bq st j) /\
    (forall i, stream bq' st' i = written bq c st i) /\
    (length (bq_blocks bq') <= length (bq_blocks bq) + 2)%nat /\
    (forall b, 0 < b -> bq_write_index bq mod b = 0 -> mc_index c mod b = 0 -> mc_length c mod b = 0 ->
       Forall (item_frames b) (bq_blocks bq) -> Forall (item_frames b) (bq_blocks bq')).
Proof.
  intros Hp Hcan. pose proof Hp as [Hok Hw Hc Hr _ _ _ Hroom].
  assert (0 < mc_length c) as Hpos by (by destruct Hc as (? & _ & _ & _ & ? & _)).
  set (wi := bq_write_index bq) in *.
  destruct (make_room_spec bq st wi (mc_length c))
    as (bq1 & st1 & E1 & Hok1 & K1 & Hw1 & R1 & X1 & B1 & L1); [done..|lia|].
  destruct (rest_write_index _ _ R1) as [Ewi Rwi].
  assert (forall j, items_refs (bq_blocks bq1) j + chunk_refs c j <= refs st1 j) as Hr1.
  { intros j. specialize (X1 j). specialize (Hr j). unfold ext in X1. lia. }
  assert (chunk_in st1 c) as Hc1.
  { apply (chunk_in_keeps st); [done..|]. intros id E. specialize (Hr1 id).
    rewrite (chunk_refs_some _ _ E) in Hr1. pose proof (items_refs_nonneg (bq_blocks bq1) id). lia. }
  pose proof (lw_items _ _ (proj1 Hw)) as Hin. rewrite Forall_forall in Hin.
  destruct (push_insert_spec bq1 st1 c _ _ Hok1 Hw1 Hc1 B1)
    as (bq2 & st2 & E2 & Hok2 & K2 & Hw2 & R2 & X2 & _ & C2 & L2 & F2).
  { rewrite Ewi. apply Forall_forall. intros a (x & Hx & E)%list_elem_of_omap.
    by apply (left_part_in wi (mc_length c) st) in E as (_ & _ & ? & _); [|apply Hin]. }
  { rewrite Ewi. apply Forall_forall. intros a (x & Hx & E)%list_elem_of_omap.
    by apply (right_part_in wi (mc_length c) st) in E as (_ & _ & ? & _); [|apply Hin]. }
  { done. } { lia. }
  rewrite push_eq, push_asserts_ok by done. simpl. rewrite Hcan. simpl. fold wi.
  rewrite E1. simpl. rewrite E2. simpl. eexists _, _. split; [done|]. split_and!.
  - done.
  - apply (keeps_trans _ st1); [apply Hok|apply Hok1|done..].
  - destruct Hw2 as [[] ?]. by repeat split.
  - apply rest_changed. rewrite R2, Ewi. apply Rwi.
  - intros j. transitivity (ext bq2 st2 j); [done|]. by rewrite X2.
  - intros i. rewrite <- content_written by done. transitivity (content st2 (bq_blocks bq2) i); [done|].
    rewrite C2, Ewi. fold wi. pose proof (lw_items _ _ (proj1 Hw1)) as Hin1.
    rewrite B1 in Hin1. apply Forall_app in Hin1 as [HL1 HR1].
    apply content_keeps; [done| |]; apply Forall_app; (split; [|constructor]); try done.
    + apply Forall_forall. intros a (x & Hx & E)%list_elem_of_omap.
      by apply (left_part_in wi (mc_length c) st) in E as (_ & _ & _ & ?); [|apply Hin].
    + apply Forall_forall. intros a (x & Hx & E)%list_elem_of_omap.
      by apply (right_part_in wi (mc_length c) st) in E as (_ & _ & _ & ?); [|apply Hin].
  - simpl. change (bq_blocks (write_index_changed wi true bq2)) with (bq_blocks bq2). lia.
  - intros b Hb H1 H2 H3 Hf. change (Forall (item_frames b) (bq_blocks bq2)). apply F2; [done|].
    rewrite Ewi. fold wi. by apply carved_frames.
Qed.
