(* ===== verification/MemblockqRead.v ===== *)
(** * MemblockqRead: reading from the queue

    Releasing old data ([drop_backlog], [pa_memblockq_silence]), looking at the
    data under the read position ([pa_memblockq_peek]) and moving past it
    ([pa_memblockq_drop]). *)
From stdpp Require Import base tactics numbers list gmap sorting.
From S2P Require Import Prelude Sample Memblock Mcalign Memblockq MemblockqSpec MemblockqPush MemblockqWrite.

(** ** Releasing old nodes *)

(** Some first nodes of [bq] were unlinked and released; nothing else
    happened. *)
Definition trimmed (bq : pa_memblockq) (st : store) (gone : list list_item)
    (bq' : pa_memblockq) (st' : store) : Prop :=
  store_ok st' /\ keeps st st' /\ list_wf bq' st' /\ rest bq' = rest bq /\
  (forall j, ext bq' st' j = ext bq st j) /\ bq_blocks bq = gone ++ bq_blocks bq'.

Lemma trimmed_refl bq st : store_ok st -> list_wf bq st -> trimmed bq st [] bq st.
Proof. intros. split_and!; done || apply keeps_refl. Qed.

Lemma trimmed_cons bq st it bq1 st1 gone bq' st' : store_ok st -> store_ok st1 -> keeps st st1 ->
  rest bq1 = rest bq -> (forall j, ext bq1 st1 j = ext bq st j) ->
  bq_blocks bq = it :: bq_blocks bq1 -> trimmed bq1 st1 gone bq' st' ->
  trimmed bq st (it :: gone) bq' st'.
Proof.
  intros Hok Hok1 K1 R1 X1 B1 (Hok' & K & Hw & R & X & B). split_and!; try done.
  - apply (keeps_trans _ st1); [apply Hok|apply Hok1|done..].
  - by rewrite R.
  - intros j. by rewrite X.
  - by rewrite B1, B.
Qed.

Lemma drop_backlog_loop_spec boundary fuel : forall bq st,
  store_ok st -> list_wf bq st -> (length (bq_blocks bq) <= fuel)%nat ->
  exists bq' st' gone, drop_backlog_loop fuel boundary bq st = Ok (bq', st') /\
    trimmed bq st gone bq' st' /\ Forall (fun a => li_end a <= boundary) gone /\
    Forall (fun a => boundary < li_end a) (bq_blocks bq').
Proof.
  induction fuel as [|fuel IH]; intros bq st Hok Hw Hf.
  - destruct (bq_blocks bq) eqn:E; [|simpl in Hf; lia]. exists bq, st, [].
    split_and!; [done|by apply trimmed_refl|constructor|by rewrite E].
  - simpl. destruct (bq_blocks bq) as [|it l] eqn:E.
    { exists bq, st, []. split_and!; [done|by apply trimmed_refl|constructor|by rewrite E]. }
    destruct (Z.leb_spec (li_end it) boundary) as [He|He].
    + destruct (drop_block_spec bq st 0 it Hok Hw) as (bq1 & st1 & E1 & Hok1 & K1 & Hw1 & B1 & R1 & X1);
        [by rewrite E|]. rewrite E in B1. simpl in B1.
      destruct (IH bq1 st1 Hok1 Hw1) as (bq' & st' & gone & E2 & T & Hg & Hk);
        [rewrite B1; simpl in Hf; lia|].
      rewrite E1. simpl. rewrite E2. exists bq', st', (it :: gone). split_and!; try done.
      * apply (trimmed_cons _ _ _ bq1 st1); try done. by rewrite B1.
      * by constructor.
    + exists bq, st, []. split_and!; [done|by apply trimmed_refl|constructor|].
      destruct Hw as [Hm Hs]. pose proof (lw_items _ _ Hm) as Hin. rewrite E in Hs, Hin |- *.
      apply StronglySorted_inv in Hs as [_ Hb]. apply Forall_cons in Hin as [_ Hin].
      constructor; [lia|]. rewrite Forall_forall in *. intros a Ha. specialize (Hb a Ha).
      specialize (Hin a Ha). pose proof (item_in_end _ _ Hin). unfold before in Hb. lia.
Qed.

(** [drop_backlog] releases exactly the nodes that end [maxrewind] bytes or more
    before the read position. *)
Lemma drop_backlog_spec bq st : store_ok st -> list_wf bq st ->
  exists bq' st' gone, drop_backlog bq st = Ok (bq', st') /\ trimmed bq st gone bq' st' /\
    Forall (fun a => li_end a <= bq_read_index bq - bq_maxrewind bq) gone /\
    Forall (fun a => bq_read_index bq - bq_maxrewind bq < li_end a) (bq_blocks bq').
Proof. intros. by apply drop_backlog_loop_spec. Qed.

Lemma silence_loop_spec fuel : forall bq st,
  store_ok st -> list_wf bq st -> (length (bq_blocks bq) <= fuel)%nat ->
  exists bq' st', silence_loop fuel bq st = Ok (bq', st') /\
    trimmed bq st (bq_blocks bq) bq' st'.
Proof.
  induction fuel as [|fuel IH]; intros bq st Hok Hw Hf.
  - destruct (bq_blocks bq) eqn:E; [|simpl in Hf; lia]. exists bq, st.
    split; [done|]. by apply trimmed_refl.
  - simpl. destruct (bq_blocks bq) as [|it l] eqn:E; [exists bq, st; split; [done|by apply trimmed_refl]|].
    destruct (drop_block_spec bq st 0 it Hok Hw) as (bq1 & st1 & E1 & Hok1 & K1 & Hw1 & B1 & R1 & X1);
      [by rewrite E|]. rewrite E in B1. simpl in B1.
    destruct (IH bq1 st1 Hok1 Hw1) as (bq' & st' & E2 & T); [rewrite B1; simpl in Hf; lia|].
    rewrite E1. simpl. rewrite E2. exists bq', st'. split; [done|].
    rewrite <- B1. apply (trimmed_cons _ _ _ bq1 st1); try done. by rewrite B1.
Qed.

(** Every node is released and the queue is empty. *)
Lemma silence_spec bq st : store_ok st -> list_wf bq st ->
  exists bq' st', pa_memblockq_silence bq st = Ok (bq', st') /\
    trimmed bq st (bq_blocks bq) bq' st' /\ bq_blocks bq' = [].
Proof.
  intros Hok Hw. destruct (silence_loop_spec (length (bq_blocks bq)) bq st)
    as (bq' & st' & E & T); [done..|].
  assert (bq_blocks bq' = []) as En.
  { destruct T as (_ & _ & _ & _ & _ & B). apply (f_equal length) in B. rewrite length_app in B.
    apply length_zero_iff_nil. lia. }
  unfold pa_memblockq_silence. rewrite E. simpl. exists bq', st'.
  rewrite pa_assert_true; [done|]. destruct T as (_ & _ & [Hm _] & _).
  rewrite (lw_count _ _ Hm), En. done.
Qed.

(** What trimming does to the stream. *)
Lemma trimmed_stream bq st gone bq' st' i : list_wf bq st -> trimmed bq st gone bq' st' ->
  Forall (fun a => li_end a <= i) gone -> stream bq' st' i = stream bq st i.
Proof.
  intros [Hm Hs] (Hok & K & [Hm' _] & _ & _ & B) Hg. unfold stream. rewrite B.
  rewrite content_app_r.
  - apply content_keeps; [done| |apply Hm']. pose proof (lw_items _ _ Hm) as Hin.
    rewrite B in Hin. by apply Forall_app in Hin as [_ ?].
  - eapply Forall_impl; [exact Hg|]. intros a. apply covers_ge.
Qed.

(** ** Peeking *)

Lemma first_unread_Some ri l n : first_unread ri l = Some n ->
  exists it, l !! n = Some it /\ ri < li_end it /\ Forall (fun a => li_end a <= ri) (take n l).
Proof.
  unfold first_unread. destruct (list_find _ l) as [[m x]|] eqn:E; simpl; [|done]. intros [= ->].
  apply list_find_Some in E as (E & Hx & Hl). exists x. split_and!; [done..|].
  apply Forall_lookup. intros k y Hy. destruct (decide (k < n)%nat).
  - rewrite lookup_take_lt in Hy by done. specialize (Hl k y Hy ltac:(done)). simpl in Hl. lia.
  - rewrite lookup_take_ge in Hy by lia. done.
Qed.

Lemma first_unread_None ri l : first_unread ri l = None -> Forall (fun a => li_end a <= ri) l.
Proof.
  unfold first_unread. destruct (list_find _ l) as [[m x]|] eqn:E; simpl; [done|]. intros _.
  apply list_find_None in E. eapply Forall_impl; [exact E|]. simpl. lia.
Qed.

(** The node under the read position, or the next one after it. *)
Definition unread (bq : pa_memblockq) : option list_item :=
  first_unread (bq_read_index bq) (bq_blocks bq) ≫= fun n => bq_blocks bq !! n.

Lemma cursor_unread bq st : list_wf bq st ->
  match bq_current_read (fix_current_read bq) with
  | Some n => bq_blocks (fix_current_read bq) !! n
  | None => None
  end = unread bq.
Proof.
  intros Hw. rewrite (fix_current_read_spec _ _ Hw), blocks_fix_read. unfold unread.
  by destruct (first_unread _ _).
Qed.

(** The stream from the read position on, seen from that node. *)
Lemma unread_stream bq st i : list_wf bq st -> bq_read_index bq <= i ->
  match unread bq with
  | Some it => item_in st it /\ bq_read_index bq < li_end it /\
      (i < li_index it -> stream bq st i = None) /\
      (li_index it <= i < li_end it -> stream bq st i = item_byte st it i)
  | None => stream bq st i = None
  end.
Proof.
  intros [Hm Hs] Hi. unfold unread, stream. pose proof (lw_items _ _ Hm) as Hin.
  destruct (first_unread _ _) as [n|] eqn:E; simpl.
  - destruct (first_unread_Some _ _ _ E) as (it & Hn & He & Hp). rewrite Hn.
    split_and!; [by apply (Forall_lookup_1 _ _ n _ Hin)|done|..]; intros Hit;
      rewrite <- (take_drop_middle _ _ _ Hn).
    + apply content_none, Forall_app. split.
      * eapply Forall_impl; [exact Hp|]. intros a ?. apply covers_ge. simpl in *. lia.
      * rewrite <- (take_drop_middle _ _ _ Hn) in Hs, Hin.
        apply sorted_app in Hs as (_ & [_ Hb]%StronglySorted_inv & _).
        apply Forall_app in Hin as [_ [Hii _]%Forall_cons]. pose proof (item_in_end _ _ Hii).
        constructor; [by apply covers_lt|]. eapply Forall_impl; [exact Hb|]. intros a Ha.
        apply covers_lt. unfold before in Ha. lia.
    + rewrite content_app_r; [simpl; by rewrite (proj2 (covers_true _ _))|].
      eapply Forall_impl; [exact Hp|]. intros a ?. apply covers_ge. simpl in *. lia.
  - apply content_none. eapply Forall_impl; [by apply first_unread_None|].
    intros a ?. apply covers_ge. simpl in *. lia.
Qed.

(** Prebuffering is only ever switched on when there is a level to wait for. *)
Definition flag_ok (bq : pa_memblockq) (b : bool) : Prop :=
  b = true -> bq_in_prebuf bq = true \/ 0 < bq_prebuf bq.

Lemma update_prebuf_spec bq : fst (update_prebuf bq) = pa_memblockq_prebuf_active bq /\
  exists b, snd (update_prebuf bq) = set_in_prebuf b bq /\ flag_ok bq b.
Proof.
  unfold update_prebuf, pa_memblockq_prebuf_active, flag_ok.
  assert (bq = set_in_prebuf (bq_in_prebuf bq) bq) as E by (by destruct bq).
  destruct (bq_in_prebuf bq) eqn:Ef, (pa_memblockq_get_length bq <? bq_prebuf bq),
    (Z.ltb_spec 0 (bq_prebuf bq)), (bq_write_index bq <=? bq_read_index bq); simpl;
    (split; [done|]); first [exists true; by auto | exists false; by auto].
Qed.

Lemma wf_set_in_prebuf b bq st : list_wf bq st -> list_wf (set_in_prebuf b bq) st.
Proof. intros [[] ?]. by repeat split. Qed.

(** The silence chunk the queue was given is alive. *)
Definition silence_alive (bq : pa_memblockq) (st : store) : Prop :=
  forall id, mc_memblock (bq_silence bq) = Some id -> 0 < refs st id.

(** What the chunk returned by a peek says about the stream: it holds the data
    from the read position on, or stands for a gap there. *)
Definition peeked (bq : pa_memblockq) (st : store) (c : pa_memchunk) (st' : store) : Prop :=
  let ri := bq_read_index bq in
  (chunk_in st' c /\ forall k, 0 <= k < mc_length c ->
     chunk_bytes st' c !! Z.to_nat k = stream bq st (ri + k)) \/
  (mc_memblock c = mc_memblock (bq_silence bq) /\
   (mc_memblock c = None \/ 0 < mc_length (bq_silence bq) -> 0 < mc_length c) /\
   forall k, 0 <= k < mc_length c -> stream bq st (ri + k) = None).

(** When there is nothing to hand out. *)
Definition nothing_to_peek (bq : pa_memblockq) : bool :=
  pa_memblockq_prebuf_active bq ||
  match unread bq, mc_memblock (bq_silence bq) with
  | None, None => bq_write_index bq <=? bq_read_index bq
  | _, _ => false
  end.

Definition peek_result (bq : pa_memblockq) (st : store) (r : option pa_memchunk)
    (bq' : pa_memblockq) (st' : store) : Prop :=
  store_ok st' /\ keeps st st' /\ list_wf bq' st' /\ bq_blocks bq' = bq_blocks bq /\
  rest bq' = rest (set_in_prebuf (bq_in_prebuf bq') bq) /\ flag_ok bq (bq_in_prebuf bq') /\
  (forall j, refs st' j = refs st j + from_option (fun c => chunk_refs c j) 0 r) /\
  match r with
  | None => nothing_to_peek bq = true
  | Some c => nothing_to_peek bq = false /\ peeked bq st c st'
  end.

Section peek.
Context (bq : pa_memblockq) (st : store) (Hok : store_ok st) (Hw : list_wf bq st).
Context (Hsil : silence_alive bq st) (Hact : pa_memblockq_prebuf_active bq = false).

(** Returning the silence chunk over a gap of [l] bytes; 0 stands for an
    endless gap. *)
Lemma peek_silence b l : flag_ok bq b -> 0 <= l < 2 ^ 63 ->
  (forall k, 0 <= k -> (0 < l -> k < l) -> stream bq st (bq_read_index bq + k) = None) ->
  (l = 0 <-> unread bq = None /\ bq_write_index bq <= bq_read_index bq) ->
  let bq1 := fix_current_read (set_in_prebuf b bq) in
  exists r st', match mc_memblock (bq_silence bq) with
    | Some id =>
        st ← pa_memblock_ref id st;
        let sl := mc_length (bq_silence bq) in
        let sl := if (0 <? l) && (l <? sl) then l else sl in
        Ok (Some (mk_chunk (Some id) 0 sl), (bq1, st))
    | None =>
        if l <=? 0 then Ok (None, (bq1, st)) else Ok (Some (mk_chunk None 0 l), (bq1, st))
    end = Ok (r, (bq1, st')) /\ peek_result bq st r bq1 st'.
Proof.
  intros Hb Hl Hgap Hz bq1.
  assert (list_wf bq1 st) as Hw1 by (by apply wf_fix_read, wf_set_in_prebuf).
  assert (bq_blocks bq1 = bq_blocks bq) as B1 by (subst bq1; by rewrite blocks_fix_read).
  assert (rest bq1 = rest (set_in_prebuf (bq_in_prebuf bq1) bq) /\ flag_ok bq (bq_in_prebuf bq1))
    as [R1 F1].
  { pose proof (rest_fix_read (set_in_prebuf b bq)) as E. fold bq1 in E. rewrite E.
    assert (bq_in_prebuf bq1 = b) as -> by (unfold rest in E; simpl in E; congruence). done. }
  destruct (mc_memblock (bq_silence bq)) as [id|] eqn:Es.
  - destruct (pa_memblock_ref_spec st id Hok (Hsil id Es)) as (st' & E & Hok' & K & R).
    rewrite E. simpl. eexists _, _. split; [done|].
    assert (forall j, refs st j <= refs st' j) as Hle
      by (intros j; rewrite R; pose proof (delta_nonneg id 1 j); lia).
    split_and!; try done.
    + destruct Hw1 as [Hm Hs]. split; [|done]. by apply (list_mem_more_refs _ st).
    + unfold nothing_to_peek. rewrite Hact, Es. by destruct (unread bq).
    + right. simpl. split_and!; [done|intros [?|?]; [done|]; case_match; blia|]. intros k Hk. apply Hgap; [lia|].
      intros Hpos. rewrite (proj2 (Z.ltb_lt 0 l) Hpos) in Hk. simpl in Hk.
      destruct (Z.ltb_spec l (mc_length (bq_silence bq))); lia.
  - unfold peek_result, nothing_to_peek. rewrite Hact, Es. simpl.
    destruct (Z.leb_spec l 0) as [H0|H0]; (eexists _, _; split; [done|]); split_and!; try done;
      try (intros j; simpl; unfold chunk_refs; simpl; lia).
    + destruct Hz as [Hz _]. destruct Hz as [-> Hw0]; [lia|]. by apply Z.leb_le.
    + destruct (unread bq) eqn:Eu; [done|]. apply Z.leb_gt.
      destruct (Z.lt_ge_cases (bq_read_index bq) (bq_write_index bq)) as [|Hle]; [lia|].
      pose proof (proj2 Hz (conj eq_refl Hle)). lia.
    + right. simpl. split_and!; [done|lia|]. intros k Hk. apply Hgap; lia.
Qed.

(** Returning the rest of the node under the read position. *)
Lemma peek_data b it : flag_ok bq b -> unread bq = Some it -> li_index it <= bq_read_index bq ->
  let bq1 := fix_current_read (set_in_prebuf b bq) in
  exists r st', (id ← deref (mc_memblock (li_chunk it));
          st ← pa_memblock_ref id st;
          let d := bq_read_index bq - li_index it in
          Ok (Some (mk_chunk (Some id) (u64 (mc_index (li_chunk it) + u64 d))
                      (u64 (mc_length (li_chunk it) - u64 d))), (bq1, st)))
    = Ok (r, (bq1, st')) /\ peek_result bq st r bq1 st'.
Proof.
  intros Hfl Eu Hi bq1.
  pose proof (unread_stream bq st (bq_read_index bq) Hw ltac:(lia)) as HU. rewrite Eu in HU.
  destruct HU as (Hin & He & _ & _). pose proof (chunk_in_bound _ _ Hok Hin) as Hb.
  pose proof Hin as (id & Em & Hr & _). rewrite Em. simpl. unfold li_end in He.
  destruct (pa_memblock_ref_spec st id Hok Hr) as (st' & E & Hok' & K & R).
  rewrite E. simpl. rewrite (u64_small (bq_read_index bq - li_index it)), !u64_small by lia. set (d := bq_read_index bq - li_index it) in *.
  eexists _, _. split; [done|].
  assert (forall j, refs st j <= refs st' j) as Hle
    by (intros j; rewrite R; pose proof (delta_nonneg id 1 j); lia).
  assert (item_in st' it) as Hin'.
  { apply (chunk_in_keeps st); [done..|]. intros id' E'. specialize (Hle id').
    assert (id' = id) as -> by congruence. lia. }
  pose proof (rest_fix_read (set_in_prebuf b bq)) as Er. fold bq1 in Er.
  assert (list_wf bq1 st) as Hw1 by (by apply wf_fix_read, wf_set_in_prebuf).
  unfold peek_result, nothing_to_peek. rewrite Hact, Eu. split_and!; try done.
  - destruct Hw1 as [Hm Hs]. split; [|done]. by apply (list_mem_more_refs _ st).
  - subst bq1. by rewrite blocks_fix_read.
  - rewrite Er. assert (bq_in_prebuf bq1 = b) as -> by (unfold rest in Er; simpl in Er; congruence). done.
  - assert (bq_in_prebuf bq1 = b) as -> by (unfold rest in Er; simpl in Er; congruence). done.
  - left. split.
    + rewrite <- Em. apply (item_in_sub st' it 0); [done|lia..].
    + simpl. intros k Hk. pose proof (unread_stream bq st (bq_read_index bq + k) Hw ltac:(lia)) as HU.
      rewrite Eu in HU. destruct HU as (_ & _ & _ & ->); [|unfold li_end; lia].
      rewrite <- (item_byte_keeps st st' it) by done.
      rewrite (item_byte_lookup _ _ id) by (done || lia || (apply covers_true; unfold li_end; lia)).
      unfold chunk_bytes. simpl. rewrite sub_list_lookup by lia. f_equal. lia.
Qed.
End peek.

(** [pa_memblockq_peek] never fails, hands out the stream from the read
    position on, and gives its caller one reference. *)
Lemma peek_spec bq st : store_ok st -> list_wf bq st -> silence_alive bq st ->
  - 2 ^ 62 < bq_read_index bq < 2 ^ 62 -> bq_write_index bq < 2 ^ 62 ->
  Forall (fun it => li_index it < 2 ^ 62) (bq_blocks bq) ->
  exists r bq' st', pa_memblockq_peek bq st = Ok (r, (bq', st')) /\ peek_result bq st r bq' st'.
Proof.
  intros Hok Hw Hsil Hri Hwi Hidx. unfold pa_memblockq_peek.
  destruct (update_prebuf_spec bq) as [Ea (b & Eb & Hfl)].
  destruct (update_prebuf bq) as [wait bq0]. simpl in Ea, Eb. subst wait bq0.
  destruct (pa_memblockq_prebuf_active bq) eqn:Hact.
  { eexists _, _, _. split; [done|]. unfold peek_result, nothing_to_peek. rewrite Hact.
    split_and!; try done; [by apply wf_set_in_prebuf|]. intros j. simpl. lia. }
  pose proof (cursor_unread _ _ (wf_set_in_prebuf b _ _ Hw)) as Hcur.
  pose proof (rest_fix_read (set_in_prebuf b bq)) as Er.
  cbv zeta. rewrite Hcur. change (unread (set_in_prebuf b bq)) with (unread bq).
  assert (bq_read_index (fix_current_read (set_in_prebuf b bq)) = bq_read_index bq /\
    bq_write_index (fix_current_read (set_in_prebuf b bq)) = bq_write_index bq /\
    bq_silence (fix_current_read (set_in_prebuf b bq)) = bq_silence bq) as (-> & -> & ->)
    by (unfold rest in Er; simpl in Er; split_and!; congruence).
  destruct (unread bq) as [it|] eqn:Eu.
  - assert (li_index it < 2 ^ 62) as Hii.
    { unfold unread in Eu. destruct (first_unread _ _); [|done]. simpl in Eu.
      by apply (Forall_lookup_1 _ _ _ _ Hidx Eu). }
    destruct (Z.ltb_spec (bq_read_index bq) (li_index it)).
    + rewrite u64_small by lia.
      destruct (peek_silence bq st Hok Hw Hsil Hact b (li_index it - bq_read_index bq) Hfl)
        as (r & st' & E & P); [lia| |split; [lia|by rewrite Eu; intros [? _]]|by eauto].
      intros k Hk Hlt. pose proof (unread_stream bq st (bq_read_index bq + k) Hw ltac:(lia)) as HU.
      rewrite Eu in HU. apply HU. lia.
    + destruct (peek_data bq st Hok Hw Hact b it Hfl Eu ltac:(lia)) as (r & st' & E & P). eauto.
  - destruct (peek_silence bq st Hok Hw Hsil Hact b
      (if bq_read_index bq <? bq_write_index bq
       then u64 (bq_write_index bq - bq_read_index bq) else 0) Hfl) as (r & st' & E & P); [| | |by eauto].
    + destruct (Z.ltb_spec (bq_read_index bq) (bq_write_index bq)); [rewrite u64_small|]; lia.
    + intros k Hk _. pose proof (unread_stream bq st (bq_read_index bq + k) Hw ltac:(lia)) as HU.
      by rewrite Eu in HU.
    + rewrite Eu. destruct (Z.ltb_spec (bq_read_index bq) (bq_write_index bq));
        [rewrite u64_small by lia|]; split; try lia; intros; split; done || lia.
Qed.

(** ** Dropping *)

(** The nodes that still have data after [ri]. *)
Definition ahead (ri : Z) (l : list list_item) : nat := length (filter (fun it => ri < li_end it) l).

Lemma ahead_le ri l : (ahead ri l <= length l)%nat.
Proof. apply length_filter. Qed.

Lemma ahead_mono l : forall ri ri', ri <= ri' -> (ahead ri' l <= ahead ri l)%nat.
Proof.
  unfold ahead. induction l as [|a l IH]; intros ri ri' H; [done|].
  specialize (IH ri ri' H). rewrite !filter_cons. repeat case_decide; simpl; lia.
Qed.

Lemma ahead_lt l n it : forall ri, l !! n = Some it -> ri < li_end it ->
  (ahead (li_end it) l < ahead ri l)%nat.
Proof.
  revert n. unfold ahead. induction l as [|a l IH]; intros n ri Hn Hr; [done|].
  rewrite !filter_cons. destruct n as [|n]; simpl in Hn.
  - simplify_eq. rewrite decide_False, decide_True by lia. simpl.
    pose proof (ahead_mono l ri (li_end it) ltac:(lia)). unfold ahead in *. lia.
  - specialize (IH n ri Hn Hr). repeat case_decide; simpl; lia.
Qed.

(** The effect of moving the read position: only it, the prebuffering flag and
    the cached cursor change. *)
Definition moved (bq : pa_memblockq) (st : store) (bq' : pa_memblockq) : Prop :=
  list_wf bq' st /\ bq_blocks bq' = bq_blocks bq /\
  rest bq' = rest (set_in_prebuf (bq_in_prebuf bq') (set_read_index (bq_read_index bq') bq)) /\
  flag_ok bq (bq_in_prebuf bq').

Lemma wf_set_read_index v bq st : list_wf bq st -> list_wf (set_read_index v bq) st.
Proof. intros [[] ?]. by repeat split. Qed.

Lemma moved_refl bq st b : list_wf bq st -> flag_ok bq b -> moved bq st (set_in_prebuf b bq).
Proof. intros Hw Hf. split_and!; [by apply wf_set_in_prebuf|done|by destruct bq|done]. Qed.

Lemma moved_step bq st b v bq' : list_wf bq st -> flag_ok bq b ->
  moved (set_read_index v (fix_current_read (set_in_prebuf b bq))) st bq' -> moved bq st bq'.
Proof.
  intros Hw Hf (Hw' & B & R & F). pose proof (rest_fix_read (set_in_prebuf b bq)) as Er.
  split_and!; [done|by rewrite B; simpl; rewrite blocks_fix_read|..].
  - rewrite R. unfold rest in *. simpl in *. congruence.
  - intros E. destruct (F E) as [E'|E']; unfold rest in Er; simpl in *.
    + apply Hf. congruence.
    + right. congruence.
Qed.

Lemma moved_now bq st b v : list_wf bq st -> flag_ok bq b ->
  moved bq st (set_read_index v (fix_current_read (set_in_prebuf b bq))).
Proof.
  intros Hw Hf. apply (moved_step _ _ b v); [done..|].
  split_and!; [by apply wf_set_read_index, wf_fix_read, wf_set_in_prebuf|done|done|by left].
Qed.

Lemma update_prebuf_wait bq bq' : update_prebuf bq = (true, bq') ->
  bq_in_prebuf bq' = true /\ pa_memblockq_prebuf_active bq' = true.
Proof.
  unfold update_prebuf, pa_memblockq_prebuf_active, pa_memblockq_get_length.
  destruct (bq_in_prebuf bq) eqn:E.
  - destruct (_ <? bq_prebuf bq) eqn:El; [|done]. intros [= <-]. by rewrite E.
  - destruct (0 <? bq_prebuf bq) eqn:Ep, (bq_write_index bq <=? bq_read_index bq) eqn:Ew; try done.
    intros [= <-]. simpl. by rewrite Ew.
Qed.

Lemma drop_loop_0 fuel bq : drop_loop fuel 0 bq = Ok bq.
Proof. by destruct fuel. Qed.

(** The loop of a drop ends within one round per node, and moves the read
    position by the whole length unless it runs into prebuffering. *)
Lemma drop_loop_spec st fuel : forall len bq, list_wf bq st -> store_ok st -> 0 <= len < 2 ^ 64 ->
  (ahead (bq_read_index bq) (bq_blocks bq) < fuel)%nat ->
  exists bq', drop_loop fuel len bq = Ok bq' /\ moved bq st bq' /\
    bq_read_index bq <= bq_read_index bq' <= bq_read_index bq + len /\
    (bq_read_index bq' = bq_read_index bq + len \/
     bq_in_prebuf bq' = true /\ pa_memblockq_prebuf_active bq' = true).
Proof.
  induction fuel as [|fuel IH]; intros len bq Hw Hok Hlen Hf; [lia|]. simpl.
  assert (set_in_prebuf (bq_in_prebuf bq) bq = bq) as Eself by (by destruct bq).
  destruct (Z.leb_spec len 0) as [H0|H0].
  { exists bq. split_and!; try done; try lia. rewrite <- Eself at 2. by apply moved_refl; [|left]. }
  destruct (update_prebuf_spec bq) as [_ (b & Eb & Hfl)].
  destruct (update_prebuf bq) as [wait bq0] eqn:Eup. simpl in Eb. subst bq0.
  destruct wait.
  { exists (set_in_prebuf b bq). apply update_prebuf_wait in Eup.
    split_and!; [done|by apply moved_refl|simpl; lia|simpl; lia|by right]. }
  set (bq1 := fix_current_read (set_in_prebuf b bq)).
  pose proof (cursor_unread _ _ (wf_set_in_prebuf b _ _ Hw)) as Hcur. fold bq1 in Hcur.
  rewrite Hcur. change (unread (set_in_prebuf b bq)) with (unread bq).
  assert (bq_read_index bq1 = bq_read_index bq) as Eri.
  { pose proof (rest_fix_read (set_in_prebuf b bq)) as Er. unfold rest in Er. simpl in Er.
    subst bq1. congruence. }
  assert (list_wf bq1 st) as Hw1 by (by apply wf_fix_read, wf_set_in_prebuf).
  rewrite Eri. destruct (unread bq) as [it|] eqn:Eu.
  - pose proof (unread_stream bq st (bq_read_index bq) Hw ltac:(lia)) as HU. rewrite Eu in HU.
    destruct HU as (Hin & He & _). rewrite pa_assert_true by (apply Z.leb_le; lia). simpl.
    set (d := if len <? li_end it - bq_read_index bq then len else li_end it - bq_read_index bq).
    assert (0 < d <= len) as Hd by (subst d; destruct (Z.ltb_spec len (li_end it - bq_read_index bq)); lia).
    rewrite (u64_small d), u64_small by lia.
    destruct (decide (d = len)) as [Edl|Hdl].
    + rewrite Edl, Z.sub_diag, drop_loop_0. eexists. split; [done|].
      split_and!; [by apply moved_now|simpl; lia..|by left].
    + assert (d = li_end it - bq_read_index bq) as Ed
        by (subst d; destruct (Z.ltb_spec len (li_end it - bq_read_index bq)); lia).
      destruct (IH (len - d) (set_read_index (bq_read_index bq + d) bq1)) as (bq' & E & M & Hb & Hor);
        [by apply wf_set_read_index|done|lia| |].
      { simpl. unfold bq1. rewrite blocks_fix_read. simpl. rewrite Ed.
        replace (bq_read_index bq + (li_end it - bq_read_index bq)) with (li_end it) by lia.
        unfold unread in Eu. destruct (first_unread _ _) as [n|]; [|done]. simpl in Eu.
        pose proof (ahead_lt _ _ _ _ Eu He). lia. }
      exists bq'. simpl in Hb, Hor. split_and!; [done|by eapply moved_step|lia|lia|].
      destruct Hor as [Hor|Hor]; [left; lia|by right].
  - eexists. split; [done|]. split_and!; [by apply moved_now|simpl; lia..|by left].
Qed.

(** A drop never fails; it moves the read position by the whole length unless
    prebuffering sets in, and forgets only data that ends [maxrewind] bytes or
    more before the new read position. *)
Lemma drop_spec bq st len : store_ok st -> list_wf bq st -> 0 < bq_base bq ->
  0 <= len < 2 ^ 64 -> len mod bq_base bq = 0 ->
  exists bq1 bq' st' gone, pa_memblockq_drop bq len st
      = Ok (read_index_changed (bq_read_index bq) bq', st') /\
    moved bq st bq1 /\ trimmed bq1 st gone bq' st' /\
    Forall (fun a => li_end a <= bq_read_index bq1 - bq_maxrewind bq1) gone /\
    bq_read_index bq <= bq_read_index bq1 <= bq_read_index bq + len /\
    (bq_read_index bq1 = bq_read_index bq + len \/ pa_memblockq_prebuf_active bq1 = true).
Proof.
  intros Hok Hw Hb Hlen Hmod. unfold pa_memblockq_drop.
  rewrite pa_assert_true by (apply Z.eqb_eq; done). simpl.
  destruct (drop_loop_spec st (S (S (length (bq_blocks bq)))) len bq) as (bq1 & E & M & Hri & Hor);
    [done..|pose proof (ahead_le (bq_read_index bq) (bq_blocks bq)); lia|].
  pose proof M as (Hw1 & _ & _).
  destruct (drop_backlog_spec bq1 st Hok Hw1) as (bq' & st' & gone & E2 & T & Hg & _).
  simpl in E. rewrite E. simpl. rewrite E2. simpl. exists bq1, bq', st', gone.
  split_and!; try done; try lia. destruct Hor as [|[_ ?]]; [by left|by right].
Qed.
