(* ===== verification/MemblockqFixed.v ===== *)
(** * MemblockqFixed: reading a block of a fixed size

    [pa_memblockq_peek_fixed_size] copies the stream from the read position on
    into a fresh block when the first node does not hold enough of it, filling
    the gaps with silence: it ends, and it copies only from within blocks that
    the queue holds. *)
From stdpp Require Import base tactics numbers list gmap sorting.
From S2P Require Import Prelude Sample Memblock Mcalign Memblockq MemblockqSpec MemblockqRead.

(** ** Filling a fresh block *)

Section fill.
Context (st0 stb : store) (rid bs : Z).
Hypothesis Hok0 : store_ok st0.
Hypothesis Hrid : st_next st0 <= rid.

(** Between the copies: only the bytes of the block [rid] of [bs] bytes, which
    [st0] does not have, differ from those of [stb]. *)
Definition filling (st : store) : Prop :=
  store_ok st /\ keeps st0 st /\
  (exists b, st_blocks st !! rid = Some b /\ Z.of_nat (length (mb_data b)) = bs) /\
  (forall j, refs st j = refs stb j) /\ forall j, j <> rid -> bytes st j = bytes stb j.

Lemma fill_step st src off doff n : filling st -> src <> rid -> 0 < refs stb src -> 0 <= off -> 0 <= n ->
  off + n <= Z.of_nat (length (bytes stb src)) -> 0 <= doff -> doff + n <= bs ->
  exists st', pa_memchunk_memcpy (mk_chunk (Some rid) doff n) (mk_chunk (Some src) off n) st = Ok st' /\ filling st'.
Proof.
  intros (Hok & K & (bd & Hd & Hlen) & R & B) Hne Hsrc Ho Hn Hon Hdo Hdn.
  assert (0 < refs st src) as [bsrc Hs]%(refs_alive _ _ (proj1 Hok)) by (by rewrite R).
  assert (bytes stb src = mb_data bsrc) as Eb by (rewrite <- B by done; unfold bytes; by rewrite Hs).
  rewrite Eb in Hon.
  destruct (splice doff (sub_list off n (mb_data bsrc)) (mb_data bd)) as [d|] eqn:Ed.
  2: { unfold splice in Ed. rewrite sub_list_length in Ed by lia.
       rewrite (proj2 (andb_true_iff _ _)) in Ed by blia. done. }
  rewrite (memcpy_eq st src rid off doff n bsrc bd d); try done; [|apply Hok].
  eexists. split; [done|]. split_and!.
  - eapply (copy_ok st); try done; apply Hok.
  - by apply (keeps_new_block st0 st rid bd); [apply Hok0|..].
  - eexists. simpl. rewrite lookup_insert_eq. split; [done|]. simpl. by rewrite (splice_length _ _ _ _ Ed).
  - intros j. rewrite <- R, refs_set_block. case_decide; [|done]. subst j. unfold refs. by rewrite Hd.
  - intros j Hj. rewrite bytes_set_block, decide_False by done. by apply B.
Qed.

(** A node or the silence, seen from the store the copies started with. *)
Definition source (c : pa_memchunk) : Prop := chunk_in stb c /\ mc_memblock c <> Some rid.

Lemma fixed_fill_chunk st c i k rindex : filling st -> source c -> 0 <= i -> 0 <= k -> i + k <= mc_length c ->
  0 <= rindex -> rindex + k <= bs ->
  exists st', pa_memchunk_memcpy (mk_chunk (Some rid) rindex k) (mk_chunk (mc_memblock c) (mc_index c + i) k) st = Ok st' /\
    filling st'.
Proof.
  intros Hf [(id & Em & Hr & Hi & Hl & Hb) Hne] ? ? ? ? ?. rewrite Em. apply fill_step; try done; try lia.
  intros ->. by rewrite Em in Hne.
Qed.

(** The loop ends, within one round per byte and per node. *)
Lemma peek_fixed_loop_spec silence fuel : source silence -> 0 <= mc_index silence < 2 ^ 31 -> mc_length silence < 2 ^ 31 ->
  forall rindex ri items st, filling st -> 0 <= rindex <= bs ->
  Forall (fun it => source (li_chunk it)) items -> StronglySorted before items ->
  Forall (fun it => ri <= li_end it /\ li_index it < ri + 2 ^ 63 /\ 0 < mc_length (li_chunk it) /\ mc_index (li_chunk it) + mc_length (li_chunk it) < 2 ^ 31) items ->
  (Z.to_nat (bs - rindex) + length items <= fuel)%nat ->
  exists st', peek_fixed_loop fuel bs silence rid rindex ri items st = Ok st' /\ filling st'.
Proof.
  intros Hsil Hsi Hsl. induction fuel as [|fuel IH]; intros rindex ri items st Hf Hri Hsrc Hsort Hpos Hfuel; simpl.
  { rewrite (proj2 (Z.leb_le _ _)) by lia. eauto. }
  destruct (Z.leb_spec bs rindex) as [|Hlt]; [eauto|].
  assert (0 < mc_length silence) as Hspos by (by destruct Hsil as [(? & _ & _ & _ & ? & _) _]).
  destruct items as [|it rest].
  - set (l := Z.min (mc_length silence) (bs - rindex)).
    destruct (fixed_fill_chunk st silence 0 l rindex) as (st' & E & Hf'); [done|done|lia|lia|lia|lia|lia|].
    rewrite Z.add_0_r in E. rewrite E. simpl. apply IH; try done; simpl in *; lia.
  - apply Forall_cons in Hsrc as [Hs1 Hs2]. apply Forall_cons in Hpos as [(Hp1 & Hp2 & Hp5 & Hp3) Hp4].
    apply StronglySorted_inv in Hsort as [Hso Hbef].
    destruct (proj1 Hs1) as (id & Em & Hr & Hi & Hl & Hb). unfold li_end in Hp1.
    destruct (Z.ltb_spec ri (li_index it)) as [Hgap|Hdata]; simpl.
    + rewrite (u64_small (li_index it - ri)) by lia.
      set (l := Z.min (Z.min (mc_length silence) (li_index it - ri)) (bs - rindex)).
      destruct (fixed_fill_chunk st silence 0 l rindex) as (st' & E & Hf'); [done|done|lia|lia|lia|lia|lia|].
      rewrite Z.add_0_r in E. rewrite E. simpl. apply IH; try done; try (simpl in *; lia).
      * by constructor.
      * by constructor.
      * constructor; [unfold li_end; lia|]. eapply Forall_impl; [apply Forall_and; split; [exact Hp4|exact Hbef]|].
        intros a [(? & ? & ? & ?) Hab]. unfold before, li_end in *. simpl in *. split_and!; lia.
    + rewrite (u64_small (ri - li_index it)) by lia. set (d := ri - li_index it).
      rewrite (u64_small (mc_index (li_chunk it) + d)), (u64_small (mc_length (li_chunk it) - d)) by lia.
      set (l := Z.min (mc_length (li_chunk it) - d) (bs - rindex)).
      destruct (fixed_fill_chunk st (li_chunk it) d l rindex) as (st' & E & Hf'); [done|done|lia|lia|lia|lia|lia|].
      rewrite E. simpl. apply IH; try done; try (simpl in *; lia).
      eapply Forall_impl; [apply Forall_and; split; [exact Hp4|exact Hbef]|].
      intros a [(? & ? & ? & ?) Hab]. unfold before, li_end in *. simpl in *. split_and!; lia.
Qed.
End fill.

(** ** What was peeked at *)

(** The nodes from the cursor on. *)
Definition nodes_ahead (bq : pa_memblockq) : list list_item :=
  match bq_current_read bq with Some n => drop n (bq_blocks bq) | None => [] end.

Definition total_length (st : store) : Z := msum mb_length (st_blocks st).

Lemma ref_total id st st' : store_ok st -> pa_memblock_ref id st = Ok st' -> total_length st' = total_length st.
Proof.
  intros Hok E. unfold pa_memblock_ref, get_block in E. destruct (st_blocks st !! id) as [b|] eqn:Hb; [|done].
  inv_bind. unfold total_length. simpl. rewrite (msum_insert_old _ _ _ _ _ Hb). simpl. lia.
Qed.

(** Where the nodes lie when the cursor was brought up to date. *)
Lemma nodes_ahead_spec bq st : store_ok st -> list_wf bq st ->
  let l := nodes_ahead (fix_current_read bq) in
  head l = unread bq /\ StronglySorted before l /\ Forall (item_in st) l /\
  Forall (fun it => bq_read_index bq < li_end it) l.
Proof.
  intros Hok Hw. pose proof Hw as [Hm Hs]. pose proof (lw_items _ _ Hm) as Hin. unfold nodes_ahead, unread.
  rewrite (fix_current_read_spec _ _ Hw), blocks_fix_read. destruct (first_unread _ _) as [n|] eqn:E; simpl.
  2: { split_and!; constructor. }
  destruct (first_unread_Some _ _ _ E) as (it & Hn & He & _). rewrite (drop_S _ _ _ Hn).
  rewrite <- (take_drop_middle _ _ _ Hn) in Hs, Hin. apply sorted_app in Hs as (_ & Hs & _).
  apply Forall_app in Hin as [_ Hin]. split_and!; try done. constructor; [done|].
  apply StronglySorted_inv in Hs as [_ Hb]. apply Forall_cons in Hin as [_ Hin].
  eapply Forall_impl; [apply Forall_and; split; [exact Hb|exact Hin]|].
  intros a [Ha Hia%item_in_end]. unfold before in Ha. lia.
Qed.

(** What [pa_memblockq_peek] hands out when there is a chunk of silence to
    fill gaps with: a slice of a live block that ends where the first node ahead
    starts, or where it ends. *)
Lemma peek_slice bq st c bq' st' : store_ok st -> list_wf bq st -> chunk_in st (bq_silence bq) ->
  (forall it, it ∈ bq_blocks bq -> li_index it < bq_read_index bq + 2 ^ 63) ->
  pa_memblockq_peek bq st = Ok (Some c, (bq', st')) ->
  chunk_in st c /\ total_length st' = total_length st /\
  Forall (fun it => bq_read_index bq + mc_length c <= li_end it) (nodes_ahead bq') /\
  Forall (item_in st) (nodes_ahead bq') /\ StronglySorted before (nodes_ahead bq') /\
  (forall it, it ∈ nodes_ahead bq' -> it ∈ bq_blocks bq) /\
  (length (nodes_ahead bq') <= length (bq_blocks bq))%nat /\
  exists id, mc_memblock c = Some id /\ pa_memblock_ref id st = Ok st'.
Proof.
  intros Hok Hw Hsil Hpos. unfold pa_memblockq_peek.
  destruct (update_prebuf_spec bq) as [_ (b & Eb & _)].
  destruct (update_prebuf bq) as [wait bq0]. simpl in Eb. subst bq0. destruct wait; [done|].
  pose proof (wf_set_in_prebuf b _ _ Hw) as Hw'. set (bq1 := set_in_prebuf b bq) in *. cbv zeta.
  rewrite (cursor_unread _ _ Hw'). pose proof (rest_fix_read bq1) as R. unfold rest in R.
  assert (bq_read_index (fix_current_read bq1) = bq_read_index bq) as -> by (subst bq1; simpl in *; congruence).
  assert (bq_silence (fix_current_read bq1) = bq_silence bq) as -> by (subst bq1; simpl in *; congruence).
  destruct (nodes_ahead_spec bq1 st Hok Hw') as (Hh & Hs & Hin & Hahead). cbv zeta in *.
  assert (forall it, it ∈ nodes_ahead (fix_current_read bq1) -> it ∈ bq_blocks bq) as Hsub.
  { intros it. unfold nodes_ahead. rewrite blocks_fix_read. case_match; [|by intros ?%elem_of_nil].
    intros (k & Hk)%list_elem_of_lookup. rewrite lookup_drop in Hk. by apply list_elem_of_lookup_2 in Hk. }
  assert (length (nodes_ahead (fix_current_read bq1)) <= length (bq_blocks bq))%nat as Hlen.
  { unfold nodes_ahead. rewrite blocks_fix_read. case_match; simpl; [rewrite length_drop|]; lia. }
  destruct Hsil as (sid & Esil & Hsr & Hsi & Hsl & Hsb). rewrite Esil.
  assert (forall l, 0 <= l -> (0 < l -> Forall (fun it => bq_read_index bq + l <= li_index it) (nodes_ahead (fix_current_read bq1))) ->
    (l = 0 -> nodes_ahead (fix_current_read bq1) = []) ->
    ('st2 ← pa_memblock_ref sid st;
      Ok (Some (mk_chunk (Some sid) 0 (if (0 <? l) && (l <? mc_length (bq_silence bq)) then l else mc_length (bq_silence bq))),
        (fix_current_read bq1, st2))) = Ok (Some c, (bq', st')) -> chunk_in st c /\ total_length st' = total_length st /\
    Forall (fun it => bq_read_index bq + mc_length c <= li_end it) (nodes_ahead bq') /\
    Forall (item_in st) (nodes_ahead bq') /\ StronglySorted before (nodes_ahead bq') /\
    (forall it, it ∈ nodes_ahead bq' -> it ∈ bq_blocks bq) /\
    (length (nodes_ahead bq') <= length (bq_blocks bq))%nat /\
    exists id, mc_memblock c = Some id /\ pa_memblock_ref id st = Ok st') as Hgap.
  { intros l Hl Hpl Hzl E. inv_bind. pose proof (ref_total _ _ _ Hok E0) as Et. split_and!; try done; [| |by eauto].
    - exists sid. simpl. split_and!; try done; case_match; blia.
    - simpl. destruct (decide (l = 0)) as [->|Hn0]; [rewrite (Hzl eq_refl); constructor|].
      eapply Forall_impl; [apply Forall_and; split; [apply Hpl; lia|exact Hin]|]. intros a [Ha Hia%item_in_end].
      case_match; blia. }
  change (unread bq1) with (unread bq) in *. destruct (unread bq) as [it|] eqn:Eu.
  - destruct (nodes_ahead (fix_current_read bq1)) as [|it' rest] eqn:En; [done|]. injection Hh as ->.
    pose proof (Hsub it ltac:(by left)) as Hit. specialize (Hpos it Hit).
    apply Forall_cons in Hin as [Hi1 Hi2]. apply Forall_cons in Hahead as [Ha1 Ha2].
    apply StronglySorted_inv in Hs as [Hso Hbef]. pose proof (chunk_in_bound _ _ Hok Hi1) as Hb1.
    destruct (Z.ltb_spec (bq_read_index bq) (li_index it)) as [Hlt|Hge].
    + rewrite u64_small by lia. intros E. apply (Hgap (li_index it - bq_read_index bq)); [lia| |lia|exact E].
      intros _. constructor; [lia|]. eapply Forall_impl; [exact Hbef|]. intros a Ha. unfold before, li_end in Ha. simpl. lia.
    + unfold li_end in Ha1. pose proof Hi1 as (id & Em & Hr & Hx1 & Hx2 & Hx3). rewrite Em. simpl. intros E. inv_bind.
      simpl in Ha1. rewrite (u64_small (bq_read_index bq - li_index it)), !u64_small by lia. pose proof (ref_total _ _ _ Hok E0) as Et.
      rewrite En. split_and!; try done; [| |by constructor|by constructor|by eauto].
      * exists id. simpl. split_and!; done || lia.
      * simpl. constructor; [unfold li_end; lia|]. eapply Forall_impl; [apply Forall_and; split; [exact Hbef|exact Hi2]|].
        intros a [Ha Hia%item_in_end]. unfold before, li_end in *. lia.
  - destruct (nodes_ahead (fix_current_read bq1)) as [|it' rest] eqn:En; [|done].
    set (l := if _ <? bq_write_index _ then _ else 0). intros E.
    apply (Hgap l); [|intros _; constructor|done|exact E]. unfold l, u64. destruct (_ <? _); [apply Z.mod_pos_bound; lia|lia].
Qed.

(** ** The whole call *)

(** The call ends; it hands out a slice of a live block with a reference for
    the caller, or nothing, and the queue is as after a peek. *)
Lemma peek_fixed_spec fuel bq n st r bq' st1 : store_ok st -> list_wf bq st -> chunk_in st (bq_silence bq) ->
  (forall it, it ∈ bq_blocks bq -> li_index it < bq_read_index bq + 2 ^ 63) ->
  0 < n -> total_length st + n < 2 ^ 31 -> (Z.to_nat n + length (bq_blocks bq) <= fuel)%nat ->
  pa_memblockq_peek bq st = Ok (r, (bq', st1)) -> store_ok st1 -> keeps st st1 ->
  (forall j, refs st1 j = refs st j + from_option (fun c => chunk_refs c j) 0 r) ->
  (forall j, chunk_refs (bq_silence bq) j <= refs st j) -> bq_silence bq' = bq_silence bq -> bq_read_index bq' = bq_read_index bq ->
  exists r' st', pa_memblockq_peek_fixed_size fuel bq n st = Ok (r', (bq', st')) /\ store_ok st' /\ keeps st1 st' /\
    (forall j, refs st' j = refs st j + from_option (fun c => chunk_refs c j) 0 r') /\
    (r' = None <-> r = None) /\ forall c, r' = Some c -> mc_length c = n.
Proof.
  intros Hok Hw Hsil Hpos Hn Htot Hfuel E Hok1 K1 R1 Hsr Esil Eri. unfold pa_memblockq_peek_fixed_size.
  rewrite (pa_assert_true (0 <? n)) by blia. simpl.
  destruct (id Hsil) as (sid & Es & _). rewrite (isset_some _ _ Es), pa_assert_true by done. simpl. rewrite E. simpl.
  destruct r as [c|]; [|eexists _, _; split; [done|]; split_and!; done].
  destruct (peek_slice bq st c bq' st1) as (Hc & Ht & Hend & Hin & Hso & Hsub & Hlen & id & Em & Eref); try done.
  simpl in R1. pose proof (chunk_in_bound _ _ Hok Hc) as Hcb.
  destruct (Z.leb_spec n (mc_length c)) as [Hle|Hgt].
  { eexists _, _. split; [done|]. split_and!; try done. intros c' [= <-]. done. }
  rewrite Em. simpl.
  destruct (pa_memblock_new_spec st1 n Hok1 Hn) as (rid & st2 & E2 & Hok2 & K2 & Erid & R2 & (b & Hb & _ & Hd) & Hoth & _);
    [unfold total_length in *; lia|]. rewrite E2. simpl.
  assert (forall j, 0 < refs st1 j -> j <> rid) as Hne.
  { intros j Hj ->. pose proof (refs_next st1 rid (proj1 Hok1) Hj). lia. }
  assert (forall d, chunk_in st d -> chunk_in st1 d) as Hin1.
  { intros d Hd'. apply (chunk_in_keeps st st1); [done..|]. intros i Hi. rewrite R1.
    destruct Hd' as (i' & Hi' & Hr & _). assert (i = i') as -> by congruence. pose proof (chunk_refs_nonneg c i'). lia. }
  assert (forall d, chunk_in st d -> source st2 rid d) as Hsource.
  { intros d Hd'. pose proof (Hin1 d Hd') as Hd1. pose proof Hd1 as (i & Hi & Hr & _). split.
    - apply (chunk_in_keeps st1 st2); [done..|]. intros i' Hi'. rewrite R2. assert (i = i') as <- by congruence.
      pose proof (delta_nonneg rid 1 i). lia.
    - rewrite Hi. intros [= ->]. by apply (Hne rid). }
  assert (filling st1 st2 rid n st2) as Hf2.
  { split_and!; try done. exists b. split; [done|]. rewrite Hd, uninit_length; lia. }
  destruct (fixed_fill_chunk st1 st2 rid n Hok1 ltac:(lia) st2 c 0 (mc_length c) 0) as (st3 & E3 & Hf3);
    [done|by apply Hsource|lia..|]. rewrite Z.add_0_r in E3.
  assert (mk_chunk (mc_memblock c) (mc_index c) (mc_length c) = c) as Ec by (by destruct c).
  rewrite Ec in E3. rewrite E3. simpl. destruct Hf3 as (Hok3 & K3 & (b3 & Hb3 & Hl3) & R3 & B3).
  assert (forall j, refs st3 j = refs st j + chunk_refs c j + delta rid 1 j) as R3' by (intros j; by rewrite R3, R2, R1).
  assert (forall j, chunk_refs c j = delta id 1 j) as Hcr by (intros j; unfold chunk_refs; by rewrite Em).
  destruct (pa_memblock_unref_spec st3 id Hok3) as (st4 & E4 & Hok4 & K4 & _ & R4).
  { rewrite R3', (chunk_refs_some _ _ Em). pose proof (refs_nonneg st id (proj1 Hok)). pose proof (delta_nonneg rid 1 id). lia. }
  rewrite E4. simpl.
  assert (forall j, refs st4 j = refs st j + delta rid 1 j) as R4'.
  { intros j. rewrite R4, R3', Hcr. unfold delta. repeat case_decide; lia. }
  assert (keeps st1 st4) as K14 by (apply (keeps_trans st1 st3); [apply Hok1|apply Hok3|done..]).
  assert (forall d, chunk_in st d -> source st4 rid d) as Hsource4.
  { intros d Hd'. split; [|by apply Hsource]. apply (chunk_in_keeps st1 st4); [done|by apply Hin1|]. intros i Hi. rewrite R4'.
    destruct Hd' as (i' & Hi' & Hr & _). assert (i = i') as -> by congruence. pose proof (delta_nonneg rid 1 i'). lia. }
  assert (filling st1 st4 rid n st4) as Hf4.
  { split_and!; try done. assert (0 < refs st4 rid) as Hrr.
    { rewrite R4'. unfold delta. rewrite decide_True by done. pose proof (refs_nonneg st rid (proj1 Hok)). lia. }
    assert (0 < refs st3 rid) as Hr3 by (unfold refs; rewrite Hb3; simpl; by destruct (wf_block _ (proj1 Hok3) _ _ Hb3)).
    pose proof (keeps_bytes _ _ K4 rid Hr3 Hrr) as Eb. apply refs_alive in Hrr as [b4 Hb4]; [|apply Hok4].
    exists b4. split; [done|]. unfold bytes in Eb. rewrite Hb4, Hb3 in Eb. simpl in Eb. by rewrite Eb. }
  pose proof (chunk_in_bound _ _ Hok Hsil) as Hsb.
  destruct (peek_fixed_loop_spec st1 st4 rid n Hok1 ltac:(lia) (bq_silence bq) fuel) with (rindex := mc_length c)
    (ri := bq_read_index bq + mc_length c) (items := nodes_ahead bq') (st := st4) as (st5 & E5 & Hok5 & K5 & _ & R5 & _);
    [by apply Hsource4|lia|lia|done|lia| |done| | |].
  - eapply Forall_impl; [exact Hin|]. intros a Ha. by apply Hsource4.
  - apply Forall_forall. intros a Ha. rewrite Forall_forall in Hend, Hin. pose proof (Hpos a (Hsub a Ha)).
    pose proof (chunk_in_bound _ _ Hok (Hin a Ha)). split_and!; [by apply Hend|lia..].
  - lia.
  - unfold nodes_ahead in E5. rewrite Esil, Eri, E5. simpl. eexists _, _. split; [done|]. split_and!; try done.
    + intros j. rewrite R5, R4'. done.
    + intros c' [= <-]. done.
Qed.
