(* ===== verification/MemblockqAttr.v ===== *)
(** * MemblockqAttr: buffer attributes and accounting of the queue

    The attributes ([maxlength], [tlength], [minreq], [prebuf], [maxrewind])
    are set by clients of the server; every setter re-establishes the relations
    between them.  The balance of [missing] and [requested] drives the requests
    for more data. *)
From stdpp Require Import base tactics numbers list gmap sorting.
From S2P Require Import Prelude Sample Memblock Mcalign Memblockq MemblockqSpec.

(** ** Relations between the attributes *)

(** A multiple of the frame size in a range. *)
Definition frames_in (base lo hi x : Z) : Prop := lo <= x <= hi /\ x mod base = 0.

(** The largest length a client may ask for without the rounding wrapping. *)
Definition len_max : Z := 2 ^ 62.

Record sizes_ok (bq : pa_memblockq) : Prop := {
  so_base : 0 < bq_base bq < 2 ^ 31;
  so_maxlength : frames_in (bq_base bq) (bq_base bq) (len_max + 2 ^ 31) (bq_maxlength bq);
  so_tlength : frames_in (bq_base bq) (bq_base bq) (bq_maxlength bq) (bq_tlength bq);
  so_minreq : frames_in (bq_base bq) (bq_base bq) (bq_tlength bq) (bq_minreq bq);
  so_maxrewind : bq_maxrewind bq mod bq_base bq = 0 /\ 0 <= bq_maxrewind bq
}.

Record attr_ok (bq : pa_memblockq) : Prop := {
  ao_sizes : sizes_ok bq;
  ao_prebuf : frames_in (bq_base bq) 0 (bq_tlength bq + bq_base bq - bq_minreq bq) (bq_prebuf bq);
  ao_flag : bq_in_prebuf bq = true -> 0 < bq_prebuf bq
}.

Lemma round_up_frames b x : 0 < b < 2 ^ 31 -> 0 <= x <= len_max + 2 ^ 31 ->
  let r := u64 (u64 (u64 (x + b) - 1) / b * b) in
  x <= r < x + b /\ r mod b = 0.
Proof.
  intros Hb Hx. unfold len_max in *. simpl.
  rewrite (u64_small (x + b)), (u64_small (x + b - 1)) by lia.
  pose proof (round_up_ge x b ltac:(lia)). pose proof (round_up_lt x b ltac:(lia)).
  rewrite u64_small by lia. split; [lia|]. apply round_down_mod. lia.
Qed.

Lemma round_down_frames b x : 0 < b -> 0 <= x < 2 ^ 64 ->
  let r := u64 (x / b * b) in 0 <= r <= x /\ x < r + b /\ r mod b = 0.
Proof.
  intros Hb Hx. simpl. pose proof (round_down_le x b ltac:(lia) Hb).
  pose proof (round_down_lt x b Hb). rewrite u64_small by lia. split_and!; try lia.
  by apply round_down_mod.
Qed.

Lemma base_mod b : 0 < b -> b mod b = 0.
Proof. intros. apply Z.mod_same. lia. Qed.

(** ** The setters *)

(** The prebuffering setter only needs the other sizes to be right. *)
Lemma set_prebuf_ok p bq : sizes_ok bq -> 0 <= p <= len_max + 2 ^ 31 \/ p = SIZE_MAX ->
  attr_ok (pa_memblockq_set_prebuf p bq).
Proof.
  intros Hs Hp. pose proof Hs as [Hb [Hm1 Hm2] [Ht1 Ht2] [Hr1 Hr2] Hmr]. unfold len_max in *.
  unfold pa_memblockq_set_prebuf.
  rewrite (u64_small (bq_tlength bq + bq_base bq)), (u64_small (_ - bq_minreq bq)) by lia.
  set (limit := bq_tlength bq + bq_base bq - bq_minreq bq).
  assert (bq_base bq <= limit /\ limit mod bq_base bq = 0) as [Hlim Hlmod].
  { split; [subst limit; lia|]. apply mod_sub_0; [lia| |done]. apply mod_add_0; [lia|done|].
    apply base_mod. lia. }
  set (p0 := if p =? SIZE_MAX then limit else p).
  assert (0 <= p0 <= len_max + 2 ^ 31) as Hp0.
  { subst p0. unfold len_max. destruct (Z.eqb_spec p SIZE_MAX); subst limit; lia. }
  destruct (round_up_frames (bq_base bq) p0 Hb Hp0) as [Hr Hrm]. cbv zeta in Hr, Hrm.
  set (r := u64 (u64 (u64 (p0 + bq_base bq) - 1) / bq_base bq * bq_base bq)) in *.
  set (p1 := if (0 <? p0) && (r <? bq_base bq) then bq_base bq else r).
  assert (0 <= p1 /\ p1 mod bq_base bq = 0) as [H1 H1m].
  { subst p1. case_match; [|split; [lia|done]]. split; [lia|apply base_mod; lia]. }
  set (p2 := if limit <? p1 then limit else p1).
  assert (0 <= p2 <= limit /\ p2 mod bq_base bq = 0) as [H2 H2m].
  { subst p2. destruct (Z.ltb_spec limit p1); split; done || lia. }
  cbv zeta. destruct (Z.leb_spec p2 0); simpl.
  - split; simpl; [by destruct Hs|split; done || lia|done].
  - destruct (p2 <=? _); split; simpl; try done; try (by destruct Hs); split; done || lia.
Qed.

(** What the setters of lengths rely on and do not establish themselves. *)
Record lens_ok (bq : pa_memblockq) : Prop := {
  lo_base : 0 < bq_base bq < 2 ^ 31;
  lo_maxlength : frames_in (bq_base bq) (bq_base bq) (len_max + 2 ^ 31) (bq_maxlength bq);
  lo_maxrewind : bq_maxrewind bq mod bq_base bq = 0 /\ 0 <= bq_maxrewind bq;
  lo_prebuf : frames_in (bq_base bq) 0 (len_max + 2 ^ 31) (bq_prebuf bq);
  lo_flag : bq_in_prebuf bq = true -> 0 < bq_prebuf bq
}.

Lemma attr_lens bq : attr_ok bq -> lens_ok bq.
Proof.
  intros [[Hb Hm [Ht _] [Hr _] Hmr] [Hp ?] Hf]. pose proof Hm as [? _]. split; try done.
  split; [lia|done].
Qed.

Lemma minreq_range b t m : 0 < b <= t -> t mod b = 0 -> 0 <= m < 2 ^ 64 ->
  let r := u64 (m / b * b) in
  let r := if t <? r then t else r in
  let r := if r <? b then b else r in
  frames_in b b t r.
Proof.
  intros Hb Ht Hm. destruct (round_down_frames b m) as (Hr & _ & Hrm); [lia..|].
  cbv zeta in *. set (r := u64 (m / b * b)) in *. unfold frames_in.
  destruct (Z.ltb_spec t r); bsplit; split; try lia; try done; apply base_mod; lia.
Qed.

Lemma set_minreq_ok m bq : lens_ok bq ->
  frames_in (bq_base bq) (bq_base bq) (bq_maxlength bq) (bq_tlength bq) ->
  0 <= m < 2 ^ 64 -> attr_ok (pa_memblockq_set_minreq m bq).
Proof.
  intros [Hb [Hm1 Hm2] Hmr [Hp1 Hp2] Hf] [Ht1 Ht2] Hm.
  pose proof (minreq_range (bq_base bq) (bq_tlength bq) m) as Hr.
  destruct Hr as [Hr1 Hr2]; [lia|done..|]. unfold pa_memblockq_set_minreq.
  set (r := if (if _ <? _ then _ else _) <? _ then _ else _) in *. cbv zeta.
  assert (sizes_ok (set_minreq r bq)) as Hs by (split; done).
  unfold len_max in *. simpl. rewrite (u64_small (bq_tlength bq + bq_base bq)), (u64_small (_ - r)) by lia.
  destruct (Z.ltb_spec (bq_tlength bq + bq_base bq - r) (bq_prebuf bq)).
  - apply set_prebuf_ok; [done|]. left. unfold len_max. lia.
  - split; simpl; [done|split; done || lia|done].
Qed.

(** The target length a request is turned into. *)
Definition tlength_of (bq : pa_memblockq) (tlength : Z) : Z :=
  let tlength := if (tlength <=? 0) || (tlength =? SIZE_MAX) then bq_maxlength bq else tlength in
  let t := u64 (u64 (u64 (tlength + bq_base bq) - 1) / bq_base bq * bq_base bq) in
  if bq_maxlength bq <? t then bq_maxlength bq else t.

Lemma set_tlength_eq t bq : pa_memblockq_set_tlength t bq =
  let t := tlength_of bq t in
  let bq1 := set_tlength t bq in
  let bq1 := if t <? bq_minreq bq then pa_memblockq_set_minreq t bq1 else bq1 in
  let limit := u64 (u64 (bq_tlength bq1 + bq_base bq1) - bq_minreq bq1) in
  let bq1 := if limit <? bq_prebuf bq1 then pa_memblockq_set_prebuf limit bq1 else bq1 in
  set_missing (bq_missing bq1 + (s64 (bq_tlength bq1) - s64 (bq_tlength bq))) bq1.
Proof. reflexivity. Qed.

Lemma tlength_of_range bq t : 0 < bq_base bq < 2 ^ 31 ->
  frames_in (bq_base bq) (bq_base bq) (len_max + 2 ^ 31) (bq_maxlength bq) ->
  0 <= t <= len_max \/ t = SIZE_MAX ->
  frames_in (bq_base bq) (bq_base bq) (bq_maxlength bq) (tlength_of bq t).
Proof.
  intros Hb [Hm1 Hm2] Ht. unfold tlength_of.
  set (t0 := if (t <=? 0) || (t =? SIZE_MAX) then bq_maxlength bq else t).
  assert (0 < t0 <= len_max + 2 ^ 31) as Ht0.
  { subst t0. unfold len_max in *.
    destruct (Z.leb_spec t 0), (Z.eqb_spec t SIZE_MAX); simpl; lia. }
  destruct (round_up_frames (bq_base bq) t0 Hb ltac:(lia)) as [Hr Hrm]. cbv zeta in *.
  set (r := u64 _) in *. assert (bq_base bq <= r) as Hbr.
  { clearbody r. apply Z.mod_divide in Hrm as [k Hk]; [|lia]. assert (0 < k) by nia. nia. }
  unfold frames_in. destruct (Z.ltb_spec (bq_maxlength bq) r); split; done || lia.
Qed.

Lemma set_tlength_ok t bq : lens_ok bq ->
  bq_base bq <= bq_minreq bq <= len_max + 2 ^ 31 -> bq_minreq bq mod bq_base bq = 0 ->
  0 <= t <= len_max \/ t = SIZE_MAX -> attr_ok (pa_memblockq_set_tlength t bq).
Proof.
  intros Hl Hr1 Hr2 Ht. pose proof Hl as [Hb [Hm1 Hm2] Hmr [Hp1 Hp2] Hf].
  pose proof (tlength_of_range bq t Hb ltac:(by split) Ht) as [Ht1 Ht2].
  rewrite set_tlength_eq.
  set (t' := tlength_of bq t) in *. cbv zeta.
  assert (forall v bq0, attr_ok bq0 -> attr_ok (set_missing v bq0)) as Hmiss.
  { intros v bq0 [[] ? ?]. split; [split|..]; done. }
  apply Hmiss. assert (lens_ok (set_tlength t' bq)) as Hl1 by (by destruct Hl).
  destruct (Z.ltb_spec t' (bq_minreq bq)) as [Hlt|Hge].
  - assert (attr_ok (pa_memblockq_set_minreq t' (set_tlength t' bq))) as Hok.
    { apply set_minreq_ok; [done|by split|]. unfold len_max in *. lia. }
    case_match; [|done]. apply set_prebuf_ok; [apply Hok|]. left.
    destruct (ao_sizes _ Hok) as [? [? ?] [? ?] [? ?] ?]. unfold len_max in *.
    rewrite (u64_small (_ + _)), u64_small by lia. lia.
  - assert (sizes_ok (set_tlength t' bq)) as Hs by (split; try done; split; done || (simpl; lia)).
    simpl. unfold len_max in *.
    rewrite (u64_small (t' + bq_base bq)), (u64_small (_ - bq_minreq bq)) by lia.
    destruct (Z.ltb_spec (t' + bq_base bq - bq_minreq bq) (bq_prebuf bq)).
    + apply set_prebuf_ok; [done|]. left. unfold len_max. lia.
    + split; simpl; [done|split; done || lia|done].
Qed.

Lemma set_maxlength_ok l bq : attr_ok bq -> 0 <= l <= len_max - 2 ^ 31 ->
  attr_ok (pa_memblockq_set_maxlength l bq).
Proof.
  intros Ha Hl. pose proof Ha as [[Hb [Hm1 Hm2] [Ht1 Ht2] [Hr1 Hr2] Hmr] [Hp1 Hp2] Hf].
  unfold pa_memblockq_set_maxlength. unfold len_max in *.
  destruct (round_up_frames (bq_base bq) l Hb) as [Hr Hrm]; [unfold len_max; lia|]. cbv zeta in *.
  set (r := u64 _) in *. set (r1 := if r <? bq_base bq then bq_base bq else r).
  assert (bq_base bq <= r1 <= 2 ^ 62 /\ r1 mod bq_base bq = 0) as [H1 H1m].
  { subst r1. destruct (Z.ltb_spec r (bq_base bq)); split; try done; try lia. apply base_mod. lia. }
  simpl. destruct (Z.ltb_spec r1 (bq_tlength bq)).
  - apply set_tlength_ok; [|done || (simpl; unfold len_max; lia)..|left; unfold len_max; lia].
    split; simpl; unfold len_max; try done; split; done || lia.
  - split; simpl; try done. split; simpl; unfold len_max; try done; split; done || lia.
Qed.

Lemma set_maxrewind_ok m bq : attr_ok bq -> 0 <= m < 2 ^ 64 ->
  attr_ok (pa_memblockq_set_maxrewind m bq).
Proof.
  intros [[Hb Hm Ht Hr _] Hp Hf] H. destruct (round_down_frames (bq_base bq) m) as (Hr1 & _ & Hrm);
    [lia..|]. cbv zeta in *. unfold pa_memblockq_set_maxrewind. repeat split; simpl; try apply Hm;
    try apply Ht; try apply Hr; try apply Hp; done || lia.
Qed.
