(* ===== verification/MemblockqInv.v ===== *)
(** * MemblockqInv: the queue under any sequence of operations

    The operations of the queue that do without the aligner as commands, the
    invariant they keep, and that a fresh queue has it.  Positions are unbounded
    here; the file MemblockqOps puts the range of [int64_t] and the remaining
    operations on top. *)
From stdpp Require Import base tactics numbers list gmap sorting.
From S2P Require Import Prelude Sample Memblock Mcalign Memblockq MemblockqSpec MemblockqPush.
From S2P Require Import MemblockqWrite MemblockqRead MemblockqAttr.

(** ** Commands *)

Inductive cmd :=
| CPush (c : pa_memchunk)
| CPeek
| CDrop (len : Z)
| CRewind (len : Z)
| CSeek (offset : Z) (seek : pa_seek_mode_t) (account : bool)
| CFlushWrite (account : bool)
| CFlushRead
| CSilence
| CPopMissing
| CPrebufDisable
| CPrebufForce
| CWillneed
| CSetMaxlength (v : Z)
| CSetTlength (v : Z)
| CSetMinreq (v : Z)
| CSetPrebuf (v : Z)
| CSetMaxrewind (v : Z)
| CApplyAttr (a : pa_buffer_attr).

(** Running a command; the value it returns is left aside. *)
Definition run (k : cmd) (bq : pa_memblockq) (st : store) : outcome (pa_memblockq * store) :=
  match k with
  | CPush c => '(_, s) ← pa_memblockq_push bq c st; Ok s
  | CPeek => '(_, s) ← pa_memblockq_peek bq st; Ok s
  | CDrop len => pa_memblockq_drop bq len st
  | CRewind len => bq ← pa_memblockq_rewind bq len; Ok (bq, st)
  | CSeek offset seek account => pa_memblockq_seek bq offset seek account st
  | CFlushWrite account => pa_memblockq_flush_write bq account st
  | CFlushRead => pa_memblockq_flush_read bq st
  | CSilence => pa_memblockq_silence bq st
  | CPopMissing => Ok (snd (pa_memblockq_pop_missing bq), st)
  | CPrebufDisable => Ok (pa_memblockq_prebuf_disable bq, st)
  | CPrebufForce => Ok (pa_memblockq_prebuf_force bq, st)
  | CWillneed => Ok (pa_memblockq_willneed bq, st)
  | CSetMaxlength v => Ok (pa_memblockq_set_maxlength v bq, st)
  | CSetTlength v => Ok (pa_memblockq_set_tlength v bq, st)
  | CSetMinreq v => Ok (pa_memblockq_set_minreq v bq, st)
  | CSetPrebuf v => Ok (pa_memblockq_set_prebuf v bq, st)
  | CSetMaxrewind v => Ok (pa_memblockq_set_maxrewind v bq, st)
  | CApplyAttr a => Ok (pa_memblockq_apply_attr a bq, st)
  end.

(** ** The invariant *)

(** Bytes asked for, bytes still to ask for and bytes queued add up to the
    target length. *)
Definition balanced (bq : pa_memblockq) : Prop :=
  bq_missing bq + bq_requested bq + (bq_write_index bq - bq_read_index bq) = s64 (bq_tlength bq).

(** The references the queue owns: one per node and one for the silence
    chunk. *)
Definition owned (bq : pa_memblockq) (j : Z) : Z :=
  items_refs (bq_blocks bq) j + chunk_refs (bq_silence bq) j.

Record queue_inv (bq : pa_memblockq) (st : store) : Prop := {
  qi_store : store_ok st;
  qi_list : list_wf bq st;
  qi_attr : attr_ok bq;
  qi_balance : balanced bq;
  qi_owned : forall j, owned bq j <= refs st j
}.

(** What the lists, the references and the attributes need: chunks a client
    pushes are aligned slices of blocks it holds a reference on, lengths are in
    whole frames, attributes stay away from the ends of the 64-bit range.  The
    positions are the matter of [op_ok] in the file MemblockqOps. *)
Definition cmd_ok (k : cmd) (bq : pa_memblockq) (st : store) : Prop :=
  match k with
  | CPush c => chunk_in st c /\ (forall j, owned bq j + chunk_refs c j <= refs st j) /\
      mc_length c mod bq_base bq = 0 /\ mc_index c mod bq_base bq = 0 /\
      Z.of_nat (length (bq_blocks bq)) + 2 < 2 ^ 32
  | CPeek => - 2 ^ 62 < bq_read_index bq < 2 ^ 62 /\ bq_write_index bq < 2 ^ 62 /\
      Forall (fun it => li_index it < 2 ^ 62) (bq_blocks bq)
  | CDrop len => 0 <= len < 2 ^ 64 /\ len mod bq_base bq = 0
  | CRewind len => len mod bq_base bq = 0
  | CSetMaxlength v => 0 <= v <= len_max - 2 ^ 31
  | CSetTlength v => 0 <= v <= len_max \/ v = SIZE_MAX
  | CSetMinreq v | CSetMaxrewind v => 0 <= v < 2 ^ 64
  | CSetPrebuf v => 0 <= v <= len_max \/ v = SIZE_MAX
  | CApplyAttr a => 0 <= a_maxlength a < 2 ^ 32 /\ 0 <= a_tlength a < 2 ^ 32 /\
      0 <= a_prebuf a < 2 ^ 32 /\ 0 <= a_minreq a < 2 ^ 32
  | _ => True
  end.

(** ** Both parts of the invariant that concern the other fields *)

Lemma attr_rest bq bq' : rest bq' = rest bq -> attr_ok bq -> attr_ok bq'.
Proof.
  intros E. destruct bq, bq'. unfold rest in E. simpl in E. simplify_eq.
  intros [[] ? ?]. split; [split|..]; done.
Qed.

Lemma balanced_rest bq bq' : rest bq' = rest bq -> balanced bq -> balanced bq'.
Proof. intros E. destruct bq, bq'. unfold rest in E. simpl in E. by simplify_eq. Qed.

Lemma silence_rest bq bq' : rest bq' = rest bq -> bq_silence bq' = bq_silence bq.
Proof. intros E. unfold rest in E. congruence. Qed.

Lemma attr_flag b bq : flag_ok bq b -> attr_ok bq -> attr_ok (set_in_prebuf b bq).
Proof.
  intros Hf [[] ? Hfl]. split; [split|..]; try done. simpl. intros E.
  destruct (Hf E) as [?|?]; [by apply Hfl|done].
Qed.

(** The fields the balance is about. *)
Definition acct (bq : pa_memblockq) :=
  (bq_missing bq, bq_requested bq, bq_write_index bq, bq_read_index bq, bq_tlength bq).

Lemma balanced_acct bq bq' : acct bq' = acct bq -> balanced bq -> balanced bq'.
Proof. unfold acct, balanced. intros E. injection E as -> -> -> -> ->. done. Qed.

Lemma acct_prebuf p bq : acct (pa_memblockq_set_prebuf p bq) = acct bq.
Proof. unfold pa_memblockq_set_prebuf. cbv zeta. by destruct (_ || _). Qed.

Lemma acct_minreq m bq : acct (pa_memblockq_set_minreq m bq) = acct bq.
Proof. unfold pa_memblockq_set_minreq. cbv zeta. case_match; [|done]. by rewrite acct_prebuf. Qed.

Lemma balanced_prebuf p bq : balanced bq -> balanced (pa_memblockq_set_prebuf p bq).
Proof. apply balanced_acct, acct_prebuf. Qed.

Lemma balanced_minreq m bq : balanced bq -> balanced (pa_memblockq_set_minreq m bq).
Proof. apply balanced_acct, acct_minreq. Qed.

Lemma balanced_tlength t bq : balanced bq -> balanced (pa_memblockq_set_tlength t bq).
Proof.
  rewrite set_tlength_eq. cbv zeta. set (bq1 := if _ <? bq_minreq bq then _ else _).
  set (bq2 := if _ <? bq_prebuf bq1 then _ else _).
  assert (acct bq2 = acct (set_tlength (tlength_of bq t) bq)) as E.
  { subst bq2. transitivity (acct bq1); [case_match; by rewrite ?acct_prebuf|].
    subst bq1. case_match; by rewrite ?acct_minreq. }
  unfold acct, balanced in *. simpl in *. injection E as E1 E2 E3 E4 E5.
  rewrite E1, E2, E3, E4, E5. lia.
Qed.

Lemma balanced_maxlength l bq : balanced bq -> balanced (pa_memblockq_set_maxlength l bq).
Proof.
  intros H. unfold pa_memblockq_set_maxlength. cbv zeta. case_match; [|done]. by apply balanced_tlength.
Qed.
#[export] Hint Resolve balanced_tlength balanced_prebuf balanced_minreq balanced_maxlength : core.

(** The list part of a queue, which the setters leave alone. *)
Definition list_part (bq : pa_memblockq) :=
  (bq_blocks bq, bq_current_read bq, bq_current_write bq, bq_n_blocks bq, bq_silence bq).

Lemma list_part_wf bq bq' st : list_part bq' = list_part bq -> list_wf bq st -> list_wf bq' st.
Proof.
  intros E. destruct bq, bq'. unfold list_part in E. simpl in E. simplify_eq.
  intros [[] ?]. by repeat split.
Qed.

Lemma list_part_prebuf p bq : list_part (pa_memblockq_set_prebuf p bq) = list_part bq.
Proof. unfold pa_memblockq_set_prebuf. cbv zeta. by case_match. Qed.
Lemma list_part_minreq m bq : list_part (pa_memblockq_set_minreq m bq) = list_part bq.
Proof. unfold pa_memblockq_set_minreq. cbv zeta. case_match; [|done]. by rewrite list_part_prebuf. Qed.
Lemma list_part_missing v bq : list_part (set_missing v bq) = list_part bq.
Proof. done. Qed.
Lemma list_part_tlength t bq : list_part (pa_memblockq_set_tlength t bq) = list_part bq.
Proof.
  unfold pa_memblockq_set_tlength. cbv zeta. rewrite list_part_missing.
  repeat case_match; by rewrite ?list_part_prebuf, ?list_part_minreq.
Qed.
Lemma list_part_maxlength l bq : list_part (pa_memblockq_set_maxlength l bq) = list_part bq.
Proof. unfold pa_memblockq_set_maxlength. cbv zeta. case_match; [|done]. by rewrite list_part_tlength. Qed.

(** A setter keeps the invariant when it keeps the attributes and the
    balance. *)
Lemma inv_setter bq bq' st : queue_inv bq st -> list_part bq' = list_part bq ->
  attr_ok bq' -> balanced bq' -> queue_inv bq' st.
Proof.
  intros [H1 H2 H3 H4 H5] E Ha Hb. split; try done; [by apply (list_part_wf bq)|].
  intros j. specialize (H5 j). unfold owned in *. unfold list_part in E.
  assert (bq_blocks bq' = bq_blocks bq) as -> by congruence.
  assert (bq_silence bq' = bq_silence bq) as -> by congruence. done.
Qed.

Lemma inv_step bq st bq' st' : queue_inv bq st -> store_ok st' -> list_wf bq' st' ->
  attr_ok bq' -> balanced bq' -> bq_silence bq' = bq_silence bq ->
  (forall j, ext bq st j <= ext bq' st' j) -> queue_inv bq' st'.
Proof.
  intros [H1 H2 H3 H4 H5] ? ? ? ? Es Hx. split; try done. intros j.
  specialize (H5 j). specialize (Hx j). unfold owned, ext in *. rewrite Es. lia.
Qed.

(** ** Every command keeps the invariant *)

Lemma qi_base bq st : queue_inv bq st -> 0 < bq_base bq.
Proof. intros H. destruct (so_base _ (ao_sizes _ (qi_attr _ _ H))). lia. Qed.

Lemma qi_silence_alive bq st : queue_inv bq st -> silence_alive bq st.
Proof.
  intros H id Es. pose proof (qi_owned _ _ H id) as Ho. unfold owned in Ho.
  rewrite (chunk_refs_some _ _ Es) in Ho. pose proof (items_refs_nonneg (bq_blocks bq) id). lia.
Qed.

Lemma inv_push c bq st : queue_inv bq st -> cmd_ok (CPush c) bq st ->
  exists bq' st', run (CPush c) bq st = Ok (bq', st') /\ queue_inv bq' st' /\ keeps st st'.
Proof.
  intros H (Hc & Hr & Hl & Hi & Hroom). pose proof H as [H1 H2 H3 H4 H5].
  assert (push_pre bq c st) as Hp.
  { split; try done; [|by eapply qi_base]. intros j. specialize (Hr j). unfold owned in Hr.
    pose proof (chunk_refs_nonneg (bq_silence bq) j). lia. }
  simpl. destruct (can_push bq (mc_length c)) eqn:Ec.
  - destruct (push_spec bq c st Hp Ec) as (bq' & st' & E & Hok & K & Hw & R & X & _ & _).
    rewrite E. simpl. exists bq', st'. split_and!; try done.
    apply (inv_step bq st); try done.
    + apply (attr_rest _ _ R). destruct H3 as [[] ? ?]. split; [split|..]; done.
    + apply (balanced_rest _ _ R). unfold balanced, write_index_changed in *. simpl. lia.
    + by apply silence_rest in R.
    + intros j. by rewrite X.
  - rewrite push_eq, push_asserts_ok, Ec by done. simpl. exists bq, st.
    split_and!; done || apply keeps_refl.
Qed.

Lemma inv_peek bq st : queue_inv bq st -> cmd_ok CPeek bq st ->
  exists bq' st', run CPeek bq st = Ok (bq', st') /\ queue_inv bq' st' /\ keeps st st'.
Proof.
  intros H (Hri & Hwi & Hidx). pose proof H as [H1 H2 H3 H4 H5].
  destruct (peek_spec bq st) as (r & bq' & st' & E & Hok & K & Hw & B & R & F & Rf & _);
    try done; [by apply qi_silence_alive|].
  simpl. rewrite E. simpl. exists bq', st'. split_and!; try done.
  apply (inv_step bq st); try done.
  - apply (attr_rest _ _ R). by apply attr_flag.
  - by apply (balanced_rest _ _ R).
  - by apply silence_rest in R.
  - intros j. unfold ext. rewrite B, Rf. destruct r as [c|]; simpl; [|lia].
    pose proof (chunk_refs_nonneg c j). lia.
Qed.

(** Moving the read position, with the accounting done. *)
Lemma inv_moved bq st bq1 gone bq' st' : queue_inv bq st -> moved bq st bq1 ->
  trimmed bq1 st gone bq' st' -> queue_inv (read_index_changed (bq_read_index bq) bq') st'.
Proof.
  intros H (Hw1 & B1 & R1 & F1) (Hok & K & Hw & R & X & B).
  apply (inv_step bq st); try done.
  - destruct Hw as [[] ?]. by repeat split.
  - apply (attr_rest (set_missing (bq_missing (read_index_changed (bq_read_index bq) bq')) bq')); [done|].
    assert (attr_ok bq') as [[] ? ?]; [|split; [split|..]; done].
    apply (attr_rest _ _ R), (attr_rest _ _ R1). apply attr_flag; [done|].
    destruct (qi_attr _ _ H) as [[] ? ?]. split; [split|..]; done.
  - pose proof (qi_balance _ _ H). assert (rest bq' = rest bq1) as E by done.
    rewrite R1 in E. unfold rest in E. unfold balanced, read_index_changed in *. simpl in *.
    injection E as _ Ht _ _ _ _ Hri Hwi _ _ _ Hm Hq _. rewrite Ht. lia.
  - simpl. rewrite (silence_rest _ _ R). unfold rest in R1. simpl in R1. congruence.
  - intros j. transitivity (ext bq' st' j); [|done]. rewrite X. unfold ext. by rewrite B1.
Qed.

Lemma inv_drop len bq st : queue_inv bq st -> cmd_ok (CDrop len) bq st ->
  exists bq' st', run (CDrop len) bq st = Ok (bq', st') /\ queue_inv bq' st' /\ keeps st st'.
Proof.
  intros H [Hlen Hmod].
  destruct (drop_spec bq st len) as (bq1 & bq' & st' & gone & E & M & T & _);
    [apply H|apply H|by eapply qi_base|done..|].
  simpl. rewrite E. eexists _, _. split; [done|]. split; [by eapply inv_moved|]. apply T.
Qed.

Lemma inv_rewind len bq st : queue_inv bq st -> cmd_ok (CRewind len) bq st ->
  exists bq' st', run (CRewind len) bq st = Ok (bq', st') /\ queue_inv bq' st' /\ keeps st st'.
Proof.
  intros H Hmod. simpl in Hmod. simpl. unfold pa_memblockq_rewind.
  rewrite pa_assert_true by (apply Z.eqb_eq; done). simpl. eexists _, _. split; [done|].
  split; [|apply keeps_refl].
  apply (inv_moved bq st (set_read_index (bq_read_index bq - len) bq) []); [done| |].
  - split_and!; [apply wf_set_read_index, H|done|by destruct bq|by left].
  - apply trimmed_refl; [apply H|apply wf_set_read_index, H].
Qed.

(** Moving the write position to [w], after trimming, with the accounting
    done. *)
Lemma inv_write_moved bq st w gone bq' st' b account : queue_inv bq st -> flag_ok bq b ->
  trimmed bq st gone bq' st' ->
  queue_inv (write_index_changed (bq_write_index bq) account (set_in_prebuf b (set_write_index w bq'))) st'.
Proof.
  intros H Hf (Hok & K & Hw & R & X & B).
  apply (inv_step bq st); try done.
  - destruct Hw as [[] ?]. destruct account; by repeat split.
  - assert (attr_ok (set_in_prebuf b bq')) as Ha.
    { apply (attr_rest (set_in_prebuf b bq)); [|by apply attr_flag; [|apply H]].
      unfold rest in *. simpl. congruence. }
    destruct Ha as [[] ? ?]. destruct account; (split; [split|..]); done.
  - pose proof (qi_balance _ _ H). unfold rest in R.
    injection R as _ Ht _ _ _ _ Hri Hwi _ _ _ Hm Hq _.
    unfold balanced, write_index_changed in *. destruct account; simpl; rewrite Ht; lia.
  - destruct account; simpl; by apply silence_rest in R.
  - intros j. transitivity (ext bq' st' j); [by rewrite X|]. by destruct account.
Qed.

Lemma seek_eq bq st offset seek account : pa_memblockq_seek bq offset seek account st =
  ('(bq', st') ← drop_backlog (set_write_index (seek_target bq offset seek) bq) st;
   Ok (write_index_changed (bq_write_index bq) account bq', st')).
Proof. reflexivity. Qed.

Lemma drop_block_write_index w n bq st :
  drop_block n (set_write_index w bq) st
  = ('(bq', st') ← drop_block n bq st; Ok (set_write_index w bq', st')).
Proof.
  unfold drop_block. simpl. destruct (bq_blocks bq !! n); [|done]. simpl.
  destruct (pa_assert _); [|done..]. simpl. destruct (deref _); [|done..]. simpl.
  by destruct (pa_memblock_unref _ _).
Qed.

(** Trimming does not look at the write position. *)
Lemma drop_backlog_loop_write_index w fuel boundary : forall bq st,
  drop_backlog_loop fuel boundary (set_write_index w bq) st
  = ('(bq', st') ← drop_backlog_loop fuel boundary bq st; Ok (set_write_index w bq', st')).
Proof.
  induction fuel as [|fuel IH]; intros bq st; [done|]. simpl. destruct (bq_blocks bq); [done|].
  case_match; [|done]. rewrite drop_block_write_index.
  destruct (drop_block 0 bq st) as [[bq' st']| |]; [|done..]. simpl. apply IH.
Qed.

Lemma inv_seek offset seek account bq st : queue_inv bq st ->
  exists bq' st', run (CSeek offset seek account) bq st = Ok (bq', st') /\
    queue_inv bq' st' /\ keeps st st'.
Proof.
  intros H. simpl. rewrite seek_eq. unfold drop_backlog. simpl.
  rewrite drop_backlog_loop_write_index.
  destruct (drop_backlog_spec bq st) as (bq' & st' & gone & E & T & _); [apply H..|].
  unfold drop_backlog in E. rewrite E. simpl. eexists _, _. split; [done|]. split; [|apply T].
  pose proof (inv_write_moved bq st (seek_target bq offset seek) gone bq' st' (bq_in_prebuf bq)
    account H ltac:(by left) T) as Hi.
  assert (bq_in_prebuf bq' = bq_in_prebuf bq) as Ef
    by (destruct T as (_ & _ & _ & R & _); unfold rest in R; congruence).
  rewrite <- Ef in Hi. by destruct bq'.
Qed.

Lemma prebuf_force_flag bq : exists b, pa_memblockq_prebuf_force bq = set_in_prebuf b bq /\ flag_ok bq b.
Proof.
  unfold pa_memblockq_prebuf_force, flag_ok. destruct (Z.ltb_spec 0 (bq_prebuf bq)).
  - exists true. auto.
  - exists (bq_in_prebuf bq). split; [by destruct bq|by left].
Qed.

Lemma inv_flush_write account bq st : queue_inv bq st ->
  exists bq' st', run (CFlushWrite account) bq st = Ok (bq', st') /\
    queue_inv bq' st' /\ keeps st st'.
Proof.
  intros H. simpl. unfold pa_memblockq_flush_write.
  destruct (silence_spec bq st) as (bq' & st' & E & T & _); [apply H..|]. rewrite E. simpl.
  eexists _, _. split; [done|]. split; [|apply T].
  destruct (prebuf_force_flag (set_write_index (bq_read_index bq') bq')) as (b & Eb & Hf).
  rewrite Eb. assert (rest bq' = rest bq) as R by apply T.
  assert (bq_write_index bq' = bq_write_index bq) as -> by (unfold rest in R; congruence).
  eapply inv_write_moved; [done| |exact T]. intros Ht. destruct (Hf Ht) as [?|?]; simpl in *;
    unfold rest in R; [left|right]; congruence.
Qed.

Lemma inv_flush_read bq st : queue_inv bq st ->
  exists bq' st', run CFlushRead bq st = Ok (bq', st') /\ queue_inv bq' st' /\ keeps st st'.
Proof.
  intros H. simpl. unfold pa_memblockq_flush_read.
  destruct (silence_spec bq st) as (bq' & st' & E & T & _); [apply H..|]. rewrite E. simpl.
  eexists _, _. split; [done|]. split; [|apply T]. destruct T as (Hok & K & Hw & R & X & B).
  destruct (prebuf_force_flag (set_read_index (bq_write_index bq') bq')) as (b & Eb & Hf).
  rewrite Eb. assert (queue_inv bq' st') as H'.
  { apply (inv_step bq st); try done; [by apply (attr_rest _ _ R), H|by apply (balanced_rest _ _ R), H|
      by apply silence_rest in R|intros j; by rewrite X]. }
  eapply (inv_moved bq' st' (set_in_prebuf b (set_read_index (bq_write_index bq') bq')) []); [done| |].
  - split_and!; [by apply wf_set_in_prebuf, wf_set_read_index|done|done|done].
  - apply trimmed_refl; [done|by apply wf_set_in_prebuf, wf_set_read_index].
Qed.

Lemma inv_silence bq st : queue_inv bq st ->
  exists bq' st', run CSilence bq st = Ok (bq', st') /\ queue_inv bq' st' /\ keeps st st'.
Proof.
  intros H. simpl. destruct (silence_spec bq st) as (bq' & st' & E & T & _); [apply H..|].
  exists bq', st'. split; [done|]. split; [|apply T]. destruct T as (Hok & K & Hw & R & X & B).
  apply (inv_step bq st); try done; [by apply (attr_rest _ _ R), H|by apply (balanced_rest _ _ R), H|
    by apply silence_rest in R|intros j; by rewrite X].
Qed.

Lemma inv_pop_missing bq st : queue_inv bq st -> queue_inv (snd (pa_memblockq_pop_missing bq)) st.
Proof.
  intros H. unfold pa_memblockq_pop_missing. repeat case_match; try done. simpl.
  apply (inv_setter bq); try done.
  - destruct (qi_attr _ _ H) as [[] ? ?]. split; [split|..]; done.
  - pose proof (qi_balance _ _ H). unfold balanced in *. simpl. lia.
Qed.

Lemma inv_flag b bq st : queue_inv bq st -> flag_ok bq b -> queue_inv (set_in_prebuf b bq) st.
Proof.
  intros H Hf. apply (inv_setter bq); try done; [by apply attr_flag; [|apply H]|]. apply H.
Qed.

Lemma inv_willneed bq st : queue_inv bq st -> queue_inv (pa_memblockq_willneed bq) st.
Proof.
  intros H. pose proof (rest_fix_read bq) as R. apply (inv_step bq st); try apply H; try done.
  - apply wf_fix_read, H.
  - apply (attr_rest _ _ R), H.
  - apply (balanced_rest _ _ R), H.
  - by apply silence_rest in R.
  - intros j. unfold ext, pa_memblockq_willneed. by rewrite blocks_fix_read.
Qed.

Lemma attr_apply a bq : attr_ok bq -> cmd_ok (CApplyAttr a) bq (mk_store (mk_mempool 0 0 0 0 [] 0 0) ∅ 0 true) ->
  attr_ok (pa_memblockq_apply_attr a bq).
Proof.
  intros Ha (H1 & H2 & H3 & H4). unfold pa_memblockq_apply_attr.
  pose proof (set_maxlength_ok (a_maxlength a) bq Ha ltac:(unfold len_max; lia)) as Ha1.
  set (bq1 := pa_memblockq_set_maxlength _ bq) in *. clearbody bq1.
  pose proof (ao_sizes _ Ha1) as [Hb [? ?] [? ?] [? ?] _].
  assert (attr_ok (pa_memblockq_set_tlength (a_tlength a) bq1)) as Ha2.
  { apply set_tlength_ok; [by apply attr_lens|lia|done|left; unfold len_max; lia]. }
  set (bq2 := pa_memblockq_set_tlength _ bq1) in *. clearbody bq2.
  assert (attr_ok (pa_memblockq_set_minreq (a_minreq a) bq2)) as Ha3.
  { apply set_minreq_ok; [by apply attr_lens|apply (so_tlength _ (ao_sizes _ Ha2))|lia]. }
  apply set_prebuf_ok; [apply Ha3|left; unfold len_max; lia].
Qed.

(** Under any command that respects the contract the queue neither aborts nor
    touches memory it should not, and the invariant is kept. *)
Lemma run_inv k bq st : queue_inv bq st -> cmd_ok k bq st ->
  exists bq' st', run k bq st = Ok (bq', st') /\ queue_inv bq' st' /\ keeps st st'.
Proof.
  intros H Hk. pose proof (qi_attr _ _ H) as Ha. pose proof (qi_balance _ _ H) as Hb.
  pose proof (attr_lens _ Ha) as Hl. pose proof (ao_sizes _ Ha) as [? [? ?] Ht [? ?] _].
  pose proof Ht as [? _].
  assert (forall bq', queue_inv bq' st -> exists bq1 st', Ok (bq', st) = Ok (bq1, st') /\
    queue_inv bq1 st' /\ keeps st st') as Hret
    by (intros bq' Hq; exists bq', st; split_and!; done || apply keeps_refl).
  destruct k; [by apply inv_push|by apply inv_peek|by apply inv_drop|by apply inv_rewind|
    by apply inv_seek|by apply inv_flush_write|by apply inv_flush_read|by apply inv_silence|..];
    apply Hret; simpl in Hk.
  - by apply inv_pop_missing.
  - apply inv_flag; [done|by intros ?].
  - destruct (prebuf_force_flag bq) as (b & -> & ?). by apply inv_flag.
  - by apply inv_willneed.
  - apply (inv_setter bq); [done|apply list_part_maxlength|by apply set_maxlength_ok|by auto].
  - apply (inv_setter bq); [done|apply list_part_tlength| |by auto].
    apply set_tlength_ok; [done|lia|done|done].
  - apply (inv_setter bq); [done|apply list_part_minreq|by apply set_minreq_ok|by auto].
  - apply (inv_setter bq); [done|apply list_part_prebuf| |by auto].
    apply set_prebuf_ok; [apply Ha|]. unfold len_max in *. lia.
  - apply (inv_setter bq); [done|done|by apply set_maxrewind_ok|done].
  - apply (inv_setter bq); [done| |by apply attr_apply|].
    + unfold pa_memblockq_apply_attr.
      by rewrite list_part_prebuf, list_part_minreq, list_part_tlength, list_part_maxlength.
    + unfold pa_memblockq_apply_attr. by auto.
Qed.

(** ** A fresh queue *)

Definition new_args_ok (maxlength tlength prebuf minreq maxrewind : Z) : Prop :=
  0 <= maxlength <= len_max - 2 ^ 31 /\ (0 <= tlength <= len_max \/ tlength = SIZE_MAX) /\
  (0 <= prebuf <= len_max \/ prebuf = SIZE_MAX) /\ 0 <= minreq < 2 ^ 64 /\ 0 <= maxrewind < 2 ^ 64.

Lemma base_blank base idx spec m :
  bq_base (mk_memblockq [] None None 0 0 0 base 0 0 0 idx idx true pa_memchunk_reset m 0 0 spec) = base.
Proof. done. Qed.

Lemma blank_maxlength base idx spec m l : 0 < base <= 128 -> 0 <= l <= len_max - 2 ^ 31 ->
  exists ml, frames_in base base (len_max + 2 ^ 31) ml /\
  pa_memblockq_set_maxlength l
    (mk_memblockq [] None None 0 0 0 base 0 0 0 idx idx true pa_memchunk_reset m 0 0 spec)
  = mk_memblockq [] None None 0 ml 0 base 0 0 0 idx idx true pa_memchunk_reset m 0 0 spec.
Proof.
  intros Hb Hl. unfold pa_memblockq_set_maxlength. simpl. unfold len_max in *.
  destruct (round_up_frames base l ltac:(lia) ltac:(unfold len_max; lia)) as [Hr Hrm]. cbv zeta in *.
  set (r := u64 _) in *. set (r1 := if r <? base then base else r).
  assert (frames_in base base (2 ^ 62 + 2 ^ 31) r1) as H1.
  { subst r1. split; destruct (Z.ltb_spec r base); lia || done || (apply base_mod; lia). }
  exists r1. split; [done|]. destruct H1. rewrite (proj2 (Z.ltb_ge r1 0)) by lia. done.
Qed.

Lemma blank_tlength base idx spec m ml t : 0 < base <= 128 ->
  frames_in base base (len_max + 2 ^ 31) ml -> 0 <= t <= len_max \/ t = SIZE_MAX ->
  exists tl, frames_in base base ml tl /\
  pa_memblockq_set_tlength t
    (mk_memblockq [] None None 0 ml 0 base 0 0 0 idx idx true pa_memchunk_reset m 0 0 spec)
  = mk_memblockq [] None None 0 ml tl base 0 0 0 idx idx true pa_memchunk_reset m (s64 tl) 0 spec.
Proof.
  intros Hb Hml Ht. rewrite set_tlength_eq. set (bq := mk_memblockq _ _ _ _ _ _ _ _ _ _ _ _ _ _ _ _ _ _).
  pose proof (tlength_of_range bq t ltac:(simpl; lia) Hml Ht) as [Hr Hm].
  simpl in Hr, Hm. exists (tlength_of bq t). split; [by split|].
  set (tl := tlength_of bq t) in *. clearbody tl. destruct Hml as [Hml _]. unfold len_max in *.
  simpl. rewrite (proj2 (Z.ltb_ge tl 0)) by lia. simpl.
  rewrite (u64_small (tl + base)), (u64_small (tl + base - 0)), (proj2 (Z.ltb_ge _ 0)) by lia. simpl.
  unfold set_missing. simpl. f_equal. change (s64 0) with 0. lia.
Qed.

Lemma sizes_rest bq bq' : rest bq' = rest bq -> sizes_ok bq -> sizes_ok bq'.
Proof.
  intros E. destruct bq, bq'. unfold rest in E. simpl in E. simplify_eq. intros []. split; done.
Qed.

(** The chunk of silence a queue is created with, if any, is alive. *)
Definition silence_arg_ok (silence : option pa_memchunk) (st : store) : Prop :=
  match silence with
  | Some s => exists id, mc_memblock s = Some id /\ 0 < refs st id
  | None => True
  end.

(** The attribute part of the constructor. *)
Definition new_attrs (base idx maxlength tlength : Z) (spec : pa_sample_spec)
    (prebuf minreq maxrewind : Z) : pa_memblockq :=
  pa_memblockq_set_maxrewind maxrewind (pa_memblockq_set_prebuf prebuf
    (pa_memblockq_set_minreq minreq (pa_memblockq_set_tlength tlength
      (pa_memblockq_set_maxlength maxlength
        (mk_memblockq [] None None 0 0 0 base 0 0 0 idx idx true pa_memchunk_reset
           (mk_mcalign 0 pa_memchunk_reset pa_memchunk_reset) 0 0 spec))))).

Lemma blank_minreq base idx spec m ml tl x : 0 < base <= 128 ->
  frames_in base base (len_max + 2 ^ 31) ml -> frames_in base base ml tl -> 0 <= x < 2 ^ 64 ->
  exists r, frames_in base base tl r /\
  pa_memblockq_set_minreq x
    (mk_memblockq [] None None 0 ml tl base 0 0 0 idx idx true pa_memchunk_reset m (s64 tl) 0 spec)
  = mk_memblockq [] None None 0 ml tl base 0 r 0 idx idx true pa_memchunk_reset m (s64 tl) 0 spec.
Proof.
  intros Hb [Hml _] [Htl Htm] Hx. pose proof (minreq_range base tl x ltac:(lia) Htm Hx) as Hr.
  cbv zeta in Hr. unfold pa_memblockq_set_minreq. simpl.
  set (r := if (if _ <? _ then _ else _) <? _ then _ else _) in *. clearbody r.
  exists r. split; [done|]. destruct Hr as [Hr _]. unfold len_max in *.
  rewrite (u64_small (tl + base)), (u64_small (_ - r)), (proj2 (Z.ltb_ge _ 0)) by lia. done.
Qed.

Lemma new_attrs_spec base idx maxlength tlength spec prebuf minreq maxrewind :
  0 < base <= 128 -> new_args_ok maxlength tlength prebuf minreq maxrewind ->
  let bq := new_attrs base idx maxlength tlength spec prebuf minreq maxrewind in
  attr_ok bq /\ balanced bq /\ bq_base bq = base /\
  list_part bq = ([], None, None, 0, pa_memchunk_reset) /\
  bq_read_index bq = idx /\ bq_write_index bq = idx.
Proof.
  intros Hb (Hml & Htl & Hpb & Hmr & Hmw). unfold new_attrs. cbv zeta.
  destruct (blank_maxlength base idx spec (mk_mcalign 0 pa_memchunk_reset pa_memchunk_reset) maxlength)
    as (ml & Fml & ->); [done..|].
  destruct (blank_tlength base idx spec (mk_mcalign 0 pa_memchunk_reset pa_memchunk_reset) ml tlength)
    as (tl & Ftl & ->); [done..|].
  destruct (blank_minreq base idx spec (mk_mcalign 0 pa_memchunk_reset pa_memchunk_reset) ml tl minreq)
    as (r & Fr & ->); [done..|].
  set (bq0 := mk_memblockq _ _ _ _ _ _ _ _ _ _ _ _ _ _ _ _ _ _).
  assert (attr_ok (pa_memblockq_set_prebuf prebuf bq0)) as Ha.
  { apply set_prebuf_ok; [|unfold len_max in *; lia]. split; simpl; try done. lia. }
  pose proof (list_part_prebuf prebuf bq0) as El. pose proof (acct_prebuf prebuf bq0) as Eac.
  assert (bq_base (pa_memblockq_set_prebuf prebuf bq0) = base) as Eb.
  { unfold pa_memblockq_set_prebuf. cbv zeta. by case_match. }
  set (bq1 := pa_memblockq_set_prebuf _ _) in *. clearbody bq1.
  unfold acct in Eac. simpl in Eac. injection Eac as Emi Erq Ewi Eri Etl.
  split_and!; try done; [by apply set_maxrewind_ok|].
  unfold balanced. simpl. rewrite Emi, Erq, Ewi, Eri, Etl. lia.
Qed.

Lemma new_silence silence bq st : store_ok st -> silence_arg_ok silence st ->
  bq_silence bq = pa_memchunk_reset ->
  exists s st', match silence with
    | Some s => id ← deref (mc_memblock s); st ← pa_memblock_ref id st; Ok (set_silence s bq, st)
    | None => Ok (bq, st)
    end = Ok (set_silence s bq, st') /\ store_ok st' /\ keeps st st' /\
    forall j, chunk_refs s j <= refs st' j.
Proof.
  intros Hok Hsil Es0. destruct silence as [s|].
  - destruct Hsil as (id & Es & Hr). destruct (pa_memblock_ref_spec st id Hok Hr) as (st' & E & Hok' & K & R).
    rewrite Es. simpl. rewrite E. simpl. eexists _, _. split_and!; try done.
    intros j. rewrite R. unfold chunk_refs. rewrite Es.
    pose proof (refs_nonneg st j ltac:(apply Hok)). lia.
  - exists pa_memchunk_reset, st. split_and!; try done; [rewrite <- Es0; by destruct bq|].
    intros j. apply refs_nonneg, Hok.
Qed.

Lemma new_eq idx maxlength tlength spec prebuf minreq maxrewind silence st :
  pa_memblockq_new idx maxlength tlength spec prebuf minreq maxrewind silence st =
  (base ← pa_frame_size spec;
   let bq := new_attrs base idx maxlength tlength spec prebuf minreq maxrewind in
   '(bq, st) ← match silence with
    | Some s => id ← deref (mc_memblock s); st ← pa_memblock_ref id st; Ok (set_silence s bq, st)
    | None => Ok (bq, st)
    end;
   m ← pa_mcalign_new (bq_base bq);
   Ok (set_mcalign m bq, st)).
Proof. reflexivity. Qed.

Lemma new_finish silence bq st base : store_ok st -> silence_arg_ok silence st -> 0 < base ->
  attr_ok bq -> balanced bq -> bq_base bq = base ->
  list_part bq = ([], None, None, 0, pa_memchunk_reset) ->
  exists bq' st',
   ('(bq, st) ← match silence with
    | Some s => id ← deref (mc_memblock s); st ← pa_memblock_ref id st; Ok (set_silence s bq, st)
    | None => Ok (bq, st)
    end;
    m ← pa_mcalign_new (bq_base bq);
    Ok (set_mcalign m bq, st)) = Ok (bq', st') /\
    queue_inv bq' st' /\ keeps st st' /\ bq_blocks bq' = [] /\
    bq_read_index bq' = bq_read_index bq /\ bq_write_index bq' = bq_write_index bq /\
    bq_base bq' = base.
Proof.
  intros Hok Hsil Hbase Ha Hb Eb El.
  unfold list_part in El. injection El as Eblk Ecr Ecw En Esi.
  destruct (new_silence silence bq st Hok Hsil Esi) as (s & st' & -> & Hok' & K & Hs').
  simpl. unfold pa_mcalign_new. simpl.
  rewrite pa_assert_true by (rewrite Eb; apply negb_true_iff, Z.eqb_neq; lia).
  eexists _, _. split; [done|]. split; [|by simpl; rewrite Eblk, Eb].
  split; try done.
  - split; [split|]; simpl; rewrite ?Eblk, ?Ecr, ?Ecw, ?En; try done; try constructor.
    intros j. apply refs_nonneg, Hok'.
  - destruct Ha as [[] ? ?]. split; [split|..]; done.
  - intros j. unfold owned. simpl. rewrite Eblk. apply Hs'.
Qed.

Lemma new_spec idx maxlength tlength spec prebuf minreq maxrewind silence st :
  store_ok st -> spec_ok spec -> new_args_ok maxlength tlength prebuf minreq maxrewind ->
  silence_arg_ok silence st ->
  exists bq st', pa_memblockq_new idx maxlength tlength spec prebuf minreq maxrewind silence st
      = Ok (bq, st') /\ queue_inv bq st' /\ keeps st st' /\
    bq_blocks bq = [] /\ bq_read_index bq = idx /\ bq_write_index bq = idx /\
    bq_base bq = frame_size spec.
Proof.
  intros Hok Hs Hargs Hsil. pose proof (frame_size_bound _ Hs) as Hfs.
  assert (0 < frame_size spec <= 128) as Hfs' by lia.
  destruct (new_attrs_spec (frame_size spec) idx maxlength tlength spec prebuf minreq maxrewind
    Hfs' Hargs) as (Ha & Hb & Eb & El & Eri & Ewi).
  destruct (new_finish silence _ st _ Hok Hsil (proj1 Hfs') Ha Hb Eb El)
    as (bq & st' & E & Hi & K & B & Er & Ew & Ebb).
  exists bq, st'. rewrite Eri in Er. rewrite Ewi in Ew.
  rewrite new_eq, (pa_frame_size_ok _ Hs), bind_ok. split; [exact E|]. split_and!; assumption.
Qed.

(** ** The rest of the program *)

(** What others do with the memory pool does not concern the queue as long as
    they leave it its references. *)
Lemma inv_env bq st st' : queue_inv bq st -> store_ok st' -> keeps st st' ->
  (forall j, owned bq j <= refs st' j) -> queue_inv bq st'.
Proof.
  intros [H1 [[M1 M2 M3 M4 M5 M6] Hs] H3 H4 H5] Hok K Ho.
  assert (forall j, items_refs (bq_blocks bq) j <= refs st' j) as Hr.
  { intros j. specialize (Ho j). unfold owned in Ho.
    pose proof (chunk_refs_nonneg (bq_silence bq) j). lia. }
  split; try done. split; [|done]. split; try done.
  apply (items_in_keeps st); [done..|]. intros j Hj. specialize (Hr j). lia.
Qed.
