(* ===== verification/MemblockqAlign.v ===== *)
(** * MemblockqAlign: pushing chunks of any length

    [pa_memblockq_push_align] puts the aligner of [mcalign.c] in front of
    [pa_memblockq_push]: what it does with a chunk when nothing is left over
    from the last one, and what when something is. *)
From stdpp Require Import base tactics numbers list gmap sorting.
From S2P Require Import Prelude Sample Memblock Mcalign Memblockq MemblockqSpec MemblockqPush.
From S2P Require Import MemblockqWrite MemblockqRead MemblockqAttr MemblockqInv.

Lemma cmd_push_pre q c st : queue_inv q st -> cmd_ok (CPush c) q st -> push_pre q c st.
Proof.
  intros Hq (Hcin & Hr & Hl & Hix & Hroom). split; try done; [apply Hq..| |by eapply qi_base].
  intros j. specialize (Hr j). unfold owned in Hr. pose proof (chunk_refs_nonneg (bq_silence q) j). lia.
Qed.

(** The fields a push does not change. *)
Definition fixed (q : pa_memblockq) :=
  (bq_base q, bq_maxlength q, bq_read_index q, bq_silence q).

Lemma push_both q c st : queue_inv q st -> cmd_ok (CPush c) q st ->
  exists r q' st', pa_memblockq_push q c st = Ok (r, (q', st')) /\
    queue_inv q' st' /\ keeps st st' /\ fixed q' = fixed q /\
    (forall j, ext q' st' j = ext q st j) /\
    (length (bq_blocks q') <= length (bq_blocks q) + 2)%nat /\
    if can_push q (mc_length c)
    then r = 0 /\ bq_write_index q' = bq_write_index q + mc_length c /\
         forall i, stream q' st' i = written q c st i
    else r = -1 /\ q' = q /\ st' = st.
Proof.
  intros Hq Hc. destruct (inv_push c q st Hq Hc) as (q1 & st1 & E1 & Hi & K).
  pose proof (cmd_push_pre q c st Hq Hc) as Hp.
  destruct (can_push q (mc_length c)) eqn:Ec.
  - destruct (push_spec q c st Hp Ec) as (q' & st' & E & _ & K' & _ & R & X & C & L & _).
    simpl in E1. rewrite E in E1. simpl in E1. injection E1 as <- <-.
    unfold rest in R. simpl in R. injection R as Rm _ Rb _ _ _ Rr Rw _ Rs _ _ _ _.
    exists 0, q', st'. split_and!; try done. unfold fixed. congruence.
  - exists (-1), q, st. split_and!; try done; [|lia].
    by rewrite push_eq, push_asserts_ok, Ec by done.
Qed.

(** And the ones that say when it can be read. *)
Definition reading_attrs (q : pa_memblockq) := (bq_mcalign q, bq_prebuf q, bq_in_prebuf q, bq_maxrewind q).

(** The limits that no push touches. *)
Definition limits (q : pa_memblockq) := (bq_maxlength q, bq_prebuf q, bq_in_prebuf q, bq_maxrewind q).

Lemma push_attrs q c st r q' st' : queue_inv q st -> cmd_ok (CPush c) q st ->
  pa_memblockq_push q c st = Ok (r, (q', st')) -> reading_attrs q' = reading_attrs q.
Proof.
  intros Hq Hc E. pose proof (cmd_push_pre q c st Hq Hc) as Hp.
  destruct (can_push q (mc_length c)) eqn:Ec.
  - destruct (push_spec q c st Hp Ec) as (q1 & st1 & E1 & _ & _ & _ & R & _). rewrite E in E1. simplify_eq.
    unfold rest in R. simpl in R. unfold reading_attrs. congruence.
  - rewrite push_eq, push_asserts_ok, Ec in E by done. simpl in E. by simplify_eq.
Qed.

(** Nor does it change how many bytes are still to be asked for. *)
Lemma push_missing q c st r q' st' : queue_inv q st -> cmd_ok (CPush c) q st ->
  pa_memblockq_push q c st = Ok (r, (q', st')) -> bq_missing q' = bq_missing q.
Proof.
  intros Hq Hc E. pose proof (cmd_push_pre q c st Hq Hc) as Hp.
  destruct (can_push q (mc_length c)) eqn:Ec.
  - destruct (push_spec q c st Hp Ec) as (q1 & st1 & E1 & _ & _ & _ & R & _). rewrite E in E1. simplify_eq.
    unfold rest in R. simpl in R. congruence.
  - rewrite push_eq, push_asserts_ok, Ec in E by done. simpl in E. by simplify_eq.
Qed.

(** A push of whole frames at a frame boundary leaves whole frames. *)
Lemma push_frames q c st r q' st' b : queue_inv q st -> cmd_ok (CPush c) q st ->
  pa_memblockq_push q c st = Ok (r, (q', st')) -> 0 < b -> bq_write_index q mod b = 0 -> mc_index c mod b = 0 ->
  mc_length c mod b = 0 -> Forall (item_frames b) (bq_blocks q) -> Forall (item_frames b) (bq_blocks q').
Proof.
  intros Hq Hc E Hb H1 H2 H3 Hf. pose proof (cmd_push_pre q c st Hq Hc) as Hp.
  destruct (can_push q (mc_length c)) eqn:Ec.
  - destruct (push_spec q c st Hp Ec) as (q1 & st1 & E1 & _ & _ & _ & _ & _ & _ & _ & F). rewrite E in E1. simplify_eq.
    by apply F.
  - rewrite push_eq, push_asserts_ok, Ec in E by done. simpl in E. by simplify_eq.
Qed.

Lemma inv_mcalign m bq st : queue_inv bq st -> queue_inv (set_mcalign m bq) st.
Proof.
  intros H. apply (inv_setter bq); [done|by destruct bq| |].
  - destruct (qi_attr _ _ H) as [[] ? ?]. split; [split|..]; done.
  - apply (balanced_acct bq); [by destruct bq|apply H].
Qed.

#[local] Arguments push_align_loop : simpl never.
#[local] Arguments can_push : simpl never.
#[local] Arguments pa_mcalign_pop : simpl never.

Lemma align_loop_eq fuel bq st : push_align_loop (S fuel) bq st =
  '(r, (m, st)) ← pa_mcalign_pop (bq_mcalign bq) st;
  match r with
  | None => Ok (0, (set_mcalign m bq, st))
  | Some rchunk =>
      '(r, (bq, st)) ← pa_memblockq_push (set_mcalign m bq) rchunk st;
      id ← deref (mc_memblock rchunk);
      st ← pa_memblock_unref id st;
      if r <? 0 then '(m, st) ← pa_mcalign_flush (bq_mcalign bq) st; Ok (-1, (set_mcalign m bq, st))
      else push_align_loop fuel bq st
  end.
Proof. done. Qed.

(** Nothing waits in the aligner. *)
Definition aligner_empty (m : pa_mcalign) : Prop :=
  isset (ma_leftover m) = false /\ isset (ma_current m) = false.

(** The contract: as for a push, but for the length of the chunk. *)
Record align_pre (bq : pa_memblockq) (c : pa_memchunk) (st : store) : Prop := {
  al_inv : queue_inv bq st;
  al_base : ma_base (bq_mcalign bq) = bq_base bq;
  al_chunk : chunk_in st c;
  al_refs : forall j, owned bq j + held (bq_mcalign bq) j + chunk_refs c j <= refs st j;
  al_index : mc_index c mod bq_base bq = 0;
  al_room : Z.of_nat (length (bq_blocks bq)) + 2 < 2 ^ 32
}.

(** The whole frames of a chunk, and what is left over. *)
Definition whole (bq : pa_memblockq) (c : pa_memchunk) : Z := mc_length c / bq_base bq * bq_base bq.
Definition head_part (bq : pa_memblockq) (c : pa_memchunk) : pa_memchunk :=
  mk_chunk (mc_memblock c) (mc_index c) (whole bq c).
Definition tail_part (bq : pa_memblockq) (c : pa_memchunk) : pa_memchunk :=
  if whole bq c =? mc_length c then pa_memchunk_reset
  else mk_chunk (mc_memblock c) (mc_index c + whole bq c) (mc_length c - whole bq c).

Lemma whole_bound bq c : 0 < bq_base bq -> 0 < mc_length c ->
  0 <= whole bq c <= mc_length c /\ mc_length c - whole bq c < bq_base bq /\ whole bq c mod bq_base bq = 0 /\
  (whole bq c = 0 <-> mc_length c < bq_base bq).
Proof.
  intros Hb Hl. unfold whole. pose proof (Z.div_mod (mc_length c) (bq_base bq) ltac:(lia)) as E.
  pose proof (Z.mod_pos_bound (mc_length c) (bq_base bq) Hb). rewrite Z.mod_mul by lia.
  set (q := mc_length c / bq_base bq) in *. assert (0 <= q) by (apply Z.div_pos; lia).
  split_and!; try nia. split; intros; (assert (q = 0) as E0 by nia); rewrite E0 in *; lia.
Qed.

Section fresh_push.
Context (bq : pa_memblockq) (c : pa_memchunk) (st : store).
Hypothesis Hpre : align_pre bq c st.
Hypothesis Hempty : aligner_empty (bq_mcalign bq).
Let n := whole bq c.
Let lo := tail_part bq c.

Lemma fresh_head_in : 0 < n -> chunk_in st (head_part bq c).
Proof.
  intros Hn. destruct Hpre as [H1 H2 (id & E & Hr & Hi & Hl & Hb) H4 H5 H6].
  pose proof (whole_bound bq c (qi_base _ _ H1) Hl). exists id. simpl. fold n. unfold n in *. split_and!; try done; lia.
Qed.

Lemma fresh_refs j : held (bq_mcalign bq) j = 0.
Proof. destruct Hempty as [E1 E2]. unfold held. by rewrite !unset_refs. Qed.

(** Pushing into the aligner and taking the whole frames out again. *)
Lemma fresh_align : exists m1 st1, pa_mcalign_push (bq_mcalign bq) c st = Ok (m1, st1) /\
  store_ok st1 /\ keeps st st1 /\
  (if n =? 0 then
     pa_mcalign_pop m1 st1 = Ok (None, (mk_mcalign (bq_base bq) c (ma_current (bq_mcalign bq)), st1)) /\
     forall j, refs st1 j = refs st j + chunk_refs c j
   else exists st2, pa_mcalign_pop m1 st1 =
       Ok (Some (head_part bq c), (mk_mcalign (bq_base bq) (if n =? mc_length c then ma_leftover (bq_mcalign bq) else lo)
          pa_memchunk_reset, st2)) /\
     store_ok st2 /\ keeps st st2 /\ forall j, refs st2 j = refs st j + chunk_refs c j + chunk_refs lo j).
Proof.
  destruct Hpre as [H1 H2 H3 H4 H5 H6]. destruct Hempty as [E1 E2]. pose proof (qi_base _ _ H1) as Hb.
  pose proof (chunk_in_bound _ _ (qi_store _ _ H1) H3) as (Hbi & Hbl & Hbs).
  destruct H3 as (id & Em & Hr & Hi & Hl & Hlen). pose proof (whole_bound bq c Hb Hl) as (Hw1 & Hw2 & Hw3 & Hw4).
  fold n in Hw1, Hw2, Hw3, Hw4. pose proof (isset_some _ _ Em) as Es.
  destruct (pa_memblock_ref_spec st id (qi_store _ _ H1) Hr) as (st1 & F1 & Hok1 & K1 & R1).
  assert (forall j, chunk_refs c j = delta id 1 j) as Hcr by (intros j; unfold chunk_refs; by rewrite Em).
  assert (0 < refs st1 id) as Hr1 by (rewrite R1; pose proof (delta_nonneg id 1 id); lia).
  unfold pa_mcalign_push. rewrite Es, E2, Em, (isset_false _ E1). rewrite (pa_assert_true (0 <? _)) by lia. simpl.
  rewrite F1. simpl. rewrite H2.
  destruct (Z.leb_spec (bq_base bq) (mc_length c)) as [Hge|Hlt].
  - eexists _, st1. split; [done|]. split; [done|]. split; [done|].
    destruct (Z.eqb_spec n 0); [lia|].
    destruct (pa_memblock_ref_spec st1 id Hok1 Hr1) as (st2 & F2 & Hok2 & K2 & R2).
    assert (keeps st st2) as K02 by (apply (keeps_trans st st1); [apply H1|apply Hok1|done..]).
    assert (forall j, refs st2 j = refs st j + chunk_refs c j + delta id 1 j) as R02 by (intros j; rewrite R2, R1, Hcr; lia).
    unfold pa_mcalign_pop. simpl. rewrite E1, Em. simpl.
    rewrite (pa_assert_true (bq_base bq <=? _)) by blia. simpl. fold n. fold (whole bq c). fold n.
    rewrite (u64_small n) by lia. rewrite (pa_assert_true (0 <? n)) by blia. simpl. rewrite F2. simpl.
    rewrite (pa_assert_true (n <=? _)) by blia. simpl. rewrite (u64_small (mc_length c - n)) by lia.
    unfold lo, tail_part. fold n. destruct (Z.eqb_spec n (mc_length c)) as [En|En].
    + rewrite (proj2 (Z.eqb_eq _ _)) by lia.
      destruct (pa_memblock_unref_spec st2 id Hok2) as (st3 & F3 & Hok3 & K3 & _ & R3).
      { rewrite R2. pose proof (delta_nonneg id 1 id). lia. }
      rewrite F3. simpl. exists st3. unfold head_part. rewrite Em. fold n. split_and!; try done.
      * apply (keeps_trans st st2); [apply H1|apply Hok2|done..].
      * intros j. rewrite R3, R02. change (chunk_refs pa_memchunk_reset j) with 0. unfold delta. case_decide; lia.
    + rewrite (proj2 (Z.eqb_neq _ _)) by lia. rewrite pa_assert_true by blia. simpl.
      rewrite u64_small by lia. exists st2. unfold head_part. rewrite Em. fold n. split_and!; try done.
  - eexists _, st1. split; [done|]. split; [done|]. split; [done|].
    rewrite (proj2 (Z.eqb_eq n 0)) by lia. split; [|intros j; by rewrite R1, Hcr].
    unfold pa_mcalign_pop. simpl. rewrite Es. rewrite (pa_assert_true (0 <? _)) by blia.
    rewrite (pa_assert_true (_ <=? _)) by blia. simpl. by rewrite (proj2 (Z.ltb_lt _ _)) by lia.
Qed.

Lemma fresh_room : can_push bq n = false -> pa_memblockq_push_align bq c st = Ok (-1, (bq, st)).
Proof.
  intros Ec. destruct Hpre as [H1 H2 H3 H4 H5 H6]. destruct Hempty as [E1 E2].
  pose proof (qi_base _ _ H1) as Hb. pose proof (chunk_in_bound _ _ (qi_store _ _ H1) H3) as (_ & Hbl & _).
  pose proof (whole_bound bq c Hb ltac:(lia)) as (Hw1 & Hw2 & Hw3 & Hw4). fold n in Hw1, Hw2, Hw3, Hw4.
  unfold pa_memblockq_push_align. destruct (Z.eqb_spec (bq_base bq) 1) as [E|E].
  - assert (n = mc_length c) as En by (unfold n, whole; rewrite E, Z.div_1_r; lia). rewrite push_eq, push_asserts_ok.
    + by rewrite <- En, Ec.
    + split; try done; try apply H1; [|by rewrite E, Z.mod_1_r].
      intros j. specialize (H4 j). rewrite fresh_refs in H4. unfold owned in H4.
      pose proof (chunk_refs_nonneg (bq_silence bq) j). lia.
  - unfold pa_mcalign_csize. rewrite E1, E2, H2. rewrite (pa_assert_true (0 <? _)) by blia. simpl.
    change (mc_length c / bq_base bq * bq_base bq) with n. rewrite (u64_small n) by lia. by rewrite Ec.
Qed.

(** The queue and the aligner after the call. *)
Record align_post (bq' : pa_memblockq) (st' : store) : Prop := {
  ap_inv : queue_inv bq' st';
  ap_keeps : keeps st st';
  ap_base : bq_base bq' = bq_base bq;
  ap_leftover : ma_base (bq_mcalign bq') = bq_base bq /\ isset (ma_current (bq_mcalign bq')) = false /\
    if n =? mc_length c then isset (ma_leftover (bq_mcalign bq')) = false else ma_leftover (bq_mcalign bq') = lo;
  ap_index : bq_write_index bq' = bq_write_index bq + n /\ bq_read_index bq' = bq_read_index bq;
  ap_stream i : stream bq' st' i = if n =? 0 then stream bq st i else written bq (head_part bq c) st i;
  ap_refs j : ext bq' st' j = ext bq st j + chunk_refs lo j;
  ap_silence : bq_silence bq' = bq_silence bq;
  ap_attrs : limits bq' = limits bq;
  ap_missing : bq_missing bq' = bq_missing bq;
  ap_nodes : (length (bq_blocks bq') <= length (bq_blocks bq) + 2)%nat;
  ap_frames : bq_write_index bq mod bq_base bq = 0 -> Forall (item_frames (bq_base bq)) (bq_blocks bq) ->
    Forall (item_frames (bq_base bq)) (bq_blocks bq')
}.

Lemma written_keeps m (st2 : store) i : keeps st st2 -> queue_inv bq st2 -> 0 < n ->
  (forall id, mc_memblock c = Some id -> 0 < refs st2 id) ->
  written (set_mcalign m bq) (head_part bq c) st2 i = written bq (head_part bq c) st i.
Proof.
  intros K Hq Hn Hal. destruct Hpre as [H1 H2 H3 H4 H5 H6]. unfold written. simpl.
  assert (forall i, stream (set_mcalign m bq) st2 i = stream bq st i) as Hs.
  { intros i'. apply content_keeps; [done| |]; [apply (lw_items _ _ (proj1 (qi_list _ _ H1)))|
      apply (lw_items _ _ (proj1 (qi_list _ _ Hq)))]. }
  rewrite !Hs. destruct (chunk_in_keeps st st2 (head_part bq c) K (fresh_head_in Hn)) as [_ Hb]; [done|].
  by rewrite Hb.
Qed.

Lemma lo_refs j : 0 <= chunk_refs lo j <= chunk_refs c j.
Proof.
  unfold lo, tail_part. case_match.
  - change (chunk_refs pa_memchunk_reset j) with 0. pose proof (chunk_refs_nonneg c j). lia.
  - unfold chunk_refs. simpl. destruct (mc_memblock c); [unfold delta; case_decide|]; lia.
Qed.

(** Taking references only adds. *)
Lemma more_refs st2 m : store_ok st2 -> keeps st st2 -> (forall j, refs st j <= refs st2 j) ->
  queue_inv (set_mcalign m bq) st2.
Proof.
  intros Hok K R. destruct Hpre as [H1 H2 H3 H4 H5 H6]. apply inv_mcalign, (inv_env bq st); try done.
  intros j. pose proof (qi_owned _ _ H1 j). specialize (R j). lia.
Qed.

(** What is left over is too short to come out. *)
Lemma pop_rest st4 : let m := mk_mcalign (bq_base bq) (if n =? mc_length c then ma_leftover (bq_mcalign bq) else lo)
    pa_memchunk_reset in
  pa_mcalign_pop m st4 = Ok (None, (m, st4)) /\
  isset (ma_current m) = false /\
  (if n =? mc_length c then isset (ma_leftover m) = false else ma_leftover m = lo).
Proof.
  destruct Hpre as [H1 H2 H3 H4 H5 H6]. destruct Hempty as [E1 E2]. pose proof (qi_base _ _ H1) as Hb.
  pose proof (chunk_in_bound _ _ (qi_store _ _ H1) H3) as (_ & Hbl & _).
  pose proof (whole_bound bq c Hb ltac:(lia)) as (Hw1 & Hw2 & Hw3 & Hw4). fold n in Hw1, Hw2, Hw3, Hw4.
  destruct H3 as (id & Em & _). unfold pa_mcalign_pop. simpl. unfold lo, tail_part. fold n.
  destruct (Z.eqb_spec n (mc_length c)); [by rewrite E1|]. simpl.
  rewrite (isset_some (mk_chunk (mc_memblock c) _ _) id) by done.
  rewrite (pa_assert_true (0 <? _)) by blia. rewrite (pa_assert_true (_ <=? _)) by blia. simpl.
  by rewrite (proj2 (Z.ltb_lt _ _)) by lia.
Qed.

Lemma fresh_frames st2 : 0 < n -> can_push bq n = true -> store_ok st2 -> keeps st st2 ->
  (forall j, refs st2 j = refs st j + chunk_refs c j + chunk_refs lo j) ->
  let m2 := mk_mcalign (bq_base bq) (if n =? mc_length c then ma_leftover (bq_mcalign bq) else lo) pa_memchunk_reset in
  exists bq' st', ('(r, (bq1, st3)) ← pa_memblockq_push (set_mcalign m2 bq) (head_part bq c) st2;
      id ← deref (mc_memblock (head_part bq c));
      st4 ← pa_memblock_unref id st3;
      if r <? 0 then '(m, st5) ← pa_mcalign_flush (bq_mcalign bq1) st4; Ok (-1, (set_mcalign m bq1, st5))
      else push_align_loop 2 bq1 st4) = Ok (0, (bq', st')) /\ align_post bq' st'.
Proof.
  intros Hn Ec Hok2 K2 R2 m2. destruct Hpre as [H1 H2 H3 H4 H5 H6].
  assert (forall j, refs st j <= refs st2 j) as Hle.
  { intros j. rewrite R2. pose proof (lo_refs j). pose proof (chunk_refs_nonneg c j). lia. }
  pose proof (more_refs st2 m2 Hok2 K2 Hle) as Hq2. pose proof (fresh_head_in Hn) as Hh.
  destruct (id H3) as (id & Em & Hr & _). pose proof (whole_bound bq c (qi_base _ _ H1)) as Hwb.
  assert (chunk_in st2 (head_part bq c)) as Hh2.
  { apply (chunk_in_keeps st st2); [done..|]. intros id' E. simpl in E. rewrite Em in E. simplify_eq. specialize (Hle id'). lia. }
  assert (cmd_ok (CPush (head_part bq c)) (set_mcalign m2 bq) st2) as Hc.
  { split_and!; simpl; try done.
    - intros j. specialize (H4 j). rewrite fresh_refs in H4. rewrite R2. pose proof (lo_refs j).
      change (chunk_refs (head_part bq c) j) with (chunk_refs c j). unfold owned in *. simpl. lia.
    - apply Hwb. destruct H3 as (? & _ & _ & _ & ? & _). lia. }
  destruct (push_both _ _ _ Hq2 Hc) as (r & bq3 & st3 & E & Hq3 & K3 & Fx & X & Hlen & Hcp).
  pose proof (push_attrs _ _ _ _ _ _ Hq2 Hc E) as Hat.
  replace (can_push (set_mcalign m2 bq) _) with true in Hcp. destruct Hcp as (-> & Ew & Hst).
  rewrite E. simpl. rewrite Em. simpl.
  assert (forall j, refs st3 j = refs st2 j - items_refs (bq_blocks bq) j + items_refs (bq_blocks bq3) j) as R3.
  { intros j. specialize (X j). unfold ext in X. simpl in X. lia. }
  assert (forall j, chunk_refs c j = delta id 1 j) as Hcr by (intros j; unfold chunk_refs; by rewrite Em).
  assert (0 < refs st3 id) as Hr3.
  { rewrite R3, R2, Hcr. specialize (H4 id). rewrite fresh_refs, Hcr in H4. unfold owned in H4.
    pose proof (chunk_refs_nonneg (bq_silence bq) id). pose proof (lo_refs id).
    pose proof (items_refs_nonneg (bq_blocks bq3) id). unfold delta in *. rewrite decide_True in * by done. lia. }
  destruct (pa_memblock_unref_spec st3 id (qi_store _ _ Hq3) Hr3) as (st4 & F4 & Hok4 & K4 & _ & R4).
  rewrite F4. simpl. rewrite align_loop_eq.
  unfold reading_attrs in Hat. injection Hat as Ema Epb Eip Emr. rewrite Ema. simpl.
  destruct (pop_rest st4) as (Ep & Hcur & Hlo). fold m2 in Ep, Hcur, Hlo. rewrite Ep. simpl.
  eexists _, _. split; [done|]. unfold fixed in Fx. simpl in Fx. injection Fx as Eb Eml Er Es.
  assert (forall j, refs st4 j - items_refs (bq_blocks bq3) j = ext bq st j + chunk_refs lo j) as R4'.
  { intros j. rewrite R4, R3, R2, Hcr. unfold ext, delta. case_decide; lia. }
  assert (queue_inv bq3 st4) as Hq4.
  { apply (inv_env bq3 st3); try done. intros j. specialize (R4' j).
    pose proof (qi_owned _ _ H1 j). pose proof (lo_refs j). unfold owned, ext in *. rewrite Es. lia. }
  split; simpl; try done.
  - by apply inv_mcalign.
  - apply (keeps_trans st st3); [apply H1|apply Hq3| |done]. apply (keeps_trans st st2); [apply H1|apply Hok2|done..].
  - intros i. rewrite (proj2 (Z.eqb_neq n 0)) by lia.
    rewrite <- (written_keeps m2 st2 i K2); [|apply (inv_env bq st)|done|]; try done.
    + rewrite <- Hst. apply content_keeps; [done| |].
      * apply (lw_items _ _ (proj1 (qi_list _ _ Hq3))).
      * apply (lw_items _ _ (proj1 (qi_list _ _ Hq4))).
    + intros j. specialize (Hle j). pose proof (qi_owned _ _ H1 j). lia.
    + intros id' E'. rewrite Em in E'. simplify_eq. specialize (Hle id'). lia.
  - unfold limits. simpl. congruence.
  - exact (push_missing _ _ _ _ _ _ Hq2 Hc E).
  - intros Hwm Hf. apply (push_frames _ _ _ _ _ _ (bq_base bq) Hq2 Hc E); try done; [by eapply qi_base|].
    simpl. apply Hwb. destruct H3 as (? & _ & _ & _ & ? & _). lia.
Qed.

(** Less than a frame is only kept. *)
Lemma fresh_short st1 : n = 0 -> store_ok st1 -> keeps st st1 -> (forall j, refs st1 j = refs st j + chunk_refs c j) ->
  align_post (set_mcalign (mk_mcalign (bq_base bq) c (ma_current (bq_mcalign bq))) (set_mcalign (bq_mcalign bq) bq)) st1.
Proof.
  intros En Hok K R. destruct Hpre as [H1 H2 H3 H4 H5 H6]. destruct Hempty as [E1 E2].
  assert (0 < mc_length c) as Hl by (by destruct H3 as (? & _ & _ & _ & ? & _)).
  assert (lo = c) as El.
  { unfold lo, tail_part. fold n. rewrite En. rewrite (proj2 (Z.eqb_neq 0 _)) by lia.
    rewrite Z.add_0_r, Z.sub_0_r. by destruct c. }
  assert (forall j, refs st j <= refs st1 j) as Hle.
  { intros j. rewrite R. pose proof (chunk_refs_nonneg c j). lia. }
  pose proof (more_refs st1 (mk_mcalign (bq_base bq) c (ma_current (bq_mcalign bq))) Hok K Hle) as Hq.
  split; simpl; try done.
  - rewrite En. by rewrite (proj2 (Z.eqb_neq 0 _)) by lia.
  - lia.
  - intros i. rewrite En. simpl. apply content_keeps; [done| |].
    + apply (lw_items _ _ (proj1 (qi_list _ _ H1))).
    + apply (lw_items _ _ (proj1 (qi_list _ _ Hq))).
  - intros j. unfold ext. simpl. rewrite R, El. lia.
  - lia.
Qed.

(** Single-byte frames do without the aligner. *)
Lemma fresh_bytes : bq_base bq = 1 -> can_push bq n = true ->
  exists bq' st', pa_memblockq_push bq c st = Ok (0, (bq', st')) /\ align_post bq' st'.
Proof.
  intros E Ec. destruct Hpre as [H1 H2 H3 H4 H5 H6]. destruct Hempty as [E1 E2].
  assert (n = mc_length c) as En by (unfold n, whole; rewrite E, Z.div_1_r; lia).
  assert (0 < mc_length c) as Hl by (by destruct H3 as (? & _ & _ & _ & ? & _)).
  assert (head_part bq c = c) as Eh by (unfold head_part; fold n; rewrite En; by destruct c).
  assert (lo = pa_memchunk_reset) as El by (unfold lo, tail_part; fold n; by rewrite (proj2 (Z.eqb_eq _ _))).
  assert (cmd_ok (CPush c) bq st) as Hc.
  { split_and!; try done; [|by rewrite E, Z.mod_1_r]. intros j. specialize (H4 j). rewrite fresh_refs in H4. lia. }
  destruct (push_both bq c st H1 Hc) as (r & bq' & st' & Ep & Hq & K & Fx & X & Hlen & Hcp).
  rewrite <- En, Ec in Hcp. destruct Hcp as (-> & Ew & Hst). exists bq', st'. split; [done|].
  unfold fixed in Fx. injection Fx as Eb Em Er Es.
  pose proof (push_attrs _ _ _ _ _ _ H1 Hc Ep) as Hat.
  unfold reading_attrs in Hat. injection Hat as Ema Epb Eip Emr. split; rewrite ?Ema, ?H2; try done.
  - rewrite (proj2 (Z.eqb_eq n _)) by done. done.
  - intros i. rewrite (proj2 (Z.eqb_neq n 0)) by lia. by rewrite Hst, Eh.
  - intros j. rewrite X, El. change (chunk_refs pa_memchunk_reset j) with 0. lia.
  - unfold limits. congruence.
  - exact (push_missing _ _ _ _ _ _ H1 Hc Ep).
  - intros Hwm Hf. apply (push_frames _ _ _ _ _ _ (bq_base bq) H1 Hc Ep); try done; rewrite E; [lia|apply Z.mod_1_r].
Qed.

Lemma fresh_push : can_push bq n = true ->
  exists bq' st', pa_memblockq_push_align bq c st = Ok (0, (bq', st')) /\ align_post bq' st'.
Proof.
  intros Ec. destruct Hpre as [H1 H2 H3 H4 H5 H6]. destruct Hempty as [E1 E2].
  pose proof (qi_base _ _ H1) as Hb. pose proof (chunk_in_bound _ _ (qi_store _ _ H1) H3) as (_ & Hbl & _).
  pose proof (whole_bound bq c Hb ltac:(lia)) as (Hw1 & Hw2 & Hw3 & Hw4). fold n in Hw1, Hw2, Hw3, Hw4.
  unfold pa_memblockq_push_align. destruct (Z.eqb_spec (bq_base bq) 1) as [E|E].
  - by apply fresh_bytes.
  - unfold pa_mcalign_csize. rewrite E1, E2, H2. rewrite (pa_assert_true (0 <? _)) by blia. simpl.
    change (mc_length c / bq_base bq * bq_base bq) with n. rewrite (u64_small n) by lia. rewrite Ec. simpl.
    destruct fresh_align as (m1 & st1 & F1 & Hok1 & K1 & Hp). rewrite F1. simpl.
    destruct (Z.eqb_spec n 0) as [En|En].
    + destruct Hp as [Hp R1]. rewrite align_loop_eq. simpl. rewrite Hp. simpl. eexists _, _. split; [done|].
      apply fresh_short; done.
    + destruct Hp as (st2 & Hp & Hok2 & K2 & R2). rewrite align_loop_eq. simpl. rewrite Hp.
      apply (fresh_frames st2); done || lia.
Qed.
End fresh_push.
