(* ===== verification/MemblockqFrames.v ===== *)
(** * MemblockqFrames: queues of whole frames

    A queue that is only fed with whole frames at frame boundaries holds and
    hands out whole frames. *)
From stdpp Require Import base tactics numbers list gmap.
From S2P Require Import Prelude Sample Memblock Mcalign Memblockq MemblockqSpec MemblockqRead.

(** Positions, nodes and silence are whole numbers of frames. *)
Record queue_frames (q : pa_memblockq) : Prop := {
  qf_read : bq_read_index q mod bq_base q = 0;
  qf_write : bq_write_index q mod bq_base q = 0;
  qf_silence : mc_length (bq_silence q) mod bq_base q = 0;
  qf_items : Forall (item_frames (bq_base q)) (bq_blocks q)
}.

(** The same queue at other positions, with fewer nodes. *)
Lemma frames_moved q q' gone : queue_frames q -> bq_base q' = bq_base q -> bq_silence q' = bq_silence q ->
  bq_blocks q = gone ++ bq_blocks q' -> bq_read_index q' mod bq_base q = 0 -> bq_write_index q' mod bq_base q = 0 ->
  queue_frames q'.
Proof.
  intros [H1 H2 H3 H4] Eb Es B Hr Hw. rewrite B in H4. apply Forall_app in H4 as [_ H4].
  split; rewrite ?Eb, ?Es; done.
Qed.

(** What a peek hands out. *)
Lemma peek_frames q st c q' st' : store_ok st -> list_wf q st -> 0 < bq_base q -> queue_frames q ->
  - 2 ^ 62 < bq_read_index q < 2 ^ 62 -> bq_write_index q < 2 ^ 62 ->
  Forall (fun it => li_index it < 2 ^ 62) (bq_blocks q) ->
  pa_memblockq_peek q st = Ok (Some c, (q', st')) -> mc_index c mod bq_base q = 0 /\ mc_length c mod bq_base q = 0.
Proof.
  intros Hok Hw Hb [F1 F2 F3 F4] Hri Hwi Hidx E. unfold pa_memblockq_peek in E.
  destruct (update_prebuf_spec q) as [Ea (b & Eb & Hfl)].
  destruct (update_prebuf q) as [wait q0]. simpl in Ea, Eb. subst wait q0.
  destruct (pa_memblockq_prebuf_active q); [by simplify_eq|].
  pose proof (cursor_unread _ _ (wf_set_in_prebuf b _ _ Hw)) as Hcur.
  pose proof (rest_fix_read (set_in_prebuf b q)) as Er.
  cbv zeta in E. rewrite Hcur in E. change (unread (set_in_prebuf b q)) with (unread q) in E.
  assert (bq_read_index (fix_current_read (set_in_prebuf b q)) = bq_read_index q /\
    bq_write_index (fix_current_read (set_in_prebuf b q)) = bq_write_index q /\
    bq_silence (fix_current_read (set_in_prebuf b q)) = bq_silence q) as (E1 & E2 & E3)
    by (unfold rest in Er; simpl in Er; split_and!; congruence).
  rewrite E1, E2, E3 in E. clear Er Hcur E1 E2 E3.
  assert (forall l (q1 : pa_memblockq) st1, l mod bq_base q = 0 ->
    match mc_memblock (bq_silence q) with
    | Some id =>
        st ← pa_memblock_ref id st;
        let sl := if (0 <? l) && (l <? mc_length (bq_silence q)) then l else mc_length (bq_silence q) in
        Ok (Some (mk_chunk (Some id) 0 sl), (q1, st))
    | None => if l <=? 0 then Ok (None, (q1, st)) else Ok (Some (mk_chunk None 0 l), (q1, st))
    end = Ok (Some c, st1) -> mc_index c mod bq_base q = 0 /\ mc_length c mod bq_base q = 0) as Hsil.
  { intros l q1 st1 Hl H. cbv zeta in H. destruct (mc_memblock (bq_silence q)).
    - inv_bind. simpl. split; [apply Zmod_0_l|by destruct ((0 <? l) && _)].
    - case_match; simplify_eq. simpl. split; [apply Zmod_0_l|done]. }
  destruct (unread q) as [it|] eqn:Eu.
  - assert (li_index it < 2 ^ 62 /\ item_frames (bq_base q) it) as [Hii (I1 & I2 & I3)].
    { unfold unread in Eu. destruct (first_unread _ _); [|done]. simpl in Eu.
      split; [by apply (Forall_lookup_1 _ _ _ _ Hidx Eu)|by apply (Forall_lookup_1 _ _ _ _ F4 Eu)]. }
    destruct (Z.ltb_spec (bq_read_index q) (li_index it)).
    + rewrite u64_small in E by lia. eapply Hsil; [|exact E]. by apply mod_sub_0.
    + pose proof (unread_stream q st (bq_read_index q) Hw ltac:(lia)) as HU. rewrite Eu in HU.
      destruct HU as (Hin & He & _ & _). pose proof (chunk_in_bound _ _ Hok Hin). unfold li_end in He.
      inv_bind. simpl. rewrite (u64_small (bq_read_index q - li_index it)), !u64_small by lia.
      split; [apply mod_add_0|apply mod_sub_0]; try done; by apply mod_sub_0.
  - destruct (Z.ltb_spec (bq_read_index q) (bq_write_index q)).
    + rewrite u64_small in E by lia. eapply Hsil; [|exact E]. by apply mod_sub_0.
    + exact (Hsil 0 _ _ (Zmod_0_l _) E).
Qed.
