(* ===== verification/MemblockqProps.v ===== *)
(** * MemblockqProps: what clients of the queue can rely on

    The stream-level behaviour of pushing, peeking and dropping, the limits the
    queue enforces, and the places where memblockq.c does something other
    than its comments say. *)
From stdpp Require Import base tactics numbers list gmap sorting.
From S2P Require Import Prelude Sample Memblock Mcalign Memblockq MemblockqSpec MemblockqPush.
From S2P Require Import MemblockqWrite MemblockqRead MemblockqAttr MemblockqInv MemblockqAlign.

(** ** Lemmas about nodes and positions *)

Lemma content_covered st l it i : StronglySorted before l -> Forall (item_in st) l -> it ∈ l ->
  covers i it = true -> content st l i = item_byte st it i.
Proof.
  induction l as [|a l IH]; intros Hs Hin Hit Hc; [by apply elem_of_nil in Hit|].
  apply StronglySorted_inv in Hs as [Hs Hb]. apply Forall_cons in Hin as [Ha Hin]. simpl.
  apply elem_of_cons in Hit as [->|Hit]; [by rewrite Hc|].
  rewrite Forall_forall in Hb. specialize (Hb it Hit). unfold before in Hb.
  apply covers_true in Hc. rewrite covers_ge by lia. apply IH; try done. by apply covers_true.
Qed.

Lemma item_byte_is_Some st it i : item_in st it -> covers i it = true -> is_Some (item_byte st it i).
Proof.
  intros (id & Em & Hr & ? & ? & ?) Hc. rewrite (item_byte_lookup _ _ id) by done.
  apply covers_true in Hc. unfold li_end in Hc. apply lookup_lt_is_Some. lia.
Qed.

(** Nothing is stored [maxlength] bytes or more after the read position. *)
Definition fits (bq : pa_memblockq) (st : store) : Prop :=
  forall i, bq_read_index bq + bq_maxlength bq <= i -> stream bq st i = None.

Lemma fits_end bq st it : list_wf bq st -> fits bq st -> it ∈ bq_blocks bq ->
  li_end it <= bq_read_index bq + bq_maxlength bq.
Proof.
  intros [Hm Hs] Hf Hit. pose proof (lw_items _ _ Hm) as Hin.
  destruct (Z.le_gt_cases (li_end it) (bq_read_index bq + bq_maxlength bq)) as [|Hgt]; [done|].
  assert (item_in st it) as Hi by (by apply (proj1 (Forall_forall _ _) Hin)).
  assert (covers (li_end it - 1) it = true) as Hc
    by (apply covers_true; pose proof (item_in_end _ _ Hi); lia).
  specialize (Hf (li_end it - 1) ltac:(lia)). unfold stream in Hf.
  rewrite (content_covered _ _ it) in Hf by done.
  destruct (item_byte_is_Some st it (li_end it - 1) Hi Hc) as [x Hx]. congruence.
Qed.

Lemma kept_from_beyond wi wend l i : Forall (fun it => li_end it <= i) l -> kept_from wi wend l i = i.
Proof.
  induction 1 as [|a l Ha Hl IH]; simpl; [done|]. rewrite (proj2 (Z.ltb_ge i (li_end a))) by lia.
  by destruct (straddles wi wend a).
Qed.

(** An accepted push ends within [maxlength] bytes of the read position. *)
Lemma can_push_bound bq st c : push_pre bq c st -> fits bq st ->
  bq_read_index bq <= bq_write_index bq -> can_push bq (mc_length c) = true ->
  bq_write_index bq + mc_length c <= bq_read_index bq + bq_maxlength bq \/
  exists it, it ∈ bq_blocks bq /\ bq_write_index bq + mc_length c <= li_end it.
Proof.
  intros Hp Hf Hri. unfold can_push. rewrite (proj2 (Z.ltb_ge _ _)) by lia.
  destruct (last (bq_blocks bq)) as [it|] eqn:El.
  - destruct (Z.ltb_spec (li_end it) (bq_write_index bq + mc_length c)).
    + rewrite negb_true_iff, Z.ltb_ge. lia.
    + intros _. right. exists it. split; [|lia]. apply last_Some in El as [k ->]. set_solver.
  - destruct (pp_chunk _ _ _ Hp) as (? & _ & _ & _ & ? & _).
    rewrite (proj2 (Z.ltb_lt _ _)), negb_true_iff, Z.ltb_ge by lia. lia.
Qed.

(** ** Writing *)

(** C3: a push accepted by the queue writes the chunk's bytes at the write
    position, advances that position by the chunk's length and leaves every
    other position of the stream as it was, with one exception that the code
    has: when a single node starts at or before the write position and ends
    behind the written range, the part saved behind the range ([kept_from])
    is the node's start over again.  The invariant is kept, and the queue takes
    exactly the references it needs for its nodes. *)
Theorem push_writes_stream bq c st : push_pre bq c st -> can_push bq (mc_length c) = true ->
  exists bq' st', pa_memblockq_push bq c st = Ok (0, (bq', st')) /\
    bq_write_index bq' = bq_write_index bq + mc_length c /\
    bq_read_index bq' = bq_read_index bq /\ list_wf bq' st' /\ store_ok st' /\
    (forall j, ext bq' st' j = ext bq st j) /\
    forall i, stream bq' st' i =
      if i <? bq_write_index bq then stream bq st i
      else if i <? bq_write_index bq + mc_length c
        then chunk_bytes st c !! Z.to_nat (i - bq_write_index bq)
      else stream bq st (kept_from (bq_write_index bq) (bq_write_index bq + mc_length c)
                           (bq_blocks bq) i).
Proof.
  intros Hp Hc. destruct (push_spec bq c st Hp Hc) as (bq' & st' & E & Hok & K & Hw & R & X & C & _).
  exists bq', st'. unfold rest in R. simpl in R. split_and!; try done; congruence.
Qed.

(** A push that the queue does not accept returns -1 and changes
    nothing. *)
Theorem push_refused bq c st : push_pre bq c st -> can_push bq (mc_length c) = false ->
  pa_memblockq_push bq c st = Ok (-1, (bq, st)).
Proof. intros Hp Hc. by rewrite push_eq, push_asserts_ok, Hc by done. Qed.

(** While the reader is not ahead of the writer, accepted pushes never make
    the queue hold data beyond [maxlength] bytes after the read position, and
    its length stays within [maxlength]. *)
Theorem push_within_maxlength bq c st bq' st' :
  push_pre bq c st -> fits bq st -> bq_read_index bq <= bq_write_index bq ->
  bq_maxlength bq < 2 ^ 63 -> pa_memblockq_push bq c st = Ok (0, (bq', st')) ->
  fits bq' st' /\ pa_memblockq_get_length bq' <= bq_maxlength bq'.
Proof.
  intros Hp Hf Hri Hml E. destruct (can_push bq (mc_length c)) eqn:Hc;
    [|by rewrite push_eq, push_asserts_ok, Hc in E by done].
  destruct (push_spec bq c st Hp Hc) as (bq1 & st1 & E1 & _ & _ & _ & R & _ & C & _).
  rewrite E in E1. injection E1 as <- <-. unfold rest in R. simpl in R.
  injection R as Rm _ _ _ _ _ Rr Rw _ _ _ _ _ _.
  pose proof (pp_queue _ _ _ Hp) as Hw.
  assert (bq_write_index bq + mc_length c <= bq_read_index bq + bq_maxlength bq) as Hend.
  { destruct (can_push_bound bq st c Hp Hf Hri Hc) as [|(it & Hit & ?)]; [done|].
    pose proof (fits_end _ _ _ Hw Hf Hit). lia. }
  destruct (pp_chunk _ _ _ Hp) as (? & _ & _ & _ & Hpos & _).
  split.
  - intros i. rewrite Rm, Rr. intros Hi. rewrite C. unfold written.
    rewrite !(proj2 (Z.ltb_ge _ _)) by lia. rewrite kept_from_beyond; [by apply Hf|].
    apply Forall_forall. intros it Hit. pose proof (fits_end _ _ _ Hw Hf Hit). lia.
  - unfold pa_memblockq_get_length. rewrite Rm, Rr, Rw.
    rewrite (proj2 (Z.leb_gt _ _)), u64_small by lia. lia.
Qed.

(** ** Reading *)

(** C4: [pa_memblockq_peek] hands out the stream from the read position on: it
    returns nothing exactly while prebuffering or when the queue has neither
    data nor silence to offer, and otherwise a chunk whose bytes are the
    stream's, or a stand-in for a gap that covers no stored data; the caller
    owns one new reference on the chunk's block and the stream is unchanged. *)
Theorem peek_reads_stream bq st : store_ok st -> list_wf bq st -> silence_alive bq st ->
  - 2 ^ 62 < bq_read_index bq < 2 ^ 62 -> bq_write_index bq < 2 ^ 62 ->
  Forall (fun it => li_index it < 2 ^ 62) (bq_blocks bq) ->
  exists r bq' st', pa_memblockq_peek bq st = Ok (r, (bq', st')) /\ list_wf bq' st' /\
    (forall i, stream bq' st' i = stream bq st i) /\
    (forall j, refs st' j = refs st j + from_option (fun c => chunk_refs c j) 0 r) /\
    match r with
    | None => nothing_to_peek bq = true
    | Some c => nothing_to_peek bq = false /\ peeked bq st c st'
    end.
Proof.
  intros Hok Hw Hsil H1 H2 H3.
  destruct (peek_spec bq st Hok Hw Hsil H1 H2 H3) as (r & bq' & st' & E & Hok' & K & Hw' & B & R & F & Rf & P).
  exists r, bq', st'. split_and!; try done. intros i. unfold stream. rewrite B.
  apply content_keeps; [done|apply Hw|]. rewrite <- B. apply Hw'.
Qed.

(** Dropping bytes moves the read position forward by the whole length,
    stopping short only when prebuffering sets in, and the data at and after
    [maxrewind] bytes before the new read position stays readable. *)
Theorem drop_keeps_stream bq st len : store_ok st -> list_wf bq st -> 0 < bq_base bq ->
  0 <= len < 2 ^ 64 -> len mod bq_base bq = 0 ->
  exists bq' st', pa_memblockq_drop bq len st = Ok (bq', st') /\ list_wf bq' st' /\ store_ok st' /\
    bq_read_index bq <= bq_read_index bq' <= bq_read_index bq + len /\
    (bq_prebuf bq = 0 /\ bq_in_prebuf bq = false -> bq_read_index bq' = bq_read_index bq + len) /\
    bq_missing bq' = bq_missing bq + (bq_read_index bq' - bq_read_index bq) /\
    forall i, bq_read_index bq' - bq_maxrewind bq <= i -> stream bq' st' i = stream bq st i.
Proof.
  intros Hok Hw Hb Hlen Hmod.
  destruct (drop_spec bq st len Hok Hw Hb Hlen Hmod)
    as (bq1 & bq' & st' & gone & E & (Hw1 & B1 & R1 & F1) & T & Hg & Hri & Hor).
  pose proof T as (Hok' & K & Hw' & R & X & B). rewrite R1 in R. unfold rest in R, R1. simpl in R, R1.
  injection R as _ _ _ _ _ Rw Rr _ _ _ _ Rmi _ _. injection R1 as _ _ _ Rp _ Rw1 _ _ _ _ _ _.
  exists (read_index_changed (bq_read_index bq) bq'), st'. simpl. rewrite Rr, Rmi.
  split_and!; try done; try lia.
  - destruct Hw' as [[] ?]. by repeat split.
  - intros [Hp Hfl]. destruct Hor as [|Ha]; [done|]. exfalso.
    unfold pa_memblockq_prebuf_active in Ha.
    rewrite Rp, Hp in Ha. destruct (bq_in_prebuf bq1) eqn:Ef; [|done].
    destruct (F1 eq_refl); [congruence|lia].
  - intros i Hi. change (stream bq' st' i = stream bq st i).
    rewrite (trimmed_stream bq1 st gone bq' st' i Hw1 T); [unfold stream; by rewrite B1|].
    eapply Forall_impl; [exact Hg|]. simpl. intros a. rewrite Rw1. lia.
Qed.

(** The nodes of a queue after a push start before any bound on the old ends
    and on the end of the written range. *)
Lemma push_index_bound bq c st bq' st' B : push_pre bq c st -> list_wf bq' st' ->
  (forall i, stream bq' st' i = written bq c st i) ->
  Forall (fun it => li_end it <= B) (bq_blocks bq) -> bq_write_index bq + mc_length c <= B ->
  Forall (fun it => li_index it < B) (bq_blocks bq').
Proof.
  intros Hp [Hm Hs] C Hidx HB. apply Forall_forall. intros it Hit.
  pose proof (lw_items _ _ Hm) as Hin. pose proof (proj1 (Forall_forall _ _) Hin it Hit) as Hi.
  destruct (Z.lt_ge_cases (li_index it) B) as [|Hge]; [done|]. exfalso.
  assert (covers (li_index it) it = true) as Hcov
    by (apply covers_true; pose proof (item_in_end _ _ Hi); lia).
  destruct (item_byte_is_Some st' it _ Hi Hcov) as [x Hx].
  specialize (C (li_index it)). unfold stream at 1 in C.
  rewrite (content_covered _ _ it), Hx in C by done.
  destruct (pp_chunk _ _ _ Hp) as (? & _ & _ & _ & Hpos & _).
  unfold written in C. rewrite !(proj2 (Z.ltb_ge _ _)) in C by lia.
  rewrite kept_from_beyond in C by (eapply Forall_impl; [exact Hidx|simpl; lia]).
  unfold stream in C. rewrite content_none in C; [done|].
  eapply Forall_impl; [exact Hidx|]. intros a ?. apply covers_ge. simpl in *. lia.
Qed.

(** What is pushed is what is read: after pushing a chunk at the read
    position of a queue that is not prebuffering, a peek returns a non-empty
    chunk whose bytes agree with the pushed ones. *)
Theorem push_peek_roundtrip bq c st : push_pre bq c st -> can_push bq (mc_length c) = true ->
  bq_write_index bq = bq_read_index bq -> bq_prebuf bq = 0 -> bq_in_prebuf bq = false ->
  mc_memblock (bq_silence bq) = None -> - 2 ^ 61 < bq_read_index bq < 2 ^ 61 ->
  Forall (fun it => li_end it <= 2 ^ 61) (bq_blocks bq) ->
  exists bq1 st1 r bq2 st2,
    pa_memblockq_push bq c st = Ok (0, (bq1, st1)) /\
    pa_memblockq_peek bq1 st1 = Ok (Some r, (bq2, st2)) /\ 0 < mc_length r /\
    forall k, 0 <= k < Z.min (mc_length r) (mc_length c) ->
      chunk_bytes st2 r !! Z.to_nat k = chunk_bytes st c !! Z.to_nat k.
Proof.
  intros Hp Hc Ewr Epb Efl Esi Hri Hidx.
  destruct (push_spec bq c st Hp Hc) as (bq1 & st1 & E & Hok & K & Hw & R & X & C & _).
  unfold rest in R. simpl in R. injection R as _ _ _ Rp _ _ Rr Rw Rf Rs _ _ _ _.
  pose proof (chunk_in_bound _ _ (pp_store _ _ _ Hp) (pp_chunk _ _ _ Hp)) as Hb.
  assert (Forall (fun it => li_index it < 2 ^ 62) (bq_blocks bq1)) as Hidx1.
  { eapply (push_index_bound bq c st); try done; [|lia].
    eapply Forall_impl; [exact Hidx|simpl; lia]. }
  destruct (peek_spec bq1 st1) as (r & bq2 & st2 & E2 & _ & _ & _ & _ & _ & _ & _ & P); try done; try lia.
  { intros id Hid. congruence. }
  assert (forall k, 0 <= k < mc_length c ->
    stream bq1 st1 (bq_read_index bq1 + k) = chunk_bytes st c !! Z.to_nat k) as Hs.
  { intros k Hk. rewrite C, Rr. unfold written. rewrite Ewr.
    rewrite (proj2 (Z.ltb_ge _ _)), (proj2 (Z.ltb_lt _ _)) by lia. do 2 f_equal. lia. }
  assert (is_Some (stream bq1 st1 (bq_read_index bq1))) as Hsome.
  { rewrite <- (Z.add_0_r (bq_read_index bq1)), Hs by lia. apply lookup_lt_is_Some.
    destruct (pp_chunk _ _ _ Hp) as (id & Em & Hr & ? & ? & ?). unfold chunk_bytes. rewrite Em.
    rewrite sub_list_length; lia. }
  assert (nothing_to_peek bq1 = false) as Hn.
  { unfold nothing_to_peek, pa_memblockq_prebuf_active. rewrite Rf, Efl, Rp, Epb. simpl.
    pose proof (unread_stream bq1 st1 (bq_read_index bq1) Hw ltac:(lia)) as HU.
    destruct (unread bq1); [done|]. rewrite HU in Hsome. by destruct Hsome. }
  destruct r as [r|]; [|congruence]. destruct P as [_ P].
  exists bq1, st1, r, bq2, st2. split; [done|]. split; [done|].
  destruct P as [[Hin Hd]|(Em & Hpos & Hg)].
  - split; [by destruct Hin as (? & _ & _ & _ & ? & _)|]. intros k Hk. rewrite Hd, Hs by lia. done.
  - exfalso. specialize (Hpos ltac:(left; congruence)). specialize (Hg 0 ltac:(lia)).
    rewrite Z.add_0_r in Hg. rewrite Hg in Hsome. by destruct Hsome.
Qed.

(** ** Splicing *)

Lemma peek_read_index bq st r bq' st' : pa_memblockq_peek bq st = Ok (r, (bq', st')) ->
  bq_read_index bq' = bq_read_index bq.
Proof.
  unfold pa_memblockq_peek. destruct (update_prebuf_spec bq) as [_ (b & Eb & _)].
  destruct (update_prebuf bq) as [wait bq0]. simpl in Eb. subst bq0.
  pose proof (rest_fix_read (set_in_prebuf b bq)) as Er. unfold rest in Er. simpl in Er.
  injection Er as _ _ _ _ _ _ Er _ _ _ _ _ _ _. rewrite <- Er.
  intros E. repeat case_match; inv_bind; done.
Qed.

Lemma splice_round_source bq source st r bq' source' st' :
  splice_round bq source st = Ok (r, (bq', source', st')) ->
  bq_read_index source' = bq_read_index source.
Proof.
  unfold splice_round. intros E. inv_bind. apply peek_read_index in E0.
  repeat case_match; inv_bind; try done. repeat case_match; by inv_bind.
Qed.

(** [pa_memblockq_splice] never consumes its source: however long it runs,
    the source's read position stays where it was, because each round drops
    from the destination; so as long as the source has data the loop goes
    round again with the same data. *)
Theorem splice_never_consumes fuel bq source st r bq' source' st' :
  pa_memblockq_splice fuel bq source st = Ok (r, (bq', source', st')) ->
  bq_read_index source' = bq_read_index source.
Proof.
  unfold pa_memblockq_splice. generalize (pa_memblockq_prebuf_disable bq). clear bq.
  revert source st. induction fuel as [|fuel IH]; intros source st bq E; simpl in E.
  - by injection E as _ _ <- _.
  - inv_bind. apply splice_round_source in E0. destruct o; inv_bind; [done|].
    apply IH in E. congruence.
Qed.

(** Pushing a chunk of any length into a queue whose aligner is empty
    either is refused for lack of room, which changes nothing, or writes the
    whole frames of the chunk as a push would, keeps the bytes behind the last
    whole frame in the aligner with a reference of their own, and leaves the
    read position, the silence and the queue's invariant as they were. *)
Theorem push_align_writes bq c st : align_pre bq c st -> aligner_empty (bq_mcalign bq) ->
  if can_push bq (whole bq c)
  then exists bq' st', pa_memblockq_push_align bq c st = Ok (0, (bq', st')) /\ align_post bq c st bq' st'
  else pa_memblockq_push_align bq c st = Ok (-1, (bq, st)).
Proof.
  intros Hp He. destruct (can_push bq (whole bq c)) eqn:Ec; [by apply fresh_push|by apply fresh_room].
Qed.

(** ** Concrete queues *)

Module BQExample.
Definition spec : pa_sample_spec := mk_sample_spec 0 44100 1.
Definition st0 : store := MCExample.st0.
(** All four bytes of block 1, and one byte of block 2. *)
Definition c1 : pa_memchunk := mk_chunk (Some 1) 0 4.
Definition c2 : pa_memchunk := mk_chunk (Some 2) 0 1.

(** A fresh queue for single-byte frames with a maximal length of [maxlength]. *)
Definition fresh (maxlength : Z) : pa_memblockq :=
  mk_memblockq [] None None 0 maxlength maxlength 1 0 1 0 0 0 false pa_memchunk_reset
    (mk_mcalign 1 pa_memchunk_reset pa_memchunk_reset) maxlength 0 spec.
Definition q0 : pa_memblockq := fresh 64.

Definition after {A} (m : outcome (A * (pa_memblockq * store))) : pa_memblockq * store :=
  match m with Ok (_, s) => s | _ => (q0, st0) end.

(** The queue with block 1 stored at position 0. *)
Definition q1 : pa_memblockq := fst (after (pa_memblockq_push q0 c1 st0)).
Definition st1 : store := snd (after (pa_memblockq_push q0 c1 st0)).

(** A fresh queue for 16-bit frames, and three bytes of block 1. *)
Definition spec16 : pa_sample_spec := mk_sample_spec PA_SAMPLE_S16LE 8000 1.
Definition fresh16 (maxlength : Z) : pa_memblockq :=
  mk_memblockq [] None None 0 maxlength maxlength 2 0 2 0 0 0 false pa_memchunk_reset
    (mk_mcalign 2 pa_memchunk_reset pa_memchunk_reset) maxlength 0 spec16.
Definition c3 : pa_memchunk := mk_chunk (Some 1) 0 3.

Lemma spec_fine : spec_ok spec.
Proof. split; [by vm_compute|simpl; lia]. Qed.

Lemma queue_new_inv spec ml mr bq : spec_ok spec -> 0 <= ml < 2 ^ 31 -> 0 <= mr < 2 ^ 31 ->
  pa_memblockq_new 0 ml 0 spec 0 mr 0 None st0 = Ok (bq, st0) -> queue_inv bq st0.
Proof.
  intros Hs Hml Hmr E. destruct (new_spec 0 ml 0 spec 0 mr 0 None st0) as (bq' & st' & E' & Hq & _); try done.
  - exact MCExample.st0_ok.
  - unfold new_args_ok, len_max. lia.
  - rewrite E in E'. by injection E' as <- <-.
Qed.

Lemma inv0 : queue_inv q0 st0.
Proof. apply (queue_new_inv spec 64 1); [exact spec_fine|lia|lia|by vm_compute]. Qed.

Lemma inv16 : queue_inv (fresh16 64) st0.
Proof. apply (queue_new_inv spec16 64 2); [done|lia|lia|by vm_compute]. Qed.

Lemma refs_c1 j : chunk_refs c1 j <= refs st0 j.
Proof.
  unfold st0. rewrite MCExample.refs0. unfold chunk_refs, delta; simpl. repeat case_decide; lia.
Qed.

Lemma push_ok0 : cmd_ok (CPush c1) q0 st0.
Proof.
  split_and!; try done; [exists 1; by vm_compute|]. intros j. apply refs_c1.
Qed.

Lemma pre0 : push_pre q0 c1 st0.
Proof.
  pose proof inv0 as H. destruct push_ok0 as (Hc & Hr & _).
  split; try done; try apply H.
Qed.

Lemma run1 : run (CPush c1) q0 st0 = Ok (q1, st1).
Proof. by vm_compute. Qed.

Lemma inv1 : queue_inv q1 st1.
Proof.
  destruct (run_inv (CPush c1) q0 st0 inv0 push_ok0) as (bq' & st' & E & H & _). rewrite run1 in E. by injection E as <- <-.
Qed.
End BQExample.
Import BQExample.

Lemma push_align_writes_witness : exists bq' st',
  pa_memblockq_push_align (fresh16 64) c3 st0 = Ok (0, (bq', st')) /\
  bq_write_index bq' = 2 /\ ma_leftover (bq_mcalign bq') = mk_chunk (Some 1) 2 1.
Proof.
  destruct (push_align_writes (fresh16 64) c3 st0) as (bq' & st' & E & P).
  - split; [exact inv16|reflexivity|exists 1; by vm_compute|exact refs_c1|by vm_compute|simpl; lia].
  - split; reflexivity.
  - exists bq', st'. split; [exact E|]. split; [by destruct (ap_index _ _ _ _ _ P)|apply (ap_leftover _ _ _ _ _ P)].
Defined.

Lemma push_writes_stream_witness : exists bq' st',
  pa_memblockq_push q0 c1 st0 = Ok (0, (bq', st')) /\ bq_write_index bq' = 4 /\
  stream bq' st' 3 = Some (Some 13) /\ stream bq' st' 4 = None.
Proof.
  destruct (push_writes_stream q0 c1 st0 pre0) as (bq' & st' & E & Ew & _ & _ & _ & _ & C);
    [by vm_compute|].
  exists bq', st'. split_and!; [exact E|rewrite Ew; by vm_compute|rewrite C; by vm_compute..].
Defined.

Lemma push_refused_witness : pa_memblockq_push (fresh 2) c1 st0 = Ok (-1, (fresh 2, st0)).
Proof.
  apply (push_refused (fresh 2) c1 st0); [|by vm_compute].
  assert (queue_inv (fresh 2) st0) as H by (apply (queue_new_inv spec 2 1); [exact spec_fine|lia|lia|by vm_compute]).
  destruct push_ok0 as (Hc & Ho & _).
  split; try done; try apply H.
Defined.

Lemma push_within_maxlength_witness : fits q1 st1 /\ pa_memblockq_get_length q1 <= bq_maxlength q1.
Proof.
  apply (push_within_maxlength q0 c1 st0 q1 st1 pre0); [done|by vm_compute..].
Defined.

Lemma peek_reads_stream_witness : exists r bq' st',
  pa_memblockq_peek q1 st1 = Ok (Some r, (bq', st')) /\ peeked q1 st1 r st'.
Proof.
  pose proof inv1 as H.
  destruct (peek_reads_stream q1 st1) as (r & bq' & st' & E & _ & _ & _ & P);
    [apply H|apply H|by apply qi_silence_alive|by vm_compute|by vm_compute|
     repeat constructor; by vm_compute|].
  destruct r as [r|]; [exists r, bq', st'; split; [exact E|apply P]|].
  exfalso. by vm_compute in P.
Defined.

Lemma drop_keeps_stream_witness : exists bq' st',
  pa_memblockq_drop q1 2 st1 = Ok (bq', st') /\ bq_read_index bq' = 2 /\
  (2 - bq_maxrewind q1 <= 3 -> stream bq' st' 3 = stream q1 st1 3).
Proof.
  pose proof inv1 as H.
  destruct (drop_keeps_stream q1 st1 2) as (bq' & st' & E & _ & _ & Hr & Hp & _ & C);
    [apply H|apply H|by vm_compute|lia|by vm_compute|].
  assert (bq_read_index bq' = 2) as Er by (rewrite Hp; by vm_compute).
  exists bq', st'. split_and!; [exact E|exact Er|]. intros Hi. apply C. by rewrite Er.
Defined.

Lemma splice_never_consumes_witness :
  match pa_memblockq_splice 5 q0 q1 st1 with
  | Ok (r, (_, source', _)) => r = None /\ bq_read_index source' = 0
  | _ => False
  end.
Proof.
  destruct (pa_memblockq_splice 5 q0 q1 st1) as [[r [[bq' source'] st']]| |] eqn:E;
    [|by vm_compute in E..].
  split; [by vm_compute in E; simplify_eq|].
  rewrite (splice_never_consumes 5 q0 q1 st1 r bq' source' st' E). by vm_compute.
Defined.

(** ** Where the code departs from its intent *)

(** Overwriting a byte in the middle of a stored block changes the bytes
    behind it: with 10 11 12 13 stored at positions 0 to 3, writing 20 at
    position 1 leaves 10 20 10 11 and not 10 20 12 13, since the node saved for
    the end of the block keeps the block's start offset. *)
Theorem push_split_shifts_tail :
  let '(bq, st) := after ('(bq, st) ← pa_memblockq_seek q1 1 PA_SEEK_ABSOLUTE true st1;
                          pa_memblockq_push bq c2 st) in
  (stream q1 st1 <$> [0; 1; 2; 3]) = Some <$> [Some 10; Some 11; Some 12; Some 13] /\
  (stream bq st <$> [0; 1; 2; 3]) = Some <$> [Some 10; Some 20; Some 10; Some 11].
Proof. by vm_compute. Qed.

(** When the writer is behind the reader the length check is too lax: a
    queue with a maximal length of 2 bytes accepts a chunk of 4 written one
    byte before the read position and then holds 3 bytes. *)
Theorem push_overfills_behind_reader :
  let '(bq, st) := after ('(bq, st) ← pa_memblockq_seek (fresh 2) (-1) PA_SEEK_ABSOLUTE true st0;
                          pa_memblockq_push bq c1 st) in
  bq_maxlength bq = 2 /\ pa_memblockq_get_length bq = 3.
Proof. by vm_compute. Qed.

(** A second chunk that does not continue the bytes left in the aligner is cut
    after the bytes that complete the frame, so that its remainder starts
    inside a frame: [pa_memblockq_push_align] hands it to [pa_memblockq_push],
    which asserts that it does not. Here one byte of a 16-bit stream is left
    over, and four more bytes that start on a frame boundary follow. *)
Theorem push_align_aborts :
  let q := fresh16 64 in
  match pa_memblockq_push_align q (mk_chunk (Some 1) 0 1) st0 with
  | Ok (r, (q', st')) =>
      r = 0 /\ ma_leftover (bq_mcalign q') = mk_chunk (Some 1) 0 1 /\
      pa_memblockq_push_align q' c1 st' = Abort
  | _ => False
  end.
Proof. by vm_compute. Qed.
