(* ===== verification/MemblockqOps.v ===== *)
(** * MemblockqOps: every operation of the queue in 64-bit arithmetic

    The operations of [memblockq.c] as one list of commands, each run with the
    signed results it computes checked against the range of [int64_t]: a value
    outside the range is undefined behaviour ([UB]).  The contract clients have
    to respect, the states a queue can be in under it, and the theorems that no
    operation fails there.

    [pa_memblockq_splice] is not among the commands: it never gets to the end
    of a source that has data (MemblockqProps). *)
From stdpp Require Import base tactics numbers list gmap sorting.
From S2P Require Import Prelude Sample Memblock Mcalign Memblockq MemblockqSpec MemblockqPush.
From S2P Require Import MemblockqWrite MemblockqRead MemblockqAttr MemblockqInv MemblockqAlign MemblockqFixed MemblockqProps.

(** ** Signed arithmetic *)

Definition int64 (x : Z) : Prop := - 2 ^ 63 <= x < 2 ^ 63.

(** The computed values [l] of type [int64_t] can all be represented. *)
Definition no_overflow (l : list Z) : outcome unit :=
  if forallb (fun x => (- 2 ^ 63 <=? x) && (x <? 2 ^ 63)) l then Ok tt else UB.

Lemma no_overflow_ok l : Forall int64 l -> no_overflow l = Ok tt.
Proof.
  intros H. unfold no_overflow. rewrite (proj2 (forallb_forall _ _)); [done|].
  intros x Hx. rewrite Forall_forall in H. apply list_elem_of_In in Hx. specialize (H x Hx).
  unfold int64 in H. blia.
Qed.

Definition starts (bq : pa_memblockq) : list Z := li_index <$> bq_blocks bq.
Definition ends (bq : pa_memblockq) : list Z := li_end <$> bq_blocks bq.

(** The fields of type [int64_t]. *)
Definition int64_fields (bq : pa_memblockq) : list Z :=
  [bq_read_index bq; bq_write_index bq; bq_missing bq; bq_requested bq] ++ starts bq.

(** ** The operations *)

Inductive op :=
| OCmd (k : cmd)
| OPushAlign (c : pa_memchunk)
| OPeekFixed (block_size : Z)
| OSetSilence (silence : option pa_memchunk).

(** Rounds enough for the loop of [pa_memblockq_peek_fixed_size]: each copies a
    byte or passes a node. *)
Definition peek_fixed_fuel (block_size : Z) (bq : pa_memblockq) : nat :=
  S (Z.to_nat block_size + length (bq_blocks bq)).

(** The signed values [pa_memblockq_push] computes for a chunk of [len] bytes:
    those of [can_push], of the loops that look for the place and cut the nodes
    there, and of [write_index_changed]. *)
Definition push_values (len : Z) (bq : pa_memblockq) : list Z :=
  let r := bq_read_index bq in
  let w := bq_write_index bq in
  [len; r - w; w + len; w + len - r; w + (len - (r - w)); w + (len - (r - w)) - r;
   bq_maxlength bq; w + len - w; bq_requested bq - (w + len - w)]
  ++ ends bq ++ ((fun x => w + len - x) <$> starts bq) ++ ((fun x => w - x) <$> starts bq).

(** Those of [pa_memblockq_peek]. *)
Definition peek_values (bq : pa_memblockq) : list Z :=
  let r := bq_read_index bq in
  [bq_write_index bq - r] ++ ends bq ++ ((fun x => x - r) <$> starts bq) ++ ((fun x => r - x) <$> starts bq).

(** Those of the loop of [pa_memblockq_peek_fixed_size], which goes from the
    read position to [n] bytes after it. *)
Definition fixed_values (n : Z) (bq : pa_memblockq) : list Z :=
  let r := bq_read_index bq + n in
  [r] ++ ((fun x => x - r) <$> starts bq) ++ ((fun x => r - x) <$> starts bq).

(** Those of [pa_memblockq_drop], whose read position goes from where it is to
    [n] bytes after it. *)
Definition drop_values (n : Z) (bq : pa_memblockq) : list Z :=
  let r := bq_read_index bq in
  let w := bq_write_index bq in
  [n; r + n; w - r; w - (r + n); bq_maxrewind bq; r - bq_maxrewind bq; r + n - bq_maxrewind bq;
   r + n - r; bq_missing bq + (r + n - r)]
  ++ ends bq ++ ((fun p => p - r) <$> ends bq) ++ ((fun p => p - (r + n)) <$> ends bq).

(** Those of the accounting when the write position moves to [t]. *)
Definition move_values (t : Z) (bq : pa_memblockq) : list Z :=
  let delta := t - bq_write_index bq in
  [t; delta; bq_requested bq - delta; bq_missing bq - delta].

Definition seek_values (offset : Z) (seek : pa_seek_mode_t) (bq : pa_memblockq) : list Z :=
  [offset; bq_maxrewind bq; bq_read_index bq - bq_maxrewind bq] ++ ends bq
  ++ move_values (seek_target bq offset seek) bq.

(** Those of the attribute setters, which turn [bq] into [bq']. *)
Definition attr_values (bq bq' : pa_memblockq) : list Z :=
  [bq_write_index bq - bq_read_index bq; bq_tlength bq; bq_tlength bq';
   bq_tlength bq' - bq_tlength bq; bq_missing bq'].

Definition int64_values (o : op) (bq : pa_memblockq) : list Z :=
  match o with
  | OCmd (CPush c) => push_values (mc_length c) bq
  | OPushAlign c => push_values (whole bq c) bq
  | OCmd CPeek => peek_values bq
  | OPeekFixed n => peek_values bq ++ fixed_values n bq
  | OCmd (CDrop n) => drop_values n bq
  | OCmd (CRewind n) =>
      [n; bq_read_index bq - n; bq_read_index bq - n - bq_read_index bq;
       bq_missing bq + (bq_read_index bq - n - bq_read_index bq)]
  | OCmd (CSeek offset seek account) => seek_values offset seek bq
  | OCmd (CFlushWrite account) => move_values (bq_read_index bq) bq
  | OCmd CFlushRead =>
      [bq_write_index bq - bq_read_index bq; bq_missing bq + (bq_write_index bq - bq_read_index bq)]
  | OCmd CPopMissing => [bq_write_index bq - bq_read_index bq; bq_requested bq + bq_missing bq]
  | OCmd CWillneed => ends bq
  | OCmd (CSetMaxlength v) => attr_values bq (pa_memblockq_set_maxlength v bq)
  | OCmd (CSetTlength v) => attr_values bq (pa_memblockq_set_tlength v bq)
  | OCmd (CSetMinreq _) | OCmd (CSetPrebuf _) => [bq_write_index bq - bq_read_index bq]
  | OCmd (CApplyAttr a) =>
      let bq1 := pa_memblockq_set_maxlength (a_maxlength a) bq in
      attr_values bq bq1 ++ attr_values bq1 (pa_memblockq_set_tlength (a_tlength a) bq1)
  | OCmd (CSilence | CPrebufDisable | CPrebufForce | CSetMaxrewind _) | OSetSilence _ => []
  end.

(** Running an operation, the value it returns left aside. *)
Definition exec (o : op) (bq : pa_memblockq) (st : store) : outcome (pa_memblockq * store) :=
  _ ← no_overflow (int64_values o bq);
  '(bq', st') ← match o with
    | OCmd k => run k bq st
    | OPushAlign c => '(_, s) ← pa_memblockq_push_align bq c st; Ok s
    | OPeekFixed n => '(_, s) ← pa_memblockq_peek_fixed_size (peek_fixed_fuel n bq) bq n st; Ok s
    | OSetSilence s => pa_memblockq_set_silence s bq st
    end;
  _ ← no_overflow (int64_fields bq');
  Ok (bq', st').

(** ** The contract *)

(** Stream positions within 2^60 bytes of 0: at a megabyte a second, more than
    thirty thousand years of sound on either side. *)
Definition near (x : Z) : Prop := - 2 ^ 60 <= x <= 2 ^ 60.

(** The request counters, which an unbalanced use of the [account] argument
    moves further and further apart. *)
Definition counters_calm (bq : pa_memblockq) : Prop :=
  near (bq_missing bq) /\ near (bq_requested bq).

(** What an operation demands of its arguments. *)
Definition args_ok (o : op) (bq : pa_memblockq) (st : store) : Prop :=
  match o with
  | OCmd (CPush c) => cmd_ok (CPush c) bq st /\ near (bq_write_index bq + mc_length c)
  | OCmd (CDrop n) => 0 <= n /\ n mod bq_base bq = 0 /\ near (bq_read_index bq + n)
  | OCmd (CRewind n) => 0 <= n /\ n mod bq_base bq = 0 /\ near (bq_read_index bq - n)
  | OCmd (CSeek offset seek account) => int64 offset /\ near (seek_target bq offset seek)
  | OCmd CPeek => True
  | OCmd (CSetMaxrewind v) => 0 <= v <= len_max
  | OCmd k => cmd_ok k bq st
  | OPushAlign c => chunk_in st c /\ mc_index c mod bq_base bq = 0 /\
      (forall j, owned bq j + held (bq_mcalign bq) j + chunk_refs c j <= refs st j) /\
      aligner_empty (bq_mcalign bq) /\ near (bq_write_index bq + whole bq c) /\
      Z.of_nat (length (bq_blocks bq)) + 2 < 2 ^ 32
  | OPeekFixed n => isset (bq_silence bq) = true /\ 0 < n /\
      msum mb_length (st_blocks st) + n < 2 ^ 31
  | OSetSilence silence => forall s, silence = Some s -> chunk_in st s /\
      forall j, owned bq j + held (bq_mcalign bq) j + chunk_refs s j <= refs st j
  end.

Definition op_ok (o : op) (bq : pa_memblockq) (st : store) : Prop :=
  args_ok o bq st /\ counters_calm bq.

(** ** The invariant *)

(** The references the queue owns, those of its aligner included. *)
Definition owned_all (bq : pa_memblockq) (j : Z) : Z := owned bq j + held (bq_mcalign bq) j.

Definition node_near (it : list_item) : Prop := - 2 ^ 60 <= li_index it /\ li_end it <= 2 ^ 60.

Record ops_inv (bq : pa_memblockq) (st : store) : Prop := {
  oi_queue : queue_inv bq st;
  oi_read : near (bq_read_index bq);
  oi_write : near (bq_write_index bq);
  oi_nodes : Forall node_near (bq_blocks bq);
  oi_maxrewind : bq_maxrewind bq <= len_max;
  oi_aligner : ma_base (bq_mcalign bq) = bq_base bq;
  oi_silence : isset (bq_silence bq) = true -> chunk_in st (bq_silence bq);
  oi_owned : forall j, owned_all bq j <= refs st j
}.

(** ** One operation *)

(** The fields that only their own setters change. *)
Definition stable (bq : pa_memblockq) :=
  (bq_base bq, bq_maxrewind bq, bq_silence bq, bq_mcalign bq).

(** What every operation but the setters of those fields does to a queue. *)
Record op_post (bq : pa_memblockq) (st : store) (bq' : pa_memblockq) (st' : store) : Prop := {
  op_queue : queue_inv bq' st';
  op_keeps : keeps st st';
  op_stable : stable bq' = stable bq;
  op_ext : forall j, ext bq st j <= ext bq' st' j;
  op_read : near (bq_read_index bq');
  op_write : near (bq_write_index bq');
  op_nodes : Forall node_near (bq_blocks bq');
  op_counters : near (bq_missing bq') \/ near (bq_requested bq')
}.

Lemma op_post_inv bq st bq' st' : ops_inv bq st -> op_post bq st bq' st' -> ops_inv bq' st'.
Proof.
  intros [H1 H2 H3 H4 H5 H6 H7 H8] [P1 P2 P3 P4 P5 P6 P7 P8]. unfold stable in P3.
  injection P3 as Eb Em Es Ea.
  assert (forall j, owned_all bq' j <= refs st' j) as Ho.
  { intros j. specialize (H8 j). specialize (P4 j). unfold owned_all, owned, ext in *. rewrite Es, Ea. lia. }
  split; try done; [by rewrite Em|by rewrite Ea, Eb|]. rewrite Es. intros Hs.
  apply (chunk_in_keeps st st'); [done|by apply H7|]. intros id Hid. specialize (Ho id).
  unfold owned_all, owned in Ho. rewrite Es, (chunk_refs_some _ _ Hid) in Ho.
  pose proof (items_refs_nonneg (bq_blocks bq') id). unfold held in Ho.
  pose proof (chunk_refs_nonneg (ma_leftover (bq_mcalign bq')) id).
  pose proof (chunk_refs_nonneg (ma_current (bq_mcalign bq')) id). lia.
Qed.

(** The counters can be represented when one of them is small. *)
Lemma fields_fit bq st : queue_inv bq st -> near (bq_read_index bq) -> near (bq_write_index bq) ->
  Forall node_near (bq_blocks bq) -> near (bq_missing bq) \/ near (bq_requested bq) ->
  Forall int64 (int64_fields bq).
Proof.
  intros Hq Hr Hw Hn Hc. pose proof (qi_balance _ _ Hq) as Hb. unfold balanced in Hb.
  destruct (ao_sizes _ (qi_attr _ _ Hq)) as [? [? _] [? _] _ _]. unfold len_max in *.
  rewrite s64_small in Hb by lia. unfold near in *. unfold int64_fields, starts.
  repeat (apply Forall_cons; split; [unfold int64; lia|]). apply Forall_fmap.
  eapply Forall_impl; [apply Forall_and; split; [exact Hn|apply (lw_items _ _ (proj1 (qi_list _ _ Hq)))]|].
  intros it [[? ?] Hin]. pose proof (item_in_end _ _ Hin). unfold int64. simpl. lia.
Qed.

(** Nodes lie where the stream has data. *)
Lemma stream_nodes bq st lo hi : list_wf bq st -> (forall i, i < lo \/ hi <= i -> stream bq st i = None) ->
  Forall (fun it => lo <= li_index it /\ li_end it <= hi) (bq_blocks bq).
Proof.
  intros [Hm Hs] Hout. pose proof (lw_items _ _ Hm) as Hin. apply Forall_forall. intros it Hit.
  pose proof (proj1 (Forall_forall _ _) Hin it Hit) as Hi. pose proof (item_in_end _ _ Hi) as He.
  assert (forall i, li_index it <= i < li_end it -> lo <= i < hi) as Hcov.
  { intros i Hr. destruct (decide (lo <= i < hi)) as [|Hne]; [done|exfalso].
    destruct (item_byte_is_Some st it i Hi) as [z Hz]; [by apply covers_true|].
    specialize (Hout i ltac:(lia)). unfold stream in Hout.
    by rewrite (content_covered _ _ it), Hz in Hout by (done || by apply covers_true). }
  pose proof (Hcov (li_index it) ltac:(lia)). pose proof (Hcov (li_end it - 1) ltac:(lia)). lia.
Qed.

Lemma nodes_stream bq st lo hi i : Forall (fun it => lo <= li_index it /\ li_end it <= hi) (bq_blocks bq) ->
  i < lo \/ hi <= i -> stream bq st i = None.
Proof.
  intros Hn Hi. apply content_none. eapply Forall_impl; [exact Hn|]. intros a [? ?].
  destruct Hi; [apply covers_lt|apply covers_ge]; simpl in *; lia.
Qed.

(** A range that contains the nodes and the written part of the stream
    contains the nodes after the push. *)
Lemma push_nodes bq c st bq' st' lo hi : 0 < mc_length c -> list_wf bq' st' ->
  (forall i, stream bq' st' i = written bq c st i) ->
  Forall (fun it => lo <= li_index it /\ li_end it <= hi) (bq_blocks bq) ->
  lo <= bq_write_index bq -> bq_write_index bq + mc_length c <= hi ->
  Forall (fun it => lo <= li_index it /\ li_end it <= hi) (bq_blocks bq').
Proof.
  intros Hpos Hw C Hn Hlo Hhi. apply (stream_nodes bq' st'); [done|]. intros i Hi. rewrite C. unfold written.
  destruct (Z.ltb_spec i (bq_write_index bq)); [by eapply nodes_stream|].
  rewrite (proj2 (Z.ltb_ge _ _)) by lia.
  rewrite kept_from_beyond by (eapply Forall_impl; [exact Hn|simpl; lia]). by eapply nodes_stream.
Qed.

(** What the setters of the other attributes leave alone. *)
Definition steady (bq : pa_memblockq) :=
  (stable bq, bq_read_index bq, bq_write_index bq, bq_requested bq, bq_blocks bq).

Lemma steady_prebuf p bq : steady (pa_memblockq_set_prebuf p bq) = steady bq.
Proof. unfold pa_memblockq_set_prebuf. cbv zeta. by case_match. Qed.
Lemma steady_minreq m bq : steady (pa_memblockq_set_minreq m bq) = steady bq.
Proof. unfold pa_memblockq_set_minreq. cbv zeta. case_match; [|done]. by rewrite steady_prebuf. Qed.
Lemma steady_missing v bq : steady (set_missing v bq) = steady bq.
Proof. done. Qed.
Lemma steady_tlength t bq : steady (pa_memblockq_set_tlength t bq) = steady bq.
Proof.
  unfold pa_memblockq_set_tlength. cbv zeta. rewrite steady_missing.
  repeat case_match; by rewrite ?steady_prebuf, ?steady_minreq.
Qed.
Lemma steady_maxlength l bq : steady (pa_memblockq_set_maxlength l bq) = steady bq.
Proof. unfold pa_memblockq_set_maxlength. cbv zeta. case_match; [|done]. by rewrite steady_tlength. Qed.
Lemma steady_apply a bq : steady (pa_memblockq_apply_attr a bq) = steady bq.
Proof.
  unfold pa_memblockq_apply_attr. by rewrite steady_prebuf, steady_minreq, steady_tlength, steady_maxlength.
Qed.

Section one_op.
Context (bq : pa_memblockq) (st : store).
Hypothesis Hinv : ops_inv bq st.
Hypothesis Hcalm : counters_calm bq.

Lemma post_push c : cmd_ok (CPush c) bq st -> near (bq_write_index bq + mc_length c) ->
  exists r bq' st', pa_memblockq_push bq c st = Ok (r, (bq', st')) /\ op_post bq st bq' st'.
Proof.
  intros Hc Hn. destruct Hinv as [H1 H2 H3 H4 H5 H6 H7 H8]. destruct Hcalm as [Hm Hq].
  pose proof (cmd_push_pre bq c st H1 Hc) as Hp.
  destruct (push_both bq c st H1 Hc) as (r & bq' & st' & E & Hi & K & Fx & X & _ & Hcp).
  pose proof (push_attrs _ _ _ _ _ _ H1 Hc E) as Hat. exists r, bq', st'. split; [done|].
  unfold fixed in Fx. injection Fx as Eb _ Er Es. unfold reading_attrs in Hat. injection Hat as Ea _ _ Em.
  destruct (can_push bq (mc_length c)) eqn:Ec.
  - destruct Hcp as (_ & Ew & Hs). split; [done|done|unfold stable; congruence|by intros j; rewrite X|by rewrite Er|by rewrite Ew| |].
    + apply (push_nodes bq c st _ st'); try done; [by destruct (pp_chunk _ _ _ Hp) as (? & _ & _ & _ & ? & _)|apply Hi|apply H3|apply Hn].
    + left. destruct (push_spec bq c st Hp Ec) as (bq1 & st1 & E1 & _ & _ & _ & R & _). rewrite E in E1. simplify_eq.
      unfold rest in R. simpl in R. assert (bq_missing bq1 = bq_missing bq) as -> by congruence. done.
  - destruct Hcp as (_ & -> & ->). split; try done; by left.
Qed.

Lemma post_peek : exists r bq' st', pa_memblockq_peek bq st = Ok (r, (bq', st')) /\
  op_post bq st bq' st' /\ peek_result bq st r bq' st'.
Proof.
  destruct Hinv as [H1 H2 H3 H4 H5 H6 H7 H8]. destruct Hcalm as [Hm Hq]. unfold near in H2, H3.
  assert (Forall (fun it => li_index it < 2 ^ 62) (bq_blocks bq)) as Hidx.
  { eapply Forall_impl; [apply Forall_and; split; [exact H4|apply (lw_items _ _ (proj1 (qi_list _ _ H1)))]|].
    intros it [[? ?] Hin%item_in_end]. simpl. lia. }
  destruct (inv_peek bq st H1) as (bq' & st' & E & Hi & K); [split_and!; done || lia|].
  destruct (peek_spec bq st) as (r & bq1 & st1 & E1 & P);
    [apply H1|apply H1|by apply qi_silence_alive|lia|lia|done|].
  simpl in E. rewrite E1 in E. simpl in E. simplify_eq. exists r, bq', st'. split; [done|]. split; [|done].
  destruct P as (_ & _ & _ & B & R & _ & Rf & _). unfold rest in R. simpl in R. injection R as _ _ Eb _ _ Em Er Ew Es Ea Emi Erq _.
  split; try done; [unfold stable; congruence| |by rewrite Er|by rewrite Ew|by rewrite B|left; by rewrite Emi].
  intros j. unfold ext. rewrite B, Rf. destruct r as [c|]; simpl; [|lia]. pose proof (chunk_refs_nonneg c j). lia.
Qed.

Lemma suffix_near gone (bq' : pa_memblockq) : bq_blocks bq = gone ++ bq_blocks bq' -> Forall node_near (bq_blocks bq').
Proof. intros B. pose proof (oi_nodes _ _ Hinv) as H. rewrite B in H. by apply Forall_app in H as [_ ?]. Qed.

Lemma post_drop n : 0 <= n -> n mod bq_base bq = 0 -> near (bq_read_index bq + n) ->
  exists bq' st', pa_memblockq_drop bq n st = Ok (bq', st') /\ op_post bq st bq' st'.
Proof.
  intros Hn Hmod Hnear. destruct Hinv as [H1 H2 H3 H4 H5 H6 H7 H8]. destruct Hcalm as [Hm Hq].
  unfold near in H2, Hnear.
  destruct (drop_spec bq st n) as (bq1 & bq' & st' & gone & E & M & T & _ & Hri & _);
    [apply H1|apply H1|by eapply qi_base|lia|done|].
  rewrite E. eexists _, _. split; [done|]. pose proof (inv_moved _ _ _ _ _ _ H1 M T) as Hi.
  destruct M as (_ & B1 & R1 & _). destruct T as (_ & K & _ & R & X & B). rewrite R1 in R.
  unfold rest in R. simpl in R. injection R as _ _ Eb _ _ Em Er Ew _ Es Ea _ Erq _.
  split; simpl; try done; [unfold stable; simpl; congruence| |unfold near; lia|by rewrite Ew| |right; by rewrite Erq].
  - intros j. change (ext bq st j <= ext bq' st' j). rewrite X. unfold ext. by rewrite B1.
  - apply (suffix_near gone). by rewrite <- B1.
Qed.

Lemma post_rewind n : n mod bq_base bq = 0 -> near (bq_read_index bq - n) ->
  exists bq' st', run (CRewind n) bq st = Ok (bq', st') /\ op_post bq st bq' st'.
Proof.
  intros Hmod Hnear. destruct Hinv as [H1 H2 H3 H4 H5 H6 H7 H8]. destruct Hcalm as [Hm Hq].
  destruct (inv_rewind n bq st H1 Hmod) as (bq' & st' & E & Hi & K). rewrite E. exists bq', st'. split; [done|].
  simpl in E. unfold pa_memblockq_rewind in E. rewrite pa_assert_true in E by blia. simpl in E. simplify_eq.
  split; try done. by right.
Qed.

(** The write position after trimming. *)
Lemma post_write_moved t b account gone bq' st' : flag_ok bq b -> trimmed bq st gone bq' st' -> near t ->
  op_post bq st (write_index_changed (bq_write_index bq) account (set_in_prebuf b (set_write_index t bq'))) st'.
Proof.
  intros Hf T Ht. destruct Hinv as [H1 H2 H3 H4 H5 H6 H7 H8]. destruct Hcalm as [Hm Hq].
  pose proof (inv_write_moved _ _ t _ _ _ b account H1 Hf T) as Hi. destruct T as (_ & K & _ & R & X & B).
  unfold rest in R. injection R as _ _ Eb _ _ Em Er _ _ Es Ea Emi Erq _.
  pose proof (suffix_near gone bq' B).
  destruct account; split; simpl; try done; try (by rewrite Er); try (unfold stable; simpl; congruence);
    try (intros j; change (ext bq st j <= ext bq' st' j); by rewrite X).
  - left. by rewrite Emi.
  - right. by rewrite Erq.
Qed.

Lemma post_seek offset seek account : near (seek_target bq offset seek) ->
  exists bq' st', run (CSeek offset seek account) bq st = Ok (bq', st') /\ op_post bq st bq' st'.
Proof.
  intros Ht. pose proof (oi_queue _ _ Hinv) as H. simpl. rewrite seek_eq. unfold drop_backlog. simpl.
  rewrite drop_backlog_loop_write_index.
  destruct (drop_backlog_spec bq st) as (bq' & st' & gone & E & T & _); [apply H..|].
  unfold drop_backlog in E. rewrite E. simpl. eexists _, _. split; [done|].
  assert (bq_in_prebuf bq' = bq_in_prebuf bq) as Ef
    by (destruct T as (_ & _ & _ & R & _); unfold rest in R; congruence).
  pose proof (post_write_moved _ (bq_in_prebuf bq) account gone bq' st' ltac:(by left) T Ht) as P.
  rewrite <- Ef in P. by destruct bq'.
Qed.

Lemma post_flush_write account :
  exists bq' st', run (CFlushWrite account) bq st = Ok (bq', st') /\ op_post bq st bq' st'.
Proof.
  pose proof (oi_queue _ _ Hinv) as H. simpl. unfold pa_memblockq_flush_write.
  destruct (silence_spec bq st) as (bq' & st' & E & T & _); [apply H..|]. rewrite E. simpl.
  eexists _, _. split; [done|].
  destruct (prebuf_force_flag (set_write_index (bq_read_index bq') bq')) as (b & Eb & Hf).
  rewrite Eb. assert (rest bq' = rest bq) as R by apply T. unfold rest in R.
  assert (bq_write_index bq' = bq_write_index bq) as -> by congruence.
  assert (bq_read_index bq' = bq_read_index bq) as Er by congruence.
  eapply post_write_moved; [|exact T|rewrite Er; apply (oi_read _ _ Hinv)].
  intros Ht. destruct (Hf Ht) as [?|?]; simpl in *; [left|right]; congruence.
Qed.

Lemma post_flush_read : exists bq' st', run CFlushRead bq st = Ok (bq', st') /\ op_post bq st bq' st'.
Proof.
  destruct Hinv as [H1 H2 H3 H4 H5 H6 H7 H8]. destruct Hcalm as [Hm Hq].
  destruct (inv_flush_read bq st H1) as (bq' & st' & E & Hi & K). rewrite E. exists bq', st'. split; [done|].
  simpl in E. unfold pa_memblockq_flush_read in E.
  destruct (silence_spec bq st) as (bq1 & st1 & E1 & T & Bn); [apply H1..|]. rewrite E1 in E. simpl in E.
  destruct (prebuf_force_flag (set_read_index (bq_write_index bq1) bq1)) as (b & Eb & _). rewrite Eb in E. simplify_eq.
  destruct T as (_ & _ & _ & R & X & _). unfold rest in R. injection R as _ _ Eb' _ _ Em Er Ew _ Es Ea Emi Erq _.
  split; simpl; try done; [unfold stable; simpl; congruence| |by rewrite Ew..|by rewrite Bn|right; by rewrite Erq].
  intros j. change (ext bq st j <= ext bq1 st' j). by rewrite X.
Qed.

Lemma post_silence : exists bq' st', run CSilence bq st = Ok (bq', st') /\ op_post bq st bq' st'.
Proof.
  destruct Hinv as [H1 H2 H3 H4 H5 H6 H7 H8]. destruct Hcalm as [Hm Hq].
  destruct (inv_silence bq st H1) as (bq' & st' & E & Hi & K). rewrite E. exists bq', st'. split; [done|].
  simpl in E. destruct (silence_spec bq st) as (bq1 & st1 & E1 & T & Bn); [apply H1..|]. rewrite E1 in E. simplify_eq.
  destruct T as (_ & _ & _ & R & X & _). unfold rest in R. injection R as _ _ Eb' _ _ Em Er Ew _ Es Ea Emi Erq _.
  split; try done; [unfold stable; congruence| |by rewrite Er|by rewrite Ew|by rewrite Bn|right; by rewrite Erq].
  intros j. by rewrite X.
Qed.

(** The commands that leave the store and the list of nodes alone. *)
Lemma post_steady bq' : queue_inv bq' st -> steady bq' = steady bq -> op_post bq st bq' st.
Proof.
  intros Hi E. destruct Hinv as [H1 H2 H3 H4 H5 H6 H7 H8]. destruct Hcalm as [Hm Hq].
  unfold steady, stable in E. injection E as E1 E2 E3 E4 Er Ew Erq Eb.
  split; [done|apply keeps_refl|unfold stable; congruence| |by rewrite Er|by rewrite Ew|by rewrite Eb|right; by rewrite Erq].
  intros j. unfold ext. by rewrite Eb.
Qed.

Lemma post_pop_missing : op_post bq st (snd (pa_memblockq_pop_missing bq)) st.
Proof.
  pose proof (inv_pop_missing bq st (oi_queue _ _ Hinv)) as Hi. unfold pa_memblockq_pop_missing in *.
  repeat case_match; simpl in *; try (by apply post_steady).
  destruct Hinv as [H1 H2 H3 H4 H5 H6 H7 H8]. split; try done. left. simpl. unfold near. lia.
Qed.

Lemma post_willneed : op_post bq st (pa_memblockq_willneed bq) st.
Proof.
  apply post_steady; [by apply inv_willneed, Hinv|]. unfold pa_memblockq_willneed.
  pose proof (rest_fix_read bq) as R. pose proof (blocks_fix_read bq) as B. unfold rest in R. unfold steady, stable. congruence.
Qed.
End one_op.

(** The commands of the file MemblockqInv but the setter of [maxrewind]. *)
Lemma post_cmd k bq st : ops_inv bq st -> op_ok (OCmd k) bq st -> (forall v, k <> CSetMaxrewind v) ->
  exists bq' st', run k bq st = Ok (bq', st') /\ op_post bq st bq' st'.
Proof.
  intros H [Ha Hc] Hk. pose proof (oi_queue _ _ H) as Hq.
  assert (cmd_ok k bq st -> forall bq', run k bq st = Ok (bq', st) -> steady bq' = steady bq ->
    exists bq1 st1, run k bq st = Ok (bq1, st1) /\ op_post bq st bq1 st1) as Hset.
  { intros Hok bq' E Es. destruct (run_inv k bq st Hq Hok) as (bq1 & st1 & E1 & Hi & _). rewrite E in E1. injection E1 as <- <-.
    exists bq', st. split; [done|]. by apply post_steady. }
  destruct k; simpl in Ha.
  - destruct Ha as [Ha Hn]. destruct (post_push bq st H Hc c Ha Hn) as (r & bq' & st' & E & P).
    simpl. rewrite E. simpl. eauto.
  - destruct (post_peek bq st H Hc) as (r & bq' & st' & E & P & _). simpl. rewrite E. simpl. eauto.
  - destruct Ha as (? & ? & ?). by apply post_drop.
  - destruct Ha as (? & ? & ?). by apply post_rewind.
  - destruct Ha as [_ ?]. by apply post_seek.
  - by apply post_flush_write.
  - by apply post_flush_read.
  - by apply post_silence.
  - eexists _, _. split; [done|]. by apply post_pop_missing.
  - by eapply Hset.
  - eapply Hset; [done..|]. unfold pa_memblockq_prebuf_force. by case_match.
  - eexists _, _. split; [done|]. by apply post_willneed.
  - eapply Hset; [done..|apply steady_maxlength].
  - eapply Hset; [done..|apply steady_tlength].
  - eapply Hset; [done..|apply steady_minreq].
  - eapply Hset; [done..|apply steady_prebuf].
  - by destruct (Hk v).
  - eapply Hset; [done..|apply steady_apply].
Qed.

(** ** Pushes of any length, silence, rewinding *)

(** What every operation leaves. *)
Definition op_result (st : store) (bq' : pa_memblockq) (st' : store) : Prop :=
  ops_inv bq' st' /\ keeps st st' /\ (near (bq_missing bq') \/ near (bq_requested bq')).

Lemma post_result bq st bq' st' : ops_inv bq st -> op_post bq st bq' st' -> op_result st bq' st'.
Proof. intros H P. split_and!; [by apply (op_post_inv bq st)|apply P..]. Qed.

Lemma result_push_align bq st c : ops_inv bq st -> op_ok (OPushAlign c) bq st ->
  exists r bq' st', pa_memblockq_push_align bq c st = Ok (r, (bq', st')) /\ op_result st bq' st'.
Proof.
  intros H [(Hc & Hix & Hr & He & Hn & Hroom) [Hm Hq]]. pose proof H as [H1 H2 H3 H4 H5 H6 H7 H8].
  assert (align_pre bq c st) as Hp by done.
  destruct (can_push bq (whole bq c)) eqn:Ec.
  2: { rewrite (fresh_room bq c st Hp He Ec). eexists _, _, _. split; [done|]. split_and!; [done|apply keeps_refl|by left]. }
  destruct (fresh_push bq c st Hp He Ec) as (bq' & st' & E & P). exists 0, bq', st'. split; [done|].
  pose proof P as [P1 P2 P3 (P4 & P4' & P4'') [P5 P6] P7 P8 P9 P10 P11 P12 _]. unfold limits in P10. injection P10 as _ _ _ Em.
  destruct (id Hc) as (? & _ & _ & _ & Hl & _). pose proof (whole_bound bq c (qi_base _ _ H1) Hl) as (Hw & _).
  split_and!; [|done|left; by rewrite P11].
  assert (forall j, owned_all bq' j <= refs st' j) as Ho.
  { intros j. specialize (H8 j). specialize (P8 j). unfold owned_all, owned, held, ext in *. rewrite P9, (unset_refs _ _ P4').
    destruct He as [He1 He2]. rewrite (unset_refs _ _ He1), (unset_refs _ _ He2) in H8.
    pose proof (lo_refs bq c j). destruct (_ =? mc_length c); [rewrite (unset_refs _ _ P4'')|rewrite P4'']; lia. }
  split; try done; [by rewrite P6|by rewrite P5| |by rewrite Em|by rewrite P4, P3|].
  - destruct (Z.eqb_spec (whole bq c) 0) as [E0|E0].
    + apply (stream_nodes bq' st'); [apply P1|]. intros i Hi. rewrite P7. by eapply nodes_stream.
    + apply (push_nodes bq (head_part bq c) st _ st'); try done; [simpl; lia|apply P1|apply H3|apply Hn].
  - rewrite P9. intros Hs. apply (chunk_in_keeps st st'); [done|by apply H7|]. intros i Hid.
    apply (qi_silence_alive _ _ P1). by rewrite P9.
Qed.

(** Giving up the reference of a chunk, if it has one. *)
Lemma unref_if_set_spec c st : store_ok st -> (forall j, chunk_refs c j <= refs st j) ->
  exists st', unref_if_set c st = Ok st' /\ store_ok st' /\ keeps st st' /\
    forall j, refs st' j = refs st j - chunk_refs c j.
Proof.
  intros Hok Hr. unfold unref_if_set, chunk_refs in *. destruct (mc_memblock c) as [id|].
  - destruct (pa_memblock_unref_spec st id Hok) as (st' & E & Hok' & K & _ & R).
    { specialize (Hr id). unfold delta in Hr. rewrite decide_True in Hr by done. lia. }
    exists st'. split_and!; try done. intros j. rewrite R. unfold delta. case_decide; lia.
  - exists st. split_and!; try done. intros j. lia.
Qed.

(** The queue with another silence chunk, over a store where its references
    are covered. *)
Lemma inv_set_silence s bq st st' : queue_inv bq st -> store_ok st' -> keeps st st' ->
  (forall j, items_refs (bq_blocks bq) j + chunk_refs s j <= refs st' j) -> queue_inv (set_silence s bq) st'.
Proof.
  intros [H1 [[M1 M2 M3 M4 M5 M6] Hs] H3 H4 H5] Hok K Ho.
  assert (forall j, items_refs (bq_blocks bq) j <= refs st' j) as Hr.
  { intros j. specialize (Ho j). pose proof (chunk_refs_nonneg s j). lia. }
  split; try done.
  - split; [|done]. split; try done. apply (items_in_keeps st); [done..|]. intros j Hj. specialize (Hr j). simpl in Hj. lia.
  - destruct H3 as [[] ? ?]. split; [split|..]; done.
Qed.

Lemma result_set_silence bq st silence : ops_inv bq st -> op_ok (OSetSilence silence) bq st ->
  exists bq' st', pa_memblockq_set_silence silence bq st = Ok (bq', st') /\ op_result st bq' st'.
Proof.
  intros H [Hs [Hm Hq]]. simpl in Hs. pose proof H as [H1 H2 H3 H4 H5 H6 H7 H8]. unfold pa_memblockq_set_silence.
  assert (forall j, 0 <= items_refs (bq_blocks bq) j) as Hi by (intros j; apply items_refs_nonneg).
  destruct (unref_if_set_spec (bq_silence bq) st) as (st1 & E1 & Hok1 & K1 & R1); [apply H1| |].
  { intros j. specialize (H8 j). specialize (Hi j). pose proof (held_nonneg (bq_mcalign bq) j). unfold owned_all, owned in H8. lia. }
  rewrite E1. simpl. destruct silence as [s|].
  - destruct (Hs s eq_refl) as [Hc Hr]. pose proof Hc as (id & Em & _). rewrite Em. simpl.
    assert (0 < refs st1 id) as Ha.
    { rewrite R1. specialize (Hr id). rewrite (chunk_refs_some _ _ Em) in Hr. unfold owned in Hr. specialize (Hi id).
      pose proof (held_nonneg (bq_mcalign bq) id). lia. }
    destruct (pa_memblock_ref_spec st1 id Hok1 Ha) as (st2 & E2 & Hok2 & K2 & R2). rewrite E2. simpl.
    assert (keeps st st2) as K by (apply (keeps_trans st st1); [apply H1|apply Hok1|done..]).
    assert (forall j, refs st2 j = refs st j - chunk_refs (bq_silence bq) j + chunk_refs s j) as R.
    { intros j. rewrite R2, R1. unfold chunk_refs at 3. by rewrite Em. }
    eexists _, _. split; [done|]. split_and!; [|done|by left].
    assert (forall j, owned_all (set_silence s bq) j <= refs st2 j) as Ho.
    { intros j. rewrite R. specialize (H8 j). unfold owned_all, owned in *. simpl. lia. }
    split; simpl; try done.
    + apply (inv_set_silence s bq st); try done. intros j. specialize (Ho j). unfold owned_all, owned in Ho. simpl in Ho.
      pose proof (held_nonneg (bq_mcalign bq) j). lia.
    + intros _. apply (chunk_in_keeps st); [done..|]. intros i Ei. rewrite Em in Ei. simplify_eq. rewrite R2.
      unfold delta. rewrite decide_True by done. lia.
  - eexists _, _. split; [done|]. split_and!; [|done|by left].
    assert (forall j, owned_all (set_silence pa_memchunk_reset bq) j <= refs st1 j) as Ho.
    { intros j. rewrite R1. specialize (H8 j). unfold owned_all, owned in *. simpl.
      change (chunk_refs pa_memchunk_reset j) with 0. lia. }
    split; simpl; try done. apply (inv_set_silence _ bq st); try done. intros j. specialize (Ho j). unfold owned_all, owned in Ho. simpl in Ho.
    pose proof (held_nonneg (bq_mcalign bq) j). lia.
Qed.

Lemma result_set_maxrewind bq st v : ops_inv bq st -> op_ok (OCmd (CSetMaxrewind v)) bq st ->
  op_result st (pa_memblockq_set_maxrewind v bq) st.
Proof.
  intros H [Hv [Hm Hq]]. simpl in Hv. pose proof H as [H1 H2 H3 H4 H5 H6 H7 H8].
  destruct (run_inv (CSetMaxrewind v) bq st H1) as (bq' & st' & E & Hi & K); [unfold len_max in Hv; simpl; lia|].
  simpl in E. injection E as <- <-. split_and!; [|done|by left]. split; try done. simpl.
  pose proof (qi_base _ _ H1). unfold len_max in *. pose proof (Z.mul_div_le v (bq_base bq) ltac:(done)).
  pose proof (Z.div_pos v (bq_base bq) ltac:(lia) ltac:(done)). rewrite u64_small by nia. lia.
Qed.

(** ** Freeing the queue *)


(** ** Blocks of a fixed size *)

Lemma result_peek_fixed bq st n : ops_inv bq st -> op_ok (OPeekFixed n) bq st ->
  exists r bq' st', pa_memblockq_peek_fixed_size (peek_fixed_fuel n bq) bq n st = Ok (r, (bq', st')) /\ op_result st bq' st'.
Proof.
  intros H [(Hset & Hn & Htot) Hc]. pose proof H as [H1 H2 H3 H4 H5 H6 H7 H8]. pose proof (H7 Hset) as Hsil.
  destruct (post_peek bq st H Hc) as (r & bq' & st1 & E & P & Q).
  destruct Q as (Hok1 & _ & _ & B & R & _ & Rf & _). unfold rest in R. simpl in R. injection R as _ _ _ _ _ _ Er Ew Es _ _ _ _.
  assert (forall j, chunk_refs (bq_silence bq) j <= refs st j) as Hsr.
  { intros j. specialize (H8 j). pose proof (items_refs_nonneg (bq_blocks bq) j). pose proof (held_nonneg (bq_mcalign bq) j).
    unfold owned_all, owned in H8. lia. }
  destruct (peek_fixed_spec (peek_fixed_fuel n bq) bq n st r bq' st1) as (r' & st' & E' & Hok' & K' & R' & _);
    try done; [apply H1|apply H1| |unfold peek_fixed_fuel; lia|apply P|].
  { intros it Hit. rewrite Forall_forall in H4. destruct (H4 it Hit). unfold near in H2.
    pose proof (proj1 (Forall_forall _ _) (lw_items _ _ (proj1 (qi_list _ _ H1))) it Hit) as Hin%item_in_end. lia. }
  exists r', bq', st'. split; [done|]. apply (post_result bq st); [done|].
  assert (forall j, refs st j <= refs st' j) as Hle.
  { intros j. rewrite R'. destruct r' as [c|]; simpl; [pose proof (chunk_refs_nonneg c j)|]; lia. }
  destruct P as [P1 P2 P3 P4 P5 P6 P7 P8]. split; try done.
  - apply (inv_env bq' st1); try done. intros j. specialize (H8 j). specialize (Hle j).
    pose proof (held_nonneg (bq_mcalign bq) j). unfold owned_all, owned in *. rewrite B, Es. lia.
  - apply (keeps_trans st st1); [apply H1|apply Hok1|done..].
  - intros j. unfold ext. rewrite B. specialize (Hle j). lia.
Qed.

(** ** The values computed fit *)

Ltac fits := repeat first
  [ rewrite Forall_app; split
  | apply Forall_cons; split; [unfold int64; lia|]
  | apply Forall_nil_2 ].

Lemma nodes_fit bq st (f : Z -> Z) (g : list_item -> Z) : ops_inv bq st ->
  (forall it, li_index it < li_end it -> node_near it -> int64 (f (g it))) -> Forall int64 (f <$> (g <$> bq_blocks bq)).
Proof.
  intros H Hf. apply Forall_fmap, Forall_fmap. eapply Forall_impl;
    [apply Forall_and; split; [exact (oi_nodes _ _ H)|apply (lw_items _ _ (proj1 (qi_list _ _ (oi_queue _ _ H))))]|].
  intros it [Hn Hin%item_in_end]. by apply Hf.
Qed.

Lemma ends_fit bq st : ops_inv bq st -> Forall int64 (ends bq).
Proof.
  intros H. unfold ends. rewrite <- (list_fmap_id (li_end <$> _)). apply (nodes_fit bq st id); [done|].
  intros it ? [? ?]. unfold int64. simpl. lia.
Qed.

Lemma attr_fit bq st bq' : ops_inv bq st -> counters_calm bq -> attr_ok bq' -> balanced bq' -> steady bq' = steady bq ->
  Forall int64 (attr_values bq bq').
Proof.
  intros H [Hm Hq] Ha Hb E. unfold steady, stable in E. injection E as _ _ _ _ Er Ew Erq _. unfold balanced in Hb. rewrite Er, Ew, Erq in Hb.
  destruct (ao_sizes _ Ha) as [? [? _] [? _] _ _]. destruct (ao_sizes _ (qi_attr _ _ (oi_queue _ _ H))) as [? [? _] [? _] _ _].
  unfold len_max in *. rewrite s64_small in Hb by lia. pose proof (oi_read _ _ H). pose proof (oi_write _ _ H).
  unfold attr_values, near in *. fits.
Qed.

Lemma push_fit bq st len : ops_inv bq st -> counters_calm bq -> 0 <= len < 2 ^ 31 -> near (bq_write_index bq + len) ->
  Forall int64 (push_values len bq).
Proof.
  intros H [Hm Hq] Hl Hn. pose proof (oi_read _ _ H). pose proof (oi_write _ _ H).
  destruct (ao_sizes _ (qi_attr _ _ (oi_queue _ _ H))) as [? [? _] [? _] _ _]. unfold len_max, near in *.
  unfold push_values, starts. fits; [by eapply ends_fit| |];
    (eapply nodes_fit; [done|]); intros it ? [? ?]; unfold int64; lia.
Qed.

Lemma peek_fit bq st : ops_inv bq st -> Forall int64 (peek_values bq).
Proof.
  intros H. pose proof (oi_read _ _ H). pose proof (oi_write _ _ H). unfold near in *.
  unfold peek_values, starts. fits; [by eapply ends_fit| |];
    (eapply nodes_fit; [done|]); intros it ? [? ?]; unfold int64; lia.
Qed.

Lemma fixed_fit bq st n : ops_inv bq st -> 0 < n < 2 ^ 31 -> Forall int64 (fixed_values n bq).
Proof.
  intros H Hn. pose proof (oi_read _ _ H). unfold near in *.
  unfold fixed_values, starts. fits; (eapply nodes_fit; [done|]); intros it ? [? ?]; unfold int64; lia.
Qed.

Lemma drop_fit bq st n : ops_inv bq st -> counters_calm bq -> 0 <= n -> near (bq_read_index bq + n) ->
  Forall int64 (drop_values n bq).
Proof.
  intros H [Hm Hq] Hn Hnear. pose proof (oi_read _ _ H). pose proof (oi_write _ _ H). pose proof (oi_maxrewind _ _ H).
  destruct (so_maxrewind _ (ao_sizes _ (qi_attr _ _ (oi_queue _ _ H)))) as [_ ?]. unfold len_max, near in *.
  unfold drop_values. fits; [by eapply ends_fit| |];
    unfold ends; (eapply nodes_fit; [done|]); intros it ? [? ?]; unfold int64; lia.
Qed.

Lemma seek_fit bq st offset seek : ops_inv bq st -> counters_calm bq -> int64 offset -> near (seek_target bq offset seek) ->
  Forall int64 (seek_values offset seek bq).
Proof.
  intros H [Hm Hq] Ho Hnear. pose proof (oi_read _ _ H). pose proof (oi_write _ _ H). pose proof (oi_maxrewind _ _ H).
  destruct (so_maxrewind _ (ao_sizes _ (qi_attr _ _ (oi_queue _ _ H)))) as [_ ?]. unfold len_max, near in *.
  unfold seek_values, move_values. apply Forall_app; split; [apply Forall_cons; split; [done|]; fits|].
  apply Forall_app; split; [by eapply ends_fit|fits].
Qed.

Lemma values_fit o bq st : ops_inv bq st -> op_ok o bq st -> Forall int64 (int64_values o bq).
Proof.
  intros H [Ha Hc]. pose proof (oi_queue _ _ H) as Hq. pose proof (oi_read _ _ H) as Hr. pose proof (oi_write _ _ H) as Hw.
  assert (forall k bq', cmd_ok k bq st -> run k bq st = Ok (bq', st) -> steady bq' = steady bq -> Forall int64 (attr_values bq bq')) as Hset.
  { intros k bq' Hok E Es. destruct (run_inv k bq st Hq Hok) as (bq1 & st1 & E1 & Hi & _). rewrite E in E1. injection E1 as <- <-.
    apply (attr_fit bq st); try done; apply Hi. }
  pose proof Hc as [Hm Hrq]. destruct o as [k|c|n|s]; simpl in *.
  - destruct k; simpl in *; unfold near in Hr, Hw, Hm, Hrq; try (by fits).
    + destruct Ha as [(Hc1 & _) Hn]. apply (push_fit bq st); [done..| |done]. pose proof (chunk_in_bound _ _ (qi_store _ _ Hq) Hc1). lia.
    + by eapply peek_fit.
    + destruct Ha as (? & ? & ?). by apply (drop_fit bq st).
    + destruct Ha as (? & ? & ?). unfold near in *. fits.
    + destruct Ha. by apply (seek_fit bq st).
    + by eapply ends_fit.
    + eapply (Hset (CSetMaxlength v)); [done..|apply steady_maxlength].
    + eapply (Hset (CSetTlength v)); [done..|apply steady_tlength].
    + set (bq1 := pa_memblockq_set_maxlength (a_maxlength a) bq).
      assert (cmd_ok (CSetMaxlength (a_maxlength a)) bq st) as Hk1 by (simpl; unfold len_max; lia).
      assert (cmd_ok (CSetTlength (a_tlength a)) bq1 st) as Hk2 by (simpl; unfold len_max; lia).
      destruct (run_inv _ bq st Hq Hk1) as (b1 & s1 & E1 & Hi1 & _). simpl in E1. fold bq1 in E1. injection E1 as <- <-.
      destruct (run_inv _ bq1 st Hi1 Hk2) as (b2 & s2 & E2 & Hi2 & _). simpl in E2. injection E2 as <- <-.
      pose proof (steady_maxlength (a_maxlength a) bq) as Es1. fold bq1 in Es1.
      pose proof (steady_tlength (a_tlength a) bq1) as Es2. rewrite Es1 in Es2. set (bq2 := pa_memblockq_set_tlength _ bq1) in *.
      pose proof (attr_fit bq st bq1 H Hc (qi_attr _ _ Hi1) (qi_balance _ _ Hi1) Es1) as F1.
      pose proof (attr_fit bq st bq2 H Hc (qi_attr _ _ Hi2) (qi_balance _ _ Hi2) Es2) as F2.
      change (Forall int64 (attr_values bq bq1 ++ attr_values bq1 bq2)). apply Forall_app; split; [done|]. unfold attr_values, int64 in *. rewrite !Forall_cons in F1, F2.
      unfold steady in Es1. injection Es1 as _ _ _ _ Er1 Ew1 _ _. rewrite Er1, Ew1.
      destruct (ao_sizes _ (qi_attr _ _ Hi1)) as [? [? _] [? _] _ _]. destruct (ao_sizes _ (qi_attr _ _ Hi2)) as [? [? _] [? _] _ _].
      unfold len_max in *. fits.
  - destruct Ha as (Hc1 & _ & _ & _ & Hn & _). pose proof (chunk_in_bound _ _ (qi_store _ _ Hq) Hc1).
    pose proof (whole_bound bq c (qi_base _ _ Hq) ltac:(lia)). apply (push_fit bq st); done || lia.
  - destruct Ha as (_ & Hn & Hs). change (Forall int64 (peek_values bq ++ fixed_values n bq)). apply Forall_app; split; [by eapply peek_fit|]. apply (fixed_fit bq st); [done|].
    pose proof (msum_nonneg _ _ (wf_len_nonneg _ (proj1 (qi_store _ _ Hq)))). lia.
  - constructor.
Qed.

(** ** Any operation *)

(** Within the contract every operation returns, computes no value out of
    range, and keeps the invariant. *)
Lemma exec_spec o bq st : ops_inv bq st -> op_ok o bq st ->
  exists bq' st', exec o bq st = Ok (bq', st') /\ op_result st bq' st'.
Proof.
  intros H Ho. unfold exec. rewrite (no_overflow_ok _ (values_fit o bq st H Ho)). rewrite bind_ok.
  assert (exists bq' st', match o with
    | OCmd k => run k bq st
    | OPushAlign c => '(_, s) ← pa_memblockq_push_align bq c st; Ok s
    | OPeekFixed n => '(_, s) ← pa_memblockq_peek_fixed_size (peek_fixed_fuel n bq) bq n st; Ok s
    | OSetSilence s => pa_memblockq_set_silence s bq st
    end = Ok (bq', st') /\ op_result st bq' st') as (bq' & st' & E & P).
  { destruct o as [k|c|n|s].
    - assert ((exists v, k = CSetMaxrewind v) \/ forall v, k <> CSetMaxrewind v) as [[v ->]|Hk].
      { destruct k; (by right) || (left; by eauto). }
      + eexists _, _. split; [done|]. by apply result_set_maxrewind.
      + destruct (post_cmd k bq st H Ho Hk) as (bq' & st' & E & P). exists bq', st'. split; [done|]. by apply (post_result bq st).
    - destruct (result_push_align bq st c H Ho) as (r & bq' & st' & E & P). rewrite E. simpl. eauto.
    - destruct (result_peek_fixed bq st n H Ho) as (r & bq' & st' & E & P). rewrite E. simpl. eauto.
    - by apply result_set_silence. }
  rewrite E, bind_ok. destruct P as (Hi & K & Hc).
  rewrite no_overflow_ok; [rewrite bind_ok; by exists bq', st'|]. destruct Hi. by apply (fields_fit bq' st').
Qed.

(** ** Reachable states *)

(** What the creator of a queue has to respect. *)
Definition create_ok (idx maxlength tlength : Z) (spec : pa_sample_spec) (prebuf minreq maxrewind : Z)
    (silence : option pa_memchunk) (st : store) : Prop :=
  store_ok st /\ spec_ok spec /\ new_args_ok maxlength tlength prebuf minreq maxrewind /\ maxrewind <= len_max /\
  near idx /\ forall s, silence = Some s -> chunk_in st s.

(** A queue that was created and then used by clients that respect its
    contract, while the rest of the program works with the same memory pool. *)
Inductive reachable : pa_memblockq -> store -> Prop :=
| reach_new idx maxlength tlength spec prebuf minreq maxrewind silence st bq st' :
    create_ok idx maxlength tlength spec prebuf minreq maxrewind silence st ->
    pa_memblockq_new idx maxlength tlength spec prebuf minreq maxrewind silence st = Ok (bq, st') ->
    reachable bq st'
| reach_op o bq st bq' st' :
    reachable bq st -> op_ok o bq st -> exec o bq st = Ok (bq', st') -> reachable bq' st'
| reach_env bq st st' :
    reachable bq st -> store_ok st' -> keeps st st' -> (forall j, owned_all bq j <= refs st' j) ->
    reachable bq st'.

Lemma inv_all_env bq st st' : ops_inv bq st -> store_ok st' -> keeps st st' ->
  (forall j, owned_all bq j <= refs st' j) -> ops_inv bq st'.
Proof.
  intros [H1 H2 H3 H4 H5 H6 H7 H8] Hok K Ho.
  assert (queue_inv bq st') as Hq.
  { apply (inv_env bq st); try done. intros j. specialize (Ho j). pose proof (held_nonneg (bq_mcalign bq) j).
    unfold owned_all in Ho. lia. }
  split; try done. intros Hs. apply (chunk_in_keeps st st'); [done|by apply H7|]. apply (qi_silence_alive _ _ Hq).
Qed.

Lemma set_maxrewind_value v bq :
  bq_maxrewind (pa_memblockq_set_maxrewind v bq) =
  u64 (v / bq_base (pa_memblockq_set_maxrewind v bq) * bq_base (pa_memblockq_set_maxrewind v bq)).
Proof. done. Qed.

Lemma new_attrs_maxrewind base idx maxlength tlength spec prebuf minreq maxrewind :
  let a := new_attrs base idx maxlength tlength spec prebuf minreq maxrewind in
  bq_maxrewind a = u64 (maxrewind / bq_base a * bq_base a).
Proof. unfold new_attrs. cbv zeta. apply set_maxrewind_value. Qed.

Lemma new_ops_inv idx maxlength tlength spec prebuf minreq maxrewind silence st :
  create_ok idx maxlength tlength spec prebuf minreq maxrewind silence st ->
  exists bq st', pa_memblockq_new idx maxlength tlength spec prebuf minreq maxrewind silence st = Ok (bq, st') /\ ops_inv bq st'.
Proof.
  intros (Hok & Hs & Hargs & Hmr & Hidx & Hsil).
  assert (silence_arg_ok silence st) as Hsa.
  { destruct silence as [s|]; [|done]. destruct (Hsil s eq_refl) as (id & ? & ? & _). by exists id. }
  destruct (new_spec idx maxlength tlength spec prebuf minreq maxrewind silence st Hok Hs Hargs Hsa)
    as (bq & st' & E & Hq & K & B & Er & Ew & Eb). exists bq, st'. split; [done|].
  assert (bq_mcalign bq = mk_mcalign (bq_base bq) pa_memchunk_reset pa_memchunk_reset /\
    bq_maxrewind bq = u64 (maxrewind / bq_base bq * bq_base bq) /\
    (isset (bq_silence bq) = true -> silence = Some (bq_silence bq))) as (Ea & Em & Es).
  { rewrite new_eq, (pa_frame_size_ok _ Hs), bind_ok in E. cbv zeta in E.
    destruct (new_attrs_spec (frame_size spec) idx maxlength tlength spec prebuf minreq maxrewind) as (_ & _ & _ & El & _);
      [pose proof (frame_size_bound _ Hs); lia|done|]. cbv zeta in El.
    pose proof (new_attrs_maxrewind (frame_size spec) idx maxlength tlength spec prebuf minreq maxrewind) as Ex.
    generalize dependent (new_attrs (frame_size spec) idx maxlength tlength spec prebuf minreq maxrewind). intros a E El Ex.
    unfold list_part in El. injection El as _ _ _ _ El.
    destruct silence as [s|]; inv_bind; unfold pa_mcalign_new in *; inv_bind; simpl in *; split_and!; try done.
    by rewrite El. }
  split; try done; [by rewrite Er|by rewrite Ew|by rewrite B| |by rewrite Ea| |].
  - rewrite Em. pose proof (qi_base _ _ Hq). destruct Hargs as (_ & _ & _ & _ & ?). unfold len_max in *.
    pose proof (Z.mul_div_le maxrewind (bq_base bq) ltac:(done)).
    pose proof (Z.div_pos maxrewind (bq_base bq) ltac:(lia) ltac:(done)). rewrite u64_small by nia. lia.
  - intros Hset. apply (chunk_in_keeps st st'); [done|by apply Hsil, Es|]. apply (qi_silence_alive _ _ Hq).
  - intros j. unfold owned_all, held. rewrite Ea. simpl. change (chunk_refs pa_memchunk_reset j) with 0.
    pose proof (qi_owned _ _ Hq j). lia.
Qed.

Lemma reachable_inv bq st : reachable bq st -> ops_inv bq st.
Proof.
  induction 1 as [idx ml tl spec pb mr mw sil st bq st' H1 E|o bq st bq' st' _ IH Ho E|bq st st' _ IH Hok K Ho].
  - destruct (new_ops_inv idx ml tl spec pb mr mw sil st H1) as (bq1 & st1 & E1 & Hi). rewrite E in E1. by injection E1 as <- <-.
  - destruct (exec_spec o bq st IH Ho) as (bq1 & st1 & E1 & Hi & _). rewrite E in E1. by injection E1 as <- <-.
  - by apply (inv_all_env bq st).
Qed.

(** ** Properties *)


(** C2: in every state a queue can reach under the same contract its nodes are
    disjoint, in order, within 2^60 of 0, and hold live, non-empty slices of
    blocks; [n_blocks] counts them; the cached cursors point into the list;
    every node, the silence chunk and what is left in the aligner are covered
    by a reference; base <= minreq <= tlength <= maxlength and
    prebuf <= tlength + base - minreq, all multiples of the frame size;
    prebuffering is only active with a level to wait for; and the bytes still
    to be requested, the bytes requested and not yet arrived and the bytes
    between the two positions add up to the target length. *)
Theorem memblockq_invariant bq st : reachable bq st ->
  list_wf bq st /\ attr_ok bq /\ (forall j, owned_all bq j <= refs st j) /\
  near (bq_read_index bq) /\ near (bq_write_index bq) /\ Forall node_near (bq_blocks bq) /\
  bq_missing bq + bq_requested bq + (bq_write_index bq - bq_read_index bq) = s64 (bq_tlength bq).
Proof. intros [[H1 H2 H3 H4 H5] ? ? ? ? ? ? ?]%reachable_inv. done. Qed.

(** In every reachable state, bringing the cached read cursor up to date,
    which only walks from where it was, finds the same node as a search of the
    whole list for the first one that ends after the read position. *)
Theorem read_cursor_is_search bq st : reachable bq st ->
  bq_current_read (fix_current_read bq) = first_unread (bq_read_index bq) (bq_blocks bq).
Proof. intros Hr%reachable_inv. apply (fix_current_read_spec bq st), Hr. Qed.

(** The contract is needed: the offset of a seek goes into the write position
    unchecked, and the addition overflows on an offset that leads past the end
    of the range, even with the position at 4. *)
Theorem seek_overflows bq st offset account : bq_write_index bq + offset >= 2 ^ 63 ->
  exec (OCmd (CSeek offset PA_SEEK_RELATIVE account)) bq st = UB.
Proof.
  intros H. unfold exec, no_overflow. replace (forallb _ _) with false; [done|]. symmetry. apply not_true_iff_false.
  rewrite forallb_forall. intros Hall. specialize (Hall (bq_write_index bq + offset)). simpl in Hall.
  assert ((- 2 ^ 63 <=? bq_write_index bq + offset) && (bq_write_index bq + offset <? 2 ^ 63) = true) as Hb; [|blia].
  apply Hall. right. right. right. apply in_app_iff. right. simpl. by left.
Qed.

(** ** A concrete queue *)

Module OpsExample.
Import BQExample.

Lemma reach0 : reachable q0 st0.
Proof.
  apply (reach_new 0 64 0 spec 0 1 0 None st0); [|by vm_compute].
  split; [exact MCExample.st0_ok|]. split; [exact spec_fine|]. split; [unfold new_args_ok, len_max; lia|].
  split; [unfold len_max; lia|]. split; [unfold near; lia|]. intros s E. discriminate.
Qed.

Lemma push_op_ok : op_ok (OCmd (CPush c1)) q0 st0.
Proof. split; [|split; unfold near; simpl; lia]. split; [exact push_ok0|]. unfold near. simpl. lia. Qed.

Lemma reach1 : reachable q1 st1.
Proof. apply (reach_op (OCmd (CPush c1)) q0 st0); [exact reach0|exact push_op_ok|by vm_compute]. Qed.

End OpsExample.
Import BQExample OpsExample.


Lemma memblockq_invariant_witness : list_wf q1 st1 /\ attr_ok q1 /\
  bq_missing q1 + bq_requested q1 + (bq_write_index q1 - bq_read_index q1) = 64.
Proof. destruct (memblockq_invariant q1 st1 reach1) as (H1 & H2 & _ & _ & _ & _ & H3). split_and!; [done|done|]. rewrite H3. by vm_compute. Defined.

Lemma seek_overflows_witness : bq_write_index q1 = 4 /\
  exec (OCmd (CSeek (2 ^ 63 - 1) PA_SEEK_RELATIVE true)) q1 st1 = UB.
Proof. split; [by vm_compute|]. apply (seek_overflows q1 st1 (2 ^ 63 - 1) true). vm_compute. discriminate. Defined.
