(* ===== verification/MemblockqFifo.v ===== *)
(** * MemblockqFifo: the queue as a line of bytes

    Between its read and its write position a queue is a list of bytes: a push
    appends to it, a peek followed by a drop takes from its head.  Where nothing
    was written the queue plays its silence. *)
From stdpp Require Import base tactics numbers list gmap sorting.
From S2P Require Import Prelude Sample Memblock Mcalign Memblockq MemblockqSpec MemblockqPush MemblockqWrite MemblockqRead.
From S2P Require Import MemblockqAttr MemblockqInv MemblockqAlign MemblockqFrames MemblockqProps.

#[local] Arguments can_push : simpl never.

(** ** Where the data ends *)

(** No data from position [b] on. *)
Definition ends_by (q : pa_memblockq) (st : store) (b : Z) : Prop := forall i, b <= i -> stream q st i = None.

Lemma ends_by_items q st b : list_wf q st -> ends_by q st b -> Forall (fun it => li_end it <= b) (bq_blocks q).
Proof.
  intros [Hm Hs] He. apply Forall_forall. intros it Hit.
  pose proof (proj1 (Forall_forall _ _) (lw_items _ _ Hm) it Hit) as Hi.
  destruct (Z.le_gt_cases (li_end it) b) as [|Hgt]; [done|]. exfalso.
  assert (covers (li_end it - 1) it = true) as Hc by (apply covers_true; pose proof (item_in_end _ _ Hi); lia).
  specialize (He (li_end it - 1) ltac:(lia)). unfold stream in He.
  rewrite (content_covered _ _ it) in He by (done || apply (lw_items _ _ Hm)).
  destruct (item_byte_is_Some st it (li_end it - 1) Hi Hc). congruence.
Qed.

Lemma ends_by_written q c st b i : list_wf q st -> ends_by q st b -> 0 < mc_length c ->
  bq_write_index q + mc_length c <= b -> b <= i -> written q c st i = None.
Proof.
  intros Hw He Hl Hb Hi. unfold written. rewrite !(proj2 (Z.ltb_ge _ _)) by lia.
  rewrite kept_from_beyond; [by apply He|].
  eapply Forall_impl; [exact (ends_by_items q st b Hw He)|]. simpl. lia.
Qed.

Lemma can_push_fits q l : 0 <= l < 2 ^ 63 -> bq_write_index q + l - bq_read_index q <= bq_maxlength q ->
  can_push q l = true.
Proof.
  intros Hl Hr. unfold can_push. destruct (Z.ltb_spec (bq_write_index q) (bq_read_index q)).
  - destruct (Z.ltb_spec (bq_read_index q - bq_write_index q) l); [|done]. rewrite u64_small by lia.
    case_match; [|done]. apply negb_true_iff, Z.ltb_ge. lia.
  - case_match; [|done]. apply negb_true_iff, Z.ltb_ge. lia.
Qed.

Lemma items_end q st b : Forall (fun it => li_end it <= b) (bq_blocks q) -> ends_by q st b.
Proof.
  intros H i Hi. apply content_none. eapply Forall_impl; [exact H|]. intros it Hit. apply covers_ge. simpl in Hit. lia.
Qed.


(** ** The bytes waiting to be read *)

(** What a reader that never runs into prebuffering will get: the bytes between
    the two positions, zeros where nothing was written. *)
Definition pending (q : pa_memblockq) (st : store) : list cell :=
  (fun k => default (Some 0) (stream q st (bq_read_index q + k))) <$> seqZ 0 (bq_write_index q - bq_read_index q).

Lemma pending_lookup q st k : 0 <= k < bq_write_index q - bq_read_index q ->
  pending q st !! Z.to_nat k = Some (default (Some 0) (stream q st (bq_read_index q + k))).
Proof.
  intros Hk. unfold pending. rewrite list_lookup_fmap, lookup_seqZ_lt by lia. simpl. do 4 f_equal. lia.
Qed.

Lemma pending_length q st : length (pending q st) = Z.to_nat (bq_write_index q - bq_read_index q).
Proof. unfold pending. by rewrite length_fmap, length_seqZ. Qed.

Lemma pending_eq q st l : length l = Z.to_nat (bq_write_index q - bq_read_index q) ->
  (forall k, 0 <= k < bq_write_index q - bq_read_index q ->
     l !! Z.to_nat k = Some (default (Some 0) (stream q st (bq_read_index q + k)))) -> pending q st = l.
Proof.
  intros Hl Hk. apply list_eq_same_length with (length l); [done|by rewrite pending_length|].
  intros i x y Hi Hx Hy. specialize (Hk (Z.of_nat i) ltac:(lia)). pose proof (pending_lookup q st (Z.of_nat i) ltac:(lia)) as Hp.
  rewrite Nat2Z.id in *. congruence.
Qed.

(** A chunk of silence: the first bytes of a block, all zero. *)
Definition zero_chunk (st : store) (c : pa_memchunk) : Prop :=
  chunk_in st c /\ mc_index c = 0 /\ Forall (eq (Some 0)) (chunk_bytes st c).

(** A queue that is only pushed to, peeked at and dropped from: its data ends at
    the write position, the reader has not overtaken it, whole frames, a
    prebuffering level, and a silence of zeros. *)
Record fifo_ok (q : pa_memblockq) (st : store) : Prop := {
  ff_inv : queue_inv q st;
  ff_frames : queue_frames q;
  ff_low : - 2 ^ 62 < bq_read_index q;
  ff_order : bq_read_index q <= bq_write_index q < 2 ^ 62;
  ff_end : Forall (fun it => li_end it <= bq_write_index q) (bq_blocks q);
  ff_prebuf : 0 < bq_prebuf q;
  ff_silence : zero_chunk st (bq_silence q)
}.

Lemma zero_chunk_keeps st st' c : keeps st st' -> zero_chunk st c -> (forall id, mc_memblock c = Some id -> 0 < refs st' id) ->
  zero_chunk st' c.
Proof. intros K (H1 & H2 & H3) Hr. destruct (chunk_in_keeps st st' c K H1 Hr) as [H4 E]. split_and!; [done..|]. by rewrite E. Qed.

(** Others may use the store meanwhile. *)
Lemma fifo_env q st st' : fifo_ok q st -> store_ok st' -> keeps st st' -> (forall j, owned q j <= refs st' j) ->
  fifo_ok q st' /\ forall i, stream q st' i = stream q st i.
Proof.
  intros [H1 H2 H3 H4 H5 H6 H7] Hok K Hr. pose proof (inv_env q st st' H1 Hok K Hr) as Hq.
  split; [split; try done; apply (zero_chunk_keeps st); [done..|exact (qi_silence_alive q st' Hq)]|]. intros i.
  apply content_keeps; [done|apply (lw_items _ _ (proj1 (qi_list _ _ H1)))|apply (lw_items _ _ (proj1 (qi_list _ _ Hq)))].
Qed.

Lemma pending_env q st st' : fifo_ok q st -> store_ok st' -> keeps st st' -> (forall j, owned q j <= refs st' j) ->
  pending q st' = pending q st.
Proof.
  intros H Hok K Hr. destruct (fifo_env q st st' H Hok K Hr) as [_ Hs].
  unfold pending. apply list_fmap_ext. intros i x _. by rewrite Hs.
Qed.

(** Prebuffering apart, there is something to read. *)
Lemma prebuf_over q st : fifo_ok q st -> pa_memblockq_prebuf_active q = false -> bq_read_index q < bq_write_index q.
Proof.
  intros H Ha. pose proof (ff_prebuf _ _ H). pose proof (ff_order _ _ H).
  destruct (Z.lt_ge_cases (bq_read_index q) (bq_write_index q)) as [|Hge]; [done|].
  unfold pa_memblockq_prebuf_active, pa_memblockq_get_length in Ha.
  rewrite (proj2 (Z.leb_le _ _) Hge), (proj2 (Z.ltb_lt 0 _)) in Ha by done. by destruct (bq_in_prebuf q).
Qed.

(** ** Pushing appends *)

Record appended (q : pa_memblockq) (st : store) (data : list cell) (q' : pa_memblockq) (st' : store) : Prop := {
  ad_ok : fifo_ok q' st';
  ad_keeps : keeps st st';
  ad_fixed : fixed q' = fixed q;
  ad_attrs : reading_attrs q' = reading_attrs q;
  ad_refs j : ext q' st' j = ext q st j;
  ad_write : bq_write_index q' = bq_write_index q + Z.of_nat (length data);
  ad_pending : pending q' st' = pending q st ++ data
}.

Lemma fifo_push q c st : fifo_ok q st -> cmd_ok (CPush c) q st ->
  bq_write_index q + mc_length c - bq_read_index q <= bq_maxlength q -> bq_write_index q + mc_length c < 2 ^ 62 ->
  exists q' st', pa_memblockq_push q c st = Ok (0, (q', st')) /\ appended q st (chunk_bytes st c) q' st' /\
    (length (bq_blocks q') <= length (bq_blocks q) + 2)%nat.
Proof.
  intros [H1 [F1 F2 F3 F4] H3 H4 H5 H6 H7] Hc Hroom Hlim. pose proof Hc as (Hcin & Hr & Hcl & Hci & Hn).
  pose proof (chunk_in_bound _ _ (qi_store _ _ H1) Hcin) as (_ & Hl & _). pose proof (qi_base _ _ H1) as Hb.
  destruct (push_both q c st H1 Hc) as (r & q' & st' & E & Hq & K & Fx & X & L & Hres).
  rewrite can_push_fits in Hres by lia. destruct Hres as (-> & Ew & Hs).
  pose proof (push_attrs q c st 0 q' st' H1 Hc E) as Ha. pose proof (push_frames q c st 0 q' st' _ H1 Hc E Hb F2 Hci Hcl F4) as Hf.
  exists q', st'. split; [done|]. split; [|done]. pose proof Fx as Fx'. unfold fixed in Fx'. injection Fx' as Eb Em Er Es.
  assert (ends_by q' st' (bq_write_index q')) as He.
  { intros i Hi. rewrite Hs. apply (ends_by_written q c st (bq_write_index q')); [apply H1| |lia..].
    intros k Hk. apply (items_end q st (bq_write_index q)); [done|lia]. }
  assert (fifo_ok q' st') as Hok'.
  { split; try done.
    - split; rewrite ?Eb, ?Er, ?Ew, ?Es; try done. by apply mod_add_0.
    - by rewrite Er.
    - lia.
    - apply (ends_by_items q' st'); [apply Hq|done].
    - unfold reading_attrs in Ha. by replace (bq_prebuf q') with (bq_prebuf q) by congruence.
    - rewrite Es. apply (zero_chunk_keeps st); [done..|]. rewrite <- Es. exact (qi_silence_alive q' st' Hq). }
  split; try done; rewrite ?chunk_bytes_length by done; [lia|].
  pose proof (chunk_bytes_length _ _ Hcin) as Elen.
  apply pending_eq; [rewrite length_app, pending_length; lia|]. intros k Hk. rewrite Hs, Er. unfold written.
  destruct (Z.ltb_spec (bq_read_index q + k) (bq_write_index q)).
  - rewrite lookup_app_l by (rewrite pending_length; lia). apply pending_lookup. lia.
  - rewrite (proj2 (Z.ltb_lt _ _)) by lia. rewrite lookup_app_r by (rewrite pending_length; lia). rewrite pending_length.
    replace (Z.to_nat (bq_read_index q + k - bq_write_index q)) with (Z.to_nat k - Z.to_nat (bq_write_index q - bq_read_index q))%nat by lia.
    destruct (lookup_lt_is_Some_2 (chunk_bytes st c) (Z.to_nat k - Z.to_nat (bq_write_index q - bq_read_index q))%nat) as [x Ex]; [lia|].
    by rewrite Ex.
Qed.

Lemma appended_refl q st : fifo_ok q st -> appended q st [] q st.
Proof. intros H. split; try done; [simpl; lia|by rewrite app_nil_r]. Qed.

Lemma appended_trans q st d1 q1 st1 d2 q2 st2 : store_ok st -> appended q st d1 q1 st1 -> appended q1 st1 d2 q2 st2 ->
  appended q st (d1 ++ d2) q2 st2.
Proof.
  intros Hok [A1 A2 A3 A4 A5 A6 A7] [B1 B2 B3 B4 B5 B6 B7]. split; try done; try congruence.
  - apply (keeps_trans st st1); [apply Hok|apply (qi_store _ _ (ff_inv _ _ A1))|done..].
  - rewrite B6, A6, length_app. lia.
  - by rewrite B7, A7, app_assoc.
Qed.

(** The same with others using the store before and after. *)
Lemma appended_within q st st1 data q' st2 st' : fifo_ok q st -> store_ok st1 -> keeps st st1 ->
  (forall j, owned q j <= refs st1 j) -> appended q st1 data q' st2 -> queue_inv q' st' -> keeps st2 st' ->
  (forall j, ext q' st' j = ext q st j) -> appended q st data q' st'.
Proof.
  intros H Hok1 K1 Ho [A1 A2 A3 A4 A5 A6 A7] Hq K2 X.
  destruct (fifo_env q' st2 st' A1) as [Hf _]; [apply Hq|done|apply Hq|]. split; try done.
  - apply (keeps_trans st st1); [apply (qi_store _ _ (ff_inv _ _ H))|apply Hok1|done|].
    apply (keeps_trans st1 st2); [apply Hok1|apply (qi_store _ _ (ff_inv _ _ A1))|done..].
  - rewrite (pending_env q' st2 st'), A7, (pending_env q st st1) by (done || apply Hq). done.
Qed.

(** ** Peeking and dropping takes from the head *)

(** The reader does not run into the writer: the drop is not cut short. *)
Lemma drop_loop_within st fuel : forall len q q', list_wf q st -> store_ok st -> 0 <= len < 2 ^ 64 ->
  bq_in_prebuf q = false -> bq_read_index q + len <= bq_write_index q ->
  drop_loop fuel len q = Ok q' -> bq_read_index q' = bq_read_index q + len /\ bq_in_prebuf q' = false.
Proof.
  induction fuel as [|fuel IH]; intros len q q' Hw Hok Hlen Hp Hle E; simpl in E.
  { destruct (Z.leb_spec len 0); [|done]. apply Ok_inj in E. subst q'. split; [lia|done]. }
  destruct (Z.leb_spec len 0) as [H0|H0]. { apply Ok_inj in E. subst q'. split; [lia|done]. }
  assert (update_prebuf q = (false, q)) as Eu.
  { unfold update_prebuf. by rewrite Hp, (proj2 (Z.leb_gt _ _)), andb_false_r by lia. }
  rewrite Eu in E. rewrite (cursor_unread _ _ Hw) in E.
  pose proof (rest_fix_read q) as Er. unfold rest in Er.
  assert (bq_read_index (fix_current_read q) = bq_read_index q /\ bq_write_index (fix_current_read q) = bq_write_index q /\
    bq_in_prebuf (fix_current_read q) = bq_in_prebuf q) as (E1 & E2 & E3) by (split_and!; congruence).
  rewrite E1 in E. destruct (unread q) as [it|] eqn:En; [|apply Ok_inj in E; subst q'; simpl; split; congruence].
  pose proof (unread_stream q st (bq_read_index q) Hw ltac:(lia)) as HU. rewrite En in HU. destruct HU as (_ & He & _).
  rewrite pa_assert_true in E by blia. simpl in E.
  set (d := if len <? li_end it - bq_read_index q then len else li_end it - bq_read_index q) in E.
  assert (0 < d <= len) as Hd by (subst d; destruct (Z.ltb_spec len (li_end it - bq_read_index q)); lia).
  rewrite (u64_small d), u64_small in E by lia.
  apply IH in E as [Hr Hf]; simpl; [|by apply wf_set_read_index, wf_fix_read|done|lia|congruence|lia].
  simpl in Hr. split; [lia|done].
Qed.

(** What a peek hands out ends before the write position. *)
Lemma peek_within q st c q' st' : fifo_ok q st -> pa_memblockq_peek q st = Ok (Some c, (q', st')) ->
  pa_memblockq_prebuf_active q = false /\ bq_in_prebuf q' = false /\ mc_length c <= bq_write_index q - bq_read_index q /\
  (mc_index c = 0 /\ mc_length c <= mc_length (bq_silence q) \/
   exists k, 0 <= k < mc_length c /\ is_Some (stream q st (bq_read_index q + k))).
Proof.
  intros H E. pose proof (prebuf_over q st H) as Hover. destruct H as [H1 H2 H3 H4 H5 H6 ((sid & Es & Hsr & _ & Hsl & _) & H8 & _)].
  pose proof (qi_list _ _ H1) as Hw. unfold pa_memblockq_peek in E.
  destruct (update_prebuf_spec q) as [Ea _]. destruct (update_prebuf q) as [wait q0] eqn:Eu. simpl in Ea. subst wait.
  destruct (pa_memblockq_prebuf_active q); [done|]. specialize (Hover eq_refl).
  assert (q0 = set_in_prebuf false q) as ->.
  { unfold update_prebuf in Eu. destruct (bq_in_prebuf q) eqn:Ef.
    - destruct (pa_memblockq_get_length q <? bq_prebuf q); congruence.
    - destruct ((0 <? bq_prebuf q) && (bq_write_index q <=? bq_read_index q)); [congruence|]. replace q0 with q by congruence. destruct q. simpl in *. by subst. }
  set (q1 := fix_current_read (set_in_prebuf false q)) in E.
  pose proof (cursor_unread _ _ (wf_set_in_prebuf false _ _ Hw)) as Hcur. fold q1 in Hcur.
  pose proof (rest_fix_read (set_in_prebuf false q)) as Er. fold q1 in Er. unfold rest in Er. simpl in Er.
  assert (bq_read_index q1 = bq_read_index q /\ bq_write_index q1 = bq_write_index q /\ bq_silence q1 = bq_silence q /\
    bq_in_prebuf q1 = false) as (E1 & E2 & E3 & E4) by (split_and!; congruence). clearbody q1.
  cbv zeta in E. rewrite Hcur, E1, E2, E3, Es in E. change (unread (set_in_prebuf false q)) with (unread q) in E.
  split; [done|]. destruct (unread q) as [it|] eqn:En; [destruct (Z.ltb_spec (bq_read_index q) (li_index it))|].
  - assert (li_end it <= bq_write_index q /\ li_index it < li_end it) as [Hend Hpos].
    { pose proof (unread_stream q st (bq_read_index q) Hw ltac:(lia)) as HU. rewrite En in HU. split; [|by apply (item_in_end st), HU].
      unfold unread in En. destruct (first_unread _ _); [|done]. by apply (Forall_lookup_1 _ _ _ _ H5 En). }
    rewrite u64_small in E by lia. inv_bind. simpl. rewrite (proj2 (Z.ltb_lt 0 _)) by lia. simpl.
    destruct (Z.ltb_spec (li_index it - bq_read_index q) (mc_length (bq_silence q))); split_and!; try done; try (left; split; done || lia); lia.
  - pose proof (unread_stream q st (bq_read_index q) Hw ltac:(lia)) as HU. rewrite En in HU.
    destruct HU as (Hin & He & _ & Hs). pose proof (chunk_in_bound _ _ (qi_store _ _ H1) Hin).
    assert (li_end it <= bq_write_index q) as Hend.
    { unfold unread in En. destruct (first_unread _ _); [|done]. by apply (Forall_lookup_1 _ _ _ _ H5 En). }
    unfold li_end in *. inv_bind. simpl. rewrite (u64_small (bq_read_index q - li_index it)), !u64_small by lia.
    split_and!; try done; [lia|]. right. exists 0. split; [lia|]. rewrite Z.add_0_r, Hs by lia.
    apply item_byte_is_Some; [done|]. apply covers_true. unfold li_end. lia.
  - rewrite (proj2 (Z.ltb_lt _ _) Hover), u64_small in E by lia. inv_bind. simpl. rewrite (proj2 (Z.ltb_lt 0 _)) by lia. simpl.
    destruct (Z.ltb_spec (bq_write_index q - bq_read_index q) (mc_length (bq_silence q))); split_and!; try done; try (left; split; done || lia); lia.
Qed.

(** The same queue, further on, with fewer nodes. *)
Lemma fifo_further q st q' st' gone : fifo_ok q st -> queue_inv q' st' -> keeps st st' ->
  bq_base q' = bq_base q -> bq_silence q' = bq_silence q -> bq_prebuf q' = bq_prebuf q ->
  bq_write_index q' = bq_write_index q -> bq_blocks q = gone ++ bq_blocks q' ->
  bq_read_index q <= bq_read_index q' <= bq_write_index q -> bq_read_index q' mod bq_base q = 0 -> fifo_ok q' st'.
Proof.
  intros [H1 H2 H3 H4 H5 H6 H7] Hq K Eb Es Ep Ew B Hr Hm.
  split; rewrite ?Ew, ?Ep, ?Es; try done; try lia.
  - apply (frames_moved q q' gone); try done. rewrite Ew. apply H2.
  - rewrite B in H5. by apply Forall_app in H5 as [_ ?].
  - apply (zero_chunk_keeps st); [done..|]. rewrite <- Es. exact (qi_silence_alive q' st' Hq).
Qed.

(** A new queue. *)
Lemma fifo_new q st : queue_inv q st -> bq_blocks q = [] -> bq_read_index q = 0 -> bq_write_index q = 0 -> 0 < bq_prebuf q ->
  zero_chunk st (bq_silence q) -> mc_length (bq_silence q) mod bq_base q = 0 -> fifo_ok q st /\ pending q st = [].
Proof.
  intros Hq B Er Ew Hp Hz Hl. split; [|unfold pending; by rewrite Er, Ew].
  split; rewrite ?B, ?Er, ?Ew; try done; try lia. split; rewrite ?B, ?Er, ?Ew; try apply Zmod_0_l; done.
Qed.

Record popped (q : pa_memblockq) (st : store) (r : option pa_memchunk) (q' : pa_memblockq) (st' : store) : Prop := {
  pp_ok : fifo_ok q' st';
  pp_keeps : keeps st st';
  pp_limits : bq_base q' = bq_base q /\ bq_maxlength q' = bq_maxlength q /\ bq_prebuf q' = bq_prebuf q;
  pp_write : bq_write_index q' = bq_write_index q;
  pp_read : bq_read_index q' = bq_read_index q + from_option mc_length 0 r;
  pp_refs j : refs st' j - owned q' j = refs st j - owned q j + from_option (fun c => chunk_refs c j) 0 r;
  pp_chunk : match r with
    | None => pa_memblockq_prebuf_active q = true
    | Some c => pa_memblockq_prebuf_active q = false /\ chunk_in st' c /\
        mc_index c mod bq_base q = 0 /\ mc_length c mod bq_base q = 0
    end;
  pp_pending : pending q st = from_option (chunk_bytes st') [] r ++ pending q' st'
}.

(** The head of the line as the chunk [c] of a peek. *)
Lemma peeked_head q st c q1 st1 : fifo_ok q st -> pa_memblockq_peek q st = Ok (Some c, (q1, st1)) ->
  peek_result q st (Some c) q1 st1 -> chunk_in st1 c /\
  forall k, 0 <= k < mc_length c -> chunk_bytes st1 c !! Z.to_nat k = Some (default (Some 0) (stream q st (bq_read_index q + k))).
Proof.
  intros H E (Hok & K & Hw & B & R & F & Rf & _ & Hp). destruct (peek_within q st c q1 st1 H E) as (_ & _ & _ & Hw1).
  destruct (ff_silence _ _ H) as (Hs & Hs0 & Hsz). destruct Hp as [[Hin Hb]|(Em & Hl & Hn)].
  - split; [done|]. intros k Hk. pose proof (chunk_bytes_length _ _ Hin) as El. rewrite <- (Hb k Hk).
    destruct (lookup_lt_is_Some_2 (chunk_bytes st1 c) (Z.to_nat k)) as [x Ex]; [lia|]. by rewrite Ex.
  - destruct Hw1 as [[Hi Hle]|(k & Hk & y & Ey)]; [|rewrite Hn in Ey by done; done].
    destruct (chunk_in_keeps st st1 _ K Hs) as [Hs1 Eb].
    { intros id Eid. rewrite Rf. simpl. rewrite (chunk_refs_some c id) by congruence. pose proof (refs_nonneg st id (proj1 (qi_store _ _ (ff_inv _ _ H)))). lia. }
    pose proof (chunk_bytes_length _ _ Hs1) as El. destruct Hs1 as (id & Eid & Hr & _ & Hsl & Hlen).
    assert (0 < mc_length c) as Hpos by (apply Hl; by right).
    split; [exists id; split_and!; try lia; congruence|]. intros k Hk. rewrite Hn by done. simpl.
    assert (chunk_bytes st1 c !! Z.to_nat k = chunk_bytes st1 (bq_silence q) !! Z.to_nat k) as ->.
    { unfold chunk_bytes. rewrite Em, Eid, Hi, Hs0, !sub_list_lookup by lia. done. }
    rewrite Eb in *. destruct (lookup_lt_is_Some_2 (chunk_bytes st (bq_silence q)) (Z.to_nat k)) as [x Ex]; [lia|].
    rewrite Ex. f_equal. symmetry. exact (Forall_lookup_1 _ _ _ _ Hsz Ex).
Qed.

(** Dropping what was peeked at. *)
Lemma fifo_drop q st len : fifo_ok q st -> bq_in_prebuf q = false -> 0 < len -> len mod bq_base q = 0 ->
  bq_read_index q + len <= bq_write_index q ->
  exists q' st', pa_memblockq_drop q len st = Ok (q', st') /\ fifo_ok q' st' /\ keeps st st' /\
    (bq_base q' = bq_base q /\ bq_maxlength q' = bq_maxlength q /\ bq_prebuf q' = bq_prebuf q) /\
    bq_silence q' = bq_silence q /\ bq_write_index q' = bq_write_index q /\ bq_read_index q' = bq_read_index q + len /\
    (forall j, ext q' st' j = ext q st j) /\ (forall i, bq_read_index q' <= i -> stream q' st' i = stream q st i).
Proof.
  intros H Hp Hl Hm Hle. pose proof (ff_inv _ _ H) as Hq. pose proof (ff_order _ _ H). pose proof (ff_low _ _ H).
  destruct (so_maxrewind _ (ao_sizes _ (qi_attr _ _ Hq))) as [_ Hmr].
  destruct (drop_loop_spec st (S (S (length (bq_blocks q)))) len q) as (q1 & E & M & Hri & _);
    [apply Hq|apply Hq|lia|pose proof (ahead_le (bq_read_index q) (bq_blocks q)); lia|].
  destruct (drop_loop_within st _ len q q1 (qi_list _ _ Hq) (qi_store _ _ Hq) ltac:(lia) Hp Hle E) as [Er Ef].
  pose proof M as (Hw1 & B1 & R1 & _).
  destruct (drop_backlog_spec q1 st (qi_store _ _ Hq) Hw1) as (q2 & st2 & gone & E2 & T & Hg & _).
  pose proof (inv_moved q st q1 gone q2 st2 Hq M T) as Hq2. pose proof T as (_ & K & _ & R2 & X & B).
  exists (read_index_changed (bq_read_index q) q2), st2. unfold pa_memblockq_drop. rewrite pa_assert_true by blia. simpl in E |- *.
  rewrite E. simpl. rewrite E2. split; [done|]. rewrite R1 in R2. unfold rest in R1, R2. simpl in R1, R2.
  assert (bq_maxrewind q1 = bq_maxrewind q) as Emr by congruence.
  assert (bq_read_index q2 = bq_read_index q + len) as Er2 by congruence.
  split; [|split_and!; try done; try congruence].
  - apply (fifo_further q st _ st2 gone); simpl; try done; try congruence; try lia.
    rewrite Er2. apply mod_add_0; [by eapply qi_base|apply H|done].
  - intros j. transitivity (ext q2 st2 j); [done|]. rewrite X. unfold ext. by rewrite B1.
  - intros i Hi. change (stream q2 st2 i = stream q st i). rewrite (trimmed_stream q1 st gone q2 st2 i Hw1 T); [unfold stream; by rewrite B1|].
    eapply Forall_impl; [exact Hg|]. simpl. intros a Ha. simpl in Ha, Hi. lia.
Qed.

(** Peeking and dropping what was found. *)
Lemma fifo_pop q st : fifo_ok q st -> exists r q1 st1 q' st', pa_memblockq_peek q st = Ok (r, (q1, st1)) /\
  match r with Some c => pa_memblockq_drop q1 (mc_length c) st1 | None => Ok (q1, st1) end = Ok (q', st') /\
  popped q st r q' st'.
Proof.
  intros H. pose proof H as [H1 H2 H3 H4 H5 H6 H7].
  assert (Forall (fun it => li_index it < 2 ^ 62) (bq_blocks q)) as Hidx.
  { pose proof (lw_items _ _ (proj1 (qi_list _ _ H1))) as Hin. rewrite Forall_forall in H5, Hin |- *. intros it Hit.
    pose proof (item_in_end _ _ (Hin it Hit)). specialize (H5 it Hit). lia. }
  destruct (inv_peek q st H1) as (q1 & st1 & E1 & Hq1 & _); [split; [lia|split; [lia|done]]|].
  destruct (peek_spec q st) as (r & q1' & st1' & E & P); [apply H1|apply H1|by apply qi_silence_alive|lia|lia|done|].
  simpl in E1. rewrite E in E1. simpl in E1. injection E1 as -> ->. pose proof P as (Hok1 & K1 & Hw1 & B1 & R1 & _ & Rf & Hr).
  unfold rest in R1. simpl in R1.
  assert (bq_base q1 = bq_base q /\ bq_maxlength q1 = bq_maxlength q /\ bq_prebuf q1 = bq_prebuf q) as Hlim by (split_and!; congruence).
  assert (bq_silence q1 = bq_silence q /\ bq_write_index q1 = bq_write_index q /\ bq_read_index q1 = bq_read_index q)
    as (Es1 & Ew1 & Er1) by (split_and!; congruence).
  assert (fifo_ok q1 st1) as Hf1.
  { apply (fifo_further q st q1 st1 []); rewrite ?Er1; try done; try apply Hlim; [lia|apply H2]. }
  assert (forall i, stream q1 st1 i = stream q st i) as Hs1.
  { intros i. unfold stream. rewrite B1. apply content_keeps; [done|apply (lw_items _ _ (proj1 (qi_list _ _ H1)))|].
    rewrite <- B1. apply (lw_items _ _ (proj1 Hw1)). }
  exists r, q1, st1. destruct r as [c|].
  - destruct Hr as [Hnp _]. destruct (peeked_head q st c q1 st1 H E P) as [Hin Hb].
    destruct (peek_within q st c q1 st1 H E) as (Hact & Ef & Hlen & _).
    pose proof (chunk_bytes_length _ _ Hin) as El. assert (0 < mc_length c) as Hpos by (by destruct Hin as (? & _ & _ & _ & ? & _)).
    destruct (peek_frames q st c q1 st1) as [Hci Hcl]; [apply H1|apply H1|by eapply qi_base|done|lia|lia|done|done|].
    destruct (fifo_drop q1 st1 (mc_length c) Hf1 Ef Hpos) as (q2 & st2 & E2 & Hf2 & K2 & L2 & Es2 & Ew2 & Er2 & X2 & Hs2);
      [by rewrite (proj1 Hlim)|lia|].
    exists q2, st2. split_and!; [done..|]. destruct Hlim as (? & ? & ?), L2 as (? & ? & ?).
    assert (forall j, refs st2 j - owned q2 j = refs st j - owned q j + chunk_refs c j) as Hrefs.
    { intros j. specialize (X2 j). specialize (Rf j). unfold ext, owned in *. rewrite B1 in X2. rewrite Es2, Es1. simpl in Rf. lia. }
    destruct (chunk_in_keeps st1 st2 c K2 Hin) as [Hin2 Eb2].
    { intros id Eid. specialize (Hrefs id). rewrite (chunk_refs_some c id Eid) in Hrefs.
      pose proof (qi_owned _ _ H1 id). unfold owned in *. pose proof (items_refs_nonneg (bq_blocks q2) id).
      pose proof (chunk_refs_nonneg (bq_silence q2) id). lia. }
    split; simpl; try done; try (split_and!; done || congruence); try lia.
    { apply (keeps_trans st st1); [apply H1|apply Hok1|done..]. }
    rewrite Eb2. apply pending_eq; [rewrite length_app, pending_length; lia|]. intros k Hk.
    destruct (Z.lt_ge_cases k (mc_length c)).
    + rewrite lookup_app_l by lia. apply Hb. lia.
    + rewrite lookup_app_r by lia. replace (Z.to_nat k - length (chunk_bytes st1 c))%nat with (Z.to_nat (k - mc_length c)) by lia.
      rewrite pending_lookup by lia. rewrite Hs2, Hs1 by lia. do 3 f_equal. lia.
  - exists q1, st1. split_and!; try done. unfold nothing_to_peek in Hr.
    split; simpl; try done; [lia|intros j; specialize (Rf j); simpl in Rf; unfold owned; rewrite B1, Es1; lia| |].
    + destruct (pa_memblockq_prebuf_active q); [done|]. simpl in Hr. destruct H7 as ((id & Eid & _) & _). rewrite Eid in Hr. by destruct (unread q).
    + symmetry. apply pending_eq; rewrite ?pending_length, ?Er1, ?Ew1; try done. intros k Hk. rewrite Hs1. by apply pending_lookup.
Qed.
