(* ===== verification/SinkInput.v ===== *)
(** * SinkInput: a playback stream inside the thread of its sink

    Models what [src/pulsecore/sink-input.c] does in the sink's I/O thread:
    [pa_sink_input_peek] fills the stream's render queue from the code that
    implements the stream and hands out what is at its read position,
    [pa_sink_input_drop] moves on, [pa_sink_input_process_rewind] moves back.

    Who implements the stream (a client connection, or the iwab receiver) is the
    interface [implementor]: its callbacks on its own data [D].  The resampler of
    resampler.c is the interface [resampler_ops] on its state [R]; the routine
    that multiplies samples, selected for the machine, is the parameter
    [do_volume] of [pa_volume_memchunk]. *)
From stdpp Require Import base tactics numbers list gmap.
From S2P Require Import Prelude Sample Channelmap Volume Memblock Mcalign Memblockq.

(** ** Changing samples in place, from sample-util.c and mix.c *)

Definition pa_silence_memchunk (c : pa_memchunk) (spec : pa_sample_spec) (st : store) : outcome store :=
  id ← deref (mc_memblock c);
  '(_, st) ← pa_memblock_acquire id st;
  s ← pa_silence_memory (mc_length c) spec;
  st ← write_data id (mc_index c) (Some <$> s) st;
  pa_memblock_release id st.

Definition pa_volume_memchunk (do_volume : pa_sample_spec -> pa_cvolume -> list cell -> list cell)
    (c : pa_memchunk) (spec : pa_sample_spec) (volume : pa_cvolume) (st : store) : outcome store :=
  _ ← pa_assert (pa_sample_spec_valid spec);
  al ← pa_frame_aligned (mc_length c) spec;
  _ ← pa_assert al;
  id ← deref (mc_memblock c);
  sil ← pa_memblock_is_silence id st;
  if (sil : bool) then Ok st
  else if pa_cvolume_is_norm volume then Ok st
  else if pa_cvolume_is_muted volume then pa_silence_memchunk c spec st
  else
    '(d, st) ← pa_memblock_acquire id st;
    bs ← read_data d (mc_index c) (mc_length c);
    st ← write_data id (mc_index c) (do_volume spec volume bs) st;
    pa_memblock_release id st.

(** ** Data *)

Inductive pa_sink_input_state_t := PA_SINK_INPUT_INIT | PA_SINK_INPUT_RUNNING | PA_SINK_INPUT_CORKED
  | PA_SINK_INPUT_UNLINKED.

#[export] Instance pa_sink_input_state_eq_dec : EqDecision pa_sink_input_state_t.
Proof. solve_decision. Defined.

Definition PA_SINK_INPUT_IS_LINKED (x : pa_sink_input_state_t) : bool :=
  bool_decide (x = PA_SINK_INPUT_RUNNING) || bool_decide (x = PA_SINK_INPUT_CORKED).

(** The callbacks of a stream.  [pop] gives a chunk with a reference for the
    caller, or [None] for a negative return value. *)
Record implementor (D : Type) := mk_implementor {
  im_pop : D -> Z -> store -> outcome (option pa_memchunk * (D * store));
  im_process_underrun : option (D -> store -> outcome (bool * (D * store)));
  im_process_rewind : option (D -> Z -> store -> outcome (D * store));
  im_update_max_rewind : option (D -> Z -> store -> outcome (D * store));
  im_update_max_request : option (D -> Z -> store -> outcome (D * store))
}.
Arguments mk_implementor {D} _ _ _ _ _.
Arguments im_pop {D} _ _ _ _.
Arguments im_process_underrun {D} _.
Arguments im_process_rewind {D} _.
Arguments im_update_max_rewind {D} _.
Arguments im_update_max_request {D} _.

(** [pa_resampler_run] gives a chunk with a reference for the caller, or one
    without a block when nothing came out. *)
Record resampler_ops (R : Type) := mk_resampler_ops {
  rs_max_block_size : R -> Z;
  rs_request : R -> Z -> Z;
  rs_result : R -> Z -> Z;
  rs_run : R -> pa_memchunk -> store -> outcome (pa_memchunk * (R * store));
  rs_rewind : R -> Z -> R
}.
Arguments rs_max_block_size {R} _ _.
Arguments rs_request {R} _ _ _.
Arguments rs_result {R} _ _ _.
Arguments rs_run {R} _ _ _ _.
Arguments rs_rewind {R} _ _ _.

(** The fields of the sink the stream looks at. *)
Record sink_info := mk_sink_info {
  sk_sample_spec : pa_sample_spec;
  sk_channel_map : pa_channel_map;
  sk_max_rewind : Z;           (* thread_info.max_rewind *)
  sk_max_request : Z;
  sk_rewind_requested : bool;
  sk_rewind_nbytes : Z
}.

(** The fields of [struct pa_sink_input] that its thread uses; [thread_info]
    where both have one. *)
Record pa_sink_input (R : Type) := mk_sink_input {
  i_sink : sink_info;
  i_sample_spec : pa_sample_spec;
  i_channel_map : pa_channel_map;
  i_volume_factor_sink : pa_cvolume;
  i_state : pa_sink_input_state_t;
  i_soft_volume : pa_cvolume;
  i_muted : bool;
  i_rewrite_flush : bool;
  i_dont_rewind_render : bool;
  i_rewrite_nbytes : Z;
  i_underrun_for : Z;
  i_playing_for : Z;
  i_underrun_for_sink : Z;
  i_thread_sample_spec : pa_sample_spec;
  i_resampler : option R;
  i_render_memblockq : pa_memblockq
}.
Arguments mk_sink_input {R} _ _ _ _ _ _ _ _ _ _ _ _ _ _ _ _.
Arguments i_sink {R} _.
Arguments i_sample_spec {R} _.
Arguments i_channel_map {R} _.
Arguments i_volume_factor_sink {R} _.
Arguments i_state {R} _.
Arguments i_soft_volume {R} _.
Arguments i_muted {R} _.
Arguments i_rewrite_flush {R} _.
Arguments i_dont_rewind_render {R} _.
Arguments i_rewrite_nbytes {R} _.
Arguments i_underrun_for {R} _.
Arguments i_playing_for {R} _.
Arguments i_underrun_for_sink {R} _.
Arguments i_thread_sample_spec {R} _.
Arguments i_resampler {R} _.
Arguments i_render_memblockq {R} _.

Section sink_input.
Context {D R : Type}.
Context (impl : implementor D) (rs : resampler_ops R).
Context (do_volume : pa_sample_spec -> pa_cvolume -> list cell -> list cell).
(** [pa_page_size()] *)
Context (page_size : Z).

Abbreviation pa_sink_input := (pa_sink_input R).

Definition set_sink (s : sink_info) (i : pa_sink_input) : pa_sink_input :=
  mk_sink_input s (i_sample_spec i) (i_channel_map i) (i_volume_factor_sink i) (i_state i) (i_soft_volume i)
    (i_muted i) (i_rewrite_flush i) (i_dont_rewind_render i) (i_rewrite_nbytes i) (i_underrun_for i)
    (i_playing_for i) (i_underrun_for_sink i) (i_thread_sample_spec i) (i_resampler i) (i_render_memblockq i).

Definition set_render (q : pa_memblockq) (i : pa_sink_input) : pa_sink_input :=
  mk_sink_input (i_sink i) (i_sample_spec i) (i_channel_map i) (i_volume_factor_sink i) (i_state i) (i_soft_volume i)
    (i_muted i) (i_rewrite_flush i) (i_dont_rewind_render i) (i_rewrite_nbytes i) (i_underrun_for i)
    (i_playing_for i) (i_underrun_for_sink i) (i_thread_sample_spec i) (i_resampler i) q.

Definition set_resampler (r : option R) (i : pa_sink_input) : pa_sink_input :=
  mk_sink_input (i_sink i) (i_sample_spec i) (i_channel_map i) (i_volume_factor_sink i) (i_state i) (i_soft_volume i)
    (i_muted i) (i_rewrite_flush i) (i_dont_rewind_render i) (i_rewrite_nbytes i) (i_underrun_for i)
    (i_playing_for i) (i_underrun_for_sink i) (i_thread_sample_spec i) r (i_render_memblockq i).

(** [underrun_for], [playing_for], [underrun_for_sink] *)
Definition set_counters (u p us : Z) (i : pa_sink_input) : pa_sink_input :=
  mk_sink_input (i_sink i) (i_sample_spec i) (i_channel_map i) (i_volume_factor_sink i) (i_state i) (i_soft_volume i)
    (i_muted i) (i_rewrite_flush i) (i_dont_rewind_render i) (i_rewrite_nbytes i) u p us
    (i_thread_sample_spec i) (i_resampler i) (i_render_memblockq i).

(** [rewrite_flush], [dont_rewind_render], [rewrite_nbytes] *)
Definition set_rewrite (f d : bool) (n : Z) (i : pa_sink_input) : pa_sink_input :=
  mk_sink_input (i_sink i) (i_sample_spec i) (i_channel_map i) (i_volume_factor_sink i) (i_state i) (i_soft_volume i)
    (i_muted i) f d n (i_underrun_for i) (i_playing_for i) (i_underrun_for_sink i) (i_thread_sample_spec i)
    (i_resampler i) (i_render_memblockq i).

Definition set_state (s : pa_sink_input_state_t) (i : pa_sink_input) : pa_sink_input :=
  mk_sink_input (i_sink i) (i_sample_spec i) (i_channel_map i) (i_volume_factor_sink i) s (i_soft_volume i)
    (i_muted i) (i_rewrite_flush i) (i_dont_rewind_render i) (i_rewrite_nbytes i) (i_underrun_for i)
    (i_playing_for i) (i_underrun_for_sink i) (i_thread_sample_spec i) (i_resampler i) (i_render_memblockq i).

(** ** Peeking *)

(** The volume adjustment at the top of the inner loop, when there is one to
    make: the chunk, and whether the sink's volume factor is still to be
    applied. *)
Definition adjust_volume (i : pa_sink_input) (nvfs : bool) (wchunk : pa_memchunk) (st : store)
    : outcome (pa_memchunk * bool * store) :=
  '(wchunk, st) ← pa_memchunk_make_writable wchunk 0 st;
  if i_muted i then
    st ← pa_silence_memchunk wchunk (i_thread_sample_spec i) st;
    Ok (wchunk, false, st)
  else match i_resampler i, nvfs with
  | None, true =>
      (* v stays uninitialised when one of the two is not valid *)
      v ← deref (pa_sw_cvolume_multiply (i_soft_volume i) (i_volume_factor_sink i));
      st ← pa_volume_memchunk do_volume wchunk (i_thread_sample_spec i) v st;
      Ok (wchunk, false, st)
  | _, _ =>
      st ← pa_volume_memchunk do_volume wchunk (i_thread_sample_spec i) (i_soft_volume i) st;
      Ok (wchunk, nvfs, st)
  end.

(** The sink's volume factor, when it is still to be applied. *)
Definition apply_factor (i : pa_sink_input) (nvfs : bool) (c : pa_memchunk) (st : store)
    : outcome (pa_memchunk * store) :=
  if nvfs then
    '(c, st) ← pa_memchunk_make_writable c 0 st;
    st ← pa_volume_memchunk do_volume c (sk_sample_spec (i_sink i)) (i_volume_factor_sink i) st;
    Ok (c, st)
  else Ok (c, st).

(** One round of [while (tchunk.length > 0)]: the length that was taken off.
    Whether the queue accepted the data is not looked at. *)
Definition write_piece (block_size_max : Z) (do_adj need_factor : bool) (tchunk : pa_memchunk)
    (i : pa_sink_input) (st : store) : outcome (Z * (pa_sink_input * store)) :=
  tid ← deref (mc_memblock tchunk);
  st ← pa_memblock_ref tid st;
  let wchunk := mk_chunk (Some tid) (mc_index tchunk)
                  (if block_size_max <? mc_length tchunk then block_size_max else mc_length tchunk) in
  '(wchunk, nvfs, st) ← (if (do_adj : bool) then adjust_volume i need_factor wchunk st
                         else Ok (wchunk, need_factor, st));
  match i_resampler i with
  | None =>
      '(wchunk, st) ← apply_factor i nvfs wchunk st;
      '(_, (q, st)) ← pa_memblockq_push_align (i_render_memblockq i) wchunk st;
      wid ← deref (mc_memblock wchunk);
      st ← pa_memblock_unref wid st;
      Ok (mc_length wchunk, (set_render q i, st))
  | Some r =>
      '(rchunk, (r, st)) ← rs_run rs r wchunk st;
      let i := set_resampler (Some r) i in
      '(i, st) ← (match mc_memblock rchunk with
                  | None => Ok (i, st)
                  | Some _ =>
                      '(rchunk, st) ← apply_factor i nvfs rchunk st;
                      '(_, (q, st)) ← pa_memblockq_push_align (i_render_memblockq i) rchunk st;
                      rid ← deref (mc_memblock rchunk);
                      st ← pa_memblock_unref rid st;
                      Ok (set_render q i, st)
                  end);
      wid ← deref (mc_memblock wchunk);
      st ← pa_memblock_unref wid st;
      Ok (mc_length wchunk, (i, st))
  end.

(** [while (tchunk.length > 0)]; every round takes [block_size_max] bytes off,
    or what is left. *)
Fixpoint write_loop (fuel : nat) (block_size_max : Z) (do_adj need_factor : bool) (tchunk : pa_memchunk)
    (i : pa_sink_input) (st : store) : outcome (pa_sink_input * store) :=
  if mc_length tchunk <=? 0 then Ok (i, st)
  else match fuel with
  | O => UB
  | S fuel =>
      '(l, (i, st)) ← write_piece block_size_max do_adj need_factor tchunk i st;
      write_loop fuel block_size_max do_adj need_factor
        (mk_chunk (mc_memblock tchunk) (u64 (mc_index tchunk + l)) (u64 (mc_length tchunk - l))) i st
  end.

Definition write_fuel (block_size_max length : Z) : nat := Z.to_nat (length / block_size_max + 1).

(** [while (!pa_memblockq_is_readable(...))] *)
Fixpoint fill_render (fuel : nat) (block_size_max slength ilength ilength_full : Z) (do_adj need_factor : bool)
    (i : pa_sink_input) (d : D) (st : store) : outcome (pa_sink_input * D * store) :=
  if pa_memblockq_is_readable (i_render_memblockq i) then Ok (i, d, st)
  else match fuel with
  | O => UB
  | S fuel =>
      '(r, (d, st)) ← (if bool_decide (i_state i = PA_SINK_INPUT_CORKED) then Ok (None, (d, st))
                       else im_pop impl d ilength st);
      match r with
      | None =>
          '(q, st) ← pa_memblockq_seek (i_render_memblockq i) (s64 slength) PA_SEEK_RELATIVE true st;
          let i := set_render q i in
          let i := if i_underrun_for i =? SIZE_MAX
                   then set_counters (i_underrun_for i) 0 (i_underrun_for_sink i) i
                   else set_counters (u64 (i_underrun_for i + ilength_full)) 0
                          (u64 (i_underrun_for_sink i + slength)) i in
          Ok (i, d, st)
      | Some tchunk =>
          _ ← pa_assert (0 <? mc_length tchunk);
          _ ← pa_assert (isset tchunk);
          let i := set_counters 0 (u64 (i_playing_for i + mc_length tchunk)) 0 i in
          '(i, st) ← write_loop (write_fuel block_size_max (mc_length tchunk)) block_size_max do_adj need_factor
                       tchunk i st;
          tid ← deref (mc_memblock tchunk);
          st ← pa_memblock_unref tid st;
          fill_render fuel block_size_max slength ilength ilength_full do_adj need_factor i d st
      end
  end.

(** The lengths [pa_sink_input_peek] starts with: the largest block of the
    stream and of the sink, and what to ask for in the sink's and in the
    stream's bytes. *)
Definition peek_sizes (i : pa_sink_input) (slength : Z) (st : store) : outcome (Z * Z * Z * Z) :=
  let pool_max := pa_mempool_block_size_max (st_pool st) in
  max_i ← (match i_resampler i with
           | Some r => Ok (rs_max_block_size rs r)
           | None => pa_frame_align pool_max (i_sample_spec i)
           end);
  max_s ← pa_frame_align pool_max (sk_sample_spec (i_sink i));
  slength ← (if slength <=? 0 then pa_frame_align page_size (sk_sample_spec (i_sink i)) else Ok slength);
  let slength := if max_s <? slength then max_s else slength in
  ilength ← (match i_resampler i with
             | Some r =>
                 let l := rs_request rs r slength in
                 if l <=? 0 then pa_frame_align page_size (i_sample_spec i) else Ok l
             | None => Ok slength
             end);
  Ok (max_i, max_s, slength, ilength).

Definition pa_sink_input_peek (fuel : nat) (i : pa_sink_input) (slength : Z) (d : D) (st : store)
    : outcome (pa_memchunk * pa_cvolume * (pa_sink_input * D * store)) :=
  _ ← pa_assert (PA_SINK_INPUT_IS_LINKED (i_state i));
  al ← pa_frame_aligned slength (sk_sample_spec (i_sink i));
  _ ← pa_assert al;
  '(max_i, max_s, slength, ilength) ← peek_sizes i slength st;
  let ilength_full := ilength in
  let ilength := if max_i <? ilength then max_i else ilength in
  let do_volume_adj_here := negb (pa_channel_map_equal false (i_channel_map i) (sk_channel_map (i_sink i))) in
  let volume_is_norm := pa_cvolume_is_norm (i_soft_volume i) && negb (i_muted i) in
  let need_volume_factor_sink := negb (pa_cvolume_is_norm (i_volume_factor_sink i)) in
  '(i, d, st) ← fill_render fuel max_i slength ilength ilength_full
                  (do_volume_adj_here && negb volume_is_norm) need_volume_factor_sink i d st;
  '(r, (q, st)) ← pa_memblockq_peek (i_render_memblockq i) st;
  match r with
  | None => Abort
  | Some chunk =>
      _ ← pa_assert (0 <? mc_length chunk);
      _ ← pa_assert (isset chunk);
      let chunk := mk_chunk (mc_memblock chunk) (mc_index chunk)
                     (if max_s <? mc_length chunk then max_s else mc_length chunk) in
      volume ← (if do_volume_adj_here then pa_cvolume_reset (ss_channels (sk_sample_spec (i_sink i)))
                else if i_muted i then pa_cvolume_mute (ss_channels (sk_sample_spec (i_sink i)))
                else Ok (i_soft_volume i));
      Ok (chunk, volume, (set_render q i, d, st))
  end.

(** ** Dropping, underruns and rewinding *)

Definition pa_sink_input_drop (i : pa_sink_input) (nbytes : Z) (st : store) : outcome (pa_sink_input * store) :=
  _ ← pa_assert (PA_SINK_INPUT_IS_LINKED (i_state i));
  al ← pa_frame_aligned nbytes (sk_sample_spec (i_sink i));
  _ ← pa_assert al;
  _ ← pa_assert (0 <? nbytes);
  '(q, st) ← pa_memblockq_drop (i_render_memblockq i) nbytes st;
  Ok (set_render q i, st).

Definition pa_sink_input_process_underrun (i : pa_sink_input) (d : D) (st : store)
    : outcome (bool * (pa_sink_input * D * store)) :=
  if pa_memblockq_is_readable (i_render_memblockq i) then Ok (false, (i, d, st))
  else match im_process_underrun impl with
  | None => Ok (false, (i, d, st))
  | Some f =>
      '(r, (d, st)) ← f d st;
      if (r : bool) then
        '(q, st) ← pa_memblockq_silence (i_render_memblockq i) st;
        Ok (true, (set_render q i, d, st))
      else Ok (false, (i, d, st))
  end.

(** A callback with a length that may be null. *)
Definition notify (f : option (D -> Z -> store -> outcome (D * store))) (n : Z) (d : D) (st : store)
    : outcome (D * store) :=
  match f with Some f => f d n st | None => Ok (d, st) end.

(** The part that rewrites data: [called] is whether the implementor was
    told. *)
Definition rewrite_data (i : pa_sink_input) (nbytes lbq : Z) (d : D) (st : store)
    : outcome (bool * (pa_sink_input * D * store)) :=
  if i_rewrite_nbytes i =? SIZE_MAX then
    '(q, st) ← pa_memblockq_flush_write (i_render_memblockq i) true st;
    Ok (false, (set_render q i, d, st))
  else if 0 <? i_rewrite_nbytes i then
    let max_rewrite := if 0 <? nbytes then u64 (nbytes + lbq) else nbytes in
    let max_rewrite := match i_resampler i with Some r => rs_request rs r max_rewrite | None => max_rewrite end in
    let amount := Z.min (i_rewrite_nbytes i) max_rewrite in
    if 0 <? amount then
      '(d, st) ← notify (im_process_rewind impl) amount d st;
      let amount := match i_resampler i with Some r => rs_result rs r amount | None => amount end in
      '(q, st) ← (if 0 <? amount
                  then pa_memblockq_seek (i_render_memblockq i) (- s64 amount) PA_SEEK_RELATIVE true st
                  else Ok (i_render_memblockq i, st));
      '(q, st) ← (if i_rewrite_flush i then pa_memblockq_silence q st else Ok (q, st));
      let i := set_render q i in
      let i := set_resampler ((fun r => rs_rewind rs r amount) <$> i_resampler i) i in
      Ok (true, (i, d, st))
    else Ok (false, (i, d, st))
  else Ok (false, (i, d, st)).

Definition pa_sink_input_process_rewind (i : pa_sink_input) (nbytes : Z) (d : D) (st : store)
    : outcome (pa_sink_input * D * store) :=
  _ ← pa_assert (PA_SINK_INPUT_IS_LINKED (i_state i));
  al ← pa_frame_aligned nbytes (sk_sample_spec (i_sink i));
  _ ← pa_assert al;
  let lbq := pa_memblockq_get_length (i_render_memblockq i) in
  q ← (if (0 <? nbytes) && negb (i_dont_rewind_render i)
       then pa_memblockq_rewind (i_render_memblockq i) nbytes
       else Ok (i_render_memblockq i));
  '(called, (i, d, st)) ← rewrite_data (set_render q i) nbytes lbq d st;
  '(d, st) ← (if (called : bool) then Ok (d, st) else notify (im_process_rewind impl) 0 d st);
  Ok (set_rewrite false false 0 i, d, st).

(** A length of the sink in the stream's bytes. *)
Definition to_input (i : pa_sink_input) (n : Z) : Z :=
  match i_resampler i with Some r => rs_request rs r n | None => n end.

Definition pa_sink_input_get_max_rewind (i : pa_sink_input) : Z := to_input i (sk_max_rewind (i_sink i)).
Definition pa_sink_input_get_max_request (i : pa_sink_input) : Z := to_input i (sk_max_request (i_sink i)).

Definition pa_sink_input_update_max_rewind (i : pa_sink_input) (nbytes : Z) (d : D) (st : store)
    : outcome (pa_sink_input * D * store) :=
  _ ← pa_assert (PA_SINK_INPUT_IS_LINKED (i_state i));
  al ← pa_frame_aligned nbytes (sk_sample_spec (i_sink i));
  _ ← pa_assert al;
  let i := set_render (pa_memblockq_set_maxrewind nbytes (i_render_memblockq i)) i in
  '(d, st) ← notify (im_update_max_rewind impl) (to_input i nbytes) d st;
  Ok (i, d, st).

Definition pa_sink_input_update_max_request (i : pa_sink_input) (nbytes : Z) (d : D) (st : store)
    : outcome (pa_sink_input * D * store) :=
  _ ← pa_assert (PA_SINK_INPUT_IS_LINKED (i_state i));
  al ← pa_frame_aligned nbytes (sk_sample_spec (i_sink i));
  _ ← pa_assert al;
  '(d, st) ← notify (im_update_max_request impl) (to_input i nbytes) d st;
  Ok (i, d, st).

Definition pa_sink_input_safe_to_remove (i : pa_sink_input) : bool :=
  if PA_SINK_INPUT_IS_LINKED (i_state i) then pa_memblockq_is_empty (i_render_memblockq i) else true.

(** ** Asking for a rewind *)

(** [pa_sink_request_rewind] of sink.c, for a linked sink; whether the driver
    is told is the second result. *)
Definition pa_sink_request_rewind (s : sink_info) (nbytes : Z) : sink_info * bool :=
  let nbytes := if nbytes =? SIZE_MAX then sk_max_rewind s else nbytes in
  let nbytes := Z.min nbytes (sk_max_rewind s) in
  if sk_rewind_requested s && (nbytes <=? sk_rewind_nbytes s) then (s, false)
  else (mk_sink_info (sk_sample_spec s) (sk_channel_map s) (sk_max_rewind s) (sk_max_request s) true nbytes, true).

Definition pa_sink_input_request_rewind (i : pa_sink_input) (nbytes : Z) (rewrite flush dont_rewind_render : bool)
    : outcome pa_sink_input :=
  _ ← pa_assert (rewrite || flush);
  _ ← pa_assert (negb dont_rewind_render || negb rewrite);
  if bool_decide (i_state i = PA_SINK_INPUT_CORKED) then Ok i
  else
    let nbytes := Z.max (i_rewrite_nbytes i) nbytes in
    let lbq := if rewrite then pa_memblockq_get_length (i_render_memblockq i) else 0 in
    let nbytes := if nbytes <=? 0 then to_input i (u64 (sk_max_rewind (i_sink i) + lbq)) else nbytes in
    let nbytes' := if rewrite && (i_playing_for i <? nbytes) then i_playing_for i else nbytes in
    let '(nbytes, rn) :=
      if i_rewrite_nbytes i =? SIZE_MAX then (nbytes, i_rewrite_nbytes i)
      else if rewrite then (nbytes', nbytes') else (nbytes, SIZE_MAX) in
    let i := set_rewrite (i_rewrite_flush i || flush) (i_dont_rewind_render i || dont_rewind_render) rn i in
    if nbytes =? SIZE_MAX then Ok i
    else
      let nbytes := match i_resampler i with Some r => rs_result rs r nbytes | None => nbytes end in
      let '(s, _) := pa_sink_request_rewind (i_sink i) (if lbq <? nbytes then u64 (nbytes - lbq) else 0) in
      Ok (set_sink s i).

(** Less the implementor's [state_change], which is told first. *)
Definition pa_sink_input_set_state_within_thread (i : pa_sink_input) (state : pa_sink_input_state_t)
    : outcome pa_sink_input :=
  if bool_decide (state = i_state i) then Ok i
  else if bool_decide (state = PA_SINK_INPUT_CORKED) && bool_decide (i_state i = PA_SINK_INPUT_RUNNING) then
    i ← pa_sink_input_request_rewind i 0 true true false;
    Ok (set_state state i)
  else if bool_decide (i_state i = PA_SINK_INPUT_CORKED) && bool_decide (state = PA_SINK_INPUT_RUNNING) then
    pa_sink_input_request_rewind (set_state state (set_counters SIZE_MAX 0 0 i)) 0 false true true
  else Ok (set_state state i).
End sink_input.
