(* ===== verification/SinkInputProps.v ===== *)
(** * SinkInputProps: what a stream plays

    Filling the render queue from the implementor, reading from it and moving
    back in it, for a stream that needs no resampling and no change of its
    samples: what comes out is what the implementor handed over, in order. *)
From stdpp Require Import base tactics numbers list gmap sorting.
From S2P Require Import Prelude Sample Channelmap Volume Memblock Mcalign Memblockq MemblockqSpec MemblockqPush.
From S2P Require Import MemblockqWrite MemblockqRead MemblockqAttr MemblockqInv MemblockqAlign MemblockqFrames MemblockqFifo MemblockqProps SinkInput.

#[local] Arguments can_push : simpl never.
#[local] Arguments pa_memblockq_push_align : simpl never.
#[local] Arguments pa_memblockq_peek : simpl never.
#[local] Arguments pa_memblockq_seek : simpl never.

(** ** The render queue *)

(** As [pa_sink_input_new] makes it: no prebuffering, the sink's silence, whole
    frames and nothing in the aligner. *)
Record render_ok (q : pa_memblockq) (st : store) : Prop := {
  ro_inv : queue_inv q st;
  ro_base : ma_base (bq_mcalign q) = bq_base q;
  ro_aligner : aligner_empty (bq_mcalign q);
  ro_prebuf : bq_prebuf q = 0 /\ bq_in_prebuf q = false;
  ro_silence : isset (bq_silence q) = true /\ 0 < mc_length (bq_silence q);
  ro_frames : queue_frames q
}.

(** What one push does to the queue. *)
Record pushed_whole (q : pa_memblockq) (c : pa_memchunk) (st : store) (q' : pa_memblockq) (st' : store) : Prop := {
  pw_ok : render_ok q' st';
  pw_keeps : keeps st st';
  pw_base : bq_base q' = bq_base q;
  pw_index : bq_write_index q' = bq_write_index q + mc_length c /\ bq_read_index q' = bq_read_index q;
  pw_limits : limits q' = limits q;
  pw_nodes : (length (bq_blocks q') <= length (bq_blocks q) + 2)%nat;
  pw_silence : bq_silence q' = bq_silence q;
  pw_stream i : stream q' st' i = written q c st i;
  pw_refs j : ext q' st' j = ext q st j
}.

(** A chunk of whole frames goes straight through the aligner. *)
Lemma push_whole q c st : render_ok q st -> chunk_in st c ->
  (forall j, owned q j + chunk_refs c j <= refs st j) ->
  mc_index c mod bq_base q = 0 -> mc_length c mod bq_base q = 0 ->
  Z.of_nat (length (bq_blocks q)) + 2 < 2 ^ 32 -> can_push q (mc_length c) = true ->
  exists q' st', pa_memblockq_push_align q c st = Ok (0, (q', st')) /\ pushed_whole q c st q' st'.
Proof.
  intros [Hi Hb He Hp Hs Hf] Hc Hr Hix Hlen Hn Hcp. pose proof (qi_base _ _ Hi) as Hpos.
  assert (whole q c = mc_length c) as Ew by (unfold whole; by apply round_down_id).
  destruct (fresh_push q c st) as (q' & st' & E & P); [|done|by rewrite Ew|].
  { split; try done. intros j. rewrite (fresh_refs q He j). specialize (Hr j). lia. }
  exists q', st'. split; [done|]. destruct P as [P1 P2 P3 P4 P5 P6 P7 P8 P9 P9m P10 P11].
  assert (tail_part q c = pa_memchunk_reset) as Et by (unfold tail_part; by rewrite Ew, Z.eqb_refl).
  assert (head_part q c = c) as Eh by (unfold head_part; rewrite Ew; by destruct c).
  rewrite Ew, Et, Eh, Z.eqb_refl in *. destruct P4 as (P4 & P4' & P4''). destruct Hc as (id & Em & Hrf & _ & Hl & _).
  rewrite (proj2 (Z.eqb_neq (mc_length c) 0)) in P6 by lia.
  split; try done.
  - destruct Hf as [F1 F2 F3 F4], P5 as [E1 E2].
    split; try done; [by rewrite P3|unfold limits in P9; destruct Hp; split; congruence|by rewrite P8|].
    split; rewrite ?P3, ?P8, ?E1, ?E2; [done|by apply mod_add_0|done|by apply P11].
  - intros j. rewrite P7. change (chunk_refs pa_memchunk_reset j) with 0. lia.
Qed.

(** ** Writing a chunk in pieces *)

Section pieces.
Context {R : Type} (rs : resampler_ops R).
Context (do_volume : pa_sample_spec -> pa_cvolume -> list cell -> list cell).
Context (bs : Z) (Hbs : 0 < bs).

(** Before a round of the inner loop: the rest of the chunk still has its
    reference, fits into the queue, and consists of whole frames. *)
Record piece_pre (q : pa_memblockq) (c : pa_memchunk) (st : store) (b : Z) : Prop := {
  pc_queue : render_ok q st;
  pc_chunk : chunk_in st c;
  pc_refs : forall j, owned q j + chunk_refs c j <= refs st j;
  pc_index : mc_index c mod bq_base q = 0;
  pc_length : mc_length c mod bq_base q = 0;
  pc_size : bs mod bq_base q = 0;
  pc_room : bq_write_index q + mc_length c - bq_read_index q <= bq_maxlength q;
  pc_end : ends_by q st b /\ bq_write_index q + mc_length c <= b;
  pc_nodes : Z.of_nat (length (bq_blocks q)) + 2 * mc_length c < 2 ^ 32
}.

(** The queue after writing [data] at its write position. *)
Record filled (q : pa_memblockq) (st : store) (data : list cell) (b : Z) (q' : pa_memblockq) (st' : store) : Prop := {
  fl_ok : render_ok q' st';
  fl_keeps : keeps st st';
  fl_base : bq_base q' = bq_base q;
  fl_write : bq_write_index q' = bq_write_index q + Z.of_nat (length data);
  fl_read : bq_read_index q' = bq_read_index q;
  fl_limits : limits q' = limits q;
  fl_silence : bq_silence q' = bq_silence q;
  fl_nodes : Z.of_nat (length (bq_blocks q')) <= Z.of_nat (length (bq_blocks q)) + 2 * Z.of_nat (length data);
  fl_end : ends_by q' st' b;
  fl_before i : i < bq_write_index q -> stream q' st' i = stream q st i;
  fl_data k : 0 <= k < Z.of_nat (length data) ->
    stream q' st' (bq_write_index q + k) = data !! Z.to_nat k
}.

Lemma filled_trans q st data1 b q1 st1 data2 q2 st2 : store_ok st ->
  filled q st data1 b q1 st1 -> filled q1 st1 data2 b q2 st2 -> filled q st (data1 ++ data2) b q2 st2.
Proof.
  intros Hok [A1 A2 A3 A4 A5 A6 A7 A8 A9 A10 A11] [B1 B2 B3 B4 B5 B6 B7 B8 B9 B10 B11].
  split; try done; try congruence.
  - apply (keeps_trans st st1); [apply Hok|apply A1|done..].
  - rewrite B4, A4, length_app. lia.
  - rewrite length_app. lia.
  - intros i Hi. rewrite B10 by lia. by apply A10.
  - intros k Hk. rewrite length_app in Hk. destruct (decide (k < Z.of_nat (length data1))).
    + rewrite B10, A11 by lia. rewrite lookup_app_l by lia. done.
    + replace (bq_write_index q + k) with (bq_write_index q1 + (k - Z.of_nat (length data1))) by lia.
      rewrite B11 by lia. rewrite lookup_app_r by lia. f_equal. lia.
Qed.

(** A stream whose samples are handed on as they are. *)
Definition plain (i : pa_sink_input R) : Prop := i_resampler i = None.

Lemma piece_spec (i : pa_sink_input R) c st b : plain i -> piece_pre (i_render_memblockq i) c st b ->
  let l := Z.min bs (mc_length c) in
  exists q' st', write_piece rs do_volume bs false false c i st = Ok (l, (set_render q' i, st')) /\
    filled (i_render_memblockq i) st (chunk_bytes st (mk_chunk (mc_memblock c) (mc_index c) l)) b q' st' /\
    (forall j, refs st' j - items_refs (bq_blocks q') j = refs st j - items_refs (bq_blocks (i_render_memblockq i)) j).
Proof.
  intros Hpl Hpre l. set (q := i_render_memblockq i) in *. destruct Hpre as [Hq Hc Hr Hix Hlen Hsz Hroom [Hend Hb] Hn].
  pose proof (ro_inv _ _ Hq) as Hqi. pose proof (qi_base _ _ Hqi) as Hpos.
  pose proof (chunk_in_bound _ _ (qi_store _ _ Hqi) Hc) as (Hbi & Hbl & Hbs').
  destruct (id Hc) as (tid & Em & Hrf & Hi0 & Hl0 & Hbound).
  destruct (pa_memblock_ref_spec st tid (qi_store _ _ Hqi) Hrf) as (st1 & F1 & Hok1 & K1 & R1).
  assert (forall j, chunk_refs c j = delta tid 1 j) as Hcr by (intros j; unfold chunk_refs; by rewrite Em).
  set (w := mk_chunk (Some tid) (mc_index c) l).
  assert (0 < l <= mc_length c) as Hl by (unfold l; lia).
  assert (mc_length w mod bq_base q = 0) as Hwl.
  { simpl. unfold l. destruct (Z.min_spec bs (mc_length c)) as [[_ ->]|[_ ->]]; done. }
  assert (render_ok q st1) as Hq1.
  { destruct Hq as [H1 H2 H3 H4 H5 H6]. split; try done. apply (inv_env q st); try done.
    intros j. specialize (Hr j). rewrite R1. pose proof (delta_nonneg tid 1 j). pose proof (chunk_refs_nonneg c j). lia. }
  assert (chunk_in st w) as Hw. { exists tid. simpl. split_and!; try done; lia. }
  assert (chunk_in st1 w /\ chunk_bytes st1 w = chunk_bytes st w) as [Hw1 Ebytes].
  { apply (chunk_in_keeps st st1); [done..|]. intros id' E. simpl in E. simplify_eq. rewrite R1.
    pose proof (delta_nonneg id' 1 id'). lia. }
  assert (length (chunk_bytes st w) = Z.to_nat l) as Elen.
  { unfold chunk_bytes. simpl. rewrite sub_list_length; lia. }
  destruct (push_whole q w st1) as (q2 & st2 & F2 & P); [done..| |done|done|lia| |].
  { intros j. specialize (Hr j). rewrite R1. change (chunk_refs w j) with (delta tid 1 j). rewrite Hcr in Hr.
    pose proof (delta_nonneg tid 1 j). lia. }
  { apply can_push_fits; simpl; lia. }
  destruct P as [P1 P2 P3 [P4 P4'] P5 P6 P7 P8 P9].
  assert (0 < refs st2 tid) as Hr2.
  { specialize (P9 tid). unfold ext in P9. specialize (Hr tid). rewrite R1, Hcr in *. unfold owned in Hr.
    pose proof (items_refs_nonneg (bq_blocks q2) tid). pose proof (chunk_refs_nonneg (bq_silence q) tid).
    unfold delta in *. rewrite decide_True in * by done. lia. }
  destruct (pa_memblock_unref_spec st2 tid (qi_store _ _ (ro_inv _ _ P1)) Hr2) as (st3 & F3 & Hok3 & K3 & _ & R3).
  exists q2, st3. split.
  - unfold write_piece. rewrite Em. simpl. rewrite F1. simpl. rewrite Hpl. unfold apply_factor. simpl.
    replace (if bs <? mc_length c then bs else mc_length c) with l
      by (unfold l; destruct (Z.ltb_spec bs (mc_length c)); lia).
    fold q w. rewrite F2. simpl. rewrite F3. simpl. done.
  - assert (forall j, refs st3 j - items_refs (bq_blocks q2) j = refs st j - items_refs (bq_blocks q) j) as RR.
    { intros j. specialize (P9 j). unfold ext in P9. rewrite R3. rewrite R1 in P9. unfold delta in *. case_decide; lia. }
    split; [|done].
    assert (queue_inv q2 st3) as Hq3.
    { apply (inv_env q2 st2); [apply P1|done..|]. intros j. specialize (RR j). specialize (Hr j). unfold owned in *. rewrite P7.
      pose proof (chunk_refs_nonneg c j). lia. }
    assert (keeps st st2) as K02 by (apply (keeps_trans st st1); [apply Hqi|apply Hok1|done..]).
    assert (forall i, stream q2 st3 i = stream q2 st2 i) as Hst.
    { intros i'. apply content_keeps; [done| |]; [apply (lw_items _ _ (proj1 (qi_list _ _ (ro_inv _ _ P1))))|
        apply (lw_items _ _ (proj1 (qi_list _ _ Hq3)))]. }
    assert (forall i, stream q st1 i = stream q st i) as Hst0.
    { intros i'. apply content_keeps; [done| |]; [apply (lw_items _ _ (proj1 (qi_list _ _ Hqi)))|
        apply (lw_items _ _ (proj1 (qi_list _ _ (ro_inv _ _ Hq1))))]. }
    rewrite Em. fold w.
    split; rewrite ?Elen; try done.
    + destruct P1. by split.
    + apply (keeps_trans st st2); [apply Hqi|apply P1|done..].
    + rewrite P4. simpl. lia.
    + lia.
    + intros i' Hi'. rewrite Hst, P8. apply (ends_by_written q w st1 b i'); simpl; [apply Hq1| |lia..].
      intros i2 Hi2. rewrite Hst0. by apply Hend.
    + intros i' Hi'. rewrite Hst, P8. unfold written. rewrite (proj2 (Z.ltb_lt _ _)) by lia. apply Hst0.
    + intros k Hk. rewrite Hst, P8. unfold written. rewrite (proj2 (Z.ltb_ge _ _)) by lia.
      rewrite (proj2 (Z.ltb_lt _ _)) by (simpl; lia). rewrite Ebytes. do 2 f_equal. lia.
Qed.

(** What is left after a piece. *)
Lemma piece_rest (q : pa_memblockq) c st b q' st' l : piece_pre q c st b -> 0 < l < mc_length c -> l mod bq_base q = 0 ->
  filled q st (chunk_bytes st (mk_chunk (mc_memblock c) (mc_index c) l)) b q' st' ->
  (forall j, refs st' j - items_refs (bq_blocks q') j = refs st j - items_refs (bq_blocks q) j) ->
  let c2 := mk_chunk (mc_memblock c) (u64 (mc_index c + l)) (u64 (mc_length c - l)) in
  piece_pre q' c2 st' b /\ mc_length c2 = mc_length c - l /\
  chunk_bytes st c = chunk_bytes st (mk_chunk (mc_memblock c) (mc_index c) l) ++ chunk_bytes st' c2.
Proof.
  intros Hpre Hl Hlm F RR c2. destruct Hpre as [Hq Hc Hr Hix Hlen Hsz Hroom [Hend Hb] Hn].
  pose proof (ro_inv _ _ Hq) as Hqi. pose proof (qi_base _ _ Hqi) as Hpos.
  pose proof (chunk_in_bound _ _ (qi_store _ _ Hqi) Hc) as (Hbi & Hbl & Hbs').
  destruct (id Hc) as (tid & Em & Hrf & Hi0 & Hl0 & Hbound).
  assert (c2 = mk_chunk (Some tid) (mc_index c + l) (mc_length c - l)) as E2
    by (unfold c2; rewrite Em, !u64_small by lia; done).
  assert (length (chunk_bytes st (mk_chunk (mc_memblock c) (mc_index c) l)) = Z.to_nat l) as Elen.
  { unfold chunk_bytes. simpl. rewrite Em. simpl. rewrite sub_list_length; lia. }
  destruct F as [F1 F2 F3 F4 F5 F6 F7 F8 F9 F10 F11]. rewrite Elen in *.
  assert (forall j, owned q' j + chunk_refs c j <= refs st' j) as Hr'.
  { intros j. specialize (RR j). specialize (Hr j). unfold owned in *. rewrite F7. lia. }
  assert (chunk_in st c2) as Hc2 by (rewrite E2; exists tid; simpl; split_and!; done || lia).
  destruct (chunk_in_keeps st st' c2 F2 Hc2) as [Hin Eb].
  { intros id' E. rewrite E2 in E. simpl in E. simplify_eq. specialize (Hr' id'). unfold owned in Hr'.
    pose proof (items_refs_nonneg (bq_blocks q') id'). pose proof (chunk_refs_nonneg (bq_silence q') id').
    rewrite (chunk_refs_some c id' Em) in Hr'. lia. }
  split; [|split].
  - assert (forall j, chunk_refs c2 j = chunk_refs c j) as Hcr by (intros j; unfold chunk_refs; by rewrite E2, Em).
    unfold limits in F6. split; try done; rewrite ?F3, ?F5; rewrite ?E2; simpl; try done.
    + by apply mod_add_0.
    + by apply mod_sub_0.
    + rewrite F4. replace (bq_maxlength q') with (bq_maxlength q) by congruence. lia.
    + split; [done|lia].
    + lia.
  - by rewrite E2.
  - rewrite Eb, E2. rewrite (chunk_bytes_split st c tid l Em) by lia. by rewrite Em.
Qed.

Lemma write_loop_spec (i : pa_sink_input R) b : plain i -> forall fuel c q st, piece_pre q c st b ->
  Z.of_nat fuel >= mc_length c / bs + 1 ->
  exists q' st', write_loop rs do_volume fuel bs false false c (set_render q i) st = Ok (set_render q' i, st') /\
    filled q st (chunk_bytes st c) b q' st' /\
    (forall j, refs st' j - items_refs (bq_blocks q') j = refs st j - items_refs (bq_blocks q) j).
Proof.
  intros Hpl. induction fuel as [|fuel IH]; intros c q st Hpre Hfuel.
  { pose proof (chunk_in_bound _ _ (qi_store _ _ (ro_inv _ _ (pc_queue _ _ _ _ Hpre))) (pc_chunk _ _ _ _ Hpre)) as (_ & ? & _).
    pose proof (Z.div_pos (mc_length c) bs). lia. }
  pose proof (chunk_in_bound _ _ (qi_store _ _ (ro_inv _ _ (pc_queue _ _ _ _ Hpre))) (pc_chunk _ _ _ _ Hpre)) as (_ & Hlen & _).
  simpl. rewrite (proj2 (Z.leb_gt _ _)) by lia.
  destruct (piece_spec (set_render q i) c st b) as (q1 & st1 & E & F & RR); [done|exact Hpre|].
  rewrite E. simpl. set (l := Z.min bs (mc_length c)) in *.
  change (set_render q1 (set_render q i)) with (set_render q1 i).
  destruct (decide (mc_length c <= bs)) as [Hle|Hgt].
  - assert (l = mc_length c) as El by (unfold l; lia). rewrite El, Z.sub_diag in *.
    exists q1, st1. rewrite (u64_small 0) by lia. split; [by destruct fuel|]. split; [|done].
    by destruct c.
  - assert (l = bs) as El by (unfold l; lia).
    destruct (piece_rest q c st b q1 st1 l Hpre) as (Hpre2 & El2 & Eb); [lia|rewrite El; apply Hpre|done..|].
    destruct (IH _ q1 st1 Hpre2) as (q2 & st2 & E2 & F2 & RR2).
    { rewrite El2, El. replace (mc_length c) with (mc_length c - bs + 1 * bs) in Hfuel by lia.
      rewrite Z.div_add in Hfuel by lia. lia. }
    exists q2, st2. split; [done|]. split; [|intros j; by rewrite RR2].
    rewrite Eb. apply (filled_trans q st _ b q1 st1); [|done..]. apply (pc_queue _ _ _ _ Hpre).
Qed.
End pieces.

(** ** Whoever implements the stream *)

(** What [pa_sink_input_peek] relies on: the implementor keeps references
    ([io_hold]) and an invariant of its own that nobody disturbs who respects
    them, its [pop] hands over whole frames, at most [maxlen] bytes, with a
    reference.  [io_content] is what it still has to hand over, and [io_dry]
    says when it may refuse to. *)
Class ImplementorOk {D} (impl : implementor D) (base maxlen : Z) := {
  io_inv : D -> store -> Prop;
  io_hold : D -> Z -> Z;
  io_content : D -> store -> list cell;
  io_dry : D -> Prop;
  io_nonneg d j : 0 <= io_hold d j;
  io_env d st st' : io_inv d st -> store_ok st -> store_ok st' -> keeps st st' ->
    (forall j, io_hold d j <= refs st' j) -> io_inv d st' /\ io_content d st' = io_content d st;
  io_pop d n st : io_inv d st -> store_ok st -> 0 < n -> (forall j, io_hold d j <= refs st j) ->
    exists r d' st', im_pop impl d n st = Ok (r, (d', st')) /\ store_ok st' /\ keeps st st' /\ io_inv d' st' /\
      (forall j, refs st' j - io_hold d' j = refs st j - io_hold d j + from_option (fun c => chunk_refs c j) 0 r) /\
      match r with
      | None => io_dry d /\ io_content d' st' = io_content d st
      | Some c => chunk_in st' c /\ mc_index c mod base = 0 /\ mc_length c mod base = 0 /\ mc_length c <= maxlen /\
          io_content d st = chunk_bytes st' c ++ io_content d' st'
      end
}.

(** And one that can go back in its data: its [process_rewind] never fails and
    changes nothing when nothing is to be rewritten. *)
Class RewindOk {D} (impl : implementor D) (base maxlen : Z) `{!ImplementorOk impl base maxlen} := {
  io_rewind d n st : io_inv d st -> store_ok st -> 0 <= n -> n mod base = 0 -> (forall j, io_hold d j <= refs st j) ->
    exists d' st', notify (im_process_rewind impl) n d st = Ok (d', st') /\ store_ok st' /\ keeps st st' /\
      io_inv d' st' /\ (forall j, refs st' j - io_hold d' j = refs st j - io_hold d j) /\
      (n = 0 -> io_content d' st' = io_content d st)
}.

Lemma render_env q st st' : render_ok q st -> store_ok st' -> keeps st st' -> (forall j, owned q j <= refs st' j) ->
  render_ok q st' /\ forall i, stream q st' i = stream q st i.
Proof.
  intros [H1 H2 H3 H4 H5 H6] Hok K Hr. assert (queue_inv q st') as Hq by (by apply (inv_env q st)).
  split; [by split|]. intros i. apply content_keeps; [done|apply (lw_items _ _ (proj1 (qi_list _ _ H1)))|].
  apply (lw_items _ _ (proj1 (qi_list _ _ Hq))).
Qed.

Lemma readable_spec q st : render_ok q st -> bq_write_index q - bq_read_index q < 2 ^ 64 ->
  pa_memblockq_is_readable q = (bq_read_index q <? bq_write_index q).
Proof.
  intros [_ _ _ [E1 E2] _ _] Hw. unfold pa_memblockq_is_readable, pa_memblockq_prebuf_active, pa_memblockq_get_length.
  rewrite E1, E2. simpl. destruct (Z.leb_spec (bq_write_index q) (bq_read_index q)).
  - by rewrite (proj2 (Z.ltb_ge _ _)) by lia.
  - rewrite (proj2 (Z.ltb_lt _ _)), u64_small by lia. apply negb_true_iff, Z.leb_gt. lia.
Qed.

(** Moving the write position. *)
Record repositioned (q : pa_memblockq) (st : store) (q' : pa_memblockq) (st' : store) : Prop := {
  rp_ok : render_ok q' st';
  rp_keeps : keeps st st';
  rp_base : bq_base q' = bq_base q;
  rp_limits : limits q' = limits q;
  rp_silence : bq_silence q' = bq_silence q;
  rp_blocks : exists gone, bq_blocks q = gone ++ bq_blocks q';
  rp_stream i : bq_read_index q' - bq_maxrewind q <= i -> stream q' st' i = stream q st i;
  rp_refs j : ext q' st' j = ext q st j
}.

Lemma repositioned_end q st q' st' b : list_wf q st -> repositioned q st q' st' -> ends_by q st b -> ends_by q' st' b.
Proof.
  intros Hw H He. apply items_end. pose proof (ends_by_items q st b Hw He) as Hf.
  destruct (rp_blocks _ _ _ _ H) as [gone B]. rewrite B in Hf. by apply Forall_app in Hf as [_ ?].
Qed.

(** [pa_memblockq_seek] relative to the write position. *)
Lemma seek_render q off account st : render_ok q st -> off mod bq_base q = 0 ->
  exists q' st', pa_memblockq_seek q off PA_SEEK_RELATIVE account st = Ok (q', st') /\ repositioned q st q' st' /\
    bq_read_index q' = bq_read_index q /\ bq_write_index q' = bq_write_index q + off.
Proof.
  intros [H1 H2 H3 H4 H5 H6] Hoff. destruct (inv_seek off PA_SEEK_RELATIVE account q st H1) as (q' & st' & E & Hq & K).
  exists q', st'. split; [exact E|]. simpl in E. rewrite seek_eq in E.
  set (q1 := set_write_index (seek_target q off PA_SEEK_RELATIVE) q) in E.
  assert (list_wf q1 st) as Hw1 by (by destruct (qi_list _ _ H1) as [[] ?]).
  destruct (drop_backlog_spec q1 st (qi_store _ _ H1) Hw1) as (q2 & st2 & gone & E2 & T & Hg & _).
  rewrite E2 in E. simpl in E. injection E as <- <-. pose proof T as (_ & _ & _ & Rr & X & B).
  unfold rest in Rr. simpl in Rr. injection Rr as R1 _ R2 R3 _ R4 R5 R6 R7 R8 R9 _ _ _.
  assert (forall {A} (f : pa_memblockq -> A), (forall v q, f (set_requested v q) = f q) ->
    (forall v q, f (set_missing v q) = f q) -> f (write_index_changed (bq_write_index q) account q2) = f q2) as Hf.
  { intros A f F1 F2. unfold write_index_changed. destruct account; [apply F1|apply F2]. }
  split; [|rewrite !Hf by done; done]. split; rewrite ?(Hf _ bq_base), ?(Hf _ limits), ?(Hf _ bq_silence), ?(Hf _ bq_blocks), ?(Hf _ bq_read_index) by done; try done.
  - split; rewrite ?(Hf _ bq_base), ?(Hf _ bq_mcalign), ?(Hf _ bq_prebuf), ?(Hf _ bq_in_prebuf), ?(Hf _ bq_silence) by done;
      rewrite ?R9, ?R2, ?R3, ?R7, ?R8; try done.
    pose proof H6 as [F1 F2 _ _]. apply (frames_moved q _ gone); rewrite ?(Hf _ bq_base), ?(Hf _ bq_silence), ?(Hf _ bq_blocks), ?(Hf _ bq_read_index), ?(Hf _ bq_write_index) by done; try done; [by rewrite R5|].
    rewrite R6. apply mod_add_0; [by eapply qi_base|done..].
  - unfold limits. congruence.
  - by exists gone.
  - intros i Hi. transitivity (stream q2 st2 i); [unfold stream; by rewrite (Hf _ bq_blocks)|].
    rewrite (trimmed_stream q1 st gone q2 st2 i Hw1 T); [done|]. eapply Forall_impl; [exact Hg|].
    intros a Ha. simpl in Ha. lia.
  - intros j. unfold ext. rewrite (Hf _ bq_blocks) by done. apply X.
Qed.

(** ** Filling the render queue *)

Section fill.
Context {D R : Type} (impl : implementor D) (rs : resampler_ops R).
Context (do_volume : pa_sample_spec -> pa_cvolume -> list cell -> list cell).
Context (base maxlen bs : Z) `{!ImplementorOk impl base maxlen}.
Context (slength ilength ilength_full : Z) (Hbs : 0 < bs) (Hbase : bs mod base = 0).
Context (Hsl : 0 < slength < 2 ^ 63) (Hslm : slength mod base = 0) (Hil : 0 < ilength).

(** The stream before a round of the outer loop; [b] bounds the positions the
    queue will ever hold. *)
Record fill_ready (q : pa_memblockq) (d : D) (st : store) (b : Z) : Prop := {
  fr_queue : render_ok q st;
  fr_impl : io_inv d st;
  fr_refs : forall j, owned q j + io_hold d j <= refs st j;
  fr_base : bq_base q = base;
  fr_maxlen : maxlen <= bq_maxlength q;
  fr_end : ends_by q st b /\ bq_read_index q + bq_maxlength q <= b;
  fr_behind : bq_write_index q - bq_read_index q < 2 ^ 64;
  fr_nodes : Z.of_nat (length (bq_blocks q)) + 2 * (bq_read_index q - bq_write_index q + bq_maxlength q) < 2 ^ 32
}.

(** After filling: [data] is what the implementor handed over; [dry] tells
    whether it had too little. *)
Record fill_post (q : pa_memblockq) (d : D) (st : store) (b : Z) (data : list cell) (dry : bool)
    (q' : pa_memblockq) (d' : D) (st' : store) : Prop := {
  fp_ok : render_ok q' st';
  fp_impl : io_inv d' st';
  fp_keeps : keeps st st';
  fp_refs j : ext q' st' j - io_hold d' j = ext q st j - io_hold d j;
  fp_silence : bq_silence q' = bq_silence q;
  fp_base : bq_base q' = bq_base q;
  fp_limits : limits q' = limits q;
  fp_end : ends_by q' st' b;
  fp_content : io_content d st = data ++ io_content d' st';
  fp_read : bq_read_index q' = bq_read_index q;
  fp_write : bq_write_index q' = bq_write_index q + Z.of_nat (length data) + if dry then slength else 0;
  fp_bound : bq_write_index q + Z.of_nat (length data) <= Z.max (bq_write_index q) (bq_read_index q + bq_maxlength q);
  fp_enough : dry = false -> bq_read_index q' < bq_write_index q';
  fp_data i : bq_read_index q <= i -> bq_write_index q <= i < bq_write_index q + Z.of_nat (length data) ->
    stream q' st' i = data !! Z.to_nat (i - bq_write_index q);
  fp_before i : bq_read_index q <= i < bq_write_index q -> stream q' st' i = stream q st i;
  fp_none i : data = [] -> bq_read_index q <= i -> stream q' st' i = stream q st i
}.

Lemma maxrewind_nonneg q st : render_ok q st -> 0 <= bq_maxrewind q.
Proof. intros H. apply (so_maxrewind _ (ao_sizes _ (qi_attr _ _ (ro_inv _ _ H)))). Qed.

Lemma fill_done q d st b : fill_ready q d st b -> bq_read_index q < bq_write_index q ->
  fill_post q d st b [] false q d st.
Proof.
  intros [H1 H2 H3 H4 H5 [H6 H6'] H7 H8] Hw. split; done || simpl; try lia; apply keeps_refl.
Qed.

(** The implementor has nothing: silence, as much as was asked for. *)
Lemma fill_dry q d st b d' st1 : fill_ready q d st b -> store_ok st1 -> keeps st st1 -> io_inv d' st1 ->
  (forall j, refs st1 j - io_hold d' j = refs st j - io_hold d j) -> io_content d' st1 = io_content d st ->
  exists q' st', pa_memblockq_seek q (s64 slength) PA_SEEK_RELATIVE true st1 = Ok (q', st') /\
    fill_post q d st b [] true q' d' st'.
Proof.
  intros [H1 H2 H3 H4 H5 [H6 H6'] H7 H8] Hok K Hi Hr Hc.
  destruct (render_env q st st1 H1 Hok K) as [Hq1 Hst1].
  { intros j. specialize (H3 j). specialize (Hr j). pose proof (io_nonneg d' j). pose proof (io_nonneg d j). lia. }
  rewrite s64_small by lia.
  destruct (seek_render q slength true st1 Hq1) as (q' & st' & E & P & Er & Ew); [by rewrite H4|]. exists q', st'. split; [done|].
  pose proof (qi_list _ _ (ro_inv _ _ Hq1)) as Hwf. pose proof (maxrewind_nonneg q st H1).
  assert (ends_by q' st' b) as He.
  { apply (repositioned_end q st1); [done..|]. intros i Hi'. rewrite Hst1. by apply H6. }
  destruct P as [P1 P2 P3 P4 P5 P6 P7 P8].
  assert (forall j, io_hold d' j <= refs st' j) as Hh.
  { intros j. specialize (P8 j). specialize (H3 j). specialize (Hr j). unfold ext, owned in *.
    pose proof (items_refs_nonneg (bq_blocks q') j). pose proof (chunk_refs_nonneg (bq_silence q) j). lia. }
  destruct (io_env d' st1 st' Hi Hok (qi_store _ _ (ro_inv _ _ P1)) P2 Hh) as [Hi' Hc'].
  split; try done.
  - apply (keeps_trans st st1); [apply H1|apply Hok|done..].
  - intros j. specialize (P8 j). specialize (Hr j). unfold ext in *. lia.
  - simpl. by rewrite Hc', Hc.
  - simpl. lia.
  - simpl. lia.
  - simpl. lia.
  - intros i Hi2. rewrite P7 by (rewrite Er; lia). apply Hst1.
  - intros i _ Hi2. rewrite P7 by (rewrite Er; lia). apply Hst1.
Qed.

(** The implementor has a chunk: it is written, and given back. *)
Lemma fill_chunk (i : pa_sink_input R) q d st b d' st1 c : plain i -> fill_ready q d st b ->
  bq_write_index q <= bq_read_index q -> store_ok st1 -> keeps st st1 -> io_inv d' st1 ->
  (forall j, refs st1 j - io_hold d' j = refs st j - io_hold d j + chunk_refs c j) ->
  chunk_in st1 c -> mc_index c mod base = 0 -> mc_length c mod base = 0 -> mc_length c <= maxlen ->
  exists q' st', ('(i, st) ← write_loop rs do_volume (write_fuel bs (mc_length c)) bs false false c (set_render q i) st1;
      tid ← deref (mc_memblock c); st ← pa_memblock_unref tid st; Ok (i, st)) = Ok (set_render q' i, st') /\
    fill_ready q' d' st' b /\ filled q st (chunk_bytes st1 c) b q' st' /\
    io_content d' st' = io_content d' st1 /\
    (forall j, ext q' st' j - io_hold d' j = ext q st j - io_hold d j).
Proof.
  intros Hpl [H1 H2 H3 H4 H5 [H6 H6'] H7 H8] Hle Hok K Hi Hr Hin Hix Hlen Hmax.
  pose proof (chunk_in_bound _ _ Hok Hin) as (Hbi & Hbl & Hbs').
  destruct (render_env q st st1 H1 Hok K) as [Hq1 Hst1].
  { intros j. specialize (H3 j). specialize (Hr j). pose proof (io_nonneg d' j). pose proof (io_nonneg d j).
    pose proof (chunk_refs_nonneg c j). lia. }
  assert (piece_pre bs q c st1 b) as Hpre.
  { split; rewrite ?H4; try done; try lia.
    - intros j. specialize (H3 j). specialize (Hr j). pose proof (io_nonneg d' j). lia.
    - split; [|lia]. intros i' Hi'. rewrite Hst1. by apply H6. }
  destruct (write_loop_spec rs do_volume bs Hbs i b Hpl (write_fuel bs (mc_length c)) c q st1 Hpre) as (q' & st2 & E & F & RR).
  { unfold write_fuel. pose proof (Z.div_pos (mc_length c) bs). lia. }
  rewrite E. simpl. destruct (id Hin) as (tid & Em & Hrf & _). rewrite Em. simpl.
  assert (length (chunk_bytes st1 c) = Z.to_nat (mc_length c)) as Elen.
  { unfold chunk_bytes. rewrite Em. simpl. destruct Hin as (? & E' & _ & ? & ? & ?). simplify_eq. rewrite sub_list_length; lia. }
  assert (forall j, chunk_refs c j = delta tid 1 j) as Hcr by (intros j; unfold chunk_refs; by rewrite Em).
  pose proof F as [F1 F2 F3 F4 F5 F6 F7 F8 F9 F10 F11].
  assert (0 < refs st2 tid) as Hr2.
  { specialize (RR tid). specialize (Hr tid). specialize (H3 tid). rewrite Hcr in Hr. unfold owned in H3.
    unfold delta in Hr. rewrite decide_True in Hr by done. pose proof (items_refs_nonneg (bq_blocks q') tid).
    pose proof (io_nonneg d' tid). pose proof (chunk_refs_nonneg (bq_silence q) tid). lia. }
  destruct (pa_memblock_unref_spec st2 tid (qi_store _ _ (ro_inv _ _ F1)) Hr2) as (st3 & F3' & Hok3 & K3 & _ & R3).
  rewrite F3'. simpl. exists q', st3. split; [done|].
  assert (forall j, ext q' st3 j - io_hold d' j = ext q st j - io_hold d j) as RR3.
  { intros j. specialize (RR j). specialize (Hr j). unfold ext. rewrite R3. rewrite Hcr in Hr. unfold delta in *. case_decide; lia. }
  assert (forall j, owned q' j + io_hold d' j <= refs st3 j) as Ho3.
  { intros j. specialize (RR3 j). specialize (H3 j). unfold owned, ext in *. rewrite F7. lia. }
  destruct (render_env q' st2 st3 F1 Hok3 K3) as [Hq3 Hst3].
  { intros j. specialize (Ho3 j). pose proof (io_nonneg d' j). lia. }
  assert (keeps st1 st3) as K13 by (apply (keeps_trans st1 st2); [apply Hok|apply F1|done..]).
  assert (keeps st st3) as K03 by (apply (keeps_trans st st1); [apply H1|apply Hok|done..]).
  destruct (io_env d' st1 st3 Hi Hok Hok3 K13) as [Hi3 Hc3].
  { intros j. specialize (Ho3 j). unfold owned in Ho3. pose proof (items_refs_nonneg (bq_blocks q') j).
    pose proof (chunk_refs_nonneg (bq_silence q') j). lia. }
  unfold limits in F6. split; [|split; [|done]].
  - split; try done; try congruence; rewrite ?F4, ?F5, ?Elen in *.
    + split; [|replace (bq_maxlength q') with (bq_maxlength q) by congruence; lia].
      intros i' Hi'. rewrite Hst3. by apply F9.
    + lia.
    + replace (bq_maxlength q') with (bq_maxlength q) by congruence. lia.
  - split; try done.
    + intros i' Hi'. rewrite Hst3. by apply F9.
    + intros i' Hi'. rewrite Hst3, F10 by done. apply Hst1.
    + intros k Hk. rewrite Hst3. by apply F11.
Qed.

Lemma fill_post_trans q d st b bytes q1 d1 st1 data dry q2 d2 st2 : fill_ready q d st b ->
  bq_write_index q <= bq_read_index q -> bytes <> [] -> Z.of_nat (length bytes) <= maxlen -> store_ok st1 ->
  filled q st bytes b q1 st1 -> io_content d st = bytes ++ io_content d1 st1 ->
  (forall j, ext q1 st1 j - io_hold d1 j = ext q st j - io_hold d j) ->
  fill_post q1 d1 st1 b data dry q2 d2 st2 -> fill_post q d st b (bytes ++ data) dry q2 d2 st2.
Proof.
  intros [H1 H2 H3 H4 H5 [H6 H6'] H7 H8] Hle Hne Hbl Hok [F1 F2 F3 F4 F5 F6 F7 F8 F9 F10 F11] Hc Hr
    [P1 P2 P3 P4 P5 P6 P7 P8 P9 P10 P11 Pb P12 P13 P14 P15].
  split; try done; try congruence.
  - apply (keeps_trans st st1); [apply H1|apply Hok|done..].
  - by rewrite Hc, P9, app_assoc.
  - rewrite P11, F4, length_app. lia.
  - rewrite length_app. unfold limits in F6. replace (bq_maxlength q1) with (bq_maxlength q) in Pb by congruence.
    rewrite F5 in Pb. lia.
  - intros i Hi Hw. rewrite length_app in Hw. destruct (decide (i < bq_write_index q1)) as [Hlt|Hge].
    + rewrite P14 by lia. replace i with (bq_write_index q + (i - bq_write_index q)) at 1 by lia.
      rewrite F11 by lia. rewrite lookup_app_l by lia. done.
    + rewrite P13 by lia. rewrite lookup_app_r by lia. f_equal. lia.
  - intros i Hi. lia.
  - intros i Hnil. apply app_nil in Hnil as [? _]. done.
Qed.

(** The loop ends, after at most one round for every byte by which the writer
    lags behind, and one more. *)
Lemma fill_render_spec (i : pa_sink_input R) b : plain i -> forall fuel q d st u p us, fill_ready q d st b ->
  bq_read_index q - bq_write_index q < Z.of_nat fuel ->
  exists u' p' us' q' d' st' data dry,
    fill_render impl rs do_volume fuel bs slength ilength ilength_full false false
      (set_counters u p us (set_render q i)) d st = Ok (set_counters u' p' us' (set_render q' i), d', st') /\
    fill_post q d st b data dry q' d' st' /\ (i_state i = PA_SINK_INPUT_CORKED -> data = []) /\
    (data = [] -> i_state i = PA_SINK_INPUT_CORKED \/ bq_read_index q < bq_write_index q \/ io_dry d).
Proof.
  intros Hpl. induction fuel as [|fuel IH]; intros q d st u p us Hf Hfuel; simpl.
  all: rewrite (readable_spec q st (fr_queue _ _ _ _ Hf) (fr_behind _ _ _ _ Hf)).
  all: destruct (Z.ltb_spec (bq_read_index q) (bq_write_index q)) as [Hlt|Hge];
    [eexists _, _, _, q, d, st, [], false; split; [done|]; split; [by apply fill_done|by auto]|].
  { lia. }
  pose proof (fr_queue _ _ _ _ Hf) as Hq. pose proof (qi_store _ _ (ro_inv _ _ Hq)) as Hok.
  assert (forall d' st1, store_ok st1 -> keeps st st1 -> io_inv d' st1 ->
    (forall j, refs st1 j - io_hold d' j = refs st j - io_hold d j) -> io_content d' st1 = io_content d st ->
    exists u' p' us' q' st',
      ('(q, st) ← pa_memblockq_seek q (s64 slength) PA_SEEK_RELATIVE true st1;
       Ok ((if u =? SIZE_MAX then set_counters u 0 us (set_render q (set_counters u p us i))
            else set_counters (u64 (u + ilength_full)) 0 (u64 (us + slength)) (set_render q (set_counters u p us i))),
           d', st)) = Ok (set_counters u' p' us' (set_render q' i), d', st') /\
      fill_post q d st b [] true q' d' st') as Hdry.
  { intros d' st1 Hok1 K1 Hi1 Hr1 Hc1. destruct (fill_dry q d st b d' st1 Hf Hok1 K1 Hi1 Hr1 Hc1) as (q' & st' & E & P).
    rewrite E. simpl. destruct (u =? SIZE_MAX); eexists _, _, _, q', st'; (split; [done|exact P]). }
  destruct (bool_decide_reflect (i_state i = PA_SINK_INPUT_CORKED)) as [Hcork|Hrun].
  - simpl. destruct (Hdry d st Hok (keeps_refl st) (fr_impl _ _ _ _ Hf)) as (u' & p' & us' & q' & st' & E & P); [done..|].
    exists u', p', us', q', d, st', [], true. split; [exact E|]. by auto.
  - destruct (io_pop d ilength st (fr_impl _ _ _ _ Hf) Hok Hil) as (r & d1 & st1 & E & Hok1 & K1 & Hi1 & Hr1 & Hm).
    { intros j. pose proof (fr_refs _ _ _ _ Hf j). unfold owned in *. pose proof (items_refs_nonneg (bq_blocks q) j).
      pose proof (chunk_refs_nonneg (bq_silence q) j). lia. }
    rewrite E. simpl. destruct r as [c|]; simpl in Hr1.
    + destruct Hm as (Hin & Hix & Hlen & Hmax & Hc).
      destruct (fill_chunk (set_counters 0 (u64 (p + mc_length c)) 0 i) q d st b d1 st1 c Hpl Hf Hge Hok1 K1 Hi1 Hr1
        Hin Hix Hlen Hmax) as (q2 & st2 & E2 & Hf2 & F & Hc2 & Hr2).
      pose proof (chunk_in_bound _ _ Hok1 Hin) as (_ & Hl & _). destruct (id Hin) as (tid & Em & _ & ? & _ & ?).
      rewrite (pa_assert_true (0 <? _)) by blia. simpl. rewrite (isset_some c tid Em). simpl.
      assert (bq_read_index q2 - bq_write_index q2 < Z.of_nat fuel) as Hfuel2.
      { rewrite (fl_read _ _ _ _ _ _ F), (fl_write _ _ _ _ _ _ F).
        assert (length (chunk_bytes st1 c) = Z.to_nat (mc_length c)) as -> by (unfold chunk_bytes; rewrite Em; rewrite sub_list_length; lia). lia. }
      destruct (IH q2 d1 st2 0 (u64 (p + mc_length c)) 0 Hf2 Hfuel2) as (u' & p' & us' & q3 & d3 & st3 & data & dry & E3 & P3 & _ & _).
      assert (chunk_bytes st1 c <> []) as Hne.
      { intros Hnil. apply (f_equal length) in Hnil. unfold chunk_bytes in Hnil. rewrite Em, sub_list_length in Hnil by lia.
        simpl in Hnil. lia. }
      exists u', p', us', q3, d3, st3, (chunk_bytes st1 c ++ data), dry.
      split; [|split; [|split; [done|intros [? _]%app_nil; done]]].
      * inv_bind. change (set_counters 0 (u64 (p + mc_length c)) 0 (set_counters u p us (set_render q i)))
          with (set_render q (set_counters 0 (u64 (p + mc_length c)) 0 i)).
        rewrite E0. simpl. rewrite E1. simpl. rewrite E4. exact E3.
      * assert (length (chunk_bytes st1 c) = Z.to_nat (mc_length c)) as Elen
          by (unfold chunk_bytes; rewrite Em, sub_list_length; lia).
        apply (fill_post_trans q d st b _ q2 d1 st2); try done; [lia|apply (ro_inv _ _ (fr_queue _ _ _ _ Hf2))|by rewrite Hc2].
    + destruct Hm as [Hd Hm].
      destruct (Hdry d1 st1 Hok1 K1 Hi1) as (u' & p' & us' & q' & st' & E2 & P); [intros j; specialize (Hr1 j); lia|done|].
      exists u', p', us', q', d1, st', [], true. split; [exact E2|]. by auto.
Qed.
End fill.

(** ** Reading from the render queue *)

(** The first [n] bytes of what a peek returned. *)
Lemma peeked_shorter q st c st' n : peeked q st c st' -> 0 < n <= mc_length c ->
  peeked q st (mk_chunk (mc_memblock c) (mc_index c) n) st'.
Proof.
  intros [[(id & Em & Hr & Hi & Hl & Hb) Hd]|(Em & Hpos & Hg)] Hn.
  - left. split; [exists id; simpl; split_and!; done || lia|]. intros k Hk. simpl in Hk. rewrite <- Hd by lia.
    unfold chunk_bytes. simpl. rewrite Em. simpl. unfold sub_list. rewrite !lookup_take_lt by lia. done.
  - right. simpl. split_and!; [done|lia|]. intros k Hk. apply Hg. lia.
Qed.

(** A render queue always has something to hand out: its silence, if nothing
    else. *)
Lemma peek_render q st : render_ok q st -> - 2 ^ 61 < bq_read_index q < 2 ^ 61 -> bq_write_index q < 2 ^ 62 ->
  ends_by q st (2 ^ 62) ->
  exists c q' st', pa_memblockq_peek q st = Ok (Some c, (q', st')) /\ render_ok q' st' /\ keeps st st' /\
    0 < mc_length c /\ mc_length c mod bq_base q = 0 /\ isset c = true /\ peeked q st c st' /\
    bq_read_index q' = bq_read_index q /\ bq_write_index q' = bq_write_index q /\
    bq_blocks q' = bq_blocks q /\ limits q' = limits q /\ bq_base q' = bq_base q /\ bq_silence q' = bq_silence q /\
    (forall i, stream q' st' i = stream q st i) /\
    (forall j, refs st' j = refs st j + chunk_refs c j).
Proof.
  intros [H1 H2 H3 [H4 H4'] [H5 H5'] H6] Hri Hwi He. pose proof (qi_list _ _ H1) as Hw.
  assert (Forall (fun it => li_index it < 2 ^ 62) (bq_blocks q)) as Hidx.
  { pose proof (ends_by_items q st _ Hw He) as Hf. pose proof (lw_items _ _ (proj1 Hw)) as Hin.
    rewrite Forall_forall in *. intros it Hit. specialize (Hf it Hit). simpl in Hf.
    pose proof (item_in_end _ _ (Hin it Hit)). lia. }
  destruct (peek_spec q st (qi_store _ _ H1) Hw (qi_silence_alive _ _ H1)) as (r & q' & st' & E & P); [lia..|done|].
  destruct (inv_peek q st H1) as (q2 & st2 & E2 & Hq & K); [simpl; split_and!; done || lia|].
  simpl in E2. rewrite E in E2. simpl in E2. injection E2 as <- <-.
  destruct P as (Hok & _ & Hw' & B & Rr & Fl & Rf & P).
  assert (bq_in_prebuf q' = false) as Ef.
  { destruct (bq_in_prebuf q') eqn:E'; [|done]. destruct (Fl eq_refl); [congruence|lia]. }
  rewrite Ef in Rr. unfold rest in Rr. simpl in Rr. injection Rr as R1 R2 R3 R4 R5 R6 R7 R8 _ R9 R10 _ _ _.
  destruct r as [c|].
  - destruct P as [_ P]. exists c, q', st'. unfold limits. split_and!; try done; try congruence.
    + split; try done; rewrite ?R10, ?R9, ?R3; try done; [split; congruence|].
      destruct H6. apply (frames_moved q _ []); done || congruence.
    + destruct P as [[(? & _ & _ & _ & ? & _) _]|(_ & Hp & _)]; [done|]. apply Hp. by right.
    + eapply (peek_frames q st c q' st'); try done; [apply H1|by eapply qi_base|lia..].
    + destruct P as [[(id & Em & _) _]|(Em & _)]; [by apply (isset_some c id)|].
      unfold isset in *. by rewrite Em.
    + intros i. unfold stream. rewrite B. apply content_keeps; [done|apply Hw|]. rewrite <- B. apply Hw'.
  - unfold nothing_to_peek, pa_memblockq_prebuf_active in P. rewrite H4, H4' in P. simpl in P.
    unfold isset in H5. destruct (unread q), (mc_memblock (bq_silence q)); done.
Qed.

(** ** What a stream plays *)

Section playing.
Context {D R : Type} (impl : implementor D) (rs : resampler_ops R).
Context (do_volume : pa_sample_spec -> pa_cvolume -> list cell -> list cell).
Context (page_size : Z).

(** A stream with the sample spec and the channel map of its sink, so that
    nothing has to be converted. *)
Record playing (i : pa_sink_input R) : Prop := {
  pl_plain : plain i;
  pl_linked : PA_SINK_INPUT_IS_LINKED (i_state i) = true;
  pl_spec : i_sample_spec i = sk_sample_spec (i_sink i);
  pl_spec_ok : spec_ok (sk_sample_spec (i_sink i));
  pl_map : pa_channel_map_equal false (i_channel_map i) (sk_channel_map (i_sink i)) = true;
  pl_factor : pa_cvolume_is_norm (i_volume_factor_sink i) = true
}.

(** A pool whose blocks hold at least a frame. *)
Definition pool_fits (base : Z) (st : store) : Prop :=
  base <= pa_mempool_block_size_max (st_pool st) < 2 ^ 31 /\ base <= page_size < 2 ^ 31.

(** The largest block of whole frames. *)
Definition block_max (base : Z) (st : store) : Z := pa_mempool_block_size_max (st_pool st) / base * base.

(** How much is asked for. *)
Definition asked (base slength : Z) (st : store) : Z :=
  Z.min (block_max base st) (if slength <=? 0 then page_size / base * base else slength).

Lemma round_down_pos x b : 0 < b -> b <= x -> 0 < x / b * b <= x.
Proof. intros Hb Hx. pose proof (round_down_le x b). pose proof (round_down_lt x b Hb). nia. Qed.

Lemma if_min a c : (if a <? c then a else c) = Z.min a c.
Proof. destruct (Z.ltb_spec a c); lia. Qed.

Lemma peek_sizes_ok i slength st : playing i -> pool_fits (frame_size (sk_sample_spec (i_sink i))) st ->
  0 <= slength ->
  let base := frame_size (sk_sample_spec (i_sink i)) in
  peek_sizes rs page_size i slength st =
    Ok (block_max base st, block_max base st, asked base slength st, asked base slength st) /\
  0 < block_max base st < 2 ^ 31 /\ 0 < asked base slength st <= block_max base st /\
  block_max base st mod base = 0 /\ (slength mod base = 0 -> asked base slength st mod base = 0).
Proof.
  intros [P1 P2 P3 P4 P5 P6] [Hp Hg] Hs base. pose proof (frame_size_bound _ P4) as Hb. fold base in Hb, Hp, Hg.
  pose proof (round_down_pos (pa_mempool_block_size_max (st_pool st)) base ltac:(lia) ltac:(lia)) as Hbm.
  pose proof (round_down_pos page_size base ltac:(lia) ltac:(lia)) as Hpg.
  unfold peek_sizes. rewrite P1, P3. rewrite !(pa_frame_align_ok _ P4) by lia. simpl. fold base.
  split; [|split; [unfold block_max; lia|]].
  - unfold asked. fold (block_max base st).
    destruct (Z.leb_spec slength 0); simpl; by rewrite if_min, P1.
  - unfold asked, block_max. split; [destruct (Z.leb_spec slength 0); lia|].
    assert (forall x, x / base * base mod base = 0) as Hrd by (intros x; apply round_down_mod; lia).
    split; [apply Hrd|]. intros Hm. by apply Z.min_case; [|destruct (slength <=? 0)].
Qed.

Context (base maxlen : Z) `{!ImplementorOk impl base maxlen}.

(** A stream in its sink's thread: positions stay away from the ends of the
    64-bit range. *)
Record stream_ready (i : pa_sink_input R) (d : D) (st : store) : Prop := {
  sr_playing : playing i;
  sr_base : base = frame_size (sk_sample_spec (i_sink i));
  sr_pool : pool_fits base st;
  sr_fill : fill_ready impl base maxlen (i_render_memblockq i) d st (2 ^ 61);
  sr_read : - 2 ^ 60 < bq_read_index (i_render_memblockq i);
  sr_write : bq_write_index (i_render_memblockq i) < 2 ^ 61
}.

(** The queue and the implementor after a peek; [data] is what the implementor
    handed over meanwhile. *)
Record peek_post (i : pa_sink_input R) (d : D) (st : store) (slength : Z) (c : pa_memchunk) (v : pa_cvolume)
    (data : list cell) (i' : pa_sink_input R) (d' : D) (st' : store) : Prop := {
  po_queue : render_ok (i_render_memblockq i') st';
  po_impl : io_inv d' st';
  po_playing : playing i';
  po_sink : i_sink i' = i_sink i;
  po_base : bq_base (i_render_memblockq i') = bq_base (i_render_memblockq i);
  po_keeps : keeps st st';
  po_refs j : ext (i_render_memblockq i') st' j - io_hold d' j =
    ext (i_render_memblockq i) st j - io_hold d j + chunk_refs c j;
  po_content : io_content d st = data ++ io_content d' st';
  po_corked : i_state i = PA_SINK_INPUT_CORKED -> data = [];
  po_read : bq_read_index (i_render_memblockq i') = bq_read_index (i_render_memblockq i);
  po_silence : bq_silence (i_render_memblockq i') = bq_silence (i_render_memblockq i);
  po_length : 0 < mc_length c <= block_max base st;
  po_frames : mc_length c mod base = 0;
  po_volume : if i_muted i then pa_cvolume_mute (ss_channels (sk_sample_spec (i_sink i))) = Ok v
    else v = i_soft_volume i;
  po_chunk : peeked (i_render_memblockq i') st' c st';
  po_data k : 0 <= k -> bq_write_index (i_render_memblockq i) <= bq_read_index (i_render_memblockq i) + k <
      bq_write_index (i_render_memblockq i) + Z.of_nat (length data) ->
    stream (i_render_memblockq i') st' (bq_read_index (i_render_memblockq i) + k) =
    data !! Z.to_nat (bq_read_index (i_render_memblockq i) + k - bq_write_index (i_render_memblockq i));
  po_before k : 0 <= k -> bq_read_index (i_render_memblockq i) + k < bq_write_index (i_render_memblockq i) \/ data = [] ->
    stream (i_render_memblockq i') st' (bq_read_index (i_render_memblockq i) + k) =
    stream (i_render_memblockq i) st (bq_read_index (i_render_memblockq i) + k);
  po_write : bq_write_index (i_render_memblockq i') = bq_write_index (i_render_memblockq i) + Z.of_nat (length data) \/
    bq_write_index (i_render_memblockq i') =
      bq_write_index (i_render_memblockq i) + Z.of_nat (length data) + asked base slength st;
  po_fed : data = [] -> i_state i = PA_SINK_INPUT_CORKED \/
    bq_read_index (i_render_memblockq i) < bq_write_index (i_render_memblockq i) \/ io_dry d
}.

Lemma volume_ok_result i : playing i -> exists v,
  (if i_muted i then pa_cvolume_mute (ss_channels (sk_sample_spec (i_sink i))) else Ok (i_soft_volume i)) = Ok v.
Proof.
  intros [_ _ _ [Hv _] _ _]. destruct (i_muted i); [|by eexists].
  unfold pa_cvolume_mute, pa_cvolume_set. unfold pa_sample_spec_valid in Hv.
  destruct (pa_channels_valid (ss_channels (sk_sample_spec (i_sink i)))); [by eexists|].
  rewrite orb_true_r in Hv. simpl in Hv. done.
Qed.

Lemma peek_stream i slength d st fuel : stream_ready i d st -> 0 <= slength -> slength mod base = 0 ->
  bq_read_index (i_render_memblockq i) - bq_write_index (i_render_memblockq i) < Z.of_nat fuel ->
  exists c v data i' d' st', pa_sink_input_peek impl rs do_volume page_size fuel i slength d st = Ok (c, v, (i', d', st')) /\
    peek_post i d st slength c v data i' d' st'.
Proof.
  intros [Hpl Hbase Hpool Hf Hrd Hwr] Hsl Hmod Hfuel. pose proof Hpl as [P1 P2 P3 P4 P5 P6].
  set (q := i_render_memblockq i) in *. unfold pa_sink_input_peek. rewrite P2. simpl.
  rewrite (pa_frame_aligned_ok _ P4). simpl. rewrite <- Hbase. rewrite (proj2 (Z.eqb_eq _ _) Hmod). simpl.
  destruct (peek_sizes_ok i slength st Hpl) as (Esz & Hbm & Has & Hbmod & Hamod); [by rewrite <- Hbase|done|].
  rewrite <- Hbase in *. specialize (Hamod Hmod). rewrite Esz. simpl. rewrite P5, P6. simpl.
  rewrite (proj2 (Z.ltb_ge _ _)) by lia.
  destruct (fill_render_spec impl rs do_volume base maxlen (block_max base st) (asked base slength st)
    (asked base slength st) (asked base slength st)) with (i := i) (b := 2 ^ 61) (fuel := fuel) (q := q) (d := d) (st := st)
    (u := i_underrun_for i) (p := i_playing_for i) (us := i_underrun_for_sink i)
    as (u' & p' & us' & q1 & d1 & st1 & data & dry & E & F & Hck & Hfed); try done; try lia.
  replace (set_counters (i_underrun_for i) (i_playing_for i) (i_underrun_for_sink i) (set_render q i)) with i in E
    by (unfold q; by destruct i).
  rewrite E. simpl. destruct F as [F1 F2 F3 F4 F5 F6 F7 F8 F9 F10 F11 Fb F12 F13 F14 F15].
  pose proof (fr_end _ _ _ _ _ _ _ Hf) as [He Hlim].
  assert (0 < bq_maxlength q) as Hml.
  { pose proof (so_maxlength _ (ao_sizes _ (qi_attr _ _ (ro_inv _ _ (fr_queue _ _ _ _ _ _ _ Hf))))) as [[? _] _].
    pose proof (qi_base _ _ (ro_inv _ _ (fr_queue _ _ _ _ _ _ _ Hf))). lia. }
  destruct (peek_render q1 st1 F1) as (c & q2 & st2 & E2 & G1 & G2 & G3 & G0 & G4 & G5 & G6 & G7 & G8 & G9 & G10 & G11 & G12 & G13);
    [rewrite F10; lia|rewrite F11; destruct dry; lia|intros k Hk; apply F8; lia|].
  rewrite E2. simpl. rewrite (pa_assert_true (0 <? _)) by blia. simpl. rewrite G4. simpl.
  destruct (volume_ok_result i Hpl) as [v Ev]. rewrite Ev. simpl.
  set (c' := mk_chunk _ _ _). exists c', v, data. eexists _, d1, st2. split; [done|].
  assert (0 < mc_length c' <= mc_length c /\ mc_length c' <= block_max base st) as [Hc1 Hc2].
  { simpl. destruct (Z.ltb_spec (block_max base st) (mc_length c)); lia. }
  assert (forall j, chunk_refs c' j = chunk_refs c j) as Hcr by done.
  assert (forall j, ext q2 st2 j - io_hold d1 j = ext q st j - io_hold d j + chunk_refs c j) as Hr2.
  { intros j. specialize (F4 j). unfold ext in *. rewrite G8, G13. lia. }
  assert (keeps st st2) as K2.
  { apply (keeps_trans st st1); [apply (fr_queue _ _ _ _ _ _ _ Hf)|apply F1|done..]. }
  destruct (io_env d1 st1 st2 F2 (qi_store _ _ (ro_inv _ _ F1)) (qi_store _ _ (ro_inv _ _ G1)) G2) as [Hi2 Hc3].
  { intros j. specialize (Hr2 j). pose proof (fr_refs _ _ _ _ _ _ _ Hf j). unfold ext, owned in *.
    pose proof (items_refs_nonneg (bq_blocks q2) j). pose proof (chunk_refs_nonneg (bq_silence q) j). pose proof (chunk_refs_nonneg c j). lia. }
  split; simpl; try done.
  - by rewrite G10.
  - by rewrite Hc3.
  - by rewrite G6.
  - by rewrite G11.
  - destruct (Z.ltb_spec (block_max base st) (mc_length c)); lia.
  - destruct (block_max base st <? mc_length c); [done|]. rewrite <- (fr_base _ _ _ _ _ _ _ Hf). fold q. by rewrite <- F6.
  - destruct (i_muted i); [done|]. by injection Ev.
  - assert (peeked q1 st1 c' st2) as Hp by (apply (peeked_shorter q1 st1 c st2); [done|exact Hc1]).
    unfold peeked in *. rewrite G6, G11. setoid_rewrite G12. exact Hp.
  - intros k Hk Hw. fold q in Hw |- *. rewrite G12. apply F13; lia.
  - intros k Hk Hw. fold q in Hw |- *. rewrite G12. destruct Hw; [apply F14; lia|apply F15; [done|lia]].
  - fold q. rewrite G7, F11. destruct dry; [by right|left; lia].
Qed.
End playing.

(** ** Dropping and rewinding *)

Lemma drop_render q n st : render_ok q st -> 0 <= n < 2 ^ 64 -> n mod bq_base q = 0 ->
  exists q' st', pa_memblockq_drop q n st = Ok (q', st') /\ repositioned q st q' st' /\
    bq_read_index q' = bq_read_index q + n /\ bq_write_index q' = bq_write_index q.
Proof.
  intros [H1 H2 H3 [H4 H4'] H5 H6] Hn Hm. pose proof (qi_list _ _ H1) as Hw.
  destruct (drop_spec q st n (qi_store _ _ H1) Hw (qi_base _ _ H1) Hn Hm)
    as (q1 & q' & st' & gone & E & M & T & Hg & Hri & Hor).
  exists (read_index_changed (bq_read_index q) q'), st'. split; [done|].
  pose proof (inv_moved q st q1 gone q' st' H1 M T) as Hq.
  pose proof M as (Hw1 & B1 & R1 & F1). pose proof T as (_ & K & _ & R & X & B).
  assert (bq_in_prebuf q1 = false) as Ef.
  { destruct (bq_in_prebuf q1) eqn:Ef; [|done]. destruct (F1 eq_refl); [congruence|lia]. }
  rewrite R1 in R. unfold rest in R, R1. simpl in R, R1. rewrite Ef in R.
  injection R as R11 ? R12 Rp ? R13 Rr Rw Rf R14 Ra ? ? ?. injection R1 as ? ? R21 Rp1 ? Rw1 ? ? ? ? ? ?.
  destruct Hor as [Hor|Ha]; [|unfold pa_memblockq_prebuf_active in Ha; rewrite Rp1, H4, Ef in Ha; done].
  split; [|simpl; split; [by rewrite Rr|congruence]]. split; simpl; try done; try congruence.
  - split; simpl; try done; try congruence; [split; congruence|].
    apply (frames_moved q _ gone); simpl; try done; try congruence; [|rewrite Rw; destruct H6; congruence].
    rewrite Rr, Hor. apply mod_add_0; [by eapply qi_base|apply H6|done].
  - unfold limits. simpl. congruence.
  - exists gone. by rewrite <- B1.
  - intros i Hi. change (stream q' st' i = stream q st i).
    rewrite (trimmed_stream q1 st gone q' st' i Hw1 T); [unfold stream; by rewrite B1|].
    eapply Forall_impl; [exact Hg|]. simpl. intros a Ha. simpl in Ha. rewrite Rw1 in Ha. lia.
  - intros j. transitivity (ext q' st' j); [done|]. rewrite X. unfold ext. by rewrite B1.
Qed.

Lemma rewind_render q n st : render_ok q st -> n mod bq_base q = 0 ->
  exists q', pa_memblockq_rewind q n = Ok q' /\ repositioned q st q' st /\
    bq_read_index q' = bq_read_index q - n /\ bq_write_index q' = bq_write_index q.
Proof.
  intros [H1 H2 H3 H4 H5 H6] Hm. destruct (inv_rewind n q st H1 Hm) as (q' & st' & E & Hq & K). simpl in E.
  inv_bind. exists q'. split; [done|]. unfold pa_memblockq_rewind in E0. inv_bind. simpl.
  split; [|done]. split; simpl; try done; [|by exists []]. split; try done. destruct H6.
  apply (frames_moved q _ []); simpl; try done. apply mod_sub_0; [by eapply qi_base|done..].
Qed.

(** Emptying the queue leaves its positions alone. *)
Lemma silence_render q st : render_ok q st ->
  exists q' st', pa_memblockq_silence q st = Ok (q', st') /\ render_ok q' st' /\ keeps st st' /\ bq_blocks q' = [] /\
    rest q' = rest q /\ forall j, ext q' st' j = ext q st j.
Proof.
  intros [H1 H2 H3 H4 H5 H6]. destruct (inv_silence q st H1) as (q' & st' & E & Hq & K). simpl in E.
  destruct (silence_spec q st (qi_store _ _ H1) (qi_list _ _ H1)) as (q1 & st1 & E1 & T & B). rewrite E in E1. simplify_eq.
  exists q1, st1. destruct T as (_ & _ & _ & R & X & _). split_and!; try done.
  unfold rest in R. injection R as ? ? ? ? ? ? ? ? ? Rs Ra ? ? ?. destruct H4. split; rewrite ?Ra, ?Rs; try done; try congruence;
    [split; congruence|]. destruct H6. apply (frames_moved q _ (bq_blocks q)); rewrite ?B, ?app_nil_r; done || congruence.
Qed.

Lemma flush_render q st : render_ok q st ->
  exists q' st', pa_memblockq_flush_write q true st = Ok (q', st') /\ render_ok q' st' /\ keeps st st' /\
    bq_blocks q' = [] /\ bq_read_index q' = bq_read_index q /\ bq_write_index q' = bq_read_index q /\
    bq_silence q' = bq_silence q /\ limits q' = limits q /\ bq_base q' = bq_base q /\
    forall j, ext q' st' j = ext q st j.
Proof.
  intros H. destruct (silence_render q st H) as (q1 & st1 & E & Hq & K & B & Rr & X).
  destruct (inv_flush_write true q st (ro_inv _ _ H)) as (q2 & st2 & E2 & Hq2 & K2). simpl in E2.
  exists q2, st2. split; [done|]. unfold pa_memblockq_flush_write in E2. rewrite E in E2. simpl in E2.
  destruct H as [H1 H2 H3 [H4 H4'] H5 H6].
  unfold rest in Rr. injection Rr as ? ? ? Rp ? ? ? ? ? Rs Ra ? ? ?.
  unfold pa_memblockq_prebuf_force in E2. simpl in E2. rewrite Rp, H4 in E2. simpl in E2. simplify_eq. simpl.
  split_and!; try done; try congruence.
  - split; simpl; rewrite ?Ra, ?Rs; try done; try congruence; [split; congruence|].
    destruct H6. apply (frames_moved q _ (bq_blocks q)); simpl; rewrite ?B, ?app_nil_r; done || congruence.
  - unfold limits. simpl. congruence.
Qed.

Section rewinding.
Context {D R : Type} (impl : implementor D) (rs : resampler_ops R).
Context (base maxlen : Z) `{!ImplementorOk impl base maxlen} `{!RewindOk impl base maxlen}.

(** A stream whose positions are whole frames, before a rewind of its sink. *)
Record rewind_ready (i : pa_sink_input R) (d : D) (st : store) : Prop := {
  rr_plain : plain i;
  rr_linked : PA_SINK_INPUT_IS_LINKED (i_state i) = true;
  rr_spec : spec_ok (sk_sample_spec (i_sink i));
  rr_base : base = frame_size (sk_sample_spec (i_sink i)) /\ bq_base (i_render_memblockq i) = base;
  rr_queue : render_ok (i_render_memblockq i) st;
  rr_impl : io_inv d st;
  rr_refs : forall j, owned (i_render_memblockq i) j + io_hold d j <= refs st j;
  rr_unread : bq_write_index (i_render_memblockq i) - bq_read_index (i_render_memblockq i) < 2 ^ 62;
  rr_rewrite : 0 <= i_rewrite_nbytes i < 2 ^ 62 /\ i_rewrite_nbytes i mod base = 0 \/ i_rewrite_nbytes i = SIZE_MAX
}.

(** How many of the bytes handed over are asked for again, when the sink
    rewinds by [n] bytes. *)
Definition rewritten (i : pa_sink_input R) (n : Z) : Z :=
  let q := i_render_memblockq i in
  if (n <=? 0) || (i_rewrite_nbytes i =? SIZE_MAX) then 0
  else Z.min (i_rewrite_nbytes i) (n + Z.max 0 (bq_write_index q - bq_read_index q)).

(** Whether what the queue holds is thrown away. *)
Definition wiped (i : pa_sink_input R) (n : Z) : bool :=
  (i_rewrite_nbytes i =? SIZE_MAX) || (i_rewrite_flush i && (0 <? rewritten i n)).

Record rewound (i : pa_sink_input R) (n : Z) (d : D) (st : store) (q' : pa_memblockq) (d' : D) (st' : store) : Prop := {
  rw_queue : render_ok q' st';
  rw_impl : io_inv d' st';
  rw_keeps : keeps st st';
  rw_silence : bq_silence q' = bq_silence (i_render_memblockq i);
  rw_refs j : ext q' st' j - io_hold d' j = ext (i_render_memblockq i) st j - io_hold d j;
  rw_read : bq_read_index q' = bq_read_index (i_render_memblockq i) - if i_dont_rewind_render i then 0 else n;
  rw_write : bq_write_index q' =
    if i_rewrite_nbytes i =? SIZE_MAX then bq_read_index q'
    else bq_write_index (i_render_memblockq i) - rewritten i n;
  rw_stream p : bq_read_index q' - bq_maxrewind (i_render_memblockq i) <= p ->
    stream q' st' p = if wiped i n then None else stream (i_render_memblockq i) st p;
  rw_content : rewritten i n = 0 -> io_content d' st' = io_content d st
}.

Lemma unread_length q : bq_write_index q - bq_read_index q < 2 ^ 64 ->
  pa_memblockq_get_length q = Z.max 0 (bq_write_index q - bq_read_index q).
Proof.
  intros H. unfold pa_memblockq_get_length. destruct (Z.leb_spec (bq_write_index q) (bq_read_index q)); [lia|].
  rewrite u64_small; lia.
Qed.

Lemma rewind_start (i : pa_sink_input R) n st : render_ok (i_render_memblockq i) st -> 0 <= n ->
  n mod bq_base (i_render_memblockq i) = 0 ->
  exists q, (if (0 <? n) && negb (i_dont_rewind_render i) then pa_memblockq_rewind (i_render_memblockq i) n
             else Ok (i_render_memblockq i)) = Ok q /\ repositioned (i_render_memblockq i) st q st /\
    bq_read_index q = bq_read_index (i_render_memblockq i) - (if i_dont_rewind_render i then 0 else n) /\
    bq_write_index q = bq_write_index (i_render_memblockq i).
Proof.
  intros Hq Hn Hm.
  assert (repositioned (i_render_memblockq i) st (i_render_memblockq i) st) as Hid
    by (split; try done; apply keeps_refl || by exists []).
  destruct (Z.ltb_spec 0 n), (i_dont_rewind_render i); simpl; try (eexists; split_and!; done || lia).
  destruct (rewind_render _ n st Hq Hm) as (q' & E & P & Er & Ew). exists q'. by rewrite Er, Ew.
Qed.

(** Telling the implementor does not disturb the queue. *)
Lemma told q d st n : render_ok q st -> io_inv d st -> (forall j, owned q j + io_hold d j <= refs st j) ->
  0 <= n -> n mod base = 0 ->
  exists d' st', notify (im_process_rewind impl) n d st = Ok (d', st') /\ render_ok q st' /\ io_inv d' st' /\ keeps st st' /\
    (forall p, stream q st' p = stream q st p) /\
    (forall j, ext q st' j - io_hold d' j = ext q st j - io_hold d j) /\
    (forall j, owned q j + io_hold d' j <= refs st' j) /\
    (n = 0 -> io_content d' st' = io_content d st).
Proof.
  intros Hq Hi Hr Hn Hm. destruct (io_rewind d n st Hi (qi_store _ _ (ro_inv _ _ Hq)) Hn Hm)
    as (d' & st' & E & Hok & K & Hi' & X & C).
  { intros j. specialize (Hr j). unfold owned in Hr. pose proof (items_refs_nonneg (bq_blocks q) j).
    pose proof (chunk_refs_nonneg (bq_silence q) j). lia. }
  destruct (render_env q st st' Hq Hok K) as [Hq' Hs].
  { intros j. specialize (Hr j). specialize (X j). pose proof (io_nonneg d' j). lia. }
  exists d', st'. split_and!; try done; intros j; specialize (X j); specialize (Hr j); [unfold ext|]; lia.
Qed.

(** A change of the queue does not disturb the implementor. *)
Lemma undisturbed q st q' d st' : render_ok q st -> render_ok q' st' -> keeps st st' -> io_inv d st ->
  bq_silence q' = bq_silence q -> (forall j, ext q' st' j = ext q st j) ->
  (forall j, owned q j + io_hold d j <= refs st j) ->
  io_inv d st' /\ io_content d st' = io_content d st /\ forall j, owned q' j + io_hold d j <= refs st' j.
Proof.
  intros Hq Hq' K Hi Es X Hr.
  assert (forall j, owned q' j + io_hold d j <= refs st' j) as Hr'.
  { intros j. specialize (Hr j). specialize (X j). unfold owned, ext in *. rewrite Es. lia. }
  destruct (io_env d st st' Hi (qi_store _ _ (ro_inv _ _ Hq)) (qi_store _ _ (ro_inv _ _ Hq')) K) as [? ?]; [|done].
  intros j. specialize (Hr' j). unfold owned in Hr'. pose proof (items_refs_nonneg (bq_blocks q') j).
  pose proof (chunk_refs_nonneg (bq_silence q') j). lia.
Qed.

(** Moving the write position back by [amount] bytes, and emptying the queue
    when it is to be flushed. *)
Lemma write_back (flush : bool) q amount st : render_ok q st -> 0 < amount < 2 ^ 63 -> amount mod bq_base q = 0 ->
  exists q' st', ('(q, st) ← (if 0 <? amount then pa_memblockq_seek q (- s64 amount) PA_SEEK_RELATIVE true st else Ok (q, st));
      if flush then pa_memblockq_silence q st else Ok (q, st)) = Ok (q', st') /\
    render_ok q' st' /\ keeps st st' /\ bq_silence q' = bq_silence q /\ bq_read_index q' = bq_read_index q /\
    bq_write_index q' = bq_write_index q - amount /\ (forall j, ext q' st' j = ext q st j) /\
    forall p, bq_read_index q - bq_maxrewind q <= p -> stream q' st' p = if flush then None else stream q st p.
Proof.
  intros Hq Ha Ham. rewrite (proj2 (Z.ltb_lt _ _)) by lia. rewrite s64_small by lia.
  destruct (seek_render q (- amount) true st Hq) as (q1 & st1 & E & [P1 P2 P3 P4 P5 P6 P7 P8] & Er & Ew);
    [by apply Z.mod_opp_l_z; [pose proof (qi_base _ _ (ro_inv _ _ Hq)); lia|]|].
  rewrite E. simpl. destruct flush.
  - destruct (silence_render q1 st1 P1) as (q2 & st2 & E2 & Hq2 & K2 & B & Rr & X).
    rewrite E2. exists q2, st2. unfold rest in Rr. injection Rr as ? ? ? ? ? ? R1 R2 ? R3 ? ? ? ?.
    split_and!; try done; try congruence.
    + apply (keeps_trans st st1); [apply Hq|apply P1|done..].
    + lia.
    + intros p _. unfold stream. by rewrite B.
  - exists q1, st1. split_and!; try done. intros p Hp. apply P7. by rewrite Er.
Qed.

(** Where a rewind leaves the stream; [amount] bytes are rewritten. *)
Lemma rewrite_amount (i : pa_sink_input R) n d st : rewind_ready i d st -> 0 <= n < 2 ^ 62 -> n mod base = 0 ->
  i_rewrite_nbytes i <> SIZE_MAX ->
  let lbq := pa_memblockq_get_length (i_render_memblockq i) in
  rewritten i n = Z.min (i_rewrite_nbytes i) (if 0 <? n then u64 (n + lbq) else n) /\
  0 <= rewritten i n < 2 ^ 62 /\ rewritten i n mod base = 0.
Proof.
  intros [H1 H2 H3 [Hb Hb'] H4 H5 H6 H8 [[H9 H9']|]] Hn Hm Hne lbq; [|done].
  set (q := i_render_memblockq i) in *.
  assert (lbq = Z.max 0 (bq_write_index q - bq_read_index q)) as El by (apply unread_length; lia).
  pose proof (qi_base _ _ (ro_inv _ _ H4)) as Hpos. rewrite Hb' in Hpos.
  assert (lbq mod base = 0) as Hl.
  { rewrite El. destruct (ro_frames _ _ H4) as [F1 F2 _ _]. rewrite Hb' in F1, F2.
    apply Z.max_case; [apply Zmod_0_l|by apply mod_sub_0]. }
  unfold rewritten. fold q. rewrite (proj2 (Z.eqb_neq _ _) Hne), orb_false_r.
  rewrite <- El. destruct (Z.leb_spec n 0) as [Hn0|Hn0].
  - rewrite (proj2 (Z.ltb_ge _ _)) by lia. split_and!; [lia..|apply Zmod_0_l].
  - rewrite (proj2 (Z.ltb_lt _ _)), u64_small by lia. split_and!; [done|lia..|].
    destruct (Z.min_spec (i_rewrite_nbytes i) (n + lbq)) as [[_ ->]|[_ ->]]; [done|by apply mod_add_0].
Qed.

(** The stream once its read position was moved back to that of [q1]. *)
Record turned_back (i : pa_sink_input R) (n : Z) (d : D) (st : store) (q1 : pa_memblockq) : Prop := {
  tb_ready : rewind_ready i d st;
  tb_queue : repositioned (i_render_memblockq i) st q1 st;
  tb_read : bq_read_index q1 = bq_read_index (i_render_memblockq i) - if i_dont_rewind_render i then 0 else n;
  tb_write : bq_write_index q1 = bq_write_index (i_render_memblockq i)
}.

Lemma turned_back_refs i n d st q1 : turned_back i n d st q1 -> forall j, owned q1 j + io_hold d j <= refs st j.
Proof.
  intros [Hr P _ _] j. pose proof (rp_refs _ _ _ _ P j). pose proof (rr_refs _ _ _ Hr j).
  unfold ext, owned in *. rewrite (rp_silence _ _ _ _ P). lia.
Qed.

(** Everything is dropped, the implementor is told that nothing is rewritten. *)
Lemma rewind_all i n d st q1 : turned_back i n d st q1 -> i_rewrite_nbytes i = SIZE_MAX ->
  exists q2 st2 d3 st3, pa_memblockq_flush_write q1 true st = Ok (q2, st2) /\
    notify (im_process_rewind impl) 0 d st2 = Ok (d3, st3) /\ rewound i n d st q2 d3 st3.
Proof.
  intros T Emax. pose proof (turned_back_refs _ _ _ _ _ T) as Hr1. destruct T as [Hr P Er Ew].
  pose proof (rp_ok _ _ _ _ P) as Hq1.
  destruct (flush_render q1 st Hq1) as (q2 & st2 & E2 & Hq2 & K2 & B & R1 & R2 & R3 & R4 & R5 & X).
  destruct (undisturbed q1 st q2 d st2) as (Hi2 & Hc2 & Hr2); try done; [apply Hr|].
  destruct (told q2 d st2 0) as (d3 & st3 & E3 & Hq3 & Hi3 & K3 & Hs3 & X3 & Hr3 & C3); [done..|apply Zmod_0_l|].
  exists q2, st2, d3, st3. split_and!; [done..|]. split; rewrite ?Emax; try done.
  - apply (keeps_trans st st2); [apply Hq1|apply Hq2|done..].
  - by rewrite R3, (rp_silence _ _ _ _ P).
  - intros j. rewrite X3, X. by rewrite (rp_refs _ _ _ _ P).
  - by rewrite R1.
  - by rewrite R2, R1.
  - intros p _. rewrite Hs3. unfold wiped. rewrite Emax. simpl. unfold stream. by rewrite B.
  - intros _. rewrite C3 by done. done.
Qed.

(** Nothing is to be rewritten. *)
Lemma rewind_none i n d st q1 : turned_back i n d st q1 -> i_rewrite_nbytes i <> SIZE_MAX -> rewritten i n = 0 ->
  exists d' st', notify (im_process_rewind impl) 0 d st = Ok (d', st') /\ rewound i n d st q1 d' st'.
Proof.
  intros T Hne E0. pose proof (turned_back_refs _ _ _ _ _ T) as Hr1. destruct T as [Hr P Er Ew].
  destruct (told q1 d st 0) as (d3 & st3 & E3 & Hq3 & Hi3 & K3 & Hs3 & X3 & Hr3 & C3);
    [apply P|apply Hr|done..|apply Zmod_0_l|].
  exists d3, st3. split; [done|]. split; try done; rewrite ?(proj2 (Z.eqb_neq _ _) Hne), ?E0.
  - apply (rp_silence _ _ _ _ P).
  - intros j. by rewrite X3, (rp_refs _ _ _ _ P).
  - lia.
  - intros p Hp. unfold wiped. rewrite (proj2 (Z.eqb_neq _ _) Hne), E0, andb_false_r. simpl. rewrite Hs3.
    by apply (rp_stream _ _ _ _ P).
  - intros _. by apply C3.
Qed.

(** Some bytes are rewritten. *)
Lemma rewind_some i n d st q1 : turned_back i n d st q1 -> i_rewrite_nbytes i <> SIZE_MAX ->
  0 < rewritten i n < 2 ^ 62 -> rewritten i n mod base = 0 ->
  exists d1 st1 q2 st2 q3 st3, notify (im_process_rewind impl) (rewritten i n) d st = Ok (d1, st1) /\
    pa_memblockq_seek q1 (- s64 (rewritten i n)) PA_SEEK_RELATIVE true st1 = Ok (q2, st2) /\
    (if i_rewrite_flush i then pa_memblockq_silence q2 st2 else Ok (q2, st2)) = Ok (q3, st3) /\
    rewound i n d st q3 d1 st3.
Proof.
  intros T Hne Ha Ham. pose proof (turned_back_refs _ _ _ _ _ T) as Hr1. destruct T as [Hr P Er Ew].
  pose proof (rp_limits _ _ _ _ P) as L. unfold limits in L. injection L as _ _ _ Emr.
  destruct (told q1 d st (rewritten i n)) as (d3 & st3 & E3 & Hq3 & Hi3 & K3 & Hs3 & X3 & Hr3 & C3); [apply P|apply Hr|done|lia|done|].
  destruct (write_back (i_rewrite_flush i) q1 (rewritten i n) st3 Hq3) as (q4 & st4 & E4 & Hq4 & K4 & S4 & R4 & W4 & X4 & Hs4);
    [lia|rewrite (rp_base _ _ _ _ P); by rewrite (proj2 (rr_base _ _ _ Hr))|].
  destruct (undisturbed q1 st3 q4 d3 st4) as (Hi4 & Hc4 & Hr4); [done..|].
  rewrite (proj2 (Z.ltb_lt 0 (rewritten i n))) in E4 by lia. inv_bind. exists d3, st3. eexists _, _, q4, st4. split_and!; [done..|].
  split; try done; rewrite ?(proj2 (Z.eqb_neq _ _) Hne).
  - apply (keeps_trans st st3); [apply (rr_queue _ _ _ Hr)|apply Hq3|done..].
  - by rewrite S4, (rp_silence _ _ _ _ P).
  - intros j. by rewrite X4, X3, (rp_refs _ _ _ _ P).
  - by rewrite R4.
  - by rewrite W4, Ew.
  - intros k Hk. unfold wiped. rewrite (proj2 (Z.eqb_neq _ _) Hne), (proj2 (Z.ltb_lt 0 (rewritten i n))), andb_true_r by lia. simpl.
    rewrite Hs4 by (rewrite <- R4, Emr; lia). destruct (i_rewrite_flush i); [done|]. rewrite Hs3.
    apply (rp_stream _ _ _ _ P). by rewrite <- R4.
  - lia.
Qed.

Lemma rewind_spec i n d st : rewind_ready i d st -> 0 <= n < 2 ^ 62 -> n mod base = 0 ->
  exists q' d' st', pa_sink_input_process_rewind impl rs i n d st =
      Ok (set_rewrite false false 0 (set_render q' i), d', st') /\ rewound i n d st q' d' st'.
Proof.
  intros Hrr Hn Hm. pose proof Hrr as [H1 H2 H3 [Hb Hb'] H4 H5 H6 H8 H9].
  unfold pa_sink_input_process_rewind. rewrite H2. simpl.
  rewrite (pa_frame_aligned_ok _ H3). simpl. rewrite <- Hb, (proj2 (Z.eqb_eq _ _) Hm). simpl.
  destruct (rewind_start i n st) as (q1 & E1 & P & Er & Ew); [done|lia|by rewrite Hb'|]. rewrite E1. simpl.
  assert (turned_back i n d st q1) as T by done.
  unfold rewrite_data. change (i_rewrite_nbytes (set_render q1 i)) with (i_rewrite_nbytes i).
  destruct (Z.eqb_spec (i_rewrite_nbytes i) SIZE_MAX) as [Emax|Hne].
  { destruct (rewind_all i n d st q1 T Emax) as (q2 & st2 & d3 & st3 & E2 & E3 & W). simpl. rewrite E2. simpl. rewrite E3. by eexists _, _, _. }
  destruct (rewrite_amount i n d st Hrr Hn Hm Hne) as (Ea & Ha & Ham). simpl. rewrite H1, <- Ea.
  assert (rewritten i n = 0 -> exists q' d' st',
    ('(d, st) ← notify (im_process_rewind impl) 0 d st; Ok (set_rewrite false false 0 (set_render q1 i), d, st)) =
      Ok (set_rewrite false false 0 (set_render q' i), d', st') /\ rewound i n d st q' d' st') as Hnone.
  { intros E0. destruct (rewind_none i n d st q1 T Hne E0) as (d' & st' & E & W). rewrite E. by eexists _, _, _. }
  destruct (Z.ltb_spec 0 (i_rewrite_nbytes i)) as [Hpos|Hnp]; [|simpl; apply Hnone; lia].
  destruct (Z.ltb_spec 0 (rewritten i n)) as [Hap|Hap]; [|simpl; apply Hnone; lia].
  destruct (rewind_some i n d st q1 T Hne) as (d1 & st1 & q2 & st2 & q3 & st3 & F1 & F2 & F3 & W); [lia|done|].
  rewrite F1. simpl. rewrite F2. simpl. rewrite F3. simpl. exists q3, d1, st3. split; [|done].
  unfold plain in H1. destruct i. simpl in *. by subst.
Qed.
End rewinding.

(** ** The properties of a stream *)

(** A byte of a peeked chunk is the byte of the stream there; where the stream
    has none, the chunk is the queue's silence. *)
Lemma peeked_byte q st c st' k : peeked q st c st' -> 0 <= k < mc_length c ->
  match stream q st (bq_read_index q + k) with
  | Some x => chunk_bytes st' c !! Z.to_nat k = Some x
  | None => mc_memblock c = mc_memblock (bq_silence q)
  end.
Proof.
  intros [[(id & Em & Hr & Hi & Hl & Hb) Hd]|(Em & _ & Hg)] Hk.
  - specialize (Hd k Hk). destruct (stream q st (bq_read_index q + k)) as [x|]; [done|]. exfalso.
    apply lookup_ge_None in Hd. unfold chunk_bytes in Hd. rewrite Em, sub_list_length in Hd by lia. lia.
  - by rewrite Hg by done.
Qed.

(** The byte a stream plays next but [k]: what its queue held for it, then
    [data]. *)
Definition due {R} (i : pa_sink_input R) (st : store) (data : list cell) (k : Z) : option cell :=
  let q := i_render_memblockq i in
  let p := bq_read_index q + k in
  if (p <? bq_write_index q) || bool_decide (data = []) then stream q st p
  else data !! Z.to_nat (p - bq_write_index q).

Lemma due_stream {D R} (impl : implementor D) page_size base maxlen `{!ImplementorOk impl base maxlen} (i : pa_sink_input R)
    d st slength c v data i' d' st' k :
  peek_post impl page_size base maxlen i d st slength c v data i' d' st' -> 0 <= k ->
  bq_read_index (i_render_memblockq i) + k < bq_write_index (i_render_memblockq i) + Z.of_nat (length data) \/ data = [] ->
  stream (i_render_memblockq i') st' (bq_read_index (i_render_memblockq i) + k) = due i st data k.
Proof.
  intros P Hk Hin. unfold due. case_bool_decide as Hnil.
  - rewrite orb_true_r. rewrite (po_before _ _ _ _ _ _ _ _ _ _ _ _ _ _ P) by (lia || by right). done.
  - rewrite orb_false_r. destruct (Z.ltb_spec (bq_read_index (i_render_memblockq i) + k) (bq_write_index (i_render_memblockq i))).
    + rewrite (po_before _ _ _ _ _ _ _ _ _ _ _ _ _ _ P) by (lia || by left). done.
    + destruct Hin as [Hin|]; [|done]. rewrite (po_data _ _ _ _ _ _ _ _ _ _ _ _ _ _ P) by lia. done.
Qed.

(** C11: a stream that needs no conversion always has something to play: asking
    it for data ends, after at most one call of the implementor for every byte
    the writer lags behind and one more, with a chunk of whole frames, at most
    the largest block of them.  Its bytes are those the queue held and then those
    the implementor handed over meanwhile, in order; where there are none the
    chunk is the sink's silence.  What was handed over is gone from the
    implementor, nothing else, and a stopped stream takes nothing; but when the
    queue of a running stream is used up, data is taken from an implementor that
    has some.  The volume
    is the stream's own, or the one that mutes. *)
Theorem sink_input_plays {D R} (impl : implementor D) (rs : resampler_ops R) do_volume page_size base maxlen
    `{!ImplementorOk impl base maxlen} i slength d st fuel :
  stream_ready impl page_size base maxlen i d st -> 0 <= slength -> slength mod base = 0 ->
  bq_read_index (i_render_memblockq i) - bq_write_index (i_render_memblockq i) < Z.of_nat fuel ->
  exists c v data i' d' st',
    pa_sink_input_peek impl rs do_volume page_size fuel i slength d st = Ok (c, v, (i', d', st')) /\
    0 < mc_length c <= block_max base st /\ mc_length c mod base = 0 /\
    (forall k, 0 <= k < mc_length c ->
       bq_read_index (i_render_memblockq i) + k < bq_write_index (i_render_memblockq i) + Z.of_nat (length data) \/ data = [] ->
       match due i st data k with
       | Some x => chunk_bytes st' c !! Z.to_nat k = Some x
       | None => mc_memblock c = mc_memblock (bq_silence (i_render_memblockq i))
       end) /\
    io_content d st = data ++ io_content d' st' /\ (i_state i = PA_SINK_INPUT_CORKED -> data = []) /\
    (data = [] -> i_state i = PA_SINK_INPUT_CORKED \/
       bq_read_index (i_render_memblockq i) < bq_write_index (i_render_memblockq i) \/ io_dry d) /\
    bq_read_index (i_render_memblockq i') = bq_read_index (i_render_memblockq i) /\
    (forall j, ext (i_render_memblockq i') st' j - io_hold d' j =
       ext (i_render_memblockq i) st j - io_hold d j + chunk_refs c j) /\
    (if i_muted i then pa_cvolume_mute (ss_channels (sk_sample_spec (i_sink i))) = Ok v else v = i_soft_volume i) /\
    render_ok (i_render_memblockq i') st' /\ io_inv d' st'.
Proof.
  intros Hr Hs Hm Hf. destruct (peek_stream impl rs do_volume page_size base maxlen i slength d st fuel Hr Hs Hm Hf)
    as (c & v & data & i' & d' & st' & E & P).
  exists c, v, data, i', d', st'. split; [done|]. pose proof (fun k => due_stream _ _ _ _ _ _ _ _ _ _ _ _ _ _ k P) as Hdue.
  destruct P. split_and!; try done; [lia..|].
  intros k Hk Hin. pose proof (peeked_byte _ _ _ _ k po_chunk0 Hk) as Hb.
  rewrite po_read0, po_silence0 in Hb. by rewrite Hdue in Hb by (lia || done).
Qed.

(** A rewind of the sink by [n] bytes never fails.  The read position goes
    back by [n], unless the request was to leave it; the write position goes back
    by what was asked to be rewritten, at most [n] and what was not read yet, so
    that it never falls behind the read position.  What the queue holds from
    [maxrewind] bytes before the new read position on stays, unless the request
    was to flush it.  Afterwards no request is pending, and the implementor has
    lost nothing when nothing was to be rewritten. *)
Theorem rewind_positions {D R} (impl : implementor D) (rs : resampler_ops R) base maxlen
    `{!ImplementorOk impl base maxlen} `{!RewindOk impl base maxlen} i n d st :
  rewind_ready impl base maxlen i d st -> 0 <= n < 2 ^ 62 -> n mod base = 0 ->
  exists i' d' st', pa_sink_input_process_rewind impl rs i n d st = Ok (i', d', st') /\
    let q := i_render_memblockq i in let q' := i_render_memblockq i' in
    bq_read_index q' = bq_read_index q - (if i_dont_rewind_render i then 0 else n) /\
    bq_write_index q' = (if i_rewrite_nbytes i =? SIZE_MAX then bq_read_index q' else bq_write_index q - rewritten i n) /\
    0 <= rewritten i n <= n + Z.max 0 (bq_write_index q - bq_read_index q) /\
    (i_dont_rewind_render i = false -> bq_read_index q <= bq_write_index q -> bq_read_index q' <= bq_write_index q') /\
    (forall p, bq_read_index q' - bq_maxrewind q <= p -> stream q' st' p = if wiped i n then None else stream q st p) /\
    i_rewrite_nbytes i' = 0 /\ i_rewrite_flush i' = false /\ i_dont_rewind_render i' = false /\
    (rewritten i n = 0 -> io_content d' st' = io_content d st) /\ render_ok q' st' /\ io_inv d' st'.
Proof.
  intros Hr Hn Hm. destruct (rewind_spec impl rs base maxlen i n d st Hr Hn Hm) as (q' & d' & st' & E & W).
  eexists _, d', st'. split; [exact E|]. simpl. destruct W as [W1 W2 W8 W9 W3 W4 W5 W6 W7].
  assert (0 <= rewritten i n <= n + Z.max 0 (bq_write_index (i_render_memblockq i) - bq_read_index (i_render_memblockq i))) as Ha.
  { unfold rewritten. destruct (Z.leb_spec n 0); simpl; [lia|]. destruct (Z.eqb_spec (i_rewrite_nbytes i) SIZE_MAX); [lia|].
    destruct (rr_rewrite _ _ _ _ _ _ Hr); lia. }
  split_and!; try done; try lia. intros Ed Hle. rewrite W5, W4, Ed. destruct (i_rewrite_nbytes i =? SIZE_MAX); lia.
Qed.

(** What was played can be played again: dropping [n] bytes and rewinding
    by [n], with no request to rewrite, gives the stream back with the same
    positions and the same data from the read position on, when the queue was
    told to keep [n] bytes. *)
Theorem drop_rewind_replays {D R} (impl : implementor D) (rs : resampler_ops R) base maxlen
    `{!ImplementorOk impl base maxlen} `{!RewindOk impl base maxlen} i n d st :
  rewind_ready impl base maxlen i d st -> 0 < n < 2 ^ 62 -> n mod base = 0 ->
  n <= bq_maxrewind (i_render_memblockq i) ->
  i_rewrite_nbytes i = 0 -> i_dont_rewind_render i = false ->
  exists i1 st1 i2 d2 st2, pa_sink_input_drop i n st = Ok (i1, st1) /\
    pa_sink_input_process_rewind impl rs i1 n d st1 = Ok (i2, d2, st2) /\
    bq_read_index (i_render_memblockq i2) = bq_read_index (i_render_memblockq i) /\
    bq_write_index (i_render_memblockq i2) = bq_write_index (i_render_memblockq i) /\
    (forall p, bq_read_index (i_render_memblockq i) <= p ->
       stream (i_render_memblockq i2) st2 p = stream (i_render_memblockq i) st p) /\
    io_content d2 st2 = io_content d st.
Proof.
  intros Hr Hn Hm Hmr Hrw Hdr. pose proof Hr as [H1 H2 H3 [Hb Hb'] H4 H5 H6 H8 H9].
  destruct (drop_render _ n st H4) as (q1 & st1 & E & [P1 P2 P3 P4 P5 P6 P7 P8] & Er & Ew); [lia|by rewrite Hb'|].
  destruct (undisturbed impl base maxlen _ st q1 d st1 H4 P1 P2 H5 P5 P8 H6) as (Hi1 & Hc1 & Hr1).
  pose proof P4 as L. unfold limits in L. injection L as _ _ _ Emr.
  assert (rewind_ready impl base maxlen (set_render q1 i) d st1) as Hr'.
  { split; simpl; try done; [by split; [|congruence]|lia]. }
  destruct (rewind_spec impl rs base maxlen _ n d st1 Hr') as (q2 & d2 & st2 & E2 & [W1 W2 W8 W9 W3 W4 W5 W6 W7]); [lia|done|].
  assert (rewritten (set_render q1 i) n = 0) as E0.
  { unfold rewritten. simpl. rewrite Hrw. destruct (n <=? 0); [done|]. simpl. rewrite Er, Ew. lia. }
  eexists _, st1, _, d2, st2. split.
  { unfold pa_sink_input_drop. rewrite H2. simpl. rewrite (pa_frame_aligned_ok _ H3). simpl.
    rewrite <- Hb, (proj2 (Z.eqb_eq _ _) Hm). simpl. rewrite (pa_assert_true (0 <? n)) by blia. simpl. by rewrite E. }
  split; [exact E2|]. simpl in *. rewrite E0, Hrw in W5. simpl in W5. rewrite Hdr in W4.
  split_and!; [lia|lia| |by rewrite W7].
  intros p Hp. rewrite W6 by lia. unfold wiped. rewrite E0. simpl. rewrite Hrw, andb_false_r. simpl. apply P7. lia.
Qed.

(** Requests to the sink only grow, up to what the sink can rewind. *)
Lemma request_rewind_grows s n : 0 <= n -> 0 <= sk_max_rewind s ->
  (sk_rewind_requested s = true -> sk_rewind_nbytes s <= sk_max_rewind s) ->
  let s' := (pa_sink_request_rewind s n).1 in
  sk_rewind_requested s' = true /\ sk_max_rewind s' = sk_max_rewind s /\
  (sk_rewind_requested s = true -> sk_rewind_nbytes s <= sk_rewind_nbytes s') /\
  Z.min n (sk_max_rewind s) <= sk_rewind_nbytes s' <= sk_max_rewind s.
Proof.
  intros Hn Hm Hold s'. subst s'. unfold pa_sink_request_rewind.
  set (m := Z.min (if n =? SIZE_MAX then sk_max_rewind s else n) (sk_max_rewind s)).
  assert (Z.min n (sk_max_rewind s) <= m <= sk_max_rewind s) by (unfold m; destruct (n =? SIZE_MAX); lia).
  destruct (sk_rewind_requested s) eqn:Er; simpl; [|split_and!; done || lia].
  specialize (Hold eq_refl). destruct (Z.leb_spec m (sk_rewind_nbytes s)); simpl; rewrite ?Er; split_and!; try done; lia.
Qed.

(** Asking to rewrite data never reaches back over an underrun: whatever
    the sink rewinds afterwards, at most the bytes played since the last one are
    asked for again.  The sink is asked for no more than it can rewind, never
    for less than before, and for as much as the request needs beyond what the
    queue has not played yet. *)
Theorem rewrite_spares_underruns {R} (rs : resampler_ops R) (i : pa_sink_input R) nbytes flush :
  plain i -> i_state i = PA_SINK_INPUT_RUNNING -> 0 <= i_rewrite_nbytes i <= i_playing_for i ->
  0 <= nbytes < SIZE_MAX -> i_playing_for i < SIZE_MAX ->
  0 <= sk_max_rewind (i_sink i) -> (sk_rewind_requested (i_sink i) = true -> sk_rewind_nbytes (i_sink i) <= sk_max_rewind (i_sink i)) ->
  exists i', pa_sink_input_request_rewind rs i nbytes true flush false = Ok i' /\
    i_rewrite_nbytes i <= i_rewrite_nbytes i' /\ (forall n, rewritten i' n <= i_playing_for i) /\
    sk_rewind_requested (i_sink i') = true /\
    (sk_rewind_requested (i_sink i) = true -> sk_rewind_nbytes (i_sink i) <= sk_rewind_nbytes (i_sink i')) /\
    Z.min (i_rewrite_nbytes i' - pa_memblockq_get_length (i_render_memblockq i)) (sk_max_rewind (i_sink i))
      <= sk_rewind_nbytes (i_sink i') <= sk_max_rewind (i_sink i).
Proof.
  intros Hpl Hst Hrw Hn Hp Hm Hold. unfold pa_sink_input_request_rewind. rewrite Hst. simpl.
  unfold to_input. rewrite Hpl. simpl. set (lbq := pa_memblockq_get_length (i_render_memblockq i)).
  assert (0 <= lbq) as Hl.
  { unfold lbq, pa_memblockq_get_length. case_match; [lia|apply u64_bound]. }
  set (m := Z.max (i_rewrite_nbytes i) nbytes). set (m1 := if m <=? 0 then u64 (sk_max_rewind (i_sink i) + lbq) else m).
  assert (i_rewrite_nbytes i <= m1) as Hm1.
  { unfold m1, m. destruct (Z.leb_spec (Z.max (i_rewrite_nbytes i) nbytes) 0); [|lia].
    pose proof (u64_bound (sk_max_rewind (i_sink i) + lbq)). lia. }
  set (a := if i_playing_for i <? m1 then i_playing_for i else m1).
  assert (a = Z.min (i_playing_for i) m1) as Ea by (apply if_min).
  rewrite (proj2 (Z.eqb_neq (i_rewrite_nbytes i) SIZE_MAX)) by lia. simpl.
  rewrite (proj2 (Z.eqb_neq a SIZE_MAX)) by lia.
  destruct (request_rewind_grows (i_sink i) (if lbq <? a then u64 (a - lbq) else 0)) as (G1 & G2 & G3 & G4 & G5); [|done..|].
  { case_match; [apply u64_bound|lia]. }
  destruct (pa_sink_request_rewind (i_sink i) (if lbq <? a then u64 (a - lbq) else 0)) as [s' b]. simpl in *.
  eexists. split; [done|]. simpl. split_and!; try done; [lia| |].
  - intros k. unfold rewritten. simpl. destruct ((k <=? 0) || (a =? SIZE_MAX)); lia.
  - destruct (Z.ltb_spec lbq a); [|lia]. rewrite u64_small in G4 by (unfold SIZE_MAX in *; lia). lia.
Qed.

(** ** A concrete stream *)

Module StreamExample.
(** An implementor with a list of chunks, one for each [pop]. *)
Definition pop (d : list pa_memchunk) (_ : Z) (st : store) : outcome (option pa_memchunk * (list pa_memchunk * store)) :=
  match d with [] => Ok (None, ([], st)) | c :: d => Ok (Some c, (d, st)) end.
Definition chunks : implementor (list pa_memchunk) := mk_implementor pop None None None None.

Definition holds (d : list pa_memchunk) (j : Z) : Z := foldr (fun c n => chunk_refs c j + n) 0 d.
Definition whole_frames (base maxlen : Z) (st : store) (c : pa_memchunk) : Prop :=
  chunk_in st c /\ mc_index c mod base = 0 /\ mc_length c mod base = 0 /\ mc_length c <= maxlen.

Lemma holds_nonneg d j : 0 <= holds d j.
Proof. induction d as [|c d IH]; simpl; [lia|]. pose proof (chunk_refs_nonneg c j). lia. Qed.

Lemma chunks_env base maxlen d st st' : Forall (whole_frames base maxlen st) d -> keeps st st' ->
  (forall j, holds d j <= refs st' j) ->
  Forall (whole_frames base maxlen st') d /\ concat (chunk_bytes st' <$> d) = concat (chunk_bytes st <$> d).
Proof.
  intros Hf K. induction Hf as [|c d (Hc & Hx & Hl & Hm) Hf IH]; intros Hr; [done|].
  destruct IH as [IH1 IH2]. { intros j. specialize (Hr j). simpl in Hr. pose proof (chunk_refs_nonneg c j). lia. }
  destruct (chunk_in_keeps st st' c K Hc) as [Hc' Eb].
  { intros id E. specialize (Hr id). simpl in Hr. rewrite (chunk_refs_some c id E) in Hr.
    pose proof (holds_nonneg d id). lia. }
  split; [by constructor|]. simpl. rewrite Eb. f_equal. exact IH2.
Qed.

#[export] Instance chunks_ok base maxlen : ImplementorOk chunks base maxlen.
Proof.
  refine (Build_ImplementorOk _ chunks base maxlen (fun d st => Forall (whole_frames base maxlen st) d) holds
    (fun d st => concat (chunk_bytes st <$> d)) (eq []) holds_nonneg _ _).
  - intros d st st' Hd _ _ K Hr. by apply (chunks_env base maxlen d st st').
  - intros d n st Hd Hok _ Hr. destruct Hd as [|c d (Hc & Hx & Hl & Hm) Hd].
    + exists None, [], st. split_and!; try done. intros j; simpl; lia.
    + exists (Some c), d, st. split_and!; try done. intros j; simpl; lia.
Defined.

#[export] Instance chunks_rewind base maxlen : RewindOk chunks base maxlen.
Proof. split. intros d n st Hd Hok _ _ Hr. exists d, st. split_and!; done. Qed.

(** A render queue as a new stream has it, with block 2 as the silence, that
    keeps eight bytes; a stream of 16-bit mono that plays two chunks of block 1. *)
Definition spec : pa_sample_spec := BQExample.spec16.
Definition silence : pa_memchunk := mk_chunk (Some 2) 0 4.
Definition made : pa_memblockq * store :=
  match pa_memblockq_new 0 64 0 spec 0 1 8 (Some silence) MCExample.st0 with
  | Ok s => s
  | _ => (BQExample.q0, MCExample.st0)
  end.
Definition q0 : pa_memblockq := fst made.
Definition st0 : store := snd made.
Definition parts : list pa_memchunk := [mk_chunk (Some 1) 0 4; mk_chunk (Some 1) 2 2].
Definition sink : sink_info := mk_sink_info spec [0] 8 8 false 0.
Definition i0 : pa_sink_input unit :=
  mk_sink_input sink spec [0] [PA_VOLUME_NORM] PA_SINK_INPUT_RUNNING [PA_VOLUME_NORM / 2] false false false 0 0 0 0 spec None q0.
Definition no_resampler : resampler_ops unit :=
  mk_resampler_ops unit (fun _ => 0) (fun _ n => n) (fun _ n => n) (fun _ c st => Ok (c, (tt, st))) (fun r _ => r).
Definition no_volume : pa_sample_spec -> pa_cvolume -> list cell -> list cell := fun _ _ l => l.

Lemma mono16_ok : spec_ok spec.
Proof. split; [by vm_compute|by vm_compute]. Qed.

Lemma si_queue0 : render_ok q0 st0.
Proof.
  destruct (new_spec 0 64 0 spec 0 1 8 (Some silence) MCExample.st0 MCExample.st0_ok) as (q & st' & E & Hq & _);
    [exact mono16_ok|unfold new_args_ok, len_max; lia|exists 2; by vm_compute|].
  assert (made = (q, st')) as Em by (unfold made; rewrite E; reflexivity).
  assert (q = q0) as Eq by (unfold q0; rewrite Em; reflexivity).
  assert (st' = st0) as Es by (unfold st0; rewrite Em; reflexivity).
  clear E Em. subst q st'. split; [exact Hq|by vm_compute..|]. split; [by vm_compute..|]. vm_compute. constructor.
Qed.

Lemma si_refs0 j : refs st0 j = if decide (j = 1) then 2 else if decide (j = 2) then 3 else 0.
Proof.
  destruct (pa_memblock_ref_spec MCExample.st0 2 MCExample.st0_ok) as (st' & E & _ & _ & R); [by vm_compute|].
  assert (st0 = st') as -> by (vm_compute in E; vm_compute; congruence).
  rewrite R, MCExample.refs0. unfold delta. repeat case_decide; simplify_eq; lia.
Qed.

Lemma si_empty0 : bq_blocks q0 = [].
Proof. by vm_compute. Qed.

Lemma si_own0 j : owned q0 j + holds parts j <= refs st0 j.
Proof.
  assert (bq_silence q0 = silence) as Es by (by vm_compute).
  rewrite si_refs0. unfold owned. rewrite si_empty0, Es. change (items_refs [] j) with 0. unfold holds, chunk_refs, delta; simpl.
  repeat case_decide; lia.
Qed.

Lemma si_parts0 : Forall (whole_frames 2 4 st0) parts.
Proof.
  repeat constructor; try (by vm_compute); exists 1; by vm_compute.
Qed.

Lemma si_ready0 : stream_ready chunks 4096 2 4 i0 parts st0.
Proof.
  split.
  - split; try done; exact mono16_ok.
  - by vm_compute.
  - split; by vm_compute.
  - split; [exact si_queue0|exact si_parts0|exact si_own0|by vm_compute|by vm_compute| |by vm_compute|by vm_compute].
    split; [|by vm_compute]. apply items_end.
    change (bq_blocks (i_render_memblockq i0)) with (bq_blocks q0). rewrite si_empty0. constructor.
  - by vm_compute.
  - by vm_compute.
Qed.

(** The bytes a peek hands out. *)
Definition heard (m : outcome (pa_memchunk * pa_cvolume * (pa_sink_input unit * list pa_memchunk * store))) : list cell :=
  match m with Ok (c, _, (_, _, st)) => chunk_bytes st c | _ => [] end.

(** Two bytes are to be asked for again. *)
Definition i1 : pa_sink_input unit := set_rewrite false false 2 i0.

Lemma si_rewind0 n : 0 <= n < 2 ^ 62 -> n mod 2 = 0 -> rewind_ready chunks 2 4 (set_rewrite false false n i0) parts st0.
Proof.
  intros Hn Hm. split; [reflexivity|reflexivity|exact mono16_ok|split; by vm_compute|exact si_queue0|exact si_parts0|exact si_own0|
    by vm_compute|left; split; [exact Hn|exact Hm]].
Qed.
End StreamExample.
Import StreamExample.

Lemma sink_input_plays_witness : exists c v data i' d' st',
  pa_sink_input_peek chunks no_resampler no_volume 4096 1 i0 8 parts st0 = Ok (c, v, (i', d', st')) /\
  chunk_bytes st' c = [Some 10; Some 11; Some 12; Some 13] /\ concat (chunk_bytes st0 <$> parts) = data ++ concat (chunk_bytes st' <$> d').
Proof.
  destruct (sink_input_plays chunks no_resampler no_volume 4096 2 4 i0 8 parts st0 1)
    as (c & v & data & i' & d' & st' & E & _ & _ & _ & Hc & _); [exact si_ready0|lia|done|by vm_compute|].
  exists c, v, data, i', d', st'. split; [exact E|]. split; [|exact Hc].
  change (chunk_bytes st' c) with (heard (Ok (c, v, (i', d', st')))). rewrite <- E. vm_compute. reflexivity.
Defined.

Lemma rewind_positions_witness : exists i' d' st',
  pa_sink_input_process_rewind chunks no_resampler i1 4 parts st0 = Ok (i', d', st') /\
  bq_read_index (i_render_memblockq i') = -4 /\ bq_write_index (i_render_memblockq i') = -2.
Proof.
  destruct (rewind_positions chunks no_resampler 2 4 i1 4 parts st0 (si_rewind0 2 ltac:(lia) eq_refl)) as (i' & d' & st' & E & Hr & Hw & _);
    [lia|done|]. exists i', d', st'. split; [exact E|]. split; [by rewrite Hr|by rewrite Hw].
Defined.

Lemma drop_rewind_replays_witness : exists i2 st1 i3 d3 st3,
  pa_sink_input_drop i0 4 st0 = Ok (i2, st1) /\
  pa_sink_input_process_rewind chunks no_resampler i2 4 parts st1 = Ok (i3, d3, st3) /\
  bq_read_index (i_render_memblockq i3) = 0.
Proof.
  destruct (drop_rewind_replays chunks no_resampler 2 4 i0 4 parts st0 (si_rewind0 0 ltac:(lia) eq_refl)) as (i2 & st1 & i3 & d3 & st3 & E1 & E2 & Hr & _);
    [lia|done|by vm_compute|done|done|]. exists i2, st1, i3, d3, st3. split; [exact E1|]. split; [exact E2|exact Hr].
Defined.

Lemma rewrite_spares_underruns_witness : exists i',
  pa_sink_input_request_rewind no_resampler (set_counters 0 6 0 i0) 16 true false false = Ok i' /\
  rewritten i' 100 <= 6 /\ sk_rewind_requested (i_sink i') = true.
Proof.
  destruct (rewrite_spares_underruns no_resampler (set_counters 0 6 0 i0) 16 false) as (i' & E & _ & Hr & Hq & _);
    [reflexivity|reflexivity|simpl; lia|by vm_compute|by vm_compute|by vm_compute|discriminate|].
  exists i'. split; [exact E|]. split; [exact (Hr 100)|exact Hq].
Defined.
