(* ===== verification/Sink.v ===== *)
(** * Sink: rendering the streams of a sink

    Models what [src/pulsecore/sink.c] does in the I/O thread of a sink: asking
    every stream for data, mixing it, moving all streams on by what was played,
    and rewinding them.  From [sample-util.c] it takes the cache of silent
    blocks, from [mix.c] the frame of [pa_mix].

    The streams are those of [SinkInput], with the interfaces named there.  The
    routine that adds samples, chosen by the sample format and the machine, is
    the parameter [do_mix]; the monitor source of source.c is the interface
    [source_ops] on its state [M].  Reference counts of the streams themselves
    are left out, and so is the deferred change of hardware volumes. *)
From stdpp Require Import base tactics numbers list gmap.
From S2P Require Import Prelude Sample Channelmap Volume Memblock Mcalign Memblockq SinkInput.

(** ** Silent blocks, from sample-util.c *)

Definition silence_memblock_new (page_size c : Z) (st : store) : outcome (Z * store) :=
  let length := Z.min (pa_mempool_block_size_max (st_pool st)) (page_size * 16) in
  '(b, st) ← pa_memblock_new length st;
  '(_, st) ← pa_memblock_acquire b st;
  st ← write_data b 0 (replicate (Z.to_nat length) (Some c)) st;
  st ← pa_memblock_release b st;
  st ← pa_memblock_set_is_silence b true st;
  Ok (b, st).

(** The formats whose silence is zero. *)
Definition zero_formats : list Z :=
  [PA_SAMPLE_S16LE; PA_SAMPLE_S16BE; PA_SAMPLE_S32LE; PA_SAMPLE_S32BE; PA_SAMPLE_S24LE; PA_SAMPLE_S24BE;
   PA_SAMPLE_S24_32LE; PA_SAMPLE_S24_32BE; PA_SAMPLE_FLOAT32LE; PA_SAMPLE_FLOAT32BE].

(** [pa_memblock_ref(b)] for each of the [l] and the cache entries. *)
Fixpoint cache_rest (b : Z) (l : list Z) (cache : gmap Z Z) (st : store) : outcome (gmap Z Z * store) :=
  match l with
  | [] => Ok (cache, st)
  | f :: l => st ← pa_memblock_ref b st; cache_rest b l (<[f := b]> cache) st
  end.

(** The [switch] for a format without a block yet. *)
Definition cache_fill (page_size f : Z) (cache : gmap Z Z) (st : store) : outcome (Z * gmap Z Z * store) :=
  if f =? PA_SAMPLE_U8 then
    '(b, st) ← silence_memblock_new page_size 128 st; Ok (b, <[PA_SAMPLE_U8 := b]> cache, st)
  else if bool_decide (f ∈ zero_formats) then
    '(b, st) ← silence_memblock_new page_size 0 st;
    '(cache, st) ← cache_rest b (tail zero_formats) (<[PA_SAMPLE_S16LE := b]> cache) st;
    Ok (b, cache, st)
  else if f =? PA_SAMPLE_ALAW then
    '(b, st) ← silence_memblock_new page_size 213 st; Ok (b, <[PA_SAMPLE_ALAW := b]> cache, st)
  else if f =? PA_SAMPLE_ULAW then
    '(b, st) ← silence_memblock_new page_size 255 st; Ok (b, <[PA_SAMPLE_ULAW := b]> cache, st)
  else Abort.

Definition pa_silence_memchunk_get (page_size : Z) (cache : gmap Z Z) (spec : pa_sample_spec) (length : Z) (st : store)
    : outcome (pa_memchunk * gmap Z Z * store) :=
  _ ← pa_assert (pa_sample_spec_valid spec);
  '(b, cache, st) ← (match cache !! ss_format spec with
                     | Some b => Ok (b, cache, st)
                     | None => cache_fill page_size (ss_format spec) cache st
                     end);
  st ← pa_memblock_ref b st;
  l ← pa_memblock_get_length b st;
  let length := if (l <? length) || (length =? 0) then l else length in
  length ← pa_frame_align length spec;
  Ok (mk_chunk (Some b) 0 length, cache, st).

(** ** Data *)

Inductive pa_sink_state_t :=
| PA_SINK_INVALID_STATE
| PA_SINK_RUNNING
| PA_SINK_IDLE
| PA_SINK_SUSPENDED
| PA_SINK_INIT
| PA_SINK_UNLINKED.

#[export] Instance pa_sink_state_eq_dec : EqDecision pa_sink_state_t.
Proof. solve_decision. Defined.

Definition PA_SINK_IS_OPENED (x : pa_sink_state_t) : bool :=
  match x with PA_SINK_RUNNING | PA_SINK_IDLE => true | _ => false end.

Definition PA_SINK_IS_LINKED (x : pa_sink_state_t) : bool :=
  bool_decide (x = PA_SINK_RUNNING) || bool_decide (x = PA_SINK_IDLE) || bool_decide (x = PA_SINK_SUSPENDED).

Definition MAX_MIX_CHANNELS : nat := 32.

(** A stream of the sink: its key in [thread_info.inputs], its own state, that
    of its implementor, and the outputs that listen to it alone. *)
Record input (D R : Type) := mk_input {
  in_key : Z;
  in_stream : pa_sink_input R;
  in_data : D;
  in_direct_outputs : list Z
}.
Arguments mk_input {D R} _ _ _ _.
Arguments in_key {D R} _.
Arguments in_stream {D R} _.
Arguments in_data {D R} _.
Arguments in_direct_outputs {D R} _.

(** [pa_mix_info]; [userdata] is the key of the stream. *)
Record pa_mix_info := mk_mix_info {
  mi_chunk : pa_memchunk;
  mi_volume : pa_cvolume;
  mi_userdata : option Z
}.

(** What the sink does with its monitor source. *)
Record source_ops (M : Type) := mk_source_ops {
  src_post : M -> pa_memchunk -> store -> outcome (M * store);
  src_post_direct : M -> Z -> pa_memchunk -> store -> outcome (M * store);
  src_process_rewind : M -> Z -> store -> outcome (M * store)
}.
Arguments src_post {M} _ _ _ _.
Arguments src_post_direct {M} _ _ _ _ _.
Arguments src_process_rewind {M} _ _ _ _.

(** The fields of [struct pa_sink] its thread uses, with the core's cache of
    silent blocks; [snk_info] are those the streams look at, [snk_monitor] is the
    monitor source while it is linked. *)
Record pa_sink (D R M : Type) := mk_sink {
  snk_info : sink_info;
  snk_state : pa_sink_state_t;
  snk_soft_volume : pa_cvolume;
  snk_soft_muted : bool;
  snk_silence : pa_memchunk;
  snk_inputs : list (input D R);
  snk_silence_cache : gmap Z Z;
  snk_monitor : option M
}.
Arguments mk_sink {D R M} _ _ _ _ _ _ _ _.
Arguments snk_info {D R M} _.
Arguments snk_state {D R M} _.
Arguments snk_soft_volume {D R M} _.
Arguments snk_soft_muted {D R M} _.
Arguments snk_silence {D R M} _.
Arguments snk_inputs {D R M} _.
Arguments snk_silence_cache {D R M} _.
Arguments snk_monitor {D R M} _.

(** ** Mixing *)

(** The streams' bytes and volumes, of which [length] bytes each are looked at;
    the streams stay acquired meanwhile. *)
Fixpoint acquire_streams (length : Z) (streams : list pa_mix_info) (st : store)
    : outcome (list (pa_cvolume * list cell) * store) :=
  match streams with
  | [] => Ok ([], st)
  | m :: streams =>
      _ ← pa_assert (length <=? mc_length (mi_chunk m));
      id ← deref (mc_memblock (mi_chunk m));
      '(d, st) ← pa_memblock_acquire id st;
      bs ← read_data d (mc_index (mi_chunk m)) length;
      '(l, st) ← acquire_streams length streams st;
      Ok ((mi_volume m, bs) :: l, st)
  end.

Fixpoint release_streams (streams : list pa_mix_info) (st : store) : outcome store :=
  match streams with
  | [] => Ok st
  | m :: streams => id ← deref (mc_memblock (mi_chunk m)); st ← pa_memblock_release id st; release_streams streams st
  end.

Section sink.
Context {D R M : Type}.
Context (impl : implementor D) (rs : resampler_ops R) (src : source_ops M).
Context (do_volume : pa_sample_spec -> pa_cvolume -> list cell -> list cell).
(** The mixing routine for the format: the streams, the sink's volume, and how
    many bytes. *)
Context (do_mix : pa_sample_spec -> pa_cvolume -> list (pa_cvolume * list cell) -> Z -> list cell).
(** [pa_page_size()] *)
Context (page_size : Z).

Abbreviation pa_sink := (pa_sink D R M).
Abbreviation input := (input D R).

(** [pa_mix] into the data of block [id] at [index], which the caller has
    acquired. *)
Definition pa_mix (streams : list pa_mix_info) (id index length : Z) (spec : pa_sample_spec) (volume : pa_cvolume)
    (mute : bool) (st : store) : outcome (Z * store) :=
  _ ← pa_assert (negb (length =? 0));
  _ ← pa_assert (1 <? Z.of_nat (List.length streams));
  if mute || pa_cvolume_is_muted volume then
    s ← pa_silence_memory length spec;
    st ← write_data id index (Some <$> s) st;
    Ok (length, st)
  else
    '(l, st) ← acquire_streams length streams st;
    st ← write_data id index (do_mix spec volume l length) st;
    st ← release_streams streams st;
    Ok (length, st).

Definition set_inputs (l : list input) (s : pa_sink) : pa_sink :=
  mk_sink (snk_info s) (snk_state s) (snk_soft_volume s) (snk_soft_muted s) (snk_silence s) l
    (snk_silence_cache s) (snk_monitor s).
Definition set_cache (c : gmap Z Z) (s : pa_sink) : pa_sink :=
  mk_sink (snk_info s) (snk_state s) (snk_soft_volume s) (snk_soft_muted s) (snk_silence s) (snk_inputs s)
    c (snk_monitor s).
Definition set_monitor (m : option M) (s : pa_sink) : pa_sink :=
  mk_sink (snk_info s) (snk_state s) (snk_soft_volume s) (snk_soft_muted s) (snk_silence s) (snk_inputs s)
    (snk_silence_cache s) m.
Definition set_info (x : sink_info) (s : pa_sink) : pa_sink :=
  mk_sink x (snk_state s) (snk_soft_volume s) (snk_soft_muted s) (snk_silence s) (snk_inputs s)
    (snk_silence_cache s) (snk_monitor s).

(** The stream with its [sink] pointer followed. *)
Definition on_sink (info : sink_info) (x : input) : pa_sink_input R := set_sink info (in_stream x).
Definition set_stream (i : pa_sink_input R) (d : D) (x : input) : input :=
  mk_input (in_key x) i d (in_direct_outputs x).

(** The loop of [fill_mix_info]; [fuel] bounds the rounds of each
    [pa_sink_input_peek]. *)
Fixpoint mix_loop (fuel : nat) (info : sink_info) (length : Z) (maxinfo : nat) (mixlength : Z) (l : list input) (st : store)
    : outcome (list pa_mix_info * Z * list input * store) :=
  match l, maxinfo with
  | x :: l, S maxinfo' =>
      '(chunk, volume, (i, d, st)) ← pa_sink_input_peek impl rs do_volume page_size fuel (on_sink info x) length (in_data x) st;
      let x := set_stream i d x in
      let mixlength := if (mixlength =? 0) || (mc_length chunk <? mixlength) then mc_length chunk else mixlength in
      id ← deref (mc_memblock chunk);
      sil ← pa_memblock_is_silence id st;
      if (sil : bool) then
        st ← pa_memblock_unref id st;
        '(infos, mixlength, l, st) ← mix_loop fuel info length maxinfo mixlength l st;
        Ok (infos, mixlength, x :: l, st)
      else
        _ ← pa_assert (0 <? mc_length chunk);
        '(infos, mixlength, l, st) ← mix_loop fuel info length maxinfo' mixlength l st;
        Ok (mk_mix_info chunk volume (Some (in_key x)) :: infos, mixlength, x :: l, st)
  | l, _ => Ok ([], mixlength, l, st)
  end.

(** The entries, the length that all streams have data for, and the sink. *)
Definition fill_mix_info (fuel : nat) (s : pa_sink) (length : Z) (maxinfo : nat) (st : store)
    : outcome (list pa_mix_info * Z * (pa_sink * store)) :=
  '(infos, mixlength, l, st) ← mix_loop fuel (snk_info s) length maxinfo length (snk_inputs s) st;
  Ok (infos, (if 0 <? mixlength then mixlength else length), (set_inputs l s, st)).

(** The search for a stream's entry, from position [p] on and around: the
    entry, and where the search stopped. *)
Fixpoint find_info (j : nat) (n p : nat) (key : Z) (infos : list pa_mix_info) : option nat * nat :=
  match j with
  | O => (None, p)
  | S j =>
      if bool_decide (mi_userdata <$> infos !! p = Some (Some key)) then (Some p, p)
      else find_info j n (if (n <=? S p)%nat then 0%nat else S p) key infos
  end.

(** [while ((o = pa_hashmap_iterate(i->thread_info.direct_outputs, ...)))] *)
Fixpoint post_direct (m : M) (outputs : list Z) (c : pa_memchunk) (st : store) : outcome (M * store) :=
  match outputs with
  | [] => Ok (m, st)
  | o :: outputs => '(m, st) ← src_post_direct src m o c st; post_direct m outputs c st
  end.

(** What the outputs that listen to a stream alone get. *)
Definition drop_direct (s : pa_sink) (x : input) (m : option pa_mix_info) (length : Z) (mon : M) (st : store)
    : outcome (M * store) :=
  '(c, st) ← (match m with
              | Some (mk_mix_info (mk_chunk (Some id) idx l) volume _) =>
                  st ← pa_memblock_ref id st;
                  _ ← pa_assert (length <=? l);
                  '(c, st) ← pa_memchunk_make_writable (mk_chunk (Some id) idx length) 0 st;
                  st ← pa_volume_memchunk do_volume c (sk_sample_spec (snk_info s)) volume st;
                  Ok (c, st)
              | _ =>
                  id ← deref (mc_memblock (snk_silence s));
                  st ← pa_memblock_ref id st;
                  _ ← pa_assert (length <=? mc_length (snk_silence s));
                  Ok (mk_chunk (Some id) (mc_index (snk_silence s)) length, st)
              end);
  '(mon, st) ← post_direct mon (in_direct_outputs x) c st;
  id ← deref (mc_memblock c);
  st ← pa_memblock_unref id st;
  Ok (mon, st).

(** [PA_HASHMAP_FOREACH]: every stream is moved on and its entry given back.
    [infos] is the array, in which the entries given back are cleared. *)
Fixpoint inputs_loop (s : pa_sink) (n : nat) (length : Z) (l : list input) (p : nat) (n_unreffed : nat)
    (infos : list pa_mix_info) (mon : option M) (st : store)
    : outcome (list input * list pa_mix_info * nat * option M * store) :=
  match l with
  | [] => Ok ([], infos, n_unreffed, mon, st)
  | x :: l =>
      let '(m, p) := find_info n n p (in_key x) infos in
      '(i, st) ← pa_sink_input_drop (on_sink (snk_info s) x) length st;
      let x := set_stream i (in_data x) x in
      '(mon, st) ← (match mon, in_direct_outputs x with
                    | Some mo, _ :: _ =>
                        '(mo, st) ← drop_direct s x (m ≫= fun k => infos !! k) length mo st; Ok (Some mo, st)
                    | _, _ => Ok (mon, st)
                    end);
      '(infos, n_unreffed, st) ← (match m with
           | None => Ok (infos, n_unreffed, st)
           | Some k =>
               e ← deref (infos !! k);
               '(c, st) ← (match mc_memblock (mi_chunk e) with
                           | Some id => st ← pa_memblock_unref id st; Ok (pa_memchunk_reset, st)
                           | None => Ok (mi_chunk e, st)
                           end);
               Ok (<[k := mk_mix_info c (mi_volume e) None]> infos, S n_unreffed, st)
           end);
      '(l, infos, n_unreffed, mon, st) ← inputs_loop s n length l p n_unreffed infos mon st;
      Ok (x :: l, infos, n_unreffed, mon, st)
  end.

(** References to entries whose stream does not exist any more. *)
Fixpoint drop_gone (infos : list pa_mix_info) (st : store) : outcome store :=
  match infos with
  | [] => Ok st
  | m :: infos => st ← unref_if_set (mi_chunk m) st; drop_gone infos st
  end.

Definition inputs_drop (s : pa_sink) (infos : list pa_mix_info) (result : pa_memchunk) (st : store)
    : outcome (pa_sink * store) :=
  _ ← pa_assert (isset result);
  _ ← pa_assert (0 <? mc_length result);
  let n := length infos in
  '(l, infos, n_unreffed, mon, st) ← inputs_loop s n (mc_length result) (snk_inputs s) 0 0 infos (snk_monitor s) st;
  st ← (if (n_unreffed <? n)%nat then drop_gone infos st else Ok st);
  '(mon, st) ← (match mon with
                | Some m => '(m, st) ← src_post src m result st; Ok (Some m, st)
                | None => Ok (mon, st)
                end);
  Ok (set_monitor mon (set_inputs l s), st).

(** ** Rendering *)

(** The largest length of a block of whole frames, when [length] is larger. *)
Definition limit_length (s : pa_sink) (length : Z) (st : store) : outcome Z :=
  let block_size_max := pa_mempool_block_size_max (st_pool st) in
  if block_size_max <? length then pa_frame_align block_size_max (sk_sample_spec (snk_info s)) else Ok length.

(** [result] when there is one stream to play: its chunk, cut to [length], with
    the volumes of the sink and the stream applied. *)
Definition render_one (s : pa_sink) (m : pa_mix_info) (length : Z) (st : store)
    : outcome (pa_memchunk * (pa_sink * store)) :=
  id ← deref (mc_memblock (mi_chunk m));
  st ← pa_memblock_ref id st;
  let result := mk_chunk (Some id) (mc_index (mi_chunk m))
                  (if length <? mc_length (mi_chunk m) then length else mc_length (mi_chunk m)) in
  volume ← deref (pa_sw_cvolume_multiply (snk_soft_volume s) (mi_volume m));
  if snk_soft_muted s || pa_cvolume_is_muted volume then
    st ← pa_memblock_unref id st;
    '(result, cache, st) ← pa_silence_memchunk_get page_size (snk_silence_cache s) (sk_sample_spec (snk_info s)) (mc_length result) st;
    Ok (result, (set_cache cache s, st))
  else if negb (pa_cvolume_is_norm volume) then
    '(result, st) ← pa_memchunk_make_writable result 0 st;
    st ← pa_volume_memchunk do_volume result (sk_sample_spec (snk_info s)) volume st;
    Ok (result, (s, st))
  else Ok (result, (s, st)).

(** [result] when there are several: a block of its own. *)
Definition render_mixed (s : pa_sink) (infos : list pa_mix_info) (length : Z) (st : store)
    : outcome (pa_memchunk * (pa_sink * store)) :=
  '(id, st) ← pa_memblock_new length st;
  '(_, st) ← pa_memblock_acquire id st;
  '(l, st) ← pa_mix infos id 0 length (sk_sample_spec (snk_info s)) (snk_soft_volume s) (snk_soft_muted s) st;
  st ← pa_memblock_release id st;
  Ok (mk_chunk (Some id) 0 l, (s, st)).

(** [if (n == 0) ... else if (n == 1) ... else ...] *)
Definition render_result (s : pa_sink) (infos : list pa_mix_info) (length : Z) (st : store)
    : outcome (pa_memchunk * (pa_sink * store)) :=
  match infos with
  | [] =>
      id ← deref (mc_memblock (snk_silence s));
      st ← pa_memblock_ref id st;
      Ok (mk_chunk (Some id) (mc_index (snk_silence s))
            (if length <? mc_length (snk_silence s) then length else mc_length (snk_silence s)), (s, st))
  | [m] => render_one s m length st
  | _ => render_mixed s infos length st
  end.

Definition pa_sink_render (fuel : nat) (s : pa_sink) (length : Z) (st : store) : outcome (pa_memchunk * (pa_sink * store)) :=
  _ ← pa_assert (PA_SINK_IS_LINKED (snk_state s));
  al ← pa_frame_aligned length (sk_sample_spec (snk_info s));
  _ ← pa_assert al;
  _ ← pa_assert (negb (sk_rewind_requested (snk_info s)));
  _ ← pa_assert (sk_rewind_nbytes (snk_info s) =? 0);
  if bool_decide (snk_state s = PA_SINK_SUSPENDED) then
    id ← deref (mc_memblock (snk_silence s));
    st ← pa_memblock_ref id st;
    Ok (mk_chunk (Some id) (mc_index (snk_silence s)) (Z.min (mc_length (snk_silence s)) length), (s, st))
  else
    length ← (if length <=? 0 then pa_frame_align page_size (sk_sample_spec (snk_info s)) else Ok length);
    length ← limit_length s length st;
    _ ← pa_assert (0 <? length);
    '(infos, length, (s, st)) ← fill_mix_info fuel s length MAX_MIX_CHANNELS st;
    '(result, (s, st)) ← render_result s infos length st;
    '(s, st) ← inputs_drop s infos result st;
    Ok (result, (s, st)).

(** The chunk of [target] that was filled, when there is one stream. *)
Definition render_one_into (s : pa_sink) (m : pa_mix_info) (length : Z) (target : pa_memchunk) (st : store)
    : outcome (pa_memchunk * store) :=
  let target := mk_chunk (mc_memblock target) (mc_index target)
                  (if length <? mc_length target then length else mc_length target) in
  volume ← deref (pa_sw_cvolume_multiply (snk_soft_volume s) (mi_volume m));
  if snk_soft_muted s || pa_cvolume_is_muted volume then
    st ← pa_silence_memchunk target (sk_sample_spec (snk_info s)) st;
    Ok (target, st)
  else
    id ← deref (mc_memblock (mi_chunk m));
    st ← pa_memblock_ref id st;
    let vchunk := mk_chunk (Some id) (mc_index (mi_chunk m))
                    (if length <? mc_length (mi_chunk m) then length else mc_length (mi_chunk m)) in
    '(vchunk, st) ← (if negb (pa_cvolume_is_norm volume) then
                       '(vchunk, st) ← pa_memchunk_make_writable vchunk 0 st;
                       st ← pa_volume_memchunk do_volume vchunk (sk_sample_spec (snk_info s)) volume st;
                       Ok (vchunk, st)
                     else Ok (vchunk, st));
    st ← pa_memchunk_memcpy target vchunk st;
    vid ← deref (mc_memblock vchunk);
    st ← pa_memblock_unref vid st;
    Ok (target, st).

Definition pa_sink_render_into (fuel : nat) (s : pa_sink) (target : pa_memchunk) (st : store)
    : outcome (pa_memchunk * (pa_sink * store)) :=
  _ ← pa_assert (PA_SINK_IS_LINKED (snk_state s));
  tid ← deref (mc_memblock target);
  _ ← pa_assert (0 <? mc_length target);
  al ← pa_frame_aligned (mc_length target) (sk_sample_spec (snk_info s));
  _ ← pa_assert al;
  _ ← pa_assert (negb (sk_rewind_requested (snk_info s)));
  _ ← pa_assert (sk_rewind_nbytes (snk_info s) =? 0);
  if bool_decide (snk_state s = PA_SINK_SUSPENDED) then
    st ← pa_silence_memchunk target (sk_sample_spec (snk_info s)) st;
    Ok (target, (s, st))
  else
    length ← limit_length s (mc_length target) st;
    _ ← pa_assert (0 <? length);
    '(infos, length, (s, st)) ← fill_mix_info fuel s length MAX_MIX_CHANNELS st;
    '(target, st) ← (match infos with
       | [] =>
           let target := mk_chunk (Some tid) (mc_index target)
                           (if length <? mc_length target then length else mc_length target) in
           st ← pa_silence_memchunk target (sk_sample_spec (snk_info s)) st;
           Ok (target, st)
       | [m] => render_one_into s m length target st
       | _ =>
           '(_, st) ← pa_memblock_acquire tid st;
           '(l, st) ← pa_mix infos tid (mc_index target) length (sk_sample_spec (snk_info s)) (snk_soft_volume s)
                        (snk_soft_muted s) st;
           st ← pa_memblock_release tid st;
           Ok (mk_chunk (Some tid) (mc_index target) l, st)
       end);
    '(s, st) ← inputs_drop s infos target st;
    Ok (target, (s, st)).

(** [while (l > 0)] *)
Fixpoint into_full_loop (rounds fuel : nat) (s : pa_sink) (target : pa_memchunk) (l d : Z) (st : store) : outcome (pa_sink * store) :=
  if l <=? 0 then Ok (s, st)
  else match rounds with
  | O => UB
  | S rounds =>
      '(chunk, (s, st)) ← pa_sink_render_into fuel s
                            (mk_chunk (mc_memblock target) (u64 (mc_index target + d)) (u64 (mc_length target - d))) st;
      into_full_loop rounds fuel s target (u64 (l - mc_length chunk)) (u64 (d + mc_length chunk)) st
  end.

Definition pa_sink_render_into_full (rounds fuel : nat) (s : pa_sink) (target : pa_memchunk) (st : store)
    : outcome (pa_sink * store) :=
  _ ← pa_assert (PA_SINK_IS_LINKED (snk_state s));
  _ ← pa_assert (isset target);
  _ ← pa_assert (0 <? mc_length target);
  al ← pa_frame_aligned (mc_length target) (sk_sample_spec (snk_info s));
  _ ← pa_assert al;
  _ ← pa_assert (negb (sk_rewind_requested (snk_info s)));
  _ ← pa_assert (sk_rewind_nbytes (snk_info s) =? 0);
  if bool_decide (snk_state s = PA_SINK_SUSPENDED) then
    st ← pa_silence_memchunk target (sk_sample_spec (snk_info s)) st;
    Ok (s, st)
  else into_full_loop rounds fuel s target (mc_length target) 0 st.

Definition pa_sink_render_full (rounds fuel : nat) (s : pa_sink) (length : Z) (st : store)
    : outcome (pa_memchunk * (pa_sink * store)) :=
  _ ← pa_assert (PA_SINK_IS_LINKED (snk_state s));
  _ ← pa_assert (0 <? length);
  al ← pa_frame_aligned length (sk_sample_spec (snk_info s));
  _ ← pa_assert al;
  _ ← pa_assert (negb (sk_rewind_requested (snk_info s)));
  _ ← pa_assert (sk_rewind_nbytes (snk_info s) =? 0);
  '(result, (s, st)) ← pa_sink_render fuel s length st;
  if mc_length result <? length then
    '(result, st) ← pa_memchunk_make_writable result length st;
    '(s, st) ← pa_sink_render_into_full rounds fuel s
                 (mk_chunk (mc_memblock result) (u64 (mc_index result + mc_length result))
                    (u64 (length - mc_length result))) st;
    Ok (mk_chunk (mc_memblock result) (mc_index result) length, (s, st))
  else Ok (result, (s, st)).

(** ** Rewinding *)

Fixpoint rewind_inputs (info : sink_info) (nbytes : Z) (l : list input) (st : store) : outcome (list input * store) :=
  match l with
  | [] => Ok ([], st)
  | x :: l =>
      '(i, d, st) ← pa_sink_input_process_rewind impl rs (on_sink info x) nbytes (in_data x) st;
      '(l, st) ← rewind_inputs info nbytes l st;
      Ok (set_stream i d x :: l, st)
  end.

Definition pa_sink_process_rewind (s : pa_sink) (nbytes : Z) (st : store) : outcome (pa_sink * store) :=
  _ ← pa_assert (PA_SINK_IS_LINKED (snk_state s));
  if negb (sk_rewind_requested (snk_info s)) && (nbytes <=? 0) then Ok (s, st)
  else
    let info := mk_sink_info (sk_sample_spec (snk_info s)) (sk_channel_map (snk_info s)) (sk_max_rewind (snk_info s))
                  (sk_max_request (snk_info s)) false 0 in
    '(l, st) ← rewind_inputs info nbytes (snk_inputs s) st;
    '(mon, st) ← (match snk_monitor s with
                  | Some m => if 0 <? nbytes then '(m, st) ← src_process_rewind src m nbytes st; Ok (Some m, st)
                              else Ok (Some m, st)
                  | None => Ok (None, st)
                  end);
    Ok (set_monitor mon (set_inputs l (set_info info s)), st).
End sink.
