(* ===== verification/SinkMix.v ===== *)
(** * SinkMix: asking the streams of a sink, and moving them on

    What [fill_mix_info] collects from the streams of a sink and what
    [inputs_drop] does to them, for streams that need no conversion. *)
From stdpp Require Import base tactics numbers list gmap.
From S2P Require Import Prelude Sample Channelmap Volume Memblock Mcalign Memblockq MemblockqSpec MemblockqRead MemblockqAttr.
From S2P Require Import MemblockqInv MemblockqAlign MemblockqFrames SinkInput SinkInputProps Sink.

#[local] Arguments pa_sink_input_peek : simpl never.
#[local] Arguments pa_sink_input_drop : simpl never.

(** The queue of a stream. *)
Definition render {D R} (x : input D R) : pa_memblockq := i_render_memblockq (in_stream x).

Section mixing.
Context {D R : Type} (impl : implementor D) (rs : resampler_ops R).
Context (do_volume : pa_sample_spec -> pa_cvolume -> list cell -> list cell).
Context (page_size base maxlen : Z) `{!ImplementorOk impl base maxlen}.

(** The references a stream holds: those of its queue's nodes and of its
    implementor, and with the one on the silence. *)
Definition kept (x : input D R) (j : Z) : Z := items_refs (bq_blocks (render x)) j + io_hold (in_data x) j.
Definition x_owned (x : input D R) (j : Z) : Z := owned (render x) j + io_hold (in_data x) j.
Definition all_kept (l : list (input D R)) (j : Z) : Z := sumZ ((fun x => kept x j) <$> l).
Definition all_owned (l : list (input D R)) (j : Z) : Z := sumZ ((fun x => x_owned x j) <$> l).
Definition infos_refs (l : list pa_mix_info) (j : Z) : Z := sumZ ((fun m => chunk_refs (mi_chunk m) j) <$> l).

Lemma all_kept_cons x l j : all_kept (x :: l) j = kept x j + all_kept l j.
Proof. done. Qed.
Lemma all_owned_cons x l j : all_owned (x :: l) j = x_owned x j + all_owned l j.
Proof. done. Qed.
Lemma infos_refs_cons m l j : infos_refs (m :: l) j = chunk_refs (mi_chunk m) j + infos_refs l j.
Proof. done. Qed.

Lemma owned_kept x j : x_owned x j = kept x j + chunk_refs (bq_silence (render x)) j.
Proof. unfold x_owned, kept, owned. lia. Qed.

Lemma kept_nonneg x j : 0 <= kept x j.
Proof. unfold kept. pose proof (items_refs_nonneg (bq_blocks (render x)) j). pose proof (io_nonneg (in_data x) j). lia. Qed.

Lemma x_owned_nonneg x j : 0 <= x_owned x j.
Proof. rewrite owned_kept. pose proof (kept_nonneg x j). pose proof (chunk_refs_nonneg (bq_silence (render x)) j). lia. Qed.

Lemma all_kept_owned l j : 0 <= all_kept l j <= all_owned l j.
Proof.
  induction l as [|x l IH]; [done|]. rewrite all_kept_cons, all_owned_cons, owned_kept. pose proof (kept_nonneg x j). pose proof (chunk_refs_nonneg (bq_silence (render x)) j). lia.
Qed.

(** What all own together covers each. *)
Lemma all_owned_in l x j : x ∈ l -> x_owned x j <= all_owned l j.
Proof.
  induction l as [|y l IH]; [by intros ?%elem_of_nil|]. rewrite all_owned_cons. intros [->|Hx]%elem_of_cons.
  - pose proof (all_kept_owned l j). lia.
  - specialize (IH Hx). pose proof (x_owned_nonneg y j). lia.
Qed.

Lemma all_owned_each (f : Z -> Z) l : (forall j, all_owned l j <= f j) -> Forall (fun x => forall j, x_owned x j <= f j) l.
Proof. intros H. apply Forall_forall. intros x Hx j. specialize (H j). pose proof (all_owned_in l x j Hx). lia. Qed.

Lemma infos_refs_nonneg l j : 0 <= infos_refs l j.
Proof.
  induction l as [|m l IH]; [done|]. rewrite infos_refs_cons. pose proof (chunk_refs_nonneg (mi_chunk m) j). lia.
Qed.

(** A stream that can be asked: its silence is marked as such. *)
Record input_ready (info : sink_info) (fuel : nat) (x : input D R) (st : store) : Prop := {
  ir_stream : stream_ready impl page_size base maxlen (on_sink info x) (in_data x) st;
  ir_fuel : bq_read_index (render x) - bq_write_index (render x) < Z.of_nat fuel;
  ir_silence : exists id, mc_memblock (bq_silence (render x)) = Some id /\ silent st id = true
}.

Lemma silence_ref q id : mc_memblock (bq_silence q) = Some id -> 1 <= owned q id.
Proof.
  intros E. unfold owned. rewrite (chunk_refs_some _ _ E). pose proof (items_refs_nonneg (bq_blocks q) id). lia.
Qed.

(** Others who respect its references leave a stream ready. *)
Lemma input_ready_env info fuel x st st' : input_ready info fuel x st -> store_ok st -> store_ok st' -> keeps st st' ->
  (forall j, x_owned x j <= refs st' j) ->
  input_ready info fuel x st' /\ (forall p, stream (render x) st' p = stream (render x) st p) /\
  io_content (in_data x) st' = io_content (in_data x) st.
Proof.
  intros [Hs Hf (id & Eid & Hsil)] Hok Hok' K Hr. destruct Hs as [S1 S2 S3 S4 S5 S6].
  pose proof S4 as [F1 F2 F3 F4 F5 [F6 F6'] F7 F8]. simpl in *. fold (render x) in *.
  destruct (render_env (render x) st st' F1 Hok' K) as [Hq Hstr].
  { intros j. specialize (Hr j). unfold x_owned in Hr. pose proof (io_nonneg (in_data x) j). lia. }
  destruct (io_env (in_data x) st st' F2 Hok Hok' K) as [Hi Hc].
  { intros j. specialize (Hr j). unfold x_owned, owned in Hr. pose proof (items_refs_nonneg (bq_blocks (render x)) j).
    pose proof (chunk_refs_nonneg (bq_silence (render x)) j). lia. }
  assert (forall st2, store_ok st2 -> (forall j, x_owned x j <= refs st2 j) -> 0 < refs st2 id) as Hal.
  { intros st2 _ H. specialize (H id). unfold x_owned in H. pose proof (silence_ref _ _ Eid). pose proof (io_nonneg (in_data x) id). lia. }
  split; [|done]. split; [|done|].
  - split; simpl; fold (render x); try done.
    + destruct S3 as [S3 ?]. split; [|done]. unfold pa_mempool_block_size_max in *. by rewrite (keeps_size _ _ K).
    + split; fold (render x); try done. split; [|done]. intros i Hi'. rewrite Hstr. by apply F6.
  - exists id. split; [done|]. rewrite (keeps_silent _ _ K); [done|by apply Hal|by apply Hal].
Qed.

(** What a stream answered: its chunk and volume, the data its implementor
    handed over meanwhile, and the store then. *)
Record answer := mk_answer { a_chunk : pa_memchunk; a_volume : pa_cvolume; a_data : list cell; a_store : store }.

(** Is the chunk to be mixed? *)
Definition a_audible (a : answer) : bool :=
  from_option (fun id => negb (silent (a_store a) id)) false (mc_memblock (a_chunk a)).

(** The stream [x] after its answer, as [x'] in a store [st'] reached since. *)
Record answered (info : sink_info) (st : store) (x : input D R) (a : answer) (x' : input D R) (st' : store) : Prop := {
  an_key : in_key x' = in_key x /\ in_direct_outputs x' = in_direct_outputs x;
  an_sink : i_sink (in_stream x') = info;
  an_playing : playing (in_stream x');
  an_base : bq_base (render x') = base /\ base = frame_size (sk_sample_spec info);
  an_queue : render_ok (render x') st';
  an_impl : io_inv (in_data x') st';
  an_silence : bq_silence (render x') = bq_silence (render x);
  an_read : bq_read_index (render x') = bq_read_index (render x);
  an_content : io_content (in_data x) st = a_data a ++ io_content (in_data x') st';
  an_length : 0 < mc_length (a_chunk a) <= block_max base st;
  an_frames : mc_length (a_chunk a) mod base = 0;
  an_volume : if i_muted (in_stream x) then pa_cvolume_mute (ss_channels (sk_sample_spec info)) = Ok (a_volume a)
    else a_volume a = i_soft_volume (in_stream x);
  an_asked : (exists id, mc_memblock (a_chunk a) = Some id) /\ store_ok (a_store a) /\ keeps st (a_store a) /\ keeps (a_store a) st';
  an_bytes k : 0 <= k < mc_length (a_chunk a) ->
    bq_read_index (render x) + k < bq_write_index (render x) + Z.of_nat (length (a_data a)) \/ a_data a = [] ->
    match due (in_stream x) st (a_data a) k with
    | Some b => chunk_bytes (a_store a) (a_chunk a) !! Z.to_nat k = Some b
    | None => mc_memblock (a_chunk a) = mc_memblock (bq_silence (render x))
    end;
  an_chunk : a_audible a = true ->
    chunk_in st' (a_chunk a) /\ chunk_bytes st' (a_chunk a) = chunk_bytes (a_store a) (a_chunk a)
}.

(** An answer stays good while its references are respected. *)
Lemma answered_env info st x a x' st1 st' : answered info st x a x' st1 -> store_ok st1 -> store_ok st' -> keeps st1 st' ->
  (forall j, x_owned x' j + (if a_audible a then chunk_refs (a_chunk a) j else 0) <= refs st' j) ->
  answered info st x a x' st'.
Proof.
  intros [A1 A2 A3 A4 A5 A6 A7 A8 A9 A10 A11 A12 A13 A14 A15] Hok1 Hok' K Hr.
  assert (forall j, x_owned x' j <= refs st' j) as Hx.
  { intros j. specialize (Hr j). pose proof (chunk_refs_nonneg (a_chunk a) j). destruct (a_audible a); lia. }
  destruct (render_env (render x') st1 st' A5 Hok' K) as [Hq Hs].
  { intros j. specialize (Hx j). unfold x_owned in Hx. pose proof (io_nonneg (in_data x') j). lia. }
  destruct (io_env (in_data x') st1 st' A6 Hok1 Hok' K) as [Hi Hc].
  { intros j. specialize (Hx j). unfold x_owned, owned in Hx. pose proof (items_refs_nonneg (bq_blocks (render x')) j).
    pose proof (chunk_refs_nonneg (bq_silence (render x')) j). lia. }
  split; try done.
  - by rewrite Hc.
  - destruct A13 as (? & Hoka & ? & Ka). split_and!; try done. apply (keeps_trans (a_store a) st1); [apply Hoka|apply Hok1|done..].
  - intros Ha. destruct (A15 Ha) as [Hin Hb]. rewrite Ha in Hr.
    destruct (chunk_in_keeps st1 st' (a_chunk a) K Hin) as [Hin' Eb].
    { intros id E. specialize (Hr id). rewrite (chunk_refs_some _ _ E) in Hr. unfold x_owned, owned in Hr.
      pose proof (items_refs_nonneg (bq_blocks (render x')) id). pose proof (chunk_refs_nonneg (bq_silence (render x')) id).
      pose proof (io_nonneg (in_data x') id). lia. }
    split; [done|]. by rewrite Eb.
Qed.

(** One stream is asked. *)
Lemma ask_one info length fuel x st : input_ready info fuel x st -> 0 <= length -> length mod base = 0 ->
  exists c v i' d' st1 data id,
    pa_sink_input_peek impl rs do_volume page_size fuel (on_sink info x) length (in_data x) st = Ok (c, v, (i', d', st1)) /\
    store_ok st1 /\ keeps st st1 /\ mc_memblock c = Some id /\ 0 < refs st1 id /\
    let x' := set_stream i' d' x in
    answered info st x (mk_answer c v data st1) x' st1 /\
    (forall j, refs st1 j - kept x' j = refs st j - kept x j + chunk_refs c j).
Proof.
  intros [Hs Hf (sid & Eid & Hsil)] Hl Hm.
  destruct (peek_stream impl rs do_volume page_size base maxlen (on_sink info x) length (in_data x) st fuel Hs Hl Hm Hf)
    as (c & v & data & i' & d' & st1 & E & P).
  pose proof (fun k => due_stream _ _ _ _ _ _ _ _ _ _ _ _ _ _ k P) as Hdue.
  destruct Hs as [S1 S2 S3 [F1 F2 F3 F4 _ _ _ _] _ _].
  destruct P as [P1 P2 P3 Psk Pb P4 P5 P6 P7 P8 Psi P9 Pfr P10 P11 P12 P13 P14]. simpl in *. fold (render x) in *.
  pose proof (qi_store _ _ (ro_inv _ _ P1)) as Hok1.
  assert (forall j, refs st1 j - kept (set_stream i' d' x) j = refs st j - kept x j + chunk_refs c j) as Hrefs.
  { intros j. specialize (P5 j). unfold kept, render, ext in *. simpl. lia. }
  assert (0 < refs st sid) as Hal.
  { specialize (F3 sid). pose proof (silence_ref _ _ Eid). pose proof (io_nonneg (in_data x) sid). lia. }
  assert (0 < refs st1 sid) as Hal1.
  { specialize (Hrefs sid). specialize (F3 sid). unfold owned in F3. rewrite (chunk_refs_some _ _ Eid) in F3.
    pose proof (kept_nonneg (set_stream i' d' x) sid). pose proof (chunk_refs_nonneg c sid). unfold kept in *. lia. }
  assert (exists id, mc_memblock c = Some id /\ 0 < refs st1 id) as (id & Em & Hrid).
  { destruct P11 as [[(id & ? & ? & _) _]|(Em & _)]; [by exists id|]. rewrite Psi in Em. exists sid. by rewrite Em. }
  exists c, v, i', d', st1, data, id. split_and!; try done.
  split; simpl; try done; unfold render; simpl.
  - split; [congruence|done].
  - split_and!; try done. by exists id.
  - intros k Hk Hw. pose proof (peeked_byte _ _ _ _ k P11 Hk) as Hb. rewrite P8, Psi in Hb.
    by rewrite Hdue in Hb by (lia || done).
  - intros Ha. split; [|done]. unfold a_audible in Ha. simpl in Ha. rewrite Em in Ha. simpl in Ha. destruct P11 as [[Hin _]|(Ec & _)]; [done|].
    rewrite Psi, Eid, Em in Ec. simplify_eq. rewrite (keeps_silent _ _ P4) in Ha by done. by rewrite Hsil in Ha.
Qed.

(** An answer given later, seen from an earlier store. *)
Lemma answered_since info fuel st st2 x a x' st' : input_ready info fuel x st -> store_ok st -> store_ok st2 -> keeps st st2 ->
  (forall j, x_owned x j <= refs st2 j) -> answered info st2 x a x' st' -> answered info st x a x' st'.
Proof.
  intros Hx Hok Hok2 K Hr [A1 A2 A3 A4 A5 A6 A7 A8 A9 A10 A11 A12 A13 A14 A15].
  destruct (input_ready_env info fuel x st st2 Hx Hok Hok2 K Hr) as (_ & Hs & Hc).
  split; try done.
  - by rewrite <- Hc.
  - unfold block_max, pa_mempool_block_size_max in *. by rewrite <- (keeps_size _ _ K).
  - destruct A13 as (? & Hoka & Ka & ?). split_and!; try done. apply (keeps_trans st st2); [apply Hok|apply Hok2|done..].
  - intros k Hk Hw. specialize (A14 k Hk Hw). unfold due in *. fold (render x) in *. by rewrite Hs in A14.
Qed.

(** The entries for the streams to be mixed. *)
Fixpoint entries (l : list (input D R)) (answers : list answer) : list pa_mix_info :=
  match l, answers with
  | x :: l, a :: answers =>
      if a_audible a then mk_mix_info (a_chunk a) (a_volume a) (Some (in_key x)) :: entries l answers
      else entries l answers
  | _, _ => []
  end.

(** The result of asking all streams. *)
Record all_answered (info : sink_info) (st : store) (l : list (input D R)) (mixlength : Z) (answers : list answer)
    (infos : list pa_mix_info) (ml : Z) (l' : list (input D R)) (st' : store) : Prop := {
  aa_store : store_ok st';
  aa_keeps : keeps st st';
  aa_each : Forall3 (fun x a x' => answered info st x a x' st') l answers l';
  aa_infos : infos = entries l' answers;
  aa_length : 0 < ml <= mixlength /\ ml mod base = 0 /\ Forall (fun a => ml <= mc_length (a_chunk a)) answers;
  aa_refs j : refs st' j - all_kept l' j = refs st j - all_kept l j + infos_refs infos j;
  aa_owned j : all_owned l' j + infos_refs infos j <= refs st' j
}.

Lemma is_silence_ok id st : store_ok st -> 0 < refs st id -> pa_memblock_is_silence id st = Ok (silent st id).
Proof.
  intros [Hwf _] [b Hb]%refs_alive; [|done]. unfold pa_memblock_is_silence, silent.
  by rewrite (get_block_ok _ Hwf _ _ Hb), Hb.
Qed.

(** The streams' references on their silence stay the same. *)
Lemma silence_same info st l answers l' st' j : Forall3 (fun x a x' => answered info st x a x' st') l answers l' ->
  all_owned l' j - all_kept l' j = all_owned l j - all_kept l j.
Proof.
  induction 1 as [|x a x' l answers l' A _ IH]; [done|].
  rewrite !all_owned_cons, !all_kept_cons, !owned_kept, (an_silence _ _ _ _ _ _ A). lia.
Qed.

Lemma all_since info fuel st st2 l answers l' st' : Forall3 (fun x a x' => answered info st2 x a x' st') l answers l' ->
  Forall (fun x => input_ready info fuel x st) l -> store_ok st -> store_ok st2 -> keeps st st2 ->
  (forall j, all_owned l j <= refs st2 j) -> Forall3 (fun x a x' => answered info st x a x' st') l answers l'.
Proof.
  induction 1 as [|x a x' l answers l' A _ IH]; intros Hr Hok Hok2 K Ho; constructor.
  - apply Forall_cons in Hr as [Hx _]. apply (answered_since info fuel st st2); try done.
    intros j. specialize (Ho j). rewrite all_owned_cons in Ho. pose proof (all_kept_owned l j). lia.
  - apply Forall_cons in Hr as [_ Hr]. apply IH; try done. intros j. specialize (Ho j). rewrite all_owned_cons in Ho.
    pose proof (x_owned_nonneg x j). lia.
Qed.

Lemma answered_nil info st mixlength : store_ok st -> 0 < mixlength -> mixlength mod base = 0 ->
  all_answered info st [] mixlength [] [] mixlength [] st.
Proof.
  intros Hok Hml Hmm. split; try done.
  - constructor.
  - intros j. unfold infos_refs, sumZ. simpl. lia.
  - intros j. pose proof (refs_nonneg st j (proj1 Hok)). unfold all_owned, infos_refs, sumZ. simpl. lia.
Qed.

(** The first stream answered, then the others. *)
Lemma answered_cons info fuel st x l mixlength a x' st2 answers infos ml l' st' aud :
  a_audible a = aud -> store_ok st -> Forall (fun x => input_ready info fuel x st) l -> (forall j, all_owned l j <= refs st j) ->
  answered info st x a x' st2 -> store_ok st2 -> keeps st st2 ->
  (forall j, x_owned x' j + all_owned l j + (if aud then chunk_refs (a_chunk a) j else 0) <= refs st2 j) ->
  (forall j, refs st2 j - kept x' j = refs st j - kept x j + (if aud then chunk_refs (a_chunk a) j else 0)) ->
  all_answered info st2 l (Z.min mixlength (mc_length (a_chunk a))) answers infos ml l' st' ->
  all_answered info st (x :: l) mixlength (a :: answers)
    (if aud then mk_mix_info (a_chunk a) (a_volume a) (Some (in_key x')) :: infos else infos) ml (x' :: l') st'.
Proof.
  intros <- Hok Hready Hown A Hok2 K2 Hown2 Hrefs [B1 B2 B3 B4 [B5 [B6 B7]] B8 B9].
  assert (forall j, infos_refs (if a_audible a then mk_mix_info (a_chunk a) (a_volume a) (Some (in_key x')) :: infos else infos) j
    = (if a_audible a then chunk_refs (a_chunk a) j else 0) + infos_refs infos j) as Hi by (intros j; by destruct (a_audible a)).
  assert (forall j, x_owned x' j + all_owned l' j + (if a_audible a then chunk_refs (a_chunk a) j else 0) + infos_refs infos j <= refs st' j) as Ho.
  { intros j. specialize (B8 j). specialize (Hown2 j). pose proof (silence_same _ _ _ _ _ _ j B3). lia. }
  split.
  - done.
  - apply (keeps_trans st st2); [apply Hok|apply Hok2|done..].
  - constructor.
    + apply (answered_env info st x a x' st2); try done.
      intros j. specialize (Ho j). pose proof (all_kept_owned l' j). pose proof (infos_refs_nonneg infos j). lia.
    + apply (all_since info fuel st st2); try done. intros j. specialize (Hown2 j).
      pose proof (x_owned_nonneg x' j). pose proof (chunk_refs_nonneg (a_chunk a) j). destruct (a_audible a); lia.
  - rewrite B4. simpl. by destruct (a_audible a).
  - split_and!; [lia|lia|done|]. constructor; [lia|done].
  - intros j. rewrite Hi, !all_kept_cons. specialize (B8 j). specialize (Hrefs j). lia.
  - intros j. rewrite Hi, all_owned_cons. specialize (Ho j). lia.
Qed.

Lemma ready_all_env info fuel l st st' : Forall (fun x => input_ready info fuel x st) l -> store_ok st -> store_ok st' ->
  keeps st st' -> (forall j, all_owned l j <= refs st' j) -> Forall (fun x => input_ready info fuel x st') l.
Proof.
  intros H Hok Hok' K Ho%all_owned_each. eapply Forall_impl; [exact (proj2 (Forall_and _ _) (conj H Ho))|].
  intros x [Hx Hr]. by apply (input_ready_env info fuel x st st').
Qed.

Lemma mix_loop_spec info length fuel : 0 <= length -> length mod base = 0 -> forall l maxinfo mixlength st,
  store_ok st -> (List.length l <= maxinfo)%nat -> 0 < mixlength -> mixlength mod base = 0 ->
  Forall (fun x => input_ready info fuel x st) l -> (forall j, all_owned l j <= refs st j) ->
  exists answers infos ml l' st',
    mix_loop impl rs do_volume page_size fuel info length maxinfo mixlength l st = Ok (infos, ml, l', st') /\
    all_answered info st l mixlength answers infos ml l' st'.
Proof.
  intros Hl Hm. induction l as [|x l IH]; intros maxinfo mixlength st Hok Hmax Hml Hmm Hready Hown.
  { exists [], [], mixlength, [], st. split; [by destruct maxinfo|by apply answered_nil]. }
  destruct maxinfo as [|maxinfo]; [simpl in Hmax; lia|]. simpl in Hmax.
  apply Forall_cons in Hready as [Hx Hready].
  assert (forall j, all_owned l j <= refs st j) as Ho.
  { intros j. specialize (Hown j). rewrite all_owned_cons in Hown. pose proof (x_owned_nonneg x j). lia. }
  destruct (ask_one info length fuel x st Hx Hl Hm) as (c & v & i' & d' & st1 & data & id & E & Hok1 & K1 & Em & Hid & A & Hrefs).
  set (x' := set_stream i' d' x) in *. simpl. rewrite E. simpl. rewrite Em. simpl. rewrite is_silence_ok by done. simpl.
  assert (Hm2 : (if (mixlength =? 0) || (mc_length c <? mixlength) then mc_length c else mixlength) = Z.min mixlength (mc_length c)).
  { rewrite (proj2 (Z.eqb_neq mixlength 0)) by lia. simpl. rewrite if_min. lia. }
  rewrite Hm2. pose proof (an_length _ _ _ _ _ _ A) as Hlen. pose proof (an_frames _ _ _ _ _ _ A) as Hfr. simpl in Hlen, Hfr.
  assert (Z.min mixlength (mc_length c) mod base = 0) as Hmm2 by (by apply Z.min_case).
  assert (forall j, chunk_refs c j = delta id 1 j) as Hcr by (intros j; unfold chunk_refs; by rewrite Em).
  assert (forall j, x_owned x' j + all_owned l j + chunk_refs c j <= refs st1 j) as Hown1.
  { intros j. specialize (Hown j). specialize (Hrefs j). rewrite all_owned_cons, owned_kept in Hown.
    rewrite owned_kept. pose proof (an_silence _ _ _ _ _ _ A) as Es. rewrite Es. lia. }
  assert (a_audible (mk_answer c v data st1) = negb (silent st1 id)) as Haud by (unfold a_audible; simpl; by rewrite Em).
  destruct (silent st1 id) eqn:Esil.
  - destruct (pa_memblock_unref_spec st1 id Hok1 Hid) as (st2 & E2 & Hok2 & K2 & _ & R2). rewrite E2. simpl.
    assert (forall j, x_owned x' j + all_owned l j <= refs st2 j) as Hown2.
    { intros j. specialize (Hown1 j). rewrite R2. rewrite Hcr in Hown1. unfold delta in *. case_decide; lia. }
    assert (keeps st st2) as K02 by (apply (keeps_trans st st1); [apply Hok|apply Hok1|done..]).
    assert (forall j, all_owned l j <= refs st2 j) as Ho2.
    { intros j. specialize (Hown2 j). pose proof (x_owned_nonneg x' j). lia. }
    destruct (IH (S maxinfo) (Z.min mixlength (mc_length c)) st2) as (answers & infos & ml & l' & st' & E3 & B); try done; [lia|lia| |].
    { by apply (ready_all_env info fuel l st st2). }
    rewrite E3. simpl. exists (mk_answer c v data st1 :: answers), infos, ml, (x' :: l'), st'. split; [done|].
    apply (answered_cons info fuel st x l mixlength (mk_answer c v data st1) x' st2) with (aud := false); simpl; try done.
    + apply (answered_env info st x (mk_answer c v data st1) x' st1); try done.
      intros j. rewrite Haud. specialize (Hown2 j). simpl. pose proof (all_kept_owned l j). lia.
    + intros j. specialize (Hown2 j). lia.
    + intros j. specialize (Hrefs j). rewrite R2. rewrite Hcr in Hrefs. unfold delta in *. case_decide; lia.
  - assert (forall j, all_owned l j <= refs st1 j) as Ho1.
    { intros j. specialize (Hown1 j). pose proof (x_owned_nonneg x' j). pose proof (chunk_refs_nonneg c j). lia. }
    rewrite (pa_assert_true (0 <? _)) by blia. simpl.
    destruct (IH maxinfo (Z.min mixlength (mc_length c)) st1) as (answers & infos & ml & l' & st' & E3 & B); try done; [lia|lia| |].
    { by apply (ready_all_env info fuel l st st1). }
    rewrite E3. simpl. eexists (mk_answer c v data st1 :: answers), _, ml, (x' :: l'), st'. split; [done|].
    by apply (answered_cons info fuel st x l mixlength (mk_answer c v data st1) x' st1) with (aud := true).
Qed.
End mixing.
