(* ===== verification/Source.v ===== *)
(** * Source: the monitor source of a sink

    Models what [src/pulsecore/source.c] does in the I/O thread of a source:
    handing a chunk to the outputs that listen to it, with the volume of the
    source applied, handing a chunk to an output that listens to one stream of
    the sink, and rewinding.  What an output does with its data, in
    source-output.c, is the interface [output_ops] on its state [O];
    [monitor_ops] puts the source behind the interface of [Sink].

    [MonitorOk] states what a sink relies on when it has a monitor source,
    [OutputOk] what the source relies on; [source_monitor] is the proof that a
    source with such outputs is such a monitor.  Reference counts of the outputs
    themselves are left out. *)
From stdpp Require Import base tactics numbers list gmap.
From S2P Require Import Prelude Sample Channelmap Volume Memblock MemblockBusy Mcalign Memblockq SinkInput Sink SinkMix.

(** ** Data *)

Inductive pa_source_state_t :=
| PA_SOURCE_INVALID_STATE
| PA_SOURCE_RUNNING
| PA_SOURCE_IDLE
| PA_SOURCE_SUSPENDED
| PA_SOURCE_INIT
| PA_SOURCE_UNLINKED.

#[export] Instance pa_source_state_eq_dec : EqDecision pa_source_state_t.
Proof. solve_decision. Defined.

Definition PA_SOURCE_IS_LINKED (x : pa_source_state_t) : bool :=
  bool_decide (x = PA_SOURCE_RUNNING) || bool_decide (x = PA_SOURCE_IDLE) || bool_decide (x = PA_SOURCE_SUSPENDED).

(** [pa_source_output_push] and [pa_source_output_process_rewind] *)
Record output_ops (O : Type) := mk_output_ops {
  out_push : O -> pa_memchunk -> store -> outcome (O * store);
  out_process_rewind : O -> Z -> store -> outcome (O * store)
}.
Arguments out_push {O} _ _ _ _.
Arguments out_process_rewind {O} _ _ _ _.

(** An output of the source: its key, whether it listens to one stream alone
    ([direct_on_input]), and its own state. *)
Record output (O : Type) := mk_output {
  out_key : Z;
  out_direct_on_input : bool;
  out_state : O
}.
Arguments mk_output {O} _ _ _.
Arguments out_key {O} _.
Arguments out_direct_on_input {O} _.
Arguments out_state {O} _.

(** The fields of [struct pa_source] its thread uses. *)
Record pa_source (O : Type) := mk_source {
  sr_state : pa_source_state_t;
  sr_sample_spec : pa_sample_spec;
  sr_soft_volume : pa_cvolume;
  sr_soft_muted : bool;
  sr_outputs : list (output O)
}.
Arguments mk_source {O} _ _ _ _ _.
Arguments sr_state {O} _.
Arguments sr_sample_spec {O} _.
Arguments sr_soft_volume {O} _.
Arguments sr_soft_muted {O} _.
Arguments sr_outputs {O} _.

(** ** Operations *)

Section source.
Context {O : Type} (ops : output_ops O).
Context (do_volume : pa_sample_spec -> pa_cvolume -> list cell -> list cell).

Abbreviation pa_source := (pa_source O).
Abbreviation output := (output O).

Definition set_outputs (l : list output) (s : pa_source) : pa_source :=
  mk_source (sr_state s) (sr_sample_spec s) (sr_soft_volume s) (sr_soft_muted s) l.
Definition set_out (x : O) (o : output) : output := mk_output (out_key o) (out_direct_on_input o) x.

(** [while ((o = pa_hashmap_iterate(s->thread_info.outputs, ...)))] *)
Fixpoint post_loop (c : pa_memchunk) (l : list output) (st : store) : outcome (list output * store) :=
  match l with
  | [] => Ok ([], st)
  | o :: l =>
      '(o, st) ← (if negb (out_direct_on_input o) then '(x, st) ← out_push ops (out_state o) c st; Ok (set_out x o, st)
                  else Ok (o, st));
      '(l, st) ← post_loop c l st;
      Ok (o :: l, st)
  end.

Definition needs_volume (s : pa_source) : bool := sr_soft_muted s || negb (pa_cvolume_is_norm (sr_soft_volume s)).

(** [vchunk]: a copy of the chunk with the volume of the source. *)
Definition with_volume (s : pa_source) (c : pa_memchunk) (st : store) : outcome (pa_memchunk * store) :=
  id ← deref (mc_memblock c);
  st ← pa_memblock_ref id st;
  '(vchunk, st) ← pa_memchunk_make_writable c 0 st;
  st ← (if sr_soft_muted s || pa_cvolume_is_muted (sr_soft_volume s) then pa_silence_memchunk vchunk (sr_sample_spec s) st
        else pa_volume_memchunk do_volume vchunk (sr_sample_spec s) (sr_soft_volume s) st);
  Ok (vchunk, st).

Definition pa_source_post (s : pa_source) (chunk : pa_memchunk) (st : store) : outcome (pa_source * store) :=
  _ ← pa_assert (PA_SOURCE_IS_LINKED (sr_state s));
  if bool_decide (sr_state s = PA_SOURCE_SUSPENDED) then Ok (s, st)
  else if needs_volume s then
    '(vchunk, st) ← with_volume s chunk st;
    '(l, st) ← post_loop vchunk (sr_outputs s) st;
    id ← deref (mc_memblock vchunk);
    st ← pa_memblock_unref id st;
    Ok (set_outputs l s, st)
  else
    '(l, st) ← post_loop chunk (sr_outputs s) st;
    Ok (set_outputs l s, st).

(** The output with the key, with its place in the list. *)
Definition find_output (key : Z) (l : list output) : option (nat * output) :=
  list_find (fun o => out_key o = key) l.

Definition pa_source_post_direct (s : pa_source) (key : Z) (chunk : pa_memchunk) (st : store) : outcome (pa_source * store) :=
  _ ← pa_assert (PA_SOURCE_IS_LINKED (sr_state s));
  '(k, o) ← deref (find_output key (sr_outputs s));
  _ ← pa_assert (out_direct_on_input o);
  if bool_decide (sr_state s = PA_SOURCE_SUSPENDED) then Ok (s, st)
  else if needs_volume s then
    '(vchunk, st) ← with_volume s chunk st;
    '(x, st) ← out_push ops (out_state o) vchunk st;
    id ← deref (mc_memblock vchunk);
    st ← pa_memblock_unref id st;
    Ok (set_outputs (<[k := set_out x o]> (sr_outputs s)) s, st)
  else
    '(x, st) ← out_push ops (out_state o) chunk st;
    Ok (set_outputs (<[k := set_out x o]> (sr_outputs s)) s, st).

(** [PA_HASHMAP_FOREACH(o, s->thread_info.outputs, state)] *)
Fixpoint rewind_outputs (nbytes : Z) (l : list output) (st : store) : outcome (list output * store) :=
  match l with
  | [] => Ok ([], st)
  | o :: l =>
      '(x, st) ← out_process_rewind ops (out_state o) nbytes st;
      '(l, st) ← rewind_outputs nbytes l st;
      Ok (set_out x o :: l, st)
  end.

Definition pa_source_process_rewind (s : pa_source) (nbytes : Z) (st : store) : outcome (pa_source * store) :=
  _ ← pa_assert (PA_SOURCE_IS_LINKED (sr_state s));
  if nbytes <=? 0 then Ok (s, st)
  else if bool_decide (sr_state s = PA_SOURCE_SUSPENDED) then Ok (s, st)
  else '(l, st) ← rewind_outputs nbytes (sr_outputs s) st; Ok (set_outputs l s, st).

(** The source as the sink sees it. *)
Definition monitor_ops : source_ops pa_source :=
  mk_source_ops pa_source pa_source_post pa_source_post_direct pa_source_process_rewind.
End source.

(** ** Interfaces *)

(** What a sink relies on: its monitor source keeps references ([mo_hold]) and
    an invariant of its own that nobody disturbs who respects them.  Given a chunk
    of whole frames the caller holds, and the memory it needs for it ([mo_room]),
    it returns; so it does when told to go back. *)
Class MonitorOk {M} (src : source_ops M) (base : Z) := {
  mo_inv : M -> store -> Prop;
  mo_hold : M -> Z -> Z;
  mo_room : M -> Z -> store -> Prop;
  mo_nonneg m j : 0 <= mo_hold m j;
  mo_env m st st' : mo_inv m st -> store_ok st -> store_ok st' -> keeps st st' -> (forall j, mo_hold m j <= refs st' j) ->
    mo_inv m st';
  mo_post m c st : mo_inv m st -> store_ok st -> chunk_in st c -> mc_length c mod base = 0 -> mo_room m (mc_length c) st ->
    (forall j, mo_hold m j + chunk_refs c j <= refs st j) ->
    exists m' st', src_post src m c st = Ok (m', st') /\ store_ok st' /\ keeps st st' /\ mo_inv m' st' /\
      forall j, refs st' j - mo_hold m' j = refs st j - mo_hold m j;
  mo_rewind m n st : mo_inv m st -> store_ok st -> 0 < n -> n mod base = 0 -> (forall j, mo_hold m j <= refs st j) ->
    exists m' st', src_process_rewind src m n st = Ok (m', st') /\ store_ok st' /\ keeps st st' /\ mo_inv m' st' /\
      forall j, refs st' j - mo_hold m' j = refs st j - mo_hold m j
}.

(** What a source relies on, of each of its outputs. *)
Class OutputOk {O} (ops : output_ops O) (base : Z) := {
  oo_inv : O -> store -> Prop;
  oo_hold : O -> Z -> Z;
  oo_nonneg x j : 0 <= oo_hold x j;
  oo_env x st st' : oo_inv x st -> store_ok st -> store_ok st' -> keeps st st' -> (forall j, oo_hold x j <= refs st' j) ->
    oo_inv x st';
  oo_push x c st : oo_inv x st -> store_ok st -> chunk_in st c -> mc_length c mod base = 0 ->
    (forall j, oo_hold x j + chunk_refs c j <= refs st j) ->
    exists x' st', out_push ops x c st = Ok (x', st') /\ store_ok st' /\ keeps st st' /\ oo_inv x' st' /\
      forall j, refs st' j - oo_hold x' j = refs st j - oo_hold x j;
  oo_rewind x n st : oo_inv x st -> store_ok st -> 0 < n -> n mod base = 0 -> (forall j, oo_hold x j <= refs st j) ->
    exists x' st', out_process_rewind ops x n st = Ok (x', st') /\ store_ok st' /\ keeps st st' /\ oo_inv x' st' /\
      forall j, refs st' j - oo_hold x' j = refs st j - oo_hold x j
}.
