(* ===== verification/SinkDrop.v ===== *)
(** * SinkDrop: moving the streams of a sink on

    What [inputs_drop] does after a piece was played: every stream moves on by
    its length, and every entry of the mixing array is given back once. *)
From stdpp Require Import base tactics numbers list gmap.
From S2P Require Import Prelude Sample Channelmap Volume Memblock Mcalign Memblockq MemblockqSpec MemblockqRead MemblockqAttr.
From S2P Require Import MemblockqInv MemblockqAlign MemblockqFrames SinkInput SinkInputProps Sink SinkMix Source.

#[local] Arguments pa_sink_input_drop : simpl never.

(** ** Finding the entry of a stream *)

Definition has_key (key : Z) (m : pa_mix_info) : Prop := mi_userdata m = Some key.

Lemma next_pos n p : (p < n)%nat -> (if (n <=? S p)%nat then 0%nat else S p) = (S p mod n)%nat.
Proof.
  intros Hp. destruct (Nat.leb_spec n (S p)).
  - replace (S p) with n by lia. symmetry. apply Nat.Div0.mod_same.
  - symmetry. apply Nat.mod_small. lia.
Qed.

(** The search around the array finds an entry with the key if there is one;
    it stops inside the array. *)
Lemma find_info_spec j n p key infos : n = length infos -> (p < n)%nat ->
  match find_info j n p key infos with
  | (Some k, p') => k = p' /\ (k < n)%nat /\ exists m, infos !! k = Some m /\ has_key key m
  | (None, p') => (p' < n)%nat /\ forall i, (i < j)%nat -> forall m, infos !! ((p + i) mod n)%nat = Some m -> ~ has_key key m
  end.
Proof.
  intros En. revert p. induction j as [|j IH]; intros p Hp; simpl; [split; [done|lia]|].
  case_bool_decide as Hk.
  - split_and!; try done. destruct (infos !! p) as [m|]; [|done]. simpl in Hk. exists m. split; [done|]. by injection Hk.
  - rewrite next_pos by done. assert ((S p mod n) < n)%nat as Hp' by (apply Nat.mod_upper_bound; lia).
    specialize (IH (S p mod n)%nat Hp'). destruct (find_info j n (S p mod n) key infos) as [[k|] p']; [done|].
    destruct IH as [Hlt IH]. split; [done|]. intros [|i] Hi m Hm.
    + rewrite Nat.add_0_r, Nat.mod_small in Hm by done. rewrite Hm in Hk. simpl in Hk. intros H. apply Hk. by rewrite H.
    + apply (IH i); [lia|]. rewrite Nat.Div0.add_mod_idemp_l. by replace (S p + i)%nat with (p + S i)%nat by lia.
Qed.

Lemma find_info_all n p key infos : n = length infos -> (p < n)%nat \/ p = 0%nat ->
  match find_info n n p key infos with
  | (Some k, p') => (p' < n)%nat /\ exists m, infos !! k = Some m /\ has_key key m
  | (None, p') => ((p' < n)%nat \/ p' = 0%nat) /\ Forall (fun m => ~ has_key key m) infos
  end.
Proof.
  intros En Hp. destruct (decide (n = 0%nat)) as [E0|Hne].
  { subst n. rewrite E0. simpl. destruct infos; [|done]. split; [destruct Hp; [lia|by right]|constructor]. }
  assert (p < n)%nat as Hlt by lia. pose proof (find_info_spec n n p key infos En Hlt) as H.
  destruct (find_info n n p key infos) as [[k|] p'].
  - destruct H as (-> & Hk & m & Hm). split; [done|by exists m].
  - destruct H as [Hp' Hno]. split; [by left|]. apply Forall_lookup. intros k m Hm.
    assert (k < n)%nat as Hk by (subst n; by apply lookup_lt_Some in Hm).
    apply (Hno ((k + (n - p)) mod n)%nat); [apply Nat.mod_upper_bound; lia|].
    rewrite Nat.Div0.add_mod_idemp_r. replace (p + (k + (n - p)))%nat with (k + 1 * n)%nat by lia.
    by rewrite Nat.Div0.mod_add, Nat.mod_small.
Qed.

(** ** Giving entries back *)

(** The streams whose entries were not given back yet. *)
Definition live (infos : list pa_mix_info) : list Z := omap mi_userdata infos.

(** An entry has a block while it was not given back. *)
Definition entry_ok (m : pa_mix_info) : Prop :=
  is_Some (mi_userdata m) <-> is_Some (mc_memblock (mi_chunk m)).

Lemma infos_refs_app l k j : infos_refs (l ++ k) j = infos_refs l j + infos_refs k j.
Proof. unfold infos_refs. by rewrite fmap_app, sumZ_app. Qed.

Lemma clear_entry infos k m key v : infos !! k = Some m -> has_key key m -> Forall entry_ok infos ->
  let infos' := <[k := mk_mix_info pa_memchunk_reset v None]> infos in
  live infos ≡ₚ key :: live infos' /\ Forall entry_ok infos' /\
  forall j, infos_refs infos j = chunk_refs (mi_chunk m) j + infos_refs infos' j.
Proof.
  intros Hm Hk Hok infos'. unfold infos'. pose proof (lookup_lt_Some _ _ _ Hm) as Hlt.
  rewrite insert_take_drop by done. split_and!.
  - rewrite <- (take_drop_middle _ _ _ Hm) at 1. unfold live. rewrite !omap_app. simpl. rewrite Hk.
    by rewrite <- Permutation_middle.
  - apply Forall_app. split; [by apply Forall_take|]. constructor; [|by apply Forall_drop].
    unfold entry_ok. simpl. split; by intros [? ?].
  - intros j. rewrite <- (take_drop_middle _ _ _ Hm) at 1. rewrite !infos_refs_app, !infos_refs_cons. simpl.
    change (chunk_refs pa_memchunk_reset j) with 0. lia.
Qed.

Lemma none_live infos : live infos = [] -> Forall entry_ok infos -> forall j, infos_refs infos j = 0.
Proof.
  intros Hl Hok j. induction Hok as [|m l [_ Hm] _ IH]; [done|]. rewrite infos_refs_cons. unfold live in *. simpl in Hl.
  destruct (mi_userdata m); [done|]. rewrite IH by done. unfold chunk_refs.
  destruct (mc_memblock (mi_chunk m)); [|done]. by destruct Hm.
Qed.

Section dropping.
Context {D R M : Type} (impl : implementor D) (src : source_ops M).
Context (do_volume : pa_sample_spec -> pa_cvolume -> list cell -> list cell).
Context (base maxlen : Z) `{!ImplementorOk impl base maxlen}.

(** A stream that can be moved on. *)
Record droppable (info : sink_info) (x : input D R) (st : store) : Prop := {
  dr_linked : PA_SINK_INPUT_IS_LINKED (i_state (in_stream x)) = true;
  dr_spec : spec_ok (sk_sample_spec info);
  dr_base : bq_base (render x) = base /\ base = frame_size (sk_sample_spec info);
  dr_queue : render_ok (render x) st;
  dr_impl : io_inv (in_data x) st
}.

(** The stream [x] moved on by [len] bytes, as [x'] in a store reached since. *)
Record dropped (len : Z) (st : store) (x x' : input D R) (st' : store) : Prop := {
  dp_key : in_key x' = in_key x /\ in_direct_outputs x' = in_direct_outputs x /\ in_data x' = in_data x;
  dp_queue : render_ok (render x') st';
  dp_impl : io_inv (in_data x') st';
  dp_silence : bq_silence (render x') = bq_silence (render x);
  dp_index : bq_read_index (render x') = bq_read_index (render x) + len /\ bq_write_index (render x') = bq_write_index (render x);
  dp_stream p : bq_read_index (render x') - bq_maxrewind (render x) <= p -> stream (render x') st' p = stream (render x) st p;
  dp_content : io_content (in_data x') st' = io_content (in_data x) st
}.

(** Neither is disturbed by others who respect the references. *)
Lemma stream_env (x : input D R) st st' : render_ok (render x) st -> io_inv (in_data x) st -> store_ok st' -> keeps st st' ->
  (forall j, x_owned impl base maxlen x j <= refs st' j) ->
  render_ok (render x) st' /\ io_inv (in_data x) st' /\ (forall p, stream (render x) st' p = stream (render x) st p) /\
  io_content (in_data x) st' = io_content (in_data x) st.
Proof.
  intros Hq Hi Hok' K Hr. destruct (render_env (render x) st st' Hq Hok' K) as [Hq' Hs].
  { intros j. specialize (Hr j). unfold x_owned in Hr. pose proof (io_nonneg (in_data x) j). lia. }
  destruct (io_env (in_data x) st st' Hi (qi_store _ _ (ro_inv _ _ Hq)) Hok' K) as [Hi' Hc].
  { intros j. specialize (Hr j). unfold x_owned, owned in Hr. pose proof (items_refs_nonneg (bq_blocks (render x)) j).
    pose proof (chunk_refs_nonneg (bq_silence (render x)) j). lia. }
  done.
Qed.

Lemma droppable_env info x st st' : droppable info x st -> store_ok st' -> keeps st st' ->
  (forall j, x_owned impl base maxlen x j <= refs st' j) -> droppable info x st'.
Proof. intros [H1 H2 H3 H4 H5] Hok K Hr. destruct (stream_env x st st' H4 H5 Hok K Hr) as (? & ? & _). by split. Qed.

Lemma dropped_env len st x x' st1 st' : dropped len st x x' st1 -> store_ok st' -> keeps st1 st' ->
  (forall j, x_owned impl base maxlen x' j <= refs st' j) -> dropped len st x x' st'.
Proof.
  intros [H1 H2 H3 H4 H5 H6 H7] Hok K Hr. destruct (stream_env x' st1 st' H2 H3 Hok K Hr) as (? & ? & Hs & Hc).
  split; try done; [intros p Hp; rewrite Hs; by apply H6|by rewrite Hc].
Qed.

Lemma dropped_since info len st st2 x x' st' : droppable info x st -> store_ok st2 -> keeps st st2 ->
  (forall j, x_owned impl base maxlen x j <= refs st2 j) -> dropped len st2 x x' st' -> dropped len st x x' st'.
Proof.
  intros [_ _ _ D1 D2] Hok K Hr [H1 H2 H3 H4 H5 H6 H7]. destruct (stream_env x st st2 D1 D2 Hok K Hr) as (_ & _ & Hs & Hc).
  split; try done; [intros p Hp; by rewrite H6, Hs|by rewrite H7].
Qed.

(** One stream moves on. *)
Lemma drop_one info len x st : droppable info x st -> 0 < len < 2 ^ 63 -> len mod base = 0 ->
  (forall j, x_owned impl base maxlen x j <= refs st j) ->
  exists i' st1, pa_sink_input_drop (on_sink info x) len st = Ok (i', st1) /\ store_ok st1 /\ keeps st st1 /\
    i_sink i' = info /\ dropped len st x (set_stream i' (in_data x) x) st1 /\
    forall j, refs st1 j - kept impl base maxlen (set_stream i' (in_data x) x) j = refs st j - kept impl base maxlen x j.
Proof.
  intros [D1 D2 [D3 D3'] D4 D5] Hl Hm Hr. unfold pa_sink_input_drop. simpl. rewrite D1. simpl.
  rewrite (pa_frame_aligned_ok _ D2). simpl. rewrite <- D3', (proj2 (Z.eqb_eq _ _) Hm). simpl.
  rewrite (pa_assert_true (0 <? len)) by blia. simpl.
  destruct (drop_render (render x) len st D4) as (q & st1 & E & [P1 P2 P3 P4 P5 P6 P7 P8] & Er & Ew); [lia|by rewrite D3|].
  fold (render x). rewrite E. simpl. eexists _, st1. split; [done|].
  destruct (undisturbed impl base maxlen (render x) st q (in_data x) st1 D4 P1 P2 D5 P5 P8 Hr) as (Hi & Hc & _).
  split_and!; try done; [apply P1|].
  intros j. specialize (P8 j). unfold kept, ext in *. unfold render at 1. simpl. lia.
Qed.

(** All streams moved on, all entries given back. *)
Record all_dropped (len : Z) (st : store) (l : list (input D R)) (infos : list pa_mix_info) (l' : list (input D R))
    (st' : store) : Prop := {
  ad_store : store_ok st';
  ad_keeps : keeps st st';
  ad_each : Forall2 (fun x x' => dropped len st x x' st') l l';
  ad_refs j : refs st' j - all_kept impl base maxlen l' j = refs st j - all_kept impl base maxlen l j - infos_refs infos j
}.

Lemma dropped_all_since info len st st2 l l' st' : Forall2 (fun x x' => dropped len st2 x x' st') l l' ->
  Forall (fun x => droppable info x st) l -> store_ok st2 -> keeps st st2 ->
  (forall j, all_owned impl base maxlen l j <= refs st2 j) -> Forall2 (fun x x' => dropped len st x x' st') l l'.
Proof.
  intros H Hr Hok2 K Ho%all_owned_each. eapply Forall2_impl; [exact (Forall2_with _ _ _ _ (Forall2_with _ _ _ _ H Hr) Ho)|].
  intros x x' [[A Hx] Hxo]. by apply (dropped_since info len st st2).
Qed.

Lemma dropped_all_env len st st3 st4 l l' : Forall2 (fun x x' => dropped len st x x' st3) l l' -> store_ok st4 -> keeps st3 st4 ->
  Forall (fun x => forall j, x_owned impl base maxlen x j <= refs st4 j) l' -> Forall2 (fun x x' => dropped len st x x' st4) l l'.
Proof.
  intros H Hok K. induction H as [|x x' l l' Hx _ IH]; [constructor|]. intros [Hx' Hl]%Forall_cons. constructor; [|by apply IH].
  by apply (dropped_env len st x x' st3).
Qed.

Lemma droppable_all_env info l st st' : Forall (fun x => droppable info x st) l -> store_ok st' ->
  keeps st st' -> (forall j, all_owned impl base maxlen l j <= refs st' j) -> Forall (fun x => droppable info x st') l.
Proof.
  intros H Hok' K Ho%all_owned_each. eapply Forall_impl; [exact (proj2 (Forall_and _ _) (conj H Ho))|].
  intros x [Hx Hr]. by apply (droppable_env info x st st').
Qed.

Lemma dropped_silence len st l l' st' j : Forall2 (fun x x' => dropped len st x x' st') l l' ->
  all_owned impl base maxlen l' j - all_kept impl base maxlen l' j = all_owned impl base maxlen l j - all_kept impl base maxlen l j.
Proof.
  induction 1 as [|x x' l l' A _ IH]; [done|].
  rewrite !all_owned_cons, !all_kept_cons, !owned_kept, (dp_silence _ _ _ _ _ A). lia.
Qed.

(** The first stream moved on, then the others; [c] is the chunk of the entry
    that was given back for it, if it had one. *)
Lemma dropped_cons info len st x l x' st2 (given : Z -> Z) infos l' st' infos2 :
  store_ok st -> Forall (fun x => droppable info x st) l -> dropped len st x x' st2 -> store_ok st2 -> keeps st st2 ->
  (forall j, x_owned impl base maxlen x' j + all_owned impl base maxlen l j + infos_refs infos2 j <= refs st2 j) ->
  (forall j, refs st2 j - kept impl base maxlen x' j = refs st j - kept impl base maxlen x j - given j) ->
  (forall j, infos_refs infos j = given j + infos_refs infos2 j) ->
  all_dropped len st2 l infos2 l' st' -> all_dropped len st (x :: l) infos (x' :: l') st'.
Proof.
  intros Hok Hl A Hok2 K2 Hown Hrefs Hi [B1 B2 B3 B4]. split.
  - done.
  - apply (keeps_trans st st2); [apply Hok|apply Hok2|done..].
  - constructor.
    + apply (dropped_env len st x x' st2); try done. intros j. specialize (B4 j). specialize (Hown j).
      pose proof (dropped_silence _ _ _ _ _ j B3). pose proof (all_kept_owned impl base maxlen l' j). lia.
    + apply (dropped_all_since info len st st2); try done. intros j. specialize (Hown j).
      pose proof (x_owned_nonneg impl base maxlen x' j). pose proof (infos_refs_nonneg infos2 j). lia.
  - intros j. rewrite !all_kept_cons, Hi. specialize (B4 j). specialize (Hrefs j). lia.
Qed.

(** The entry of a stream is given back, others have the references [own]. *)
Lemma give_back infos k m key st (own : Z -> Z) : store_ok st -> infos !! k = Some m -> has_key key m -> Forall entry_ok infos ->
  (forall j, 0 <= own j) -> (forall j, own j + infos_refs infos j <= refs st j) ->
  let infos2 := <[k := mk_mix_info pa_memchunk_reset (mi_volume m) None]> infos in
  exists id st2, mc_memblock (mi_chunk m) = Some id /\ pa_memblock_unref id st = Ok st2 /\ store_ok st2 /\ keeps st st2 /\
    live infos ≡ₚ key :: live infos2 /\ Forall entry_ok infos2 /\
    (forall j, infos_refs infos j = chunk_refs (mi_chunk m) j + infos_refs infos2 j) /\
    (forall j, own j + infos_refs infos2 j <= refs st2 j) /\ (forall j, refs st2 j = refs st j - chunk_refs (mi_chunk m) j).
Proof.
  intros Hok Hm Hkey Hent Ho Hown infos2.
  destruct (clear_entry infos k m key (mi_volume m) Hm Hkey Hent) as (Hperm & Hent2 & Hi). fold infos2 in Hperm, Hent2, Hi.
  destruct (proj1 (Forall_lookup_1 _ _ _ _ Hent Hm)) as [id Em]; [by rewrite Hkey|].
  assert (forall j, chunk_refs (mi_chunk m) j = delta id 1 j) as Hcr by (intros j; unfold chunk_refs; by rewrite Em).
  destruct (pa_memblock_unref_spec st id Hok) as (st2 & E2 & Hok2 & K2 & _ & R2).
  { specialize (Hown id). rewrite Hi, Hcr in Hown. unfold delta in Hown. rewrite decide_True in Hown by done.
    specialize (Ho id). pose proof (infos_refs_nonneg infos2 id). lia. }
  assert (forall j, refs st2 j = refs st j - chunk_refs (mi_chunk m) j) as R3
    by (intros j; rewrite R2, Hcr; change (-1) with (- (1)); rewrite delta_opp; lia).
  exists id, st2. split_and!; try done. intros j. rewrite R3. specialize (Hown j). rewrite Hi in Hown. lia.
Qed.

Lemma live_has key infos : key ∈ live infos -> exists m, m ∈ infos /\ has_key key m.
Proof. unfold live. intros (m & Hm & E)%list_elem_of_omap. by exists m. Qed.

Lemma inputs_loop_spec (s : pa_sink D R M) len n : 0 < len < 2 ^ 63 -> len mod base = 0 -> forall l p nu infos st,
  n = length infos -> (p < n)%nat \/ p = 0%nat -> store_ok st -> Forall (fun x => droppable (snk_info s) x st) l ->
  NoDup (in_key <$> l) -> NoDup (live infos) -> live infos ⊆ in_key <$> l -> Forall entry_ok infos ->
  (forall j, all_owned impl base maxlen l j + infos_refs infos j <= refs st j) ->
  exists l' infos' st',
    inputs_loop src do_volume s n len l p nu infos None st = Ok (l', infos', (nu + length (live infos))%nat, None, st') /\
    all_dropped len st l infos l' st'.
Proof.
  intros Hlen Hmod. induction l as [|x l IH]; intros p nu infos st En Hp Hok Hd Hk Hnd Hsub Hent Hown.
  { assert (live infos = []) as El by (apply list_nil_subseteq, Hsub). rewrite El. simpl. exists [], infos, st.
    split; [by rewrite Nat.add_0_r|]. split; [done|apply keeps_refl|constructor|]. intros j. rewrite none_live by done. lia. }
  rewrite fmap_cons in Hk, Hsub. apply NoDup_cons in Hk as [Hxl Hk]. apply Forall_cons in Hd as [Hx Hd].
  destruct (drop_one (snk_info s) len x st Hx Hlen Hmod) as (i' & st1 & E & Hok1 & K1 & Hsk & A & Hrefs).
  { intros j. specialize (Hown j). rewrite all_owned_cons in Hown. pose proof (all_kept_owned impl base maxlen l j).
    pose proof (infos_refs_nonneg infos j). lia. }
  set (x' := set_stream i' (in_data x) x) in *.
  assert (forall j, x_owned impl base maxlen x' j + all_owned impl base maxlen l j + infos_refs infos j <= refs st1 j) as Hown1.
  { intros j. specialize (Hown j). specialize (Hrefs j). rewrite all_owned_cons, owned_kept in Hown.
    rewrite owned_kept, (dp_silence _ _ _ _ _ A). lia. }
  pose proof (find_info_all n p (in_key x) infos En Hp) as Hf. simpl.
  destruct (find_info n n p (in_key x) infos) as [[k|] p']; rewrite E; simpl.
  - destruct Hf as (Hp' & m & Hm & Hkey). rewrite Hm. simpl.
    destruct (give_back infos k m (in_key x) st1 (fun j => x_owned impl base maxlen x' j + all_owned impl base maxlen l j))
      as (id & st2 & Em & E2 & Hok2 & K2 & Hperm & Hent2 & Hi & Hown2 & R2); try done.
    { intros j. pose proof (x_owned_nonneg impl base maxlen x' j). pose proof (all_kept_owned impl base maxlen l j). lia. }
    rewrite Em. simpl. rewrite E2. simpl. set (infos2 := <[k := _]> infos) in *.
    assert (keeps st st2) as K02 by (apply (keeps_trans st st1); [apply Hok|apply Hok1|done..]).
    assert (forall j, all_owned impl base maxlen l j + infos_refs infos2 j <= refs st2 j) as Ho2.
    { intros j. specialize (Hown2 j). simpl in Hown2. pose proof (x_owned_nonneg impl base maxlen x' j). lia. }
    rewrite Hperm in Hnd. apply NoDup_cons in Hnd as [Hnk Hnd2].
    destruct (IH p' (S nu) infos2 st2) as (l' & infos' & st' & E3 & B); try done.
    { unfold infos2. by rewrite length_insert. } { by left. }
    { apply (droppable_all_env (snk_info s) l st st2); try done. intros j. specialize (Ho2 j). pose proof (infos_refs_nonneg infos2 j). lia. }
    { intros y Hy. assert (y ∈ live infos) as Hy' by (rewrite Hperm; by right).
      apply Hsub, elem_of_cons in Hy' as [->|?]; done. }
    rewrite E3. simpl. exists (x' :: l'), infos', st'. split.
    { rewrite (Permutation_length Hperm). simpl. by rewrite Nat.add_succ_r. }
    apply (dropped_cons (snk_info s) len st x l x' st2 (chunk_refs (mi_chunk m)) infos l' st' infos2); try done.
    + apply (dropped_env len st x x' st1); try done. intros j. specialize (Hown2 j). simpl in Hown2.
      pose proof (all_kept_owned impl base maxlen l j). pose proof (infos_refs_nonneg infos2 j). lia.
    + intros j. specialize (Hrefs j). rewrite R2. lia.
  - destruct Hf as [Hp' Hno].
    destruct (IH p' nu infos st1) as (l' & infos' & st' & E3 & B); try done.
    { apply (droppable_all_env (snk_info s) l st st1); try done. intros j. specialize (Hown1 j).
      pose proof (infos_refs_nonneg infos j). pose proof (x_owned_nonneg impl base maxlen x' j). lia. }
    { intros y Hy. pose proof (Hsub y Hy) as [->|?]%elem_of_cons; [|done]. exfalso.
      destruct (live_has _ _ Hy) as (m & Hm & Hkm). rewrite Forall_forall in Hno. by apply (Hno m). }
    { intros j. specialize (Hown1 j). pose proof (x_owned_nonneg impl base maxlen x' j). lia. }
    rewrite E3. simpl. exists (x' :: l'), infos', st'. split; [done|].
    apply (dropped_cons (snk_info s) len st x l x' st1 (fun _ => 0) infos l' st' infos); try done.
    intros j. specialize (Hrefs j). lia.
Qed.

Lemma live_all infos : Forall (fun m => is_Some (mi_userdata m)) infos -> length (live infos) = length infos.
Proof.
  unfold live. induction 1 as [|m infos [key E] _ IH]; [done|]. csimpl. rewrite E. simpl. by f_equal.
Qed.

(** No output listens to one stream alone, if there is a monitor source. *)
Definition undirected (mon : option M) (l : list (input D R)) : Prop :=
  is_Some mon -> Forall (fun x => in_direct_outputs x = []) l.

(** The loop then does not look at the monitor source. *)
Lemma loop_monitor (s s' : pa_sink D R M) n len mon l p nu infos st : snk_info s' = snk_info s -> undirected mon l ->
  inputs_loop src do_volume s n len l p nu infos mon st =
    ('(l, infos, nu, _, st) ← inputs_loop src do_volume s' n len l p nu infos None st; Ok (l, infos, nu, mon, st)).
Proof.
  intros Ei. revert p nu infos st. induction l as [|x l IH]; intros p nu infos st Hun; [done|].
  assert (undirected mon l) as Hunl by (intros Hs%Hun; by apply Forall_cons in Hs as [_ ?]).
  assert (mon = None \/ in_direct_outputs x = []) as Hx.
  { destruct mon as [m|]; [right|by left]. assert (is_Some (Some m)) as Hs%Hun by (by eexists). by apply Forall_cons in Hs as [? _]. }
  simpl. destruct (find_info n n p (in_key x) infos) as [o p']. rewrite Ei.
  destruct (pa_sink_input_drop _ len st) as [[i' st1]| |]; [|done..]. simpl.
  assert (forall st1, match mon, in_direct_outputs x with
    | Some mo, _ :: _ => '(mo, st) ← drop_direct src do_volume s (set_stream i' (in_data x) x) (o ≫= fun k => infos !! k) len mo st1; Ok (Some mo, st)
    | _, _ => Ok (mon, st1) end = Ok (mon, st1)) as Edir by (intros st0; destruct Hx as [-> | ->]; [done|by destruct mon]).
  rewrite Edir. simpl. destruct (match o with Some _ => _ | None => _ end) as [[[infos1 nu1] st2]| |]; [|done..]. simpl.
  rewrite IH by done. by destruct (inputs_loop src do_volume s' n len l p' nu1 infos1 None st2) as [[[[[??]?]?]?]| |].
Qed.

(** The monitor source, if there is one, was given the chunk. *)
Definition posted (mon : option M) (c : pa_memchunk) (st : store) (mon' : option M) (st' : store) : Prop :=
  match mon, mon' with
  | None, None => st' = st
  | Some m, Some m' => src_post src m c st = Ok (m', st')
  | _, _ => False
  end.

(** A sink all of whose entries belong to streams it has: the streams move on as
    they do without a monitor source, which then gets the chunk. *)
Lemma inputs_drop_spec (s : pa_sink D R M) infos result st : undirected (snk_monitor s) (snk_inputs s) -> isset result = true ->
  0 < mc_length result < 2 ^ 63 -> mc_length result mod base = 0 -> store_ok st ->
  Forall (fun x => droppable (snk_info s) x st) (snk_inputs s) -> NoDup (in_key <$> snk_inputs s) ->
  NoDup (live infos) -> live infos ⊆ in_key <$> snk_inputs s ->
  Forall (fun m => is_Some (mi_userdata m)) infos -> Forall entry_ok infos ->
  (forall j, all_owned impl base maxlen (snk_inputs s) j + infos_refs infos j <= refs st j) ->
  exists l' st', inputs_drop src do_volume (set_monitor None s) infos result st = Ok (set_monitor None (set_inputs l' s), st') /\
    all_dropped (mc_length result) st (snk_inputs s) infos l' st' /\
    forall mon' st2, posted (snk_monitor s) result st' mon' st2 ->
      inputs_drop src do_volume s infos result st = Ok (set_monitor mon' (set_inputs l' s), st2).
Proof.
  intros Hun Hset Hlen Hmod Hok Hd Hk Hnd Hsub Hall Hent Hown.
  destruct (inputs_loop_spec (set_monitor None s) (mc_length result) (length infos) Hlen Hmod (snk_inputs s) 0 0 infos st)
    as (l' & infos' & st' & E & A); try done; [by right|]. rewrite (live_all infos Hall) in E. simpl in E.
  exists l', st'. unfold inputs_drop. rewrite Hset. simpl. rewrite (pa_assert_true (0 <? _)) by blia. simpl.
  rewrite (loop_monitor s (set_monitor None s) _ _ (snk_monitor s)) by done. rewrite E. simpl. rewrite Nat.ltb_irrefl. simpl.
  split_and!; try done. intros mon' st2 Hp. unfold posted in Hp. destruct (snk_monitor s), mon'; try done; simpl.
  - by rewrite Hp.
  - by rewrite Hp.
Qed.
End dropping.
