(* ===== verification/SinkRender.v ===== *)
(** * SinkRender: what a sink plays

    The chunk that [pa_sink_render] makes of the answers of the streams: a piece
    of silence, the one stream there is with its volume, or the mix of several.
    [played] says which bytes that has to be. *)
From stdpp Require Import base tactics numbers list gmap.
From S2P Require Import Prelude Sample Channelmap Volume Memblock MemblockBusy Mcalign Memblockq MemblockqSpec MemblockqRead MemblockqAttr.
From S2P Require Import MemblockqInv MemblockqAlign MemblockqFrames SinkInput SinkInputProps Sink SinkMix SinkDrop.

#[local] Arguments pa_sink_input_peek : simpl never.
#[local] Arguments pa_sink_input_drop : simpl never.
#[local] Arguments pa_memchunk_make_writable : simpl never.

(** ** Chunks with a reference of their own *)

(** The first [len] bytes of a chunk. *)
Definition cut (c : pa_memchunk) (len : Z) : pa_memchunk := mk_chunk (mc_memblock c) (mc_index c) len.

Lemma cut_in st c len : chunk_in st c -> 0 < len <= mc_length c -> chunk_in st (cut c len).
Proof. intros (id & ? & ? & ? & ? & ?) ?. exists id. simpl. split_and!; done || lia. Qed.

Lemma cut_bytes st c len : 0 <= len <= mc_length c -> chunk_bytes st (cut c len) = take (Z.to_nat len) (chunk_bytes st c).
Proof.
  intros Hl. unfold chunk_bytes, cut. simpl. destruct (mc_memblock c); [|by rewrite take_nil].
  unfold sub_list. rewrite take_take. f_equal. lia.
Qed.

Lemma chunk_in_length st c : chunk_in st c -> length (chunk_bytes st c) = Z.to_nat (mc_length c).
Proof. intros (id & Em & ? & ? & ? & ?). unfold chunk_bytes. rewrite Em. by rewrite sub_list_length by lia. Qed.

(** From [st] to [st'] a reference to the chunk [c] with bytes [bs] was made, and
    nothing else. *)
Record produced (st : store) (bs : list cell) (c : pa_memchunk) (st' : store) : Prop := {
  pd_store : store_ok st';
  pd_keeps : keeps st st';
  pd_chunk : chunk_in st' c;
  pd_bytes : chunk_bytes st' c = bs;
  pd_refs j : refs st' j = refs st j + chunk_refs c j
}.

Lemma ref_produced st c id : store_ok st -> chunk_in st c -> mc_memblock c = Some id ->
  exists st', pa_memblock_ref id st = Ok st' /\ produced st (chunk_bytes st c) c st'.
Proof.
  intros Hok Hc Em. destruct Hc as (id' & E' & Hr & Hc). rewrite Em in E'. simplify_eq.
  destruct (pa_memblock_ref_spec st id' Hok Hr) as (st' & E & Hok' & K & R). exists st'. split; [done|].
  destruct (chunk_in_keeps st st' c K) as [Hin Hb]; [by exists id'| |].
  { intros i Ei. rewrite Em in Ei. simplify_eq. rewrite R. pose proof (delta_nonneg i 1 i). lia. }
  split; try done. intros j. rewrite R. unfold chunk_refs. by rewrite Em.
Qed.

(** ** Volumes *)

Section volume.
Context (do_volume : pa_sample_spec -> pa_cvolume -> list cell -> list cell).
Context (Hlen : forall spec v l, length (do_volume spec v l) = length l).

(** The routine works on the data of the block in place. *)
Lemma volume_in_place st c id b spec v : store_ok st -> spec_ok spec -> mc_memblock c = Some id -> chunk_in st c ->
  st_blocks st !! id = Some b -> mc_length c mod frame_size spec = 0 -> silent st id = false ->
  pa_cvolume_is_norm v = false -> pa_cvolume_is_muted v = false ->
  exists d, splice (mc_index c) (do_volume spec v (chunk_bytes st c)) (mb_data b) = Some d /\
    pa_volume_memchunk do_volume c spec v st = Ok (set_block id (with_data d b) st).
Proof.
  intros [Hwf Hq] Hs Em Hc Hb Hm Hsil Hn Hmu. pose proof (chunk_in_length _ _ Hc) as Hl.
  destruct Hc as (id' & E' & Hr & Hi & Hl0 & Hbd). rewrite Em in E'. simplify_eq.
  unfold bytes in Hbd. rewrite Hb in Hbd. simpl in Hbd.
  assert (chunk_bytes st c = sub_list (mc_index c) (mc_length c) (mb_data b)) as Ec.
  { unfold chunk_bytes. rewrite Em. unfold bytes. by rewrite Hb. }
  destruct (splice_some (mc_index c) (do_volume spec v (chunk_bytes st c)) (mb_data b)) as [d Hd];
    [done|rewrite Hlen, Hl; lia|]. exists d. split; [done|].
  unfold pa_volume_memchunk. rewrite (spec_valid _ Hs). simpl. rewrite (pa_frame_aligned_ok _ Hs). simpl.
  rewrite (proj2 (Z.eqb_eq _ _) Hm). simpl. rewrite Em. simpl.
  rewrite is_silence_ok by done. simpl. rewrite Hsil, Hn, Hmu.
  rewrite (acquire_rest st id' b) by done. simpl. rewrite read_data_ok by lia. simpl. rewrite <- Ec.
  rewrite (write_busy st id' b Hb _ _ _ d Hd). simpl.
  destruct (write_ok st id' b Hwf Hb _ _ d (conj Hwf Hq) Hd) as [[Hwf' Hq'] _].
  apply (release_rest _ _ (with_data d b)); try done. simpl. by rewrite lookup_insert_eq.
Qed.

End volume.

(** [op] replaces the bytes of a chunk that is not marked as silence by [f] of
    them, in place. *)
Definition in_place (spec : pa_sample_spec) (f : list cell -> list cell) (op : pa_memchunk -> store -> outcome store) : Prop :=
  forall st c id b, store_ok st -> mc_memblock c = Some id -> chunk_in st c -> st_blocks st !! id = Some b ->
    mc_length c mod frame_size spec = 0 -> silent st id = false ->
    exists d, splice (mc_index c) (f (chunk_bytes st c)) (mb_data b) = Some d /\ op c st = Ok (set_block id (with_data d b) st).

(** On a chunk somebody else refers to as well: it is copied first. *)
Lemma copy_produced f op st c id spec : in_place spec f op -> (forall l, length (f l) = length l) ->
  store_ok st -> mc_memblock c = Some id -> chunk_in st c ->
  1 < refs st id -> mc_length c mod frame_size spec = 0 -> msum mb_length (st_blocks st) + mc_length c < 2 ^ 31 ->
  exists c' st1 st', pa_memchunk_make_writable c 0 st = Ok (c', st1) /\ op c' st1 = Ok st' /\
    store_ok st' /\ keeps st st' /\ chunk_in st' c' /\ mc_length c' = mc_length c /\
    chunk_bytes st' c' = f (chunk_bytes st c) /\
    forall j, refs st' j = refs st j - chunk_refs c j + chunk_refs c' j.
Proof.
  intros Hop Hlen Hok Em Hc Hr2 Hm Hsum. pose proof (chunk_in_length _ _ Hc) as Hl.
  pose proof Hc as (id0 & E0 & Hr & Hi & Hl0 & Hbd). rewrite Em in E0. injection E0 as <-.
  destruct (pa_memchunk_make_writable_spec st c id 0) as
    (c' & st1 & n & E1 & Hok1 & En & El & Hi1 & Eb & Hcap & Hone & Hnew & R1 & _ & K1 & Hsil); try done; [lia|].
  assert (n <> id) as Hne.
  { intros ->. specialize (R1 id). rewrite Hone in R1. unfold delta in R1. rewrite !decide_True in R1 by done. lia. }
  destruct Hnew as [|Hnew]; [done|]. destruct Hsil as [|Hsil]; [done|].
  assert (exists b, st_blocks st1 !! n = Some b) as [b Hb] by (apply refs_alive; [apply Hok1|lia]).
  assert (chunk_in st1 c') as Hc1 by (exists n; split_and!; done || lia).
  destruct (Hop st1 c' n b) as (d & Hd & E2); try done; [by rewrite El|].
  destruct (write_ok st1 n b (proj1 Hok1) Hb _ _ d Hok1 Hd) as [Hok2 R2].
  exists c', st1, (set_block n (with_data d b) st1). split_and!; try done.
  - by apply (keeps_new_block st st1 n b); [apply Hok|..].
  - exists n. rewrite R2, bytes_set_block, decide_True by done. simpl. rewrite (splice_length _ _ _ _ Hd).
    split_and!; try done; try lia. unfold bytes in Hcap. rewrite Hb in Hcap. simpl in Hcap. lia.
  - unfold chunk_bytes at 1. rewrite En, bytes_set_block, decide_True by done. simpl.
    pose proof (splice_prefix _ (mc_index c') _ _ _ Hd ltac:(lia)) as Hp. rewrite Z.sub_diag, Hlen, Eb, Hl in Hp.
    replace (0 + Z.of_nat (Z.to_nat (mc_length c))) with (mc_length c') in Hp by lia. rewrite Hp. done.
  - intros j. rewrite R2, R1. unfold chunk_refs. rewrite Em, En. change (-1) with (- (1)). rewrite delta_opp. lia.
Qed.

Lemma volume_produced do_volume st c id spec v : (forall spec v l, length (do_volume spec v l) = length l) ->
  store_ok st -> spec_ok spec -> mc_memblock c = Some id -> chunk_in st c ->
  1 < refs st id -> mc_length c mod frame_size spec = 0 -> msum mb_length (st_blocks st) + mc_length c < 2 ^ 31 ->
  pa_cvolume_is_norm v = false -> pa_cvolume_is_muted v = false ->
  exists c' st1 st', pa_memchunk_make_writable c 0 st = Ok (c', st1) /\ pa_volume_memchunk do_volume c' spec v st1 = Ok st' /\
    store_ok st' /\ keeps st st' /\ chunk_in st' c' /\ mc_length c' = mc_length c /\
    chunk_bytes st' c' = do_volume spec v (chunk_bytes st c) /\
    forall j, refs st' j = refs st j - chunk_refs c j + chunk_refs c' j.
Proof.
  intros Hlen Hok Hs Em Hc Hr2 Hm Hsum Hn Hmu.
  apply (copy_produced (do_volume spec v) (fun c st => pa_volume_memchunk do_volume c spec v st) st c id spec); try done.
  intros st1 c1 n b ? ? ? ? ? ?. by apply (volume_in_place do_volume Hlen).
Qed.

(** ** Mixing *)

(** What is heard of an entry: its volume and the first [len] bytes. *)
Definition voice (st : store) (len : Z) (m : pa_mix_info) : pa_cvolume * list cell :=
  (mi_volume m, chunk_bytes st (cut (mi_chunk m) len)).

(** Entries with at least [len] bytes each. *)
Definition entries_in (st : store) (len : Z) (infos : list pa_mix_info) : Prop :=
  Forall (fun m => chunk_in st (mi_chunk m) /\ len <= mc_length (mi_chunk m)) infos.

Lemma chunk_block st c : store_ok st -> chunk_in st c -> exists id b, mc_memblock c = Some id /\ st_blocks st !! id = Some b /\
  0 <= mc_index c /\ mc_index c + mc_length c <= Z.of_nat (length (mb_data b)).
Proof.
  intros [Hwf _] (id & Em & Hr & Hi & _ & Hbd). apply refs_alive in Hr as [b Hb]; [|done]. exists id, b.
  unfold bytes in Hbd. by rewrite Hb in Hbd.
Qed.

Lemma acquire_streams_busy st len infos : store_ok st -> 0 <= len -> entries_in st len infos -> forall f,
  acquire_streams len infos (busy f st) = Ok (voice st len <$> infos, busy (fun j => f j + infos_refs infos j) st).
Proof.
  intros Hok Hl. induction 1 as [|m infos [Hc Hm] _ IH]; intros f; simpl.
  { do 2 f_equal. apply busy_ext. intros j. unfold infos_refs, sumZ. simpl. lia. }
  destruct (chunk_block _ _ Hok Hc) as (id & b & Em & Hb & Hi & Hbd).
  rewrite (pa_assert_true (len <=? _)) by blia. simpl. rewrite Em. simpl.
  rewrite (acquire_busy st id b (proj1 Hok) Hb). simpl. rewrite read_data_ok by lia. simpl. rewrite IH. simpl.
  do 2 f_equal.
  - f_equal. unfold voice, chunk_bytes, cut. simpl. rewrite Em. unfold bytes. by rewrite Hb.
  - apply busy_ext. intros j. rewrite infos_refs_cons. unfold chunk_refs. rewrite Em. lia.
Qed.

Lemma release_streams_busy st len infos : store_ok st -> entries_in st len infos -> forall f, (forall j, 0 <= f j) ->
  release_streams infos (busy (fun j => f j + infos_refs infos j) st) = Ok (busy f st).
Proof.
  intros Hok. induction 1 as [|m infos [Hc _] _ IH]; intros f Hf; simpl.
  { f_equal. apply busy_ext. intros j. unfold infos_refs, sumZ. simpl. lia. }
  destruct (chunk_block _ _ Hok Hc) as (id & b & Em & Hb & _). rewrite Em. simpl.
  assert (forall j, chunk_refs (mi_chunk m) j = delta id 1 j) as Hcr by (intros j; unfold chunk_refs; by rewrite Em).
  rewrite (release_busy st id b (proj1 Hok) Hb).
  - simpl. rewrite <- (IH f Hf). f_equal. apply busy_ext. intros j. rewrite infos_refs_cons, Hcr. lia.
  - rewrite (proj2 Hok _ _ Hb). lia.
  - rewrite infos_refs_cons, Hcr. unfold delta. rewrite decide_True by done. specialize (Hf id).
    pose proof (infos_refs_nonneg infos id). lia.
Qed.

Lemma entries_keeps st st' len infos : keeps st st' -> entries_in st len infos -> 0 < len ->
  (forall j, infos_refs infos j <= refs st' j) ->
  entries_in st' len infos /\ voice st' len <$> infos = voice st len <$> infos.
Proof.
  intros K H Hl. induction H as [|m infos [Hc Hm] _ IH]; intros Hr; [by split; [constructor|]|].
  assert (forall id, mc_memblock (mi_chunk m) = Some id -> 0 < refs st' id) as Hal.
  { intros id Em. specialize (Hr id). rewrite infos_refs_cons, (chunk_refs_some _ _ Em) in Hr.
    pose proof (infos_refs_nonneg infos id). lia. }
  destruct IH as [IH1 IH2].
  { intros j. specialize (Hr j). rewrite infos_refs_cons in Hr. pose proof (chunk_refs_nonneg (mi_chunk m) j). lia. }
  destruct (chunk_in_keeps st st' (mi_chunk m) K Hc Hal) as [Hc' _].
  destruct (chunk_in_keeps st st' (cut (mi_chunk m) len) K) as [_ Eb]; [by apply cut_in|done|].
  split; [by constructor|]. rewrite !fmap_cons. f_equal; [|done]. unfold voice. by rewrite Eb.
Qed.

(** Silence in the format of [spec]. *)
Definition silence_of (spec : pa_sample_spec) (len : Z) : list cell :=
  match silence_byte (ss_format spec) with Ok v => replicate (Z.to_nat len) (Some v) | _ => [] end.

Lemma silence_byte_ok spec : spec_ok spec -> exists v, silence_byte (ss_format spec) = Ok v.
Proof.
  intros (_ & _ & Hf)%spec_ok_inv. assert (ss_format spec ∈ seqZ 0 13) as Hin by (apply elem_of_seqZ; lia).
  repeat (apply elem_of_cons in Hin as [->|Hin]; [by eexists|]). by apply elem_of_nil in Hin.
Qed.

Lemma silence_memory_ok spec len : spec_ok spec -> 0 < len ->
  exists s, pa_silence_memory len spec = Ok s /\ Some <$> s = silence_of spec len /\ length s = Z.to_nat len.
Proof.
  intros Hs Hl. destruct (silence_byte_ok spec Hs) as [v Ev]. unfold pa_silence_memory, silence_of. rewrite pa_assert_true by blia.
  simpl. rewrite Ev. simpl. eexists. split; [done|]. by rewrite fmap_replicate, length_replicate.
Qed.

Lemma silence_take spec len n : 0 <= n <= len -> take (Z.to_nat n) (silence_of spec len) = silence_of spec n.
Proof.
  intros Hn. unfold silence_of. destruct (silence_byte _); [|by rewrite take_nil..]. rewrite take_replicate. f_equal. lia.
Qed.

(** [pa_silence_memchunk] *)
Lemma silence_in_place spec : spec_ok spec ->
  in_place spec (fun l => silence_of spec (Z.of_nat (length l))) (fun c st => pa_silence_memchunk c spec st).
Proof.
  intros Hs st c id b [Hwf Hq] Em Hc Hb _ _. pose proof (chunk_in_length _ _ Hc) as Hl.
  destruct Hc as (id' & E' & Hr & Hi & Hl0 & Hbd). rewrite Em in E'. simplify_eq.
  unfold bytes in Hbd. rewrite Hb in Hbd. simpl in Hbd. rewrite Hl, Z2Nat.id by lia.
  destruct (silence_memory_ok spec (mc_length c) Hs Hl0) as (s & Es & Es' & El). rewrite <- Es'.
  destruct (splice_some (mc_index c) (Some <$> s) (mb_data b)) as [d Hd]; [done|rewrite length_fmap, El; lia|].
  exists d. split; [done|]. unfold pa_silence_memchunk. rewrite Em. simpl. rewrite (acquire_rest st id' b) by done. simpl.
  rewrite Es. simpl. rewrite (write_busy st id' b Hb _ _ _ d Hd). simpl.
  destruct (write_ok st id' b Hwf Hb _ _ d (conj Hwf Hq) Hd) as [[Hwf' Hq'] _].
  apply (release_rest _ _ (with_data d b)); try done. simpl. by rewrite lookup_insert_eq.
Qed.

Section mix.
Context (do_mix : pa_sample_spec -> pa_cvolume -> list (pa_cvolume * list cell) -> Z -> list cell).
Context (Hmix : forall spec v l len, 0 <= len -> length (do_mix spec v l len) = Z.to_nat len).

(** [pa_mix] writes one block, whatever the streams share. *)
Lemma mix_spec st id b infos len spec v mute : store_ok st -> spec_ok spec -> st_blocks st !! id = Some b ->
  Z.of_nat (length (mb_data b)) = len -> 0 < len -> (1 < length infos)%nat -> entries_in st len infos ->
  (forall m, m ∈ infos -> mc_memblock (mi_chunk m) <> Some id) ->
  let d := if mute || pa_cvolume_is_muted v then silence_of spec len else do_mix spec v (voice st len <$> infos) len in
  pa_mix do_mix infos id 0 len spec v mute (busy (delta id 1) st) = Ok (len, busy (delta id 1) (set_block id (with_data d b) st)) /\
  length d = length (mb_data b).
Proof.
  intros Hok Hs Hb Eb Hl Hn Hin Hne d. destruct (silence_memory_ok spec len Hs Hl) as (s & Es & Es' & El).
  assert (length d = length (mb_data b)) as Ed.
  { unfold d. case_match; [|rewrite Hmix; lia]. rewrite <- Es', length_fmap, El. lia. }
  split; [|done]. assert (splice 0 d (mb_data b) = Some d) as Hd.
  { unfold splice. rewrite Ed. rewrite (proj2 (andb_true_iff _ _)) by blia. simpl. rewrite drop_ge by lia. by rewrite app_nil_r. }
  unfold pa_mix. rewrite (proj2 (Z.eqb_neq len 0)) by lia. simpl. rewrite pa_assert_true by blia. simpl.
  unfold d in *. clear d. destruct (mute || pa_cvolume_is_muted v).
  - rewrite Es. simpl. rewrite Es', (write_busy st id b Hb _ _ _ _ Hd). done.
  - rewrite acquire_streams_busy by (done || lia). simpl. rewrite (write_busy st id b Hb _ _ _ _ Hd). simpl.
    destruct (write_ok st id b (proj1 Hok) Hb _ _ _ Hok Hd) as [Hok' R'].
    rewrite (release_streams_busy _ len infos); [done|done| |intros j; by apply delta_nonneg].
    eapply Forall_impl; [apply Forall_and; split; [exact Hin|apply Forall_forall; exact Hne]|].
    intros m [[(i & Em & Hr & Hi & Hml & Hbd) ?] Hmi]. split; [|done]. exists i. rewrite R', bytes_set_block, decide_False by congruence.
    by split_and!.
Qed.
End mix.

(** ** Silence *)

Lemma ref_msum st id st' : pa_memblock_ref id st = Ok st' -> msum mb_length (st_blocks st') = msum mb_length (st_blocks st).
Proof.
  unfold pa_memblock_ref, get_block. destruct (st_blocks st !! id) as [b|] eqn:Hb; [|done]. simpl.
  destruct (pa_assert _); [|done..]. simpl. intros [= <-]. simpl. rewrite (msum_insert_old _ _ _ b) by done. simpl. lia.
Qed.

(** The block of silence that is kept for the format. *)
Definition cached_silence (cache : gmap Z Z) (spec : pa_sample_spec) (st : store) : Prop :=
  exists b, cache !! ss_format spec = Some b /\ 0 < refs st b /\ frame_size spec <= Z.of_nat (length (bytes st b)) /\
    bytes st b = silence_of spec (Z.of_nat (length (bytes st b))).

Definition cache_refs (cache : gmap Z Z) (spec : pa_sample_spec) (j : Z) : Z :=
  from_option (fun b => delta b 1 j) 0 (cache !! ss_format spec).

Lemma cached_keeps cache spec st st' : cached_silence cache spec st -> keeps st st' ->
  (forall j, cache_refs cache spec j <= refs st' j) -> cached_silence cache spec st'.
Proof.
  intros (b & Ec & Hr & Hl & Hb) K Hr'. specialize (Hr' b). unfold cache_refs in Hr'. rewrite Ec in Hr'. simpl in Hr'.
  unfold delta in Hr'. rewrite decide_True in Hr' by done. exists b.
  rewrite (keeps_bytes _ _ K) by lia. split_and!; done || lia.
Qed.

(** A silent chunk of at most the length asked for. *)
Lemma silence_get_produced page_size cache spec len st : store_ok st -> spec_ok spec -> cached_silence cache spec st ->
  0 < len -> len mod frame_size spec = 0 ->
  exists c st', pa_silence_memchunk_get page_size cache spec len st = Ok (c, cache, st') /\
    produced st (silence_of spec (mc_length c)) c st' /\ 0 < mc_length c <= len /\ mc_length c mod frame_size spec = 0.
Proof.
  intros Hok Hs (b & Ec & Hr & Hl & Hb) Hlen Hm. pose proof (frame_size_bound _ Hs) as Hf.
  destruct (pa_memblock_ref_spec st b Hok Hr) as (st' & E & Hok' & K & R).
  assert (0 < refs st' b) as Hr' by (rewrite R; pose proof (delta_nonneg b 1 b); lia).
  pose proof (keeps_bytes _ _ K b Hr Hr') as Eb. set (n := Z.of_nat (length (bytes st b))) in *.
  destruct (proj1 (refs_alive st' b (proj1 Hok')) Hr') as [bl Hbl].
  assert (mb_length bl = n) as En.
  { rewrite (bwf_len _ _ (wf_block _ (proj1 Hok') _ _ Hbl)). unfold n. rewrite <- Eb. unfold bytes. by rewrite Hbl. }
  pose proof (wf_len_int _ (proj1 Hok') _ _ Hbl) as Hint.
  set (l := Z.min n len / frame_size spec * frame_size spec).
  assert (frame_size spec <= len) as Hfl.
  { pose proof (Z.div_pos len (frame_size spec)). pose proof (Z_div_exact_full_2 len (frame_size spec) ltac:(lia) Hm).
    assert (0 < len / frame_size spec) by nia. nia. }
  assert (0 < l <= Z.min n len) as Hl' by (apply round_down_pos; lia).
  exists (mk_chunk (Some b) 0 l), st'. split_and!; simpl; try lia; [..|apply round_down_mod; lia].
  - unfold pa_silence_memchunk_get. rewrite (spec_valid _ Hs). simpl. rewrite Ec. simpl. rewrite E. simpl.
    unfold pa_memblock_get_length. rewrite (get_block_ok _ (proj1 Hok') _ _ Hbl). simpl. rewrite En.
    replace (if (n <? len) || (len =? 0) then n else len) with (Z.min n len)
      by (rewrite (proj2 (Z.eqb_neq len 0)) by lia; rewrite orb_false_r; destruct (Z.ltb_spec n len); lia).
    by rewrite (pa_frame_align_ok _ Hs) by lia.
  - split; try done.
    + exists b. simpl. rewrite Eb. fold n. split_and!; done || lia.
    + unfold chunk_bytes. simpl. rewrite Eb, Hb. unfold sub_list. rewrite drop_0. apply silence_take. lia.
Qed.

(** ** What is played *)

Section played.
Context (do_volume : pa_sample_spec -> pa_cvolume -> list cell -> list cell).
Context (do_mix : pa_sample_spec -> pa_cvolume -> list (pa_cvolume * list cell) -> Z -> list cell).

(** [len] bytes of the voices, played with the sink's volume. *)
Definition played (spec : pa_sample_spec) (soft : pa_cvolume) (muted : bool) (voices : list (pa_cvolume * list cell)) (len : Z)
    : list cell :=
  match voices with
  | [] => silence_of spec len
  | [(v, bs)] =>
      match pa_sw_cvolume_multiply soft v with
      | Some w => if muted || pa_cvolume_is_muted w then silence_of spec len
                  else if pa_cvolume_is_norm w then bs else do_volume spec w bs
      | None => []
      end
  | _ => if muted || pa_cvolume_is_muted soft then silence_of spec len else do_mix spec soft voices len
  end.
End played.

(** ** The result *)

Section result.
Context {D R M : Type}.
Context (do_volume : pa_sample_spec -> pa_cvolume -> list cell -> list cell).
Context (do_mix : pa_sample_spec -> pa_cvolume -> list (pa_cvolume * list cell) -> Z -> list cell).
Context (page_size : Z).
Context (Hvol : forall spec v l, length (do_volume spec v l) = length l).
Context (Hmix : forall spec v l len, 0 <= len -> length (do_mix spec v l len) = Z.to_nat len).
Context (s : pa_sink D R M).

Abbreviation spec := (sk_sample_spec (snk_info s)).

(** The references of the sink itself. *)
Definition sink_refs (j : Z) : Z := chunk_refs (snk_silence s) j + cache_refs (snk_silence_cache s) spec j.

(** What the sink has for playing: its silence, the cached one and a volume. *)
Record sink_owns (st : store) : Prop := {
  sw_spec : spec_ok spec;
  sw_silence : chunk_in st (snk_silence s) /\ mc_length (snk_silence s) mod frame_size spec = 0 /\
    chunk_bytes st (snk_silence s) = silence_of spec (mc_length (snk_silence s));
  sw_cache : cached_silence (snk_silence_cache s) spec st;
  sw_volume : pa_cvolume_valid (snk_soft_volume s) = true
}.

Lemma sink_refs_le j st : (forall j, sink_refs j <= refs st j) ->
  chunk_refs (snk_silence s) j <= refs st j /\ cache_refs (snk_silence_cache s) spec j <= refs st j /\ 0 <= sink_refs j.
Proof.
  intros H. specialize (H j). unfold sink_refs in *. pose proof (chunk_refs_nonneg (snk_silence s) j).
  assert (0 <= cache_refs (snk_silence_cache s) spec j); [|lia].
  unfold cache_refs. destruct (snk_silence_cache s !! _); simpl; [by apply delta_nonneg|lia].
Qed.

Lemma sink_owns_keeps st st' : sink_owns st -> keeps st st' -> (forall j, sink_refs j <= refs st' j) -> sink_owns st'.
Proof.
  intros [H1 (H2 & H3 & H4) H5 H6] K Hr. destruct (chunk_in_keeps st st' (snk_silence s) K H2) as [Hin Hb].
  { intros id E. pose proof (sink_refs_le id _ Hr) as [Hle _]. rewrite (chunk_refs_some _ _ E) in Hle. lia. }
  split; try done; [by rewrite Hb|]. apply (cached_keeps _ _ st); try done. intros j. apply (sink_refs_le j _ Hr).
Qed.

(** [c] plays the entries, or less of them. *)
Definition plays (st : store) (infos : list pa_mix_info) (len : Z) (c : pa_memchunk) (st' : store) : Prop :=
  0 < mc_length c <= len /\ mc_length c mod frame_size spec = 0 /\
  produced st (played do_volume do_mix spec (snk_soft_volume s) (snk_soft_muted s) (voice st (mc_length c) <$> infos) (mc_length c)) c st'.

Context (st : store) (len : Z).
Context (Hok : store_ok st) (Hs : sink_owns st) (Hlen : 0 < len) (Hm : len mod frame_size spec = 0).

Lemma render_none_spec : exists c st', render_result do_volume do_mix page_size s [] len st = Ok (c, (s, st')) /\ plays st [] len c st'.
Proof.
  destruct Hs as [H1 (H2 & H3 & H4) H5 H6]. pose proof H2 as (id & Em & _ & _ & Hl & _).
  assert (0 < Z.min len (mc_length (snk_silence s)) <= mc_length (snk_silence s)) as Hc by lia.
  destruct (ref_produced st (cut (snk_silence s) (Z.min len (mc_length (snk_silence s)))) id) as (st' & E & P);
    [done|by apply cut_in|done|].
  exists (cut (snk_silence s) (Z.min len (mc_length (snk_silence s)))), st'. split.
  - unfold render_result, cut. rewrite Em. simpl. rewrite E. simpl. by rewrite if_min.
  - split_and!; simpl; try lia; [by apply Z.min_case|]. rewrite cut_bytes, H4, silence_take in P by lia. exact P.
Qed.

Lemma render_one_spec m : entries_in st len [m] -> pa_cvolume_valid (mi_volume m) = true ->
  (forall j, sink_refs j <= refs st j) -> msum mb_length (st_blocks st) + len < 2 ^ 31 ->
  exists c st', render_one do_volume page_size s m len st = Ok (c, (s, st')) /\ plays st [m] len c st'.
Proof.
  intros [[Hc Hml] _]%Forall_cons Hv Hr Hsum. destruct Hs as [H1 H2 H5 H6]. pose proof Hc as (id & Em & Hrid & _).
  destruct (ref_produced st (cut (mi_chunk m) len) id) as (st1 & E1 & [P1 P2 P3 P4 P5]); [done|by apply cut_in|done|].
  unfold render_one, plays, played. rewrite Em. simpl. rewrite E1. simpl.
  replace (if len <? mc_length (mi_chunk m) then len else mc_length (mi_chunk m)) with len by (rewrite if_min; lia).
  unfold pa_sw_cvolume_multiply, pointwise. rewrite H6, Hv. simpl. set (w := _ <$> combine _ _).
  assert (mk_chunk (Some id) (mc_index (mi_chunk m)) len = cut (mi_chunk m) len) as Ecut by (unfold cut; by rewrite Em).
  rewrite Ecut. assert (forall j, chunk_refs (cut (mi_chunk m) len) j = delta id 1 j) as Hcr by (intros j; unfold chunk_refs; simpl; by rewrite Em).
  assert (refs st1 id = refs st id + 1) as R1 by (rewrite P5, Hcr; unfold delta; rewrite decide_True by done; lia).
  destruct (snk_soft_muted s || pa_cvolume_is_muted w) eqn:Emu.
  - destruct (pa_memblock_unref_spec st1 id P1) as (st2 & E2 & Hok2 & K2 & _ & R2); [lia|]. rewrite E2. simpl.
    assert (forall j, refs st2 j = refs st j) as R0 by (intros j; rewrite R2, P5, Hcr; unfold delta; case_decide; lia).
    assert (keeps st st2) as K by (apply (keeps_trans st st1); [apply Hok|apply P1|done..]).
    destruct (silence_get_produced page_size (snk_silence_cache s) spec len st2) as (c & st3 & E3 & [Q1 Q2 Q3 Q4 Q5] & Q6 & Q7); try done.
    { apply (cached_keeps _ _ st); try done. intros j. rewrite R0. apply (sink_refs_le j _ Hr). }
    rewrite E3. simpl. exists c, st3. split; [by destruct s|]. split_and!; try done; try lia. split; try done.
    + apply (keeps_trans st st2); [apply Hok|apply Hok2|done..].
    + intros j. by rewrite Q5, R0.
  - apply orb_false_iff in Emu as [_ Emu]. destruct (pa_cvolume_is_norm w) eqn:En; simpl.
    { exists (cut (mi_chunk m) len), st1. split; [done|]. split_and!; simpl; try done; lia. }
    destruct (volume_produced do_volume st1 (cut (mi_chunk m) len) id spec w Hvol) as (c & st2 & st3 & E2 & E3 & Q1 & Q2 & Q3 & Q4 & Q5 & Q6);
      try done; [lia|by rewrite (ref_msum _ _ _ E1)|].
    rewrite E2. simpl. rewrite E3. simpl. exists c, st3. split; [done|]. simpl in Q4. rewrite Q4.
    split_and!; try done; try lia. split; try done.
    + apply (keeps_trans st st1); [apply Hok|apply P1|done..].
    + by rewrite Q5, P4.
    + intros j. rewrite Q6, P5. lia.
Qed.

Lemma render_mixed_spec infos : (1 < length infos)%nat -> entries_in st len infos ->
  (forall j, infos_refs infos j <= refs st j) -> msum mb_length (st_blocks st) + len < 2 ^ 31 ->
  exists c st', render_mixed do_mix s infos len st = Ok (c, (s, st')) /\ plays st infos len c st'.
Proof.
  intros Hn He Hr Hsum. destruct Hs as [H1 _ _ _].
  destruct (pa_memblock_new_spec st len Hok Hlen Hsum) as (id & st1 & E1 & Hok1 & K1 & Eid & R1 & (b & Hb & _ & Ed) & _ & _ & _).
  assert (Z.of_nat (length (mb_data b)) = len) as Elen by (rewrite Ed; apply uninit_length; lia).
  destruct (entries_keeps st st1 len infos K1 He Hlen) as [He1 Ev].
  { intros j. rewrite R1. specialize (Hr j). pose proof (delta_nonneg id 1 j). lia. }
  destruct (mix_spec do_mix Hmix st1 id b infos len spec (snk_soft_volume s) (snk_soft_muted s)) as [E2 Ed2]; try done.
  { intros m Hmi E. destruct (proj1 (Forall_forall _ _) He m Hmi) as [(i & Ei & Hri & _) _]. rewrite E in Ei. simplify_eq.
    pose proof (refs_next st _ (proj1 Hok) Hri). lia. }
  set (d := if _ : bool then _ else _) in *.
  assert (splice 0 d (mb_data b) = Some d) as Hd.
  { unfold splice. rewrite Ed2. rewrite (proj2 (andb_true_iff _ _)) by blia. simpl. rewrite drop_ge by lia. by rewrite app_nil_r. }
  destruct (write_ok st1 id b (proj1 Hok1) Hb _ _ _ Hok1 Hd) as [Hok2 R2].
  set (st2 := set_block id (with_data d b) st1) in *.
  exists (mk_chunk (Some id) 0 len), st2. split.
  - unfold render_mixed. rewrite E1. simpl. rewrite (acquire_rest st1 id b (proj1 Hok1) Hb). simpl. rewrite E2. simpl.
    rewrite (release_rest st2 id (with_data d b) (proj1 Hok2) (proj2 Hok2)); [done|]. simpl. by rewrite lookup_insert_eq.
  - assert (bytes st2 id = d) as Eb by (unfold st2; rewrite bytes_set_block, decide_True by done; done).
    assert (refs st2 id = refs st id + 1) as Rid by (rewrite R2, R1; unfold delta; rewrite decide_True by done; lia).
    pose proof (refs_nonneg st id (proj1 Hok)).
    split_and!; simpl; try done; try lia. split; try done.
    + by apply (keeps_new_block st st1 id b); [apply Hok|done|lia|..].
    + exists id. simpl. rewrite Eb, Ed2. split_and!; done || lia.
    + unfold chunk_bytes. simpl. rewrite Eb. unfold sub_list. rewrite drop_0, take_ge by lia.
      unfold d, played. rewrite <- Ev. destruct infos as [|m [|m' infos]]; simpl in Hn; [lia..|]. done.
    + intros j. by rewrite R2, R1.
Qed.

Lemma render_result_spec infos : entries_in st len infos -> Forall (fun m => pa_cvolume_valid (mi_volume m) = true) infos ->
  (forall j, sink_refs j + infos_refs infos j <= refs st j) -> msum mb_length (st_blocks st) + len < 2 ^ 31 ->
  exists c st', render_result do_volume do_mix page_size s infos len st = Ok (c, (s, st')) /\ plays st infos len c st'.
Proof.
  intros He Hv Hr Hsum.
  assert (forall j, sink_refs j <= refs st j /\ infos_refs infos j <= refs st j) as Hr'.
  { intros j. specialize (Hr j). pose proof (infos_refs_nonneg infos j). assert (0 <= sink_refs j); [|lia].
    unfold sink_refs, cache_refs. pose proof (chunk_refs_nonneg (snk_silence s) j).
    destruct (snk_silence_cache s !! _) as [b|]; simpl; [pose proof (delta_nonneg b 1 j)|]; lia. }
  destruct infos as [|m [|m' infos]].
  - apply render_none_spec.
  - apply Forall_cons in Hv as [Hv _]. apply render_one_spec; try done. intros j. exact (proj1 (Hr' j)).
  - apply render_mixed_spec; try done; [simpl; lia|]. intros j. apply Hr'.
Qed.
End result.
