(* ===== verification/SourceProps.v ===== *)
(** * SourceProps: a source is a monitor a sink can rely on

    [source_monitor]: a linked source whose outputs keep to [OutputOk] keeps to
    [MonitorOk], whatever its volume. *)
From stdpp Require Import base tactics numbers list gmap.
From S2P Require Import Prelude Sample Channelmap Volume Memblock MemblockBusy Mcalign Memblockq MemblockqSpec MemblockqRead MemblockqAttr.
From S2P Require Import MemblockqInv MemblockqAlign MemblockqFrames SinkInput SinkInputProps Sink SinkMix Source SinkDrop SinkRender.

#[local] Arguments pa_memchunk_make_writable : simpl never.
#[local] Arguments pa_silence_memchunk : simpl never.
#[local] Arguments pa_volume_memchunk : simpl never.

Section source_props.
Context {O : Type} (ops : output_ops O).
Context (do_volume : pa_sample_spec -> pa_cvolume -> list cell -> list cell).
Context (base : Z) `{!OutputOk ops base}.

(** ** The outputs *)

Definition outs_hold (l : list (output O)) (j : Z) : Z := sumZ ((fun o => oo_hold (out_state o) j) <$> l).
Definition outs_inv (l : list (output O)) (st : store) : Prop := Forall (fun o => oo_inv (out_state o) st) l.

Lemma outs_hold_cons o l j : outs_hold (o :: l) j = oo_hold (out_state o) j + outs_hold l j.
Proof. done. Qed.

Lemma outs_hold_nonneg l j : 0 <= outs_hold l j.
Proof. induction l as [|o l IH]; [done|]. rewrite outs_hold_cons. pose proof (oo_nonneg (out_state o) j). lia. Qed.

Lemma outs_env l st st' : outs_inv l st -> store_ok st -> store_ok st' -> keeps st st' ->
  (forall j, outs_hold l j <= refs st' j) -> outs_inv l st'.
Proof.
  intros H Hok Hok' K. unfold outs_inv in *. induction H as [|o l Ho _ IH]; intros Hr; constructor.
  - apply (oo_env _ st); try done. intros j. specialize (Hr j). rewrite outs_hold_cons in Hr. pose proof (outs_hold_nonneg l j). lia.
  - apply IH. intros j. specialize (Hr j). rewrite outs_hold_cons in Hr. pose proof (oo_nonneg (out_state o) j). lia.
Qed.

(** From [st] to [st'] the outputs [l] became [l'], and nothing else changed. *)
Record outs_step (l : list (output O)) (st : store) (l' : list (output O)) (st' : store) : Prop := {
  os_store : store_ok st';
  os_keeps : keeps st st';
  os_inv : outs_inv l' st';
  os_refs j : refs st' j - outs_hold l' j = refs st j - outs_hold l j
}.

(** One output did something, then the others. *)
Lemma outs_step_cons o o' l l' st st1 st' : store_ok st -> store_ok st1 -> keeps st st1 -> oo_inv (out_state o') st1 ->
  (forall j, refs st1 j - oo_hold (out_state o') j = refs st j - oo_hold (out_state o) j) ->
  (forall j, outs_hold (o :: l) j <= refs st j) ->
  outs_step l st1 l' st' -> outs_step (o :: l) st (o' :: l') st'.
Proof.
  intros Hok Hok1 K Hi R1 Hr [S1 S2 S3 S4]. split; try done.
  - apply (keeps_trans st st1); [apply Hok|apply Hok1|done..].
  - constructor; [|done]. apply (oo_env _ st1); try done. intros j. specialize (R1 j). specialize (S4 j). specialize (Hr j).
    rewrite outs_hold_cons in Hr. pose proof (outs_hold_nonneg l' j). lia.
  - intros j. rewrite !outs_hold_cons. specialize (R1 j). specialize (S4 j). lia.
Qed.

Lemma rest_env o x' l st st1 (own : Z -> Z) : store_ok st -> store_ok st1 -> keeps st st1 -> outs_inv l st ->
  (forall j, 0 <= own j) ->
  (forall j, refs st1 j - oo_hold x' j = refs st j - oo_hold (out_state o) j) ->
  (forall j, outs_hold (o :: l) j + own j <= refs st j) ->
  outs_inv l st1 /\ forall j, outs_hold l j + own j <= refs st1 j.
Proof.
  intros Hok Hok1 K Hl Ho R1 Hr.
  assert (forall j, outs_hold l j + own j <= refs st1 j) as Hr1.
  { intros j. specialize (R1 j). specialize (Hr j). rewrite outs_hold_cons in Hr. pose proof (oo_nonneg x' j). lia. }
  split; [|done]. apply (outs_env l st); try done. intros j. specialize (Hr1 j). specialize (Ho j). lia.
Qed.

(** Every output that does not listen to one stream alone is given the chunk. *)
Lemma post_loop_spec c l st : store_ok st -> chunk_in st c -> mc_length c mod base = 0 -> outs_inv l st ->
  (forall j, outs_hold l j + chunk_refs c j <= refs st j) ->
  exists l' st', post_loop ops c l st = Ok (l', st') /\ outs_step l st l' st'.
Proof.
  intros Hok Hc Hm. revert st Hok Hc. induction l as [|o l IH]; intros st Hok Hc Hi Hr.
  { exists [], st. split; [done|]. split; [done|apply keeps_refl|constructor|done]. }
  apply Forall_cons in Hi as [Ho Hl].
  assert (forall j, oo_hold (out_state o) j + chunk_refs c j <= refs st j) as Hro.
  { intros j. specialize (Hr j). rewrite outs_hold_cons in Hr. pose proof (outs_hold_nonneg l j). lia. }
  assert (exists o' st1, (if negb (out_direct_on_input o) then '(x, st) ← out_push ops (out_state o) c st; Ok (set_out x o, st)
      else Ok (o, st)) = Ok (o', st1) /\ store_ok st1 /\ keeps st st1 /\ oo_inv (out_state o') st1 /\
      forall j, refs st1 j - oo_hold (out_state o') j = refs st j - oo_hold (out_state o) j)
    as (o' & st1 & E & Hok1 & K1 & Hi1 & R1).
  { destruct (negb _).
    - destruct (oo_push (out_state o) c st Ho Hok Hc Hm Hro) as (x & st1 & E & ?). rewrite E. by exists (set_out x o), st1.
    - exists o, st. by pose proof (keeps_refl st). }
  destruct (rest_env o (out_state o') l st st1 (chunk_refs c)) as [Hl1 Hr1]; try done; [intros j; apply chunk_refs_nonneg|].
  destruct (chunk_in_keeps st st1 c K1 Hc) as [Hc1 _].
  { intros id Em. specialize (Hr1 id). rewrite (chunk_refs_some _ _ Em) in Hr1. pose proof (outs_hold_nonneg l id). lia. }
  destruct (IH st1 Hok1 Hc1 Hl1 Hr1) as (l' & st' & E2 & S). simpl. rewrite E. simpl. rewrite E2. simpl.
  exists (o' :: l'), st'. split; [done|]. apply (outs_step_cons o o' l l' st st1 st'); try done.
  intros j. specialize (Hr j). pose proof (chunk_refs_nonneg c j). lia.
Qed.

Lemma rewind_outputs_spec n l st : 0 < n -> n mod base = 0 -> store_ok st -> outs_inv l st ->
  (forall j, outs_hold l j <= refs st j) ->
  exists l' st', rewind_outputs ops n l st = Ok (l', st') /\ outs_step l st l' st'.
Proof.
  intros Hn Hm. revert st. induction l as [|o l IH]; intros st Hok Hi Hr.
  { exists [], st. split; [done|]. split; [done|apply keeps_refl|constructor|done]. }
  apply Forall_cons in Hi as [Ho Hl].
  destruct (oo_rewind (out_state o) n st Ho Hok Hn Hm) as (x & st1 & E & Hok1 & K1 & Hi1 & R1).
  { intros j. specialize (Hr j). rewrite outs_hold_cons in Hr. pose proof (outs_hold_nonneg l j). lia. }
  destruct (rest_env o x l st st1 (fun _ => 0)) as [Hl1 Hr1]; try done.
  { intros j. specialize (Hr j). lia. }
  destruct (IH st1 Hok1 Hl1) as (l' & st' & E2 & S). { intros j. specialize (Hr1 j). lia. }
  simpl. rewrite E. simpl. rewrite E2. simpl. exists (set_out x o :: l'), st'. split; [done|].
  by apply (outs_step_cons o (set_out x o) l l' st st1 st').
Qed.

(** ** The volume of the source *)

(** The bytes the outputs are given for the bytes [bs]. *)
Definition source_bytes (s : pa_source O) (bs : list cell) : list cell :=
  if sr_soft_muted s || pa_cvolume_is_muted (sr_soft_volume s) then silence_of (sr_sample_spec s) (Z.of_nat (length bs))
  else if pa_cvolume_is_norm (sr_soft_volume s) then bs
  else do_volume (sr_sample_spec s) (sr_soft_volume s) bs.

Definition source_room (s : pa_source O) (len : Z) (st : store) : Prop :=
  needs_volume s = true -> msum mb_length (st_blocks st) + len < 2 ^ 31.

Context (Hlen : forall spec v l, length (do_volume spec v l) = length l).

Lemma with_volume_spec s c st : store_ok st -> spec_ok (sr_sample_spec s) -> chunk_in st c ->
  mc_length c mod frame_size (sr_sample_spec s) = 0 -> needs_volume s = true -> source_room s (mc_length c) st ->
  exists v st', with_volume do_volume s c st = Ok (v, st') /\ produced st (source_bytes s (chunk_bytes st c)) v st' /\
    mc_length v = mc_length c.
Proof.
  intros Hok Hs Hc Hm Hv Hroom. specialize (Hroom Hv). pose proof Hc as (id & Em & Hrid & _).
  destruct (ref_produced st c id Hok Hc Em) as (st1 & E1 & [P1 P2 P3 P4 P5]).
  assert (1 < refs st1 id) as Hr1 by (rewrite P5, (chunk_refs_some _ _ Em); lia).
  rewrite <- (ref_msum _ _ _ E1) in Hroom.
  set (muted := sr_soft_muted s || pa_cvolume_is_muted (sr_soft_volume s)).
  set (op := fun c st => if muted then pa_silence_memchunk c (sr_sample_spec s) st
     else pa_volume_memchunk do_volume c (sr_sample_spec s) (sr_soft_volume s) st).
  destruct (copy_produced (source_bytes s) op st1 c id (sr_sample_spec s))
    as (v & st2 & st3 & E2 & E3 & Q1 & Q2 & Q3 & Q4 & Q5 & Q6); try done.
  - unfold in_place, source_bytes, op. fold muted. destruct muted eqn:Emu; [by apply silence_in_place|].
    subst muted. apply orb_false_iff in Emu as [Em1 Em2]. unfold needs_volume in Hv. rewrite Em1 in Hv. simpl in Hv.
    apply negb_true_iff in Hv. rewrite Hv. intros. by apply (volume_in_place do_volume Hlen).
  - intros l. unfold source_bytes. repeat case_match; try done.
    unfold silence_of. destruct (silence_byte_ok _ Hs) as [b ->]. rewrite length_replicate. lia.
  - unfold with_volume. rewrite Em. simpl. rewrite E1. simpl. rewrite E2. simpl. fold muted. unfold op in E3. rewrite E3. simpl.
    exists v, st3. split; [done|]. split; [|done]. split; try done.
    + apply (keeps_trans st st1); [apply Hok|apply P1|done..].
    + by rewrite Q5, P4.
    + intros j. rewrite Q6, P5. lia.
Qed.

(** ** The monitor *)

Record source_inv (s : pa_source O) (st : store) : Prop := {
  sv_linked : PA_SOURCE_IS_LINKED (sr_state s) = true;
  sv_spec : spec_ok (sr_sample_spec s) /\ base = frame_size (sr_sample_spec s);
  sv_outputs : outs_inv (sr_outputs s) st
}.

Lemma source_post_spec s c st : source_inv s st -> store_ok st -> chunk_in st c -> mc_length c mod base = 0 ->
  source_room s (mc_length c) st -> (forall j, outs_hold (sr_outputs s) j + chunk_refs c j <= refs st j) ->
  exists s' st', pa_source_post ops do_volume s c st = Ok (s', st') /\ store_ok st' /\ keeps st st' /\ source_inv s' st' /\
    forall j, refs st' j - outs_hold (sr_outputs s') j = refs st j - outs_hold (sr_outputs s) j.
Proof.
  intros [V1 [V2 V2'] V3] Hok Hc Hm Hroom Hr. unfold pa_source_post. rewrite V1. simpl.
  case_bool_decide as Esu. { exists s, st. by split_and!. }
  destruct (needs_volume s) eqn:Ev.
  - destruct (with_volume_spec s c st) as (v & st1 & E1 & [P1 P2 P3 P4 P5] & El); try done; [by rewrite <- V2'|].
    rewrite E1. simpl. destruct (post_loop_spec v (sr_outputs s) st1) as (l' & st2 & E2 & [S1 S2 S3 S4]); try done.
    + by rewrite El.
    + apply (outs_env _ st); try done. intros j. specialize (Hr j). rewrite P5. pose proof (chunk_refs_nonneg v j). pose proof (chunk_refs_nonneg c j). lia.
    + intros j. specialize (Hr j). rewrite P5. pose proof (chunk_refs_nonneg c j). lia.
    + rewrite E2. simpl. destruct P3 as (id & Em & _). rewrite Em. simpl.
      assert (forall j, chunk_refs v j = delta id 1 j) as Hd by (intros j; unfold chunk_refs; by rewrite Em).
      assert (forall j, outs_hold l' j + delta id 1 j <= refs st2 j) as Hr2.
      { intros j. specialize (S4 j). specialize (Hr j). rewrite P5, Hd in S4. pose proof (chunk_refs_nonneg c j). lia. }
      destruct (pa_memblock_unref_spec st2 id S1) as (st3 & E3 & Hok3 & K3 & _ & R3).
      { specialize (Hr2 id). unfold delta in Hr2. rewrite decide_True in Hr2 by done. pose proof (outs_hold_nonneg l' id). lia. }
      assert (forall j, refs st3 j = refs st2 j - delta id 1 j) as R3' by (intros j; rewrite R3; change (-1) with (- (1)); rewrite delta_opp; lia).
      rewrite E3. simpl. exists (set_outputs l' s), st3. split_and!; try done.
      * apply (keeps_trans st st1); [apply Hok|apply P1|done|]. apply (keeps_trans st1 st2); [apply P1|apply S1|done..].
      * split; [done..|]. simpl. apply (outs_env _ st2); try done. intros j. rewrite R3'. specialize (Hr2 j). lia.
      * intros j. rewrite R3'. specialize (S4 j). rewrite P5, Hd in S4. simpl. lia.
  - destruct (post_loop_spec c (sr_outputs s) st) as (l' & st2 & E2 & [S1 S2 S3 S4]); try done.
    rewrite E2. simpl. exists (set_outputs l' s), st2. by split_and!.
Qed.

Lemma source_rewind_spec s n st : source_inv s st -> store_ok st -> 0 < n -> n mod base = 0 ->
  (forall j, outs_hold (sr_outputs s) j <= refs st j) ->
  exists s' st', pa_source_process_rewind ops s n st = Ok (s', st') /\ store_ok st' /\ keeps st st' /\ source_inv s' st' /\
    forall j, refs st' j - outs_hold (sr_outputs s') j = refs st j - outs_hold (sr_outputs s) j.
Proof.
  intros [V1 V2 V3] Hok Hn Hm Hr. unfold pa_source_process_rewind. rewrite V1. simpl. rewrite (proj2 (Z.leb_gt n 0)) by done.
  case_bool_decide as Esu. { exists s, st. by split_and!. }
  destruct (rewind_outputs_spec n (sr_outputs s) st) as (l' & st2 & E2 & [S1 S2 S3 S4]); try done.
  rewrite E2. simpl. exists (set_outputs l' s), st2. by split_and!.
Qed.

#[export] Instance source_monitor : MonitorOk (monitor_ops ops do_volume) base.
Proof.
  refine {| mo_inv := source_inv; mo_hold s := outs_hold (sr_outputs s); mo_room := source_room |}.
  - intros s j. apply outs_hold_nonneg.
  - intros s st st' [V1 V2 V3] Hok Hok' K Hr. split; try done. by apply (outs_env _ st).
  - exact source_post_spec.
  - exact source_rewind_spec.
Defined.
End source_props.
