(* ===== verification/SinkProps.v ===== *)
(** * SinkProps: the properties of a sink's thread

    A sink whose streams need no conversion plays the data its streams have,
    moves all of them on in step, and gives what it played to its monitor source. *)
From stdpp Require Import base tactics numbers list gmap.
From S2P Require Import Prelude Sample Channelmap Volume Memblock MemblockBusy Mcalign Memblockq MemblockqSpec MemblockqRead MemblockqAttr.
From S2P Require Import MemblockqInv MemblockqAlign MemblockqFrames MemblockqFifo SinkInput SinkInputProps Sink SinkMix Source SinkDrop SinkRender SourceProps.

#[local] Arguments pa_sink_input_peek : simpl never.
#[local] Arguments pa_sink_input_drop : simpl never.
#[local] Arguments mix_loop : simpl never.
#[local] Arguments inputs_drop : simpl never.
#[local] Arguments render_result : simpl never.

(** ** From the answers to the entries *)

(** What is heard of an answer, if anything. *)
Definition heard (len : Z) (a : answer) : option (pa_cvolume * list cell) :=
  if a_audible a then Some (a_volume a, take (Z.to_nat len) (chunk_bytes (a_store a) (a_chunk a))) else None.

Lemma mute_valid n v : pa_cvolume_mute n = Ok v -> pa_cvolume_valid v = true.
Proof.
  unfold pa_cvolume_mute, pa_cvolume_set. destruct (pa_channels_valid n) eqn:Hn; [|done]. simpl. intros [= <-].
  unfold pa_channels_valid, PA_CHANNELS_MAX in Hn. assert (0 < n <= 32) as Hb by blia.
  unfold pa_cvolume_valid, channels, u8. rewrite Z.mod_small, length_replicate by lia. rewrite Z2Nat.id by lia.
  unfold pa_channels_valid, PA_CHANNELS_MAX. rewrite (proj2 (andb_true_iff _ _)) by blia. simpl.
  by induction (Z.to_nat n).
Qed.

Section entries.
Context {D R : Type} (impl : implementor D) (base maxlen : Z) `{!ImplementorOk impl base maxlen}.
Context (info : sink_info) (st st' : store).

Abbreviation all3 := (Forall3 (fun x a x' => answered impl base maxlen info st x a x' st')).

Lemma answered_keys (l : list (input D R)) answers l' : all3 l answers l' -> in_key <$> l' = in_key <$> l.
Proof.
  induction 1 as [|x a x' l answers l' A _ IH]; [done|]. rewrite !fmap_cons, IH. f_equal. apply (an_key _ _ _ _ _ _ _ _ _ A).
Qed.

Lemma entries_live (l' : list (input D R)) answers : live (entries l' answers) `sublist_of` (in_key <$> l').
Proof.
  revert answers. induction l' as [|x l' IH]; intros [|a answers]; simpl; try apply sublist_nil_l.
  destruct (a_audible a); [|by apply sublist_cons]. unfold live. csimpl. by apply sublist_skip.
Qed.

Lemma entries_owned (l : list (input D R)) answers l' : all3 l answers l' ->
  Forall (fun m => is_Some (mi_userdata m) /\ entry_ok m) (entries l' answers).
Proof.
  induction 1 as [|x a x' l answers l' A _ IH]; simpl; [done|]. destruct (a_audible a); [|done]. constructor; [|done].
  destruct (proj1 (an_asked _ _ _ _ _ _ _ _ _ A)) as [id Em]. unfold entry_ok. simpl. rewrite Em. by split; [eexists|].
Qed.

Lemma entries_good (l : list (input D R)) answers l' len : all3 l answers l' -> 0 < len ->
  Forall (fun a => len <= mc_length (a_chunk a)) answers ->
  Forall (fun x => pa_cvolume_valid (i_soft_volume (in_stream x)) = true) l ->
  entries_in st' len (entries l' answers) /\ Forall (fun m => pa_cvolume_valid (mi_volume m) = true) (entries l' answers).
Proof.
  intros H Hl. unfold entries_in. induction H as [|x a x' l answers l' A _ IH]; simpl; intros Ha Hv; [done|].
  apply Forall_cons in Ha as [Ha Hal]. apply Forall_cons in Hv as [Hv Hvl]. destruct (IH Hal Hvl) as [IH1 IH2].
  destruct (a_audible a) eqn:Ea; [|done]. split; constructor; try done.
  - split; [|done]. apply (an_chunk _ _ _ _ _ _ _ _ _ A Ea).
  - simpl. pose proof (an_volume _ _ _ _ _ _ _ _ _ A) as E. destruct (i_muted (in_stream x)); [by apply mute_valid in E|by rewrite E].
Qed.

Lemma entries_heard (l : list (input D R)) answers l' len : all3 l answers l' -> 0 <= len ->
  Forall (fun a => len <= mc_length (a_chunk a)) answers -> voice st' len <$> entries l' answers = omap (heard len) answers.
Proof.
  intros H Hl. induction H as [|x a x' l answers l' A _ IH]; simpl; intros Ha; [done|].
  apply Forall_cons in Ha as [Ha Hal]. unfold heard at 1. destruct (a_audible a) eqn:Ea; [|by apply IH].
  rewrite fmap_cons. f_equal; [|by apply IH]. unfold voice. simpl. rewrite cut_bytes by lia.
  by rewrite (proj2 (an_chunk _ _ _ _ _ _ _ _ _ A Ea)).
Qed.

Lemma answered_droppable (l : list (input D R)) answers l' : all3 l answers l' -> Forall (fun x => droppable impl base maxlen info x st') l'.
Proof.
  induction 1 as [|x a x' l answers l' A _ IH]; constructor; [|done]. destruct A as [A1 A2 A3 A4 A5 A6 _ _ _ _ _ _ _ _ _].
  destruct A3 as [P1 P2 P3 P4 P5 P6]. rewrite A2 in P4. by split.
Qed.
End entries.

(** ** Rendering *)

Section sink_props.
Context {D R M : Type} (impl : implementor D) (rs : resampler_ops R) (src : source_ops M).
Context (do_volume : pa_sample_spec -> pa_cvolume -> list cell -> list cell).
Context (do_mix : pa_sample_spec -> pa_cvolume -> list (pa_cvolume * list cell) -> Z -> list cell).
Context (page_size base maxlen : Z) `{!ImplementorOk impl base maxlen} `{!MonitorOk src base}.

(** What the monitor source, if there is one, needs and holds. *)
Definition mon_inv (mon : option M) (st : store) : Prop := from_option (fun m => mo_inv m st) True mon.
Definition mon_hold (mon : option M) (j : Z) : Z := from_option (fun m => mo_hold m j) 0 mon.
Definition mon_room (mon : option M) (len : Z) (st : store) : Prop := from_option (fun m => mo_room m len st) True mon.

Lemma mon_hold_nonneg mon j : 0 <= mon_hold mon j.
Proof. destruct mon as [m|]; [apply mo_nonneg|done]. Qed.

Lemma mon_env mon st st' : mon_inv mon st -> store_ok st -> store_ok st' -> keeps st st' ->
  (forall j, mon_hold mon j <= refs st' j) -> mon_inv mon st'.
Proof. destruct mon as [m|]; [|done]. apply mo_env. Qed.

(** The volume and the mixing routine write as many bytes as they are told. *)
Definition routines_ok : Prop :=
  (forall spec v l, length (do_volume spec v l) = length l) /\
  (forall spec v l len, 0 <= len -> length (do_mix spec v l len) = Z.to_nat len).

(** A sink that can be asked to play: it is open, no rewind is pending, and it,
    its streams and its monitor source have what they need; nobody listens to one
    of its streams alone. *)
Record sink_ready (fuel : nat) (s : pa_sink D R M) (st : store) : Prop := {
  sy_store : store_ok st;
  sy_state : PA_SINK_IS_OPENED (snk_state s) = true;
  sy_rewind : sk_rewind_requested (snk_info s) = false /\ sk_rewind_nbytes (snk_info s) = 0;
  sy_monitor : mon_inv (snk_monitor s) st /\ undirected (snk_monitor s) (snk_inputs s);
  sy_owns : sink_owns s st;
  sy_base : base = frame_size (sk_sample_spec (snk_info s));
  sy_pool : pool_fits page_size base st;
  sy_count : (length (snk_inputs s) <= MAX_MIX_CHANNELS)%nat;
  sy_keys : NoDup (in_key <$> snk_inputs s);
  sy_inputs : Forall (fun x => input_ready impl page_size base maxlen (snk_info s) fuel x st) (snk_inputs s);
  sy_volumes : Forall (fun x => pa_cvolume_valid (i_soft_volume (in_stream x)) = true) (snk_inputs s);
  sy_refs j : all_owned impl base maxlen (snk_inputs s) j + sink_refs s j + mon_hold (snk_monitor s) j <= refs st j
}.

(** There is memory left for the result when the streams have answered, and for
    what the monitor source needs when they have moved on. *)
Definition room_after (fuel : nat) (s : pa_sink D R M) (length : Z) (st : store) : Prop :=
  forall infos ml s1 st1,
    fill_mix_info impl rs do_volume page_size fuel s (asked page_size base length st) MAX_MIX_CHANNELS st = Ok (infos, ml, (s1, st1)) ->
    msum mb_length (st_blocks st1) + ml < 2 ^ 31 /\
    forall c s2 st2 s3 st3, render_result do_volume do_mix page_size s1 infos ml st1 = Ok (c, (s2, st2)) ->
      inputs_drop src do_volume (set_monitor None s2) infos c st2 = Ok (s3, st3) -> mon_room (snk_monitor s) (mc_length c) st3.

(** What became of the stream [x], which answered [a], when [len] bytes were
    played. *)
Record stepped (info : sink_info) (len : Z) (st : store) (x : input D R) (a : answer) (x' : input D R) (st' : store) : Prop := {
  sp_key : in_key x' = in_key x;
  sp_read : bq_read_index (render x') = bq_read_index (render x) + len;
  sp_content : io_content (in_data x) st = a_data a ++ io_content (in_data x') st';
  sp_volume : if i_muted (in_stream x) then pa_cvolume_mute (ss_channels (sk_sample_spec info)) = Ok (a_volume a)
    else a_volume a = i_soft_volume (in_stream x);
  sp_bytes k : 0 <= k < len ->
    bq_read_index (render x) + k < bq_write_index (render x) + Z.of_nat (length (a_data a)) \/ a_data a = [] ->
    match due (in_stream x) st (a_data a) k with
    | Some b => chunk_bytes (a_store a) (a_chunk a) !! Z.to_nat k = Some b
    | None => mc_memblock (a_chunk a) = mc_memblock (bq_silence (render x))
    end;
  sp_ok : render_ok (render x') st' /\ io_inv (in_data x') st'
}.

Lemma stepped_all info len st st1 st2 st3 (l : list (input D R)) answers l1 l3 :
  Forall3 (fun x a x' => answered impl base maxlen info st x a x' st1) l answers l1 ->
  Forall (fun a => len <= mc_length (a_chunk a)) answers ->
  store_ok st2 -> keeps st1 st2 -> (forall j, all_owned impl base maxlen l1 j <= refs st2 j) ->
  Forall2 (fun x x' => dropped impl base maxlen len st2 x x' st3) l1 l3 ->
  Forall3 (fun x a x' => stepped info len st x a x' st3) l answers l3.
Proof.
  intros H. revert l3. induction H as [|x a x1 l answers l1 A _ IH]; intros l3 Ha Hok2 K Ho H2.
  { apply Forall2_nil_inv_l in H2 as ->. constructor. }
  apply Forall2_cons_inv_l in H2 as (x3 & l3' & B & H2 & ->). apply Forall_cons in Ha as [Ha Hal].
  assert (forall j, x_owned impl base maxlen x1 j <= refs st2 j /\ all_owned impl base maxlen l1 j <= refs st2 j) as Ho'.
  { intros j. specialize (Ho j). rewrite all_owned_cons in Ho. pose proof (all_kept_owned impl base maxlen l1 j).
    pose proof (x_owned_nonneg impl base maxlen x1 j). lia. }
  constructor; [|apply IH; try done; intros j; apply Ho'].
  destruct A as [A1 A2 A3 A4 A5 A6 A7 A8 A9 A10 A11 A12 A13 A14 A15]. destruct B as [B1 B2 B3 B4 B5 B6 B7].
  destruct (stream_env impl base maxlen x1 st1 st2 A5 A6 Hok2 K (fun j => proj1 (Ho' j))) as (_ & _ & _ & Hc).
  split; try done.
  - destruct A1 as [A1 _]. destruct B1 as [B1 _]. by rewrite B1.
  - rewrite (proj1 B5), A8. done.
  - by rewrite B7, Hc.
  - intros k Hk Hw. apply A14; [lia|done].
Qed.

Lemma asked_length s length st : spec_ok (sk_sample_spec (snk_info s)) -> base = frame_size (sk_sample_spec (snk_info s)) ->
  pool_fits page_size base st -> 0 <= length -> length mod base = 0 ->
  ((n ← (if length <=? 0 then pa_frame_align page_size (sk_sample_spec (snk_info s)) else Ok length); limit_length (M:=M) (D:=D) (R:=R) s n st)
    = Ok (asked page_size base length st)) /\
  0 < asked page_size base length st <= block_max base st /\ asked page_size base length st mod base = 0 /\ block_max base st < 2 ^ 31.
Proof.
  intros Hs Hb [Hp Hg] Hl Hm. pose proof (frame_size_bound _ Hs) as Hf. rewrite <- Hb in Hf.
  set (bm := pa_mempool_block_size_max (st_pool st)) in *.
  pose proof (round_down_pos bm base ltac:(lia) ltac:(lia)) as Hbm. pose proof (round_down_pos page_size base ltac:(lia) ltac:(lia)) as Hpg.
  assert (forall n, n mod base = 0 -> 0 < n -> limit_length (M:=M) (D:=D) (R:=R) s n st = Ok (Z.min (block_max base st) n)) as Hlim.
  { intros n Hn Hn0. unfold limit_length, block_max. fold bm. destruct (Z.ltb_spec bm n).
    - rewrite (pa_frame_align_ok _ Hs) by lia. rewrite <- Hb. f_equal. lia.
    - assert (n <= bm / base * base); [|f_equal; lia].
      pose proof (Z_div_exact_full_2 n base ltac:(lia) Hn). pose proof (Z.div_le_mono n bm base ltac:(lia) ltac:(lia)). nia. }
  assert (forall x, x / base * base mod base = 0) as Hrd by (intros x; apply round_down_mod; lia).
  unfold asked, block_max in *. fold bm in Hlim |- *. destruct (Z.leb_spec length 0) as [H0|H0].
  - rewrite (pa_frame_align_ok _ Hs) by lia. rewrite <- Hb. simpl. rewrite Hlim by (apply Hrd || lia).
    split_and!; try done; try lia. by apply Z.min_case.
  - simpl. rewrite Hlim by (done || lia). split_and!; try done; try lia. by apply Z.min_case.
Qed.

Lemma sink_refs_nonneg (s : pa_sink D R M) j : 0 <= sink_refs s j.
Proof.
  unfold sink_refs, cache_refs. pose proof (chunk_refs_nonneg (snk_silence s) j).
  destruct (snk_silence_cache s !! _) as [b|]; simpl; [pose proof (delta_nonneg b 1 j)|]; lia.
Qed.

Lemma sink_owns_inputs (s : pa_sink D R M) l st : sink_owns s st -> sink_owns (set_inputs l s) st.
Proof. by intros [? ? ? ?]. Qed.

(** All streams are asked. *)
Lemma ask_streams fuel s n st : sink_ready fuel s st -> 0 < n -> n mod base = 0 ->
  exists answers infos ml l1 st1,
    fill_mix_info impl rs do_volume page_size fuel s n MAX_MIX_CHANNELS st = Ok (infos, ml, (set_inputs l1 s, st1)) /\
    all_answered impl base maxlen (snk_info s) st (snk_inputs s) n answers infos ml l1 st1 /\
    forall j, all_owned impl base maxlen l1 j + sink_refs s j + mon_hold (snk_monitor s) j + infos_refs infos j <= refs st1 j.
Proof.
  intros [S1 S2 S3 S4 S5 S6 S7 S8 S9 S10 S11 S12] Hn Hnm. unfold fill_mix_info.
  destruct (mix_loop_spec impl rs do_volume page_size base maxlen (snk_info s) n fuel ltac:(lia) Hnm (snk_inputs s) MAX_MIX_CHANNELS n st)
    as (answers & infos & ml & l1 & st1 & E1 & B); try done.
  { intros j. specialize (S12 j). pose proof (sink_refs_nonneg s j). pose proof (mon_hold_nonneg (snk_monitor s) j). lia. }
  exists answers, infos, ml, l1, st1. rewrite E1. simpl. destruct (aa_length _ _ _ _ _ _ _ _ _ _ _ _ B) as [Hml _].
  rewrite (proj2 (Z.ltb_lt 0 ml)) by lia. split_and!; try done. intros j. specialize (S12 j).
  pose proof (aa_refs _ _ _ _ _ _ _ _ _ _ _ _ B j). pose proof (silence_same impl base maxlen _ _ _ _ _ _ j (aa_each _ _ _ _ _ _ _ _ _ _ _ _ B)). lia.
Qed.

(** The chunk is made of the answers. *)
Lemma make_result fuel s n st answers infos ml l1 st1 : routines_ok -> sink_ready fuel s st ->
  all_answered impl base maxlen (snk_info s) st (snk_inputs s) n answers infos ml l1 st1 ->
  (forall j, all_owned impl base maxlen l1 j + sink_refs s j + mon_hold (snk_monitor s) j + infos_refs infos j <= refs st1 j) ->
  msum mb_length (st_blocks st1) + ml < 2 ^ 31 ->
  exists c st2, render_result do_volume do_mix page_size (set_inputs l1 s) infos ml st1 = Ok (c, (set_inputs l1 s, st2)) /\
    0 < mc_length c <= ml /\ mc_length c mod base = 0 /\
    produced st1 (played do_volume do_mix (sk_sample_spec (snk_info s)) (snk_soft_volume s) (snk_soft_muted s)
      (omap (heard (mc_length c)) answers) (mc_length c)) c st2.
Proof.
  intros [Hvol Hmix] [S1 S2 S3 S4 S5 S6 S7 S8 S9 S10 S11 S12] [B1 B2 B3 B4 (B5 & B6 & B7) B8 B9] Hown Hroom.
  destruct (entries_good impl base maxlen (snk_info s) st st1 (snk_inputs s) answers l1 ml) as [G1 G2]; try done; [lia|].
  rewrite <- B4 in G1, G2.
  assert (forall j, sink_refs s j + infos_refs infos j <= refs st1 j) as Hr1.
  { intros j. specialize (Hown j). pose proof (all_kept_owned impl base maxlen l1 j). pose proof (mon_hold_nonneg (snk_monitor s) j). lia. }
  destruct (render_result_spec do_volume do_mix page_size Hvol Hmix (set_inputs l1 s) st1 ml B1) with (infos := infos)
    as (c & st2 & E2 & Hc & Hcm & P); try done; [| lia | simpl; by rewrite <- S6 |].
  { apply sink_owns_inputs, (sink_owns_keeps s st st1); try done. intros j. specialize (Hr1 j). pose proof (infos_refs_nonneg infos j). lia. }
  exists c, st2. simpl in Hcm, P. rewrite <- S6 in Hcm. split_and!; try done; try lia.
  rewrite B4, (entries_heard impl base maxlen (snk_info s) st st1 (snk_inputs s)) in P; try done; [lia|].
  apply (Forall_impl _ _ _ B7). lia.
Qed.

(** The streams move on. *)
Lemma move_on fuel s n st answers infos ml l1 st1 c bs st2 : sink_ready fuel s st -> n < 2 ^ 31 ->
  all_answered impl base maxlen (snk_info s) st (snk_inputs s) n answers infos ml l1 st1 ->
  0 < mc_length c <= ml -> mc_length c mod base = 0 -> produced st1 bs c st2 ->
  exists l3 st3, inputs_drop src do_volume (set_monitor None (set_inputs l1 s)) infos c st2 = Ok (set_monitor None (set_inputs l3 s), st3) /\
    all_dropped impl base maxlen (mc_length c) st2 l1 infos l3 st3 /\
    (forall mon' st4, posted src (snk_monitor s) c st3 mon' st4 ->
       inputs_drop src do_volume (set_inputs l1 s) infos c st2 = Ok (set_monitor mon' (set_inputs l3 s), st4)) /\
    forall st4, store_ok st4 -> keeps st3 st4 -> (forall j, all_owned impl base maxlen l3 j <= refs st4 j) ->
      Forall3 (fun x a x' => stepped (snk_info s) (mc_length c) st x a x' st4) (snk_inputs s) answers l3.
Proof.
  intros [S1 S2 S3 S4 S5 S6 S7 S8 S9 S10 S11 S12] Hn [B1 B2 B3 B4 (B5 & B6 & B7) B8 B9] Hc Hcm [P1 P2 P3 P4 P5].
  assert (Forall (fun m => is_Some (mi_userdata m) /\ entry_ok m) infos) as Hent
    by (rewrite B4; by apply (entries_owned impl base maxlen (snk_info s) st st1 (snk_inputs s))).
  pose proof (answered_keys impl base maxlen _ _ _ _ _ _ B3) as Hkeys.
  assert (live infos `sublist_of` (in_key <$> l1)) as Hlive by (rewrite B4; apply entries_live).
  assert (forall j, all_owned impl base maxlen l1 j + infos_refs infos j <= refs st2 j) as Ho2.
  { intros j. specialize (B9 j). rewrite P5. pose proof (chunk_refs_nonneg c j). lia. }
  assert (forall j, all_owned impl base maxlen l1 j <= refs st2 j) as Ho2'.
  { intros j. specialize (Ho2 j). pose proof (infos_refs_nonneg infos j). lia. }
  destruct (inputs_drop_spec impl src do_volume base maxlen (set_inputs l1 s) infos c st2) as (l3 & st3 & E3 & B & Hpost); try done; simpl.
  - intros Hmon. pose proof (proj2 S4 Hmon) as Hdir. revert Hdir. clear -B3.
    induction B3 as [|x a x' l answers l' A _ IH]; [done|]. intros [Hx Hl]%Forall_cons. constructor; [|by apply IH].
    by rewrite (proj2 (an_key _ _ _ _ _ _ _ _ _ A)).
  - destruct P3 as (id & Em & _). unfold isset. by rewrite Em.
  - lia.
  - apply (droppable_all_env impl base maxlen (snk_info s) l1 st1 st2); try done.
    by apply (answered_droppable impl base maxlen (snk_info s) st st1 (snk_inputs s) answers).
  - by rewrite Hkeys.
  - eapply sublist_NoDup; [|exact Hlive]. by rewrite Hkeys.
  - intros y Hy. by eapply elem_of_sublist.
  - by apply (Forall_impl _ _ _ Hent); intros m [].
  - by apply (Forall_impl _ _ _ Hent); intros m [].
  - exists l3, st3. split_and!; try done. intros st4 Hok4 K4 Hr4%all_owned_each.
    apply (stepped_all (snk_info s) (mc_length c) st st1 st2 st4 (snk_inputs s) answers l1 l3); try done.
    + apply (Forall_impl _ _ _ B7). lia.
    + apply (dropped_all_env impl base maxlen (mc_length c) st2 st3); try done. apply B.
Qed.

(** The monitor source gets what was played. *)
Lemma tell_monitor mon c st : mon_inv mon st -> store_ok st -> chunk_in st c -> mc_length c mod base = 0 ->
  mon_room mon (mc_length c) st -> (forall j, mon_hold mon j + chunk_refs c j <= refs st j) ->
  exists mon' st', posted src mon c st mon' st' /\ store_ok st' /\ keeps st st' /\ mon_inv mon' st' /\
    forall j, refs st' j - mon_hold mon' j = refs st j - mon_hold mon j.
Proof.
  destruct mon as [m|]; simpl; intros Hi Hok Hc Hm Hroom Hr.
  - destruct (mo_post m c st Hi Hok Hc Hm Hroom Hr) as (m' & st' & H). by exists (Some m'), st'.
  - exists None, st. by pose proof (keeps_refl st).
Qed.
End sink_props.

(** C9: a sink plays what its streams have, and keeps them in step.  Asked for
    [length] bytes, a sink that is open and has at most [MAX_MIX_CHANNELS] streams,
    which need no conversion and to none of which somebody listens alone, never
    fails while there is memory: it returns a chunk of whole frames, not empty and
    not longer than asked for or than a block.  Its bytes are silence when no
    stream is heard, those of the only stream heard, with the product of its volume
    and the sink's applied, or what the mixing routine makes of the streams heard;
    [sp_bytes] says which bytes each stream had to give.  Every stream, heard or
    not, is moved on by exactly the length of the chunk, and its implementor has
    lost what it handed over, nothing else.  The monitor source, if it is linked, is
    given the chunk once, after that.  The references taken for mixing are all given
    back, so that just the one of the chunk is new, besides what the monitor source
    keeps. *)
Theorem sink_renders_in_step {D R M} (impl : implementor D) (rs : resampler_ops R) (src : source_ops M)
    do_volume do_mix page_size base maxlen `{!ImplementorOk impl base maxlen} `{!MonitorOk src base} fuel (s : pa_sink D R M) length st :
  routines_ok do_volume do_mix -> sink_ready impl src page_size base maxlen fuel s st -> 0 <= length -> length mod base = 0 ->
  room_after impl rs src do_volume do_mix page_size base fuel s length st ->
  exists answers c l' mon' st1 st',
    pa_sink_render impl rs src do_volume do_mix page_size fuel s length st = Ok (c, (set_monitor mon' (set_inputs l' s), st')) /\
    0 < mc_length c <= asked page_size base length st /\ mc_length c mod base = 0 /\ chunk_in st' c /\
    chunk_bytes st' c = played do_volume do_mix (sk_sample_spec (snk_info s)) (snk_soft_volume s) (snk_soft_muted s)
      (omap (heard (mc_length c)) answers) (mc_length c) /\
    Forall3 (fun x a x' => stepped impl base maxlen (snk_info s) (mc_length c) st x a x' st') (snk_inputs s) answers l' /\
    (posted src (snk_monitor s) c st1 mon' st' /\ chunk_bytes st1 c = chunk_bytes st' c /\ mon_inv src base mon' st') /\
    (forall j, refs st' j - all_kept impl base maxlen l' j - mon_hold src base mon' j =
       refs st j - all_kept impl base maxlen (snk_inputs s) j - mon_hold src base (snk_monitor s) j + chunk_refs c j) /\
    store_ok st' /\ sink_owns s st'.
Proof.
  intros Hrt Hs Hl Hm Hroom. pose proof Hs as [S1 S2 [S3 S3'] [S4 _] S5 S6 S7 _ _ _ _ S12]. pose proof (sw_spec _ _ S5) as Hspec.
  destruct (asked_length page_size base s length st Hspec S6 S7 Hl Hm) as (Ea & Ha & Ham & Hbm).
  destruct (ask_streams impl rs src do_volume page_size base maxlen fuel s _ st Hs (proj1 Ha) Ham) as (answers & infos & ml & l1 & st1 & E1 & A & Hown).
  destruct (Hroom _ _ _ _ E1) as [Hroom1 Hroom2].
  destruct (make_result impl src do_volume do_mix page_size base maxlen fuel s _ st answers infos ml l1 st1 Hrt Hs A Hown Hroom1)
    as (c & st2 & E2 & Hc & Hcm & P).
  destruct (move_on impl src do_volume page_size base maxlen fuel s (asked page_size base length st) st answers infos ml l1 st1 c _ st2 Hs ltac:(lia) A Hc Hcm P)
    as (l3 & st3 & E3 & B & Hpost & Hst). specialize (Hroom2 _ _ _ _ _ E2 E3).
  destruct P as [P1 P2 P3 P4 P5]. destruct B as [C1 C2 C3 C4]. destruct A as [B1 B2 B3 B4 (B5 & B6 & B7) B8 B9].
  set (mon := snk_monitor s) in *.
  assert (forall j, 0 <= mon_hold src base mon j /\ 0 <= sink_refs s j /\ 0 <= chunk_refs c j /\ 0 <= all_owned impl base maxlen l3 j) as Hnn.
  { intros j. pose proof (mon_hold_nonneg src base mon j). pose proof (sink_refs_nonneg s j). pose proof (chunk_refs_nonneg c j).
    pose proof (all_kept_owned impl base maxlen l3 j). lia. }
  assert (forall j, all_owned impl base maxlen l3 j + sink_refs s j + chunk_refs c j + mon_hold src base mon j <= refs st3 j) as Hown3.
  { intros j. specialize (Hown j). specialize (C4 j). rewrite P5 in C4. pose proof (dropped_silence impl base maxlen _ _ _ _ _ j C3). lia. }
  assert (keeps st st3) as K3.
  { apply (keeps_trans st st1); [apply S1|apply B1|done|]. apply (keeps_trans st1 st2); [apply B1|apply P1|done..]. }
  destruct (chunk_in_keeps st2 st3 c C2 P3) as [Hc3 Eb3].
  { intros id E. specialize (Hown3 id). specialize (Hnn id). rewrite (chunk_refs_some _ _ E) in *. lia. }
  destruct (tell_monitor src base mon c st3) as (mon' & st4 & Ep & Hok4 & K4 & Hi4 & R4); try done.
  { apply (mon_env src base mon st); try done. intros j. specialize (Hown3 j). specialize (Hnn j). lia. }
  { intros j. specialize (Hown3 j). specialize (Hnn j). lia. }
  assert (forall j, all_owned impl base maxlen l3 j + sink_refs s j + chunk_refs c j <= refs st4 j) as Hown4.
  { intros j. specialize (Hown3 j). specialize (R4 j). pose proof (mon_hold_nonneg src base mon' j). lia. }
  destruct (chunk_in_keeps st3 st4 c K4 Hc3) as [Hc4 Eb4].
  { intros id E. specialize (Hown4 id). specialize (Hnn id). rewrite (chunk_refs_some _ _ E) in *. lia. }
  exists answers, c, l3, mon', st3, st4. split.
  { unfold pa_sink_render. assert (PA_SINK_IS_LINKED (snk_state s) = true /\ bool_decide (snk_state s = PA_SINK_SUSPENDED) = false) as [El Esu]
      by (destruct (snk_state s); done). rewrite El, Esu. simpl. rewrite (pa_frame_aligned_ok _ Hspec), <- S6. simpl.
    rewrite (proj2 (Z.eqb_eq _ _) Hm), S3, S3'. simpl. destruct (if length <=? 0 then _ else _) as [n'| |]; [|done..]. simpl in Ea |- *.
    rewrite Ea. simpl. rewrite (pa_assert_true (0 <? _)) by blia. simpl. rewrite E1. simpl. rewrite E2. simpl. by rewrite (Hpost _ _ Ep). }
  split_and!; try done; try lia.
  - by rewrite Eb4, Eb3.
  - apply Hst; try done. intros j. specialize (Hown4 j). specialize (Hnn j). lia.
  - intros j. specialize (R4 j). specialize (B8 j). specialize (C4 j). rewrite P5 in C4. lia.
  - apply (sink_owns_keeps s st st4); try done; [apply (keeps_trans st st3); [apply S1|apply C1|done..]|].
    intros j. specialize (Hown4 j). specialize (Hnn j). lia.
Qed.

(** ** A concrete sink *)

Module RenderExample.
Import StreamExample.

(** Block 1 has the data of two streams, block 2 is silence, held by their
    queues, the sink and the cache. *)
Definition blk1 : pa_memblock := mk_memblock 2 PA_MEMBLOCK_APPENDED false false 4 (Some <$> [10; 11; 12; 13]) (-1) 0.
Definition blk2 : pa_memblock := mk_memblock 3 PA_MEMBLOCK_APPENDED false true 4 (Some <$> [0; 0; 0; 0]) (-1) 0.
Definition before : store := mk_store (mk_mempool 9 65536 16 0 [] 2 8) (<[1 := blk1]> (<[2 := blk2]> ∅)) 3 true.
Definition after : store :=
  match pa_memblockq_new 0 64 0 StreamExample.spec 0 1 8 (Some silence) before with Ok (_, st) => st | _ => before end.

Definition input1 : input (list pa_memchunk) unit := mk_input 7 i0 [mk_chunk (Some 1) 0 4] [].
Definition input2 : input (list pa_memchunk) unit := mk_input 8 i0 [mk_chunk (Some 1) 2 2] [].

(** An output that remembers the bytes it was given. *)
Definition recorder : output_ops (list cell) :=
  mk_output_ops (list cell) (fun x c st => Ok (x ++ chunk_bytes st c, st))
    (fun x n st => Ok (take (length x - Z.to_nat n) x, st)).
Definition monitor : pa_source (list cell) :=
  mk_source PA_SOURCE_RUNNING StreamExample.spec [PA_VOLUME_NORM] false [mk_output 5 false []].
Definition two_streams : pa_sink (list pa_memchunk) unit (pa_source (list cell)) :=
  mk_sink sink PA_SINK_RUNNING [PA_VOLUME_NORM] false silence [input1; input2] {[ PA_SAMPLE_S16LE := 2 ]} (Some monitor).

(** Adds the bytes of all voices. *)
Definition add_bytes : pa_sample_spec -> pa_cvolume -> list (pa_cvolume * list cell) -> Z -> list cell :=
  fun _ _ l len => (fun k => Some (foldr (fun v n => default 0 (mjoin (v.2 !! k)) + n) 0 l)) <$> seq 0 (Z.to_nat len).
Abbreviation recording := (monitor_ops recorder StreamExample.no_volume).

#[export] Instance recorder_ok : OutputOk recorder 2.
Proof.
  refine {| oo_inv _ _ := True; oo_hold _ _ := 0 |}; try done.
  - intros x c st _ Hok _ _ _. eexists _, st. by split_and!.
  - intros x n st _ Hok _ _ _. eexists _, st. by split_and!.
Defined.
#[export] Instance monitor_ok : MonitorOk recording 2 := source_monitor recorder StreamExample.no_volume 2 (fun _ _ _ => eq_refl).

Lemma two_blocks i b : st_blocks before !! i = Some b -> i = 1 /\ b = blk1 \/ i = 2 /\ b = blk2.
Proof.
  simpl. rewrite !lookup_insert_Some, lookup_empty. intros [[<- <-]|[_ [[<- <-]|[_ ?]]]]; [by left|by right|done].
Qed.

Lemma before_ok : store_ok before.
Proof.
  split; [split|].
  - intros i b [[-> ->]|[-> ->]]%two_blocks; split; by vm_compute.
  - intros i b [[-> ->]|[-> ->]]%two_blocks; by vm_compute.
  - by vm_compute.
  - by vm_compute.
  - by vm_compute.
  - by vm_compute.
  - by vm_compute.
  - constructor.
  - constructor.
  - intros i j b c [[-> ->]|[-> ->]]%two_blocks; done.
  - intros i b _ _. apply not_elem_of_nil.
  - intros i b [[-> ->]|[-> ->]]%two_blocks; done.
Qed.

Lemma made_after : pa_memblockq_new 0 64 0 StreamExample.spec 0 1 8 (Some silence) before = Ok (q0, after).
Proof. vm_compute. reflexivity. Qed.

Lemma ok_pair {A B} (a a' : A) (b b' : B) : Ok (a, b) = Ok (a', b') -> a = a' /\ b = b'.
Proof. by intros [= -> ->]. Qed.

Lemma queue_after : queue_inv q0 after.
Proof.
  assert (new_args_ok 64 0 0 1 8) as Ha by (unfold new_args_ok, len_max; lia).
  assert (silence_arg_ok (Some silence) before) as Hs by (exists 2; by vm_compute).
  destruct (new_spec 0 64 0 StreamExample.spec 0 1 8 (Some silence) before before_ok mono16_ok Ha Hs) as (q & st' & E & Hq & _).
  rewrite made_after in E. apply ok_pair in E as [-> ->]. exact Hq.
Qed.

Lemma refs_after j : refs after j = if decide (j = 1) then 2 else if decide (j = 2) then 4 else 0.
Proof.
  assert (st_blocks after = <[1 := blk1]> (<[2 := with_refcnt 4 blk2]> ∅)) as E by (vm_compute; reflexivity).
  unfold refs. rewrite E, !lookup_insert, lookup_empty. clear E. repeat case_decide; simplify_eq; done.
Qed.

Lemma render_queue : render_ok q0 after.
Proof.
  split; [exact queue_after|by vm_compute..|]. split; [by vm_compute..|]. vm_compute. constructor.
Qed.

Lemma owned_q0 j : owned q0 j = chunk_refs silence j.
Proof.
  assert (bq_silence q0 = silence) as Es by (by vm_compute). unfold owned. by rewrite si_empty0, Es.
Qed.

Lemma one_ready key (c : pa_memchunk) : mc_memblock c = Some 1 -> whole_frames 2 4 after c ->
  input_ready chunks 4096 2 4 sink 1 (mk_input key i0 [c] []) after.
Proof.
  intros Em Hc. split.
  - split; [split; try done; exact mono16_ok|by vm_compute|split; by vm_compute| |by vm_compute|by vm_compute]. split.
    + exact render_queue.
    + constructor; [exact Hc|constructor].
    + intros j. change (owned q0 j + holds [c] j <= refs after j). rewrite refs_after, owned_q0. simpl. unfold chunk_refs. rewrite Em.
      simpl. unfold delta. repeat case_decide; simplify_eq; lia.
    + by vm_compute.
    + by vm_compute.
    + split; [|by vm_compute]. apply items_end. change (bq_blocks _) with (bq_blocks q0). rewrite si_empty0. constructor.
    + by vm_compute.
    + by vm_compute.
  - by vm_compute.
  - exists 2. by vm_compute.
Qed.

Lemma two_ready : sink_ready chunks recording 4096 2 4 1 two_streams after.
Proof.
  split.
  - exact (qi_store _ _ queue_after).
  - reflexivity.
  - split; reflexivity.
  - split; [|intros _; by repeat constructor]. split; [reflexivity|split; [exact mono16_ok|by vm_compute]|by repeat constructor].
  - split; [exact mono16_ok| |exists 2; by vm_compute|by vm_compute]. split_and!; [exists 2; by vm_compute|by vm_compute..].
  - by vm_compute.
  - split; by vm_compute.
  - vm_compute. lia.
  - apply NoDup_cons. split; [|apply NoDup_singleton]. intros H%list_elem_of_singleton. discriminate H.
  - constructor; [|constructor; [|constructor]]; (apply one_ready; [reflexivity|]; split_and!; [exists 1; by vm_compute|by vm_compute..]).
  - repeat constructor.
  - intros j. change (owned q0 j + holds (in_data input1) j + (owned q0 j + holds (in_data input2) j + 0)
      + (chunk_refs silence j + delta 2 1 j) + 0 <= refs after j).
    rewrite refs_after, owned_q0. simpl. unfold chunk_refs. simpl. unfold delta. repeat case_decide; simplify_eq; lia.
Qed.

(** The bytes a rendering hands out, and those the monitor's output has. *)
Definition sound (m : outcome (pa_memchunk * (pa_sink (list pa_memchunk) unit (pa_source (list cell)) * store))) : list cell :=
  match m with Ok (c, (_, st)) => chunk_bytes st c | _ => [] end.
Definition recorded (m : outcome (pa_memchunk * (pa_sink (list pa_memchunk) unit (pa_source (list cell)) * store))) : list (list cell) :=
  match m with Ok (_, (s, _)) => from_option (fun x => out_state <$> sr_outputs x) [] (snk_monitor s) | _ => [] end.
Definition room {A B} (m : outcome (A * Z * (B * store))) : bool :=
  match m with Ok (_, ml, (_, st)) => msum mb_length (st_blocks st) + ml <? 2 ^ 31 | _ => false end.
End RenderExample.
Import StreamExample RenderExample.

Lemma sink_renders_in_step_witness : exists c l' mon' st',
  pa_sink_render chunks StreamExample.no_resampler recording StreamExample.no_volume add_bytes 4096 1 two_streams 8 after
    = Ok (c, (set_monitor mon' (set_inputs l' two_streams), st')) /\ mc_length c mod 2 = 0 /\ chunk_bytes st' c = [Some 22; Some 24] /\
  from_option (fun x => out_state <$> sr_outputs x) [] mon' = [[Some 22; Some 24]].
Proof.
  destruct (sink_renders_in_step chunks StreamExample.no_resampler recording StreamExample.no_volume add_bytes 4096 2 4 1 two_streams 8 after)
    as (answers & c & l' & mon' & st1 & st' & E & _ & Hm & _).
  - split; [done|]. intros spec v l len Hl. unfold add_bytes. by rewrite length_fmap, length_seq.
  - exact two_ready.
  - done.
  - done.
  - intros infos ml s1 st1 E. assert (room (Ok (infos, ml, (s1, st1))) = true) as H by (rewrite <- E; vm_compute; reflexivity).
    apply Z.ltb_lt in H. split; [exact H|]. intros c s2 st2 s3 st3 _ _ Hv. discriminate Hv.
  - exists c, l', mon', st'. split; [exact E|]. split; [exact Hm|]. split.
    + change (chunk_bytes st' c) with (sound (Ok (c, (set_monitor mon' (set_inputs l' two_streams), st')))). rewrite <- E. vm_compute. reflexivity.
    + change (from_option (fun x => out_state <$> sr_outputs x) [] mon')
        with (recorded (Ok (c, (set_monitor mon' (set_inputs l' two_streams), st')))). rewrite <- E. vm_compute. reflexivity.
Defined.
