(* ===== verification/SinkRewind.v ===== *)
(** * SinkRewind: rewinding the streams of a sink

    [pa_sink_process_rewind]: all streams go back by the same length, and the
    request of the sink is forgotten. *)
From stdpp Require Import base tactics numbers list gmap.
From S2P Require Import Prelude Sample Channelmap Volume Memblock Mcalign Memblockq MemblockqSpec MemblockqRead MemblockqAttr.
From S2P Require Import MemblockqInv MemblockqAlign MemblockqFrames SinkInput SinkInputProps Sink SinkMix Source SinkDrop SinkRender SourceProps SinkProps.

#[local] Arguments pa_sink_input_process_rewind : simpl never.


Section rewinding.
Context {D R : Type} (impl : implementor D) (rs : resampler_ops R).
Context (base maxlen : Z) `{!ImplementorOk impl base maxlen} `{!RewindOk impl base maxlen}.










End rewinding.





Import StreamExample RenderExample.

