(* ===== verification/IwabNet.v ===== *)
(** * IwabNet: the iwab packet layer

    Models [src/modules/iwab/net.h] and [net.c]: the frame that is put on the
    air and the parsing of received frames.  Structures are packed and the
    machine is little-endian, so a structure is the list of its bytes; a
    pointer into the receive buffer is an offset.

    What the kernel does is an input: the outcome of [recv], the value
    [writev] returns, the results of the calls of [iwab_open].  A byte of the
    receive buffer that was never written is [None]; reading it, or reading
    outside the buffer, is undefined behaviour. *)
From stdpp Require Import base tactics numbers list gmap strings.
From S2P Require Import Prelude Memblock.

(** ** Structures *)

Definition RADIOTAP_TX_FLAGS : Z := 2 ^ 15.
Definition RADIOTAP_MCS : Z := 2 ^ 19.

Record radiotap_head := mk_radiotap_head {
  rt_version : Z;   (* uint16_t *)
  rt_length : Z;    (* uint16_t *)
  rt_bitmap : Z     (* uint32_t *)
}.

Record radiotap := mk_radiotap {
  rt_head : radiotap_head;
  rt_args : list Z  (* uint8_t[5] *)
}.

Record ieee80211_head := mk_dot11 {
  d_version : Z;    (* 2 bits *)
  d_type : Z;       (* 2 bits *)
  d_subtype : Z;    (* 4 bits *)
  d_flags : Z;      (* 8 bits *)
  d_duration : Z;   (* uint16_t *)
  d_addr1 : list Z;
  d_addr2 : list Z;
  d_addr3 : list Z;
  d_frag_nb : Z;    (* 4 bits *)
  d_seq_nb : Z      (* 12 bits *)
}.

Record l2_head := mk_l2 {
  l2_src_mac : list Z;
  l2_dst_mac : list Z;
  l2_ethertype : Z  (* uint16_t *)
}.

Record iwab_head := mk_iwab_head {
  ih_version : Z;   (* uint8_t *)
  ih_channel : Z;   (* uint8_t *)
  ih_length : Z;    (* uint16_t *)
  ih_seq : Z;       (* uint32_t *)
  ih_timestamp : Z; (* uint64_t *)
  ih_retry : Z;     (* uint8_t *)
  ih_pad : list Z   (* uint8_t[7] *)
}.

Record headers := mk_headers {
  h_dot11 : ieee80211_head;
  h_dot11qos : Z;   (* uint16_t *)
  h_l2 : l2_head;
  h_iw : iwab_head
}.

Definition sizeof_radiotap : Z := 13.
Definition sizeof_ieee80211_head : Z := 24.
Definition sizeof_l2_head : Z := 14.
Definition sizeof_iwab_head : Z := 24.
Definition sizeof_headers : Z := 64.

(** The bytes of the structures. *)
Definition radiotap_bytes (r : radiotap) : list Z :=
  le_split 2 (rt_version (rt_head r)) ++ le_split 2 (rt_length (rt_head r))
  ++ le_split 4 (rt_bitmap (rt_head r)) ++ rt_args r.

(** Bit fields fill a 16-bit unit from its low end. *)
Definition dot11_bytes (d : ieee80211_head) : list Z :=
  le_split 2 (d_version d + 4 * d_type d + 16 * d_subtype d + 256 * d_flags d)
  ++ le_split 2 (d_duration d) ++ d_addr1 d ++ d_addr2 d ++ d_addr3 d
  ++ le_split 2 (d_frag_nb d + 16 * d_seq_nb d).

Definition l2_bytes (l : l2_head) : list Z :=
  l2_src_mac l ++ l2_dst_mac l ++ le_split 2 (l2_ethertype l).

Definition iwab_head_bytes (h : iwab_head) : list Z :=
  le_split 1 (ih_version h) ++ le_split 1 (ih_channel h) ++ le_split 2 (ih_length h)
  ++ le_split 4 (ih_seq h) ++ le_split 8 (ih_timestamp h) ++ le_split 1 (ih_retry h) ++ ih_pad h.

Definition headers_bytes (h : headers) : list Z :=
  dot11_bytes (h_dot11 h) ++ le_split 2 (h_dot11qos h) ++ l2_bytes (h_l2 h)
  ++ iwab_head_bytes (h_iw h).

(** [struct iovec] of a constant part: offset and length in the static
    structures; the body is a buffer of the caller. *)
Record iwab := mk_iwab {
  iw_fd : Z;
  iw_rt_in : option Z;
  iw_dot11_in : option Z;
  iw_l2_in : option Z;
  iw_iw_in : option Z;
  iw_rt_h : radiotap;
  iw_wi_h : headers;
  iw_iov0_len : Z;
  iw_iov1_len : Z;
  iw_iov2 : option (list Z) * Z;   (* base, length *)
  iw_addr_filter : list Z
}.

(** [rt_h] and [wi_h] are packed and follow each other in [struct iwab]. *)
Definition tx_memory (iw : iwab) : list Z :=
  radiotap_bytes (iw_rt_h iw) ++ headers_bytes (iw_wi_h iw).

Definition zeros (n : nat) : list Z := replicate n 0.

(** ** Sending *)

Definition set_iw_head (f : iwab_head -> iwab_head) (iw : iwab) : iwab :=
  let h := iw_wi_h iw in
  mk_iwab (iw_fd iw) (iw_rt_in iw) (iw_dot11_in iw) (iw_l2_in iw) (iw_iw_in iw) (iw_rt_h iw)
    (mk_headers (h_dot11 h) (h_dot11qos h) (h_l2 h) (f (h_iw h)))
    (iw_iov0_len iw) (iw_iov1_len iw) (iw_iov2 iw) (iw_addr_filter iw).

Definition set_iov2 (v : option (list Z) * Z) (iw : iwab) : iwab :=
  mk_iwab (iw_fd iw) (iw_rt_in iw) (iw_dot11_in iw) (iw_l2_in iw) (iw_iw_in iw) (iw_rt_h iw)
    (iw_wi_h iw) (iw_iov0_len iw) (iw_iov1_len iw) v (iw_addr_filter iw).

(** [memset] and the assignments of [iwab_setup]; the descriptor is set by
    [iwab_open]. *)
Definition iwab_setup : iwab :=
  let rt_len := u16 (sizeof_radiotap + 5) in
  let rt := mk_radiotap (mk_radiotap_head 0 rt_len (Z.lor RADIOTAP_TX_FLAGS RADIOTAP_MCS))
              [Z.lor 32 8; 0; Z.lor 2 16; 16; 1] in
  let dot11 := mk_dot11 0 2 8 0 0 (zeros 6) (zeros 6) (zeros 6) 0 0 in
  let l2 := mk_l2 (zeros 6) (zeros 6) 33876 (* 0x8454 *) in
  let iwh := mk_iwab_head 0 0 0 0 0 0 (zeros 7) in
  mk_iwab 0 None None None None rt (mk_headers dot11 0 l2 iwh) rt_len sizeof_headers (None, 0)
    (zeros 6).

(** The bytes [writev] gathers: [iov[0]] and [iov[1]] from the static
    structures, [iov[2]] from the caller's buffer. *)
Definition gather (iw : iwab) : outcome (list Z) :=
  let mem := tx_memory iw in
  let take_at off len :=
    if (0 <=? off) && (0 <=? len) && (off + len <=? Z.of_nat (length mem))
    then Ok (sub_list off len mem) else UB in
  b0 ← take_at 0 (iw_iov0_len iw);
  b1 ← take_at sizeof_radiotap (iw_iov1_len iw);
  body ← deref (fst (iw_iov2 iw));
  _ ← (if snd (iw_iov2 iw) <=? Z.of_nat (length body) then Ok tt else UB);
  Ok (b0 ++ b1 ++ sub_list 0 (snd (iw_iov2 iw)) body).

Definition EINVAL : Z := 22.
Definition EAGAIN : Z := 11.
Definition EINTR : Z := 4.

(** [iwab_send]: the return value, errno when the function sets it, the frame
    handed to the kernel and the new state; [writev] is the kernel's answer to
    a frame. *)
Definition iwab_send (writev : list Z -> Z) (iw : iwab) (buffer : option (list Z)) (len timestamp retried : Z)
    : outcome (Z * option Z * option (list Z) * iwab) :=
  match buffer with
  | None => Ok (-1, Some EINVAL, None, iw)
  | Some body =>
      let iw := set_iw_head (fun h =>
        mk_iwab_head (ih_version h) (ih_channel h) (u16 len)
          (if retried =? 0 then u32 (ih_seq h + 1) else ih_seq h)
          timestamp retried (ih_pad h)) iw in
      let iw := set_iov2 (Some body, u64 len) iw in
      frame ← gather iw;
      Ok (writev frame, None, Some frame, iw)
  end.

(** ** Receiving *)

(** What [recv] did: failed with an errno, or stored a packet at the start of
    the buffer. *)
Inductive recv_result :=
| RecvErr (errno : Z)
| RecvData (pkt : list Z).

(** [buffer[off]] *)
Definition buf_byte (buf : list cell) (off : Z) : outcome Z :=
  if off <? 0 then UB else
  c ← deref (buf !! Z.to_nat off);
  deref c.

Fixpoint buf_bytes (buf : list cell) (off : Z) (n : nat) : outcome (list Z) :=
  match n with
  | O => Ok []
  | S n => b ← buf_byte buf off; l ← buf_bytes buf (off + 1) n; Ok (b :: l)
  end.

Definition buf_word (buf : list cell) (off : Z) (n : nat) : outcome Z :=
  l ← buf_bytes buf off n; Ok (le_combine l).

(** Field accesses through the header pointers. *)
Definition in_rt_length (buf : list cell) (rt : Z) : outcome Z := buf_word buf (rt + 2) 2.
Definition in_dot11_type (buf : list cell) (d : Z) : outcome Z :=
  w ← buf_word buf d 2; Ok (Z.land (Z.shiftr w 2) 3).
Definition in_dot11_subtype (buf : list cell) (d : Z) : outcome Z :=
  w ← buf_word buf d 2; Ok (Z.land (Z.shiftr w 4) 15).
Definition in_dot11_addr (buf : list cell) (d k : Z) : outcome (list Z) := buf_bytes buf (d + 4 + 6 * k) 6.
Definition in_iw_seq (buf : list cell) (h : Z) : outcome Z := buf_word buf (h + 4) 4.
Definition in_iw_timestamp (buf : list cell) (h : Z) : outcome Z := buf_word buf (h + 8) 8.
Definition in_iw_length (buf : list cell) (h : Z) : outcome Z := buf_word buf (h + 2) 2.
Definition in_iw_retry (buf : list cell) (h : Z) : outcome Z := buf_word buf (h + 16) 1.

Record read_out := mk_read_out {
  ro_ret : Z;
  ro_errno : option Z;
  ro_offset : Z;
  ro_iw : iwab;
  ro_buf : list cell
}.

Definition set_in (rt d l2 h : Z) (iw : iwab) : iwab :=
  mk_iwab (iw_fd iw) (Some rt) (Some d) (Some l2) (Some h) (iw_rt_h iw) (iw_wi_h iw)
    (iw_iov0_len iw) (iw_iov1_len iw) (iw_iov2 iw) (iw_addr_filter iw).

(** [memcmp(a, filter, 6) != 0] for the three addresses in turn, stopping at
    the first that differs. *)
Definition addrs_differ (buf : list cell) (d : Z) (filter : list Z) : outcome bool :=
  a1 ← in_dot11_addr buf d 0;
  if negb (bool_decide (a1 = filter)) then Ok true
  else
    a2 ← in_dot11_addr buf d 1;
    if negb (bool_decide (a2 = filter)) then Ok true
    else
      a3 ← in_dot11_addr buf d 2;
      Ok (negb (bool_decide (a3 = filter))).

(** Everything after [recv] returned [read_size >= 0] bytes.  Sizes are
    compared as [size_t], so the differences wrap. *)
Definition iwab_parse (iw : iwab) (buf : list cell) (read_size : Z) : outcome read_out :=
  let reject ret off := Ok (mk_read_out ret (Some EAGAIN) off iw buf) in
  if read_size <=? sizeof_radiotap then reject (-2) 0
  else
    let rt_in := 0 in
    rt_len ← in_rt_length buf rt_in;
    let off := u64 rt_len in
    if u64 (read_size - off) <=? sizeof_ieee80211_head then reject (-3) off
    else
      let dot11_in := off in
      let off := u64 (off + (sizeof_ieee80211_head + 2)) in
      bad ← (if u64 (read_size - off) <=? sizeof_l2_head then Ok true
             else
               t ← in_dot11_type buf dot11_in;
               if negb (t =? 2) then Ok true
               else s ← in_dot11_subtype buf dot11_in; Ok (negb (s =? 8)));
      if (bad : bool) then reject (-4) off
      else
        differ ← addrs_differ buf dot11_in (iw_addr_filter iw);
        if (differ : bool) then reject (-5) off
        else
          let l2_in := off in
          let off := u64 (off + sizeof_l2_head) in
          if u64 (read_size - off) <=? sizeof_iwab_head then reject (-6) off
          else
            let iw_in := off in
            let off := u64 (off + sizeof_iwab_head) in
            if u64 (read_size - off) <=? 4 then reject (-7) off
            else
              Ok (mk_read_out (s64 (read_size - u64 (off + 4))) None off
                    (set_in rt_in dot11_in l2_in iw_in iw) buf).

(** [recv] stores at most [max_length] bytes and drops the rest. *)
Definition iwab_read (iw : iwab) (buffer : option (list cell)) (max_length : Z) (r : recv_result)
    : outcome read_out :=
  match buffer with
  | None => Ok (mk_read_out (-1) (Some EINVAL) 0 iw [])
  | Some buf =>
      match r with
      | RecvErr e => Ok (mk_read_out (-1) (Some e) 0 iw buf)
      | RecvData pkt =>
          let pkt := take (Z.to_nat max_length) pkt in
          buf ← deref (splice 0 (Some <$> pkt) buf);
          iwab_parse iw buf (Z.of_nat (length pkt))
      end
  end.

(** ** Opening and closing *)

(** The kernel's answers to the calls of [iwab_open]; [None] is failure. *)
Record open_env := mk_open_env {
  oe_socket : option Z;               (* the new descriptor *)
  oe_ioctl : string -> option Z;      (* SIOCGIFINDEX: the interface's index *)
  oe_bind : Z -> Z -> bool;           (* descriptor, index *)
  oe_setsockopt : bool
}.

(** [strncpy(ifr.ifr_name, iface, IFNAMSIZ - 1)] into zeroed memory. *)
Definition ifr_name (iface : string) : string := String.substring 0 15 iface.

(** [iwab_open]: the result, the new content of [*iw] if it was written, and
    the open descriptors. *)
Definition iwab_open (env : open_env) (iw_given : bool) (iface : option string) (fds : gset Z)
    : Z * option iwab * gset Z :=
  match iw_given, iface with
  | true, Some iface =>
      match oe_socket env with
      | None => (-2, None, fds)
      | Some fd =>
          let fds := {[ fd ]} ∪ fds in
          match oe_ioctl env (ifr_name iface) with
          | None => (-3, None, fds)
          | Some idx =>
              if negb (oe_bind env fd idx) then (-4, None, fds)
              else
                let iw := iwab_setup in
                (0, Some (mk_iwab fd (iw_rt_in iw) (iw_dot11_in iw) (iw_l2_in iw) (iw_iw_in iw)
                            (iw_rt_h iw) (iw_wi_h iw) (iw_iov0_len iw) (iw_iov1_len iw)
                            (iw_iov2 iw) (iw_addr_filter iw)), fds)
          end
      end
  | _, _ => (-1, None, fds)
  end.

(** [close]: fails on a descriptor that is not open. *)
Definition iwab_close (iw : iwab) (fds : gset Z) : Z * gset Z :=
  if bool_decide (iw_fd iw ∈ fds) then (0, fds ∖ {[ iw_fd iw ]}) else (-1, fds).

(** ** Reading packets out of the buffer *)

(** A buffer that starts with the packet [pkt]. *)
Definition holds (buf : list cell) (pkt : list Z) : Prop := exists rest, buf = (Some <$> pkt) ++ rest.

Lemma splice_holds (pkt : list Z) (buf : list cell) : (length pkt <= length buf)%nat ->
  exists buf', splice 0 (Some <$> pkt) buf = Some buf' /\ holds buf' pkt /\ length buf' = length buf.
Proof.
  intros Hl. destruct (splice_some 0 (Some <$> pkt) buf) as [buf' E]; [lia|rewrite length_fmap; lia|].
  exists buf'. split; [done|]. split; [|by apply splice_length in E].
  unfold splice in E. destruct (_ && _); [|done]. injection E as <-.
  eexists. simpl. done.
Qed.

Lemma buf_byte_holds buf pkt i b : holds buf pkt -> 0 <= i -> pkt !! Z.to_nat i = Some b ->
  buf_byte buf i = Ok b.
Proof.
  intros [rest ->] Hi Hb. unfold buf_byte. rewrite (proj2 (Z.ltb_ge i 0)) by lia.
  rewrite lookup_app_l by (rewrite length_fmap; by apply lookup_lt_Some in Hb).
  by rewrite list_lookup_fmap, Hb.
Qed.

Lemma sub_list_cons {A} (l : list A) i n x : 0 <= i -> l !! Z.to_nat i = Some x ->
  sub_list i (Z.of_nat (S n)) l = x :: sub_list (i + 1) (Z.of_nat n) l.
Proof.
  intros Hi Hx. unfold sub_list. rewrite Nat2Z.id, Nat2Z.id.
  rewrite <- (take_drop_middle l (Z.to_nat i) x Hx) at 1.
  rewrite drop_app_length' by (apply lookup_lt_Some in Hx; rewrite length_take; lia). simpl.
  by replace (Z.to_nat (i + 1)) with (S (Z.to_nat i)) by lia.
Qed.

Lemma buf_bytes_holds buf pkt n : forall i, holds buf pkt -> 0 <= i ->
  i + Z.of_nat n <= Z.of_nat (length pkt) -> buf_bytes buf i n = Ok (sub_list i (Z.of_nat n) pkt).
Proof.
  induction n as [|n IH]; intros i Hh Hi Hl; [done|].
  destruct (lookup_lt_is_Some_2 pkt (Z.to_nat i)) as [x Hx]; [lia|].
  cbn [buf_bytes]. rewrite (buf_byte_holds _ _ _ _ Hh Hi Hx). simpl.
  rewrite IH by (done || lia). simpl. by rewrite (sub_list_cons _ _ _ x).
Qed.

Lemma buf_word_holds buf pkt i n : holds buf pkt -> 0 <= i ->
  i + Z.of_nat n <= Z.of_nat (length pkt) ->
  buf_word buf i n = Ok (le_combine (sub_list i (Z.of_nat n) pkt)).
Proof. intros. unfold buf_word. by rewrite (buf_bytes_holds _ pkt). Qed.

Lemma sub_list_bytes off n (l : list Z) : Forall (fun b => 0 <= b < 256) l ->
  Forall (fun b => 0 <= b < 256) (sub_list off n l).
Proof. intros. unfold sub_list. by apply Forall_take, Forall_drop. Qed.

(** ** Parsing *)

(** The length a packet claims for its radiotap header. *)
Definition claimed (pkt : list Z) : Z := le_combine (sub_list 2 2 pkt).

Lemma claimed_bound pkt : Forall (fun b => 0 <= b < 256) pkt -> 4 <= Z.of_nat (length pkt) ->
  0 <= claimed pkt < 2 ^ 16.
Proof.
  intros H Hl. unfold claimed. pose proof (le_combine_bound _ (sub_list_bytes 2 2 _ H)) as Hb.
  rewrite sub_list_length in Hb by lia. done.
Qed.

Lemma addrs_differ_ok buf pkt d f : holds buf pkt -> 0 <= d -> d + 22 <= Z.of_nat (length pkt) ->
  exists b, addrs_differ buf d f = Ok b.
Proof.
  intros Hh Hd Hl. unfold addrs_differ, in_dot11_addr.
  rewrite !(buf_bytes_holds _ pkt) by (done || lia). simpl. repeat case_match; eauto.
Qed.

Lemma dot11_bad_ok buf pkt d (c : bool) : holds buf pkt -> 0 <= d -> d + 2 <= Z.of_nat (length pkt) ->
  exists b : bool, (if c then Ok true
   else t ← in_dot11_type buf d;
     if negb (t =? 2) then Ok true
     else s ← in_dot11_subtype buf d; Ok (negb (s =? 8))) = Ok b.
Proof.
  intros Hh Hd Hl. unfold in_dot11_type, in_dot11_subtype.
  rewrite !(buf_word_holds _ pkt) by (done || lia). simpl. repeat case_match; eauto.
Qed.

(** What a caller of [iwab_read] gets. *)
Definition read_ok (iw : iwab) (n : Z) (rt : Z) (out : read_out) : Prop :=
  (ro_ret out < 0 /\ ro_errno out = Some EAGAIN /\ ro_iw out = iw) \/
  (0 < ro_ret out /\ ro_errno out = None /\ ro_offset out = rt + 64 /\
   ro_offset out + ro_ret out + 4 = n /\ ro_iw out = set_in 0 rt (rt + 26) (rt + 40) iw).

Lemma rejected iw buf n rt ret off : ret < 0 ->
  exists out, Ok (mk_read_out ret (Some EAGAIN) off iw buf) = Ok out /\ ro_buf out = buf /\
    read_ok iw n rt out.
Proof. intros. eexists. split; [done|]. split; [done|]. by left. Qed.

Lemma iwab_parse_ok iw buf pkt : holds buf pkt -> Forall (fun b => 0 <= b < 256) pkt ->
  let n := Z.of_nat (length pkt) in
  n < 2 ^ 32 -> claimed pkt <= n -> n - claimed pkt <> 25 ->
  exists out, iwab_parse iw buf n = Ok out /\ ro_buf out = buf /\ read_ok iw n (claimed pkt) out.
Proof.
  intros Hh Hb n Hn Hc H25. unfold iwab_parse, sizeof_radiotap, sizeof_ieee80211_head,
    sizeof_l2_head, sizeof_iwab_head. cbv zeta.
  destruct (Z.leb_spec n 13); [by apply rejected|].
  pose proof (claimed_bound pkt Hb ltac:(lia)) as Hcb.
  unfold in_rt_length. rewrite (buf_word_holds _ pkt), bind_ok by (done || lia).
  change (le_combine (sub_list (0 + 2) (Z.of_nat 2) pkt)) with (claimed pkt).
  set (rt := claimed pkt) in *. clearbody rt.
  rewrite (u64_small rt), (u64_small (n - rt)) by lia.
  destruct (Z.leb_spec (n - rt) 24); [by apply rejected|].
  change (24 + 2) with 26.
  rewrite (u64_small (rt + 26)), (u64_small (n - (rt + 26))) by lia.
  destruct (dot11_bad_ok buf pkt rt (n - (rt + 26) <=? 14) Hh) as [bad E]; [lia..|].
  rewrite E, bind_ok. destruct bad; [by apply rejected|].
  destruct (addrs_differ_ok buf pkt rt (iw_addr_filter iw) Hh) as [differ E2]; [lia..|].
  rewrite E2, bind_ok. destruct differ; [by apply rejected|].
  assert (14 < n - (rt + 26)) as H14.
  { destruct (Z.leb_spec (n - (rt + 26)) 14); [done|lia]. }
  rewrite (u64_small (rt + 26 + 14)), (u64_small (n - (rt + 26 + 14))) by lia.
  destruct (Z.leb_spec (n - (rt + 26 + 14)) 24); [by apply rejected|].
  rewrite (u64_small (rt + 26 + 14 + 24)), (u64_small (n - (rt + 26 + 14 + 24))) by lia.
  destruct (Z.leb_spec (n - (rt + 26 + 14 + 24)) 4); [by apply rejected|].
  rewrite (u64_small (rt + 26 + 14 + 24 + 4)), s64_small by lia.
  eexists. split; [done|]. split; [done|]. right. simpl. split_and!; try done; try lia.
  unfold set_in. do 2 f_equal. lia.
Qed.

(** With exactly 25 bytes behind the radiotap header the second difference is
    minus one, and so large that no later check rejects the packet. *)
Definition read_wrapped (iw : iwab) (rt : Z) (out : read_out) : Prop :=
  ro_ret out = -43 /\ ro_errno out = None /\ ro_offset out = rt + 64 /\ ro_iw out = set_in 0 rt (rt + 26) (rt + 40) iw.

Lemma iwab_parse_25 iw buf pkt : holds buf pkt -> Forall (fun b => 0 <= b < 256) pkt ->
  let n := Z.of_nat (length pkt) in
  n < 2 ^ 32 -> n - claimed pkt = 25 ->
  exists out, iwab_parse iw buf n = Ok out /\ ro_buf out = buf /\
    (read_ok iw n (claimed pkt) out \/ read_wrapped iw (claimed pkt) out).
Proof.
  intros Hh Hb n Hn H25. unfold iwab_parse, sizeof_radiotap, sizeof_ieee80211_head,
    sizeof_l2_head, sizeof_iwab_head. cbv zeta.
  assert (forall ret off, ret < 0 -> exists out, Ok (mk_read_out ret (Some EAGAIN) off iw buf) = Ok out /\ ro_buf out = buf /\
    (read_ok iw n (claimed pkt) out \/ read_wrapped iw (claimed pkt) out)) as Hrej.
  { intros ret off Hr. destruct (rejected iw buf n (claimed pkt) ret off Hr) as (out & ? & ? & ?). eauto 10. }
  destruct (Z.leb_spec n 13); [by apply Hrej|].
  pose proof (claimed_bound pkt Hb ltac:(lia)) as Hcb.
  unfold in_rt_length. rewrite (buf_word_holds _ pkt), bind_ok by (done || lia).
  change (le_combine (sub_list (0 + 2) (Z.of_nat 2) pkt)) with (claimed pkt).
  set (rt := claimed pkt) in *. clearbody rt.
  change (24 + 2) with 26. rewrite !(u64_small rt), !(u64_small (n - rt)), !(u64_small (rt + 26)), !(u64_small (rt + 26 + 14)),
    !(u64_small (rt + 26 + 14 + 24)), !(u64_small (rt + 26 + 14 + 24 + 4)) by lia.
  replace (n - rt) with 25 by lia. replace (n - (rt + 26)) with (-1) by lia. replace (n - (rt + 26 + 14)) with (-15) by lia.
  replace (n - (rt + 26 + 14 + 24)) with (-39) by lia. replace (n - (rt + 26 + 14 + 24 + 4)) with (-43) by lia.
  change (25 <=? 24) with false. change (u64 (-15) <=? 24) with false. change (u64 (-39) <=? 4) with false. cbv iota.
  destruct (dot11_bad_ok buf pkt rt (u64 (-1) <=? 14) Hh) as [bad E]; [lia..|].
  rewrite E, bind_ok. destruct bad; [by apply Hrej|].
  destruct (addrs_differ_ok buf pkt rt (iw_addr_filter iw) Hh) as [differ E2]; [lia..|].
  rewrite E2, bind_ok. destruct differ; [by apply Hrej|].
  eexists. split; [done|]. split; [done|]. right. split_and!; simpl; try done; [lia|]. unfold set_in. do 2 f_equal. lia.
Qed.

(** ** The sender's state *)

(** What [iwab_setup] fixes and no later call changes. *)
Record tx_ok (iw : iwab) : Prop := {
  tx_rt : iw_rt_h iw = iw_rt_h iwab_setup;
  tx_dot11 : h_dot11 (iw_wi_h iw) = h_dot11 (iw_wi_h iwab_setup);
  tx_qos : h_dot11qos (iw_wi_h iw) = 0;
  tx_l2 : h_l2 (iw_wi_h iw) = h_l2 (iw_wi_h iwab_setup);
  tx_version : ih_version (h_iw (iw_wi_h iw)) = 0;
  tx_channel : ih_channel (h_iw (iw_wi_h iw)) = 0;
  tx_pad : ih_pad (h_iw (iw_wi_h iw)) = zeros 7;
  tx_seq : 0 <= ih_seq (h_iw (iw_wi_h iw)) < 2 ^ 32;
  tx_iov0 : iw_iov0_len iw = 18;
  tx_iov1 : iw_iov1_len iw = 64
}.

Lemma tx_ok_setup : tx_ok iwab_setup.
Proof. by split. Qed.

(** The header as it is for a packet. *)
Definition tx_headers (len seq ts retry : Z) : headers :=
  let h := iw_wi_h iwab_setup in
  mk_headers (h_dot11 h) 0 (h_l2 h) (mk_iwab_head 0 0 len seq ts retry (zeros 7)).

Lemma tx_headers_eq iw : tx_ok iw ->
  let h := h_iw (iw_wi_h iw) in
  iw_wi_h iw = tx_headers (ih_length h) (ih_seq h) (ih_timestamp h) (ih_retry h).
Proof.
  intros []. destruct iw as [? ? ? ? ? ? [? ? ? [? ? ? ? ? ? ?]] ? ? ? ?]. simpl in *. by subst.
Qed.

Lemma tx_headers_length len seq ts retry : length (headers_bytes (tx_headers len seq ts retry)) = 64%nat.
Proof. reflexivity. Qed.

(** The five bytes of the radiotap header beyond the structure are the first
    five of the 802.11 header behind it. *)
Definition rt_sent : list Z := radiotap_bytes (iw_rt_h iwab_setup) ++ [136; 0; 0; 0; 0].

Lemma gather_ok iw body n : tx_ok iw -> iw_iov2 iw = (Some body, n) -> n <= Z.of_nat (length body) ->
  gather iw = Ok (rt_sent ++ headers_bytes (iw_wi_h iw) ++ sub_list 0 n body).
Proof.
  intros Htx E2 Hn. pose proof (tx_headers_eq iw Htx) as Eh. destruct Htx as [Ert _ _ _ _ _ _ _ E0 E1].
  unfold gather, tx_memory. rewrite E0, E1, E2, Ert. cbv zeta in Eh. rewrite Eh.
  unfold rt_sent. set (h := headers_bytes _). set (R := radiotap_bytes _).
  assert (length h = 64%nat) as Hl by apply tx_headers_length.
  assert (length R = 13%nat) as HR by reflexivity.
  assert ([136; 0; 0; 0; 0] = take 5 h) as -> by reflexivity. clearbody h R.
  assert (sub_list 0 18 (R ++ h) = R ++ take 5 h) as Es0.
  { unfold sub_list. change (Z.to_nat 18) with 18%nat. rewrite drop_0, take_app_ge by lia.
    by rewrite HR. }
  assert (sub_list sizeof_radiotap 64 (R ++ h) = h) as Es1.
  { unfold sub_list. rewrite drop_app_length' by (rewrite HR; done). apply take_ge; by rewrite Hl. }
  rewrite Es0, Es1, length_app, HR, Hl. simpl.
  rewrite (proj2 (Z.leb_le n _)) by done. simpl. by rewrite <- app_assoc.
Qed.

(** The state after a send. *)
Definition sent_state (iw : iwab) (body : list Z) (len ts retried : Z) : iwab :=
  let h := h_iw (iw_wi_h iw) in
  set_iov2 (Some body, u64 len) (set_iw_head (fun _ =>
    mk_iwab_head (ih_version h) (ih_channel h) (u16 len)
      (if retried =? 0 then u32 (ih_seq h + 1) else ih_seq h) ts retried (ih_pad h)) iw).

Lemma tx_ok_sent iw body len ts retried : tx_ok iw -> tx_ok (sent_state iw body len ts retried).
Proof.
  intros []. split; simpl; try done. case_match; [apply u32_bound|done].
Qed.

Lemma iwab_send_ok writev iw body ts retried : tx_ok iw -> Z.of_nat (length body) < 2 ^ 16 ->
  let iw' := sent_state iw body (Z.of_nat (length body)) ts retried in
  iwab_send writev iw (Some body) (Z.of_nat (length body)) ts retried
  = Ok (writev (rt_sent ++ headers_bytes (iw_wi_h iw') ++ body), None,
        Some (rt_sent ++ headers_bytes (iw_wi_h iw') ++ body), iw').
Proof.
  intros Htx Hl. cbv zeta.
  change (iwab_send writev iw (Some body) (Z.of_nat (length body)) ts retried) with
    (frame ← gather (sent_state iw body (Z.of_nat (length body)) ts retried);
     Ok (writev frame, @None Z, Some frame, sent_state iw body (Z.of_nat (length body)) ts retried)).
  pose proof (tx_ok_sent iw body (Z.of_nat (length body)) ts retried Htx) as Htx'.
  rewrite (gather_ok _ body (Z.of_nat (length body)) Htx'); [|simpl; by rewrite u64_small by lia|done].
  rewrite bind_ok. unfold sub_list. rewrite drop_0, Nat2Z.id, firstn_all. done.
Qed.

(** ** Slices of concatenations *)

Lemma sub_list_skip {A} (a b : list A) off n : 0 <= off ->
  sub_list (Z.of_nat (length a) + off) n (a ++ b) = sub_list off n b.
Proof.
  intros. unfold sub_list. rewrite Z2Nat.inj_add, Nat2Z.id by lia.
  rewrite drop_app_ge by lia. do 2 f_equal. lia.
Qed.

Lemma sub_list_prefix {A} (a b : list A) off n : 0 <= off -> 0 <= n ->
  off + n <= Z.of_nat (length a) -> sub_list off n (a ++ b) = sub_list off n a.
Proof.
  intros. unfold sub_list. rewrite drop_app_le by lia.
  rewrite take_app_le by (rewrite length_drop; lia). done.
Qed.

Section received.
(** A frame as it arrives: the receiver's radiotap header, the sender's headers
    and body, and the checksum. *)
Context (rt body fcs : list Z) (len seq ts retry : Z).
Let hdr := headers_bytes (tx_headers len seq ts retry).
Let pkt := rt ++ hdr ++ body ++ fcs.
Context (Hrt : 8 <= Z.of_nat (length rt)) (Hclaim : claimed rt = Z.of_nat (length rt)).
Context (buf : list cell) (Hbuf : holds buf pkt).

Lemma hdr_length : length hdr = 64%nat.
Proof. apply tx_headers_length. Qed.

Lemma pkt_length : Z.of_nat (length pkt)
  = Z.of_nat (length rt) + 64 + Z.of_nat (length body) + Z.of_nat (length fcs).
Proof. unfold pkt. rewrite !length_app, hdr_length. lia. Qed.

(** A field of the sender's headers. *)
Lemma hdr_bytes off n : 0 <= off -> off + Z.of_nat n <= 64 ->
  buf_bytes buf (Z.of_nat (length rt) + off) n = Ok (sub_list off (Z.of_nat n) hdr).
Proof.
  intros. rewrite (buf_bytes_holds _ pkt) by (done || lia || (rewrite pkt_length; lia)).
  unfold pkt. rewrite sub_list_skip by lia. by rewrite sub_list_prefix by (rewrite ?hdr_length; lia).
Qed.

Lemma pkt_claimed : claimed pkt = Z.of_nat (length rt).
Proof. rewrite <- Hclaim. unfold claimed, pkt. by rewrite sub_list_prefix by lia. Qed.

Lemma pkt_addrs : addrs_differ buf (Z.of_nat (length rt)) (zeros 6) = Ok false.
Proof.
  unfold addrs_differ, in_dot11_addr.
  replace (Z.of_nat (length rt) + 4 + 6 * 0) with (Z.of_nat (length rt) + 4) by lia.
  replace (Z.of_nat (length rt) + 4 + 6 * 1) with (Z.of_nat (length rt) + 10) by lia.
  replace (Z.of_nat (length rt) + 4 + 6 * 2) with (Z.of_nat (length rt) + 16) by lia.
  rewrite !hdr_bytes by lia. reflexivity.
Qed.

Lemma pkt_dot11 : in_dot11_type buf (Z.of_nat (length rt)) = Ok 2 /\
  in_dot11_subtype buf (Z.of_nat (length rt)) = Ok 8.
Proof.
  unfold in_dot11_type, in_dot11_subtype, buf_word.
  rewrite <- (Z.add_0_r (Z.of_nat (length rt))), !hdr_bytes by lia. done.
Qed.

(** The parser accepts it. *)
Lemma pkt_parsed iw : iw_addr_filter iw = zeros 6 -> 0 < Z.of_nat (length body) < 2 ^ 16 ->
  Z.of_nat (length rt) < 2 ^ 16 -> length fcs = 4%nat ->
  iwab_parse iw buf (Z.of_nat (length pkt))
  = Ok (mk_read_out (Z.of_nat (length body)) None (Z.of_nat (length rt) + 64)
          (set_in 0 (Z.of_nat (length rt)) (Z.of_nat (length rt) + 26)
             (Z.of_nat (length rt) + 40) iw) buf).
Proof.
  intros Hf Hb Hr Hfcs. pose proof pkt_length as Hl. rewrite Hfcs in Hl.
  unfold iwab_parse, sizeof_radiotap, sizeof_ieee80211_head, sizeof_l2_head, sizeof_iwab_head.
  cbv zeta. set (n := Z.of_nat (length pkt)) in *.
  rewrite (proj2 (Z.leb_gt n 13)) by lia. unfold in_rt_length.
  rewrite (buf_word_holds _ pkt), bind_ok by (done || lia).
  change (le_combine (sub_list (0 + 2) (Z.of_nat 2) pkt)) with (claimed pkt). rewrite pkt_claimed.
  destruct pkt_dot11 as [Et Es]. pose proof pkt_addrs as Ea. rewrite Hf.
  set (r := Z.of_nat (length rt)) in *. clearbody n r. change (24 + 2) with 26.
  rewrite (u64_small r), (u64_small (n - r)), (proj2 (Z.leb_gt _ 24)) by lia.
  rewrite (u64_small (r + 26)), (u64_small (n - (r + 26))), (proj2 (Z.leb_gt _ 14)) by lia.
  rewrite Et. simpl. rewrite Es. simpl. rewrite Ea. simpl.
  rewrite (u64_small (r + 26 + 14)), (u64_small (n - (r + 26 + 14))), (proj2 (Z.leb_gt _ 24)) by lia.
  rewrite (u64_small (r + 26 + 14 + 24)), (u64_small (n - (r + 26 + 14 + 24))),
    (proj2 (Z.leb_gt _ 4)) by lia.
  rewrite (u64_small (r + 26 + 14 + 24 + 4)), s64_small by lia.
  f_equal. f_equal; [lia|lia|unfold set_in; do 2 f_equal; lia].
Qed.

(** The receiver reads the sender's header fields. *)
Lemma pkt_fields : let h := Z.of_nat (length rt) + 40 in
  in_iw_length buf h = Ok (u16 len) /\ in_iw_seq buf h = Ok (u32 seq) /\
  in_iw_timestamp buf h = Ok (u64 ts) /\ in_iw_retry buf h = Ok (u8 retry).
Proof.
  unfold in_iw_length, in_iw_seq, in_iw_timestamp, in_iw_retry, buf_word. cbv zeta.
  rewrite <- !Z.add_assoc, !hdr_bytes by lia. rewrite !bind_ok.
  split_and!; f_equal; [exact (le_combine_split 2 len)|exact (le_combine_split 4 seq)|
    exact (le_combine_split 8 ts)|exact (le_combine_split 1 retry)].
Qed.

Lemma pkt_body : buf_bytes buf (Z.of_nat (length rt) + 64) (length body) = Ok body.
Proof.
  rewrite (buf_bytes_holds _ pkt) by (done || lia || (rewrite pkt_length; lia)). f_equal.
  unfold pkt. rewrite sub_list_skip by lia.
  replace 64 with (Z.of_nat (length hdr) + 0) by (rewrite hdr_length; lia).
  rewrite sub_list_skip, sub_list_prefix by lia. unfold sub_list. by rewrite drop_0, Nat2Z.id, firstn_all.
Qed.
End received.

(** ** Properties *)

(** C21: what one side sends the other side reads: a frame sent by [iwab_send],
    received behind any radiotap header that states its own length, is
    accepted by [iwab_read], which returns the length of the body, points at
    the body, and exposes the sender's sequence number, timestamp, length and
    retry count. *)
Theorem send_read_roundtrip writev iw rx body ts retried rt fcs buf :
  tx_ok iw -> iw_addr_filter rx = zeros 6 -> 0 < Z.of_nat (length body) < 2 ^ 16 ->
  8 <= Z.of_nat (length rt) < 2 ^ 16 -> claimed rt = Z.of_nat (length rt) -> length fcs = 4%nat ->
  0 <= ts < 2 ^ 64 -> 0 <= retried < 256 ->
  (length rt + 64 + length body + 4 <= length buf)%nat ->
  exists r frame iw' out,
    iwab_send writev iw (Some body) (Z.of_nat (length body)) ts retried
      = Ok (r, None, Some frame, iw') /\
    iwab_read rx (Some buf) (Z.of_nat (length buf)) (RecvData (rt ++ drop 18 frame ++ fcs)) = Ok out /\
    ro_ret out = Z.of_nat (length body) /\ ro_errno out = None /\
    buf_bytes (ro_buf out) (ro_offset out) (length body) = Ok body /\
    exists h, iw_iw_in (ro_iw out) = Some h /\
      in_iw_seq (ro_buf out) h = Ok (ih_seq (h_iw (iw_wi_h iw'))) /\
      in_iw_timestamp (ro_buf out) h = Ok ts /\
      in_iw_length (ro_buf out) h = Ok (Z.of_nat (length body)) /\
      in_iw_retry (ro_buf out) h = Ok retried.
Proof.
  intros Htx Hf Hb [Hrt Hrt'] Hcl Hfcs Hts Hre Hbuf.
  pose proof (iwab_send_ok writev iw body ts retried Htx ltac:(lia)) as Es. cbv zeta in Es.
  set (iw' := sent_state iw body (Z.of_nat (length body)) ts retried) in *.
  pose proof (tx_ok_sent iw body (Z.of_nat (length body)) ts retried Htx) as Htx'. fold iw' in Htx'.
  pose proof (tx_headers_eq iw' Htx') as Eh. cbv zeta in Eh.
  set (hd := h_iw (iw_wi_h iw')) in *. rewrite Eh in Es.
  set (H := headers_bytes _) in Es.
  assert (drop 18 (rt_sent ++ H ++ body) = H ++ body) as Ed by reflexivity.
  destruct (splice_holds (rt ++ H ++ body ++ fcs) buf) as (buf' & Esp & Hh & _).
  { rewrite !length_app. unfold H. rewrite tx_headers_length. lia. }
  eexists _, _, _, _. split; [exact Es|]. split.
  { unfold iwab_read. rewrite Ed, <- app_assoc, take_ge.
    2: { rewrite !length_app. unfold H. rewrite tx_headers_length. lia. }
    rewrite Esp. simpl. apply (pkt_parsed rt body fcs _ _ _ _ Hrt Hcl buf' Hh rx); done || lia. }
  simpl. split_and!; [done..|by eapply pkt_body|].
  eexists. split; [done|].
  destruct (pkt_fields rt body fcs _ _ _ _ Hrt buf' Hh) as (-> & -> & -> & ->).
  assert (0 <= ih_seq hd < 2 ^ 32) by apply Htx'.
  split_and!; f_equal; [by rewrite u32_small| | |];
    subst hd iw'; simpl; rewrite ?u64_small, ?u16_small, ?u8_small, ?u16_small by (rewrite ?u16_small; lia); done.
Qed.

(** C36: on any received packet whose radiotap length stays within the packet,
    [iwab_read] reads only received bytes and either rejects the packet with
    EAGAIN, leaving the state alone, or delimits a non-empty payload that ends four
    bytes (the checksum) before the end of the packet.  There is one exception:
    with exactly 25 bytes behind the radiotap header the size checks wrap, and
    the packet may also be taken with a payload of -43 bytes, errno not set and
    header pointers behind the end of the packet. *)
Theorem iwab_read_within_packet iw buf pkt :
  Forall (fun b => 0 <= b < 256) pkt -> (length pkt <= length buf)%nat ->
  Z.of_nat (length pkt) < 2 ^ 32 -> claimed pkt <= Z.of_nat (length pkt) ->
  exists out, iwab_read iw (Some buf) (Z.of_nat (length buf)) (RecvData pkt) = Ok out /\
    (read_ok iw (Z.of_nat (length pkt)) (claimed pkt) out \/
     Z.of_nat (length pkt) - claimed pkt = 25 /\ read_wrapped iw (claimed pkt) out).
Proof.
  intros Hb Hl Hn Hc. unfold iwab_read. rewrite take_ge by lia.
  destruct (splice_holds pkt buf Hl) as (buf' & -> & Hh & _). simpl.
  destruct (decide (Z.of_nat (length pkt) - claimed pkt = 25)) as [H25|H25].
  - destruct (iwab_parse_25 iw buf' pkt Hh Hb Hn H25) as (out & E & _ & [R|R]); eauto.
  - destruct (iwab_parse_ok iw buf' pkt Hh Hb Hn Hc H25) as (out & E & _ & R). eauto.
Qed.

(** The sequence number counts new packets: a first transmission adds one
    (modulo 2^32), a retransmission keeps it, and neither touches the fixed
    part of the headers. *)
Theorem iwab_send_sequence writev iw body ts retried :
  tx_ok iw -> Z.of_nat (length body) < 2 ^ 16 ->
  exists r frame iw',
    iwab_send writev iw (Some body) (Z.of_nat (length body)) ts retried = Ok (r, None, Some frame, iw') /\
    tx_ok iw' /\ r = writev frame /\
    Z.of_nat (length frame) = 18 + 64 + Z.of_nat (length body) /\
    ih_seq (h_iw (iw_wi_h iw')) =
      if retried =? 0 then u32 (ih_seq (h_iw (iw_wi_h iw)) + 1) else ih_seq (h_iw (iw_wi_h iw)).
Proof.
  intros Htx Hl. pose proof (iwab_send_ok writev iw body ts retried Htx Hl) as E. cbv zeta in E.
  pose proof (tx_ok_sent iw body (Z.of_nat (length body)) ts retried Htx) as Htx'.
  eexists _, _, _. split; [exact E|]. split_and!; [done|done| |done].
  rewrite (tx_headers_eq _ Htx'), !length_app, tx_headers_length. change (length rt_sent) with 18%nat. lia.
Qed.

(** Opening an interface succeeds exactly when the socket, the interface
    lookup and the bind do; it then leaves a sender state ready for
    [iwab_send] on an open descriptor.  When the lookup or the bind fails the
    new descriptor stays open although the caller never learns it. *)
Theorem iwab_open_result env iface fds :
  match iwab_open env true (Some iface) fds with
  | (0, Some iw, fds') =>
      oe_socket env = Some (iw_fd iw) /\ tx_ok iw /\ iw_addr_filter iw = zeros 6 /\
      fst (iwab_close iw fds') = 0 /\ iw_fd iw ∈ fds'
  | (r, iw, fds') =>
      iw = None /\ r < 0 /\
      (fds' = fds <-> r = -2 \/ exists fd, oe_socket env = Some fd /\ fd ∈ fds)
  end.
Proof.
  unfold iwab_open. destruct (oe_socket env) as [fd|] eqn:Es.
  2: { split_and!; [done|lia|]. split; [by left|done]. }
  assert ({[ fd ]} ∪ fds = fds <-> exists fd0, Some fd = Some fd0 /\ fd0 ∈ fds) as Hleak.
  { split; [intros E; exists fd; set_solver|intros (? & [= <-] & ?); set_solver]. }
  destruct (oe_ioctl env (ifr_name iface)) as [idx|].
  2: { split_and!; [done|lia|]. rewrite Hleak. split; [by right|intros [?|?]; [lia|done]]. }
  destruct (oe_bind env fd idx); simpl.
  - split_and!; try done; [unfold iwab_close; simpl; by rewrite bool_decide_eq_true_2 by set_solver|set_solver].
  - split_and!; [done|lia|]. rewrite Hleak. split; [by right|intros [?|?]; [lia|done]].
Qed.

(** ** Where the code departs from its intent *)

(** The radiotap header is sent five bytes too long: [sizeof(iw->rt_h)]
    already counts the five argument bytes, so every frame starts with the 13
    bytes of the structure followed by the first five bytes of the 802.11
    header, which then follows once more. *)
Theorem radiotap_overruns writev iw body ts retried :
  tx_ok iw -> Z.of_nat (length body) < 2 ^ 16 ->
  exists r iw' frame,
    iwab_send writev iw (Some body) (Z.of_nat (length body)) ts retried = Ok (r, None, Some frame, iw') /\
    take 18 frame = radiotap_bytes (iw_rt_h iw) ++ take 5 (headers_bytes (iw_wi_h iw)) /\
    length (radiotap_bytes (iw_rt_h iw)) = 13%nat /\ rt_length (rt_head (iw_rt_h iw)) = 18.
Proof.
  intros Htx Hl. pose proof (iwab_send_ok writev iw body ts retried Htx Hl) as E. cbv zeta in E.
  eexists _, _, _. split; [exact E|]. rewrite (tx_rt _ Htx), (tx_headers_eq _ Htx). split_and!; done.
Qed.

Module NetExample.
(** An 8-byte radiotap header, a body and a buffer of uninitialised
    memory. *)
Definition rt8 : list Z := [0; 0; 8; 0; 0; 0; 0; 0].
Definition body4 : list Z := [1; 2; 3; 4].
Definition buf96 : list cell := replicate 96 None.
(** A packet of 20 bytes that claims a radiotap header of 65535. *)
Definition bad_rt : list Z := [0; 0; 255; 255] ++ zeros 16.
(** A 33-byte packet: 8 bytes of radiotap, 25 bytes with a matching header. *)
Definition short25 : list Z := rt8 ++ [136; 0] ++ zeros 23.
End NetExample.
Import NetExample.

(** A packet that claims a radiotap header longer than itself is not
    rejected: the size comparison wraps around, and the header is looked up
    outside the buffer. *)
Theorem iwab_read_long_radiotap :
  claimed bad_rt = 65535 /\ length bad_rt = 20%nat /\
  iwab_read iwab_setup (Some (replicate 1600 None)) 1600 (RecvData bad_rt) = UB.
Proof. by vm_compute. Qed.

(** With exactly 25 bytes behind the radiotap header the size comparisons
    wrap as well: the call returns -43 without setting errno and stores header
    pointers behind the end of the packet. *)
Theorem iwab_read_25_bytes :
  match iwab_read iwab_setup (Some (replicate 1600 None)) 1600 (RecvData short25) with
  | Ok out => ro_ret out = -43 /\ ro_errno out = None /\ iw_iw_in (ro_iw out) = Some 48 /\
      Z.of_nat (length short25) = 33
  | _ => False
  end.
Proof. by vm_compute. Qed.

Lemma send_read_roundtrip_witness :
  exists r frame iw' out,
    iwab_send (fun f => Z.of_nat (length f)) iwab_setup (Some body4) 4 7 0 = Ok (r, None, Some frame, iw') /\
    iwab_read iwab_setup (Some buf96) 96 (RecvData (rt8 ++ drop 18 frame ++ zeros 4)) = Ok out /\
    ro_ret out = 4.
Proof.
  destruct (send_read_roundtrip (fun f => Z.of_nat (length f)) iwab_setup iwab_setup body4 7 0 rt8
    (zeros 4) buf96) as (r & frame & iw' & out & E1 & E2 & E3 & _);
    [exact tx_ok_setup|done|simpl; lia|simpl; lia|done|done|lia|lia|simpl; lia|].
  exists r, frame, iw', out. split_and!; [exact E1|exact E2|exact E3].
Defined.

Lemma iwab_read_within_packet_witness :
  exists out, iwab_read iwab_setup (Some buf96) 96 (RecvData (rt8 ++ zeros 60)) = Ok out /\
    (read_ok iwab_setup 68 8 out \/ 68 - 8 = 25 /\ read_wrapped iwab_setup 8 out).
Proof.
  apply (iwab_read_within_packet iwab_setup buf96 (rt8 ++ zeros 60)).
  - by repeat constructor.
  - simpl; lia.
  - simpl; lia.
  - by vm_compute.
Defined.

Lemma iwab_send_sequence_witness : exists r frame iw',
  iwab_send (fun f => Z.of_nat (length f)) iwab_setup (Some body4) 4 7 0 = Ok (r, None, Some frame, iw') /\
  ih_seq (h_iw (iw_wi_h iw')) = 1.
Proof.
  destruct (iwab_send_sequence (fun f => Z.of_nat (length f)) iwab_setup body4 7 0 tx_ok_setup)
    as (r & frame & iw' & E & _ & _ & _ & Hs); [simpl; lia|].
  exists r, frame, iw'. split; [exact E|]. rewrite Hs. by vm_compute.
Defined.

Lemma radiotap_overruns_witness : exists r iw' frame,
  iwab_send (fun f => Z.of_nat (length f)) iwab_setup (Some body4) 4 7 0 = Ok (r, None, Some frame, iw').
Proof.
  destruct (radiotap_overruns (fun f => Z.of_nat (length f)) iwab_setup body4 7 0 tx_ok_setup)
    as (r & iw' & frame & E & _); [simpl; lia|]. exists r, iw', frame. exact E.
Defined.
