(* ===== verification/IwabInput.v ===== *)
(** * IwabInput: the receiving module

    Models [src/modules/iwab/iwab-input.c]: the work callback that turns
    received packets into queued audio, the callbacks of the sink input, and
    loading and unloading.

    Inputs from outside: the events and packets the kernel delivers, whether
    the sink is open, and what the sink-input code of the core answers when the
    module is loaded.  The log messages and the reset of [revents], which is the poll
    loop's, are left out.  [first_packet],
    [retries] and [iface] of the state are never read and are left out too. *)
From stdpp Require Import base tactics numbers list gmap strings.
From S2P Require Import Prelude Sample Text Modargs Memblock Mcalign Memblockq MemblockqSpec MemblockqPush.
From S2P Require Import MemblockqWrite MemblockqRead MemblockqAttr MemblockqInv IwabNet.

Definition MAX_FRAME_SIZE : Z := 1600.

Record userdata := mk_userdata {
  u_sink_input : bool;          (* the pointer is not NULL *)
  u_unload : bool;              (* pa_module_unload_request was called *)
  u_queue : pa_memblockq;
  u_rtpoll_item : option Z;     (* the descriptor it polls *)
  u_seqnb : Z;
  u_last_pb_ts : Z;
  u_istream : iwab;
  u_ss : pa_sample_spec;
  u_lost_pb : Z;
  u_lost_shown : Z              (* the number in the property iwab.lost *)
}.

Definition set_istream (iw : iwab) (u : userdata) : userdata :=
  mk_userdata (u_sink_input u) (u_unload u) (u_queue u) (u_rtpoll_item u) (u_seqnb u)
    (u_last_pb_ts u) iw (u_ss u) (u_lost_pb u) (u_lost_shown u).
Definition set_queue (q : pa_memblockq) (u : userdata) : userdata :=
  mk_userdata (u_sink_input u) (u_unload u) q (u_rtpoll_item u) (u_seqnb u)
    (u_last_pb_ts u) (u_istream u) (u_ss u) (u_lost_pb u) (u_lost_shown u).
Definition set_lost (v shown : Z) (u : userdata) : userdata :=
  mk_userdata (u_sink_input u) (u_unload u) (u_queue u) (u_rtpoll_item u) (u_seqnb u)
    (u_last_pb_ts u) (u_istream u) (u_ss u) v shown.
Definition set_received (seq ts : Z) (u : userdata) : userdata :=
  mk_userdata (u_sink_input u) (u_unload u) (u_queue u) (u_rtpoll_item u) seq ts
    (u_istream u) (u_ss u) (u_lost_pb u) (u_lost_shown u).
Definition set_rtpoll_item (v : option Z) (u : userdata) : userdata :=
  mk_userdata (u_sink_input u) (u_unload u) (u_queue u) v (u_seqnb u)
    (u_last_pb_ts u) (u_istream u) (u_ss u) (u_lost_pb u) (u_lost_shown u).

(** ** Receiving *)

(** The [for (;;)] around [iwab_read]: [rs] are the answers of [recv], a
    non-blocking socket answers EAGAIN when they are used up.  The result is
    [Some l] when a packet was accepted, with the errno left behind. *)
Fixpoint read_loop (rs : list recv_result) (id : Z) (errno : Z) (iw : iwab) (st : store)
    : outcome (option Z * Z * Z * iwab * store) :=
  '(p, st) ← pa_memblock_acquire id st;
  blen ← pa_memblock_get_length id st;
  let r := match rs with r :: _ => r | [] => RecvErr EAGAIN end in
  out ← iwab_read iw (Some p) blen r;
  st ← write_data id 0 (ro_buf out) st;
  st ← pa_memblock_release id st;
  let errno := default errno (ro_errno out) in
  if ro_ret out <? 0 then
    if errno =? EINTR then
      match rs with
      | _ :: rs => read_loop rs id errno (ro_iw out) st
      | [] => Ok (None, ro_offset out, errno, ro_iw out, st)
      end
    else Ok (None, ro_offset out, errno, ro_iw out, st)
  else Ok (Some (ro_ret out), ro_offset out, errno, ro_iw out, st).

(** [while (missing > 0)]: fill a gap with copies of the packet that followed
    it. *)
Fixpoint fill_loop (fuel : nat) (missing : Z) (newchunk : pa_memchunk) (q : pa_memblockq) (st : store)
    : outcome (pa_memblockq * store) :=
  if missing <=? 0 then Ok (q, st)
  else
    match fuel with
    | O => UB
    | S fuel =>
        let len := if missing <? mc_length newchunk then missing else mc_length newchunk in
        let filler := mk_chunk (mc_memblock newchunk) (mc_index newchunk) len in
        '(_, (q, st)) ← pa_memblockq_push q filler st;
        fill_loop fuel (u64 (missing - len)) newchunk q st
    end.

(** Enough rounds for the loop to end by itself. *)
Definition fill_fuel (missing len : Z) : nat := Z.to_nat (missing / len + 1).

(** [ignore:] *)
Definition ignore (id : Z) (u : userdata) (st : store) : outcome (Z * (userdata * store)) :=
  st ← pa_memblock_unref id st;
  Ok (0, (u, st)).

(** Filling the gap before a packet that does not follow the last one. *)
Definition fill_gap (seq ts : Z) (newchunk : pa_memchunk) (u : userdata) (st : store)
    : outcome (userdata * store) :=
  if negb (u_seqnb u =? 0) && negb (seq =? u32 (u_seqnb u + 1)) then
    let lost := u64 (u_lost_pb u + u64 (ts - u_last_pb_ts u)) in
    let u := set_lost lost (lost / 1000) u in
    _ ← pa_assert (u_last_pb_ts u <? ts);
    missing ← pa_usec_to_bytes (u64 (ts - u_last_pb_ts u)) (u_ss u);
    '(q, st) ← fill_loop (fill_fuel missing (mc_length newchunk)) missing newchunk (u_queue u) st;
    Ok (set_queue q u, st)
  else Ok (u, st).

(** What happens to an accepted packet [newchunk] with header [h]. *)
Definition take_packet (id : Z) (newchunk : pa_memchunk) (u : userdata) (st : store)
    : outcome (Z * (userdata * store)) :=
  h ← deref (iw_iw_in (u_istream u));
  b ← deref (st_blocks st !! id);
  seq ← in_iw_seq (mb_data b) h;
  if seq =? u_seqnb u then ignore id u st
  else
    al ← pa_frame_aligned (mc_length newchunk) (u_ss u);
    _ ← pa_assert al;
    if negb (u_seqnb u =? 0) && (seq <? u_seqnb u) then ignore id u st
    else
      ts ← in_iw_timestamp (mb_data b) h;
      if negb (u_last_pb_ts u =? 0) && (ts <? u_last_pb_ts u) then ignore id u st
      else
        '(u, st) ← fill_gap seq ts newchunk u st;
        '(_, (q, st)) ← pa_memblockq_push (u_queue u) newchunk st;
        dur ← pa_bytes_to_usec (mc_length newchunk) (u_ss u);
        let u := set_received seq (u64 (ts + dur)) (set_queue q u) in
        st ← pa_memblock_unref id st;
        Ok (1, (u, st)).

Definition POLLIN : Z := 1.
(** POLLERR | POLLNVAL | POLLHUP | POLLOUT *)
Definition BAD_REVENTS : Z := Z.lor (Z.lor 8 32) (Z.lor 16 4).

Definition rtpoll_work_cb (revents : Z) (opened : bool) (errno : Z) (rs : list recv_result)
    (u : userdata) (st : store) : outcome (Z * (userdata * store)) :=
  if negb (Z.land revents BAD_REVENTS =? 0) then Ok (-1, (u, st))
  else if Z.land revents POLLIN =? 0 then Ok (0, (u, st))
  else if negb opened then Ok (0, (u, st))
  else
    '(id, st) ← pa_memblock_new MAX_FRAME_SIZE st;
    '(r, index, _, iw, st) ← read_loop rs id errno (u_istream u) st;
    let u := set_istream iw u in
    match r with
    | None => ignore id u st
    | Some l => take_packet id (mk_chunk (Some id) index (u64 l)) u st
    end.

(** ** Callbacks of the sink input *)

(** The latency [sink_input_process_msg] stores for GET_LATENCY, before the
    default handler adds its own. *)
Definition sink_input_process_msg (u : userdata) : outcome Z :=
  pa_bytes_to_usec (pa_memblockq_get_length (u_queue u)) (u_ss u).

Definition sink_input_process_rewind_cb (nbytes : Z) (u : userdata) : outcome userdata :=
  q ← pa_memblockq_rewind (u_queue u) nbytes;
  Ok (set_queue q u).

Definition sink_input_pop_cb (u : userdata) (st : store)
    : outcome (option pa_memchunk * (userdata * store)) :=
  '(r, (q, st)) ← pa_memblockq_peek (u_queue u) st;
  match r with
  | None => Ok (None, (set_queue q u, st))
  | Some chunk =>
      '(q, st) ← pa_memblockq_drop q (mc_length chunk) st;
      Ok (Some chunk, (set_queue q u, st))
  end.

Definition sink_input_kill_cb (u : userdata) : outcome userdata :=
  _ ← pa_assert (u_sink_input u);
  Ok (mk_userdata false true (u_queue u) (u_rtpoll_item u) (u_seqnb u) (u_last_pb_ts u)
        (u_istream u) (u_ss u) (u_lost_pb u) (u_lost_shown u)).

Definition sink_input_attach (u : userdata) : outcome userdata :=
  _ ← pa_assert (bool_decide (u_rtpoll_item u = None));
  Ok (set_rtpoll_item (Some (iw_fd (u_istream u))) u).

Definition sink_input_detach (u : userdata) : outcome userdata :=
  _ ← pa_assert (bool_decide (is_Some (u_rtpoll_item u)));
  Ok (set_rtpoll_item None u).

(** ** Loading and unloading *)

Definition valid_modargs : list cstring := [str "sink"; str "iface"].
Definition DEFAULT_IFACE : cstring := str "mon0".

(** The argument of the module and the answers of the core while it is loaded:
    does the named sink exist, or the default one without a name, is the sink
    input created, and the silence chunk it provides (with a reference of its
    own). *)
Record init_env := mk_init_env {
  ie_argument : option cstring;
  ie_open : open_env;
  ie_sink : option cstring -> bool;
  ie_sink_input : bool;
  ie_silence : pa_memchunk;
  ie_lost_pb : Z                (* what the allocator left in lost_pb *)
}.

Definition iwab_spec : pa_sample_spec := mk_sample_spec PA_SAMPLE_S16LE 44100 2.

(** [fail:] with [u] allocated and the interface open. *)
Definition init_fail (iw : iwab) (fds : gset Z) : outcome (Z * option userdata * gset Z) :=
  if iw_fd iw =? 0 then Ok (-1, None, fds)
  else
    let '(r, fds) := iwab_close iw fds in
    _ ← pa_assert (r =? 0);
    Ok (-1, None, fds).

Definition pa__init (env : init_env) (fds : gset Z) (st : store)
    : outcome (Z * option userdata * gset Z * store) :=
  ma ← pa_modargs_new (ie_argument env) (Some valid_modargs);
  match ma with
  | None => UB                            (* u->istream.fd with u == NULL *)
  | Some ma =>
      if negb (pa_sample_spec_valid iwab_spec) then UB   (* fd is not set yet *)
      else
        iface ← pa_modargs_get_value ma (str "iface") (Some DEFAULT_IFACE);
        match iwab_open (ie_open env) true (name_of <$> iface) fds with
        | (_, None, _) => UB              (* fd is not set on failure *)
        | (_, Some iw, fds) =>
            sink ← pa_modargs_get_value ma (str "sink") None;
            if negb (ie_sink env sink && ie_sink_input env) then
              '(r, u, fds) ← init_fail iw fds;
              Ok (r, u, fds, st)
            else
              '(q, st) ← pa_memblockq_new 0 (10 * MAX_FRAME_SIZE) (5 * MAX_FRAME_SIZE) iwab_spec
                           (5 * MAX_FRAME_SIZE) 0 0 (Some (ie_silence env)) st;
              id ← deref (mc_memblock (ie_silence env));
              st ← pa_memblock_unref id st;
              Ok (0, Some (mk_userdata true false q None 0 0 iw iwab_spec (ie_lost_pb env) 0), fds, st)
        end
  end.

Definition pa__done (u : option userdata) (fds : gset Z) (st : store) : outcome (gset Z * store) :=
  match u with
  | None => Ok (fds, st)
  | Some u =>
      st ← pa_memblockq_free (u_queue u) st;
      if iw_fd (u_istream u) =? 0 then Ok (fds, st)
      else
        let '(r, fds) := iwab_close (u_istream u) fds in
        _ ← pa_assert (r =? 0);
        Ok (fds, st)
  end.
