(* ===== verification/IwabInputProps.v ===== *)
(** * IwabInputProps: what the receiving module does with a packet

    Ties the packet layer, the memory blocks and the queue together: a packet
    that arrives ends up in the queue, gaps are filled, repeats are ignored,
    and no reference is lost on the way. *)
From stdpp Require Import base tactics numbers list gmap strings.
From S2P Require Import Prelude Sample Text Proplist Modargs ModargsProps Memblock Mcalign Memblockq MemblockqSpec MemblockqPush.
From S2P Require Import MemblockqWrite MemblockqRead MemblockqAttr MemblockqInv MemblockqAlign MemblockqFrames MemblockqFifo IwabNet IwabInput.

#[local] Arguments iwab_read : simpl never.

(** ** Pushing, with both results *)

(** There is room when the new end stays within [maxlength]. *)
Lemma can_push_room q l : bq_read_index q <= bq_write_index q ->
  bq_write_index q + l - bq_read_index q <= bq_maxlength q -> can_push q l = true.
Proof.
  intros H1 H2. unfold can_push. rewrite (proj2 (Z.ltb_ge _ _)) by lia.
  case_match; [|done]. apply negb_true_iff, Z.ltb_ge. lia.
Qed.

(** ** Filling gaps *)

Record fill_pre (q : pa_memblockq) (c : pa_memchunk) (st : store) : Prop := {
  fp_inv : queue_inv q st;
  fp_chunk : chunk_in st c;
  fp_refs : forall j, owned q j + chunk_refs c j <= refs st j;
  fp_len : mc_length c mod bq_base q = 0;
  fp_idx : mc_index c mod bq_base q = 0
}.

Lemma fill_pre_next q c st q' st' : fill_pre q c st -> queue_inv q' st' -> keeps st st' ->
  fixed q' = fixed q -> (forall j, ext q' st' j = ext q st j) -> fill_pre q' c st'.
Proof.
  intros [H1 H2 H3 H4 H5] Hi K Hf Hx. unfold fixed in Hf. injection Hf as Eb _ _ Es.
  assert (forall j, owned q' j + chunk_refs c j <= refs st' j) as Hr.
  { intros j. specialize (H3 j). specialize (Hx j). unfold owned, ext in *. rewrite Es. lia. }
  split; try done; [|by rewrite Eb..]. apply (chunk_in_keeps st); [done..|].
  intros id Em. specialize (Hr id). rewrite (chunk_refs_some _ _ Em) in Hr.
  unfold owned in Hr. pose proof (items_refs_nonneg (bq_blocks q') id).
  pose proof (chunk_refs_nonneg (bq_silence q') id). lia.
Qed.

(** A filler chunk: the packet, or its first part. *)
Lemma fill_filler q c st len : fill_pre q c st -> 0 < len <= mc_length c -> len mod bq_base q = 0 ->
  Z.of_nat (length (bq_blocks q)) + 2 < 2 ^ 32 ->
  cmd_ok (CPush (mk_chunk (mc_memblock c) (mc_index c) len)) q st.
Proof.
  intros [H1 H2 H3 H4 H5] Hl Hm Hroom. split_and!; try done.
  destruct H2 as (id & Em & ? & ? & ? & ?). exists id. simpl. split_and!; try done; lia.
Qed.

(** [n] bytes of copies of [data]. *)
Definition copies {A} (n : nat) (data : list A) : list A := take n (concat (replicate n data)).

Lemma copies_enough {A} (data : list A) m : forall n k, (n <= m * length data)%nat -> (n <= k * length data)%nat ->
  take n (concat (replicate m data)) = take n (concat (replicate k data)).
Proof.
  induction m as [|m IH]; intros n k Hm Hk; [by replace n with 0%nat by lia|].
  destruct k as [|k]; [by replace n with 0%nat by lia|]. simpl. rewrite !take_app. f_equal. apply IH; lia.
Qed.

Lemma copies_eq {A} (data : list A) n m : data <> [] -> (n <= m * length data)%nat ->
  take n (concat (replicate m data)) = copies n data.
Proof. intros Hd Hm. apply copies_enough; [done|]. destruct data; [done|]. simpl. lia. Qed.

Lemma copies_length {A} (data : list A) n : data <> [] -> length (copies n data) = n.
Proof.
  intros Hd. unfold copies. rewrite length_take, length_concat, fmap_replicate, sum_list_replicate.
  destruct data; [done|]. simpl. lia.
Qed.

(** The loop ends, keeps every invariant, and advances the write position by
    the whole gap when there is room for it. *)
Lemma fill_loop_spec fuel : forall missing q c st, fill_pre q c st ->
  0 <= missing < 2 ^ 63 -> missing mod bq_base q = 0 -> missing <= Z.of_nat fuel * mc_length c ->
  Z.of_nat (length (bq_blocks q)) + 2 * Z.of_nat fuel + 2 < 2 ^ 32 ->
  exists q' st', fill_loop fuel missing c q st = Ok (q', st') /\ fill_pre q' c st' /\ keeps st st' /\
    fixed q' = fixed q /\ (forall j, ext q' st' j = ext q st j) /\
    Z.of_nat (length (bq_blocks q')) <= Z.of_nat (length (bq_blocks q)) + 2 * Z.of_nat fuel /\
    (bq_read_index q <= bq_write_index q ->
     bq_write_index q + missing - bq_read_index q <= bq_maxlength q ->
     bq_write_index q' = bq_write_index q + missing) /\
    (fifo_ok q st -> bq_write_index q + missing - bq_read_index q <= bq_maxlength q -> bq_write_index q + missing < 2 ^ 62 ->
     appended q st (take (Z.to_nat missing) (concat (replicate fuel (chunk_bytes st c)))) q' st').
Proof.
  induction fuel as [|fuel IH]; intros missing q c st Hp Hm Hmod Hf Hroom.
  { cbn [fill_loop]. rewrite (proj2 (Z.leb_le _ _)) by lia. exists q, st. split_and!; try done; try lia.
    intros Hf0 _ _. replace (Z.to_nat missing) with 0%nat by lia. by apply appended_refl. }
  cbn [fill_loop]. destruct (Z.leb_spec missing 0) as [H0|H0].
  { exists q, st. split_and!; try done; try lia. intros Hf0 _ _. replace (Z.to_nat missing) with 0%nat by lia.
    by apply appended_refl. }
  pose proof (chunk_in_bound _ _ (qi_store _ _ (fp_inv _ _ _ Hp)) (fp_chunk _ _ _ Hp)) as Hb.
  pose proof (qi_base _ _ (fp_inv _ _ _ Hp)) as Hbase.
  set (len := if missing <? mc_length c then missing else mc_length c).
  assert (0 < len <= mc_length c /\ len <= missing /\ len mod bq_base q = 0) as (Hl1 & Hl2 & Hl3).
  { subst len. destruct (Z.ltb_spec missing (mc_length c)); split_and!; try done; try lia. apply Hp. }
  destruct (push_both q (mk_chunk (mc_memblock c) (mc_index c) len) st)
    as (r & q1 & st1 & E & Hi & K & Fx & X & L & Hres); [apply Hp|apply fill_filler; done || lia|].
  cbv zeta. fold len. rewrite E. simpl. rewrite u64_small by lia.
  pose proof (fill_pre_next _ _ _ _ _ Hp Hi K Fx X) as Hp1.
  pose proof Fx as Fx'. unfold fixed in Fx'. injection Fx' as Eb Em Er _.
  destruct (IH (missing - len) q1 c st1 Hp1) as (q' & st' & E2 & Hp' & K2 & Fx2 & X2 & L2 & W2 & A2);
    [lia|rewrite Eb; by apply mod_sub_0| |lia|].
  { subst len. destruct (Z.ltb_spec missing (mc_length c)); nia. }
  exists q', st'. split_and!; try done.
  - apply (keeps_trans _ st1); [apply Hp|apply Hp1|done..].
  - by rewrite Fx2.
  - intros j. by rewrite X2.
  - lia.
  - intros Hri Hfit. rewrite (can_push_room q) in Hres by (simpl; lia). simpl in Hres.
    destruct Hres as (_ & Ew & _). rewrite W2; lia.
  - intros Hf0 Hfit Hlim. set (f := mk_chunk (mc_memblock c) (mc_index c) len) in *.
    assert (cmd_ok (CPush f) q st) as Hcmd by (apply fill_filler; done || lia).
    destruct (fifo_push q f st Hf0 Hcmd) as (q1' & st1' & E1' & A1 & _); [simpl; lia..|].
    rewrite E in E1'. injection E1' as _ <- <-.
    pose proof (ad_write _ _ _ _ _ A1) as Ew1. rewrite chunk_bytes_length in Ew1 by apply Hcmd. simpl in Ew1.
    assert (chunk_bytes st1 c = chunk_bytes st c) as Ebytes.
    { apply (chunk_in_keeps st); [done|apply Hp|]. intros id Em'. destruct (fp_chunk _ _ _ Hp1) as (id2 & Em2 & Hr2 & _).
      by assert (id = id2) as -> by congruence. }
    pose proof (A2 (ad_ok _ _ _ _ _ A1) ltac:(lia) ltac:(lia)) as A2'. rewrite Ebytes in A2'.
    pose proof (chunk_bytes_length _ _ (fp_chunk _ _ _ Hp)) as Elen.
    simpl. rewrite take_app. replace (Z.to_nat missing - length (chunk_bytes st c))%nat with (Z.to_nat (missing - len))
      by (subst len; destruct (Z.ltb_spec missing (mc_length c)); lia).
    eapply appended_trans; [apply Hp| |exact A2'].
    replace (take (Z.to_nat missing) (chunk_bytes st c)) with (chunk_bytes st f); [done|].
    unfold chunk_bytes, f, sub_list. simpl. destruct (fp_chunk _ _ _ Hp) as (id & -> & _). rewrite take_take. f_equal.
    subst len. destruct (Z.ltb_spec missing (mc_length c)); lia.
Qed.

(** ** Reading a packet into a block *)

Lemma splice_all {A} (src dst : list A) : length src = length dst -> splice 0 src dst = Some src.
Proof.
  intros E. unfold splice. rewrite (proj2 (andb_true_iff _ _)) by blia. simpl.
  rewrite E, drop_all, app_nil_r. done.
Qed.

Lemma set_block_twice id b b' st : set_block id b (set_block id b' st) = set_block id b st.
Proof. unfold set_block. simpl. by rewrite insert_insert_eq. Qed.

Lemma get_block_set id b st : 0 < mb_refcnt b -> get_block id (set_block id b st) = Ok b.
Proof.
  intros. unfold get_block. simpl. rewrite lookup_insert_eq. simpl. by rewrite pa_assert_true by blia.
Qed.

Lemma write_data_set id b src st : length src = length (mb_data b) ->
  write_data id 0 src (set_block id b st) = Ok (set_block id (with_data src b) st).
Proof.
  intros. unfold write_data. simpl. rewrite lookup_insert_eq. simpl. rewrite splice_all by done.
  simpl. by rewrite set_block_twice.
Qed.

Lemma read_loop_step r rs id errno iw st b out :
  store_ok st -> st_blocks st !! id = Some b ->
  iwab_read iw (Some (mb_data b)) (mb_length b) r = Ok out ->
  length (ro_buf out) = length (mb_data b) ->
  default errno (ro_errno out) <> EINTR ->
  read_loop (r :: rs) id errno iw st
  = Ok (if ro_ret out <? 0 then None else Some (ro_ret out), ro_offset out,
        default errno (ro_errno out), ro_iw out, set_block id (with_data (ro_buf out) b) st).
Proof.
  intros [Hwf Hq] Hb Er El He. pose proof (wf_block _ Hwf _ _ Hb) as [].
  cbn [read_loop]. unfold pa_memblock_acquire, pa_memblock_get_length, pa_memblock_release.
  rewrite (get_block_ok _ Hwf _ _ Hb), !bind_ok. rewrite get_block_set, !bind_ok by done. simpl.
  rewrite Er, bind_ok, write_data_set, bind_ok by done. rewrite get_block_set, bind_ok by done.
  rewrite pa_assert_true, !bind_ok, set_block_twice by (simpl; blia).
  rewrite (proj2 (Z.eqb_neq _ EINTR)) by done. simpl.
  assert (with_n_acquired (mb_n_acquired b + 1 - 1)
    (with_data (ro_buf out) (with_n_acquired (mb_n_acquired b + 1) b)) = with_data (ro_buf out) b) as ->.
  { destruct b. unfold with_n_acquired, with_data; simpl. f_equal. lia. }
  by destruct (ro_ret out <? 0).
Qed.

(** The store with a received packet in a fresh block. *)
Definition landed (st st' : store) (id : Z) (buf : list cell) : Prop :=
  store_ok st' /\ keeps st st' /\ id = st_next st /\
  (forall j, refs st' j = refs st j + delta id 1 j) /\ bytes st' id = buf /\
  st_blocks st' !! id <> None.

Lemma landed_write st st1 id len buf b : store_ok st -> fresh_block st st1 id len ->
  st_blocks st1 !! id = Some b -> length buf = length (mb_data b) ->
  landed st (set_block id (with_data buf b) st1) id buf.
Proof.
  intros [Hwf0 Hq0] (Hok1 & K1 & En & R1 & _ & F1 & _) Hb Hl. pose proof Hok1 as [Hwf Hq].
  pose proof (wf_block _ Hwf _ _ Hb) as [].
  assert (forall j, refs (set_block id (with_data buf b) st1) j = refs st1 j) as R2.
  { intros j. rewrite refs_set_block. case_decide; [|done]. subst j. unfold refs. by rewrite Hb. }
  split_and!; try done.
  - split; [|apply quiet_set_block; [done|]; apply (Hq _ _ Hb)].
    apply (wf_set_block _ Hwf _ b); simpl; done || lia.
  - apply (keeps_new_block st st1 id b); [done|done|lia|done|done].
  - intros j. by rewrite R2.
  - rewrite bytes_set_block. by rewrite decide_True.
  - simpl. rewrite lookup_insert_eq. done.
Qed.

(** Giving the block back leaves the references as they were before. *)
Lemma landed_unref st st' id buf : store_ok st -> landed st st' id buf ->
  exists st2, pa_memblock_unref id st' = Ok st2 /\ store_ok st2 /\ keeps st st2 /\
    forall j, refs st2 j = refs st j.
Proof.
  intros Hok (Hok' & K & En & R & _ & _).
  assert (0 < refs st' id) as Hr.
  { rewrite R. unfold delta. rewrite decide_True by done. pose proof (refs_nonneg st id ltac:(apply Hok)). lia. }
  destruct (pa_memblock_unref_spec st' id Hok' Hr) as (st2 & E & Hok2 & K2 & _ & R2).
  exists st2. split_and!; try done.
  - apply (keeps_trans _ st'); [apply Hok|apply Hok'|done..].
  - intros j. rewrite R2, R. change (-1) with (- (1)). rewrite delta_opp. lia.
Qed.

(** The state of the module between two calls. *)
Record input_ok (u : userdata) (st : store) : Prop := {
  io_queue : queue_inv (u_queue u) st;
  io_ss : u_ss u = iwab_spec;
  io_base : bq_base (u_queue u) = 4;
  io_filter : iw_addr_filter (u_istream u) = zeros 6;
  io_seq : 0 <= u_seqnb u < 2 ^ 32;
  io_ts : 0 <= u_last_pb_ts u < 2 ^ 64
}.

Lemma iwab_spec_ok : spec_ok iwab_spec.
Proof. split; [by vm_compute|unfold iwab_spec, PA_SAMPLE_S16LE; simpl; lia]. Qed.

(** The bytes of audio missing before a packet. *)
Definition gap_bytes (u : userdata) (seq ts : Z) : Z :=
  if negb (u_seqnb u =? 0) && negb (seq =? u32 (u_seqnb u + 1))
  then u64 (u64 (u64 (ts - u_last_pb_ts u) * 44100) / 1000000 * 4) else 0.

Lemma gap_bytes_range u seq ts : 0 <= gap_bytes u seq ts < 2 ^ 64 /\ gap_bytes u seq ts mod 4 = 0.
Proof.
  unfold gap_bytes. destruct (_ && _); [|done]. split; [apply u64_bound|].
  generalize (u64 (u64 (ts - u_last_pb_ts u) * 44100) / 1000000). intros x. unfold u64.
  change (2 ^ 64) with (2 ^ 62 * 4). rewrite Z.mul_mod_distr_r by lia. apply Z.mod_mul. lia.
Qed.

Lemma landed_inv u st st' id buf' : input_ok u st -> landed st st' id buf' ->
  queue_inv (u_queue u) st' /\ forall j, owned (u_queue u) j + delta id 1 j <= refs st' j.
Proof.
  intros Hu (Hok & K & En & R & _). pose proof (qi_owned _ _ (io_queue _ _ Hu)) as Ho.
  assert (forall j, owned (u_queue u) j + delta id 1 j <= refs st' j) as Hr
    by (intros j; rewrite R; specialize (Ho j); lia).
  split; [|done]. apply (inv_env _ st); try done; [apply Hu|].
  intros j. specialize (Hr j). pose proof (delta_nonneg id 1 j). lia.
Qed.
Section packet.
(** A packet of the sender received behind a radiotap header of [rt]. *)
Context (rt body fcs : list Z) (seq ts retry : Z).
Let pkt := rt ++ headers_bytes (tx_headers (Z.of_nat (length body)) seq ts retry) ++ body ++ fcs.
Context (Hrt : 8 <= Z.of_nat (length rt)) (Hclaim : claimed rt = Z.of_nat (length rt)).
Context (Hbody : 0 < Z.of_nat (length body)) (Hfcs : length fcs = 4%nat).
Context (Hseq : 0 <= seq < 2 ^ 32) (Hts : 0 <= ts < 2 ^ 64).
Context (Hsize : Z.of_nat (length rt) + 64 + Z.of_nat (length body) + 4 <= MAX_FRAME_SIZE).

Lemma pkt_len : Z.of_nat (length pkt) = Z.of_nat (length rt) + 64 + Z.of_nat (length body) + 4.
Proof. unfold pkt. rewrite !length_app, tx_headers_length, Hfcs. lia. Qed.

(** Reading it into a buffer of 1600 bytes. *)
Lemma packet_read iw buf : iw_addr_filter iw = zeros 6 -> length buf = 1600%nat ->
  exists buf', holds buf' pkt /\ length buf' = 1600%nat /\
  iwab_read iw (Some buf) 1600 (RecvData pkt)
  = Ok (mk_read_out (Z.of_nat (length body)) None (Z.of_nat (length rt) + 64)
          (set_in 0 (Z.of_nat (length rt)) (Z.of_nat (length rt) + 26)
             (Z.of_nat (length rt) + 40) iw) buf').
Proof.
  intros Hf Hl. pose proof pkt_len as Hpl. unfold MAX_FRAME_SIZE in Hsize.
  destruct (splice_holds pkt buf) as (buf' & E & Hh & Hl'); [lia|].
  exists buf'. split_and!; [done|congruence|]. unfold iwab_read. rewrite take_ge by lia.
  rewrite E. simpl. apply pkt_parsed; done || lia.
Qed.

(** The block, the chunk and the header after the read. *)
Definition chunk_of (id : Z) : pa_memchunk :=
  mk_chunk (Some id) (Z.of_nat (length rt) + 64) (Z.of_nat (length body)).

Lemma landed_chunk st st' id buf' : landed st st' id buf' -> holds buf' pkt -> length buf' = 1600%nat ->
  store_ok st -> chunk_in st' (chunk_of id) /\ chunk_bytes st' (chunk_of id) = Some <$> body.
Proof.
  intros (Hok & _ & En & R & B & _) Hh Hl [Hwf _]. unfold MAX_FRAME_SIZE in Hsize. split.
  - exists id. simpl. rewrite R, B, Hl. unfold delta. rewrite decide_True by done.
    pose proof (refs_nonneg st id Hwf). split_and!; try done; lia.
  - unfold chunk_bytes. simpl. rewrite B. destruct Hh as [rest ->].
    rewrite sub_list_prefix by (rewrite ?length_fmap, ?pkt_len; lia).
    unfold pkt. rewrite fmap_app. rewrite <- (length_fmap Some rt), sub_list_skip by lia.
    rewrite fmap_app. replace 64 with (Z.of_nat (length (Some <$>
      headers_bytes (tx_headers (Z.of_nat (length body)) seq ts retry))) + 0)
      by (rewrite length_fmap, tx_headers_length; lia).
    rewrite sub_list_skip, fmap_app, sub_list_prefix by (rewrite ?length_fmap; lia).
    unfold sub_list. rewrite drop_0, Nat2Z.id, take_ge by (rewrite length_fmap; lia). done.
Qed.

(** The work callback up to the point where the packet is taken. *)
Lemma work_reaches u st errno rs : input_ok u st -> errno <> EINTR ->
  msum mb_length (st_blocks st) + MAX_FRAME_SIZE < 2 ^ 31 ->
  exists id st' buf', landed st st' id buf' /\ holds buf' pkt /\ length buf' = 1600%nat /\
  rtpoll_work_cb POLLIN true errno (RecvData pkt :: rs) u st
  = take_packet id (chunk_of id)
      (set_istream (set_in 0 (Z.of_nat (length rt)) (Z.of_nat (length rt) + 26)
         (Z.of_nat (length rt) + 40) (u_istream u)) u) st'.
Proof.
  intros Hu He Hsum. pose proof (qi_store _ _ (io_queue _ _ Hu)) as Hok.
  destruct (pa_memblock_new_spec st MAX_FRAME_SIZE Hok ltac:(done) Hsum) as (id & st1 & E1 & Hfr).
  pose proof Hfr as (Hok1 & _ & _ & _ & (b & Hb & _ & Hd) & _).
  pose proof (bwf_len _ _ (wf_block _ (proj1 Hok1) _ _ Hb)) as Hbl.
  assert (length (mb_data b) = 1600%nat) as Hdl by (rewrite Hd; apply length_replicate).
  destruct (packet_read (u_istream u) (mb_data b) (io_filter _ _ Hu) Hdl) as (buf' & Hh & Hl' & Er).
  exists id, (set_block id (with_data buf' b) st1), buf'. split_and!; try done.
  { eapply landed_write; [done|exact Hfr|done|congruence]. }
  unfold rtpoll_work_cb. change (Z.land POLLIN BAD_REVENTS =? 0) with true.
  change (Z.land POLLIN POLLIN =? 0) with false. cbn [negb]. rewrite E1, bind_ok.
  assert (mb_length b = 1600) as Hb16 by lia. rewrite <- Hb16 in Er.
  rewrite (read_loop_step _ _ _ _ _ _ b _ Hok1 Hb Er); [|simpl; congruence|done].
  simpl. rewrite (proj2 (Z.ltb_ge _ 0)) by lia. unfold chunk_of. rewrite u64_small; [done|].
  unfold MAX_FRAME_SIZE in Hsize. lia.
Qed.

(** The header fields [take_packet] looks at. *)
Lemma packet_header st st' id buf' : landed st st' id buf' -> holds buf' pkt ->
  exists b, st_blocks st' !! id = Some b /\
    in_iw_seq (mb_data b) (Z.of_nat (length rt) + 40) = Ok seq /\
    in_iw_timestamp (mb_data b) (Z.of_nat (length rt) + 40) = Ok ts.
Proof.
  intros (_ & _ & _ & _ & B & Hsome) Hh. destruct (st_blocks st' !! id) as [b|] eqn:Eb; [|done].
  exists b. split; [done|]. unfold bytes in B. rewrite Eb in B. simpl in B. rewrite B.
  destruct (pkt_fields rt body fcs _ seq ts retry Hrt buf' Hh) as (_ & -> & -> & _).
  by rewrite u32_small, u64_small.
Qed.

End packet.

(** ** Taking a packet *)

(** The gap, filled. *)
Lemma fill_gap_spec seq ts c u st : fill_pre (u_queue u) c st -> u_ss u = iwab_spec ->
  bq_base (u_queue u) = 4 -> 0 <= u_last_pb_ts u < 2 ^ 64 -> 0 <= ts < 2 ^ 64 ->
  (negb (u_seqnb u =? 0) && negb (seq =? u32 (u_seqnb u + 1)) = true -> u_last_pb_ts u < ts) ->
  bq_read_index (u_queue u) <= bq_write_index (u_queue u) ->
  bq_write_index (u_queue u) + gap_bytes u seq ts - bq_read_index (u_queue u)
    <= bq_maxlength (u_queue u) ->
  Z.of_nat (length (bq_blocks (u_queue u))) + 2 * gap_bytes u seq ts + 6 < 2 ^ 32 ->
  exists u' st', fill_gap seq ts c u st = Ok (u', st') /\
    fill_pre (u_queue u') c st' /\ keeps st st' /\ fixed (u_queue u') = fixed (u_queue u) /\
    (forall j, ext (u_queue u') st' j = ext (u_queue u) st j) /\
    bq_write_index (u_queue u') = bq_write_index (u_queue u) + gap_bytes u seq ts /\
    Z.of_nat (length (bq_blocks (u_queue u'))) + 2 < 2 ^ 32 /\
    u_istream u' = u_istream u /\ u_ss u' = u_ss u /\
    (fifo_ok (u_queue u) st -> bq_write_index (u_queue u) + gap_bytes u seq ts < 2 ^ 62 ->
     appended (u_queue u) st (copies (Z.to_nat (gap_bytes u seq ts)) (chunk_bytes st c)) (u_queue u') st').
Proof.
  intros Hp Hss Hb Hl Ht Hlt Hri Hfit Hroom. unfold fill_gap.
  destruct (gap_bytes_range u seq ts) as [Hg Hg4].
  destruct (_ && _) eqn:Egap.
  - specialize (Hlt eq_refl). simpl. rewrite pa_assert_true by blia. simpl. rewrite Hss.
    rewrite (pa_usec_to_bytes_ok iwab_spec iwab_spec_ok). simpl.
    change (frame_size iwab_spec) with 4. change PA_USEC_PER_SEC with 1000000.
    assert (gap_bytes u seq ts = u64 (u64 (u64 (ts - u_last_pb_ts u) * 44100) / 1000000 * 4)) as <-
      by (unfold gap_bytes; by rewrite Egap).
    set (m := gap_bytes u seq ts) in *. clearbody m.
    pose proof (chunk_in_bound _ _ (qi_store _ _ (fp_inv _ _ _ Hp)) (fp_chunk _ _ _ Hp)) as Hcb.
    destruct (ao_sizes _ (qi_attr _ _ (fp_inv _ _ _ Hp))) as [_ [Hml _] _ _ _]. unfold len_max in Hml.
    assert (0 <= m / mc_length c <= m) as Hdiv.
    { split; [apply Z.div_pos; lia|]. apply Z.div_le_upper_bound; nia. }
    destruct (fill_loop_spec (fill_fuel m (mc_length c)) m (u_queue u) c st Hp)
      as (q' & st' & E & Hp' & K & Fx & X & L & W & A); [lia|by rewrite Hb| |unfold fill_fuel; lia|].
    { unfold fill_fuel. pose proof (Z.div_mod m (mc_length c)). pose proof (Z.mod_pos_bound m (mc_length c)).
      rewrite Z2Nat.id by lia. nia. }
    rewrite E. simpl. eexists _, _. split; [done|]. simpl. rewrite W by lia.
    split_and!; try done; [unfold fill_fuel in L; lia|]. intros Hf0 Hlim.
    pose proof (chunk_bytes_length _ _ (fp_chunk _ _ _ Hp)) as Elen. specialize (A Hf0 ltac:(lia) Hlim).
    rewrite copies_eq in A; [done| |].
    + intros En. rewrite En in Elen. simpl in Elen. lia.
    + unfold fill_fuel. pose proof (Z.div_mod m (mc_length c)). pose proof (Z.mod_pos_bound m (mc_length c)). nia.
  - assert (gap_bytes u seq ts = 0) as -> by (unfold gap_bytes; by rewrite Egap).
    exists u, st. split_and!; try done; try lia. intros Hf0 _. by apply appended_refl.
Qed.

(** What the callback promises about a packet it takes. *)
Definition taken (u : userdata) (st : store) (body : list Z) (seq ts : Z) (u' : userdata) (st' : store) : Prop :=
  u_seqnb u' = seq /\
  (exists dur, pa_bytes_to_usec (Z.of_nat (length body)) iwab_spec = Ok dur /\
     u_last_pb_ts u' = u64 (ts + dur)) /\
  queue_inv (u_queue u') st' /\
  (forall j, ext (u_queue u') st' j = ext (u_queue u) st j) /\
  bq_write_index (u_queue u') = bq_write_index (u_queue u) + gap_bytes u seq ts + Z.of_nat (length body) /\
  forall k, 0 <= k < Z.of_nat (length body) ->
    stream (u_queue u') st' (bq_write_index (u_queue u') - Z.of_nat (length body) + k)
    = Some <$> (body !! Z.to_nat k).

(** What the queue gets for a packet: copies of its body where others were lost,
    and the body. *)
Definition received (u : userdata) (body : list Z) (seq ts : Z) : list cell :=
  copies (Z.to_nat (gap_bytes u seq ts)) (Some <$> body) ++ (Some <$> body).

(** Giving up the packet's block after the queue took its own references. *)
Lemma taken_unref q id st st2 q' st' : store_ok st -> queue_inv q st -> id = st_next st ->
  (forall j, refs st2 j = refs st j + delta id 1 j) ->
  queue_inv q' st' -> fixed q' = fixed q -> (forall j, ext q' st' j = ext q st2 j) ->
  exists st3, pa_memblock_unref id st' = Ok st3 /\ queue_inv q' st3 /\ keeps st' st3 /\
    (forall j, ext q' st3 j = ext q st j) /\ forall i, stream q' st3 i = stream q' st' i.
Proof.
  intros Hok Hq En R2 Hq' Fx X. unfold fixed in Fx. injection Fx as _ _ _ Es.
  assert (forall j, ext q' st' j = ext q st j + delta id 1 j) as X'.
  { intros j. rewrite X. unfold ext. rewrite R2. lia. }
  assert (forall j, chunk_refs (bq_silence q') j <= ext q st j) as Hsil.
  { intros j. rewrite Es. pose proof (qi_owned _ _ Hq j). unfold owned, ext in *. lia. }
  assert (0 < refs st' id) as Hr.
  { specialize (X' id). specialize (Hsil id). unfold ext in *. unfold delta in X'.
    rewrite decide_True in X' by done. pose proof (items_refs_nonneg (bq_blocks q') id).
    pose proof (chunk_refs_nonneg (bq_silence q') id). lia. }
  destruct (pa_memblock_unref_spec st' id (qi_store _ _ Hq') Hr) as (st3 & E & Hok3 & K3 & _ & R3).
  change (-1) with (- (1)) in R3.
  assert (forall j, ext q' st3 j = ext q st j) as X3.
  { intros j. specialize (X' j). unfold ext in *. rewrite R3, delta_opp. lia. }
  assert (queue_inv q' st3) as Hq3.
  { apply (inv_env _ st'); try done. intros j. specialize (X3 j). specialize (Hsil j).
    unfold owned, ext in *. lia. }
  exists st3. split_and!; try done. intros i. unfold stream.
  apply content_keeps; [done|apply Hq'|apply Hq3].
Qed.

(** A packet the module is to play: new, in order, with a time stamp that does
    not go back; after a gap the time stamp has advanced. *)
Record fresh_packet (u : userdata) (seq ts : Z) : Prop := {
  fr_new : seq <> u_seqnb u;
  fr_seq : u_seqnb u = 0 \/ u_seqnb u < seq;
  fr_ts : u_last_pb_ts u = 0 \/ u_last_pb_ts u <= ts;
  fr_gap : u_seqnb u <> 0 -> seq <> u32 (u_seqnb u + 1) -> u_last_pb_ts u < ts
}.

(** There is room in the queue for the gap and the packet. *)
Record queue_room (u : userdata) (gap len : Z) : Prop := {
  qr_order : bq_read_index (u_queue u) <= bq_write_index (u_queue u);
  qr_fit : bq_write_index (u_queue u) + gap + len - bq_read_index (u_queue u)
    <= bq_maxlength (u_queue u);
  qr_nodes : Z.of_nat (length (bq_blocks (u_queue u))) + 2 * gap + 8 < 2 ^ 32
}.

(** [take_packet] with a packet to play, once its parts are known to succeed. *)
Lemma take_accepts id c u st h b seq ts u2 st2 r q3 st3 st4 : iw_iw_in (u_istream u) = Some h -> st_blocks st !! id = Some b ->
  in_iw_seq (mb_data b) h = Ok seq -> in_iw_timestamp (mb_data b) h = Ok ts -> u_ss u = iwab_spec -> mc_length c mod 4 = 0 ->
  fresh_packet u seq ts -> fill_gap seq ts c u st = Ok (u2, st2) -> u_ss u2 = u_ss u ->
  pa_memblockq_push (u_queue u2) c st2 = Ok (r, (q3, st3)) -> pa_memblock_unref id st3 = Ok st4 ->
  exists dur, pa_bytes_to_usec (mc_length c) iwab_spec = Ok dur /\
    take_packet id c u st = Ok (1, (set_received seq (u64 (ts + dur)) (set_queue q3 u2), st4)).
Proof.
  intros Eh Eb Hs Ht Hss Hb4 [F1 F2 F3 F4] E2 Es2 E3 E4. unfold take_packet. rewrite Eh, Eb. cbn [deref].
  rewrite !bind_ok, Hs, bind_ok. rewrite (proj2 (Z.eqb_neq _ _)) by done.
  rewrite Hss, (pa_frame_aligned_ok _ iwab_spec_ok), bind_ok.
  rewrite pa_assert_true, bind_ok by (apply Z.eqb_eq; exact Hb4).
  assert (negb (u_seqnb u =? 0) && (seq <? u_seqnb u) = false) as ->.
  { destruct F2 as [->|F2]; [done|]. rewrite (proj2 (Z.ltb_ge _ _)) by lia. by rewrite andb_false_r. }
  rewrite Ht, bind_ok.
  assert (negb (u_last_pb_ts u =? 0) && (ts <? u_last_pb_ts u) = false) as ->.
  { destruct F3 as [->|F3]; [done|]. rewrite (proj2 (Z.ltb_ge _ _)) by lia. by rewrite andb_false_r. }
  rewrite E2, bind_ok, E3, bind_ok, Es2, Hss, (pa_bytes_to_usec_ok _ iwab_spec_ok), bind_ok. cbv zeta. rewrite E4, bind_ok.
  eexists. split; [done|done].
Qed.

Section take.
Context (rt body fcs : list Z) (seq ts retry : Z).
Let pkt := rt ++ headers_bytes (tx_headers (Z.of_nat (length body)) seq ts retry) ++ body ++ fcs.
Context (Hrt : 8 <= Z.of_nat (length rt)) (Hclaim : claimed rt = Z.of_nat (length rt)).
Context (Hbody : 0 < Z.of_nat (length body)) (Hfcs : length fcs = 4%nat).
Context (Hseq : 0 <= seq < 2 ^ 32) (Hts : 0 <= ts < 2 ^ 64).
Context (Hsize : Z.of_nat (length rt) + 64 + Z.of_nat (length body) + 4 <= MAX_FRAME_SIZE).
Context (u : userdata) (st : store) (Hu : input_ok u st) (rs : list recv_result) (errno : Z).
Context (He : errno <> EINTR) (Hsum : msum mb_length (st_blocks st) + MAX_FRAME_SIZE < 2 ^ 31).

Lemma work_repeat : seq = u_seqnb u ->
  exists u' st', rtpoll_work_cb POLLIN true errno (RecvData pkt :: rs) u st = Ok (0, (u', st')) /\
    u_queue u' = u_queue u /\ u_seqnb u' = u_seqnb u /\ u_last_pb_ts u' = u_last_pb_ts u /\
    input_ok u' st' /\ keeps st st' /\ forall j, refs st' j = refs st j.
Proof.
  intros Es. destruct (work_reaches rt body fcs seq ts retry Hrt Hclaim Hbody Hfcs Hsize u st errno rs
    Hu He Hsum) as (id & st1 & buf' & Hld & Hh & Hl & E).
  destruct (packet_header rt body fcs seq ts retry Hrt Hseq Hts st st1 id buf' Hld Hh) as (b & Eb & Hs & _).
  destruct (landed_unref st st1 id buf' (qi_store _ _ (io_queue _ _ Hu)) Hld) as (st2 & Eu & Hok2 & K2 & R2).
  unfold pkt. rewrite E. unfold take_packet. simpl. rewrite Eb. simpl. rewrite Hs. simpl.
  rewrite (proj2 (Z.eqb_eq _ _)) by done. unfold ignore. rewrite Eu. simpl.
  eexists _, _. split; [done|]. split_and!; try done. destruct Hu as [H1 H2 H3 H4 H5 H6].
  split; try done. simpl. apply (inv_env _ st); try done. intros j. rewrite R2. apply H1.
Qed.

Lemma work_takes : fresh_packet u seq ts -> Z.of_nat (length rt) mod 4 = 0 ->
  Z.of_nat (length body) mod 4 = 0 ->
  queue_room u (gap_bytes u seq ts) (Z.of_nat (length body)) ->
  exists u' st', rtpoll_work_cb POLLIN true errno (RecvData pkt :: rs) u st = Ok (1, (u', st')) /\
    taken u st body seq ts u' st' /\ input_ok u' st' /\
    (fifo_ok (u_queue u) st -> bq_write_index (u_queue u) + gap_bytes u seq ts + Z.of_nat (length body) < 2 ^ 62 ->
     appended (u_queue u) st (received u body seq ts) (u_queue u') st').
Proof.
  intros [F1 F2 F3 F4] Hrt4 Hb4 [Q1 Q2 Q3].
  destruct (work_reaches rt body fcs seq ts retry Hrt Hclaim Hbody Hfcs Hsize u st errno rs
    Hu He Hsum) as (id & st1 & buf' & Hld & Hh & Hl & E).
  destruct (packet_header rt body fcs seq ts retry Hrt Hseq Hts st st1 id buf' Hld Hh) as (b & Eb & Hs & Ht).
  pose proof (qi_store _ _ (io_queue _ _ Hu)) as Hok.
  destruct (landed_chunk rt body fcs seq ts retry Hrt Hbody Hfcs Hsize st st1 id buf' Hld Hh Hl Hok) as [Hcin Hcb].
  destruct (landed_inv u st st1 id buf' Hu Hld) as [Hq1 Ho1].
  pose proof Hu as [_ Hss Hbase _ Hsn Hlt].
  destruct (gap_bytes_range u seq ts) as [Hg _].
  set (u1 := set_istream _ u) in E.
  assert (fill_pre (u_queue u1) (chunk_of rt body id) st1) as Hp.
  { split; simpl; try done; rewrite Hbase; [done|]. apply mod_add_0; [lia|done|done]. }
  assert (gap_bytes u1 seq ts = gap_bytes u seq ts) as Eg by done.
  destruct (fill_gap_spec seq ts (chunk_of rt body id) u1 st1) as
    (u2 & st2 & E2 & Hp2 & K2 & Fx2 & X2 & W2 & L2 & Ei2 & Es2 & A2); simpl; rewrite ?Eg; try done; try lia.
  rewrite Eg in W2. simpl in W2.
  pose proof Fx2 as Fx2'. unfold fixed in Fx2'. injection Fx2' as Eb2 Em2 Er2 _.
  change (u_queue u1) with (u_queue u) in *.
  destruct (push_both (u_queue u2) (chunk_of rt body id) st2) as
    (r & q3 & st3 & E3 & Hq3 & K3 & Fx3 & X3 & _ & Hres);
    [apply Hp2|split_and!; try apply Hp2; lia|].
  rewrite can_push_room in Hres by (simpl; lia). destruct Hres as (_ & W3 & C3). simpl in W3.
  destruct Hld as (Hok1 & K1 & En & R1 & _).
  destruct (taken_unref (u_queue u) id st st1 q3 st3) as (st4 & E4 & Hq4 & K4 & X4 & C4); try done;
    [apply Hu|by rewrite Fx3|intros j; by rewrite X3|].
  destruct (take_accepts id (chunk_of rt body id) u1 st1 (Z.of_nat (length rt) + 40) b seq ts u2 st2 r q3 st3 st4) as (dur & Ed & Et); try done.
  unfold pkt. rewrite E, Et. eexists _, st4. split; [done|].
  assert (chunk_bytes st2 (chunk_of rt body id) = Some <$> body) as Ebytes.
  { rewrite <- Hcb. apply (chunk_in_keeps st1); [done..|].
    intros id' Em. destruct (fp_chunk _ _ _ Hp2) as (id2 & Em2' & Hr2 & _).
    by assert (id' = id2) as -> by congruence. }
  unfold taken. split_and!; simpl; try done; [by exists dur|lia| | |].
  - intros k Hk. rewrite C4, C3. unfold written. simpl.
    rewrite (proj2 (Z.ltb_ge _ _)), (proj2 (Z.ltb_lt _ _)) by lia. rewrite Ebytes, list_lookup_fmap. do 3 f_equal. lia.
  - unfold fixed in Fx3. split; simpl; try done; [by rewrite Es2|congruence|by rewrite Ei2; apply Hu|apply u64_bound].
  - intros Hf0 Hlim. rewrite Eg, Hcb in A2.
    assert (forall j, owned (u_queue u) j <= refs st1 j) as Ho by (intros j; specialize (Ho1 j); pose proof (delta_nonneg id 1 j); lia).
    destruct (fifo_env _ st st1 Hf0) as [Hf1 _]; [done..|]. specialize (A2 Hf1 ltac:(lia)).
    destruct (fifo_push (u_queue u2) (chunk_of rt body id) st2) as (q3' & st3' & E3' & A3 & _);
      [apply A2|split_and!; try apply Hp2; lia|simpl; lia|simpl; lia|]. rewrite E3 in E3'. injection E3' as _ <- <-. rewrite Ebytes in A3.
    pose proof (appended_trans _ _ _ _ _ _ _ _ (qi_store _ _ Hq1) A2 A3) as A. clear A2 A3.
    apply (appended_within _ st st1 _ q3 st3 st4); done.
Qed.
End take.

(** ** Rejections that end in a failed assertion *)

Section aborts.
Context (rt body fcs : list Z) (seq ts retry : Z).
Let pkt := rt ++ headers_bytes (tx_headers (Z.of_nat (length body)) seq ts retry) ++ body ++ fcs.
Context (Hrt : 8 <= Z.of_nat (length rt)) (Hclaim : claimed rt = Z.of_nat (length rt)).
Context (Hbody : 0 < Z.of_nat (length body)) (Hfcs : length fcs = 4%nat).
Context (Hseq : 0 <= seq < 2 ^ 32) (Hts : 0 <= ts < 2 ^ 64).
Context (Hsize : Z.of_nat (length rt) + 64 + Z.of_nat (length body) + 4 <= MAX_FRAME_SIZE).
Context (u : userdata) (st : store) (Hu : input_ok u st) (rs : list recv_result) (errno : Z).
Context (He : errno <> EINTR) (Hsum : msum mb_length (st_blocks st) + MAX_FRAME_SIZE < 2 ^ 31).



End aborts.

(** ** Loading *)

(** The attributes of the module's queue. *)
Definition input_attrs : pa_memblockq :=
  new_attrs 4 0 (10 * MAX_FRAME_SIZE) (5 * MAX_FRAME_SIZE) iwab_spec (5 * MAX_FRAME_SIZE) 0 0.

Lemma input_attrs_facts : bq_maxlength input_attrs = 16000 /\ bq_prebuf input_attrs = 8000 /\
  bq_base input_attrs = 4 /\ bq_blocks input_attrs = [] /\ bq_read_index input_attrs = 0 /\ bq_write_index input_attrs = 0.
Proof. by vm_compute. Qed.

Lemma input_queue_new s id st st1 : mc_memblock s = Some id -> pa_memblock_ref id st = Ok st1 ->
  exists q, pa_memblockq_new 0 (10 * MAX_FRAME_SIZE) (5 * MAX_FRAME_SIZE) iwab_spec
    (5 * MAX_FRAME_SIZE) 0 0 (Some s) st = Ok (q, st1) /\ bq_maxlength q = 16000 /\
    bq_prebuf q = 8000 /\ bq_base q = 4 /\ bq_blocks q = [] /\ bq_silence q = s /\ bq_read_index q = 0 /\ bq_write_index q = 0.
Proof.
  intros Es Er. rewrite new_eq. rewrite (pa_frame_size_ok _ iwab_spec_ok), bind_ok.
  change (frame_size iwab_spec) with 4. cbv zeta. fold input_attrs. rewrite Es. cbn [deref].
  rewrite bind_ok, Er, !bind_ok.
  assert (pa_mcalign_new (bq_base (set_silence s input_attrs))
    = Ok (mk_mcalign 4 pa_memchunk_reset pa_memchunk_reset)) as Em by (by vm_compute).
  rewrite Em, bind_ok. destruct input_attrs_facts as (F1 & F2 & F3 & F4 & F5 & F6).
  generalize dependent input_attrs. intros q F1 F2 F3 F4 F5 F6. eexists. split; [done|]. by simpl.
Qed.

(** Loading the module with arguments that parse, an interface that opens, an
    existing sink and a sink input gives a working receiver: an empty queue of
    16000 bytes that waits for 8000 before playing and, given a silence of whole
    frames of zeros, fit to be played from, the sequence number reset,
    the sender address filter at zero, and the references on the silence block
    balanced.  If the interface does not open, the failure path reads a
    descriptor that was never stored, and if the arguments do not parse, it reads
    through a null pointer. *)
Theorem input_init_ready env fds st id : store_ok st ->
  ie_sink_input env = true -> mc_memblock (ie_silence env) = Some id -> 0 < refs st id ->
  exists o, pa_modargs_new (ie_argument env) (Some valid_modargs) = Ok o /\
  match o with
  | None => pa__init env fds st = UB
  | Some ma =>
      exists iface sink, pa_modargs_get_value ma (str "iface") (Some DEFAULT_IFACE) = Ok (Some iface) /\
        pa_modargs_get_value ma (str "sink") None = Ok sink /\
        match iwab_open (ie_open env) true (Some (name_of iface)) fds with
        | (_, Some iw, fds') => ie_sink env sink = true ->
            exists u st', pa__init env fds st = Ok (0, Some u, fds', st') /\
              input_ok u st' /\ u_istream u = iw /\ u_seqnb u = 0 /\ u_rtpoll_item u = None /\
              bq_maxlength (u_queue u) = 16000 /\ bq_prebuf (u_queue u) = 8000 /\
              (zero_chunk st (ie_silence env) -> mc_length (ie_silence env) mod 4 = 0 ->
                 fifo_ok (u_queue u) st' /\ pending (u_queue u) st' = []) /\
              (forall j, refs st' j = refs st j)
        | (_, None, _) => pa__init env fds st = UB
        end
  end.
Proof.
  intros Hok Hsi Es Hr. unfold pa__init. destruct (new_safe (ie_argument env) (Some valid_modargs)) as (o & Eo & Ho). exists o. split; [done|].
  rewrite Eo, bind_ok. destruct o as [ma|]; [|done]. destruct (Ho ma eq_refl) as [Hma _].
  destruct (get_value_default ma (str "iface") DEFAULT_IFACE Hma) as [iface Ei]. rewrite Ei, bind_ok.
  pose proof (get_value_view ma (str "sink") None Hma) as Ek. set (sink := match prop_get _ _ with Some v => Some v | None => None end) in Ek.
  exists iface, sink. split_and!; [done|done|]. rewrite Ek.
  change (pa_sample_spec_valid iwab_spec) with true. cbn [negb fmap option_fmap option_map].
  destruct (iwab_open (ie_open env) true (Some (name_of iface)) fds) as [[r oiw] fds'] eqn:Ew.
  destruct oiw as [iw|]; [|done]. intros Hs. rewrite bind_ok, Hs, Hsi. cbn [negb andb].
  assert (iw_addr_filter iw = zeros 6) as Hf.
  { unfold iwab_open in Ew. repeat case_match; simplify_eq; done. }
  destruct (pa_memblock_ref_spec st id Hok Hr) as (st1 & E1 & Hok1 & K1 & R1).
  destruct (input_queue_new (ie_silence env) id st st1 Es E1) as (q & E & F1 & F2 & F3 & F4 & F5 & F6 & F7).
  destruct (new_spec 0 (10 * MAX_FRAME_SIZE) (5 * MAX_FRAME_SIZE) iwab_spec (5 * MAX_FRAME_SIZE) 0 0
    (Some (ie_silence env)) st Hok iwab_spec_ok) as (q' & st1' & E' & Hq & _);
    [unfold new_args_ok, len_max, MAX_FRAME_SIZE; lia|by exists id|].
  rewrite E in E'. injection E' as <- <-.
  destruct (pa_memblock_unref_spec st1 id Hok1) as (st2 & E2 & Hok2 & K2 & _ & R2).
  { rewrite R1. pose proof (delta_nonneg id 1 id). lia. }
  assert (forall j, refs st2 j = refs st j) as R.
  { intros j. rewrite R2, R1. change (-1) with (- (1)). rewrite delta_opp. lia. }
  rewrite E, bind_ok, Es. cbn [deref]. rewrite bind_ok, E2, bind_ok.
  assert (queue_inv q st2) as Hq2.
  { apply (inv_env _ st1); try done. intros j. rewrite R. unfold owned, chunk_refs. rewrite F5, Es, F4. unfold items_refs. simpl.
    unfold delta. case_decide; [subst; lia|]. apply refs_nonneg, Hok. }
  eexists _, _. split; [done|]. simpl. split_and!; try done. intros Hz Hl. apply fifo_new; rewrite ?F5, ?F3; try done; [lia|].
  apply (zero_chunk_keeps st); [|done|intros id' E'; rewrite R; by assert (id' = id) as -> by congruence].
  apply (keeps_trans st st1); [apply Hok|apply Hok1|done..].
Qed.

(** ** Properties *)

(** A frame as the receiver sees it, and what makes it a frame of a peer. *)
Definition on_air (rt body fcs : list Z) (seq ts retry : Z) : list Z :=
  rt ++ headers_bytes (tx_headers (Z.of_nat (length body)) seq ts retry) ++ body ++ fcs.

Record air_ok (rt body fcs : list Z) (seq ts : Z) : Prop := {
  air_rt : 8 <= Z.of_nat (length rt);
  air_claim : claimed rt = Z.of_nat (length rt);
  air_body : 0 < Z.of_nat (length body);
  air_fcs : length fcs = 4%nat;
  air_seq : 0 <= seq < 2 ^ 32;
  air_ts : 0 <= ts < 2 ^ 64;
  air_size : Z.of_nat (length rt) + 64 + Z.of_nat (length body) + 4 <= MAX_FRAME_SIZE
}.

(** A packet with the sequence number of the last one is a retransmission:
    it is ignored, the queue and the position in the stream stay as they were
    and the block it was read into is given back. *)
Theorem repeat_is_ignored rt body fcs seq ts retry u st errno rs :
  air_ok rt body fcs seq ts -> input_ok u st -> errno <> EINTR ->
  msum mb_length (st_blocks st) + MAX_FRAME_SIZE < 2 ^ 31 -> seq = u_seqnb u ->
  exists u' st',
    rtpoll_work_cb POLLIN true errno (RecvData (on_air rt body fcs seq ts retry) :: rs) u st
      = Ok (0, (u', st')) /\
    u_queue u' = u_queue u /\ u_seqnb u' = u_seqnb u /\ u_last_pb_ts u' = u_last_pb_ts u /\
    input_ok u' st' /\ forall j, refs st' j = refs st j.
Proof.
  intros [] Hu He Hsum Es.
  destruct (work_repeat rt body fcs seq ts retry air_rt0 air_claim0 air_body0 air_fcs0 air_seq0
    air_ts0 air_size0 u st Hu rs errno He Hsum Es) as (u' & st' & E & H1 & H2 & H3 & H4 & _ & H5).
  exists u', st'. split_and!; done.
Qed.


Module InputExample.
(** The receiver after loading without a silence chunk, and a first packet. *)
Definition q_new : pa_memblockq * store :=
  match pa_memblockq_new 0 16000 8000 iwab_spec 8000 0 0 None MCExample.st0 with
  | Ok s => s
  | _ => (mk_memblockq [] None None 0 0 0 0 0 0 0 0 0 false pa_memchunk_reset
            (mk_mcalign 0 pa_memchunk_reset pa_memchunk_reset) 0 0 iwab_spec, MCExample.st0)
  end.
Definition u0 : userdata :=
  mk_userdata true false (fst q_new) None 0 0 iwab_setup iwab_spec 0 0.
(** The same receiver once packet 1 was played. *)
Definition u1 : userdata :=
  mk_userdata true false (fst q_new) None 1 29 iwab_setup iwab_spec 0 0.
Definition st0 : store := MCExample.st0.
Definition rt8 : list Z := [0; 0; 8; 0; 0; 0; 0; 0].
Definition body4 : list Z := [1; 2; 3; 4].

Lemma q_inv : queue_inv (fst q_new) st0.
Proof.
  destruct (new_spec 0 16000 8000 iwab_spec 8000 0 0 None MCExample.st0 MCExample.st0_ok iwab_spec_ok)
    as (q & st' & E & Hq & _); [unfold new_args_ok, len_max; lia|done|].
  unfold q_new. rewrite E. simpl.
  assert (st' = MCExample.st0) as -> by (by vm_compute in E; simplify_eq). done.
Qed.

Lemma ok0 : input_ok u0 st0.
Proof. split; [exact q_inv|done|by vm_compute|done|by vm_compute|by vm_compute]. Qed.

Lemma ok1 : input_ok u1 st0.
Proof. split; [exact q_inv|done|by vm_compute|done|by vm_compute|by vm_compute]. Qed.

Lemma air1 seq ts : 0 <= seq < 2 ^ 32 -> 0 <= ts < 2 ^ 64 -> air_ok rt8 body4 (zeros 4) seq ts.
Proof. intros. split; [by vm_compute..|reflexivity|assumption|assumption|by vm_compute]. Qed.
End InputExample.
Import InputExample.

Lemma repeat_is_ignored_witness : exists u' st',
  rtpoll_work_cb POLLIN true 0 [RecvData (on_air rt8 body4 (zeros 4) 1 7 1)] u1 st0 = Ok (0, (u', st')) /\
  u_queue u' = u_queue u1.
Proof.
  destruct (repeat_is_ignored rt8 body4 (zeros 4) 1 7 1 u1 st0 0 []) as (u' & st' & E & Eq & _);
    [apply air1; lia|exact ok1|done|by vm_compute|done|].
  exists u', st'. split; [exact E|exact Eq].
Defined.


Lemma input_init_ready_witness :
  exists u st', pa__init (mk_init_env (Some (str "sink=music")) (mk_open_env (Some 5) (fun _ => Some 1)
      (fun _ _ => true) true) (fun _ => true) true (mk_chunk (Some 1) 0 4) 0) ∅ st0
    = Ok (0, Some u, {[ 5 ]} ∪ ∅, st') /\ input_ok u st'.
Proof.
  destruct (input_init_ready (mk_init_env (Some (str "sink=music")) (mk_open_env (Some 5) (fun _ => Some 1)
      (fun _ _ => true) true) (fun _ => true) true (mk_chunk (Some 1) 0 4) 0) ∅ st0 1)
    as (o & Eo & H); [exact MCExample.st0_ok|done|done|by vm_compute|].
  destruct o as [ma|]; [|clear H; vm_compute in Eo; discriminate Eo]. destruct H as (iface & sink & _ & _ & H).
  destruct (H eq_refl) as (u & st' & E & Hu & _). exists u, st'. split; [exact E|exact Hu].
Defined.
