(* ===== verification/IwabReceive.v ===== *)
(** * IwabReceive: what the receiving module does with any packet

    [accepts] says which packets the packet layer lets through and [verdict]
    what becomes of one: it is ignored, or its body is queued, after copies of it
    for the audio that is missing before it, as far as the queue has room.
    The work callback is shown to do that for every packet that does not make it
    fail an assertion or read outside the packet. *)
From stdpp Require Import base tactics numbers list gmap strings.
From S2P Require Import Prelude Sample Text Memblock Mcalign Memblockq MemblockqSpec MemblockqPush.
From S2P Require Import MemblockqWrite MemblockqRead MemblockqAttr MemblockqInv MemblockqAlign MemblockqFrames MemblockqFifo IwabNet IwabInput IwabInputProps.

#[local] Arguments iwab_read : simpl never.

(** ** What is in a packet *)

Definition pkt_word (p : list Z) (off n : Z) : Z := le_combine (sub_list off n p).

(** Data frames of the right kind, from and to the filtered address, with a
    payload between the headers and the checksum. *)
Definition accepts (filter p : list Z) : bool :=
  let rt := claimed p in
  (rt + 68 <? Z.of_nat (length p)) &&
  (Z.land (Z.shiftr (pkt_word p rt 2) 2) 3 =? 2) && (Z.land (Z.shiftr (pkt_word p rt 2) 4) 15 =? 8) &&
  bool_decide (sub_list (rt + 4) 6 p = filter) && bool_decide (sub_list (rt + 10) 6 p = filter) &&
  bool_decide (sub_list (rt + 16) 6 p = filter).

Definition pkt_seq (p : list Z) : Z := pkt_word p (claimed p + 44) 4.
Definition pkt_ts (p : list Z) : Z := pkt_word p (claimed p + 48) 8.
Definition pkt_len (p : list Z) : Z := Z.of_nat (length p) - claimed p - 68.
Definition pkt_body (p : list Z) : list Z := sub_list (claimed p + 64) (pkt_len p) p.

Lemma addrs_differ_eq buf p d f : holds buf p -> 0 <= d -> d + 22 <= Z.of_nat (length p) ->
  addrs_differ buf d f = Ok (negb (bool_decide (sub_list (d + 4) 6 p = f) && bool_decide (sub_list (d + 10) 6 p = f) &&
    bool_decide (sub_list (d + 16) 6 p = f))).
Proof.
  intros Hh Hd Hl. unfold addrs_differ, in_dot11_addr. rewrite !(buf_bytes_holds _ p) by (done || lia).
  change (Z.of_nat 6) with 6. replace (d + 4 + 6 * 0) with (d + 4) by lia. replace (d + 4 + 6 * 1) with (d + 10) by lia.
  replace (d + 4 + 6 * 2) with (d + 16) by lia. rewrite !bind_ok.
  destruct (bool_decide (sub_list (d + 4) 6 p = f)); [|done]. simpl. rewrite ?bind_ok.
  destruct (bool_decide (sub_list (d + 10) 6 p = f)); [|done]. simpl. by rewrite ?bind_ok.
Qed.

Lemma dot11_bad_eq buf p d (c : bool) : holds buf p -> 0 <= d -> d + 2 <= Z.of_nat (length p) ->
  (if c then Ok true
   else t ← in_dot11_type buf d;
     if negb (t =? 2) then Ok true
     else s ← in_dot11_subtype buf d; Ok (negb (s =? 8)))
  = Ok (negb (negb c && (Z.land (Z.shiftr (pkt_word p d 2) 2) 3 =? 2) && (Z.land (Z.shiftr (pkt_word p d 2) 4) 15 =? 8))).
Proof.
  intros Hh Hd Hl. destruct c; [done|]. unfold in_dot11_type, in_dot11_subtype. rewrite !(buf_word_holds _ p) by (done || lia).
  change (le_combine (sub_list d (Z.of_nat 2) p)) with (pkt_word p d 2). generalize (pkt_word p d 2). intros w. rewrite !bind_ok.
  destruct (Z.land (Z.shiftr w 2) 3 =? 2); [|done]. by rewrite ?bind_ok.
Qed.

(** What [iwab_read] says of a packet in the buffer. *)
Definition read_verdict (iw : iwab) (p : list Z) (out : read_out) : Prop :=
  if accepts (iw_addr_filter iw) p then
    ro_ret out = pkt_len p /\ ro_offset out = claimed p + 64 /\
    ro_iw out = set_in 0 (claimed p) (claimed p + 26) (claimed p + 40) iw
  else ro_ret out < 0 /\ iw_addr_filter (ro_iw out) = iw_addr_filter iw.

Definition own_errno (out : read_out) : Prop := ro_errno out = None \/ ro_errno out = Some EAGAIN.

Lemma parse_rejected iw p ret off buf : accepts (iw_addr_filter iw) p = false -> ret < 0 ->
  exists out, Ok (mk_read_out ret (Some EAGAIN) off iw buf) = Ok out /\ ro_buf out = buf /\ own_errno out /\ read_verdict iw p out.
Proof. intros Ha Hr. eexists. split_and!; [done|done|by right|]. unfold read_verdict. by rewrite Ha. Qed.

Lemma accepts_cases filter p : 0 <= claimed p -> accepts filter p =
  negb (Z.of_nat (length p) - (claimed p + 26) <=? 14) && (Z.land (Z.shiftr (pkt_word p (claimed p) 2) 2) 3 =? 2) &&
  (Z.land (Z.shiftr (pkt_word p (claimed p) 2) 4) 15 =? 8) &&
  (bool_decide (sub_list (claimed p + 4) 6 p = filter) && bool_decide (sub_list (claimed p + 10) 6 p = filter) &&
   bool_decide (sub_list (claimed p + 16) 6 p = filter)) && (claimed p + 68 <? Z.of_nat (length p)).
Proof.
  intros Hc. unfold accepts. destruct (Z.ltb_spec (claimed p + 68) (Z.of_nat (length p))); [|by rewrite andb_false_r].
  rewrite (proj2 (Z.leb_gt _ _)) by lia. simpl. by rewrite andb_true_r, !andb_assoc.
Qed.

Lemma parse_verdict iw buf p : holds buf p -> Forall (fun b => 0 <= b < 256) p ->
  Z.of_nat (length p) < 2 ^ 32 -> claimed p <= Z.of_nat (length p) ->
  exists out, iwab_parse iw buf (Z.of_nat (length p)) = Ok out /\ ro_buf out = buf /\ own_errno out /\ read_verdict iw p out.
Proof.
  intros Hh Hb Hn Hc. set (n := Z.of_nat (length p)) in *.
  destruct (decide (n - claimed p = 25)) as [H25|H25].
  { destruct (iwab_parse_25 iw buf p Hh Hb Hn H25) as (out & E & Eb & R). exists out. split; [done|]. split; [done|]. unfold own_errno, read_verdict.
    assert (accepts (iw_addr_filter iw) p = false) as ->.
    { unfold accepts. fold n. rewrite (proj2 (Z.ltb_ge _ _)) by lia. done. }
    destruct R as [[(? & ? & ->)|(? & _ & ? & ? & _)]|(-> & ? & _ & ->)]; [by split; [right|]|lia|by split; [left|]]. }
  unfold iwab_parse, sizeof_radiotap, sizeof_ieee80211_head, sizeof_l2_head, sizeof_iwab_head. cbv zeta.
  destruct (Z.leb_spec n 13) as [H13|H13].
  { apply parse_rejected; [|lia]. unfold accepts. fold n. destruct (decide (0 <= claimed p)); [by rewrite (proj2 (Z.ltb_ge _ _)) by lia|].
    exfalso. pose proof (le_combine_bound _ (sub_list_bytes 2 2 _ Hb)) as Hbd. fold (claimed p) in Hbd. lia. }
  pose proof (claimed_bound p Hb ltac:(lia)) as Hcb.
  unfold in_rt_length. rewrite (buf_word_holds _ p), bind_ok by (done || lia).
  change (le_combine (sub_list (0 + 2) (Z.of_nat 2) p)) with (claimed p).
  rewrite (u64_small (claimed p)), (u64_small (n - claimed p)) by lia.
  destruct (Z.leb_spec (n - claimed p) 24) as [H24|H24].
  { apply parse_rejected; [|lia]. unfold accepts. fold n. by rewrite (proj2 (Z.ltb_ge _ _)) by lia. }
  change (24 + 2) with 26. rewrite (u64_small (claimed p + 26)), (u64_small (n - (claimed p + 26))) by lia.
  pose proof (accepts_cases (iw_addr_filter iw) p ltac:(lia)) as Ha. fold n in Ha.
  rewrite (dot11_bad_eq buf p), bind_ok by (done || lia).
  set (b1 := negb (n - (claimed p + 26) <=? 14) && _ && _) in *. destruct b1 eqn:E1; simpl; [|apply parse_rejected; [done|lia]].
  rewrite (addrs_differ_eq buf p), bind_ok by (done || lia).
  set (b2 := bool_decide (sub_list (claimed p + 4) 6 p = _) && _ && _) in *. destruct b2 eqn:E2; simpl; [|apply parse_rejected; [done|lia]].
  assert (14 < n - (claimed p + 26)) as H14.
  { subst b1. apply andb_true_iff in E1 as [[E1 _]%andb_true_iff _]. apply negb_true_iff, Z.leb_gt in E1. lia. }
  simpl in Ha. rewrite (u64_small (claimed p + 26 + 14)), (u64_small (n - (claimed p + 26 + 14))) by lia.
  destruct (Z.leb_spec (n - (claimed p + 26 + 14)) 24); [apply parse_rejected; [|lia]; rewrite Ha; apply Z.ltb_ge; lia|].
  rewrite (u64_small (claimed p + 26 + 14 + 24)), (u64_small (n - (claimed p + 26 + 14 + 24))) by lia.
  destruct (Z.leb_spec (n - (claimed p + 26 + 14 + 24)) 4); [apply parse_rejected; [|lia]; rewrite Ha; apply Z.ltb_ge; lia|].
  rewrite (u64_small (claimed p + 26 + 14 + 24 + 4)), s64_small by lia.
  eexists. split; [done|]. split; [done|]. split; [by left|]. unfold read_verdict. rewrite Ha, (proj2 (Z.ltb_lt _ _)) by lia. simpl.
  unfold pkt_len. fold n. split_and!; try done; try lia. unfold set_in. do 2 f_equal. lia.
Qed.

(** ** Queueing what fits *)

(** The bytes a queue still takes. *)
Definition room (q : pa_memblockq) : Z := Z.max 0 (bq_maxlength q - (bq_write_index q - bq_read_index q)).

(** Of the pieces offered in turn, those are taken that fit. *)
Fixpoint queued (room : Z) (ps : list (list cell)) : list cell :=
  match ps with
  | [] => []
  | p :: ps => if Z.of_nat (length p) <=? room then p ++ queued (room - Z.of_nat (length p)) ps else queued room ps
  end.

(** [n] bytes as whole copies of [data] and a part of it. *)
Definition gap_pieces (n : nat) (data : list cell) : list (list cell) :=
  replicate (n / length data) data ++ (if bool_decide (n mod length data = 0)%nat then [] else [take (n mod length data) data]).

Lemma gap_pieces_more n data : data <> [] -> (length data <= n)%nat -> gap_pieces n data = data :: gap_pieces (n - length data) data.
Proof.
  intros Hd Hn. assert (0 < length data)%nat by (destruct data; [done|simpl; lia]). unfold gap_pieces.
  assert (n / length data = S ((n - length data) / length data))%nat as ->.
  { replace n with (n - length data + 1 * length data)%nat at 1 by lia. rewrite Nat.div_add by lia. lia. }
  assert (n mod length data = (n - length data) mod length data)%nat as ->; [|done].
  replace n with (n - length data + 1 * length data)%nat at 1 by lia. apply Nat.Div0.mod_add.
Qed.

Lemma gap_pieces_less n data : (0 < n < length data)%nat -> gap_pieces n data = [take n data].
Proof.
  intros Hn. unfold gap_pieces. rewrite Nat.div_small, Nat.mod_small by lia. rewrite bool_decide_false by lia. done.
Qed.

Lemma gap_pieces_none data : gap_pieces 0 data = [].
Proof. unfold gap_pieces. destruct (decide (length data = 0%nat)) as [->|]; [done|]. by rewrite Nat.Div0.div_0_l, Nat.Div0.mod_0_l. Qed.

(** When all of them fit, they are the copies and nothing is lost. *)
Lemma queued_all ps r : Z.of_nat (length (concat ps)) <= r -> queued r ps = concat ps.
Proof.
  revert r. induction ps as [|p ps IH]; intros r H; [done|]. simpl in *. rewrite length_app in H.
  rewrite (proj2 (Z.leb_le _ _)) by lia. f_equal. apply IH. lia.
Qed.

Lemma gap_pieces_copies n data : data <> [] -> concat (gap_pieces n data) = copies n data.
Proof.
  intros Hd. assert (0 < length data)%nat as Hl by (destruct data; [done|simpl; lia]).
  rewrite <- (copies_eq data n (S (n / length data)) Hd).
  2: { pose proof (Nat.div_mod n (length data) ltac:(lia)). pose proof (Nat.mod_upper_bound n (length data) ltac:(lia)). lia. }
  induction n as [n IH] using lt_wf_ind. destruct (decide (length data <= n)%nat) as [Hle|Hlt].
  - rewrite gap_pieces_more by done. simpl. rewrite IH by lia. replace (n / length data)%nat with (S ((n - length data) / length data)).
    + by rewrite take_app, (take_ge data n) by lia.
    + replace n with (n - length data + 1 * length data)%nat at 2 by lia. rewrite Nat.div_add by lia. lia.
  - destruct (decide (n = 0)%nat) as [->|]; [by rewrite gap_pieces_none|]. rewrite gap_pieces_less, Nat.div_small by lia. simpl.
    by rewrite !app_nil_r.
Qed.

Lemma queued_room ps : forall r, 0 <= r -> Z.of_nat (length (queued r ps)) <= r.
Proof.
  induction ps as [|p ps IH]; intros r Hr; simpl; [lia|]. destruct (Z.leb_spec (Z.of_nat (length p)) r); [|by apply IH].
  rewrite length_app. specialize (IH (r - Z.of_nat (length p)) ltac:(lia)). lia.
Qed.

Lemma queued_app ps1 : forall ps2 r, queued r (ps1 ++ ps2) = queued r ps1 ++ queued (r - Z.of_nat (length (queued r ps1))) ps2.
Proof.
  induction ps1 as [|p ps1 IH]; intros ps2 r; simpl; [by rewrite Z.sub_0_r|].
  destruct (Z.of_nat (length p) <=? r); [|apply IH]. rewrite IH, <- app_assoc. do 2 f_equal. rewrite length_app. f_equal. lia.
Qed.

Lemma room_appended q st data q' st' : appended q st data q' st' -> Z.of_nat (length data) <= room q ->
  room q' = room q - Z.of_nat (length data).
Proof.
  intros A Hd. pose proof (ad_write _ _ _ _ _ A) as Ew. pose proof (ad_fixed _ _ _ _ _ A) as Fx. unfold fixed in Fx.
  injection Fx as _ Em Er _. unfold room in *. rewrite Ew, Em, Er. lia.
Qed.

(** [pa_memblockq_push] on a line: the chunk is appended if it fits, else
    dropped. *)
Lemma fifo_offer q c st : fifo_ok q st -> cmd_ok (CPush c) q st -> bq_read_index q + bq_maxlength q < 2 ^ 62 ->
  exists r q' st', pa_memblockq_push q c st = Ok (r, (q', st')) /\
    appended q st (queued (room q) [chunk_bytes st c]) q' st' /\
    Z.of_nat (length (bq_blocks q')) + 2 * room q' <= Z.of_nat (length (bq_blocks q)) + 2 * room q.
Proof.
  intros Hf Hc Hlim. pose proof Hc as (Hcin & _). pose proof (chunk_bytes_length _ _ Hcin) as El.
  pose proof (chunk_in_bound _ _ (qi_store _ _ (ff_inv _ _ Hf)) Hcin) as (_ & Hl & _). pose proof (ff_order _ _ Hf) as Ho.
  simpl. rewrite El. destruct (Z.leb_spec (mc_length c) (room q)) as [Hfit|Hfull].
  - unfold room in Hfit. destruct (fifo_push q c st Hf Hc) as (q' & st' & E & A & L); [lia..|].
    rewrite app_nil_r. exists 0, q', st'. split_and!; try done.
    rewrite (room_appended _ _ _ _ _ A) by (unfold room; lia). lia.
  - destruct (push_both q c st (ff_inv _ _ Hf) Hc) as (r & q' & st' & E & _ & _ & _ & _ & _ & Hres).
    assert (can_push q (mc_length c) = false) as Ecp.
    { unfold can_push, room in Hfull |- *. rewrite (proj2 (Z.ltb_ge _ _)) by lia.
      assert ((match last (bq_blocks q) with Some it => li_end it | None => bq_write_index q end) <= bq_write_index q).
      { destruct (last (bq_blocks q)) as [it|] eqn:Elast; [|lia]. apply last_Some in Elast as [l' Elast].
        pose proof (ff_end _ _ Hf) as He. rewrite Elast in He. apply Forall_app in He as [_ He]. by apply Forall_cons in He as [He _]. }
      rewrite (proj2 (Z.ltb_lt _ _)) by lia. apply negb_false_iff, Z.ltb_lt. lia. }
    rewrite Ecp in Hres. destruct Hres as (-> & -> & ->). exists (-1), q, st. split_and!; [exact E|by apply appended_refl|lia].
Qed.

(** A piece of the gap: the whole packet, or what is left of the gap. *)
Lemma gap_piece missing c st : chunk_in st c -> 0 < missing ->
  let len := if missing <? mc_length c then missing else mc_length c in
  gap_pieces (Z.to_nat missing) (chunk_bytes st c) =
    chunk_bytes st (mk_chunk (mc_memblock c) (mc_index c) len) :: gap_pieces (Z.to_nat (missing - len)) (chunk_bytes st c).
Proof.
  intros Hc Hm len. pose proof (chunk_bytes_length _ _ Hc) as El. pose proof Hc as (id & Em & _ & _ & Hl & _).
  assert (chunk_bytes st (mk_chunk (mc_memblock c) (mc_index c) len) = take (Z.to_nat len) (chunk_bytes st c)) as ->.
  { unfold chunk_bytes, sub_list. simpl. rewrite Em, take_take. f_equal. subst len. destruct (Z.ltb_spec missing (mc_length c)); lia. }
  subst len. destruct (Z.ltb_spec missing (mc_length c)).
  - rewrite Z.sub_diag, gap_pieces_none. apply gap_pieces_less. lia.
  - rewrite gap_pieces_more by (try lia; intros E; rewrite E in El; simpl in El; lia). rewrite take_ge by lia. do 2 f_equal. lia.
Qed.

Lemma fill_loop_offers fuel : forall missing q c st, fill_pre q c st -> fifo_ok q st -> bq_read_index q + bq_maxlength q < 2 ^ 62 ->
  0 <= missing < 2 ^ 64 -> missing mod bq_base q = 0 -> missing <= Z.of_nat fuel * mc_length c ->
  Z.of_nat (length (bq_blocks q)) + 2 * room q + 2 < 2 ^ 32 ->
  exists q' st', fill_loop fuel missing c q st = Ok (q', st') /\ fill_pre q' c st' /\
    appended q st (queued (room q) (gap_pieces (Z.to_nat missing) (chunk_bytes st c))) q' st' /\
    Z.of_nat (length (bq_blocks q')) + 2 * room q' <= Z.of_nat (length (bq_blocks q)) + 2 * room q.
Proof.
  induction fuel as [|fuel IH]; intros missing q c st Hp Hf Hlim Hm Hmod Hfu Hn.
  { cbn [fill_loop]. rewrite (proj2 (Z.leb_le _ _)) by lia. exists q, st. replace (Z.to_nat missing) with 0%nat by lia.
    rewrite gap_pieces_none. split_and!; [done..|by apply appended_refl|lia]. }
  cbn [fill_loop]. destruct (Z.leb_spec missing 0) as [H0|H0].
  { exists q, st. replace (Z.to_nat missing) with 0%nat by lia. rewrite gap_pieces_none. split_and!; [done..|by apply appended_refl|lia]. }
  pose proof (fp_chunk _ _ _ Hp) as Hc. pose proof (qi_base _ _ (fp_inv _ _ _ Hp)) as Hbase.
  pose proof (chunk_in_bound _ _ (qi_store _ _ (fp_inv _ _ _ Hp)) Hc) as Hb. rewrite (gap_piece missing c st Hc H0). cbv zeta.
  set (len := if missing <? mc_length c then missing else mc_length c).
  assert (0 < len <= mc_length c /\ len <= missing /\ len mod bq_base q = 0 /\ missing - len <= Z.of_nat fuel * mc_length c)
    as (Hl1 & Hl2 & Hl3 & Hl4).
  { subst len. destruct (Z.ltb_spec missing (mc_length c)); split_and!; try done; try lia. apply Hp. }
  set (f := mk_chunk (mc_memblock c) (mc_index c) len).
  assert (0 <= room q) as Hr0 by (unfold room; lia).
  destruct (fifo_offer q f st Hf) as (r & q1 & st1 & E & A & L); [apply fill_filler; done || lia|done|].
  rewrite E. simpl. rewrite u64_small by lia. pose proof (ad_fixed _ _ _ _ _ A) as Fx. pose proof Fx as Fx'.
  unfold fixed in Fx'. injection Fx' as Eb Em Er _.
  pose proof (fill_pre_next _ _ _ _ _ Hp (ff_inv _ _ (ad_ok _ _ _ _ _ A)) (ad_keeps _ _ _ _ _ A) Fx (ad_refs _ _ _ _ _ A)) as Hp1.
  destruct (IH (missing - len) q1 c st1 Hp1 (ad_ok _ _ _ _ _ A)) as (q' & st' & E2 & Hp' & A2 & L2);
    [by rewrite Em, Er|lia|rewrite Eb; by apply mod_sub_0|done|lia|].
  exists q', st'. split_and!; [done|done| |lia].
  assert (chunk_bytes st1 c = chunk_bytes st c) as Ebytes.
  { apply (chunk_in_keeps st); [apply A|apply Hp|]. intros id Em'. destruct (fp_chunk _ _ _ Hp1) as (id2 & Em2 & Hr2 & _).
    by assert (id = id2) as -> by congruence. }
  rewrite (room_appended _ _ _ _ _ A (queued_room _ _ Hr0)), Ebytes in A2.
  pose proof (appended_trans _ _ _ _ _ _ _ _ (qi_store _ _ (ff_inv _ _ Hf)) A A2) as A3.
  rewrite <- queued_app in A3. exact A3.
Qed.

Lemma fill_gap_offers seq ts c u st : fill_pre (u_queue u) c st -> fifo_ok (u_queue u) st -> u_ss u = iwab_spec ->
  bq_base (u_queue u) = 4 -> bq_read_index (u_queue u) + bq_maxlength (u_queue u) < 2 ^ 62 ->
  (negb (u_seqnb u =? 0) && negb (seq =? u32 (u_seqnb u + 1)) = true -> u_last_pb_ts u < ts) ->
  Z.of_nat (length (bq_blocks (u_queue u))) + 2 * room (u_queue u) + 2 < 2 ^ 32 ->
  exists q' lost shown st', fill_gap seq ts c u st = Ok (set_queue q' (set_lost lost shown u), st') /\ fill_pre q' c st' /\
    appended (u_queue u) st (queued (room (u_queue u)) (gap_pieces (Z.to_nat (gap_bytes u seq ts)) (chunk_bytes st c))) q' st' /\
    Z.of_nat (length (bq_blocks q')) + 2 * room q' <= Z.of_nat (length (bq_blocks (u_queue u))) + 2 * room (u_queue u) /\
    if negb (u_seqnb u =? 0) && negb (seq =? u32 (u_seqnb u + 1))
    then lost = u64 (u_lost_pb u + u64 (ts - u_last_pb_ts u)) /\ shown = lost / 1000
    else lost = u_lost_pb u /\ shown = u_lost_shown u.
Proof.
  intros Hp Hf Hss Hb Hlim Hlt Hn. unfold fill_gap. destruct (gap_bytes_range u seq ts) as [Hg Hg4].
  destruct (_ && _) eqn:Egap.
  - specialize (Hlt eq_refl). simpl. rewrite pa_assert_true by blia. simpl. rewrite Hss.
    rewrite (pa_usec_to_bytes_ok iwab_spec iwab_spec_ok). simpl.
    change (frame_size iwab_spec) with 4. change PA_USEC_PER_SEC with 1000000.
    assert (gap_bytes u seq ts = u64 (u64 (u64 (ts - u_last_pb_ts u) * 44100) / 1000000 * 4)) as <-
      by (unfold gap_bytes; by rewrite Egap).
    pose proof (chunk_in_bound _ _ (qi_store _ _ (fp_inv _ _ _ Hp)) (fp_chunk _ _ _ Hp)) as Hcb.
    destruct (fill_loop_offers (fill_fuel (gap_bytes u seq ts) (mc_length c)) (gap_bytes u seq ts) (u_queue u) c st Hp Hf Hlim)
      as (q' & st' & E & Hp' & A & L); [done|by rewrite Hb| |done|].
    { unfold fill_fuel. pose proof (Z.div_mod (gap_bytes u seq ts) (mc_length c)). pose proof (Z.mod_pos_bound (gap_bytes u seq ts) (mc_length c)).
      rewrite Z2Nat.id by (pose proof (Z.div_pos (gap_bytes u seq ts) (mc_length c)); lia). nia. }
    rewrite E. simpl. by eexists q', _, _, st'.
  - assert (gap_bytes u seq ts = 0) as -> by (unfold gap_bytes; by rewrite Egap). rewrite gap_pieces_none.
    exists (u_queue u), (u_lost_pb u), (u_lost_shown u), st. split_and!; try done; [by destruct u|by apply appended_refl].
Qed.

(** ** The verdict *)

(** Older than what was played last. *)
Definition late (u : userdata) (seq ts : Z) : bool :=
  negb (u_seqnb u =? 0) && (seq <? u_seqnb u) || negb (u_last_pb_ts u =? 0) && (ts <? u_last_pb_ts u).

(** It does not follow the last packet. *)
Definition follows_gap (u : userdata) (seq : Z) : bool := negb (u_seqnb u =? 0) && negb (seq =? u32 (u_seqnb u + 1)).

(** A packet of the peer, no repeat and not late, is to be played. *)
Definition plays (u : userdata) (p : list Z) : bool :=
  accepts (iw_addr_filter (u_istream u)) p && negb (pkt_seq p =? u_seqnb u) && negb (late u (pkt_seq p) (pkt_ts p)).

(** The bytes it is worth: copies of the body for what was lost, and the body, as
    far as the queue has room for each. *)
Definition worth (u : userdata) (p : list Z) : list cell :=
  if plays u p then
    queued (room (u_queue u))
      (gap_pieces (Z.to_nat (gap_bytes u (pkt_seq p) (pkt_ts p))) (Some <$> pkt_body p) ++ [Some <$> pkt_body p])
  else [].

(** A packet that makes the callback neither fail an assertion nor look outside
    the packet. *)
Record harmless (u : userdata) (p : list Z) : Prop := {
  hl_bytes : Forall (fun b => 0 <= b < 256) p;
  hl_radiotap : claimed p <= Z.of_nat (length p);
  hl_frames : accepts (iw_addr_filter (u_istream u)) p = true -> pkt_seq p <> u_seqnb u -> pkt_len p mod 4 = 0;
  hl_grid : plays u p = true -> claimed p mod 4 = 0;
  hl_time : plays u p = true -> follows_gap u (pkt_seq p) = true -> u_last_pb_ts u < pkt_ts p
}.

(** What became of the receiver. *)
Record handled (u : userdata) (st : store) (p : list Z) (u' : userdata) (st' : store) : Prop := {
  hd_input : input_ok u' st';
  hd_queue : appended (u_queue u) st (worth u p) (u_queue u') st';
  hd_ignored : plays u p = false ->
    u_queue u' = u_queue u /\ u_seqnb u' = u_seqnb u /\ u_last_pb_ts u' = u_last_pb_ts u /\ u_lost_pb u' = u_lost_pb u;
  hd_played : plays u p = true ->
    u_seqnb u' = pkt_seq p /\
    (exists dur, pa_bytes_to_usec (pkt_len p) iwab_spec = Ok dur /\ u_last_pb_ts u' = u64 (pkt_ts p + dur)) /\
    u_lost_pb u' = if follows_gap u (pkt_seq p) then u64 (u_lost_pb u + u64 (pkt_ts p - u_last_pb_ts u)) else u_lost_pb u
}.

(** ** The callback *)

Section event.
Context (u : userdata) (st : store) (errno : Z) (rs : list recv_result).
Context (Hu : input_ok u st) (He : errno <> EINTR) (Hsum : msum mb_length (st_blocks st) + MAX_FRAME_SIZE < 2 ^ 31).

(** Up to the end of [iwab_read]; [f] is what it says of a buffer of 1600 bytes. *)
Lemma work_reads r : (forall buf, length buf = 1600%nat -> exists out,
    iwab_read (u_istream u) (Some buf) 1600 r = Ok out /\ length (ro_buf out) = 1600%nat /\ default errno (ro_errno out) <> EINTR) ->
  exists id st' buf out, landed st st' id (ro_buf out) /\ length buf = 1600%nat /\ iwab_read (u_istream u) (Some buf) 1600 r = Ok out /\
    rtpoll_work_cb POLLIN true errno (r :: rs) u st =
      if ro_ret out <? 0 then ignore id (set_istream (ro_iw out) u) st'
      else take_packet id (mk_chunk (Some id) (ro_offset out) (u64 (ro_ret out))) (set_istream (ro_iw out) u) st'.
Proof.
  intros Hread. pose proof (qi_store _ _ (io_queue _ _ Hu)) as Hok.
  destruct (pa_memblock_new_spec st MAX_FRAME_SIZE Hok ltac:(done) Hsum) as (id & st1 & E1 & Hfr).
  pose proof Hfr as (Hok1 & _ & _ & _ & (b & Hb & _ & Hd) & _).
  pose proof (bwf_len _ _ (wf_block _ (proj1 Hok1) _ _ Hb)) as Hbl.
  assert (length (mb_data b) = 1600%nat) as Hdl by (rewrite Hd; apply length_replicate).
  destruct (Hread (mb_data b) Hdl) as (out & Er & El & Hn).
  exists id, (set_block id (with_data (ro_buf out) b) st1), (mb_data b), out. split_and!; try done.
  { eapply landed_write; [done|exact Hfr|done|congruence]. }
  unfold rtpoll_work_cb. change (Z.land POLLIN BAD_REVENTS =? 0) with true.
  change (Z.land POLLIN POLLIN =? 0) with false. cbn [negb]. rewrite E1, bind_ok.
  assert (mb_length b = 1600) as Hb16 by lia. rewrite <- Hb16 in Er.
  rewrite (read_loop_step _ _ _ _ _ _ b _ Hok1 Hb Er); [|congruence|done]. simpl. by destruct (ro_ret out <? 0).
Qed.

(** The packet is thrown away. *)
Lemma ignored iw id st1 buf : iw_addr_filter iw = zeros 6 -> landed st st1 id buf -> fifo_ok (u_queue u) st ->
  exists st', ignore id (set_istream iw u) st1 = Ok (0, (set_istream iw u, st')) /\ input_ok (set_istream iw u) st' /\
    appended (u_queue u) st [] (u_queue u) st'.
Proof.
  intros Hi Hld Hf. pose proof (qi_store _ _ (io_queue _ _ Hu)) as Hok.
  destruct (landed_unref st st1 id buf Hok Hld) as (st2 & E & Hok2 & K2 & R2). unfold ignore. rewrite E. simpl.
  exists st2. split; [done|]. assert (forall j, owned (u_queue u) j <= refs st2 j) as Ho by (intros j; rewrite R2; apply Hf).
  destruct (fifo_env _ st st2 Hf Hok2 K2 Ho) as [Hf2 _]. split.
  - destruct Hu as [H1 H2 H3 H4 H5 H6]. split; try done. apply Hf2.
  - split; try done; [intros j; unfold ext; by rewrite R2|simpl; lia|]. rewrite app_nil_r. by apply pending_env.
Qed.

Lemma handled_ignored p iw st' : plays u p = false -> input_ok (set_istream iw u) st' -> appended (u_queue u) st [] (u_queue u) st' ->
  handled u st p (set_istream iw u) st'.
Proof. intros Hp Hi A. split; try done; [|by rewrite Hp]. unfold worth. by rewrite Hp. Qed.

(** A packet the packet layer let through, in a block of its own. *)
Context (p : list Z) (Hb : Forall (fun b => 0 <= b < 256) p) (Hlen : (length p <= 1600)%nat).
Context (Hacc : accepts (iw_addr_filter (u_istream u)) p = true).

Definition in_packet : iwab := set_in 0 (claimed p) (claimed p + 26) (claimed p + 40) (u_istream u).
Definition packet_chunk (id : Z) : pa_memchunk := mk_chunk (Some id) (claimed p + 64) (pkt_len p).

Lemma accepted_range : 0 <= claimed p < 2 ^ 16 /\ 0 < pkt_len p /\ claimed p + 68 + pkt_len p = Z.of_nat (length p).
Proof.
  pose proof (le_combine_bound _ (sub_list_bytes 2 2 _ Hb)) as Hbd. fold (claimed p) in Hbd. unfold pkt_len.
  unfold accepts in Hacc. repeat (apply andb_true_iff in Hacc as [Hacc _]). apply Z.ltb_lt in Hacc.
  pose proof (claimed_bound p Hb ltac:(lia)). lia.
Qed.

Lemma accepted_header st1 id buf : landed st st1 id buf -> holds buf p ->
  exists b, st_blocks st1 !! id = Some b /\ in_iw_seq (mb_data b) (claimed p + 40) = Ok (pkt_seq p) /\
    in_iw_timestamp (mb_data b) (claimed p + 40) = Ok (pkt_ts p).
Proof.
  intros (_ & _ & _ & _ & B & Hsome) Hh. destruct accepted_range as (Hc & Hl & En). destruct (st_blocks st1 !! id) as [b|] eqn:Eb; [|done].
  exists b. split; [done|]. unfold bytes in B. rewrite Eb in B. simpl in B. rewrite B. unfold in_iw_seq, in_iw_timestamp.
  rewrite !(buf_word_holds _ p) by (done || lia). unfold pkt_seq, pkt_ts, pkt_word.
  replace (claimed p + 40 + 4) with (claimed p + 44) by lia. by replace (claimed p + 40 + 8) with (claimed p + 48) by lia.
Qed.

Lemma accepted_chunk st1 id buf : landed st st1 id buf -> holds buf p -> length buf = 1600%nat ->
  chunk_in st1 (packet_chunk id) /\ chunk_bytes st1 (packet_chunk id) = Some <$> pkt_body p.
Proof.
  intros (Hok & _ & En & R & B & _) Hh Hl. pose proof (qi_store _ _ (io_queue _ _ Hu)) as [Hwf _].
  destruct accepted_range as (Hc & Hpl & Ep). split.
  - exists id. simpl. rewrite R, B, Hl. unfold delta. rewrite decide_True by done.
    pose proof (refs_nonneg st id Hwf). split_and!; try done; lia.
  - unfold chunk_bytes. simpl. rewrite B. destruct Hh as [rest ->]. rewrite sub_list_prefix by (rewrite ?length_fmap; lia).
    unfold pkt_body, sub_list. by rewrite fmap_take, fmap_drop.
Qed.

(** Repeats and late packets. *)
Lemma take_ignores id st1 buf : landed st st1 id buf -> holds buf p -> pkt_len p mod 4 = 0 \/ pkt_seq p = u_seqnb u -> plays u p = false ->
  take_packet id (packet_chunk id) (set_istream in_packet u) st1 = ignore id (set_istream in_packet u) st1.
Proof.
  intros Hld Hh Hal Hp. destruct (accepted_header st1 id buf Hld Hh) as (b & Eb & Es & Et).
  unfold take_packet. simpl. rewrite Eb. simpl. rewrite Es. simpl. unfold plays, late in Hp. rewrite Hacc in Hp. simpl in Hp.
  destruct (Z.eqb_spec (pkt_seq p) (u_seqnb u)) as [|Hne]; [done|]. simpl in Hp. destruct Hal as [Hal|]; [|done].
  rewrite (io_ss _ _ Hu), (pa_frame_aligned_ok _ iwab_spec_ok). simpl. change (frame_size iwab_spec) with 4.
  rewrite (proj2 (Z.eqb_eq _ _) Hal). simpl. destruct (negb (u_seqnb u =? 0) && (pkt_seq p <? u_seqnb u)); [done|]. simpl in Hp.
  rewrite Et. simpl. by destruct (negb (u_last_pb_ts u =? 0) && (pkt_ts p <? u_last_pb_ts u)).
Qed.

Lemma plays_fresh : plays u p = true -> (follows_gap u (pkt_seq p) = true -> u_last_pb_ts u < pkt_ts p) ->
  fresh_packet u (pkt_seq p) (pkt_ts p).
Proof.
  unfold plays, late, follows_gap. rewrite Hacc. simpl. intros [Hn%negb_true_iff%Z.eqb_neq Hl%negb_true_iff]%andb_true_iff Hg.
  apply orb_false_iff in Hl as [L1 L2]. split; [done|..].
  - destruct (Z.eqb_spec (u_seqnb u) 0); [by left|]. right. simpl in L1. apply Z.ltb_ge in L1. lia.
  - destruct (Z.eqb_spec (u_last_pb_ts u) 0); [by left|]. right. simpl in L2. by apply Z.ltb_ge in L2.
  - intros H0 H1. apply Hg. rewrite (proj2 (Z.eqb_neq _ _) H0), (proj2 (Z.eqb_neq _ _) H1). done.
Qed.
(** A packet that is to be played. *)
Lemma take_plays id st1 buf : landed st st1 id buf -> holds buf p -> length buf = 1600%nat -> plays u p = true -> harmless u p ->
  fifo_ok (u_queue u) st -> bq_read_index (u_queue u) + bq_maxlength (u_queue u) < 2 ^ 62 ->
  Z.of_nat (length (bq_blocks (u_queue u))) + 2 * room (u_queue u) + 2 < 2 ^ 32 ->
  exists u' st', take_packet id (packet_chunk id) (set_istream in_packet u) st1 = Ok (1, (u', st')) /\ handled u st p u' st'.
Proof.
  intros Hld Hh Hl Hpl Hhl Hf Hlim Hn. set (u1 := set_istream in_packet u).
  destruct (accepted_header st1 id buf Hld Hh) as (b & Eb & Es & Et). destruct accepted_range as (Hc & Hpos & _).
  destruct (accepted_chunk st1 id buf Hld Hh Hl) as [Hcin Hcb]. destruct (landed_inv u st st1 id buf Hu Hld) as [Hq1 Ho1].
  pose proof (plays_fresh Hpl (hl_time _ _ Hhl Hpl)) as Hfr.
  assert (pkt_len p mod 4 = 0) as Hm4 by (apply (hl_frames _ _ Hhl); [done|apply Hfr]).
  assert (fill_pre (u_queue u1) (packet_chunk id) st1) as Hp.
  { split; simpl; try done; rewrite (io_base _ _ Hu); [done|]. apply mod_add_0; [lia|by apply (hl_grid _ _ Hhl)|done]. }
  pose proof (qi_store _ _ (ff_inv _ _ Hf)) as Hok. pose proof Hld as (Hok1 & K1 & En & R1 & _).
  assert (forall j, owned (u_queue u) j <= refs st1 j) as Ho.
  { intros j. specialize (Ho1 j). pose proof (delta_nonneg id 1 j). lia. }
  assert (fifo_ok (u_queue u) st1) as Hf1 by (by apply (fifo_env _ st)).
  destruct (fill_gap_offers (pkt_seq p) (pkt_ts p) (packet_chunk id) u1 st1 Hp Hf1 (io_ss _ _ Hu) (io_base _ _ Hu) Hlim)
    as (q2 & lost & shown & st2 & E2 & Hp2 & A2 & L2 & Hlost); [by apply (hl_time _ _ Hhl)|done|].
  change (u_queue u1) with (u_queue u) in *. change (gap_bytes u1 (pkt_seq p) (pkt_ts p)) with (gap_bytes u (pkt_seq p) (pkt_ts p)) in A2.
  pose proof (ad_fixed _ _ _ _ _ A2) as Fx2. unfold fixed in Fx2. injection Fx2 as Eb2 Em2 Er2 _.
  assert (0 <= room q2) as Hr2 by (unfold room; lia).
  destruct (fifo_offer q2 (packet_chunk id) st2 (ad_ok _ _ _ _ _ A2)) as (r & q3 & st3 & E3 & A3 & _);
    [split_and!; try apply Hp2; lia|by rewrite Em2, Er2|].
  assert (chunk_bytes st2 (packet_chunk id) = Some <$> pkt_body p) as Ebytes.
  { rewrite <- Hcb. apply (chunk_in_keeps st1); [apply A2|done|].
    intros id' Em. destruct (fp_chunk _ _ _ Hp2) as (id2 & Em2' & Hr2' & _). by assert (id' = id2) as -> by congruence. }
  rewrite Hcb in A2. rewrite Ebytes, (room_appended _ _ _ _ _ A2) in A3 by (apply queued_room; unfold room; lia).
  pose proof (appended_trans _ _ _ _ _ _ _ _ Hok1 A2 A3) as A. rewrite <- queued_app in A.
  destruct (taken_unref (u_queue u) id st st1 q3 st3) as (st4 & E4 & Hq4 & K4 & X4 & C4);
    [done|apply (ff_inv _ _ Hf)|done|done|apply (ff_inv _ _ (ad_ok _ _ _ _ _ A))|apply A|apply A|].
  destruct (take_accepts id (packet_chunk id) u1 st1 (claimed p + 40) b (pkt_seq p) (pkt_ts p) (set_queue q2 (set_lost lost shown u1)) st2 r q3 st3 st4)
    as (dur & Ed & Etk); try done; [apply Hu|by destruct Hfr|]. rewrite Etk. eexists _, st4. split; [done|].
  assert (appended (u_queue u) st (worth u p) q3 st4) as A4.
  { unfold worth. rewrite Hpl. by apply (appended_within _ st st1 _ q3 st3 st4). }
  split; try done; [| |intros _; split_and!; simpl; [done|by exists dur|]].
  - pose proof (ad_fixed _ _ _ _ _ A4) as Fx. unfold fixed in Fx. injection Fx as Fb _ _ _.
    split; simpl; [apply A4|apply Hu|rewrite Fb; apply Hu|apply Hu| |apply u64_bound].
    unfold pkt_seq. pose proof (le_combine_bound _ (sub_list_bytes (claimed p + 44) 4 _ Hb)) as Hbd. unfold pkt_word.
    destruct accepted_range as (_ & _ & En'). rewrite sub_list_length in Hbd by lia. exact Hbd.
  - intros Hf0. congruence.
  - change (if follows_gap u (pkt_seq p) then lost = u64 (u_lost_pb u + u64 (pkt_ts p - u_last_pb_ts u)) /\ shown = lost / 1000
      else lost = u_lost_pb u /\ shown = u_lost_shown u) in Hlost. by destruct (follows_gap u (pkt_seq p)); destruct Hlost.
Qed.
End event.

(** ** Properties *)

(** What [recv] left in the block, if anything. *)
Definition packet_of (r : recv_result) : list Z :=
  match r with RecvErr _ => [] | RecvData pkt => take (Z.to_nat MAX_FRAME_SIZE) pkt end.

Lemma packet_of_length r : (length (packet_of r) <= 1600)%nat.
Proof. destruct r; simpl; [lia|]. rewrite length_take. unfold MAX_FRAME_SIZE. lia. Qed.

Definition harmless_result (u : userdata) (r : recv_result) : Prop :=
  match r with RecvErr e => e <> EINTR | RecvData _ => harmless u (packet_of r) end.

(** The receiver before a call: its queue is a line, positions and the number of
    its pieces are far from the ends of their types, there is memory for a packet,
    and no interrupted call left its mark in errno. *)
Record receiving (u : userdata) (st : store) (errno : Z) : Prop := {
  rv_input : input_ok u st;
  rv_fifo : fifo_ok (u_queue u) st;
  rv_limit : bq_read_index (u_queue u) + bq_maxlength (u_queue u) < 2 ^ 62;
  rv_nodes : Z.of_nat (length (bq_blocks (u_queue u))) + 2 * room (u_queue u) + 2 < 2 ^ 32;
  rv_pool : msum mb_length (st_blocks st) + MAX_FRAME_SIZE < 2 ^ 31;
  rv_errno : errno <> EINTR
}.

Lemma read_any u st errno r buf : receiving u st errno -> harmless_result u r -> length buf = 1600%nat ->
  exists out, iwab_read (u_istream u) (Some buf) 1600 r = Ok out /\ length (ro_buf out) = 1600%nat /\
    default errno (ro_errno out) <> EINTR /\ read_verdict (u_istream u) (packet_of r) out /\
    match r with RecvErr _ => True | RecvData _ => holds (ro_buf out) (packet_of r) end.
Proof.
  intros Hr Hh Hl. destruct r as [e|pkt]; unfold iwab_read.
  - eexists. split; [done|]. by split_and!.
  - change (Z.to_nat 1600) with 1600%nat. change (take 1600 pkt) with (packet_of (RecvData pkt)). set (p := packet_of (RecvData pkt)) in *.
    pose proof (packet_of_length (RecvData pkt)) as Hpl. fold p in Hpl.
    destruct (splice_holds p buf) as (buf' & E & Hb & Hl'); [lia|]. rewrite E. simpl.
    destruct (parse_verdict (u_istream u) buf' p Hb (hl_bytes _ _ Hh)) as (out & Eo & Ebuf & Ho & V); [lia|apply Hh|].
    exists out. rewrite Ebuf. split_and!; try done; [congruence|]. pose proof (rv_errno _ _ _ Hr). by destruct Ho as [-> | ->].
Qed.

Lemma work_result r u st errno rs : receiving u st errno -> harmless_result u r ->
  exists u' st', rtpoll_work_cb POLLIN true errno (r :: rs) u st = Ok (if plays u (packet_of r) then 1 else 0, (u', st')) /\
    handled u st (packet_of r) u' st'.
Proof.
  intros Hr Hh. pose proof Hr as [H1 H2 H3 H4 H5 H6]. set (p := packet_of r) in *.
  destruct (work_reads u st errno rs H1 H5 r) as (id & st1 & buf & out & Hld & Hl & Er & E).
  { intros buf Hl. destruct (read_any u st errno r buf Hr Hh Hl) as (out & E & El & En & _). eauto. }
  destruct (read_any u st errno r buf Hr Hh Hl) as (out' & E' & El & _ & V & Hb). rewrite Er in E'. injection E' as <-.
  rewrite E. unfold read_verdict in V. fold p in V, Hb. destruct (accepts (iw_addr_filter (u_istream u)) p) eqn:Ea.
  - destruct r as [e|pkt]; [by vm_compute in Ea|]. destruct V as (-> & -> & ->).
    pose proof (packet_of_length (RecvData pkt)) as Hpl. fold p in Hpl.
    pose proof (accepted_range u p (hl_bytes _ _ Hh) Hpl Ea) as Hrg. rewrite (proj2 (Z.ltb_ge _ _)), u64_small by lia.
    fold (in_packet u p). fold (packet_chunk p id). destruct (plays u p) eqn:Ep.
    + by apply (take_plays u st H1 p (hl_bytes _ _ Hh) Hpl Ea id st1 (ro_buf out)).
    + rewrite (take_ignores u st H1 p (hl_bytes _ _ Hh) Hpl Ea id st1 (ro_buf out)); try done.
      2: { destruct (decide (pkt_seq p = u_seqnb u)); [by right|]. left. by apply (hl_frames _ _ Hh). }
      destruct (ignored u st H1 (in_packet u p) id st1 (ro_buf out)) as (st' & Ei & Hi & A); [apply H1|done|done|].
      rewrite Ei. eexists _, st'. split; [done|]. by apply handled_ignored.
  - destruct V as (Hneg & Hf). rewrite (proj2 (Z.ltb_lt _ _)) by done.
    destruct (ignored u st H1 (ro_iw out) id st1 (ro_buf out)) as (st' & Ei & Hi & A); [rewrite Hf; apply H1|done|done|].
    assert (plays u p = false) as Ep by (unfold plays; by rewrite Ea).
    rewrite Ei, Ep. eexists _, st'. split; [done|]. by apply handled_ignored.
Qed.

Lemma worth_received u p : plays u p = true -> 0 < pkt_len p -> 0 <= claimed p ->
  gap_bytes u (pkt_seq p) (pkt_ts p) + pkt_len p <= room (u_queue u) ->
  worth u p = received u (pkt_body p) (pkt_seq p) (pkt_ts p).
Proof.
  intros Hp Hl Hc Hr. unfold worth, received. rewrite Hp. destruct (gap_bytes_range u (pkt_seq p) (pkt_ts p)) as [Hg _].
  assert (Z.of_nat (length (Some <$> pkt_body p)) = pkt_len p) as El.
  { rewrite length_fmap. unfold pkt_body. rewrite sub_list_length; unfold pkt_len in *; lia. }
  assert (Some <$> pkt_body p <> []) as Hne by (intros En; rewrite En in El; simpl in El; lia).
  rewrite queued_all; rewrite concat_app, gap_pieces_copies by done; simpl; [by rewrite app_nil_r|].
  rewrite length_app, copies_length, app_nil_r by done. lia.
Qed.

(** C5: what becomes of a packet.  Whatever the socket delivers, short of an
    interruption and of the packets that make the callback fail an assertion or
    look outside the packet ([harmless] lists them), the work callback returns.
    Errors, packets that are not the peer's, repeats and packets older than the
    last one are ignored: it returns 0, the queue, the sequence number and the
    expected time stamp stay as they were.  Any other packet is played: it
    returns 1, the sequence number, the expected time stamp and the lost time are
    updated, and [worth] is appended to the queue: copies of the packet's body, the
    last one cut, for the audio missing before it, then the body, where each piece
    that does not fit into the queue is dropped and the others are kept; with room
    for all of them nothing is dropped.  The block the packet was read into is
    given back, apart from the queue's own references. *)
Theorem packet_is_queued r u st errno rs :
  receiving u st errno -> harmless_result u r ->
  let p := packet_of r in
  exists u' st',
    rtpoll_work_cb POLLIN true errno (r :: rs) u st = Ok (if plays u p then 1 else 0, (u', st')) /\
    handled u st p u' st' /\
    (plays u p = true -> gap_bytes u (pkt_seq p) (pkt_ts p) + pkt_len p <= room (u_queue u) ->
     worth u p = copies (Z.to_nat (gap_bytes u (pkt_seq p) (pkt_ts p))) (Some <$> pkt_body p) ++ (Some <$> pkt_body p)).
Proof.
  intros Hr Hh p. destruct (work_result r u st errno rs Hr Hh) as (u' & st' & E & H). exists u', st'. split_and!; try done.
  intros Hp Hroom. unfold p in *. destruct r as [e|pkt]; [done|].
  assert (accepts (iw_addr_filter (u_istream u)) (packet_of (RecvData pkt)) = true) as Ha.
  { unfold plays in Hp. by apply andb_true_iff in Hp as [[Ha _]%andb_true_iff _]. }
  pose proof (accepted_range u _ (hl_bytes _ _ Hh) (packet_of_length _) Ha). apply worth_received; try done; lia.
Qed.
