(* ===== verification/IwabPlay.v ===== *)
(** * IwabPlay: what is received is played

    The receiving module as the implementor of a playback stream: its queue is
    fed by the packets from the air and emptied by the sink's thread.  Its [pop]
    callback keeps the promises that a stream relies on, so the theorems on
    streams and on sinks apply to it. *)
From stdpp Require Import base tactics numbers list gmap strings.
From S2P Require Import Prelude Sample Volume Memblock Mcalign Memblockq MemblockqSpec MemblockqRead MemblockqAttr MemblockqInv.
From S2P Require Import MemblockqAlign MemblockqFrames MemblockqFifo SinkInput SinkInputProps IwabNet IwabInput IwabInputProps IwabReceive.

#[local] Arguments rtpoll_work_cb : simpl never.

(** The callbacks [pa__init] gives to its sink input. *)
Definition receiver : implementor userdata :=
  mk_implementor (fun u _ st => sink_input_pop_cb u st) None
    (Some (fun u n st => u ← sink_input_process_rewind_cb n u; Ok (u, st))) None None.

(** The receiver while it plays: its queue is a line of at most [maxlen]
    bytes. *)
Record play_ok (maxlen : Z) (u : userdata) (st : store) : Prop := {
  pl_input : input_ok u st;
  pl_fifo : fifo_ok (u_queue u) st;
  pl_room : bq_write_index (u_queue u) - bq_read_index (u_queue u) <= maxlen
}.

Lemma owned_nonneg q j : 0 <= owned q j.
Proof. unfold owned. pose proof (items_refs_nonneg (bq_blocks q) j). pose proof (chunk_refs_nonneg (bq_silence q) j). lia. Qed.

Lemma input_queue u st q' st' : input_ok u st -> queue_inv q' st' -> bq_base q' = bq_base (u_queue u) -> input_ok (set_queue q' u) st'.
Proof. intros [H1 H2 H3 H4 H5 H6] Hq Eb. split; simpl; try done. congruence. Qed.

(** One call of the [pop] callback. *)
Lemma receiver_pop maxlen u st : play_ok maxlen u st ->
  exists r q' st', sink_input_pop_cb u st = Ok (r, (set_queue q' u, st')) /\ popped (u_queue u) st r q' st' /\
    play_ok maxlen (set_queue q' u) st'.
Proof.
  intros [H1 H2 H3]. destruct (fifo_pop (u_queue u) st H2) as (r & q1 & st1 & q' & st' & E1 & E2 & P).
  exists r, q', st'. split; [|split; [done|]].
  - unfold sink_input_pop_cb. rewrite E1. simpl. destruct r as [c|].
    + rewrite E2. done.
    + apply Ok_inj in E2. congruence.
  - pose proof P as [P1 P2 (P3 & P3' & P3'') P4 P5 P6 P7 P8].
    assert (0 <= from_option mc_length 0 r).
    { destruct r as [c|]; simpl; [|lia]. destruct P7 as (_ & (? & _ & _ & _ & ? & _) & _). lia. }
    split; simpl; [|done|lia]. apply (input_queue u st); [done|apply P1|done].
Qed.

Lemma receiver_env maxlen u st st' : play_ok maxlen u st -> store_ok st' -> keeps st st' ->
  (forall j, owned (u_queue u) j <= refs st' j) -> play_ok maxlen u st' /\ pending (u_queue u) st' = pending (u_queue u) st.
Proof.
  intros [H1 H2 H3] Hok' K Hr. split; [|by apply pending_env].
  destruct (fifo_env _ st st' H2 Hok' K Hr) as [Hf _]. split; try done. destruct H1. split; try done. apply Hf.
Qed.

#[export] Instance receiver_ok maxlen : ImplementorOk receiver 4 maxlen.
Proof.
  refine (Build_ImplementorOk _ receiver 4 maxlen (play_ok maxlen) (fun u => owned (u_queue u))
    (fun u st => pending (u_queue u) st) (fun u => pa_memblockq_prebuf_active (u_queue u) = true) _ _ _).
  - intros u. apply owned_nonneg.
  - intros u st st' Hu Hok Hok' K Hr. by apply receiver_env.
  - intros u n st Hu Hok _ _. destruct (receiver_pop maxlen u st Hu) as (r & q' & st' & E & P & Hu').
    exists r, (set_queue q' u), st'. pose proof P as [P1 P2 _ P4 P5 P6 P7 P8]. split_and!; try done; [apply P1|].
    destruct r as [c|]; simpl in *; [|by rewrite P8].
    rewrite (io_base _ _ (pl_input _ _ _ Hu)) in P7. destruct P7 as (_ & Hc & Hi & Hl). split_and!; try done.
    pose proof (ff_order _ _ P1). pose proof (pl_room _ _ _ Hu). lia.
Defined.

(** ** Packets *)




(** ** A session *)

(** Anything the socket delivers, whatever becomes of it. *)
Lemma receiver_handles maxlen r errno rs u st : play_ok maxlen u st -> bq_maxlength (u_queue u) <= maxlen ->
  receiving u st errno -> harmless_result u r ->
  exists u' st', rtpoll_work_cb POLLIN true errno (r :: rs) u st = Ok (if plays u (packet_of r) then 1 else 0, (u', st')) /\
    play_ok maxlen u' st' /\ appended (u_queue u) st (worth u (packet_of r)) (u_queue u') st'.
Proof.
  intros [H1 H2 H3] Hmax Hr Hh. destruct (work_result r u st errno rs Hr Hh) as (u' & st' & E & [D1 D2 _ _]).
  exists u', st'. split_and!; try done. split; [done|apply D2|].
  assert (Z.of_nat (length (worth u (packet_of r))) <= room (u_queue u)) as Hw.
  { unfold worth. destruct (plays u _); [apply queued_room|simpl]; unfold room; lia. }
  pose proof (ad_fixed _ _ _ _ _ D2) as Fx. unfold fixed in Fx. injection Fx as _ _ Er _.
  rewrite (ad_write _ _ _ _ _ D2), Er. unfold room in Hw. lia.
Qed.

(** The receiver at work: the socket delivers something, the loop calls without
    need, the sink asks for data, and others use the memory pool.  [got] are the
    bytes the packets were worth, [out] those handed over. *)
Inductive session (maxlen : Z) : userdata -> store -> list cell -> list cell -> userdata -> store -> Prop :=
| session_done u st : session maxlen u st [] [] u st
| session_packet r errno rs ret u st u1 st1 got out u' st' :
    receiving u st errno -> harmless_result u r ->
    rtpoll_work_cb POLLIN true errno (r :: rs) u st = Ok (ret, (u1, st1)) ->
    session maxlen u1 st1 got out u' st' ->
    session maxlen u st (worth u (packet_of r) ++ got) out u' st'
| session_idle revents opened errno rs ret u st u1 st1 got out u' st' :
    Z.land revents BAD_REVENTS <> 0 \/ Z.land revents POLLIN = 0 \/ opened = false ->
    rtpoll_work_cb revents opened errno rs u st = Ok (ret, (u1, st1)) ->
    session maxlen u1 st1 got out u' st' ->
    session maxlen u st got out u' st'
| session_pop u st r u1 st1 got out u' st' :
    sink_input_pop_cb u st = Ok (r, (u1, st1)) ->
    session maxlen u1 st1 got out u' st' ->
    session maxlen u st got (from_option (chunk_bytes st1) [] r ++ out) u' st'
| session_others u st st1 got out u' st' :
    store_ok st1 -> keeps st st1 -> (forall j, owned (u_queue u) j <= refs st1 j) ->
    session maxlen u st1 got out u' st' ->
    session maxlen u st got out u' st'.

Lemma work_idle revents opened errno rs u st : Z.land revents BAD_REVENTS <> 0 \/ Z.land revents POLLIN = 0 \/ opened = false ->
  exists ret, rtpoll_work_cb revents opened errno rs u st = Ok (ret, (u, st)).
Proof.
  intros H. unfold rtpoll_work_cb. destruct (Z.eqb_spec (Z.land revents BAD_REVENTS) 0) as [H1|H1]; [|by eexists]. simpl.
  destruct (Z.eqb_spec (Z.land revents POLLIN) 0) as [H2|H2]; [by eexists|]. destruct H as [?|[?| ->]]; [done..|]. by eexists.
Qed.

Lemma session_keeps maxlen u st got out u' st' : session maxlen u st got out u' st' ->
  play_ok maxlen u st -> bq_maxlength (u_queue u) <= maxlen ->
  play_ok maxlen u' st' /\ bq_maxlength (u_queue u') = bq_maxlength (u_queue u) /\
  pending (u_queue u) st ++ got = out ++ pending (u_queue u') st'.
Proof.
  induction 1 as [u st|r errno rs ret u st u1 st1 got out u' st' Hr Hh E _ IH
    |revents opened errno rs ret u st u1 st1 got out u' st' Hi E _ IH
    |u st r u1 st1 got out u' st' E _ IH|u st st1 got out u' st' Hok K Ho _ IH]; intros Hu Hmax.
  - by rewrite app_nil_r.
  - destruct (receiver_handles maxlen r errno rs u st Hu Hmax Hr Hh) as (u2 & st2 & E2 & Hu2 & A).
    rewrite E in E2. injection E2 as _ <- <-. pose proof (ad_fixed _ _ _ _ _ A) as Fx. unfold fixed in Fx.
    assert (bq_maxlength (u_queue u1) = bq_maxlength (u_queue u)) as Em by congruence.
    destruct IH as (Hu' & Em' & C); [done|by rewrite Em|]. split_and!; [done|congruence|].
    by rewrite <- C, (ad_pending _ _ _ _ _ A), app_assoc.
  - destruct (work_idle revents opened errno rs u st Hi) as [ret2 E2]. rewrite E in E2. injection E2 as _ <- <-. by apply IH.
  - destruct (receiver_pop maxlen u st Hu) as (r2 & q2 & st2 & E2 & P & Hu2). rewrite E in E2. injection E2 as <- -> <-.
    pose proof (pp_limits _ _ _ _ _ P) as (_ & Em & _). simpl in IH. destruct IH as (Hu' & Em' & C); [done|by rewrite Em|].
    split_and!; [done|congruence|]. by rewrite (pp_pending _ _ _ _ _ P), <- !app_assoc, C.
  - destruct (receiver_env maxlen u st st1 Hu) as [Hu1 Ep]; [done..|].
    destruct IH as (Hu' & Em' & C); [done..|]. split_and!; try done. by rewrite <- C, Ep.
Qed.

(** ** With the stream *)





(** C6: every byte queued is handed over once and in order.  Whatever the socket
    delivers, foreign, repeated, late or too much for the queue, short of the
    packets that [harmless] excludes, and however the sink asks, the bytes
    handed over so far followed by those still waiting are the ones that were
    waiting at the beginning followed by what each packet was worth, which is what
    the queue had room for of copies of its body for lost packets and of the body;
    and asked once more, the receiver never fails: it hands over a chunk of whole
    frames unless it waits for its queue to fill up. *)
Theorem received_in_order maxlen u st got out u' st' :
  play_ok maxlen u st -> bq_maxlength (u_queue u) <= maxlen -> session maxlen u st got out u' st' ->
  pending (u_queue u) st ++ got = out ++ pending (u_queue u') st' /\ play_ok maxlen u' st' /\
  exists r u2 st2, sink_input_pop_cb u' st' = Ok (r, (u2, st2)) /\
    match r with
    | Some c => 0 < mc_length c <= maxlen /\ mc_length c mod 4 = 0
    | None => pa_memblockq_prebuf_active (u_queue u') = true
    end.
Proof.
  intros Hu Hmax Hs. destruct (session_keeps _ _ _ _ _ _ _ Hs Hu Hmax) as (Hu' & _ & C). split_and!; [done..|].
  destruct (receiver_pop maxlen u' st' Hu') as (r & q2 & st2 & E & P & Hu2). exists r, (set_queue q2 u'), st2. split; [done|].
  pose proof (pp_chunk _ _ _ _ _ P) as Hc. destruct r as [c|]; [|done].
  destruct Hc as (_ & (id & _ & _ & _ & Hl & _) & _ & Hm). rewrite (io_base _ _ (pl_input _ _ _ Hu')) in Hm. split; [|done].
  pose proof (pp_read _ _ _ _ _ P) as Er. pose proof (pp_write _ _ _ _ _ P) as Ew. simpl in Er.
  pose proof (ff_order _ _ (pp_ok _ _ _ _ _ P)). pose proof (pl_room _ _ _ Hu'). lia.
Qed.

(** ** A concrete receiver *)

Module PlayExample.
(** A store with two blocks of zeros; the receiver has the first as its silence
    and waits for four bytes, its stream keeps 64 and has the second. *)
Definition st_zero : store := MCExample.two [0; 0; 0; 0] [0; 0; 0; 0].
Definition silence1 : pa_memchunk := mk_chunk (Some 1) 0 4.
Definition silence2 : pa_memchunk := mk_chunk (Some 2) 0 4.
Definition made1 : pa_memblockq * store :=
  match pa_memblockq_new 0 64 16 iwab_spec 4 0 0 (Some silence1) st_zero with Ok s => s | _ => (InputExample.q_new.1, st_zero) end.
Definition made2 : pa_memblockq * store :=
  match pa_memblockq_new 0 64 0 iwab_spec 0 1 8 (Some silence2) made1.2 with Ok s => s | _ => (InputExample.q_new.1, st_zero) end.
Definition u_play : userdata := mk_userdata true false made1.1 None 0 0 iwab_setup iwab_spec 0 0.
Definition st_play : store := made2.2.

(** With one more reference on each block than [st_zero] had. *)
Definition blk3 : pa_memblock := mk_memblock 3 PA_MEMBLOCK_APPENDED false false 4 (Some <$> [0; 0; 0; 0]) (-1) 0.

Lemma play_refs j : refs st_play j = if decide (j = 1) then 3 else if decide (j = 2) then 3 else 0.
Proof.
  assert (st_play = mk_store (mk_mempool 9 65536 16 0 [] 2 8) (<[1 := blk3]> (<[2 := blk3]> ∅)) 3 true) as -> by (by vm_compute).
  unfold refs. simpl. rewrite !lookup_insert, lookup_empty. repeat case_decide; subst; done || lia.
Qed.

Lemma made1_inv : queue_inv made1.1 made1.2.
Proof.
  destruct (new_spec 0 64 16 iwab_spec 4 0 0 (Some silence1) st_zero (MCExample.two_ok _ _ _ _ _ _ _ _) iwab_spec_ok)
    as (q1 & st1 & E1 & Hq1 & _); [unfold new_args_ok, len_max; lia|exists 1; by vm_compute|].
  unfold made1. rewrite E1. exact Hq1.
Qed.

Lemma made2_inv : queue_inv made2.1 st_play /\ keeps made1.2 st_play.
Proof.
  destruct (new_spec 0 64 0 iwab_spec 0 1 8 (Some silence2) made1.2 (qi_store _ _ made1_inv) iwab_spec_ok)
    as (q2 & st2 & E2 & Hq2 & K2 & _); [unfold new_args_ok, len_max; lia|exists 2; by vm_compute|].
  unfold st_play, made2. rewrite E2. split; [exact Hq2|exact K2].
Qed.

Lemma play_own j : owned made2.1 j + owned made1.1 j <= refs st_play j.
Proof.
  assert (bq_blocks made1.1 = [] /\ bq_blocks made2.1 = [] /\ bq_silence made1.1 = silence1 /\ bq_silence made2.1 = silence2)
    as (E1 & E2 & E3 & E4) by (by vm_compute).
  unfold owned. rewrite play_refs, E1, E2, E3, E4. unfold items_refs, chunk_refs, delta. simpl. repeat case_decide; lia.
Qed.

Lemma play_ok0 : play_ok 64 u_play st_play.
Proof.
  assert (queue_inv made1.1 st_play) as Hq.
  { apply (inv_env _ made1.2 _ made1_inv); [apply made2_inv|apply made2_inv|].
    intros j. pose proof (play_own j). pose proof (owned_nonneg made2.1 j). lia. }
  split; [split; [exact Hq|done|by vm_compute|done|by vm_compute|by vm_compute]| |by vm_compute].
  apply (fifo_new made1.1 st_play Hq); try (by vm_compute). split_and!; [exists 1; by vm_compute|by vm_compute|].
  vm_compute. repeat constructor.
Qed.


End PlayExample.
Import PlayExample.


Definition packet1 : recv_result := RecvData (on_air InputExample.rt8 InputExample.body4 (zeros 4) 1 7 0).

Lemma play_receiving : receiving u_play st_play 0.
Proof. split; [apply play_ok0|apply play_ok0|by vm_compute..|done]. Qed.

Lemma packet1_harmless : harmless_result u_play packet1.
Proof. split; [vm_compute; repeat constructor; done|by vm_compute..|done]. Qed.

(** A packet of 80 bytes is too much for a queue of 64: nothing of it is queued. *)
Example overrun_is_dropped : let p := packet_of (RecvData (on_air InputExample.rt8 (zeros 80) (zeros 4) 1 7 0)) in
  plays u_play p = true /\ worth u_play p = [].
Proof. by vm_compute. Qed.

Lemma packet_is_queued_witness : exists u' st',
  rtpoll_work_cb POLLIN true 0 [packet1] u_play st_play = Ok (1, (u', st')) /\
  handled u_play st_play (packet_of packet1) u' st' /\ worth u_play (packet_of packet1) = [Some 1; Some 2; Some 3; Some 4].
Proof.
  destruct (packet_is_queued packet1 u_play st_play 0 [] play_receiving packet1_harmless) as (u' & st' & E & H & _).
  exists u', st'. split; [exact E|]. split; [exact H|]. by vm_compute.
Defined.

Lemma received_in_order_witness : exists out u' st',
  session 64 u_play st_play (worth u_play (packet_of packet1) ++ []) out u' st' /\
  pending (u_queue u_play) st_play ++ worth u_play (packet_of packet1) ++ [] = out ++ pending (u_queue u') st'.
Proof.
  destruct (receiver_handles 64 packet1 0 [] u_play st_play play_ok0) as (u1 & st1 & E1 & Hu1 & _);
    [by vm_compute|exact play_receiving|exact packet1_harmless|].
  destruct (receiver_pop 64 u1 st1 Hu1) as (r & q2 & st2 & E2 & _).
  assert (session 64 u_play st_play (worth u_play (packet_of packet1) ++ []) (from_option (chunk_bytes st2) [] r ++ [])
    (set_queue q2 u1) st2) as Hs.
  { eapply session_packet; [exact play_receiving|exact packet1_harmless|exact E1|]. eapply session_pop; [exact E2|]. constructor. }
  eexists _, _, _. split; [exact Hs|]. refine (proj1 (received_in_order 64 _ _ _ _ _ _ play_ok0 _ Hs)). by vm_compute.
Defined.
