(* ===== verification/IwabSink.v ===== *)
(** * IwabSink: the sending module

    Models [src/modules/iwab/iwab-sink.c]: the I/O thread that renders audio and
    sends every packet twice, the callbacks of the sink, and loading and
    unloading.

    Inputs from outside: the clock, the chunk [pa_sink_render] hands over
    (with a reference of its own), what the kernel answers to [writev], and the
    result of [pa_rtpoll_run].  The log messages are left out. *)
From stdpp Require Import base tactics numbers list gmap strings.
From S2P Require Import Prelude Sample Channelmap Text Proplist ProplistText Modargs Memblock Sink IwabNet.

Definition MAX_FRAME_SIZE : Z := 1400.

(** The timer of the thread's poll loop. *)
Inductive timer := TimerDisabled | TimerAt (t : Z).

(** [struct userdata], with the fields of the sink that the thread uses. *)
Record userdata := mk_sinkdata {
  s_block_usec : Z;
  s_stream_ts_abs : Z;
  s_stream_resend_abs : Z;
  s_retries : Z;
  s_istream : iwab;
  s_chunk : pa_memchunk;
  s_timer : timer;
  s_state : pa_sink_state_t;        (* sink->thread_info.state *)
  s_max_request : Z;                (* sink->thread_info.max_request *)
  s_max_rewind : Z;
  s_rewind_requested : bool;
  s_spec : pa_sample_spec           (* sink->sample_spec *)
}.

Definition set_stream_ts (t : Z) (u : userdata) : userdata :=
  mk_sinkdata (s_block_usec u) t (s_stream_resend_abs u) (s_retries u) (s_istream u) (s_chunk u)
    (s_timer u) (s_state u) (s_max_request u) (s_max_rewind u) (s_rewind_requested u) (s_spec u).
Definition set_timer (t : timer) (u : userdata) : userdata :=
  mk_sinkdata (s_block_usec u) (s_stream_ts_abs u) (s_stream_resend_abs u) (s_retries u) (s_istream u)
    (s_chunk u) t (s_state u) (s_max_request u) (s_max_rewind u) (s_rewind_requested u) (s_spec u).
Definition set_state (x : pa_sink_state_t) (u : userdata) : userdata :=
  mk_sinkdata (s_block_usec u) (s_stream_ts_abs u) (s_stream_resend_abs u) (s_retries u) (s_istream u)
    (s_chunk u) (s_timer u) x (s_max_request u) (s_max_rewind u) (s_rewind_requested u) (s_spec u).
Definition clear_rewind (u : userdata) : userdata :=
  mk_sinkdata (s_block_usec u) (s_stream_ts_abs u) (s_stream_resend_abs u) (s_retries u) (s_istream u)
    (s_chunk u) (s_timer u) (s_state u) (s_max_request u) (s_max_rewind u) false (s_spec u).
Definition set_send (iw : iwab) (c : pa_memchunk) (retries resend ts : Z) (t : timer) (u : userdata) : userdata :=
  mk_sinkdata (s_block_usec u) ts resend retries iw c t (s_state u) (s_max_request u) (s_max_rewind u)
    (s_rewind_requested u) (s_spec u).
Definition set_request (block_usec max_request max_rewind : Z) (u : userdata) : userdata :=
  mk_sinkdata block_usec (s_stream_ts_abs u) (s_stream_resend_abs u) (s_retries u) (s_istream u)
    (s_chunk u) (s_timer u) (s_state u) max_request max_rewind (s_rewind_requested u) (s_spec u).

(** ** Callbacks *)

(** The latency stored for GET_LATENCY at time [now]. *)
Definition sink_process_msg (now : Z) (u : userdata) : Z := s64 (u64 (s_stream_ts_abs u - now)).

(** Called before the thread's copy of the state changes to [new_state]; the
    assignment is outside the inner [if], which has no braces. *)
Definition sink_set_state_in_io_thread_cb (now : Z) (new_state : pa_sink_state_t) (u : userdata) : userdata :=
  match s_state u with
  | PA_SINK_SUSPENDED | PA_SINK_INIT => set_stream_ts now u
  | _ => u
  end.

Definition sink_update_requested_latency_cb (requested : Z) (u : userdata) : outcome userdata :=
  if requested =? SIZE_MAX then         (* (pa_usec_t) -1 *)
    nbytes ← pa_frame_align MAX_FRAME_SIZE (s_spec u);
    block_usec ← pa_bytes_to_usec nbytes (s_spec u);
    Ok (set_request block_usec nbytes 0 u)
  else
    nbytes ← pa_usec_to_bytes requested (s_spec u);
    Ok (set_request requested nbytes 0 u).

(** ** The I/O thread *)

(** The bytes behind a pointer into a block. *)
Fixpoint cells_bytes (l : list cell) : outcome (list Z) :=
  match l with
  | [] => Ok []
  | c :: l => b ← deref c; r ← cells_bytes l; Ok (b :: r)
  end.

(** [p = acquire; ret = iwab_send(p + index, length, ...)], then [release]
    unless the send failed. *)
Definition send_chunk (writev : list Z -> Z) (ts : Z) (retries : Z) (c : pa_memchunk) (iw : iwab) (st : store)
    : outcome (bool * list Z * iwab * store) :=
  id ← deref (mc_memblock c);
  '(p, st) ← pa_memblock_acquire id st;
  cs ← read_data p (mc_index c) (mc_length c);
  body ← cells_bytes cs;
  '(ret, _, frame, iw) ← iwab_send writev iw (Some body) (mc_length c) ts (u8 retries);
  frame ← deref frame;
  if ret <? 0 then Ok (false, frame, iw, st)
  else
    st ← pa_memblock_release id st;
    Ok (true, frame, iw, st).

(** How an iteration of the loop ends. *)
Inductive iter_end := Again | Failed | Finished.

(** One iteration of the [for (;;)] of [thread_func]: [clock] is what
    [pa_rtclock_now] returns, [rendered] what [pa_sink_render] does, [poll] the
    result of [pa_rtpoll_run].  The frames handed to the kernel come with the
    result. *)
Definition thread_iter (writev : list Z -> Z) (clock : Z) (rendered : pa_memchunk) (poll : Z)
    (u : userdata) (st : store) : outcome (iter_end * list (list Z) * userdata * store) :=
  let opened := PA_SINK_IS_OPENED (s_state u) in
  let now := if opened then clock else 0 in
  let u := if s_rewind_requested u then clear_rewind u else u in
  let wait fs u st :=
    Ok (if poll <? 0 then Failed else if poll =? 0 then Finished else Again, fs, u, st) in
  if opened then
    if s_stream_ts_abs u <=? now then
      _ ← pa_assert (0 <? mc_length rendered);
      '(sent, frame, iw, st) ← send_chunk writev (s_stream_ts_abs u) 0 rendered (s_istream u) st;
      if negb sent then
        Ok (Failed, [frame], set_send iw rendered 0 (s_stream_resend_abs u) (s_stream_ts_abs u) (s_timer u) u, st)
      else
        chunk_time ← pa_bytes_to_usec (mc_length rendered) (s_spec u);
        let resend := u64 (s_stream_ts_abs u + chunk_time / 2) in
        let ts := u64 (s_stream_ts_abs u + chunk_time) in
        wait [frame] (set_send iw rendered 1 resend ts (TimerAt resend) u) st
    else if (s_stream_resend_abs u <=? now) && (s_retries u <=? 1) then
      '(sent, frame, iw, st) ← send_chunk writev (ih_timestamp (h_iw (iw_wi_h (s_istream u))))
                                (s_retries u) (s_chunk u) (s_istream u) st;
      if negb sent then
        Ok (Failed, [frame], set_send iw (s_chunk u) (s_retries u) (s_stream_resend_abs u)
                               (s_stream_ts_abs u) (s_timer u) u, st)
      else
        id ← deref (mc_memblock (s_chunk u));
        st ← pa_memblock_unref id st;
        wait [frame] (set_send iw (s_chunk u) (s_retries u + 1) (s_stream_resend_abs u)
                        (s_stream_ts_abs u) (TimerAt (s_stream_ts_abs u)) u) st
    else wait [] (set_timer (TimerAt (s_stream_ts_abs u)) u) st
  else wait [] (set_timer TimerDisabled u) st.

(** ** Loading and unloading *)

Definition sink_valid_modargs : list cstring :=
  [str "sink_name"; str "format"; str "rate"; str "channels"; str "channel_map"; str "iface"].
Definition DEFAULT_IFACE : cstring := str "mon0".

(** The argument of the module, the defaults of the core, and its answers while
    the module is loaded. *)
Record sink_env := mk_sink_env {
  se_argument : option cstring;
  se_default_sample_spec : pa_sample_spec;
  se_default_channel_map : pa_channel_map;
  se_thread_mq : bool;
  se_description : cstring;         (* iwab output, translated *)
  se_open : open_env;
  se_sink : bool;                   (* pa_sink_new succeeds *)
  se_thread : bool                  (* pa_thread_new succeeds *)
}.

(** [pa__done] with [u] set, at its last step: the descriptor is closed
    whatever it is. *)
Definition sink_done (fd : Z) (fds : gset Z) : outcome (gset Z) :=
  if bool_decide (fd ∈ fds) then Ok (fds ∖ {[ fd ]}) else Abort.

(** The state right after loading; the structure was zeroed. *)
Definition sink_loaded (spec : pa_sample_spec) (iw : iwab) (buffer_size block_usec : Z) : userdata :=
  mk_sinkdata block_usec 0 0 0 iw pa_memchunk_reset TimerDisabled PA_SINK_INIT buffer_size 0 false spec.

Definition sink_pa__init (env : sink_env) (fds : gset Z) : outcome (Z * option userdata * gset Z) :=
  ma ← pa_modargs_new (se_argument env) (Some sink_valid_modargs);
  match ma with
  | None => Ok (-1, None, fds)
  | Some ma =>
      '(r, spec, _) ← pa_modargs_get_sample_spec_and_channel_map ma (se_default_sample_spec env) (se_default_channel_map env)
                        PA_CHANNEL_MAP_AIFF;
      if r <? 0 then Ok (-1, None, fds)
      else
        let fail fd fds := fds ← sink_done fd fds; Ok (-1, None, fds) in
        if negb (se_thread_mq env) then fail 0 fds
        else
          let '(_, proplist) := pa_proplist_sets pa_proplist_new (str "device.description") (se_description env) in
          let '(_, proplist) := pa_proplist_sets proplist (str "device.class") (str "abstract") in
          '(r, _) ← pa_modargs_get_proplist ma (str "sink_properties") proplist PA_UPDATE_REPLACE;
          if r <? 0 then fail 0 fds
          else
            iface ← pa_modargs_get_value ma (str "iface") (Some DEFAULT_IFACE);
            match iwab_open (se_open env) true (name_of <$> iface) fds with
            | (_, None, fds) => fail 0 fds
            | (_, Some iw, fds) =>
                if negb (se_sink env) then fail (iw_fd iw) fds
                else
                  buffer_size ← pa_frame_align MAX_FRAME_SIZE spec;
                  block_usec ← pa_bytes_to_usec buffer_size spec;
                  if negb (se_thread env) then fail (iw_fd iw) fds
                  else Ok (0, Some (sink_loaded spec iw buffer_size block_usec), fds)
            end
  end.

(** The start of [thread_func]. *)
Definition thread_start (clock : Z) (u : userdata) : userdata :=
  mk_sinkdata (s_block_usec u) clock (s_stream_resend_abs u) 0 (s_istream u) (s_chunk u) (s_timer u)
    (s_state u) (s_max_request u) (s_max_rewind u) (s_rewind_requested u) (s_spec u).
