(* ===== verification/IwabSinkProps.v ===== *)
(** * IwabSinkProps: what the sending module puts on the air

    One round of the I/O thread, every run of it, and the packets it sends. *)
From stdpp Require Import base tactics numbers list gmap strings.
From S2P Require Import Prelude Sample Channelmap Text Proplist ProplistText Modargs ModargsProps Memblock Sink Mcalign IwabNet IwabSink.

(** ** Sending a chunk *)

(** [c] is a slice of a live block that holds the bytes [body]. *)
Definition audio (st : store) (c : pa_memchunk) (body : list Z) : Prop :=
  chunk_in st c /\ chunk_bytes st c = Some <$> body /\ mc_length c < 2 ^ 16.

Lemma audio_length st c body : audio st c body -> mc_length c = Z.of_nat (length body).
Proof.
  intros ((id & Em & Hr & ? & ? & ?) & Hb & _). unfold chunk_bytes in Hb. rewrite Em in Hb.
  apply (f_equal length) in Hb. rewrite length_fmap, sub_list_length in Hb by lia. lia.
Qed.

Lemma cells_bytes_fmap (l : list Z) : cells_bytes (Some <$> l) = Ok l.
Proof. induction l as [|a l IH]; [done|]. rewrite fmap_cons. cbn [cells_bytes deref]. by rewrite bind_ok, IH. Qed.

(** The frame of a packet. *)
Definition frame_of (seq ts retry : Z) (body : list Z) : list Z :=
  rt_sent ++ headers_bytes (tx_headers (Z.of_nat (length body)) seq ts retry) ++ body.

Definition seq_of (iw : iwab) : Z := ih_seq (h_iw (iw_wi_h iw)).

Definition next_seq (retries : Z) (iw : iwab) : Z :=
  if retries =? 0 then u32 (seq_of iw + 1) else seq_of iw.

Lemma send_chunk_spec writev ts retries c iw st body : store_ok st -> audio st c body -> tx_ok iw ->
  0 <= retries <= 1 ->
  let frame := frame_of (next_seq retries iw) ts retries body in
  exists iw' st', send_chunk writev ts retries c iw st = Ok (negb (writev frame <? 0), frame, iw', st') /\
    tx_ok iw' /\ seq_of iw' = next_seq retries iw /\ ih_timestamp (h_iw (iw_wi_h iw')) = ts /\
    ((writev frame <? 0) = false -> st' = st).
Proof.
  intros [Hwf _] Ha Htx Hre. pose proof (audio_length _ _ _ Ha) as Hlen.
  destruct Ha as ((id & Em & Hr & Hi & Hl & Hb) & Hcb & Hmax).
  apply refs_alive in Hr as [b Eb]; [|done]. unfold bytes in Hb. rewrite Eb in Hb. simpl in Hb.
  unfold chunk_bytes, bytes in Hcb. rewrite Em, Eb in Hcb. simpl in Hcb.
  pose proof (wf_block _ Hwf _ _ Eb) as [].
  unfold send_chunk, pa_memblock_acquire, pa_memblock_release. rewrite Em. cbn [deref]. rewrite bind_ok.
  rewrite (get_block_ok _ Hwf _ _ Eb), !bind_ok. rewrite read_data_ok, bind_ok, Hcb by lia.
  rewrite cells_bytes_fmap, bind_ok, Hlen, u8_small by lia.
  pose proof (iwab_send_ok writev iw body ts retries Htx ltac:(lia)) as Es. cbv zeta in Es.
  set (iw' := sent_state iw body (Z.of_nat (length body)) ts retries) in *.
  pose proof (tx_ok_sent iw body (Z.of_nat (length body)) ts retries Htx) as Htx'. fold iw' in Htx'.
  assert (rt_sent ++ headers_bytes (iw_wi_h iw') ++ body = frame_of (next_seq retries iw) ts retries body) as Ef.
  { rewrite (tx_headers_eq _ Htx'). unfold frame_of.
    change (ih_length (h_iw (iw_wi_h iw'))) with (u16 (Z.of_nat (length body))).
    rewrite (u16_small (Z.of_nat (length body))) by lia. done. }
  rewrite Es, bind_ok, Ef. cbn [deref]. rewrite bind_ok. cbv zeta.
  destruct (writev _ <? 0) eqn:Ew; [by exists iw', (set_block id (with_n_acquired (mb_n_acquired b + 1) b) st)|].
  exists iw', st. split_and!; try done.
  unfold get_block. simpl. rewrite lookup_insert_eq. simpl.
  rewrite pa_assert_true by (simpl; blia). simpl. rewrite pa_assert_true by (simpl; blia). simpl.
  by rewrite acquire_release.
Qed.

(** ** The schedule *)

(** The end of an iteration. *)
Definition poll_end (poll : Z) : iter_end :=
  if poll <? 0 then Failed else if poll =? 0 then Finished else Again.

Lemma clear_rewind_fields u :
  let u' := if s_rewind_requested u then clear_rewind u else u in
  s_stream_ts_abs u' = s_stream_ts_abs u /\ s_stream_resend_abs u' = s_stream_resend_abs u /\
  s_retries u' = s_retries u /\ s_istream u' = s_istream u /\ s_chunk u' = s_chunk u /\
  s_spec u' = s_spec u /\ s_state u' = s_state u.
Proof. simpl. by destruct (s_rewind_requested u). Qed.

(** An iteration that renders, step by step. *)
Lemma iter_render writev clock rendered poll u st body : store_ok st -> audio st rendered body ->
  tx_ok (s_istream u) -> spec_ok (s_spec u) -> PA_SINK_IS_OPENED (s_state u) = true ->
  s_stream_ts_abs u <= clock ->
  let ts := s_stream_ts_abs u in
  let frame := frame_of (u32 (seq_of (s_istream u) + 1)) ts 0 body in
  exists u' st', thread_iter writev clock rendered poll u st
      = Ok (if writev frame <? 0 then Failed else poll_end poll, [frame], u', st') /\
    tx_ok (s_istream u') /\ seq_of (s_istream u') = u32 (seq_of (s_istream u) + 1) /\
    ih_timestamp (h_iw (iw_wi_h (s_istream u'))) = ts /\ s_chunk u' = rendered /\
    s_spec u' = s_spec u /\
    ((writev frame <? 0) = false -> st' = st /\ s_retries u' = 1 /\
       exists dur, pa_bytes_to_usec (mc_length rendered) (s_spec u) = Ok dur /\
         s_stream_ts_abs u' = u64 (ts + dur) /\ s_stream_resend_abs u' = u64 (ts + dur / 2) /\
         s_timer u' = TimerAt (s_stream_resend_abs u')).
Proof.
  intros Hok Ha Htx Hs Ho Hts. cbv zeta.
  destruct (clear_rewind_fields u) as (E1 & E2 & E3 & E4 & E5 & E6 & E7).
  unfold thread_iter. rewrite Ho. cbv zeta.
  set (u0 := if s_rewind_requested u then clear_rewind u else u) in *. rewrite E1, E4, E6.
  rewrite (proj2 (Z.leb_le _ _)) by done.
  assert (0 < mc_length rendered) as Hpos by (destruct Ha as ((? & _ & _ & _ & ? & _) & _); done).
  rewrite pa_assert_true, bind_ok by blia.
  destruct (send_chunk_spec writev (s_stream_ts_abs u) 0 rendered (s_istream u) st body Hok Ha Htx
    ltac:(lia)) as (iw' & st' & E & Htx' & Hseq & Hts' & Hst).
  unfold next_seq in *. simpl in E, Hseq, Hst. rewrite E, bind_ok.
  destruct (writev _ <? 0) eqn:Ew; simpl.
  - eexists _, _. split; [done|]. split_and!; try done.
  - rewrite (pa_bytes_to_usec_ok _ Hs), bind_ok. cbv zeta.
    eexists _, _. split; [done|]. split_and!; try done. intros _. split; [by apply Hst|].
    split; [done|]. eexists. split_and!; done.
Qed.

(** An iteration that repeats the last packet. *)
Lemma iter_repeat writev clock rendered poll u st body : store_ok st ->
  audio st (s_chunk u) body -> tx_ok (s_istream u) -> PA_SINK_IS_OPENED (s_state u) = true ->
  clock < s_stream_ts_abs u -> s_stream_resend_abs u <= clock -> s_retries u = 1 ->
  let frame := frame_of (seq_of (s_istream u)) (ih_timestamp (h_iw (iw_wi_h (s_istream u)))) 1 body in
  exists u' st', thread_iter writev clock rendered poll u st
      = Ok (if writev frame <? 0 then Failed else poll_end poll, [frame], u', st') /\
    tx_ok (s_istream u') /\ seq_of (s_istream u') = seq_of (s_istream u) /\ s_spec u' = s_spec u /\
    ((writev frame <? 0) = false -> s_retries u' = 2 /\ s_timer u' = TimerAt (s_stream_ts_abs u) /\
       s_stream_ts_abs u' = s_stream_ts_abs u).
Proof.
  intros Hok Ha Htx Ho Hts Hre Hr1. cbv zeta.
  destruct (clear_rewind_fields u) as (E1 & E2 & E3 & E4 & E5 & E6 & E7).
  unfold thread_iter. rewrite Ho. cbv zeta.
  set (u0 := if s_rewind_requested u then clear_rewind u else u) in *. rewrite E1, E2, E3, E4, E5.
  rewrite (proj2 (Z.leb_gt _ _)), (proj2 (Z.leb_le _ clock)), Hr1 by done. simpl andb. cbn iota.
  destruct (send_chunk_spec writev (ih_timestamp (h_iw (iw_wi_h (s_istream u)))) 1 (s_chunk u)
    (s_istream u) st body Hok Ha Htx ltac:(lia)) as (iw' & st' & E & Htx' & Hseq & Hts' & Hst).
  unfold next_seq in *. simpl in E, Hseq, Hst. rewrite E, bind_ok.
  destruct (writev _ <? 0) eqn:Ew; simpl.
  - eexists _, _. split; [done|]. split_and!; try done.
  - rewrite (Hst eq_refl). destruct Ha as ((id & Em & Hr & _) & _). rewrite Em. simpl.
    destruct (pa_memblock_unref_spec st id Hok Hr) as (st2 & E8 & _). rewrite E8. simpl.
    eexists _, _. split; [done|]. split_and!; done.
Qed.

(** ** Traces *)

(** A frame is handed to the kernel, or the time line starts anew. *)
Inductive air_event :=
| Sent (frame : list Z)
| Restarted (now : Z).

(** What the thread may do with audio in format [sp], from a state with
    sequence number [s], with [t] the time of the next packet and, if the last
    packet was sent only once, its time stamp and body. *)
Inductive paced (sp : pa_sample_spec) : Z -> Z -> option (Z * list Z) -> list air_event -> Prop :=
| paced_end s t p : paced sp s t p []
| paced_failed s t p body : paced sp s t p [Sent (frame_of (u32 (s + 1)) t 0 body)]
| paced_new s t p body dur es : pa_bytes_to_usec (Z.of_nat (length body)) sp = Ok dur ->
    paced sp (u32 (s + 1)) (u64 (t + dur)) (Some (t, body)) es ->
    paced sp s t p (Sent (frame_of (u32 (s + 1)) t 0 body) :: es)
| paced_again s t ts body es : paced sp s t None es ->
    paced sp s t (Some (ts, body)) (Sent (frame_of s ts 1 body) :: es)
| paced_restart s t p now es : paced sp s now p es -> paced sp s t p (Restarted now :: es).

(** Runs of the thread: iterations, with the rest of the program changing the
    store in between but not taking away the reference on the chunk that is to
    be repeated, and the callbacks of the sink.  A change of state from before the
    start or from suspension starts the time line anew. *)
Definition restart (u : userdata) (now : Z) : list air_event :=
  match s_state u with PA_SINK_SUSPENDED | PA_SINK_INIT => [Restarted now] | _ => [] end.

Inductive sink_trace (writev : list Z -> Z) : userdata -> store -> list air_event -> Prop :=
| tr_end u st : sink_trace writev u st []
| tr_iter u st st1 clock rendered body poll e fs u' st' es :
    store_ok st1 -> keeps st st1 ->
    (s_retries u = 1 -> forall id, mc_memblock (s_chunk u) = Some id -> 0 < refs st1 id) ->
    audio st1 rendered body ->
    thread_iter writev clock rendered poll u st1 = Ok (e, fs, u', st') ->
    (e <> Again -> es = []) -> sink_trace writev u' st' es -> sink_trace writev u st ((Sent <$> fs) ++ es)
| tr_state u st now x es :
    sink_trace writev (set_state x (sink_set_state_in_io_thread_cb now x u)) st es ->
    sink_trace writev u st (restart u now ++ es)
| tr_latency u st requested u' es :
    sink_update_requested_latency_cb requested u = Ok u' ->
    sink_trace writev u' st es -> sink_trace writev u st es.

(** The packet that is still to be repeated. *)
Definition to_repeat (u : userdata) (st : store) (p : option (Z * list Z)) : Prop :=
  match p with
  | Some (ts, body) => s_retries u = 1 /\ audio st (s_chunk u) body /\
      ts = ih_timestamp (h_iw (iw_wi_h (s_istream u)))
  | None => s_retries u = 0 /\ mc_memblock (s_chunk u) = None \/ s_retries u = 2
  end.

Lemma audio_keeps st st1 c body : keeps st st1 -> audio st c body ->
  (forall id, mc_memblock c = Some id -> 0 < refs st1 id) -> audio st1 c body.
Proof.
  intros K (Hc & Hb & Hl) Hr. destruct (chunk_in_keeps _ _ _ K Hc Hr) as [Hc' Eb].
  split_and!; [done|by rewrite Eb|done].
Qed.

(** The part of the state that decides what is sent. *)
Definition unchanged (u u' : userdata) : Prop :=
  s_stream_ts_abs u' = s_stream_ts_abs u /\ s_retries u' = s_retries u /\
  s_istream u' = s_istream u /\ s_chunk u' = s_chunk u /\ s_spec u' = s_spec u.

(** With nothing to repeat, the resend branch is not taken: after two sends
    [retries] forbids it, and before the first one there is no chunk. *)
Lemma iter_idle writev clock rendered poll u st {e fs u' st'} :
  PA_SINK_IS_OPENED (s_state u) = true -> clock < s_stream_ts_abs u -> s_stream_resend_abs u <= clock ->
  to_repeat u st None -> thread_iter writev clock rendered poll u st = Ok (e, fs, u', st') ->
  fs = [] /\ st' = st /\ unchanged u u'.
Proof.
  intros Ho Hts Hre Hp E. unfold thread_iter in E. rewrite Ho in E.
  destruct (clear_rewind_fields u) as (E1 & E2 & E3 & E4 & E5 & E6 & E7).
  set (u0 := if s_rewind_requested u then clear_rewind u else u) in *.
  rewrite E1, E2, E3, E4, E5 in E.
  rewrite (proj2 (Z.leb_gt _ clock)), (proj2 (Z.leb_le _ clock)) in E by lia.
  destruct Hp as [[Hr0 Hc]|Hr2].
  - rewrite Hr0 in E. simpl in E. unfold send_chunk in E. by rewrite Hc in E.
  - rewrite Hr2 in E. simpl in E. injection E as _ <- <- <-. done.
Qed.

(** An iteration that does nothing but wait. *)
Lemma iter_waits writev clock rendered poll u st e fs u' st' :
  PA_SINK_IS_OPENED (s_state u) = false \/ clock < s_stream_ts_abs u /\ clock < s_stream_resend_abs u ->
  thread_iter writev clock rendered poll u st = Ok (e, fs, u', st') ->
  fs = [] /\ st' = st /\ unchanged u u'.
Proof.
  intros Hw E. unfold thread_iter in E.
  destruct (clear_rewind_fields u) as (E1 & E2 & E3 & E4 & E5 & E6 & E7).
  set (u0 := if s_rewind_requested u then clear_rewind u else u) in *.
  destruct Hw as [Ho|[Hts Hre]].
  - rewrite Ho in E. injection E as _ <- <- <-. done.
  - destruct (PA_SINK_IS_OPENED _); [|by injection E as _ <- <- <-].
    rewrite E1, E2 in E.
    rewrite (proj2 (Z.leb_gt _ clock)), (proj2 (Z.leb_gt _ clock)) in E by lia. simpl in E.
    by injection E as _ <- <- <-.
Qed.

Lemma to_repeat_unchanged u u' st p : unchanged u u' -> to_repeat u st p -> to_repeat u' st p.
Proof.
  intros (E1 & E3 & E4 & E5 & E6). destruct p as [[ts b]|]; simpl; by rewrite E3, E5, ?E4.
Qed.

(** One iteration, as one of the three. *)
Lemma iter_paced writev clock rendered poll u st body p e fs u' st' es :
  store_ok st -> audio st rendered body -> tx_ok (s_istream u) -> spec_ok (s_spec u) ->
  to_repeat u st p -> thread_iter writev clock rendered poll u st = Ok (e, fs, u', st') ->
  (e <> Again -> es = []) ->
  (forall p', tx_ok (s_istream u') -> spec_ok (s_spec u') -> to_repeat u' st' p' ->
     paced (s_spec u') (seq_of (s_istream u')) (s_stream_ts_abs u') p' es) ->
  paced (s_spec u) (seq_of (s_istream u)) (s_stream_ts_abs u) p ((Sent <$> fs) ++ es).
Proof.
  intros Hok Ha Htx Hs Hp E He IH.
  assert (st' = st /\ fs = [] /\ unchanged u u' ->
    paced (s_spec u) (seq_of (s_istream u)) (s_stream_ts_abs u) p ((Sent <$> fs) ++ es)) as Hwait.
  { intros (-> & -> & Hu). simpl. pose proof Hu as (E1 & E3 & E4 & E5 & E6).
    rewrite <- E1, <- E4, <- E6. apply IH; [by rewrite E4|by rewrite E6|by eapply to_repeat_unchanged]. }
  destruct (PA_SINK_IS_OPENED (s_state u)) eqn:Ho.
  2: { apply iter_waits in E as (? & ? & ?); [by apply Hwait|by left]. }
  destruct (Z.le_gt_cases (s_stream_ts_abs u) clock) as [Hts|Hts].
  { destruct (iter_render writev clock rendered poll u st body Hok Ha Htx Hs Ho Hts)
      as (u1 & st1 & E1 & Htx1 & Hseq & Hts1 & Hc & Hsp & Hrest). rewrite E in E1.
    injection E1 as -> -> -> ->. simpl.
    destruct (writev _ <? 0); [rewrite He by done; apply paced_failed|].
    destruct (Hrest eq_refl) as (-> & Hr1 & dur & Ed & Et & _).
    rewrite (audio_length _ _ _ Ha) in Ed. apply (paced_new _ _ _ _ _ _ _ Ed).
    rewrite <- Hseq, <- Et, <- Hsp. apply IH; [done|by rewrite Hsp|]. simpl. by rewrite Hc, Hts1. }
  destruct (Z.le_gt_cases (s_stream_resend_abs u) clock) as [Hre|Hre].
  2: { apply iter_waits in E as (? & ? & ?); [by apply Hwait|by right]. }
  destruct p as [[ts b]|].
  - destruct Hp as (Hr1 & Hac & ->).
    destruct (iter_repeat writev clock rendered poll u st b Hok Hac Htx Ho Hts Hre Hr1)
      as (u1 & st1 & E1 & Htx1 & Hseq & Hsp & Hrest). rewrite E in E1. injection E1 as -> -> -> ->.
    simpl. apply paced_again. destruct (writev _ <? 0); [rewrite He by done; constructor|].
    destruct (Hrest eq_refl) as (Hr2 & _ & Et). rewrite <- Hseq, <- Et, <- Hsp.
    apply IH; [done|by rewrite Hsp|by right].
  - apply (iter_idle _ _ _ _ _ _ Ho Hts Hre Hp) in E as (-> & -> & Hu). by apply Hwait.
Qed.


(** ** Claims *)

(** C8: every run of the sending thread puts on the air a sequence of new
    packets, each with the next sequence number, each sent at most once more,
    unchanged but for its retry counter and before the next packet; the time
    stamp of a new packet is that of the packet before plus the play time of that
    packet's audio, so the stamps never drift from the audio, whatever the clock
    did in between.  Only when the sink leaves suspension, or starts, the next
    time stamp is the clock of that moment. *)
Theorem sink_sends_paced writev u st es p :
  tx_ok (s_istream u) -> spec_ok (s_spec u) -> to_repeat u st p -> sink_trace writev u st es ->
  paced (s_spec u) (seq_of (s_istream u)) (s_stream_ts_abs u) p es.
Proof.
  intros Htx Hs Hp T. revert p Htx Hs Hp.
  induction T as [u st|u st st1 clock rendered body poll e fs u' st' es Hok K Hr Ha E He T IH
    |u st now x es T IH|u st req u' es E T IH]; intros p Htx Hs Hp.
  - constructor.
  - assert (to_repeat u st1 p) as Hp1.
    { destruct p as [[ts b]|]; [|done]. destruct Hp as (? & ? & ?). split_and!; try done.
      eapply audio_keeps; eauto. }
    eapply iter_paced; eauto.
  - unfold sink_set_state_in_io_thread_cb, restart in *.
    destruct (s_state u); try apply paced_restart; apply IH; try done; destruct p as [[ts b]|]; exact Hp.
  - assert (unchanged u u') as Hu.
    { unfold sink_update_requested_latency_cb in E.
      destruct (_ =? _); rewrite ?outcome_bind_assoc in E;
        repeat (apply outcome_bind_Ok in E as (? & _ & E)); by injection E as <-. }
    pose proof Hu as (E1 & E3 & E4 & E5 & E6). rewrite <- E1, <- E4, <- E6.
    apply IH; [by rewrite E4|by rewrite E6|by eapply to_repeat_unchanged].
Qed.

(** A thread that is woken up between a packet and its repetition, by a
    message say, sets its timer to the time of the next packet instead of the
    repetition; at that time it renders, so the packet is not repeated, and the
    reference on its block is not given back although the pointer is gone. *)
Theorem early_wakeup_drops_repeat writev c1 c2 r1 rendered poll1 poll2 u st body :
  store_ok st -> audio st rendered body -> tx_ok (s_istream u) -> spec_ok (s_spec u) ->
  PA_SINK_IS_OPENED (s_state u) = true -> s_retries u = 1 ->
  c1 < s_stream_resend_abs u -> c1 < s_stream_ts_abs u -> s_stream_ts_abs u <= c2 ->
  (forall frame, 0 <= writev frame) ->
  exists u1 u2, thread_iter writev c1 r1 poll1 u st = Ok (poll_end poll1, [], u1, st) /\
    s_timer u1 = TimerAt (s_stream_ts_abs u) /\ s_chunk u1 = s_chunk u /\
    thread_iter writev c2 rendered poll2 u1 st =
      Ok (poll_end poll2, [frame_of (u32 (seq_of (s_istream u) + 1)) (s_stream_ts_abs u) 0 body], u2, st) /\
    s_chunk u2 = rendered.
Proof.
  intros Hok Ha Htx Hs Ho Hr Hc1 Hc1' Hc2 Hw.
  destruct (clear_rewind_fields u) as (E1 & E2 & E3 & E4 & E5 & E6 & E7).
  set (u0 := if s_rewind_requested u then clear_rewind u else u) in *.
  set (u1 := set_timer (TimerAt (s_stream_ts_abs u)) u0).
  destruct (iter_render writev c2 rendered poll2 u1 st body) as (u2 & st2 & E & _ & _ & _ & Hc & _ & Hrest);
    [done|done|by rewrite <- E4 in Htx|by rewrite <- E6 in Hs|by rewrite <- E7 in Ho|by rewrite <- E1 in Hc2|].
  rewrite (proj2 (Z.ltb_ge _ _)) in E, Hrest by apply Hw. destruct (Hrest eq_refl) as [-> _].
  exists u1, u2. split_and!; [|done|done| |done].
  - unfold thread_iter. rewrite Ho. fold u0. rewrite E1, E2.
    by rewrite (proj2 (Z.leb_gt _ c1)), (proj2 (Z.leb_gt _ c1)) by lia.
  - rewrite E. change (s_istream u1) with (s_istream u0). change (s_stream_ts_abs u1) with (s_stream_ts_abs u0).
    by rewrite E1, E4.
Qed.

(** The play time of the longest packet: 1400 bytes in whole frames. *)
Definition max_block_usec (sp : pa_sample_spec) : Z :=
  1400 / frame_size sp * PA_USEC_PER_SEC / ss_rate sp.

Lemma max_frames_bound sp : spec_ok sp -> 0 <= 1400 / frame_size sp <= 1400.
Proof.
  intros Hs. pose proof (frame_size_bound _ Hs).
  split; [apply Z.div_pos; lia|apply Z.div_le_upper_bound; lia].
Qed.

Lemma max_block_usec_bound sp : spec_ok sp -> 0 <= max_block_usec sp <= 1400 * PA_USEC_PER_SEC.
Proof.
  intros Hs. pose proof (frame_size_bound _ Hs). destruct (spec_ok_inv _ Hs) as (Hr & _).
  pose proof (max_frames_bound _ Hs).
  unfold max_block_usec, PA_USEC_PER_SEC in *. split; [apply Z.div_pos; lia|].
  apply Z.div_le_upper_bound; nia.
Qed.

Lemma request_fits sp t : spec_ok sp -> 0 <= t <= max_block_usec sp ->
  pa_usec_to_bytes t sp = Ok (t * ss_rate sp / PA_USEC_PER_SEC * frame_size sp) /\
  t * ss_rate sp / PA_USEC_PER_SEC <= 1400 / frame_size sp.
Proof.
  intros Hs Ht. pose proof (frame_size_bound _ Hs). destruct (spec_ok_inv _ Hs) as (Hr & _).
  pose proof (max_frames_bound _ Hs).
  assert (t * ss_rate sp <= 1400 / frame_size sp * PA_USEC_PER_SEC) as Hb.
  { unfold max_block_usec in Ht.
    pose proof (Z.mul_div_le (1400 / frame_size sp * PA_USEC_PER_SEC) (ss_rate sp) ltac:(lia)). nia. }
  assert (t * ss_rate sp / PA_USEC_PER_SEC <= 1400 / frame_size sp) as Hq
    by (apply Z.div_le_upper_bound; unfold PA_USEC_PER_SEC in *; lia).
  assert (0 <= t * ss_rate sp / PA_USEC_PER_SEC) by (apply Z.div_pos; unfold PA_USEC_PER_SEC in *; nia).
  split; [|done]. rewrite (pa_usec_to_bytes_ok _ Hs).
  rewrite (u64_small (t * _)) by (unfold PA_USEC_PER_SEC in *; nia). rewrite u64_small by nia. done.
Qed.

(** C37: whatever latency is requested within the range the module announces,
    or none, the size asked from the core for a packet is a whole number of
    frames and at most 1400 bytes; without a request it is the largest such
    size and the latency is its play time. *)
Theorem requested_packet_fits sp requested u :
  spec_ok sp -> s_spec u = sp -> 0 <= requested <= max_block_usec sp \/ requested = SIZE_MAX ->
  exists u', sink_update_requested_latency_cb requested u = Ok u' /\ s_max_rewind u' = 0 /\
    0 <= s_max_request u' <= 1400 /\ s_max_request u' mod frame_size sp = 0 /\
    (requested = SIZE_MAX -> 1400 < s_max_request u' + frame_size sp /\ s_block_usec u' = max_block_usec sp) /\
    (requested <> SIZE_MAX -> s_block_usec u' = requested).
Proof.
  intros Hs <- Hr. pose proof (frame_size_bound _ Hs). destruct (spec_ok_inv _ Hs) as (Hra & _).
  pose proof (max_block_usec_bound _ Hs) as Hmb.
  pose proof (round_down_le 1400 (frame_size (s_spec u)) ltac:(lia) ltac:(lia)).
  unfold sink_update_requested_latency_cb. destruct Hr as [Hr| ->].
  - rewrite (proj2 (Z.eqb_neq _ _)) by (unfold SIZE_MAX, PA_USEC_PER_SEC in *; lia).
    destruct (request_fits _ _ Hs Hr) as [-> Hq]. rewrite bind_ok.
    assert (0 <= requested * ss_rate (s_spec u) / PA_USEC_PER_SEC)
      by (apply Z.div_pos; unfold PA_USEC_PER_SEC in *; nia).
    eexists. split; [done|]. simpl. split_and!; try done; [nia|nia|by apply Z.mod_mul; lia|].
    intros ->. unfold SIZE_MAX, PA_USEC_PER_SEC in *. lia.
  - rewrite Z.eqb_refl. unfold MAX_FRAME_SIZE. rewrite (pa_frame_align_ok _ Hs), bind_ok by lia.
    rewrite (pa_bytes_to_usec_ok _ Hs), bind_ok. eexists. split; [done|]. simpl.
    split_and!; try done; [lia|lia|by apply Z.mod_mul; lia|]. intros _.
    pose proof (round_down_lt 1400 (frame_size (s_spec u)) ltac:(lia)). split; [lia|].
    rewrite Z.div_mul by lia. unfold max_block_usec. rewrite u64_small; [done|].
    unfold PA_USEC_PER_SEC. pose proof (max_frames_bound _ Hs). lia.
Qed.





(** ** Witnesses *)

Module SinkExample.
Definition spec : pa_sample_spec := mk_sample_spec 3 44100 2.
Definition chunk : pa_memchunk := mk_chunk (Some 1) 0 4.
Definition st0 : store := MCExample.st0.
Definition body4 : list Z := [10; 11; 12; 13].
Definition ok_writev (frame : list Z) : Z := Z.of_nat (length frame).

(** A running sink whose thread started at time 1000, and one whose first
    packet is still to be repeated. *)
Definition u0 : userdata :=
  set_state PA_SINK_RUNNING (thread_start 1000 (sink_loaded spec iwab_setup 1400 7936)).
Definition u1 : userdata := set_send iwab_setup chunk 1 1011 1022 (TimerAt 1011) u0.

Definition result {A} (d : A) (m : outcome A) : A := match m with Ok a => a | _ => d end.
Definition step (clock : Z) (u : userdata) (st : store) : iter_end * list (list Z) * userdata * store :=
  result (Again, [], u, st) (thread_iter ok_writev clock chunk 1 u st).
Definition u2 : userdata := snd (fst (step 1000 u0 st0)).
Definition st2 : store := snd (step 1000 u0 st0).
Definition u3 : userdata := snd (fst (step 1012 u2 st2)).
Definition st3 : store := snd (step 1012 u2 st2).

Lemma audio0 : audio st0 chunk body4.
Proof. split_and!; [exists 1; by vm_compute|by vm_compute|by vm_compute]. Qed.

Lemma st2_eq : st2 = st0.
Proof. by vm_compute. Qed.

(** The first packet at 1000, its repetition at 1012, a suspension and its end at
    5000. *)
Definition events0 : list air_event := [Sent (frame_of 1 1000 0 body4); Sent (frame_of 1 1000 1 body4); Restarted 5000].

Lemma trace0 : sink_trace ok_writev u0 st0 events0.
Proof.
  change events0 with ((Sent <$> [frame_of 1 1000 0 body4]) ++ ((Sent <$> [frame_of 1 1000 1 body4]) ++ ([] ++ ([Restarted 5000] ++ [])))).
  eapply (tr_iter _ _ _ st0 1000 chunk body4 1 Again _ u2 st2);
    [exact MCExample.st0_ok|apply keeps_refl|done|exact audio0|by vm_compute|done|].
  rewrite st2_eq. eapply (tr_iter _ _ _ st0 1012 chunk body4 1 Again _ u3 st3);
    [exact MCExample.st0_ok|apply keeps_refl| |exact audio0|by vm_compute|done|].
  - intros _ id E. replace id with 1; [by vm_compute|]. vm_compute in E. congruence.
  - apply (tr_state ok_writev u3 st3 4000 PA_SINK_SUSPENDED).
    apply (tr_state ok_writev (set_state PA_SINK_SUSPENDED u3) st3 5000 PA_SINK_RUNNING). constructor.
Qed.

Lemma sink_spec_fine : spec_ok spec.
Proof. split; [by vm_compute|simpl; lia]. Qed.

End SinkExample.
Import SinkExample.

Lemma sink_sends_paced_witness :
  paced spec 0 1000 None [Sent (frame_of 1 1000 0 body4); Sent (frame_of 1 1000 1 body4); Restarted 5000].
Proof.
  apply (sink_sends_paced ok_writev u0 st0 _ None);
    [exact tx_ok_setup|exact sink_spec_fine|by left|exact trace0].
Defined.

Lemma early_wakeup_drops_repeat_witness : exists v1 v2,
  thread_iter ok_writev 1005 chunk 1 u1 st0 = Ok (Again, [], v1, st0) /\
  thread_iter ok_writev 1022 chunk 1 v1 st0 = Ok (Again, [frame_of 1 1022 0 body4], v2, st0).
Proof.
  destruct (early_wakeup_drops_repeat ok_writev 1005 1022 chunk chunk 1 1 u1 st0 body4)
    as (v1 & v2 & E1 & _ & _ & E2 & _);
    [exact MCExample.st0_ok|exact audio0|exact tx_ok_setup|exact sink_spec_fine|done|done|done|done|done| |].
  - intros frame. unfold ok_writev. lia.
  - exists v1, v2. split; [exact E1|exact E2].
Defined.

Lemma requested_packet_fits_witness : exists u',
  sink_update_requested_latency_cb SIZE_MAX u0 = Ok u' /\ 0 <= s_max_request u' <= 1400.
Proof.
  destruct (requested_packet_fits spec SIZE_MAX u0) as (u' & E & _ & Hm & _);
    [exact sink_spec_fine|done|by right|]. exists u'. split; [exact E|exact Hm].
Defined.

